(* ===== verification/_CoqProject ===== *)
-Q . S2P
Prelude.v
SeqSpace.v
TcpOptions.v
Segment.v
Rto.v
Congestion.v
SendBuf.v
RecvBuf.v
Transfer.v
ConnState.v
ConnOps.v
ConnApp.v
ConnInv.v
ConnSafe.v
ConnReach.v
ConnProps.v
Handshake.v
ConnClose.v
FileFrame.v
FilePath.v
FileRecv.v
FileCodec.v
FileSend.v
FileSafe.v
FileTransfer.v
GoLib.v
Compression.v
RelayPool.v
RelayPoolProps.v
StablePeers.v
Protocols.v
TunnelAddr.v
Tunnel.v
TunnelUdp.v
Drift.v
IrohCodec.v
IrohConn.v
IrohPool.v
IrohProps.v
PeerDB.v
PrivateIP.v
PeerAddr.v
AddrMgr.v
HostEvents.v
PeerStore.v
DnsAddrs.v
RelayManager.v
Announce.v
Offline.v
TurnPool.v
PeerExchange.v
PubSub.v
Events.v
GossipSub.v
TurnPeer.v
TurnServer.v
Pipe.v
DDLog.v
ExecEcho.v
Trackers.v
Discovery.v
KeyValue.v
NodeApi.v
RcResources.v
RcScope.v
RcScopeProps.v
RcAccount.v
RcLimits.v
RcUse.v
ConnLimiter.v
ResourceManager.v
RcMove.v
ManagerInv.v
ManagerOps.v
ManagerGc.v
ManagerProps.v
Allowlist.v
AddrBook.v
Swarm.v
CircuitRelay.v
