(* ===== verification/Prelude.v ===== *)
(** * A verification of libp2px: virtual TCP, file transfer, tunnels, relays

    The repository is a peer-to-peer toolkit in Go.  Its own protocol logic is
    in a few packages.  src/vtcp is a TCP engine that works on raw segments: it
    is fed by [HandleSegment] and by the application's calls and hands back the
    packets to send.  src/p2put wraps a libp2p host: on its streams it moves
    files (relayfile.go, filecomp.go), forwards published messages
    (pso_nopubsub.go) and exchanges what it knows of peers (pushid.go), and
    beside it it keeps a scored pool of relays (relaypool.go, managed from
    libp2p_bs.go), connections to iroh and TURN relays (irohrelay.go,
    turnpool.go, turnpeer.go), tables of peers and addresses (peerdb.go,
    stable_peers.go, addrmgr.go), a detector of being offline (offline.go), the
    registry of protocol handlers (user_protocols.go) and the events of its HTTP
    API (utapi.go, restapi.go), follows the events of its host (libp2p_bs.go), and
    finds peers through trackers, DNS names and what it knows (mydiscovery.go,
    jamitracker.go, multidns.go, libp2p_bs_dht.go).  src/pbtunnel carries TCP connections and UDP
    datagrams over such streams (pbtunnel.go, httpproxy.go), src/pbexec and
    src/pbecho run commands and echo; they name their protocols through the
    registry.  src/dlog is the logger they share.  The host itself
    is a copy of go-libp2p kept under src/myvendor; of that are modelled the
    resource manager (p2p/host/resource-manager), which bounds what connections
    and streams may use and which p2put/config.go sets up, the address book of the
    peerstore, which the program saves and restores, the limits the swarm puts on
    dials, and the circuit relay.  This library models
    these parts and proves what makes them correct; the rest is listed at the end.

    ** Files, in dependency order

    - [Prelude]: machine integers as [Z] with their wrap-around ([wrap8] to
      [wrap32], [int32], [int64]), Go slices ([takeZ], [dropZ], [slice] with its
      bounds check), outcomes ([Ok] or [Panic]), the state monad [M] over them
      with its weakest preconditions [wp] (no panic) and [wlp], record update,
      reachability ([reachable]) and inevitability ([inevitable]) in a
      transition system, and shared lemmas.

    The virtual TCP engine, src/vtcp:

    - [SeqSpace] (seqspace.go): comparisons of 32-bit sequence numbers, and the
      register [seq_at base p] that a stream position [p] has.
    - [TcpOptions] (options.go), [Segment] (segment.go): the wire format.
    - [Rto] (rto.go): the retransmission timeout, in 64-bit nanoseconds.
    - [Congestion] (congestion.go): the interface [CongestionController] as a
      type class with laws, its NewReno and HighSpeed instances.  The float64
      operations of HighSpeed are the parameter [Float64], instantiated by
      rational arithmetic ([Q_float]) in the witnesses.
    - [SendBuf] (sendbuf.go), [RecvBuf] (recvbuf.go): the two buffers, each with
      an abstract stream and a refinement theorem.
    - [Transfer]: the two buffers joined by a network that loses, duplicates and
      reorders; end-to-end reliability and progress.
    - [ConnState], [ConnOps], [ConnApp] (conn.go, doc.go): the connection.  The
      record [Conn] has the fields of the Go struct less its addresses, its
      writer callback and its locks; each method is a definition of the same
      name in [M Conn].
    - [ConnInv], [ConnSafe], [ConnReach]: the invariant [conn_inv], that every
      handler keeps it, and the system of all operations ([conn_op],
      [conn_exec], [conn_reachable]).
    - [ConnProps]: flow control, acceptability, resets, delivery, windows, and
      giving up, on reachable connections.
    - [Handshake]: two fresh connections run through the three-way handshake.
    - [ConnClose]: what closing, refusing and over-long writes do in corners
      where the code differs from RFC 9293.

    File transfer, src/p2put/relayfile.go and filecomp.go:

    - [FileFrame]: the frames of a stream and the bitmap of received chunks.
    - [FilePath]: where a received file is put; filepath's [Clean], [Base], [Join].
    - [FileRecv]: the receiver, [HandleFileStream] and [receiveLoop], in the
      monad [M world]: the world has the session, the stream, the partial and
      the final file, and scripts of the faults of the operating system.
    - [FileCodec]: packing and unpacking of data frames.
    - [FileSend]: the sender [SendFile], cut at its blocking reads.
    - [FileSafe]: the receiver against arbitrary input.
    - [FileTransfer]: sender and receiver joined by two channels.
      JSON, zstd and SHA-256 are parameters with the laws the code relies on.
    - [Compression] (filecomp.go): whether a file is sent compressed.

    Relays, peers and protocols, src/p2put:

    - [GoLib]: interfaces for what these files use of Go's library: float64
      arithmetic ([PoolFloat]), [sort.Slice] ([SortSlice], any permutation that
      is sorted), the order of a range over a map ([MapOrder], any order), each
      a class with laws and an instance.
    - [GoLib.Base64]: encoding/base64, with its round trip.
    - [RelayPool], [RelayPoolProps] (relaypool.go): the two-tier pool.
    - [StablePeers] (stable_peers.go): the table of stable peers.
    - [Protocols] (user_protocols.go): the registry and the host's handlers.

    Tunnels, src/pbtunnel:

    - [TunnelAddr] (pbtunnel.go): ports in protocol names; [Dial], [targetAddr].
    - [Tunnel] (pbtunnel.go, httpproxy.go): the three TCP tunnels, each two
      goroutines that copy and what they close, and the framing of datagrams.
    - [TunnelUdp] (pbtunnel.go): the client's UDP connection, joined to the UDP
      handler of the other end, and the UDP server with its session table.
    - [Drift] (pbtunnel.go): the peer a local address stands for, and the CONNECT
      request of the HTTP client.

    Iroh relays, src/p2put/irohrelay.go:

    - [IrohCodec]: LEB128 numbers, stream frames and datagrams.
    - [IrohConn]: one connection to a relay server, in [M relayConn]: handshake,
      keep-alive, back-off, and the frames it reads.
    - [IrohPool]: the multiplexed streams and the pool, in [M IrohRelayPool];
      stream objects are shared, so they live in a store and are named by their
      index.
    - [IrohProps]: stream numbers, the consistency of the tables under any calls
      and messages, and delivery from one pool to another through a relay.
      The relay server, signing and key derivation are parameters.

    Peers and addresses, src/p2put:

    - [PeerDB] (peerdb.go): the database of peers seen; [view] is what it shows.
    - [PrivateIP], [PeerAddr] (utils.go, pushid.go, libp2p_bs.go): addresses and
      their classes; a multiaddress is its text, parsed by the class
      [Multiaddrs].
    - [AddrMgr] (addrmgr.go): the addresses the node announces.
    - [HostEvents] (libp2p_bs.go): the loop [myEventSuber] over the events of the
      host, as steps on the part of [BootNode] it changes.
    - [PeerStore] (libp2p_bs.go): saving, loading and cleaning the peerstore.
    - [DnsAddrs] (multidns.go, libp2p_bs.go): resolving the bootstrap names, and the
      cache of the result.  The DNS is the class [Dns].
    - [RelayManager] (libp2p_bs.go): the start and the tick of
      [relayPoolManager], over [RelayPool] and [AddrMgr].
    - [Announce] (utils.go, libp2p_bs.go): [myAddrsFactory], and the ticks of
      [watchStaticRelays] over the same two.
    - [Offline] (offline.go): the detector of being offline.
    - [PeerExchange] (pushid.go): both sides of a push, over [PeerDB], [AddrMgr]
      and the permissions of [TurnPool]; a network of nodes that push.

    Messages and events, src/p2put:

    - [PubSub] (pso_nopubsub.go): suppression of duplicates, forwarding.
    - [Events] (utapi.go, restapi.go): event buffers, broadcast, the long poll.
    - [GossipSub] (pso_pubsub.go): subscriptions, the listener of a topic and
      forwarding, over the library as the class [PubsubLib].

    TURN relays, src/p2put:

    - [TurnPool] (turnpool.go): the table of servers and the permissions.
    - [TurnPeer] (turnpeer.go): what TURN code holds open ([world]), and the
      test peer.
    - [TurnServer] (turnpool.go): a server's main loop, its accept loop with the
      steps of a reallocation, and the accepted connections, as one transition
      system.
    - [Pipe] (iocopy.go, turnpool.go): two connections joined by copying in both
      directions, as [handleAccept2] does with what a relay accepts.

    The rest:

    - [DDLog] (src/dlog/ddlog.go): the logger that merges equal lines.
    - [ExecEcho] (src/pbexec, src/pbecho): the command and echo handlers.

    Discovery and the API, src/p2put:

    - [Trackers] (mydiscovery.go, jamitracker.go, jamidhtproxy.go): the calls of the
      HTTP trackers and of the DHT proxy; a service is a function from requests to
      answers.
    - [Discovery] (mydiscovery.go, libp2p_bs_dht.go): the loops that choose which
      peers to dial.
    - [KeyValue] (utapi.go, restapi.go, libp2p_bs_dht.go): the key-value calls over
      the DHT, the class [Dht], or the proxy, and their handler.
    - [NodeApi] (utapi.go, restapi.go): the listings and the sending of messages.

    The resource manager, src/myvendor/go-libp2p/p2p/host/resource-manager:

    - [RcResources] (scope.go): the counters of one scope and their limits, in
      64-bit arithmetic.
    - [RcScope] (scope.go): the scopes.  They point to each other (a span to its
      owner, a scope to those that constrain it) and are shared, so they live in
      a [heap] and are named by their address; a method is a definition in
      [M heap].
    - [RcScopeProps]: what a well-formed heap is ([heap_wf]); a reservation is
      granted along a whole chain or not at all.
    - [RcAccount], [RcUse]: [accounts h held] relates the counters of a heap to what
      its users hold ([holdings], ghost state); every operation keeps it.
    - [RcLimits] (limit.go, limit_defaults.go, p2put/config.go): configurations,
      their JSON, how a partial one is completed, and scaling.
    - [ConnLimiter] (conn_limiter.go): connections counted by address range.
    - [ResourceManager] (rcmgr.go, extapi.go): the manager, in [M resourceManager].
      Its connections and streams are tables by the address of their scope.
    - [RcMove]: a node that comes under other scopes keeps the accounts.
    - [ManagerInv]: the invariant [ok]: each scope has a role (the system scope,
      that of a peer, a stream...) and its edges are those of its role.
    - [ManagerOps], [ManagerGc]: each method returns and keeps the invariant.
    - [ManagerProps]: the manager over all its histories ([manager_step],
      [managed]).
    - [Allowlist] (allowlist.go): networks and peers that the limits spare, and the
      questions the manager asks ([Allowed], [AllowedPeerAndMultiaddr]).

    More of go-libp2p, src/myvendor/go-libp2p/p2p:

    - [AddrBook] (host/peerstore/pstoremem): the address book, 256 segments in
      [M], against a table of expiries, and the goroutine of an address stream.
      The byte of a peer's identifier that chooses its segment is read with a bounds
      check.
    - [Swarm] (net/swarm): the dial limiter with the dials it has started, and the
      black hole detector.
    - [CircuitRelay] (protocol/circuitv2/relay): reservations with their
      constraints, circuits, and copying under the data limit.

    ** How the code is modelled

    A method of [Conn] holds the connection's mutex from start to end, so it is
    one atomic step, and interleavings of goroutines are sequences of steps; so
    it is with the methods of the peer table and of the iroh pool.  Where a call
    takes its lock twice, each critical section is a step: [Add] and [RecordResult]
    of the relay pool insert or promote first and prune later; a connect request of
    the circuit relay begins its span, is checked, admitted and cleaned up in steps
    of their own, as is the relay's [Close]; so are [ListenUDP], [removeUDPSession] and
    [Close] of the UDP server, and [reallocate] of a TURN server.  The calls that
    wait on a condition variable ([Read], [Write], [Connect]) are split at the
    wait, the file sender at its reads from the stream.  A Go panic (nil
    dereference, slice bounds, division by zero, [log.Panicln]) is the outcome
    [Panic]; the frames of iroh relays are cut and indexed with [cut_to], [cut_from] and
    [at_index], which panic out of range, and the maps of the resource manager that
    start nil are options, written to with [map_set], which panics on nil.  The clock is an argument [now] of each step, and random draws are
    arguments.  The clock of the network that gossips is one for all nodes, each with
    its own skew.  A timer is the time at which it was set to fire; its callback
    may run at any time, as a callback that has lost the race for the mutex
    does.  Mutexes themselves are not modelled, nor what would block on them.  What a read from a socket or stream returns is an argument (a list of
    results), what a write accepts is a script of the [writer].  Log output and
    statistics counters nobody reads are left out.

    ** Fuel

    Loops that are not structural take fuel and panic when it runs out, so the
    theorems that exclude panics also prove termination: [flush_loop] has one
    turn per pending byte and one to stop, [write_loop] one per byte to write,
    [skip_sacked] and [RecvBuf_mergeOOO_loop] one per entry of their lists,
    [receive_loop] and [udp_from_stream] one per byte of input and one to stop
    (each frame takes at least its header), [writen_loop] one per scripted short
    write and two more (an unscripted write takes everything), [itoa_go] one per
    digit, [TrimSpace] one per byte, [next_on_fd] one per waiting job and one to
    stop, [copy_loop] one per byte and result of the source.  [resolveDNSAddrFully] follows DNS answers, which
    may never end: [resolve_returns_iff] says for which names some fuel is enough,
    and the theorems about it start from that.

    ** What the theorems show

    The buffers: any interleaving of operations refines the abstract streams.
    Transfer: what is read is a prefix of what was written, on a network whose
    packets are at most 2^30 bytes old, and bytes in flight can always be
    acknowledged.  The wire format: round trips and totality.
    The timeout and the congestion controllers: bounds on every run, overflow
    included.  The connection: no reachable state panics on any operation, the
    state moves along the TCP diagram only, emitted packets are well formed,
    windows are respected, stray segments and blind resets are harmless, data
    in order is delivered and acknowledged, retransmission gives up, and two
    connections that shake hands agree on numbers and options.

    File transfer: without faults every run ends with the file delivered; with
    any peer and any faults nothing but the announced file and its partial file
    is touched, and a file is put in place only with the hash that the INIT message
    announced; the one input that crashes the receiver is characterised.

    Relays and peers: the pool keeps to its high-water mark as long as no two calls
    overlap ([overfull_reachable] shows what an overlap does), and to its tiers always;
    it prunes what it should, and selects healthy relays only; the peer table keeps to
    its bound and shows who is online.  Protocols: replaying the registry on a
    new host has the effect of registering there.  Tunnels: ports and data
    arrive unchanged, in every run, over or not, and what ends a goroutine and what it
    then closes is said for each tunnel; datagrams keep their boundaries from the
    dialler to the handler and back, but for empty ones; the streams of the UDP
    server are accounted for as long as it listens once; and a reset ends a UDP
    connection for good.

    Iroh relays: stream numbers do not clash, no message makes the reader panic,
    silence of a server is noticed, what is written arrives (but for the first
    frame of a stream the other side does not know), and what makes the
    handshake panic.

    Peers: databases that get the same updates agree, the clean-up cannot be
    noticed, and nodes that gossip forget a peer nobody speaks to, the clocks' skew
    later than its time to live; what is
    announced and what counts as private is characterised; the relay manager
    keeps to its number.  Messages: duplicates within the retention time are
    dropped, what is published arrives when its frame is within what the reader
    takes (larger ones are lost, [large_message_lost]), an event buffer is resumed
    without gaps.  The offline detector follows streaks of samples and reports each
    change once.  TURN: the pool runs one loop per server, a test peer
    closes what it opens, what a server opens is accounted for as long as accepting
    fails and reallocating happens while its loop waits, and a pipe ends with both sides closed and in order what
    was sent.  The logger accounts for every line.

    Bootstrap and discovery: the bootstrap nodes are exactly the usable ends of the
    chains of DNS answers, and the peerstore survives a restart; the host's events
    have the effects that their history says; peers posted to a tracker are found,
    also when it cannot be reached but its fallback can; what is dialled is in the
    answers or the database.  A message on a topic is raised once to those who asked
    for it.  A virtual address stands for a peer with that address for good; the
    CONNECT request succeeds at the proxy's own answer.

    The resource manager: over all histories no scope exceeds its limits, every
    open scope accounts for exactly what is held under it, no address range has
    too many connections, no method panics where it may be called, and the collector
    disturbs nobody; a
    refused reservation leaves no trace.  The overflow tests of the memory check
    are exact; limits survive their JSON form and a configuration its partial one.
    The allowlist allows exactly what lies in its networks.

    go-libp2p: the address book gives out exactly what has not expired, whenever it
    is collected, and a stream gives each address once; the dial limiter counts
    the dials that run, forgets none but those cancelled or cleared and drains, and keeps to its descriptors as
    long as no dial is cancelled; a black hole is probed once in N requests; the
    relay keeps to its limits on reservations in half an hour and on circuits, and
    copies a prefix no longer than the limit.

    Theorems outside these groups record behaviour that differs from what a
    comment or a standard says, among them [close_overtakes_pending],
    [fin_retransmission_renumbers], [resume_leaves_hole], [busy_pool_not_pruned],
    [unregister_misses_wildcard], [lapsed_circuit_reannounced],
    [future_record_pins], [early_accept_failure_leaks], [stop_while_reallocating],
    [tunnel_waits], [close_race_leaks], [relisten_leaks], [overfull_reachable],
    [large_message_lost], [window_update_not_flushed], [equal_sequence_taken],
    [certified_only_added], [removed_circuit_announced],
    [failed_save_not_retried], [outage_is_cached], [dht_put_never_read],
    [unsubscribe_always_fails], [forwarded_copy_raised_again], [refusal_accepted],
    [long_head_leaks], [vlan_peer_unreachable], [unlimited_memory_wraps],
    [refused_connection_leaves_entry], [stream_increase_ignored],
    [closed_stream_keeps_protocol], [second_SetPeer_frees_a_place],
    [update_revives], [record_without_addresses], [less_both_ways],
    [cancelled_dial_exceeds_fd_limit], [slots_outlive_constraints] and
    [self_circuit_exceeds_limit].

    ** What is not modelled

    In vtcp, the writer callback and the trampoline [flushPackets] that drives
    it are outside the atomic steps.  In relayfile.go, the progress callbacks and
    the polling [ReceiveFile].  In user_protocols.go [OpenStream] and in pbtunnel
    the listeners and plain HTTP requests: they are calls of libp2p, net
    and net/http.  In turnpool.go the unused rate limiter and the unused handler
    that answers pings.  In pso_pubsub.go the parameters of
    GossipSub.  In mydiscovery.go the announcements signed with the host key and
    the loops that test one target peer; in libp2p_bs.go the set-up of the host
    ([Bootstrap], [mainLibp2p]), which is configuration of libp2p; in fixconn.go the
    loop that tries random known peers; in restapi.go handlers that print a listing.
    In the resource manager the trace, the metrics, the options and the reader of a
    configuration file; [SetLimit] is a definition but not part of the histories, as
    it may put a limit below what is in use.  [UpdateAddrs] of the address book is a
    definition but not part of the histories, for the same reason: it revives what
    has expired ([update_revives]).  In the relay the wire format, the vouchers and
    the deadlines; in the swarm all but the two limits.  The other packages of
    myvendor/go-libp2p are third-party code that is left out. *)
From Stdlib Require Import ZArith Lia.
From Stdlib Require Export ZifyBool.
From Stdlib Require Import Strings.Byte.
From stdpp Require Export base numbers option sets list.
From stdpp Require Import gmap.

#[global] Open Scope Z_scope.

(** * Machine integers *)

(** The value of a [w]-bit unsigned register holding [z]. *)
Definition wrap8 (z : Z) : Z := z mod 2 ^ 8.
Definition wrap16 (z : Z) : Z := z mod 2 ^ 16.
Definition wrap32 (z : Z) : Z := z mod 2 ^ 32.
Definition wrap64 (z : Z) : Z := z mod 2 ^ 64.

(** The two's complement reading of the low 32 (64) bits: Go's conversions
    [int32(z)] and [int64(z)]. *)
Definition int32 (z : Z) : Z :=
  let w := wrap32 z in if w <? 2 ^ 31 then w else w - 2 ^ 32.
Definition int64 (z : Z) : Z :=
  let w := wrap64 z in if w <? 2 ^ 63 then w else w - 2 ^ 64.

Definition is_u8 (z : Z) : Prop := 0 <= z < 2 ^ 8.
Definition is_u16 (z : Z) : Prop := 0 <= z < 2 ^ 16.
Definition is_u32 (z : Z) : Prop := 0 <= z < 2 ^ 32.
Definition is_i64 (z : Z) : Prop := - 2 ^ 63 <= z < 2 ^ 63.

Create HintDb vtcp.
Create Rewrite HintDb vtcp.

(** [mlia]: linear arithmetic with the machine-integer wrappers unfolded and
    [mod]/[div] replaced by their Euclidean equations. *)
Ltac unfold_int :=
  unfold wrap8, wrap16, wrap32, wrap64, is_u8, is_u16, is_u32, is_i64 in *.
Ltac mlia := unfold_int; Z.div_mod_to_equations; lia.

(** Turns every boolean comparison of integers in sight into the fact it
    decides, splitting the goal on the ones that steer an [if]. *)
Ltac zbool :=
  repeat match goal with
  | H : (_ && _)%bool = true |- _ => apply andb_prop in H; destruct H
  | H : (_ || _)%bool = false |- _ => apply orb_false_elim in H; destruct H
  | H : negb _ = true |- _ => apply negb_true_iff in H
  | H : negb _ = false |- _ => apply negb_false_iff in H
  | H : (_ <? _) = true |- _ => apply Z.ltb_lt in H
  | H : (_ <? _) = false |- _ => apply Z.ltb_ge in H
  | H : (_ <=? _) = true |- _ => apply Z.leb_le in H
  | H : (_ <=? _) = false |- _ => apply Z.leb_gt in H
  | H : (_ =? _) = true |- _ => apply Z.eqb_eq in H
  | H : (_ =? _) = false |- _ => apply Z.eqb_neq in H
  end.
Ltac zcase :=
  repeat (case_match; zbool; simplify_eq/=).

(** Splits a [Forall] over an explicit list into one goal per element. *)
Ltac split_Forall :=
  lazymatch goal with
  | |- Forall _ [] => apply Forall_nil_2
  | |- Forall _ (_ :: _) => apply Forall_cons_2; [|split_Forall]
  | |- _ => idtac
  end.

(** Closes a closed goal made of conjunctions, comparisons, equations and
    [Forall] over explicit lists by evaluating it. *)
Ltac compute_goal :=
  repeat match goal with
  | |- _ /\ _ => split
  | |- is_u32 _ => split
  | |- is_u16 _ => split
  | |- is_u8 _ => split
  | |- Forall ?P ?l =>
      let l' := eval hnf in l in
      change (Forall P l'); first [apply Forall_nil_2 | apply Forall_cons_2]; cbv beta
  end; vm_compute; congruence.

Lemma wrap32_range z : is_u32 (wrap32 z).
Proof. mlia. Qed.

Lemma wrap16_range z : is_u16 (wrap16 z).
Proof. mlia. Qed.

Lemma wrap8_range z : is_u8 (wrap8 z).
Proof. mlia. Qed.

Lemma wrap32_small z : is_u32 z -> wrap32 z = z.
Proof. intros H. apply Z.mod_small, H. Qed.

Lemma wrap16_small z : is_u16 z -> wrap16 z = z.
Proof. intros H. apply Z.mod_small, H. Qed.

Lemma wrap8_small z : is_u8 z -> wrap8 z = z.
Proof. intros H. apply Z.mod_small, H. Qed.

Lemma wrap32_wrap32_add a b : wrap32 (wrap32 a + b) = wrap32 (a + b).
Proof. unfold wrap32. rewrite Zplus_mod_idemp_l. done. Qed.

Lemma wrap32_sub_wrap32 a b : wrap32 (wrap32 a - wrap32 b) = wrap32 (a - b).
Proof. unfold wrap32. rewrite <- Zminus_mod. done. Qed.

Lemma wrap32_sub_l a b : wrap32 (wrap32 a - b) = wrap32 (a - b).
Proof. unfold wrap32. rewrite Zminus_mod_idemp_l. done. Qed.

Lemma int32_wrap32 z : int32 (wrap32 z) = int32 z.
Proof. unfold int32, wrap32. rewrite Z.mod_mod by lia. done. Qed.

Lemma int32_small d : - 2 ^ 31 <= d < 2 ^ 31 -> int32 d = d.
Proof. intros H. unfold int32. destruct (Z.ltb_spec (wrap32 d) (2 ^ 31)); mlia. Qed.

Lemma int32_range z : - 2 ^ 31 <= int32 z < 2 ^ 31.
Proof. unfold int32. destruct (Z.ltb_spec (wrap32 z) (2 ^ 31)); mlia. Qed.

Lemma int64_range z : is_i64 (int64 z).
Proof. unfold int64. destruct (Z.ltb_spec (wrap64 z) (2 ^ 63)); mlia. Qed.

Lemma int64_small d : is_i64 d -> int64 d = d.
Proof. intros H. unfold int64. destruct (Z.ltb_spec (wrap64 d) (2 ^ 63)); mlia. Qed.

#[export] Hint Resolve wrap32_range wrap16_range wrap8_range int64_range : vtcp.

(** * Bytes *)

Abbreviation byte := Init.Byte.byte.

#[global] Instance byte_eq_decision : EqDecision byte := Byte.byte_eq_dec.

Definition Z_of_byte (b : byte) : Z := Z.of_N (Byte.to_N b).

(** Go's conversion [byte(z)]: the low eight bits. *)
Definition byte_of_Z (z : Z) : byte :=
  default Byte.x00 (Byte.of_N (Z.to_N (wrap8 z))).

Lemma Z_of_byte_range b : 0 <= Z_of_byte b < 256.
Proof. unfold Z_of_byte. pose proof (Byte.to_N_bounded b). lia. Qed.

Lemma Z_of_byte_of_Z z : Z_of_byte (byte_of_Z z) = wrap8 z.
Proof.
  unfold byte_of_Z, Z_of_byte. pose proof (wrap8_range z) as [].
  destruct (Byte.of_N (Z.to_N (wrap8 z))) as [b|] eqn:E; cbn.
  - apply Byte.to_of_N in E. rewrite E. lia.
  - apply Byte.of_N_None_iff in E. lia.
Qed.

Lemma Z_of_byte_inj a b : Z_of_byte a = Z_of_byte b -> a = b.
Proof.
  unfold Z_of_byte. intros H. apply N2Z.inj in H.
  pose proof (Byte.of_to_N a) as Ha. pose proof (Byte.of_to_N b) as Hb.
  rewrite H in Ha. congruence.
Qed.

Lemma byte_of_Z_of_byte b : byte_of_Z (Z_of_byte b) = b.
Proof.
  apply Z_of_byte_inj. rewrite Z_of_byte_of_Z.
  apply wrap8_small, Z_of_byte_range.
Qed.

Lemma byte_of_Z_wrap8 z : byte_of_Z (wrap8 z) = byte_of_Z z.
Proof. apply Z_of_byte_inj. rewrite !Z_of_byte_of_Z. mlia. Qed.

(** ** Go slices as lists *)

Abbreviation len l := (Z.of_nat (length l)).

(** [l[i:j]] for indices in range. *)
Definition slice {A} (l : list A) (i j : Z) : list A :=
  take (Z.to_nat (j - i)) (drop (Z.to_nat i) l).

(** [l[i:]]. *)
Definition dropZ {A} (i : Z) (l : list A) : list A := drop (Z.to_nat i) l.
(** [l[:i]]. *)
Definition takeZ {A} (i : Z) (l : list A) : list A := take (Z.to_nat i) l.

Lemma length_dropZ {A} i (l : list A) :
  0 <= i <= len l -> len (dropZ i l) = len l - i.
Proof. intros H. unfold dropZ. rewrite length_drop. lia. Qed.

Lemma length_takeZ {A} i (l : list A) :
  0 <= i <= len l -> len (takeZ i l) = i.
Proof. intros H. unfold takeZ. rewrite length_take. lia. Qed.

Lemma length_takeZ_min {A} n (xs : list A) : 0 <= n -> len (takeZ n xs) = Z.min n (len xs).
Proof. intros H. unfold takeZ. rewrite length_take. lia. Qed.

Lemma take_dropZ {A} i (l : list A) : takeZ i l ++ dropZ i l = l.
Proof. apply take_drop. Qed.

(** ** Big-endian integers ([encoding/binary.BigEndian]) *)

(** [PutUint16/32/64]: the [n] low bytes of [z], most significant first. *)
Fixpoint be_put (n : nat) (z : Z) : list byte :=
  match n with
  | O => []
  | S m => byte_of_Z (Z.shiftr z (8 * Z.of_nat m)) :: be_put m z
  end.

(** [Uint16/32/64]. *)
Definition be_get (l : list byte) : Z :=
  foldl (fun acc b => acc * 256 + Z_of_byte b) 0 l.

Lemma length_be_put n z : length (be_put n z) = n.
Proof. induction n; simpl; auto. Qed.

Lemma be_get_snoc l b : be_get (l ++ [b]) = be_get l * 256 + Z_of_byte b.
Proof. unfold be_get. rewrite foldl_app. done. Qed.

Lemma be_put_snoc n z : be_put (S n) z = be_put n (Z.shiftr z 8) ++ [byte_of_Z z].
Proof.
  induction n as [|n IH]; [simpl; by rewrite Z.shiftr_0_r|].
  cbn [be_put app] in IH |- *. rewrite IH. f_equal. f_equal.
  rewrite Z.shiftr_shiftr by lia. f_equal. lia.
Qed.

Lemma be_get_put n z : be_get (be_put n z) = z mod 2 ^ (8 * Z.of_nat n).
Proof.
  revert z. induction n as [|n IH]; intros z; [by rewrite Z.mod_1_r|].
  rewrite be_put_snoc, be_get_snoc, IH, Z_of_byte_of_Z.
  rewrite Z.shiftr_div_pow2 by lia. unfold wrap8.
  replace (8 * Z.of_nat (S n)) with (8 + 8 * Z.of_nat n) by lia.
  rewrite Z.pow_add_r, Z.rem_mul_r by lia. change (2 ^ 8) with 256. lia.
Qed.

Lemma be_get_range l : 0 <= be_get l < 2 ^ (8 * len l).
Proof.
  induction l as [|b l IH] using rev_ind; [cbn; lia|].
  rewrite be_get_snoc, length_app. pose proof (Z_of_byte_range b).
  replace (8 * Z.of_nat (length l + length [b])) with (8 * len l + 8) by (simpl; lia).
  rewrite Z.pow_add_r by lia. lia.
Qed.

Lemma be_put_get l : be_put (length l) (be_get l) = l.
Proof.
  induction l as [|b l IH] using rev_ind; [done|].
  rewrite length_app, Nat.add_comm. cbn [length Nat.add].
  pose proof (Z_of_byte_range b).
  rewrite be_put_snoc, be_get_snoc, Z.shiftr_div_pow2 by lia. change (2 ^ 8) with 256.
  replace ((be_get l * 256 + Z_of_byte b) `div` 256) with (be_get l)
    by (Z.div_mod_to_equations; lia).
  rewrite IH. do 2 f_equal. apply Z_of_byte_inj. rewrite Z_of_byte_of_Z. mlia.
Qed.

Lemma be_get_put16 z : be_get (be_put 2 z) = wrap16 z.
Proof. apply be_get_put. Qed.

Lemma be_get_put32 z : be_get (be_put 4 z) = wrap32 z.
Proof. apply be_get_put. Qed.

Lemma be_get_put64 z : be_get (be_put 8 z) = wrap64 z.
Proof. apply be_get_put. Qed.

#[export] Hint Rewrite be_get_put16 be_get_put32 be_get_put64 @length_be_put : vtcp.

(** * Contiguous reads of an indexed stream *)

(** The [n] bytes of the stream [S] that start at position [a]. *)
Definition window {A} (S : Z -> A) (a n : Z) : list A :=
  (fun i => S (a + Z.of_nat i)) <$> seq 0 (Z.to_nat n).

Lemma length_window {A} (S : Z -> A) a n : 0 <= n -> len (window S a n) = n.
Proof. intros H. unfold window. rewrite length_fmap, length_seq. lia. Qed.

Lemma window_nil {A} (S : Z -> A) a : window S a 0 = [].
Proof. done. Qed.

Lemma window_app {A} (S : Z -> A) a n m :
  0 <= n -> 0 <= m -> window S a (n + m) = window S a n ++ window S (a + n) m.
Proof.
  intros Hn Hm. unfold window. rewrite Z2Nat.inj_add by lia.
  rewrite seq_app, fmap_app. f_equal. simpl.
  rewrite <- (Nat.add_0_r (Z.to_nat n)) at 1. rewrite <- fmap_add_seq.
  rewrite <- list_fmap_compose. apply list_fmap_ext. intros i x Hx. simpl.
  f_equal. lia.
Qed.

Lemma take_window {A} (S : Z -> A) a n i :
  0 <= i <= n -> takeZ i (window S a n) = window S a i.
Proof.
  intros H. unfold takeZ. replace n with (i + (n - i)) by lia.
  rewrite window_app by lia. apply take_app_length'.
  pose proof (length_window S a i). lia.
Qed.

Lemma drop_window {A} (S : Z -> A) a n i :
  0 <= i <= n -> dropZ i (window S a n) = window S (a + i) (n - i).
Proof.
  intros H. unfold dropZ. replace n with (i + (n - i)) at 1 by lia.
  rewrite window_app by lia. apply drop_app_length'.
  pose proof (length_window S a i). lia.
Qed.

Lemma filter_everything {A} (P : A -> Prop) `{!forall x, Decision (P x)} (l : list A) :
  (forall x, x ∈ l -> P x) -> filter P l = l.
Proof.
  induction l as [|x l IH]; intros Hall; [done|].
  rewrite filter_cons_True by (apply Hall, list_elem_of_here). f_equal.
  apply IH. intros y Hy. by apply Hall, list_elem_of_further.
Qed.

(** * Records with functional update *)

(** [Eta R] gives the record type [R] its eta expansion; from it the setter of
    each field is computed once, when a term mentions it. *)
Class Eta (R : Type) := eta_record : R -> R.
Class Setter {R T : Type} (proj : R -> T) := set_field : T -> R -> R.

Ltac derive_setter :=
  match goal with
  | |- @Setter ?R ?T ?proj =>
      let body := constr:(fun (v : T) (r : R) =>
        ltac:(let e := eval hnf in (@eta_record R _ r) in
              match e with
              | context K [proj r] => let t := context K [v] in exact t
              end)) in
      exact body
  end.
#[export] Hint Extern 1 (Setter _) => derive_setter : typeclass_instances.

Declare Scope record_scope.
Notation "r <| proj ':=' v |>" := (set_field (proj := proj) v r)
  (at level 1, proj at level 99, v at level 200, left associativity) : record_scope.
#[global] Open Scope record_scope.

(** * Effects: a state monad with Go's panics *)

(** What running a Go function gives: a value, or a run-time panic (nil
    dereference, index out of range).  A loop modelled with fuel panics when
    its fuel runs out, so a proof that there is no panic is also a proof that
    the fuel was enough. *)
Inductive outcome (A : Type) : Type :=
  | Ok (a : A)
  | Panic.
Arguments Ok {A} _.
Arguments Panic {A}.

Definition M (S A : Type) : Type := S -> outcome (A * S).

Definition ret {S A} (a : A) : M S A := fun s => Ok (a, s).
Definition bind {S A B} (m : M S A) (k : A -> M S B) : M S B :=
  fun s => match m s with Ok (a, s') => k a s' | Panic => Panic end.
Definition get {S} : M S S := fun s => Ok (s, s).
Definition gets {S A} (f : S -> A) : M S A := fun s => Ok (f s, s).
Definition modify {S} (f : S -> S) : M S () := fun s => Ok ((), f s).
Definition panic {S A} : M S A := fun _ => Panic.

(** Dereferences a possibly nil pointer held in the state. *)
Definition deref {S A} (f : S -> option A) : M S A :=
  fun s => match f s with Some a => Ok (a, s) | None => Panic end.

(** A computation without state. *)
Definition lift {S A} (o : outcome A) : M S A :=
  fun s => match o with Ok a => Ok (a, s) | Panic => Panic end.

(** [l[:n]], [l[n:]] and [l[n]]: an index past the end panics.  (Go lets [l[:n]]
    reach into the spare capacity; here it panics there too, so that what is
    proved not to panic stays within the length.) *)
Definition cut_to {S A} (n : Z) (l : list A) : M S (list A) :=
  if (0 <=? n) && (n <=? len l) then ret (takeZ n l) else panic.
Definition cut_from {S A} (n : Z) (l : list A) : M S (list A) :=
  if (0 <=? n) && (n <=? len l) then ret (dropZ n l) else panic.
Definition at_index {S A} (n : Z) (l : list A) : M S A :=
  if n <? 0 then panic else match l !! Z.to_nat n with Some a => ret a | None => panic end.

Definition when {S} (b : bool) (m : M S ()) : M S () :=
  if b then m else ret ().

Declare Scope go_scope.
Notation "x <- m ;; k" := (bind m (fun x => k))
  (at level 20, m at level 99, k at level 200) : go_scope.
Notation "' p <- m ;; k" := (bind m (fun x => match x with p => k end))
  (at level 20, p pattern, m at level 99, k at level 200) : go_scope.
Notation "m ;; k" := (bind m (fun _ => k))
  (at level 100, k at level 200, right associativity) : go_scope.
#[global] Open Scope go_scope.

(** Total correctness: [m] returns from [s] (no panic) in a state and with a
    value that satisfy [Q]. *)
Definition wp {S A} (m : M S A) (Q : A -> S -> Prop) (s : S) : Prop :=
  match m s with Ok (a, s') => Q a s' | Panic => False end.

Section wp_rules.
Context {S A B : Type}.
Implicit Types (s : S) (a : A).

Lemma wp_ret a (Q : A -> S -> Prop) s : Q a s -> wp (ret a) Q s.
Proof. done. Qed.

Lemma wp_bind (m : M S A) (k : A -> M S B) Q s :
  wp m (fun a => wp (k a) Q) s -> wp (bind m k) Q s.
Proof. unfold wp, bind. destruct (m s) as [[a s']|]; done. Qed.

Lemma wp_get (Q : S -> S -> Prop) s : Q s s -> wp get Q s.
Proof. done. Qed.

Lemma wp_gets (f : S -> A) Q s : Q (f s) s -> wp (gets f) Q s.
Proof. done. Qed.

Lemma wp_modify (f : S -> S) Q s : Q () (f s) -> wp (modify f) Q s.
Proof. done. Qed.

Lemma wp_lift (o : outcome A) a (Q : A -> S -> Prop) s : o = Ok a -> Q a s -> wp (lift o) Q s.
Proof. unfold wp, lift. by intros ->. Qed.
Lemma wp_deref (f : S -> option A) Q s a :
  f s = Some a -> Q a s -> wp (deref f) Q s.
Proof. unfold wp, deref. intros ->. done. Qed.

Lemma wp_mono (m : M S A) (Q Q' : A -> S -> Prop) s :
  wp m Q s -> (forall a s', Q a s' -> Q' a s') -> wp m Q' s.
Proof. unfold wp. destruct (m s) as [[a s']|]; [auto|done]. Qed.

Lemma wp_ret_unit (Q : () -> S -> Prop) s : Q () s -> wp (ret ()) Q s.
Proof. done. Qed.

Lemma wp_when (b : bool) (m : M S ()) Q s :
  (b = true -> wp m Q s) -> (b = false -> Q () s) -> wp (when b m) Q s.
Proof. destruct b; intros Ht Hf; [by apply Ht|]. by apply wp_ret_unit, Hf. Qed.

Lemma wp_and (m : M S A) (Q Q' : A -> S -> Prop) s :
  wp m Q s -> wp m Q' s -> wp m (fun a s' => Q a s' /\ Q' a s') s.
Proof. unfold wp. destruct (m s) as [[a s']|]; auto. Qed.

Lemma wp_inv (m : M S A) Q s : wp m Q s -> exists a s', m s = Ok (a, s') /\ Q a s'.
Proof. unfold wp. destruct (m s) as [[a s']|]; [eauto|done]. Qed.

Lemma wp_run (m : M S A) Q s a s' : m s = Ok (a, s') -> wp m Q s -> Q a s'.
Proof. unfold wp. intros ->. done. Qed.

Lemma cut_to_ok n (l : list A) s : 0 <= n <= len l -> cut_to n l s = Ok (takeZ n l, s).
Proof. intros H. unfold cut_to. by replace ((0 <=? n) && (n <=? len l)) with true by lia. Qed.

Lemma cut_from_ok n (l : list A) s : 0 <= n <= len l -> cut_from n l s = Ok (dropZ n l, s).
Proof. intros H. unfold cut_from. by replace ((0 <=? n) && (n <=? len l)) with true by lia. Qed.

Lemma at_index_ok n (l : list A) a s : 0 <= n -> l !! Z.to_nat n = Some a -> at_index n l s = Ok (a, s).
Proof. intros H E. unfold at_index. replace (n <? 0) with false by lia. by rewrite E. Qed.

Lemma wp_cut_to n (l : list A) Q s : 0 <= n <= len l -> Q (takeZ n l) s -> wp (cut_to n l) Q s.
Proof. intros H HQ. unfold wp. by rewrite cut_to_ok. Qed.

Lemma wp_cut_from n (l : list A) Q s : 0 <= n <= len l -> Q (dropZ n l) s -> wp (cut_from n l) Q s.
Proof. intros H HQ. unfold wp. by rewrite cut_from_ok. Qed.

Lemma wp_at_index n (l : list A) Q s :
  0 <= n < len l -> (forall a, l !! Z.to_nat n = Some a -> Q a s) -> wp (at_index n l) Q s.
Proof.
  intros H HQ. destruct (lookup_lt_is_Some_2 l (Z.to_nat n)) as [a Ea]; [lia|]. unfold wp.
  rewrite (at_index_ok n l a) by (done || lia). by apply HQ.
Qed.
End wp_rules.

(** Partial correctness: if [m] returns from [s] at all, then in a state and
    with a value that satisfy [Q]. *)
Definition wlp {S A} (m : M S A) (Q : A -> S -> Prop) (s : S) : Prop :=
  match m s with Ok (a, s') => Q a s' | Panic => True end.

Section wlp_rules.
Context {S A B : Type}.
Implicit Types (s : S) (a : A).

Lemma wlp_ret a (Q : A -> S -> Prop) s : Q a s -> wlp (ret a) Q s.
Proof. done. Qed.

Lemma wlp_bind (m : M S A) (k : A -> M S B) Q s :
  wlp m (fun a => wlp (k a) Q) s -> wlp (bind m k) Q s.
Proof. unfold wlp, bind. destruct (m s) as [[a s']|]; done. Qed.

Lemma wlp_gets (f : S -> A) Q s : Q (f s) s -> wlp (gets f) Q s.
Proof. done. Qed.

Lemma wlp_modify (f : S -> S) Q s : Q () (f s) -> wlp (modify f) Q s.
Proof. done. Qed.

Lemma wlp_deref (f : S -> option A) Q s :
  (forall a, f s = Some a -> Q a s) -> wlp (deref f) Q s.
Proof. unfold wlp, deref. destruct (f s); auto. Qed.

Lemma wlp_mono (m : M S A) (Q Q' : A -> S -> Prop) s :
  wlp m Q s -> (forall a s', Q a s' -> Q' a s') -> wlp m Q' s.
Proof. unfold wlp. destruct (m s) as [[a s']|]; [auto|done]. Qed.

Lemma wlp_cut_to n (l : list A) Q s : Q (takeZ n l) s -> wlp (cut_to n l) Q s.
Proof. intros H. unfold cut_to. by case_match. Qed.

Lemma wlp_cut_from n (l : list A) Q s : Q (dropZ n l) s -> wlp (cut_from n l) Q s.
Proof. intros H. unfold cut_from. by case_match. Qed.

Lemma wlp_at_index n (l : list A) Q s : (forall a, l !! Z.to_nat n = Some a -> Q a s) -> wlp (at_index n l) Q s.
Proof. intros H. unfold at_index. case_match; [done|]. case_match; [by apply wlp_ret, H|done]. Qed.

Lemma wlp_when (b : bool) (m : M S ()) Q s :
  (b = true -> wlp m Q s) -> (b = false -> Q () s) -> wlp (when b m) Q s.
Proof. destruct b; intros Ht Hf; [by apply Ht|by apply Hf]. Qed.

Lemma wlp_run (m : M S A) Q s a s' : m s = Ok (a, s') -> wlp m Q s -> Q a s'.
Proof. unfold wlp. intros ->. done. Qed.
End wlp_rules.

(** * Reachability of a step relation *)

(** The states a system can be in: reachable from an initial state by the
    steps of [step]; an invariant of the initial states that every step
    preserves holds of all of them. *)
Section reach.
Context {St : Type} (init : St -> Prop) (step : St -> St -> Prop).

Inductive reachable : St -> Prop :=
  | reach_init s : init s -> reachable s
  | reach_step s s' : reachable s -> step s s' -> reachable s'.

Lemma reachable_invariant (Inv : St -> Prop) :
  (forall s, init s -> Inv s) ->
  (forall s s', Inv s -> step s s' -> Inv s') ->
  forall s, reachable s -> Inv s.
Proof. intros Hi Hs s. induction 1; eauto. Qed.

(** Every run from the state comes to a state of [P], whatever steps are
    chosen: it never stops before, and it cannot go on for ever. *)
Inductive inevitable (P : St -> Prop) : St -> Prop :=
  | inev_now s : P s -> inevitable P s
  | inev_later s : (exists s', step s s') -> (forall s', step s s' -> inevitable P s') ->
      inevitable P s.
End reach.

(** * Sums of integers over the entries of a finite map

    What the accounting invariants of the resource manager are stated with. *)
Section msum.
Context {K A : Type} `{Countable K}.
Implicit Types (m : gmap K A) (f g : K -> A -> Z).

Definition msum f m : Z := map_fold (fun k x acc => f k x + acc) 0 m.

Lemma msum_empty f : msum f ∅ = 0.
Proof. apply map_fold_empty. Qed.

Lemma msum_insert f m k x : m !! k = None -> msum f (<[k:=x]> m) = f k x + msum f m.
Proof. intros Hk. unfold msum. rewrite map_fold_insert_L; [done|intros; lia|done]. Qed.

Lemma msum_delete f m k x : m !! k = Some x -> msum f (delete k m) = msum f m - f k x.
Proof.
  intros Hk. unfold msum at 2. rewrite (map_fold_delete_L _ _ k x m); [|intros; lia|done].
  fold (msum f (delete k m)). lia.
Qed.

Lemma msum_update f m k x y :
  m !! k = Some x -> msum f (<[k:=y]> m) = msum f m - f k x + f k y.
Proof.
  intros Hk. rewrite <- insert_delete_eq, msum_insert by apply lookup_delete_eq.
  rewrite (msum_delete f m k x) by done. lia.
Qed.

Lemma msum_ext f g m :
  (forall k x, m !! k = Some x -> f k x = g k x) -> msum f m = msum g m.
Proof.
  induction m as [|k x m Hk IH] using map_ind; intros Hfg; [by rewrite !msum_empty|].
  rewrite !msum_insert by done. rewrite (Hfg k x) by apply lookup_insert_eq.
  f_equal. apply IH. intros j y Hj. apply Hfg. rewrite lookup_insert_ne; [done|congruence].
Qed.

Lemma msum_zero f m : (forall k x, m !! k = Some x -> f k x = 0) -> msum f m = 0.
Proof.
  induction m as [|k x m Hk IH] using map_ind; intros Hf; [apply msum_empty|].
  rewrite msum_insert by done. rewrite (Hf k x) by apply lookup_insert_eq. rewrite IH; [done|].
  intros j y Hj. apply Hf. rewrite lookup_insert_ne; [done|congruence].
Qed.

Lemma msum_nonneg f m : (forall k x, m !! k = Some x -> 0 <= f k x) -> 0 <= msum f m.
Proof.
  induction m as [|k x m Hk IH] using map_ind; intros Hf; [by rewrite msum_empty|].
  rewrite msum_insert by done.
  assert (0 <= f k x) by (apply Hf; apply lookup_insert_eq).
  enough (0 <= msum f m) by lia. apply IH. intros j y Hj. apply Hf.
  rewrite lookup_insert_ne; [done|congruence].
Qed.

Lemma msum_ge f m k x :
  (forall k x, m !! k = Some x -> 0 <= f k x) -> m !! k = Some x -> f k x <= msum f m.
Proof.
  intros Hf Hk.
  enough (0 <= msum f (delete k m)) by (rewrite (msum_delete f m k x) in *; [lia|done]).
  apply msum_nonneg. intros j y [_ Hj]%lookup_delete_Some. by apply Hf.
Qed.

(** The same keys with the same contributions. *)
Lemma msum_rel f g m m' :
  (forall k, option_relation (fun x y => f k x = g k y) (fun _ => False) (fun _ => False)
               (m !! k) (m' !! k)) ->
  msum f m = msum g m'.
Proof.
  revert m'. induction m as [|k x m Hk IH] using map_ind; intros m' Hrel.
  - symmetry. rewrite msum_empty. apply msum_zero. intros k y Hy.
    specialize (Hrel k). by rewrite lookup_empty, Hy in Hrel.
  - pose proof (Hrel k) as Hx. rewrite lookup_insert_eq in Hx.
    destruct (m' !! k) as [y|] eqn:Hy; [|done]. cbn in Hx.
    rewrite msum_insert by done.
    assert (msum g m' = g k y + msum g (delete k m')) as -> by (rewrite (msum_delete g m' k y); [lia|done]).
    rewrite Hx. f_equal. apply IH. intros j. specialize (Hrel j).
    destruct (decide (j = k)) as [->|Hj].
    + by rewrite Hk, lookup_delete_eq.
    + by rewrite lookup_insert_ne in Hrel by done; rewrite lookup_delete_ne by done.
Qed.

Lemma msum_add f g m : msum (fun k x => f k x + g k x) m = msum f m + msum g m.
Proof.
  induction m as [|k x m Hk IH] using map_ind; [by rewrite !msum_empty|].
  rewrite !msum_insert by done. lia.
Qed.

(** A sum in which one key contributes. *)
Lemma msum_single f m k x :
  m !! k = Some x -> (forall j y, j <> k -> m !! j = Some y -> f j y = 0) -> msum f m = f k x.
Proof.
  intros Hk Hz. enough (msum f (delete k m) = 0) as He by (rewrite (msum_delete f m k x) in He; [lia|done]).
  apply msum_zero. intros j y [Hj Hjy]%lookup_delete_Some. by apply Hz.
Qed.

(** Sums over maps that differ at one key. *)
Lemma msum_shift f g m m' k x x' d :
  m !! k = Some x -> m' !! k = Some x' -> g k x' = f k x + d ->
  (forall j, j <> k ->
    option_relation (fun x y => f j x = g j y) (fun _ => False) (fun _ => False) (m !! j) (m' !! j)) ->
  msum g m' = msum f m + d.
Proof.
  intros Hk Hk' Hd Hrel.
  transitivity (msum (fun j y => f j y + (if decide (j = k) then d else 0)) m).
  - symmetry. apply msum_rel. intros j. destruct (decide (j = k)) as [->|Hj].
    + rewrite Hk, Hk'. cbn. lia.
    + specialize (Hrel j Hj). destruct (m !! j), (m' !! j); cbn in *; try done. lia.
  - rewrite msum_add. f_equal. rewrite (msum_single _ m k x); [by rewrite decide_True|done|].
    intros j y Hj _. by rewrite decide_False.
Qed.
End msum.
