(* ===== verification/SeqSpace.v ===== *)
(** Sequence-number arithmetic of the TCP engine (src/vtcp/seqspace.go).

    The six comparisons are translated with their 32-bit subtraction and the
    signed reading of the difference.  The lemmas relate them to the order on
    stream positions: positions less than half the sequence space apart
    compare as integers, whatever base they are numbered from, so the wrap of
    the counter is invisible to a sender or a receiver that keeps its window
    small. *)

From S2P Require Import Prelude.

Definition SeqBefore (a b : Z) : bool := int32 (wrap32 (a - b)) <? 0.
Definition SeqAfter (a b : Z) : bool := 0 <? int32 (wrap32 (a - b)).
Definition SeqBeforeEq (a b : Z) : bool := int32 (wrap32 (a - b)) <=? 0.
Definition SeqAfterEq (a b : Z) : bool := 0 <=? int32 (wrap32 (a - b)).
Definition SeqInRange (seq lo hi : Z) : bool := SeqAfterEq seq lo && SeqBefore seq hi.
Definition SeqInRangeInclusive (seq lo hi : Z) : bool :=
  SeqAfterEq seq lo && SeqBeforeEq seq hi.

(** The sequence number of stream position [p], numbering from [base]. *)
Definition seq_at (base p : Z) : Z := wrap32 (base + p).

(** [near p q]: [p] lies within half the sequence space of [q] (the antipode counts as
    before it). *)
Definition near (p q : Z) : Prop := - 2 ^ 31 <= p - q < 2 ^ 31.

Lemma seq_at_range base p : is_u32 (seq_at base p).
Proof. apply wrap32_range. Qed.

Lemma seq_at_add base p n : wrap32 (seq_at base p + n) = seq_at base (p + n).
Proof. unfold seq_at. rewrite wrap32_wrap32_add. f_equal. lia. Qed.

Lemma seq_at_sub base p q : wrap32 (seq_at base p - seq_at base q) = wrap32 (p - q).
Proof. unfold seq_at. rewrite wrap32_sub_wrap32. f_equal. lia. Qed.

(** The distance between two near positions is read back from their numbers. *)
Lemma seq_at_dist base p q :
  q <= p < q + 2 ^ 32 -> wrap32 (seq_at base p - seq_at base q) = p - q.
Proof. intros H. rewrite seq_at_sub. apply wrap32_small. unfold is_u32. lia. Qed.

Lemma seq_at_inj base p q :
  near p q -> (seq_at base p =? seq_at base q) = (p =? q).
Proof.
  unfold near, seq_at. intros H.
  destruct (Z.eqb_spec p q) as [->|Hn]; [apply Z.eqb_refl|].
  apply Z.eqb_neq. intros E. apply Hn.
  assert (wrap32 (p - q) = 0) as E'.
  { rewrite <- (seq_at_sub base). unfold seq_at. rewrite E, Z.sub_diag. done. }
  destruct (Z.le_gt_cases q p); mlia.
Qed.

Section compare.
Context (base p q : Z) (Hnear : near p q).

Lemma seq_diff : int32 (wrap32 (seq_at base p - seq_at base q)) = p - q.
Proof using Hnear.
  rewrite seq_at_sub, int32_wrap32. apply int32_small. unfold near in Hnear. lia.
Qed.

Lemma SeqBefore_at : SeqBefore (seq_at base p) (seq_at base q) = (p <? q).
Proof using Hnear. unfold SeqBefore. rewrite seq_diff. lia. Qed.

Lemma SeqAfter_at : SeqAfter (seq_at base p) (seq_at base q) = (q <? p).
Proof using Hnear. unfold SeqAfter. rewrite seq_diff. lia. Qed.

Lemma SeqBeforeEq_at : SeqBeforeEq (seq_at base p) (seq_at base q) = (p <=? q).
Proof using Hnear. unfold SeqBeforeEq. rewrite seq_diff. lia. Qed.

Lemma SeqAfterEq_at : SeqAfterEq (seq_at base p) (seq_at base q) = (q <=? p).
Proof using Hnear. unfold SeqAfterEq. rewrite seq_diff. lia. Qed.
End compare.

(** Without positions at hand: a number is [seq_at] its own signed distance. *)
Lemma seq_as_offset ref s :
  is_u32 s -> s = seq_at ref (int32 (wrap32 (s - ref))).
Proof.
  intros H. unfold seq_at, int32. rewrite Z.ltb_compare.
  set (w := wrap32 (wrap32 (s - ref))).
  assert (w = wrap32 (s - ref)) as -> by (unfold w; mlia).
  destruct (_ ?= _); unfold_int; Z.div_mod_to_equations; lia.
Qed.

(** the comparisons agree with the integer order of stream positions within half the
    sequence space of each other, for every base, across the wrap. *)
Theorem seq_compare_positions (base p q : Z) (H : near p q) :
  SeqBefore (seq_at base p) (seq_at base q) = (p <? q) /\
  SeqAfter (seq_at base p) (seq_at base q) = (q <? p) /\
  SeqBeforeEq (seq_at base p) (seq_at base q) = (p <=? q) /\
  SeqAfterEq (seq_at base p) (seq_at base q) = (q <=? p).
Proof.
  split_and!; [apply SeqBefore_at|apply SeqAfter_at|apply SeqBeforeEq_at|apply SeqAfterEq_at];
    done.
Qed.

Lemma seq_compare_positions_witness :
  SeqBefore (seq_at 4294967290 3) (seq_at 4294967290 10) = true.
Proof. apply (proj1 (seq_compare_positions 4294967290 3 10 ltac:(unfold near; lia))). Defined.

(** on any two registers the comparisons are dual, and exactly one of before,
    equal and after holds, except at the antipode (distance 2^31), where before
    holds in both directions. *)
Theorem seq_compare_duality (a b : Z) (Ha : is_u32 a) (Hb : is_u32 b) :
  SeqBeforeEq a b = negb (SeqAfter a b) /\
  SeqAfterEq a b = negb (SeqBefore a b) /\
  (SeqBefore a b && SeqAfter a b) = false /\
  (SeqBeforeEq a b && SeqAfterEq a b) = (a =? b) /\
  (wrap32 (a - b) <> 2 ^ 31 -> SeqBefore a b = SeqAfter b a) /\
  (wrap32 (a - b) = 2 ^ 31 -> SeqBefore a b = true /\ SeqBefore b a = true).
Proof.
  unfold SeqBefore, SeqAfter, SeqBeforeEq, SeqAfterEq, int32.
  assert (wrap32 (wrap32 (a - b)) = wrap32 (a - b)) as -> by mlia.
  assert (wrap32 (wrap32 (b - a)) = wrap32 (b - a)) as -> by mlia.
  destruct (Z.ltb_spec (wrap32 (a - b)) (2 ^ 31));
    destruct (Z.ltb_spec (wrap32 (b - a)) (2 ^ 31)); split_and!; intros;
    try split; mlia.
Qed.

Lemma seq_compare_duality_witness :
  SeqBefore 0 (2 ^ 31) = true /\ SeqBefore (2 ^ 31) 0 = true.
Proof.
  apply (seq_compare_duality 0 (2 ^ 31)); unfold is_u32; [lia|lia|reflexivity].
Defined.

(** the range test is the half-open interval of positions: a position
    within half the space of both bounds is in range exactly when it lies in
    [lo, hi). *)
Theorem seq_in_range_positions (base p lo hi : Z)
  (Hlo : near p lo) (Hhi : near p hi) :
  SeqInRange (seq_at base p) (seq_at base lo) (seq_at base hi) = ((lo <=? p) && (p <? hi))%bool /\
  SeqInRangeInclusive (seq_at base p) (seq_at base lo) (seq_at base hi)
    = ((lo <=? p) && (p <=? hi))%bool.
Proof.
  unfold SeqInRange, SeqInRangeInclusive.
  rewrite SeqAfterEq_at, SeqBefore_at, SeqBeforeEq_at by done. done.
Qed.

Lemma seq_in_range_positions_witness :
  SeqInRange (seq_at 4294967290 7) (seq_at 4294967290 3) (seq_at 4294967290 8) = true.
Proof.
  rewrite (proj1 (seq_in_range_positions 4294967290 7 3 8
    ltac:(unfold near; lia) ltac:(unfold near; lia))). reflexivity.
Defined.
