(* ===== verification/TcpOptions.v ===== *)
(** TCP header options (src/vtcp/options.go): the option and SACK-block types,
    the parser and the serializer of the options area, the option builders and
    the accessors used in the handshake and on every segment. *)

From S2P Require Import Prelude.

Definition OptEnd : byte := Byte.x00.
Definition OptNOP : byte := Byte.x01.
Definition OptMSS : byte := Byte.x02.
Definition OptWScale : byte := Byte.x03.
Definition OptSACKPerm : byte := Byte.x04.
Definition OptSACK : byte := Byte.x05.
Definition OptTimestamp : byte := Byte.x08.

Record Option := mkOption { Kind : byte; Data : list byte }.
Record SACKBlock := mkSACKBlock { Left : Z; Right : Z }.

#[global] Instance Option_eq_dec : EqDecision Option.
Proof. solve_decision. Defined.
#[global] Instance SACKBlock_eq_dec : EqDecision SACKBlock.
Proof. solve_decision. Defined.

(** The loop of [ParseOptions] at index [i], on the suffix [raw[i:]].  Every
    turn consumes a byte, so the length of the input is fuel enough. *)
Fixpoint ParseOptions_loop (fuel : nat) (raw : list byte) : list Option :=
  match fuel, raw with
  | S fuel, kind :: rest =>
      if decide (kind = OptEnd) then []
      else if decide (kind = OptNOP) then
        mkOption OptNOP [] :: ParseOptions_loop fuel rest
      else match rest with
      | [] => []
      | lb :: _ =>
          let l := Z_of_byte lb in
          if (l <? 2) || (len raw <? l) then []
          else mkOption kind (slice raw 2 l) :: ParseOptions_loop fuel (dropZ l raw)
      end
  | _, _ => []
  end.

Definition ParseOptions (raw : list byte) : list Option :=
  ParseOptions_loop (length raw) raw.

(** One turn of the first loop of [BuildOptions]. *)
Definition option_bytes (o : Option) : list byte :=
  if decide (Kind o = OptNOP) then [OptNOP]
  else [Kind o; byte_of_Z (2 + len (Data o))] ++ Data o.

(** The padding loop: at most three turns. *)
Fixpoint pad_options (fuel : nat) (buf : list byte) : list byte :=
  match fuel with
  | S fuel =>
      if len buf mod 4 =? 0 then buf else pad_options fuel (buf ++ [OptEnd])
  | O => buf
  end.

Definition BuildOptions (opts : list Option) : list byte :=
  pad_options 3 (foldl (fun buf o => buf ++ option_bytes o) [] opts).

Definition MSSOption (mss : Z) : Option := mkOption OptMSS (be_put 2 mss).
Definition WScaleOption (shift : Z) : Option := mkOption OptWScale [byte_of_Z shift].
Definition SACKPermOption : Option := mkOption OptSACKPerm [].
Definition sack_block_bytes (b : SACKBlock) : list byte :=
  be_put 4 (Left b) ++ be_put 4 (Right b).
Definition SACKOption (blocks : list SACKBlock) : Option :=
  mkOption OptSACK (concat (sack_block_bytes <$> blocks)).
Definition TimestampOption (tsVal tsEcr : Z) : Option :=
  mkOption OptTimestamp (be_put 4 tsVal ++ be_put 4 tsEcr).

Fixpoint GetMSS (opts : list Option) : Z :=
  match opts with
  | [] => 0
  | o :: rest =>
      if decide (Kind o = OptMSS /\ length (Data o) = 2%nat) then be_get (Data o)
      else GetMSS rest
  end.

Fixpoint GetWScale (opts : list Option) : Z :=
  match opts with
  | [] => -1
  | o :: rest =>
      match Data o with
      | [b] => if decide (Kind o = OptWScale) then Z_of_byte b else GetWScale rest
      | _ => GetWScale rest
      end
  end.

Fixpoint GetTimestamp (opts : list Option) : option (Z * Z) :=
  match opts with
  | [] => None
  | o :: rest =>
      if decide (Kind o = OptTimestamp /\ length (Data o) = 8%nat)
      then Some (be_get (slice (Data o) 0 4), be_get (slice (Data o) 4 8))
      else GetTimestamp rest
  end.

(** The [i]-th eight-byte group of a SACK option. *)
Definition sack_block_at (data : list byte) (i : nat) : SACKBlock :=
  mkSACKBlock (be_get (take 4 (drop (i * 8) data)))
              (be_get (take 4 (drop (i * 8 + 4) data))).

Fixpoint GetSACKBlocks (opts : list Option) : list SACKBlock :=
  match opts with
  | [] => []
  | o :: rest =>
      if decide (Kind o = OptSACK /\ (8 <= length (Data o))%nat)
      then sack_block_at (Data o) <$> seq 0 (length (Data o) / 8)
      else GetSACKBlocks rest
  end.

Fixpoint HasSACKPerm (opts : list Option) : bool :=
  match opts with
  | [] => false
  | o :: rest => bool_decide (Kind o = OptSACKPerm) || HasSACKPerm rest
  end.

(** ** Well-formed options *)

(** The options the wire format can carry: no end marker, no-ops without data,
    and a length that fits the length byte. *)
Definition option_wf (o : Option) : Prop :=
  Kind o <> OptEnd /\ (Kind o = OptNOP -> Data o = []) /\ len (Data o) <= 253.

Lemma slice_prefix {A} (a b : list A) j :
  j = len a -> slice (a ++ b) 0 j = a.
Proof.
  intros ->. unfold slice. rewrite Z.sub_0_r, Nat2Z.id. simpl. apply take_app_length.
Qed.

Lemma ParseOptions_loop_fuel n m raw :
  (length raw <= n)%nat -> (length raw <= m)%nat ->
  ParseOptions_loop n raw = ParseOptions_loop m raw.
Proof.
  revert m raw. induction n as [|n IH]; intros m raw Hn Hm.
  { destruct raw; [by destruct m|simpl in Hn; lia]. }
  destruct m as [|m]; [destruct raw; [done|simpl in Hm; lia]|].
  destruct raw as [|kind rest]; [done|]. cbn [ParseOptions_loop].
  repeat case_decide; try done.
  - f_equal. apply IH; simpl in *; lia.
  - destruct rest as [|lb rest]; [done|].
    destruct ((Z_of_byte lb <? 2) || (len (kind :: lb :: rest) <? Z_of_byte lb)) eqn:E;
      [done|].
    zbool. f_equal. apply IH; unfold dropZ; rewrite length_drop; simpl in *; lia.
Qed.

Lemma ParseOptions_loop_step n kind lb rest :
  kind <> OptEnd -> kind <> OptNOP ->
  ParseOptions_loop (S n) (kind :: lb :: rest) =
  if (Z_of_byte lb <? 2) || (len (kind :: lb :: rest) <? Z_of_byte lb) then []
  else mkOption kind (slice (kind :: lb :: rest) 2 (Z_of_byte lb))
       :: ParseOptions_loop n (dropZ (Z_of_byte lb) (kind :: lb :: rest)).
Proof. intros H1 H2. cbn [ParseOptions_loop]. by rewrite !decide_False by done. Qed.

Lemma ParseOptions_cons o rest :
  option_wf o -> ParseOptions (option_bytes o ++ rest) = o :: ParseOptions rest.
Proof.
  intros (Hk & Hnop & Hlen). destruct o as [k d]; simpl in *.
  unfold ParseOptions, option_bytes. simpl. case_decide as Hn.
  - rewrite (Hnop Hn). subst k. simpl. done.
  - assert (Z_of_byte (byte_of_Z (2 + len d)) = 2 + len d) as Hb.
    { rewrite Z_of_byte_of_Z. apply wrap8_small. unfold is_u8. lia. }
    cbn [app length]. rewrite ParseOptions_loop_step, Hb by done.
    replace ((2 + len d <? 2) || _) with false.
    2: { symmetry. simpl. rewrite !length_app. lia. }
    f_equal.
    + f_equal. unfold slice. simpl (drop _ _).
      replace (Z.to_nat (2 + len d - 2)) with (length d) by lia. apply take_app_length.
    + unfold dropZ. replace (Z.to_nat (2 + len d)) with (S (S (length d))) by lia.
      simpl (drop _ _). rewrite drop_app_length.
      apply ParseOptions_loop_fuel; simpl; rewrite ?length_app; lia.
Qed.

Lemma foldl_option_bytes buf opts :
  foldl (fun buf o => buf ++ option_bytes o) buf opts = buf ++ concat (option_bytes <$> opts).
Proof.
  revert buf. induction opts as [|o opts IH]; intros buf; simpl; [by rewrite app_nil_r|].
  rewrite IH, <- app_assoc. done.
Qed.

Lemma pad_options_spec n buf :
  exists k, pad_options n buf = buf ++ replicate k OptEnd /\ (k <= n)%nat.
Proof.
  revert buf. induction n as [|n IH]; intros buf; simpl.
  { exists 0%nat. simpl. by rewrite app_nil_r. }
  case_match; [exists 0%nat; simpl; rewrite app_nil_r; split; [done|lia]|].
  destruct (IH (buf ++ [OptEnd])) as (k & -> & Hk).
  exists (S k). rewrite <- app_assoc. split; [done|lia].
Qed.

Lemma pad_options_mod4 buf : len (pad_options 3 buf) mod 4 = 0.
Proof.
  cbn [pad_options]. repeat case_match; zbool; try done;
    rewrite ?length_app in *; simpl in *; Z.div_mod_to_equations; lia.
Qed.

Lemma ParseOptions_end k : ParseOptions (replicate k OptEnd) = [].
Proof. destruct k; done. Qed.

Lemma ParseOptions_wf_loop n raw : Forall option_wf (ParseOptions_loop n raw).
Proof.
  revert raw. induction n as [|n IH]; intros raw; simpl; [constructor|].
  destruct raw as [|kind rest]; [constructor|].
  repeat case_decide; [constructor| |].
  - constructor; [|apply IH]. repeat split; simpl; [done|lia].
  - destruct rest as [|lb rest]; [constructor|].
    case_match eqn:E; [constructor|]. zbool. pose proof (Z_of_byte_range lb).
    constructor; [|apply IH]. repeat split; simpl; [done|done|].
    unfold slice. rewrite length_take. lia.
Qed.

Lemma parse_build opts : Forall option_wf opts -> ParseOptions (BuildOptions opts) = opts.
Proof.
  intros H. unfold BuildOptions. rewrite foldl_option_bytes, app_nil_l.
  destruct (pad_options_spec 3 (concat (option_bytes <$> opts))) as (k & -> & _).
  induction H as [|o opts Ho Hos IH]; csimpl; [apply ParseOptions_end|].
  rewrite <- app_assoc, ParseOptions_cons by done. by rewrite IH.
Qed.

(** ** Size of the options area *)

Definition option_size (o : Option) : Z :=
  if decide (Kind o = OptNOP) then 1 else 2 + len (Data o).

Definition options_size (opts : list Option) : Z :=
  foldr (fun o acc => option_size o + acc) 0 opts.

Lemma length_option_bytes o : len (option_bytes o) = option_size o.
Proof. unfold option_bytes, option_size. case_decide; simpl; lia. Qed.

Lemma length_concat_options opts :
  len (concat (option_bytes <$> opts)) = options_size opts.
Proof.
  induction opts as [|o opts IH]; [done|].
  csimpl. rewrite length_app, Nat2Z.inj_add, IH, length_option_bytes. done.
Qed.

(** The serialized area is the options rounded up to a multiple of four. *)
Lemma length_BuildOptions opts :
  options_size opts <= len (BuildOptions opts) <= options_size opts + 3 /\
  len (BuildOptions opts) mod 4 = 0.
Proof.
  split; [|apply pad_options_mod4]. unfold BuildOptions.
  destruct (pad_options_spec 3 (foldl (fun buf o => buf ++ option_bytes o) [] opts))
    as (k & -> & Hk).
  rewrite foldl_option_bytes, length_app, length_replicate. simpl.
  pose proof (length_concat_options opts). lia.
Qed.

(** ** Builders *)

Lemma length_SACK_data blocks : length (Data (SACKOption blocks)) = (8 * length blocks)%nat.
Proof.
  cbn [SACKOption Data]. induction blocks as [|b bs IH]; [done|].
  rewrite fmap_cons. cbn [concat]. rewrite length_app, IH. simpl. lia.
Qed.

Lemma MSSOption_wf m : option_wf (MSSOption m).
Proof. repeat split; simpl; [done|done|lia]. Qed.
Lemma WScaleOption_wf s : option_wf (WScaleOption s).
Proof. repeat split; simpl; [done|done|lia]. Qed.
Lemma SACKPermOption_wf : option_wf SACKPermOption.
Proof. repeat split; simpl; [done|lia]. Qed.
Lemma TimestampOption_wf a b : option_wf (TimestampOption a b).
Proof. repeat split; simpl; [done|done|lia]. Qed.
Lemma SACKOption_wf blocks : (length blocks <= 31)%nat -> option_wf (SACKOption blocks).
Proof.
  intros H. repeat split; [done|done|]. rewrite length_SACK_data. lia.
Qed.
#[export] Hint Resolve MSSOption_wf WScaleOption_wf SACKPermOption_wf TimestampOption_wf : vtcp.

Definition block_u32 (b : SACKBlock) : Prop := is_u32 (Left b) /\ is_u32 (Right b).

Lemma sack_block_at_cons b blocks i :
  sack_block_at (Data (SACKOption (b :: blocks))) (S i) =
  sack_block_at (Data (SACKOption blocks)) i.
Proof. unfold sack_block_at. simpl. done. Qed.

Lemma sack_blocks_decode blocks :
  Forall block_u32 blocks ->
  sack_block_at (Data (SACKOption blocks)) <$> seq 0 (length blocks) = blocks.
Proof.
  induction 1 as [|[l r] bs [Hl Hr] Hbs IH]; [done|].
  cbn [length seq fmap list_fmap]. f_equal.
  - unfold sack_block_at. f_equal.
    + change (be_get (be_put 4 l) = l). rewrite be_get_put32. by apply wrap32_small.
    + change (be_get (be_put 4 r) = r). rewrite be_get_put32. by apply wrap32_small.
  - etransitivity; [|exact IH]. rewrite <- fmap_S_seq, <- list_fmap_compose.
    apply list_fmap_ext. intros i x _. apply sack_block_at_cons.
Qed.

(** ** Theorems *)

(** parsing the serialized form of a list of well-formed options gives the list
    back, whatever padding the serializer added. *)
Theorem options_roundtrip (opts : list Option) (H : Forall option_wf opts) :
  ParseOptions (BuildOptions opts) = opts.
Proof. by apply parse_build. Qed.

Lemma options_roundtrip_witness :
  ParseOptions (BuildOptions [MSSOption 1460; WScaleOption 5; SACKPermOption])
  = [MSSOption 1460; WScaleOption 5; SACKPermOption].
Proof. apply options_roundtrip. split_Forall; auto with vtcp. Defined.

(** the parser accepts every byte string, returns only options the serializer can
    write, and serializing and parsing again changes nothing. *)
Theorem options_parse_total (raw : list byte) :
  Forall option_wf (ParseOptions raw) /\
  ParseOptions (BuildOptions (ParseOptions raw)) = ParseOptions raw.
Proof. split; [|apply parse_build]; apply ParseOptions_wf_loop. Qed.

(** each accessor reads back what the matching builder wrote, after a trip over the
    wire in a SYN's option list (MSS, window scale, SACK-permitted, timestamps) and in
    an ACK's (SACK blocks). *)
Theorem options_negotiation_roundtrip (mss shift v e : Z) (blocks : list SACKBlock)
  (Hm : is_u16 mss) (Hs : is_u8 shift) (Hv : is_u32 v) (He : is_u32 e)
  (Hb : Forall block_u32 blocks) (Hn : (1 <= length blocks <= 31)%nat) :
  let syn := ParseOptions (BuildOptions
    [MSSOption mss; WScaleOption shift; SACKPermOption; TimestampOption v e]) in
  let ack := ParseOptions (BuildOptions [TimestampOption v e; SACKOption blocks]) in
  GetMSS syn = mss /\ GetWScale syn = shift /\ HasSACKPerm syn = true /\
  GetTimestamp syn = Some (v, e) /\
  GetTimestamp ack = Some (v, e) /\ GetSACKBlocks ack = blocks.
Proof.
  intros syn ack. subst syn ack.
  rewrite !parse_build by (split_Forall; try apply SACKOption_wf; auto with vtcp lia).
  split_and!.
  - simpl. change (be_get (be_put 2 mss) = mss). rewrite be_get_put16. by apply wrap16_small.
  - simpl. rewrite Z_of_byte_of_Z. by apply wrap8_small.
  - done.
  - cbn [GetTimestamp Kind TimestampOption Data]. rewrite !decide_False by (intros [? _]; done).
    rewrite decide_True by (split; reflexivity). do 2 f_equal.
    + change (be_get (be_put 4 v) = v). rewrite be_get_put32. by apply wrap32_small.
    + change (be_get (be_put 4 e) = e). rewrite be_get_put32. by apply wrap32_small.
  - cbn [GetTimestamp Kind TimestampOption Data].
    rewrite decide_True by (split; reflexivity). do 2 f_equal.
    + change (be_get (be_put 4 v) = v). rewrite be_get_put32. by apply wrap32_small.
    + change (be_get (be_put 4 e) = e). rewrite be_get_put32. by apply wrap32_small.
  - cbn [GetSACKBlocks]. rewrite decide_False by (intros [? _]; done).
    rewrite decide_True by (rewrite length_SACK_data; split; [done|lia]).
    rewrite length_SACK_data, Nat.mul_comm, Nat.div_mul by lia. by apply sack_blocks_decode.
Qed.

Lemma options_negotiation_roundtrip_witness :
  GetSACKBlocks (ParseOptions (BuildOptions
    [TimestampOption 7 9; SACKOption [mkSACKBlock 100 200]])) = [mkSACKBlock 100 200].
Proof.
  apply (options_negotiation_roundtrip 1460 5 7 9 [mkSACKBlock 100 200]);
    unfold is_u16, is_u8, is_u32; try lia; simpl; [|lia].
  constructor; [|constructor]. split; unfold is_u32; simpl; lia.
Defined.
