(* ===== verification/Segment.v ===== *)
(** TCP segments (src/vtcp/segment.go) and the flag bits of src/vtcp/doc.go:
    the parsed segment, the parser with its two errors, the serializer, and the
    sequence-space length of a segment. *)

From S2P Require Import Prelude TcpOptions.

Definition FlagFIN : Z := 1.
Definition FlagSYN : Z := 2.
Definition FlagRST : Z := 4.
Definition FlagPSH : Z := 8.
Definition FlagACK : Z := 16.
Definition FlagURG : Z := 32.

Record Segment := mkSegment {
  SrcPort : Z;
  DstPort : Z;
  Seq : Z;
  Ack : Z;
  Flags : Z;
  Window : Z;
  Checksum : Z;
  Urgent : Z;
  Options : list Option;
  Payload : list byte;
}.

#[global] Instance Segment_eta : Eta Segment := fun s =>
  mkSegment (SrcPort s) (DstPort s) (Seq s) (Ack s) (Flags s) (Window s)
    (Checksum s) (Urgent s) (Options s) (Payload s).
#[global] Instance Segment_eq_dec : EqDecision Segment.
Proof. solve_decision. Defined.

(** Go's zero value, from which the literals of the engine start. *)
Definition Segment_zero : Segment := mkSegment 0 0 0 0 0 0 0 0 [] [].

Inductive ParseError := SegmentTooShort | InvalidDataOffset.

Definition ParseSegment (raw : list byte) : ParseError + Segment :=
  if len raw <? 20 then inl SegmentTooShort
  else
    let dataOff := Z.shiftr (Z_of_byte (nth 12 raw Byte.x00)) 4 * 4 in
    if (dataOff <? 20) || (len raw <? dataOff) then inl InvalidDataOffset
    else inr {|
      SrcPort := be_get (slice raw 0 2);
      DstPort := be_get (slice raw 2 4);
      Seq := be_get (slice raw 4 8);
      Ack := be_get (slice raw 8 12);
      Flags := Z_of_byte (nth 13 raw Byte.x00);
      Window := be_get (slice raw 14 16);
      Checksum := be_get (slice raw 16 18);
      Urgent := be_get (slice raw 18 20);
      Options := if 20 <? dataOff then ParseOptions (slice raw 20 dataOff) else [];
      Payload := if dataOff <? len raw then dropZ dataOff raw else [];
    |}.

Definition Segment_marshalHeader (s : Segment) : list byte :=
  let optBytes := if 0 <? len (Options s) then BuildOptions (Options s) else [] in
  let hdrLen := 20 + len optBytes in
  be_put 2 (SrcPort s) ++ be_put 2 (DstPort s) ++
  be_put 4 (Seq s) ++ be_put 4 (Ack s) ++
  [byte_of_Z (Z.shiftl (wrap8 (hdrLen / 4)) 4); byte_of_Z (Flags s)] ++
  be_put 2 (Window s) ++ [Byte.x00; Byte.x00] ++ be_put 2 (Urgent s) ++ optBytes.

Definition Segment_Marshal (s : Segment) : list byte :=
  let hdr := Segment_marshalHeader s in
  if len (Payload s) =? 0 then hdr else hdr ++ Payload s.

Definition Segment_DataLen (s : Segment) : Z := wrap32 (len (Payload s)).

Definition Segment_HasFlag (s : Segment) (flag : Z) : bool :=
  negb (Z.land (Flags s) flag =? 0).

Definition Segment_SegLen (s : Segment) : Z :=
  let n := wrap32 (len (Payload s)) in
  let n := if negb (Z.land (Flags s) FlagSYN =? 0) then wrap32 (n + 1) else n in
  if negb (Z.land (Flags s) FlagFIN =? 0) then wrap32 (n + 1) else n.

(** ** Well-formed segments *)

(** What fits the fixed header: each field in its width, options the wire can
    carry, and at most forty bytes of them. *)
Definition segment_wf (s : Segment) : Prop :=
  is_u16 (SrcPort s) /\ is_u16 (DstPort s) /\ is_u32 (Seq s) /\ is_u32 (Ack s) /\
  is_u8 (Flags s) /\ is_u16 (Window s) /\ is_u16 (Urgent s) /\
  Forall option_wf (Options s) /\ options_size (Options s) <= 40.

Lemma wire_option_bytes opts :
  (if 0 <? len opts then BuildOptions opts else []) = BuildOptions opts.
Proof. destruct opts; [done|]. simpl (0 <? _). done. Qed.

Lemma length_marshalHeader s :
  len (Segment_marshalHeader s) = 20 + len (BuildOptions (Options s)).
Proof.
  unfold Segment_marshalHeader. rewrite wire_option_bytes.
  rewrite !length_app, !length_be_put. simpl. lia.
Qed.

Lemma Segment_Marshal_app s : Segment_Marshal s = Segment_marshalHeader s ++ Payload s.
Proof.
  unfold Segment_Marshal. destruct (Z.eqb_spec (len (Payload s)) 0) as [E|]; [|done].
  destruct (Payload s); [by rewrite app_nil_r|done].
Qed.

Lemma data_offset_byte n :
  0 <= n <= 40 -> n mod 4 = 0 ->
  Z.shiftr (Z_of_byte (byte_of_Z (Z.shiftl (wrap8 ((20 + n) / 4)) 4))) 4 * 4 = 20 + n.
Proof.
  intros Hn Hm. rewrite Z_of_byte_of_Z, Z.shiftl_mul_pow2, Z.shiftr_div_pow2 by lia.
  change (2 ^ 4) with 16. mlia.
Qed.

Lemma length_BuildOptions_40 opts :
  options_size opts <= 40 -> 0 <= len (BuildOptions opts) <= 40.
Proof. pose proof (length_BuildOptions opts). Z.div_mod_to_equations; lia. Qed.

Lemma parse_marshal s :
  segment_wf s -> ParseSegment (Segment_Marshal s) = inr (s <| Checksum := 0 |>).
Proof.
  intros (H1 & H2 & H3 & H4 & H5 & H6 & H7 & Ho & Hs).
  rewrite Segment_Marshal_app. unfold ParseSegment.
  rewrite length_app, Nat2Z.inj_add, length_marshalHeader.
  unfold Segment_marshalHeader. rewrite wire_option_bytes.
  pose proof (length_BuildOptions_40 _ Hs). destruct (length_BuildOptions (Options s)) as [_ Hm].
  set (opts := BuildOptions (Options s)) in *.
  rewrite <- !app_assoc. cbn [app be_put nth].
  rewrite data_offset_byte by done.
  replace (20 + len opts + len (Payload s) <? 20) with false by lia.
  replace ((20 + len opts <? 20) || _) with false by lia.
  f_equal. unfold set_field. destruct s as [sp dp sq ak fl wi ck ur os pl].
  cbn [SrcPort DstPort Seq Ack Flags Window Checksum Urgent Options Payload] in *. f_equal.
  - change (be_get (be_put 2 sp) = sp). rewrite be_get_put16. by apply wrap16_small.
  - change (be_get (be_put 2 dp) = dp). rewrite be_get_put16. by apply wrap16_small.
  - change (be_get (be_put 4 sq) = sq). rewrite be_get_put32. by apply wrap32_small.
  - change (be_get (be_put 4 ak) = ak). rewrite be_get_put32. by apply wrap32_small.
  - rewrite Z_of_byte_of_Z. by apply wrap8_small.
  - change (be_get (be_put 2 wi) = wi). rewrite be_get_put16. by apply wrap16_small.
  - change (be_get (be_put 2 ur) = ur). rewrite be_get_put16. by apply wrap16_small.
  - case_match eqn:E; zbool.
    + unfold slice. change (Z.to_nat 20) with 20%nat. cbn [drop].
      replace (Z.to_nat (20 + len opts - 20)) with (length opts) by lia.
      rewrite drop_0, take_app_length. by apply parse_build.
    + assert (opts = []) as Hnil by (apply length_zero_iff_nil; lia).
      rewrite <- (parse_build os) by done. fold opts. by rewrite Hnil.
  - unfold dropZ. replace (Z.to_nat (20 + len opts)) with (20 + length opts)%nat by lia.
    cbn [drop Nat.add]. rewrite drop_app_length. case_match; zbool; [done|].
    symmetry. apply length_zero_iff_nil. lia.
Qed.

(** ** Theorems *)

(** C34: a well-formed segment survives the wire: parsing what [Marshal] wrote gives the
    same ports, numbers, flags, window, options and payload, with the checksum field
    zero, as the comment on [Marshal] says. *)
Theorem segment_roundtrip (s : Segment) (H : segment_wf s) :
  ParseSegment (Segment_Marshal s) = inr (s <| Checksum := 0 |>).
Proof. by apply parse_marshal. Qed.

Lemma segment_roundtrip_witness :
  let s := mkSegment 80 4000 4294967295 7 (Z.lor FlagSYN FlagACK) 1000 0 0
             [MSSOption 1460; WScaleOption 3] [Byte.x61; Byte.x62] in
  ParseSegment (Segment_Marshal s) = inr s.
Proof.
  intros s. apply (segment_roundtrip s). unfold segment_wf, is_u16, is_u32, is_u8.
  subst s; cbn [SrcPort DstPort Seq Ack Flags Window Urgent Options].
  split_and!; try (by vm_compute). split_Forall; auto with vtcp.
Defined.

(** the parser is total and checked: it fails exactly on inputs shorter than a header
    or whose data offset is below five words or past the end, and on success the payload
    is the rest of the input after a header of 20 to 60 bytes, every field in its width
    and every option well formed. *)
Theorem segment_parse_sound (raw : list byte) :
  match ParseSegment raw with
  | inl SegmentTooShort => len raw < 20
  | inl InvalidDataOffset =>
      20 <= len raw /\
      let off := Z.shiftr (Z_of_byte (nth 12 raw Byte.x00)) 4 * 4 in
      off < 20 \/ len raw < off
  | inr s =>
      exists hdr, raw = hdr ++ Payload s /\ 20 <= len hdr <= 60 /\
      is_u16 (SrcPort s) /\ is_u16 (DstPort s) /\ is_u32 (Seq s) /\ is_u32 (Ack s) /\
      is_u8 (Flags s) /\ is_u16 (Window s) /\ Forall option_wf (Options s)
  end.
Proof.
  unfold ParseSegment. set (off := Z.shiftr _ 4 * 4).
  destruct (Z.ltb_spec (len raw) 20); [done|].
  destruct ((off <? 20) || (len raw <? off)) eqn:E2; [split; [done|lia]|zbool].
  assert (off <= 60).
  { unfold off. rewrite Z.shiftr_div_pow2 by lia.
    pose proof (Z_of_byte_range (nth 12 raw Byte.x00)). change (2 ^ 4) with 16.
    Z.div_mod_to_equations; lia. }
  assert (forall i j, 0 <= i <= j -> j <= len raw -> len (slice raw i j) = j - i) as Hlen.
  { intros i j Hi Hj. unfold slice. rewrite length_take, length_drop. lia. }
  assert (forall i, i + 2 <= len raw -> 0 <= i -> is_u16 (be_get (slice raw i (i + 2)))) as H16.
  { intros i Hi Hi0. pose proof (be_get_range (slice raw i (i + 2))) as Hr.
    rewrite Hlen in Hr by lia. replace (8 * (i + 2 - i)) with 16 in Hr by lia. done. }
  assert (forall i, i + 4 <= len raw -> 0 <= i -> is_u32 (be_get (slice raw i (i + 4)))) as H32.
  { intros i Hi Hi0. pose proof (be_get_range (slice raw i (i + 4))) as Hr.
    rewrite Hlen in Hr by lia. replace (8 * (i + 4 - i)) with 32 in Hr by lia. done. }
  exists (takeZ off raw). cbn [SrcPort DstPort Seq Ack Flags Window Options Payload].
  split_and!; try (rewrite length_takeZ by lia; lia).
  - case_match eqn:E3; zbool; [by rewrite take_dropZ|].
    rewrite app_nil_r. unfold takeZ. rewrite take_ge by lia. done.
  - apply (H16 0); lia.
  - apply (H16 2); lia.
  - apply (H32 4); lia.
  - apply (H32 8); lia.
  - apply Z_of_byte_range.
  - apply (H16 14); lia.
  - case_match; [apply ParseOptions_wf_loop|constructor].
Qed.
