(* ===== verification/Rto.v ===== *)
(** Retransmission timeout computation (src/vtcp/rto.go): the smoothed RTT
    estimator of RFC 6298 with its clamp, the exponential backoff and the
    timing flag of Karn's algorithm.

    Durations are signed 64-bit nanosecond counts; every arithmetic result is
    reduced by [int64].  The wall clock is an argument ([now]) of the two
    methods that read it. *)

From S2P Require Import Prelude SeqSpace.

Definition Millisecond : Z := 1000000.
Definition Second : Z := 1000 * Millisecond.

Definition DefaultRTO : Z := Second.
Definition MinRTO : Z := 200 * Millisecond.
Definition MaxRTO : Z := 60 * Second.

Record RTOCalculator := mkRTO {
  srtt : Z;
  rttvar : Z;
  rto : Z;
  measured : bool;
  timing : bool;
  timeSent : Z;
  timeSeq : Z;
}.

#[global] Instance RTOCalculator_eta : Eta RTOCalculator := fun r =>
  mkRTO (srtt r) (rttvar r) (rto r) (measured r) (timing r) (timeSent r) (timeSeq r).

Definition NewRTOCalculator : RTOCalculator := mkRTO 0 0 DefaultRTO false false 0 0.

Definition RTO_clamp (r : RTOCalculator) : RTOCalculator :=
  let r := if rto r <? MinRTO then r <| rto := MinRTO |> else r in
  if MaxRTO <? rto r then r <| rto := MaxRTO |> else r.

Definition RTO_Sample (rtt : Z) (r : RTOCalculator) : RTOCalculator :=
  let r :=
    if negb (measured r) then
      r <| srtt := rtt |> <| rttvar := Z.quot rtt 2 |> <| measured := true |>
    else
      let diff := int64 (srtt r - rtt) in
      let diff := if diff <? 0 then int64 (- diff) else diff in
      let r := r <| rttvar := Z.quot (int64 (3 * rttvar r + diff)) 4 |> in
      r <| srtt := Z.quot (int64 (7 * srtt r + rtt)) 8 |>
  in
  RTO_clamp (r <| rto := int64 (srtt r + 4 * rttvar r) |>).

Definition RTO_Backoff (r : RTOCalculator) : RTOCalculator :=
  RTO_clamp (r <| rto := int64 (rto r * 2) |>).

Definition RTO_RTO (r : RTOCalculator) : Z := rto r.
Definition RTO_SRTT (r : RTOCalculator) : Z := srtt r.

Definition RTO_StartTiming (now seq : Z) (r : RTOCalculator) : RTOCalculator :=
  if timing r then r
  else r <| timing := true |> <| timeSent := now |> <| timeSeq := seq |>.

Definition RTO_AckReceived (now ack : Z) (r : RTOCalculator) : bool * RTOCalculator :=
  if negb (timing r) then (false, r)
  else if SeqAfter ack (timeSeq r) then
    (true, (RTO_Sample (now - timeSent r) r) <| timing := false |>)
  else (false, r).

Definition RTO_InvalidateTiming (r : RTOCalculator) : RTOCalculator :=
  r <| timing := false |>.

(** ** The operations as one alphabet *)

Inductive rto_op :=
  | OpSample (rtt : Z)
  | OpBackoff
  | OpStartTiming (now seq : Z)
  | OpAckReceived (now ack : Z)
  | OpInvalidate.

Definition rto_step (r : RTOCalculator) (o : rto_op) : RTOCalculator :=
  match o with
  | OpSample rtt => RTO_Sample rtt r
  | OpBackoff => RTO_Backoff r
  | OpStartTiming now seq => RTO_StartTiming now seq r
  | OpAckReceived now ack => (RTO_AckReceived now ack r).2
  | OpInvalidate => RTO_InvalidateTiming r
  end.

Definition rto_bounded (r : RTOCalculator) : Prop := MinRTO <= rto r <= MaxRTO.

Lemma RTO_clamp_bounded r : rto_bounded (RTO_clamp r).
Proof.
  unfold rto_bounded, RTO_clamp, MinRTO, MaxRTO, Second, Millisecond.
  zcase; lia.
Qed.

Lemma RTO_clamp_rto r : rto (RTO_clamp r) = Z.min MaxRTO (Z.max MinRTO (rto r)).
Proof. unfold RTO_clamp, MinRTO, MaxRTO, Second, Millisecond. zcase; lia. Qed.

Lemma RTO_clamp_timing r : timing (RTO_clamp r) = timing r.
Proof. unfold RTO_clamp. zcase; done. Qed.

#[export] Hint Resolve RTO_clamp_bounded : vtcp.

Lemma RTO_Sample_bounded rtt r : rto_bounded (RTO_Sample rtt r).
Proof. unfold RTO_Sample. auto with vtcp. Qed.

Lemma rto_step_bounded r o : rto_bounded r -> rto_bounded (rto_step r o).
Proof.
  intros H. destruct o; simpl; auto using RTO_Sample_bounded with vtcp.
  - unfold RTO_Backoff. auto with vtcp.
  - unfold RTO_StartTiming. destruct (timing r); done.
  - unfold RTO_AckReceived. repeat case_match; simpl; try done. apply RTO_Sample_bounded.
Qed.

(** The estimator's registers stay small enough that no intermediate of
    [Sample] leaves the 64-bit range. *)
Definition rto_small (r : RTOCalculator) : Prop :=
  0 <= srtt r <= 2 ^ 56 /\ 0 <= rttvar r <= 2 ^ 56.

Lemma int64_pos d : 0 <= d < 2 ^ 63 -> int64 d = d.
Proof. intros H. apply int64_small. unfold is_i64. lia. Qed.

(** ** Theorems *)

(** C35: whatever sequence of samples (of any 64-bit value, overflow included), backoffs
    and timings is applied to a new calculator, its timeout stays between 200 ms and
    60 s. *)
Theorem rto_always_bounded (ops : list rto_op) :
  MinRTO <= RTO_RTO (foldl rto_step NewRTOCalculator ops) <= MaxRTO.
Proof.
  assert (rto_bounded NewRTOCalculator) as H by (unfold rto_bounded; vm_compute; split; done).
  revert H. generalize NewRTOCalculator.
  induction ops as [|o ops IH]; intros r H; simpl; [done|].
  apply IH, rto_step_bounded, H.
Qed.

(** for round-trip times up to 2^56 ns (over two years) [Sample] does not overflow:
    the new estimates are the RFC 6298 formulas over the integers, with RTTVAR updated
    from the old SRTT, the smoothed RTT lies between the old one and the sample, and
    the registers stay in range for the next sample. *)
Theorem rto_sample_exact (rtt : Z) (r : RTOCalculator)
  (Hr : 0 <= rtt <= 2 ^ 56) (Hs : rto_small r) :
  let r' := RTO_Sample rtt r in
  rto_small r' /\ measured r' = true /\
  srtt r' = (if measured r then (7 * srtt r + rtt) / 8 else rtt) /\
  rttvar r' = (if measured r then (3 * rttvar r + Z.abs (srtt r - rtt)) / 4 else rtt / 2) /\
  rto r' = Z.min MaxRTO (Z.max MinRTO (srtt r' + 4 * rttvar r')) /\
  (measured r = true -> Z.min (srtt r) rtt <= srtt r' <= Z.max (srtt r) rtt).
Proof.
  destruct Hs as [H1 H2]. intros r'. subst r'.
  assert (srtt (RTO_Sample rtt r) = (if measured r then (7 * srtt r + rtt) / 8 else rtt)) as Es.
  { unfold RTO_Sample, RTO_clamp. destruct (measured r); zcase;
      rewrite ?int64_pos by lia; rewrite ?Z.quot_div_nonneg by lia; done. }
  assert (rttvar (RTO_Sample rtt r) =
    (if measured r then (3 * rttvar r + Z.abs (srtt r - rtt)) / 4 else rtt / 2)) as Ev.
  { assert ((if int64 (srtt r - rtt) <? 0 then int64 (- int64 (srtt r - rtt))
             else int64 (srtt r - rtt)) = Z.abs (srtt r - rtt)) as Ed.
    { rewrite (int64_small (srtt r - rtt)) by (unfold is_i64; lia).
      rewrite (int64_small (- (srtt r - rtt))) by (unfold is_i64; lia).
      destruct (Z.ltb_spec (srtt r - rtt) 0); lia. }
    unfold RTO_Sample. rewrite Ed. unfold RTO_clamp. destruct (measured r); zcase;
      rewrite ?int64_pos by lia; rewrite ?Z.quot_div_nonneg by lia; done. }
  assert (0 <= srtt (RTO_Sample rtt r) <= 2 ^ 56) as Hs'
    by (rewrite Es; destruct (measured r); Z.div_mod_to_equations; lia).
  assert (0 <= rttvar (RTO_Sample rtt r) <= 2 ^ 56) as Hv'
    by (rewrite Ev; destruct (measured r); Z.div_mod_to_equations; lia).
  split_and!; try done; try (by destruct Hs') ; try (by destruct Hv').
  - unfold RTO_Sample, RTO_clamp. destruct (measured r) eqn:E; zcase; done.
  - rewrite <- (int64_pos (srtt (RTO_Sample rtt r) + 4 * rttvar (RTO_Sample rtt r))) by lia.
    unfold RTO_Sample at 1. rewrite RTO_clamp_rto. cbn [rto set_field].
    do 3 f_equal; unfold RTO_Sample, RTO_clamp; zcase; done.
  - intros E. rewrite Es, E. Z.div_mod_to_equations; lia.
Qed.

Lemma rto_sample_exact_witness :
  srtt (RTO_Sample (80 * Millisecond)
    (RTO_Sample (100 * Millisecond) NewRTOCalculator)) = 97500000.
Proof.
  destruct (rto_sample_exact (80 * Millisecond)
    (RTO_Sample (100 * Millisecond) NewRTOCalculator)) as (_ & _ & E & _).
  - vm_compute; split; done.
  - unfold rto_small. vm_compute; split; split; done.
  - rewrite E. vm_compute. done.
Defined.

(** [n] backoffs from a bounded timeout give [2^n] times the timeout, capped at 60 s. *)
Theorem rto_backoff_iter (n : nat) (r : RTOCalculator) (H : rto_bounded r) :
  RTO_RTO (Nat.iter n RTO_Backoff r) = Z.min MaxRTO (2 ^ Z.of_nat n * RTO_RTO r).
Proof.
  unfold RTO_RTO. induction n as [|n IH].
  { destruct H. simpl Nat.iter. change (2 ^ Z.of_nat 0) with 1. lia. }
  cbn [Nat.iter nat_rect]. unfold RTO_Backoff at 1. rewrite RTO_clamp_rto. cbn [rto set_field].
  change (nat_rect (fun _ => RTOCalculator) r (fun _ => RTO_Backoff) n)
    with (Nat.iter n RTO_Backoff r).
  rewrite IH. destruct H as [Hl Hh]. rewrite Nat2Z.inj_succ, Z.pow_succ_r by lia.
  assert (1 <= 2 ^ Z.of_nat n) by (apply Z.pow_le_mono_r with (b := 0); lia).
  unfold MinRTO, MaxRTO, Second, Millisecond in *. rewrite int64_pos by lia. nia.
Qed.

Lemma rto_backoff_iter_witness : RTO_RTO (Nat.iter 6 RTO_Backoff NewRTOCalculator) = MaxRTO.
Proof.
  rewrite (rto_backoff_iter 6 NewRTOCalculator); [vm_compute; done|].
  unfold rto_bounded. vm_compute. split; done.
Defined.

(** Karn's algorithm: once timing is invalidated by a retransmission no acknowledgment
    changes the estimator until a new segment is timed, and a timed segment is sampled
    only by an acknowledgment past it, exactly once. *)
Theorem rto_karn (now ack now' ack' : Z) (r : RTOCalculator) :
  RTO_AckReceived now ack (RTO_InvalidateTiming r) = (false, RTO_InvalidateTiming r) /\
  (forall r', RTO_AckReceived now ack r = (true, r') ->
     timing r = true /\ SeqAfter ack (timeSeq r) = true /\
     RTO_AckReceived now' ack' r' = (false, r')) /\
  (timing r = true -> SeqAfter ack (timeSeq r) = false ->
     RTO_AckReceived now ack r = (false, r)).
Proof.
  unfold RTO_AckReceived, RTO_InvalidateTiming. split_and!; [done| |].
  - intros r' Hr. destruct (timing r) eqn:Et; simpl in Hr; [|done].
    destruct (SeqAfter ack (timeSeq r)); [|done]. injection Hr as <-. split_and!; done.
  - intros -> ->. done.
Qed.
