(* ===== verification/Congestion.v ===== *)
(** Congestion control (src/vtcp/congestion.go): the interface
    [CongestionController], its two implementations NewReno (RFC 5681) and
    HighSpeed (RFC 3649), and the choice between them made by
    [newCongestionController] of src/vtcp/conn.go.

    Windows are 32-bit registers and every sum wraps.  A division by a zero
    register is a run-time panic, so the methods that divide return an
    [outcome].  HighSpeed computes its increase and decrease in float64 with
    [math.Log] and [math.Pow]; those operations are the class [Float64], and
    the theorems hold for every implementation of it unless they name the
    rounding facts they use ([Float64Exact]). *)

From Stdlib Require Import QArith Qround.
From S2P Require Import Prelude.
#[local] Open Scope Z_scope.

(** ** Float arithmetic *)

Class Float64 := {
  float : Type;
  f_of_u32 : Z -> float;
  f_to_u32 : float -> Z;
  (** The literal [m * 10^-k]. *)
  f_lit : Z -> nat -> float;
  f_add : float -> float -> float;
  f_sub : float -> float -> float;
  f_mul : float -> float -> float;
  f_div : float -> float -> float;
  f_log : float -> float;
  f_pow : float -> float -> float;
  f_to_u32_range : forall x, is_u32 (f_to_u32 x);
}.

(** ** NewReno *)

Record NewReno := mkNewReno {
  nr_cwnd : Z;
  nr_ssthresh : Z;
  nr_mss : Z;
  nr_dupAckCnt : Z;
  nr_recovery : bool;
  nr_recoverySeq : Z;
}.

#[global] Instance NewReno_eta : Eta NewReno := fun n =>
  mkNewReno (nr_cwnd n) (nr_ssthresh n) (nr_mss n) (nr_dupAckCnt n)
    (nr_recovery n) (nr_recoverySeq n).

(** The initial window shared by both constructors. *)
Definition initialCWND (mss : Z) : Z :=
  let initial := wrap32 (10 * mss) in
  let alt := Z.max (wrap32 (2 * mss)) 14600 in
  if alt <? initial then alt else initial.

Definition NewNewReno (mss : Z) : NewReno :=
  mkNewReno (initialCWND mss) (2 ^ 32 - 1) mss 0 false 0.

Definition NewReno_OnACK (bytesAcked : Z) (nr : NewReno) : outcome NewReno :=
  let nr := nr <| nr_dupAckCnt := 0 |> in
  if nr_cwnd nr <? nr_ssthresh nr then
    let inc := if nr_mss nr <? bytesAcked then nr_mss nr else bytesAcked in
    Ok (nr <| nr_cwnd := wrap32 (nr_cwnd nr + inc) |>)
  else if nr_cwnd nr =? 0 then Panic
  else
    let inc := wrap32 (nr_mss nr * nr_mss nr) / nr_cwnd nr in
    let inc := if inc =? 0 then 1 else inc in
    Ok (nr <| nr_cwnd := wrap32 (nr_cwnd nr + inc) |>).

Definition NewReno_OnDupACK (nr : NewReno) : bool * NewReno :=
  let nr := nr <| nr_dupAckCnt := nr_dupAckCnt nr + 1 |> in
  if (nr_dupAckCnt nr =? 3) && negb (nr_recovery nr) then (true, nr)
  else if nr_recovery nr && (3 <? nr_dupAckCnt nr) then
    (false, nr <| nr_cwnd := wrap32 (nr_cwnd nr + nr_mss nr) |>)
  else (false, nr).

Definition NewReno_OnFastRetransmit (flightSize sndNxt : Z) (nr : NewReno) : NewReno :=
  let nr := nr <| nr_ssthresh := Z.max (flightSize / 2) (wrap32 (2 * nr_mss nr)) |> in
  let nr := nr <| nr_cwnd := wrap32 (nr_ssthresh nr + 3 * nr_mss nr) |> in
  nr <| nr_recovery := true |> <| nr_recoverySeq := sndNxt |>.

Definition NewReno_ExitRecovery (nr : NewReno) : NewReno :=
  nr <| nr_cwnd := nr_ssthresh nr |> <| nr_recovery := false |>
     <| nr_dupAckCnt := 0 |> <| nr_recoverySeq := 0 |>.

Definition NewReno_OnTimeout (nr : NewReno) : NewReno :=
  let nr := nr <| nr_ssthresh := Z.max (nr_cwnd nr / 2) (wrap32 (2 * nr_mss nr)) |> in
  nr <| nr_cwnd := nr_mss nr |> <| nr_recovery := false |>
     <| nr_dupAckCnt := 0 |> <| nr_recoverySeq := 0 |>.

(** ** HighSpeed *)

Record HighSpeed := mkHighSpeed {
  hs_cwnd : Z;
  hs_ssthresh : Z;
  hs_mss : Z;
  hs_dupAckCnt : Z;
  hs_recovery : bool;
  hs_recoverySeq : Z;
}.

#[global] Instance HighSpeed_eta : Eta HighSpeed := fun h =>
  mkHighSpeed (hs_cwnd h) (hs_ssthresh h) (hs_mss h) (hs_dupAckCnt h)
    (hs_recovery h) (hs_recoverySeq h).

Definition hsLowWindow : Z := 38.
Definition hsHighWindow : Z := 83000.

Definition NewHighSpeed (mss : Z) : HighSpeed :=
  mkHighSpeed (initialCWND mss) (2 ^ 32 - 1) mss 0 false 0.

Section highspeed.
Context {F : Float64}.

Definition hsHighDecrease : float := f_lit 1 1.

Definition hstcpB (w : Z) : float :=
  if w <=? hsLowWindow then f_lit 5 1
  else
    let logW := f_log (f_of_u32 w) in
    let logLow := f_log (f_of_u32 hsLowWindow) in
    let logHigh := f_log (f_of_u32 hsHighWindow) in
    f_add (f_div (f_mul (f_sub hsHighDecrease (f_lit 5 1)) (f_sub logW logLow))
                 (f_sub logHigh logLow)) (f_lit 5 1).

Definition hstcpA (w : Z) : float :=
  if w <=? hsLowWindow then f_lit 1 0
  else
    let b := hstcpB w in
    let p := f_div (f_lit 78 3) (f_pow (f_of_u32 w) (f_lit 12 1)) in
    let wf := f_of_u32 w in
    f_div (f_mul (f_mul (f_mul (f_mul wf wf) p) (f_lit 2 0)) b)
          (f_sub (f_lit 2 0) b).

Definition HighSpeed_OnACK (bytesAcked : Z) (hs : HighSpeed) : outcome HighSpeed :=
  let hs := hs <| hs_dupAckCnt := 0 |> in
  if hs_cwnd hs <? hs_ssthresh hs then
    let inc := if hs_mss hs <? bytesAcked then hs_mss hs else bytesAcked in
    Ok (hs <| hs_cwnd := wrap32 (hs_cwnd hs + inc) |>)
  else if hs_mss hs =? 0 then Panic
  else
    let wSegs := hs_cwnd hs / hs_mss hs in
    let a := hstcpA wSegs in
    let inc := f_to_u32 (f_div (f_mul (f_mul a (f_of_u32 (hs_mss hs))) (f_of_u32 (hs_mss hs)))
                               (f_of_u32 (hs_cwnd hs))) in
    let inc := if inc =? 0 then 1 else inc in
    Ok (hs <| hs_cwnd := wrap32 (hs_cwnd hs + inc) |>).

Definition HighSpeed_OnDupACK (hs : HighSpeed) : bool * HighSpeed :=
  let hs := hs <| hs_dupAckCnt := hs_dupAckCnt hs + 1 |> in
  if (hs_dupAckCnt hs =? 3) && negb (hs_recovery hs) then (true, hs)
  else if hs_recovery hs && (3 <? hs_dupAckCnt hs) then
    (false, hs <| hs_cwnd := wrap32 (hs_cwnd hs + hs_mss hs) |>)
  else (false, hs).

(** [uint32(float64(cwnd) * (1 - b))] with its floor of two segments, the code
    shared by the two loss events. *)
Definition hs_reduced (hs : HighSpeed) : Z :=
  let b := hstcpB (hs_cwnd hs / hs_mss hs) in
  let s := f_to_u32 (f_mul (f_of_u32 (hs_cwnd hs)) (f_sub (f_lit 1 0) b)) in
  if s <? wrap32 (2 * hs_mss hs) then wrap32 (2 * hs_mss hs) else s.

Definition HighSpeed_OnFastRetransmit (flightSize sndNxt : Z) (hs : HighSpeed) :
    outcome HighSpeed :=
  if hs_mss hs =? 0 then Panic
  else
    let hs := hs <| hs_ssthresh := hs_reduced hs |> in
    let hs := hs <| hs_cwnd := wrap32 (hs_ssthresh hs + 3 * hs_mss hs) |> in
    Ok (hs <| hs_recovery := true |> <| hs_recoverySeq := sndNxt |>).

Definition HighSpeed_ExitRecovery (hs : HighSpeed) : HighSpeed :=
  hs <| hs_cwnd := hs_ssthresh hs |> <| hs_recovery := false |>
     <| hs_dupAckCnt := 0 |> <| hs_recoverySeq := 0 |>.

Definition HighSpeed_OnTimeout (hs : HighSpeed) : outcome HighSpeed :=
  if hs_mss hs =? 0 then Panic
  else
    let hs := hs <| hs_ssthresh := hs_reduced hs |> in
    Ok (hs <| hs_cwnd := hs_mss hs |> <| hs_recovery := false |>
           <| hs_dupAckCnt := 0 |> <| hs_recoverySeq := 0 |>).
End highspeed.

(** ** The interface *)

Class CongestionController (C : Type) := {
  OnACK : Z -> C -> outcome C;
  OnDupACK : C -> bool * C;
  OnTimeout : C -> outcome C;
  OnFastRetransmit : Z -> Z -> C -> outcome C;
  ExitRecovery : C -> C;
  SendWindow : C -> Z;
  InRecovery : C -> bool;
  RecoverySeq : C -> Z;
}.

#[global] Instance NewReno_controller : CongestionController NewReno := {|
  OnACK := NewReno_OnACK;
  OnDupACK := NewReno_OnDupACK;
  OnTimeout nr := Ok (NewReno_OnTimeout nr);
  OnFastRetransmit f s nr := Ok (NewReno_OnFastRetransmit f s nr);
  ExitRecovery := NewReno_ExitRecovery;
  SendWindow := nr_cwnd;
  InRecovery := nr_recovery;
  RecoverySeq := nr_recoverySeq;
|}.

#[global] Instance HighSpeed_controller {F : Float64} : CongestionController HighSpeed := {|
  OnACK := HighSpeed_OnACK;
  OnDupACK := HighSpeed_OnDupACK;
  OnTimeout := HighSpeed_OnTimeout;
  OnFastRetransmit := HighSpeed_OnFastRetransmit;
  ExitRecovery := HighSpeed_ExitRecovery;
  SendWindow := hs_cwnd;
  InRecovery := hs_recovery;
  RecoverySeq := hs_recoverySeq;
|}.

(** The dynamic type of a connection's [cc] field: one of the two, with the
    method calls dispatched. *)
Inductive Controller :=
  | UseNewReno (nr : NewReno)
  | UseHighSpeed (hs : HighSpeed).

Definition omap {A B} (f : A -> B) (o : outcome A) : outcome B :=
  match o with Ok a => Ok (f a) | Panic => Panic end.

#[global] Instance Controller_controller {F : Float64} : CongestionController Controller := {|
  OnACK n c := match c with
    | UseNewReno x => omap UseNewReno (OnACK n x)
    | UseHighSpeed x => omap UseHighSpeed (OnACK n x) end;
  OnDupACK c := match c with
    | UseNewReno x => let '(b, x) := OnDupACK x in (b, UseNewReno x)
    | UseHighSpeed x => let '(b, x) := OnDupACK x in (b, UseHighSpeed x) end;
  OnTimeout c := match c with
    | UseNewReno x => omap UseNewReno (OnTimeout x)
    | UseHighSpeed x => omap UseHighSpeed (OnTimeout x) end;
  OnFastRetransmit f s c := match c with
    | UseNewReno x => omap UseNewReno (OnFastRetransmit f s x)
    | UseHighSpeed x => omap UseHighSpeed (OnFastRetransmit f s x) end;
  ExitRecovery c := match c with
    | UseNewReno x => UseNewReno (ExitRecovery x)
    | UseHighSpeed x => UseHighSpeed (ExitRecovery x) end;
  SendWindow c := match c with
    | UseNewReno x => SendWindow x | UseHighSpeed x => SendWindow x end;
  InRecovery c := match c with
    | UseNewReno x => InRecovery x | UseHighSpeed x => InRecovery x end;
  RecoverySeq c := match c with
    | UseNewReno x => RecoverySeq x | UseHighSpeed x => RecoverySeq x end;
|}.

(** The [CongestionControl] string of the configuration, reduced to the one
    distinction the switch makes. *)
Inductive CCName := CCNewReno | CCOther.

Definition newCongestionController (name : CCName) (mss : Z) : Controller :=
  match name with
  | CCNewReno => UseNewReno (NewNewReno mss)
  | CCOther => UseHighSpeed (NewHighSpeed mss)
  end.

(** ** What a controller promises to the connection *)

(** [ok P o]: the call returns, with a result that satisfies [P]. *)
Definition ok {A} (P : A -> Prop) (o : outcome A) : Prop :=
  match o with Ok a => P a | Panic => False end.

Class ControllerLaws (C : Type) `{CongestionController C} := {
  cc_inv : C -> Prop;
  cc_window : forall c, cc_inv c -> is_u32 (SendWindow c);
  cc_OnACK : forall n c, cc_inv c -> 0 <= n ->
    ok (fun c' => cc_inv c' /\ InRecovery c' = InRecovery c /\
                  RecoverySeq c' = RecoverySeq c) (OnACK n c);
  cc_OnDupACK : forall c, cc_inv c ->
    cc_inv (OnDupACK c).2 /\ InRecovery (OnDupACK c).2 = InRecovery c /\
    ((OnDupACK c).1 = true -> InRecovery c = false);
  cc_OnTimeout : forall c, cc_inv c ->
    ok (fun c' => cc_inv c' /\ InRecovery c' = false) (OnTimeout c);
  cc_OnFastRetransmit : forall f s c, cc_inv c -> is_u32 f ->
    ok (fun c' => cc_inv c' /\ InRecovery c' = true /\ RecoverySeq c' = s)
       (OnFastRetransmit f s c);
  cc_ExitRecovery : forall c, cc_inv c ->
    cc_inv (ExitRecovery c) /\ InRecovery (ExitRecovery c) = false;
}.

Definition NewReno_inv (nr : NewReno) : Prop :=
  is_u32 (nr_cwnd nr) /\ 0 < nr_mss nr < 2 ^ 30 /\
  2 * nr_mss nr <= nr_ssthresh nr < 2 ^ 32.

Definition HighSpeed_inv (hs : HighSpeed) : Prop :=
  is_u32 (hs_cwnd hs) /\ 0 < hs_mss hs < 2 ^ 30 /\
  2 * hs_mss hs <= hs_ssthresh hs < 2 ^ 32.

Lemma initialCWND_range mss : is_u32 (initialCWND mss).
Proof. unfold initialCWND. destruct (_ <? _); mlia. Qed.

Lemma NewNewReno_inv mss : 0 < mss < 2 ^ 30 -> NewReno_inv (NewNewReno mss).
Proof. intros H. pose proof (initialCWND_range mss). repeat split; simpl; unfold is_u32 in *; lia. Qed.

Lemma NewHighSpeed_inv mss : 0 < mss < 2 ^ 30 -> HighSpeed_inv (NewHighSpeed mss).
Proof. intros H. pose proof (initialCWND_range mss). repeat split; simpl; unfold is_u32 in *; lia. Qed.

Ltac cc_solve := repeat (split || intros); simpl in *; try done; try (by mlia).

#[global] Instance NewReno_laws : ControllerLaws NewReno.
Proof.
  refine {| cc_inv := NewReno_inv |}; unfold NewReno_inv.
  - intros c H. apply H.
  - intros n [cw ss ms da re rs] (H1 & H2 & H3) Hn; simpl in *.
    unfold NewReno_OnACK; simpl. destruct (Z.ltb_spec cw ss); [cc_solve|].
    destruct (Z.eqb_spec cw 0); [lia|]. cc_solve.
  - intros [cw ss ms da re rs] (H1 & H2 & H3); simpl in *.
    unfold NewReno_OnDupACK; simpl. repeat case_match; zbool; cc_solve.
  - intros [cw ss ms da re rs] (H1 & H2 & H3); simpl in *. cc_solve.
  - intros f s [cw ss ms da re rs] (H1 & H2 & H3) Hf; simpl in *. cc_solve.
  - intros [cw ss ms da re rs] (H1 & H2 & H3); simpl in *. cc_solve.
Defined.

Section highspeed_laws.
Context {F : Float64}.

Lemma hs_reduced_range hs :
  HighSpeed_inv hs -> 2 * hs_mss hs <= hs_reduced hs < 2 ^ 32.
Proof.
  intros (H1 & H2 & H3). unfold hs_reduced.
  pose proof (f_to_u32_range
    (f_mul (f_of_u32 (hs_cwnd hs))
       (f_sub (f_lit 1 0) (hstcpB (hs_cwnd hs / hs_mss hs))))) as Hr.
  assert (wrap32 (2 * hs_mss hs) = 2 * hs_mss hs) as -> by mlia.
  destruct (Z.ltb_spec (f_to_u32 (f_mul (f_of_u32 (hs_cwnd hs))
    (f_sub (f_lit 1 0) (hstcpB (hs_cwnd hs / hs_mss hs))))) (2 * hs_mss hs));
    unfold is_u32 in *; lia.
Qed.

#[global] Instance HighSpeed_laws : ControllerLaws HighSpeed.
Proof.
  refine {| cc_inv := HighSpeed_inv |}.
  - intros c H. apply H.
  - intros n [cw ss ms da re rs] (H1 & H2 & H3) Hn; simpl in *. unfold HighSpeed_inv.
    unfold HighSpeed_OnACK; simpl. destruct (Z.ltb_spec cw ss); [cc_solve|].
    destruct (Z.eqb_spec ms 0); [lia|]. cc_solve.
  - intros [cw ss ms da re rs] (H1 & H2 & H3); simpl in *. unfold HighSpeed_inv.
    unfold HighSpeed_OnDupACK; simpl. repeat case_match; zbool; cc_solve.
  - intros c H. pose proof (hs_reduced_range c H). destruct H as (H1 & H2 & H3).
    simpl. unfold HighSpeed_OnTimeout. destruct (Z.eqb_spec (hs_mss c) 0); [lia|].
    unfold HighSpeed_inv. cc_solve.
  - intros f s c H Hf. pose proof (hs_reduced_range c H). destruct H as (H1 & H2 & H3).
    simpl. unfold HighSpeed_OnFastRetransmit. destruct (Z.eqb_spec (hs_mss c) 0); [lia|].
    unfold HighSpeed_inv. cc_solve.
  - intros [cw ss ms da re rs] (H1 & H2 & H3); simpl in *. unfold HighSpeed_inv. cc_solve.
Defined.

Lemma ok_omap {A B} (f : A -> B) (P : B -> Prop) o :
  ok (fun a => P (f a)) o -> ok P (omap f o).
Proof. destruct o; done. Qed.

#[global] Instance Controller_laws : ControllerLaws Controller.
Proof.
  refine {| cc_inv c := match c with
    | UseNewReno x => cc_inv x | UseHighSpeed x => cc_inv x end |}.
  - intros [x|x] H; exact (cc_window x H).
  - intros n [x|x] H Hn; apply ok_omap; exact (cc_OnACK n x H Hn).
  - intros [x|x] H; cbn -[cc_inv]; destruct (cc_OnDupACK x H) as (A & B & D).
    + cbn in *. destruct (NewReno_OnDupACK x). auto.
    + cbn in *. destruct (HighSpeed_OnDupACK x). auto.
  - intros [x|x] H; apply ok_omap; exact (cc_OnTimeout x H).
  - intros f s [x|x] H Hf; apply ok_omap; exact (cc_OnFastRetransmit f s x H Hf).
  - intros [x|x] H; exact (cc_ExitRecovery x H).
Defined.

Lemma newCongestionController_inv name mss :
  0 < mss < 2 ^ 30 -> cc_inv (newCongestionController name mss).
Proof. destruct name; [apply NewNewReno_inv|apply NewHighSpeed_inv]. Qed.
End highspeed_laws.

(** ** Events, as the connection raises them *)

Inductive cc_event :=
  | EvACK (bytesAcked : Z)
  | EvDupACK (flightSize sndNxt : Z)
  | EvTimeout
  | EvExitRecovery.

Definition obind {A B} (o : outcome A) (k : A -> outcome B) : outcome B :=
  match o with Ok a => k a | Panic => Panic end.

Definition cc_event_step {C} `{CongestionController C} (c : C) (e : cc_event) : outcome C :=
  match e with
  | EvACK n => OnACK n c
  | EvDupACK f s =>
      let '(fire, c') := OnDupACK c in
      if fire then OnFastRetransmit f s c' else Ok c'
  | EvTimeout => OnTimeout c
  | EvExitRecovery => Ok (ExitRecovery c)
  end.

Definition cc_run {C} `{CongestionController C} (c : C) (es : list cc_event) : outcome C :=
  foldl (fun o e => obind o (fun c => cc_event_step c e)) (Ok c) es.

Definition cc_event_ok (e : cc_event) : Prop :=
  match e with
  | EvACK n => 0 <= n
  | EvDupACK f s => is_u32 f /\ is_u32 s
  | _ => True
  end.

Lemma cc_event_inv {C} `{ControllerLaws C} (c : C) e :
  cc_inv c -> cc_event_ok e -> ok cc_inv (cc_event_step c e).
Proof.
  intros Hc He. destruct e as [n|f s| |]; simpl in *.
  - pose proof (cc_OnACK n c Hc He). destruct (OnACK n c); [apply H1|done].
  - destruct (cc_OnDupACK c Hc) as (Hc' & _). destruct (OnDupACK c) as [[] c']; [|done].
    pose proof (cc_OnFastRetransmit f s c' Hc' (proj1 He)) as Hf.
    destruct (OnFastRetransmit f s c'); [apply Hf|done].
  - pose proof (cc_OnTimeout c Hc). destruct (OnTimeout c); [apply H1|done].
  - by apply cc_ExitRecovery.
Qed.

Lemma cc_run_inv {C} `{ControllerLaws C} (c : C) es :
  cc_inv c -> Forall cc_event_ok es -> ok cc_inv (cc_run c es).
Proof.
  intros Hc Hes. unfold cc_run.
  assert (ok cc_inv (Ok c)) as Ho by done. revert Ho. generalize (Ok c) as o.
  induction Hes as [|e es He Hes IH]; intros o Ho; simpl; [done|].
  apply IH. destruct o as [c'|]; simpl in *; [|done]. by apply cc_event_inv.
Qed.

(** HighSpeed's registers, read as NewReno's. *)
Definition as_NewReno (hs : HighSpeed) : NewReno :=
  mkNewReno (hs_cwnd hs) (hs_ssthresh hs) (hs_mss hs) (hs_dupAckCnt hs)
    (hs_recovery hs) (hs_recoverySeq hs).

(** Two facts of IEEE double arithmetic the low-window equivalence uses: halving a
    32-bit integer and dividing a product of two 16-bit integers by a 32-bit integer
    are exact enough that truncation gives the integer quotient. *)
Class Float64Exact (F : Float64) := {
  f_half_exact : forall c, is_u32 c ->
    f_to_u32 (f_mul (f_of_u32 c) (f_sub (f_lit 1 0) (f_lit 5 1))) = c / 2;
  f_quot_exact : forall m c, 0 < m < 2 ^ 16 -> 0 < c < 2 ^ 32 ->
    f_to_u32 (f_div (f_mul (f_mul (f_lit 1 0) (f_of_u32 m)) (f_of_u32 m)) (f_of_u32 c))
    = m * m / c;
}.

(** A concrete float arithmetic: the rationals, with [x] for the logarithm and
    for the powers of [x]. *)
#[global] Instance Q_float : Float64 := {|
  float := Q;
  f_of_u32 z := inject_Z z;
  f_to_u32 q := wrap32 (Qfloor q);
  f_lit m k := m # Pos.of_nat (Nat.pow 10 k);
  f_add := Qplus; f_sub := Qminus; f_mul := Qmult; f_div := Qdiv;
  f_log q := q;
  f_pow q _ := q;
  f_to_u32_range q := wrap32_range _;
|}.

Lemma Qfloor_frac a b : Qfloor (a # b) = a / Zpos b.
Proof. done. Qed.

#[global] Instance Q_float_exact : Float64Exact Q_float.
Proof.
  split.
  - intros c Hc. change (wrap32 (Qfloor (inject_Z c * ((1 # 1) - (5 # 10)))) = c / 2).
    assert (Qfloor (inject_Z c * ((1 # 1) - (5 # 10))) = c / 2) as ->.
    { rewrite (Qfloor_comp _ (c # 2)); [done|]. unfold Qeq. simpl. lia. }
    mlia.
  - intros m c Hm Hc. destruct c as [|c|c]; [lia| |lia].
    change (wrap32 (Qfloor ((1 # 1) * inject_Z m * inject_Z m / inject_Z (Zpos c)))
      = m * m / Zpos c).
    assert (Qfloor ((1 # 1) * inject_Z m * inject_Z m / inject_Z (Zpos c)) = m * m / Zpos c) as ->.
    { rewrite (Qfloor_comp _ (m * m # c)); [done|]. unfold Qeq, Qdiv, Qinv. simpl.
      destruct m; simpl; lia. }
    apply wrap32_small. unfold is_u32. split; [apply Z.div_pos; nia|].
    apply Z.div_lt_upper_bound; nia.
Qed.

(** ** Theorems *)

(** no event sequence makes a controller panic or leaves its invariant: with a
    segment size in (0, 2^30), after any acknowledgments, duplicate acknowledgments (with
    the fast retransmit they trigger), timeouts and recovery exits, both controllers
    still answer, their window is a 32-bit value and their threshold is at least two
    segments. *)
Theorem controller_no_panic {F : Float64} (name : CCName) (mss : Z) (es : list cc_event)
  (Hm : 0 < mss < 2 ^ 30) (He : Forall cc_event_ok es) :
  match cc_run (newCongestionController name mss) es with
  | Panic => False
  | Ok (UseNewReno nr) =>
      is_u32 (nr_cwnd nr) /\ 0 < 2 * nr_mss nr <= nr_ssthresh nr
  | Ok (UseHighSpeed hs) =>
      is_u32 (hs_cwnd hs) /\ 0 < 2 * hs_mss hs <= hs_ssthresh hs
  end.
Proof.
  pose proof (cc_run_inv _ _ (newCongestionController_inv name mss Hm) He) as H.
  destruct (cc_run _ es) as [[x|x]|]; simpl in H; [| |done];
    destruct H as (H1 & H2 & H3); split; try done; lia.
Qed.

Lemma controller_no_panic_witness :
  exists nr, cc_run (newCongestionController CCNewReno 1460)
    [EvACK 1460; EvTimeout; EvDupACK 5000 77; EvDupACK 5000 77; EvDupACK 5000 77; EvACK 10]
    = Ok (UseNewReno nr) /\ is_u32 (nr_cwnd nr) /\ 0 < 2 * nr_mss nr <= nr_ssthresh nr.
Proof.
  eexists. split; [vm_compute; reflexivity|].
  refine (controller_no_panic (F := Q_float) CCNewReno 1460
    [EvACK 1460; EvTimeout; EvDupACK 5000 77; EvDupACK 5000 77; EvDupACK 5000 77; EvACK 10] _ _).
  - lia.
  - split_Forall; simpl; unfold is_u32; lia.
Defined.

(** NewReno's fast-recovery cycle: from a controller with no duplicates counted, the
    first two duplicate acknowledgments do nothing, the third asks for a fast retransmit;
    entering recovery sets the threshold to half the flight (at least two segments) and
    the window three segments above it; each further duplicate adds a segment; leaving
    recovery sets the window to the threshold. *)
Theorem newreno_fast_recovery (nr : NewReno) (flight sndNxt : Z) (k : nat)
  (Hinv : NewReno_inv nr) (Hd : nr_dupAckCnt nr = 0) (Hr : nr_recovery nr = false)
  (Hf : is_u32 flight)
  (Hk : Z.max (flight / 2) (2 * nr_mss nr) + (3 + Z.of_nat k) * nr_mss nr < 2 ^ 32) :
  let d1 := NewReno_OnDupACK nr in
  let d2 := NewReno_OnDupACK d1.2 in
  let d3 := NewReno_OnDupACK d2.2 in
  let rec := NewReno_OnFastRetransmit flight sndNxt d3.2 in
  let infl := Nat.iter k (fun n => (NewReno_OnDupACK n).2) rec in
  let out := NewReno_ExitRecovery infl in
  d1.1 = false /\ d2.1 = false /\ d3.1 = true /\ nr_cwnd d3.2 = nr_cwnd nr /\
  nr_ssthresh rec = Z.max (flight / 2) (2 * nr_mss nr) /\
  nr_cwnd infl = nr_ssthresh rec + (3 + Z.of_nat k) * nr_mss nr /\
  nr_recovery infl = true /\ nr_recoverySeq infl = sndNxt /\
  nr_cwnd out = Z.max (flight / 2) (2 * nr_mss nr) /\
  nr_recovery out = false /\ nr_dupAckCnt out = 0.
Proof.
  destruct nr as [cw ss ms da re rs]; simpl in Hd, Hr, Hk; subst da re.
  destruct Hinv as (H1 & H2 & H3); simpl in H1, H2, H3.
  assert (wrap32 (2 * ms) = 2 * ms) as E2 by mlia.
  intros d1 d2 d3 rec infl out. cbn [nr_mss nr_cwnd].
  set (T := Z.max (flight / 2) (2 * ms)) in *.
  assert (d3 = (true, mkNewReno cw ss ms 3 false rs)) as E3 by done.
  assert (0 <= T) by (unfold T, is_u32 in *; Z.div_mod_to_equations; lia).
  assert (rec = mkNewReno (T + 3 * ms) T ms 3 true sndNxt) as Er.
  { unfold rec. rewrite E3. unfold NewReno_OnFastRetransmit. simpl. rewrite E2.
    fold T. unfold set_field; simpl. f_equal. apply wrap32_small. unfold is_u32. nia. }
  assert (infl = mkNewReno (T + (3 + Z.of_nat k) * ms) T ms (3 + Z.of_nat k) true sndNxt) as Ei.
  { unfold infl. rewrite Er. clear -H H2 Hk. induction k as [|k IH].
    - simpl. f_equal; lia.
    - cbn [Nat.iter nat_rect]. unfold Nat.iter in IH. rewrite IH by nia.
      unfold NewReno_OnDupACK, set_field. cbn -[Z.of_nat Z.mul Z.add Z.eqb Z.ltb].
      replace (3 + Z.of_nat k + 1 =? 3) with false by lia.
      replace (3 <? 3 + Z.of_nat k + 1) with true by lia. simpl. f_equal; [|lia].
      rewrite wrap32_small; [|unfold is_u32]; nia. }
  unfold out. rewrite E3, Ei, Er. simpl. split_and!; done.
Qed.

Lemma newreno_fast_recovery_witness :
  nr_cwnd (NewReno_ExitRecovery (Nat.iter 2 (fun n => (NewReno_OnDupACK n).2)
    (NewReno_OnFastRetransmit 14600 99
      (NewReno_OnDupACK (NewReno_OnDupACK (NewReno_OnDupACK (NewNewReno 1460)).2).2).2))) = 7300.
Proof.
  destruct (newreno_fast_recovery (NewNewReno 1460) 14600 99 2) as (_ & _ & _ & _ & _ & _ & _ & _ & E & _).
  - apply NewNewReno_inv. lia.
  - reflexivity.
  - reflexivity.
  - unfold is_u32. lia.
  - vm_compute. reflexivity.
  - etransitivity; [exact E|]. vm_compute. reflexivity.
Defined.

(** on new acknowledgments NewReno grows by at most one segment: in slow start by the
    acknowledged bytes capped at a segment, in congestion avoidance by the integer
    quotient MSS^2/cwnd (at least one byte), as long as the 32-bit window does not
    overflow; past 2^32 the window register wraps to less than one segment. *)
Theorem newreno_window_growth (nr : NewReno) (n : Z)
  (Hinv : NewReno_inv nr) (Hm : nr_mss nr < 2 ^ 16) (Hn : 0 <= n) :
  let inc := if nr_cwnd nr <? nr_ssthresh nr then Z.min n (nr_mss nr)
             else Z.max 1 (nr_mss nr * nr_mss nr / nr_cwnd nr) in
  0 <= inc <= nr_mss nr /\
  exists nr', NewReno_OnACK n nr = Ok nr' /\ nr_dupAckCnt nr' = 0 /\
    nr_ssthresh nr' = nr_ssthresh nr /\
    (nr_cwnd nr + inc < 2 ^ 32 -> nr_cwnd nr' = nr_cwnd nr + inc) /\
    (2 ^ 32 <= nr_cwnd nr + inc -> nr_cwnd nr' < nr_mss nr).
Proof.
  destruct nr as [cw ss ms da re rs]. destruct Hinv as (H1 & H2 & H3); simpl in *.
  unfold NewReno_OnACK, is_u32 in *; simpl. destruct (Z.ltb_spec cw ss).
  - split; [lia|]. eexists; split_and!; [done..| |]; simpl; intros;
      destruct (Z.ltb_spec ms n); mlia.
  - destruct (Z.eqb_spec cw 0); [lia|].
    assert (wrap32 (ms * ms) = ms * ms) as -> by (apply wrap32_small; unfold is_u32; nia).
    assert (0 <= ms * ms / cw <= ms) as Hq.
    { split; [apply Z.div_pos; nia|]. apply Z.div_le_upper_bound; nia. }
    split; [lia|]. eexists; split_and!; [done..| |]; simpl; intros;
      destruct (Z.eqb_spec (ms * ms / cw) 0); mlia.
Qed.

Lemma newreno_window_growth_witness :
  exists nr', NewReno_OnACK 1460 ((NewNewReno 1460) <| nr_cwnd := 4294966000 |>) = Ok nr' /\
    nr_cwnd nr' < 1460.
Proof.
  destruct (newreno_window_growth ((NewNewReno 1460) <| nr_cwnd := 4294966000 |>) 1460)
    as (_ & nr' & E & _ & _ & _ & Hw).
  - unfold NewReno_inv. vm_compute. repeat split; done.
  - vm_compute; done.
  - lia.
  - exists nr'. split; [exact E|]. apply Hw. vm_compute. done.
Defined.

(** below its low window (38 segments) HighSpeed acknowledges and times out exactly
    as NewReno; on a fast retransmit it halves its own window where NewReno halves the
    flight size it is given, so the two agree there only when the flight is the window. *)
Theorem highspeed_low_window {F : Float64} {E : Float64Exact F} (hs : HighSpeed) (n flight s : Z)
  (Hinv : HighSpeed_inv hs) (Hm : hs_mss hs < 2 ^ 16)
  (Hlow : hs_cwnd hs / hs_mss hs <= hsLowWindow) :
  omap as_NewReno (HighSpeed_OnACK n hs) = NewReno_OnACK n (as_NewReno hs) /\
  omap as_NewReno (HighSpeed_OnTimeout hs) = Ok (NewReno_OnTimeout (as_NewReno hs)) /\
  omap as_NewReno (HighSpeed_OnFastRetransmit flight s hs)
    = Ok (NewReno_OnFastRetransmit (hs_cwnd hs) s (as_NewReno hs)).
Proof.
  destruct hs as [cw ss ms da re rs]. destruct Hinv as (H1 & H2 & H3); simpl in *.
  assert (hs_reduced (mkHighSpeed cw ss ms da re rs) = Z.max (cw / 2) (wrap32 (2 * ms))) as Er.
  { unfold hs_reduced, hstcpB; simpl. rewrite (proj2 (Z.leb_le _ _) Hlow).
    rewrite f_half_exact by done. destruct (Z.ltb_spec (cw / 2) (wrap32 (2 * ms))); lia. }
  unfold HighSpeed_OnACK, HighSpeed_OnTimeout, HighSpeed_OnFastRetransmit, NewReno_OnACK.
  simpl. rewrite Er. destruct (Z.eqb_spec ms 0) as [|_]; [lia|]. split_and!; [|done|done].
  destruct (Z.ltb_spec cw ss); [done|]. destruct (Z.eqb_spec cw 0); [lia|].
  unfold hstcpA. rewrite (proj2 (Z.leb_le _ _) Hlow).
  unfold is_u32 in H1. rewrite f_quot_exact by lia.
  rewrite (wrap32_small (ms * ms)) by (unfold is_u32; nia). done.
Qed.

Lemma highspeed_low_window_witness :
  omap as_NewReno (HighSpeed_OnFastRetransmit (F := Q_float) 2920 7 (NewHighSpeed 1460))
  = Ok (NewReno_OnFastRetransmit 14600 7 (as_NewReno (NewHighSpeed 1460))).
Proof.
  refine (proj2 (proj2 (highspeed_low_window (F := Q_float) (NewHighSpeed 1460) 0 2920 7 _ _ _))).
  - apply NewHighSpeed_inv. lia.
  - vm_compute; done.
  - vm_compute; done.
Defined.
