(* ===== verification/SendBuf.v ===== *)
(** The send buffer (src/vtcp/sendbuf.go): bytes between SND.UNA and the tail,
    of which the first NXT-UNA are in flight, and the SACK scoreboard.

    The buffer is shown to refine an abstract specification [SendSpec]: the
    whole written stream with two positions, acknowledged and sent.  The
    search for the first unSACKed byte is shown to terminate. *)

From S2P Require Import Prelude SeqSpace TcpOptions.

Record SendBuf := mkSendBuf {
  sb_buf : list byte;
  sb_cap : Z;
  sb_una : Z;
  sb_nxt : Z;
  sb_sacked : list SACKBlock;
}.

#[global] Instance SendBuf_eta : Eta SendBuf := fun s =>
  mkSendBuf (sb_buf s) (sb_cap s) (sb_una s) (sb_nxt s) (sb_sacked s).

Definition NewSendBuf (capacity initialSeq : Z) : SendBuf :=
  mkSendBuf [] capacity initialSeq initialSeq [].

Definition SendBuf_Write (p : list byte) (s : SendBuf) : Z * SendBuf :=
  let avail := sb_cap s - len (sb_buf s) in
  if avail <=? 0 then (0, s)
  else
    let n := if avail <? len p then avail else len p in
    (n, s <| sb_buf := sb_buf s ++ takeZ n p |>).

Definition SendBuf_Unacked (s : SendBuf) : Z := wrap32 (sb_nxt s - sb_una s).

Definition SendBuf_Pending (s : SendBuf) : Z :=
  let sent := wrap32 (sb_nxt s - sb_una s) in len (sb_buf s) - sent.

(** [s.buf[offset:]] panics when the offset is past the end, [unsent[:n]] when
    [n] is negative. *)
Definition SendBuf_PeekUnsent (n : Z) (s : SendBuf) : outcome (list byte) :=
  let offset := wrap32 (sb_nxt s - sb_una s) in
  if len (sb_buf s) <? offset then Panic
  else
    let unsent := dropZ offset (sb_buf s) in
    if n <? len unsent then
      if n <? 0 then Panic else Ok (takeZ n unsent)
    else Ok unsent.

Definition SendBuf_AdvanceSent (n : Z) (s : SendBuf) : SendBuf :=
  s <| sb_nxt := wrap32 (sb_nxt s + n) |>.

Definition SendBuf_pruneSACK (s : SendBuf) : SendBuf :=
  s <| sb_sacked := filter (fun b => SeqAfter (Right b) (sb_una s) = true) (sb_sacked s) |>.

Definition SendBuf_Acknowledge (ack : Z) (s : SendBuf) : Z * SendBuf :=
  if negb (SeqAfter ack (sb_una s)) then (0, s)
  else
    let ack := if SeqAfter ack (sb_nxt s) then sb_nxt s else ack in
    let n := wrap32 (ack - sb_una s) in
    let n := if len (sb_buf s) <? n then wrap32 (len (sb_buf s)) else n in
    let s := s <| sb_buf := dropZ n (sb_buf s) |> <| sb_una := ack |> in
    (n, SendBuf_pruneSACK s).

Definition SendBuf_MarkSACKed (blocks : list SACKBlock) (s : SendBuf) : SendBuf :=
  if len blocks =? 0 then s
  else
    s <| sb_sacked := filter (fun b => SeqAfter (Right b) (sb_una s) = true /\
                                       SeqBefore (Left b) (sb_nxt s) = true) blocks |>.

(** The test both [IsSACKed] and the skipping loop make. *)
Definition in_block (seq : Z) (b : SACKBlock) : bool :=
  SeqAfterEq seq (Left b) && SeqBefore seq (Right b).

Definition SendBuf_IsSACKed (seq : Z) (s : SendBuf) : bool :=
  existsb (in_block seq) (sb_sacked s).

(** One pass of the inner loop of [RetransmitData]. *)
Fixpoint skip_pass (blocks : list SACKBlock) (seq : Z) (changed : bool) : Z * bool :=
  match blocks with
  | [] => (seq, changed)
  | b :: bs =>
      if in_block seq b then skip_pass bs (Right b) true
      else skip_pass bs seq changed
  end.

(** The outer loop: passes until one changes nothing. *)
Fixpoint skip_sacked (fuel : nat) (blocks : list SACKBlock) (seq : Z) : outcome Z :=
  match fuel with
  | O => Panic
  | S fuel =>
      let '(seq, changed) := skip_pass blocks seq false in
      if changed then skip_sacked fuel blocks seq else Ok seq
  end.

(** [data[:n]] when the data is longer; panics on a negative [n]. *)
Definition cut (n : Z) (data : list byte) : outcome (list byte) :=
  if n <? len data then if n <? 0 then Panic else Ok (takeZ n data) else Ok data.

Definition SendBuf_RetransmitData (n : Z) (s : SendBuf) : outcome (list byte) :=
  let unacked := wrap32 (sb_nxt s - sb_una s) in
  let unacked := if len (sb_buf s) <? unacked then len (sb_buf s) else unacked in
  if len (sb_sacked s) =? 0 then cut n (takeZ unacked (sb_buf s))
  else
    match skip_sacked (S (length (sb_sacked s))) (sb_sacked s) (sb_una s) with
    | Panic => Panic
    | Ok seq =>
        if SeqAfterEq seq (sb_nxt s) then Ok []
        else
          let offset := wrap32 (seq - sb_una s) in
          if unacked <=? offset then Ok []
          else cut n (slice (sb_buf s) offset unacked)
    end.

Definition SendBuf_IsEmpty (s : SendBuf) : bool := len (sb_buf s) =? 0.
Definition SendBuf_UNA (s : SendBuf) : Z := sb_una s.
Definition SendBuf_NXT (s : SendBuf) : Z := sb_nxt s.
Definition SendBuf_Available (s : SendBuf) : Z := sb_cap s - len (sb_buf s).

(** ** Invariant *)

(** The scoreboard holds 32-bit blocks that end after SND.UNA. *)
Definition sacked_ok (una : Z) (blocks : list SACKBlock) : Prop :=
  Forall (fun b => block_u32 b /\ SeqAfter (Right b) una = true) blocks.

(** The buffer never exceeds its capacity, and at most one sequence number in
    flight (a SYN or a FIN) is not a buffered byte. *)
Definition sb_inv (s : SendBuf) : Prop :=
  is_u32 (sb_una s) /\ is_u32 (sb_nxt s) /\
  0 < sb_cap s < 2 ^ 30 /\ len (sb_buf s) <= sb_cap s /\
  SendBuf_Unacked s <= len (sb_buf s) + 1 /\
  sacked_ok (sb_una s) (sb_sacked s).

Lemma sacked_ok_filter una (P : SACKBlock -> Prop) `{!forall b, Decision (P b)} blocks :
  Forall block_u32 blocks ->
  (forall b, P b -> SeqAfter (Right b) una = true) ->
  sacked_ok una (filter P blocks).
Proof.
  intros Hb HP. apply Forall_forall. intros b [Hpb Hin]%list_elem_of_filter.
  rewrite Forall_forall in Hb. auto.
Qed.

Lemma sacked_ok_u32 una blocks : sacked_ok una blocks -> Forall block_u32 blocks.
Proof. intros H. eapply Forall_impl; [exact H|]. by intros b []. Qed.

Section inv.
Context (s : SendBuf) (Hinv : sb_inv s).

Lemma NewSendBuf_inv capacity iss :
  0 < capacity < 2 ^ 30 -> is_u32 iss -> sb_inv (NewSendBuf capacity iss).
Proof using.
  intros Hc Hi. unfold sb_inv, SendBuf_Unacked; simpl. rewrite Z.sub_diag.
  split_and!; try done; try lia. constructor.
Qed.

Lemma Write_inv p : sb_inv (SendBuf_Write p s).2.
Proof using Hinv.
  destruct Hinv as (H1 & H2 & H3 & H4 & H5 & H6). unfold SendBuf_Write.
  destruct (Z.leb_spec (sb_cap s - len (sb_buf s)) 0); [done|].
  set (n := if _ <? _ then _ else _).
  assert (0 <= n <= len p /\ n <= sb_cap s - len (sb_buf s)).
  { unfold n. destruct (Z.ltb_spec (sb_cap s - len (sb_buf s)) (len p)); lia. }
  pose proof (length_takeZ n p). unfold sb_inv, SendBuf_Unacked in *.
  cbn [sb_una sb_nxt sb_cap sb_buf sb_sacked snd set_field].
  rewrite length_app. split_and!; try done; lia.
Qed.

Lemma AdvanceSent_inv n :
  0 <= n <= len (sb_buf s) + 1 - SendBuf_Unacked s -> sb_inv (SendBuf_AdvanceSent n s).
Proof using Hinv.
  destruct Hinv as (H1 & H2 & H3 & H4 & H5 & H6). intros Hn.
  unfold sb_inv, SendBuf_Unacked, SendBuf_AdvanceSent in *.
  cbn [sb_una sb_nxt sb_cap sb_buf sb_sacked set_field].
  rewrite wrap32_sub_l. split_and!; try done; mlia.
Qed.

Lemma Unacked_AdvanceSent n :
  0 <= n <= len (sb_buf s) + 1 - SendBuf_Unacked s ->
  SendBuf_Unacked (SendBuf_AdvanceSent n s) = SendBuf_Unacked s + n.
Proof using Hinv.
  destruct Hinv as (H1 & H2 & H3 & H4 & H5 & H6). intros Hn.
  unfold SendBuf_Unacked, SendBuf_AdvanceSent in *. cbn [sb_una sb_nxt set_field].
  rewrite wrap32_sub_l. mlia.
Qed.

Lemma MarkSACKed_inv blocks :
  Forall block_u32 blocks -> sb_inv (SendBuf_MarkSACKed blocks s).
Proof using Hinv.
  destruct Hinv as (H1 & H2 & H3 & H4 & H5 & H6). intros Hb.
  unfold SendBuf_MarkSACKed. case_match; [done|].
  unfold sb_inv, SendBuf_Unacked in *; cbn [sb_una sb_nxt sb_cap sb_buf sb_sacked set_field].
  split_and!; try done; try lia. apply sacked_ok_filter; naive_solver.
Qed.

(** The number SND.NXT is the buffer's own distance past SND.UNA. *)
Lemma nxt_as_offset : sb_nxt s = seq_at (sb_una s) (SendBuf_Unacked s).
Proof using Hinv.
  destruct Hinv as (H1 & H2 & _). unfold seq_at, SendBuf_Unacked. mlia.
Qed.

(** What [Acknowledge] does to a number at distance [d] past SND.UNA. *)
Lemma Acknowledge_at d :
  near d 0 -> near d (SendBuf_Unacked s) ->
  SendBuf_Acknowledge (seq_at (sb_una s) d) s =
  if d <=? 0 then (0, s)
  else
    let d := Z.min d (SendBuf_Unacked s) in
    let n := Z.min d (len (sb_buf s)) in
    (n, SendBuf_pruneSACK
          (s <| sb_buf := dropZ n (sb_buf s) |> <| sb_una := seq_at (sb_una s) d |>)).
Proof using Hinv.
  intros Hd Hu. destruct Hinv as (H1 & H2 & H3 & H4 & H5 & H6).
  assert (sb_una s = seq_at (sb_una s) 0) as E0 by (unfold seq_at; mlia).
  unfold SendBuf_Acknowledge. rewrite E0 at 2. rewrite SeqAfter_at by done.
  rewrite nxt_as_offset, SeqAfter_at by done.
  destruct (Z.leb_spec d 0); [by replace (0 <? d) with false by lia|].
  replace (0 <? d) with true by lia. cbn [negb].
  assert (0 <= SendBuf_Unacked s) by (unfold SendBuf_Unacked; mlia).
  assert ((if SendBuf_Unacked s <? d then seq_at (sb_una s) (SendBuf_Unacked s)
           else seq_at (sb_una s) d) = seq_at (sb_una s) (Z.min d (SendBuf_Unacked s))) as ->
    by (destruct (Z.ltb_spec (SendBuf_Unacked s) d); f_equal; lia).
  set (m := Z.min d (SendBuf_Unacked s)).
  assert (wrap32 (seq_at (sb_una s) m - sb_una s) = m) as ->.
  { rewrite E0 at 2. rewrite seq_at_dist; unfold near in *; lia. }
  assert ((if len (sb_buf s) <? m then wrap32 (len (sb_buf s)) else m)
          = Z.min m (len (sb_buf s))) as ->.
  { destruct (Z.ltb_spec (len (sb_buf s)) m); [|lia]. rewrite wrap32_small; unfold is_u32; lia. }
  done.
Qed.

Lemma Acknowledge_inv ack :
  is_u32 ack -> sb_inv (SendBuf_Acknowledge ack s).2 /\
  0 <= (SendBuf_Acknowledge ack s).1 <= len (sb_buf s).
Proof using Hinv.
  intros Ha. pose proof Hinv as (H1 & H2 & H3 & H4 & H5 & H6).
  unfold SendBuf_Acknowledge. destruct (SeqAfter ack (sb_una s)) eqn:Ea; cbn [negb];
    [|split; [done|simpl; lia]].
  set (a := if SeqAfter ack (sb_nxt s) then sb_nxt s else ack).
  assert (is_u32 a) as Hau by (unfold a; by case_match).
  assert (wrap32 (a - sb_una s) <= SendBuf_Unacked s) as Hle.
  { unfold a. destruct (SeqAfter ack (sb_nxt s)) eqn:En; [unfold SendBuf_Unacked; lia|].
    unfold SeqAfter, int32, SendBuf_Unacked in *.
    destruct (Z.ltb_spec (wrap32 (wrap32 (ack - sb_una s))) (2 ^ 31));
    destruct (Z.ltb_spec (wrap32 (wrap32 (ack - sb_nxt s))) (2 ^ 31)); mlia. }
  set (d := wrap32 (a - sb_una s)) in *.
  set (n := if len (sb_buf s) <? d then _ else d).
  assert (n = Z.min d (len (sb_buf s))) as En.
  { unfold n. destruct (Z.ltb_spec (len (sb_buf s)) d); [|lia].
    rewrite wrap32_small; unfold is_u32; lia. }
  assert (0 <= d) by (unfold d; mlia).
  split; [|cbn [fst]; lia].
  unfold sb_inv, SendBuf_pruneSACK, SendBuf_Unacked in *.
  cbn [snd sb_una sb_nxt sb_cap sb_buf sb_sacked set_field].
  rewrite length_dropZ by lia. split_and!; try done; try lia.
  - assert (wrap32 (sb_nxt s - a) = wrap32 (sb_nxt s - sb_una s) - d) by (unfold d in *; mlia).
    lia.
  - apply sacked_ok_filter; [by eapply sacked_ok_u32|done].
Qed.
End inv.

(** ** The skipping loop terminates *)

Section skip.
Context (una : Z) (blocks : list SACKBlock) (Hok : sacked_ok una blocks) (Hu : is_u32 una).

(** Distance of a block's right edge past SND.UNA. *)
Definition roff (b : SACKBlock) : Z := int32 (wrap32 (Right b - una)).

Lemma roff_right b : b ∈ blocks -> Right b = seq_at una (roff b) /\ 0 < roff b < 2 ^ 31.
Proof using Hok Hu.
  intros Hb. unfold sacked_ok in Hok. rewrite Forall_forall in Hok.
  destruct (Hok b Hb) as [[_ Hr] Ha]. split; [by apply seq_as_offset|].
  unfold SeqAfter in Ha. unfold roff. pose proof (int32_range (wrap32 (Right b - una))). lia.
Qed.

Lemma in_block_before b o :
  b ∈ blocks -> 0 <= o < 2 ^ 31 -> in_block (seq_at una o) b = true -> o < roff b.
Proof using Hok Hu.
  intros Hb Ho Hin. destruct (roff_right b Hb) as [E Hr].
  unfold in_block in Hin. zbool. rewrite E, SeqBefore_at in * by (unfold near; lia). lia.
Qed.

(** A pass moves forward, to the right edge of some block, exactly when it
    reports a change; otherwise the number is in no block it saw. *)
Lemma skip_pass_spec bs o ch :
  (forall b, b ∈ bs -> b ∈ blocks) -> 0 <= o < 2 ^ 31 ->
  exists o', skip_pass bs (seq_at una o) ch = (seq_at una o', ch || (o <? o')) /\
    o <= o' < 2 ^ 31 /\
    (o < o' -> exists b, b ∈ blocks /\ roff b = o') /\
    (o' = o -> existsb (in_block (seq_at una o)) bs = false).
Proof using Hok Hu.
  revert o ch. induction bs as [|b bs IH]; intros o ch Hsub Ho; simpl.
  { exists o. split_and!; try lia; try done. f_equal. lia. }
  assert (b ∈ blocks) as Hb by (apply Hsub; set_solver).
  destruct (in_block (seq_at una o) b) eqn:E.
  - destruct (roff_right b Hb) as [Er Hr]. pose proof (in_block_before b o Hb Ho E).
    destruct (IH (roff b) true) as (o' & Eq & Hle & Hex & _); [set_solver|lia|].
    exists o'. rewrite Er, Eq. split_and!; [| lia | lia | |intros ->; lia].
    + f_equal. replace (o <? o') with true by lia. by rewrite orb_true_r.
    + intros _. destruct (Z.eq_dec (roff b) o') as [<-|]; [eauto|apply Hex; lia].
  - destruct (IH o ch) as (o' & Eq & Hle & Hex & Hno); [set_solver|done|].
    exists o'. rewrite Eq. split_and!; auto; lia.
Qed.

(** The blocks that end past distance [o]. *)
Definition ahead (o : Z) : nat := length (filter (fun b => o < roff b) blocks).

Lemma filter_lt_decreases o o' l :
  o < o' -> (exists b, b ∈ l /\ roff b = o') ->
  Nat.lt (length (filter (fun b => o' < roff b) l)) (length (filter (fun b => o < roff b) l)).
Proof using.
  clear Hok Hu blocks. intros Hlt. induction l as [|c l IH]; intros (b & Hb & E); [set_solver|].
  assert (Nat.le (length (filter (fun b => o' < roff b) l))
                 (length (filter (fun b => o < roff b) l))) as Hmono.
  { clear -Hlt. induction l as [|c l IH]; [done|].
    rewrite !filter_cons. repeat case_decide; simpl; lia. }
  rewrite !filter_cons. apply elem_of_cons in Hb as [<-|Hb].
  - rewrite decide_False, decide_True by lia. simpl. lia.
  - specialize (IH (ex_intro _ b (conj Hb E))). repeat case_decide; simpl; lia.
Qed.

Lemma skip_sacked_terminates fuel o :
  0 <= o < 2 ^ 31 -> (ahead o < fuel)%nat ->
  exists o', skip_sacked fuel blocks (seq_at una o) = Ok (seq_at una o') /\
    o <= o' < 2 ^ 31 /\ existsb (in_block (seq_at una o')) blocks = false /\
    (o < o' -> exists b, b ∈ blocks /\ roff b = o').
Proof using Hok Hu.
  revert o. induction fuel as [|fuel IH]; intros o Ho Hf; [lia|]. simpl.
  destruct (skip_pass_spec blocks o false (fun b H => H) Ho) as (o1 & -> & Hle & Hex & Hno).
  simpl. destruct (Z.ltb_spec o o1) as [Hlt|Hge].
  - destruct (IH o1) as (o2 & -> & ? & ? & Hex2); [lia| |].
    { pose proof (filter_lt_decreases o o1 blocks Hlt (Hex Hlt)). unfold ahead in *. lia. }
    exists o2. split_and!; try done; try lia. intros _.
    destruct (Z.eq_dec o1 o2) as [<-|]; [auto|apply Hex2; lia].
  - assert (o1 = o) as -> by lia. exists o. split_and!; auto; lia.
Qed.
End skip.

Lemma skip_sacked_total s :
  sb_inv s ->
  exists o, skip_sacked (S (length (sb_sacked s))) (sb_sacked s) (sb_una s)
              = Ok (seq_at (sb_una s) o) /\
    0 <= o < 2 ^ 31 /\ SendBuf_IsSACKed (seq_at (sb_una s) o) s = false.
Proof.
  intros (H1 & _ & _ & _ & _ & H6).
  assert (sb_una s = seq_at (sb_una s) 0) as E0 by (unfold seq_at; mlia).
  destruct (skip_sacked_terminates (sb_una s) (sb_sacked s) H6 H1
    (S (length (sb_sacked s))) 0) as (o & Eo & Ho & Hn & _); [lia| |].
  { unfold ahead. apply Nat.lt_succ_r, length_filter. }
  exists o. rewrite E0 at 1. auto.
Qed.

Lemma skip_pass_none bs seq ch :
  existsb (in_block seq) bs = false -> skip_pass bs seq ch = (seq, ch).
Proof.
  induction bs as [|b bs IH]; simpl; [done|]. intros [Hb Hbs]%orb_false_elim.
  rewrite Hb. by apply IH.
Qed.

Lemma cut_takeZ n data : 0 <= n -> cut n data = Ok (takeZ n data).
Proof.
  intros Hn. unfold cut. destruct (Z.ltb_spec n (len data)).
  - by replace (n <? 0) with false by lia.
  - unfold takeZ. rewrite take_ge by lia. done.
Qed.

Lemma slice_empty {A} (l : list A) i j : j <= i -> slice l i j = [].
Proof. intros H. unfold slice. replace (Z.to_nat (j - i)) with 0%nat by lia. done. Qed.

Lemma slice_0 {A} (l : list A) j : slice l 0 j = takeZ j l.
Proof. unfold slice, takeZ. rewrite Z.sub_0_r. done. Qed.

Lemma takeZ_nil {A} n : takeZ n (@nil A) = [].
Proof. apply take_nil. Qed.

(** ** Abstract specification *)

(** Everything ever written, and how far it is acknowledged and sent. *)
Record SendSpec := mkSendSpec {
  ss_stream : list byte;
  ss_una : Z;
  ss_nxt : Z;
}.

Inductive send_op :=
  | SWrite (p : list byte)
  | STransmit (n : Z)          (** [PeekUnsent(n)], then [AdvanceSent] of what came *)
  | SAck (a : Z)               (** a cumulative ACK of stream position [a] *)
  | SMark (blocks : list SACKBlock).

Inductive send_out :=
  | OWritten (n : Z)
  | OSegment (seq : Z) (data : list byte)
  | OAcked (n : Z)
  | ONone.

Definition send_step (base : Z) (s : SendBuf) (o : send_op) : outcome (send_out * SendBuf) :=
  match o with
  | SWrite p => let '(n, s') := SendBuf_Write p s in Ok (OWritten n, s')
  | STransmit n =>
      match SendBuf_PeekUnsent n s with
      | Panic => Panic
      | Ok data => Ok (OSegment (SendBuf_NXT s) data, SendBuf_AdvanceSent (len data) s)
      end
  | SAck a => let '(n, s') := SendBuf_Acknowledge (seq_at base a) s in Ok (OAcked n, s')
  | SMark bs => Ok (ONone, SendBuf_MarkSACKed bs s)
  end.

Definition spec_step (cap base : Z) (p : SendSpec) (o : send_op) : send_out * SendSpec :=
  match o with
  | SWrite d =>
      let n := Z.max 0 (Z.min (len d) (cap - (len (ss_stream p) - ss_una p))) in
      (OWritten n, mkSendSpec (ss_stream p ++ takeZ n d) (ss_una p) (ss_nxt p))
  | STransmit n =>
      let stop := Z.min (ss_nxt p + n) (len (ss_stream p)) in
      (OSegment (seq_at base (ss_nxt p)) (slice (ss_stream p) (ss_nxt p) stop),
       mkSendSpec (ss_stream p) (ss_una p) stop)
  | SAck a =>
      let a := Z.max (ss_una p) (Z.min a (ss_nxt p)) in
      (OAcked (a - ss_una p), mkSendSpec (ss_stream p) a (ss_nxt p))
  | SMark _ => (ONone, p)
  end.

(** An operation the connection can issue: sizes are not negative, and an
    acknowledgment is within a quarter of the sequence space of SND.UNA. *)
Definition op_valid (p : SendSpec) (o : send_op) : Prop :=
  match o with
  | STransmit n => 0 <= n
  | SAck a => - 2 ^ 30 < a - ss_una p < 2 ^ 30
  | SMark bs => Forall block_u32 bs
  | _ => True
  end.

Definition send_rel (cap base : Z) (s : SendBuf) (p : SendSpec) : Prop :=
  sb_inv s /\ sb_cap s = cap /\
  sb_una s = seq_at base (ss_una p) /\ sb_nxt s = seq_at base (ss_nxt p) /\
  sb_buf s = dropZ (ss_una p) (ss_stream p) /\
  0 <= ss_una p <= ss_nxt p /\ ss_nxt p <= len (ss_stream p).

Lemma seq_at_rebase base k d : seq_at (seq_at base k) d = seq_at base (k + d).
Proof. unfold seq_at. rewrite wrap32_wrap32_add. f_equal. lia. Qed.

Lemma dropZ_dropZ {A} i j (l : list A) : 0 <= i -> 0 <= j -> dropZ i (dropZ j l) = dropZ (j + i) l.
Proof. intros Hi Hj. unfold dropZ. rewrite drop_drop. f_equal. lia. Qed.

Lemma dropZ_app {A} i (l k : list A) : 0 <= i <= len l -> dropZ i (l ++ k) = dropZ i l ++ k.
Proof. intros H. unfold dropZ. rewrite drop_app_le by lia. done. Qed.

Section refinement.
Context (cap base : Z) (s : SendBuf) (p : SendSpec) (Hrel : send_rel cap base s p).

Lemma rel_len : len (sb_buf s) = len (ss_stream p) - ss_una p.
Proof using Hrel.
  destruct Hrel as (_ & _ & _ & _ & -> & Hu & Hn). rewrite length_dropZ; lia.
Qed.

Lemma rel_unacked : SendBuf_Unacked s = ss_nxt p - ss_una p.
Proof using Hrel.
  pose proof rel_len. destruct Hrel as (Hi & _ & Eu & En & _ & Hu & Hn).
  destruct Hi as (_ & _ & Hc & Hl & _). unfold SendBuf_Unacked. rewrite Eu, En.
  apply seq_at_dist. lia.
Qed.

Lemma write_refines d :
  let '(o, p') := spec_step cap base p (SWrite d) in
  exists s', send_step base s (SWrite d) = Ok (o, s') /\ send_rel cap base s' p'.
Proof using Hrel.
  pose proof rel_len as Hlen. pose proof (Write_inv s (proj1 Hrel) d) as Hinv.
  destruct Hrel as (Hi & Ec & Eu & En & Eb & Hu & Hn). simpl.
  unfold SendBuf_Write in *. rewrite Ec, Hlen in *.
  destruct (Z.leb_spec (cap - (len (ss_stream p) - ss_una p)) 0).
  - rewrite Z.max_l by lia. exists s. split; [done|]. unfold takeZ; simpl. rewrite app_nil_r.
    by destruct p.
  - set (n := if _ <? _ then _ else _) in *.
    assert (Z.max 0 (Z.min (len d) (cap - (len (ss_stream p) - ss_una p))) = n) as ->.
    { unfold n. destruct (Z.ltb_spec (cap - (len (ss_stream p) - ss_una p)) (len d)); lia. }
    eexists; split; [done|]. unfold send_rel. split; [exact Hinv|].
    cbn [snd sb_una sb_nxt sb_cap sb_buf set_field ss_stream ss_una ss_nxt].
    rewrite Eb, dropZ_app, length_app by lia. split_and!; try done; lia.
Qed.

(** [PeekUnsent] returns the first [n] bytes not sent yet. *)
Lemma peek_at n (Hn : 0 <= n) :
  SendBuf_PeekUnsent n s
  = Ok (slice (ss_stream p) (ss_nxt p) (Z.min (ss_nxt p + n) (len (ss_stream p)))).
Proof using Hrel.
  pose proof rel_len as Hlen. pose proof rel_unacked as Hun.
  destruct Hrel as (Hi & Ec & Eu & En & Eb & Hu & Hnx).
  unfold SendBuf_PeekUnsent. fold (SendBuf_Unacked s). rewrite Hun, Hlen.
  replace (_ <? _) with false by lia.
  rewrite Eb, dropZ_dropZ by lia. replace (ss_una p + (ss_nxt p - ss_una p)) with (ss_nxt p) by lia.
  rewrite length_dropZ by lia. unfold slice. fold (dropZ (ss_nxt p) (ss_stream p)).
  destruct (Z.ltb_spec n (len (ss_stream p) - ss_nxt p)).
  - replace (n <? 0) with false by lia. unfold takeZ. do 2 f_equal. lia.
  - rewrite take_ge; [done|]. pose proof (length_dropZ (ss_nxt p) (ss_stream p)). lia.
Qed.

Lemma transmit_refines n (Hn : 0 <= n) :
  let '(o, p') := spec_step cap base p (STransmit n) in
  exists s', send_step base s (STransmit n) = Ok (o, s') /\ send_rel cap base s' p'.
Proof using Hrel.
  pose proof rel_len as Hlen. pose proof rel_unacked as Hun. pose proof (peek_at n Hn) as Hpeek.
  destruct Hrel as (Hi & Ec & Eu & En & Eb & Hu & Hnx). simpl.
  set (stop := Z.min (ss_nxt p + n) (len (ss_stream p))) in *.
  rewrite Hpeek. unfold SendBuf_NXT. rewrite En.
  assert (len (slice (ss_stream p) (ss_nxt p) stop) = stop - ss_nxt p) as El.
  { unfold slice, stop. rewrite length_take, length_drop. lia. }
  rewrite El. eexists; split; [done|]. unfold send_rel.
  split_and!; try done; cbn [ss_stream ss_una ss_nxt]; try lia.
  - apply AdvanceSent_inv; [done|]. unfold stop. lia.
  - unfold SendBuf_AdvanceSent; cbn [sb_nxt set_field]. rewrite En, seq_at_add. f_equal. lia.
Qed.

Lemma ack_refines a (Ha : - 2 ^ 30 < a - ss_una p < 2 ^ 30) :
  let '(o, p') := spec_step cap base p (SAck a) in
  exists s', send_step base s (SAck a) = Ok (o, s') /\ send_rel cap base s' p'.
Proof using Hrel.
  pose proof rel_len as Hlen. pose proof rel_unacked as Hun.
  pose proof (Acknowledge_inv s (proj1 Hrel) (seq_at base a) (seq_at_range _ _)) as [Hinv _].
  destruct Hrel as (Hi & Ec & Eu & En & Eb & Hu & Hnx).
  assert (len (sb_buf s) <= sb_cap s < 2 ^ 30) by (unfold sb_inv in Hi; lia).
  assert (seq_at base a = seq_at (sb_una s) (a - ss_una p)) as Ea.
  { rewrite Eu, seq_at_rebase. f_equal. lia. }
  cbn [spec_step send_step]. rewrite Ea in *.
  assert (near (a - ss_una p) 0 /\ near (a - ss_una p) (SendBuf_Unacked s)) as [N1 N2]
    by (unfold near; lia).
  rewrite (Acknowledge_at s Hi _ N1 N2) in *.
  destruct (Z.leb_spec (a - ss_una p) 0).
  { rewrite Z.max_l by lia. rewrite Z.sub_diag. eexists; split; [done|]. by destruct p. }
  set (a' := Z.max _ _). cbv zeta in *. cbn [snd] in Hinv.
  assert (Z.min (a - ss_una p) (SendBuf_Unacked s) = a' - ss_una p) as E1 by lia.
  rewrite E1 in *.
  assert (Z.min (a' - ss_una p) (len (sb_buf s)) = a' - ss_una p) as E2 by lia.
  rewrite E2 in *. eexists; split; [done|]. unfold send_rel, SendBuf_pruneSACK.
  split_and!; try done; cbn [sb_una sb_nxt sb_cap sb_buf set_field ss_stream ss_una ss_nxt]; try lia.
  - rewrite Eu, seq_at_rebase. f_equal. lia.
  - rewrite Eb, dropZ_dropZ by lia. f_equal. lia.
Qed.

Lemma step_refines o (Hv : op_valid p o) :
  let '(out, p') := spec_step cap base p o in
  exists s', send_step base s o = Ok (out, s') /\ send_rel cap base s' p'.
Proof using Hrel.
  destruct o as [d|n|a|bs]; [apply write_refines|by apply transmit_refines|by apply ack_refines|].
  simpl. eexists; split; [done|].
  destruct Hrel as (Hi & Ec & Eu & En & Eb & Hu & Hnx).
  pose proof (MarkSACKed_inv s Hi bs Hv). unfold send_rel, SendBuf_MarkSACKed in *.
  destruct (len bs =? 0); split_and!; done || lia.
Qed.
End refinement.

(** Running a list of operations, on the buffer and on the specification. *)
Fixpoint send_run (base : Z) (s : SendBuf) (ops : list send_op) : outcome (list send_out * SendBuf) :=
  match ops with
  | [] => Ok ([], s)
  | o :: ops =>
      match send_step base s o with
      | Panic => Panic
      | Ok (out, s) =>
          match send_run base s ops with
          | Panic => Panic
          | Ok (outs, s) => Ok (out :: outs, s)
          end
      end
  end.

Fixpoint spec_run (cap base : Z) (p : SendSpec) (ops : list send_op) : list send_out * SendSpec :=
  match ops with
  | [] => ([], p)
  | o :: ops =>
      let '(out, p) := spec_step cap base p o in
      let '(outs, p) := spec_run cap base p ops in (out :: outs, p)
  end.

Fixpoint ops_valid (cap base : Z) (p : SendSpec) (ops : list send_op) : Prop :=
  match ops with
  | [] => True
  | o :: ops => op_valid p o /\ ops_valid cap base (spec_step cap base p o).2 ops
  end.

(** ** Theorems *)

(** C26: the send buffer refines its specification: over any sequence of writes,
    transmissions, cumulative acknowledgments and SACK updates, it never panics, returns
    the same byte counts, transmits exactly the written bytes at their sequence numbers,
    and keeps exactly the unacknowledged suffix of the written stream. *)
Theorem sendbuf_refines_spec (cap base : Z) (ops : list send_op)
  (Hc : 0 < cap < 2 ^ 30) (Hb : is_u32 base)
  (Hv : ops_valid cap base (mkSendSpec [] 0 0) ops) :
  let '(outs, p) := spec_run cap base (mkSendSpec [] 0 0) ops in
  exists s, send_run base (NewSendBuf cap base) ops = Ok (outs, s) /\ send_rel cap base s p.
Proof.
  assert (send_rel cap base (NewSendBuf cap base) (mkSendSpec [] 0 0)) as Hrel.
  { split; [by apply NewSendBuf_inv|]. unfold seq_at; simpl.
    rewrite Z.add_0_r, wrap32_small by done. split_and!; done. }
  revert Hv Hrel. generalize (mkSendSpec [] 0 0) as p, (NewSendBuf cap base) as s.
  induction ops as [|o ops IH]; intros p s Hv Hrel; simpl in *; [eauto|].
  destruct Hv as [Hvo Hvs]. pose proof (step_refines cap base s p Hrel o Hvo) as Hstep.
  destruct (spec_step cap base p o) as [out p'] eqn:E. destruct Hstep as (s' & -> & Hrel').
  specialize (IH p' s' Hvs Hrel'). destruct (spec_run cap base p' ops) as [outs p''].
  destruct IH as (s'' & -> & Hrel''). eauto.
Qed.

Lemma sendbuf_refines_spec_witness :
  exists s, send_run 4294967294 (NewSendBuf 4 4294967294)
    [SWrite [Byte.x61; Byte.x62; Byte.x63; Byte.x64; Byte.x65]; STransmit 3; SAck 2; STransmit 9]
  = Ok ([OWritten 4; OSegment 4294967294 [Byte.x61; Byte.x62; Byte.x63]; OAcked 2;
         OSegment 1 [Byte.x64]], s).
Proof.
  pose proof (sendbuf_refines_spec 4 4294967294
    [SWrite [Byte.x61; Byte.x62; Byte.x63; Byte.x64; Byte.x65]; STransmit 3; SAck 2; STransmit 9]
    ltac:(lia) ltac:(unfold is_u32; lia) ltac:(simpl; lia)) as H.
  destruct H as (s & E & _). exists s. exact E.
Defined.

(** [RetransmitData] terminates on every reachable scoreboard, however the peer chose
    its SACK blocks, and returns at most [n] unacknowledged bytes starting at the first
    distance from SND.UNA that no SACK block covers; when SND.UNA itself is not SACKed
    they start at SND.UNA. *)
Theorem retransmit_data_total (n : Z) (s : SendBuf) (H : sb_inv s) (Hn : 0 <= n) :
  exists o, 0 <= o < 2 ^ 31 /\ SendBuf_IsSACKed (seq_at (sb_una s) o) s = false /\
    (SendBuf_IsSACKed (sb_una s) s = false -> o = 0) /\
    SendBuf_RetransmitData n s =
      Ok (takeZ n (slice (sb_buf s) o (Z.min (SendBuf_Unacked s) (len (sb_buf s))))).
Proof.
  assert (sb_una s = seq_at (sb_una s) 0) as E0.
  { destruct H as (H1 & _). unfold seq_at. mlia. }
  assert ((if len (sb_buf s) <? SendBuf_Unacked s then len (sb_buf s) else SendBuf_Unacked s)
          = Z.min (SendBuf_Unacked s) (len (sb_buf s))) as Eu
    by (destruct (Z.ltb_spec (len (sb_buf s)) (SendBuf_Unacked s)); lia).
  unfold SendBuf_RetransmitData. fold (SendBuf_Unacked s). cbv zeta. rewrite Eu.
  destruct (Z.eqb_spec (len (sb_sacked s)) 0) as [E|E].
  { exists 0. rewrite cut_takeZ, slice_0 by done. unfold SendBuf_IsSACKed.
    destruct (sb_sacked s); [done|simpl in E; lia]. }
  destruct (skip_sacked_total s H) as (o & Eo & Ho & Hno).
  exists o. split; [done|]. split; [done|]. split.
  { intros Hun. simpl in Eo. unfold SendBuf_IsSACKed in Hun. rewrite skip_pass_none in Eo by done.
    injection Eo as Eo. rewrite E0 in Eo at 1.
    pose proof (seq_at_inj (sb_una s) 0 o ltac:(unfold near; lia)). lia. }
  rewrite Eo. rewrite (nxt_as_offset s H), SeqAfterEq_at.
  2: { unfold near, sb_inv in *. unfold SendBuf_Unacked in *. mlia. }
  destruct (Z.leb_spec (SendBuf_Unacked s) o).
  { rewrite slice_empty, takeZ_nil by lia. done. }
  assert (wrap32 (seq_at (sb_una s) o - sb_una s) = o) as ->
    by (rewrite E0 at 2; rewrite seq_at_dist; lia).
  destruct (Z.leb_spec (Z.min (SendBuf_Unacked s) (len (sb_buf s))) o).
  { rewrite slice_empty, takeZ_nil by lia. done. }
  by rewrite cut_takeZ.
Qed.

Lemma retransmit_data_total_witness :
  let s := mkSendBuf (replicate 20 Byte.x41) 100 5 25 [mkSACKBlock 12 15; mkSACKBlock 5 12] in
  exists o, SendBuf_IsSACKed (seq_at 5 o) s = false /\
    SendBuf_RetransmitData 4 s = Ok (takeZ 4 (slice (sb_buf s) o 20)).
Proof.
  intros s. destruct (retransmit_data_total 4 s) as (o & _ & Hs & _ & E).
  - unfold sb_inv, sacked_ok, block_u32. subst s. compute_goal.
  - lia.
  - exists o. split; [exact Hs|exact E].
Defined.

(** every operation preserves the buffer's invariant, for any 32-bit acknowledgment
    number a peer may send: the buffer stays within its capacity, at most one number in
    flight is not a buffered byte, and [Acknowledge] frees no more than it holds. *)
Theorem sendbuf_invariant (s : SendBuf) (H : sb_inv s) (p : list byte) (ack : Z)
  (Ha : is_u32 ack) (blocks : list SACKBlock) (Hb : Forall block_u32 blocks) (n : Z)
  (Hn : 0 <= n <= len (sb_buf s) + 1 - SendBuf_Unacked s) :
  sb_inv (SendBuf_Write p s).2 /\
  0 <= (SendBuf_Write p s).1 <= len p /\
  sb_inv (SendBuf_AdvanceSent n s) /\
  sb_inv (SendBuf_Acknowledge ack s).2 /\
  0 <= (SendBuf_Acknowledge ack s).1 <= len (sb_buf s) /\
  sb_inv (SendBuf_MarkSACKed blocks s).
Proof.
  pose proof (Acknowledge_inv s H ack Ha) as [HA HB].
  split_and!; auto using Write_inv, AdvanceSent_inv, MarkSACKed_inv.
  all: try lia. all: unfold SendBuf_Write; zcase; lia.
Qed.

Lemma sendbuf_invariant_witness :
  sb_inv (SendBuf_Acknowledge 4000000000 (mkSendBuf [Byte.x61] 10 3999999999 4000000000 [])).2.
Proof.
  refine (proj1 (proj2 (proj2 (proj2 (sendbuf_invariant
    (mkSendBuf [Byte.x61] 10 3999999999 4000000000 []) _ [] 4000000000 _ [] _ 0 _))))).
  - unfold sb_inv, sacked_ok. compute_goal.
  - compute_goal.
  - constructor.
  - compute_goal.
Defined.
