(* ===== verification/RecvBuf.v ===== *)
(** The receive buffer (src/vtcp/recvbuf.go): in-order bytes ready to read,
    RCV.NXT, and the sorted list of out-of-order segments.

    The methods are translated with their 32-bit arithmetic and their slicing
    (out of range: panic).  They are related to positions of the peer's byte
    stream: as long as segments carry bytes of one stream and lie within a
    half of the sequence space of RCV.NXT, the buffer holds exactly the
    contiguous prefix received so far and a sorted set of disjoint intervals
    past a gap. *)

From S2P Require Import Prelude SeqSpace TcpOptions.

Definition maxOOOEntries : Z := 128.

Record oooEntry := mkOOO { e_seq : Z; e_data : list byte }.

Record RecvBuf := mkRecvBuf {
  rb_buf : list byte;
  rb_nxt : Z;
  rb_ooo : list oooEntry;
  rb_windowSize : Z;
}.

#[global] Instance RecvBuf_eta : Eta RecvBuf := fun r =>
  mkRecvBuf (rb_buf r) (rb_nxt r) (rb_ooo r) (rb_windowSize r).

Definition NewRecvBuf (initialNxt windowSize : Z) : RecvBuf :=
  mkRecvBuf [] initialNxt [] windowSize.

Definition RecvBuf_Window (r : RecvBuf) : Z :=
  if rb_windowSize r <=? 0 then 65535
  else
    let used := foldl (fun used e => used + len (e_data e)) (len (rb_buf r)) (rb_ooo r) in
    let avail := rb_windowSize r - used in
    if avail <? 0 then 0 else wrap32 avail.

Definition ooo_end (e : oooEntry) : Z := wrap32 (e_seq e + wrap32 (len (e_data e))).

(** The loop of [insertOOO] over the entries still to visit; the result is the
    part of [merged] they produce. *)
Fixpoint insertOOO_loop (es : list oooEntry) (seq endSeq : Z) (data : list byte)
    (inserted : bool) : outcome (list oooEntry) :=
  match es with
  | [] => Ok (if inserted then [] else [mkOOO seq data])
  | e :: es =>
      let eEnd := ooo_end e in
      if SeqAfterEq (e_seq e) endSeq then
        match insertOOO_loop es seq endSeq data true with
        | Panic => Panic
        | Ok merged =>
            Ok ((if inserted then [] else [mkOOO seq data]) ++ e :: merged)
        end
      else if SeqAfterEq seq eEnd then
        match insertOOO_loop es seq endSeq data inserted with
        | Panic => Panic
        | Ok merged => Ok (e :: merged)
        end
      else
        let left :=
          if SeqBefore (e_seq e) seq then
            let k := wrap32 (seq - e_seq e) in
            if len (e_data e) <? k then Panic
            else Ok (e_seq e, takeZ k (e_data e) ++ data)
          else Ok (seq, data) in
        match left with
        | Panic => Panic
        | Ok (seq, data) =>
            if SeqAfter eEnd endSeq then
              let k := wrap32 (endSeq - e_seq e) in
              if len (e_data e) <? k then Panic
              else insertOOO_loop es seq eEnd (data ++ dropZ k (e_data e)) inserted
            else insertOOO_loop es seq endSeq data inserted
        end
  end.

Definition RecvBuf_insertOOO (seq : Z) (data : list byte) (r : RecvBuf) : outcome RecvBuf :=
  match insertOOO_loop (rb_ooo r) seq (wrap32 (seq + wrap32 (len data))) data false with
  | Panic => Panic
  | Ok merged => Ok (r <| rb_ooo := merged |>)
  end.

(** One pass of [mergeOOO]: the buffer, RCV.NXT, the entries that remain and
    whether one was consumed. *)
Fixpoint merge_pass (es : list oooEntry) (buf : list byte) (nxt : Z) :
    outcome (list byte * Z * list oooEntry * bool) :=
  match es with
  | [] => Ok (buf, nxt, [], false)
  | e :: es =>
      let eEnd := ooo_end e in
      if SeqBeforeEq (e_seq e) nxt && SeqAfter eEnd nxt then
        let offset := wrap32 (nxt - e_seq e) in
        if len (e_data e) <? offset then Panic
        else
          match merge_pass es (buf ++ dropZ offset (e_data e)) eEnd with
          | Panic => Panic
          | Ok (buf, nxt, remaining, _) => Ok (buf, nxt, remaining, true)
          end
      else
        match merge_pass es buf nxt with
        | Panic => Panic
        | Ok (buf', nxt', remaining, found) =>
            Ok (buf', nxt',
                if SeqAfter (e_seq e) nxt then e :: remaining else remaining, found)
        end
  end.

Fixpoint RecvBuf_mergeOOO_loop (fuel : nat) (r : RecvBuf) : outcome RecvBuf :=
  match fuel with
  | O => Panic
  | S fuel =>
      match merge_pass (rb_ooo r) (rb_buf r) (rb_nxt r) with
      | Panic => Panic
      | Ok (buf, nxt, remaining, found) =>
          let r := r <| rb_buf := buf |> <| rb_nxt := nxt |> <| rb_ooo := remaining |> in
          if found then RecvBuf_mergeOOO_loop fuel r else Ok r
      end
  end.

(** Every pass but the last consumes an entry. *)
Definition RecvBuf_mergeOOO (r : RecvBuf) : outcome RecvBuf :=
  RecvBuf_mergeOOO_loop (S (length (rb_ooo r))) r.

(** The two trims of [Insert]; [None] when nothing is left. *)
Definition trim_front (nxt seq : Z) (data : list byte) : option (Z * list byte) :=
  if SeqBefore seq nxt then
    let overlap := wrap32 (nxt - seq) in
    if wrap32 (len data) <=? overlap then None else Some (nxt, dropZ overlap data)
  else Some (seq, data).

Definition trim_window (windowSize nxt endSeq : Z) (data : list byte) : option (Z * list byte) :=
  if 0 <? windowSize then
    let rightEdge := wrap32 (nxt + wrap32 windowSize) in
    if SeqAfter endSeq rightEdge then
      let trim := wrap32 (endSeq - rightEdge) in
      if wrap32 (len data) <=? trim then None
      else Some (rightEdge, takeZ (wrap32 (wrap32 (len data) - trim)) data)
    else Some (endSeq, data)
  else Some (endSeq, data).

Definition RecvBuf_Insert (seq : Z) (data : list byte) (r : RecvBuf) : outcome (Z * RecvBuf) :=
  if len data =? 0 then Ok (0, r)
  else
    let endSeq := wrap32 (seq + wrap32 (len data)) in
    match trim_front (rb_nxt r) seq data with
    | None => Ok (0, r)
    | Some (seq, data) =>
        match trim_window (rb_windowSize r) (rb_nxt r) endSeq data with
        | None => Ok (0, r)
        | Some (endSeq, data) =>
            if seq =? rb_nxt r then
              match RecvBuf_mergeOOO
                      (r <| rb_buf := rb_buf r ++ data |> <| rb_nxt := endSeq |>) with
              | Panic => Panic
              | Ok r => Ok (len data, r)
              end
            else if len (rb_ooo r) <? maxOOOEntries then
              match RecvBuf_insertOOO seq data r with
              | Panic => Panic
              | Ok r => Ok (0, r)
              end
            else Ok (0, r)
        end
    end.

(** [Read] into a slice of [n] bytes: what is copied, and the buffer after. *)
Definition RecvBuf_Read (n : Z) (r : RecvBuf) : list byte * RecvBuf :=
  let out := takeZ n (rb_buf r) in
  (out, r <| rb_buf := dropZ (len out) (rb_buf r) |>).

Definition RecvBuf_Readable (r : RecvBuf) : Z := len (rb_buf r).
Definition RecvBuf_Nxt (r : RecvBuf) : Z := rb_nxt r.

Definition RecvBuf_SACKBlocks (r : RecvBuf) : list SACKBlock :=
  (fun e => mkSACKBlock (e_seq e) (ooo_end e)) <$> take 3 (rb_ooo r).

Definition RecvBuf_HasOOO (r : RecvBuf) : bool := 0 <? len (rb_ooo r).

(** ** Intervals of stream positions *)

(** An interval [(a, n)] is the positions from [a] to [a + n - 1]. *)
Definition covers (ivs : list (Z * Z)) (p : Z) : Prop :=
  exists a n, (a, n) ∈ ivs /\ a <= p < a + n.

(** Non-empty, disjoint, ascending, within [lo, hi). *)
Fixpoint sorted_ivs (lo hi : Z) (ivs : list (Z * Z)) : Prop :=
  match ivs with
  | [] => True
  | (a, n) :: rest => 0 < n /\ lo <= a /\ a + n <= hi /\ sorted_ivs (a + n) hi rest
  end.

Fixpoint iv_insert (ivs : list (Z * Z)) (o x : Z) : list (Z * Z) :=
  match ivs with
  | [] => [(o, x - o)]
  | (a, n) :: rest =>
      if x <=? a then (o, x - o) :: (a, n) :: rest
      else if a + n <=? o then (a, n) :: iv_insert rest o x
      else iv_insert rest (Z.min o a) (Z.max x (a + n))
  end.

(** Extends the prefix that ends at [k] by the intervals that touch it. *)
Fixpoint iv_merge (ivs : list (Z * Z)) (k : Z) : Z * list (Z * Z) :=
  match ivs with
  | [] => (k, [])
  | (a, n) :: rest =>
      if (a <=? k) && (k <? a + n) then iv_merge rest (a + n)
      else if k <? a then let '(k', rem) := iv_merge rest k in (k', (a, n) :: rem)
      else iv_merge rest k
  end.

Lemma sorted_ivs_weaken lo lo' hi hi' ivs :
  lo' <= lo -> hi <= hi' -> sorted_ivs lo hi ivs -> sorted_ivs lo' hi' ivs.
Proof.
  revert lo lo'. induction ivs as [|[a n] ivs IH]; simpl; [done|].
  intros lo lo' Hl Hh (H1 & H2 & H3 & H4). split_and!; try lia.
  eapply IH; [|done|exact H4]. lia.
Qed.

Lemma covers_cons a n ivs p : covers ((a, n) :: ivs) p <-> a <= p < a + n \/ covers ivs p.
Proof. unfold covers. setoid_rewrite elem_of_cons. naive_solver. Qed.

Lemma covers_nil p : covers [] p <-> False.
Proof. unfold covers. split; [|done]. intros (a & n & []%elem_of_nil & _). Qed.

Lemma sorted_covers lo hi ivs p : sorted_ivs lo hi ivs -> covers ivs p -> lo <= p < hi.
Proof.
  revert lo. induction ivs as [|[a n] ivs IH]; intros lo; simpl.
  { intros _ []%covers_nil. }
  intros (H1 & H2 & H3 & H4) [Hp|Hp]%covers_cons; [lia|].
  specialize (IH _ H4 Hp). lia.
Qed.

Lemma iv_insert_sorted lo lo2 hi ivs o x :
  sorted_ivs lo2 hi ivs -> lo <= lo2 -> lo <= o -> o < x <= hi ->
  sorted_ivs lo hi (iv_insert ivs o x).
Proof.
  revert lo lo2 o x. induction ivs as [|[a n] ivs IH]; intros lo lo2 o x; simpl.
  { lia. }
  intros (H1 & H2 & H3 & H4) Hlo Ho Hx.
  destruct (Z.leb_spec x a).
  { simpl. split_and!; try lia. done. }
  destruct (Z.leb_spec (a + n) o).
  { simpl. split_and!; try lia. apply (IH _ (a + n)); try lia. done. }
  apply (IH _ (a + n)); try lia. done.
Qed.

Lemma iv_insert_covers lo hi ivs o x p :
  sorted_ivs lo hi ivs -> o < x ->
  covers (iv_insert ivs o x) p <-> o <= p < x \/ covers ivs p.
Proof.
  revert lo o x. induction ivs as [|[a n] ivs IH]; intros lo o x; simpl.
  { intros _ Hx. rewrite covers_cons, covers_nil. intuition lia. }
  intros (H1 & H2 & H3 & H4) Hx.
  destruct (Z.leb_spec x a).
  { rewrite !covers_cons. intuition lia. }
  destruct (Z.leb_spec (a + n) o).
  { rewrite !covers_cons, (IH _ _ _ H4 Hx). intuition lia. }
  rewrite (IH _ _ _ H4), covers_cons by lia. intuition lia.
Qed.

Lemma iv_merge_stop lo hi ivs k :
  sorted_ivs lo hi ivs -> k < lo -> iv_merge ivs k = (k, ivs).
Proof.
  revert lo. induction ivs as [|[a n] ivs IH]; intros lo; simpl; [done|].
  intros (H1 & H2 & H3 & H4) Hk.
  replace (a <=? k) with false by lia. replace (k <? a) with true by lia. simpl.
  by rewrite (IH _ H4) by lia.
Qed.

Lemma iv_merge_sorted lo hi ivs k :
  sorted_ivs lo hi ivs ->
  let '(k', rem) := iv_merge ivs k in
  k <= k' /\ (k <= hi -> k' <= hi) /\ sorted_ivs (k' + 1) hi rem.
Proof.
  revert lo k. induction ivs as [|[a n] ivs IH]; intros lo k; simpl; [lia|].
  intros (H1 & H2 & H3 & H4).
  destruct ((a <=? k) && (k <? a + n)) eqn:E.
  { specialize (IH _ (a + n) H4). destruct (iv_merge ivs (a + n)) as [k' rem].
    destruct IH as (? & ? & ?). split_and!; [lia|lia|done]. }
  destruct (Z.ltb_spec k a).
  { rewrite (iv_merge_stop (a + n) hi) by (done || lia). simpl. split_and!; try lia. done. }
  specialize (IH _ k H4). by destruct (iv_merge ivs k) as [k' rem].
Qed.

(** Merging neither loses nor invents a position, and stops at a gap. *)
Lemma iv_merge_covers lo hi ivs k p :
  sorted_ivs lo hi ivs -> lo <= k + 1 ->
  let '(k', rem) := iv_merge ivs k in
  (p < k' \/ covers rem p) <-> (p < k \/ covers ivs p).
Proof.
  revert lo k. induction ivs as [|[a n] ivs IH]; intros lo k; simpl; [done|].
  intros (H1 & H2 & H3 & H4) Hlo.
  destruct ((a <=? k) && (k <? a + n)) eqn:E.
  { specialize (IH _ (a + n) H4). destruct (iv_merge ivs (a + n)) as [k' rem].
    rewrite IH by lia. rewrite covers_cons. zbool. intuition lia. }
  destruct (Z.ltb_spec k a).
  { rewrite (iv_merge_stop (a + n) hi) by (done || lia). done. }
  specialize (IH _ k H4). destruct (iv_merge ivs k) as [k' rem].
  rewrite IH, covers_cons by lia. intuition lia.
Qed.

(** ** Entries as intervals of positions *)

(** What is known of the bytes at a position: [R a d] says that [d] may stand
    at position [a].  It only has to respect splitting: [R] is "the bytes of
    stream [S]" for a peer that sends one stream, and "anything" for an
    arbitrary peer. *)
Class Content (R : Z -> list byte -> Prop) : Prop := {
  content_nil : forall a, R a [];
  content_app : forall a d1 d2, R a (d1 ++ d2) <-> R a d1 /\ R (a + len d1) d2;
}.

Definition any_content (a : Z) (d : list byte) : Prop := True.
Definition stream_content (S : Z -> byte) (a : Z) (d : list byte) : Prop :=
  d = window S a (len d).

#[export] Instance Content_any : Content any_content.
Proof. unfold any_content. split; tauto. Qed.

#[export] Instance Content_stream S : Content (stream_content S).
Proof.
  split; [done|]. intros a d1 d2. unfold stream_content. rewrite length_app, Nat2Z.inj_add, window_app by lia.
  split; [|by intros [<- <-]].
  intros E. apply app_inj_1 in E; [done|].
  pose proof (length_window S a (len d1) ltac:(lia)). lia.
Qed.

Section content.
Context (R : Z -> list byte -> Prop) `{HR : Content R} (base : Z).

Lemma content_take a k d : 0 <= k <= len d -> R a d -> R a (takeZ k d).
Proof using HR. intros Hk. rewrite <- (take_dropZ k d) at 1. by intros [? _]%content_app. Qed.

Lemma content_drop a k d : 0 <= k <= len d -> R a d -> R (a + k) (dropZ k d).
Proof using HR.
  intros Hk. rewrite <- (take_dropZ k d) at 1. intros [_ H]%content_app.
  by rewrite length_takeZ in H.
Qed.

Definition entry_at (e : oooEntry) (iv : Z * Z) : Prop :=
  e_seq e = seq_at base iv.1 /\ len (e_data e) = iv.2 /\ R iv.1 (e_data e).

Lemma entry_end e a n : entry_at e (a, n) -> 0 <= n < 2 ^ 32 -> ooo_end e = seq_at base (a + n).
Proof.
  intros (E1 & E2 & _) H. unfold ooo_end. cbn [fst snd] in *.
  rewrite E1, E2, (wrap32_small n), seq_at_add by (unfold is_u32; lia). done.
Qed.

Lemma insertOOO_loop_after lo hi es ivs o x d :
  Forall2 entry_at es ivs -> sorted_ivs lo hi ivs -> o <= x <= lo -> hi - o < 2 ^ 31 ->
  insertOOO_loop es (seq_at base o) (seq_at base x) d true = Ok es.
Proof.
  intros HF. revert lo. induction HF as [|e [a n] es ivs He HF IH]; intros lo; [done|].
  cbn [sorted_ivs]. intros (H1 & H2 & H3 & H4) Hx Hh. cbn [insertOOO_loop].
  destruct He as (-> & _). cbn [fst]. rewrite (SeqAfterEq_at base a x) by (unfold near; lia).
  replace (x <=? a) with true by lia. rewrite (IH _ H4) by lia. done.
Qed.

(** The new entry after an overlap with [e] has been merged into it. *)
Lemma extend_left e a n o x d :
  entry_at e (a, n) -> 0 < n -> o < a + n -> o < x -> a < x -> len d = x - o -> R o d ->
  x - a < 2 ^ 31 -> a + n - o < 2 ^ 31 -> - 2 ^ 31 < a - o ->
  exists d', len d' = x - Z.min o a /\ R (Z.min o a) d' /\
  (if a <? o then
     if len (e_data e) <? wrap32 (seq_at base o - e_seq e) then Panic
     else Ok (e_seq e, takeZ (wrap32 (seq_at base o - e_seq e)) (e_data e) ++ d)
   else Ok (seq_at base o, d)) = Ok (seq_at base (Z.min o a), d').
Proof using HR.
  intros (E1 & E2 & E3). cbn [fst snd] in *. intros. rewrite E1, E2.
  destruct (Z.ltb_spec a o).
  - rewrite seq_at_dist by lia. replace (n <? o - a) with false by lia.
    replace (Z.min o a) with a by lia. eexists; split; [|split; [|done]].
    + rewrite length_app, Nat2Z.inj_add, length_takeZ by lia. lia.
    + apply content_app. rewrite length_takeZ by lia. split; [by apply content_take; [lia|]|].
      by replace (a + (o - a)) with o by lia.
  - replace (Z.min o a) with o by lia. eauto.
Qed.

Lemma insertOOO_loop_refines lo lo2 hi es ivs o x d :
  Forall2 entry_at es ivs -> sorted_ivs lo2 hi ivs ->
  lo <= lo2 -> lo <= o -> o < x <= hi -> hi - lo < 2 ^ 31 -> len d = x - o -> R o d ->
  exists es', insertOOO_loop es (seq_at base o) (seq_at base x) d false = Ok es' /\
    Forall2 entry_at es' (iv_insert ivs o x).
Proof using HR.
  intros HF. revert lo lo2 o x d.
  induction HF as [|e [a n] es ivs He HF IH]; intros lo lo2 o x d; cbn [sorted_ivs].
  { intros _ _ _ _ _ Hd Rd. eexists; split; [done|]. repeat constructor; done. }
  intros (H1 & H2 & H3 & H4) Hl Ho Hx Hh Hd Rd. cbn [insertOOO_loop iv_insert].
  rewrite (entry_end e a n) by (done || lia).
  assert (e_seq e = seq_at base a) as Es by apply He.
  assert (len (e_data e) = n) as En by apply He.
  rewrite (SeqAfterEq_at base o (a + n)), (SeqAfter_at base (a + n) x) by (unfold near; lia).
  replace (SeqAfterEq (e_seq e) (seq_at base x)) with (x <=? a)
    by (rewrite Es, SeqAfterEq_at by (unfold near; lia); done).
  replace (SeqBefore (e_seq e) (seq_at base o)) with (a <? o)
    by (rewrite Es, SeqBefore_at by (unfold near; lia); done).
  destruct (Z.leb_spec x a) as [|Hxa].
  { rewrite (insertOOO_loop_after _ _ _ _ _ _ _ HF H4) by lia.
    eexists; split; [done|]. repeat (constructor; try done). }
  destruct (Z.leb_spec (a + n) o) as [|Hao].
  { destruct (IH (a + n) (a + n) o x d H4) as (es' & -> & HF'); try (done || lia).
    eexists; split; [done|]. by constructor. }
  destruct (extend_left e a n o x d He) as (d' & Hd' & Rd' & ->); try (done || lia).
  destruct (Z.ltb_spec x (a + n)).
  - rewrite Es, seq_at_dist, En by lia. replace (n <? x - a) with false by lia.
    replace (Z.max x (a + n)) with (a + n) by lia.
    apply (IH lo (a + n)); try (done || lia).
    + rewrite length_app, Nat2Z.inj_add, length_dropZ by lia. lia.
    + apply content_app. split; [done|].
      replace (Z.min o a + len d') with (a + (x - a)) by lia.
      apply content_drop; [lia|]. apply He.
  - replace (Z.max x (a + n)) with x by lia. apply (IH lo (a + n)); try (done || lia).
Qed.

Lemma merge_pass_refines m lo hi es ivs k buf :
  Forall2 entry_at es ivs -> sorted_ivs lo hi ivs -> m <= lo -> m <= k <= hi -> hi - m < 2 ^ 31 ->
  let '(k', rem) := iv_merge ivs k in
  exists d es', merge_pass es buf (seq_at base k) = Ok (buf ++ d, seq_at base k', es', k <? k') /\
    len d = k' - k /\ R k d /\ Forall2 entry_at es' rem.
Proof using HR.
  intros HF. revert lo k buf. induction HF as [|e [a n] es ivs He HF IH]; intros lo k buf.
  { intros _ Hl Hk Hh. simpl. exists [], []. rewrite Z.ltb_irrefl, app_nil_r.
    split_and!; [done|cbn; lia|apply content_nil|done]. }
  cbn [sorted_ivs]. intros (H1 & H2 & H3 & H4) Hl Hk Hh.
  cbn [merge_pass iv_merge]. rewrite (entry_end e a n) by (done || lia).
  assert (e_seq e = seq_at base a) as Es by apply He.
  assert (len (e_data e) = n) as En by apply He.
  rewrite Es, (SeqBeforeEq_at base a k), (SeqAfter_at base (a + n) k), (SeqAfter_at base a k)
    by (unfold near; lia).
  destruct ((a <=? k) && (k <? a + n)) eqn:E.
  - zbool. rewrite seq_at_dist, En by lia.
    replace (n <? k - a) with false by lia.
    specialize (IH _ (a + n) (buf ++ dropZ (k - a) (e_data e)) H4 ltac:(lia) ltac:(lia) Hh).
    pose proof (iv_merge_sorted _ _ _ (a + n) H4) as Hs.
    destruct (iv_merge ivs (a + n)) as [k' rem]. destruct Hs as (Hs & _).
    destruct IH as (d & es' & -> & Hd & Rd & HF'). replace (k <? k') with true by lia.
    exists (dropZ (k - a) (e_data e) ++ d), es'. rewrite app_assoc.
    assert (len (dropZ (k - a) (e_data e)) = n - (k - a)) as El by (rewrite length_dropZ; lia).
    split_and!; [done|rewrite length_app; lia| |done].
    apply content_app. rewrite El. replace (k + (n - (k - a))) with (a + n) by lia.
    split; [|done]. replace k with (a + (k - a)) at 1 by lia. apply content_drop; [lia|apply He].
  - specialize (IH _ k buf H4 ltac:(lia) ltac:(lia) Hh).
    destruct (Z.ltb_spec k a); destruct (iv_merge ivs k) as [k' rem];
      destruct IH as (d & es' & -> & Hd & Rd & HF'); eexists _, _; split_and!; try done.
    by constructor.
Qed.

Lemma mergeOOO_refines m lo hi es ivs k buf W :
  Forall2 entry_at es ivs -> sorted_ivs lo hi ivs -> m <= lo -> m <= k <= hi -> hi - m < 2 ^ 31 ->
  let '(k', rem) := iv_merge ivs k in
  exists d es', RecvBuf_mergeOOO (mkRecvBuf buf (seq_at base k) es W)
    = Ok (mkRecvBuf (buf ++ d) (seq_at base k') es' W) /\
    len d = k' - k /\ R k d /\ Forall2 entry_at es' rem.
Proof using HR.
  intros HF Hs Hl Hk Hh. pose proof (merge_pass_refines m lo hi es ivs k buf HF Hs Hl Hk Hh) as Hp.
  pose proof (iv_merge_sorted lo hi ivs k Hs) as Hm.
  destruct (iv_merge ivs k) as [k' rem] eqn:E. destruct Hm as (Hm1 & Hm2 & Hm3).
  destruct Hp as (d & es' & Hp & Hd & Rd & HF').
  unfold RecvBuf_mergeOOO. cbn [RecvBuf_mergeOOO_loop rb_ooo rb_buf rb_nxt].
  rewrite Hp. unfold set_field. cbn [rb_ooo rb_buf rb_nxt rb_windowSize].
  destruct (Z.ltb_spec k k'); [|by exists d, es'].
  destruct HF as [|e iv es ivs]; [simpl in E; injection E as <- <-; lia|].
  cbn [length RecvBuf_mergeOOO_loop rb_ooo rb_buf rb_nxt].
  pose proof (merge_pass_refines (Z.min m k') (k' + 1) hi es' rem k' (buf ++ d) HF' Hm3
    ltac:(lia) ltac:(lia) ltac:(lia)) as Hp2.
  rewrite (iv_merge_stop _ _ _ _ Hm3) in Hp2 by lia.
  destruct Hp2 as (d2 & es2 & -> & Hd2 & _ & HF2).
  destruct d2; [|cbn in Hd2; lia]. rewrite Z.ltb_irrefl, app_nil_r. by exists d, es2.
Qed.

(** ** Abstract specification *)

(** Positions read by the application, received contiguously, and held past
    the first gap. *)
Record RecvSpec := mkRecvSpec { rs_read : Z; rs_nxt : Z; rs_held : list (Z * Z) }.

Definition spec_insert (W o n : Z) (p : RecvSpec) : Z * RecvSpec :=
  let k := rs_nxt p in
  let o1 := Z.max o k in
  let x := Z.min (o + n) (k + W) in
  if x <=? o1 then (0, p)
  else if o1 =? k then
    let '(k', rem) := iv_merge (rs_held p) x in (x - k, mkRecvSpec (rs_read p) k' rem)
  else if len (rs_held p) <? maxOOOEntries then
    (0, mkRecvSpec (rs_read p) k (iv_insert (rs_held p) o1 x))
  else (0, p).

Definition spec_read (n : Z) (p : RecvSpec) : RecvSpec :=
  mkRecvSpec (Z.min (rs_read p + n) (rs_nxt p)) (rs_nxt p) (rs_held p).

Definition recv_rel (W : Z) (r : RecvBuf) (p : RecvSpec) : Prop :=
  0 < W <= 2 ^ 30 /\ rb_windowSize r = W /\
  0 <= rs_read p <= rs_nxt p /\
  rb_nxt r = seq_at base (rs_nxt p) /\
  len (rb_buf r) = rs_nxt p - rs_read p /\ R (rs_read p) (rb_buf r) /\
  Forall2 entry_at (rb_ooo r) (rs_held p) /\
  sorted_ivs (rs_nxt p + 1) (rs_nxt p + W) (rs_held p).

(** A segment whose positions the 32-bit comparisons with RCV.NXT and the right
    edge of the window still order. *)
Definition in_reach (W : Z) (p : RecvSpec) (o n : Z) : Prop :=
  0 <= n < 2 ^ 31 /\ rs_nxt p - 2 ^ 31 <= o < rs_nxt p + 2 ^ 31 /\ o + n < rs_nxt p + W + 2 ^ 31.

Section insert.
Context (W : Z) (r : RecvBuf) (p : RecvSpec) (Hrel : recv_rel W r p).
Context (o : Z) (d : list byte) (Hreach : in_reach W p o (len d)) (Rd : R o d).
Let n := len d.

Lemma trim_front_refines :
  0 < n ->
  if o + n <=? rs_nxt p then trim_front (rb_nxt r) (seq_at base o) d = None
  else let o1 := Z.max o (rs_nxt p) in
    exists d1, trim_front (rb_nxt r) (seq_at base o) d = Some (seq_at base o1, d1) /\
      len d1 = o + n - o1 /\ R o1 d1.
Proof using Hrel Hreach Rd HR.
  intros Hn. destruct Hrel as (HW & EW & Hr & En & _). destruct Hreach as (H1 & H2 & H3).
  fold n in H1, H3. unfold trim_front. fold n.
  rewrite En, SeqBefore_at, (wrap32_small n) by (unfold near, is_u32; lia).
  destruct (Z.ltb_spec o (rs_nxt p)).
  - rewrite seq_at_dist by lia. replace (Z.max o (rs_nxt p)) with (rs_nxt p) by lia.
    replace (n <=? rs_nxt p - o) with (o + n <=? rs_nxt p) by lia.
    destruct (Z.leb_spec (o + n) (rs_nxt p)); [done|]. cbv zeta.
    eexists; split; [done|]. rewrite length_dropZ by (fold n; lia). split; [fold n; lia|].
    replace (rs_nxt p) with (o + (rs_nxt p - o)) at 1 by lia. apply content_drop; [fold n; lia|done].
  - replace (o + n <=? rs_nxt p) with false by lia.
    replace (Z.max o (rs_nxt p)) with o by lia. cbv zeta.
    eexists; split; [done|]. split; [fold n; lia|done].
Qed.

Lemma trim_window_refines o1 d1 :
  rs_nxt p <= o1 -> o <= o1 < o + n -> len d1 = o + n - o1 -> R o1 d1 ->
  let x := Z.min (o + n) (rs_nxt p + W) in
  if x <=? o1 then trim_window (rb_windowSize r) (rb_nxt r) (seq_at base (o + n)) d1 = None
  else exists d2,
    trim_window (rb_windowSize r) (rb_nxt r) (seq_at base (o + n)) d1 = Some (seq_at base x, d2) /\
    len d2 = x - o1 /\ R o1 d2.
Proof using Hrel Hreach HR.
  intros Ho1 Ho Hd1 Rd1. destruct Hrel as (HW & EW & Hr & En & _).
  destruct Hreach as (H1 & H2 & H3). fold n in H1, H3. unfold trim_window.
  rewrite EW, En, (wrap32_small W), seq_at_add by (unfold is_u32; lia).
  replace (0 <? W) with true by lia.
  rewrite SeqAfter_at by (unfold near; lia).
  rewrite Hd1, (wrap32_small (o + n - o1)) by (unfold is_u32; lia). cbv zeta.
  destruct (Z.ltb_spec (rs_nxt p + W) (o + n)).
  - rewrite seq_at_dist by lia. rewrite Z.min_r by lia.
    destruct (Z.leb_spec (o + n - o1) (o + n - (rs_nxt p + W)));
      destruct (Z.leb_spec (rs_nxt p + W) o1); try lia; [done|].
    rewrite wrap32_small by (unfold is_u32; lia). eexists; split; [done|].
    rewrite length_takeZ by lia. split; [lia|]. apply content_take; [lia|done].
  - rewrite Z.min_l by lia. replace (o + n <=? o1) with false by lia. eauto.
Qed.

Lemma insert_refines :
  let '(cnt, p') := spec_insert W o n p in
  exists r', RecvBuf_Insert (seq_at base o) d r = Ok (cnt, r') /\ recv_rel W r' p'.
Proof using Hrel Hreach Rd HR.
  unfold RecvBuf_Insert. fold n.
  assert (0 <= n < 2 ^ 31) as Hn by apply Hreach.
  destruct (Z.eqb_spec n 0) as [E0|Hn0].
  { unfold spec_insert. replace (Z.min _ _ <=? _) with true by lia. eauto. }
  pose proof (trim_front_refines ltac:(lia)) as Hf.
  assert (wrap32 (seq_at base o + wrap32 n) = seq_at base (o + n)) as ->.
  { rewrite (wrap32_small n), seq_at_add; [done|]. unfold is_u32. lia. }
  unfold spec_insert. set (k := rs_nxt p) in *. set (o1 := Z.max o k) in *. cbv zeta in Hf.
  destruct (Z.leb_spec (o + n) k).
  { replace (Z.min _ _ <=? _) with true by lia. rewrite Hf. eauto. }
  destruct Hf as (d1 & -> & Hd1 & Rd1).
  pose proof (trim_window_refines o1 d1 ltac:(lia) ltac:(lia) Hd1 Rd1) as Hw.
  fold k in Hw. set (x := Z.min (o + n) (k + W)) in *. cbv zeta in Hw |- *.
  destruct (Z.leb_spec x o1); [rewrite Hw; eauto|]. destruct Hw as (d2 & -> & Hd2 & Rd2).
  destruct r as [buf nxt ooo ws] eqn:Er.
  pose proof Hrel as (HW & EW & Hr & En & Eb & Rb & Eo & Hs).
  destruct Hreach as (_ & H2 & H3). fold k in Hr, Hs, En, Eb, H2, H3.
  cbn [rb_nxt rb_windowSize rb_buf rb_ooo] in *. subst ws nxt.
  rewrite (seq_at_inj base o1 k) by (unfold near; lia).
  destruct (Z.eqb_spec o1 k) as [E1|E1].
  - rewrite E1 in *. unfold set_field. cbn [rb_nxt rb_windowSize rb_buf rb_ooo].
    pose proof (mergeOOO_refines k (k + 1) (k + W) ooo (rs_held p) x (buf ++ d2) W Eo Hs
      ltac:(lia) ltac:(lia) ltac:(lia)) as Hm.
    pose proof (iv_merge_sorted _ _ _ x Hs) as Hsort.
    destruct (iv_merge (rs_held p) x) as [k' rem]. destruct Hsort as (Hs1 & Hs2 & Hs3).
    destruct Hm as (d3 & es' & -> & Hd3 & Rd3 & HF'). rewrite Hd2. eexists; split; [done|].
    unfold recv_rel. cbn [rs_read rs_nxt rs_held rb_nxt rb_buf rb_ooo rb_windowSize].
    split_and!; try done; try lia.
    + rewrite !length_app. lia.
    + apply content_app. split; [apply content_app; split; [done|]|].
      * by replace (rs_read p + len buf) with k by lia.
      * by replace (rs_read p + len (buf ++ d2)) with x by (rewrite length_app; lia).
    + eapply sorted_ivs_weaken; [| |exact Hs3]; lia.
  - rewrite (Forall2_length _ _ _ Eo).
    destruct (Z.ltb_spec (len (rs_held p)) maxOOOEntries); [|by eexists].
    unfold RecvBuf_insertOOO. cbn [rb_ooo].
    rewrite Hd2, (wrap32_small (x - o1)), seq_at_add by (unfold is_u32; lia).
    replace (o1 + (x - o1)) with x by lia.
    destruct (insertOOO_loop_refines (k + 1) (k + 1) (k + W) ooo (rs_held p) o1 x d2 Eo Hs)
      as (es' & -> & HF'); try (done || lia).
    eexists; split; [done|]. unfold recv_rel.
    cbn [rs_read rs_nxt rs_held rb_nxt rb_buf rb_ooo rb_windowSize set_field].
    split_and!; try done; try lia. eapply iv_insert_sorted; [exact Hs|lia..].
Qed.
End insert.

Lemma read_refines W r p n :
  recv_rel W r p -> 0 <= n ->
  let '(out, r') := RecvBuf_Read n r in
  let p' := spec_read n p in
  R (rs_read p) out /\ len out = rs_read p' - rs_read p /\ recv_rel W r' p'.
Proof using HR.
  intros (HW & EW & Hr & En & Eb & Rb & Eo & Hs) Hn. unfold RecvBuf_Read, spec_read.
  cbn [rs_read rs_nxt rs_held].
  set (m := Z.min n (len (rb_buf r))).
  assert (takeZ n (rb_buf r) = takeZ m (rb_buf r)) as ->.
  { unfold m, takeZ. destruct (Z.le_gt_cases n (len (rb_buf r))); [by rewrite Z.min_l|].
    rewrite Z.min_r, Nat2Z.id, !take_ge by lia. done. }
  assert (0 <= m <= len (rb_buf r)) by lia.
  rewrite length_takeZ by done. replace (Z.min (rs_read p + n) (rs_nxt p)) with (rs_read p + m) by lia.
  split_and!; [by apply content_take|lia|].
  unfold recv_rel, set_field. cbn [rs_read rs_nxt rs_held rb_nxt rb_buf rb_ooo rb_windowSize].
  split_and!; try done; try lia.
  - rewrite length_dropZ; lia.
  - by apply content_drop.
Qed.
End content.

(** ** Runs *)

(** Segments of a stream [S] arrive ([RInsert o n]: positions [o] to
    [o + n - 1]) and the application reads. *)
Inductive recv_op :=
  | RInsert (o n : Z)
  | RRead (n : Z).

Definition recv_step (S : Z -> byte) (base : Z) (r : RecvBuf) (op : recv_op) :
    outcome (list byte * RecvBuf) :=
  match op with
  | RInsert o n =>
      match RecvBuf_Insert (seq_at base o) (window S o n) r with
      | Panic => Panic
      | Ok (_, r) => Ok ([], r)
      end
  | RRead n => Ok (RecvBuf_Read n r)
  end.

(** The bytes read, in order, and the buffer after. *)
Fixpoint recv_run (S : Z -> byte) (base : Z) (r : RecvBuf) (ops : list recv_op) :
    outcome (list byte * RecvBuf) :=
  match ops with
  | [] => Ok ([], r)
  | op :: ops =>
      match recv_step S base r op with
      | Panic => Panic
      | Ok (out, r) =>
          match recv_run S base r ops with
          | Panic => Panic
          | Ok (out', r) => Ok (out ++ out', r)
          end
      end
  end.

Definition recv_spec_step (W : Z) (p : RecvSpec) (op : recv_op) : RecvSpec :=
  match op with
  | RInsert o n => (spec_insert W o n p).2
  | RRead n => spec_read n p
  end.

Definition recv_op_valid (W : Z) (p : RecvSpec) (op : recv_op) : Prop :=
  match op with RInsert o n => in_reach W p o n | RRead n => 0 <= n end.

Fixpoint recv_ops_valid (W : Z) (p : RecvSpec) (ops : list recv_op) : Prop :=
  match ops with
  | [] => True
  | op :: ops => recv_op_valid W p op /\ recv_ops_valid W (recv_spec_step W p op) ops
  end.

Lemma stream_content_window S a n : 0 <= n -> stream_content S a (window S a n).
Proof. intros H. unfold stream_content. by rewrite length_window. Qed.

Lemma spec_insert_read W o n p : rs_read (spec_insert W o n p).2 = rs_read p.
Proof. unfold spec_insert. repeat case_match; done. Qed.

Lemma recv_step_refines S base W r p op :
  recv_rel (stream_content S) base W r p -> recv_op_valid W p op ->
  exists out r', recv_step S base r op = Ok (out, r') /\
    recv_rel (stream_content S) base W r' (recv_spec_step W p op) /\
    out = window S (rs_read p) (rs_read (recv_spec_step W p op) - rs_read p).
Proof.
  intros Hrel Hv. destruct op as [o n|n]; cbn [recv_step recv_spec_step recv_op_valid] in *.
  - assert (0 <= n) by apply Hv.
    pose proof (insert_refines (stream_content S) base W r p Hrel o (window S o n)) as Hi.
    rewrite length_window in Hi by done.
    specialize (Hi Hv (stream_content_window S o n ltac:(done))).
    pose proof (spec_insert_read W o n p) as Er.
    destruct (spec_insert W o n p) as [cnt p']. cbn [snd] in *. destruct Hi as (r' & -> & Hr).
    eexists _, _. split; [done|]. split; [exact Hr|]. by rewrite Er, Z.sub_diag.
  - pose proof (read_refines (stream_content S) base W r p n Hrel Hv) as Hi.
    destruct (RecvBuf_Read n r) as [out r'] eqn:E. cbv zeta in Hi. destruct Hi as (Ho & Hl & Hr).
    eexists _, _. split; [done|]. split; [done|]. by rewrite <- Hl.
Qed.

Lemma NewRecvBuf_rel R `{Content R} base W :
  is_u32 base -> 0 < W <= 2 ^ 30 -> recv_rel R base W (NewRecvBuf base W) (mkRecvSpec 0 0 []).
Proof.
  intros Hb HW. unfold recv_rel, seq_at.
  cbn [rs_read rs_nxt rs_held rb_nxt rb_buf rb_ooo rb_windowSize NewRecvBuf length].
  rewrite Z.add_0_r, wrap32_small by done. split_and!; try (done || lia). apply content_nil.
Qed.

Lemma spec_step_read_mono W p op :
  recv_op_valid W p op -> rs_read p <= rs_nxt p ->
  rs_read p <= rs_read (recv_spec_step W p op).
Proof.
  destruct op; cbn [recv_spec_step recv_op_valid]; intros; [by rewrite spec_insert_read|].
  cbn. lia.
Qed.

Lemma recv_run_refines S base W ops : forall r p,
  recv_rel (stream_content S) base W r p -> recv_ops_valid W p ops ->
  let p' := foldl (recv_spec_step W) p ops in
  rs_read p <= rs_read p' /\
  exists r', recv_run S base r ops = Ok (window S (rs_read p) (rs_read p' - rs_read p), r') /\
    recv_rel (stream_content S) base W r' p'.
Proof.
  induction ops as [|op ops IH]; intros r p Hrel Hv; cbn [foldl recv_run].
  { rewrite Z.sub_diag. split; [done|]. eauto. }
  destruct Hv as [Hv Hvs].
  assert (rs_read p <= rs_nxt p) by (unfold recv_rel in Hrel; lia).
  pose proof (spec_step_read_mono W p op Hv ltac:(done)).
  destruct (recv_step_refines S base W r p op Hrel Hv) as (out & r' & -> & Hr' & ->).
  destruct (IH r' _ Hr' Hvs) as (Hm & r'' & -> & Hr''). cbv zeta in *.
  split; [lia|]. eexists; split; [|exact Hr'']. do 2 f_equal.
  set (p1 := recv_spec_step W p op) in *. set (p' := foldl _ p1 ops) in *.
  replace (rs_read p' - rs_read p)
    with ((rs_read p1 - rs_read p) + (rs_read p' - rs_read p1)) by lia.
  rewrite window_app by lia. do 2 f_equal. lia.
Qed.

(** What a segment adds to the positions received or held. *)
Lemma spec_insert_covers W p o n q :
  0 < W -> 0 <= n -> sorted_ivs (rs_nxt p + 1) (rs_nxt p + W) (rs_held p) ->
  len (rs_held p) < maxOOOEntries ->
  let p' := (spec_insert W o n p).2 in
  (q < rs_nxt p' \/ covers (rs_held p') q) <->
  (q < rs_nxt p \/ covers (rs_held p) q \/ (o <= q < o + n /\ q < rs_nxt p + W)).
Proof.
  intros HW Hn Hs Hm. unfold spec_insert. cbv zeta.
  destruct (Z.leb_spec (Z.min (o + n) (rs_nxt p + W)) (Z.max o (rs_nxt p))).
  { cbn [snd]. intuition lia. }
  set (k := rs_nxt p) in *. set (x := Z.min (o + n) (k + W)) in *.
  destruct (Z.eqb_spec (Z.max o k) k).
  - pose proof (iv_merge_covers (k + 1) (k + W) (rs_held p) x q Hs ltac:(lia)) as Hc.
    destruct (iv_merge (rs_held p) x) as [k' rem]. cbn [snd rs_nxt rs_held].
    rewrite Hc. intuition lia.
  - replace (_ <? _) with true by lia. cbn [snd rs_nxt rs_held]. fold k.
    rewrite (iv_insert_covers _ _ _ _ _ q Hs) by lia. intuition lia.
Qed.

(** ** Theorems *)

(** C3: reassembly: whatever order, overlap, duplication or loss the segments of a stream
    arrive with, and however reads interleave, the buffer does not panic and the bytes
    read, followed by the bytes ready to read, are exactly the stream up to RCV.NXT. *)
Theorem recvbuf_reassembles (S : Z -> byte) (base W : Z) (ops : list recv_op)
  (Hb : is_u32 base) (HW : 0 < W <= 2 ^ 30)
  (Hv : recv_ops_valid W (mkRecvSpec 0 0 []) ops) :
  let p := foldl (recv_spec_step W) (mkRecvSpec 0 0 []) ops in
  exists out r, recv_run S base (NewRecvBuf base W) ops = Ok (out, r) /\
    out ++ rb_buf r = window S 0 (rs_nxt p) /\ rb_nxt r = seq_at base (rs_nxt p).
Proof.
  destruct (recv_run_refines S base W ops _ _
    (NewRecvBuf_rel (stream_content S) base W Hb HW) Hv) as (Hm & r & -> & Hrel).
  cbv zeta in *. set (p := foldl _ _ ops) in *. cbn [rs_read] in *.
  destruct Hrel as (_ & _ & Hr & En & Eb & Rb & _).
  eexists _, _. split; [done|]. split; [|done].
  rewrite Rb, Eb. replace (rs_nxt p) with ((rs_read p - 0) + (rs_nxt p - rs_read p)) at 2 by lia.
  rewrite window_app by lia. do 2 f_equal. lia.
Qed.

Lemma recvbuf_reassembles_witness :
  exists out r, recv_run byte_of_Z (2 ^ 32 - 2) (NewRecvBuf (2 ^ 32 - 2) 16)
    [RInsert 3 4; RInsert 9 3; RInsert 0 2; RRead 1; RInsert 1 3; RInsert 5 6] = Ok (out, r) /\
    out ++ rb_buf r = window byte_of_Z 0 12 /\ rb_nxt r = 10.
Proof.
  apply (recvbuf_reassembles byte_of_Z (2 ^ 32 - 2) 16
    [RInsert 3 4; RInsert 9 3; RInsert 0 2; RRead 1; RInsert 1 3; RInsert 5 6]).
  - unfold is_u32. lia.
  - lia.
  - vm_compute. intuition congruence.
Defined.

(** nothing in the window is lost and nothing is invented: while fewer than 128
    out-of-order entries are held, inserting a segment makes received-or-held exactly the
    positions that were, plus those of the segment below the right edge of the window;
    RCV.NXT is the first position missing, and the count returned is that of the segment's
    own bytes that became contiguous (the out-of-order bytes it released are not counted). *)
Theorem recvbuf_insert_complete (S : Z -> byte) (base W : Z) (r : RecvBuf) (p : RecvSpec)
  (o n : Z) (Hrel : recv_rel (stream_content S) base W r p) (Hreach : in_reach W p o n)
  (Hm : len (rb_ooo r) < maxOOOEntries) :
  exists cnt r' p', RecvBuf_Insert (seq_at base o) (window S o n) r = Ok (cnt, r') /\
    recv_rel (stream_content S) base W r' p' /\ rs_read p' = rs_read p /\
    (forall q, (q < rs_nxt p' \/ covers (rs_held p') q) <->
       (q < rs_nxt p \/ covers (rs_held p) q \/ (o <= q < o + n /\ q < rs_nxt p + W))) /\
    ~ covers (rs_held p') (rs_nxt p') /\
    cnt = (if o <=? rs_nxt p then Z.max 0 (Z.min (o + n) (rs_nxt p + W) - rs_nxt p) else 0).
Proof.
  assert (0 <= n) as Hn by apply Hreach.
  pose proof (insert_refines (stream_content S) base W r p Hrel o (window S o n)) as Hi.
  rewrite length_window in Hi by done.
  specialize (Hi Hreach (stream_content_window S o n Hn)).
  pose proof (spec_insert_read W o n p) as Er.
  destruct Hrel as (HW & _ & _ & _ & _ & _ & Eo & Hs).
  rewrite (Forall2_length _ _ _ Eo) in Hm.
  pose proof (fun q => spec_insert_covers W p o n q ltac:(lia) Hn Hs Hm) as Hc. cbv zeta in Hc.
  destruct (spec_insert W o n p) as [cnt p'] eqn:E. cbn [snd] in *. destruct Hi as (r' & Hr & Hrel').
  exists cnt, r', p'. do 3 (split; [done|]). split; [done|]. split.
  - intros Hcov. destruct Hrel' as (_ & _ & _ & _ & _ & _ & _ & Hs').
    pose proof (sorted_covers _ _ _ _ Hs' Hcov). lia.
  - unfold spec_insert in E. repeat case_match; simplify_eq/=; lia.
Qed.

Lemma recvbuf_insert_complete_witness :
  exists cnt r', RecvBuf_Insert 0 [Byte.x00; Byte.x01] (mkRecvBuf [] 0
    [mkOOO 2 [Byte.x02; Byte.x03; Byte.x04]] 100) = Ok (cnt, r') /\ cnt = 2.
Proof.
  destruct (recvbuf_insert_complete byte_of_Z 0 100
    (mkRecvBuf [] 0 [mkOOO 2 [Byte.x02; Byte.x03; Byte.x04]] 100)
    (mkRecvSpec 0 0 [(2, 3)]) 0 2) as (cnt & r' & p' & E & _ & _ & _ & _ & Ec).
  - unfold recv_rel. cbn. split_and!; try (done || lia).
    repeat constructor.
  - unfold in_reach. cbn. lia.
  - cbn. unfold maxOOOEntries. lia.
  - exists cnt, r'. split; [exact E|exact Ec].
Defined.

Lemma sack_blocks_held R base lo hi es ivs m :
  Forall2 (entry_at R base) es ivs -> sorted_ivs lo hi ivs -> hi - lo < 2 ^ 32 ->
  ((fun e => mkSACKBlock (e_seq e) (ooo_end e)) <$> take m es)
  = (fun iv => mkSACKBlock (seq_at base iv.1) (seq_at base (iv.1 + iv.2))) <$> take m ivs.
Proof.
  intros HF. revert lo m. induction HF as [|e [a n] es ivs He HF IH]; intros lo [|m]; try done.
  cbn [sorted_ivs take]. intros (H1 & H2 & H3 & H4) Hh. rewrite !fmap_cons. f_equal.
  - rewrite (entry_end R base e a n) by (done || lia). by destruct He as (-> & _).
  - apply (IH (a + n)); [done|lia].
Qed.

(** the SACK blocks report only data held beyond the first gap: at most three, in
    ascending order, each the exact bounds of a held run of positions past RCV.NXT. *)
Theorem recvbuf_sack_blocks (S : Z -> byte) (base W : Z) (r : RecvBuf) (p : RecvSpec)
  (Hrel : recv_rel (stream_content S) base W r p) :
  RecvBuf_SACKBlocks r
    = (fun iv => mkSACKBlock (seq_at base iv.1) (seq_at base (iv.1 + iv.2))) <$> take 3 (rs_held p) /\
  sorted_ivs (rs_nxt p + 1) (rs_nxt p + W) (rs_held p) /\
  RecvBuf_HasOOO r = negb (length (RecvBuf_SACKBlocks r) =? 0)%nat.
Proof.
  destruct Hrel as (HW & _ & _ & _ & _ & _ & Eo & Hs). split_and!; [|done|].
  - apply (sack_blocks_held _ _ _ _ _ _ _ Eo Hs). lia.
  - unfold RecvBuf_HasOOO, RecvBuf_SACKBlocks. rewrite length_fmap, length_take.
    destruct (rb_ooo r); [done|]. cbn [length]. lia.
Qed.

Lemma recvbuf_sack_blocks_witness :
  RecvBuf_SACKBlocks (mkRecvBuf [] (2 ^ 32 - 1) [mkOOO 1 [Byte.x02; Byte.x03; Byte.x04]] 100)
  = [mkSACKBlock 1 4].
Proof.
  destruct (recvbuf_sack_blocks byte_of_Z (2 ^ 32 - 1) 100
    (mkRecvBuf [] (2 ^ 32 - 1) [mkOOO 1 [Byte.x02; Byte.x03; Byte.x04]] 100)
    (mkRecvSpec 0 0 [(2, 3)])) as (E & _).
  - unfold recv_rel. cbn. split_and!; try (done || lia). repeat constructor.
  - exact E.
Defined.

Lemma ooo_used es u : foldl (fun used e => used + len (e_data e)) u es
  = u + foldr (fun e acc => len (e_data e) + acc) 0 es.
Proof. revert u. induction es; intros u; simpl; [lia|]. rewrite IHes. lia. Qed.

Lemma ooo_held_bound R base lo hi es ivs :
  Forall2 (entry_at R base) es ivs -> sorted_ivs lo hi ivs -> lo <= hi ->
  0 <= foldr (fun e acc => len (e_data e) + acc) 0 es <= hi - lo.
Proof.
  intros HF. revert lo. induction HF as [|e [a n] es ivs He HF IH]; intros lo; cbn; [lia|].
  intros (H1 & H2 & H3 & H4) Hl. destruct He as (_ & En & _). cbn in En.
  specialize (IH _ H4 ltac:(lia)). lia.
Qed.

(** The next segment in order, with nothing out of order held. *)
Lemma Insert_in_order W r d :
  is_u32 (rb_nxt r) -> rb_windowSize r = W -> 0 < W <= 2 ^ 30 -> rb_ooo r = [] -> 0 < len d <= W ->
  RecvBuf_Insert (rb_nxt r) d r
  = Ok (len d, r <| rb_buf := rb_buf r ++ d |> <| rb_nxt := wrap32 (rb_nxt r + len d) |>).
Proof.
  intros Hn EW HW Ho Hd. destruct r as [buf nxt ooo ws]. cbn [rb_nxt rb_windowSize rb_ooo rb_buf] in *.
  subst ws ooo. unfold RecvBuf_Insert, trim_front, trim_window.
  cbn [rb_nxt rb_windowSize rb_ooo rb_buf]. replace (len d =? 0) with false by lia.
  replace (0 <? W) with true by lia.
  rewrite (wrap32_small (len d)), (wrap32_small W) by (unfold is_u32; lia).
  assert (SeqBefore nxt nxt = false) as ->.
  { unfold SeqBefore. rewrite Z.sub_diag. done. }
  fold (seq_at nxt (len d)) (seq_at nxt W). rewrite SeqAfter_at by (unfold near; lia).
  replace (W <? len d) with false by lia. rewrite Z.eqb_refl.
  unfold RecvBuf_mergeOOO, set_field. cbn [rb_ooo rb_nxt rb_buf rb_windowSize]. cbn. done.
Qed.

(** the advertised window and the accepted window differ: [Window] is what the
    buffer's size leaves after unread and out-of-order bytes (never more than the size),
    yet [Insert] takes a full window of in-order bytes past RCV.NXT however many bytes are
    unread, so the bytes buffered are bounded by nothing but the reader. *)
Theorem recvbuf_window_not_enforced (W : Z) (r : RecvBuf) (p : RecvSpec) (base : Z)
  (d : list byte) (Hrel : recv_rel any_content base W r p) (Ho : rb_ooo r = [])
  (Hd : 0 < len d <= W) :
  RecvBuf_Window r = Z.max 0 (W - RecvBuf_Readable r) /\
  exists r', RecvBuf_Insert (rb_nxt r) d r = Ok (len d, r') /\ rb_buf r' = rb_buf r ++ d.
Proof.
  destruct Hrel as (HW & EW & Hr & En & _). split.
  - unfold RecvBuf_Window, RecvBuf_Readable. rewrite EW, Ho. cbn [foldl].
    replace (W <=? 0) with false by lia. destruct (Z.ltb_spec (W - len (rb_buf r)) 0); [lia|].
    rewrite wrap32_small by (unfold is_u32; lia). lia.
  - rewrite (Insert_in_order W r d) by (done || rewrite En; apply seq_at_range). eauto.
Qed.

Lemma recvbuf_window_not_enforced_witness :
  let r := mkRecvBuf (replicate 50 Byte.x41) 50 [] 10 in
  RecvBuf_Window r = 0 /\
  exists r', RecvBuf_Insert 50 (replicate 10 Byte.x42) r = Ok (10, r') /\
    rb_buf r' = replicate 50 Byte.x41 ++ replicate 10 Byte.x42.
Proof.
  intros r. apply (recvbuf_window_not_enforced 10 r (mkRecvSpec 0 50 []) 0).
  - unfold recv_rel, r. cbn. split_and!; try (done || lia).
  - reflexivity.
  - cbn. lia.
Defined.
