(* ===== verification/Transfer.v ===== *)
(** One direction of a connection end to end: a send buffer, a network that
    loses, duplicates and reorders, and a receive buffer that answers with
    cumulative and selective acknowledgments.

    The steps are calls of the two buffers' methods exactly as the connection
    makes them; the network's packets carry, besides what is on the wire, the
    stream position they stand for, which only the freshness guard reads (a
    packet older than a quarter of the sequence space has left the network). *)

From stdpp Require Import relations.
From S2P Require Import Prelude SeqSpace TcpOptions SendBuf RecvBuf.

(** ** Bytes of a list as content *)

(** [d] stands at position [a] of [w], as far as it goes. *)
Definition list_content (w : list byte) (a : Z) (d : list byte) : Prop :=
  forall i b, d !! i = Some b -> w !! Z.to_nat (a + Z.of_nat i) = Some b.

#[export] Instance Content_list w : Content (list_content w).
Proof.
  split; [done|]. intros a d1 d2. unfold list_content. split.
  - intros H. split; intros i b Hi.
    + apply H. by apply lookup_app_l_Some.
    + replace (a + len d1 + Z.of_nat i) with (a + Z.of_nat (length d1 + i)) by lia.
      apply H. rewrite lookup_app_r by lia. by replace (length d1 + i - length d1)%nat with i by lia.
  - intros [H1 H2] i b Hi. apply lookup_app_Some in Hi as [Hi|[Hl Hi]]; [by apply H1|].
    specialize (H2 _ _ Hi).
    by replace (a + len d1 + Z.of_nat (i - length d1)) with (a + Z.of_nat i) in H2 by lia.
Qed.

Lemma list_content_app w x a d : list_content w a d -> list_content (w ++ x) a d.
Proof. intros H i b Hi. apply lookup_app_l_Some. by apply H. Qed.

Lemma list_content_slice w a n : 0 <= a -> list_content w a (slice w a (a + n)).
Proof.
  intros Ha i b Hi. unfold slice in Hi. apply lookup_take_Some in Hi as [Hi _].
  rewrite lookup_drop in Hi. by replace (Z.to_nat (a + Z.of_nat i)) with (Z.to_nat a + i)%nat by lia.
Qed.

Lemma content_take_any w a n d : list_content w a d -> list_content w a (takeZ n d).
Proof. intros H i b Hi. unfold takeZ in Hi. apply lookup_take_Some in Hi as [Hi _]. by apply H. Qed.

Lemma list_content_prefix w d : list_content w 0 d -> d `prefix_of` w.
Proof.
  intros H. exists (drop (length d) w). apply list_eq. intros i.
  destruct (decide (i < length d)%nat) as [Hi|Hi].
  - rewrite lookup_app_l by done. destruct (lookup_lt_is_Some_2 d i Hi) as [b Hb].
    rewrite Hb. specialize (H _ _ Hb). by replace (Z.to_nat (0 + Z.of_nat i)) with i in H by lia.
  - rewrite lookup_app_r, lookup_drop by lia. f_equal. lia.
Qed.

Lemma recv_rel_mono (R R' : Z -> list byte -> Prop) base W r p :
  (forall a d, R a d -> R' a d) -> recv_rel R base W r p -> recv_rel R' base W r p.
Proof.
  intros HR (H1 & H2 & H3 & H4 & H5 & H6 & H7 & H8). unfold recv_rel. split_and!; auto; try lia.
  eapply Forall2_impl; [exact H7|]. intros e iv (E1 & E2 & E3). by split_and!; auto.
Qed.

(** ** The system *)

(** A data packet: its stream position (ghost), sequence number and payload. *)
Record packet := mkPacket { k_pos : Z; k_seq : Z; k_data : list byte }.
(** An acknowledgment: the position and the blocks it stands for (ghost), the
    number and the SACK blocks. *)
Record acket := mkAcket { a_pos : Z; a_ivs : list (Z * Z); a_ack : Z; a_blocks : list SACKBlock }.

Record tsys := mkTsys {
  t_snd : SendBuf;
  t_rcv : RecvBuf;
  t_net : list packet;
  t_acks : list acket;
  t_written : list byte;
  t_read : list byte;
}.

(** The positions of RCV.NXT and SND.UNA. *)
Definition rcv_pos (t : tsys) : Z := len (t_read t) + len (rb_buf (t_rcv t)).
Definition snd_una (t : tsys) : Z := len (t_written t) - len (sb_buf (t_snd t)).

(** The positions of the blocks the receiver reports. *)
Definition held_ivs (t : tsys) : list (Z * Z) :=
  (fun e => (rcv_pos t + int32 (wrap32 (e_seq e - rb_nxt (t_rcv t))), len (e_data e)))
  <$> take 3 (rb_ooo (t_rcv t)).

Section system.
Context (base cap W : Z).

Definition t_init (t : tsys) : Prop :=
  t = mkTsys (NewSendBuf cap base) (NewRecvBuf base W) [] [] [] [].

Inductive t_step : tsys -> tsys -> Prop :=
  | T_write t d n s :
      SendBuf_Write d (t_snd t) = (n, s) ->
      t_step t (mkTsys s (t_rcv t) (t_net t) (t_acks t) (t_written t ++ takeZ n d) (t_read t))
  | T_transmit t n d :
      0 <= n -> SendBuf_PeekUnsent n (t_snd t) = Ok d ->
      t_step t (mkTsys (SendBuf_AdvanceSent (len d) (t_snd t)) (t_rcv t)
        (mkPacket (snd_una t + SendBuf_Unacked (t_snd t)) (SendBuf_NXT (t_snd t)) d :: t_net t)
        (t_acks t) (t_written t) (t_read t))
  | T_retransmit t n d :
      0 <= n -> SendBuf_RetransmitData n (t_snd t) = Ok d ->
      t_step t (mkTsys (t_snd t) (t_rcv t)
        (mkPacket (snd_una t) (SendBuf_UNA (t_snd t)) d :: t_net t)
        (t_acks t) (t_written t) (t_read t))
  | T_deliver t k n r :
      k ∈ t_net t -> rcv_pos t - 2 ^ 30 <= k_pos k ->
      RecvBuf_Insert (k_seq k) (k_data k) (t_rcv t) = Ok (n, r) ->
      t_step t (mkTsys (t_snd t) r (t_net t) (t_acks t) (t_written t) (t_read t))
  | T_read t n d r :
      0 <= n -> RecvBuf_Read n (t_rcv t) = (d, r) ->
      t_step t (mkTsys (t_snd t) r (t_net t) (t_acks t) (t_written t) (t_read t ++ d))
  | T_acknowledge t :
      t_step t (mkTsys (t_snd t) (t_rcv t) (t_net t)
        (mkAcket (rcv_pos t) (held_ivs t) (RecvBuf_Nxt (t_rcv t)) (RecvBuf_SACKBlocks (t_rcv t))
         :: t_acks t)
        (t_written t) (t_read t))
  | T_ack t k n s :
      k ∈ t_acks t -> snd_una t - 2 ^ 30 < a_pos k ->
      SendBuf_Acknowledge (a_ack k) (t_snd t) = (n, s) ->
      t_step t (mkTsys (SendBuf_MarkSACKed (a_blocks k) s) (t_rcv t) (t_net t) (t_acks t)
        (t_written t) (t_read t)).

(** ** The invariant *)

Definition blk (iv : Z * Z) : SACKBlock := mkSACKBlock (seq_at base iv.1) (seq_at base (iv.1 + iv.2)).

(** Positions the receiver has. *)
Definition received (p : RecvSpec) (q : Z) : Prop := q < rs_nxt p \/ covers (rs_held p) q.

Definition in_iv (iv : Z * Z) (q : Z) : Prop := iv.1 <= q < iv.1 + iv.2.

(** No reported block contains [u]. *)
Definition clear (acks : list acket) (u : Z) : Prop :=
  forall k iv, k ∈ acks -> iv ∈ a_ivs k -> ~ in_iv iv u.

Record packet_good (w : list byte) (sent : Z) (k : packet) : Prop := {
  pg_seq : k_seq k = seq_at base (k_pos k);
  pg_range : 0 <= k_pos k /\ k_pos k + len (k_data k) <= sent;
  pg_content : list_content w (k_pos k) (k_data k);
}.

Record acket_good (pr : RecvSpec) (k : acket) : Prop := {
  ag_ack : a_ack k = seq_at base (a_pos k);
  ag_range : 0 <= a_pos k <= rs_nxt pr;
  ag_blocks : a_blocks k = blk <$> a_ivs k;
  ag_ivs : forall iv, iv ∈ a_ivs k -> a_pos k < iv.1 /\ 0 < iv.2 /\ forall q, in_iv iv q -> received pr q;
}.

Record t_good (t : tsys) (ps : SendSpec) (pr : RecvSpec) : Prop := {
  tg_snd : send_rel cap base (t_snd t) ps;
  tg_stream : ss_stream ps = t_written t;
  tg_rcv : recv_rel (list_content (t_written t)) base W (t_rcv t) pr;
  tg_read : list_content (t_written t) 0 (t_read t) /\ len (t_read t) = rs_read pr;
  tg_sent : forall q, received pr q -> q < ss_nxt ps;
  tg_una : ss_una ps <= rs_nxt pr /\ clear (t_acks t) (ss_una ps);
  tg_net : Forall (packet_good (t_written t) (ss_nxt ps)) (t_net t);
  tg_acks : Forall (acket_good pr) (t_acks t);
  tg_clear : forall k, k ∈ t_acks t -> clear (t_acks t) (a_pos k);
  tg_sacked : forall b, b ∈ sb_sacked (t_snd t) -> exists k iv, k ∈ t_acks t /\ iv ∈ a_ivs k /\
    b = blk iv /\ ss_una ps < iv.1 + iv.2;
}.

(** ** Auxiliary facts *)

Lemma received_dec p : sorted_ivs (rs_nxt p + 1) (rs_nxt p + W) (rs_held p) ->
  ~ received p (rs_nxt p).
Proof. intros Hs [H|H]; [lia|]. pose proof (sorted_covers _ _ _ _ Hs H). lia. Qed.

Lemma sorted_elem lo hi ivs a m : sorted_ivs lo hi ivs -> (a, m) ∈ ivs -> lo <= a /\ 0 < m.
Proof.
  revert lo. induction ivs as [|[b k] ivs IH]; intros lo; cbn [sorted_ivs]; [by intros _ ?%elem_of_nil|].
  intros (H1 & H2 & H3 & H4) [[= -> ->]|Hin]%elem_of_cons; [lia|].
  destruct (IH _ H4 Hin). lia.
Qed.

Lemma elem_of_take_incl {A} n (l : list A) x : x ∈ take n l -> x ∈ l.
Proof. intros H. rewrite <- (take_drop n l). apply elem_of_app. by left. Qed.

Lemma insert_received p o n q :
  0 < W -> 0 <= n -> sorted_ivs (rs_nxt p + 1) (rs_nxt p + W) (rs_held p) ->
  (received p q -> received (spec_insert W o n p).2 q) /\
  (received (spec_insert W o n p).2 q -> received p q \/ o <= q < o + n).
Proof.
  intros HW Hn Hs. destruct (Z.lt_ge_cases (len (rs_held p)) maxOOOEntries) as [Hm|Hm].
  { pose proof (spec_insert_covers W p o n q HW Hn Hs Hm) as Hc. cbv zeta in Hc.
    unfold received. rewrite Hc. intuition. }
  unfold spec_insert, received. cbv zeta.
  destruct (Z.leb_spec (Z.min (o + n) (rs_nxt p + W)) (Z.max o (rs_nxt p))); [cbn [snd]; tauto|].
  destruct (Z.eqb_spec (Z.max o (rs_nxt p)) (rs_nxt p)).
  - pose proof (iv_merge_covers (rs_nxt p + 1) (rs_nxt p + W) (rs_held p)
      (Z.min (o + n) (rs_nxt p + W)) q Hs ltac:(lia)) as Hc.
    destruct (iv_merge _ _) as [k' rem]. cbn [snd rs_nxt rs_held]. rewrite Hc. intuition lia.
  - replace (_ <? _) with false by lia. cbn [snd]. tauto.
Qed.

Lemma retransmit_una s n :
  sb_inv s -> SendBuf_IsSACKed (sb_una s) s = false -> 0 <= n ->
  SendBuf_RetransmitData n s
  = Ok (takeZ n (takeZ (Z.min (SendBuf_Unacked s) (len (sb_buf s))) (sb_buf s))).
Proof.
  intros Hi Hun Hn. pose proof (nxt_as_offset s Hi) as En.
  destruct Hi as (H1 & H2 & H3 & H4 & H5 & H6).
  unfold SendBuf_RetransmitData. fold (SendBuf_Unacked s). cbv zeta.
  assert ((if len (sb_buf s) <? SendBuf_Unacked s then len (sb_buf s) else SendBuf_Unacked s)
          = Z.min (SendBuf_Unacked s) (len (sb_buf s))) as ->
    by (destruct (Z.ltb_spec (len (sb_buf s)) (SendBuf_Unacked s)); lia).
  assert (0 <= SendBuf_Unacked s) by (unfold SendBuf_Unacked; mlia).
  case_match; [by rewrite cut_takeZ|].
  cbn [skip_sacked]. unfold SendBuf_IsSACKed in Hun. rewrite skip_pass_none by done.
  assert (sb_una s = seq_at (sb_una s) 0) as E0 by (unfold seq_at; mlia).
  rewrite Z.sub_diag. change (wrap32 0) with 0.
  rewrite En, E0 at 1. rewrite SeqAfterEq_at by (unfold near; lia).
  destruct (Z.leb_spec (SendBuf_Unacked s) 0).
  { rewrite Z.min_l by lia. replace (SendBuf_Unacked s) with 0 by lia.
    change (takeZ 0 (sb_buf s)) with (@nil byte). by rewrite takeZ_nil. }
  destruct (Z.leb_spec (Z.min (SendBuf_Unacked s) (len (sb_buf s))) 0).
  { rewrite (Z.le_antisymm (Z.min (SendBuf_Unacked s) (len (sb_buf s))) 0) by lia.
    change (takeZ 0 (sb_buf s)) with (@nil byte). by rewrite takeZ_nil. }
  rewrite cut_takeZ, slice_0 by done. done.
Qed.

Section steps.
Context (t : tsys) (ps : SendSpec) (pr : RecvSpec) (G : t_good t ps pr).

Lemma good_bounds :
  snd_una t = ss_una ps /\ rcv_pos t = rs_nxt pr /\ 0 <= ss_una ps <= rs_nxt pr /\
  rs_nxt pr <= ss_nxt ps /\ ss_nxt ps <= len (t_written t) /\
  len (t_written t) <= ss_una ps + cap /\ 0 < cap < 2 ^ 30 /\ 0 < W <= 2 ^ 30 /\
  0 <= rs_read pr <= rs_nxt pr.
Proof using G.
  pose proof (rel_len _ _ _ _ (tg_snd _ _ _ G)) as Hl.
  destruct (tg_snd _ _ _ G) as ((_ & _ & Hc & Hb & _) & Ec & _ & _ & _ & Hu & Hn).
  destruct (tg_rcv _ _ _ G) as (HW & _ & Hr & _ & Eb & _).
  pose proof (tg_stream _ _ _ G) as Es. destruct (tg_una _ _ _ G) as [Hun _].
  destruct (tg_read _ _ _ G) as [_ Hrd]. unfold snd_una, rcv_pos. rewrite <- Es in *.
  assert (rs_nxt pr <= ss_nxt ps).
  { destruct (Z.eq_dec (rs_nxt pr) 0); [lia|].
    pose proof (tg_sent _ _ _ G (rs_nxt pr - 1) ltac:(left; lia)). lia. }
  split_and!; lia.
Qed.

Lemma una_unsacked : SendBuf_IsSACKed (sb_una (t_snd t)) (t_snd t) = false.
Proof using G.
  pose proof good_bounds as Hb. apply not_true_is_false. unfold SendBuf_IsSACKed.
  rewrite existsb_exists. intros (b & Hb1 & Hin). apply list_elem_of_In in Hb1.
  destruct (tg_sacked _ _ _ G b Hb1) as (k & iv & Hk & Hiv & -> & Hend).
  destruct (tg_snd _ _ _ G) as (_ & _ & Eu & _). rewrite Eu in Hin.
  pose proof (tg_acks _ _ _ G) as HA. rewrite Forall_forall in HA.
  destruct (ag_ivs _ _ (HA k Hk) iv Hiv) as (_ & Hlen & Hrec).
  pose proof (tg_sent _ _ _ G (iv.1 + iv.2 - 1) (Hrec (iv.1 + iv.2 - 1) ltac:(unfold in_iv; lia))) as Hs.
  destruct (tg_una _ _ _ G) as [_ Hcl]. specialize (Hcl k iv Hk Hiv). unfold in_iv in Hcl.
  unfold in_block, blk in Hin. cbn [Left] in Hin. zbool.
  rewrite SeqAfterEq_at in * by (unfold near; lia). lia.
Qed.

Lemma step_write d n s :
  SendBuf_Write d (t_snd t) = (n, s) ->
  exists ps', t_good (mkTsys s (t_rcv t) (t_net t) (t_acks t) (t_written t ++ takeZ n d) (t_read t))
    ps' pr.
Proof using G.
  intros E. pose proof (write_refines cap base _ _ (tg_snd _ _ _ G) d) as Hw.
  cbn [spec_step send_step] in Hw. rewrite E in Hw. destruct Hw as (s' & [= En <-] & Hrel).
  destruct G. eexists. split; cbn [t_snd t_rcv t_net t_acks t_written t_read ss_stream ss_una ss_nxt];
    [exact Hrel| | | |done|done| |done|done|].
  - cbn. by rewrite <- En, tg_stream0.
  - eapply recv_rel_mono; [|exact tg_rcv0]. intros. by apply list_content_app.
  - destruct tg_read0. split; [by apply list_content_app|done].
  - eapply Forall_impl; [exact tg_net0|]. intros k []. split; try done. by apply list_content_app.
  - assert (sb_sacked s = sb_sacked (t_snd t)) as ->; [|done].
    unfold SendBuf_Write in E. repeat case_match; by simplify_eq.
Qed.

Lemma step_transmit n d :
  0 <= n -> SendBuf_PeekUnsent n (t_snd t) = Ok d ->
  exists ps', t_good (mkTsys (SendBuf_AdvanceSent (len d) (t_snd t)) (t_rcv t)
    (mkPacket (snd_una t + SendBuf_Unacked (t_snd t)) (SendBuf_NXT (t_snd t)) d :: t_net t)
    (t_acks t) (t_written t) (t_read t)) ps' pr.
Proof using G.
  intros Hn E. pose proof good_bounds as Hb.
  pose proof (transmit_refines cap base _ _ (tg_snd _ _ _ G) n Hn) as Hw.
  pose proof (rel_unacked _ _ _ _ (tg_snd _ _ _ G)) as Hu.
  cbn [spec_step send_step] in Hw. rewrite E in Hw. destruct Hw as (s' & [= En Ed <-] & Hrel).
  destruct G. eexists. split; cbn [t_snd t_rcv t_net t_acks t_written t_read ss_stream ss_una ss_nxt];
    [exact Hrel|done|done|done| |done| |done|done|].
  - intros q Hq. specialize (tg_sent0 q Hq). cbn [ss_nxt]. rewrite tg_stream0. lia.
  - assert (len d = Z.min (ss_nxt ps + n) (len (ss_stream ps)) - ss_nxt ps) as Ld.
    { rewrite Ed. unfold slice. rewrite length_take, length_drop, tg_stream0. lia. }
    constructor.
    + replace (snd_una t + SendBuf_Unacked (t_snd t)) with (ss_nxt ps) by lia.
      split; cbn [k_seq k_pos k_data ss_nxt]; [done|rewrite tg_stream0 in *; lia|].
      rewrite Ed, <- tg_stream0.
      replace (Z.min (ss_nxt ps + n) (len (ss_stream ps))) with
        (ss_nxt ps + (Z.min (ss_nxt ps + n) (len (ss_stream ps)) - ss_nxt ps)) by lia.
      apply list_content_slice. lia.
    + eapply Forall_impl; [exact tg_net0|]. intros k []. split; try done.
      cbn [ss_nxt]. rewrite tg_stream0. lia.
  - exact tg_sacked0.
Qed.

Lemma step_retransmit n d :
  0 <= n -> SendBuf_RetransmitData n (t_snd t) = Ok d ->
  t_good (mkTsys (t_snd t) (t_rcv t)
    (mkPacket (snd_una t) (SendBuf_UNA (t_snd t)) d :: t_net t) (t_acks t) (t_written t) (t_read t)) ps pr.
Proof using G.
  intros Hn E. pose proof good_bounds as Hb. pose proof una_unsacked as Hun.
  pose proof (rel_unacked _ _ _ _ (tg_snd _ _ _ G)) as Hu.
  pose proof (rel_len _ _ _ _ (tg_snd _ _ _ G)) as Hl.
  destruct (tg_snd _ _ _ G) as (Hi & _ & Eu & _ & Ebuf & _).
  rewrite (retransmit_una _ n Hi Hun Hn) in E. injection E as <-.
  rewrite (tg_stream _ _ _ G) in *. rewrite Z.min_l by lia.
  destruct G. split; cbn [t_snd t_rcv t_net t_acks t_written t_read]; try done.
  constructor; [|done]. split; cbn [k_seq k_pos k_data].
  - unfold SendBuf_UNA. rewrite Eu. f_equal. lia.
  - unfold takeZ. rewrite !length_take. lia.
  - replace (snd_una t) with (ss_una ps) by lia. rewrite Ebuf.
    apply content_take_any, content_take_any. unfold dropZ. intros i b Hi'.
    rewrite lookup_drop in Hi'.
    by replace (Z.to_nat (ss_una ps + Z.of_nat i)) with (Z.to_nat (ss_una ps) + i)%nat by lia.
Qed.

Lemma deliver_ok k :
  k ∈ t_net t -> rcv_pos t - 2 ^ 30 <= k_pos k ->
  exists n r, RecvBuf_Insert (k_seq k) (k_data k) (t_rcv t) = Ok (n, r) /\
    recv_rel (list_content (t_written t)) base W r (spec_insert W (k_pos k) (len (k_data k)) pr).2.
Proof using G.
  intros Hk Hf. pose proof good_bounds as Hb. pose proof (tg_net _ _ _ G) as HN.
  rewrite Forall_forall in HN. destruct (HN k Hk) as [Es [Hr1 Hr2] Hc].
  pose proof (insert_refines (list_content (t_written t)) base W _ _ (tg_rcv _ _ _ G) (k_pos k)
    (k_data k) ltac:(unfold in_reach; lia) Hc) as Hi.
  rewrite Es. destruct (spec_insert W (k_pos k) (len (k_data k)) pr) as [n p'].
  destruct Hi as (r & Hr & Hrel). eauto.
Qed.

Lemma acket_good_mono pr' k :
  rs_nxt pr <= rs_nxt pr' -> (forall q, received pr q -> received pr' q) ->
  acket_good pr k -> acket_good pr' k.
Proof using.
  intros Hn Hr []. split; try done; [lia|]. intros iv Hiv. destruct (ag_ivs0 iv Hiv) as (? & ? & ?).
  split_and!; auto.
Qed.

Lemma step_deliver k n r :
  k ∈ t_net t -> rcv_pos t - 2 ^ 30 <= k_pos k ->
  RecvBuf_Insert (k_seq k) (k_data k) (t_rcv t) = Ok (n, r) ->
  t_good (mkTsys (t_snd t) r (t_net t) (t_acks t) (t_written t) (t_read t)) ps
    (spec_insert W (k_pos k) (len (k_data k)) pr).2.
Proof using G.
  intros Hk Hf E. pose proof good_bounds as Hb.
  destruct (deliver_ok k Hk Hf) as (n' & r' & E' & Hrel). rewrite E in E'. injection E' as <- <-.
  destruct (tg_rcv _ _ _ G) as (HW & _ & _ & _ & _ & _ & _ & Hs).
  pose proof (fun q => insert_received pr (k_pos k) (len (k_data k)) q ltac:(lia) ltac:(lia) Hs)
    as Hrec.
  pose proof (spec_insert_read W (k_pos k) (len (k_data k)) pr) as Erd.
  set (pr' := (spec_insert W (k_pos k) (len (k_data k)) pr).2) in *.
  pose proof (tg_net _ _ _ G) as HN. rewrite Forall_forall in HN.
  destruct (HN k Hk) as [_ [Hr1 Hr2] _].
  assert (rs_nxt pr <= rs_nxt pr') as Hmono.
  { destruct (Z.le_gt_cases (rs_nxt pr) (rs_nxt pr')); [done|].
    destruct (proj1 (Hrec (rs_nxt pr')) ltac:(left; lia)) as [?|Hcv]; [lia|].
    destruct Hrel as (_ & _ & _ & _ & _ & _ & _ & Hs'). pose proof (sorted_covers _ _ _ _ Hs' Hcv). lia. }
  destruct G. split; cbn [t_snd t_rcv t_net t_acks t_written t_read]; try done.
  - destruct tg_read0. split; [done|congruence].
  - intros q Hq. destruct (proj2 (Hrec q) Hq); [auto|lia].
  - destruct tg_una0. split; [lia|done].
  - eapply Forall_impl; [exact tg_acks0|]. intros a Ha.
    apply acket_good_mono; [done|intros q; apply Hrec|done].
Qed.

Lemma step_read n d r :
  0 <= n -> RecvBuf_Read n (t_rcv t) = (d, r) ->
  exists pr', t_good (mkTsys (t_snd t) r (t_net t) (t_acks t) (t_written t) (t_read t ++ d)) ps pr'.
Proof using G.
  intros Hn E.
  pose proof (read_refines (list_content (t_written t)) base W _ _ n (tg_rcv _ _ _ G) Hn) as Hr.
  rewrite E in Hr. cbv zeta in Hr. destruct Hr as (Hc & Hl & Hrel). exists (spec_read n pr).
  destruct G. split; cbn [t_snd t_rcv t_net t_acks t_written t_read]; try done.
  - destruct tg_read0 as [Hc0 Hl0]. split.
    + apply content_app. split; [done|]. by rewrite Hl0.
    + rewrite length_app. cbn [rs_read] in *. lia.
  - eapply Forall_impl; [exact tg_acks0|]. intros a []. split; done.
Qed.

Lemma held_ivs_spec : held_ivs t = take 3 (rs_held pr).
Proof using G.
  pose proof good_bounds as Hb. unfold held_ivs.
  destruct (tg_rcv _ _ _ G) as (HW & _ & _ & En & _ & _ & HF & Hs).
  replace (rcv_pos t) with (rs_nxt pr) by lia. rewrite En.
  assert (forall lo, rs_nxt pr <= lo -> sorted_ivs lo (rs_nxt pr + W) (rs_held pr) ->
    forall m, ((fun e => (rs_nxt pr + int32 (wrap32 (e_seq e - seq_at base (rs_nxt pr))),
      len (e_data e))) <$> take m (rb_ooo (t_rcv t))) = take m (rs_held pr)) as Hgen;
    [|by apply (Hgen (rs_nxt pr + 1)); [lia|]].
  clear Hs. induction HF as [|e [a m'] es ivs (Ea & El & _) HF IH]; intros lo Hlo Hs [|m]; try done.
  cbn [sorted_ivs take] in *. destruct Hs as (H1 & H2 & H3 & H4). rewrite fmap_cons. f_equal.
  - cbn [fst snd] in *. rewrite Ea, El, seq_diff by (unfold near; lia). f_equal. lia.
  - apply (IH (a + m')); [lia|done].
Qed.

Lemma step_acknowledge :
  t_good (mkTsys (t_snd t) (t_rcv t) (t_net t)
    (mkAcket (rcv_pos t) (held_ivs t) (RecvBuf_Nxt (t_rcv t)) (RecvBuf_SACKBlocks (t_rcv t)) :: t_acks t)
    (t_written t) (t_read t)) ps pr.
Proof using G.
  pose proof good_bounds as Hb. pose proof held_ivs_spec as Hh.
  destruct (tg_rcv _ _ _ G) as (HW & _ & _ & En & _ & _ & HF & Hs).
  assert (forall iv, iv ∈ held_ivs t -> rs_nxt pr < iv.1 /\ 0 < iv.2 /\
    forall q, in_iv iv q -> received pr q) as Hiv.
  { intros [a m] Hin. rewrite Hh in Hin. apply (elem_of_take_incl) in Hin.
    assert (rs_nxt pr + 1 <= a /\ 0 < m) as [? ?] by (by apply (sorted_elem _ _ _ _ _ Hs)).
    cbn. split_and!; [lia|lia|]. intros q Hq. right. exists a, m. done. }
  assert (clear (t_acks t) (rs_nxt pr)) as Hclr.
  { intros k iv Hk Hin Hc. pose proof (tg_acks _ _ _ G) as HA. rewrite Forall_forall in HA.
    destruct (ag_ivs _ _ (HA k Hk) iv Hin) as (_ & _ & Hrec).
    by apply (received_dec pr Hs), Hrec. }
  assert (forall u, u <= rs_nxt pr -> clear (t_acks t) u -> clear (mkAcket (rcv_pos t) (held_ivs t)
    (RecvBuf_Nxt (t_rcv t)) (RecvBuf_SACKBlocks (t_rcv t)) :: t_acks t) u) as Hext.
  { intros u Hu Hc k iv [->|Hk]%elem_of_cons Hin; [|exact (Hc k iv Hk Hin)].
    cbn in Hin. destruct (Hiv iv Hin). unfold in_iv. lia. }
  destruct G. split; cbn [t_snd t_rcv t_net t_acks t_written t_read]; try done.
  - destruct tg_una0. split; [done|]. by apply Hext.
  - constructor; [|done]. split; cbn [a_ack a_pos a_blocks a_ivs]; [|lia| |].
    + unfold RecvBuf_Nxt. rewrite En. f_equal. lia.
    + rewrite Hh. apply (sack_blocks_held _ _ _ _ _ _ 3 HF Hs). lia.
    + intros iv Hin. destruct (Hiv iv Hin) as (? & ? & ?). split_and!; [lia|done|done].
  - intros k [->|Hk]%elem_of_cons; cbn [a_pos].
    + apply Hext; [lia|]. by replace (rcv_pos t) with (rs_nxt pr) by lia.
    + rewrite Forall_forall in tg_acks0. apply Hext; [apply (tg_acks0 k Hk)|by apply tg_clear0].
  - intros b Hin. destruct (tg_sacked0 b Hin) as (k & iv & Hk & Hrest). exists k, iv.
    split; [by right|done].
Qed.

Lemma step_ack k n s :
  k ∈ t_acks t -> snd_una t - 2 ^ 30 < a_pos k ->
  SendBuf_Acknowledge (a_ack k) (t_snd t) = (n, s) ->
  exists ps', t_good (mkTsys (SendBuf_MarkSACKed (a_blocks k) s) (t_rcv t) (t_net t) (t_acks t)
    (t_written t) (t_read t)) ps' pr /\ ss_una ps' = Z.max (ss_una ps) (a_pos k).
Proof using G.
  intros Hk Hf E. pose proof good_bounds as Hb.
  pose proof (tg_acks _ _ _ G) as HA. rewrite Forall_forall in HA.
  destruct (HA k Hk) as [Eack Hpos Eblk Hivs]. rewrite Eack in E.
  pose proof (ack_refines cap base _ _ (tg_snd _ _ _ G) (a_pos k) ltac:(lia)) as Hw.
  cbn [spec_step send_step] in Hw. rewrite E in Hw. destruct Hw as (s' & [= En <-] & Hrel).
  rewrite (Z.min_l (a_pos k)) in * by lia. set (una' := Z.max (ss_una ps) (a_pos k)) in *.
  assert (clear (t_acks t) una') as Hclr.
  { unfold una'. destruct (Z.max_spec (ss_una ps) (a_pos k)) as [[_ ->]|[_ ->]];
      [by apply (tg_clear _ _ _ G)|apply (tg_una _ _ _ G)]. }
  assert (Forall block_u32 (a_blocks k)) as Hu32.
  { rewrite Eblk. apply Forall_fmap, Forall_forall. intros iv _. split; apply seq_at_range. }
  pose proof (step_refines cap base _ _ Hrel (SMark (a_blocks k)) Hu32) as Hm.
  cbn [spec_step send_step] in Hm. destruct Hm as (s2 & [= <-] & Hrel2).
  exists (mkSendSpec (ss_stream ps) una' (ss_nxt ps)). split; [|done].
  destruct G. split; cbn [t_snd t_rcv t_net t_acks t_written t_read];
    [exact Hrel2|done|done|done|done|split; [cbn [ss_una]; lia|exact Hclr]|done|done|done|].
  cbn [ss_una]. intros b Hin.
  (* a block after the update: from the packet, or one of before that is still ahead *)
  assert (exists k' iv, k' ∈ t_acks t /\ iv ∈ a_ivs k' /\ b = blk iv /\
    ss_una ps - 2 ^ 30 < iv.1 + iv.2 /\ SeqAfter (Right b) (sb_una s) = true)
    as (k' & iv & Hk' & Hiv & -> & Hlow & Haft).
  { unfold SendBuf_MarkSACKed in Hin. destruct (len (a_blocks k) =? 0).
    - unfold SendBuf_Acknowledge in E. case_match.
      + injection E as _ <-. destruct (tg_sacked0 b Hin) as (k' & iv & ? & ? & ? & ?).
        exists k', iv. split_and!; try done; [lia|].
        destruct (tg_snd0) as ((_ & _ & _ & _ & _ & Hok) & _). unfold sacked_ok in Hok.
        rewrite Forall_forall in Hok. by apply Hok.
      + injection E as _ <-. unfold SendBuf_pruneSACK in Hin. cbn [sb_sacked set_field] in Hin.
        apply list_elem_of_filter in Hin as [Haft Hin].
        destruct (tg_sacked0 b Hin) as (k' & iv & ? & ? & ? & ?).
        exists k', iv. split_and!; try done. lia.
    - cbn [sb_sacked set_field] in Hin. apply list_elem_of_filter in Hin as [[Haft _] Hin].
      rewrite Eblk in Hin. apply list_elem_of_fmap in Hin as (iv & -> & Hin).
      exists k, iv. destruct (Hivs iv Hin) as (? & ? & _). split_and!; try done. lia. }
  exists k', iv. split_and!; try done.
  destruct Hrel as (_ & _ & Eu & _). cbn [ss_una] in Eu. rewrite Eu in Haft.
  destruct (ag_ivs _ _ (HA k' Hk') iv Hiv) as (_ & Hlen & Hrec).
  pose proof (tg_sent0 (iv.1 + iv.2 - 1) (Hrec (iv.1 + iv.2 - 1) ltac:(unfold in_iv; lia))).
  unfold blk in Haft. cbn [Right] in Haft. rewrite SeqAfter_at in Haft by (unfold near; lia). lia.
Qed.
End steps.

Lemma t_init_good t :
  0 < cap < 2 ^ 30 -> 0 < W <= 2 ^ 30 -> is_u32 base -> t_init t ->
  t_good t (mkSendSpec [] 0 0) (mkRecvSpec 0 0 []).
Proof.
  intros Hc HW Hb ->. split; cbn [t_snd t_rcv t_net t_acks t_written t_read]; try done.
  - split; [by apply NewSendBuf_inv|]. unfold seq_at; simpl.
    rewrite Z.add_0_r, wrap32_small by done. split_and!; done.
  - apply NewRecvBuf_rel; [apply _|done|done].
  - intros q [H|H]; [done|]. by apply covers_nil in H.
  - split; [done|]. intros k iv Hk. by apply elem_of_nil in Hk.
  - intros k Hk. by apply elem_of_nil in Hk.
  - intros b Hin. by apply elem_of_nil in Hin.
Qed.

Lemma t_step_good t t' :
  (exists ps pr, t_good t ps pr) -> t_step t t' -> exists ps pr, t_good t' ps pr.
Proof.
  intros (ps & pr & G) Hst. destruct Hst.
  - destruct (step_write t ps pr G d n s) as [ps' ?]; eauto.
  - destruct (step_transmit t ps pr G n d) as [ps' ?]; eauto.
  - eexists _, _. by eapply step_retransmit.
  - eexists _, _. by eapply step_deliver.
  - destruct (step_read t ps pr G n d r) as [pr' ?]; eauto.
  - eexists _, _. by apply step_acknowledge.
  - destruct (step_ack t ps pr G k n s) as (ps' & ? & _); eauto.
Qed.

Lemma t_reachable_good :
  0 < cap < 2 ^ 30 -> 0 < W <= 2 ^ 30 -> is_u32 base ->
  forall t, reachable t_init t_step t -> exists ps pr, t_good t ps pr.
Proof.
  intros Hc HW Hb. apply reachable_invariant.
  - intros s Hs. eexists _, _. by eapply t_init_good.
  - apply t_step_good.
Qed.

(** *** Progress *)

Definition t_steps : tsys -> tsys -> Prop := rtc t_step.

(** Something the sender does not know yet has been received: one
    acknowledgment tells it. *)
Lemma progress_ack t ps pr :
  t_good t ps pr -> ss_una ps < rs_nxt pr ->
  exists t', t_steps t t' /\ snd_una t < snd_una t'.
Proof.
  intros G Hlt. pose proof (good_bounds t ps pr G) as Hb.
  pose proof (step_acknowledge t ps pr G) as G1.
  set (a := mkAcket (rcv_pos t) (held_ivs t) (RecvBuf_Nxt (t_rcv t)) (RecvBuf_SACKBlocks (t_rcv t))) in *.
  set (t1 := mkTsys _ _ _ (a :: _) _ _) in *.
  assert (a ∈ t_acks t1) as Ha by (by left).
  assert (snd_una t1 - 2 ^ 30 < a_pos a) as Hf by (change (snd_una t - 2 ^ 30 < rcv_pos t); lia).
  destruct (SendBuf_Acknowledge (a_ack a) (t_snd t1)) as [n s] eqn:E.
  destruct (step_ack t1 ps pr G1 a n s Ha Hf E) as (ps2 & G2 & Eu).
  eexists. split.
  - eapply rtc_l; [apply T_acknowledge|]. fold a. fold t1. eapply rtc_l; [by apply (T_ack t1 a n s)|].
    apply rtc_refl.
  - pose proof (good_bounds _ _ _ G2) as Hb2. cbn [a_pos a] in Eu. lia.
Qed.

Lemma progress t ps pr :
  t_good t ps pr -> 0 < SendBuf_Unacked (t_snd t) ->
  exists t', t_steps t t' /\ snd_una t < snd_una t'.
Proof.
  intros G Hun. pose proof (good_bounds t ps pr G) as Hb.
  destruct (Z.lt_ge_cases (ss_una ps) (rs_nxt pr)) as [Hlt|Hge]; [by eapply progress_ack|].
  pose proof (rel_unacked _ _ _ _ (tg_snd _ _ _ G)) as Hu.
  pose proof (rel_len _ _ _ _ (tg_snd _ _ _ G)) as Hl. rewrite (tg_stream _ _ _ G) in Hl.
  assert (sb_inv (t_snd t)) as Hi by apply (tg_snd _ _ _ G).
  pose proof (retransmit_una (t_snd t) 1 Hi (una_unsacked t ps pr G) ltac:(lia)) as Er.
  rewrite Z.min_l in Er by lia.
  set (d := takeZ 1 (takeZ (SendBuf_Unacked (t_snd t)) (sb_buf (t_snd t)))) in *.
  assert (len d = 1) as Ld by (unfold d, takeZ; rewrite !length_take; lia).
  pose proof (step_retransmit t ps pr G 1 d ltac:(lia) Er) as G1.
  set (k := mkPacket (snd_una t) (SendBuf_UNA (t_snd t)) d) in *.
  set (t1 := mkTsys _ _ (k :: _) _ _ _) in *.
  assert (k ∈ t_net t1) as Hk by (by left).
  assert (rcv_pos t1 - 2 ^ 30 <= k_pos k) as Hf by (change (rcv_pos t - 2 ^ 30 <= snd_una t); lia).
  destruct (deliver_ok t1 ps pr G1 k Hk Hf) as (n & r & Ei & _).
  pose proof (step_deliver t1 ps pr G1 k n r Hk Hf Ei) as G2.
  assert (ss_una ps < rs_nxt (spec_insert W (k_pos k) (len (k_data k)) pr).2) as Hlt.
  { pose proof (proj1 (tg_rcv _ _ _ G)) as HW.
    assert (sorted_ivs (rs_nxt pr + 1) (rs_nxt pr + W) (rs_held pr)) as Hs by apply (tg_rcv _ _ _ G).
    unfold spec_insert. cbn [k_pos k_data k]. rewrite Ld.
    replace (snd_una t) with (rs_nxt pr) by lia. cbv zeta.
    replace (_ <=? _) with false by lia. replace (_ =? _) with true by lia.
    pose proof (iv_merge_sorted _ _ _ (Z.min (rs_nxt pr + 1) (rs_nxt pr + W)) Hs) as Hm.
    destruct (iv_merge _ _) as [k' rem]. cbn [snd rs_nxt]. lia. }
  destruct (progress_ack _ _ _ G2 Hlt) as (t' & Hst & Hadv). exists t'. split; [|exact Hadv].
  eapply rtc_l; [by apply (T_retransmit t 1 d); [lia|]|]. eapply rtc_l; [by apply (T_deliver t1 k n r)|].
  exact Hst.
Qed.
End system.

(** ** Theorems *)

(** C1: end to end, whatever the network loses, duplicates or reorders, and however writes,
    transmissions, retransmissions, acknowledgments and reads interleave, as long as the
    packets and acknowledgments that arrive are at most 2^30 bytes (a quarter of the sequence
    space) behind, and the buffers hold less than that: the bytes read followed by the bytes
    ready to read are a prefix of the bytes written; a byte leaves the send buffer only after
    the receiver has it; PeekUnsent returns exactly as many of the unsent bytes as asked for
    and there are, RetransmitData as many of the unacknowledged ones, each the bytes written
    at its place of the stream; and Insert of a packet of the network returns. None of the
    three calls (the ones of the two buffers that slice) panics. *)
Theorem transfer_reliable (base cap W : Z) (t : tsys)
  (Hc : 0 < cap < 2 ^ 30) (HW : 0 < W <= 2 ^ 30) (Hb : is_u32 base)
  (Hr : reachable (t_init base cap W) t_step t) :
  (t_read t ++ rb_buf (t_rcv t)) `prefix_of` t_written t /\
  snd_una t <= rcv_pos t <= len (t_written t) /\
  (forall n, 0 <= n -> exists d, SendBuf_PeekUnsent n (t_snd t) = Ok d /\
     len d = Z.min n (len (sb_buf (t_snd t)) - SendBuf_Unacked (t_snd t)) /\
     list_content (t_written t) (snd_una t + SendBuf_Unacked (t_snd t)) d) /\
  (forall n, 0 <= n -> exists d, SendBuf_RetransmitData n (t_snd t) = Ok d /\
     len d = Z.min n (SendBuf_Unacked (t_snd t)) /\
     list_content (t_written t) (snd_una t) d) /\
  (forall k, k ∈ t_net t -> rcv_pos t - 2 ^ 30 <= k_pos k ->
     exists n r, RecvBuf_Insert (k_seq k) (k_data k) (t_rcv t) = Ok (n, r)).
Proof.
  destruct (t_reachable_good base cap W Hc HW Hb t Hr) as (ps & pr & G).
  pose proof (good_bounds _ _ _ _ _ _ G) as Hbd.
  pose proof (rel_len _ _ _ _ (tg_snd _ _ _ _ _ _ G)) as Hl.
  pose proof (rel_unacked _ _ _ _ (tg_snd _ _ _ _ _ _ G)) as Hu.
  pose proof (tg_stream _ _ _ _ _ _ G) as Es. split_and!; try lia.
  - apply list_content_prefix, content_app. destruct (tg_read _ _ _ _ _ _ G) as [Hc1 Hl1].
    destruct (tg_rcv _ _ _ _ _ _ G) as (_ & _ & _ & _ & _ & Hc2 & _). split; [done|]. by rewrite Hl1.
  - intros n Hn. pose proof (peek_at _ _ _ _ (tg_snd _ _ _ _ _ _ G) n Hn) as E.
    eexists. split; [exact E|]. split.
    + unfold slice. rewrite length_take, length_drop, Es in *. lia.
    + pose proof (step_transmit _ _ _ _ _ _ G n _ Hn E) as (ps' & G1).
      pose proof (tg_net _ _ _ _ _ _ G1) as HN. apply Forall_cons in HN as [[_ _ Hcont] _]. exact Hcont.
  - intros n Hn. assert (sb_inv (t_snd t)) as Hi by apply (tg_snd _ _ _ _ _ _ G).
    eexists. split; [by apply retransmit_una; [|eapply una_unsacked|]|]. split.
    { rewrite !length_takeZ_min by lia. rewrite Es in *. lia. }
    pose proof (step_retransmit _ _ _ _ _ _ G n _ Hn
      (retransmit_una _ n Hi (una_unsacked _ _ _ _ _ _ G) Hn)) as G1.
    pose proof (tg_net _ _ _ _ _ _ G1) as HN. apply Forall_cons in HN as [[_ _ Hcont] _]. exact Hcont.
  - intros k Hk Hf. destruct (deliver_ok _ _ _ _ _ _ G k Hk Hf) as (n & r & E & _). eauto.
Qed.

Definition example_bytes : list byte := [Byte.x61; Byte.x62; Byte.x63].
Definition example_written : tsys :=
  mkTsys (mkSendBuf example_bytes 8 (2 ^ 32 - 1) (2 ^ 32 - 1) []) (NewRecvBuf (2 ^ 32 - 1) 4) [] []
    example_bytes [].
Definition example_sent : tsys :=
  mkTsys (mkSendBuf example_bytes 8 (2 ^ 32 - 1) 2 []) (NewRecvBuf (2 ^ 32 - 1) 4)
    [mkPacket 0 (2 ^ 32 - 1) example_bytes] [] example_bytes [].
Definition transfer_example : tsys :=
  mkTsys (mkSendBuf example_bytes 8 (2 ^ 32 - 1) 2 []) (mkRecvBuf example_bytes 2 [] 4)
    [mkPacket 0 (2 ^ 32 - 1) example_bytes] [] example_bytes [].

Lemma transfer_example_reachable : reachable (t_init (2 ^ 32 - 1) 8 4) t_step transfer_example.
Proof.
  apply (reach_step _ _ example_sent); [apply (reach_step _ _ example_written)|].
  - eapply reach_step; [by apply reach_init|].
    exact (T_write (mkTsys (NewSendBuf 8 (2 ^ 32 - 1)) (NewRecvBuf (2 ^ 32 - 1) 4) [] [] [] [])
      example_bytes 3 (t_snd example_written) eq_refl).
  - exact (T_transmit example_written 5 example_bytes ltac:(lia) eq_refl).
  - exact (T_deliver example_sent (mkPacket 0 (2 ^ 32 - 1) example_bytes) 3 (t_rcv transfer_example)
      ltac:(by left) ltac:(done) eq_refl).
Qed.

Lemma transfer_reliable_witness :
  (t_read transfer_example ++ rb_buf (t_rcv transfer_example)) `prefix_of` t_written transfer_example.
Proof.
  refine (proj1 (transfer_reliable (2 ^ 32 - 1) 8 4 transfer_example _ _ _ _)).
  - lia.
  - lia.
  - unfold is_u32. lia.
  - exact transfer_example_reachable.
Defined.

(** C32: progress is always possible: from every reachable state with bytes in flight a
    finite run of the system (at most a retransmission, its delivery and one
    acknowledgment) moves SND.UNA forward. *)
Theorem transfer_progress (base cap W : Z) (t : tsys)
  (Hc : 0 < cap < 2 ^ 30) (HW : 0 < W <= 2 ^ 30) (Hb : is_u32 base)
  (Hr : reachable (t_init base cap W) t_step t) (Hun : 0 < SendBuf_Unacked (t_snd t)) :
  exists t', t_steps t t' /\ snd_una t < snd_una t'.
Proof.
  destruct (t_reachable_good base cap W Hc HW Hb t Hr) as (ps & pr & G).
  by eapply progress.
Qed.

Lemma transfer_progress_witness :
  exists t', t_steps transfer_example t' /\ snd_una transfer_example < snd_una t'.
Proof.
  apply (transfer_progress (2 ^ 32 - 1) 8 4 transfer_example).
  - lia.
  - lia.
  - unfold is_u32. lia.
  - exact transfer_example_reachable.
  - reflexivity.
Defined.
