(* ===== verification/ConnState.v ===== *)
(** The connection's state (src/vtcp/conn.go and the states and defaults of
    src/vtcp/doc.go), its construction, and the helpers its handlers share:
    the outgoing queue, the advertised window, option negotiation, the
    acceptability tests, and the timers.

    Every method runs in the monad [M Conn]: it threads the connection through
    and panics where Go would (a nil buffer, a slice out of range, a division
    by zero).  A method holds the connection's mutex from start to end, so it
    is one atomic step; the clock reads of a step all give [now].

    A timer field holds the time at which the timer was set to fire; a timer
    that has fired stays in its field until the code clears it, as in the
    source.  A condition variable is the number of broadcasts so far; a channel
    closed through a [sync.Once] is a boolean. *)

From S2P Require Import Prelude SeqSpace TcpOptions Segment Rto Congestion SendBuf RecvBuf.

Inductive State :=
  | StateClosed | StateListen | StateSynSent | StateSynReceived | StateEstablished
  | StateFinWait1 | StateFinWait2 | StateCloseWait | StateClosing | StateLastAck
  | StateTimeWait.

#[global] Instance State_eq_dec : EqDecision State.
Proof. solve_decision. Defined.

Definition DefaultMSS : Z := 1460.
Definition DefaultWindowSize : Z := 65535.
Definition DefaultSendBuf : Z := Z.shiftl 1 20.
Definition DefaultRecvBuf : Z := Z.shiftl 1 20.
Definition MaxRetries : Z := 8.
Definition TimeWaitDuration : Z := 2 * Second.
Definition DefaultKeepaliveIdle : Z := 300 * Second.
Definition DefaultKeepaliveInterval : Z := 15 * Second.
Definition DefaultKeepaliveCount : Z := 3.

Record ConnConfig := mkConnConfig {
  cfg_LocalPort : Z;
  cfg_RemotePort : Z;
  cfg_MSS : Z;
  cfg_NoWindowScaling : bool;
  cfg_EnableTimestamps : bool;
  cfg_EnableSACK : bool;
  cfg_CongestionControl : CCName;
  cfg_Keepalive : bool;
  cfg_KeepaliveIdle : Z;
  cfg_KeepaliveInterval : Z;
  cfg_KeepaliveCount : Z;
  cfg_SendBufSize : Z;
  cfg_RecvBufSize : Z;
}.

Definition ConnConfig_mss (cfg : ConnConfig) : Z :=
  if 0 <? cfg_MSS cfg then cfg_MSS cfg else DefaultMSS.
Definition ConnConfig_recvBufSize (cfg : ConnConfig) : Z :=
  if 0 <? cfg_RecvBufSize cfg then cfg_RecvBufSize cfg else DefaultRecvBuf.

Record Conn := mkConn {
  c_localPort : Z;
  c_remotePort : Z;
  c_state : State;
  c_sendBuf : option SendBuf;
  c_sndWnd : Z;
  c_mss : Z;
  c_recvBuf : option RecvBuf;
  c_recvCond : nat;
  c_recvBufCap : Z;
  c_cc : Controller;
  c_rto : RTOCalculator;
  c_rtoTimer : option Z;
  c_retries : Z;
  c_sndWndShift : Z;
  c_rcvWndShift : Z;
  c_wscaleOK : bool;
  c_tsEnabled : bool;
  c_tsOK : bool;
  c_tsRecent : Z;
  c_tsOffset : Z;
  c_sackEnabled : bool;
  c_sackOK : bool;
  c_finPending : bool;
  c_pendingFinSeq : Z;
  c_sendBufCap : Z;
  c_ccName : CCName;
  c_persistTimer : option Z;
  c_persistBackoff : Z;
  c_timeWaitTimer : option Z;
  c_keepalive : bool;
  c_keepaliveIdle : Z;
  c_keepaliveIntv : Z;
  c_keepaliveMax : Z;
  c_keepaliveSent : Z;
  c_lastRecv : Z;
  c_keepaliveTimer : option Z;
  c_outgoing : list (list byte);
  c_closed : bool;
  c_established : bool;
  c_finRecvd : bool;
  c_readDeadline : option Z;
  c_writeDeadline : option Z;
  c_sendCond : nat;
}.

#[global] Instance Conn_eta : Eta Conn := fun c => mkConn
  (c_localPort c) (c_remotePort c) (c_state c) (c_sendBuf c) (c_sndWnd c) (c_mss c)
  (c_recvBuf c) (c_recvCond c) (c_recvBufCap c) (c_cc c) (c_rto c) (c_rtoTimer c)
  (c_retries c) (c_sndWndShift c) (c_rcvWndShift c) (c_wscaleOK c) (c_tsEnabled c)
  (c_tsOK c) (c_tsRecent c) (c_tsOffset c) (c_sackEnabled c) (c_sackOK c)
  (c_finPending c) (c_pendingFinSeq c) (c_sendBufCap c) (c_ccName c) (c_persistTimer c)
  (c_persistBackoff c) (c_timeWaitTimer c) (c_keepalive c) (c_keepaliveIdle c)
  (c_keepaliveIntv c) (c_keepaliveMax c) (c_keepaliveSent c) (c_lastRecv c)
  (c_keepaliveTimer c) (c_outgoing c) (c_closed c) (c_established c) (c_finRecvd c)
  (c_readDeadline c) (c_writeDeadline c) (c_sendCond c).

(** The window-scale loop of [NewConn], with [more] shifts to try after [s]. *)
Fixpoint wnd_shift_loop (more : nat) (s recvBufCap : Z) : Z :=
  if Z.shiftr recvBufCap s <=? 65535 then s
  else match more with O => s | S more => wnd_shift_loop more (s + 1) recvBufCap end.

Definition NewConn (now : Z) (cfg : ConnConfig) : Conn := {|
  c_localPort := cfg_LocalPort cfg;
  c_remotePort := cfg_RemotePort cfg;
  c_state := StateClosed;
  c_sendBuf := None;
  c_sndWnd := DefaultWindowSize;
  c_mss := ConnConfig_mss cfg;
  c_recvBuf := None;
  c_recvCond := 0;
  c_recvBufCap := ConnConfig_recvBufSize cfg;
  c_cc := newCongestionController (cfg_CongestionControl cfg) (wrap32 (ConnConfig_mss cfg));
  c_rto := NewRTOCalculator;
  c_rtoTimer := None;
  c_retries := 0;
  c_sndWndShift := 0;
  c_rcvWndShift :=
    if cfg_NoWindowScaling cfg then 0 else wnd_shift_loop 14 0 (ConnConfig_recvBufSize cfg);
  c_wscaleOK := false;
  c_tsEnabled := cfg_EnableTimestamps cfg;
  c_tsOK := false;
  c_tsRecent := 0;
  c_tsOffset := 0;
  c_sackEnabled := cfg_EnableSACK cfg;
  c_sackOK := false;
  c_finPending := false;
  c_pendingFinSeq := 0;
  c_sendBufCap := if cfg_SendBufSize cfg <=? 0 then DefaultSendBuf else cfg_SendBufSize cfg;
  c_ccName := cfg_CongestionControl cfg;
  c_persistTimer := None;
  c_persistBackoff := 0;
  c_timeWaitTimer := None;
  c_keepalive := cfg_Keepalive cfg;
  c_keepaliveIdle :=
    if cfg_KeepaliveIdle cfg =? 0 then DefaultKeepaliveIdle else cfg_KeepaliveIdle cfg;
  c_keepaliveIntv :=
    if cfg_KeepaliveInterval cfg =? 0 then DefaultKeepaliveInterval
    else cfg_KeepaliveInterval cfg;
  c_keepaliveMax :=
    if cfg_KeepaliveCount cfg =? 0 then DefaultKeepaliveCount else cfg_KeepaliveCount cfg;
  c_keepaliveSent := 0;
  c_lastRecv := now;
  c_keepaliveTimer := None;
  c_outgoing := [];
  c_closed := false;
  c_established := false;
  c_finRecvd := false;
  c_readDeadline := None;
  c_writeDeadline := None;
  c_sendCond := 0;
|}.

(** ** Access to the buffers and the controller *)

Definition sendBuf : M Conn SendBuf := deref c_sendBuf.
Definition recvBuf : M Conn RecvBuf := deref c_recvBuf.
Definition set_sendBuf (s : SendBuf) : M Conn () := modify (fun c => c <| c_sendBuf := Some s |>).
Definition set_recvBuf (r : RecvBuf) : M Conn () := modify (fun c => c <| c_recvBuf := Some r |>).
Definition set_state (st : State) : M Conn () := modify (fun c => c <| c_state := st |>).
Definition set_cc (cc : Controller) : M Conn () := modify (fun c => c <| c_cc := cc |>).
Definition set_rto (r : RTOCalculator) : M Conn () := modify (fun c => c <| c_rto := r |>).

Definition recvCond_Broadcast : M Conn () := modify (fun c => c <| c_recvCond := S (c_recvCond c) |>).
Definition sendCond_Broadcast : M Conn () := modify (fun c => c <| c_sendCond := S (c_sendCond c) |>).

Definition safeCloseEstablished : M Conn () := modify (fun c => c <| c_established := true |>).
Definition safeCloseFinRecvd : M Conn () :=
  c <- get ;;
  when (negb (c_finRecvd c))
    (modify (fun c => c <| c_finRecvd := true |>) ;; recvCond_Broadcast).

(** ** The outgoing queue *)

Definition queueSeg (seg : Segment) : M Conn () :=
  modify (fun c => c <| c_outgoing := c_outgoing c ++ [Segment_Marshal seg] |>).

Definition drainOutgoing : M Conn (list (list byte)) :=
  pkts <- gets c_outgoing ;;
  modify (fun c => c <| c_outgoing := [] |>) ;;
  ret pkts.

(** ** The advertised window *)

Definition Conn_recvBufSize (c : Conn) : Z :=
  if 0 <? c_recvBufCap c then c_recvBufCap c else DefaultRecvBuf.

Definition Conn_sendBufSize (c : Conn) : Z :=
  match c_sendBuf c with
  | Some s => sb_cap s
  | None => if 0 <? c_sendBufCap c then c_sendBufCap c else DefaultSendBuf
  end.

Definition rcvWindow (c : Conn) : Z :=
  let avail := match c_recvBuf c with
               | Some r => RecvBuf_Window r
               | None => Conn_recvBufSize c
               end in
  let half := Conn_recvBufSize c / 2 in
  let swsThresh := if half <? c_mss c then half else c_mss c in
  let avail := if avail <? swsThresh then 0 else avail in
  let avail := if c_wscaleOK c then Z.shiftr avail (c_rcvWndShift c) else avail in
  let avail := if 65535 <? avail then 65535 else avail in
  wrap16 avail.

(** ** Options *)

(** [uint32(time.Now().UnixMilli()) - c.tsOffset]. *)
Definition tsNow (now : Z) (c : Conn) : Z := wrap32 (wrap32 (now / Millisecond) - c_tsOffset c).

Definition buildSYNOptions (now : Z) (c : Conn) : list Option :=
  [MSSOption (wrap16 (c_mss c)); WScaleOption (c_rcvWndShift c)]
  ++ (if c_sackEnabled c then [SACKPermOption] else [])
  ++ (if c_tsEnabled c then [TimestampOption (tsNow now c) 0] else []).

Definition negotiateOptions (remoteOpts : list Option) : M Conn () :=
  (let ws := GetWScale remoteOpts in
   when (0 <=? ws)
     (modify (fun c => c <| c_sndWndShift := wrap8 (if 14 <? ws then 14 else ws) |>
                         <| c_wscaleOK := true |>))) ;;
  c <- get ;;
  when (c_sackEnabled c && HasSACKPerm remoteOpts) (modify (fun c => c <| c_sackOK := true |>)) ;;
  when (c_tsEnabled c)
    match GetTimestamp remoteOpts with
    | Some (tsVal, _) => modify (fun c => c <| c_tsRecent := tsVal |> <| c_tsOK := true |>)
    | None => ret ()
    end.

(** The options of an ordinary segment. *)
Definition addOptions (now : Z) (c : Conn) (seg : Segment) : Segment :=
  let seg := if c_tsOK c
    then seg <| Options := Options seg ++ [TimestampOption (tsNow now c) (c_tsRecent c)] |>
    else seg in
  match c_recvBuf c with
  | Some r =>
      if c_sackOK c && RecvBuf_HasOOO r
      then seg <| Options := Options seg ++ [SACKOption (RecvBuf_SACKBlocks r)] |>
      else seg
  | None => seg
  end.

(** PAWS: [false] when the segment must be dropped. *)
Definition updateTimestamp (opts : list Option) : M Conn bool :=
  c <- get ;;
  if negb (c_tsOK c) then ret true
  else
    match GetTimestamp opts with
    | None => ret true
    | Some (tsVal, _) =>
        if negb (c_tsRecent c =? 0) && (int32 (wrap32 (tsVal - c_tsRecent c)) <? 0) then ret false
        else modify (fun c => c <| c_tsRecent := tsVal |>) ;; ret true
    end.

(** ** Acceptability *)

Definition segmentAcceptable (seg : Segment) (c : Conn) : bool :=
  match c_recvBuf c with
  | None => true
  | Some r =>
      let rcvNxt := RecvBuf_Nxt r in
      let rcvWnd := wrap32 (c_recvBufCap c) in
      let rcvWnd := if rcvWnd =? 0 then DefaultRecvBuf else rcvWnd in
      let segLen := Segment_SegLen seg in
      if segLen =? 0 then
        if rcvWnd =? 0 then Seq seg =? rcvNxt
        else SeqInRange (Seq seg) rcvNxt (wrap32 (rcvNxt + rcvWnd))
      else if rcvWnd =? 0 then false
      else
        let segEnd := wrap32 (Seq seg + segLen - 1) in
        SeqInRange (Seq seg) rcvNxt (wrap32 (rcvNxt + rcvWnd)) ||
        SeqInRange segEnd rcvNxt (wrap32 (rcvNxt + rcvWnd))
  end.

(** Accept the reset, and whether to send a challenge ACK. *)
Definition validateRST (seg : Segment) : M Conn (bool * bool) :=
  c <- get ;;
  match c_state c with
  | StateSynSent =>
      if Segment_HasFlag seg FlagACK then
        s <- sendBuf ;;
        ret (if Ack seg =? SendBuf_NXT s then (true, false) else (false, false))
      else ret (false, false)
  | _ =>
      match c_recvBuf c with
      | None => ret (true, false)
      | Some r =>
          let rcvNxt := RecvBuf_Nxt r in
          if Seq seg =? rcvNxt then ret (true, false)
          else if SeqInRange (Seq seg) rcvNxt (wrap32 (rcvNxt + RecvBuf_Window r))
          then ret (false, true)
          else ret (false, false)
      end
  end.

(** ** Timers *)

Section timers.
Context (now : Z).

Definition stopRTO : M Conn () := modify (fun c => c <| c_rtoTimer := None |>).
Definition startRTO : M Conn () :=
  stopRTO ;;
  modify (fun c => c <| c_rtoTimer := Some (now + RTO_RTO (c_rto c)) |>).

Definition stopPersist : M Conn () :=
  modify (fun c => c <| c_persistTimer := None |> <| c_persistBackoff := 0 |>).
Definition startPersist : M Conn () :=
  stopPersist ;;
  modify (fun c => if c_persistBackoff c =? 0
                   then c <| c_persistBackoff := RTO_RTO (c_rto c) |> else c) ;;
  modify (fun c => c <| c_persistTimer := Some (now + c_persistBackoff c) |>).

Definition stopKeepalive : M Conn () := modify (fun c => c <| c_keepaliveTimer := None |>).
Definition startKeepalive : M Conn () :=
  stopKeepalive ;; stopPersist ;;
  modify (fun c => c <| c_keepaliveTimer := Some (now + c_keepaliveIdle c) |>).

Definition startTimeWait : M Conn () :=
  stopKeepalive ;; stopPersist ;;
  modify (fun c => c <| c_timeWaitTimer := Some (now + TimeWaitDuration) |>).
Definition restartTimeWait : M Conn () :=
  modify (fun c => match c_timeWaitTimer c with
                   | Some _ => c <| c_timeWaitTimer := Some (now + TimeWaitDuration) |>
                   | None => c
                   end).
End timers.
