(* ===== verification/ConnOps.v ===== *)
(** The connection's handlers (src/vtcp/conn.go): the sending loop, the
    processing of segments in every state, the timer callbacks, and the calls
    of the application.  Each definition is the method of the same name; a
    method that returns packets returns them marshalled. *)

From S2P Require Import Prelude SeqSpace TcpOptions Segment Rto Congestion SendBuf RecvBuf.
From S2P Require Import ConnState.

Abbreviation packets := (list (list byte)).

(** The variadic [min] of the package. *)
Definition go_min (v : Z) (vals : list Z) : Z :=
  foldl (fun m v => if v <? m then v else m) v vals.

(** The segment literals: ports of the connection, the rest as given. *)
Definition conn_segment (c : Conn) (seq ack flags window : Z) (opts : list Option)
    (payload : list byte) : Segment := {|
  SrcPort := c_localPort c;
  DstPort := c_remotePort c;
  Seq := seq;
  Ack := ack;
  Flags := flags;
  Window := window;
  Checksum := 0;
  Urgent := 0;
  Options := opts;
  Payload := payload;
|}.

Section ops.
Context {F : Float64} (now : Z).

(** ** Sending *)

Definition queueACK : M Conn () :=
  c <- get ;; s <- sendBuf ;; r <- recvBuf ;;
  queueSeg (addOptions now c
    (conn_segment c (SendBuf_NXT s) (RecvBuf_Nxt r) FlagACK (rcvWindow c) [] [])).

Definition queueFIN : M Conn () :=
  c <- get ;; s <- sendBuf ;; r <- recvBuf ;;
  queueSeg (addOptions now c
    (conn_segment c (SendBuf_NXT s) (RecvBuf_Nxt r) (Z.lor FlagFIN FlagACK) (rcvWindow c) [] [])) ;;
  set_sendBuf (SendBuf_AdvanceSent 1 s).

Definition queueRST (seq : Z) : M Conn () :=
  c <- get ;; queueSeg (conn_segment c seq 0 FlagRST 0 [] []).

(** A SYN or SYN-ACK at SND.UNA or the initial number, as retransmissions and
    the handshake build it. *)
Definition queueSYN (seq ack flags : Z) : M Conn () :=
  c <- get ;; queueSeg (conn_segment c seq ack flags (rcvWindow c) (buildSYNOptions now c) []).

Definition retransmit : M Conn () :=
  c <- get ;; s <- sendBuf ;;
  data <- lift (SendBuf_RetransmitData (c_mss c) s) ;;
  if len data =? 0 then ret ()
  else
    r <- recvBuf ;;
    queueSeg (addOptions now c
      (conn_segment c (SendBuf_UNA s) (RecvBuf_Nxt r) (Z.lor FlagACK FlagPSH) (rcvWindow c) [] data)) ;;
    modify (fun c => c <| c_rto := RTO_InvalidateTiming (c_rto c) |>) ;;
    startRTO now.

(** The size of the next segment of [flushSendQueue]; [None] where the loop
    breaks. *)
Definition next_send_size (c : Conn) (s : SendBuf) : option Z :=
  let effWnd := c_sndWnd c in
  let ccWnd := SendWindow (c_cc c) in
  let effWnd := if ccWnd <? effWnd then ccWnd else effWnd in
  let avail := effWnd - SendBuf_Unacked s in
  if avail <=? 0 then None
  else
    let n := go_min avail [c_mss c; SendBuf_Pending s] in
    if (n <? c_mss c) && (0 <? SendBuf_Unacked s) then None else Some n.

Fixpoint flush_loop (fuel : nat) : M Conn () :=
  match fuel with
  | O => panic
  | S fuel =>
      c <- get ;; s <- sendBuf ;;
      if negb (0 <? SendBuf_Pending s) then ret ()
      else
        match next_send_size c s with
        | None => ret ()
        | Some n =>
            data <- lift (SendBuf_PeekUnsent n s) ;;
            if len data =? 0 then ret ()
            else
              r <- recvBuf ;;
              queueSeg (addOptions now c
                (conn_segment c (SendBuf_NXT s) (RecvBuf_Nxt r) (Z.lor FlagACK FlagPSH)
                   (rcvWindow c) [] data)) ;;
              set_sendBuf (SendBuf_AdvanceSent (len data) s) ;;
              modify (fun c => c <| c_rto := RTO_StartTiming now (SendBuf_NXT s) (c_rto c) |>) ;;
              c <- get ;; s <- sendBuf ;;
              when ((0 <? SendBuf_Unacked s) && negb (bool_decide (is_Some (c_rtoTimer c))))
                (startRTO now) ;;
              flush_loop fuel
        end
  end.

(** Every iteration but the last sends at least one byte. *)
Definition flushSendQueue : M Conn () :=
  s <- sendBuf ;;
  flush_loop (S (Z.to_nat (SendBuf_Pending s))) ;;
  c <- get ;; s <- sendBuf ;;
  when ((0 <? SendBuf_Pending s) && (c_sndWnd c =? 0) && negb (bool_decide (is_Some (c_persistTimer c))))
    (startPersist now).

(** ** Acknowledgments, data and FINs *)

Definition mark_sacked (opts : list Option) : M Conn () :=
  c <- get ;;
  when (c_sackOK c)
    (let blocks := GetSACKBlocks opts in
     when (0 <? len blocks) (s <- sendBuf ;; set_sendBuf (SendBuf_MarkSACKed blocks s))).

Definition processACK (ack : Z) (opts : list Option) : M Conn () :=
  s <- sendBuf ;;
  if negb (SeqAfter ack (SendBuf_UNA s)) then
    c <- get ;;
    let '(fast, cc) := OnDupACK (c_cc c) in
    set_cc cc ;;
    when fast
      (cc <- lift (OnFastRetransmit (wrap32 (SendBuf_Unacked s)) (SendBuf_NXT s) cc) ;;
       set_cc cc ;; retransmit) ;;
    mark_sacked opts
  else if SeqAfter ack (SendBuf_NXT s) then queueACK
  else
    let '(acked, s) := SendBuf_Acknowledge ack s in
    set_sendBuf s ;;
    modify (fun c => c <| c_retries := 0 |>) ;;
    c <- get ;;
    cc <- lift (OnACK acked (c_cc c)) ;;
    set_cc cc ;;
    mark_sacked opts ;;
    c <- get ;;
    when ((0 <? c_sndWnd c) && bool_decide (is_Some (c_persistTimer c))) stopPersist ;;
    modify (fun c => c <| c_rto := (RTO_AckReceived now ack (c_rto c)).2 |>) ;;
    c <- get ;;
    when (InRecovery (c_cc c) && SeqAfterEq ack (RecoverySeq (c_cc c)))
      (set_cc (ExitRecovery (c_cc c))) ;;
    s <- sendBuf ;;
    (if 0 <? SendBuf_Unacked s then startRTO now else stopRTO) ;;
    flushSendQueue ;;
    sendCond_Broadcast.

Definition set_sndWnd (seg : Segment) : M Conn () :=
  modify (fun c => c <| c_sndWnd := wrap32 (Z.shiftl (Window seg) (c_sndWndShift c)) |>).

Definition processFINStateTransition : M Conn () :=
  c <- get ;;
  match c_state c with
  | StateEstablished => set_state StateCloseWait ;; safeCloseFinRecvd
  | StateFinWait1 =>
      s <- sendBuf ;;
      (if SendBuf_Unacked s =? 0
       then set_state StateTimeWait ;; stopRTO ;; startTimeWait now
       else set_state StateClosing) ;;
      safeCloseFinRecvd
  | StateFinWait2 =>
      set_state StateTimeWait ;; stopRTO ;; startTimeWait now ;; safeCloseFinRecvd
  | _ => ret ()
  end.

Definition processData (seg : Segment) : M Conn () :=
  r <- recvBuf ;;
  ' (n, r) <- lift (RecvBuf_Insert (Seq seg) (Payload seg) r) ;;
  set_recvBuf r ;;
  c <- get ;;
  let finReady := c_finPending c && (c_pendingFinSeq c =? RecvBuf_Nxt r) in
  when finReady
    (set_recvBuf (r <| rb_nxt := wrap32 (rb_nxt r + 1) |>) ;;
     modify (fun c => c <| c_finPending := false |>)) ;;
  when (0 <? n) recvCond_Broadcast ;;
  when finReady processFINStateTransition.

(** The FIN block of [handleDataState]; whether it asks for an ACK. *)
Definition processFIN (seg : Segment) : M Conn bool :=
  if Segment_HasFlag seg FlagFIN then
    r <- recvBuf ;;
    let finSeq := wrap32 (Seq seg + Segment_DataLen seg) in
    (if finSeq =? RecvBuf_Nxt r
     then set_recvBuf (r <| rb_nxt := wrap32 (rb_nxt r + 1) |>) ;; processFINStateTransition
     else modify (fun c => c <| c_finPending := true |> <| c_pendingFinSeq := finSeq |>)) ;;
    ret true
  else
    c <- get ;;
    when (bool_decide (c_state c = StateFinWait1) && Segment_HasFlag seg FlagACK)
      (s <- sendBuf ;;
       when (Ack seg =? SendBuf_NXT s) (set_state StateFinWait2)) ;;
    ret false.

Definition handleDataState (seg : Segment) : M Conn packets :=
  fresh <- updateTimestamp (Options seg) ;;
  if negb fresh then queueACK ;; drainOutgoing
  else
    when (Segment_HasFlag seg FlagACK)
      (processACK (Ack seg) (Options seg) ;; set_sndWnd seg) ;;
    (let hasData := 0 <? len (Payload seg) in
     when hasData (processData seg) ;;
     finACK <- processFIN seg ;;
     when (hasData || finACK) queueACK) ;;
    drainOutgoing.

(** ** Per-state handlers *)

Definition handleClosed (seg : Segment) : M Conn packets :=
  if Segment_HasFlag seg FlagRST then ret []
  else
    (if Segment_HasFlag seg FlagACK then queueRST (Ack seg)
     else
       c <- get ;;
       queueSeg (conn_segment c 0 (wrap32 (Seq seg + Segment_SegLen seg))
         (Z.lor FlagRST FlagACK) 0 [] [])) ;;
    drainOutgoing.

(** The buffering of data carried by a SYN or SYN-ACK. *)
Definition insert_syn_data (seg : Segment) : M Conn () :=
  when (0 <? len (Payload seg))
    (r <- recvBuf ;;
     ' (_, r) <- lift (RecvBuf_Insert (wrap32 (Seq seg + 1)) (Payload seg) r) ;;
     set_recvBuf r).

Definition negotiate_mss (opts : list Option) : M Conn () :=
  c <- get ;;
  let mss := GetMSS opts in
  when ((0 <? mss) && (mss <? c_mss c)) (modify (fun c => c <| c_mss := mss |>)).

(** An ACK outside what SYN-SENT has sent. *)
Definition synSent_badACK (seg : Segment) : M Conn bool :=
  if Segment_HasFlag seg FlagACK then
    s <- sendBuf ;;
    ret (SeqBeforeEq (Ack seg) (SendBuf_UNA s) || SeqAfter (Ack seg) (SendBuf_NXT s))
  else ret false.

(** The SYN-ACK branch: first the new state, then the data it may carry and the
    answer. *)
Definition complete_handshake (seg : Segment) : M Conn () :=
  s <- sendBuf ;;
  set_sendBuf (SendBuf_Acknowledge (Ack seg) s).2 ;;
  modify (fun c => c <| c_retries := 0 |>) ;;
  stopRTO ;;
  c <- get ;;
  set_recvBuf (NewRecvBuf (wrap32 (Seq seg + 1)) (c_recvBufCap c)) ;;
  set_sndWnd seg ;;
  set_cc (newCongestionController (c_ccName c) (wrap32 (c_mss c))) ;;
  modify (fun c => c <| c_rto := (RTO_AckReceived now (Ack seg) (c_rto c)).2 |>) ;;
  set_state StateEstablished.

Definition answer_synack (seg : Segment) : M Conn packets :=
  insert_syn_data seg ;;
  when (0 <? len (Payload seg)) recvCond_Broadcast ;;
  queueACK ;;
  flushSendQueue ;;
  c <- get ;;
  when (c_keepalive c) (startKeepalive now) ;;
  pkts <- drainOutgoing ;;
  safeCloseEstablished ;;
  ret pkts.

(** The bare SYN branch: a simultaneous open. *)
Definition simultaneous_open (seg : Segment) : M Conn () :=
  c <- get ;;
  set_recvBuf (NewRecvBuf (wrap32 (Seq seg + 1)) (c_recvBufCap c)) ;;
  set_sndWnd seg ;;
  set_state StateSynReceived ;;
  modify (fun c => c <| c_retries := 0 |>) ;;
  stopRTO ;;
  insert_syn_data seg ;;
  s <- sendBuf ;; r <- recvBuf ;;
  queueSYN (SendBuf_UNA s) (RecvBuf_Nxt r) (Z.lor FlagSYN FlagACK) ;;
  startRTO now.

Definition handleSynSent (seg : Segment) : M Conn packets :=
  badACK <- synSent_badACK seg ;;
  if badACK then
    when (negb (Segment_HasFlag seg FlagRST)) (queueRST (Ack seg)) ;;
    drainOutgoing
  else if Segment_HasFlag seg FlagRST then
    when (Segment_HasFlag seg FlagACK)
      (set_state StateClosed ;;
       modify (fun c => c <| c_closed := true |>) ;;
       stopRTO ;; safeCloseEstablished ;; safeCloseFinRecvd) ;;
    drainOutgoing
  else if negb (Segment_HasFlag seg FlagSYN) then drainOutgoing
  else
    negotiate_mss (Options seg) ;;
    negotiateOptions (Options seg) ;;
    if Segment_HasFlag seg FlagACK then complete_handshake seg ;; answer_synack seg
    else simultaneous_open seg ;; drainOutgoing.

Definition handleSynReceived (seg : Segment) : M Conn packets :=
  s <- sendBuf ;;
  if negb (Ack seg =? SendBuf_NXT s) then queueRST (Ack seg) ;; drainOutgoing
  else
    set_sendBuf (SendBuf_Acknowledge (Ack seg) s).2 ;;
    modify (fun c => c <| c_retries := 0 |>) ;;
    stopRTO ;;
    set_sndWnd seg ;;
    set_state StateEstablished ;;
    c <- get ;;
    when (c_keepalive c) (startKeepalive now) ;;
    safeCloseEstablished ;;
    handleDataState seg.

Definition handleCloseWait (seg : Segment) : M Conn packets :=
  when (Segment_HasFlag seg FlagACK)
    (processACK (Ack seg) (Options seg) ;; set_sndWnd seg) ;;
  drainOutgoing.

Definition handleClosing (seg : Segment) : M Conn packets :=
  when (Segment_HasFlag seg FlagACK)
    (s <- sendBuf ;;
     when (Ack seg =? SendBuf_NXT s)
       (set_state StateTimeWait ;; stopRTO ;; startTimeWait now)) ;;
  queueACK ;;
  drainOutgoing.

Definition handleLastAck (seg : Segment) : M Conn packets :=
  when (Segment_HasFlag seg FlagACK)
    (s <- sendBuf ;;
     when (Ack seg =? SendBuf_NXT s)
       (set_state StateClosed ;;
        modify (fun c => c <| c_closed := true |>) ;;
        stopRTO ;; stopKeepalive ;; stopPersist ;;
        recvCond_Broadcast ;; sendCond_Broadcast)) ;;
  drainOutgoing.

(** The exemption of the first check: a SYN-ACK that retransmits the SYN
    during a simultaneous open. *)
Definition synRcvdOK (seg : Segment) : M Conn bool :=
  c <- get ;;
  if bool_decide (c_state c = StateSynReceived) && Segment_HasFlag seg FlagSYN
     && Segment_HasFlag seg FlagACK then
    s <- sendBuf ;; ret (Ack seg =? SendBuf_NXT s)
  else ret false.

(** The teardown after a valid RST. *)
Definition teardown : M Conn () :=
  set_state StateClosed ;;
  modify (fun c => c <| c_closed := true |>) ;;
  stopRTO ;; stopPersist ;; stopKeepalive ;;
  recvCond_Broadcast ;; sendCond_Broadcast ;;
  safeCloseEstablished ;; safeCloseFinRecvd.

Definition dispatch (seg : Segment) : M Conn packets :=
  c <- get ;;
  match c_state c with
  | StateSynReceived => handleSynReceived seg
  | StateEstablished | StateFinWait1 | StateFinWait2 => handleDataState seg
  | StateCloseWait => handleCloseWait seg
  | StateClosing => handleClosing seg
  | StateLastAck => handleLastAck seg
  | StateTimeWait => restartTimeWait now ;; queueACK ;; drainOutgoing
  | _ => drainOutgoing
  end.

Definition handleSynchronized (seg : Segment) : M Conn packets :=
  c <- get ;;
  proceed <- (if segmentAcceptable seg c then ret true else synRcvdOK seg) ;;
  if negb proceed then
    when (negb (Segment_HasFlag seg FlagRST)) queueACK ;;
    drainOutgoing
  else if Segment_HasFlag seg FlagRST then
    ' (accept, challenge) <- validateRST seg ;;
    if challenge then queueACK ;; drainOutgoing
    else if negb accept then drainOutgoing
    else teardown ;; drainOutgoing
  else if Segment_HasFlag seg FlagSYN && negb (bool_decide (c_state c = StateSynReceived)) then
    queueACK ;; drainOutgoing
  else if negb (Segment_HasFlag seg FlagACK) then drainOutgoing
  else dispatch seg.

Definition HandleSegment (seg : Segment) : M Conn packets :=
  modify (fun c => c <| c_lastRecv := now |> <| c_keepaliveSent := 0 |>) ;;
  c <- get ;;
  match c_state c with
  | StateClosed => handleClosed seg
  | StateSynSent => handleSynSent seg
  | StateListen => ret []
  | _ => handleSynchronized seg
  end.
End ops.
