(* ===== verification/ConnApp.v ===== *)
(** The other side of the connection (src/vtcp/conn.go): opening it, the
    callbacks of its timers, and the application's calls.  A call that blocks
    on a condition variable is modelled up to the wait: it returns a result that
    says it waits, and the waiting call resumes when it is woken. *)

From S2P Require Import Prelude SeqSpace TcpOptions Segment Rto Congestion SendBuf RecvBuf.
From S2P Require Import ConnState ConnOps.

Section app.
Context {F : Float64} (now : Z).

(** ** Opening *)

(** [Connect] up to its wait, with the random initial number [iss]; [None] is
    the error of a connection that is not closed. *)
Definition Connect_start (iss : Z) : M Conn (option packets) :=
  c <- get ;;
  if negb (bool_decide (c_state c = StateClosed)) then ret None
  else
    set_sendBuf (NewSendBuf (Conn_sendBufSize c) iss) ;;
    set_recvBuf (NewRecvBuf 0 (c_recvBufCap c)) ;;
    set_state StateSynSent ;;
    queueSYN now iss 0 FlagSYN ;;
    s <- sendBuf ;;
    set_sendBuf (SendBuf_AdvanceSent 1 s) ;;
    modify (fun c => c <| c_rto := RTO_StartTiming now iss (c_rto c) |>) ;;
    startRTO now ;;
    pkts <- drainOutgoing ;;
    ret (Some pkts).

Definition AcceptSYN (iss : Z) (syn : Segment) : M Conn packets :=
  c <- get ;;
  if negb (bool_decide (c_state c = StateClosed)) && negb (bool_decide (c_state c = StateListen))
  then ret []
  else
    negotiate_mss (Options syn) ;;
    negotiateOptions (Options syn) ;;
    c <- get ;;
    set_sendBuf (NewSendBuf (c_sendBufCap c) iss) ;;
    set_recvBuf (NewRecvBuf (wrap32 (Seq syn + 1)) (c_recvBufCap c)) ;;
    set_state StateSynReceived ;;
    r <- recvBuf ;;
    queueSYN now iss (RecvBuf_Nxt r) (Z.lor FlagSYN FlagACK) ;;
    s <- sendBuf ;;
    set_sendBuf (SendBuf_AdvanceSent 1 s) ;;
    insert_syn_data syn ;;
    startRTO now ;;
    drainOutgoing.

Definition AcceptCookie (remoteSeq ourISS mss : Z) (initialData : list byte) : M Conn packets :=
  c <- get ;;
  if negb (bool_decide (c_state c = StateClosed)) && negb (bool_decide (c_state c = StateListen))
  then ret []
  else
    when (mss <? c_mss c) (modify (fun c => c <| c_mss := mss |>)) ;;
    c <- get ;;
    set_sendBuf (SendBuf_AdvanceSent 0 (NewSendBuf (c_sendBufCap c) (wrap32 (ourISS + 1)))) ;;
    set_recvBuf (NewRecvBuf remoteSeq (c_recvBufCap c)) ;;
    set_state StateEstablished ;;
    safeCloseEstablished ;;
    when (c_keepalive c) (startKeepalive now) ;;
    when (0 <? len initialData)
      (r <- recvBuf ;;
       ' (_, r) <- lift (RecvBuf_Insert remoteSeq initialData r) ;;
       set_recvBuf r) ;;
    c <- get ;; s <- sendBuf ;; r <- recvBuf ;;
    queueSeg (conn_segment c (SendBuf_NXT s) (RecvBuf_Nxt r) FlagACK (rcvWindow c) [] []) ;;
    drainOutgoing.

Definition SetupForHandshake (iss : Z) : M Conn () :=
  c <- get ;;
  set_sendBuf (NewSendBuf (c_sendBufCap c) iss) ;;
  set_recvBuf (NewRecvBuf 0 (c_recvBufCap c)) ;;
  set_state StateSynSent ;;
  s <- sendBuf ;;
  set_sendBuf (SendBuf_AdvanceSent 1 s).

(** ** Timer callbacks *)

Definition is_closed (c : Conn) : bool := c_closed c || bool_decide (c_state c = StateClosed).

Definition onPersistTimeout : M Conn packets :=
  c <- get ;;
  if is_closed c then ret []
  else if 0 <? c_sndWnd c then stopPersist ;; flushSendQueue now ;; drainOutgoing
  else
    s <- sendBuf ;;
    when (0 <? SendBuf_Pending s)
      (data <- lift (SendBuf_PeekUnsent 1 s) ;;
       when (0 <? len data)
         (r <- recvBuf ;;
          queueSeg (conn_segment c (SendBuf_NXT s) (RecvBuf_Nxt r) FlagACK (rcvWindow c) [] data) ;;
          set_sendBuf (SendBuf_AdvanceSent (len data) s))) ;;
    modify (fun c => c <| c_persistBackoff := int64 (c_persistBackoff c * 2) |>) ;;
    modify (fun c => if MaxRTO <? c_persistBackoff c then c <| c_persistBackoff := MaxRTO |> else c) ;;
    modify (fun c => c <| c_persistTimer := Some (now + c_persistBackoff c) |>) ;;
    drainOutgoing.

(** What [onRTOTimeout] retransmits. *)
Definition rto_retransmit : M Conn () :=
  c <- get ;;
  match c_state c with
  | StateSynSent => s <- sendBuf ;; queueSYN now (SendBuf_UNA s) 0 FlagSYN
  | StateSynReceived =>
      s <- sendBuf ;; r <- recvBuf ;;
      queueSYN now (SendBuf_UNA s) (RecvBuf_Nxt r) (Z.lor FlagSYN FlagACK)
  | StateEstablished | StateCloseWait => retransmit now
  | StateFinWait1 | StateLastAck => queueFIN now
  | _ => ret ()
  end.

Definition onRTOTimeout : M Conn packets :=
  c <- get ;;
  if is_closed c then ret []
  else
    modify (fun c => c <| c_retries := c_retries c + 1 |>) ;;
    c <- get ;;
    if MaxRetries <? c_retries c then
      set_state StateClosed ;;
      modify (fun c => c <| c_closed := true |>) ;;
      stopRTO ;; stopKeepalive ;; stopPersist ;;
      recvCond_Broadcast ;; sendCond_Broadcast ;; safeCloseEstablished ;;
      ret []
    else
      modify (fun c => c <| c_rto := RTO_InvalidateTiming (RTO_Backoff (c_rto c)) |>) ;;
      cc <- lift (OnTimeout (c_cc c)) ;;
      set_cc cc ;;
      rto_retransmit ;;
      startRTO now ;;
      drainOutgoing.

Definition onTimeWaitExpired : M Conn () :=
  set_state StateClosed ;;
  modify (fun c => c <| c_closed := true |> <| c_timeWaitTimer := None |>) ;;
  recvCond_Broadcast ;; sendCond_Broadcast.

Definition onKeepalive : M Conn packets :=
  c <- get ;;
  if is_closed c then ret []
  else if negb (bool_decide (c_state c = StateEstablished)) &&
          negb (bool_decide (c_state c = StateCloseWait)) then ret []
  else
    let idle := c_keepaliveIdle c <? now - c_lastRecv c in
    if idle && (c_keepaliveMax c <=? c_keepaliveSent c) then
      set_state StateClosed ;;
      modify (fun c => c <| c_closed := true |>) ;;
      stopRTO ;;
      recvCond_Broadcast ;; sendCond_Broadcast ;; safeCloseEstablished ;; safeCloseFinRecvd ;;
      ret []
    else
      when idle
        (s <- sendBuf ;; r <- recvBuf ;;
         queueSeg (addOptions now c
           (conn_segment c (wrap32 (SendBuf_NXT s - 1)) (RecvBuf_Nxt r) FlagACK (rcvWindow c) [] [])) ;;
         modify (fun c => c <| c_keepaliveSent := c_keepaliveSent c + 1 |>)) ;;
      c <- get ;;
      (if 0 <? c_keepaliveSent c then
         stopKeepalive ;; stopPersist ;;
         modify (fun c => c <| c_keepaliveTimer := Some (now + c_keepaliveIntv c) |>)
       else startKeepalive now) ;;
      drainOutgoing.

(** ** The application's calls *)

Inductive ReadResult :=
  | ReadData (data : list byte)
  | ReadEOF
  | ReadTimeout
  | ReadWait (deadline : option Z).

(** One turn of [Read]'s loop, with a slice of [n] bytes. *)
Definition Conn_Read (n : Z) : M Conn ReadResult :=
  c <- get ;;
  let data := match c_recvBuf c with
              | Some r => if RecvBuf_Readable r =? 0 then None else Some r
              | None => None
              end in
  match data with
  | Some r =>
      let '(out, r) := RecvBuf_Read n r in
      set_recvBuf r ;; ret (ReadData out)
  | None =>
      if c_closed c then ret ReadEOF
      else if c_finRecvd c then ret ReadEOF
      else
        match c_readDeadline c with
        | Some dl => if dl <? now then ret ReadTimeout else ret (ReadWait (Some dl))
        | None => ret (ReadWait None)
        end
  end.

Inductive WriteResult :=
  | WriteDone (written : Z)
  | WriteClosed (written : Z)
  | WriteNotEstablished
  | WriteTimeout (written : Z)
  | WriteWait (written : Z) (deadline : option Z).

(** [Write]'s loop from [written]: it stops when everything is buffered, when
    the deadline has passed, or to wait for room. *)
Fixpoint write_loop (fuel : nat) (b : list byte) (written : Z) : M Conn WriteResult :=
  match fuel with
  | O => panic
  | S fuel =>
      if negb (written <? len b) then ret (WriteDone written)
      else
        s <- sendBuf ;;
        let '(n, s) := SendBuf_Write (dropZ written b) s in
        set_sendBuf s ;;
        if n =? 0 then
          c <- get ;;
          match c_writeDeadline c with
          | Some dl => ret (if dl <? now then WriteTimeout written else WriteWait written (Some dl))
          | None => ret (WriteWait written None)
          end
        else write_loop fuel b (written + n)
  end.

(** The rest of [Write] from a given count, with the packets it sends. *)
Definition write_from (b : list byte) (written : Z) : M Conn (WriteResult * packets) :=
  res <- write_loop (S (length b)) b written ;;
  match res with
  | WriteDone _ =>
      flushSendQueue now ;;
      pkts <- drainOutgoing ;;
      ret (res, pkts)
  | _ => ret (res, [])
  end.

Definition Conn_Write (b : list byte) : M Conn (WriteResult * packets) :=
  c <- get ;;
  if c_closed c then ret (WriteClosed 0, [])
  else if negb (bool_decide (c_state c = StateEstablished)) &&
          negb (bool_decide (c_state c = StateCloseWait))
  then ret (WriteNotEstablished, [])
  else write_from b 0.

(** A waiting [Write] that has been woken. *)
Definition Conn_Write_resume (b : list byte) (written : Z) : M Conn (WriteResult * packets) :=
  c <- get ;;
  if c_closed c then ret (WriteClosed written, []) else write_from b written.

(** [true] is success, [false] the error of a connection already closing. *)
Definition Conn_Close : M Conn (bool * packets) :=
  c <- get ;;
  if c_closed c then ret (true, [])
  else
    let finish (m : M Conn packets) : M Conn (bool * packets) :=
      pkts <- m ;; recvCond_Broadcast ;; sendCond_Broadcast ;; ret (true, pkts) in
    match c_state c with
    | StateEstablished =>
        finish (flushSendQueue now ;; set_state StateFinWait1 ;; queueFIN now ;; startRTO now ;;
                drainOutgoing)
    | StateCloseWait =>
        finish (set_state StateLastAck ;; queueFIN now ;; startRTO now ;; drainOutgoing)
    | StateSynSent =>
        finish (set_state StateClosed ;; modify (fun c => c <| c_closed := true |>) ;;
                stopRTO ;; stopKeepalive ;; stopPersist ;; ret [])
    | StateSynReceived =>
        finish (set_state StateFinWait1 ;; queueFIN now ;; startRTO now ;; drainOutgoing)
    | StateFinWait1 | StateFinWait2 => ret (false, [])
    | _ =>
        finish (modify (fun c => c <| c_closed := true |>) ;; set_state StateClosed ;;
                stopRTO ;; stopKeepalive ;; stopPersist ;; ret [])
    end.

Definition Conn_Abort : M Conn packets :=
  c <- get ;;
  if bool_decide (c_state c = StateClosed) then ret []
  else
    let wasEstablished := negb (bool_decide (c_state c = StateSynSent)) in
    set_state StateClosed ;;
    modify (fun c => c <| c_closed := true |>) ;;
    stopRTO ;; stopKeepalive ;; stopPersist ;;
    pkts <- (match c_sendBuf c, c_recvBuf c with
             | Some s, Some _ =>
                 if wasEstablished then queueRST (SendBuf_NXT s) ;; drainOutgoing else ret []
             | _, _ => ret []
             end) ;;
    recvCond_Broadcast ;; sendCond_Broadcast ;; safeCloseEstablished ;; safeCloseFinRecvd ;;
    ret pkts.

(** The [select] at the end of [Connect]: which case was ready. *)
Inductive connect_select := SelEstablished | SelCtxDone.

(** [true] is a nil error; the packets [Abort] returns are dropped. *)
Definition Connect_finish (sel : connect_select) : M Conn bool :=
  match sel with
  | SelEstablished => ret true
  | SelCtxDone => Conn_Abort ;; ret false
  end.

Definition select_ready (c : Conn) (ctx_done : bool) (sel : connect_select) : bool :=
  match sel with SelEstablished => c_established c | SelCtxDone => ctx_done end.

(** ** Deadlines *)

(** The zero time is no deadline. *)
Definition SetDeadline (t : option Z) : M Conn () :=
  modify (fun c => c <| c_readDeadline := t |> <| c_writeDeadline := t |>) ;; recvCond_Broadcast.
Definition SetReadDeadline (t : option Z) : M Conn () :=
  modify (fun c => c <| c_readDeadline := t |>) ;; recvCond_Broadcast.
Definition SetWriteDeadline (t : option Z) : M Conn () :=
  modify (fun c => c <| c_writeDeadline := t |>) ;; sendCond_Broadcast.
End app.
