(* ===== verification/ConnInv.v ===== *)
(** The connection's invariant, and that every handler, timer callback and
    application call preserves it without panicking, whatever segment the peer
    sends and whenever a timer fires. *)

From S2P Require Import Prelude SeqSpace TcpOptions Segment Rto Congestion SendBuf RecvBuf.
From S2P Require Import ConnState ConnOps ConnApp.

(** ** What the buffers promise to any connection *)

(** The send buffer, without a bound on what is in flight: a retransmitted FIN
    moves SND.NXT past the buffered bytes. *)
Definition sb_safe (s : SendBuf) : Prop :=
  is_u32 (sb_una s) /\ is_u32 (sb_nxt s) /\
  0 < sb_cap s < 2 ^ 30 /\ len (sb_buf s) <= sb_cap s /\
  sacked_ok (sb_una s) (sb_sacked s).

Section sb_safe.
Context (s : SendBuf) (Hs : sb_safe s).

Lemma Write_safe p : sb_safe (SendBuf_Write p s).2.
Proof using Hs.
  destruct Hs as (H1 & H2 & H3 & H4 & H5). unfold SendBuf_Write.
  destruct (Z.leb_spec (sb_cap s - len (sb_buf s)) 0); [done|].
  set (n := if _ <? _ then _ else _).
  assert (0 <= n <= len p /\ n <= sb_cap s - len (sb_buf s)).
  { unfold n. destruct (Z.ltb_spec (sb_cap s - len (sb_buf s)) (len p)); lia. }
  pose proof (length_takeZ n p). unfold sb_safe in *.
  cbn [sb_una sb_nxt sb_cap sb_buf sb_sacked snd set_field].
  rewrite length_app. split_and!; try done; lia.
Qed.

Lemma AdvanceSent_safe n : sb_safe (SendBuf_AdvanceSent n s).
Proof using Hs.
  destruct Hs as (H1 & H2 & H3 & H4 & H5).
  unfold sb_safe, SendBuf_AdvanceSent in *. cbn [sb_una sb_nxt sb_cap sb_buf sb_sacked set_field].
  split_and!; try done; mlia.
Qed.

Lemma MarkSACKed_safe blocks : Forall block_u32 blocks -> sb_safe (SendBuf_MarkSACKed blocks s).
Proof using Hs.
  destruct Hs as (H1 & H2 & H3 & H4 & H5). intros Hb. unfold SendBuf_MarkSACKed. case_match; [done|].
  unfold sb_safe; cbn [sb_una sb_nxt sb_cap sb_buf sb_sacked set_field].
  split_and!; try done; try lia. apply sacked_ok_filter; naive_solver.
Qed.

Lemma Acknowledge_safe ack :
  is_u32 ack -> sb_safe (SendBuf_Acknowledge ack s).2 /\ 0 <= (SendBuf_Acknowledge ack s).1.
Proof using Hs.
  intros Ha. pose proof Hs as (H1 & H2 & H3 & H4 & H5). unfold SendBuf_Acknowledge.
  destruct (SeqAfter ack (sb_una s)); cbn [negb]; [|by split].
  set (a := if SeqAfter ack (sb_nxt s) then sb_nxt s else ack).
  assert (is_u32 a) by (unfold a; by case_match).
  set (n := if len (sb_buf s) <? wrap32 (a - sb_una s) then _ else _).
  assert (0 <= n) by (unfold n; case_match; mlia).
  split; [|done]. unfold sb_safe, SendBuf_pruneSACK.
  cbn [snd sb_una sb_nxt sb_cap sb_buf sb_sacked set_field].
  unfold dropZ. rewrite length_drop. split_and!; try done; try lia.
  apply sacked_ok_filter; [by eapply sacked_ok_u32|done].
Qed.

Lemma RetransmitData_safe n :
  0 <= n -> exists d, SendBuf_RetransmitData n s = Ok d /\ len d <= n.
Proof using Hs.
  intros Hn. destruct Hs as (H1 & H2 & H3 & H4 & H5).
  assert (forall l : list byte, exists d, cut n l = Ok d /\ len d <= n) as Hcut.
  { intros l. rewrite cut_takeZ by done. eexists; split; [done|].
    unfold takeZ. rewrite length_take. lia. }
  unfold SendBuf_RetransmitData. case_match; [apply Hcut|].
  destruct (skip_sacked_terminates (sb_una s) (sb_sacked s) H5 H1 (S (length (sb_sacked s))) 0)
    as (o & Eo & _); [lia| |].
  { unfold ahead. apply Nat.lt_succ_r, length_filter. }
  assert (sb_una s = seq_at (sb_una s) 0) as E0 by (unfold seq_at; mlia).
  rewrite <- E0 in Eo. rewrite Eo.
  repeat case_match; try apply Hcut; by exists [].
Qed.

(** With bytes pending, the in-flight count is that of buffered bytes. *)
Lemma Pending_Unacked : 0 < SendBuf_Pending s ->
  0 <= SendBuf_Unacked s < len (sb_buf s) /\ SendBuf_Pending s = len (sb_buf s) - SendBuf_Unacked s.
Proof using. unfold SendBuf_Pending, SendBuf_Unacked. mlia. Qed.

Lemma PeekUnsent_safe n :
  0 < SendBuf_Pending s -> 0 <= n <= SendBuf_Pending s ->
  exists d, SendBuf_PeekUnsent n s = Ok d /\ len d = n /\
    d = slice (sb_buf s) (SendBuf_Unacked s) (SendBuf_Unacked s + n).
Proof using.
  intros Hp Hn. pose proof (Pending_Unacked Hp) as [Hu HP].
  unfold SendBuf_PeekUnsent. fold (SendBuf_Unacked s).
  replace (_ <? _) with false by lia. rewrite length_dropZ by lia. unfold slice.
  replace (SendBuf_Unacked s + n - SendBuf_Unacked s) with n by lia.
  fold (dropZ (SendBuf_Unacked s) (sb_buf s)). fold (takeZ n (dropZ (SendBuf_Unacked s) (sb_buf s))).
  assert (len (takeZ n (dropZ (SendBuf_Unacked s) (sb_buf s))) = n) as El.
  { rewrite length_takeZ; rewrite ?length_dropZ; lia. }
  destruct (Z.ltb_spec n (len (sb_buf s) - SendBuf_Unacked s)).
  - replace (n <? 0) with false by lia. eauto.
  - eexists; split; [done|]. rewrite length_dropZ by lia. split; [lia|].
    unfold takeZ. rewrite take_ge; [done|].
    pose proof (length_dropZ (SendBuf_Unacked s) (sb_buf s)). lia.
Qed.

Lemma Pending_AdvanceSent n :
  0 < SendBuf_Pending s -> 0 <= n <= SendBuf_Pending s ->
  SendBuf_Pending (SendBuf_AdvanceSent n s) = SendBuf_Pending s - n /\
  SendBuf_Unacked (SendBuf_AdvanceSent n s) = SendBuf_Unacked s + n.
Proof using Hs.
  destruct Hs as (H1 & H2 & H3 & H4 & _). unfold SendBuf_Pending, SendBuf_Unacked, SendBuf_AdvanceSent.
  cbn [sb_una sb_nxt sb_buf set_field]. intros Hp Hn. rewrite wrap32_sub_l.
  assert (wrap32 (sb_nxt s + n - sb_una s) = wrap32 (sb_nxt s - sb_una s) + n) by mlia. lia.
Qed.
End sb_safe.

Lemma NewSendBuf_safe cap iss : 0 < cap < 2 ^ 30 -> is_u32 iss -> sb_safe (NewSendBuf cap iss).
Proof. intros. unfold sb_safe. cbn. split_and!; try (done || lia). constructor. Qed.

(** The receive buffer while data may still arrive: some positions explain it. *)
Definition rb_data (W : Z) (r : RecvBuf) : Prop :=
  exists base p, recv_rel any_content base W r p.

Lemma NewRecvBuf_data W nxt : is_u32 nxt -> 0 < W <= 2 ^ 30 -> rb_data W (NewRecvBuf nxt W).
Proof. intros. exists nxt, (mkRecvSpec 0 0 []). by apply NewRecvBuf_rel; [apply _|..]. Qed.

Lemma rb_data_nxt W r : rb_data W r -> is_u32 (rb_nxt r) /\ rb_windowSize r = W.
Proof. intros (b & p & _ & HW & _ & -> & _). split; [apply seq_at_range|done]. Qed.

(** Any segment no longer than the window, at any number, from any peer. *)
Lemma Insert_data W r seq d :
  rb_data W r -> is_u32 seq -> len d <= W ->
  exists n r', RecvBuf_Insert seq d r = Ok (n, r') /\ rb_data W r' /\ 0 <= n.
Proof.
  intros (base & p & Hrel) Hseq Hd. pose proof Hrel as (HW & _ & _ & En & _).
  pose proof (int32_range (wrap32 (seq - rb_nxt r))) as Hr.
  remember (rs_nxt p + int32 (wrap32 (seq - rb_nxt r))) as o eqn:Eo.
  assert (seq = seq_at base o) as ->.
  { rewrite (seq_as_offset (rb_nxt r) seq Hseq) at 1. rewrite En at 1. rewrite Eo.
    unfold seq_at. rewrite wrap32_wrap32_add. f_equal. lia. }
  pose proof (insert_refines any_content base W r p Hrel o d ltac:(unfold in_reach; lia) I) as Hi.
  destruct (spec_insert W o (len d) p) as [n p'] eqn:E. destruct Hi as (r' & Hr' & Hrel').
  exists n, r'. split; [done|]. split; [by exists base, p'|].
  unfold spec_insert in E. repeat case_match; simplify_eq; lia.
Qed.

Lemma GetSACKBlocks_u32 opts : Forall block_u32 (GetSACKBlocks opts).
Proof.
  induction opts as [|o opts IH]; simpl; [constructor|]. case_decide; [|done].
  apply Forall_fmap, Forall_forall. intros i _. unfold block_u32, sack_block_at; simpl.
  assert (forall l : list byte, is_u32 (be_get (take 4 l))) as Hb.
  { intros l. pose proof (be_get_range (take 4 l)) as Hr.
    assert (2 ^ (8 * len (take 4 l)) <= 2 ^ 32).
    { apply Z.pow_le_mono_r; [lia|]. rewrite length_take. lia. }
    unfold is_u32. lia. }
  split; apply Hb.
Qed.

(** ** The invariant *)

Definition open_state (st : State) : Prop := st <> StateClosed /\ st <> StateListen.

(** The states in which data segments are still inserted. *)
Definition data_state (st : State) : Prop :=
  match st with
  | StateSynReceived | StateEstablished | StateFinWait1 | StateFinWait2 => True
  | _ => False
  end.

(** A packet that is a well-formed segment between the given ports. *)
Definition packet_ok (lp rp : Z) (p : list byte) : Prop :=
  exists seg, segment_wf seg /\ SrcPort seg = lp /\ DstPort seg = rp /\ p = Segment_Marshal seg.

Section inv.
Context {F : Float64}.

Record conn_inv (c : Conn) : Prop := {
  ci_ports : is_u16 (c_localPort c) /\ is_u16 (c_remotePort c);
  ci_mss : 0 < c_mss c < 2 ^ 30;
  ci_recvBufCap : 2 ^ 16 <= c_recvBufCap c <= 2 ^ 30;
  ci_sendBufCap : 0 < c_sendBufCap c < 2 ^ 30;
  ci_cc : cc_inv (c_cc c);
  ci_rto : rto_bounded (c_rto c);
  ci_sndWnd : is_u32 (c_sndWnd c);
  ci_backoff : 0 <= c_persistBackoff c <= MaxRTO;
  ci_sendBuf : forall s, c_sendBuf c = Some s -> sb_safe s;
  ci_recvBuf : forall r, c_recvBuf c = Some r ->
    is_u32 (rb_nxt r) /\ rb_windowSize r = c_recvBufCap c;
  ci_open : open_state (c_state c) -> is_Some (c_sendBuf c) /\ is_Some (c_recvBuf c);
  ci_data : data_state (c_state c) ->
    forall r, c_recvBuf c = Some r -> rb_data (c_recvBufCap c) r;
  ci_outgoing : Forall (packet_ok (c_localPort c) (c_remotePort c)) (c_outgoing c);
}.

(** What the sending functions leave alone. *)
Record send_frame (c c' : Conn) : Prop := {
  sf_state : c_state c' = c_state c;
  sf_recvBuf : c_recvBuf c' = c_recvBuf c;
  sf_closed : c_closed c' = c_closed c;
  sf_mss : c_mss c' = c_mss c;
  sf_sndWnd : c_sndWnd c' = c_sndWnd c;
  sf_recvBufCap : c_recvBufCap c' = c_recvBufCap c;
  sf_established : c_established c' = c_established c;
  sf_finRecvd : c_finRecvd c' = c_finRecvd c;
  sf_recvCond : c_recvCond c' = c_recvCond c;
  sf_finPending : c_finPending c' = c_finPending c;
}.

#[global] Instance send_frame_preorder : PreOrder send_frame.
Proof. split; [done|]. intros a b c [] []. split; congruence. Qed.
End inv.

Ltac conn_cbn :=
  cbn [set_field c_localPort c_remotePort c_state c_sendBuf c_sndWnd c_mss c_recvBuf c_recvCond
    c_recvBufCap c_cc c_rto c_rtoTimer c_retries c_sndWndShift c_rcvWndShift c_wscaleOK
    c_tsEnabled c_tsOK c_tsRecent c_tsOffset c_sackEnabled c_sackOK c_finPending
    c_pendingFinSeq c_sendBufCap c_ccName c_persistTimer c_persistBackoff c_timeWaitTimer
    c_keepalive c_keepaliveIdle c_keepaliveIntv c_keepaliveMax c_keepaliveSent c_lastRecv
    c_keepaliveTimer c_outgoing c_closed c_established c_finRecvd c_readDeadline
    c_writeDeadline c_sendCond].

(** Re-establishes the invariant after an update of one or more fields. *)
Ltac inv_update :=
  match goal with
  | H : conn_inv ?c |- conn_inv _ =>
      pose proof H as []; split; conn_cbn; try done; try congruence
  | |- send_frame _ _ => split; conn_cbn; try done; try congruence
  end.

(** Steps through the code as far as the rules decide. *)
Ltac wp_step :=
  lazymatch goal with
  | |- wp (bind _ _) _ _ => apply wp_bind
  | |- wp (ret _) _ _ => apply wp_ret
  | |- wp get _ _ => apply wp_get
  | |- wp (gets _) _ _ => apply wp_gets
  | |- wp (modify _) _ _ => apply wp_modify
  | |- wp (when _ _) _ _ => apply wp_when; let Hw := fresh "Hw" in intros Hw
  end.
Ltac wp_steps := repeat (wp_step; cbv beta).
(** Steps over one read of the state. *)
Ltac wp_read := apply wp_bind, wp_get; cbv beta.
(** Applies the specification of a called function. *)
Tactic Notation "wp_call" uconstr(H) := eapply wp_mono; [eapply H|cbv beta].

Section inv_lemmas.
Context {F : Float64} (now : Z).
Implicit Types (c : Conn).

Lemma wp_sendBuf Q c s : c_sendBuf c = Some s -> Q s c -> wp sendBuf Q c.
Proof. apply wp_deref. Qed.

Lemma wp_recvBuf Q c r : c_recvBuf c = Some r -> Q r c -> wp recvBuf Q c.
Proof. apply wp_deref. Qed.

(** The two buffers of an open connection. *)
Lemma inv_buffers c : conn_inv c -> open_state (c_state c) ->
  exists s r, c_sendBuf c = Some s /\ c_recvBuf c = Some r /\ sb_safe s /\
    is_u32 (rb_nxt r) /\ rb_windowSize r = c_recvBufCap c.
Proof.
  intros H Ho. destruct (ci_open c H Ho) as [[s Es] [r Er]].
  exists s, r. destruct (ci_recvBuf c H r Er). split_and!; try done. by apply (ci_sendBuf c H).
Qed.

Lemma queueSeg_inv seg c :
  conn_inv c -> segment_wf seg -> SrcPort seg = c_localPort c -> DstPort seg = c_remotePort c ->
  wp (queueSeg seg) (fun _ c' => conn_inv c' /\ send_frame c c' /\ c_sendBuf c' = c_sendBuf c /\
    c_cc c' = c_cc c /\ c_outgoing c' = c_outgoing c ++ [Segment_Marshal seg]) c.
Proof.
  intros H Hw Hs Hd. unfold queueSeg. wp_steps. split_and!; [|inv_update|done..].
  inv_update. apply Forall_app. split; [done|]. repeat constructor. by exists seg.
Qed.

Lemma drainOutgoing_inv c :
  conn_inv c ->
  wp drainOutgoing (fun pkts c' => conn_inv c' /\ send_frame c c' /\ c_outgoing c' = [] /\
    c_sendBuf c' = c_sendBuf c /\ c_localPort c' = c_localPort c /\ c_remotePort c' = c_remotePort c /\
    Forall (packet_ok (c_localPort c) (c_remotePort c)) pkts) c.
Proof.
  intros H. unfold drainOutgoing. wp_steps. split_and!; try done; [inv_update|].
  apply ci_outgoing, H.
Qed.

Lemma startRTO_inv c :
  conn_inv c -> wp (startRTO now) (fun _ c' => conn_inv c' /\ send_frame c c' /\
    c_sendBuf c' = c_sendBuf c /\ c_cc c' = c_cc c /\ c_outgoing c' = c_outgoing c) c.
Proof. intros H. unfold startRTO, stopRTO. wp_steps. split_and!; [inv_update|inv_update|done..]. Qed.

(** *** Well-formed segments *)

Lemma rcvWindow_u16 c : is_u16 (rcvWindow c).
Proof. apply wrap16_range. Qed.

Lemma conn_segment_wf c seq ack flags window opts payload :
  conn_inv c -> is_u32 seq -> is_u32 ack -> is_u8 flags -> is_u16 window ->
  Forall option_wf opts -> options_size opts <= 40 ->
  segment_wf (conn_segment c seq ack flags window opts payload).
Proof.
  intros H. destruct (ci_ports c H). unfold segment_wf, conn_segment.
  cbn [SrcPort DstPort Seq Ack Flags Window Urgent Options]. intros. split_and!; done.
Qed.

Lemma options_size_app a b : options_size (a ++ b) = options_size a + options_size b.
Proof. induction a; simpl; [done|]. rewrite IHa. lia. Qed.

Lemma addOptions_wf c seq ack flags window payload :
  conn_inv c -> is_u32 seq -> is_u32 ack -> is_u8 flags -> is_u16 window ->
  segment_wf (addOptions now c (conn_segment c seq ack flags window [] payload)).
Proof.
  intros H Hs Ha Hf Hw.
  set (ts := if c_tsOK c then [TimestampOption (tsNow now c) (c_tsRecent c)] else []).
  set (sk := match c_recvBuf c with
             | Some r => if c_sackOK c && RecvBuf_HasOOO r
                         then [SACKOption (RecvBuf_SACKBlocks r)] else []
             | None => []
             end).
  assert (addOptions now c (conn_segment c seq ack flags window [] payload)
          = conn_segment c seq ack flags window (ts ++ sk) payload) as ->.
  { unfold addOptions, ts, sk. destruct (c_tsOK c), (c_recvBuf c); try case_match; done. }
  assert (Forall option_wf ts /\ options_size ts <= 10) as [Ht1 Ht2].
  { unfold ts. case_match; [|done]. split; [repeat constructor; apply TimestampOption_wf|].
    done. }
  assert (Forall option_wf sk /\ options_size sk <= 26) as [Hk1 Hk2].
  { unfold sk. destruct (c_recvBuf c) as [r|]; [|done]. case_match; [|done].
    assert (length (RecvBuf_SACKBlocks r) <= 3)%nat.
    { unfold RecvBuf_SACKBlocks. rewrite length_fmap, length_take. lia. }
    split.
    - repeat constructor; apply SACKOption_wf; lia.
    - unfold options_size. cbn [foldr]. unfold option_size.
      rewrite decide_False by done. rewrite length_SACK_data. lia. }
  apply conn_segment_wf; try done; [by apply Forall_app|]. rewrite options_size_app. lia.
Qed.

Lemma buildSYNOptions_wf c :
  Forall option_wf (buildSYNOptions now c) /\ options_size (buildSYNOptions now c) <= 40.
Proof.
  unfold buildSYNOptions. split.
  - repeat apply Forall_app_2; repeat case_match; repeat constructor; eauto with vtcp;
      (apply MSSOption_wf || apply WScaleOption_wf || apply SACKPermOption_wf
       || apply TimestampOption_wf).
  - destruct (c_sackEnabled c), (c_tsEnabled c); done.
Qed.

(** *** The sending functions *)

Abbreviation sends m c := (wp m (fun _ c' => conn_inv c' /\ send_frame c c') c).

Lemma queue_inv c seq ack flags payload :
  conn_inv c -> is_u32 seq -> is_u32 ack -> is_u8 flags ->
  let seg := addOptions now c (conn_segment c seq ack flags (rcvWindow c) [] payload) in
  wp (queueSeg seg)
    (fun _ c' => conn_inv c' /\ send_frame c c' /\ c_sendBuf c' = c_sendBuf c /\
      c_cc c' = c_cc c /\ c_outgoing c' = c_outgoing c ++ [Segment_Marshal seg]) c.
Proof.
  intros H Hs Ha Hf. apply queueSeg_inv; try done.
  - apply addOptions_wf; try done. apply rcvWindow_u16.
  - unfold addOptions. repeat case_match; done.
  - unfold addOptions. repeat case_match; done.
Qed.

Lemma queueACK_inv c :
  conn_inv c -> open_state (c_state c) ->
  wp (queueACK now) (fun _ c' => conn_inv c' /\ send_frame c c' /\ c_sendBuf c' = c_sendBuf c) c.
Proof.
  intros H Ho. destruct (inv_buffers c H Ho) as (s & r & Es & Er & (_ & Hn & _) & Hr & _).
  unfold queueACK. wp_steps. apply (wp_sendBuf _ _ s Es). wp_steps. apply (wp_recvBuf _ _ r Er).
  wp_call queue_inv; try done. naive_solver.
Qed.

Lemma set_sendBuf_inv s c :
  conn_inv c -> sb_safe s ->
  wp (set_sendBuf s) (fun _ c' => conn_inv c' /\ send_frame c c' /\ c_sendBuf c' = Some s /\
    c_cc c' = c_cc c /\ c_outgoing c' = c_outgoing c) c.
Proof.
  intros H Hs. unfold set_sendBuf. wp_steps. split_and!; [|inv_update|done..].
  inv_update; naive_solver.
Qed.

Lemma queueFIN_inv c : conn_inv c -> open_state (c_state c) -> sends (queueFIN now) c.
Proof.
  intros H Ho. destruct (inv_buffers c H Ho) as (s & r & Es & Er & Hs & Hr & _).
  unfold queueFIN. wp_steps. apply (wp_sendBuf _ _ s Es). wp_steps. apply (wp_recvBuf _ _ r Er).
  wp_steps. wp_call queue_inv; try done; [apply Hs|]. intros _ c1 (H1 & F1 & _).
  wp_call set_sendBuf_inv; [done|by apply AdvanceSent_safe|]. intros _ c2 (H2 & F2 & _).
  split; [done|]. by etransitivity.
Qed.

Lemma queueRST_inv c seq : conn_inv c -> is_u32 seq -> sends (queueRST seq) c.
Proof.
  intros H Hs. unfold queueRST. wp_steps. wp_call queueSeg_inv; try done.
  - by apply conn_segment_wf.
  - naive_solver.
Qed.

Lemma queueSYN_inv c seq ack flags :
  conn_inv c -> is_u32 seq -> is_u32 ack -> is_u8 flags ->
  wp (queueSYN now seq ack flags)
    (fun _ c' => conn_inv c' /\ send_frame c c' /\ c_sendBuf c' = c_sendBuf c) c.
Proof.
  intros H Hs Ha Hf. unfold queueSYN. wp_steps. wp_call queueSeg_inv; try done.
  - destruct (buildSYNOptions_wf c). apply conn_segment_wf; try done. apply rcvWindow_u16.
  - naive_solver.
Qed.

Lemma set_rto_inv f c :
  conn_inv c -> rto_bounded (f (c_rto c)) ->
  wp (modify (fun c => c <| c_rto := f (c_rto c) |>))
    (fun _ c' => conn_inv c' /\ send_frame c c' /\ c_sendBuf c' = c_sendBuf c /\
      c_cc c' = c_cc c /\ c_outgoing c' = c_outgoing c) c.
Proof. intros H Hr. wp_steps. split_and!; [inv_update|inv_update|done..]. Qed.

Lemma retransmit_inv c : conn_inv c -> open_state (c_state c) -> sends (retransmit now) c.
Proof.
  intros H Ho. destruct (inv_buffers c H Ho) as (s & r & Es & Er & Hs & Hr & _).
  unfold retransmit. wp_steps. apply (wp_sendBuf _ _ s Es). wp_steps.
  destruct (RetransmitData_safe s Hs (c_mss c)) as (d & Ed & _); [pose proof (ci_mss c H); lia|].
  apply (wp_lift _ d); [done|]. case_match; wp_steps; [by split|].
  apply (wp_recvBuf _ _ r Er). wp_steps. wp_call queue_inv; try done; [apply Hs|].
  intros _ c1 (H1 & F1 & _). apply wp_bind.
  wp_call (set_rto_inv RTO_InvalidateTiming); [done|apply (rto_step_bounded _ OpInvalidate), ci_rto, H1|].
  intros _ c2 (H2 & F2 & _). wp_call startRTO_inv; [done|]. intros _ c3 (H3 & F3 & _).
  split; [done|]. by repeat (etransitivity; [eassumption|]).
Qed.

(** *** The sending loop *)

(** Segments that carry the buffered bytes from distance [u] to [u'] past
    SND.UNA, in order, none empty and none larger than [mss]. *)
Inductive data_segments (una : Z) (buf : list byte) (mss : Z) : Z -> list Segment -> Z -> Prop :=
  | ds_nil u : data_segments una buf mss u [] u
  | ds_cons u n seg segs u' :
      Seq seg = seq_at una u -> Payload seg = slice buf u (u + n) ->
      0 < n <= mss -> u + n <= len buf ->
      data_segments una buf mss (u + n) segs u' ->
      data_segments una buf mss u (seg :: segs) u'.

Definition eff_window (c : Conn) : Z := Z.min (c_sndWnd c) (SendWindow (c_cc c)).

(** How far past SND.UNA the loop gets from [u], with a window [w] and [total]
    bytes in the buffer: all that the window admits, in full segments, but for a
    shorter one when nothing is in flight. *)
Definition flush_target (w total mss u : Z) : Z :=
  let limit := Z.min w total in
  if limit <=? u then u
  else if (u =? 0) && (limit <? mss) then limit
  else u + mss * ((limit - u) / mss).

(** What a run of the sending loop does: it appends data segments to the
    queue and advances SND.NXT over them, within the effective window and up to
    the target. *)
Definition flush_post (c c' : Conn) (s s' : SendBuf) : Prop :=
  c_sendBuf c' = Some s' /\ sb_buf s' = sb_buf s /\ sb_una s' = sb_una s /\ sb_cap s' = sb_cap s /\
  c_cc c' = c_cc c /\
  exists segs, c_outgoing c' = c_outgoing c ++ (Segment_Marshal <$> segs) /\
    data_segments (sb_una s) (sb_buf s) (c_mss c) (SendBuf_Unacked s) segs (SendBuf_Unacked s') /\
    SendBuf_Unacked s <= SendBuf_Unacked s' <= Z.max (SendBuf_Unacked s) (eff_window c) /\
    SendBuf_Unacked s' = flush_target (eff_window c) (len (sb_buf s)) (c_mss c) (SendBuf_Unacked s).

Lemma flush_target_stop w total mss u :
  Z.min w total <= u \/ (0 < u /\ Z.min w total - u < mss) -> flush_target w total mss u = u.
Proof.
  intros H. unfold flush_target. destruct (Z.leb_spec (Z.min w total) u); [done|].
  destruct H as [|[H1 H2]]; [lia|]. replace (u =? 0) with false by lia. cbn [andb].
  rewrite Z.div_small by lia. lia.
Qed.

Lemma flush_target_step w total mss u n :
  0 <= u < Z.min w total -> n = Z.min mss (Z.min w total - u) -> 0 < mss -> n = mss \/ u = 0 ->
  flush_target w total mss (u + n) = flush_target w total mss u.
Proof.
  intros Hu En Hm [H| ->]; unfold flush_target.
  - rewrite H in *. replace (Z.min w total <=? u) with false by lia.
    replace ((u =? 0) && (Z.min w total <? mss)) with false by lia.
    assert (Z.min w total - u = (Z.min w total - (u + mss)) + 1 * mss) as -> by lia.
    rewrite Z.div_add by lia. destruct (Z.leb_spec (Z.min w total) (u + mss)).
    + replace (Z.min w total - (u + mss)) with 0 by lia. rewrite Z.div_0_l by lia. lia.
    + replace (u + mss =? 0) with false by lia. cbn [andb]. lia.
  - rewrite Z.add_0_l. replace (Z.min w total <=? 0) with false by lia. cbn [Z.eqb andb].
    destruct (Z.ltb_spec (Z.min w total) mss).
    + by replace (Z.min w total <=? n) with true by lia; lia.
    + rewrite Z.sub_0_r. replace n with mss by lia. destruct (Z.leb_spec (Z.min w total) mss).
      * replace (Z.min w total) with mss by lia. rewrite Z.div_same by lia. lia.
      * replace (mss =? 0) with false by lia. cbn [andb].
        assert (Z.min w total = (Z.min w total - mss) + 1 * mss) as E by lia.
        rewrite E at 2. rewrite Z.div_add by lia. lia.
Qed.

Lemma next_send_window c :
  (if SendWindow (c_cc c) <? c_sndWnd c then SendWindow (c_cc c) else c_sndWnd c) = eff_window c.
Proof. unfold eff_window. destruct (Z.ltb_spec (SendWindow (c_cc c)) (c_sndWnd c)); lia. Qed.

Lemma SendBuf_Pending_Unacked s : SendBuf_Pending s = len (sb_buf s) - SendBuf_Unacked s.
Proof. done. Qed.

(** Where the loop stops there is nothing more to send; where it goes on the
    target is the same from there. *)
Lemma next_send_size_target c s :
  0 < c_mss c -> 0 < SendBuf_Pending s ->
  let target := flush_target (eff_window c) (len (sb_buf s)) (c_mss c) in
  match next_send_size c s with
  | None => target (SendBuf_Unacked s) = SendBuf_Unacked s
  | Some n => target (SendBuf_Unacked s + n) = target (SendBuf_Unacked s)
  end.
Proof.
  intros Hm Hp. cbv zeta. assert (0 <= SendBuf_Unacked s) as Hu by (unfold SendBuf_Unacked; mlia).
  unfold next_send_size, go_min. cbn [foldl]. rewrite next_send_window.
  rewrite SendBuf_Pending_Unacked in *. set (w := eff_window c). clearbody w.
  destruct (Z.leb_spec (w - SendBuf_Unacked s) 0); [apply flush_target_stop; lia|].
  set (m := if c_mss c <? w - SendBuf_Unacked s then c_mss c else w - SendBuf_Unacked s).
  set (n := if _ <? m then _ else m).
  assert (n = Z.min (c_mss c) (Z.min w (len (sb_buf s)) - SendBuf_Unacked s)) as En
    by (unfold n, m; repeat case_match; zbool; lia).
  clearbody n. clear m. destruct (Z.ltb_spec n (c_mss c)) as [Hn|Hn]; cbn [andb].
  - destruct (Z.ltb_spec 0 (SendBuf_Unacked s)); [apply flush_target_stop; lia|].
    apply flush_target_step; lia.
  - apply flush_target_step; lia.
Qed.

Lemma next_send_size_spec c s n :
  next_send_size c s = Some n -> 0 < c_mss c -> 0 < SendBuf_Pending s ->
  0 < n <= c_mss c /\ n <= SendBuf_Pending s /\ SendBuf_Unacked s + n <= eff_window c.
Proof.
  unfold next_send_size, go_min, eff_window. cbn [foldl]. intros E Hm Hp.
  assert ((if SendWindow (c_cc c) <? c_sndWnd c then SendWindow (c_cc c) else c_sndWnd c)
          = Z.min (c_sndWnd c) (SendWindow (c_cc c))) as Ew
    by (destruct (Z.ltb_spec (SendWindow (c_cc c)) (c_sndWnd c)); lia).
  rewrite Ew in E. clear Ew. set (w := Z.min _ _) in *.
  destruct (Z.leb_spec (w - SendBuf_Unacked s) 0); [done|].
  case_match; [done|]. injection E as <-. repeat case_match; zbool; lia.
Qed.

Lemma data_segments_snoc una buf mss u segs u' seg n :
  data_segments una buf mss u segs u' ->
  Seq seg = seq_at una u' -> Payload seg = slice buf u' (u' + n) ->
  0 < n <= mss -> u' + n <= len buf ->
  data_segments una buf mss u (segs ++ [seg]) (u' + n).
Proof.
  induction 1 as [|u m g gs u' E1 E2 H1 H2 H3 IH]; intros; simpl.
  - econstructor; eauto. constructor.
  - econstructor; eauto.
Qed.

Lemma flush_post_refl c s :
  c_sendBuf c = Some s ->
  flush_target (eff_window c) (len (sb_buf s)) (c_mss c) (SendBuf_Unacked s) = SendBuf_Unacked s ->
  flush_post c c s s.
Proof.
  intros E Ht. unfold flush_post. split_and!; try done. exists []. rewrite app_nil_r.
  split_and!; [done|constructor|lia|lia|done].
Qed.

Lemma addOptions_data c seq ack flags w payload :
  Seq (addOptions now c (conn_segment c seq ack flags w [] payload)) = seq /\
  Payload (addOptions now c (conn_segment c seq ack flags w [] payload)) = payload.
Proof. unfold addOptions. repeat case_match; done. Qed.

Lemma flush_loop_spec fuel : forall c s,
  conn_inv c -> is_Some (c_recvBuf c) -> c_sendBuf c = Some s ->
  (Z.to_nat (SendBuf_Pending s) < fuel)%nat ->
  wp (flush_loop now fuel)
    (fun _ c' => conn_inv c' /\ send_frame c c' /\ exists s', flush_post c c' s s') c.
Proof.
  induction fuel as [|fuel IH]; intros c s H [r Er] Es Hf; [lia|].
  cbn [flush_loop]. wp_steps. apply (wp_sendBuf _ _ s Es).
  assert (flush_target (eff_window c) (len (sb_buf s)) (c_mss c) (SendBuf_Unacked s) = SendBuf_Unacked s ->
    conn_inv c /\ send_frame c c /\ exists s', flush_post c c s s') as Hstop
    by (intros Ht; split_and!; [done|done|exists s; by apply flush_post_refl]).
  pose proof (ci_sendBuf c H s Es) as Hs. pose proof (ci_mss c H) as Hm.
  destruct (Z.ltb_spec 0 (SendBuf_Pending s)) as [Hp|Hp]; cbn [negb].
  2: { apply wp_ret, Hstop, flush_target_stop. rewrite SendBuf_Pending_Unacked in Hp. lia. }
  pose proof (next_send_size_target c s ltac:(lia) Hp) as Ht. cbv zeta in Ht.
  destruct (next_send_size c s) as [n|] eqn:En; [|by apply wp_ret, Hstop].
  destruct (ci_recvBuf c H r Er) as [Hr _].
  destruct (next_send_size_spec c s n En ltac:(lia) Hp) as (Hn1 & Hn2 & Hn3).
  destruct (PeekUnsent_safe s n Hp ltac:(lia)) as (d & Ed & Ld & Sd).
  wp_steps. apply (wp_lift _ d); [done|].
  replace (len d =? 0) with false by lia. wp_steps. apply (wp_recvBuf _ _ r Er). apply wp_bind.
  wp_call queue_inv; [done|apply Hs|done|done|]. intros _ c1 (H1 & F1 & _ & C1 & O1). apply wp_bind.
  wp_call set_sendBuf_inv; [done|by apply AdvanceSent_safe|]. intros _ c2 (H2 & F2 & S2 & C2 & O2).
  apply wp_bind. wp_call (set_rto_inv (RTO_StartTiming now (SendBuf_NXT s)));
    [done|apply (rto_step_bounded _ (OpStartTiming _ _)), ci_rto, H2|].
  intros _ c3 (H3 & F3 & S3 & C3 & O3). wp_steps. rewrite S2 in S3.
  apply (wp_sendBuf _ _ _ S3). apply wp_bind.
  assert (wp (when ((0 <? SendBuf_Unacked (SendBuf_AdvanceSent (len d) s)) &&
      negb (bool_decide (is_Some (c_rtoTimer c3)))) (startRTO now))
    (fun _ c' => conn_inv c' /\ send_frame c3 c' /\ c_sendBuf c' = c_sendBuf c3 /\
      c_cc c' = c_cc c3 /\ c_outgoing c' = c_outgoing c3) c3) as Hw.
  { wp_steps; [|done]. by apply startRTO_inv. }
  eapply wp_mono; [exact Hw|]. clear Hw. intros _ c4 (H4 & F4 & S4 & C4 & O4).
  assert (send_frame c c4) as F04 by (by repeat (etransitivity; [eassumption|])).
  rewrite Ld in S3. rewrite S3 in S4.
  destruct (Pending_AdvanceSent s Hs n Hp ltac:(lia)) as [HP HU].
  eapply wp_mono; [eapply (IH c4 (SendBuf_AdvanceSent n s)); try done|].
  { rewrite (sf_recvBuf _ _ F04), Er. done. }
  { lia. }
  intros _ c5 (H5 & F5 & s5 & S5 & B5 & U5 & K5 & C5 & segs & O5 & D5 & E5 & T5).
  split; [done|]. split; [by etransitivity|]. exists s5.
  assert (eff_window c4 = eff_window c) as Ew.
  { unfold eff_window. rewrite (sf_sndWnd _ _ F04), C4, C3, C2, C1. done. }
  rewrite HU in *. rewrite (sf_mss _ _ F04) in D5, T5. rewrite Ew in E5, T5.
  split_and!; try done; [congruence|]. eexists (_ :: segs). split_and!; [|..|lia|lia|by rewrite T5, <- Ht].
  - rewrite O5, O4, O3, O2, O1, <- app_assoc. done.
  - destruct (addOptions_data c (SendBuf_NXT s) (RecvBuf_Nxt r) (Z.lor FlagACK FlagPSH) (rcvWindow c) d)
      as [Eq Ep].
    eapply (ds_cons _ _ _ _ n); [|rewrite Ep; exact Sd|lia| |exact D5].
    + rewrite Eq. destruct Hs as (Hs1 & Hs2 & _). unfold SendBuf_NXT, SendBuf_Unacked, seq_at. mlia.
    + destruct (Pending_Unacked s Hp). lia.
Qed.

Lemma flushSendQueue_spec c s :
  conn_inv c -> is_Some (c_recvBuf c) -> c_sendBuf c = Some s ->
  wp (flushSendQueue now)
    (fun _ c' => conn_inv c' /\ send_frame c c' /\ exists s', flush_post c c' s s') c.
Proof.
  intros H Hr Es. unfold flushSendQueue. wp_steps. apply (wp_sendBuf _ _ s Es). apply wp_bind.
  eapply wp_mono; [apply (flush_loop_spec _ c s); done || lia|].
  intros _ c1 (H1 & F1 & s1 & P1). wp_steps. apply (wp_sendBuf _ _ s1 (proj1 P1)).
  wp_steps; [|by eauto]. unfold startPersist, stopPersist. wp_steps. conn_cbn.
  pose proof (ci_rto c1 H1). pose proof (ci_backoff c1 H1).
  assert (0 <= RTO_RTO (c_rto c1) <= MaxRTO).
  { unfold rto_bounded, RTO_RTO, MinRTO, MaxRTO, Second, Millisecond in *. lia. }
  split_and!; [inv_update| |exists s1; exact P1]. etransitivity; [exact F1|inv_update].
Qed.

(** *** Acknowledgments *)

Lemma set_cc_inv cc c :
  conn_inv c -> cc_inv cc ->
  wp (set_cc cc) (fun _ c' => conn_inv c' /\ send_frame c c' /\ c_sendBuf c' = c_sendBuf c /\
    c_cc c' = cc) c.
Proof. intros H Hc. unfold set_cc. wp_steps. split_and!; [inv_update|inv_update|done..]. Qed.

Lemma mark_sacked_inv opts c :
  conn_inv c -> open_state (c_state c) ->
  wp (mark_sacked opts) (fun _ c' => conn_inv c' /\ send_frame c c' /\ c_cc c' = c_cc c) c.
Proof.
  intros H Ho. destruct (inv_buffers c H Ho) as (s & r & Es & Er & Hs & _).
  unfold mark_sacked. wp_steps; try done. apply (wp_sendBuf _ _ s Es).
  wp_call set_sendBuf_inv; [done|apply MarkSACKed_safe; [done|apply GetSACKBlocks_u32]|].
  naive_solver.
Qed.

Lemma open_frame c c' : send_frame c c' -> open_state (c_state c) -> open_state (c_state c').
Proof. intros []. congruence. Qed.

Lemma dupACK_inv ack opts c s :
  conn_inv c -> open_state (c_state c) -> c_sendBuf c = Some s ->
  SeqAfter ack (SendBuf_UNA s) = false -> sends (processACK now ack opts) c.
Proof.
  intros H Ho Es Ea. unfold processACK. wp_steps. apply (wp_sendBuf _ _ s Es). rewrite Ea.
  cbn [negb]. wp_steps.
  destruct (cc_OnDupACK (c_cc c) (ci_cc c H)) as (Hcc & _).
  destruct (OnDupACK (c_cc c)) as [fast cc]. cbn [fst snd] in *. apply wp_bind.
  wp_call set_cc_inv; [done..|]. intros _ c1 (H1 & F1 & S1 & C1). apply wp_bind.
  assert (open_state (c_state c1)) as Ho1 by (by eapply open_frame).
  eapply (wp_mono _ (fun _ c' => conn_inv c' /\ send_frame c1 c')).
  { wp_steps; [|by split]. subst.
    pose proof (cc_OnFastRetransmit (wrap32 (SendBuf_Unacked s)) (SendBuf_NXT s) _ Hcc
      (wrap32_range _)) as Hok.
    destruct (OnFastRetransmit _ _ _) as [cc'|] eqn:Ecc; [|done]. destruct Hok as (Hcc' & _).
    apply (wp_lift _ cc'); [done|]. wp_steps. wp_call set_cc_inv; [done..|].
    intros _ c2 (H2 & F2 & _). wp_call retransmit_inv; [done|by eapply open_frame|].
    intros _ c3 (H3 & F3). split; [done|by etransitivity]. }
  intros _ c2 (H2 & F2). wp_call mark_sacked_inv; [done|by eapply open_frame|].
  intros _ c3 (H3 & F3 & _). split; [done|]. by repeat (etransitivity; [eassumption|]).
Qed.

Lemma newACK_inv ack opts c s :
  conn_inv c -> open_state (c_state c) -> c_sendBuf c = Some s -> is_u32 ack ->
  SeqAfter ack (SendBuf_UNA s) = true -> SeqAfter ack (SendBuf_NXT s) = false ->
  sends (processACK now ack opts) c.
Proof.
  intros H Ho Es Hack Ea En. unfold processACK. wp_steps. apply (wp_sendBuf _ _ s Es).
  rewrite Ea, En. cbn [negb].
  destruct (Acknowledge_safe s (ci_sendBuf c H s Es) ack Hack) as [Hs Hn].
  destruct (SendBuf_Acknowledge ack s) as [acked s1]. cbn [fst snd] in *. apply wp_bind.
  wp_call set_sendBuf_inv; [done..|]. intros _ c1 (H1 & F1 & S1 & _). wp_steps.
  set (c2 := set_field _ _). assert (conn_inv c2) as H2 by inv_update.
  assert (send_frame c1 c2) as F2 by inv_update.
  pose proof (cc_OnACK acked (c_cc c2) (ci_cc c2 H2) Hn) as Hok.
  destruct (OnACK acked (c_cc c2)) as [cc'|] eqn:Ecc; [|done]. destruct Hok as (Hcc' & _).
  apply (wp_lift _ cc'); [done|]. apply wp_bind. wp_call set_cc_inv; [done..|].
  intros _ c3 (H3 & F3 & _). assert (send_frame c c3) as G3
    by (by repeat (etransitivity; [eassumption|])). clear F1 F2 F3. apply wp_bind.
  wp_call mark_sacked_inv; [done|by eapply open_frame|]. intros _ c4 (H4 & F4 & _). wp_read. apply wp_bind.
  eapply (wp_mono _ (fun _ c' => conn_inv c' /\ send_frame c4 c')).
  { wp_steps; [|by split]. unfold stopPersist. wp_steps.
    assert (0 <= MaxRTO) by done. split; inv_update. }
  intros _ c5 (H5 & F5). apply wp_bind.
  wp_call (set_rto_inv (fun r => (RTO_AckReceived now ack r).2));
    [done|apply (rto_step_bounded _ (OpAckReceived _ _)), ci_rto, H5|].
  intros _ c6 (H6 & F6 & _). wp_read. apply wp_bind.
  eapply (wp_mono _ (fun _ c' => conn_inv c' /\ send_frame c6 c')).
  { wp_steps; [|by split]. wp_call set_cc_inv; [done|apply cc_ExitRecovery, ci_cc, H6|].
    naive_solver. }
  intros _ c7 (H7 & F7). assert (send_frame c c7) as G7
    by (by repeat (etransitivity; [eassumption|])). clear F4 F5 F6 F7 G3.
  destruct (inv_buffers c7 H7 (open_frame _ _ G7 Ho)) as (s7 & r7 & S7 & R7 & _). wp_steps.
  apply (wp_sendBuf _ _ _ S7). apply wp_bind.
  eapply (wp_mono _ (fun _ c' => conn_inv c' /\ send_frame c7 c' /\ c_sendBuf c' = Some s7)).
  { case_match; [wp_call startRTO_inv; [done|]; intros ? ? (? & ? & -> & _); done|].
    unfold stopRTO. wp_steps. split_and!; [inv_update|inv_update|done]. }
  intros _ c8 (H8 & F8 & S8). apply wp_bind.
  wp_call flushSendQueue_spec; [done|rewrite (sf_recvBuf _ _ F8), R7; done|done|].
  intros _ c9 (H9 & F9 & _). unfold sendCond_Broadcast. wp_steps. split; [inv_update|].
  assert (send_frame c c9) as [] by (by repeat (etransitivity; [eassumption|])). inv_update.
Qed.

Lemma processACK_inv ack opts c :
  conn_inv c -> open_state (c_state c) -> is_u32 ack -> sends (processACK now ack opts) c.
Proof.
  intros H Ho Ha. destruct (inv_buffers c H Ho) as (s & r & Es & Er & Hs & _).
  destruct (SeqAfter ack (SendBuf_UNA s)) eqn:E1; [|by eapply dupACK_inv].
  destruct (SeqAfter ack (SendBuf_NXT s)) eqn:E2; [|by eapply newACK_inv].
  unfold processACK. wp_steps. apply (wp_sendBuf _ _ s Es). rewrite E1, E2. cbn [negb].
  wp_call queueACK_inv; [done..|]. naive_solver.
Qed.
End inv_lemmas.
