(* ===== verification/ConnSafe.v ===== *)
(** Every entry point of the connection preserves its invariant, returns
    without a panic, hands out only well-formed packets, and moves the state
    along the edges of the protocol's state diagram; so does any interleaving
    of them. *)

From S2P Require Import Prelude SeqSpace TcpOptions Segment Rto Congestion SendBuf RecvBuf.
From S2P Require Import ConnState ConnOps ConnApp ConnInv.

(** ** The state diagram *)

(** Moves a consumed FIN causes. *)
Definition fin_allowed (s s' : State) : bool :=
  bool_decide (s = s') ||
  match s, s' with
  | StateEstablished, StateCloseWait
  | StateFinWait1, (StateTimeWait | StateClosing)
  | StateFinWait2, StateTimeWait => true
  | _, _ => false
  end.

(** Moves one arriving segment causes (RFC 9293, figure 5, where a segment that
    completes the handshake may carry a FIN, and a reset closes). *)
Definition segment_allowed (s s' : State) : bool :=
  bool_decide (s = s') ||
  match s, s' with
  | StateSynSent, (StateEstablished | StateSynReceived | StateClosed)
  | StateSynReceived, (StateEstablished | StateCloseWait | StateClosed)
  | StateEstablished, (StateCloseWait | StateClosed)
  | StateFinWait1, (StateFinWait2 | StateClosing | StateTimeWait | StateClosed)
  | StateFinWait2, (StateTimeWait | StateClosed)
  | StateCloseWait, StateClosed
  | StateClosing, (StateTimeWait | StateClosed)
  | StateLastAck, StateClosed
  | StateTimeWait, StateClosed => true
  | _, _ => false
  end.

(** Moves of a timer: the connection is given up, or stays. *)
Definition timer_allowed (s s' : State) : bool :=
  bool_decide (s = s') || bool_decide (s' = StateClosed).

(** Moves of the application's calls. *)
Definition app_allowed (s s' : State) : bool :=
  bool_decide (s = s') || bool_decide (s' = StateClosed) ||
  match s, s' with
  | StateClosed, StateSynSent
  | (StateClosed | StateListen), (StateSynReceived | StateEstablished)
  | (StateSynReceived | StateEstablished), StateFinWait1
  | StateCloseWait, StateLastAck => true
  | _, _ => false
  end.

(** [closed] is never cleared, and is set only on entering CLOSED. *)
Definition closed_step (c c' : Conn) : Prop :=
  c_closed c' = c_closed c \/ (c_closed c' = true /\ c_state c' = StateClosed).

Section safe.
Context {F : Float64} (now : Z).
Implicit Types (c : Conn).

(** ** Receiving *)

(** The invariant but for the receive buffer's positions, which a FIN moves. *)
Definition conn_core c : Prop :=
  open_state (c_state c) /\ conn_inv (c <| c_state := StateTimeWait |>).

Lemma core_of_inv c : conn_inv c -> open_state (c_state c) -> conn_core c.
Proof. intros H Ho. split; [done|]. inv_update. auto. Qed.

Lemma inv_of_core c : conn_core c -> ~ data_state (c_state c) -> conn_inv c.
Proof. intros [Ho []] Hd. split; try done. intros _. by apply ci_open. Qed.

(** What a consumed FIN leaves alone. *)
Record fin_frame c c' : Prop := {
  ff_state : fin_allowed (c_state c) (c_state c') = true;
  ff_closed : c_closed c' = c_closed c;
}.

Ltac core_update :=
  match goal with
  | H : conn_core ?c |- conn_inv _ =>
      destruct H as [? []]; split; conn_cbn; try done; try congruence
  end.

Lemma processFINStateTransition_inv c :
  conn_core c -> c_state c <> StateSynReceived ->
  wp (processFINStateTransition now) (fun _ c' => conn_inv c' /\ fin_frame c c') c.
Proof.
  intros H Hn. assert (0 <= MaxRTO) as Hmax by done.
  assert (open_state StateTimeWait) as HoT by (by split).
  assert (is_Some (c_sendBuf c) /\ is_Some (c_recvBuf c)) as Hbufs
    by (destruct H as [_ []]; auto).
  assert (conn_inv c -> fin_frame c c) as Hrefl.
  { intros _. split; try done. unfold fin_allowed. by rewrite bool_decide_true. }
  unfold processFINStateTransition. wp_read.
  destruct (c_state c) eqn:Est; try done;
    try (apply wp_ret; assert (conn_inv c) by (apply inv_of_core; [done|rewrite Est; exact id]); auto).
  - unfold set_state, safeCloseFinRecvd, recvCond_Broadcast. wp_steps;
      (split; [core_update|split; conn_cbn; by rewrite ?Est]).
  - destruct Hbufs as [[s Es] [r Er]]. apply wp_bind. apply (wp_sendBuf _ _ s Es).
    unfold set_state, safeCloseFinRecvd, recvCond_Broadcast, stopRTO, startTimeWait,
      stopKeepalive, stopPersist.
    destruct (SendBuf_Unacked s =? 0); wp_steps; 
      (split; [core_update|split; conn_cbn; by rewrite ?Est]).
  - unfold set_state, safeCloseFinRecvd, recvCond_Broadcast, stopRTO, startTimeWait,
      stopKeepalive, stopPersist. wp_steps;
      (split; [core_update|split; conn_cbn; by rewrite ?Est]).
Qed.

(** A segment as the network delivers it: its fields in their widths and a
    payload that fits a datagram. *)
Definition seg_ok (seg : Segment) : Prop :=
  is_u32 (Seq seg) /\ is_u32 (Ack seg) /\ is_u16 (Window seg) /\ len (Payload seg) < 2 ^ 16.

(** The receive buffer after a FIN has been consumed. *)
Definition past_fin (r : RecvBuf) : RecvBuf := r <| rb_nxt := wrap32 (rb_nxt r + 1) |>.

Lemma core_past_fin c r :
  conn_inv c -> open_state (c_state c) -> c_recvBuf c = Some r ->
  conn_core (c <| c_recvBuf := Some (past_fin r) |>).
Proof.
  intros H Ho Er. split; [done|]. destruct (ci_recvBuf c H r Er).
  inv_update; [|naive_solver]. intros ? [= <-]. split; [apply wrap32_range|done].
Qed.

Lemma core_finPending c b : conn_core c -> conn_core (c <| c_finPending := b |>).
Proof. intros [Ho []]. split; [done|]. by split. Qed.

Lemma core_recvCond c n : conn_core c -> conn_core (c <| c_recvCond := n |>).
Proof. intros [Ho []]. split; [done|]. by split. Qed.

Lemma fin_frame_refl c c' :
  c_state c' = c_state c -> c_closed c' = c_closed c -> fin_frame c c'.
Proof. intros Es Ec. split; [|done]. rewrite Es. unfold fin_allowed. by rewrite bool_decide_true. Qed.

Lemma processFIN_mono c0 c :
  conn_core c -> c_state c <> StateSynReceived ->
  c_state c = c_state c0 -> c_closed c = c_closed c0 ->
  wp (processFINStateTransition now) (fun _ c' => conn_inv c' /\ fin_frame c0 c') c.
Proof.
  intros H Hn Es Ec. wp_call processFINStateTransition_inv; [done..|].
  intros _ c' [H' [F1 F2]]. split; [done|]. split; congruence.
Qed.

Lemma processData_inv c seg :
  conn_inv c -> data_state (c_state c) -> c_state c <> StateSynReceived -> seg_ok seg ->
  wp (processData now seg) (fun _ c' => conn_inv c' /\ fin_frame c c') c.
Proof.
  intros H Hd Hn (Hseq & _ & _ & Hlen).
  assert (open_state (c_state c)) as Ho by (split; intros E; by rewrite E in Hd).
  destruct (inv_buffers c H Ho) as (s & r & Es & Er & _).
  pose proof (ci_recvBufCap c H) as HW.
  destruct (Insert_data (c_recvBufCap c) r (Seq seg) (Payload seg))
    as (n & r' & Ei & Hr' & _); [by apply (ci_data c H Hd)|done|lia|].
  destruct (rb_data_nxt _ _ Hr') as [Hnx HWr].
  unfold processData. apply wp_bind. apply (wp_recvBuf _ _ r Er). apply wp_bind.
  apply (wp_lift _ (n, r')); [done|]. apply wp_bind. unfold set_recvBuf. apply wp_modify.
  wp_read. set (c1 := set_field _ c).
  assert (conn_inv c1) as H1.
  { inv_update; [by intros ? [= <-]|by intros _ ? [= <-]]. }
  pose proof (core_past_fin c1 r' H1 Ho eq_refl) as Hc.
  cbv zeta. set (finReady := _ && _). apply wp_bind.
  destruct finReady; cbn [when].
  - unfold recvCond_Broadcast. wp_steps; apply processFIN_mono; try done.
    + by apply core_recvCond, core_finPending.
    + by apply core_finPending.
  - unfold recvCond_Broadcast. wp_steps; (split; [|by apply fin_frame_refl]); [inv_update|done].
Qed.

(** The FIN block: a consumed FIN, a deferred one, or our own FIN acknowledged. *)
Definition fin_or_acked (s s' : State) : bool :=
  fin_allowed s s' ||
  match s, s' with StateFinWait1, StateFinWait2 => true | _, _ => false end.

Lemma processFIN_inv c seg :
  conn_inv c -> open_state (c_state c) -> c_state c <> StateSynReceived ->
  wp (processFIN now seg) (fun _ c' => conn_inv c' /\
    fin_or_acked (c_state c) (c_state c') = true /\ c_closed c' = c_closed c) c.
Proof.
  intros H Ho Hn. destruct (inv_buffers c H Ho) as (s & r & Es & Er & _).
  assert (forall c', c_state c' = c_state c -> fin_or_acked (c_state c) (c_state c') = true) as Hrefl.
  { intros c' ->. unfold fin_or_acked, fin_allowed. by rewrite bool_decide_true. }
  unfold processFIN. case_match.
  - apply wp_bind. apply (wp_recvBuf _ _ r Er). apply wp_bind. case_match.
    + apply wp_bind. unfold set_recvBuf. apply wp_modify.
      wp_call (processFIN_mono c); [by apply core_past_fin|done..|].
      intros _ c' [H' [F1 F2]]. apply wp_ret. split_and!; try done.
      unfold fin_or_acked. by rewrite F1.
    + wp_steps. split_and!; [inv_update|by apply Hrefl|done].
  - wp_read. wp_steps; [|by auto..].
    apply (wp_sendBuf _ _ s Es). unfold set_state. wp_steps; [|by auto].
    zbool. apply bool_decide_eq_true in H1. split_and!; [|conn_cbn; by rewrite H1|done].
    inv_update. intros _. apply ci_data. by rewrite H1.
Qed.

(** ** Handlers *)

(** What an entry point that returns packets guarantees. *)
Definition handled (allowed : State -> State -> bool) (c : Conn) (pkts : packets) (c' : Conn) : Prop :=
  conn_inv c' /\ allowed (c_state c) (c_state c') = true /\ closed_step c c' /\
  c_outgoing c' = [] /\
  Forall (packet_ok (c_localPort c') (c_remotePort c')) pkts.

Lemma segment_allowed_refl st : segment_allowed st st = true.
Proof. unfold segment_allowed. by rewrite bool_decide_true. Qed.

Lemma drain_handled allowed c c1 :
  conn_inv c1 -> allowed (c_state c) (c_state c1) = true -> closed_step c c1 ->
  wp drainOutgoing (handled allowed c) c1.
Proof.
  intros H Ha Hc. wp_call drainOutgoing_inv; [done|].
  intros pkts c' (H' & F' & Ho & _ & El & Er & Hp). unfold handled, closed_step in *.
  rewrite (sf_state _ _ F'), (sf_closed _ _ F'), Ho, El, Er. done.
Qed.

Lemma drain_same c c1 :
  conn_inv c1 -> send_frame c c1 -> wp drainOutgoing (handled segment_allowed c) c1.
Proof.
  intros H [Es _ Ec]. apply drain_handled; [done|by rewrite Es; apply segment_allowed_refl|by left].
Qed.

Lemma queueACK_handled c c1 :
  conn_inv c1 -> open_state (c_state c1) -> segment_allowed (c_state c) (c_state c1) = true ->
  closed_step c c1 ->
  wp (queueACK now ;; drainOutgoing) (handled segment_allowed c) c1.
Proof.
  intros H Ho Ha Hc. apply wp_bind. wp_call queueACK_inv; [done..|]. intros _ c2 (H2 & F2 & _).
  apply drain_handled; [done|by rewrite (sf_state _ _ F2)|].
  unfold closed_step in *. by rewrite (sf_state _ _ F2), (sf_closed _ _ F2).
Qed.

(** Fields the invariant does not mention, or only by their range. *)
Record quiet_frame c c' : Prop := {
  qf_state : c_state c' = c_state c;
  qf_closed : c_closed c' = c_closed c;
  qf_recvBuf : c_recvBuf c' = c_recvBuf c;
  qf_recvCond : c_recvCond c' = c_recvCond c;
  qf_finPending : c_finPending c' = c_finPending c;
}.

Lemma set_sndWnd_inv seg c :
  conn_inv c -> wp (set_sndWnd seg) (fun _ c' => conn_inv c' /\ quiet_frame c c') c.
Proof.
  intros H. unfold set_sndWnd. wp_steps. pose proof (wrap32_range (Z.shiftl (Window seg) (c_sndWndShift c))).
  split; [inv_update|by split].
Qed.

Lemma updateTimestamp_inv opts c :
  conn_inv c -> wp (updateTimestamp opts) (fun _ c' => conn_inv c' /\ quiet_frame c c') c.
Proof.
  intros H. unfold updateTimestamp. wp_read. repeat case_match; wp_steps; (split; [|by split]); try done.
  inv_update.
Qed.

Lemma ack_and_window_inv seg c :
  conn_inv c -> open_state (c_state c) -> seg_ok seg ->
  wp (when (Segment_HasFlag seg FlagACK)
        (processACK now (Ack seg) (Options seg) ;; set_sndWnd seg))
    (fun _ c' => conn_inv c' /\ quiet_frame c c') c.
Proof.
  intros H Ho Hs. wp_step; [|by split; [|split]]. apply wp_bind.
  wp_call processACK_inv; [done|done|apply Hs|]. intros _ c1 (H1 & F1).
  wp_call set_sndWnd_inv; [done|]. intros _ c2 (H2 & []). destruct F1.
  split; [done|]. split; congruence.
Qed.

Lemma handleDataState_inv c seg :
  conn_inv c -> data_state (c_state c) -> c_state c <> StateSynReceived -> seg_ok seg ->
  wp (handleDataState now seg) (handled segment_allowed c) c.
Proof.
  intros H Hd Hn Hs. assert (open_state (c_state c)) as Ho by (split; intros E; by rewrite E in Hd).
  unfold handleDataState. apply wp_bind. wp_call updateTimestamp_inv; [done|].
  intros fresh c1 (H1 & [E1 C1 _]). destruct fresh; cbn [negb].
  2: { apply queueACK_handled; rewrite ?E1; try done; [apply segment_allowed_refl|by left]. }
  apply wp_bind. wp_call ack_and_window_inv; [done|congruence|done|].
  intros _ c2 (H2 & [E2 C2 _]). apply wp_bind. cbv zeta. apply wp_bind.
  eapply (wp_mono _ (fun _ c' => conn_inv c' /\ fin_frame c2 c')).
  { wp_step; [apply processData_inv; congruence || done|]. split; [done|by apply fin_frame_refl]. }
  intros _ c3 (H3 & [F3 C3]). apply wp_bind.
  assert (open_state (c_state c3) /\ c_state c3 <> StateSynReceived) as [Ho3 Hn3].
  { rewrite E2, E1 in F3. unfold open_state in *. destruct (c_state c); destruct (c_state c3); done. }
  wp_call processFIN_inv; [done..|]. intros finACK c4 (H4 & F4 & C4).
  assert (segment_allowed (c_state c) (c_state c4) = true /\ open_state (c_state c4)) as [A4 Ho4].
  { rewrite E2, E1 in F3. unfold open_state in *.
    destruct (c_state c); destruct (c_state c3); try done; destruct (c_state c4); done. }
  assert (c_closed c4 = c_closed c) as Ec by congruence.
  destruct (_ || _); cbn [when].
  - wp_call queueACK_inv; [done..|]. intros _ c5 (H5 & F5 & _).
    apply drain_handled; [done|by rewrite (sf_state _ _ F5)|].
    left. by rewrite (sf_closed _ _ F5).
  - apply drain_handled; try done. by left.
Qed.

Lemma set_closed_inv c :
  conn_inv c -> conn_inv (c <| c_state := StateClosed |> <| c_closed := true |>).
Proof. intros H. inv_update. by intros []. Qed.

Lemma handleClosed_inv c seg :
  conn_inv c -> c_outgoing c = [] -> c_state c = StateClosed -> seg_ok seg ->
  wp (handleClosed seg) (handled segment_allowed c) c.
Proof.
  intros H Hout Es Hs. unfold handleClosed. destruct (Segment_HasFlag seg FlagRST).
  { apply wp_ret. unfold handled. rewrite segment_allowed_refl. split_and!; try done. by left. }
  apply wp_bind. destruct (Segment_HasFlag seg FlagACK).
  - wp_call queueRST_inv; [done|apply Hs|]. intros _ c1 (H1 & F1). by apply drain_same.
  - wp_read. wp_call queueSeg_inv; try done.
    + apply conn_segment_wf; try done. apply wrap32_range.
    + intros _ c1 (H1 & F1 & _). by apply drain_same.
Qed.

Lemma handleCloseWait_inv c seg :
  conn_inv c -> open_state (c_state c) -> seg_ok seg ->
  wp (handleCloseWait now seg) (handled segment_allowed c) c.
Proof.
  intros H Ho Hs. unfold handleCloseWait. apply wp_bind.
  wp_call ack_and_window_inv; [done..|]. intros _ c1 (H1 & [E1 C1 _]).
  apply drain_handled; [done|rewrite E1; apply segment_allowed_refl|by left].
Qed.

Lemma enter_time_wait_inv c :
  conn_inv c -> open_state (c_state c) ->
  wp (set_state StateTimeWait ;; stopRTO ;; startTimeWait now)
    (fun _ c' => conn_inv c' /\ c_state c' = StateTimeWait /\ c_closed c' = c_closed c) c.
Proof.
  intros H Ho. assert (0 <= MaxRTO) by done. pose proof (ci_open c H Ho).
  unfold set_state, stopRTO, startTimeWait, stopKeepalive, stopPersist. wp_steps.
  split_and!; [inv_update|done..].
Qed.

Lemma handleClosing_inv c seg :
  conn_inv c -> c_state c = StateClosing ->
  wp (handleClosing now seg) (handled segment_allowed c) c.
Proof.
  intros H Es. assert (open_state (c_state c)) as Ho by (rewrite Es; done).
  destruct (inv_buffers c H Ho) as (s & r & Eb & _). unfold handleClosing. apply wp_bind.
  eapply (wp_mono _ (fun _ c' => conn_inv c' /\ c_closed c' = c_closed c /\
    (c_state c' = StateTimeWait \/ c_state c' = c_state c))).
  { wp_step; [|by auto]. apply wp_bind. apply (wp_sendBuf _ _ s Eb). wp_step; [|by auto].
    wp_call enter_time_wait_inv; [done..|]. naive_solver. }
  intros _ c1 (H1 & C1 & Hst). apply queueACK_handled; [done|..|by left].
  - by destruct Hst as [->| ->].
  - by destruct Hst as [->| ->]; rewrite Es.
Qed.

Lemma handleLastAck_inv c seg :
  conn_inv c -> c_state c = StateLastAck ->
  wp (handleLastAck seg) (handled segment_allowed c) c.
Proof.
  intros H Es. assert (open_state (c_state c)) as Ho by (rewrite Es; done).
  destruct (inv_buffers c H Ho) as (s & r & Eb & _). unfold handleLastAck. apply wp_bind.
  wp_step; [|by apply drain_same]. apply wp_bind. apply (wp_sendBuf _ _ s Eb).
  wp_step; [|by apply drain_same].
  unfold set_state, stopRTO, stopKeepalive, stopPersist, recvCond_Broadcast, sendCond_Broadcast.
  repeat (apply wp_bind, wp_modify; cbv beta). apply wp_modify.
  assert (0 <= MaxRTO) by done. pose proof (set_closed_inv c H) as Hc.
  apply drain_handled; [inv_update|conn_cbn; by rewrite Es|by right].
Qed.

(** The updates every teardown makes. *)
Lemma teardown_inv c :
  conn_inv c ->
  wp teardown (fun _ c' => conn_inv c' /\ c_state c' = StateClosed /\ c_closed c' = true) c.
Proof.
  intros H. assert (0 <= MaxRTO) by done. pose proof (set_closed_inv c H) as Hc.
  unfold teardown, set_state, stopRTO, stopKeepalive, stopPersist, recvCond_Broadcast,
    sendCond_Broadcast, safeCloseEstablished, safeCloseFinRecvd. wp_steps;
    (split_and!; [inv_update|done..]).
Qed.

Lemma handleSynReceived_inv c seg :
  conn_inv c -> c_state c = StateSynReceived -> seg_ok seg ->
  wp (handleSynReceived now seg) (handled segment_allowed c) c.
Proof.
  intros H Es Hs. assert (open_state (c_state c)) as Ho by (rewrite Es; done).
  destruct (inv_buffers c H Ho) as (s & r & Eb & Er & Hsb & _). unfold handleSynReceived.
  apply wp_bind. apply (wp_sendBuf _ _ s Eb). destruct (Ack seg =? SendBuf_NXT s); cbn [negb].
  2: { apply wp_bind. wp_call queueRST_inv; [done|apply Hs|]. intros _ c1 (H1 & F1). by apply drain_same. }
  apply wp_bind. wp_call set_sendBuf_inv; [done|apply Acknowledge_safe; [done|apply Hs]|].
  intros _ c1 (H1 & F1 & _). apply wp_bind, wp_modify. apply wp_bind.
  unfold stopRTO. apply wp_modify. apply wp_bind.
  set (c2 := set_field _ _). assert (conn_inv c2) as H2 by inv_update.
  wp_call set_sndWnd_inv; [exact H2|]. intros _ c3 (H3 & [E3 C3 R3]).
  assert (c_state c3 = StateSynReceived) as Es3
    by (rewrite E3; unfold c2; conn_cbn; rewrite (sf_state _ _ F1); done).
  apply wp_bind. unfold set_state. apply wp_modify. set (c4 := set_field _ c3). wp_read.
  assert (conn_inv c4) as H4.
  { inv_update; intros _; [apply ci_open|apply ci_data]; by rewrite Es3. }
  apply wp_bind.
  eapply (wp_mono _ (fun _ c' => conn_inv c' /\ c_state c' = StateEstablished /\ c_closed c' = c_closed c)).
  { assert (c_closed c4 = c_closed c) by (unfold c4; conn_cbn; rewrite C3; apply (sf_closed _ _ F1)).
    wp_step; [|by split_and!]. unfold startKeepalive, stopKeepalive, stopPersist. wp_steps.
    assert (0 <= MaxRTO) by done. split_and!; [inv_update|done..]. }
  intros _ c5 (H5 & E5 & C5). apply wp_bind. unfold safeCloseEstablished. apply wp_modify.
  set (c6 := set_field _ c5).
  wp_call handleDataState_inv; [inv_update|by unfold c6; conn_cbn; rewrite E5
    |by unfold c6; conn_cbn; rewrite E5|done|].
  unfold c6, handled, closed_step; conn_cbn. rewrite E5, C5, Es.
  intros pkts c7 (H7 & A7 & K7 & O7 & P7). split_and!; try done. by destruct (c_state c7).
Qed.

(** *** SYN-SENT *)

Lemma negotiate_mss_inv opts c :
  conn_inv c -> wp (negotiate_mss opts) (fun _ c' => conn_inv c' /\ quiet_frame c c') c.
Proof.
  intros H. unfold negotiate_mss. wp_read. wp_steps; [|by split; [|split]].
  pose proof (ci_mss c H). zbool. split; [|by split]. inv_update. lia.
Qed.

Lemma negotiateOptions_inv opts c :
  conn_inv c -> wp (negotiateOptions opts) (fun _ c' => conn_inv c' /\ quiet_frame c c') c.
Proof.
  intros H. unfold negotiateOptions. apply wp_bind. cbv zeta.
  eapply (wp_mono _ (fun _ c' => conn_inv c' /\ quiet_frame c c')).
  { wp_steps; (split; [|by split]); [inv_update|done]. }
  intros _ c1 (H1 & [E1 C1 R1]). wp_read. apply wp_bind.
  eapply (wp_mono _ (fun _ c' => conn_inv c' /\ quiet_frame c c')).
  { wp_steps; (split; [|by split]); [inv_update|done]. }
  intros _ c2 (H2 & [E2 C2 R2]). wp_step; [|by split; [|split]].
  destruct (GetTimestamp opts) as [[tsVal tsEcr]|]; wp_steps; (split; [|by split]); [inv_update|done].
Qed.

(** A receive buffer that data may still enter. *)
Lemma set_recvBuf_inv r c :
  conn_inv c -> rb_data (c_recvBufCap c) r ->
  wp (set_recvBuf r) (fun _ c' => conn_inv c' /\ c_state c' = c_state c /\
    c_closed c' = c_closed c /\ c_recvBuf c' = Some r /\ c_recvBufCap c' = c_recvBufCap c) c.
Proof.
  intros H Hr. destruct (rb_data_nxt _ _ Hr). unfold set_recvBuf. wp_steps.
  split_and!; try done. inv_update; [by intros ? [= <-]|].
  intros Hop. split; [by apply ci_open|done].
Qed.

Lemma insert_syn_data_inv seg r c :
  conn_inv c -> c_recvBuf c = Some r -> rb_data (c_recvBufCap c) r -> seg_ok seg ->
  wp (insert_syn_data seg)
    (fun _ c' => conn_inv c' /\ c_state c' = c_state c /\ c_closed c' = c_closed c) c.
Proof.
  intros H Er Hr (Hseq & _ & _ & Hlen). unfold insert_syn_data. wp_step; [|done].
  pose proof (ci_recvBufCap c H). apply wp_bind. apply (wp_recvBuf _ _ r Er). apply wp_bind.
  destruct (Insert_data (c_recvBufCap c) r (wrap32 (Seq seg + 1)) (Payload seg) Hr)
    as (n & r' & Ei & Hr' & _); [apply wrap32_range|lia|].
  apply (wp_lift _ (n, r')); [done|]. wp_call set_recvBuf_inv; [done..|]. naive_solver.
Qed.

Lemma inv_new_recvBuf c seq :
  conn_inv c -> is_u32 seq -> rb_data (c_recvBufCap c) (NewRecvBuf seq (c_recvBufCap c)).
Proof. intros H Hs. apply NewRecvBuf_data; [done|]. pose proof (ci_recvBufCap c H). lia. Qed.

Lemma set_data_state_inv st c r :
  conn_inv c -> open_state (c_state c) -> c_recvBuf c = Some r -> rb_data (c_recvBufCap c) r ->
  conn_inv (c <| c_state := st |>).
Proof.
  intros H Ho Er Hr. inv_update. by intros _; apply ci_open.
Qed.

Lemma startKeepalive_inv c :
  conn_inv c -> wp (when (c_keepalive c) (startKeepalive now))
    (fun _ c' => conn_inv c' /\ quiet_frame c c') c.
Proof.
  intros H. wp_step; [|by split; [|split]]. assert (0 <= MaxRTO) by done.
  unfold startKeepalive, stopKeepalive, stopPersist. wp_steps. split; [inv_update|by split].
Qed.

Lemma answer_synack_inv seg c r :
  conn_inv c -> c_state c = StateEstablished -> c_recvBuf c = Some r ->
  rb_data (c_recvBufCap c) r -> seg_ok seg ->
  wp (answer_synack now seg)
    (fun pkts c' => conn_inv c' /\ c_state c' = StateEstablished /\ c_closed c' = c_closed c /\
      c_outgoing c' = [] /\ Forall (packet_ok (c_localPort c') (c_remotePort c')) pkts) c.
Proof.
  intros H Es Er Hr Hs. unfold answer_synack. apply wp_bind. wp_call insert_syn_data_inv; [done..|].
  intros _ c1 (H1 & E1 & C1). apply wp_bind.
  eapply (wp_mono _ (fun _ c' => conn_inv c' /\ c_state c' = c_state c /\ c_closed c' = c_closed c)).
  { wp_step; [|done]. unfold recvCond_Broadcast. wp_steps. split_and!; [inv_update|done..]. }
  intros _ c2 (H2 & E2 & C2). assert (open_state (c_state c2)) as Ho2 by (rewrite E2, Es; done).
  apply wp_bind. wp_call queueACK_inv; [done..|]. intros _ c3 (H3 & F3 & _).
  destruct (inv_buffers c3 H3 (open_frame _ _ F3 Ho2)) as (s3 & r3 & S3 & R3 & _). apply wp_bind.
  wp_call flushSendQueue_spec; [done|by rewrite R3|done|]. intros _ c4 (H4 & F4 & _).
  wp_read. apply wp_bind. wp_call startKeepalive_inv; [done|]. intros _ c5 (H5 & [E5 C5 _]).
  apply wp_bind. wp_call drainOutgoing_inv; [done|].
  intros pkts c6 (H6 & F6 & O6 & _ & P1 & P2 & Hp). unfold safeCloseEstablished. wp_steps.
  rewrite <- P1, <- P2 in Hp. split_and!; try done; conn_cbn; [inv_update| |].
  - rewrite (sf_state _ _ F6), E5, (sf_state _ _ F4), (sf_state _ _ F3), E2. done.
  - rewrite (sf_closed _ _ F6), C5, (sf_closed _ _ F4), (sf_closed _ _ F3), C2. done.
Qed.

Lemma complete_handshake_inv seg c :
  conn_inv c -> c_state c = StateSynSent -> seg_ok seg ->
  wp (complete_handshake now seg)
    (fun _ c' => conn_inv c' /\ c_state c' = StateEstablished /\ c_closed c' = c_closed c /\
      exists r, c_recvBuf c' = Some r /\ rb_data (c_recvBufCap c') r) c.
Proof.
  intros H Es Hs. assert (open_state (c_state c)) as Ho by (rewrite Es; done).
  destruct (inv_buffers c H Ho) as (s & r & Eb & _ & Hsb & _).
  unfold complete_handshake. apply wp_bind. apply (wp_sendBuf _ _ s Eb). apply wp_bind.
  wp_call set_sendBuf_inv; [done|apply Acknowledge_safe; [done|apply Hs]|].
  intros _ c1 (H1 & F1 & _). apply wp_bind, wp_modify. apply wp_bind. unfold stopRTO. apply wp_modify.
  wp_read. set (c2 := set_field _ _). assert (conn_inv c2) as H2 by inv_update.
  apply wp_bind. wp_call set_recvBuf_inv; [done|apply inv_new_recvBuf; [done|apply wrap32_range]|].
  intros _ c3 (H3 & E3 & C3 & R3 & W3). apply wp_bind. unfold set_sndWnd. apply wp_modify. apply wp_bind.
  set (c4 := set_field _ c3).
  assert (conn_inv c4) as H4.
  { pose proof (wrap32_range (Z.shiftl (Window seg) (c_sndWndShift c3))). inv_update. }
  pose proof (ci_mss c2 H2) as Hm.
  wp_call set_cc_inv; [exact H4| |].
  { apply newCongestionController_inv. rewrite wrap32_small; unfold is_u32; lia. }
  intros _ c5 (H5 & F5 & _). apply wp_bind.
  wp_call (set_rto_inv (fun r => (RTO_AckReceived now (Ack seg) r).2));
    [done|apply (rto_step_bounded _ (OpAckReceived _ _)), ci_rto, H5|].
  intros _ c6 (H6 & F6 & _).
  assert (c_recvBuf c6 = Some (NewRecvBuf (wrap32 (Seq seg + 1)) (c_recvBufCap c2))) as R6.
  { rewrite (sf_recvBuf _ _ F6), (sf_recvBuf _ _ F5). exact R3. }
  assert (c_recvBufCap c6 = c_recvBufCap c2) as W6.
  { rewrite (sf_recvBufCap _ _ F6), (sf_recvBufCap _ _ F5). exact W3. }
  assert (c_closed c6 = c_closed c) as C6.
  { rewrite (sf_closed _ _ F6), (sf_closed _ _ F5). unfold c4. conn_cbn. rewrite C3.
    apply (sf_closed _ _ F1). }
  assert (rb_data (c_recvBufCap c6) (NewRecvBuf (wrap32 (Seq seg + 1)) (c_recvBufCap c2))) as D6.
  { rewrite W6. apply inv_new_recvBuf; [done|apply wrap32_range]. }
  assert (open_state (c_state c6)) as Ho6.
  { rewrite (sf_state _ _ F6), (sf_state _ _ F5). unfold c4. conn_cbn. rewrite E3.
    unfold c2. conn_cbn. by rewrite (sf_state _ _ F1). }
  unfold set_state. apply wp_modify. conn_cbn. split_and!; try done; [|by eauto].
  by eapply set_data_state_inv.
Qed.

Lemma simultaneous_open_inv seg c :
  conn_inv c -> c_state c = StateSynSent -> seg_ok seg ->
  wp (simultaneous_open now seg)
    (fun _ c' => conn_inv c' /\ c_state c' = StateSynReceived /\ c_closed c' = c_closed c) c.
Proof.
  intros H Es Hs. unfold simultaneous_open. wp_read. apply wp_bind.
  wp_call set_recvBuf_inv; [done|apply inv_new_recvBuf; [done|apply wrap32_range]|].
  intros _ c1 (H1 & E1 & C1 & R1 & W1). apply wp_bind. unfold set_sndWnd. apply wp_modify.
  apply wp_bind. unfold set_state. apply wp_modify. apply wp_bind, wp_modify. apply wp_bind.
  unfold stopRTO. apply wp_modify. apply wp_bind. set (c2 := set_field _ _).
  assert (rb_data (c_recvBufCap c1) (NewRecvBuf (wrap32 (Seq seg + 1)) (c_recvBufCap c))) as D1.
  { rewrite W1. apply inv_new_recvBuf; [done|apply wrap32_range]. }
  assert (conn_inv c2) as H2.
  { pose proof (wrap32_range (Z.shiftl (Window seg) (c_sndWndShift c1))).
    assert (conn_inv (c1 <| c_state := StateSynReceived |>)) as H1'.
    { eapply set_data_state_inv; [done|by rewrite E1, Es|done..]. }
    clear H1 H. inv_update. }
  wp_call insert_syn_data_inv; [exact H2|exact R1|exact D1|done|].
  intros _ c3 (H3 & E3 & C3). unfold c2 in E3, C3; cbn [set_field c_state c_closed] in E3, C3.
  destruct (inv_buffers c3 H3) as (s3 & r3 & S3 & R3 & (Hu & _) & Hr & _); [by rewrite E3|].
  apply wp_bind. apply (wp_sendBuf _ _ s3 S3). apply wp_bind. apply (wp_recvBuf _ _ r3 R3).
  apply wp_bind. wp_call queueSYN_inv; [done..|]. intros _ c4 (H4 & F4 & _).
  wp_call startRTO_inv; [done|]. intros _ c5 (H5 & F5 & _). split_and!; [done| |].
  - rewrite (sf_state _ _ F5), (sf_state _ _ F4). done.
  - rewrite (sf_closed _ _ F5), (sf_closed _ _ F4). congruence.
Qed.

Lemma handleSynSent_inv seg c :
  conn_inv c -> c_state c = StateSynSent -> seg_ok seg ->
  wp (handleSynSent now seg) (handled segment_allowed c) c.
Proof.
  intros H Es Hs. assert (open_state (c_state c)) as Ho by (rewrite Es; done).
  destruct (inv_buffers c H Ho) as (s & r & Eb & Er & Hsb & _).
  unfold handleSynSent. apply wp_bind.
  eapply (wp_mono _ (fun _ c' => c' = c)).
  { unfold synSent_badACK. case_match; [|by apply wp_ret]. apply wp_bind.
    apply (wp_sendBuf _ _ s Eb). by apply wp_ret. }
  intros bad _ ->. destruct bad.
  { apply wp_bind. wp_step; [|by apply drain_same].
    wp_call queueRST_inv; [done|apply Hs|]. intros _ c1 (H1 & F1). by apply drain_same. }
  destruct (Segment_HasFlag seg FlagRST).
  { apply wp_bind. wp_step; [|by apply drain_same]. pose proof (set_closed_inv c H) as Hc.
    unfold set_state, stopRTO, safeCloseEstablished, safeCloseFinRecvd, recvCond_Broadcast.
    wp_steps; apply drain_handled; conn_cbn; try (by right); try (by rewrite Es); inv_update. }
  destruct (Segment_HasFlag seg FlagSYN); cbn [negb]; [|by apply drain_same].
  apply wp_bind. wp_call negotiate_mss_inv; [done|]. intros _ c1 (H1 & [E1 C1 _]).
  apply wp_bind. wp_call negotiateOptions_inv; [done|]. intros _ c2 (H2 & [E2 C2 _]).
  assert (c_state c2 = StateSynSent) as Es2 by congruence.
  assert (c_closed c2 = c_closed c) as Ec2 by congruence.
  destruct (Segment_HasFlag seg FlagACK); apply wp_bind.
  - wp_call complete_handshake_inv; [done..|]. intros _ c3 (H3 & E3 & C3 & r3 & R3 & D3).
    wp_call answer_synack_inv; [done..|]. intros pkts c4 (H4 & E4 & C4 & O4 & P4).
    unfold handled, closed_step. rewrite E4, Es. split_and!; try done. left. congruence.
  - wp_call simultaneous_open_inv; [done..|]. intros _ c3 (H3 & E3 & C3).
    apply drain_handled; [done|by rewrite E3, Es|]. left. congruence.
Qed.

(** *** Synchronized states *)

Lemma restartTimeWait_inv c :
  conn_inv c -> wp (restartTimeWait now) (fun _ c' => conn_inv c' /\ send_frame c c') c.
Proof.
  intros H. unfold restartTimeWait. apply wp_modify.
  destruct (c_timeWaitTimer c); [|done]. split; inv_update.
Qed.

Lemma dispatch_inv seg c :
  conn_inv c -> open_state (c_state c) -> c_state c <> StateSynSent -> seg_ok seg ->
  wp (dispatch now seg) (handled segment_allowed c) c.
Proof.
  intros H Ho Hn Hs. unfold dispatch. wp_read. destruct (c_state c) eqn:Es; try done.
  all: try (by destruct Ho).
  - by apply handleSynReceived_inv.
  - apply handleDataState_inv; try done; by rewrite Es.
  - apply handleDataState_inv; try done; by rewrite Es.
  - apply handleDataState_inv; try done; by rewrite Es.
  - apply handleCloseWait_inv; try done. by rewrite Es.
  - by apply handleClosing_inv.
  - by apply handleLastAck_inv.
  - apply wp_bind. wp_call restartTimeWait_inv; [done|]. intros _ c1 (H1 & F1).
    apply queueACK_handled; [done|..|by left; apply (sf_closed _ _ F1)].
    + by rewrite (sf_state _ _ F1), Es.
    + rewrite (sf_state _ _ F1). apply segment_allowed_refl.
Qed.

Lemma synRcvdOK_pure seg c :
  conn_inv c -> open_state (c_state c) -> wp (synRcvdOK seg) (fun _ c' => c' = c) c.
Proof.
  intros H Ho. destruct (inv_buffers c H Ho) as (s & r & Eb & _).
  unfold synRcvdOK. wp_read. case_match; [|by apply wp_ret].
  apply wp_bind. apply (wp_sendBuf _ _ s Eb). by apply wp_ret.
Qed.

Lemma validateRST_pure seg c :
  conn_inv c -> open_state (c_state c) -> wp (validateRST seg) (fun _ c' => c' = c) c.
Proof.
  intros H Ho. destruct (inv_buffers c H Ho) as (s & r & Eb & Er & _).
  unfold validateRST. wp_read. rewrite Er.
  destruct (c_state c); repeat case_match; try by apply wp_ret.
  apply wp_bind. apply (wp_sendBuf _ _ s Eb). by apply wp_ret.
Qed.

Lemma handleSynchronized_inv seg c :
  conn_inv c -> open_state (c_state c) -> c_state c <> StateSynSent -> seg_ok seg ->
  wp (handleSynchronized now seg) (handled segment_allowed c) c.
Proof.
  intros H Ho Hn Hs. unfold handleSynchronized. wp_read. apply wp_bind.
  assert (segment_allowed (c_state c) (c_state c) = true) as Hrefl by apply segment_allowed_refl.
  assert (closed_step c c) as Hcl by (by left).
  eapply (wp_mono _ (fun _ c' => c' = c)).
  { case_match; [by apply wp_ret|by apply synRcvdOK_pure]. }
  intros proceed _ ->. destruct proceed; cbn [negb].
  2: { destruct (Segment_HasFlag seg FlagRST); cbn [negb when]; [by apply drain_same|].
       by apply queueACK_handled. }
  destruct (Segment_HasFlag seg FlagRST).
  { apply wp_bind. wp_call validateRST_pure; [done..|]. intros [accept challenge] _ ->.
    destruct challenge; [by apply queueACK_handled|].
    destruct accept; cbn [negb]; [|by apply drain_same].
    apply wp_bind. wp_call teardown_inv; [done|]. intros _ c1 (H1 & E1 & C1).
    apply drain_handled; [done|rewrite E1|by right].
    destruct Ho. by destruct (c_state c). }
  case_match; [by apply queueACK_handled|].
  case_match; [by apply drain_same|]. by apply dispatch_inv.
Qed.

Lemma HandleSegment_inv seg c :
  conn_inv c -> c_outgoing c = [] -> seg_ok seg ->
  wp (HandleSegment now seg) (handled segment_allowed c) c.
Proof.
  intros H Hout Hs. unfold HandleSegment. apply wp_bind, wp_modify. wp_read.
  set (c1 := set_field _ _). assert (conn_inv c1) as H1 by inv_update.
  change (wp (match c_state c with
    | StateClosed => handleClosed seg | StateSynSent => handleSynSent now seg
    | StateListen => ret [] | _ => handleSynchronized now seg end) (handled segment_allowed c1) c1).
  destruct (c_state c) eqn:Es;
    try (apply handleSynchronized_inv; unfold c1; conn_cbn; rewrite ?Es; done).
  - by apply handleClosed_inv.
  - apply wp_ret. unfold handled. rewrite segment_allowed_refl. split_and!; try done. by left.
  - by apply handleSynSent_inv.
Qed.
End safe.
