(* ===== verification/ConnReach.v ===== *)
(** The connection as a transition system: timer callbacks, opening and the
    application's calls preserve the invariant too, so every reachable
    connection satisfies it. *)

From S2P Require Import Prelude SeqSpace TcpOptions Segment Rto Congestion SendBuf RecvBuf.
From S2P Require Import ConnState ConnOps ConnApp ConnInv ConnSafe.

Section reach.
Context {F : Float64} (now : Z).
Implicit Types (c : Conn).

(** ** Timers *)

Lemma idle_handled allowed c :
  allowed (c_state c) (c_state c) = true -> conn_inv c -> c_outgoing c = [] ->
  wp (ret []) (handled allowed c) c.
Proof. intros Ha H Ho. apply wp_ret. unfold handled. split_and!; try done. by left. Qed.

Lemma timer_allowed_refl st : timer_allowed st st = true.
Proof. unfold timer_allowed. by rewrite bool_decide_true. Qed.

Lemma not_closed_open c : conn_inv c -> is_closed c = false -> c_state c <> StateListen ->
  open_state (c_state c).
Proof.
  intros _ Hc Hl. unfold is_closed in Hc. zbool. by apply bool_decide_eq_false in H0.
Qed.

Lemma onPersistTimeout_inv c :
  conn_inv c -> c_outgoing c = [] -> c_state c <> StateListen ->
  wp (onPersistTimeout now) (handled timer_allowed c) c.
Proof.
  intros H Hout Hl. unfold onPersistTimeout. wp_read.
  destruct (is_closed c) eqn:Ec; [apply idle_handled; [apply timer_allowed_refl|done..]|].
  assert (open_state (c_state c)) as Ho by (by apply not_closed_open).
  destruct (inv_buffers c H Ho) as (s & r & Es & Er & Hs & Hr & _).
  assert (0 <= MaxRTO) as Hmax by done.
  destruct (0 <? c_sndWnd c).
  { apply wp_bind. unfold stopPersist. apply wp_modify. set (c1 := set_field _ _).
    assert (conn_inv c1) as H1 by inv_update. apply wp_bind.
    wp_call flushSendQueue_spec; [exact H1|unfold c1; conn_cbn; by rewrite Er|exact Es|].
    intros _ c2 (H2 & F2 & _). apply drain_handled; [done|..].
    - rewrite (sf_state _ _ F2). apply timer_allowed_refl.
    - left. apply (sf_closed _ _ F2). }
  apply wp_bind. apply (wp_sendBuf _ _ s Es). apply wp_bind.
  eapply (wp_mono _ (fun _ c' => conn_inv c' /\ send_frame c c')).
  { wp_step; [|done]. zbool. apply wp_bind.
    destruct (PeekUnsent_safe s 1) as (d & Ed & Ld & _); [lia..|].
    apply (wp_lift _ d); [done|]. wp_step; [|done]. apply wp_bind. apply (wp_recvBuf _ _ r Er).
    apply wp_bind. wp_call queueSeg_inv; try done.
    { apply conn_segment_wf; try done; [apply Hs|apply rcvWindow_u16]. }
    intros _ c1 (H1 & F1 & _). wp_call set_sendBuf_inv; [done|by apply AdvanceSent_safe|].
    intros _ c2 (H2 & F2 & _). split; [done|by etransitivity]. }
  intros _ c1 (H1 & F1). pose proof (ci_backoff c1 H1) as Hb.
  apply wp_bind, wp_modify. apply wp_bind, wp_modify. apply wp_bind, wp_modify. conn_cbn.
  assert (int64 (c_persistBackoff c1 * 2) = c_persistBackoff c1 * 2) as Ei.
  { apply int64_small. unfold is_i64, MaxRTO, Second, Millisecond in *. lia. }
  rewrite Ei. destruct (Z.ltb_spec MaxRTO (c_persistBackoff c1 * 2));
    (apply drain_handled; conn_cbn;
      [|rewrite (sf_state _ _ F1); apply timer_allowed_refl|left; apply (sf_closed _ _ F1)]);
    inv_update. lia.
Qed.

Lemma rto_retransmit_inv c :
  conn_inv c -> open_state (c_state c) ->
  wp (rto_retransmit now) (fun _ c' => conn_inv c' /\ send_frame c c') c.
Proof.
  intros H Ho. destruct (inv_buffers c H Ho) as (s & r & Es & Er & (Hu & Hs) & Hr & _).
  unfold rto_retransmit. wp_read. destruct (c_state c) eqn:Est; try (by apply wp_ret).
  - apply wp_bind. apply (wp_sendBuf _ _ s Es). wp_call queueSYN_inv; try done. naive_solver.
  - apply wp_bind. apply (wp_sendBuf _ _ s Es). apply wp_bind. apply (wp_recvBuf _ _ r Er).
    wp_call queueSYN_inv; try done. naive_solver.
  - apply retransmit_inv; [done|by rewrite Est].
  - apply queueFIN_inv; [done|by rewrite Est].
  - apply retransmit_inv; [done|by rewrite Est].
  - apply queueFIN_inv; [done|by rewrite Est].
Qed.

Lemma onRTOTimeout_inv c :
  conn_inv c -> c_outgoing c = [] -> c_state c <> StateListen ->
  wp (onRTOTimeout now) (handled timer_allowed c) c.
Proof.
  intros H Hout Hl. unfold onRTOTimeout. wp_read. assert (0 <= MaxRTO) as Hmax by done.
  destruct (is_closed c) eqn:Ec; [apply idle_handled; [apply timer_allowed_refl|done..]|].
  assert (open_state (c_state c)) as Ho by (by apply not_closed_open).
  apply wp_bind, wp_modify. wp_read. case_match.
  { unfold set_state, stopRTO, stopKeepalive, stopPersist, recvCond_Broadcast,
      sendCond_Broadcast, safeCloseEstablished. wp_steps. unfold handled, timer_allowed.
    pose proof (set_closed_inv c H) as Hc. conn_cbn.
    rewrite (bool_decide_true (StateClosed = StateClosed)), orb_true_r by done.
    split_and!; try done; [inv_update|by right]. }
  apply wp_bind, wp_modify. match goal with |- wp _ _ ?x => set (c1 := x) end.
  assert (conn_inv c1) as H1.
  { assert (rto_bounded (RTO_InvalidateTiming (RTO_Backoff (c_rto c)))).
    { apply (rto_step_bounded _ OpInvalidate), (rto_step_bounded _ OpBackoff), ci_rto, H. }
    inv_update. }
  apply wp_bind. conn_cbn.
  pose proof (cc_OnTimeout (c_cc c) (ci_cc c H)) as Hok.
  destruct (OnTimeout (c_cc c)) as [cc'|] eqn:Ecc; [|done]. destruct Hok as (Hcc' & _).
  apply (wp_lift _ cc'); [done|]. apply wp_bind. wp_call set_cc_inv; [exact H1|done|].
  intros _ c2 (H2 & F2 & _). apply wp_bind.
  wp_call rto_retransmit_inv; [done|by rewrite (sf_state _ _ F2)|]. intros _ c3 (H3 & F3).
  apply wp_bind. wp_call startRTO_inv; [done|]. intros _ c4 (H4 & F4 & _).
  assert (send_frame c1 c4) as F14 by (by repeat (etransitivity; [eassumption|])).
  apply drain_handled; [done|rewrite (sf_state _ _ F14); apply timer_allowed_refl|].
  left. apply (sf_closed _ _ F14).
Qed.

Lemma onTimeWaitExpired_inv c :
  conn_inv c -> c_outgoing c = [] ->
  wp onTimeWaitExpired (fun _ => handled timer_allowed c []) c.
Proof.
  intros H Hout. pose proof (set_closed_inv c H) as Hc.
  unfold onTimeWaitExpired, set_state, recvCond_Broadcast, sendCond_Broadcast. wp_steps.
  unfold handled, timer_allowed. conn_cbn.
  rewrite (bool_decide_true (StateClosed = StateClosed)), orb_true_r by done.
  split_and!; try done; [inv_update|by right].
Qed.

Lemma onKeepalive_inv c :
  conn_inv c -> c_outgoing c = [] -> wp (onKeepalive now) (handled timer_allowed c) c.
Proof.
  intros H Hout. unfold onKeepalive. wp_read. assert (0 <= MaxRTO) as Hmax by done.
  destruct (is_closed c) eqn:Ec; [apply idle_handled; [apply timer_allowed_refl|done..]|].
  destruct (_ && _) eqn:Est; [apply idle_handled; [apply timer_allowed_refl|done..]|].
  assert (open_state (c_state c)) as Ho.
  { split; intros E; rewrite E in Est; by vm_compute in Est. }
  destruct (inv_buffers c H Ho) as (s & r & Es & Er & (Hu & Hs) & Hr & _). cbv zeta.
  case_match.
  { pose proof (set_closed_inv c H) as Hc.
    unfold set_state, stopRTO, recvCond_Broadcast, sendCond_Broadcast, safeCloseEstablished,
      safeCloseFinRecvd, recvCond_Broadcast.
    wp_steps; unfold handled, timer_allowed; conn_cbn;
      rewrite (bool_decide_true (StateClosed = StateClosed)), orb_true_r by done;
      (split_and!; try done; [inv_update|by right]). }
  apply wp_bind. eapply (wp_mono _ (fun _ c' => conn_inv c' /\ send_frame c c')).
  { wp_step; [|done]. apply wp_bind. apply (wp_sendBuf _ _ s Es). apply wp_bind.
    apply (wp_recvBuf _ _ r Er). apply wp_bind.
    wp_call queue_inv; [done|apply wrap32_range|done|done|]. intros _ c1 (H1 & F1 & _).
    wp_steps. split; [inv_update|]. destruct F1. inv_update. }
  intros _ c1 (H1 & F1). wp_read. apply wp_bind.
  eapply (wp_mono _ (fun _ c' => conn_inv c' /\ send_frame c c')).
  { unfold startKeepalive, stopKeepalive, stopPersist. destruct F1.
    case_match; wp_steps; (split; inv_update). }
  intros _ c2 (H2 & F2).
  apply drain_handled; [done|rewrite (sf_state _ _ F2); apply timer_allowed_refl|].
  left. apply (sf_closed _ _ F2).
Qed.

(** ** Opening *)

(** Two fresh buffers and a state in which both are there. *)
Lemma set_buffers_inv c s r st :
  conn_inv c -> sb_safe s -> rb_data (c_recvBufCap c) r ->
  conn_inv (c <| c_sendBuf := Some s |> <| c_recvBuf := Some r |> <| c_state := st |>).
Proof.
  intros H Hs Hr. destruct (rb_data_nxt _ _ Hr). inv_update; intros; simplify_eq; done.
Qed.

Lemma Connect_start_inv iss c :
  conn_inv c -> c_outgoing c = [] -> is_u32 iss ->
  wp (Connect_start now iss) (fun o c' => handled app_allowed c (default [] o) c') c.
Proof.
  intros H Hout Hi. unfold Connect_start. wp_read.
  destruct (decide (c_state c = StateClosed)) as [Es|Es].
  2: { rewrite bool_decide_false by done. apply wp_ret. unfold handled, app_allowed.
       rewrite bool_decide_true by done. split_and!; try done. by left. }
  rewrite bool_decide_true by done. cbn [negb]. unfold set_sendBuf, set_recvBuf, set_state.
  apply wp_bind, wp_modify. apply wp_bind, wp_modify. apply wp_bind, wp_modify. apply wp_bind.
  assert (0 < Conn_sendBufSize c < 2 ^ 30) as Hc.
  { unfold Conn_sendBufSize. destruct (c_sendBuf c) as [s|] eqn:E.
    - by destruct (ci_sendBuf c H s E) as (_ & _ & ? & _).
    - pose proof (ci_sendBufCap c H). case_match; unfold DefaultSendBuf; simpl; lia. }
  pose proof (NewSendBuf_safe _ iss Hc Hi) as Hs.
  pose proof (set_buffers_inv c _ _ StateSynSent H Hs (inv_new_recvBuf c 0 H ltac:(done))) as H1.
  match goal with |- wp _ _ ?x => set (c1 := x) end. fold c1 in H1.
  wp_call queueSYN_inv; [exact H1|done..|]. intros _ c2 (H2 & F2 & S2). apply wp_bind.
  apply (wp_sendBuf _ _ _ S2). apply wp_bind.
  wp_call set_sendBuf_inv; [done|by apply AdvanceSent_safe|]. intros _ c3 (H3 & F3 & _). apply wp_bind.
  wp_call (set_rto_inv (RTO_StartTiming now iss));
    [done|apply (rto_step_bounded _ (OpStartTiming _ _)), ci_rto, H3|].
  intros _ c4 (H4 & F4 & _). apply wp_bind. wp_call startRTO_inv; [done|]. intros _ c5 (H5 & F5 & _).
  assert (send_frame c1 c5) as F15 by (by repeat (etransitivity; [eassumption|])).
  apply wp_bind. eapply wp_mono; [apply (drain_handled app_allowed c); [done|..]|].
  - rewrite (sf_state _ _ F15). unfold c1; conn_cbn. by rewrite Es.
  - left. apply (sf_closed _ _ F15).
  - intros pkts c6 H6. by apply wp_ret.
Qed.

Lemma app_allowed_refl st : app_allowed st st = true.
Proof. unfold app_allowed. by rewrite bool_decide_true. Qed.

Lemma AcceptSYN_inv iss syn c :
  conn_inv c -> c_outgoing c = [] -> is_u32 iss -> seg_ok syn ->
  wp (AcceptSYN now iss syn) (handled app_allowed c) c.
Proof.
  intros H Hout Hi Hs. unfold AcceptSYN. wp_read.
  destruct (_ && _) eqn:Est; [apply idle_handled; [apply app_allowed_refl|done..]|].
  assert (app_allowed (c_state c) StateSynReceived = true) as Ha by (by destruct (c_state c)).
  apply wp_bind. wp_call negotiate_mss_inv; [done|]. intros _ c1 (H1 & [E1 C1 _]).
  apply wp_bind. wp_call negotiateOptions_inv; [done|]. intros _ c2 (H2 & [E2 C2 _]).
  wp_read. unfold set_sendBuf, set_recvBuf, set_state.
  apply wp_bind, wp_modify. apply wp_bind, wp_modify. apply wp_bind, wp_modify. apply wp_bind.
  pose proof (NewSendBuf_safe _ iss (ci_sendBufCap c2 H2) Hi) as Hsb.
  pose proof (inv_new_recvBuf c2 (wrap32 (Seq syn + 1)) H2 (wrap32_range _)) as Hrb.
  pose proof (set_buffers_inv c2 _ _ StateSynReceived H2 Hsb Hrb) as H3.
  match goal with |- wp _ _ ?x => set (c3 := x) end. fold c3 in H3.
  apply (wp_recvBuf _ c3 (NewRecvBuf (wrap32 (Seq syn + 1)) (c_recvBufCap c2)) eq_refl).
  apply wp_bind. wp_call queueSYN_inv; [exact H3|done|apply wrap32_range|done|].
  intros _ c4 (H4 & F4 & S4). apply wp_bind. apply (wp_sendBuf _ _ _ S4). apply wp_bind.
  wp_call set_sendBuf_inv; [done|by apply AdvanceSent_safe|]. intros _ c5 (H5 & F5 & _). apply wp_bind.
  assert (send_frame c3 c5) as F35 by (by etransitivity).
  wp_call insert_syn_data_inv; [done|apply (sf_recvBuf _ _ F35)|by rewrite (sf_recvBufCap _ _ F35)|done|].
  intros _ c6 (H6 & E6 & C6). apply wp_bind. wp_call startRTO_inv; [done|]. intros _ c7 (H7 & F7 & _).
  apply drain_handled; [done|..].
  - rewrite (sf_state _ _ F7), E6, (sf_state _ _ F35). exact Ha.
  - left. rewrite (sf_closed _ _ F7), C6, (sf_closed _ _ F35). unfold c3; conn_cbn. congruence.
Qed.

Lemma AcceptCookie_inv remoteSeq ourISS mss d c :
  conn_inv c -> c_outgoing c = [] -> is_u32 remoteSeq -> 0 < mss < 2 ^ 16 -> len d < 2 ^ 16 ->
  wp (AcceptCookie now remoteSeq ourISS mss d) (handled app_allowed c) c.
Proof.
  intros H Hout Hi Hm Hd. unfold AcceptCookie. wp_read. assert (0 <= MaxRTO) as Hmax by done.
  destruct (_ && _) eqn:Est; [apply idle_handled; [apply app_allowed_refl|done..]|].
  assert (app_allowed (c_state c) StateEstablished = true) as Ha by (by destruct (c_state c)).
  apply wp_bind. eapply (wp_mono _ (fun _ c' => conn_inv c' /\ quiet_frame c c')).
  { pose proof (ci_mss c H). wp_steps; (split; [|by split]); [inv_update; lia|done]. }
  intros _ c1 (H1 & [E1 C1 _]). wp_read. unfold set_sendBuf, set_recvBuf, set_state.
  apply wp_bind, wp_modify. apply wp_bind, wp_modify. apply wp_bind, wp_modify. apply wp_bind.
  pose proof (AdvanceSent_safe _ (NewSendBuf_safe _ (wrap32 (ourISS + 1)) (ci_sendBufCap c1 H1)
    (wrap32_range _)) 0) as Hsb.
  pose proof (inv_new_recvBuf c1 remoteSeq H1 Hi) as Hrb.
  pose proof (set_buffers_inv c1 _ _ StateEstablished H1 Hsb Hrb) as H2.
  unfold safeCloseEstablished. apply wp_modify. apply wp_bind.
  match goal with |- wp _ _ ?x => set (c2 := x) end.
  eapply (wp_mono _ (fun _ c' => conn_inv c' /\ quiet_frame c2 c' /\ c_recvBufCap c' = c_recvBufCap c1)).
  { unfold startKeepalive, stopKeepalive, stopPersist.
    wp_steps; (split_and!; [inv_update|by split|done]). }
  intros _ c3 (H3 & [E3 C3 R3] & W3). apply wp_bind.
  eapply (wp_mono _ (fun _ c' => conn_inv c' /\ c_state c' = StateEstablished /\ c_closed c' = c_closed c)).
  { assert (c_closed c3 = c_closed c) as C03 by (rewrite C3; exact C1).
    wp_step; [|by split_and!]. apply wp_bind. apply (wp_recvBuf _ _ _ R3). apply wp_bind.
    pose proof (ci_recvBufCap c1 H1) as HW1.
    destruct (Insert_data (c_recvBufCap c1) (NewRecvBuf remoteSeq (c_recvBufCap c1)) remoteSeq d)
      as (n & r' & Ei & Hr' & _); [done|done|lia|].
    apply (wp_lift _ (n, r')); [done|]. wp_call set_recvBuf_inv; [done|by rewrite W3|].
    intros _ c4 (H4 & E4 & C4 & _). split_and!; [done|by rewrite E4, E3|congruence]. }
  intros _ c4 (H4 & E4 & C4). wp_read.
  destruct (inv_buffers c4 H4) as (s4 & r4 & S4 & R4 & (_ & Hn & _) & Hr & _); [by rewrite E4|].
  apply wp_bind. apply (wp_sendBuf _ _ s4 S4). apply wp_bind. apply (wp_recvBuf _ _ r4 R4).
  apply wp_bind. wp_call queueSeg_inv; try done.
  { apply conn_segment_wf; try done. apply rcvWindow_u16. }
  intros _ c5 (H5 & F5 & _). apply drain_handled; [done|..].
  - by rewrite (sf_state _ _ F5), E4.
  - left. by rewrite (sf_closed _ _ F5).
Qed.

Lemma SetupForHandshake_inv iss c :
  conn_inv c -> is_u32 iss ->
  wp (SetupForHandshake iss) (fun _ c' => conn_inv c' /\ c_state c' = StateSynSent /\
    c_closed c' = c_closed c /\ c_outgoing c' = c_outgoing c) c.
Proof.
  intros H Hi. unfold SetupForHandshake. wp_read. unfold set_sendBuf, set_recvBuf, set_state.
  apply wp_bind, wp_modify. apply wp_bind, wp_modify. apply wp_bind, wp_modify. apply wp_bind.
  apply (wp_sendBuf _ _ (NewSendBuf (c_sendBufCap c) iss)); [done|]. apply wp_modify. conn_cbn.
  split_and!; try done.
  pose proof (AdvanceSent_safe _ (NewSendBuf_safe _ iss (ci_sendBufCap c H) Hi) 1) as Hsb.
  exact (set_buffers_inv c _ _ StateSynSent H Hsb (inv_new_recvBuf c 0 H ltac:(done))).
Qed.

(** ** The application's calls *)

Lemma Conn_Read_inv n c :
  conn_inv c -> 0 <= n ->
  wp (Conn_Read now n) (fun _ c' => conn_inv c' /\ c_state c' = c_state c /\
    c_closed c' = c_closed c /\ c_outgoing c' = c_outgoing c) c.
Proof.
  intros H Hn. unfold Conn_Read. wp_read. cbv zeta.
  destruct (c_recvBuf c) as [r|] eqn:Er; [|repeat case_match; by apply wp_ret].
  destruct (RecvBuf_Readable r =? 0); [repeat case_match; by apply wp_ret|].
  destruct (RecvBuf_Read n r) as [out r'] eqn:Ed. unfold set_recvBuf. wp_steps. conn_cbn.
  split_and!; try done.
  assert (rb_nxt r' = rb_nxt r /\ rb_windowSize r' = rb_windowSize r) as [E1 E2].
  { unfold RecvBuf_Read in Ed. by simplify_eq. }
  inv_update.
  - intros ? [= <-]. rewrite E1, E2. by apply ci_recvBuf.
  - intros Hop. split; [by apply ci_open|done].
  - intros Hd ? [= <-]. destruct (ci_data Hd r Er) as (base & p & Hrel).
    pose proof (read_refines any_content base (c_recvBufCap c) r p n Hrel Hn) as Hr.
    rewrite Ed in Hr. destruct Hr as (_ & _ & Hr). exists base, (spec_read n p). done.
Qed.

Lemma SendBuf_Write_count b s :
  0 <= (SendBuf_Write b s).1 <= len b.
Proof. unfold SendBuf_Write. zcase; lia. Qed.

Lemma write_loop_inv b fuel : forall c written,
  conn_inv c -> is_Some (c_sendBuf c) -> 0 <= written <= len b ->
  (Z.to_nat (len b - written) < fuel)%nat ->
  wp (write_loop now fuel b written) (fun _ c' => conn_inv c' /\ send_frame c c' /\
    is_Some (c_sendBuf c') /\ c_outgoing c' = c_outgoing c) c.
Proof.
  induction fuel as [|fuel IH]; intros c written H [s Es] Hw Hf; [lia|]. cbn [write_loop].
  destruct (Z.ltb_spec written (len b)); cbn [negb]; [|apply wp_ret; split_and!; by eauto].
  apply wp_bind. apply (wp_sendBuf _ _ s Es).
  pose proof (Write_safe s (ci_sendBuf c H s Es) (dropZ written b)) as Hs.
  pose proof (SendBuf_Write_count (dropZ written b) s) as Hc. rewrite length_dropZ in Hc by lia.
  destruct (SendBuf_Write (dropZ written b) s) as [n s']. cbn [fst snd] in *. apply wp_bind.
  wp_call set_sendBuf_inv; [done..|]. intros _ c1 (H1 & F1 & S1 & _ & O1).
  destruct (Z.eqb_spec n 0).
  - wp_read. repeat case_match; apply wp_ret; split_and!; by eauto.
  - eapply wp_mono; [apply IH; [done|by rewrite S1|lia|lia]|].
    intros res c2 (H2 & F2 & S2 & O2). split_and!; [done|by etransitivity|done|congruence].
Qed.

Lemma write_from_inv b written c :
  conn_inv c -> c_outgoing c = [] -> is_Some (c_sendBuf c) -> is_Some (c_recvBuf c) ->
  0 <= written <= len b ->
  wp (write_from now b written) (fun res => handled app_allowed c res.2) c.
Proof.
  intros H Hout Hs Hr Hw. unfold write_from. apply wp_bind.
  wp_call write_loop_inv; [done|done|done|lia|]. intros res c1 (H1 & F1 & [s1 S1] & O1).
  assert (handled app_allowed c [] c1) as Hidle.
  { unfold handled, closed_step. rewrite (sf_state _ _ F1), (sf_closed _ _ F1), app_allowed_refl.
    split_and!; try done; [by left|congruence]. }
  destruct res; try by apply wp_ret.
  apply wp_bind. wp_call flushSendQueue_spec; [done|by rewrite (sf_recvBuf _ _ F1)|done|].
  intros _ c2 (H2 & F2 & _). assert (send_frame c c2) as F02 by (by etransitivity). apply wp_bind.
  eapply wp_mono; [apply (drain_handled app_allowed c); [done|..]|].
  - rewrite (sf_state _ _ F02). apply app_allowed_refl.
  - left. apply (sf_closed _ _ F02).
  - intros pkts c3 H3. by apply wp_ret.
Qed.

Lemma Conn_Write_inv b c :
  conn_inv c -> c_outgoing c = [] ->
  wp (Conn_Write now b) (fun res => handled app_allowed c res.2) c.
Proof.
  intros H Hout. unfold Conn_Write. wp_read.
  assert (handled app_allowed c [] c) as Hidle.
  { unfold handled. rewrite app_allowed_refl. split_and!; try done. by left. }
  destruct (c_closed c); [by apply wp_ret|].
  destruct (_ && _) eqn:Est; [by apply wp_ret|].
  assert (open_state (c_state c)) as Ho.
  { split; intros E; rewrite E in Est; by vm_compute in Est. }
  destruct (ci_open c H Ho). apply write_from_inv; done || lia.
Qed.

Lemma Conn_Write_resume_inv b written c :
  conn_inv c -> c_outgoing c = [] -> is_Some (c_sendBuf c) -> is_Some (c_recvBuf c) ->
  0 <= written <= len b ->
  wp (Conn_Write_resume now b written) (fun res => handled app_allowed c res.2) c.
Proof.
  intros H Hout Hs Hr Hw. unfold Conn_Write_resume. wp_read.
  destruct (c_closed c); [|by apply write_from_inv]. apply wp_ret. unfold handled.
  rewrite app_allowed_refl. split_and!; try done. by left.
Qed.

(** Entering a closing state and sending the FIN. *)
Lemma close_fin_inv c0 c st :
  conn_inv c -> open_state (c_state c) -> open_state st ->
  (data_state st -> data_state (c_state c)) ->
  app_allowed (c_state c0) st = true -> c_closed c = c_closed c0 ->
  wp (set_state st ;; queueFIN now ;; startRTO now ;; drainOutgoing) (handled app_allowed c0) c.
Proof.
  intros H Ho Hst Hd Ha Hc. apply wp_bind. unfold set_state. apply wp_modify.
  match goal with |- wp _ _ ?x => set (c1 := x) end.
  assert (conn_inv c1) as H1 by (inv_update; auto). apply wp_bind.
  wp_call queueFIN_inv; [exact H1|done|]. intros _ c2 (H2 & F2). apply wp_bind.
  wp_call startRTO_inv; [done|]. intros _ c3 (H3 & F3 & _).
  assert (send_frame c1 c3) as F13 by (by etransitivity).
  apply drain_handled; [done|by rewrite (sf_state _ _ F13)|]. left. rewrite (sf_closed _ _ F13). done.
Qed.

Lemma close_now_inv c m :
  conn_inv c -> c_outgoing c = [] ->
  m = (set_state StateClosed ;; modify (fun c => c <| c_closed := true |>) ;;
       stopRTO ;; stopKeepalive ;; stopPersist ;; ret []) \/
  m = (modify (fun c => c <| c_closed := true |>) ;; set_state StateClosed ;;
       stopRTO ;; stopKeepalive ;; stopPersist ;; ret []) ->
  wp m (handled app_allowed c) c.
Proof.
  intros H Hout Hm. assert (0 <= MaxRTO) as Hmax by done. pose proof (set_closed_inv c H) as Hc.
  unfold set_state, stopRTO, stopKeepalive, stopPersist in Hm.
  destruct Hm as [-> | ->]; wp_steps; unfold handled, app_allowed; conn_cbn;
    rewrite (bool_decide_true (StateClosed = StateClosed)), orb_true_r by done;
    (split_and!; try done; [inv_update|by right]).
Qed.

Lemma Conn_Close_inv c :
  conn_inv c -> c_outgoing c = [] ->
  wp (Conn_Close now) (fun res => handled app_allowed c res.2) c.
Proof.
  intros H Hout. unfold Conn_Close. wp_read.
  assert (handled app_allowed c [] c) as Hidle.
  { unfold handled. rewrite app_allowed_refl. split_and!; try done. by left. }
  destruct (c_closed c); [by apply wp_ret|].
  assert (forall m, wp m (handled app_allowed c) c ->
    wp (pkts <- m ;; recvCond_Broadcast ;; sendCond_Broadcast ;; ret (true, pkts))
      (fun res => handled app_allowed c res.2) c) as Hfin.
  { intros m Hm. apply wp_bind. eapply wp_mono; [exact Hm|].
    intros pkts c1 (H1 & A1 & C1 & O1 & P1). unfold recvCond_Broadcast, sendCond_Broadcast.
    wp_steps. cbn [snd]. unfold handled, closed_step in *. conn_cbn. split_and!; try done. inv_update. }
  cbv zeta. destruct (c_state c) eqn:Es; try (by apply wp_ret); apply Hfin;
    try (apply close_now_inv; auto; fail).
  - apply close_fin_inv; rewrite ?Es; done.
  - destruct (inv_buffers c H) as (s & r & Eb & Er & _); [by rewrite Es|]. apply wp_bind.
    wp_call flushSendQueue_spec; [done|by rewrite Er|done|]. intros _ c1 (H1 & F1 & _).
    apply close_fin_inv; rewrite ?(sf_state _ _ F1), ?Es; try done. apply (sf_closed _ _ F1).
  - apply close_fin_inv; rewrite ?Es; done.
Qed.

Lemma Conn_Abort_inv c :
  conn_inv c -> c_outgoing c = [] -> wp Conn_Abort (handled app_allowed c) c.
Proof.
  intros H Hout. unfold Conn_Abort. wp_read. assert (0 <= MaxRTO) as Hmax by done.
  destruct (bool_decide _); [apply idle_handled; [apply app_allowed_refl|done..]|]. cbv zeta.
  unfold set_state, stopRTO, stopKeepalive, stopPersist.
  repeat (apply wp_bind, wp_modify; cbv beta). match goal with |- wp _ _ ?x => set (c1 := x) end.
  pose proof (set_closed_inv c H) as Hc. assert (conn_inv c1) as H1 by inv_update. apply wp_bind.
  eapply (wp_mono _ (fun pkts c' => handled app_allowed c pkts c' /\ c_state c' = StateClosed)).
  { assert (handled app_allowed c [] c1 /\ c_state c1 = StateClosed) as Hidle.
    { split; [|done]. unfold handled, app_allowed. unfold c1 at 2; conn_cbn.
      rewrite (bool_decide_true (StateClosed = StateClosed)), orb_true_r by done.
      split_and!; try done. by right. }
    destruct (c_sendBuf c) as [s|] eqn:Es; [|by apply wp_ret].
    destruct (c_recvBuf c); [|by apply wp_ret]. case_match; [|by apply wp_ret].
    apply wp_bind. wp_call queueRST_inv; [done|apply (ci_sendBuf c H s Es)|]. intros _ c2 (H2 & F2).
    apply wp_and; [apply drain_handled; [done|..]|].
    - rewrite (sf_state _ _ F2). unfold app_allowed.
      rewrite (bool_decide_true (c_state c1 = StateClosed)), orb_true_r by done. done.
    - right. by rewrite (sf_state _ _ F2), (sf_closed _ _ F2).
    - wp_call drainOutgoing_inv; [done|]. intros p c3 (_ & F3 & _).
      by rewrite (sf_state _ _ F3), (sf_state _ _ F2). }
  intros pkts c2 ((H2 & A2 & C2 & O2 & P2) & E2).
  unfold recvCond_Broadcast, sendCond_Broadcast, safeCloseEstablished, safeCloseFinRecvd,
    recvCond_Broadcast.
  wp_steps; unfold handled, closed_step in *; conn_cbn; (split_and!; try done; inv_update).
Qed.
End reach.

(** ** The transition system *)

(** Everything that can happen to a connection: a segment arrives, a timer
    fires (at any time: a callback may already wait for the mutex when its timer
    is stopped), the application calls. *)
Inductive conn_op :=
  | OpSegment (seg : Segment)
  | OpRTOTimeout | OpPersistTimeout | OpTimeWaitExpired | OpKeepalive
  | OpConnect (iss : Z) | OpConnectFinish (sel : connect_select)
  | OpAcceptSYN (iss : Z) (syn : Segment)
  | OpAcceptCookie (remoteSeq ourISS mss : Z) (data : list byte)
  | OpSetupForHandshake (iss : Z)
  | OpRead (n : Z)
  | OpWrite (b : list byte) | OpWriteResume (b : list byte) (written : Z)
  | OpClose | OpAbort
  | OpSetDeadline (t : option Z) | OpSetReadDeadline (t : option Z) | OpSetWriteDeadline (t : option Z).

(** The packets the operation hands to the network. *)
Definition conn_exec {F : Float64} (now : Z) (op : conn_op) : M Conn packets :=
  match op with
  | OpSegment seg => HandleSegment now seg
  | OpRTOTimeout => onRTOTimeout now
  | OpPersistTimeout => onPersistTimeout now
  | OpTimeWaitExpired => onTimeWaitExpired ;; ret []
  | OpKeepalive => onKeepalive now
  | OpConnect iss => o <- Connect_start now iss ;; ret (default [] o)
  | OpConnectFinish sel => Connect_finish sel ;; ret []
  | OpAcceptSYN iss syn => AcceptSYN now iss syn
  | OpAcceptCookie rs iss mss d => AcceptCookie now rs iss mss d
  | OpSetupForHandshake iss => SetupForHandshake iss ;; ret []
  | OpRead n => Conn_Read now n ;; ret []
  | OpWrite b => res <- Conn_Write now b ;; ret res.2
  | OpWriteResume b w => res <- Conn_Write_resume now b w ;; ret res.2
  | OpClose => res <- Conn_Close now ;; ret res.2
  | OpAbort => Conn_Abort
  | OpSetDeadline t => SetDeadline t ;; ret []
  | OpSetReadDeadline t => SetReadDeadline t ;; ret []
  | OpSetWriteDeadline t => SetWriteDeadline t ;; ret []
  end.

(** Arguments in their machine ranges; a resumed [Write] started on an open
    connection; a cookie carries a positive MSS. *)
Definition op_ok (c : Conn) (op : conn_op) : Prop :=
  match op with
  | OpSegment seg => seg_ok seg
  | OpConnect iss | OpSetupForHandshake iss => is_u32 iss
  | OpAcceptSYN iss syn => is_u32 iss /\ seg_ok syn
  | OpAcceptCookie rs iss mss d => is_u32 rs /\ 0 < mss < 2 ^ 16 /\ len d < 2 ^ 16
  | OpRead n => 0 <= n
  | OpWriteResume b w => is_Some (c_sendBuf c) /\ is_Some (c_recvBuf c) /\ 0 <= w <= len b
  | _ => True
  end.

Definition op_allowed (op : conn_op) : State -> State -> bool :=
  match op with
  | OpSegment _ => segment_allowed
  | OpRTOTimeout | OpPersistTimeout | OpTimeWaitExpired | OpKeepalive => timer_allowed
  | OpSetupForHandshake _ => fun _ s' => bool_decide (s' = StateSynSent)
  | _ => app_allowed
  end.

Definition config_ok (cfg : ConnConfig) : Prop :=
  is_u16 (cfg_LocalPort cfg) /\ is_u16 (cfg_RemotePort cfg) /\ cfg_MSS cfg < 2 ^ 30 /\
  cfg_SendBufSize cfg < 2 ^ 30 /\
  (cfg_RecvBufSize cfg <= 0 \/ 2 ^ 16 <= cfg_RecvBufSize cfg <= 2 ^ 30).

Section system.
Context {F : Float64}.

Definition conn_init (c : Conn) : Prop := exists now cfg, config_ok cfg /\ c = NewConn now cfg.

Definition conn_step (c c' : Conn) : Prop :=
  exists now op pkts, op_ok c op /\ conn_exec now op c = Ok (pkts, c').

Definition conn_reachable : Conn -> Prop := reachable conn_init conn_step.

(** Between operations the queue is empty, and nothing ever listens. *)
Definition conn_idle (c : Conn) : Prop :=
  conn_inv c /\ c_outgoing c = [] /\ c_state c <> StateListen.

Lemma NewConn_idle now cfg : config_ok cfg -> conn_idle (NewConn now cfg).
Proof.
  intros (Hl & Hr & Hm & Hs & Hb).
  assert (0 < ConnConfig_mss cfg < 2 ^ 30) as Hmss.
  { unfold ConnConfig_mss, DefaultMSS. case_match; zbool; lia. }
  split_and!; [|done|done]. split; cbn; try done.
  - unfold ConnConfig_recvBufSize. case_match; zbool; [lia|done].
  - case_match; zbool; [done|lia].
  - apply newCongestionController_inv. rewrite wrap32_small; unfold is_u32; lia.
  - by intros [].
Qed.

Lemma exec_safe now op c :
  conn_idle c -> op_ok c op ->
  wp (conn_exec now op) (fun pkts c' => handled (op_allowed op) c pkts c' /\ c_state c' <> StateListen) c.
Proof.
  intros (H & Hout & Hl) Hop.
  assert (forall allowed pkts c', handled allowed c pkts c' ->
    (forall s, allowed s StateListen = true -> s = StateListen) ->
    handled allowed c pkts c' /\ c_state c' <> StateListen) as Hlis.
  { intros allowed pkts c' Hh Ha. split; [done|]. intros E. apply Hl.
    destruct Hh as (_ & A & _). apply Ha. by rewrite <- E. }
  assert (forall s, segment_allowed s StateListen = true -> s = StateListen) as L1
    by (by intros []).
  assert (forall s, timer_allowed s StateListen = true -> s = StateListen) as L2
    by (by intros []).
  assert (forall s, app_allowed s StateListen = true -> s = StateListen) as L3
    by (by intros []).
  assert (forall c', conn_inv c' -> c_state c' = c_state c -> c_closed c' = c_closed c ->
    c_outgoing c' = c_outgoing c -> handled app_allowed c [] c') as Hsame.
  { intros c' H' E1 E2 E3. unfold handled. rewrite E1, app_allowed_refl, E3.
    split_and!; try done. by left. }
  destruct op; cbn [conn_exec op_allowed op_ok] in *;
    try (lazymatch goal with |- wp (bind _ _) _ _ => apply wp_bind end);
    unfold SetDeadline, SetReadDeadline, SetWriteDeadline, recvCond_Broadcast, sendCond_Broadcast.
  - wp_call HandleSegment_inv; [done..|]. eauto.
  - wp_call onRTOTimeout_inv; [done..|]. eauto.
  - wp_call onPersistTimeout_inv; [done..|]. eauto.
  - wp_call onTimeWaitExpired_inv; [done..|]. intros [] c' Hh. apply wp_ret. eauto.
  - wp_call onKeepalive_inv; [done..|]. eauto.
  - wp_call Connect_start_inv; [done..|]. intros o c' Hh. apply wp_ret. eauto.
  - destruct sel; cbn [Connect_finish]; [apply wp_ret, wp_ret; eauto|].
    apply wp_bind. wp_call Conn_Abort_inv; [done..|]. intros pkts c' (A & B & C & D & E).
    apply wp_ret, wp_ret. apply Hlis; [|done]. unfold handled. split_and!; done.
  - destruct Hop. wp_call AcceptSYN_inv; [done..|]. eauto.
  - destruct Hop as (? & ? & ?). wp_call AcceptCookie_inv; [done..|]. eauto.
  - wp_call SetupForHandshake_inv; [done..|]. intros [] c' (H' & E1 & E2 & E3). apply wp_ret.
    split; [|by rewrite E1]. unfold handled. rewrite E1, E3. split_and!; try done. by left.
  - wp_call Conn_Read_inv; [done..|]. intros res c' (H' & E1 & E2 & E3). apply wp_ret.
    apply Hlis; [by apply Hsame|done].
  - wp_call Conn_Write_inv; [done..|]. intros res c' Hh. apply wp_ret. eauto.
  - destruct Hop as (? & ? & ?). wp_call Conn_Write_resume_inv; [done..|]. intros res c' Hh. apply wp_ret. eauto.
  - wp_call Conn_Close_inv; [done..|]. intros res c' Hh. apply wp_ret. eauto.
  - wp_call Conn_Abort_inv; [done..|]. eauto.
  - wp_steps. apply Hlis; [|done]. apply Hsame; [inv_update|done..].
  - wp_steps. apply Hlis; [|done]. apply Hsame; [inv_update|done..].
  - wp_steps. apply Hlis; [|done]. apply Hsame; [inv_update|done..].
Qed.

Lemma reachable_idle c : conn_reachable c -> conn_idle c.
Proof.
  apply reachable_invariant.
  - intros ? (now & cfg & Hc & ->). by apply NewConn_idle.
  - intros c0 c1 H (now & op & pkts & Hop & E).
    destruct (wp_run _ _ _ _ _ E (exec_safe now op c0 H Hop)) as ((H1 & _ & _ & O1 & _) & L1).
    done.
Qed.
End system.

(** ** Theorems *)

(** C2: the connection never panics and never loops: from every state reachable through
    any interleaving of arriving segments (whatever their header fields, options and
    payload), timer callbacks and application calls, every further operation returns, and
    the result again satisfies the connection's invariant. *)
Theorem conn_never_panics {F : Float64} (c : Conn) (now : Z) (op : conn_op)
  (Hc : conn_reachable c) (Hop : op_ok c op) :
  exists pkts c', conn_exec now op c = Ok (pkts, c') /\ conn_inv c'.
Proof.
  destruct (wp_inv _ _ _ (exec_safe now op c (reachable_idle c Hc) Hop))
    as (pkts & c' & E & (H' & _) & _). eauto.
Qed.

Definition example_config : ConnConfig :=
  mkConnConfig 4242 80 0 false true true CCNewReno true 0 0 0 0 0.

Lemma conn_never_panics_witness :
  exists pkts c', conn_exec (F := Q_float) 7 (OpConnect 4294967295) (NewConn 0 example_config)
    = Ok (pkts, c') /\ conn_inv (F := Q_float) c'.
Proof.
  apply (conn_never_panics (F := Q_float)).
  - apply reach_init. exists 0, example_config. split; [|reflexivity].
    unfold config_ok, is_u16. cbn. lia.
  - cbn. unfold is_u32. lia.
Defined.

(** C6: the state moves only along the edges of the TCP state diagram: in one operation a
    reachable connection goes from its state to one the diagram of that kind of operation
    allows (segment, timer or application call), and the closed flag is set only on
    entering CLOSED and never cleared. *)
Theorem conn_state_diagram {F : Float64} (c c' : Conn) (now : Z) (op : conn_op) (pkts : packets)
  (Hc : conn_reachable c) (Hop : op_ok c op) (E : conn_exec now op c = Ok (pkts, c')) :
  op_allowed op (c_state c) (c_state c') = true /\ closed_step c c' /\ c_state c' <> StateListen.
Proof.
  destruct (wp_run _ _ _ _ _ E (exec_safe now op c (reachable_idle c Hc) Hop))
    as ((_ & A & C & _) & L). done.
Qed.

Lemma example_init : conn_reachable (F := Q_float) (NewConn 0 example_config).
Proof.
  apply reach_init. exists 0, example_config. split; [|reflexivity].
  unfold config_ok, is_u16. cbn. lia.
Qed.

Lemma conn_state_diagram_witness :
  exists pkts c', conn_exec (F := Q_float) 7 (OpConnect 5) (NewConn 0 example_config) = Ok (pkts, c') /\
    app_allowed StateClosed (c_state c') = true.
Proof.
  destruct (conn_exec (F := Q_float) 7 (OpConnect 5) (NewConn 0 example_config))
    as [[pkts c']|] eqn:E; [|exfalso; vm_compute in E; congruence].
  exists pkts, c'. split; [reflexivity|].
  apply (conn_state_diagram (F := Q_float) (NewConn 0 example_config) c' 7 (OpConnect 5) pkts).
  - apply example_init.
  - cbn. unfold is_u32. lia.
  - exact E.
Defined.

(** C31: every packet a reachable connection hands to the network is a well-formed TCP
    segment between its two ports: it parses, and its fields and options fit the header. *)
Theorem conn_packets_wellformed {F : Float64} (c c' : Conn) (now : Z) (op : conn_op)
  (pkts : packets) (p : list byte)
  (Hc : conn_reachable c) (Hop : op_ok c op) (E : conn_exec now op c = Ok (pkts, c'))
  (Hp : p ∈ pkts) :
  exists seg, ParseSegment p = inr seg /\ segment_wf seg /\
    SrcPort seg = c_localPort c' /\ DstPort seg = c_remotePort c'.
Proof.
  destruct (wp_run _ _ _ _ _ E (exec_safe now op c (reachable_idle c Hc) Hop))
    as ((_ & _ & _ & _ & Hpk) & _).
  rewrite Forall_forall in Hpk. destruct (Hpk p Hp) as (seg & Hwf & Es & Ed & ->).
  exists (seg <| Checksum := 0 |>). split; [by apply parse_marshal|]. done.
Qed.

Lemma conn_packets_wellformed_witness :
  exists pkts c', conn_exec (F := Q_float) 7 (OpConnect 5) (NewConn 0 example_config) = Ok (pkts, c') /\
    forall p, p ∈ pkts -> exists seg, ParseSegment p = inr seg /\ segment_wf seg.
Proof.
  destruct (conn_exec (F := Q_float) 7 (OpConnect 5) (NewConn 0 example_config))
    as [[pkts c']|] eqn:E; [|exfalso; vm_compute in E; congruence].
  exists pkts, c'. split; [reflexivity|]. intros p Hp.
  destruct (conn_packets_wellformed (F := Q_float) (NewConn 0 example_config) c' 7 (OpConnect 5)
    pkts p) as (seg & Es & Hw & _).
  - apply example_init.
  - cbn. unfold is_u32. lia.
  - exact E.
  - exact Hp.
  - exists seg. split; [exact Es|exact Hw].
Defined.
