(* ===== verification/ConnProps.v ===== *)
(** What a connection does with a segment: flow control on the way out, the
    advertised window, resets, segments outside the window, data in order, and
    giving up after repeated timeouts. *)

From S2P Require Import Prelude SeqSpace TcpOptions Segment Rto Congestion SendBuf RecvBuf.
From S2P Require Import ConnState ConnOps ConnApp ConnInv ConnSafe ConnReach.

(** ** A connection to evaluate theorems on *)

(** An established connection, opened through a SYN cookie. *)
Definition example_conn : Conn :=
  match conn_exec (F := Q_float) 5 (OpAcceptCookie 1000 2000 1400 []) (NewConn 0 example_config) with
  | Ok (_, c) => c
  | Panic => NewConn 0 example_config
  end.

Lemma example_conn_reachable : conn_reachable (F := Q_float) example_conn.
Proof.
  unfold example_conn. pose proof example_init as Hi. unfold conn_reachable in *.
  destruct (conn_exec 5 (OpAcceptCookie 1000 2000 1400 []) (NewConn 0 example_config))
    as [[pkts c]|] eqn:E; [|exact Hi].
  apply (reach_step _ _ _ _ Hi). exists 5, (OpAcceptCookie 1000 2000 1400 []), pkts.
  split; [|exact E]. unfold op_ok, is_u32. cbn [length]. lia.
Qed.

Lemma example_conn_state :
  c_state example_conn = StateEstablished /\
  c_sendBuf example_conn = Some (mkSendBuf [] DefaultSendBuf 2001 2001 []) /\
  c_recvBuf example_conn = Some (mkRecvBuf [] 1000 [] DefaultRecvBuf) /\
  c_closed example_conn = false.
Proof. vm_compute. done. Qed.

(** The connection after an operation. *)
Definition conn_after (now : Z) (op : conn_op) (c : Conn) : Conn :=
  match conn_exec (F := Q_float) now op c with Ok (_, c') => c' | Panic => c end.

Lemma conn_after_reachable now op c :
  conn_reachable (F := Q_float) c -> op_ok c op -> conn_reachable (F := Q_float) (conn_after now op c).
Proof.
  intros Hc Hop. unfold conn_after. destruct (conn_exec now op c) as [[pkts c']|] eqn:E; [|done].
  apply (reach_step _ _ _ _ Hc). by exists now, op, pkts.
Qed.

(** The peer closes its window, three bytes are written, and the peer opens the
    window again. *)
Definition window_of (w : Z) : Segment := mkSegment 80 4242 1000 2001 FlagACK w 0 0 [] [].
Definition example_opened : Conn :=
  conn_after 8 (OpSegment (window_of 100))
    (conn_after 7 (OpWrite [Byte.x61; Byte.x62; Byte.x63]) (conn_after 6 (OpSegment (window_of 0)) example_conn)).

Lemma example_opened_reachable : conn_reachable (F := Q_float) example_opened.
Proof.
  assert (forall w, is_u16 w -> seg_ok (window_of w)) as Hw
    by (intros w; unfold window_of, seg_ok, is_u32, is_u16; cbn; lia).
  apply conn_after_reachable; [apply conn_after_reachable; [apply conn_after_reachable; [apply example_conn_reachable|]|]|];
    cbn [op_ok]; [by apply Hw|done|by apply Hw].
Qed.

(** The window is taken from a segment after what its ACK lets go has been
    flushed, and nothing is flushed then: the bytes that fit the new window wait
    for the persist timer. *)
Example window_update_not_flushed :
  c_sendBuf example_opened = Some (mkSendBuf [Byte.x61; Byte.x62; Byte.x63] DefaultSendBuf 2001 2001 []) /\
  c_sndWnd example_opened = 100 /\ c_outgoing example_opened = [] /\ c_state example_opened = StateEstablished.
Proof. by vm_compute. Qed.

Section props.
Context {F : Float64} (now : Z).
Implicit Types (c : Conn).

(** HandleSegment in a synchronized state. *)
Definition touched c : Conn := c <| c_lastRecv := now |> <| c_keepaliveSent := 0 |>.

Definition synchronized (st : State) : Prop := open_state st /\ st <> StateSynSent.

Lemma HandleSegment_synchronized seg c :
  synchronized (c_state c) -> HandleSegment now seg c = handleSynchronized now seg (touched c).
Proof.
  intros [[H1 H2] H3]. unfold HandleSegment, bind, modify, get. fold (touched c).
  change (c_state (touched c)) with (c_state c). destruct (c_state c); done.
Qed.

Lemma wp_synchronized seg c Q :
  synchronized (c_state c) -> wp (handleSynchronized now seg) Q (touched c) ->
  wp (HandleSegment now seg) Q c.
Proof. intros Hs Hw. unfold wp. by rewrite HandleSegment_synchronized. Qed.

(** An ACK of the current numbers, and nothing else. *)
Definition ack_packet c (s : SendBuf) (r : RecvBuf) : list byte :=
  Segment_Marshal (addOptions now c
    (conn_segment c (SendBuf_NXT s) (RecvBuf_Nxt r) FlagACK (rcvWindow c) [] [])).

Lemma queueACK_exact c s r :
  c_sendBuf c = Some s -> c_recvBuf c = Some r ->
  queueACK now c = Ok ((), c <| c_outgoing := c_outgoing c ++ [ack_packet c s r] |>).
Proof.
  intros Es Er. unfold queueACK, bind, get, sendBuf, recvBuf, deref. by rewrite Es, Er.
Qed.

Lemma answer_ack c s r :
  c_sendBuf c = Some s -> c_recvBuf c = Some r -> c_outgoing c = [] ->
  (queueACK now ;; drainOutgoing) c = Ok ([ack_packet c s r], c <| c_outgoing := [] |>).
Proof.
  intros Es Er Eo. unfold bind. rewrite (queueACK_exact c s r Es Er), Eo. done.
Qed.

Lemma drain_empty c : c_outgoing c = [] -> drainOutgoing c = Ok ([], c <| c_outgoing := [] |>).
Proof. intros E. unfold drainOutgoing, bind, gets, modify, ret. by rewrite E. Qed.
End props.

(** ** Theorems *)



(** segments outside the window are inert: in every synchronized state but
    SYN-RECEIVED, an unacceptable segment changes nothing of the connection but the time
    of last reception, and is answered by exactly one ACK of the current numbers (by
    nothing if it is a reset). *)
Theorem unacceptable_segment_inert {F : Float64} (now : Z) (c : Conn) (seg : Segment)
  (s : SendBuf) (r : RecvBuf) (Hc : conn_reachable c) (Hst : synchronized (c_state c))
  (Hsr : c_state c <> StateSynReceived) (Es : c_sendBuf c = Some s) (Er : c_recvBuf c = Some r)
  (Hacc : segmentAcceptable seg c = false) :
  HandleSegment now seg c =
    Ok (if Segment_HasFlag seg FlagRST then [] else [ack_packet now c s r],
        (touched now c) <| c_outgoing := [] |>).
Proof.
  destruct (reachable_idle c Hc) as (H & Hout & _).
  rewrite HandleSegment_synchronized by done. unfold handleSynchronized, bind at 1, get.
  change (segmentAcceptable seg (touched now c)) with (segmentAcceptable seg c). rewrite Hacc.
  unfold bind at 1, synRcvdOK, bind at 1, get. change (c_state (touched now c)) with (c_state c).
  rewrite (bool_decide_false (c_state c = StateSynReceived)) by done. cbn [andb negb ret].
  destruct (Segment_HasFlag seg FlagRST); cbn [negb when].
  - unfold bind, ret. by apply drain_empty.
  - exact (answer_ack now (touched now c) s r Es Er Hout).
Qed.

Lemma unacceptable_segment_inert_witness :
  HandleSegment (F := Q_float) 9 (mkSegment 80 4242 3000000000 2001 FlagACK 100 0 0 [] []) example_conn
  = Ok ([ack_packet 9 example_conn (mkSendBuf [] DefaultSendBuf 2001 2001 [])
           (mkRecvBuf [] 1000 [] DefaultRecvBuf)],
        (touched 9 example_conn) <| c_outgoing := [] |>).
Proof.
  destruct example_conn_state as (Est & Esb & Erb & _).
  apply (unacceptable_segment_inert (F := Q_float) 9 example_conn
    (mkSegment 80 4242 3000000000 2001 FlagACK 100 0 0 [] [])).
  - apply example_conn_reachable.
  - rewrite Est. split; [split|]; discriminate.
  - rewrite Est. discriminate.
  - exact Esb.
  - exact Erb.
  - vm_compute. reflexivity.
Defined.

(** Everything a reset must not touch. *)
Definition unharmed (c c' : Conn) : Prop :=
  c_state c' = c_state c /\ c_closed c' = c_closed c /\ c_sendBuf c' = c_sendBuf c /\
  c_recvBuf c' = c_recvBuf c /\ c_finRecvd c' = c_finRecvd c.

Section rst.
Context {F : Float64} (now : Z).
Implicit Types (c : Conn).

Lemma next_acceptable seg c r :
  is_u32 (rb_nxt r) -> 2 ^ 16 <= c_recvBufCap c <= 2 ^ 30 ->
  c_recvBuf c = Some r -> Seq seg = RecvBuf_Nxt r -> segmentAcceptable seg c = true.
Proof.
  intros Hn HW Er Eq.
  unfold segmentAcceptable. rewrite Er, Eq. unfold RecvBuf_Nxt in *.
  rewrite (wrap32_small (c_recvBufCap c)) by (unfold is_u32; lia).
  replace (c_recvBufCap c =? 0) with false by lia.
  assert (SeqInRange (rb_nxt r) (rb_nxt r) (wrap32 (rb_nxt r + c_recvBufCap c)) = true) as ->.
  { assert (rb_nxt r = seq_at (rb_nxt r) 0) as E0 by (unfold seq_at; mlia).
    unfold SeqInRange. fold (seq_at (rb_nxt r) (c_recvBufCap c)).
    rewrite E0 at 1 2. rewrite SeqAfterEq_at by (unfold near; lia).
    rewrite E0 at 1. rewrite SeqBefore_at by (unfold near; lia). lia. }
  by replace (c_recvBufCap c =? 0) with false by lia; destruct (_ =? 0).
Qed.

Lemma in_order_acceptable seg c r :
  conn_inv c -> c_recvBuf c = Some r -> Seq seg = RecvBuf_Nxt r -> segmentAcceptable seg c = true.
Proof.
  intros H Er Eq. destruct (ci_recvBuf c H r Er) as [Hn _].
  by apply (next_acceptable seg c r Hn (ci_recvBufCap c H)).
Qed.

Lemma drain_unharmed c c1 :
  conn_inv c1 -> unharmed c c1 -> wp drainOutgoing (fun _ c' => unharmed c c') c1.
Proof.
  intros H (U1 & U2 & U3 & U4 & U5). wp_call drainOutgoing_inv; [done|].
  intros pkts c2 (_ & [] & _ & S2 & _). unfold unharmed. split_and!; congruence.
Qed.

Lemma ack_unharmed c c1 :
  conn_inv c1 -> open_state (c_state c1) -> unharmed c c1 ->
  wp (queueACK now ;; drainOutgoing) (fun _ c' => unharmed c c') c1.
Proof.
  intros H Ho (U1 & U2 & U3 & U4 & U5). apply wp_bind. wp_call queueACK_inv; [done..|].
  intros _ c2 (H2 & [] & S2). apply drain_unharmed; [done|]. unfold unharmed. split_and!; congruence.
Qed.

Lemma rst_accepted seg c r :
  conn_inv c -> synchronized (c_state c) -> Segment_HasFlag seg FlagRST = true ->
  c_recvBuf c = Some r -> Seq seg = RecvBuf_Nxt r ->
  wp (HandleSegment now seg) (fun _ c' => c_state c' = StateClosed /\ c_closed c' = true) c.
Proof.
  intros H Hst Hf Er Eq. apply wp_synchronized; [done|].
  assert (conn_inv (touched now c)) as H1 by inv_update.
  unfold handleSynchronized. wp_read. rewrite (in_order_acceptable seg _ r H1 Er Eq).
  apply wp_bind, wp_ret. cbn [negb]. rewrite Hf. apply wp_bind.
  unfold validateRST. wp_read. change (c_state (touched now c)) with (c_state c).
  change (c_recvBuf (touched now c)) with (c_recvBuf c). rewrite Er, Eq, Z.eqb_refl.
  destruct Hst as [_ Hns].
  destruct (c_state c) eqn:Es; try done;
    (apply wp_ret, wp_bind; wp_call teardown_inv; [exact H1|]; intros _ c2 (H2 & E2 & C2);
     wp_call drainOutgoing_inv; [done|]; intros p c3 (_ & [] & _); split; congruence).
Qed.

Lemma rst_ignored seg c r :
  conn_inv c -> synchronized (c_state c) -> Segment_HasFlag seg FlagRST = true ->
  c_recvBuf c = Some r -> Seq seg <> RecvBuf_Nxt r ->
  wp (HandleSegment now seg) (fun _ c' => unharmed c c') c.
Proof.
  intros H Hst Hf Er Eq. apply wp_synchronized; [done|].
  change (wp (handleSynchronized now seg) (fun _ c' => unharmed (touched now c) c') (touched now c)).
  assert (conn_inv (touched now c)) as H1 by inv_update.
  assert (open_state (c_state (touched now c))) as Ho by apply Hst.
  assert (unharmed (touched now c) (touched now c)) as Hu by done.
  unfold handleSynchronized. wp_read. apply wp_bind.
  eapply (wp_mono _ (fun _ c' => c' = touched now c)).
  { case_match; [by apply wp_ret|by apply synRcvdOK_pure]. }
  intros proceed _ ->. rewrite Hf. destruct proceed; cbn [negb when].
  2: { apply wp_bind, wp_ret. by apply drain_unharmed. }
  apply wp_bind. unfold validateRST. wp_read.
  change (c_state (touched now c)) with (c_state c).
  change (c_recvBuf (touched now c)) with (c_recvBuf c). rewrite Er.
  replace (Seq seg =? RecvBuf_Nxt r) with false by lia.
  destruct Hst as [_ Hns].
  destruct (c_state c) eqn:Es; try done;
    (case_match; apply wp_ret; cbn [negb]; [by apply ack_unharmed|by apply drain_unharmed]).
Qed.
End rst.

(** C12: blind resets are refused (RFC 5961): on a reachable connection in a synchronized
    state a RST closes the connection exactly when its sequence number is RCV.NXT; any
    other leaves the state, both buffers and the end-of-file mark as they were. *)
Theorem rst_only_exact {F : Float64} (now : Z) (c : Conn) (seg : Segment) (r : RecvBuf)
  (Hc : conn_reachable c) (Hst : synchronized (c_state c))
  (Hf : Segment_HasFlag seg FlagRST = true) (Er : c_recvBuf c = Some r) :
  exists pkts c', HandleSegment now seg c = Ok (pkts, c') /\
    (Seq seg = RecvBuf_Nxt r -> c_state c' = StateClosed /\ c_closed c' = true) /\
    (Seq seg <> RecvBuf_Nxt r -> unharmed c c').
Proof.
  destruct (reachable_idle c Hc) as (H & _). destruct (Z.eq_dec (Seq seg) (RecvBuf_Nxt r)) as [E|E].
  - destruct (wp_inv _ _ _ (rst_accepted now seg c r H Hst Hf Er E)) as (p & c' & Ex & Hp).
    exists p, c'. split_and!; done.
  - destruct (wp_inv _ _ _ (rst_ignored now seg c r H Hst Hf Er E)) as (p & c' & Ex & Hp).
    exists p, c'. split_and!; done.
Qed.

Lemma rst_only_exact_witness :
  exists pkts c', HandleSegment (F := Q_float) 9 (mkSegment 80 4242 1001 0 FlagRST 0 0 0 [] [])
    example_conn = Ok (pkts, c') /\ c_state c' = StateEstablished.
Proof.
  destruct example_conn_state as (Est & _ & Erb & _).
  destruct (rst_only_exact (F := Q_float) 9 example_conn (mkSegment 80 4242 1001 0 FlagRST 0 0 0 [] [])
    (mkRecvBuf [] 1000 [] DefaultRecvBuf) example_conn_reachable) as (p & c' & E & _ & Hu).
  - rewrite Est. split; [split|]; discriminate.
  - reflexivity.
  - exact Erb.
  - exists p, c'. split; [exact E|]. rewrite <- Est. apply Hu. cbn. lia.
Defined.

(** ** The advertised window *)

(** the window is never overstated: what the peer reads out of the header (the 16-bit
    field scaled back by our shift) is at most the space the receive buffer has, hence at
    most its size; and it is zero rather than a sliver smaller than both an MSS and half
    the buffer. *)
Theorem window_never_overstated (c : Conn) (r : RecvBuf)
  (Hcap : 0 < c_recvBufCap c < 2 ^ 32) (Hsh : 0 <= c_rcvWndShift c)
  (Er : c_recvBuf c = Some r) (HW : rb_windowSize r = c_recvBufCap c) :
  0 <= Z.shiftl (rcvWindow c) (if c_wscaleOK c then c_rcvWndShift c else 0)
    <= RecvBuf_Window r /\ RecvBuf_Window r <= c_recvBufCap c /\
  (RecvBuf_Window r < Z.min (c_mss c) (c_recvBufCap c / 2) -> rcvWindow c = 0).
Proof.
  assert (0 <= RecvBuf_Window r <= c_recvBufCap c) as Hw.
  { unfold RecvBuf_Window. rewrite HW, ooo_used. replace (c_recvBufCap c <=? 0) with false by lia.
    assert (0 <= foldr (fun e acc => len (e_data e) + acc) 0 (rb_ooo r)).
    { induction (rb_ooo r); simpl; lia. }
    case_match; [lia|]. zbool. rewrite wrap32_small; unfold is_u32; lia. }
  unfold rcvWindow, Conn_recvBufSize. rewrite Er. replace (0 <? c_recvBufCap c) with true by lia.
  cbv zeta. set (thr := if c_recvBufCap c / 2 <? c_mss c then c_recvBufCap c / 2 else c_mss c).
  assert (thr = Z.min (c_mss c) (c_recvBufCap c / 2)) as Ht.
  { unfold thr. case_match; zbool; lia. }
  set (a := if RecvBuf_Window r <? thr then 0 else RecvBuf_Window r).
  assert (0 <= a <= RecvBuf_Window r) as Ha by (unfold a; case_match; zbool; lia).
  assert (forall x, 0 <= x -> 0 <= wrap16 (if 65535 <? x then 65535 else x) <= x) as Hclip.
  { intros x Hx. case_match; zbool; rewrite wrap16_small; unfold is_u16; lia. }
  split_and!; try lia.
  - apply Z.shiftl_nonneg. destruct (c_wscaleOK c); apply Hclip; [apply Z.shiftr_nonneg|]; lia.
  - destruct (c_wscaleOK c).
    + rewrite Z.shiftl_mul_pow2 by done. rewrite Z.shiftr_div_pow2 by done.
      pose proof (Z.pow_pos_nonneg 2 (c_rcvWndShift c) ltac:(lia) Hsh) as Hp.
      pose proof (Z.mul_div_le a (2 ^ c_rcvWndShift c) Hp) as Hd.
      pose proof (Hclip (a / 2 ^ c_rcvWndShift c) ltac:(apply Z.div_pos; lia)) as Hc. nia.
    + rewrite Z.shiftl_0_r. pose proof (Hclip a ltac:(lia)). lia.
  - intros Hlt. assert (a = 0) as -> by (unfold a; case_match; zbool; lia).
    destruct (c_wscaleOK c); [rewrite Z.shiftr_0_l|]; done.
Qed.

Lemma window_never_overstated_witness :
  0 <= Z.shiftl (rcvWindow example_conn) (if c_wscaleOK example_conn then c_rcvWndShift example_conn else 0)
    <= RecvBuf_Window (mkRecvBuf [] 1000 [] DefaultRecvBuf).
Proof.
  refine (proj1 (window_never_overstated example_conn (mkRecvBuf [] 1000 [] DefaultRecvBuf) _ _ _ _)).
  - vm_compute. split; reflexivity.
  - vm_compute. discriminate.
  - apply example_conn_state.
  - vm_compute. reflexivity.
Defined.

(** ** Data in order *)

Section data.
Context {F : Float64} (now : Z).
Implicit Types (c : Conn).

Lemma processData_in_order seg c r :
  conn_inv c -> c_recvBuf c = Some r -> rb_ooo r = [] -> c_finPending c = false ->
  Seq seg = RecvBuf_Nxt r -> 0 < len (Payload seg) <= c_recvBufCap c ->
  wp (processData now seg) (fun _ c' =>
    c_recvBuf c' = Some (r <| rb_buf := rb_buf r ++ Payload seg |>
                           <| rb_nxt := wrap32 (rb_nxt r + len (Payload seg)) |>) /\
    c_state c' = c_state c /\ c_recvCond c' = S (c_recvCond c)) c.
Proof.
  intros H Er Ho Hf Eq Hl. destruct (ci_recvBuf c H r Er) as [Hn HW].
  pose proof (ci_recvBufCap c H) as Hcap.
  unfold processData. apply wp_bind. apply (wp_recvBuf _ _ r Er). apply wp_bind.
  eapply wp_lift; [rewrite Eq; apply (Insert_in_order (c_recvBufCap c)); done || lia|].
  apply wp_bind. unfold set_recvBuf. apply wp_modify. wp_read. conn_cbn. rewrite Hf. cbn [andb when].
  apply wp_bind, wp_ret. replace (0 <? len (Payload seg)) with true by lia. cbn [when].
  apply wp_bind. unfold recvCond_Broadcast. apply wp_modify, wp_ret. done.
Qed.

(** The segment as the fast path sees it: an acknowledgment with data and
    nothing else. *)
Definition plain_data (seg : Segment) : Prop :=
  Segment_HasFlag seg FlagACK = true /\ Segment_HasFlag seg FlagSYN = false /\
  Segment_HasFlag seg FlagFIN = false /\ Segment_HasFlag seg FlagRST = false.

Lemma deliver_wp seg c r :
  conn_inv c -> c_state c = StateEstablished -> seg_ok seg -> plain_data seg ->
  c_tsOK c = false -> c_finPending c = false ->
  c_recvBuf c = Some r -> rb_ooo r = [] -> Seq seg = RecvBuf_Nxt r -> 0 < len (Payload seg) ->
  wp (HandleSegment now seg) (fun pkts c' =>
    c_state c' = StateEstablished /\ c_recvCond c' = S (c_recvCond c) /\
    exists r', c_recvBuf c' = Some r' /\ rb_buf r' = rb_buf r ++ Payload seg /\
      rb_nxt r' = wrap32 (rb_nxt r + len (Payload seg)) /\
      exists before c4 s4, pkts = before ++ [ack_packet now c4 s4 r'] /\ conn_inv c4 /\ sb_safe s4) c.
Proof.
  intros H Es Hs (FA & FS & FF & FR) Hts Hfp Er Ho Eq Hl.
  apply wp_synchronized; [by rewrite Es|].
  assert (conn_inv (touched now c)) as H1 by inv_update.
  set (c1 := touched now c) in *.
  unfold handleSynchronized. wp_read. rewrite (in_order_acceptable seg c1 r H1 Er Eq).
  apply wp_bind, wp_ret. cbn [negb]. rewrite FR, FS, FA. cbn [andb negb].
  unfold dispatch. wp_read. change (c_state c1) with (c_state c). rewrite Es.
  unfold handleDataState. apply wp_bind. unfold updateTimestamp. wp_read.
  change (c_tsOK c1) with (c_tsOK c). rewrite Hts. apply wp_ret. cbn [negb]. apply wp_bind.
  wp_call ack_and_window_inv; [done|change (c_state c1) with (c_state c); by rewrite Es|done|].
  intros _ c2 (H2 & [E2 _ R2 K2 P2]). apply wp_bind. cbv zeta.
  replace (0 <? len (Payload seg)) with true by lia. cbn [when]. apply wp_bind.
  pose proof (ci_recvBufCap c2 H2). destruct Hs as (Hs1 & Hs2 & Hs3 & Hs4).
  eapply wp_mono; [apply (wp_and _ _ _ _ (processData_inv now c2 seg H2
    ltac:(by rewrite E2; change (c_state c1) with (c_state c); rewrite Es)
    ltac:(by rewrite E2; change (c_state c1) with (c_state c); rewrite Es)
    ltac:(done)) (processData_in_order seg c2 r H2 ltac:(by rewrite R2) Ho ltac:(by rewrite P2) Eq
    ltac:(lia)))|].
  intros _ c3 ((H3 & _) & R3 & E3 & K3). apply wp_bind. unfold processFIN. rewrite FF.
  assert (c_state c3 = StateEstablished) as Es3 by (rewrite E3, E2; exact Es).
  wp_read. rewrite Es3. cbn [andb]. rewrite bool_decide_false by done. cbn [andb when].
  apply wp_bind, wp_ret, wp_ret. cbn [orb when].
  destruct (inv_buffers c3 H3) as (s3 & r3 & S3 & R3' & Hsb & _); [by rewrite Es3|].
  unfold wp. rewrite (queueACK_exact now c3 s3 _ S3 R3).
  unfold drainOutgoing, bind, gets, modify, ret. conn_cbn.
  split; [done|]. split; [rewrite K3, K2; done|]. eexists. split; [exact R3|].
  split; [done|]. split; [done|]. eexists _, c3, s3. done.
Qed.
End data.

(** data in order is delivered, announced and acknowledged: an established connection
    that receives the next segment in order (no timestamps negotiated, nothing held out of
    order) appends exactly its payload to what [Read] will return, moves RCV.NXT past it,
    wakes a waiting reader, stays established, and ends its answer with a packet that
    parses to an ACK of the new RCV.NXT. *)
Theorem data_segment_delivered {F : Float64} (now : Z) (c : Conn) (seg : Segment) (r : RecvBuf)
  (Hc : conn_reachable c) (Est : c_state c = StateEstablished) (Hs : seg_ok seg)
  (Hp : plain_data seg) (Hts : c_tsOK c = false) (Hfp : c_finPending c = false)
  (Er : c_recvBuf c = Some r) (Ho : rb_ooo r = []) (Eq : Seq seg = RecvBuf_Nxt r)
  (Hl : 0 < len (Payload seg)) :
  exists pkts p c' r' a, HandleSegment now seg c = Ok (pkts ++ [p], c') /\
    c_state c' = StateEstablished /\ c_recvCond c' = S (c_recvCond c) /\
    c_recvBuf c' = Some r' /\ rb_buf r' = rb_buf r ++ Payload seg /\
    ParseSegment p = inr a /\ Flags a = FlagACK /\
    Ack a = wrap32 (RecvBuf_Nxt r + len (Payload seg)) /\ Payload a = [].
Proof.
  destruct (reachable_idle c Hc) as (H & _).
  destruct (wp_inv _ _ _ (deliver_wp now seg c r H Est Hs Hp Hts Hfp Er Ho Eq Hl))
    as (pkts & c' & E & E1 & K1 & r' & R1 & B1 & N1 & before & c4 & s4 & -> & H4 & S4).
  exists before, (ack_packet now c4 s4 r'), c', r'. eexists. split; [exact E|].
  do 4 (split; [done|]). split; [unfold ack_packet; apply parse_marshal, addOptions_wf|].
  - done.
  - apply S4.
  - unfold RecvBuf_Nxt. rewrite N1. apply wrap32_range.
  - done.
  - apply rcvWindow_u16.
  - unfold addOptions, RecvBuf_Nxt. rewrite <- N1. repeat case_match; done.
Qed.

Lemma data_segment_delivered_witness :
  exists pkts p c' r', HandleSegment (F := Q_float) 9
    (mkSegment 80 4242 1000 2001 FlagACK 100 0 0 [] [Byte.x68; Byte.x69]) example_conn
    = Ok (pkts ++ [p], c') /\ c_recvBuf c' = Some r' /\ rb_buf r' = [Byte.x68; Byte.x69].
Proof.
  destruct example_conn_state as (Est & _ & Erb & _).
  destruct (data_segment_delivered (F := Q_float) 9 example_conn
    (mkSegment 80 4242 1000 2001 FlagACK 100 0 0 [] [Byte.x68; Byte.x69])
    (mkRecvBuf [] 1000 [] DefaultRecvBuf) example_conn_reachable Est)
    as (pkts & p & c' & r' & a & E & _ & _ & R & B & _).
  - unfold seg_ok, is_u32, is_u16. cbn. lia.
  - repeat split.
  - vm_compute. reflexivity.
  - vm_compute. reflexivity.
  - exact Erb.
  - reflexivity.
  - reflexivity.
  - cbn. lia.
  - exists pkts, p, c', r'. split; [exact E|]. split; [exact R|exact B].
Defined.

(** ** Giving up *)

Section giveup.
Context {F : Float64}.

(** Timeouts at the given times, one after the other. *)
Fixpoint timeouts (times : list Z) (c : Conn) : outcome Conn :=
  match times with
  | [] => Ok c
  | now :: times =>
      match onRTOTimeout now c with
      | Panic => Panic
      | Ok (_, c) => timeouts times c
      end
  end.

Lemma retransmit_retries now c :
  conn_inv c -> open_state (c_state c) ->
  wp (rto_retransmit now) (fun _ c' => c_retries c' = c_retries c) c.
Proof.
  intros H Ho. destruct (inv_buffers c H Ho) as (s & r & Es & Er & Hs & _).
  unfold rto_retransmit. wp_read.
  destruct (c_state c); try by apply wp_ret.
  - apply wp_bind. apply (wp_sendBuf _ _ s Es). unfold queueSYN, queueSeg. by wp_steps.
  - apply wp_bind. apply (wp_sendBuf _ _ s Es). apply wp_bind. apply (wp_recvBuf _ _ r Er).
    unfold queueSYN, queueSeg. by wp_steps.
  - unfold retransmit. wp_read. apply wp_bind. apply (wp_sendBuf _ _ s Es). apply wp_bind.
    destruct (RetransmitData_safe s Hs (c_mss c)) as (d & Ed & _); [pose proof (ci_mss c H); lia|].
    apply (wp_lift _ d); [done|]. case_match; [by apply wp_ret|]. apply wp_bind.
    apply (wp_recvBuf _ _ r Er). unfold queueSeg, startRTO, stopRTO. by wp_steps.
  - unfold queueFIN. wp_read. apply wp_bind. apply (wp_sendBuf _ _ s Es). apply wp_bind.
    apply (wp_recvBuf _ _ r Er). unfold queueSeg, set_sendBuf. by wp_steps.
  - unfold retransmit. wp_read. apply wp_bind. apply (wp_sendBuf _ _ s Es). apply wp_bind.
    destruct (RetransmitData_safe s Hs (c_mss c)) as (d & Ed & _); [pose proof (ci_mss c H); lia|].
    apply (wp_lift _ d); [done|]. case_match; [by apply wp_ret|]. apply wp_bind.
    apply (wp_recvBuf _ _ r Er). unfold queueSeg, startRTO, stopRTO. by wp_steps.
  - unfold queueFIN. wp_read. apply wp_bind. apply (wp_sendBuf _ _ s Es). apply wp_bind.
    apply (wp_recvBuf _ _ r Er). unfold queueSeg, set_sendBuf. by wp_steps.
Qed.

Lemma onRTOTimeout_counts now c :
  conn_inv c -> is_closed c = false -> open_state (c_state c) ->
  wp (onRTOTimeout now) (fun _ c' =>
    if MaxRetries <=? c_retries c then c_state c' = StateClosed /\ c_closed c' = true
    else c_retries c' = c_retries c + 1 /\ c_state c' = c_state c /\ c_closed c' = c_closed c) c.
Proof.
  intros H Hc Ho. unfold onRTOTimeout. wp_read. rewrite Hc. apply wp_bind, wp_modify. wp_read.
  conn_cbn. destruct (Z.ltb_spec MaxRetries (c_retries c + 1)).
  { replace (MaxRetries <=? c_retries c) with true by lia.
    unfold set_state, stopRTO, stopKeepalive, stopPersist, recvCond_Broadcast,
      sendCond_Broadcast, safeCloseEstablished. by wp_steps. }
  replace (MaxRetries <=? c_retries c) with false by lia.
  apply wp_bind, wp_modify. match goal with |- wp _ _ ?x => set (c1 := x) end.
  assert (conn_inv c1) as H1.
  { assert (rto_bounded (RTO_InvalidateTiming (RTO_Backoff (c_rto c)))).
    { apply (rto_step_bounded _ OpInvalidate), (rto_step_bounded _ OpBackoff), ci_rto, H. }
    inv_update. }
  apply wp_bind. conn_cbn.
  pose proof (cc_OnTimeout (c_cc c) (ci_cc c H)) as Hok.
  destruct (OnTimeout (c_cc c)) as [cc'|] eqn:Ecc; [|done]. destruct Hok as (Hcc' & _).
  apply (wp_lift _ cc'); [done|]. apply wp_bind. unfold set_cc. apply wp_modify.
  match goal with |- wp _ _ ?x => set (c2 := x) end. assert (conn_inv c2) as H2 by inv_update.
  apply wp_bind. eapply wp_mono; [apply wp_and;
    [apply (rto_retransmit_inv now c2 H2 Ho)|apply (retransmit_retries now c2 H2 Ho)]|].
  intros _ c3 ((H3 & F3) & Hr3). unfold startRTO, stopRTO, drainOutgoing. wp_steps. conn_cbn.
  rewrite Hr3, (sf_state _ _ F3), (sf_closed _ _ F3). done.
Qed.

Lemma timeouts_count times : forall c,
  conn_idle c -> is_closed c = false -> open_state (c_state c) -> 0 <= c_retries c <= MaxRetries ->
  exists c', timeouts times c = Ok c' /\
    (len times <= MaxRetries - c_retries c ->
       c_state c' = c_state c /\ c_retries c' = c_retries c + len times) /\
    (MaxRetries - c_retries c < len times -> c_state c' = StateClosed /\ c_closed c' = true).
Proof.
  induction times as [|now times IH]; intros c Hi Hc Ho Hr; cbn [timeouts length].
  { exists c. split; [done|]. split; [|lia]. intros _. split; [done|lia]. }
  destruct Hi as (H & Hout & Hl).
  destruct (wp_inv _ _ _ (wp_and _ _ _ _ (onRTOTimeout_inv now c H Hout Hl)
    (onRTOTimeout_counts now c H Hc Ho))) as (p & c1 & -> & (H1 & _ & _ & O1 & _) & Hcount).
  destruct (Z.leb_spec MaxRetries (c_retries c)).
  - destruct Hcount as [E1 C1].
    assert (timeouts times c1 = Ok c1) as ->.
    { clear - E1. induction times as [|n ts IHt]; [done|]. cbn [timeouts].
      unfold onRTOTimeout, bind, get, is_closed. rewrite E1.
      rewrite (bool_decide_true (StateClosed = StateClosed)), orb_true_r by done. exact IHt. }
    exists c1. split; [done|]. split; [lia|done].
  - destruct Hcount as (R1 & E1 & C1).
    destruct (IH c1) as (c' & -> & Ha & Hb).
    + split_and!; [done|done|by rewrite E1].
    + unfold is_closed in *. by rewrite E1, C1.
    + by rewrite E1.
    + lia.
    + exists c'. split; [done|]. rewrite R1, E1 in Ha. rewrite R1 in Hb.
      split; intros; [destruct Ha; [lia|]; split; [done|lia]|apply Hb; lia].
Qed.
End giveup.

(** C33: retransmission gives up: from a reachable open connection that has retried [k]
    times, any [8 - k] further timeouts with no acknowledgment in between leave it in its
    state, and the next one closes it, whatever their times. *)
Theorem rto_gives_up {F : Float64} (c : Conn) (times : list Z)
  (Hc : conn_reachable c) (Hcl : c_closed c = false) (Ho : open_state (c_state c))
  (Hr : 0 <= c_retries c <= MaxRetries) :
  exists c', timeouts times c = Ok c' /\
    (len times <= 8 - c_retries c -> c_state c' = c_state c) /\
    (8 - c_retries c < len times -> c_state c' = StateClosed /\ c_closed c' = true).
Proof.
  assert (is_closed c = false) as Hic.
  { unfold is_closed. rewrite Hcl. cbn. apply bool_decide_false. apply Ho. }
  destruct (timeouts_count times c (reachable_idle c Hc) Hic Ho Hr) as (c' & E & Ha & Hb).
  unfold MaxRetries in *. exists c'. split; [done|]. split; [|done]. intros Hl. by apply Ha.
Qed.

Lemma rto_gives_up_witness :
  exists c', timeouts (F := Q_float) [1; 2; 3; 4; 5; 6; 7; 8; 9] example_conn = Ok c' /\
    c_state c' = StateClosed.
Proof.
  destruct example_conn_state as (Est & _ & _ & Ecl).
  destruct (rto_gives_up (F := Q_float) example_conn [1; 2; 3; 4; 5; 6; 7; 8; 9]
    example_conn_reachable Ecl) as (c' & E & _ & Hb).
  - rewrite Est. split; discriminate.
  - vm_compute. split; discriminate.
  - exists c'. split; [exact E|]. apply Hb. vm_compute. reflexivity.
Defined.
