(* ===== verification/Handshake.v ===== *)
(** The three-way handshake (src/vtcp/conn.go): [Connect] on one side,
    [AcceptSYN] on the other, the segments travelling as bytes through
    [Marshal] and [ParseSegment]. *)

From S2P Require Import Prelude SeqSpace TcpOptions Segment Rto Congestion SendBuf RecvBuf.
From S2P Require Import ConnState ConnOps ConnApp ConnInv ConnSafe ConnReach ConnProps.

(** ** What a SYN says *)

Lemma GetMSS_syn now c : GetMSS (buildSYNOptions now c) = wrap16 (c_mss c).
Proof.
  unfold buildSYNOptions. cbn [app GetMSS Kind Data MSSOption].
  rewrite decide_True by done. rewrite be_get_put16. mlia.
Qed.

Lemma GetWScale_syn now c : is_u8 (c_rcvWndShift c) ->
  GetWScale (buildSYNOptions now c) = c_rcvWndShift c.
Proof.
  intros H. unfold buildSYNOptions. cbn [app GetWScale Kind Data MSSOption WScaleOption be_put].
  rewrite decide_True by done. rewrite Z_of_byte_of_Z. by apply wrap8_small.
Qed.

Lemma HasSACKPerm_syn now c : HasSACKPerm (buildSYNOptions now c) = c_sackEnabled c.
Proof. unfold buildSYNOptions. by destruct (c_sackEnabled c), (c_tsEnabled c). Qed.

Lemma GetTimestamp_syn now c :
  GetTimestamp (buildSYNOptions now c) = if c_tsEnabled c then Some (tsNow now c, 0) else None.
Proof.
  assert (GetTimestamp [TimestampOption (tsNow now c) 0] = Some (tsNow now c, 0)) as E.
  { cbn [GetTimestamp]. rewrite decide_True by done. do 2 f_equal.
    change (be_get (be_put 4 (tsNow now c)) = tsNow now c). rewrite be_get_put32.
    unfold tsNow. mlia. }
  unfold buildSYNOptions. destruct (c_sackEnabled c), (c_tsEnabled c); cbn [app]; try done;
    exact E.
Qed.

(** What [c] has after reading the options of a SYN that [p] built at [t]. *)
Definition negotiated (t : Z) (p c : Conn) : Conn :=
  c <| c_mss := if (0 <? wrap16 (c_mss p)) && (wrap16 (c_mss p) <? c_mss c)
                then wrap16 (c_mss p) else c_mss c |>
    <| c_sndWndShift := c_rcvWndShift p |>
    <| c_wscaleOK := true |>
    <| c_sackOK := c_sackOK c || c_sackEnabled c && c_sackEnabled p |>
    <| c_tsRecent := if c_tsEnabled c && c_tsEnabled p then tsNow t p else c_tsRecent c |>
    <| c_tsOK := c_tsOK c || c_tsEnabled c && c_tsEnabled p |>.

Lemma negotiation_exact t p c : 0 <= c_rcvWndShift p <= 14 ->
  negotiate_mss (buildSYNOptions t p) c
  = Ok ((), c <| c_mss := c_mss (negotiated t p c) |>) /\
  negotiateOptions (buildSYNOptions t p) (c <| c_mss := c_mss (negotiated t p c) |>)
  = Ok ((), negotiated t p c).
Proof.
  intros Hs. split.
  - unfold negotiate_mss, bind, get, when, negotiated. rewrite GetMSS_syn. conn_cbn.
    case_match; [done|]. by destruct c.
  - unfold negotiateOptions. rewrite GetWScale_syn, HasSACKPerm_syn, GetTimestamp_syn
      by (unfold is_u8; lia).
    replace (0 <=? c_rcvWndShift p) with true by lia.
    replace (14 <? c_rcvWndShift p) with false by lia.
    rewrite wrap8_small by (unfold is_u8; lia).
    destruct c. unfold negotiated, bind, get, when, modify, ret. conn_cbn.
    destruct c_sackEnabled, (ConnState.c_sackEnabled p), c_tsEnabled, (ConnState.c_tsEnabled p),
      c_sackOK, c_tsOK; reflexivity.
Qed.

(** ** The window scale *)

Lemma wnd_shift_loop_spec more s cap :
  0 <= s -> 2 ^ 16 <= cap -> (s = 0 \/ 2 ^ 16 <= Z.shiftr cap (s - 1)) ->
  let r := wnd_shift_loop more s cap in
  s <= r <= s + Z.of_nat more /\ 0 < Z.shiftr cap r /\
  (r < s + Z.of_nat more -> Z.shiftr cap r <= 65535).
Proof.
  intros Hs Hc. revert s Hs. induction more as [|more IH]; intros s Hs Hprev; cbn [wnd_shift_loop].
  all: assert (0 < Z.shiftr cap s) as Hpos by (destruct Hprev as [->|Hp];
    [rewrite Z.shiftr_0_r; lia|];
    replace s with (s - 1 + 1) by lia; destruct (Z.eq_dec s 0) as [->|];
    [change (0 - 1 + 1) with 0; rewrite Z.shiftr_0_r; lia|];
    rewrite <- Z.shiftr_shiftr, (Z.shiftr_div_pow2 _ 1) by lia; change (2 ^ 1) with 2;
    Z.div_mod_to_equations; lia).
  - destruct (Z.leb_spec (Z.shiftr cap s) 65535); split_and!; lia.
  - destruct (Z.leb_spec (Z.shiftr cap s) 65535); [split_and!; lia|].
    destruct (IH (s + 1)) as (A & B & C); [lia|right; replace (s + 1 - 1) with s by lia; lia|].
    split_and!; lia.
Qed.

(** The shift a new connection advertises, and the window field of an empty buffer. *)
Definition fresh_shift (cfg : ConnConfig) : Z :=
  if cfg_NoWindowScaling cfg then 0 else wnd_shift_loop 14 0 (ConnConfig_recvBufSize cfg).
Definition fresh_window (cfg : ConnConfig) : Z :=
  Z.min 65535 (Z.shiftr (ConnConfig_recvBufSize cfg) (fresh_shift cfg)).

Lemma recvBufSize_range cfg : config_ok cfg -> 2 ^ 16 <= ConnConfig_recvBufSize cfg <= 2 ^ 30.
Proof.
  intros (_ & _ & _ & _ & H). unfold ConnConfig_recvBufSize, DefaultRecvBuf.
  rewrite Z.shiftl_mul_pow2 by lia. case_match; zbool; lia.
Qed.

Lemma fresh_shift_range cfg : config_ok cfg ->
  0 <= fresh_shift cfg <= 14 /\ 0 < Z.shiftr (ConnConfig_recvBufSize cfg) (fresh_shift cfg).
Proof.
  intros H. pose proof (recvBufSize_range cfg H). unfold fresh_shift. case_match.
  - rewrite Z.shiftr_0_r. lia.
  - destruct (wnd_shift_loop_spec 14 0 (ConnConfig_recvBufSize cfg)) as (A & B & _);
      [lia|lia|by left|]. split; [lia|done].
Qed.

(** The scaled window: positive, and no more than the buffer. *)
Lemma fresh_window_range cfg : config_ok cfg ->
  let w := Z.shiftl (fresh_window cfg) (fresh_shift cfg) in
  0 < w <= ConnConfig_recvBufSize cfg /\ wrap32 w = w /\ 0 < fresh_window cfg <= 65535.
Proof.
  intros H w. pose proof (recvBufSize_range cfg H).
  destruct (fresh_shift_range cfg H) as [Hs Hp].
  assert (0 < fresh_window cfg <= Z.shiftr (ConnConfig_recvBufSize cfg) (fresh_shift cfg)) as Hf
    by (unfold fresh_window; lia).
  assert (0 < w <= ConnConfig_recvBufSize cfg) as Hw.
  { unfold w. rewrite Z.shiftl_mul_pow2 by lia. rewrite Z.shiftr_div_pow2 in Hf by lia.
    assert (0 < 2 ^ fresh_shift cfg) by (apply Z.pow_pos_nonneg; lia).
    pose proof (Z.mul_div_le (ConnConfig_recvBufSize cfg) (2 ^ fresh_shift cfg)). nia. }
  split_and!; try lia; [apply wrap32_small; unfold is_u32; lia|unfold fresh_window; lia].
Qed.

Lemma rcvWindow_fresh cfg c nxt : config_ok cfg ->
  c_recvBufCap c = ConnConfig_recvBufSize cfg -> c_rcvWndShift c = fresh_shift cfg ->
  c_recvBuf c = Some (NewRecvBuf nxt (ConnConfig_recvBufSize cfg)) -> c_wscaleOK c = true ->
  rcvWindow c = fresh_window cfg.
Proof.
  intros H Ec Es Er Ew. pose proof (recvBufSize_range cfg H) as HW.
  destruct (fresh_window_range cfg H) as (_ & _ & Hf). unfold rcvWindow, Conn_recvBufSize.
  rewrite Ec, Es, Er, Ew. set (W := ConnConfig_recvBufSize cfg) in *.
  replace (0 <? W) with true by lia.
  assert (RecvBuf_Window (NewRecvBuf nxt W) = W) as ->.
  { unfold RecvBuf_Window, NewRecvBuf. cbn. rewrite ?Z.add_0_r, ?Z.sub_0_r.
    try (rewrite wrap32_small by (unfold is_u32; lia)). repeat case_match; zbool; lia. }
  assert ((if W <? (if W / 2 <? c_mss c then W / 2 else c_mss c) then 0 else W) = W) as ->.
  { replace (W <? _) with false; [done|]. symmetry. apply Z.ltb_ge.
    case_match; zbool; Z.div_mod_to_equations; lia. }
  unfold fresh_window in *. fold W in Hf |- *.
  case_match; zbool; (rewrite wrap16_small; [lia|unfold is_u16; lia]).
Qed.

(** ** The two endpoints *)

Lemma wp_exact {S A} (m : M S A) (Q : A -> S -> Prop) a s s' :
  m s = Ok (a, s') -> Q a s' -> wp m Q s.
Proof. intros E H. unfold wp. by rewrite E. Qed.

(** What the handshake never changes. *)
Record same_config (c c' : Conn) : Prop := {
  sc_ports : c_localPort c' = c_localPort c /\ c_remotePort c' = c_remotePort c;
  sc_caps : c_recvBufCap c' = c_recvBufCap c /\ c_sendBufCap c' = c_sendBufCap c;
  sc_shift : c_rcvWndShift c' = c_rcvWndShift c;
  sc_ts : c_tsEnabled c' = c_tsEnabled c /\ c_tsOffset c' = c_tsOffset c;
  sc_sack : c_sackEnabled c' = c_sackEnabled c;
}.

(** The fields negotiation writes. *)
Record same_options (c c' : Conn) : Prop := {
  so_mss : c_mss c' = c_mss c;
  so_wscale : c_wscaleOK c' = c_wscaleOK c /\ c_sndWndShift c' = c_sndWndShift c;
  so_sack : c_sackOK c' = c_sackOK c;
  so_ts : c_tsOK c' = c_tsOK c /\ c_tsRecent c' = c_tsRecent c;
}.

#[global] Instance same_config_preorder : PreOrder same_config.
Proof. split; [by split|]. intros x y z [[] [] ? [] ?] [[] [] ? [] ?]. split; try split; congruence. Qed.
#[global] Instance same_options_preorder : PreOrder same_options.
Proof. split; [by split|]. intros x y z [? [] ? []] [? [] ? []]. split; try split; congruence. Qed.

Lemma conn_segment_config c c' seq ack flags w opts d :
  same_config c c' -> conn_segment c' seq ack flags w opts d = conn_segment c seq ack flags w opts d.
Proof. intros [[E1 E2] _ _ _ _]. unfold conn_segment. by rewrite E1, E2. Qed.

Lemma buildSYNOptions_config t c c' :
  same_config c c' -> c_mss c' = c_mss c -> buildSYNOptions t c' = buildSYNOptions t c.
Proof.
  intros [_ _ E1 [E2 E3] E4] Em. unfold buildSYNOptions, tsNow. by rewrite E1, E2, E3, E4, Em.
Qed.

Lemma rcvWindow_config c c' :
  same_config c c' -> same_options c c' -> c_recvBuf c' = c_recvBuf c -> rcvWindow c' = rcvWindow c.
Proof.
  intros [_ [E1 _] E2 _ _] [E3 [E4 _] _ _] E5. unfold rcvWindow, Conn_recvBufSize.
  by rewrite E1, E2, E3, E4, E5.
Qed.

Lemma negotiated_config t p c : same_config c (negotiated t p c).
Proof. by split. Qed.

Section endpoints.
Context {F : Float64}.
Implicit Types (c p : Conn).

(** A connection nobody has used. *)
Record pristine c : Prop := {
  pr_state : c_state c = StateClosed;
  pr_sendBuf : c_sendBuf c = None;
  pr_cap : 0 < c_sendBufCap c;
  pr_outgoing : c_outgoing c = [];
  pr_ok : c_wscaleOK c = false /\ c_sackOK c = false /\ c_tsOK c = false;
}.

(** An endpoint that has sent a SYN (or SYN-ACK) numbered [iss]. *)
Record syn_pending (st : State) (iss nxt : Z) c : Prop := {
  sp_state : c_state c = st;
  sp_sendBuf : c_sendBuf c = Some (mkSendBuf [] (c_sendBufCap c) iss (wrap32 (iss + 1)) []);
  sp_recvBuf : c_recvBuf c = Some (NewRecvBuf nxt (c_recvBufCap c));
  sp_outgoing : c_outgoing c = [];
}.

Lemma queueSYN_wp t seq ack flags c : c_outgoing c = [] ->
  wp (queueSYN t seq ack flags) (fun _ c' =>
    same_config c c' /\ same_options c c' /\ c_state c' = c_state c /\
    c_sendBuf c' = c_sendBuf c /\ c_recvBuf c' = c_recvBuf c /\ c_closed c' = c_closed c /\
    c_cc c' = c_cc c /\ c_outgoing c' =
      [Segment_Marshal (conn_segment c seq ack flags (rcvWindow c) (buildSYNOptions t c) [])]) c.
Proof.
  intros E. unfold queueSYN, queueSeg. wp_steps. split_and!; [done..|]. conn_cbn. by rewrite E.
Qed.

(** The buffers and state both openings install. *)
Lemma install_wp {A} s r st (k : M Conn A) Q c :
  (forall c0, same_config c c0 -> same_options c c0 -> c_state c0 = st -> c_sendBuf c0 = Some s ->
     c_recvBuf c0 = Some r -> c_closed c0 = c_closed c -> c_cc c0 = c_cc c -> c_outgoing c0 = c_outgoing c -> wp k Q c0) ->
  wp (set_sendBuf s ;; set_recvBuf r ;; set_state st ;; k) Q c.
Proof.
  intros H. unfold set_sendBuf, set_recvBuf, set_state. do 3 (apply wp_bind, wp_modify; cbv beta).
  apply H; try done; by split.
Qed.

Lemma connect_wp t1 a c : pristine c ->
  wp (Connect_start t1 a) (fun o c1 =>
    same_config c c1 /\ same_options c c1 /\ syn_pending StateSynSent a 0 c1 /\
    c_closed c1 = c_closed c /\
    exists w, is_u16 w /\
      o = Some [Segment_Marshal (conn_segment c a 0 FlagSYN w (buildSYNOptions t1 c) [])]) c.
Proof.
  intros [E1 E2 E3 E4 _]. unfold Connect_start. wp_read. rewrite E1, bool_decide_true by done.
  cbn [negb]. unfold Conn_sendBufSize. rewrite E2. replace (0 <? c_sendBufCap c) with true by lia.
  apply install_wp. intros c0 C0 O0 T0 S0 R0 L0 G0 Q0. rewrite E4 in Q0. apply wp_bind.
  wp_call (queueSYN_wp t1 a 0 FlagSYN c0 Q0).
  intros [] c1 (C1 & O1 & T1 & S1 & R1 & L1 & G1 & Q1).
  assert (same_config c c1) as C by (by etransitivity).
  assert (same_options c c1) as O by (by etransitivity).
  destruct (sc_caps _ _ C) as [K1 K2].
  rewrite (conn_segment_config c c0), (buildSYNOptions_config t1 c c0) in Q1
    by (done || apply O0). generalize (rcvWindow_u16 c0) Q1. generalize (rcvWindow c0).
  clear Q1. intros w Hw Q1.
  apply wp_bind. eapply wp_sendBuf; [rewrite S1; exact S0|].
  unfold startRTO, stopRTO, drainOutgoing. wp_steps. split_and!.
  - etransitivity; [exact C|by split].
  - etransitivity; [exact O|by split].
  - split; conn_cbn; [congruence|by rewrite K2|by rewrite R1, R0, K1|done].
  - conn_cbn. congruence.
  - exists w. split; [done|]. conn_cbn. by rewrite Q1.
Qed.

(** The server's negotiation and answer. *)
Lemma accept_wp t1 t2 a b syn p c : pristine c -> 0 <= c_rcvWndShift p <= 14 ->
  Seq syn = a -> Options syn = buildSYNOptions t1 p -> Payload syn = [] ->
  wp (AcceptSYN t2 b syn) (fun pkts c2 =>
    same_config c c2 /\ same_options (negotiated t1 p c) c2 /\
    syn_pending StateSynReceived b (wrap32 (a + 1)) c2 /\ c_closed c2 = c_closed c /\
    c_cc c2 = c_cc c /\
    pkts = [Segment_Marshal (conn_segment c b (wrap32 (a + 1)) (Z.lor FlagSYN FlagACK)
              (rcvWindow c2) (buildSYNOptions t2 c2) [])]) c.
Proof.
  intros [E1 E2 E3 E4 _] Hs Hsq Hop Hpl. destruct (negotiation_exact t1 p c Hs) as [N1 N2].
  unfold AcceptSYN, insert_syn_data. rewrite Hsq, Hop, Hpl. wp_read. rewrite E1, bool_decide_true by done. cbn [negb andb].
  apply wp_bind. apply (wp_exact _ _ _ _ _ N1).
  apply wp_bind. apply (wp_exact _ _ _ _ _ N2). wp_read.
  set (d := negotiated t1 p c).
  assert (same_config c d /\ c_outgoing d = [] /\ c_closed d = c_closed c /\ c_cc d = c_cc c)
    as (Cd & Qd & Ld & Gd)
    by (split_and!; done).
  clearbody d. clear N1 N2 E1 E2 E4.
  apply install_wp. intros c0 C0 O0 T0 S0 R0 L0 G0 Q0. rewrite Qd in Q0.
  apply wp_bind. eapply wp_recvBuf; [exact R0|]. apply wp_bind.
  change (RecvBuf_Nxt (NewRecvBuf (wrap32 (a + 1)) (c_recvBufCap d))) with (wrap32 (a + 1)).
  wp_call (queueSYN_wp t2 b (wrap32 (a + 1)) (Z.lor FlagSYN FlagACK) c0 Q0).
  intros [] c1 (C1 & O1 & T1 & S1 & R1 & L1 & G1 & Q1).
  rewrite <- (rcvWindow_config c0 c1), <- (buildSYNOptions_config t2 c0 c1) in Q1
    by (done || apply O1). rewrite (conn_segment_config c c0) in Q1 by (by etransitivity).
  assert (same_config d c1) as C by (by etransitivity).
  assert (same_options d c1) as O by (by etransitivity).
  destruct (sc_caps _ _ C) as [K1 K2]. rewrite S0 in S1. rewrite R0, <- K1 in R1.
  clear S0 R0 Q0 C0 O0 C1 O1. rewrite T0 in T1. rewrite L0, Ld in L1. clear T0 L0.
  apply wp_bind. eapply wp_sendBuf; [exact S1|].
  cbn [length]. change (0 <? Z.of_nat 0) with false. unfold startRTO, stopRTO, drainOutgoing.
  wp_steps; try discriminate. split_and!.
  - etransitivity; [exact Cd|]. etransitivity; [exact C|by split].
  - etransitivity; [exact O|by split].
  - split; conn_cbn; [done|by rewrite K2|done|done].
  - done.
  - conn_cbn. congruence.
  - rewrite (rcvWindow_config c1), (buildSYNOptions_config t2 c1) by (by split). exact Q1.
Qed.

(** An endpoint that has the peer's SYN and the acknowledgment of its own. *)
Record synchronized_at (iss piss wnd : Z) c : Prop := {
  sy_state : c_state c = StateEstablished;
  sy_sendBuf : c_sendBuf c =
    Some (mkSendBuf [] (c_sendBufCap c) (wrap32 (iss + 1)) (wrap32 (iss + 1)) []);
  sy_recvBuf : c_recvBuf c = Some (NewRecvBuf (wrap32 (piss + 1)) (c_recvBufCap c));
  sy_sndWnd : c_sndWnd c = wnd;
  sy_rtoTimer : c_rtoTimer c = None;
}.

Lemma syn_acknowledged iss cap : is_u32 iss ->
  SendBuf_Acknowledge (wrap32 (iss + 1)) (mkSendBuf [] cap iss (wrap32 (iss + 1)) [])
  = (0, mkSendBuf [] cap (wrap32 (iss + 1)) (wrap32 (iss + 1)) []).
Proof.
  intros H. unfold SendBuf_Acknowledge. cbn [sb_una sb_nxt sb_buf].
  assert (iss = seq_at iss 0) as E0 by (unfold seq_at; mlia). fold (seq_at iss 1).
  rewrite E0 at 2. rewrite SeqAfter_at by (unfold near; lia). cbn [negb Z.ltb Z.compare].
  rewrite SeqAfter_at by (unfold near; lia). cbn.
  change (Z.of_nat 0) with 0. replace (0 <? wrap32 (seq_at iss 1 - iss)) with true; [done|].
  unfold seq_at. symmetry. mlia.
Qed.

Lemma flush_idle now s c : c_sendBuf c = Some s -> SendBuf_Pending s <= 0 ->
  flushSendQueue now c = Ok ((), c).
Proof.
  intros E Hp. unfold flushSendQueue, bind, sendBuf, deref. rewrite E. cbn [flush_loop].
  unfold bind, get, sendBuf, deref. rewrite E. replace (0 <? SendBuf_Pending s) with false by lia.
  cbn [negb ret]. rewrite E. by replace (0 <? SendBuf_Pending s) with false by lia.
Qed.

Lemma complete_wp t3 a b sa c :
  is_u32 a -> syn_pending StateSynSent a 0 c -> Ack sa = wrap32 (a + 1) -> Seq sa = b ->
  wp (complete_handshake t3 sa) (fun _ c' =>
    same_config c c' /\ same_options c c' /\ c_closed c' = c_closed c /\ c_outgoing c' = [] /\
    synchronized_at a b (wrap32 (Z.shiftl (Window sa) (c_sndWndShift c))) c') c.
Proof.
  intros Ha [E1 E2 E3 E4] Hack Hseq. unfold complete_handshake. rewrite Hack, Hseq.
  apply wp_bind. eapply wp_sendBuf; [exact E2|]. rewrite syn_acknowledged by done. cbn [snd].
  unfold set_sendBuf, stopRTO, set_recvBuf, set_sndWnd, set_cc, set_state. wp_steps.
  split_and!; [by split|by split|done|done|by split].
Qed.

Lemma ack_packet_config t s r c c' :
  same_config c c' -> same_options c c' -> c_recvBuf c' = c_recvBuf c ->
  ack_packet t c' s r = ack_packet t c s r.
Proof.
  intros C O R. unfold ack_packet. rewrite (conn_segment_config c), (rcvWindow_config c) by done.
  destruct C as [_ _ _ [_ E1] _], O as [_ _ E2 [E3 E4]]. unfold addOptions, tsNow.
  by rewrite E1, E2, E3, E4, R.
Qed.

Lemma startKeepalive_wp t c :
  wp (startKeepalive t) (fun _ c' =>
    same_config c c' /\ same_options c c' /\ c_state c' = c_state c /\
    c_sendBuf c' = c_sendBuf c /\ c_recvBuf c' = c_recvBuf c /\ c_closed c' = c_closed c /\
    c_sndWnd c' = c_sndWnd c /\ c_rtoTimer c' = c_rtoTimer c /\ c_cc c' = c_cc c /\
    c_established c' = c_established c /\ c_outgoing c' = c_outgoing c) c.
Proof. unfold startKeepalive, stopKeepalive, stopPersist. wp_steps. split_and!; done || by split. Qed.

Lemma answer_wp t3 a b sa c :
  synchronized_at a b (c_sndWnd c) c -> c_outgoing c = [] -> Payload sa = [] ->
  wp (answer_synack t3 sa) (fun pkts c' =>
    same_config c c' /\ same_options c c' /\ c_closed c' = c_closed c /\ c_outgoing c' = [] /\
    c_established c' = true /\ synchronized_at a b (c_sndWnd c) c' /\
    exists s r, c_sendBuf c' = Some s /\ c_recvBuf c' = Some r /\ pkts = [ack_packet t3 c' s r]) c.
Proof.
  intros [E1 E2 E3 _ E5] Hq Hp. unfold answer_synack, insert_syn_data. rewrite Hp.
  change (0 <? len []) with false. cbn [when].
  do 2 apply wp_bind, wp_ret.
  apply wp_bind. eapply wp_exact; [exact (queueACK_exact t3 c _ _ E2 E3)|].
  rewrite Hq, app_nil_l. set (s := mkSendBuf _ _ _ _ _) in *. set (r := NewRecvBuf _ _) in *.
  apply wp_bind. eapply wp_exact; [apply (flush_idle t3 s); [exact E2|]|].
  { unfold SendBuf_Pending, s. cbn [sb_nxt sb_una sb_buf length]. rewrite Z.sub_diag. done. }
  wp_read. set (c1 := c <| c_outgoing := _ |>).
  assert (wp (when (c_keepalive c1) (startKeepalive t3)) (fun _ c' =>
    same_config c c' /\ same_options c c' /\ c_state c' = StateEstablished /\
    c_sendBuf c' = Some s /\ c_recvBuf c' = Some r /\ c_closed c' = c_closed c /\
    c_sndWnd c' = c_sndWnd c /\ c_rtoTimer c' = None /\ c_outgoing c' = [ack_packet t3 c s r]) c1)
    as Hk.
  { apply wp_when; intros _; [wp_call startKeepalive_wp; intros [] c' (A1 & A2 & A3 & A4 & A5 & A6 & A7 & A8 & _ & _ & A9)|].
    - split_and!; try (etransitivity; [|eassumption]; by split); by
        (rewrite ?A3, ?A4, ?A5, ?A6, ?A7, ?A8, ?A9).
    - split_and!; try done; by split. }
  apply wp_bind. eapply wp_mono; [exact Hk|]. clear Hk c1.
  intros [] c1 (A1 & A2 & A3 & A4 & A5 & A6 & A7 & A8 & A9). destruct (sc_caps _ _ A1) as [K1 K2].
  unfold drainOutgoing, safeCloseEstablished. wp_steps. split_and!; try done.
  - etransitivity; [exact A1|by split].
  - etransitivity; [exact A2|by split].
  - split; conn_cbn; [done| | |done|done].
    + rewrite A4, K2. done.
    + rewrite A5, K1. done.
  - exists s, r. split_and!; [done..|]. rewrite (ack_packet_config t3 s r c); [exact A9| | |].
    + etransitivity; [exact A1|by split].
    + etransitivity; [exact A2|by split].
    + etransitivity; [exact A5|by rewrite E3].
Qed.

Lemma wp_synSent t seg c Q :
  c_state c = StateSynSent -> wp (handleSynSent t seg) Q (touched t c) -> wp (HandleSegment t seg) Q c.
Proof.
  intros E H. unfold HandleSegment. apply wp_bind, wp_modify. wp_read. fold (touched t c).
  change (c_state (touched t c)) with (c_state c). by rewrite E.
Qed.

(** The client takes the SYN-ACK that [q] built at [t2]. *)
Lemma client_wp t2 t3 a b sa q c :
  is_u32 a -> syn_pending StateSynSent a 0 c -> 0 <= c_rcvWndShift q <= 14 ->
  Flags sa = Z.lor FlagSYN FlagACK -> Seq sa = b -> Ack sa = wrap32 (a + 1) ->
  Options sa = buildSYNOptions t2 q -> Payload sa = [] ->
  wp (HandleSegment t3 sa) (fun pkts c' =>
    same_config c c' /\ same_options (negotiated t2 q c) c' /\ c_closed c' = c_closed c /\
    c_outgoing c' = [] /\ c_established c' = true /\
    synchronized_at a b (wrap32 (Z.shiftl (Window sa) (c_rcvWndShift q))) c' /\
    exists s r, c_sendBuf c' = Some s /\ c_recvBuf c' = Some r /\ pkts = [ack_packet t3 c' s r]) c.
Proof.
  intros Ha Hc Hq Hf Hs Hk Ho Hp. apply wp_synSent; [by destruct Hc|].
  assert (same_config c (touched t3 c) /\
    same_options (negotiated t2 q c) (negotiated t2 q (touched t3 c)) /\
    c_closed (touched t3 c) = c_closed c /\ syn_pending StateSynSent a 0 (touched t3 c))
    as (C0 & O0 & L0 & P0) by (destruct Hc; split_and!; [by split..|done|by split]).
  generalize dependent (touched t3 c). intros c0 C0 O0 L0 P0.
  unfold handleSynSent, synSent_badACK, Segment_HasFlag. rewrite Hf. cbn [Z.land Z.lor FlagSYN FlagACK
    FlagRST Pos.land Pos.lor Z.eqb negb Pos.Nsucc_double Pos.Ndouble Z.of_N].
  apply wp_bind, wp_bind. eapply wp_sendBuf; [apply (sp_sendBuf _ _ _ _ P0)|]. apply wp_ret.
  unfold SendBuf_UNA, SendBuf_NXT. cbn [sb_una sb_nxt]. rewrite Hk.
  assert (a = seq_at a 0) as Ea by (unfold seq_at; mlia).
  fold (seq_at a 1). rewrite Ea at 2. rewrite SeqBeforeEq_at, SeqAfter_at by (unfold near; lia).
  cbn [Z.leb Z.ltb Z.compare orb Pos.compare Pos.compare_cont].
  destruct (negotiation_exact t2 q c0 Hq) as [N1 N2]. rewrite Ho.
  apply wp_bind. apply (wp_exact _ _ _ _ _ N1).
  apply wp_bind. apply (wp_exact _ _ _ _ _ N2).
  assert (syn_pending StateSynSent a 0 (negotiated t2 q c0)) as P1 by (destruct P0; by split).
  assert (same_config c (negotiated t2 q c0)) as C1 by (etransitivity; [exact C0|by split]).
  assert (c_closed (negotiated t2 q c0) = c_closed c /\
    c_sndWndShift (negotiated t2 q c0) = c_rcvWndShift q) as [L1 W1] by done.
  clear N1 N2. generalize dependent (negotiated t2 q c0). intros c1 O1 P1 C1 L1 W1.
  apply wp_bind. eapply wp_mono; [by eapply complete_wp|cbv beta].
  intros [] c2 (C2 & O2 & L2 & Q2 & S2). rewrite W1 in S2. pose proof (sy_sndWnd _ _ _ _ S2) as Ew.
  rewrite <- Ew in S2. eapply wp_mono; [by eapply answer_wp|cbv beta].
  intros pkts c3 (C3 & O3 & L3 & Q3 & T3 & S3 & R3). rewrite Ew in S3. split_and!; try done.
  - by transitivity c2; [transitivity c1|].
  - by transitivity c2; [transitivity c1|].
  - congruence.
Qed.

(** What an acknowledgment that adds nothing leaves alone. *)
Record dup_frame (c c' : Conn) : Prop := {
  df_config : same_config c c';
  df_mss : c_mss c' = c_mss c;
  df_wscale : c_wscaleOK c' = c_wscaleOK c /\ c_sndWndShift c' = c_sndWndShift c;
  df_ok : c_sackOK c' = c_sackOK c /\ c_tsOK c' = c_tsOK c;
  df_state : c_state c' = c_state c /\ c_closed c' = c_closed c /\ c_established c' = c_established c;
  df_bufs : c_sendBuf c' = c_sendBuf c /\ c_recvBuf c' = c_recvBuf c;
  df_timer : c_rtoTimer c' = c_rtoTimer c;
  df_outgoing : c_outgoing c' = c_outgoing c;
}.

Lemma updateTimestamp_wp opts c :
  (forall v e, GetTimestamp opts = Some (v, e) -> c_tsOK c = true ->
     0 <= int32 (wrap32 (v - c_tsRecent c))) ->
  wp (updateTimestamp opts) (fun fresh c' => fresh = true /\ dup_frame c c' /\ c_cc c' = c_cc c) c.
Proof.
  intros H. assert (dup_frame c c) by (split; done || by split).
  unfold updateTimestamp. wp_read. destruct (c_tsOK c) eqn:Et; cbn [negb]; [|by apply wp_ret].
  destruct (GetTimestamp opts) as [[v e]|] eqn:Eg; [|by apply wp_ret].
  specialize (H v e eq_refl eq_refl). destruct (int32 _ <? 0) eqn:E; zbool; [lia|].
  rewrite andb_false_r. wp_steps. split_and!; [done| |done]. split; done || by split.
Qed.

Lemma dupACK_wp t ack opts s c :
  c_sendBuf c = Some s -> ack = SendBuf_UNA s -> (OnDupACK (c_cc c)).1 = false ->
  GetSACKBlocks opts = [] ->
  wp (processACK t ack opts) (fun _ c' => dup_frame c c') c.
Proof.
  intros Es -> Hd Hb. unfold processACK. apply wp_bind. eapply wp_sendBuf; [exact Es|].
  assert (SeqAfter (SendBuf_UNA s) (SendBuf_UNA s) = false) as ->.
  { unfold SeqAfter. by rewrite Z.sub_diag. }
  cbn [negb]. wp_read. destruct (OnDupACK (c_cc c)) as [fast cc]. cbn [fst] in Hd. subst fast.
  unfold set_cc, mark_sacked. rewrite Hb. cbn [when].
  do 2 (apply wp_bind; (apply wp_modify || apply wp_ret)). wp_read. cbn [length].
  change (0 <? Z.of_nat 0) with false.
  apply wp_when; intros _; [apply wp_ret_unit|]; split; done || by split.
Qed.

Lemma settle_wp {A} s seg (k : M Conn A) Q c :
  (forall c1, same_config c c1 -> same_options c c1 -> c_state c1 = StateEstablished ->
     c_sendBuf c1 = Some s -> c_recvBuf c1 = c_recvBuf c -> c_closed c1 = c_closed c ->
     c_rtoTimer c1 = None -> c_cc c1 = c_cc c -> c_outgoing c1 = c_outgoing c -> wp k Q c1) ->
  wp (set_sendBuf s ;; modify (fun c => c <| c_retries := 0 |>) ;; stopRTO ;; set_sndWnd seg ;;
      set_state StateEstablished ;; k) Q c.
Proof.
  intros H. unfold set_sendBuf, stopRTO, set_sndWnd, set_state.
  do 5 (apply wp_bind, wp_modify; cbv beta). apply H; try done; by split.
Qed.

(** An ACK without news, data or FIN on an established connection: only the
    peer's window and the echoed timestamp move. *)
Lemma quiet_ack_wp t k s c :
  c_state c = StateEstablished -> c_sendBuf c = Some s -> c_outgoing c = [] ->
  Flags k = FlagACK -> Ack k = SendBuf_UNA s -> Payload k = [] ->
  GetSACKBlocks (Options k) = [] -> (OnDupACK (c_cc c)).1 = false ->
  (forall v e, GetTimestamp (Options k) = Some (v, e) -> c_tsOK c = true ->
     0 <= int32 (wrap32 (v - c_tsRecent c))) ->
  wp (handleDataState t k) (fun pkts c' => dup_frame c c' /\ pkts = [] /\
    c_sndWnd c' = wrap32 (Z.shiftl (Window k) (c_sndWndShift c))) c.
Proof.
  intros Est Es Eo Hf Hk Hp Hsb Hd Hts. unfold handleDataState. apply wp_bind.
  wp_call (updateTimestamp_wp (Options k) c Hts). intros fresh c1 (-> & D1 & G1). cbn [negb].
  destruct D1 as [C1 M1 [W1 W1'] [K1 K1'] (T1 & L1 & B1) [S1 R1] U1 O1].
  unfold Segment_HasFlag at 1. rewrite Hf. change (negb (Z.land FlagACK FlagACK =? 0)) with true.
  cbn [when]. apply wp_bind, wp_bind. rewrite Hk.
  wp_call (dupACK_wp t _ (Options k) s c1); [by rewrite S1|done|by rewrite G1|done|].
  intros [] c2 [C2 M2 [W2 W2'] [K2 K2'] (T2 & L2 & B2) [S2 R2] U2 O2].
  unfold set_sndWnd. apply wp_modify. rewrite Hp. cbn [length]. change (0 <? Z.of_nat 0) with false.
  cbn [when orb]. apply wp_bind, wp_bind, wp_ret. apply wp_bind.
  unfold processFIN, Segment_HasFlag. rewrite Hf. change (negb (Z.land FlagACK FlagFIN =? 0)) with false.
  cbv iota. apply wp_bind, wp_get.
  replace (bool_decide _) with false; [|symmetry; apply bool_decide_eq_false; conn_cbn; congruence].
  cbn [andb when]. apply wp_bind, wp_ret, wp_ret. cbn [when]. apply wp_ret.
  unfold drainOutgoing. wp_steps. split_and!.
  - split; conn_cbn; try congruence; try (split_and!; congruence).
    by transitivity c1; [|etransitivity; [exact C2|by split]].
  - conn_cbn. congruence.
  - conn_cbn. congruence.
Qed.

(** The server takes the acknowledgment of its SYN-ACK. *)
Lemma server_wp t4 a b k c :
  is_u32 b -> syn_pending StateSynReceived b (wrap32 (a + 1)) c ->
  2 ^ 16 <= c_recvBufCap c <= 2 ^ 30 ->
  Flags k = FlagACK -> Seq k = wrap32 (a + 1) -> Ack k = wrap32 (b + 1) -> Payload k = [] ->
  GetSACKBlocks (Options k) = [] -> (OnDupACK (c_cc c)).1 = false ->
  (forall v e, GetTimestamp (Options k) = Some (v, e) -> c_tsOK c = true ->
     0 <= int32 (wrap32 (v - c_tsRecent c))) ->
  wp (HandleSegment t4 k) (fun pkts c' =>
    same_config c c' /\ c_mss c' = c_mss c /\ c_wscaleOK c' = c_wscaleOK c /\
    c_sndWndShift c' = c_sndWndShift c /\ c_sackOK c' = c_sackOK c /\ c_tsOK c' = c_tsOK c /\
    c_closed c' = c_closed c /\ c_outgoing c' = [] /\ c_established c' = true /\
    synchronized_at b a (wrap32 (Z.shiftl (Window k) (c_sndWndShift c))) c' /\ pkts = []) c.
Proof.
  intros Hb [E1 E2 E3 E4] Hcap Hf Hs Hk Hp Hsb Hd Hts.
  apply wp_synchronized; [rewrite E1; split; [split|]; discriminate|].
  unfold handleSynchronized. wp_read.
  rewrite (next_acceptable k (touched t4 c) (NewRecvBuf (wrap32 (a + 1)) (c_recvBufCap c)))
    by (done || apply wrap32_range).
  apply wp_bind, wp_ret. cbn [negb]. unfold Segment_HasFlag. rewrite Hf.
  change (negb (Z.land FlagACK FlagRST =? 0)) with false.
  change (negb (Z.land FlagACK FlagSYN =? 0)) with false.
  change (negb (Z.land FlagACK FlagACK =? 0)) with true. cbn [negb andb].
  unfold dispatch. wp_read. change (c_state (touched t4 c)) with (c_state c). rewrite E1.
  assert (dup_frame c (touched t4 c) /\ c_cc (touched t4 c) = c_cc c /\
    c_tsRecent (touched t4 c) = c_tsRecent c) as (D0 & G0 & T0) by (split_and!; [split; done || by split|done..]).
  generalize dependent (touched t4 c). intros c0 D0 G0 T0.
  unfold handleSynReceived. apply wp_bind.
  eapply wp_sendBuf; [rewrite (proj1 (df_bufs _ _ D0)); exact E2|]. rewrite Hk.
  unfold SendBuf_NXT. cbn [sb_nxt]. rewrite Z.eqb_refl, syn_acknowledged by done. cbn [negb snd].
  destruct D0 as [C0 M0 [W0 W0'] [K0 K0'] (S0 & L0 & B0) [P0 R0] U0 O0].
  apply settle_wp. intros c1 C1 O1 S1 P1 R1 L1 U1 G1 Q1. wp_read.
  destruct O1 as [M1 [W1 W1'] K1 [K1' N1]]. apply wp_bind.
  eapply (wp_mono _ (fun _ c' => dup_frame c1 c' /\ c_cc c' = c_cc c1 /\ c_tsRecent c' = c_tsRecent c1)).
  { apply wp_when; intros _; [|split_and!; [split; done || by split|done..]].
    wp_call startKeepalive_wp.
    intros [] c' (A1 & [A2 [] A3 []] & A4 & A5 & A6 & A7 & _ & A8 & A9 & A10 & A11).
    split_and!; done || by split. }
  intros [] c2 ([C2 M2 [W2 W2'] [K2 K2'] (S2 & L2 & B2) [P2 R2] U2 O2] & G2 & N2).
  unfold safeCloseEstablished. apply wp_bind, wp_modify.
  assert (exists d, d = c2 <| c_established := true |> /\ same_config c2 d /\ c_mss d = c_mss c2 /\
    c_wscaleOK d = c_wscaleOK c2 /\ c_sndWndShift d = c_sndWndShift c2 /\ c_sackOK d = c_sackOK c2 /\
    c_tsOK d = c_tsOK c2 /\ c_state d = c_state c2 /\ c_closed d = c_closed c2 /\
    c_established d = true /\ c_sendBuf d = c_sendBuf c2 /\ c_recvBuf d = c_recvBuf c2 /\
    c_rtoTimer d = c_rtoTimer c2 /\ c_outgoing d = c_outgoing c2 /\ c_cc d = c_cc c2 /\
    c_tsRecent d = c_tsRecent c2)
    as (d & <- & C' & M' & W' & W'' & K' & K'' & S' & L' & B' & P' & R' & U' & O' & G' & N')
    by (eexists; split_and!; [reflexivity|by split|done..]).
  assert (same_config c d) as Cd
    by (transitivity c0; [done|]; transitivity c1; [done|]; by transitivity c2).
  wp_call (quiet_ack_wp t4 k (mkSendBuf [] (c_sendBufCap c) (wrap32 (b + 1)) (wrap32 (b + 1)) []));
    [congruence|congruence|congruence|done|done|done|done|congruence| |].
  - intros v e Hv Ht. rewrite N', N2, N1, T0. apply (Hts v e Hv). congruence.
  - intros pkts c3 ([C3 M3 [W3 W3'] [K3 K3'] (S3 & L3 & B3) [P3 R3] U3 O3] & -> & Hw).
    assert (same_config c c3) as C by (by transitivity d).
    destruct (sc_caps _ _ C) as [Z1 Z2].
    split_and!; try congruence. split; congruence.
Qed.
End endpoints.

(** ** The exchange *)

(** The one segment a list of packets carries, as the other side parses it. *)
Definition delivered (pkts : packets) : option Segment :=
  match pkts with
  | [p] => match ParseSegment p with inr s => Some s | inl _ => None end
  | _ => None
  end.

(** A client connects at [t1] with initial number [a]; a server accepts at [t2]
    with initial number [b]; the client answers at [t3], the server settles at
    [t4]. *)
Definition handshake {F : Float64} (cfgA cfgB : ConnConfig) (tA tB t1 t2 t3 t4 a b : Z)
    : option (Conn * Conn) :=
  match Connect_start t1 a (NewConn tA cfgA) with
  | Ok (Some p1, cA1) =>
      syn ← delivered p1;
      match AcceptSYN t2 b syn (NewConn tB cfgB) with
      | Ok (p2, cB1) =>
          synack ← delivered p2;
          match HandleSegment t3 synack cA1 with
          | Ok (p3, cA2) =>
              ack ← delivered p3;
              match HandleSegment t4 ack cB1 with
              | Ok (_, cB2) => Some (cA2, cB2)
              | Panic => None
              end
          | Panic => None
          end
      | Panic => None
      end
  | _ => None
  end.

(** What an endpoint with configuration [cfg] has agreed with its peer. *)
Record agreed (cfg peer : ConnConfig) (iss piss : Z) (c : Conn) : Prop := {
  ag_state : c_state c = StateEstablished /\ c_established c = true /\ c_closed c = false;
  ag_sendBuf : c_sendBuf c =
    Some (mkSendBuf [] (c_sendBufCap c) (wrap32 (iss + 1)) (wrap32 (iss + 1)) []);
  ag_recvBuf : c_recvBuf c = Some (NewRecvBuf (wrap32 (piss + 1)) (ConnConfig_recvBufSize cfg));
  ag_mss : c_mss c = Z.min (ConnConfig_mss cfg) (ConnConfig_mss peer);
  ag_scale : c_wscaleOK c = true /\ c_sndWndShift c = fresh_shift peer /\
    c_rcvWndShift c = fresh_shift cfg;
  ag_window : c_sndWnd c = Z.shiftl (fresh_window peer) (fresh_shift peer) /\
    0 < c_sndWnd c <= ConnConfig_recvBufSize peer;
  ag_options : c_sackOK c = cfg_EnableSACK cfg && cfg_EnableSACK peer /\
    c_tsOK c = cfg_EnableTimestamps cfg && cfg_EnableTimestamps peer;
  ag_quiet : c_rtoTimer c = None /\ c_outgoing c = [];
}.

Section exchange.
Context {F : Float64}.

Lemma NewConn_pristine t cfg : config_ok cfg -> pristine (NewConn t cfg).
Proof.
  intros (_ & _ & _ & Hs & _). split; try done. cbn [NewConn c_sendBufCap].
  case_match; zbool; [done|lia].
Qed.

Lemma fresh_cc t cfg : (OnDupACK (c_cc (NewConn t cfg))).1 = false.
Proof. cbn [c_cc NewConn]. by destruct (cfg_CongestionControl cfg). Qed.

Lemma segment_delivered s : segment_wf s -> Checksum s = 0 -> delivered [Segment_Marshal s] = Some s.
Proof.
  intros H E. unfold delivered. rewrite (parse_marshal s H). f_equal. destruct s. cbn in E. by subst.
Qed.

(** The third segment of the handshake, as the server parses it. *)
Definition final_ack t (c : Conn) (s : SendBuf) (r : RecvBuf) : Segment :=
  conn_segment c (SendBuf_NXT s) (RecvBuf_Nxt r) FlagACK (rcvWindow c)
    (if c_tsOK c then [TimestampOption (tsNow t c) (c_tsRecent c)] else []) [].

Lemma ack_packet_final t c s nxt W :
  c_recvBuf c = Some (NewRecvBuf nxt W) ->
  ack_packet t c s (NewRecvBuf nxt W) = Segment_Marshal (final_ack t c s (NewRecvBuf nxt W)).
Proof.
  intros E. unfold ack_packet, addOptions, final_ack. rewrite E.
  replace (c_sackOK c && RecvBuf_HasOOO (NewRecvBuf nxt W)) with false by (symmetry; apply andb_false_r).
  by destruct (c_tsOK c).
Qed.

Lemma final_ack_options t c s r v e :
  GetTimestamp (Options (final_ack t c s r)) = Some (v, e) -> v = tsNow t c.
Proof.
  cbn [final_ack conn_segment Options]. destruct (c_tsOK c); [|done].
  cbn [GetTimestamp]. rewrite decide_True by done. intros [= <- _].
  change (be_get (be_put 4 (tsNow t c)) = tsNow t c). rewrite be_get_put32. unfold tsNow. mlia.
Qed.

Lemma timestamps_fresh t1 t3 c c' : t1 <= t3 <= t1 + 2 ^ 30 * Millisecond ->
  c_tsOffset c' = c_tsOffset c -> 0 <= int32 (wrap32 (tsNow t3 c' - tsNow t1 c)).
Proof.
  intros Ht E. unfold tsNow. rewrite E. set (o := c_tsOffset c).
  assert (0 <= t3 / Millisecond - t1 / Millisecond < 2 ^ 31) as Hd.
  { unfold Millisecond in *. Z.div_mod_to_equations; lia. }
  set (x := t3 / Millisecond) in *. set (y := t1 / Millisecond) in *.
  replace (wrap32 (wrap32 (wrap32 x - o) - wrap32 (wrap32 y - o))) with (wrap32 (x - y)) by mlia.
  rewrite (wrap32_small (x - y)) by (unfold is_u32; lia). rewrite int32_small; lia.
Qed.

Lemma negotiated_mss t p c :
  0 < c_mss p <= 65535 -> 0 < c_mss c -> c_mss (negotiated t p c) = Z.min (c_mss c) (c_mss p).
Proof.
  intros Hp Hc. unfold negotiated. conn_cbn. rewrite wrap16_small by (unfold is_u16; lia).
  case_match; zbool; [lia|]. destruct (Z.ltb_spec 0 (c_mss p)); [|lia].
  destruct (Z.ltb_spec (c_mss p) (c_mss c)); [done|lia].
Qed.

Lemma config_mss cfg : config_ok cfg -> ConnConfig_mss cfg <= 65535 -> 0 < ConnConfig_mss cfg <= 65535.
Proof. intros _ H. unfold ConnConfig_mss, DefaultMSS in *. case_match; zbool; lia. Qed.

(** From what each step established to what the endpoint has agreed. *)
Lemma agreed_intro cfg peer t iss piss w c :
  config_ok cfg -> config_ok peer -> same_config (NewConn t cfg) c ->
  synchronized_at iss piss (wrap32 (Z.shiftl w (fresh_shift peer))) c -> w = fresh_window peer ->
  c_established c = true -> c_closed c = false -> c_outgoing c = [] ->
  c_mss c = Z.min (ConnConfig_mss cfg) (ConnConfig_mss peer) ->
  c_wscaleOK c = true -> c_sndWndShift c = fresh_shift peer ->
  c_sackOK c = cfg_EnableSACK cfg && cfg_EnableSACK peer ->
  c_tsOK c = cfg_EnableTimestamps cfg && cfg_EnableTimestamps peer ->
  agreed cfg peer iss piss c.
Proof.
  intros H1 H2 [_ [E1 _] E2 _ _] [A1 A2 A3 A4 A5] -> B1 B2 B3 B4 B5 B6 B7 B8.
  destruct (fresh_window_range peer H2) as (R1 & R2 & _). rewrite R2 in A4.
  split; try done; [by rewrite A3, E1|]. rewrite A4. done.
Qed.
(** The client's half of the exchange, from the SYN-ACK that [c2] sent. *)
Lemma client_half cfgA cfgB tA tB t1 t2 t3 a b c1 c2 :
  config_ok cfgA -> config_ok cfgB -> ConnConfig_mss cfgA <= 65535 -> ConnConfig_mss cfgB <= 65535 ->
  is_u32 a -> same_config (NewConn tA cfgA) c1 -> same_options (NewConn tA cfgA) c1 ->
  c_closed c1 = false -> syn_pending StateSynSent a 0 c1 ->
  same_config (NewConn tB cfgB) c2 ->
  same_options (negotiated t1 (NewConn tA cfgA) (NewConn tB cfgB)) c2 ->
  rcvWindow c2 = fresh_window cfgB ->
  wp (HandleSegment t3 (conn_segment (NewConn tB cfgB) b (wrap32 (a + 1)) (Z.lor FlagSYN FlagACK)
        (rcvWindow c2) (buildSYNOptions t2 c2) []))
    (fun pkts c3 => agreed cfgA cfgB a b c3 /\ same_config (NewConn tA cfgA) c3 /\
       exists s r, c_sendBuf c3 = Some s /\ c_recvBuf c3 = Some r /\ pkts = [ack_packet t3 c3 s r]) c1.
Proof.
  intros HA HB MA MB Ha C1 O1 L1 P1 C2 O2 Hw.
  pose proof (config_mss cfgA HA MA) as PA. pose proof (config_mss cfgB HB MB) as PB.
  destruct (fresh_shift_range cfgB HB) as [SB _].
  assert (c_rcvWndShift c2 = fresh_shift cfgB) as Es by apply (sc_shift _ _ C2).
  eapply wp_mono; [eapply (client_wp t2 t3 a b _ c2 c1); try done; by rewrite Es|].
  intros pkts c3 (C3 & O3 & L3 & Q3 & B3 & S3 & X3). cbn [Window conn_segment] in S3.
  rewrite Es, Hw in S3. destruct O3 as [M3 [W3 W3'] K3 [T3 _]].
  assert (same_config (NewConn tA cfgA) c3) as C by (by transitivity c1).
  split_and!; [|done|done].
  apply (agreed_intro _ _ tA _ _ (fresh_window cfgB)); try done.
  - by rewrite L3.
  - assert (c_mss c1 = ConnConfig_mss cfgA) as X1 by apply (so_mss _ _ O1).
    assert (c_mss c2 = Z.min (ConnConfig_mss cfgB) (ConnConfig_mss cfgA)) as X2.
    { rewrite (so_mss _ _ O2). apply negotiated_mss; [done|]. apply PB. }
    rewrite M3. clear -X1 X2 PA PB. rewrite negotiated_mss; lia.
  - rewrite W3'. exact Es.
  - rewrite K3. unfold negotiated. conn_cbn.
    by rewrite (so_sack _ _ O1), (sc_sack _ _ C1), (sc_sack _ _ C2).
  - rewrite T3. unfold negotiated. conn_cbn.
    by rewrite (proj1 (so_ts _ _ O1)), (proj1 (sc_ts _ _ C1)), (proj1 (sc_ts _ _ C2)).
Qed.

(** The server's half, from the final ACK that [c3] sent. *)
Lemma server_half cfgA cfgB tA tB t1 t3 t4 a b c2 c3 s r :
  config_ok cfgA -> config_ok cfgB -> ConnConfig_mss cfgA <= 65535 -> ConnConfig_mss cfgB <= 65535 ->
  is_u32 b -> t1 <= t3 <= t1 + 2 ^ 30 * Millisecond ->
  same_config (NewConn tB cfgB) c2 ->
  same_options (negotiated t1 (NewConn tA cfgA) (NewConn tB cfgB)) c2 ->
  c_closed c2 = false -> c_cc c2 = c_cc (NewConn tB cfgB) ->
  syn_pending StateSynReceived b (wrap32 (a + 1)) c2 ->
  agreed cfgA cfgB a b c3 -> same_config (NewConn tA cfgA) c3 ->
  c_sendBuf c3 = Some s -> c_recvBuf c3 = Some r ->
  wp (HandleSegment t4 (final_ack t3 c3 s r)) (fun _ c4 => agreed cfgB cfgA b a c4) c2.
Proof.
  intros HA HB MA MB Hb Ht C2 O2 L2 G2 P2 A3 C3 Es Er.
  pose proof (config_mss cfgA HA MA) as PA. pose proof (config_mss cfgB HB MB) as PB.
  destruct (fresh_shift_range cfgA HA) as [SA _]. pose proof (recvBufSize_range cfgB HB) as RB.
  pose proof (ag_sendBuf _ _ _ _ _ A3) as E1. pose proof (ag_recvBuf _ _ _ _ _ A3) as E2.
  simplify_eq. destruct O2 as [M2 [W2 W2'] K2 [T2 V2]].
  eapply wp_mono; [eapply (server_wp t4 a b (final_ack t3 c3 _ _) c2); try done|].
  - by rewrite (proj1 (sc_caps _ _ C2)).
  - cbn [final_ack conn_segment Options]. by destruct (c_tsOK c3).
  - rewrite G2. apply fresh_cc.
  - intros v e Hv Hok. apply final_ack_options in Hv as ->. rewrite V2. unfold negotiated. conn_cbn.
    rewrite T2 in Hok. unfold negotiated in Hok. cbn [set_field c_tsOK NewConn orb] in Hok.
    replace (_ && _) with true by (symmetry; exact Hok).
    apply timestamps_fresh; [done|]. apply (sc_ts _ _ C3).
  - intros pkts c4 (C4 & M4 & W4 & W4' & K4 & T4 & L4 & Q4 & B4 & S4 & _).
    cbn [Window final_ack conn_segment] in S4.
    rewrite (rcvWindow_fresh cfgA c3 (wrap32 (b + 1))) in S4;
      [|done|apply (sc_caps _ _ C3)|apply (sc_shift _ _ C3)|done|apply (ag_scale _ _ _ _ _ A3)].
    rewrite W2' in S4.
    apply (agreed_intro _ _ tB _ _ (fresh_window cfgA)); try done.
    + by transitivity c2.
    + by rewrite L4.
    + rewrite M4, M2. apply negotiated_mss; [done|]. apply PB.
    + by rewrite W4, W2.
    + by rewrite W4', W2'.
    + rewrite K4, K2. done.
    + rewrite T4, T2. done.
Qed.
End exchange.

(** C7: the three-way handshake: whatever the two configurations, initial numbers and
    (ordered) times, the SYN, SYN-ACK and ACK the two sides emit parse on the other side
    and leave both connections established, their send and receive numbers one past the
    initial numbers and matching the peer's, the MSS the smaller of the two, SACK and
    timestamps on exactly when both asked, each side's shift the peer's, and each send
    window the scaled size of the peer's empty buffer. *)
Theorem handshake_establishes {F : Float64} (cfgA cfgB : ConnConfig) (tA tB t1 t2 t3 t4 a b : Z)
  (HA : config_ok cfgA) (HB : config_ok cfgB)
  (MA : ConnConfig_mss cfgA <= 65535) (MB : ConnConfig_mss cfgB <= 65535)
  (Ha : is_u32 a) (Hb : is_u32 b) (Ht : t1 <= t3 <= t1 + 2 ^ 30 * Millisecond) :
  exists cA cB, handshake cfgA cfgB tA tB t1 t2 t3 t4 a b = Some (cA, cB) /\
    agreed cfgA cfgB a b cA /\ agreed cfgB cfgA b a cB.
Proof.
  destruct (fresh_shift_range cfgA HA) as [SA _].
  destruct (NewConn_idle tA cfgA HA) as [IA _]. destruct (NewConn_idle tB cfgB HB) as [IB _].
  unfold handshake.
  destruct (wp_inv _ _ _ (connect_wp t1 a _ (NewConn_pristine tA cfgA HA)))
    as (o & c1 & E1 & C1 & O1 & P1 & L1 & w & Hw & ->). rewrite E1.
  destruct (buildSYNOptions_wf t1 (NewConn tA cfgA)) as [W1 W2].
  rewrite segment_delivered; [|by apply conn_segment_wf|done]. cbn [mbind option_bind].
  destruct (wp_inv _ _ _ (accept_wp t1 t2 a b
    (conn_segment (NewConn tA cfgA) a 0 FlagSYN w (buildSYNOptions t1 (NewConn tA cfgA)) [])
    (NewConn tA cfgA) _ (NewConn_pristine tB cfgB HB) SA eq_refl eq_refl eq_refl))
    as (p2 & c2 & E2 & C2 & O2 & P2 & L2 & G2 & ->). rewrite E2.
  destruct (buildSYNOptions_wf t2 c2) as [W3 W4].
  rewrite segment_delivered; [|by apply conn_segment_wf; try done; [apply wrap32_range|apply rcvWindow_u16]|done].
  cbn [mbind option_bind].
  assert (rcvWindow c2 = fresh_window cfgB) as Hw2.
  { apply (rcvWindow_fresh cfgB c2 (wrap32 (a + 1)));
      [done|apply (sc_caps _ _ C2)|apply (sc_shift _ _ C2)| |apply (so_wscale _ _ O2)].
    rewrite (sp_recvBuf _ _ _ _ P2). by rewrite (proj1 (sc_caps _ _ C2)). }
  destruct (wp_inv _ _ _ (client_half cfgA cfgB tA tB t1 t2 t3 a b c1 c2 HA HB MA MB Ha C1 O1 L1 P1
    C2 O2 Hw2)) as (p3 & c3 & E3 & A3 & C3 & s & r & Es & Er & ->). rewrite E3.
  pose proof (ag_recvBuf _ _ _ _ _ A3) as Er'. rewrite Er in Er'. injection Er' as ->.
  rewrite ack_packet_final by done. rewrite segment_delivered; [|..].
  - cbn [mbind option_bind].
    destruct (wp_inv _ _ _ (server_half cfgA cfgB tA tB t1 t3 t4 a b c2 c3 s _ HA HB MA MB Hb Ht
      C2 O2 L2 G2 P2 A3 C3 Es Er)) as (p4 & c4 & E4 & A4). rewrite E4. eauto.
  - pose proof (ag_sendBuf _ _ _ _ _ A3) as Es'. rewrite Es in Es'. injection Es' as ->.
    unfold final_ack. rewrite (conn_segment_config (NewConn tA cfgA)) by done.
    apply conn_segment_wf; try done; try apply wrap32_range; try apply rcvWindow_u16.
    + destruct (c_tsOK c3); repeat constructor; try apply TimestampOption_wf; done.
    + by destruct (c_tsOK c3).
  - done.
Qed.

Lemma handshake_establishes_witness :
  exists cA cB, handshake (F := Q_float) example_config example_config 0 0 1 2 3 4 4294967295 7
    = Some (cA, cB) /\
    agreed example_config example_config 4294967295 7 cA /\
    agreed example_config example_config 7 4294967295 cB.
Proof.
  assert (config_ok example_config) by (unfold config_ok, is_u16; cbn; lia).
  apply (handshake_establishes (F := Q_float)); try done; unfold is_u32, Millisecond; lia.
Defined.
