(* ===== verification/ConnClose.v ===== *)
(** How a connection behaves where its code and the protocol part ways
    (src/vtcp/conn.go): closing with data still pending, retransmitting a FIN,
    writing more than the send buffer has room for, and a refused connection. *)

From S2P Require Import Prelude SeqSpace TcpOptions Segment Rto Congestion SendBuf RecvBuf.
From S2P Require Import ConnState ConnOps ConnApp ConnInv ConnSafe ConnReach ConnProps Handshake.

Section fin.
Context {F : Float64} (now : Z).
Implicit Types (c : Conn).

Definition fin_packet c (s : SendBuf) (r : RecvBuf) : list byte :=
  Segment_Marshal (addOptions now c
    (conn_segment c (SendBuf_NXT s) (RecvBuf_Nxt r) (Z.lor FlagFIN FlagACK) (rcvWindow c) [] [])).

(** The FIN, its number taken from SND.NXT, which it advances. *)
Lemma send_fin_wp c s r :
  c_sendBuf c = Some s -> c_recvBuf c = Some r -> c_outgoing c = [] ->
  wp (queueFIN now ;; startRTO now ;; drainOutgoing) (fun pkts c' =>
    pkts = [fin_packet c s r] /\ c_sendBuf c' = Some (SendBuf_AdvanceSent 1 s) /\
    c_recvBuf c' = Some r /\ c_state c' = c_state c /\ c_closed c' = c_closed c /\
    c_recvBufCap c' = c_recvBufCap c /\ c_outgoing c' = []) c.
Proof.
  intros Es Er Eo. apply wp_bind. unfold queueFIN. wp_read.
  apply wp_bind. eapply wp_sendBuf; [exact Es|]. apply wp_bind. eapply wp_recvBuf; [exact Er|].
  fold (fin_packet c s r). unfold queueSeg, set_sendBuf, startRTO, stopRTO, drainOutgoing.
  wp_steps. split_and!; try done. conn_cbn. by rewrite Eo.
Qed.

(** The packet is a bare FIN at SND.NXT. *)
Lemma fin_packet_parses c s r :
  conn_inv c -> is_u32 (SendBuf_NXT s) -> is_u32 (RecvBuf_Nxt r) ->
  exists seg, ParseSegment (fin_packet c s r) = inr seg /\ Seq seg = SendBuf_NXT s /\
    Segment_HasFlag seg FlagFIN = true /\ Payload seg = [].
Proof.
  intros H Hs Hr. eexists. split.
  - apply parse_marshal, addOptions_wf; try done. apply rcvWindow_u16.
  - unfold addOptions. destruct (c_tsOK c), (c_recvBuf c); try case_match; done.
Qed.
End fin.

Lemma wp_bind_inv {S A B} (m : M S A) (k : A -> M S B) Q s :
  wp (bind m k) Q s -> wp m (fun a s' => wp (k a) Q s') s.
Proof. unfold wp, bind. by destruct (m s) as [[]|]. Qed.

Section closing.
Context {F : Float64} (now : Z).
Implicit Types (c : Conn).

Lemma close_wait_exact c s r :
  c_state c = StateCloseWait -> c_closed c = false ->
  c_sendBuf c = Some s -> c_recvBuf c = Some r -> c_outgoing c = [] ->
  wp (Conn_Close now) (fun res c' => res = (true, [fin_packet now c s r]) /\
    c_sendBuf c' = Some (SendBuf_AdvanceSent 1 s) /\ c_state c' = StateLastAck) c.
Proof.
  intros Est Ec Es Er Eo. unfold Conn_Close. wp_read. rewrite Ec, Est. apply wp_bind, wp_bind.
  unfold set_state. apply wp_modify.
  eapply wp_mono; [eapply (send_fin_wp now (c <| c_state := StateLastAck |>)); done|].
  intros pkts c' (-> & E1 & _ & E2 & _).
  unfold recvCond_Broadcast, sendCond_Broadcast. wp_steps. split_and!; try done.
Qed.

Lemma fin_packet_config s r c c' :
  same_config c c' -> same_options c c' -> c_recvBuf c' = c_recvBuf c ->
  fin_packet now c' s r = fin_packet now c s r.
Proof.
  intros C O R. unfold fin_packet. rewrite (conn_segment_config c), (rcvWindow_config c) by done.
  destruct C as [_ _ _ [_ E1] _], O as [_ _ E2 [E3 E4]]. unfold addOptions, tsNow.
  by rewrite E1, E2, E3, E4, R.
Qed.

(** A timeout in LAST-ACK before the retries are exhausted. *)
Lemma last_ack_timeout_wp c s r :
  conn_inv c -> c_state c = StateLastAck -> c_closed c = false -> c_retries c < MaxRetries ->
  c_sendBuf c = Some s -> c_recvBuf c = Some r -> c_outgoing c = [] ->
  wp (onRTOTimeout now) (fun pkts c' =>
    pkts = [fin_packet now c s r] /\ c_sendBuf c' = Some (SendBuf_AdvanceSent 1 s) /\
    c_recvBuf c' = Some r /\ c_state c' = StateLastAck /\ c_recvBufCap c' = c_recvBufCap c /\
    c_closed c' = false /\ c_outgoing c' = []) c.
Proof.
  intros H Est Ec Hr Es Er Eo. unfold onRTOTimeout. wp_read. unfold is_closed. rewrite Ec, Est.
  rewrite bool_decide_false by done. cbn [orb]. apply wp_bind, wp_modify. wp_read. conn_cbn.
  replace (MaxRetries <? c_retries c + 1) with false by lia.
  pose proof (cc_OnTimeout (c_cc c) (ci_cc c H)) as Hok.
  destruct (OnTimeout (c_cc c)) as [cc|]; [|done]. apply wp_bind, wp_modify.
  apply wp_bind. eapply wp_lift; [done|]. unfold set_cc. apply wp_bind, wp_modify.
  match goal with |- wp _ _ ?x => assert (exists d, d = x /\ same_config c d /\ same_options c d /\
    c_sendBuf d = Some s /\ c_recvBuf d = Some r /\ c_state d = StateLastAck /\ c_closed d = false /\
    c_outgoing d = [] /\ c_recvBufCap d = c_recvBufCap c)
    as (d & <- & C & O & E1 & E2 & E3 & E4 & E5 & E6)
    by (eexists; split_and!; [reflexivity|by split|by split|done..]) end.
  unfold rto_retransmit. apply wp_bind. wp_read. rewrite E3.
  pose proof (send_fin_wp now d s r E1 E2 E5) as Hw.
  apply wp_bind_inv in Hw. eapply wp_mono; [exact Hw|]. cbv beta. intros [] c2 Hw2.
  eapply wp_mono; [exact Hw2|]. intros pkts c3 (-> & A1 & A2 & A3 & A4 & A5 & A6).
  rewrite (fin_packet_config s r c d) by (done || congruence). split_and!; congruence.
Qed.

(** An ACK in order, without SYN or RST, in LAST-ACK. *)
Lemma last_ack_wp c s r seg :
  is_u32 (rb_nxt r) -> 2 ^ 16 <= c_recvBufCap c <= 2 ^ 30 -> c_state c = StateLastAck ->
  c_sendBuf c = Some s -> c_recvBuf c = Some r -> Flags seg = FlagACK -> Seq seg = RecvBuf_Nxt r ->
  wp (HandleSegment now seg) (fun _ c' =>
    c_state c' = if Ack seg =? SendBuf_NXT s then StateClosed else StateLastAck) c.
Proof.
  intros Hn HW Est Es Er Hf Hs. apply wp_synchronized; [rewrite Est; split; [split|]; discriminate|].
  unfold handleSynchronized. wp_read. rewrite (next_acceptable seg (touched now c) r) by done.
  apply wp_bind, wp_ret. cbn [negb]. unfold Segment_HasFlag. rewrite Hf.
  change (negb (Z.land FlagACK FlagRST =? 0)) with false.
  change (negb (Z.land FlagACK FlagSYN =? 0)) with false.
  change (negb (Z.land FlagACK FlagACK =? 0)) with true. cbn [negb andb].
  unfold dispatch. wp_read. change (c_state (touched now c)) with (c_state c). rewrite Est.
  unfold handleLastAck, Segment_HasFlag. rewrite Hf.
  change (negb (Z.land FlagACK FlagACK =? 0)) with true. cbn [when].
  apply wp_bind, wp_bind. eapply wp_sendBuf; [exact Es|].
  unfold set_state, stopRTO, stopKeepalive, stopPersist, recvCond_Broadcast, sendCond_Broadcast, drainOutgoing.
  destruct (Ack seg =? SendBuf_NXT s); cbn [when]; wp_steps; done.
Qed.
End closing.

(** ** Connections to evaluate the theorems on *)

(** The peer's FIN with a closed window, then two bytes written. *)
Definition example_fin : Segment :=
  mkSegment 80 4242 1000 2001 (Z.lor FlagFIN FlagACK) 0 0 0 [] [].
Definition example_close_wait : Conn := conn_after 6 (OpSegment example_fin) example_conn.
Definition example_pending : Conn := conn_after 7 (OpWrite [Byte.x61; Byte.x62]) example_close_wait.
Definition example_last_ack : Conn := conn_after 7 OpClose example_close_wait.
(** A connecting client, and a connection with room for four bytes. *)
Definition example_syn_sent : Conn := conn_after 5 (OpConnect 5) (NewConn 0 example_config).
Definition small_config : ConnConfig := mkConnConfig 4242 80 0 false true true CCNewReno true 0 0 0 4 0.
Definition example_small : Conn :=
  conn_after 5 (OpAcceptCookie 1000 2000 1400 []) (NewConn 0 small_config).

Lemma example_close_wait_reachable : conn_reachable (F := Q_float) example_close_wait.
Proof.
  apply conn_after_reachable; [apply example_conn_reachable|].
  cbn [op_ok]. unfold seg_ok, is_u32, is_u16. cbn. lia.
Qed.

Lemma example_small_reachable : conn_reachable (F := Q_float) example_small.
Proof.
  apply conn_after_reachable; [|cbn [op_ok]; unfold is_u32; cbn [length]; lia].
  apply reach_init. exists 0, small_config. split; [|reflexivity]. unfold config_ok, is_u16. cbn. lia.
Qed.

(** ** Theorems *)

(** closing can overtake data: in CLOSE-WAIT with bytes still pending, [Close] sends a
    bare FIN numbered SND.NXT, the number of the first pending byte, sends none of the
    pending bytes, and counts one of them as sent; so that byte is never transmitted. *)
Theorem close_overtakes_pending {F : Float64} (now : Z) (c : Conn) (s : SendBuf) (r : RecvBuf)
  (Hc : conn_reachable c) (Est : c_state c = StateCloseWait) (Ecl : c_closed c = false)
  (Es : c_sendBuf c = Some s) (Er : c_recvBuf c = Some r) (Hp : 0 < SendBuf_Pending s) :
  exists p seg c' s', Conn_Close now c = Ok ((true, [p]), c') /\ ParseSegment p = inr seg /\
    Segment_HasFlag seg FlagFIN = true /\ Payload seg = [] /\ Seq seg = SendBuf_NXT s /\
    c_state c' = StateLastAck /\ c_sendBuf c' = Some s' /\ sb_buf s' = sb_buf s /\
    SendBuf_Pending s' = SendBuf_Pending s - 1.
Proof.
  destruct (reachable_idle c Hc) as (H & Ho & _). pose proof (ci_sendBuf c H s Es) as Hs.
  destruct (wp_inv _ _ _ (close_wait_exact now c s r Est Ecl Es Er Ho)) as (res & c' & E & -> & E1 & E2).
  destruct (fin_packet_parses now c s r H) as (seg & A1 & A2 & A3 & A4);
    [apply Hs|apply (ci_recvBuf c H r Er)|].
  destruct (Pending_AdvanceSent s Hs 1 Hp) as [B1 _]; [lia|].
  exists (fin_packet now c s r), seg, c', (SendBuf_AdvanceSent 1 s). done.
Qed.

Lemma close_overtakes_pending_witness :
  exists p seg c', Conn_Close (F := Q_float) 8 example_pending = Ok ((true, [p]), c') /\
    ParseSegment p = inr seg /\ Segment_HasFlag seg FlagFIN = true /\ Payload seg = [].
Proof.
  destruct (c_sendBuf example_pending) as [s|] eqn:Es; [|vm_compute in Es; congruence].
  destruct (c_recvBuf example_pending) as [r|] eqn:Er; [|vm_compute in Er; congruence].
  destruct (close_overtakes_pending (F := Q_float) 8 example_pending s r)
    as (p & seg & c' & s' & A & B & C & D & _).
  - apply conn_after_reachable; [apply example_close_wait_reachable|exact I].
  - vm_compute. reflexivity.
  - vm_compute. reflexivity.
  - exact Es.
  - exact Er.
  - vm_compute in Es. injection Es as <-. vm_compute. reflexivity.
  - exists p, seg, c'. split_and!; assumption.
Defined.

(** a retransmitted FIN gets a new number: in LAST-ACK the ACK of everything sent
    closes the connection; after one retransmission timeout, which sends the FIN again at
    SND.NXT and advances it, the same ACK no longer does. *)
Theorem fin_retransmission_renumbers {F : Float64} (now : Z) (c : Conn) (s : SendBuf) (r : RecvBuf)
  (seg : Segment) (Hc : conn_reachable c) (Est : c_state c = StateLastAck)
  (Ecl : c_closed c = false) (Hr : c_retries c < MaxRetries)
  (Es : c_sendBuf c = Some s) (Er : c_recvBuf c = Some r) (Hf : Flags seg = FlagACK)
  (Hseq : Seq seg = RecvBuf_Nxt r) (Hack : Ack seg = SendBuf_NXT s) :
  (exists pkts c', HandleSegment now seg c = Ok (pkts, c') /\ c_state c' = StateClosed) /\
  exists p fin c1, onRTOTimeout now c = Ok ([p], c1) /\ ParseSegment p = inr fin /\
    Segment_HasFlag fin FlagFIN = true /\ Seq fin = SendBuf_NXT s /\
    exists pkts c2, HandleSegment now seg c1 = Ok (pkts, c2) /\ c_state c2 = StateLastAck.
Proof.
  destruct (reachable_idle c Hc) as (H & Ho & _). pose proof (ci_sendBuf c H s Es) as Hs.
  destruct (ci_recvBuf c H r Er) as [Hn _]. pose proof (ci_recvBufCap c H) as HW. split.
  - destruct (wp_inv _ _ _ (last_ack_wp now c s r seg Hn HW Est Es Er Hf Hseq)) as (p & c' & E & A).
    exists p, c'. split; [done|]. by rewrite Hack, Z.eqb_refl in A.
  - destruct (wp_inv _ _ _ (last_ack_timeout_wp now c s r H Est Ecl Hr Es Er Ho))
      as (p & c1 & E & -> & A1 & A2 & A3 & A4 & A5 & A6).
    destruct (fin_packet_parses now c s r H) as (fin & B1 & B2 & B3 & B4); [apply Hs|done|].
    exists (fin_packet now c s r), fin, c1. split_and!; try done. rewrite <- A4 in HW.
    destruct (wp_inv _ _ _ (last_ack_wp now c1 _ r seg Hn HW A3 A1 A2 Hf Hseq)) as (q & c2 & E2 & X).
    exists q, c2. split; [done|]. rewrite X, Hack.
    replace (SendBuf_NXT s =? _) with false; [done|]. symmetry. apply Z.eqb_neq.
    destruct Hs as (_ & Hs & _). unfold SendBuf_NXT, SendBuf_AdvanceSent. cbn [sb_nxt set_field]. mlia.
Qed.

Lemma fin_retransmission_renumbers_witness :
  exists p c1, onRTOTimeout (F := Q_float) 8 example_last_ack = Ok ([p], c1) /\
    exists pkts c2, HandleSegment (F := Q_float) 8 (mkSegment 80 4242 1001 2002 FlagACK 100 0 0 [] []) c1
      = Ok (pkts, c2) /\ c_state c2 = StateLastAck.
Proof.
  destruct (c_sendBuf example_last_ack) as [s|] eqn:Es; [|vm_compute in Es; congruence].
  destruct (c_recvBuf example_last_ack) as [r|] eqn:Er; [|vm_compute in Er; congruence].
  destruct (fin_retransmission_renumbers (F := Q_float) 8 example_last_ack s r
    (mkSegment 80 4242 1001 2002 FlagACK 100 0 0 [] []))
    as (_ & p & fin & c1 & A & _ & _ & _ & B).
  - apply conn_after_reachable; [apply example_close_wait_reachable|exact I].
  - vm_compute. reflexivity.
  - vm_compute. reflexivity.
  - vm_compute. reflexivity.
  - exact Es.
  - exact Er.
  - reflexivity.
  - vm_compute in Er. injection Er as <-. vm_compute. reflexivity.
  - vm_compute in Es. injection Es as <-. vm_compute. reflexivity.
  - exists p, c1. split; [exact A|exact B].
Defined.

Section writing.
Context {F : Float64} (now : Z).
Implicit Types (c : Conn).

Lemma write_loop_blocks fuel b c s :
  c_sendBuf c = Some s -> len (sb_buf s) <= sb_cap s -> SendBuf_Available s < len b ->
  c_writeDeadline c = None -> (2 <= fuel)%nat ->
  wp (write_loop now fuel b 0) (fun res c' => res = WriteWait (SendBuf_Available s) None /\
    c_sendBuf c' = Some (s <| sb_buf := sb_buf s ++ takeZ (SendBuf_Available s) b |>) /\
    c_rtoTimer c' = c_rtoTimer c /\ c_persistTimer c' = c_persistTimer c /\
    c_outgoing c' = c_outgoing c /\ c_sendCond c' = c_sendCond c) c.
Proof.
  intros Es Hb Ha Hd Hf. unfold SendBuf_Available in *. set (n := sb_cap s - len (sb_buf s)) in *.
  destruct fuel as [|[|fuel]]; [lia|lia|]. cbn [write_loop].
  replace (0 <? len b) with true by lia. cbn [negb].
  apply wp_bind. eapply wp_sendBuf; [exact Es|]. unfold SendBuf_Write at 1. fold n.
  change (dropZ 0 b) with b.
  destruct (Z.leb_spec n 0).
  - assert (n = 0) as -> by lia. unfold set_sendBuf. apply wp_bind, wp_modify. cbn [Z.eqb].
    wp_read. conn_cbn. rewrite Hd. apply wp_ret. split_and!; try done. conn_cbn. rewrite app_nil_r.
    by destruct s.
  - replace (n <? len b) with true by lia. unfold set_sendBuf at 1. apply wp_bind, wp_modify.
    replace (n =? 0) with false by lia. rewrite Z.add_0_l.
    replace (n <? len b) with true by lia. cbn [negb].
    apply wp_bind. eapply wp_sendBuf; [reflexivity|]. unfold SendBuf_Write.
    cbn [sb_cap sb_buf set_field]. rewrite length_app, Nat2Z.inj_add, (length_takeZ n b) by lia.
    replace (_ <=? 0) with true by (symmetry; apply Z.leb_le; unfold n; lia).
    unfold set_sendBuf. apply wp_bind, wp_modify. cbn [Z.eqb].
    wp_read. conn_cbn. rewrite Hd. apply wp_ret. split_and!; done.
Qed.
End writing.

(** a large [Write] waits without sending: on an established connection with no write
    deadline, a [Write] of more bytes than the send buffer has room for fills the buffer
    and waits; it queues no segment and arms no timer, so if nothing was in flight before,
    nothing will ever wake it. *)
Theorem large_write_waits_unsent {F : Float64} (now : Z) (c : Conn) (s : SendBuf) (b : list byte)
  (Hc : conn_reachable c) (Est : c_state c = StateEstablished) (Ecl : c_closed c = false)
  (Es : c_sendBuf c = Some s) (Hd : c_writeDeadline c = None)
  (Ha : 0 < SendBuf_Available s < len b) :
  exists c' s', Conn_Write now b c = Ok ((WriteWait (SendBuf_Available s) None, []), c') /\
    c_sendBuf c' = Some s' /\ SendBuf_Available s' = 0 /\
    SendBuf_Pending s' = SendBuf_Pending s + SendBuf_Available s /\
    c_rtoTimer c' = c_rtoTimer c /\ c_persistTimer c' = c_persistTimer c /\
    c_outgoing c' = [] /\ c_sendCond c' = c_sendCond c.
Proof.
  destruct (reachable_idle c Hc) as (H & Ho & _).
  destruct (ci_sendBuf c H s Es) as (_ & _ & _ & Hb & _).
  assert (wp (Conn_Write now b) (fun res c' => res = (WriteWait (SendBuf_Available s) None, []) /\
    c_sendBuf c' = Some (s <| sb_buf := sb_buf s ++ takeZ (SendBuf_Available s) b |>) /\
    c_rtoTimer c' = c_rtoTimer c /\ c_persistTimer c' = c_persistTimer c /\
    c_outgoing c' = c_outgoing c /\ c_sendCond c' = c_sendCond c) c) as Hw.
  { unfold Conn_Write. wp_read. rewrite Ecl, Est, (bool_decide_true (StateEstablished = _)) by done.
    cbn [negb andb]. unfold write_from. apply wp_bind.
    eapply wp_mono; [apply (write_loop_blocks now _ b c s); try done; lia|].
    intros res c' (-> & A). by apply wp_ret. }
  destruct (wp_inv _ _ _ Hw) as (res & c' & E & -> & A1 & A2 & A3 & A4 & A5).
  eexists c', _. split_and!; try done; [..|congruence];
    unfold SendBuf_Available, SendBuf_Pending in *; cbn [sb_cap sb_buf sb_nxt sb_una set_field];
    rewrite length_app, Nat2Z.inj_add, length_takeZ by lia; lia.
Qed.

Lemma large_write_waits_unsent_witness :
  exists c', Conn_Write (F := Q_float) 8 (replicate 10 Byte.x61) example_small
    = Ok ((WriteWait 4 None, []), c').
Proof.
  destruct (c_sendBuf example_small) as [s|] eqn:Es; [|vm_compute in Es; congruence].
  assert (SendBuf_Available s = 4) as Ha by (vm_compute in Es; injection Es as <-; reflexivity).
  destruct (large_write_waits_unsent (F := Q_float) 8 example_small s (replicate 10 Byte.x61))
    as (c' & s' & A & _).
  - apply example_small_reachable.
  - vm_compute. reflexivity.
  - vm_compute. reflexivity.
  - exact Es.
  - vm_compute. reflexivity.
  - rewrite Ha. cbn. lia.
  - exists c'. rewrite Ha in A. exact A.
Defined.

(** a refused connection reports success: a RST that acknowledges the SYN closes a
    connecting connection and closes the channel [Established] returns, so [Connect]'s wait
    ends in the branch that returns no error. *)
Theorem refused_connect_succeeds {F : Float64} (now : Z) (c : Conn) (s : SendBuf) (seg : Segment)
  (Hc : conn_reachable c) (Est : c_state c = StateSynSent) (Es : c_sendBuf c = Some s)
  (Hu : SendBuf_Unacked s = 1) (Hf : Flags seg = Z.lor FlagRST FlagACK)
  (Hack : Ack seg = SendBuf_NXT s) :
  exists c', HandleSegment now seg c = Ok ([], c') /\ c_state c' = StateClosed /\
    c_closed c' = true /\ select_ready c' false SelEstablished = true /\
    Connect_finish SelEstablished c' = Ok (true, c').
Proof.
  destruct (reachable_idle c Hc) as (H & Ho & _). destruct (ci_sendBuf c H s Es) as (Hu1 & Hu2 & _).
  assert (wp (HandleSegment now seg) (fun pkts c' => pkts = [] /\ c_state c' = StateClosed /\
    c_closed c' = true /\ c_established c' = true) c) as Hw.
  { apply wp_synSent; [done|]. unfold handleSynSent, synSent_badACK, Segment_HasFlag. rewrite Hf.
    change (negb (Z.land (Z.lor FlagRST FlagACK) FlagRST =? 0)) with true.
    change (negb (Z.land (Z.lor FlagRST FlagACK) FlagACK =? 0)) with true. cbv iota.
    apply wp_bind, wp_bind. eapply wp_sendBuf; [exact Es|]. apply wp_ret.
    assert (SeqBeforeEq (Ack seg) (SendBuf_UNA s) || SeqAfter (Ack seg) (SendBuf_NXT s) = false) as ->.
    { rewrite Hack. unfold SendBuf_NXT, SendBuf_UNA, SendBuf_Unacked in *.
      assert (sb_nxt s = seq_at (sb_una s) 1) as -> by (unfold seq_at; mlia).
      assert (sb_una s = seq_at (sb_una s) 0) as E0 by (unfold seq_at; mlia).
      rewrite E0 at 2. rewrite SeqBeforeEq_at, SeqAfter_at by (unfold near; lia). done. }
    cbn [when]. apply wp_bind. unfold set_state, stopRTO, safeCloseEstablished, safeCloseFinRecvd,
      recvCond_Broadcast, drainOutgoing. wp_steps; split_and!; done. }
  destruct (wp_inv _ _ _ Hw) as (pkts & c' & E & -> & A1 & A2 & A3). by exists c'.
Qed.

Lemma refused_connect_succeeds_witness :
  exists c', HandleSegment (F := Q_float) 8 (mkSegment 80 4242 0 6 (Z.lor FlagRST FlagACK) 0 0 0 [] [])
    example_syn_sent = Ok ([], c') /\ Connect_finish SelEstablished c' = Ok (true, c').
Proof.
  destruct (c_sendBuf example_syn_sent) as [s|] eqn:Es; [|vm_compute in Es; congruence].
  destruct (refused_connect_succeeds (F := Q_float) 8 example_syn_sent s
    (mkSegment 80 4242 0 6 (Z.lor FlagRST FlagACK) 0 0 0 [] [])) as (c' & A & _ & _ & _ & B).
  - apply conn_after_reachable; [apply example_init|]. cbn. unfold is_u32. lia.
  - vm_compute. reflexivity.
  - exact Es.
  - vm_compute in Es. injection Es as <-. vm_compute. reflexivity.
  - reflexivity.
  - vm_compute in Es. injection Es as <-. vm_compute. reflexivity.
  - exists c'. split; [exact A|exact B].
Defined.
