(* ===== verification/FileFrame.v ===== *)
(** The wire format of the file transfer protocol (src/p2put/relayfile.go and
    src/p2put/filecomp.go): length-prefixed frames over a byte stream, the data
    frames with their optional compression, and the bitmap of received chunks.

    A stream is what its two directions hold: the bytes still to be read, the
    bytes written, and how many more bytes it accepts before it breaks.  A
    write past that point appends what fits and fails, as [io.Writer] allows;
    a read past the end fails with [io.EOF] or [io.ErrUnexpectedEOF]. *)

From S2P Require Import Prelude.

Definition frameTypeInit : Z := 0.
Definition frameTypeAccept : Z := 1.
Definition frameTypeReject : Z := 2.
Definition frameTypeData : Z := 3.
Definition frameTypeAck : Z := 4.
Definition frameTypeFin : Z := 5.
Definition frameTypeDone : Z := 6.
Definition frameTypeError : Z := 7.
Definition frameTypeCancel : Z := 8.

Definition chunkSize : Z := 65536.
Definition ackBatch : Z := 8.

Inductive io_error := EOF | ErrUnexpectedEOF | ErrClosed.

Record stream := mkStream {
  st_in : list byte;
  st_out : list byte;
  st_room : option Z;
}.

#[global] Instance stream_eta : Eta stream := fun s => mkStream (st_in s) (st_out s) (st_room s).

(** [w.Write(p)]: [None] is success. *)
Definition stream_Write (p : list byte) (s : stream) : option io_error * stream :=
  match st_room s with
  | None => (None, s <| st_out := st_out s ++ p |>)
  | Some room =>
      if len p <=? room
      then (None, s <| st_out := st_out s ++ p |> <| st_room := Some (room - len p) |>)
      else (Some ErrClosed, s <| st_out := st_out s ++ takeZ room p |> <| st_room := Some 0 |>)
  end.

(** [io.ReadFull(r, make([]byte, n))]. *)
Definition ReadFull (n : Z) (s : stream) : (io_error + list byte) * stream :=
  if len (st_in s) <? n
  then (inl (if len (st_in s) =? 0 then EOF else ErrUnexpectedEOF), s <| st_in := [] |>)
  else (inr (takeZ n (st_in s)), s <| st_in := dropZ n (st_in s) |>).

(** ** Frames *)

Inductive frame_error :=
  | FrameLen (e : io_error)
  | FrameType (e : io_error)
  | FramePayload (e : io_error).

Definition frameWrite (typ : Z) (payload : list byte) (s : stream) : option frame_error * stream :=
  let '(err, s) := stream_Write (be_put 4 (wrap32 (len payload))) s in
  match err with
  | Some e => (Some (FrameLen e), s)
  | None =>
      let '(err, s) := stream_Write [byte_of_Z typ] s in
      match err with
      | Some e => (Some (FrameType e), s)
      | None =>
          if 0 <? len payload then
            let '(err, s) := stream_Write payload s in
            match err with
            | Some e => (Some (FramePayload e), s)
            | None => (None, s)
            end
          else (None, s)
      end
  end.

Definition frameRead (s : stream) : (frame_error + Z * list byte) * stream :=
  let '(r, s) := ReadFull 4 s in
  match r with
  | inl e => (inl (FrameLen e), s)
  | inr lenBytes =>
      let plen := be_get lenBytes in
      let '(r, s) := ReadFull 1 s in
      match r with
      | inl e => (inl (FrameType e), s)
      | inr typBuf =>
          if 0 <? plen then
            let '(r, s) := ReadFull plen s in
            match r with
            | inl e => (inl (FramePayload e), s)
            | inr payload => (inr (be_get typBuf, payload), s)
            end
          else (inr (be_get typBuf, []), s)
      end
  end.

(** The bytes of a frame. *)
Definition frame_bytes (typ : Z) (payload : list byte) : list byte :=
  be_put 4 (wrap32 (len payload)) ++ [byte_of_Z typ] ++ payload.

Lemma frameWrite_bytes typ payload s :
  (match st_room s with Some room => 5 + len payload <= room | None => True end) ->
  frameWrite typ payload s =
  (None, s <| st_out := st_out s ++ frame_bytes typ payload |>
           <| st_room := (fun room => room - (5 + len payload)) <$> st_room s |>).
Proof.
  intros H. destruct s as [i o r]. unfold frameWrite, stream_Write, frame_bytes. cbn [st_room] in *.
  rewrite ?length_be_put. destruct r as [room|]; cbn [st_out st_room st_in set_field fmap option_fmap option_map].
  - replace (Z.of_nat 4 <=? room) with true by lia.
    cbn [st_out st_room st_in set_field length].
    replace (Z.of_nat 1 <=? room - Z.of_nat 4) with true by lia.
    destruct (Z.ltb_spec 0 (len payload)).
    + cbn [st_out st_room st_in set_field].
      replace (len payload <=? room - Z.of_nat 4 - Z.of_nat 1) with true by lia.
      rewrite <- !app_assoc.
      replace (room - (5 + len payload)) with (room - Z.of_nat 4 - Z.of_nat 1 - len payload) by lia. done.
    + assert (payload = []) as -> by (destruct payload; [done|cbn in *; lia]).
      rewrite <- !app_assoc. cbn [app length].
      replace (room - (5 + Z.of_nat 0)) with (room - Z.of_nat 4 - Z.of_nat 1) by lia. done.
  - destruct (Z.ltb_spec 0 (len payload)).
    + by rewrite <- !app_assoc.
    + assert (payload = []) as -> by (destruct payload; [done|cbn in *; lia]).
      by rewrite <- !app_assoc.
Qed.

Lemma ReadFull_app p rest s :
  st_in s = p ++ rest -> ReadFull (len p) s = (inr p, s <| st_in := rest |>).
Proof.
  intros E. unfold ReadFull. rewrite E, length_app.
  replace (Z.of_nat (length p + length rest) <? len p) with false by lia.
  unfold takeZ, dropZ. rewrite Nat2Z.id, take_app_length, drop_app_length. done.
Qed.

(** Reading a frame back, whatever follows it. *)
Lemma frameRead_bytes typ payload rest s :
  is_u8 typ -> len payload < 2 ^ 32 -> st_in s = frame_bytes typ payload ++ rest ->
  frameRead s = (inr (typ, payload), s <| st_in := rest |>).
Proof.
  intros Ht Hp E. unfold frame_bytes in E. rewrite <- !app_assoc in E. unfold frameRead.
  replace 4 with (len (be_put 4 (wrap32 (len payload)))) by (rewrite length_be_put; done).
  rewrite (ReadFull_app _ _ _ E). rewrite be_get_put32, !(wrap32_small (len payload)) by (unfold is_u32; lia).
  change 1 with (len [byte_of_Z typ]). erewrite ReadFull_app by reflexivity.
  assert (be_get [byte_of_Z typ] = typ) as ->.
  { unfold be_get. cbn [foldl]. rewrite Z_of_byte_of_Z, wrap8_small by done. lia. }
  destruct (Z.ltb_spec 0 (len payload)).
  - erewrite ReadFull_app by reflexivity. by destruct s.
  - assert (payload = []) as -> by (destruct payload; [done|cbn in *; lia]). by destruct s.
Qed.

(** ** Data frames *)

(** The compression library: an encoder that may fail to start, and a decoder
    that may fail to start and otherwise yields some bytes before it ends or
    fails. *)
Class Zstd := {
  zstd_encode : list byte -> option (list byte);
  zstd_decode : list byte -> option (list byte);
}.

(** What the code relies on: decoding an encoded block yields the block, and an
    encoded block is not empty and at most a little longer than the block. *)
Class ZstdLaws (Z : Zstd) := {
  zstd_round : forall src enc, zstd_encode src = Some enc -> zstd_decode enc = Some src /\ enc <> [];
  zstd_bound : forall src enc, zstd_encode src = Some enc -> len enc <= 2 * len src + 1024;
  zstd_starts : forall src, is_Some (zstd_encode src);
}.

Inductive compression := CompZstd | CompNone.

#[global] Instance compression_eq_dec : EqDecision compression.
Proof. solve_decision. Defined.

Section data_frames.
Context {Zs : Zstd}.

Definition zstdCompressBlock (src : list byte) : list byte :=
  if len src =? 0 then [] else default [] (zstd_encode src).

(** [inl] is an error; an empty block decompresses to nothing. *)
Definition zstdDecompressBlock (src : list byte) (uncompLen : Z) : () + list byte :=
  if len src =? 0 then inr []
  else
    match zstd_decode src with
    | None => inl ()
    | Some bytes => if len bytes <? uncompLen then inl () else inr (takeZ uncompLen bytes)
    end.

Definition packDataFrame (seq : Z) (data : list byte) (c : compression) : list byte :=
  match c with
  | CompZstd =>
      be_put 8 (wrap64 seq) ++ be_put 4 (wrap32 (len data)) ++ zstdCompressBlock data
  | CompNone => be_put 8 (wrap64 seq) ++ data
  end.

Definition unpackDataFrame (payload : list byte) (c : compression) : () + Z * list byte :=
  if len payload <? 8 then inl ()
  else
    let seq := int64 (be_get (takeZ 8 payload)) in
    match c with
    | CompZstd =>
        if len payload <? 12 then inl ()
        else
          let uncompLen := be_get (slice payload 8 12) in
          match zstdDecompressBlock (dropZ 12 payload) uncompLen with
          | inl e => inl e
          | inr data => inr (seq, data)
          end
    | CompNone => inr (seq, dropZ 8 payload)
    end.

Lemma unpack_pack `{!ZstdLaws Zs} seq data c :
  0 <= seq < 2 ^ 63 -> len data < 2 ^ 32 ->
  unpackDataFrame (packDataFrame seq data c) c = inr (seq, data).
Proof.
  intros Hs Hd. unfold unpackDataFrame, packDataFrame.
  assert (forall rest, takeZ 8 (be_put 8 (wrap64 seq) ++ rest) = be_put 8 (wrap64 seq)) as Htake
    by (intros rest; apply take_app_length'; by rewrite length_be_put).
  assert (int64 (be_get (be_put 8 (wrap64 seq))) = seq) as Hseq.
  { assert (wrap64 seq = seq) as Hw by (apply Z.mod_small; lia).
    rewrite be_get_put64, !Hw. apply int64_small. unfold is_i64. lia. }
  destruct c.
  - rewrite !length_app, !length_be_put.
    replace (_ <? 8) with false by lia. replace (_ <? 12) with false by lia.
    rewrite Htake, Hseq.
    change (slice (be_put 8 (wrap64 seq) ++ be_put 4 (wrap32 (len data)) ++ zstdCompressBlock data) 8 12)
      with (be_put 4 (wrap32 (len data))).
    change (dropZ 12 (be_put 8 (wrap64 seq) ++ be_put 4 (wrap32 (len data)) ++ zstdCompressBlock data))
      with (zstdCompressBlock data).
    rewrite be_get_put32, !(wrap32_small (len data)) by (unfold is_u32; lia).
    unfold zstdCompressBlock, zstdDecompressBlock. destruct (Z.eqb_spec (len data) 0) as [E|E].
    + by rewrite (nil_length_inv data) by lia.
    + destruct (zstd_starts data) as [enc He]. rewrite He. cbn [from_option id].
      destruct (zstd_round data enc He) as [Hdec Hne].
      replace (len enc =? 0) with false by (destruct enc; [done|cbn; lia]).
      rewrite Hdec, Z.ltb_irrefl. unfold takeZ. by rewrite Nat2Z.id, firstn_all.
  - rewrite length_app, length_be_put. replace (_ <? 8) with false by lia. rewrite Htake, Hseq. done.
Qed.
End data_frames.

(** ** The bitmap of received chunks *)

(** [1 << uint(seq%64)] in 64 bits: a negative remainder converts to a huge
    shift, which gives zero. *)
Definition chunk_mask (seq : Z) : Z :=
  let r := Z.rem seq 64 in if r <? 0 then 0 else Z.shiftl 1 r.

(** Panics on a negative index. *)
Definition bitmapHas (bitmap : list Z) (seq : Z) : outcome bool :=
  let idx := Z.quot seq 64 in
  if len bitmap <=? idx then Ok false
  else if idx <? 0 then Panic
  else Ok (negb (Z.land (nth (Z.to_nat idx) bitmap 0) (chunk_mask seq) =? 0)).

Definition bitmapSet (bitmap : list Z) (seq : Z) : outcome (list Z) :=
  let idx := Z.quot seq 64 in
  if idx <? len bitmap then
    if idx <? 0 then Panic
    else
      let i := Z.to_nat idx in
      Ok (<[i := Z.lor (nth i bitmap 0) (chunk_mask seq)]> bitmap)
  else Ok bitmap.

(** The loop of [bitmapMaxContinuous] at [seq], with [more] steps to the limit. *)
Fixpoint maxContinuous_loop (more : nat) (bitmap : list Z) (seq limit : Z) : outcome Z :=
  match more with
  | O => Ok limit
  | S more =>
      match bitmapHas bitmap seq with
      | Panic => Panic
      | Ok true => maxContinuous_loop more bitmap (seq + 1) limit
      | Ok false => Ok seq
      end
  end.

Definition bitmapMaxContinuous (bitmap : list Z) (limit : Z) : outcome Z :=
  if 0 <? limit then maxContinuous_loop (Z.to_nat limit) bitmap 0 limit else Ok limit.

(** The chunks a bitmap records. *)
Definition chunk_in (bitmap : list Z) (seq : Z) : Prop :=
  0 <= seq < 64 * len bitmap /\ Z.testbit (nth (Z.to_nat (seq / 64)) bitmap 0) (seq mod 64) = true.

Lemma chunk_mask_nonneg seq : 0 <= seq -> chunk_mask seq = 2 ^ (seq mod 64).
Proof.
  intros H. unfold chunk_mask. rewrite Z.rem_mod_nonneg by lia.
  pose proof (Z.mod_pos_bound seq 64 ltac:(lia)).
  replace (_ <? 0) with false by lia. by rewrite Z.shiftl_1_l.
Qed.

Lemma land_pow2_testbit x n : 0 <= n -> negb (Z.land x (2 ^ n) =? 0) = Z.testbit x n.
Proof.
  intros H. destruct (Z.testbit x n) eqn:E.
  - apply negb_true_iff, Z.eqb_neq. intros E0.
    assert (Z.testbit (Z.land x (2 ^ n)) n = false) as Hb by (rewrite E0; apply Z.bits_0).
    rewrite Z.land_spec, E, Z.pow2_bits_true in Hb by done. done.
  - apply negb_false_iff, Z.eqb_eq, Z.bits_inj'. intros m Hm.
    rewrite Z.land_spec, Z.bits_0. destruct (Z.eq_dec n m) as [->|].
    + by rewrite E.
    + by rewrite Z.pow2_bits_false, andb_false_r.
Qed.

Lemma bitmapHas_spec bitmap seq : 0 <= seq ->
  exists b, bitmapHas bitmap seq = Ok b /\ (b = true <-> chunk_in bitmap seq).
Proof.
  intros H. unfold bitmapHas, chunk_in. rewrite Z.quot_div_nonneg by lia.
  destruct (Z.leb_spec (len bitmap) (seq / 64)).
  - exists false. split; [done|]. split; [done|]. intros [? _]. Z.div_mod_to_equations; lia.
  - replace (seq / 64 <? 0) with false by (Z.div_mod_to_equations; lia).
    rewrite chunk_mask_nonneg by done.
    pose proof (Z.mod_pos_bound seq 64 ltac:(lia)).
    rewrite land_pow2_testbit by lia. eexists. split; [done|].
    split; [intros ->; split; [Z.div_mod_to_equations; lia|done]|by intros []].
Qed.

Lemma bitmapSet_spec bitmap seq : 0 <= seq < 64 * len bitmap ->
  exists bitmap', bitmapSet bitmap seq = Ok bitmap' /\ length bitmap' = length bitmap /\
    forall x, chunk_in bitmap' x <-> x = seq \/ chunk_in bitmap x.
Proof.
  intros H. unfold bitmapSet. rewrite Z.quot_div_nonneg by lia.
  replace (seq / 64 <? len bitmap) with true by (Z.div_mod_to_equations; lia).
  replace (seq / 64 <? 0) with false by (Z.div_mod_to_equations; lia).
  eexists. split; [done|]. split; [apply length_insert|]. intros x. unfold chunk_in.
  rewrite length_insert, chunk_mask_nonneg by lia.
  pose proof (Z.mod_pos_bound seq 64 ltac:(lia)). pose proof (Z.mod_pos_bound x 64 ltac:(lia)).
  destruct (decide (0 <= x < 64 * len bitmap)) as [Hx|Hx].
  2: { split; [by intros []|]. intros [->|[]]; lia. }
  assert (forall l : list Z, (nth (Z.to_nat (x / 64)) l 0) = default 0 (l !! Z.to_nat (x / 64))) as Hn.
  { intros l. by rewrite nth_lookup. }
  rewrite !Hn.
  destruct (decide (Z.to_nat (seq / 64) = Z.to_nat (x / 64))) as [E|E].
  - rewrite <- E, list_lookup_insert_eq by (Z.div_mod_to_equations; lia). cbn [from_option id].
    rewrite Z.lor_spec, nth_lookup.
    destruct (Z.eq_dec (x mod 64) (seq mod 64)) as [Em|Em].
    + assert (x = seq) as -> by (Z.div_mod_to_equations; lia).
      rewrite Z.pow2_bits_true, orb_true_r by lia. naive_solver.
    + rewrite Z.pow2_bits_false, orb_false_r by lia. split; [naive_solver|].
      intros [->|[_ ?]]; [done|]. done.
  - rewrite list_lookup_insert_ne by done. split; [naive_solver|]. intros [->|]; naive_solver.
Qed.

(** The first chunk not recorded, or the limit. *)
Lemma maxContinuous_spec bitmap limit : 0 <= limit ->
  exists n, bitmapMaxContinuous bitmap limit = Ok n /\ 0 <= n <= limit /\
    (forall i, 0 <= i < n -> chunk_in bitmap i) /\ (n < limit -> ~ chunk_in bitmap n).
Proof.
  intros Hl.
  assert (forall more seq, 0 <= seq -> seq + Z.of_nat more = limit ->
    (forall i, 0 <= i < seq -> chunk_in bitmap i) ->
    exists n, maxContinuous_loop more bitmap seq limit = Ok n /\ seq <= n <= limit /\
      (forall i, 0 <= i < n -> chunk_in bitmap i) /\ (n < limit -> ~ chunk_in bitmap n)) as Hloop.
  { induction more as [|more IH]; intros seq Hs E Hi; cbn [maxContinuous_loop].
    - exists limit. split_and!; [done|lia|lia| |lia]. intros i Hii. apply Hi. lia.
    - destruct (bitmapHas_spec bitmap seq Hs) as (b & -> & Hb). destruct b.
      + destruct (IH (seq + 1)) as (n & -> & Hn & A & B); [lia|lia| |].
        * intros i Hii. destruct (Z.eq_dec i seq) as [->|]; [by apply Hb|apply Hi; lia].
        * exists n. split_and!; done || lia.
      + exists seq. split_and!; [done|lia|lia|done|]. intros _ Hc. by apply Hb in Hc. }
  unfold bitmapMaxContinuous. destruct (Z.ltb_spec 0 limit).
  - destruct (Hloop (Z.to_nat limit) 0) as (n & E & Hn & A & B); [lia|lia|lia|].
    exists n. done.
  - exists limit. split_and!; [done|lia|lia|lia|lia].
Qed.

(** ** The protocol's wire format *)

(** A data frame written to a stream is read back whole, whatever follows
    it, and unpacks to the chunk number and the data it was made from, with and
    without compression. *)
Theorem data_frame_roundtrip `{!Zstd} `{!ZstdLaws _} seq data c s r rest :
  0 <= seq < 2 ^ 63 -> len data < 2 ^ 30 -> st_room s = None -> st_in r = dropZ (len (st_out s))
    (st_out (frameWrite frameTypeData (packDataFrame seq data c) s).2) ++ rest ->
  (frameWrite frameTypeData (packDataFrame seq data c) s).1 = None /\
  exists payload, frameRead r = (inr (frameTypeData, payload), r <| st_in := rest |>) /\
    unpackDataFrame payload c = inr (seq, data).
Proof.
  intros Hs Hd Hroom. rewrite frameWrite_bytes by (by rewrite Hroom). cbn [fst snd st_out set_field].
  unfold dropZ. rewrite Nat2Z.id, drop_app_length. intros Hr. split; [done|].
  exists (packDataFrame seq data c). split; [|apply unpack_pack; lia].
  apply frameRead_bytes; [done| |done]. unfold packDataFrame, zstdCompressBlock.
  destruct c; rewrite ?length_app, !length_be_put; [|lia]. case_match; [cbn; lia|].
  destruct (zstd_encode data) as [enc|] eqn:He; cbn [from_option id length]; [|lia].
  pose proof (zstd_bound _ _ He). lia.
Qed.

(** [bitmapSet] for each chunk of a list. *)
Fixpoint bitmap_set_all (bitmap : list Z) (l : list Z) : outcome (list Z) :=
  match l with
  | [] => Ok bitmap
  | x :: l => match bitmapSet bitmap x with Ok b => bitmap_set_all b l | Panic => Panic end
  end.

(** The bitmap is the set of the chunks recorded in it: after any sequence
    of chunks below its capacity, [bitmapHas] is membership in that sequence
    and [bitmapMaxContinuous] the first chunk that is missing. *)
Theorem bitmap_refines_set n l limit :
  Forall (fun x => 0 <= x < 64 * Z.of_nat n) l -> 0 <= limit ->
  exists bitmap first, bitmap_set_all (replicate n 0) l = Ok bitmap /\
    (forall x, 0 <= x -> bitmapHas bitmap x = Ok (bool_decide (x ∈ l))) /\
    bitmapMaxContinuous bitmap limit = Ok first /\
    0 <= first <= limit /\ (forall i, 0 <= i < first -> i ∈ l) /\ (first < limit -> first ∉ l).
Proof.
  intros Hl Hlim.
  assert (forall b0, length b0 = n -> exists bitmap, bitmap_set_all b0 l = Ok bitmap /\
    forall x, chunk_in bitmap x <-> x ∈ l \/ chunk_in b0 x) as Hall.
  { clear Hlim. induction l as [|y l IH]; intros b0 Hb0; cbn [bitmap_set_all].
    - exists b0. split; [done|]. set_solver.
    - inversion Hl as [|?? Hy Hl']; subst. destruct (bitmapSet_spec b0 y Hy) as (b1 & -> & Hlen & Hin).
      destruct (IH Hl' b1 Hlen) as (b2 & -> & Hin2). exists b2. split; [done|]. intros x.
      rewrite Hin2, Hin, elem_of_cons. tauto. }
  destruct (Hall (replicate n 0) (length_replicate _ _)) as (bitmap & Hset & Hin).
  assert (forall x, chunk_in bitmap x <-> x ∈ l) as Hin'.
  { intros x. rewrite Hin. split; [|by left]. intros [|[_ Hx]]; [done|].
    rewrite nth_lookup in Hx. destruct (replicate n 0 !! Z.to_nat (x / 64)) eqn:E; cbn in Hx;
      [apply lookup_replicate_1 in E as [-> _]|]; by rewrite Z.bits_0 in Hx. }
  destruct (maxContinuous_spec bitmap limit Hlim) as (first & Hmax & Hf & Hbelow & Hat).
  exists bitmap, first. split; [done|]. split; [|split; [done|split; [done|split]]].
  - intros x Hx. destruct (bitmapHas_spec bitmap x Hx) as (b & -> & Hb). f_equal.
    rewrite Hin' in Hb. destruct b; symmetry; [apply bool_decide_eq_true_2|apply bool_decide_eq_false_2]; naive_solver.
  - intros i Hi. by apply Hin', Hbelow.
  - intros Hlt. rewrite <- Hin'. by apply Hat.
Qed.

Lemma bitmap_refines_set_witness :
  exists bitmap first, bitmap_set_all (replicate 2 0) [0; 1; 100] = Ok bitmap /\
    (forall x, 0 <= x -> bitmapHas bitmap x = Ok (bool_decide (x ∈ [0; 1; 100]))) /\
    bitmapMaxContinuous bitmap 128 = Ok first /\
    0 <= first <= 128 /\ (forall i, 0 <= i < first -> i ∈ [0; 1; 100]) /\ (first < 128 -> first ∉ [0; 1; 100]).
Proof. apply (bitmap_refines_set 2 [0; 1; 100] 128); [repeat constructor; lia|lia]. Defined.
