(* ===== verification/FilePath.v ===== *)
(** Slash-separated paths, as [path/filepath] treats them on Unix: [Base],
    [Clean] and [Join], which decide where a received file is stored
    (src/p2put/relayfile.go).

    [Clean] is given by its documented lexical rules on the elements of a path:
    empty and [.] elements disappear, an inner [..] removes the element before
    it, and a [..] at the root disappears. *)

From Stdlib Require Import Ascii.
From stdpp Require Import strings.
From S2P Require Import Prelude.

#[local] Open Scope string_scope.
#[local] Open Scope list_scope.

(** The elements between slashes, empty ones included: never an empty list. *)
Fixpoint split_slash (s : string) : list string :=
  match s with
  | EmptyString => [""]
  | String c rest =>
      if bool_decide (c = "/"%char) then "" :: split_slash rest
      else
        match split_slash rest with
        | [] => [String c ""]
        | e :: es => String c e :: es
        end
  end.

Fixpoint join_slash (l : list string) : string :=
  match l with
  | [] => ""
  | [e] => e
  | e :: es => e +:+ "/" +:+ join_slash es
  end.

(** Whether a path starts at the root. *)
Definition rooted (s : string) : bool :=
  match s with String c _ => bool_decide (c = "/"%char) | EmptyString => false end.

(** The elements that remain, the last one first. *)
Definition clean_element (root : bool) (stack : list string) (e : string) : list string :=
  if bool_decide (e = "" \/ e = ".") then stack
  else if bool_decide (e = "..") then
    match stack with
    | top :: below =>
        if bool_decide (top = "..") then e :: stack else below
    | [] => if root then [] else [e]
    end
  else e :: stack.

Definition elements (s : string) : list string :=
  rev (foldl (clean_element (rooted s)) [] (split_slash s)).

Definition print_path (root : bool) (l : list string) : string :=
  match root, l with
  | true, _ => "/" +:+ join_slash l
  | false, [] => "."
  | false, _ => join_slash l
  end.

Definition Clean (s : string) : string := print_path (rooted s) (elements s).

(** [filepath.Join(a, b)]. *)
Definition Join (a b : string) : string :=
  if bool_decide (a = "") then (if bool_decide (b = "") then "" else Clean b)
  else if bool_decide (b = "") then Clean a
  else Clean (a +:+ "/" +:+ b).

(** [filepath.Base]: the last element, trailing slashes removed. *)
Definition Base (s : string) : string :=
  if bool_decide (s = "") then "."
  else
    match rev (filter (fun e => e <> "") (split_slash s)) with
    | [] => "/"
    | e :: _ => e
    end.

(** ** Where a received file goes *)

Definition save_dir (recvDir : string) : string :=
  if bool_decide (recvDir = "") then "." else recvDir.

Definition save_path (recvDir name : string) : string := Join (save_dir recvDir) (Base name).

(** The partial file beside it. *)
Definition part_path (finalPath : string) : string := finalPath +:+ ".relayfile.part".

(** ** Lemmas *)

(** An element: no slash in it. *)
Fixpoint slashless (s : string) : Prop :=
  match s with
  | EmptyString => True
  | String c rest => c <> "/"%char /\ slashless rest
  end.

Lemma split_slash_cons s : exists e es, split_slash s = e :: es.
Proof. destruct s as [|c s]; cbn; [eauto|]. case_bool_decide; [eauto|]. destruct (split_slash s); eauto. Qed.

Lemma split_slash_slashless s : Forall slashless (split_slash s).
Proof.
  induction s as [|c s IH]; cbn; [by repeat constructor|].
  case_bool_decide; [by constructor|].
  destruct (split_slash s) as [|e es]; [by repeat constructor|].
  inversion IH; subst. by repeat constructor.
Qed.

Lemma split_slash_elem e : slashless e -> split_slash e = [e].
Proof.
  induction e as [|c e IH]; [done|]. intros [Hc He]. cbn.
  rewrite bool_decide_eq_false_2 by done. by rewrite IH.
Qed.

Lemma split_slash_app a b : split_slash (a +:+ "/" +:+ b) = split_slash a ++ split_slash b.
Proof.
  induction a as [|c a IH]; [done|].
  change (String c a +:+ "/" +:+ b) with (String c (a +:+ "/" +:+ b)). cbn [split_slash].
  rewrite IH. case_bool_decide; [done|].
  destruct (split_slash_cons a) as (e & es & ->). done.
Qed.

Lemma split_join l : l <> [] -> Forall slashless l -> split_slash (join_slash l) = l.
Proof.
  induction l as [|e l IH]; [done|]. intros _ Hl. inversion Hl as [|?? He Hr]; subst.
  destruct l as [|e' l]; [by apply split_slash_elem|].
  change (join_slash (e :: e' :: l)) with (e +:+ "/" +:+ join_slash (e' :: l)).
  rewrite split_slash_app, split_slash_elem by done. rewrite IH by done. done.
Qed.

(** An element that names something in its directory. *)
Definition proper_element (e : string) : Prop :=
  slashless e /\ e <> "" /\ e <> "." /\ e <> "..".

#[global] Instance slashless_dec e : Decision (slashless e).
Proof. induction e as [|c e IH]; cbn; apply _. Defined.
#[global] Instance proper_element_dec e : Decision (proper_element e).
Proof. unfold proper_element. apply _. Defined.

Lemma clean_proper root stack e : proper_element e -> clean_element root stack e = e :: stack.
Proof.
  intros (_ & H1 & H2 & H3). unfold clean_element.
  rewrite bool_decide_eq_false_2 by naive_solver. by rewrite bool_decide_eq_false_2.
Qed.

(** What [Clean] leaves: proper elements after a run of [..], which only an
    unrooted path has. *)
Definition cleaned (root : bool) (stack : list string) : Prop :=
  exists up down, stack = down ++ replicate up ".." /\ Forall proper_element down /\
    (root = true -> up = 0%nat).

Lemma clean_element_cleaned root stack e :
  slashless e -> cleaned root stack -> cleaned root (clean_element root stack e).
Proof.
  intros He (up & down & -> & Hd & Hu). unfold clean_element.
  case_bool_decide as H1; [by exists up, down|].
  case_bool_decide as H2.
  - subst. destruct down as [|d down]; cbn [app].
    + destruct up as [|up]; cbn [replicate].
      * destruct root; [by exists 0%nat, []|]. exists 1%nat, []. by repeat split; [constructor|].
      * rewrite bool_decide_eq_true_2 by done. exists (S (S up)), []. repeat split; [constructor|].
        intros E. specialize (Hu E). done.
    + inversion Hd as [|?? (_ & _ & _ & Hn) Hd']; subst. rewrite bool_decide_eq_false_2 by done.
      by exists up, down.
  - exists up, (e :: down). repeat split; [|done]. constructor; [|done]. unfold proper_element. naive_solver.
Qed.

Lemma elements_cleaned s : cleaned (rooted s) (rev (elements s)).
Proof.
  unfold elements. rewrite rev_involutive.
  assert (forall l stack, Forall slashless l -> cleaned (rooted s) stack ->
    cleaned (rooted s) (foldl (clean_element (rooted s)) stack l)) as Hfold.
  { induction l as [|e l IH]; [done|]. intros stack Hl Hs. inversion Hl; subst. cbn.
    apply IH; [done|]. by apply clean_element_cleaned. }
  apply Hfold; [apply split_slash_slashless|]. by exists 0%nat, [].
Qed.

(** Cleaning the elements of a clean path changes nothing. *)
Lemma clean_stack root stack :
  cleaned root stack -> foldl (clean_element root) [] (rev stack) = stack.
Proof.
  intros (up & down & -> & Hd & Hu). rewrite rev_app_distr, foldl_app.
  assert (foldl (clean_element root) [] (rev (replicate up "..")) = replicate up "..") as ->.
  { destruct root; [by rewrite Hu|].
    rewrite rev_alt. change (rev_append (replicate up "..") []) with (reverse (replicate up "..")).
    rewrite reverse_replicate.
    clear. assert (forall k, foldl (clean_element false) (replicate k "..") (replicate up "..")
      = replicate (k + up) "..") as H; [|apply (H 0%nat)].
    induction up as [|up IH]; intros k; cbn; [by rewrite Nat.add_0_r|].
    replace (clean_element false (replicate k "..") "..") with (replicate (S k) "..") by (by destruct k).
    rewrite IH. f_equal. lia. }
  assert (forall l stack, Forall proper_element l ->
    foldl (clean_element root) stack l = rev l ++ stack) as Hpush.
  { induction l as [|e l IH]; [done|]. intros stack Hl. inversion Hl; subst. cbn.
    rewrite clean_proper, IH by done. by rewrite <- app_assoc. }
  rewrite Hpush, rev_involutive; [done|]. by apply Forall_rev.
Qed.

Lemma rooted_app a b : a <> "" -> rooted (a +:+ b) = rooted a.
Proof. by destruct a. Qed.

Lemma rooted_element e : slashless e -> rooted e = false.
Proof. destruct e as [|c e]; [done|]. intros [Hc _]. by apply bool_decide_eq_false_2. Qed.

Lemma elements_slashless s : Forall slashless (elements s).
Proof.
  destruct (elements_cleaned s) as (up & down & E & Hd & _).
  apply (f_equal (@rev string)) in E. rewrite rev_involutive in E. rewrite E. apply Forall_rev.
  apply Forall_app. split; [|by apply Forall_replicate].
  eapply Forall_impl; [exact Hd|]. by intros x [].
Qed.

Lemma join_slash_cons e l : l <> [] -> join_slash (e :: l) = e +:+ "/" +:+ join_slash l.
Proof. by destruct l. Qed.

Lemma print_path_resolve root l : Forall slashless l -> cleaned root (rev l) ->
  rooted (print_path root l) = root /\ elements (print_path root l) = l.
Proof.
  intros Hl Hc.
  assert (rooted (print_path root l) = root) as Hr.
  { destruct root; [done|]. destruct l as [|e l]; [done|]. cbn [print_path].
    destruct Hc as (up & down & E & Hd & _). inversion Hl as [|?? He ?]; subst.
    assert (e <> "") as Hne.
    { assert (e ∈ rev (e :: l)) as Hin by (apply list_elem_of_In, in_rev; rewrite rev_involutive; by left).
      rewrite E in Hin. apply elem_of_app in Hin as [Hin|Hin].
      - rewrite Forall_forall in Hd. by apply Hd in Hin as (_ & ? & _).
      - by apply elem_of_replicate in Hin as [-> _]. }
    destruct l as [|e' l]; [by apply rooted_element|]. rewrite join_slash_cons by done.
    rewrite rooted_app by done. by apply rooted_element. }
  split; [done|]. unfold elements. rewrite Hr.
  assert (foldl (clean_element root) [] (split_slash (print_path root l))
          = foldl (clean_element root) [] l) as ->.
  { destruct l as [|e l]; [by destruct root|].
    destruct root; cbn [print_path]; [|by rewrite split_join].
    change ("/" +:+ join_slash (e :: l)) with (String "/" (join_slash (e :: l))).
    cbn [split_slash]. rewrite bool_decide_eq_true_2 by done. rewrite split_join by done. done. }
  rewrite <- (rev_involutive l) at 1. rewrite clean_stack by done. apply rev_involutive.
Qed.

(** [Clean] keeps what a path means. *)
Lemma Clean_resolve s : rooted (Clean s) = rooted s /\ elements (Clean s) = elements s.
Proof. apply print_path_resolve; [apply elements_slashless|apply elements_cleaned]. Qed.

Lemma elements_snoc dir e : dir <> "" -> proper_element e ->
  elements (dir +:+ "/" +:+ e) = elements dir ++ [e].
Proof.
  intros Hd He. unfold elements. rewrite rooted_app, split_slash_app, foldl_app by done.
  rewrite (split_slash_elem e) by apply He. cbn [foldl]. rewrite clean_proper by done. done.
Qed.

Lemma Join_proper dir e : dir <> "" -> proper_element e ->
  Join dir e = print_path (rooted dir) (elements dir ++ [e]).
Proof.
  intros Hd He. unfold Join. rewrite !bool_decide_eq_false_2 by (try done; by apply He).
  unfold Clean. by rewrite rooted_app, elements_snoc.
Qed.

Lemma string_app_assoc (a b c : string) : (a +:+ b) +:+ c = a +:+ b +:+ c.
Proof. induction a as [|x a IH]; [done|]. exact (f_equal (String x) IH). Qed.

Lemma join_slash_suffix l e sfx : join_slash (l ++ [e]) +:+ sfx = join_slash (l ++ [e +:+ sfx]).
Proof.
  induction l as [|x l IH]; [done|]. cbn [app].
  rewrite !join_slash_cons by (by destruct l). rewrite <- IH. by rewrite !string_app_assoc.
Qed.

Lemma print_path_suffix root l e sfx :
  print_path root (l ++ [e]) +:+ sfx = print_path root (l ++ [e +:+ sfx]).
Proof.
  destruct root; [|destruct l]; cbn [print_path app]; [| done |].
  - rewrite string_app_assoc. by rewrite join_slash_suffix.
  - apply (join_slash_suffix (s :: l)).
Qed.

Lemma slashless_app a b : slashless a -> slashless b -> slashless (a +:+ b).
Proof. induction a as [|c a IH]; [done|]. intros [] ?. split; [done|by apply IH]. Qed.

Lemma cleaned_snoc dir e : proper_element e -> cleaned (rooted dir) (rev (elements dir ++ [e])).
Proof.
  intros He. rewrite rev_app_distr. destruct (elements_cleaned dir) as (up & down & -> & Hd & Hu).
  exists up, (e :: down). repeat split; [|done]. by constructor.
Qed.

(** [Base] is [.], [/] or the last element. *)
Lemma Base_cases s : Base s = "/" \/ (slashless (Base s) /\ Base s <> "").
Proof.
  unfold Base. case_bool_decide as H; [by right|].
  destruct (rev (filter (fun e => e <> "") (split_slash s))) as [|e l] eqn:E; [by left|]. right.
  assert (e ∈ filter (fun e => e <> "") (split_slash s)) as Hin.
  { apply list_elem_of_In, in_rev. rewrite E. by left. }
  apply list_elem_of_filter in Hin as [He Hin]. split; [|done].
  pose proof (split_slash_slashless s) as Hs. rewrite Forall_forall in Hs. by apply Hs.
Qed.

(** ** Confinement *)

Lemma save_dir_nonempty recvDir : save_dir recvDir <> "".
Proof. unfold save_dir. by case_bool_decide. Qed.

Lemma part_element e : proper_element e -> proper_element (e +:+ ".relayfile.part").
Proof.
  intros (He & _). repeat split; [by apply slashless_app| | |]; destruct e as [|? [|? [|? e]]]; discriminate.
Qed.

Lemma print_snoc_resolve dir e : proper_element e ->
  let p := print_path (rooted dir) (elements dir ++ [e]) in
  rooted p = rooted dir /\ elements p = elements dir ++ [e].
Proof.
  intros He. apply print_path_resolve; [|by apply cleaned_snoc].
  apply Forall_app. split; [apply elements_slashless|]. constructor; [apply He|done].
Qed.

(** Whatever name the sender announces, if its last element is not [.] or
    [..] the received file and its partial file are entries of the receive
    directory itself: no name reaches another directory. *)
Theorem received_file_confined recvDir name (dir := save_dir recvDir) :
  proper_element (Base name) ->
  let final := save_path recvDir name in
  rooted final = rooted dir /\ elements final = elements dir ++ [Base name] /\
  rooted (part_path final) = rooted dir /\
  elements (part_path final) = elements dir ++ [Base name +:+ ".relayfile.part"].
Proof.
  intros He final. assert (final = print_path (rooted dir) (elements dir ++ [Base name])) as ->
    by (apply Join_proper; [apply save_dir_nonempty|done]).
  unfold part_path. rewrite print_path_suffix.
  destruct (print_snoc_resolve dir _ He) as [-> ->].
  by destruct (print_snoc_resolve dir _ (part_element _ He)) as [-> ->].
Qed.

Lemma received_file_confined_witness :
  elements (part_path (save_path "/home/u/recv" "../../etc/passwd"))
  = ["home"; "u"; "recv"; "passwd.relayfile.part"].
Proof. apply (received_file_confined "/home/u/recv" "../../etc/passwd"). vm_compute. naive_solver. Defined.

(** The name [..] escapes: the partial file lands beside the parent of the
    receive directory, two levels above where received files belong. *)
Theorem dotdot_name_escapes recvDir name l d e (dir := save_dir recvDir) :
  Base name = ".." -> elements dir = l ++ [d; e] -> proper_element d -> proper_element e ->
  elements (part_path (save_path recvDir name)) = l ++ [d +:+ ".relayfile.part"].
Proof.
  intros Hb Hdir Hd He. pose proof (save_dir_nonempty recvDir) as Hne. fold dir in Hne.
  assert (rev (elements dir) = e :: d :: rev l) as Hrev by (rewrite Hdir, rev_app_distr; done).
  assert (cleaned (rooted dir) (rev (l ++ [d +:+ ".relayfile.part"]))) as Hc.
  { rewrite rev_app_distr. destruct (elements_cleaned dir) as (up & down & E & Hf & Hu).
    rewrite Hrev in E. destruct down as [|x [|y down]]; cbn in E.
    - destruct up; [done|]. cbn in E. injection E as -> _. by destruct He as (_ & _ & _ & []).
    - injection E as -> E. destruct up; [done|]. injection E as -> _. by destruct Hd as (_ & _ & _ & []).
    - injection E as <- <- E. inversion Hf as [|?? _ Hf']; subst. inversion Hf' as [|?? _ Hf'']; subst.
      exists up, ((d +:+ ".relayfile.part") :: down). rewrite E.
      repeat split; [|done]. constructor; [by apply part_element|done]. }
  assert (save_path recvDir name = print_path (rooted dir) (l ++ [d])) as ->.
  { unfold save_path, Join. fold dir. rewrite Hb, !bool_decide_eq_false_2 by done.
    unfold Clean. rewrite rooted_app by done. f_equal. unfold elements in *.
    rewrite rooted_app, split_slash_app, foldl_app by done. rewrite rev_involutive in Hrev.
    rewrite Hrev. change (split_slash "..") with [".."].
    change (foldl _ (e :: d :: rev l) [".."]) with
      (if bool_decide (e = "..") then ".." :: e :: d :: rev l else d :: rev l).
    rewrite bool_decide_eq_false_2 by apply He. cbn [rev]. by rewrite rev_involutive. }
  unfold part_path. rewrite print_path_suffix. apply print_path_resolve; [|done].
  pose proof (elements_slashless dir) as Hs. rewrite Hdir in Hs.
  apply Forall_app in Hs as [Hs _]. apply Forall_app. split; [done|].
  constructor; [apply (part_element d Hd)|done].
Qed.

Lemma dotdot_name_escapes_witness :
  elements (part_path (save_path "/home/u/recv" "x/..")) = ["home"; "u.relayfile.part"].
Proof.
  apply (dotdot_name_escapes "/home/u/recv" "x/.." ["home"] "u" "recv");
    [reflexivity|reflexivity|vm_compute; naive_solver..].
Defined.
