(* ===== verification/FileRecv.v ===== *)
(** The receiving side of the file transfer protocol (src/p2put/relayfile.go):
    [HandleFileStream] and the loop it runs, with the file system it writes to.

    The file system maps a path to the content of a regular file; an open file
    is its path and its offset.  Whether an operating-system call fails is
    decided by a list of faults, one drawn per call; a fault that strikes a
    write says how many bytes got written first.  The progress callbacks, which
    cannot change a transfer, are left out.  JSON encoding and SHA-256
    are the classes [FileJson] and [FileHash]; the session a stream handler
    shares with [CancelFileSession] is a field of the world. *)

From stdpp Require Import gmap strings.
From S2P Require Import Prelude FileFrame FilePath.

(** ** Messages *)

Record InitMsg := mkInit {
  in_Name : string;
  in_Size : Z;
  in_ChunkSize : Z;
  in_TotalChunks : Z;
  in_Checksum : string;
  in_Offset : Z;
  in_Compression : string;
}.

Record FinMsg := mkFin { fin_TotalChunks : Z; fin_Checksum : string }.

(** Why the receiver gives up; the texts are those of the libraries' errors. *)
Inductive reason :=
  | ReasonMkdir | ReasonCreate | ReasonUnpack | ReasonWrite | ReasonChecksum | ReasonVerify
  | ReasonRename.

(** [json.Marshal] and [json.Unmarshal] at the types the protocol uses; the
    boolean of a decoder is whether it returned no error, and its value is what
    it left in the variable either way. *)
Class FileJson := {
  init_marshal : InitMsg -> list byte;
  init_unmarshal : list byte -> InitMsg * bool;
  accept_marshal : Z -> list byte;
  accept_unmarshal : list byte -> Z * bool;
  ack_marshal : Z -> list byte;
  ack_unmarshal : list byte -> Z * bool;
  fin_marshal : FinMsg -> list byte;
  fin_unmarshal : list byte -> FinMsg * bool;
  done_marshal : bool -> list byte;
  done_unmarshal : list byte -> bool * bool;
  reason_marshal : reason -> list byte;
  bytes_marshal : list byte -> list byte;
  (** Strings JSON carries unchanged. *)
  json_plain : string -> Prop;
}.

Class FileJsonLaws (J : FileJson) := {
  init_round : forall m, json_plain (in_Name m) -> json_plain (in_Checksum m) ->
    json_plain (in_Compression m) -> is_i64 (in_Size m) -> is_i64 (in_ChunkSize m) ->
    is_i64 (in_TotalChunks m) -> is_i64 (in_Offset m) ->
    init_unmarshal (init_marshal m) = (m, true) /\ len (init_marshal m) < 2 ^ 32;
  accept_round : forall n, is_i64 n ->
    accept_unmarshal (accept_marshal n) = (n, true) /\ len (accept_marshal n) < 2 ^ 32;
  ack_round : forall n, is_i64 n ->
    ack_unmarshal (ack_marshal n) = (n, true) /\ len (ack_marshal n) < 2 ^ 32;
  fin_round : forall m, json_plain (fin_Checksum m) -> is_i64 (fin_TotalChunks m) ->
    fin_unmarshal (fin_marshal m) = (m, true) /\ len (fin_marshal m) < 2 ^ 32;
  done_round : forall b, done_unmarshal (done_marshal b) = (b, true) /\ len (done_marshal b) < 2 ^ 32;
}.

(** [hex.EncodeToString(sha256(...))]. *)
Class FileHash := { sha256_hex : list byte -> string }.

(** ** The world of a stream handler *)

Inductive session_state := SesInit | SesTransfer | SesDone | SesError | SesCancelled.

#[global] Instance session_state_eq_dec : EqDecision session_state.
Proof. solve_decision. Defined.

Record fileSession := mkSession {
  fs_filename : string;
  fs_savePath : string;
  fs_size : Z;
  fs_chunkSize : Z;
  fs_totalChunks : Z;
  fs_checksum : string;
  fs_compression : compression;
  fs_state : session_state;
  fs_tmpFile : option Z;
  fs_bitmap : list Z;
  fs_tmpPath : string;
  fs_doneBytes : Z;
}.

#[global] Instance fileSession_eta : Eta fileSession := fun s => mkSession
  (fs_filename s) (fs_savePath s) (fs_size s) (fs_chunkSize s) (fs_totalChunks s) (fs_checksum s)
  (fs_compression s) (fs_state s) (fs_tmpFile s) (fs_bitmap s) (fs_tmpPath s) (fs_doneBytes s).

Record world := mkWorld {
  w_fs : gmap string (list byte);
  w_faults : list (option Z);
  w_stream : stream;
  w_ses : option fileSession;
  w_listed : bool;
}.

#[global] Instance world_eta : Eta world := fun w =>
  mkWorld (w_fs w) (w_faults w) (w_stream w) (w_ses w) (w_listed w).

Definition session : M world fileSession := deref w_ses.
Definition set_ses (f : fileSession -> fileSession) : M world () :=
  s <- session ;; modify (fun w => w <| w_ses := Some (f s) |>).

(** How the next operating-system call fails, if it does. *)
Definition next_fault : M world (option Z) :=
  l <- gets w_faults ;;
  match l with
  | [] => ret None
  | b :: l => modify (fun w => w <| w_faults := l |>) ;; ret b
  end.

Definition fault : M world bool :=
  b <- next_fault ;; ret (match b with Some _ => true | None => false end).

Definition set_file (path : string) (content : list byte) : M world () :=
  modify (fun w => w <| w_fs := <[path := content]> (w_fs w) |>).

Definition os_Remove (path : string) : M world () :=
  b <- fault ;; when (negb b) (modify (fun w => w <| w_fs := delete path (w_fs w) |>)).

(** [None] when the file cannot be opened, else its content. *)
Definition os_Open (path : string) : M world (option (list byte)) :=
  b <- fault ;;
  if b then ret None else gets (fun w => w_fs w !! path).

(** Whether the call succeeded. *)
Definition os_Create (path : string) : M world bool :=
  b <- fault ;; if b then ret false else set_file path [] ;; ret true.

Definition os_Rename (old new : string) : M world bool :=
  b <- fault ;;
  c <- gets (fun w => w_fs w !! old) ;;
  match c with
  | Some content =>
      if b then ret false
      else modify (fun w => w <| w_fs := <[new := content]> (delete old (w_fs w)) |>) ;; ret true
  | None => ret false
  end.

(** Writing at an offset, with zeros in a gap. *)
Definition write_at (pos : Z) (data content : list byte) : list byte :=
  takeZ pos content ++ replicate (Z.to_nat (pos - len content)) Byte.x00 ++ data
  ++ dropZ (pos + len data) content.

(** [ses.tmpFile.Write(data)], and whether it succeeded; a closed file is nil. *)
Definition tmpFile_Write (data : list byte) : M world bool :=
  ses <- session ;;
  match fs_tmpFile ses with
  | None => ret false
  | Some pos =>
      b <- next_fault ;;
      content <- gets (fun w => default [] (w_fs w !! fs_tmpPath ses)) ;;
      match b with
      | Some n =>
          let part := takeZ n data in
          set_file (fs_tmpPath ses) (write_at pos part content) ;;
          set_ses (fun s => s <| fs_tmpFile := Some (pos + len part) |>) ;; ret false
      | None =>
          set_file (fs_tmpPath ses) (write_at pos data content) ;;
          set_ses (fun s => s <| fs_tmpFile := Some (pos + len data) |>) ;; ret true
      end
  end.

Definition lift_outcome {A} (o : outcome A) : M world A :=
  fun w => match o with Ok a => Ok (a, w) | Panic => Panic end.

(** ** Frames on the handler's stream *)

Definition io_frameWrite (typ : Z) (payload : list byte) : M world (option frame_error) :=
  fun w => let '(e, s) := frameWrite typ payload (w_stream w) in Ok (e, w <| w_stream := s |>).
Definition io_frameRead : M world (frame_error + Z * list byte) :=
  fun w => let '(r, s) := frameRead (w_stream w) in Ok (r, w <| w_stream := s |>).

Inductive json_error :=
  | JFrame (e : frame_error) | JRemoteError | JRemoteCancelled | JUnexpected (typ : Z) | JUnmarshal.

Definition readJSONFrame {A} (expectedType : Z) (unmarshal : list byte -> A * bool) (s : stream)
    : (json_error + A) * stream :=
  let '(r, s) := frameRead s in
  (match r with
   | inl e => inl (JFrame e)
   | inr (typ, payload) =>
       if typ =? frameTypeError then inl JRemoteError
       else if typ =? frameTypeCancel then inl JRemoteCancelled
       else if negb (typ =? expectedType) then inl (JUnexpected typ)
       else let '(v, ok) := unmarshal payload in if ok then inr v else inl JUnmarshal
   end, s).

Definition io_readJSONFrame {A} (expectedType : Z) (unmarshal : list byte -> A * bool)
    : M world (json_error + A) :=
  fun w => let '(r, s) := readJSONFrame expectedType unmarshal (w_stream w) in
           Ok (r, w <| w_stream := s |>).

Section receiver.
Context {Zs : Zstd} {J : FileJson} {Hs : FileHash}.

(** [writeJSONFrame(s, frameTypeError, mustJSON(reason))]: the value handed to
    the encoder is already encoded, so the payload is the encoding of bytes. *)
Definition write_error (r : reason) : M world () :=
  io_frameWrite frameTypeError (bytes_marshal (reason_marshal r)) ;; ret ().

Definition cleanupSession : M world () :=
  ses <- session ;;
  if bool_decide (fs_state ses = SesDone \/ fs_state ses = SesError \/ fs_state ses = SesCancelled)
  then ret ()
  else
    set_ses (fun s => s <| fs_state := SesError |> <| fs_tmpFile := None |>) ;;
    when (negb (bool_decide (fs_tmpPath ses = ""%string))) (os_Remove (fs_tmpPath ses)) ;;
    modify (fun w => w <| w_listed := false |>).

(** [true] is a nil error. *)
Definition verifyFileHash (path checksum : string) : M world bool :=
  if negb (String.prefix "sha256:" checksum) then ret false
  else
    let expected := String.substring 7 (String.length checksum - 7) checksum in
    o <- os_Open path ;;
    match o with
    | None => ret false
    | Some content =>
        b <- fault ;;
        if b then ret false else ret (bool_decide (sha256_hex content = expected))
    end.

(** One turn of [receiveLoop]: the new [lastAck], or [None] when it returns. *)
Definition receive_data (payload : list byte) (lastAck : Z) : M world (option Z) :=
  ses <- session ;;
  match unpackDataFrame payload (fs_compression ses) with
  | inl _ => write_error ReasonUnpack ;; cleanupSession ;; ret None
  | inr (dataSeq, chunkData) =>
      has <- lift_outcome (bitmapHas (fs_bitmap ses) dataSeq) ;;
      ok <- (if has then ret true
             else
               written <- tmpFile_Write chunkData ;;
               if negb written then write_error ReasonWrite ;; cleanupSession ;; ret false
               else
                 bitmap <- lift_outcome (bitmapSet (fs_bitmap ses) dataSeq) ;;
                 set_ses (fun s => s <| fs_bitmap := bitmap |>
                                     <| fs_doneBytes := int64 (fs_doneBytes s + len chunkData) |>) ;;
                 ret true) ;;
      if negb ok then ret None
      else
        ses <- session ;;
        newSeq <- lift_outcome (bitmapMaxContinuous (fs_bitmap ses) (fs_totalChunks ses)) ;;
        if ((ackBatch <=? newSeq - lastAck) || (fs_totalChunks ses <=? newSeq)) && (lastAck <? newSeq)
        then
          e <- io_frameWrite frameTypeAck (ack_marshal (newSeq - 1)) ;;
          match e with
          | Some _ => cleanupSession ;; ret None
          | None => ret (Some newSeq)
          end
        else ret (Some lastAck)
  end.

Definition receive_fin (payload : list byte) : M world () :=
  ses <- session ;;
  let fin := (fin_unmarshal payload).1 in
  if negb (bool_decide (fin_Checksum fin = fs_checksum ses))
  then write_error ReasonChecksum ;; cleanupSession
  else
    set_ses (fun s => s <| fs_tmpFile := None |>) ;;
    verified <- verifyFileHash (fs_tmpPath ses) (fs_checksum ses) ;;
    if negb verified then write_error ReasonVerify ;; cleanupSession
    else
      renamed <- os_Rename (fs_tmpPath ses) (fs_savePath ses) ;;
      if negb renamed then write_error ReasonRename ;; cleanupSession
      else
        set_ses (fun s => s <| fs_doneBytes := fs_size s |> <| fs_state := SesDone |>) ;;
        e <- io_frameWrite frameTypeDone (done_marshal true) ;;
        match e with
        | Some _ => cleanupSession
        | None => modify (fun w => w <| w_listed := false |>)
        end.

Definition receive_turn (lastAck : Z) : M world (option Z) :=
  r <- io_frameRead ;;
  match r with
  | inl _ => cleanupSession ;; ret None
  | inr (typ, payload) =>
      if (typ =? frameTypeCancel) || (typ =? frameTypeError) then cleanupSession ;; ret None
      else if typ =? frameTypeData then receive_data payload lastAck
      else if typ =? frameTypeFin then receive_fin payload ;; ret None
      else ret (Some lastAck)
  end.

Fixpoint receive_loop (fuel : nat) (lastAck : Z) : M world () :=
  match fuel with
  | O => panic
  | S fuel =>
      r <- receive_turn lastAck ;;
      match r with
      | Some lastAck => receive_loop fuel lastAck
      | None => ret ()
      end
  end.

(** Every turn but the last consumes a frame header. *)
Definition receiveLoop (startSeq : Z) : M world () :=
  s <- gets w_stream ;; receive_loop (S (length (st_in s))) startSeq.

(** ** Opening a session *)

(** The most words [make([]uint64, n)] allocates before it panics. *)
Definition max_words : Z := 2 ^ 45.

Definition make_bitmap (totalChunks : Z) : outcome (list Z) :=
  if 0 <? totalChunks then
    let n := Z.quot (int64 (totalChunks + 63)) 64 in
    if (n <? 0) || (max_words <? n) then Panic else Ok (replicate (Z.to_nat n) 0)
  else Ok [].

(** The chunks a partial file counts as written; panics on a zero chunk size. *)
Definition written_chunks (doneBytes chunkSize : Z) : outcome Z :=
  if chunkSize =? 0 then Panic
  else
    let n := Z.quot doneBytes chunkSize in
    Ok (if Z.rem doneBytes chunkSize =? 0 then n else n + 1).

Fixpoint mark_written (more : nat) (i : Z) (bitmap : list Z) : outcome (list Z) :=
  match more with
  | O => Ok bitmap
  | S more =>
      match bitmapSet bitmap i with
      | Ok bitmap => mark_written more (i + 1) bitmap
      | Panic => Panic
      end
  end.

(** The partial file of an earlier attempt: its size, the chunks it counts for
    and the bitmap that records them. *)
Definition resume_partial (init : InitMsg) (content : list byte) (bitmap : list Z)
    : outcome (Z * Z * list Z) :=
  match written_chunks (len content) (in_ChunkSize init) with
  | Panic => Panic
  | Ok n =>
      match mark_written (Z.to_nat (Z.min n (in_TotalChunks init))) 0 bitmap with
      | Panic => Panic
      | Ok bitmap => Ok (len content, n, bitmap)
      end
  end.

(** The offset and bitmap the transfer starts from; [None] when no file could
    be opened or created. *)
Definition open_partial (init : InitMsg) (tmpPath : string) : M world (option (Z * Z * list Z)) :=
  bitmap <- lift_outcome (make_bitmap (in_TotalChunks init)) ;;
  existing <- (if 0 <? in_Offset init then os_Open tmpPath else ret None) ;;
  match existing with
  | Some content =>
      r <- lift_outcome (resume_partial init content bitmap) ;;
      ret (Some r)
  | None =>
      ok <- os_Create tmpPath ;;
      ret (if ok then Some (0, 0, bitmap) else None)
  end.

(** [tmpFile.Seek], whose error is dropped, from offset zero. *)
Definition seek_start (startSeq chunkSize : Z) : Z :=
  let pos := int64 (startSeq * chunkSize) in if pos <? 0 then 0 else pos.

Definition new_session (init : InitMsg) (name savePath tmpPath : string)
    (startSeq doneBytes : Z) (bitmap : list Z) : fileSession := {|
  fs_filename := name;
  fs_savePath := savePath;
  fs_size := in_Size init;
  fs_chunkSize := in_ChunkSize init;
  fs_totalChunks := in_TotalChunks init;
  fs_checksum := in_Checksum init;
  fs_compression := if bool_decide (in_Compression init = "zstd"%string) then CompZstd else CompNone;
  fs_state := SesTransfer;
  fs_tmpFile := Some (seek_start startSeq (in_ChunkSize init));
  fs_bitmap := bitmap;
  fs_tmpPath := tmpPath;
  fs_doneBytes := doneBytes;
|}.

(** [HandleFileStream] up to its loop, receiving into [recvDir]; the starting
    chunk, or [None] when it returns early. *)
Definition accept_stream (recvDir : string) : M world (option Z) :=
  r <- io_readJSONFrame frameTypeInit init_unmarshal ;;
  match r with
  | inl _ => ret None
  | inr init =>
      let finalPath := save_path recvDir (in_Name init) in
      let tmpPath := part_path finalPath in
      b <- fault ;;
      if (b : bool) then io_frameWrite frameTypeReject (reason_marshal ReasonMkdir) ;; ret None
      else
        p <- open_partial init tmpPath ;;
        match p with
        | None => io_frameWrite frameTypeReject (reason_marshal ReasonCreate) ;; ret None
        | Some (doneBytes, written, bitmap) =>
            resumeOffset <- lift_outcome (bitmapMaxContinuous bitmap (in_TotalChunks init)) ;;
            let startSeq := if written <? resumeOffset then resumeOffset else written in
            e <- io_frameWrite frameTypeAccept (accept_marshal startSeq) ;;
            match e with
            | Some _ => os_Remove tmpPath ;; ret None
            | None =>
                modify (fun w => w <| w_ses := Some (new_session init (Base (in_Name init)) finalPath tmpPath
                                        startSeq doneBytes bitmap) |> <| w_listed := true |>) ;;
                ret (Some startSeq)
            end
        end
  end.

Definition HandleFileStream (recvDir : string) : M world () :=
  r <- accept_stream recvDir ;;
  match r with
  | Some startSeq => receiveLoop startSeq
  | None => ret ()
  end.

(** [CancelFileSession] on a session that exists, with the watcher goroutine it
    wakes. *)
Definition CancelFileSession : M world () := set_ses (fun s => s <| fs_state := SesCancelled |>).
End receiver.
