(* ===== verification/FileCodec.v ===== *)
(** A concrete instance of what the file transfer protocol takes from
    libraries: a binary codec in place of JSON, a compressor that stores its
    block and a checksum that names its content.  The examples and witnesses of
    the protocol run on it, so its hypotheses are satisfiable. *)

From Stdlib Require Import Ascii.
From stdpp Require Import gmap strings.
From S2P Require Import Prelude FileFrame FileRecv.

(** ** Strings and integers *)

Definition str_bytes (s : string) : list byte := byte_of_ascii <$> String.list_ascii_of_string s.
Definition bytes_str (l : list byte) : string := String.string_of_list_ascii (ascii_of_byte <$> l).

Definition enc_int (n : Z) : list byte := be_put 8 (wrap64 n).
Definition dec_int (l : list byte) : Z * list byte := (int64 (be_get (takeZ 8 l)), dropZ 8 l).

Definition enc_str (s : string) : list byte := enc_int (len (str_bytes s)) ++ str_bytes s.
Definition dec_str (l : list byte) : string * list byte :=
  let '(n, l) := dec_int l in (bytes_str (takeZ n l), dropZ n l).

Definition short_string (s : string) : Prop := len (str_bytes s) < 2 ^ 16.

Lemma bytes_str_bytes s : bytes_str (str_bytes s) = s.
Proof.
  unfold bytes_str, str_bytes. rewrite <- list_fmap_compose.
  rewrite <- (String.string_of_list_ascii_of_string s) at 2. f_equal.
  rewrite <- list_fmap_id. apply list_fmap_ext. intros i a _. apply ascii_of_byte_of_ascii.
Qed.

Lemma dec_enc_int n rest : is_i64 n -> dec_int (enc_int n ++ rest) = (n, rest).
Proof.
  intros H. unfold dec_int, enc_int, takeZ, dropZ.
  rewrite take_app_length', drop_app_length' by (by rewrite length_be_put).
  rewrite be_get_put64. f_equal. unfold int64, is_i64 in *.
  replace (wrap64 (wrap64 (wrap64 n))) with (wrap64 n) by (unfold wrap64; by rewrite !Zmod_mod).
  case_match; mlia.
Qed.

Lemma dec_enc_str s rest : short_string s -> dec_str (enc_str s ++ rest) = (s, rest).
Proof.
  intros H. unfold short_string in H. unfold dec_str, enc_str. rewrite <- app_assoc.
  rewrite dec_enc_int by (unfold is_i64; lia). unfold takeZ, dropZ. rewrite Nat2Z.id.
  by rewrite take_app_length, drop_app_length, bytes_str_bytes.
Qed.

Lemma length_enc_int n : len (enc_int n) = 8.
Proof. unfold enc_int. by rewrite length_be_put. Qed.

Lemma length_enc_str s : short_string s -> len (enc_str s) < 2 ^ 17.
Proof. intros H. unfold enc_str, short_string in *. rewrite length_app. pose proof (length_enc_int (len (str_bytes s))). lia. Qed.

(** ** The codec *)

Definition enc_init (m : InitMsg) : list byte :=
  enc_str (in_Name m) ++ enc_int (in_Size m) ++ enc_int (in_ChunkSize m) ++
  enc_int (in_TotalChunks m) ++ enc_str (in_Checksum m) ++ enc_int (in_Offset m) ++
  enc_str (in_Compression m).

Definition dec_init (l : list byte) : InitMsg * bool :=
  let '(name, l) := dec_str l in
  let '(size, l) := dec_int l in
  let '(chunk, l) := dec_int l in
  let '(total, l) := dec_int l in
  let '(checksum, l) := dec_str l in
  let '(offset, l) := dec_int l in
  let '(comp, l) := dec_str l in
  (mkInit name size chunk total checksum offset comp, bool_decide (l = [])).

Definition dec_one (l : list byte) : Z * bool :=
  let '(n, l) := dec_int l in (n, bool_decide (l = [])).

Definition plain_codec : FileJson := {|
  init_marshal := enc_init;
  init_unmarshal := dec_init;
  accept_marshal := enc_int;
  accept_unmarshal := dec_one;
  ack_marshal := enc_int;
  ack_unmarshal := dec_one;
  fin_marshal m := enc_int (fin_TotalChunks m) ++ enc_str (fin_Checksum m);
  fin_unmarshal l :=
    let '(n, l) := dec_int l in
    let '(c, l) := dec_str l in (mkFin n c, bool_decide (l = []));
  done_marshal b := enc_int (if b then 1 else 0);
  done_unmarshal l := let '(n, ok) := dec_one l in (n =? 1, ok);
  reason_marshal _ := [];
  bytes_marshal l := l;
  json_plain := short_string;
|}.

Lemma dec_one_enc n : is_i64 n -> dec_one (enc_int n) = (n, true).
Proof. intros H. unfold dec_one. rewrite <- (app_nil_r (enc_int n)), dec_enc_int by done. done. Qed.

Lemma plain_codec_laws : FileJsonLaws plain_codec.
Proof.
  split.
  - intros m Hn Hc Hp H1 H2 H3 H4. cbn [init_marshal init_unmarshal plain_codec json_plain] in *. split.
    + unfold dec_init, enc_init. rewrite dec_enc_str by done. rewrite !dec_enc_int by done.
      rewrite dec_enc_str by done. rewrite dec_enc_int by done.
      rewrite <- (app_nil_r (enc_str (in_Compression m))), dec_enc_str by done. by destruct m.
    + unfold enc_init. rewrite !length_app.
      pose proof (length_enc_str _ Hn). pose proof (length_enc_str _ Hc). pose proof (length_enc_str _ Hp).
      pose proof (length_enc_int (in_Size m)). pose proof (length_enc_int (in_ChunkSize m)).
      pose proof (length_enc_int (in_TotalChunks m)). pose proof (length_enc_int (in_Offset m)). lia.
  - intros n H. split; [by apply dec_one_enc|]. change (len (enc_int n) < 2 ^ 32). by rewrite length_enc_int.
  - intros n H. split; [by apply dec_one_enc|]. change (len (enc_int n) < 2 ^ 32). by rewrite length_enc_int.
  - intros m Hc Hn. cbn [fin_marshal fin_unmarshal plain_codec json_plain] in *. split.
    + rewrite dec_enc_int by done.
      rewrite <- (app_nil_r (enc_str (fin_Checksum m))), dec_enc_str by done. by destruct m.
    + rewrite length_app. pose proof (length_enc_str _ Hc). pose proof (length_enc_int (fin_TotalChunks m)). lia.
  - intros b. cbn [done_marshal done_unmarshal plain_codec]. rewrite length_enc_int.
    destruct b; (rewrite dec_one_enc by (unfold is_i64; lia)); done.
Qed.

Definition stored_zstd : Zstd := {|
  zstd_encode l := Some (Byte.x28 :: l);
  zstd_decode l := match l with _ :: l => Some l | [] => None end;
|}.

Lemma stored_zstd_laws : ZstdLaws stored_zstd.
Proof.
  split; cbn.
  - intros src enc [= <-]. done.
  - intros src enc [= <-]. cbn. lia.
  - eauto.
Qed.

Definition naming_hash : FileHash := {| sha256_hex l := bytes_str (take 32 l) |}.

#[local] Existing Instances stored_zstd.

Lemma data_frame_roundtrip_witness :
  exists payload,
    frameRead (mkStream (frame_bytes frameTypeData (packDataFrame 7 (str_bytes "abc") CompZstd) ++ [Byte.x05]) [] None)
      = (inr (frameTypeData, payload), mkStream [Byte.x05] [] None) /\
    unpackDataFrame payload CompZstd = inr (7, str_bytes "abc").
Proof.
  apply (@data_frame_roundtrip stored_zstd stored_zstd_laws 7 (str_bytes "abc") CompZstd (mkStream [] [] None)
    (mkStream (frame_bytes frameTypeData (packDataFrame 7 (str_bytes "abc") CompZstd) ++ [Byte.x05]) [] None));
    [lia|by vm_compute|done|by vm_compute].
Defined.
