(* ===== verification/FileSend.v ===== *)
(** The sending side of the file transfer protocol (src/p2put/relayfile.go):
    [SendFile], cut at each of its reads from the stream.

    The sender's file does not change while it is sent.  The lists of the world
    decide, in turn, which reads of the file fail, whether the context is found
    cancelled before a batch, and what reopening a stream gives. *)

From stdpp Require Import gmap strings.
From S2P Require Import Prelude FileFrame FileRecv.

Inductive send_error :=
  | SendWrite (e : frame_error)
  | SendJSON (e : json_error)
  | SendReadFile
  | SendCancelled
  | SendReconnect.

(** Where [SendFile] waits, or its result. *)
Inductive send_phase :=
  | WaitAccept
  | WaitAck
  | WaitDone
  | Sent (e : option send_error).

Record sworld := mkSworld {
  sw_content : list byte;
  sw_pos : Z;
  sw_seq : Z;
  sw_stream : stream;
  sw_faults : list bool;
  sw_cancel : list bool;
  sw_reopen : list (option stream);
  sw_phase : send_phase;
}.

#[global] Instance sworld_eta : Eta sworld := fun w =>
  mkSworld (sw_content w) (sw_pos w) (sw_seq w) (sw_stream w) (sw_faults w) (sw_cancel w)
    (sw_reopen w) (sw_phase w).

Definition total_chunks (fileSize : Z) : Z :=
  let n := fileSize / chunkSize in if fileSize mod chunkSize =? 0 then n else n + 1.

(** [file.Seek(int64(n)*chunkSize, io.SeekStart)], its error dropped. *)
Definition seek_chunk (n : Z) : M sworld () :=
  let pos := int64 (n * chunkSize) in
  when (0 <=? pos) (modify (fun w => w <| sw_pos := pos |>)).

Definition pop {A} (dflt : A) (get_list : sworld -> list A) (set_list : list A -> sworld -> sworld)
    : M sworld A :=
  l <- gets get_list ;;
  match l with
  | [] => ret dflt
  | b :: l => modify (set_list l) ;; ret b
  end.

Definition read_fault : M sworld bool := pop false sw_faults (fun l w => w <| sw_faults := l |>).
Definition cancelled : M sworld bool := pop false sw_cancel (fun l w => w <| sw_cancel := l |>).
Definition reopen : M sworld (option stream) := pop None sw_reopen (fun l w => w <| sw_reopen := l |>).

Definition set_phase (p : send_phase) : M sworld () := modify (fun w => w <| sw_phase := p |>).

Definition sw_frameWrite (typ : Z) (payload : list byte) : M sworld (option frame_error) :=
  fun w => let '(e, s) := frameWrite typ payload (sw_stream w) in Ok (e, w <| sw_stream := s |>).
Definition sw_readJSONFrame {A} (typ : Z) (unmarshal : list byte -> A * bool) : M sworld (json_error + A) :=
  fun w => let '(r, s) := readJSONFrame typ unmarshal (sw_stream w) in Ok (r, w <| sw_stream := s |>).

Section sender.
Context {Zs : Zstd} {J : FileJson} {Hs : FileHash}.

(** What [SendFile] fixes before it opens its stream. *)
Record send_config := mkSendConfig { sc_name : string; sc_compression : compression }.
Context (cfg : send_config).

Definition compression_name (c : compression) : string :=
  match c with CompZstd => "zstd" | CompNone => "none" end.

Definition sender_init (content : list byte) (offset : Z) : InitMsg := {|
  in_Name := sc_name cfg;
  in_Size := len content;
  in_ChunkSize := chunkSize;
  in_TotalChunks := total_chunks (len content);
  in_Checksum := ("sha256:" ++ sha256_hex content)%string;
  in_Offset := offset;
  in_Compression := compression_name (sc_compression cfg);
|}.

(** From [initRetry] to the read of the answer. *)
Definition send_init (offset : Z) : M sworld () :=
  w <- get ;;
  e <- sw_frameWrite frameTypeInit (init_marshal (sender_init (sw_content w) offset)) ;;
  match e with
  | Some e => set_phase (Sent (Some (SendWrite e)))
  | None => set_phase WaitAccept
  end.

(** [file.Read(buf)]. *)
Definition file_read : M sworld (list byte) :=
  w <- get ;;
  let data := takeZ chunkSize (dropZ (sw_pos w) (sw_content w)) in
  modify (fun w => w <| sw_pos := sw_pos w + len data |>) ;;
  ret data.

(** The inner loop, with [more] chunks left in the batch; [true] when it ran
    to its end or to the end of the file. *)
Fixpoint send_batch (more : nat) : M sworld bool :=
  match more with
  | O => ret true
  | S more =>
      f <- read_fault ;;
      if f : bool then
        sw_frameWrite frameTypeCancel (reason_marshal ReasonWrite) ;;
        set_phase (Sent (Some SendReadFile)) ;; ret false
      else
        data <- file_read ;;
        if len data =? 0 then ret true
        else
          w <- get ;;
          e <- sw_frameWrite frameTypeData (packDataFrame (sw_seq w) data (sc_compression cfg)) ;;
          match e with
          | Some e => set_phase (Sent (Some (SendWrite e))) ;; ret false
          | None => modify (fun w => w <| sw_seq := sw_seq w + 1 |>) ;; send_batch more
          end
  end.

(** The head of the transfer loop: a batch, or the end of the transfer. *)
Definition next_batch : M sworld () :=
  w <- get ;;
  let totalChunks := total_chunks (len (sw_content w)) in
  if sw_seq w <? totalChunks then
    c <- cancelled ;;
    if c : bool then
      sw_frameWrite frameTypeCancel (reason_marshal ReasonWrite) ;;
      set_phase (Sent (Some SendCancelled))
    else
      let batchEnd := Z.min (sw_seq w + ackBatch) totalChunks in
      ok <- send_batch (Z.to_nat (batchEnd - sw_seq w)) ;;
      if ok : bool then set_phase WaitAck else ret ()
  else
    e <- sw_frameWrite frameTypeFin
      (fin_marshal (mkFin totalChunks ("sha256:" ++ sha256_hex (sw_content w)))) ;;
    match e with
    | Some e => set_phase (Sent (Some (SendWrite e)))
    | None => set_phase WaitDone
    end.

Definition on_accept : M sworld () :=
  r <- sw_readJSONFrame frameTypeAccept accept_unmarshal ;;
  match r with
  | inl e => set_phase (Sent (Some (SendJSON e)))
  | inr offset =>
      seek_chunk offset ;;
      modify (fun w => w <| sw_seq := offset |>) ;;
      next_batch
  end.

(** A failed read of the acknowledgment reopens the stream and starts over. *)
Definition on_ack : M sworld () :=
  r <- sw_readJSONFrame frameTypeAck ack_unmarshal ;;
  match r with
  | inl _ =>
      o <- reopen ;;
      match o with
      | None => set_phase (Sent (Some SendReconnect))
      | Some s =>
          modify (fun w => w <| sw_stream := s |>) ;;
          w <- get ;; send_init (sw_seq w)
      end
  | inr cs =>
      modify (fun w => w <| sw_seq := int64 (cs + 1) |>) ;;
      w <- get ;;
      seek_chunk (sw_seq w) ;;
      next_batch
  end.

Definition on_done : M sworld () :=
  r <- sw_readJSONFrame frameTypeDone done_unmarshal ;;
  match r with
  | inl e => set_phase (Sent (Some (SendJSON e)))
  | inr _ => set_phase (Sent None)
  end.

(** Resumes [SendFile] where it waits. *)
Definition send_step : M sworld () :=
  w <- get ;;
  match sw_phase w with
  | WaitAccept => on_accept
  | WaitAck => on_ack
  | WaitDone => on_done
  | Sent _ => ret ()
  end.
End sender.
