(* ===== verification/FileSafe.v ===== *)
(** What the receiver of a file guarantees against any peer
    (src/p2put/relayfile.go): which paths it touches, that a file is only ever
    put in place after its checksum was verified, when it panics, and that its
    loop ends. *)

From Stdlib Require Import Ascii.
From stdpp Require Import gmap strings.
From S2P Require Import Prelude FileFrame FilePath FileRecv FileCodec.

(** ** The receiver as a system of steps *)

(** Where [HandleFileStream] is. *)
Inductive recv_phase := RecvInit | RecvLoop (lastAck : Z) | RecvEnd.

Definition recv_next (r : option Z) : recv_phase :=
  match r with Some n => RecvLoop n | None => RecvEnd end.

Section receiver.
Context {Zs : Zstd} {J : FileJson} {Hs : FileHash}.

(** The INIT message that the handler reads first, if it can be read. *)
Definition read_init (w : world) : option InitMsg :=
  match (readJSONFrame frameTypeInit init_unmarshal (w_stream w)).1 with inr init => Some init | inl _ => None end.

(** Where the handler is, the INIT message it has read (ghost), and the world. *)
#[local] Abbreviation recv_state := (recv_phase * option InitMsg * world)%type.

(** The handler takes a turn, the peer sends bytes, the operating system
    schedules its next faults, or another goroutine cancels the session. *)
Inductive recv_step (recvDir : string) : recv_state -> recv_state -> Prop :=
  | step_accept w r w' :
      accept_stream recvDir w = Ok (r, w') ->
      recv_step recvDir (RecvInit, None, w) (recv_next r, read_init w, w')
  | step_turn n init w r w' :
      receive_turn n w = Ok (r, w') ->
      recv_step recvDir (RecvLoop n, init, w) (recv_next r, init, w')
  | step_arrive ph init w bytes room :
      recv_step recvDir (ph, init, w)
        (ph, init, w <| w_stream := mkStream (st_in (w_stream w) ++ bytes) (st_out (w_stream w)) room |>)
  | step_faults ph init w faults :
      recv_step recvDir (ph, init, w) (ph, init, w <| w_faults := faults |>)
  | step_cancel ph init w w' :
      w_listed w = true -> CancelFileSession w = Ok ((), w') ->
      recv_step recvDir (ph, init, w) (ph, init, w').

(** A handler that has just been given its stream. *)
Definition recv_initial (fs : gmap string (list byte)) (x : recv_state) : Prop :=
  x.1 = (RecvInit, None) /\ w_fs x.2 = fs /\ w_ses x.2 = None /\ w_listed x.2 = false.

Definition recv_reachable recvDir fs := reachable (recv_initial fs) (recv_step recvDir).

(** ** What a turn leaves alone *)

(** The file of the session is in place and has the announced checksum. *)
Definition verified (s : fileSession) (w : world) : Prop :=
  exists content, w_fs w !! fs_savePath s = Some content /\
    fs_checksum s = ("sha256:" +:+ sha256_hex content)%string.

Definition same_target (s s' : fileSession) : Prop :=
  fs_savePath s' = fs_savePath s /\ fs_tmpPath s' = fs_tmpPath s /\ fs_checksum s' = fs_checksum s.

(** Only the partial file changed, and the session is not newly done. *)
Definition untouched (s : fileSession) (w w' : world) : Prop :=
  (forall p, p <> fs_tmpPath s -> w_fs w' !! p = w_fs w !! p) /\
  exists s', w_ses w' = Some s' /\ same_target s s' /\
    (fs_state s' = SesDone -> fs_state s = SesDone).

Lemma untouched_refl s w : w_ses w = Some s -> untouched s w w.
Proof. intros E. split; [done|]. exists s. by repeat split. Qed.

Lemma untouched_trans s w1 w2 w3 s2 :
  untouched s w1 w2 -> w_ses w2 = Some s2 -> untouched s2 w2 w3 -> untouched s w1 w3.
Proof.
  intros [Hf1 (s2' & E2 & (Ha & Hb & Hc) & Hd)] E2' [Hf2 (s3 & E3 & (Ha' & Hb' & Hc') & Hd')].
  rewrite E2 in E2'. injection E2' as ->. rewrite Hb in Hf2. split.
  - intros p Hp. by rewrite Hf2, Hf1.
  - exists s3. repeat split; try congruence. auto.
Qed.

(** [m] only touches the partial file of [s], from any state of that session. *)
Definition calm {A} (s : fileSession) (m : M world A) : Prop :=
  forall w s', w_ses w = Some s' -> same_target s s' -> wlp m (fun _ => untouched s' w) w.

Lemma calm_ret {A} s (a : A) : calm s (ret a).
Proof. intros w s' E _. apply wlp_ret. by apply untouched_refl. Qed.

Lemma calm_bind {A B} s (m : M world A) (k : A -> M world B) :
  calm s m -> (forall a, calm s (k a)) -> calm s (bind m k).
Proof.
  intros Hm Hk w s' E Ht. apply wlp_bind. eapply wlp_mono; [by apply (Hm w s')|].
  intros a w1 H1. pose proof H1 as [_ (s1 & E1 & Ht1 & _)].
  eapply wlp_mono; [apply (Hk a w1 s1 E1)|].
  - destruct Ht as (? & ? & ?), Ht1 as (? & ? & ?). repeat split; congruence.
  - intros b w2 H2. by apply (untouched_trans s' w w1 w2 s1).
Qed.

Lemma calm_session {B} s (k : fileSession -> M world B) :
  (forall s', same_target s s' -> calm s (k s')) -> calm s (bind session k).
Proof.
  intros Hk w s' E Ht. apply wlp_bind, wlp_deref. intros s0 E0. rewrite E in E0. injection E0 as <-.
  by apply (Hk s' Ht).
Qed.

(** Steps that leave file system and session alone. *)
Lemma calm_inert {A} s (m : M world A) :
  (forall w, wlp m (fun _ w' => w_fs w' = w_fs w /\ w_ses w' = w_ses w) w) -> calm s m.
Proof.
  intros Hm w s' E _. eapply wlp_mono; [apply Hm|]. intros a w' [Hf Hw].
  split; [by rewrite Hf|]. exists s'. rewrite Hw. by repeat split.
Qed.

Lemma calm_set_ses s f :
  (forall s', same_target s' (f s') /\ (fs_state (f s') = SesDone -> fs_state s' = SesDone)) ->
  calm s (set_ses f).
Proof.
  intros Hf w s' E _. apply wlp_bind, wlp_deref. intros s0 E0. rewrite E in E0. injection E0 as <-.
  apply wlp_modify. split; [done|]. exists (f s'). split; [done|]. apply Hf.
Qed.

Lemma calm_files s (path : string) (f : option (list byte) -> option (list byte)) :
  path = fs_tmpPath s -> calm s (modify (fun w => w <| w_fs := partial_alter f path (w_fs w) |>)).
Proof.
  intros -> w s' E (_ & Ht & _). apply wlp_modify. split; [|exists s'; by repeat split].
  intros p Hp. rewrite Ht in Hp. by apply lookup_partial_alter_ne.
Qed.

Lemma calm_when s b m : calm s m -> calm s (when b m).
Proof. destruct b; [done|]. intros _. apply calm_ret. Qed.

Lemma calm_gets {A} s (f : world -> A) : calm s (gets f).
Proof. apply calm_inert. done. Qed.

Lemma calm_lift {A} s (o : outcome A) : calm s (lift_outcome o).
Proof. apply calm_inert. intros w. unfold wlp, lift_outcome. by destruct o. Qed.

Lemma calm_unlist s b : calm s (modify (fun w => w <| w_listed := b |>)).
Proof. by apply calm_inert. Qed.

Lemma calm_next_fault s : calm s next_fault.
Proof. apply calm_inert. intros w. unfold wlp, next_fault, bind, gets. by destruct (w_faults w). Qed.

Lemma calm_frameWrite s typ payload : calm s (io_frameWrite typ payload).
Proof. apply calm_inert. intros w. unfold wlp, io_frameWrite. by destruct (frameWrite _ _ _). Qed.

Lemma calm_frameRead s : calm s io_frameRead.
Proof. apply calm_inert. intros w. unfold wlp, io_frameRead. by destruct (frameRead _). Qed.

Create HintDb calm discriminated.
#[local] Hint Resolve calm_ret calm_when calm_gets calm_lift calm_unlist calm_next_fault
  calm_frameWrite calm_frameRead : calm.

Ltac calm :=
  repeat match goal with
  | |- calm _ (bind session _) => apply calm_session; intros ? (? & ? & ?)
  | |- calm _ (bind _ _) => apply calm_bind; [|intros]
  | |- calm _ (set_ses _) => apply calm_set_ses; intros; repeat split; cbn; try done
  | |- calm _ (match ?x with _ => _ end) => destruct x
  | |- calm _ _ => solve [eauto with calm]
  end.

Lemma calm_fault s : calm s fault.
Proof. unfold fault. calm. Qed.

Lemma calm_write_error s r : calm s (write_error r).
Proof. unfold write_error. calm. Qed.

Lemma calm_set_file s path content : path = fs_tmpPath s -> calm s (set_file path content).
Proof. intros E. apply (calm_files s path (fun _ => Some content) E). Qed.

Lemma calm_remove s path : path = fs_tmpPath s -> calm s (os_Remove path).
Proof.
  intros E. apply calm_bind; [apply calm_fault|]. intros b. apply calm_when.
  apply (calm_files s path (fun _ => None) E).
Qed.
#[local] Hint Resolve calm_fault calm_write_error calm_set_file calm_remove : calm.

Lemma calm_cleanup s : calm s cleanupSession.
Proof. unfold cleanupSession. calm. Qed.
#[local] Hint Resolve calm_cleanup : calm.

Lemma calm_tmpFile_Write s data : calm s (tmpFile_Write data).
Proof. unfold tmpFile_Write. calm. Qed.
#[local] Hint Resolve calm_tmpFile_Write : calm.

Lemma calm_receive_data s payload lastAck : calm s (receive_data payload lastAck).
Proof. unfold receive_data. calm. Qed.

Lemma calm_open s path : calm s (os_Open path).
Proof. unfold os_Open. calm. Qed.
#[local] Hint Resolve calm_open : calm.

Lemma calm_verify s path checksum : calm s (verifyFileHash path checksum).
Proof. unfold verifyFileHash. calm. Qed.
#[local] Hint Resolve calm_verify calm_receive_data : calm.

(** ** Finishing *)

Lemma substring_split n s :
  (String.substring 0 n s +:+ String.substring n (String.length s - n) s = s)%string.
Proof.
  revert n. induction s as [|c s IH]; intros [|n]; try done.
  - cbn [String.length Nat.sub]. change (String.substring 0 0 (String c s)) with ""%string.
    change (String.substring 0 (S (String.length s)) (String c s))
      with (String c (String.substring 0 (String.length s) s)).
    specialize (IH 0%nat). rewrite Nat.sub_0_r in IH. destruct s; [done|].
    exact (f_equal (String c) IH).
  - exact (f_equal (String c) (IH n)).
Qed.

Lemma verify_wlp path checksum w :
  wlp (verifyFileHash path checksum) (fun b w' => w_fs w' = w_fs w /\ w_ses w' = w_ses w /\
    (b = true -> exists content, w_fs w !! path = Some content /\
       checksum = ("sha256:" +:+ sha256_hex content)%string)) w.
Proof.
  unfold wlp, verifyFileHash. destruct (String.prefix "sha256:" checksum) eqn:Hp; [|done]. cbn [negb].
  unfold os_Open, fault, next_fault, bind, gets, ret, modify.
  assert (forall content, sha256_hex content = String.substring 7 (String.length checksum - 7) checksum ->
    checksum = ("sha256:" +:+ sha256_hex content)%string) as Hsum.
  { intros content ->. rewrite <- (substring_split 7 checksum) at 1. f_equal.
    by apply String.prefix_correct in Hp. }
  destruct w as [fs fl st se li].
  destruct fl as [|[n|] l]; cbn -[String.append]; [|done|]; destruct (fs !! path) eqn:Ec; try done; cbn -[String.append];
    [|destruct l as [|[n'|] l']; cbn -[String.append]; try done];
    (split; [done|]; split; [done|]; intros Hb; apply bool_decide_eq_true in Hb; eauto).
Qed.

Lemma rename_wlp old new w :
  wlp (os_Rename old new) (fun b w' => w_ses w' = w_ses w /\
    if b then exists content, w_fs w !! old = Some content /\
      w_fs w' = <[new := content]> (delete old (w_fs w))
    else w_fs w' = w_fs w) w.
Proof.
  unfold wlp, os_Rename, fault, next_fault, bind, gets, ret, modify.
  destruct w as [fs fl st se li].
  destruct fl as [|[n|] l]; cbn; destruct (fs !! old) eqn:Ec; cbn; eauto.
Qed.

(** The end of a transfer: either nothing but the partial file changed, or the
    verified file was put in place. *)
Definition finished (s : fileSession) (w w' : world) : Prop :=
  untouched s w w' \/
  ((forall p, p <> fs_tmpPath s -> p <> fs_savePath s -> w_fs w' !! p = w_fs w !! p) /\
   exists s', w_ses w' = Some s' /\ same_target s s' /\ verified s' w').

Lemma finished_after s w w1 s1 w2 :
  untouched s w w1 -> w_ses w1 = Some s1 -> finished s1 w1 w2 -> finished s w w2.
Proof.
  intros Hu E1 [H2|[Hf (s2 & E2 & Ht & Hv)]]; [left; by apply (untouched_trans s w w1 w2 s1)|].
  destruct Hu as [Hf1 (s1' & E1' & (Ha & Hb & Hc) & Hd)]. rewrite E1 in E1'. injection E1' as <-.
  rewrite Ha, Hb in Hf. right. split; [intros p Hp Hp'; by rewrite Hf, Hf1|].
  destruct Ht as (? & ? & ?). exists s2. split; [done|]. split; [repeat split; congruence|done].
Qed.

(** What follows a successful rename. *)
Lemma done_wlp s w content (k : M world ()) :
  w_ses w = Some s -> fs_tmpPath s <> fs_savePath s ->
  w_fs w !! fs_savePath s = Some content ->
  fs_checksum s = ("sha256:" +:+ sha256_hex content)%string -> calm s k ->
  wlp (set_ses (fun s => s <| fs_doneBytes := fs_size s |> <| fs_state := SesDone |>) ;; k)
    (fun _ w' => (forall p, p <> fs_tmpPath s -> w_fs w' !! p = w_fs w !! p) /\
       exists s', w_ses w' = Some s' /\ same_target s s' /\ verified s' w') w.
Proof.
  intros E Hne Hc Hsum Hk. apply wlp_bind, wlp_bind, wlp_deref. intros s0 E0.
  rewrite E in E0. injection E0 as <-. apply wlp_modify.
  set (s1 := s <| fs_doneBytes := fs_size s |> <| fs_state := SesDone |>).
  eapply wlp_mono; [by apply (Hk _ s1)|]. intros _ w' [Hf (s' & E' & (Ha & Hb & Hcs) & _)].
  split; [done|]. exists s'. split; [done|]. split; [done|].
  exists content. rewrite Ha, Hcs. split; [|done]. by rewrite Hf.
Qed.

Lemma calm_finished {A} s w (m : M world A) : w_ses w = Some s -> calm s m ->
  wlp m (fun _ => finished s w) w.
Proof.
  intros E Hm. eapply wlp_mono; [apply (Hm w s E); by repeat split|]. intros ? w' H. by left.
Qed.

Lemma finished_cons {A} s w s1 w1 (m : M world A) : untouched s w w1 -> w_ses w1 = Some s1 ->
  wlp m (fun _ => finished s1 w1) w1 -> wlp m (fun _ => finished s w) w1.
Proof. intros Hu E1 H. eapply wlp_mono; [exact H|]. intros ? w2. by apply finished_after. Qed.

Lemma receive_fin_wlp s w payload : w_ses w = Some s -> fs_tmpPath s <> fs_savePath s ->
  wlp (receive_fin payload) (fun _ => finished s w) w.
Proof.
  intros E Hne. apply wlp_bind, wlp_deref. intros s0 E0. rewrite E in E0. injection E0 as <-.
  cbv beta zeta. destruct (negb _); [apply calm_finished; [done|]; calm|].
  apply wlp_bind. eapply wlp_mono; [apply (calm_set_ses s _) with (s' := s); [by repeat split|done|by repeat split]|].
  intros ? w1 H1. pose proof H1 as [_ (s1 & E1 & (Ha & Hb & Hc) & _)].
  apply (finished_cons s w s1); [done|done|].
  rewrite <- Ha, <- Hb, <- Hc. rewrite <- Ha, <- Hb in Hne.
  apply wlp_bind. eapply wlp_mono; [apply verify_wlp|]. intros ok w2 (Hf2 & Hs2 & Hv).
  rewrite E1 in Hs2. apply (finished_cons s1 w1 s1);
    [split; [by rewrite Hf2|exists s1; by repeat split]|done|].
  destruct ok; cbn [negb]; [|apply calm_finished; [done|]; calm].
  destruct (Hv eq_refl) as (content & Hc1 & Hsum).
  apply wlp_bind. eapply wlp_mono; [apply rename_wlp|]. intros ok w3 [Hs3 Hr]. rewrite Hs2 in Hs3.
  destruct ok; cbn [negb].
  - destruct Hr as (content' & Hc3 & Hf3). rewrite Hf2, Hc1 in Hc3. injection Hc3 as <-.
    eapply wlp_mono; [apply (done_wlp s1 w3 content); [done|done| |done|calm]|].
    { rewrite Hf3. apply lookup_insert_eq. }
    intros ? w4 [Hf4 Hx]. right. split; [|done]. intros p Hp Hp'. rewrite Hf4 by done.
    rewrite Hf3, lookup_insert_ne, lookup_delete_ne by done. done.
  - eapply wlp_mono; [apply calm_finished; [done|]; calm|]. intros ? w4 H.
    apply (finished_after s1 w2 w3 s1 w4); [|done|done].
    split; [by rewrite Hr|exists s1; by repeat split].
Qed.

Lemma receive_turn_wlp s w n : w_ses w = Some s -> fs_tmpPath s <> fs_savePath s ->
  wlp (receive_turn n) (fun _ => finished s w) w.
Proof.
  intros E Hne. apply wlp_bind. eapply wlp_mono; [apply (calm_frameRead s w s E); by repeat split|].
  intros r w1 H1. pose proof H1 as [_ (s1 & E1 & (Ha & Hb & Hc) & _)].
  apply (finished_cons s w s1); [done|done|].
  rewrite <- Ha, <- Hb in Hne.
  destruct r as [e|[typ payload]]; [apply calm_finished; [done|]; calm|].
  destruct (_ || _); [apply calm_finished; [done|]; calm|].
  destruct (typ =? frameTypeData); [apply calm_finished; [done|]; calm|].
  destruct (typ =? frameTypeFin); [|apply calm_finished; [done|]; calm].
  apply wlp_bind. eapply wlp_mono; [by apply receive_fin_wlp|]. intros ? w2 H2. by apply wlp_ret.
Qed.

(** ** Opening *)

(** [m] moves the world along the preorder [R] only. *)
Definition keeps {A} (R : world -> world -> Prop) (m : M world A) : Prop :=
  forall w, wlp m (fun _ => R w) w.

Section keeps.
Context (R : world -> world -> Prop) `{!PreOrder R}.

Lemma keeps_bind {A B} (m : M world A) (k : A -> M world B) :
  keeps R m -> (forall a, keeps R (k a)) -> keeps R (bind m k).
Proof.
  intros Hm Hk w. apply wlp_bind. eapply wlp_mono; [apply Hm|]. intros a w1 H1.
  eapply wlp_mono; [apply Hk|]. intros b w2 H2. exact (transitivity H1 H2).
Qed.

Lemma keeps_ret {A} (a : A) : keeps R (ret a).
Proof. intros w. by apply wlp_ret. Qed.
Lemma keeps_gets {A} (f : world -> A) : keeps R (gets f).
Proof. intros w. by apply wlp_gets. Qed.
Lemma keeps_lift {A} (o : outcome A) : keeps R (lift_outcome o).
Proof. intros w. unfold wlp, lift_outcome. by destruct o. Qed.
Lemma keeps_session {A} (k : fileSession -> M world A) :
  (forall s, keeps R (k s)) -> keeps R (bind session k).
Proof. intros Hk. apply keeps_bind; [|done]. intros w. apply wlp_deref. intros s _. reflexivity. Qed.
End keeps.

(** Before its session exists the handler touches the partial file only. *)
Definition quiet (path : string) (w w' : world) : Prop :=
  w_ses w' = w_ses w /\ forall p, p <> path -> w_fs w' !! p = w_fs w !! p.

#[local] Instance quiet_preorder path : PreOrder (quiet path).
Proof.
  split; [done|]. intros w1 w2 w3 [Ha Hb] [Hc Hd]. split; [congruence|].
  intros p Hp. by rewrite Hd, Hb.
Qed.

Ltac keeps :=
  repeat match goal with
  | |- keeps _ (bind session _) => apply keeps_session; [apply _|intros]
  | |- keeps _ (bind _ _) => apply keeps_bind; [apply _| |intros]
  | |- keeps _ (ret _) => apply keeps_ret; apply _
  | |- keeps _ (gets _) => apply keeps_gets; apply _
  | |- keeps _ (lift_outcome _) => apply keeps_lift; apply _
  | |- keeps _ (match ?x with _ => _ end) => destruct x
  | |- keeps _ (when ?b _) => destruct b; cbn [when]
  | |- keeps _ _ => solve [eauto with calm]
  end.

Lemma prep_next_fault path : keeps (quiet path) next_fault.
Proof. intros w. unfold wlp, next_fault, bind, gets. by destruct (w_faults w). Qed.
Lemma prep_frameWrite path typ payload : keeps (quiet path) (io_frameWrite typ payload).
Proof. intros w. unfold wlp, io_frameWrite. by destruct (frameWrite _ _ _). Qed.
Lemma prep_files path f :
  keeps (quiet path) (modify (fun w => w <| w_fs := partial_alter f path (w_fs w) |>)).
Proof. intros w. apply wlp_modify. split; [done|]. intros p Hp. by apply lookup_partial_alter_ne. Qed.
#[local] Hint Resolve prep_next_fault prep_frameWrite : calm.

Lemma prep_fault path : keeps (quiet path) fault.
Proof. unfold fault. keeps. Qed.
#[local] Hint Resolve prep_fault : calm.

Lemma prep_set_file path content : keeps (quiet path) (set_file path content).
Proof. apply (prep_files path (fun _ => Some content)). Qed.
Lemma prep_remove path : keeps (quiet path) (os_Remove path).
Proof.
  apply keeps_bind; [apply _|apply prep_fault|]. intros []; [apply keeps_ret, _|]. apply (prep_files path (fun _ => None)).
Qed.
#[local] Hint Resolve prep_set_file prep_remove : calm.

Lemma prep_open_partial init path : keeps (quiet path) (open_partial init path).
Proof. unfold open_partial, os_Open, os_Create. keeps. Qed.

(** What [accept_stream] leaves: a session for the announced file, or nothing. *)
Definition opened (recvDir : string) (w : world) (r : option Z) (w' : world) : Prop :=
  match read_init w with
  | None => w_fs w' = w_fs w /\ w_ses w' = None /\ r = None
  | Some init =>
      let final := save_path recvDir (in_Name init) in
      (forall p, p <> part_path final -> w_fs w' !! p = w_fs w !! p) /\
      match w_ses w' with
      | None => r = None
      | Some s => fs_savePath s = final /\ fs_tmpPath s = part_path final /\
          fs_checksum s = in_Checksum init /\ fs_state s = SesTransfer
      end
  end.

Lemma prep_none {A} recvDir init w w1 (m : M world A) (path := part_path (save_path recvDir (in_Name init))) :
  read_init w = Some init -> w_ses w = None -> quiet path w w1 -> keeps (quiet path) m ->
  wlp (m ;; ret None) (opened recvDir w) w1.
Proof.
  intros Ei E H1 Hm. apply wlp_bind. eapply wlp_mono; [apply Hm|]. intros a w2 H2. apply wlp_ret.
  destruct (transitivity H1 H2) as [Hse Hf]. unfold opened. rewrite Ei. split; [done|]. by rewrite Hse, E.
Qed.

Lemma accept_wlp recvDir w : w_ses w = None -> wlp (accept_stream recvDir) (opened recvDir w) w.
Proof.
  intros E. apply wlp_bind. unfold wlp at 1, io_readJSONFrame.
  destruct (readJSONFrame frameTypeInit init_unmarshal (w_stream w)) as [[e|init] st] eqn:Er.
  { apply wlp_ret. unfold opened, read_init. by rewrite Er. }
  assert (read_init w = Some init) as Ei by (unfold read_init; by rewrite Er).
  set (path := part_path (save_path recvDir (in_Name init))).
  set (w0 := w <| w_stream := st |>). assert (quiet path w w0) as H0 by done. clearbody w0.
  apply wlp_bind. eapply wlp_mono; [apply (prep_fault path)|]. intros b w1 H1.
  pose proof (transitivity H0 H1) as Hq1.
  destruct b; [by apply (prep_none recvDir init); [..|apply prep_frameWrite]|].
  apply wlp_bind. eapply wlp_mono; [apply (prep_open_partial init path)|]. intros o w2 H2.
  pose proof (transitivity Hq1 H2) as Hq2.
  destruct o as [[[doneBytes written] bitmap]|];
    [|by apply (prep_none recvDir init); [..|apply prep_frameWrite]].
  apply wlp_bind. eapply wlp_mono; [apply (keeps_lift (quiet path))|]. intros n w3 H3.
  pose proof (transitivity Hq2 H3) as Hq3. cbv zeta.
  apply wlp_bind. eapply wlp_mono; [apply (prep_frameWrite path)|]. intros e w4 H4.
  pose proof (transitivity Hq3 H4) as Hq4.
  destruct e as [e|]; [by apply (prep_none recvDir init); [..|apply prep_remove]|].
  apply wlp_bind, wlp_modify, wlp_ret. unfold opened. rewrite Ei. split; [apply Hq4|done].
Qed.

(** ** Integrity *)

Lemma part_path_ne p : part_path p <> p.
Proof.
  unfold part_path. induction p as [|c p IH]; [done|]. intros H. injection H as H. by apply IH.
Qed.

Definition recv_inv (recvDir : string) (fs : gmap string (list byte)) (x : recv_state) : Prop :=
  let '(ph, announced, w) := x in
  (ph = RecvInit -> announced = None) /\
  match announced with
  | None => w_fs w = fs /\ w_ses w = None /\ forall n, ph <> RecvLoop n
  | Some init =>
      let final := save_path recvDir (in_Name init) in
      (forall p, p <> part_path final -> p <> final -> w_fs w !! p = fs !! p) /\
      match w_ses w with
      | None => w_fs w !! final = fs !! final /\ (forall n, ph <> RecvLoop n)
      | Some s => fs_savePath s = final /\ fs_tmpPath s = part_path final /\ fs_checksum s = in_Checksum init /\
                  (w_fs w !! final = fs !! final \/ verified s w) /\ (fs_state s = SesDone -> verified s w)
      end
  end.

Lemma recv_inv_finished recvDir fs ph ph' init w w' s :
  recv_inv recvDir fs (ph, init, w) -> w_ses w = Some s -> ph' <> RecvInit -> finished s w w' ->
  recv_inv recvDir fs (ph', init, w').
Proof.
  intros [_ Hi] E Hph Hfin. split; [done|]. rewrite E in Hi. destruct init as [init|]; [|by destruct Hi as (_ & ? & _)].
  destruct Hi as [Hf (Hsave & Htmp & Hsum & Hx & Hd)]. cbn -[w_fs] in *.
  set (final := save_path recvDir (in_Name init)) in *. pose proof (part_path_ne final) as Hne.
  destruct Hfin as [[Hu (s' & E' & (Ha & Hb & Hc) & Hd')]|[Hu (s' & E' & (Ha & Hb & Hc) & Hv)]];
    rewrite E'; rewrite Htmp in Hu.
  - assert (verified s w -> verified s' w') as Hver.
    { intros (c & Hc1 & Hc2). exists c. rewrite Ha, Hc. split; [|done]. rewrite Hu; [done|]. by rewrite Hsave. }
    split; [intros p Hp Hp'; by rewrite Hu, Hf|]. split; [congruence|]. split; [congruence|].
    split; [congruence|]. split; [|auto]. destruct Hx as [Hx|]; [left|by right; auto]. by rewrite Hu.
  - rewrite Hsave in Hu. split; [intros p Hp Hp'; by rewrite Hu, Hf|].
    split; [congruence|]. split; [congruence|]. split; [congruence|]. split; [by right|done].
Qed.

Lemma recv_inv_step recvDir fs x y :
  recv_inv recvDir fs x -> recv_step recvDir x y -> recv_inv recvDir fs y.
Proof.
  intros Hinv Hstep. destruct Hstep as [w r w' H|n init w r w' H|ph init w bytes room|ph init w l|ph init w w' _ H].
  - destruct Hinv as [_ (Hfs & E & _)]. pose proof (wlp_run _ _ _ _ _ H (accept_wlp recvDir w E)) as Ho.
    split; [by destruct r|]. unfold opened in Ho. destruct (read_init w) as [init|].
    + destruct Ho as [Hf' Hs']. cbv zeta. rewrite <- Hfs.
      assert (w_fs w' !! save_path recvDir (in_Name init) = w_fs w !! save_path recvDir (in_Name init)) as Hfin.
      { apply Hf'. intros Heq. by apply (part_path_ne (save_path recvDir (in_Name init))). }
      split; [intros p Hp _; by apply Hf'|]. destruct (w_ses w') as [s'|].
      * destruct Hs' as (? & ? & ? & Hst). repeat split; try done; [by left|]. by rewrite Hst.
      * by subst r.
    + destruct Ho as (-> & ? & ->). by rewrite Hfs.
  - destruct (w_ses w) as [s|] eqn:E.
    + apply (recv_inv_finished recvDir fs (RecvLoop n) _ init w w' s Hinv E); [by destruct r|].
      destruct Hinv as [_ Hi]. rewrite E in Hi. destruct init as [init|]; [|by destruct Hi as (_ & ? & _)].
      destruct Hi as (_ & Hsv & Htm & _).
      apply (wlp_run _ (fun _ => finished s w) _ _ _ H), receive_turn_wlp; [done|]. rewrite Hsv, Htm. apply part_path_ne.
    + destruct Hinv as [_ Hi]. rewrite E in Hi. destruct init as [init|]; [destruct Hi as (_ & _ & Hi)|destruct Hi as (_ & _ & Hi)]; by destruct (Hi n).
  - exact Hinv.
  - exact Hinv.
  - unfold CancelFileSession, set_ses, session, deref, bind in H.
    destruct (w_ses w) as [s|] eqn:E; [|done]. injection H as <-.
    destruct Hinv as [Hp Hi]. rewrite E in Hi. split; [done|]. destruct init as [init|]; [|by destruct Hi as (_ & ? & _)].
    destruct Hi as [Hf (? & ? & ? & Hx & _)]. split; [done|]. by repeat split.
Qed.


(** ** Panics and termination *)

Lemma frameWrite_in typ payload s : st_in (frameWrite typ payload s).2 = st_in s.
Proof.
  assert (forall p s, st_in (stream_Write p s).2 = st_in s) as Hw.
  { intros p s0. unfold stream_Write. destruct (st_room s0); [|done]. by case_match. }
  unfold frameWrite. pose proof (Hw (be_put 4 (wrap32 (len payload))) s) as H1.
  destruct (stream_Write _ s) as [[e|] s1]; [done|]. pose proof (Hw [byte_of_Z typ] s1) as H2.
  destruct (stream_Write _ s1) as [[e|] s2]; cbn in *; [congruence|]. case_match; [|cbn; congruence].
  pose proof (Hw payload s2) as H3. destruct (stream_Write _ s2) as [[e|] s3]; cbn in *; congruence.
Qed.

Lemma ReadFull_consumes n s l s' : ReadFull n s = (inr l, s') -> 0 <= n ->
  len (st_in s') + n = len (st_in s).
Proof.
  unfold ReadFull. case_match eqn:E; [done|]. intros [= <- <-] Hn. cbn. zbool.
  unfold dropZ. rewrite length_drop. lia.
Qed.

Lemma frameRead_consumes s x s' : frameRead s = (inr x, s') -> len (st_in s') + 5 <= len (st_in s).
Proof.
  unfold frameRead. destruct (ReadFull 4 s) as [[e|l4] s1] eqn:E1; [done|].
  destruct (ReadFull 1 s1) as [[e|l1] s2] eqn:E2; [done|].
  pose proof (ReadFull_consumes _ _ _ _ E1 ltac:(lia)). pose proof (ReadFull_consumes _ _ _ _ E2 ltac:(lia)).
  case_match eqn:E; [|intros [= _ <-]; lia]. zbool.
  destruct (ReadFull (be_get l4) s2) as [[e|lp] s3] eqn:E3; [done|]. intros [= _ <-].
  pose proof (ReadFull_consumes _ _ _ _ E3 ltac:(lia)). lia.
Qed.

(** The input and the compression of the session stay the same. *)
Definition steady (w w' : world) : Prop :=
  st_in (w_stream w') = st_in (w_stream w) /\
  fs_compression <$> w_ses w' = fs_compression <$> w_ses w.

(** [m] returns whenever there is a session, and consumes no input. *)
Definition safe {A} (m : M world A) : Prop :=
  forall w, is_Some (w_ses w) -> wp m (fun _ => steady w) w.

Lemma steady_some w w' : steady w w' -> is_Some (w_ses w) -> is_Some (w_ses w').
Proof. intros [_ H] [s E]. rewrite E in H. destruct (w_ses w'); [eauto|done]. Qed.

Lemma safe_bind {A B} (m : M world A) (k : A -> M world B) :
  safe m -> (forall a, safe (k a)) -> safe (bind m k).
Proof.
  intros Hm Hk w Hw. apply wp_bind. eapply wp_mono; [by apply Hm|]. intros a w1 H1.
  eapply wp_mono; [apply Hk; by apply (steady_some w)|]. intros b w2 H2.
  destruct H1, H2. split; congruence.
Qed.

Lemma safe_session {A} (k : fileSession -> M world A) : (forall s, safe (k s)) -> safe (bind session k).
Proof. intros Hk w [s E]. apply wp_bind, (wp_deref _ _ _ s E). apply Hk. eauto. Qed.

Lemma safe_ret {A} (a : A) : safe (ret a).
Proof. done. Qed.
Lemma safe_gets {A} (f : world -> A) : safe (gets f).
Proof. done. Qed.
Lemma safe_set_ses f : (forall s, fs_compression (f s) = fs_compression s) -> safe (set_ses f).
Proof.
  intros Hf w [s E]. apply wp_bind, (wp_deref _ _ _ s E), wp_modify. split; [done|].
  cbn. rewrite E. cbn. by rewrite Hf.
Qed.
Lemma safe_fs (f : gmap string (list byte) -> gmap string (list byte)) :
  safe (modify (fun w => w <| w_fs := f (w_fs w) |>)).
Proof. done. Qed.
Lemma safe_unlist b : safe (modify (fun w => w <| w_listed := b |>)).
Proof. done. Qed.
Lemma safe_next_fault : safe next_fault.
Proof. intros w _. unfold wp, next_fault, bind, gets. by destruct (w_faults w). Qed.
Lemma safe_frameWrite typ payload : safe (io_frameWrite typ payload).
Proof.
  intros w _. unfold wp, io_frameWrite. pose proof (frameWrite_in typ payload (w_stream w)) as H.
  by destruct (frameWrite _ _ _).
Qed.
#[local] Hint Resolve safe_ret safe_gets safe_unlist safe_next_fault safe_frameWrite : calm.

Ltac safe :=
  repeat match goal with
  | |- safe (bind session _) => apply safe_session; intros
  | |- safe (bind _ _) => apply safe_bind; [|intros]
  | |- safe (set_ses _) => by apply safe_set_ses
  | |- safe (set_file _ _) => apply (safe_fs (insert _ _))
  | |- safe (modify (fun w => w <| w_fs := delete ?p _ |>)) => apply (safe_fs (delete p))
  | |- safe (match ?x with _ => _ end) => destruct x
  | |- safe (when ?b _) => destruct b; cbn [when]
  | |- safe (modify _) => done
  | |- safe _ => solve [eauto with calm]
  end.

Lemma safe_fault : safe fault.
Proof. unfold fault. safe. Qed.
Lemma safe_write_error r : safe (write_error r).
Proof. unfold write_error. safe. Qed.
#[local] Hint Resolve safe_fault safe_write_error : calm.
Lemma safe_cleanup : safe cleanupSession.
Proof. unfold cleanupSession, os_Remove. safe. Qed.
Lemma safe_tmpFile_Write data : safe (tmpFile_Write data).
Proof. unfold tmpFile_Write. safe. Qed.
#[local] Hint Resolve safe_cleanup safe_tmpFile_Write : calm.
Lemma safe_receive_fin payload : safe (receive_fin payload).
Proof. unfold receive_fin, verifyFileHash, os_Open, os_Rename. safe. Qed.

Lemma safe_maxContinuous bitmap limit : safe (lift_outcome (bitmapMaxContinuous bitmap limit)).
Proof.
  intros w _. unfold wp, lift_outcome. destruct (decide (0 <= limit)) as [H|H].
  - destruct (maxContinuous_spec bitmap limit H) as (n & -> & _). done.
  - unfold bitmapMaxContinuous. by replace (0 <? limit) with false by lia.
Qed.
#[local] Hint Resolve safe_receive_fin safe_maxContinuous : calm.

Lemma bitmap_small_negative bitmap seq : -64 < seq ->
  (exists b, bitmapHas bitmap seq = Ok b) /\ (exists l, bitmapSet bitmap seq = Ok l).
Proof.
  intros H. assert (0 <= Z.quot seq 64) as Hq.
  { destruct (Z.le_gt_cases 0 seq); [apply Z.quot_pos; lia|].
    rewrite <- (Z.opp_involutive seq), Z.quot_opp_l, Z.quot_small by lia. lia. }
  unfold bitmapHas, bitmapSet. split; repeat case_match; eauto; zbool; lia.
Qed.

Lemma receive_data_safe payload n w s : w_ses w = Some s ->
  (forall seq data, unpackDataFrame payload (fs_compression s) = inr (seq, data) -> -64 < seq) ->
  wp (receive_data payload n) (fun _ => steady w) w.
Proof.
  intros E Hseq. apply wp_bind, (wp_deref _ _ _ s E).
  destruct (unpackDataFrame payload (fs_compression s)) as [e|[seq data]]; [|].
  { apply (safe_bind (write_error ReasonUnpack)); [eauto with calm|intros; safe|by exists s]. }
  destruct (bitmap_small_negative (fs_bitmap s) seq (Hseq _ _ eq_refl)) as [[b Hb] [l Hl]].
  assert (safe (lift_outcome (bitmapHas (fs_bitmap s) seq))) as H1 by (intros w1 _; by rewrite Hb).
  assert (safe (lift_outcome (bitmapSet (fs_bitmap s) seq))) as H2 by (intros w1 _; by rewrite Hl).
  revert w E. enough (forall A (m : M world A), safe m -> forall w, w_ses w = Some s ->
    wp m (fun _ => steady w) w) as Hx; [|intros A m Hm w E; apply Hm; eauto].
  intros w. apply Hx. safe.
Qed.

(** The next frame is a data frame with a chunk number of -64 or less. *)
Definition hostile_frame (c : compression) (st : stream) : Prop :=
  exists payload st' seq data, frameRead st = (inr (frameTypeData, payload), st') /\
    unpackDataFrame payload c = inr (seq, data) /\ seq <= -64.

(** A turn that neither ends the loop nor panics consumes a frame. *)
Lemma receive_turn_wp w s n : w_ses w = Some s -> ~ hostile_frame (fs_compression s) (w_stream w) ->
  wp (receive_turn n) (fun r w' => fs_compression <$> w_ses w' = Some (fs_compression s) /\
    (is_Some r -> exists x st, frameRead (w_stream w) = (inr x, st) /\ st_in (w_stream w') = st_in st)) w.
Proof.
  intros E Hh. apply wp_bind. unfold wp at 1, io_frameRead.
  destruct (frameRead (w_stream w)) as [r st] eqn:Er. cbv beta iota.
  set (w1 := w <| w_stream := st |>). assert (w_ses w1 = Some s) as E1 by done.
  assert (forall m : M world (option Z), wp m (fun _ => steady w1) w1 ->
    (forall e, r = inl e -> m = (cleanupSession ;; ret None)) ->
    wp m (fun r' w' => fs_compression <$> w_ses w' = Some (fs_compression s) /\
      (is_Some r' -> exists x st0, (r, st) = (inr x, st0) /\ st_in (w_stream w') = st_in st0)) w1) as Hpost.
  { intros m Hm Hr. destruct r as [e|x].
    - rewrite (Hr e eq_refl) in *. apply wp_bind. eapply wp_mono; [by apply safe_cleanup; exists s|].
      intros [] w2 [_ Hc]. apply wp_ret. rewrite Hc, E1. split; [done|]. by intros [].
    - eapply wp_mono; [exact Hm|]. intros a w2 [Hin Hc]. rewrite Hc, E1. split; [done|].
      intros _. by exists x, st. }
  apply Hpost; [|by intros e ->].
  destruct r as [e|[typ payload]]; [by apply (safe_bind cleanupSession); [eauto with calm..|exists s]|].
  destruct (_ || _); [by apply (safe_bind cleanupSession); [eauto with calm..|exists s]|].
  destruct (Z.eqb_spec typ frameTypeData) as [->|].
  { apply (receive_data_safe _ _ _ s E1). intros seq data Hu.
    destruct (Z.lt_ge_cases (-64) seq); [done|]. destruct Hh. by exists payload, st, seq, data. }
  destruct (typ =? frameTypeFin); [|by apply safe_ret; exists s].
  by apply (safe_bind (receive_fin payload)); [eauto with calm..|exists s].
Qed.

#[global] Instance hostile_frame_dec c st : Decision (hostile_frame c st).
Proof.
  unfold hostile_frame. destruct (frameRead st) as [[e|[typ payload]] st'];
    [right; intros (? & ? & ? & ? & ? & _); done|].
  destruct (decide (typ = frameTypeData)) as [->|]; [|right; intros (? & ? & ? & ? & [=] & _); done].
  destruct (unpackDataFrame payload c) as [e|[seq data]] eqn:Eu;
    [right; intros (? & ? & ? & ? & [= <- <-] & Hu & _); congruence|].
  destruct (decide (seq <= -64)); [left; eauto 8|].
  right. intros (? & ? & ? & ? & [= <- <-] & Hu & ?). rewrite Eu in Hu. injection Hu as <- <-. done.
Defined.

(** The receiver's loop panics on a frame exactly when it is a data frame
    whose chunk number is -64 or less: the number is used as an index without a
    lower bound. *)
Theorem receive_turn_panics_iff w s n : w_ses w = Some s ->
  (receive_turn n w = Panic <-> hostile_frame (fs_compression s) (w_stream w)).
Proof.
  intros E. split.
  - intros Hp. destruct (decide (hostile_frame (fs_compression s) (w_stream w))) as [|Hn]; [done|].
    pose proof (receive_turn_wp w s n E Hn) as Hw. unfold wp in Hw. by rewrite Hp in Hw.
  - intros (payload & st' & seq & data & Hr & Hu & Hseq).
    assert (Z.quot seq 64 < 0) as Hq.
    { rewrite <- (Z.opp_involutive seq), Z.quot_opp_l, Z.quot_div_nonneg by lia. Z.div_mod_to_equations; lia. }
    unfold receive_turn, receive_data, bind, io_frameRead. rewrite Hr. cbn -[unpackDataFrame bitmapHas].
    unfold session, deref. cbn -[unpackDataFrame bitmapHas]. rewrite E, Hu.
    unfold lift_outcome, bitmapHas.
    replace (len (fs_bitmap s) <=? Z.quot seq 64) with false by lia.
    by replace (Z.quot seq 64 <? 0) with true by lia.
Qed.

(** Somewhere in the stream there is such a frame. *)
Inductive hostile (c : compression) : stream -> Prop :=
  | hostile_now st : hostile_frame c st -> hostile c st
  | hostile_later st st' x : frameRead st = (inr x, st') -> hostile c st' -> hostile c st.

Lemma hostile_inv c st : hostile c st ->
  hostile_frame c st \/ exists st' x, frameRead st = (inr x, st') /\ hostile c st'.
Proof. destruct 1; [by left|right; eauto]. Qed.

(** Reading looks at the input only. *)
Lemma frameRead_in st st2 : st_in st = st_in st2 ->
  (frameRead st).1 = (frameRead st2).1 /\ st_in (frameRead st).2 = st_in (frameRead st2).2.
Proof.
  assert (forall n a b, st_in a = st_in b ->
    (ReadFull n a).1 = (ReadFull n b).1 /\ st_in (ReadFull n a).2 = st_in (ReadFull n b).2) as Hr.
  { intros n a b E. unfold ReadFull. rewrite E. by case_match. }
  intros E. unfold frameRead.
  destruct (Hr 4 st st2 E) as [H1 H1']. destruct (ReadFull 4 st), (ReadFull 4 st2). cbn in H1, H1'. subst.
  case_match; [done|].
  destruct (Hr 1 _ _ H1') as [H2 H2']. destruct (ReadFull 1 _), (ReadFull 1 _). cbn in H2, H2'. subst.
  case_match; [done|]. case_match; [|done].
  destruct (Hr (be_get l) _ _ H2') as [H3 H3']. destruct (ReadFull _ _), (ReadFull _ _).
  cbn in H3, H3'. subst. by case_match.
Qed.

Lemma hostile_in c st : hostile c st -> forall st2, st_in st = st_in st2 -> hostile c st2.
Proof.
  induction 1 as [st (payload & st' & seq & data & Hr & Hx)|st st' x Hr H IH]; intros st2 Ein;
    destruct (frameRead_in _ _ Ein) as [H1 H2]; rewrite Hr in H1, H2; cbn in H1, H2;
    destruct (frameRead st2) as [r2 st2'] eqn:Er2; cbn in H1, H2; subst r2.
  - apply hostile_now. by exists payload, st2', seq, data.
  - apply (hostile_later c st2 st2' x Er2). by apply IH.
Qed.

Lemma receive_loop_ok fuel n w s : w_ses w = Some s -> ~ hostile (fs_compression s) (w_stream w) ->
  (length (st_in (w_stream w)) < fuel)%nat -> exists w', receive_loop fuel n w = Ok ((), w').
Proof.
  revert n w s. induction fuel as [|fuel IH]; intros n w s E Hh Hf; [lia|].
  cbn [receive_loop]. unfold bind.
  pose proof (receive_turn_wp w s n E ltac:(intros Hx; by apply Hh, hostile_now)) as Hw. unfold wp in Hw.
  destruct (receive_turn n w) as [[r w1]|]; [|done]. destruct r as [n'|]; [|by exists w1].
  destruct Hw as [Hc (x & st & Hr & Hin)]; [done|].
  destruct (w_ses w1) as [s1|] eqn:E1; [|done]. injection Hc as Hc.
  apply (IH n' w1 s1); [done| |].
  - rewrite Hc. intros Hx. apply Hh. apply (hostile_later _ _ st x Hr). by apply (hostile_in _ _ Hx).
  - pose proof (frameRead_consumes _ _ _ Hr). rewrite Hin. lia.
Qed.

(** Whatever else the peer sends, the receiver's loop ends: on every finite
    input without such a chunk number it returns, and does not panic. *)
Theorem receive_loop_returns n w s : w_ses w = Some s ->
  ~ hostile (fs_compression s) (w_stream w) -> exists w', receiveLoop n w = Ok ((), w').
Proof. intros E Hh. apply (receive_loop_ok _ n w s E Hh). cbn. lia. Qed.
End receiver.

(** ** Examples *)

Section examples.
#[local] Existing Instances plain_codec stored_zstd naming_hash.

(** A peer that sends the five bytes of "hello" as [../hi]. *)
Definition example_init : InitMsg := {|
  in_Name := "../hi"; in_Size := 5; in_ChunkSize := chunkSize; in_TotalChunks := 1;
  in_Checksum := "sha256:hello"; in_Offset := 0; in_Compression := "zstd" |}.

Definition example_input : list byte :=
  frame_bytes frameTypeInit (init_marshal example_init) ++
  frame_bytes frameTypeData (packDataFrame 0 (str_bytes "hello") CompZstd) ++
  frame_bytes frameTypeFin (fin_marshal (mkFin 1 "sha256:hello")).

Definition example_world (input : list byte) : world := {|
  w_fs := {[ "recv/hi"%string := [] ]}; w_faults := []; w_stream := mkStream input [] None;
  w_ses := None; w_listed := false |}.

Definition after {A} (m : M world A) (w : world) : world :=
  match m w with Ok (_, w') => w' | Panic => w end.

Definition example_end : world :=
  after (receive_turn 1) (after (receive_turn 0) (after (accept_stream "recv") (example_world example_input))).

Lemma example_end_done :
  w_fs example_end = {[ "recv/hi"%string := str_bytes "hello" ]} /\
  fs_state <$> w_ses example_end = Some SesDone.
Proof. split; vm_compute; reflexivity. Qed.

Lemma example_init_read : read_init (example_world example_input) = Some example_init.
Proof. vm_compute. reflexivity. Qed.


(** The same session, given other input. *)
Definition example_session (input : list byte) : world :=
  after (accept_stream "recv") (example_world (frame_bytes frameTypeInit (init_marshal example_init) ++ input)).

Definition example_hostile : list byte :=
  frame_bytes frameTypeData (packDataFrame (-64) [] CompZstd).

Lemma receive_turn_panics_iff_witness : receive_turn 0 (example_session example_hostile) = Panic.
Proof.
  destruct (w_ses (example_session example_hostile)) as [s|] eqn:E; [|by vm_compute in E].
  apply (receive_turn_panics_iff _ s 0 E).
  assert (fs_compression s = CompZstd) as ->.
  { assert (fs_compression <$> w_ses (example_session example_hostile) = Some CompZstd) as H
      by (vm_compute; reflexivity). rewrite E in H. by injection H. }
  eexists _, _, _, _. split; [vm_compute; reflexivity|]. split; [vm_compute; reflexivity|done].
Defined.

Lemma receive_loop_returns_witness :
  exists w', receiveLoop 0 (example_session (frame_bytes frameTypeCancel [])) = Ok ((), w').
Proof.
  destruct (w_ses (example_session (frame_bytes frameTypeCancel []))) as [s|] eqn:E; [|by vm_compute in E].
  apply (receive_loop_returns 0 _ s E).
  intros H. apply hostile_inv in H as [(? & ? & ? & ? & Hr & _)|(st & x & Hr & H)]; vm_compute in Hr; [done|].
  injection Hr as <- <-. apply hostile_inv in H as [(? & ? & ? & ? & Hr & _)|(st & x & Hr & H)]; by vm_compute in Hr.
Defined.
End examples.
