(* ===== verification/FileTransfer.v ===== *)
(** A whole file transfer (src/p2put/relayfile.go): [SendFile] on one peer and
    [HandleFileStream] on the other, joined by a stream in each direction.

    A read waits until a complete frame has arrived, so each side runs from one
    read to the next; the two sides take their turns in any order.  When nothing
    fails, every run ends with the file in place and [SendFile] returning nil. *)

From Stdlib Require Import Ascii.
From stdpp Require Import gmap strings.
From S2P Require Import Prelude FileFrame FilePath FileRecv FileCodec FileSend FileSafe.

Record transfer := mkTransfer {
  tr_send : sworld;
  tr_recv : world;
  tr_phase : recv_phase;
}.

(** A complete frame has arrived. *)
Definition frame_ready (s : stream) : bool :=
  match (frameRead s).1 with inr _ => true | inl _ => false end.

(** What each side has written is delivered to the other. *)
Definition exchange (x : transfer) : transfer :=
  let a := sw_stream (tr_send x) in
  let b := w_stream (tr_recv x) in
  mkTransfer
    ((tr_send x) <| sw_stream := mkStream (st_in a ++ st_out b) [] (st_room a) |>)
    ((tr_recv x) <| w_stream := mkStream (st_in b ++ st_out a) [] (st_room b) |>)
    (tr_phase x).

Definition running (p : send_phase) : Prop := match p with Sent _ => False | _ => True end.

Section transfer.
Context {Zs : Zstd} {J : FileJson} {Hs : FileHash}.
Context (cfg : send_config) (recvDir : string).

Definition recv_resume (ph : recv_phase) : M world recv_phase :=
  match ph with
  | RecvInit => r <- accept_stream recvDir ;; ret (recv_next r)
  | RecvLoop n => r <- receive_turn n ;; ret (recv_next r)
  | RecvEnd => ret RecvEnd
  end.

Inductive transfer_step (x : transfer) : transfer -> Prop :=
  | step_sender s' :
      running (sw_phase (tr_send x)) -> frame_ready (sw_stream (tr_send x)) = true ->
      send_step cfg (tr_send x) = Ok ((), s') ->
      transfer_step x (exchange (mkTransfer s' (tr_recv x) (tr_phase x)))
  | step_receiver ph' w' :
      tr_phase x <> RecvEnd -> frame_ready (w_stream (tr_recv x)) = true ->
      recv_resume (tr_phase x) (tr_recv x) = Ok (ph', w') ->
      transfer_step x (exchange (mkTransfer (tr_send x) w' ph')).

(** Both sides at their first read: [SendFile] has written its INIT. *)
Definition transfer_start (content : list byte) (reopens : list (option stream))
    (fs : gmap string (list byte)) (x : transfer) : Prop :=
  exists s, send_init cfg 0 (mkSworld content 0 0 (mkStream [] [] None) [] [] reopens WaitAccept) = Ok ((), s) /\
    x = exchange (mkTransfer s (mkWorld fs [] (mkStream [] [] None) None false) RecvInit).

(** The file has been received and both sides have succeeded. *)
Definition transferred (content : list byte) (fs : gmap string (list byte)) (x : transfer) : Prop :=
  let final := save_path recvDir (sc_name cfg) in
  sw_phase (tr_send x) = Sent None /\ tr_phase x = RecvEnd /\
  w_fs (tr_recv x) = <[final := content]> (delete (part_path final) fs) /\
  (exists s, w_ses (tr_recv x) = Some s /\ fs_state s = SesDone) /\ w_listed (tr_recv x) = false.

(** ** One side at a time *)

Lemma not_ready s : st_in s = [] -> frame_ready s = false.
Proof. intros E. unfold frame_ready, frameRead, ReadFull. by rewrite E. Qed.

Lemma inev_receiver P x ph' w' :
  st_in (sw_stream (tr_send x)) = [] -> tr_phase x <> RecvEnd ->
  frame_ready (w_stream (tr_recv x)) = true ->
  recv_resume (tr_phase x) (tr_recv x) = Ok (ph', w') ->
  inevitable transfer_step P (exchange (mkTransfer (tr_send x) w' ph')) ->
  inevitable transfer_step P x.
Proof.
  intros Hin Hph Hr He Hk. apply inev_later; [by eexists; apply step_receiver|].
  intros y Hy. destruct Hy as [s' _ Hr' _|ph w2 _ _ He2]; [by rewrite not_ready in Hr'|].
  rewrite He in He2. by injection He2 as <- <-.
Qed.

Lemma inev_sender P x s' :
  st_in (w_stream (tr_recv x)) = [] -> running (sw_phase (tr_send x)) ->
  frame_ready (sw_stream (tr_send x)) = true -> send_step cfg (tr_send x) = Ok ((), s') ->
  inevitable transfer_step P (exchange (mkTransfer s' (tr_recv x) (tr_phase x))) ->
  inevitable transfer_step P x.
Proof.
  intros Hin Hph Hr He Hk. apply inev_later; [by eexists; apply step_sender|].
  intros y Hy. destruct Hy as [s2 _ _ He2|ph w2 _ Hr' _]; [|by rewrite not_ready in Hr'].
  rewrite He in He2. by injection He2 as <-.
Qed.

(** ** The sender *)

Context `{!ZstdLaws Zs} `{!FileJsonLaws J}.
Context (content : list byte) (fs : gmap string (list byte)).
Context (Hsize : len content < 2 ^ 62).

Definition total : Z := total_chunks (len content).
Definition chunk (i : Z) : list byte := takeZ chunkSize (dropZ (i * chunkSize) content).
Definition prefix (k : Z) : list byte := takeZ (k * chunkSize) content.
#[local] Strategy expand [chunk prefix].
#[local] Strategy opaque [Z.to_nat].
Definition checksum : string := "sha256:" +:+ sha256_hex content.

Definition data_frame (i : Z) : list byte :=
  frame_bytes frameTypeData (packDataFrame i (chunk i) (sc_compression cfg)).

(** The frames of the chunks from [i] on, [n] of them. *)
Fixpoint data_frames (n : nat) (i : Z) : list byte :=
  match n with O => [] | S n => data_frame i ++ data_frames n (i + 1) end.

Definition sender_is (w : sworld) (ph : send_phase) (seq : Z) (input output : list byte) : Prop :=
  sw_content w = content /\ sw_faults w = [] /\ sw_cancel w = [] /\
  sw_stream w = mkStream input output None /\ sw_seq w = seq /\ sw_phase w = ph.

Lemma total_spec : 0 <= total /\ (total - 1) * chunkSize < len content <= total * chunkSize.
Proof. unfold total, total_chunks, chunkSize. case_match; mlia. Qed.

Lemma total_bound : 0 <= total < 2 ^ 47.
Proof. pose proof total_spec. unfold chunkSize in *. lia. Qed.

Lemma chunk_length i : 0 <= i < total -> 0 < len (chunk i) <= chunkSize.
Proof.
  intros H. pose proof total_spec. unfold chunk, takeZ, dropZ, chunkSize in *.
  rewrite length_take, length_drop. nia.
Qed.

Lemma prefix_snoc k : 0 <= k -> prefix (k + 1) = prefix k ++ chunk k.
Proof.
  intros H. unfold prefix, chunk, takeZ, dropZ, chunkSize.
  replace (Z.to_nat ((k + 1) * 65536)) with (Z.to_nat (k * 65536) + Z.to_nat 65536)%nat by lia.
  by rewrite take_take_drop.
Qed.

Lemma prefix_total : prefix total = content.
Proof. unfold prefix, takeZ. apply take_ge. pose proof total_spec. lia. Qed.

Lemma prefix_length k : 0 <= k <= total -> len (prefix k) = Z.min (k * chunkSize) (len content).
Proof. intros H. unfold prefix, takeZ, chunkSize. rewrite length_take. lia. Qed.

Lemma chunk_full i : 0 <= i -> i + 1 < total -> len (chunk i) = chunkSize.
Proof.
  intros H H1. pose proof total_spec. unfold chunk, takeZ, dropZ, chunkSize in *.
  rewrite length_take, length_drop. nia.
Qed.

Lemma sw_write_wp typ payload w i o Q : sw_stream w = mkStream i o None ->
  Q None (w <| sw_stream := mkStream i (o ++ frame_bytes typ payload) None |>) ->
  wp (sw_frameWrite typ payload) Q w.
Proof.
  intros E HQ. unfold wp, sw_frameWrite. rewrite frameWrite_bytes by (by rewrite E). by rewrite E.
Qed.

Lemma sw_read_wp {A} typ (unm : list byte -> A * bool) payload v w o Q :
  is_u8 typ -> typ <> frameTypeError -> typ <> frameTypeCancel -> len payload < 2 ^ 32 ->
  unm payload = (v, true) -> sw_stream w = mkStream (frame_bytes typ payload) o None ->
  Q (inr v) (w <| sw_stream := mkStream [] o None |>) -> wp (sw_readJSONFrame typ unm) Q w.
Proof.
  intros Ht He Hc Hl Hu E HQ. unfold wp, sw_readJSONFrame, readJSONFrame.
  rewrite (frameRead_bytes typ payload []) by (by rewrite ?E, ?app_nil_r).
  replace (typ =? frameTypeError) with false by lia. replace (typ =? frameTypeCancel) with false by lia.
  rewrite Z.eqb_refl, Hu. cbn [negb]. by rewrite E.
Qed.

Lemma file_read_wp w i Q : sw_content w = content -> sw_pos w = i * chunkSize ->
  Q (chunk i) (w <| sw_pos := i * chunkSize + len (chunk i) |>) -> wp file_read Q w.
Proof.
  intros Hc Hp HQ. unfold wp, file_read, bind, get, modify, ret. unfold chunk in HQ.
  rewrite <- Hp, <- Hc in HQ. exact HQ.
Qed.

Lemma pop_wp {A} (dflt : A) get_list set_list Q w : get_list w = [] -> Q dflt w ->
  wp (pop dflt get_list set_list) Q w.
Proof. intros E HQ. unfold wp, pop, bind, gets. by rewrite E. Qed.

Lemma send_batch_wp more w ph seq i o :
  sender_is w ph seq i o -> 0 <= seq -> seq + Z.of_nat more <= total ->
  (seq < total -> sw_pos w = seq * chunkSize) ->
  wp (send_batch cfg more) (fun b w' => b = true /\
    sender_is w' ph (seq + Z.of_nat more) i (o ++ data_frames more seq)) w.
Proof.
  revert w seq o. induction more as [|more IH]; intros w seq o Hw Hge0 Ht Hpos.
  { apply wp_ret. rewrite Z.add_0_r. by rewrite app_nil_r. }
  destruct Hw as (Hc & Hf & Hca & Hst & Hseq & Hph). cbn [send_batch].
  apply wp_bind, pop_wp; [done|]. apply wp_bind. apply (file_read_wp _ seq); [done|by apply Hpos; lia|].
  pose proof (chunk_length seq ltac:(lia)) as Hlen.
  replace (len (chunk seq) =? 0) with false by lia. cbv beta iota.
  apply wp_bind, wp_get. cbn [sw_seq sw_stream set_field]. apply wp_bind.
  eapply (sw_write_wp _ _ _ i o); [exact Hst|]. apply wp_bind, wp_modify.
  eapply wp_mono; [apply (IH _ (seq + 1) (o ++ data_frame seq))|].
  - unfold sender_is, data_frame. cbn -[frame_bytes]. rewrite Hseq. by split_and!.
  - lia.
  - lia.
  - intros Hlt. cbn [sw_pos set_field]. rewrite chunk_full by lia. unfold chunkSize. lia.
  - intros b w' [-> Hw']. split; [done|]. cbn [data_frames]. rewrite app_assoc.
    by replace (seq + Z.of_nat (S more)) with (seq + 1 + Z.of_nat more) by lia.
Qed.

Definition batch_end (a : Z) : Z := Z.min (a + ackBatch) total.

Definition fin_frame : list byte := frame_bytes frameTypeFin (fin_marshal (mkFin total checksum)).

(** The sender, having been told that the chunks below [a] have arrived. *)
Definition batch_sent (a : Z) (w : sworld) : Prop :=
  if a <? total
  then sender_is w WaitAck (batch_end a) [] (data_frames (Z.to_nat (batch_end a - a)) a)
  else sender_is w WaitDone a [] fin_frame.

Lemma next_batch_wp w ph a : sender_is w ph a [] [] -> 0 <= a <= total ->
  (a < total -> sw_pos w = a * chunkSize) -> wp (next_batch cfg) (fun _ => batch_sent a) w.
Proof.
  intros Hw Ha Hpos. unfold batch_sent. pose proof Hw as (Hc & Hf & Hca & Hst & Hseq & Hph).
  apply wp_bind, wp_get. cbv zeta. rewrite Hc, Hseq. fold total. destruct (Z.ltb_spec a total) as [Hlt|Hge].
  - apply wp_bind, pop_wp; [done|]. apply wp_bind. fold (batch_end a).
    assert (a + Z.of_nat (Z.to_nat (batch_end a - a)) = batch_end a) as He by (unfold batch_end, ackBatch; lia).
    eapply wp_mono; [apply (send_batch_wp _ _ ph a [] []); [done|lia| |done]|].
    { rewrite He. unfold batch_end. lia. }
    intros b w' [-> Hw']. rewrite He in Hw'. apply wp_modify. cbn [app] in Hw'.
    destruct Hw' as (? & ? & ? & ? & ? & _). by repeat split.
  - apply wp_bind. eapply sw_write_wp; [exact Hst|]. apply wp_modify. by repeat split.
Qed.

Lemma seek_chunk_wp n w Q : 0 <= n <= total -> Q () (w <| sw_pos := n * chunkSize |>) ->
  wp (seek_chunk n) Q w.
Proof.
  intros Hn HQ. unfold seek_chunk. pose proof total_bound. rewrite int64_small by (unfold is_i64, chunkSize; lia).
  unfold when. replace (0 <=? n * chunkSize) with true by (unfold chunkSize; lia). done.
Qed.

Definition accept_frame (n : Z) : list byte := frame_bytes frameTypeAccept (accept_marshal n).
Definition ack_frame (n : Z) : list byte := frame_bytes frameTypeAck (ack_marshal n).
Definition done_frame : list byte := frame_bytes frameTypeDone (done_marshal true).

Lemma send_accept_wp w q : sender_is w WaitAccept q (accept_frame 0) [] ->
  wp (send_step cfg) (fun _ => batch_sent 0) w.
Proof.
  intros (Hc & Hf & Hca & Hst & Hseq & Hph). apply wp_bind, wp_get. rewrite Hph.
  destruct (accept_round 0 ltac:(unfold is_i64; lia)) as [Hu Hl]. pose proof total_bound.
  apply wp_bind. eapply sw_read_wp; [done|done|done|exact Hl|exact Hu|exact Hst|].
  apply wp_bind, seek_chunk_wp; [lia|]. apply wp_bind, wp_modify.
  apply (next_batch_wp _ WaitAccept); [by split_and!|lia|]. done.
Qed.

Lemma send_ack_wp w q e : 0 <= e <= total -> sender_is w WaitAck q (ack_frame (e - 1)) [] ->
  wp (send_step cfg) (fun _ => batch_sent e) w.
Proof.
  intros He (Hc & Hf & Hca & Hst & Hseq & Hph). apply wp_bind, wp_get. rewrite Hph.
  pose proof total_bound. destruct (ack_round (e - 1) ltac:(unfold is_i64; lia)) as [Hu Hl].
  apply wp_bind. eapply sw_read_wp; [done|done|done|exact Hl|exact Hu|exact Hst|].
  apply wp_bind, wp_modify. apply wp_bind, wp_get. cbn [sw_seq set_field].
  replace (int64 (e - 1 + 1)) with e by (rewrite int64_small; unfold is_i64; lia).
  apply wp_bind, seek_chunk_wp; [lia|].
  apply (next_batch_wp _ WaitAck); [by split_and!|lia|]. done.
Qed.

Lemma send_done_wp w q : sender_is w WaitDone q done_frame [] ->
  wp (send_step cfg) (fun _ w' => sender_is w' (Sent None) q [] []) w.
Proof.
  intros (Hc & Hf & Hca & Hst & Hseq & Hph). apply wp_bind, wp_get. rewrite Hph.
  destruct (done_round true) as [Hu Hl].
  apply wp_bind. eapply sw_read_wp; [done|done|done|exact Hl|exact Hu|exact Hst|].
  apply wp_modify. by split_and!.
Qed.

(** ** The receiver *)

Definition final : string := save_path recvDir (sc_name cfg).

Definition session_at (s : fileSession) (k : Z) : Prop :=
  fs_savePath s = final /\ fs_tmpPath s = part_path final /\ fs_totalChunks s = total /\
  fs_checksum s = checksum /\ fs_compression s = sc_compression cfg /\ fs_state s = SesTransfer /\
  fs_tmpFile s = Some (len (prefix k)) /\ total <= 64 * len (fs_bitmap s) /\
  forall i, chunk_in (fs_bitmap s) i <-> 0 <= i < k.

Definition receiver_is (w : world) (k : Z) (input output : list byte) : Prop :=
  w_faults w = [] /\ w_stream w = mkStream input output None /\ w_listed w = true /\
  w_fs w = <[part_path final := prefix k]> fs /\
  exists s, w_ses w = Some s /\ session_at s k.

Lemma io_write_wp typ payload w i o Q : w_stream w = mkStream i o None ->
  Q None (w <| w_stream := mkStream i (o ++ frame_bytes typ payload) None |>) ->
  wp (io_frameWrite typ payload) Q w.
Proof.
  intros E HQ. unfold wp, io_frameWrite. rewrite frameWrite_bytes by (by rewrite E). by rewrite E.
Qed.

Lemma io_read_wp typ payload rest w o Q : is_u8 typ -> len payload < 2 ^ 32 ->
  w_stream w = mkStream (frame_bytes typ payload ++ rest) o None ->
  Q (inr (typ, payload)) (w <| w_stream := mkStream rest o None |>) -> wp io_frameRead Q w.
Proof.
  intros Ht Hl E HQ. unfold wp, io_frameRead.
  rewrite (frameRead_bytes typ payload rest) by (by rewrite ?E). by rewrite E.
Qed.

Lemma next_fault_wp w Q : w_faults w = [] -> Q None w -> wp next_fault Q w.
Proof. intros E HQ. unfold wp, next_fault, bind, gets. by rewrite E. Qed.

Lemma fault_wp w Q : w_faults w = [] -> Q false w -> wp fault Q w.
Proof. intros E HQ. apply wp_bind, next_fault_wp; [done|]. by apply wp_ret. Qed.

Lemma lift_wp {A} (o : outcome A) a w Q : o = Ok a -> Q a w -> wp (lift_outcome o) Q w.
Proof. intros -> HQ. done. Qed.

Lemma session_wp s w Q : w_ses w = Some s -> Q s w -> wp session Q w.
Proof. intros E HQ. by apply (wp_deref _ _ _ s). Qed.

Lemma set_ses_wp f s w Q : w_ses w = Some s -> Q () (w <| w_ses := Some (f s) |>) -> wp (set_ses f) Q w.
Proof. intros E HQ. apply wp_bind, (session_wp s); [done|]. by apply wp_modify. Qed.

Lemma write_at_end data l : write_at (len l) data l = l ++ data.
Proof.
  unfold write_at, takeZ, dropZ. rewrite Nat2Z.id, firstn_all, Z.sub_diag. cbn [replicate Z.to_nat app].
  rewrite drop_ge by lia. by rewrite app_nil_r.
Qed.

(** A number's worth of chunks recorded: the acknowledgment number. *)
Lemma maxContinuous_prefix bitmap k : 0 <= k <= total -> (forall i, chunk_in bitmap i <-> 0 <= i < k) ->
  bitmapMaxContinuous bitmap total = Ok k.
Proof.
  intros Hk Hb. destruct (maxContinuous_spec bitmap total ltac:(lia)) as (n & -> & Hn & Hin & Hout).
  f_equal. destruct (Z.lt_trichotomy n k) as [Hlt|[->|Hgt]]; [|done|].
  - destruct (Hout ltac:(lia)). apply Hb. lia.
  - assert (0 <= k < k) by (apply Hb, Hin; lia). lia.
Qed.

Lemma tmpFile_Write_wp s k w Q : w_faults w = [] -> w_ses w = Some s -> session_at s k -> 0 <= k ->
  w_fs w = <[part_path final := prefix k]> fs ->
  Q true (w <| w_fs := <[part_path final := prefix (k + 1)]> fs |>
            <| w_ses := Some (s <| fs_tmpFile := Some (len (prefix (k + 1))) |>) |>) ->
  wp (tmpFile_Write (chunk k)) Q w.
Proof.
  intros Hf E Hat Hk Hfs HQ. destruct Hat as (_ & Htmp & _ & _ & _ & _ & Hpos & _).
  apply wp_bind, (session_wp s); [done|]. rewrite Hpos. apply wp_bind, next_fault_wp; [done|].
  apply wp_bind, wp_gets. rewrite Hfs, Htmp, lookup_insert_eq. cbn [from_option id].
  rewrite write_at_end, <- prefix_snoc by lia. apply wp_bind, wp_modify. rewrite Hfs, insert_insert_eq.
  apply wp_bind, (set_ses_wp _ s); [done|]. apply wp_ret.
  rewrite prefix_snoc in * by lia. rewrite length_app in *.
  rewrite Nat2Z.inj_add in HQ. exact HQ.
Qed.

Definition acks (a k : Z) : bool := (ackBatch <=? k - a) || (total <=? k).

Lemma pack_length k : 0 <= k < total -> len (packDataFrame k (chunk k) (sc_compression cfg)) < 2 ^ 32.
Proof.
  intros Hk. pose proof (chunk_length k Hk) as Hl. unfold chunkSize in Hl. unfold packDataFrame, zstdCompressBlock.
  destruct (sc_compression cfg); rewrite ?length_app, !length_be_put; [|lia].
  replace (len (chunk k) =? 0) with false by lia.
  destruct (zstd_encode (chunk k)) as [enc|] eqn:He; cbn [from_option id length]; [|lia].
  pose proof (zstd_bound _ _ He). lia.
Qed.

(** What a session becomes when a chunk has been written and recorded. *)
Lemma session_next s k bitmap done : session_at s k -> 0 <= k < total ->
  length bitmap = length (fs_bitmap s) ->
  (forall x, chunk_in bitmap x <-> x = k \/ chunk_in (fs_bitmap s) x) ->
  session_at (s <| fs_tmpFile := Some (len (prefix (k + 1))) |> <| fs_bitmap := bitmap |>
                <| fs_doneBytes := done |>) (k + 1).
Proof.
  intros (? & ? & ? & ? & ? & ? & ? & ? & Hb) Hk Hlen Hin. unfold session_at. cbn -[prefix].
  split_and!; try done; [by rewrite Hlen|]. intros i. rewrite Hin, Hb. lia.
Qed.

Lemma recv_data_wp w a k rest : receiver_is w k (data_frame k ++ rest) [] -> 0 <= a <= k -> k < total ->
  wp (receive_turn a) (fun r w' =>
    r = Some (if acks a (k + 1) then k + 1 else a) /\
    receiver_is w' (k + 1) rest (if acks a (k + 1) then ack_frame k else [])) w.
Proof.
  intros (Hf & Hst & Hli & Hfs & s & E & Hat) Ha Hk. pose proof total_bound.
  apply wp_bind. apply (io_read_wp frameTypeData (packDataFrame k (chunk k) (sc_compression cfg)) rest _ []); [done|apply pack_length; lia|exact Hst|].
  change ((frameTypeData =? frameTypeCancel) || (frameTypeData =? frameTypeError)) with false.
  change (frameTypeData =? frameTypeData) with true. cbv iota.
  apply wp_bind, (session_wp s); [done|].
  pose proof Hat as (_ & _ & Htot & _ & -> & _ & _ & Hroom & Hb).
  pose proof (chunk_length k ltac:(lia)) as Hlen. unfold chunkSize in Hlen.
  rewrite unpack_pack by lia. apply wp_bind.
  destruct (bitmapHas_spec (fs_bitmap s) k ltac:(lia)) as (b & Hhas & Hbk).
  assert (b = false) as -> by (destruct b; [|done]; assert (0 <= k < k) by (apply Hb, Hbk; done); lia).
  apply (lift_wp _ false); [done|]. apply wp_bind, wp_bind.
  apply (tmpFile_Write_wp s k); [done|done|done|lia|done|]. cbn [negb].
  destruct (bitmapSet_spec (fs_bitmap s) k ltac:(lia)) as (bitmap & Hset & Hlb & Hin).
  apply wp_bind, (lift_wp _ bitmap); [done|]. apply wp_bind. eapply set_ses_wp; [done|].
  apply wp_ret. cbn [negb].
  match goal with |- wp _ _ (_ <| w_ses := Some ?s1 |>) => set (s' := s1) end.
  assert (session_at s' (k + 1)) as Hat' by (apply session_next; [done|lia|done|done]). clearbody s'.
  apply wp_bind, (session_wp s'); [done|]. pose proof Hat' as (_ & _ & Htot' & _ & _ & _ & _ & _ & Hb').
  apply wp_bind, (lift_wp _ (k + 1)); [rewrite Htot'; by apply maxContinuous_prefix; [lia|]|].
  rewrite Htot'. fold (acks a (k + 1)). replace (a <? k + 1) with true by lia. rewrite andb_true_r.
  destruct (acks a (k + 1)).
  - apply wp_bind. eapply io_write_wp; [done|]. apply wp_ret. split; [done|].
    replace (k + 1 - 1) with k by lia. split_and!; try done. by exists s'.
  - apply wp_ret. split; [done|]. split_and!; try done. by exists s'.
Qed.

Context (Hname : json_plain (sc_name cfg)) (Hsum : json_plain checksum)
  (Hcomp : json_plain (compression_name (sc_compression cfg))).

Definition init_msg : InitMsg := sender_init cfg content 0.
Definition init_frame : list byte := frame_bytes frameTypeInit (init_marshal init_msg).

Lemma chunk_in_zeros n i : ~ chunk_in (replicate n 0) i.
Proof.
  intros [_ H]. assert (forall m, nth m (replicate n 0) 0 = 0) as Hz.
  { clear. induction n as [|n IH]; intros [|m]; cbn; auto. }
  by rewrite Hz, Z.bits_0 in H.
Qed.

Lemma make_bitmap_total : exists n, make_bitmap total = Ok (replicate n 0) /\ total <= 64 * Z.of_nat n.
Proof.
  pose proof total_bound. unfold make_bitmap. destruct (Z.ltb_spec 0 total); [|exists 0%nat; split; [done|lia]].
  rewrite int64_small by (unfold is_i64; lia). rewrite Z.quot_div_nonneg by lia. unfold max_words.
  replace (_ || _) with false by mlia. eexists. split; [done|]. mlia.
Qed.

Lemma recv_accept_wp w : w = mkWorld fs [] (mkStream init_frame [] None) None false ->
  wp (accept_stream recvDir) (fun r w' => r = Some 0 /\ receiver_is w' 0 [] (accept_frame 0)) w.
Proof.
  intros ->. pose proof total_bound as Hb. pose proof total_spec as [Hb0 _]. apply wp_bind.
  assert (is_i64 (len content)) by (unfold is_i64; lia). assert (is_i64 total) by (unfold is_i64; lia).
  destruct (init_round init_msg Hname Hsum Hcomp) as [Hu Hl]; [done..|].
  unfold wp at 1, io_readJSONFrame, readJSONFrame.
  rewrite (frameRead_bytes frameTypeInit (init_marshal init_msg) []); [|done|done|by rewrite app_nil_r].
  cbn [Z.eqb frameTypeInit frameTypeError frameTypeCancel negb]. rewrite Hu. cbn [w_stream set_field].
  apply wp_bind, fault_wp; [done|]. apply wp_bind.
  destruct make_bitmap_total as (n & Hm & Hn).
  apply wp_bind, (lift_wp _ (replicate n 0)); [exact Hm|].
  apply wp_bind, wp_ret. apply wp_bind, wp_bind, fault_wp; [done|]. apply wp_bind, wp_modify, wp_ret, wp_ret.
  apply wp_bind, (lift_wp _ 0).
  { apply (maxContinuous_prefix (replicate n 0) 0); [lia|]. intros i. split; [by intros ?%chunk_in_zeros|lia]. }
  cbv zeta. change (if 0 <? 0 then 0 else 0) with 0.
  apply wp_bind. eapply io_write_wp; [done|]. apply wp_bind, wp_modify, wp_ret. split; [done|].
  split_and!; try done. eexists. split; [done|]. unfold session_at. cbn -[prefix].
  split_and!; try done.
  - by destruct (sc_compression cfg).
  - by rewrite length_replicate.
  - intros i. split; [by intros ?%chunk_in_zeros|lia].
Qed.

Lemma verify_checksum w Q : w_faults w = [] -> w_fs w !! part_path final = Some content -> Q true w ->
  wp (verifyFileHash (part_path final) checksum) Q w.
Proof.
  intros Hf Hc HQ. unfold verifyFileHash.
  assert (String.prefix "sha256:" checksum = true) as -> by (unfold checksum; by destruct (sha256_hex content)).
  cbn [negb].
  apply wp_bind, wp_bind, fault_wp; [done|]. apply wp_gets. rewrite Hc.
  apply wp_bind, fault_wp; [done|]. apply wp_ret. rewrite bool_decide_eq_true_2; [done|].
  unfold checksum. generalize (sha256_hex content) as x. intros x.
  transitivity (String.substring 0 (String.length x - 0) x); [|reflexivity].
  rewrite <- (substring_split 0 x) at 1. by destruct x.
Qed.

(** The end of the transfer on the receiver. *)
Definition received (w : world) : Prop :=
  w_stream w = mkStream [] done_frame None /\ w_listed w = false /\
  w_fs w = <[final := content]> (delete (part_path final) fs) /\
  exists s, w_ses w = Some s /\ fs_state s = SesDone.

Lemma recv_fin_wp w n : receiver_is w total fin_frame [] ->
  wp (receive_turn n) (fun r w' => r = None /\ received w') w.
Proof.
  intros (Hf & Hst & Hli & Hfs & s & E & Hat). pose proof total_bound.
  pose proof Hat as (Hsv & Htm & Htot & Hck & _ & _ & _ & _ & _).
  destruct (fin_round (mkFin total checksum)) as [Hu Hl]; [done|unfold is_i64; cbn; lia|].
  apply wp_bind. apply (io_read_wp frameTypeFin (fin_marshal (mkFin total checksum)) [] _ []);
    [done|done|by rewrite app_nil_r|].
  change ((frameTypeFin =? frameTypeCancel) || (frameTypeFin =? frameTypeError)) with false.
  change (frameTypeFin =? frameTypeData) with false. change (frameTypeFin =? frameTypeFin) with true. cbv iota.
  apply wp_bind, wp_bind, (session_wp s); [done|]. cbv zeta. rewrite Hu, Hck. cbn [fst fin_Checksum].
  rewrite bool_decide_eq_true_2 by done. cbn [negb].
  apply wp_bind, (set_ses_wp _ s); [done|]. rewrite Htm, Hsv.
  rewrite prefix_total in Hfs. apply wp_bind, verify_checksum; [done| |].
  { cbn. rewrite Hfs. apply lookup_insert_eq. }
  cbn [negb]. apply wp_bind, wp_bind, fault_wp; [done|]. apply wp_bind, wp_gets. cbn -[final part_path checksum].
  rewrite Hfs, lookup_insert_eq. apply wp_bind, wp_modify, wp_ret. cbn [negb].
  apply wp_bind. eapply set_ses_wp; [done|]. apply wp_bind. eapply io_write_wp; [done|].
  apply wp_modify, wp_ret. split; [done|]. split_and!; [done|done| |by eexists].
  cbn -[final part_path]. rewrite Hfs. by rewrite delete_insert_eq.
Qed.

(** ** Both sides *)

Lemma ready typ payload rest s : is_u8 typ -> len payload < 2 ^ 32 ->
  st_in s = frame_bytes typ payload ++ rest -> frame_ready s = true.
Proof. intros Ht Hl E. unfold frame_ready. by rewrite (frameRead_bytes typ payload rest). Qed.

Lemma exchange_sender s w p ph q i o i' o' : sender_is s ph q i o -> w_stream w = mkStream i' o' None ->
  sender_is (tr_send (exchange (mkTransfer s w p))) ph q (i ++ o') [].
Proof. intros (? & ? & ? & Es & ? & ?) E. unfold sender_is. cbn. rewrite Es, E. by split_and!. Qed.

Lemma exchange_receiver s w p ph q i o k i' o' : sender_is s ph q i o -> receiver_is w k i' o' ->
  receiver_is (tr_recv (exchange (mkTransfer s w p))) k (i' ++ o) [].
Proof.
  intros (_ & _ & _ & Es & _) (? & E & ? & ? & ?). unfold receiver_is. cbn -[prefix]. rewrite Es, E. by split_and!.
Qed.

Lemma receiver_stream w k i o : receiver_is w k i o -> w_stream w = mkStream i o None.
Proof. by intros (_ & ? & _). Qed.
Lemma sender_stream w ph q i o : sender_is w ph q i o -> sw_stream w = mkStream i o None.
Proof. by intros (_ & _ & _ & ? & _). Qed.

Abbreviation Inev := (inevitable transfer_step (transferred content fs)).

Lemma inev_done x q : sender_is (tr_send x) WaitDone q done_frame [] -> tr_phase x = RecvEnd ->
  w_stream (tr_recv x) = mkStream [] [] None -> w_listed (tr_recv x) = false ->
  w_fs (tr_recv x) = <[final := content]> (delete (part_path final) fs) ->
  (exists s, w_ses (tr_recv x) = Some s /\ fs_state s = SesDone) -> Inev x.
Proof.
  intros Hx Hp Hst Hl Hfs Hse. destruct (done_round true) as [_ Hlen].
  destruct (wp_inv _ _ _ (send_done_wp _ _ Hx)) as ([] & s' & He & Hs').
  apply (inev_sender _ x s'); [by rewrite Hst|by destruct Hx as (_ & _ & _ & _ & _ & ->)| |done|].
  - apply (ready frameTypeDone (done_marshal true) []); [done|done|].
    rewrite (sender_stream _ _ _ _ _ Hx). cbn. by rewrite app_nil_r.
  - apply inev_now. split_and!; try done. apply Hs'.
Qed.

Lemma inev_fin x q n : sender_is (tr_send x) WaitDone q [] [] -> receiver_is (tr_recv x) total fin_frame [] ->
  tr_phase x = RecvLoop n -> Inev x.
Proof.
  intros Hx Hr Hp. pose proof total_bound.
  destruct (fin_round (mkFin total checksum)) as [_ Hlen]; [done|unfold is_i64; cbn; lia|].
  destruct (wp_inv _ _ _ (recv_fin_wp _ n Hr)) as (r & w' & He & -> & Hst & Hl & Hfs & Hse).
  apply (inev_receiver _ x RecvEnd w').
  - by rewrite (sender_stream _ _ _ _ _ Hx).
  - by rewrite Hp.
  - apply (ready frameTypeFin (fin_marshal (mkFin total checksum)) []); [done|done|].
    rewrite (receiver_stream _ _ _ _ Hr). cbn. by rewrite app_nil_r.
  - rewrite Hp. unfold recv_resume, bind. by rewrite He.
  - apply (inev_done _ q); try done.
    + apply (exchange_sender _ _ _ _ _ _ _ _ _ Hx Hst).
    + cbn. by rewrite Hst, (sender_stream _ _ _ _ _ Hx).
Qed.

Lemma inev_data x a k q n : 0 <= a <= k -> n = Z.to_nat (batch_end a - k) -> k < batch_end a ->
  sender_is (tr_send x) WaitAck q [] [] -> receiver_is (tr_recv x) k (data_frames n k) [] ->
  tr_phase x = RecvLoop a ->
  (forall y, sender_is (tr_send y) WaitAck q (ack_frame (batch_end a - 1)) [] ->
     receiver_is (tr_recv y) (batch_end a) [] [] -> tr_phase y = RecvLoop (batch_end a) -> Inev y) ->
  Inev x.
Proof.
  revert x k. induction n as [|n IH]; intros x k Ha Hn Hk Hx Hr Hp Hnext; [lia|]. cbn [data_frames] in Hr.
  assert (k < total) as Hkt by (unfold batch_end in *; lia).
  destruct (wp_inv _ _ _ (recv_data_wp _ a k _ Hr Ha Hkt)) as (r & w' & He & -> & Hw').
  apply (inev_receiver _ x (RecvLoop (if acks a (k + 1) then k + 1 else a)) w').
  - by rewrite (sender_stream _ _ _ _ _ Hx).
  - by rewrite Hp.
  - eapply (ready frameTypeData); [done|apply (pack_length k); lia|].
    by rewrite (receiver_stream _ _ _ _ Hr).
  - rewrite Hp. unfold recv_resume, bind. by rewrite He.
  - pose proof (exchange_sender _ _ (RecvLoop (if acks a (k + 1) then k + 1 else a)) _ _ _ _ _ _ Hx
      (receiver_stream _ _ _ _ Hw')) as Hx'.
    pose proof (exchange_receiver _ _ (RecvLoop (if acks a (k + 1) then k + 1 else a)) _ _ _ _ _ _ _ Hx Hw') as Hr'.
    rewrite app_nil_r in Hr'. cbn [app] in Hx'.
    destruct (acks a (k + 1)) eqn:Eacks; unfold acks, batch_end, ackBatch in *.
    + assert (k + 1 = Z.min (a + 8) total /\ k = Z.min (a + 8) total - 1 /\ n = 0%nat) as (Ee & Ek & ->) by lia.
      rewrite Ee in Hx', Hr' |- *. rewrite Ek in Hx'. by apply Hnext.
    + by apply (IH _ (k + 1)); [lia|lia|lia|..].
Qed.

Lemma inev_batch x a : 0 <= a <= total -> receiver_is (tr_recv x) a [] [] -> tr_phase x = RecvLoop a ->
  frame_ready (sw_stream (tr_send x)) = true -> running (sw_phase (tr_send x)) ->
  wp (send_step cfg) (fun _ => batch_sent a) (tr_send x) -> Inev x.
Proof.
  remember (Z.to_nat (total - a)) as m eqn:Hm. revert a Hm x.
  induction m as [m IH] using lt_wf_ind. intros a Hm x Ha Hr Hp Hready Hrun Hwp.
  destruct (wp_inv _ _ _ Hwp) as ([] & s' & He & Hs').
  apply (inev_sender _ x s'); [by rewrite (receiver_stream _ _ _ _ Hr)|done|done|done|].
  unfold batch_sent in Hs'. destruct (Z.ltb_spec a total) as [Hlt|Hge].
  - apply (inev_data _ a a (batch_end a) (Z.to_nat (batch_end a - a))).
    + lia.
    + done.
    + unfold batch_end, ackBatch. lia.
    + apply (exchange_sender _ _ _ _ _ _ _ _ _ Hs' (receiver_stream _ _ _ _ Hr)).
    + apply (exchange_receiver _ _ _ _ _ _ _ _ _ _ Hs' Hr).
    + done.
    + intros y Hy Hry Hpy. assert (a < batch_end a <= total) as He' by (unfold batch_end, ackBatch; lia).
      pose proof total_bound. destruct (ack_round (batch_end a - 1)) as [_ Hl]; [unfold is_i64; lia|].
      apply (IH (Z.to_nat (total - batch_end a)) ltac:(lia) (batch_end a) eq_refl y); [lia|done|done| | |].
      * apply (ready frameTypeAck (ack_marshal (batch_end a - 1)) []); [done|done|].
        rewrite (sender_stream _ _ _ _ _ Hy). cbn. by rewrite app_nil_r.
      * by destruct Hy as (_ & _ & _ & _ & _ & ->).
      * apply (send_ack_wp _ (batch_end a)); [lia|done].
  - assert (a = total) as -> by lia. apply (inev_fin _ total total).
    + apply (exchange_sender _ _ _ _ _ _ _ _ _ Hs' (receiver_stream _ _ _ _ Hr)).
    + apply (exchange_receiver _ _ _ _ _ _ _ _ _ _ Hs' Hr).
    + done.
Qed.

(** C5: A file transfer in which nothing fails always completes: whatever the
    order in which the two sides run, every run ends, and it ends with
    [SendFile] returning nil and the receiver's file holding exactly the bytes
    sent, whatever files were there before; no run panics or gets stuck. *)
Theorem file_transfer_completes reopens x :
  transfer_start content reopens fs x -> inevitable transfer_step (transferred content fs) x.
Proof.
  intros (s & He & ->). pose proof total_bound. pose proof total_spec.
  assert (is_i64 (len content)) by (unfold is_i64; lia). assert (is_i64 total) by (unfold is_i64; lia).
  destruct (init_round init_msg Hname Hsum Hcomp) as [_ Hl]; [done..|].
  destruct (accept_round 0) as [_ Hl']; [done|].
  assert (sender_is s WaitAccept 0 [] init_frame) as Hs'.
  { apply (wp_run _ (fun _ w => sender_is w WaitAccept 0 [] init_frame) _ _ _ He).
    apply wp_bind, wp_get, wp_bind. eapply sw_write_wp; [done|]. apply wp_modify. by split_and!. }
  destruct (wp_inv _ _ _ (recv_accept_wp _ eq_refl)) as (r & w' & Hr & -> & Hw').
  apply (inev_receiver _ _ (RecvLoop 0) w'); cbn [tr_send tr_recv tr_phase exchange w_stream sw_stream set_field].
  - by rewrite (sender_stream _ _ _ _ _ Hs').
  - done.
  - apply (ready frameTypeInit (init_marshal init_msg) []); [done|done|].
    rewrite (sender_stream _ _ _ _ _ Hs'). cbn. by rewrite app_nil_r.
  - rewrite (sender_stream _ _ _ _ _ Hs'). cbn [st_in st_out st_room app].
    change (recv_resume RecvInit (mkWorld fs [] (mkStream init_frame [] None) None false) = Ok (RecvLoop 0, w')).
    unfold recv_resume, bind. by rewrite Hr.
  - set (s1 := s <| sw_stream := _ |>).
    assert (sender_is s1 WaitAccept 0 [] []) as Hs1.
    { destruct Hs' as (? & ? & ? & Hst & ? & ?). unfold sender_is, s1. cbn. rewrite Hst. by split_and!. }
    clearbody s1.
    pose proof (exchange_sender _ _ (RecvLoop 0) _ _ _ _ _ _ Hs1 (receiver_stream _ _ _ _ Hw')) as Hx.
    pose proof (exchange_receiver _ _ (RecvLoop 0) _ _ _ _ _ _ _ Hs1 Hw') as Hy.
    apply (inev_batch _ 0); [lia|exact Hy|done| | |by apply (send_accept_wp _ 0)].
    + apply (ready frameTypeAccept (accept_marshal 0) []); [done|done|].
      rewrite (sender_stream _ _ _ _ _ Hx). cbn. by rewrite app_nil_r.
    + by destruct Hx as (_ & _ & _ & _ & _ & ->).
Qed.
End transfer.

(** ** Resuming *)

(** Resuming from a partial file whose last chunk is incomplete leaves a
    hole: the incomplete chunk is counted and marked as received, so the
    transfer restarts past the end of the partial file. *)
Theorem resume_leaves_hole init part bitmap :
  0 < in_ChunkSize init -> len part mod in_ChunkSize init <> 0 -> 0 < in_TotalChunks init <= 64 * len bitmap ->
  exists start bitmap', resume_partial init part bitmap = Ok (len part, start, bitmap') /\
    len part < start * in_ChunkSize init /\
    (start <= in_TotalChunks init -> chunk_in bitmap' (start - 1)).
Proof.
  intros Hc Hm Ht. unfold resume_partial, written_chunks.
  replace (in_ChunkSize init =? 0) with false by lia.
  rewrite Z.quot_div_nonneg, Z.rem_mod_nonneg by lia.
  replace (len part mod in_ChunkSize init =? 0) with false by lia.
  set (start := len part / in_ChunkSize init + 1). set (n := Z.min start (in_TotalChunks init)).
  assert (0 <= len part / in_ChunkSize init) as Hdiv by (apply Z.div_pos; lia).
  assert (forall more i b, 0 <= i -> i + Z.of_nat more <= 64 * len b ->
    exists b', mark_written more i b = Ok b' /\
      (forall x, i <= x < i + Z.of_nat more \/ chunk_in b x -> chunk_in b' x)) as Hmark.
  { induction more as [|more IH]; intros i b Hi Hb; cbn [mark_written].
    - exists b. split; [done|]. intros x [|]; [lia|done].
    - destruct (bitmapSet_spec b i ltac:(lia)) as (b1 & -> & Hl1 & Hin).
      destruct (IH (i + 1) b1) as (b2 & -> & Hin2); [lia|lia|]. exists b2. split; [done|].
      intros x Hx. apply Hin2. rewrite Hin. destruct Hx as [Hx|Hx]; [|by right; right].
      destruct (Z.eq_dec x i); [by right; left|]. left. lia. }
  destruct (Hmark (Z.to_nat n) 0 bitmap ltac:(lia) ltac:(lia)) as (b' & -> & Hin).
  exists start, b'. split; [done|]. split.
  - unfold start. pose proof (Z.mod_pos_bound (len part) (in_ChunkSize init) Hc).
    pose proof (Z.div_mod (len part) (in_ChunkSize init) ltac:(lia)). nia.
  - intros Hle. apply Hin. left. unfold n. lia.
Qed.

(** ** Examples *)

Section examples.
#[local] Existing Instances plain_codec stored_zstd naming_hash.

Definition example_config : send_config := mkSendConfig "notes.txt" CompZstd.

Lemma file_transfer_completes_witness :
  exists x, inevitable (transfer_step example_config "recv")
    (transferred example_config "recv" (str_bytes "hello") {[ "recv/notes.txt"%string := [] ]}) x.
Proof.
  destruct (send_init example_config 0
    (mkSworld (str_bytes "hello") 0 0 (mkStream [] [] None) [] [] [] WaitAccept)) as [[[] s]|] eqn:E;
    [|by vm_compute in E].
  eexists. eapply (@file_transfer_completes _ _ _ example_config "recv" stored_zstd_laws plain_codec_laws
    (str_bytes "hello") {[ "recv/notes.txt"%string := [] ]}) with (reopens := []).
  - by vm_compute.
  - by vm_compute.
  - by vm_compute.
  - by vm_compute.
  - exists s. split; [exact E|reflexivity].
Defined.

Lemma resume_leaves_hole_witness :
  exists start bitmap', resume_partial (mkInit "f" 12 4 3 "" 1 "none") (str_bytes "hello") [0]
    = Ok (len (str_bytes "hello"), start, bitmap') /\ len (str_bytes "hello") < start * 4 /\
    (start <= 3 -> chunk_in bitmap' (start - 1)).
Proof. apply (resume_leaves_hole (mkInit "f" 12 4 3 "" 1 "none")); vm_compute; naive_solver. Defined.
End examples.
