(* ===== verification/GoLib.v ===== *)
(** What the peer bookkeeping of src/p2put takes from Go: times and durations,
    float64 arithmetic, the order of a [range] over a map, [sort.Slice], base64.

    Times are nanoseconds since the zero time, durations 64-bit nanoseconds;
    [time.Since] saturates.  The float64 operations are the class [PoolFloat].
    Two things Go leaves open are parameters with what Go promises: the order in
    which a map is visited ([MapOrder]) and which of the sorted orders
    [sort.Slice] produces ([SortSlice]).  Each has an instance, on which the
    examples run. *)

From Stdlib Require Import Sorting.Permutation Sorting.Sorted QArith Qround.
From stdpp Require Import gmap strings list.
From S2P Require Import Prelude.
#[local] Open Scope Z_scope.

(** ** Floats, sorting and maps *)

Class PoolFloat := {
  pfloat : Type;
  p_of_Z : Z -> pfloat;
  (** The literal [m * 10^-k]. *)
  p_lit : Z -> nat -> pfloat;
  p_add : pfloat -> pfloat -> pfloat;
  p_sub : pfloat -> pfloat -> pfloat;
  p_mul : pfloat -> pfloat -> pfloat;
  p_div : pfloat -> pfloat -> pfloat;
  p_min : pfloat -> pfloat -> pfloat;
  p_lt : pfloat -> pfloat -> bool;
  p_le : pfloat -> pfloat -> bool;
  p_eq : pfloat -> pfloat -> bool;
  (** [int(math.Ceil(x))] and [int64(x)]. *)
  p_ceil : pfloat -> Z;
  p_trunc : pfloat -> Z;
}.

(** [sort.Slice(l, less)]. *)
Class SortSlice := sort_slice : forall A : Type, (A -> A -> bool) -> list A -> list A.
Arguments sort_slice {_} {A} less l.

Class SortSliceLaws (S : SortSlice) := {
  sort_slice_perm : forall A (less : A -> A -> bool) l, sort_slice less l ≡ₚ l;
  (** For an order that compares keys, no later element is less than an earlier one. *)
  sort_slice_sorted : forall A (less : A -> A -> bool) (key : A -> Z) l,
    (forall a b, less a b = (key a <? key b)) ->
    StronglySorted (fun a b => key a <= key b) (sort_slice less l);
}.

(** The entries of a map in the order a [range] visits them. *)
Class MapOrder := map_range : forall A : Type, gmap string A -> list (string * A).
Arguments map_range {_} {A} m.

Class MapOrderLaws (O : MapOrder) := {
  map_range_perm : forall A (m : gmap string A), map_range m ≡ₚ map_to_list m;
}.

(** ** Times *)

Definition second : Z := 10 ^ 9.
Definition minute : Z := 60 * second.
Definition millisecond : Z := 10 ^ 6.

(** [now.Sub(t)], saturating. *)
Definition time_sub (now t : Z) : Z := Z.max (- 2 ^ 63) (Z.min (now - t) (2 ^ 63 - 1)).

(** ** Strings *)

(** [strings.Contains]. *)
Definition contains (s sub : string) : bool :=
  match String.index 0 sub s with Some _ => true | None => false end.

(** ** Removing from a slice

    The entry is overwritten by the last one, which is cut off. *)

Definition swap_remove {A} (l : list A) (i : nat) : list A :=
  match last l with
  | Some x => take (length l - 1) (<[i := x]> l)
  | None => l
  end.

Lemma swap_remove_perm {A} (l : list A) i n : l !! i = Some n -> l ≡ₚ n :: swap_remove l i.
Proof.
  intros Hi. unfold swap_remove. destruct l as [|x l _] using rev_ind; [done|].
  rewrite last_snoc, length_app. cbn [length]. replace (length l + 1 - 1)%nat with (length l) by lia.
  destruct (decide (i < length l)%nat) as [Hlt|Hge].
  - rewrite lookup_app_l in Hi by done. rewrite insert_app_l by done.
    rewrite take_app_length' by (by rewrite length_insert).
    rewrite <- (take_drop_middle l i n Hi) at 1.
    assert (<[i:=x]> l = take i l ++ x :: drop (S i) l) as ->.
    { rewrite <- (take_drop_middle l i n Hi) at 1. rewrite insert_app_r_alt by (rewrite length_take; lia).
      rewrite length_take. replace (i - i `min` length l)%nat with 0%nat by lia. done. }
    rewrite (Permutation_app_comm _ [x]), <- !Permutation_middle.
    done.
  - assert (i = length l) as -> by (apply lookup_lt_Some in Hi; rewrite length_app in Hi; cbn in Hi; lia).
    rewrite list_lookup_middle in Hi by done. injection Hi as ->.
    rewrite insert_app_r_alt, Nat.sub_diag by lia. cbn. rewrite take_app_length.
    by rewrite Permutation_app_comm.
Qed.

(** ** An instance of what Go leaves open *)

Definition rational_pool : PoolFloat := {|
  pfloat := Q;
  p_of_Z := inject_Z;
  p_lit m k := m # Pos.of_nat (Nat.pow 10 k);
  p_add := Qplus; p_sub := Qminus; p_mul := Qmult; p_div := Qdiv;
  p_min a b := if Qle_bool a b then a else b;
  p_lt a b := negb (Qle_bool b a);
  p_le := Qle_bool;
  p_eq := Qeq_bool;
  p_ceil := Qceiling;
  p_trunc := Qfloor;
|}.

Definition listed_order : MapOrder := fun A m => map_to_list m.

Lemma listed_order_laws : MapOrderLaws listed_order.
Proof. by split. Qed.

Fixpoint insert_sorted {A} (less : A -> A -> bool) (x : A) (l : list A) : list A :=
  match l with
  | [] => [x]
  | y :: l => if less y x then y :: insert_sorted less x l else x :: y :: l
  end.

Definition insertion_sort : SortSlice := fun A less l => foldr (insert_sorted less) [] l.

Lemma insert_sorted_perm {A} (less : A -> A -> bool) x l : insert_sorted less x l ≡ₚ x :: l.
Proof.
  induction l as [|y l IH]; cbn; [done|]. case_match; [|done]. rewrite IH. apply Permutation_swap.
Qed.

Lemma insertion_sort_laws : SortSliceLaws insertion_sort.
Proof.
  split.
  - intros A less l. unfold sort_slice, insertion_sort. induction l as [|x l IH]; cbn; [done|].
    by rewrite insert_sorted_perm, IH.
  - intros A less key l Hless. unfold sort_slice, insertion_sort.
    induction l as [|x l IH]; cbn; [constructor|].
    revert IH. generalize (foldr (insert_sorted less) [] l) as s. intros s Hs.
    induction Hs as [|y s Hs IHs Hy]; cbn; [by repeat constructor|]. rewrite Hless.
    destruct (Z.ltb_spec (key y) (key x)).
    + constructor; [done|]. rewrite insert_sorted_perm. constructor; [lia|done].
    + constructor; [by constructor|]. constructor; [lia|]. eapply Forall_impl; [exact Hy|]. cbn. intros. lia.
Qed.

#[global] Instance byte_countable : Countable byte.
Proof. exact (inj_countable Byte.to_N Byte.of_N Byte.of_to_N). Defined.

(** A codec for any countable type, on which the examples run where the program
    uses encoding/json: the digits of a number. *)
Fixpoint positive_bytes (p : positive) : list byte :=
  match p with
  | xH => []
  | xO p => Byte.x00 :: positive_bytes p
  | xI p => Byte.x01 :: positive_bytes p
  end.

Fixpoint bytes_positive (l : list byte) : positive :=
  match l with
  | [] => xH
  | Byte.x00 :: l => xO (bytes_positive l)
  | _ :: l => xI (bytes_positive l)
  end.

Definition any_marshal {A} `{Countable A} (a : A) : list byte := positive_bytes (encode a).
Definition any_unmarshal {A} `{Countable A} (l : list byte) : option A := decode (bytes_positive l).

Lemma any_unmarshal_marshal {A} `{Countable A} (a : A) : any_unmarshal (any_marshal a) = Some a.
Proof.
  unfold any_unmarshal, any_marshal. assert (forall p, bytes_positive (positive_bytes p) = p) as -> by (induction p; cbn; congruence).
  apply decode_encode.
Qed.

(** ** encoding/base64

    [base64.StdEncoding]: four characters for three bytes, padded with [=];
    decoding skips line breaks and refuses anything else that is not an encoding. *)

Module Base64.
Definition bytes_of_string (s : string) : list byte := String.list_byte_of_string s.

(** [encodeStd]. *)
Definition encodeStd : list byte := bytes_of_string "ABCDEFGHIJKLMNOPQRSTUVWXYZabcdefghijklmnopqrstuvwxyz0123456789+/".

Definition padChar : byte := byte_of_Z 61.

(** The character of the low six bits. *)
Definition char_of (v : Z) : byte := nth (Z.to_nat (v mod 64)) encodeStd padChar.

Fixpoint index_of (c : byte) (l : list byte) : option Z :=
  match l with
  | [] => None
  | x :: l => if decide (x = c) then Some 0 else Z.succ <$> index_of c l
  end.

Definition value_of (c : byte) : option Z := index_of c encodeStd.

(** The value of up to three bytes, most significant first. *)
Definition quantum (a b c : byte) : Z := 65536 * Z_of_byte a + 256 * Z_of_byte b + Z_of_byte c.

Fixpoint EncodeToString (src : list byte) : list byte :=
  match src with
  | [] => []
  | [a] =>
      let v := quantum a Byte.x00 Byte.x00 in [char_of (v / 2 ^ 18); char_of (v / 2 ^ 12); padChar; padChar]
  | [a; b] =>
      let v := quantum a b Byte.x00 in [char_of (v / 2 ^ 18); char_of (v / 2 ^ 12); char_of (v / 2 ^ 6); padChar]
  | a :: b :: c :: src =>
      let v := quantum a b c in
      char_of (v / 2 ^ 18) :: char_of (v / 2 ^ 12) :: char_of (v / 2 ^ 6) :: char_of v :: EncodeToString src
  end.

(** The groups of four of a text without line breaks; [None] is a [CorruptInputError]. *)
Fixpoint decode_groups (src : list byte) : option (list byte) :=
  match src with
  | [] => Some []
  | a :: b :: c :: d :: src =>
      x ← value_of a; y ← value_of b;
      if decide (c = padChar) then
        if decide (d = padChar /\ src = []) then Some [byte_of_Z ((x * 64 + y) / 2 ^ 4)] else None
      else
        z ← value_of c;
        if decide (d = padChar) then
          if decide (src = []) then
            let v := (x * 64 + y) * 64 + z in Some [byte_of_Z (v / 2 ^ 10); byte_of_Z (v / 2 ^ 2)]
          else None
        else
          w ← value_of d;
          rest ← decode_groups src;
          let v := ((x * 64 + y) * 64 + z) * 64 + w in
          Some (byte_of_Z (v / 2 ^ 16) :: byte_of_Z (v / 2 ^ 8) :: byte_of_Z v :: rest)
  | _ => None
  end.

Definition is_break (b : byte) : bool := (Z_of_byte b =? 10) || (Z_of_byte b =? 13).

Definition DecodeString (s : list byte) : option (list byte) := decode_groups (filter (fun b => is_break b = false) s).

(** ** The round trip *)

Lemma chars_ok i : (i < 64)%nat ->
  value_of (nth i encodeStd padChar) = Some (Z.of_nat i) /\ nth i encodeStd padChar <> padChar /\
  is_break (nth i encodeStd padChar) = false.
Proof.
  assert (Forall (fun i => value_of (nth i encodeStd padChar) = Some (Z.of_nat i) /\ nth i encodeStd padChar <> padChar /\
    is_break (nth i encodeStd padChar) = false) (seq 0 64)) as H.
  { apply (bool_decide_unpack _). by vm_compute. }
  intros Hi. rewrite Forall_forall in H. apply H, elem_of_seq. lia.
Qed.

Lemma char_of_ok v : value_of (char_of v) = Some (v mod 64) /\ char_of v <> padChar /\ is_break (char_of v) = false.
Proof.
  pose proof (Z.mod_pos_bound v 64 ltac:(lia)). destruct (chars_ok (Z.to_nat (v mod 64))) as (E & ? & ?); [lia|].
  unfold char_of. rewrite E. split; [f_equal; lia|done].
Qed.

Lemma filter_all (l : list byte) : Forall (fun b => is_break b = false) l -> filter (fun b => is_break b = false) l = l.
Proof. induction 1 as [|b l Hb Hl IH]; [done|]. by rewrite filter_cons_True, IH. Qed.

Lemma byte_value b z : wrap8 z = Z_of_byte b -> byte_of_Z z = b.
Proof. intros H. apply Z_of_byte_inj. by rewrite Z_of_byte_of_Z. Qed.

(** The low eight bits of a sum of a byte and a multiple of 256. *)
Lemma wrap8_of z b k : z = 256 * k + Z_of_byte b -> wrap8 z = Z_of_byte b.
Proof.
  intros ->. pose proof (Z_of_byte_range b). unfold wrap8. change (2 ^ 8) with 256.
  rewrite Z.add_comm, Z.mul_comm, Z.mod_add by lia. by apply Z.mod_small.
Qed.

Lemma encode_ind (P : list byte -> Prop) : P [] -> (forall a, P [a]) -> (forall a b, P [a; b]) ->
  (forall a b c l, P l -> P (a :: b :: c :: l)) -> forall l, P l.
Proof.
  intros H0 H1 H2 H3. fix IH 1. intros [|a [|b [|c l]]]; [done|apply H1|apply H2|apply H3, IH].
Qed.

Lemma encode_no_break l : Forall (fun b => is_break b = false) (EncodeToString l).
Proof.
  induction l as [|a|a b|a b c l IH] using encode_ind; [constructor| | |]; cbn [EncodeToString]; cbv zeta;
    repeat (constructor; [by first [apply char_of_ok|reflexivity]|]); [constructor..|done].
Qed.

(** The four sextets of 24 bits. *)
Lemma sextets v : 0 <= v < 2 ^ 24 ->
  (((v / 2 ^ 18) mod 64 * 64 + (v / 2 ^ 12) mod 64) * 64 + (v / 2 ^ 6) mod 64) * 64 + v mod 64 = v.
Proof.
  intros Hv. replace (v / 2 ^ 18) with (v / 64 / 64 / 64) by (rewrite !Z.div_div by lia; done).
  replace (v / 2 ^ 12) with (v / 64 / 64) by (rewrite !Z.div_div by lia; done). change (2 ^ 6) with 64. change (2 ^ 24) with 16777216 in Hv.
  Z.to_euclidean_division_equations. lia.
Qed.

(** Fewer of them, when the low bits are zero. *)
Lemma sextets_2 v : 0 <= v < 2 ^ 24 -> (v / 2 ^ 18) mod 64 * 64 + (v / 2 ^ 12) mod 64 = v / 2 ^ 12.
Proof.
  intros Hv. replace (v / 2 ^ 18) with (v / 2 ^ 12 / 64) by (rewrite !Z.div_div by lia; done).
  change (2 ^ 24) with 16777216 in Hv. change (2 ^ 12) with 4096. Z.to_euclidean_division_equations. lia.
Qed.

Lemma sextets_3 v : 0 <= v < 2 ^ 24 -> ((v / 2 ^ 18) mod 64 * 64 + (v / 2 ^ 12) mod 64) * 64 + (v / 2 ^ 6) mod 64 = v / 2 ^ 6.
Proof.
  intros Hv. replace (v / 2 ^ 18) with (v / 64 / 64 / 64) by (rewrite !Z.div_div by lia; done).
  replace (v / 2 ^ 12) with (v / 64 / 64) by (rewrite !Z.div_div by lia; done). change (2 ^ 6) with 64. change (2 ^ 24) with 16777216 in Hv.
  Z.to_euclidean_division_equations. lia.
Qed.

Lemma quantum_range a b c : 0 <= quantum a b c < 2 ^ 24.
Proof. unfold quantum. pose proof (Z_of_byte_range a). pose proof (Z_of_byte_range b). pose proof (Z_of_byte_range c). lia. Qed.

Lemma byte_div v k b r : v = k * 256 * r + k * Z_of_byte b + v mod k -> 0 < k -> byte_of_Z (v / k) = b.
Proof.
  intros E Hk. apply byte_value, (wrap8_of _ _ r). rewrite E.
  replace (k * 256 * r + k * Z_of_byte b + v mod k) with ((256 * r + Z_of_byte b) * k + v mod k) by lia.
  rewrite Z.div_add_l by lia. rewrite (Z.div_small (v mod k)) by (by apply Z.mod_pos_bound). lia.
Qed.

(** The bytes of 24 bits. *)
Lemma quantum_bytes a b c : let v := quantum a b c in
  byte_of_Z (v / 2 ^ 16) = a /\ byte_of_Z (v / 2 ^ 8) = b /\ byte_of_Z v = c.
Proof.
  cbv zeta. unfold quantum. pose proof (Z_of_byte_range a). pose proof (Z_of_byte_range b). pose proof (Z_of_byte_range c).
  set (v := _ + _). assert (v = 65536 * Z_of_byte a + 256 * Z_of_byte b + Z_of_byte c) as Ev by done. clearbody v.
  change (2 ^ 16) with 65536. change (2 ^ 8) with 256. split_and!.
  - apply (byte_div _ _ _ 0); [|lia]. Z.to_euclidean_division_equations. lia.
  - apply (byte_div _ _ _ (Z_of_byte a)); [|lia]. Z.to_euclidean_division_equations. lia.
  - rewrite <-(Z.div_1_r v). apply (byte_div _ _ _ (256 * Z_of_byte a + Z_of_byte b)); [|lia]. rewrite Z.mod_1_r. lia.
Qed.

(** Decoding gives back what was encoded. *)
Theorem base64_roundtrip l : DecodeString (EncodeToString l) = Some l.
Proof.
  unfold DecodeString. rewrite filter_all by apply encode_no_break.
  induction l as [|a|a b|a b c l IH] using encode_ind; [done| | |]; cbn [EncodeToString decode_groups]; cbv zeta;
    rewrite !(proj1 (char_of_ok _)); cbn [mbind option_bind].
  - destruct (quantum_bytes a Byte.x00 Byte.x00) as (Ha & _). rewrite !decide_True by done.
    rewrite sextets_2, Z.div_div by (try apply quantum_range; done). change (2 ^ 12 * 2 ^ 4) with (2 ^ 16). by rewrite Ha.
  - destruct (quantum_bytes a b Byte.x00) as (Ha & Hb & _). rewrite decide_False by apply char_of_ok. rewrite !decide_True by done.
    rewrite sextets_3, !Z.div_div by (try apply quantum_range; done).
    change (2 ^ 6 * 2 ^ 10) with (2 ^ 16). change (2 ^ 6 * 2 ^ 2) with (2 ^ 8). by rewrite Ha, Hb.
  - destruct (quantum_bytes a b c) as (Ha & Hb & Hc). rewrite !decide_False by apply char_of_ok. rewrite IH. cbn [mbind option_bind].
    rewrite sextets by apply quantum_range. by rewrite Ha, Hb, Hc.
Qed.

Example base64_hello : EncodeToString (bytes_of_string "hello") = bytes_of_string "aGVsbG8=".
Proof. by vm_compute. Qed.
End Base64.
