(* ===== verification/Compression.v ===== *)
(** Whether a file is worth compressing (src/p2put/filecomp.go, [detectCompression];
    the choice in [SendFile] of relayfile.go): by the mode, the name, the first bytes
    and a sample.

    float64 arithmetic is [PoolFloat]; [math.Log2] and [strings.ToLower] are
    parameters.  The file is what can be read of it; [None] when it cannot be
    opened. *)

From Stdlib Require Import Strings.Ascii.
From stdpp Require Import gmap strings.
From S2P Require Import Prelude GoLib FileFrame.

Inductive CompressMode := CompressAuto | CompressOn | CompressOff.

Definition sampleSize : Z := 65536.

Definition magic_bytes (l : list Z) : list byte := byte_of_Z <$> l.

Definition magicHeaders : list (string * list byte) := [
  ("gzip"%string, magic_bytes [0x1F; 0x8B]);
  ("zstd"%string, magic_bytes [0x28; 0xB5; 0x2F; 0xFD]);
  ("lz4"%string, magic_bytes [0x04; 0x22; 0x4D; 0x18]);
  ("xz"%string, magic_bytes [0xFD; 0x37; 0x7A; 0x58; 0x5A; 0x00]);
  ("bzip2"%string, magic_bytes [0x42; 0x5A; 0x68]);
  ("7z"%string, magic_bytes [0x37; 0x7A; 0xBC; 0xAF; 0x27; 0x1C]);
  ("png"%string, magic_bytes [0x89; 0x50; 0x4E; 0x47]);
  ("jpeg"%string, magic_bytes [0xFF; 0xD8; 0xFF]);
  ("webp"%string, magic_bytes [0x52; 0x49; 0x46; 0x46]);
  ("gif"%string, magic_bytes [0x47; 0x49; 0x46; 0x38]);
  ("zip"%string, magic_bytes [0x50; 0x4B; 0x03; 0x04]);
  ("rar"%string, magic_bytes [0x52; 0x61; 0x72; 0x21; 0x1A; 0x07]);
  ("mp3"%string, magic_bytes [0xFF; 0xFB]);
  ("mp4"%string, magic_bytes [0x00; 0x00; 0x00; 0x18; 0x66; 0x74; 0x79; 0x70]);
  ("avi"%string, magic_bytes [0x52; 0x49; 0x46; 0x46])].

Definition compressedExts : gset string := list_to_set [".jpg"; ".jpeg"; ".png"; ".gif"; ".webp";
  ".mp4"; ".avi"; ".mkv"; ".mov"; ".mp3"; ".aac"; ".flac"; ".ogg"; ".wav"; ".zip"; ".gz"; ".zst"; ".bz2"; ".xz"; ".7z"; ".rar"]%string.

(** The inner loop of [hasMagicHeader]: no index where the bytes differ. *)
Fixpoint magic_match (sample magic : list byte) : bool :=
  match magic, sample with
  | [], _ => true
  | b :: magic, c :: sample => if bool_decide (c = b) then magic_match sample magic else false
  | _ :: _, [] => false
  end.

Definition hasMagicHeader (sample : list byte) : bool :=
  existsb (fun e => (len e.2 <=? len sample) && magic_match sample e.2) magicHeaders.

(** [io.ReadFull] into a buffer of [size] bytes; [avail] is what the file gives. *)
Definition readSample (file : option (list byte)) (size : Z) : list byte :=
  match file with None => [] | Some avail => takeZ size avail end.

(** [filepath.Ext]: from the last dot of the last element. *)
Fixpoint ext_loop (rev_path acc : list Ascii.ascii) : string :=
  match rev_path with
  | [] => ""
  | c :: rest =>
      if bool_decide (c = "/"%char) then ""
      else if bool_decide (c = "."%char) then String.string_of_list_ascii (c :: acc)
      else ext_loop rest (c :: acc)
  end.

Definition Ext (path : string) : string := ext_loop (reverse (String.list_ascii_of_string path)) [].

Section comp.
Context {F : PoolFloat} {Zs : Zstd} (log2 : pfloat -> pfloat) (ToLower : string -> string).

(** [freq] after the first loop of [calcEntropy]: 256 counters. *)
Definition count_byte (freq : list Z) (b : byte) : list Z := alter (fun c => c + 1) (Z.to_nat (Z_of_byte b)) freq.

Definition histogram (sample : list byte) : list Z := foldl count_byte (replicate 256 0) sample.

(** A turn of its second loop. *)
Definition entropy_step (n h : pfloat) (c : Z) : pfloat :=
  if 0 <? c then let p := p_div (p_of_Z c) n in p_sub h (p_mul p (log2 p)) else h.

Definition calcEntropy (sample : list byte) : pfloat :=
  if len sample =? 0 then p_of_Z 0
  else foldl (entropy_step (p_of_Z (len sample))) (p_of_Z 0) (histogram sample).

Definition compressionRatio (sample : list byte) : pfloat :=
  let compressed := zstdCompressBlock sample in
  if len compressed =? 0 then p_lit 10 1 else p_div (p_of_Z (len compressed)) (p_of_Z (len sample)).

Definition magicThreshold : pfloat := p_lit 85 2.

(** The default mode is [mode]; the choice is zstd or none. *)
Definition detectCompression (mode : CompressMode) (path : string) (file : option (list byte)) : compression :=
  match mode with
  | CompressOn => CompZstd
  | CompressOff => CompNone
  | CompressAuto =>
      let ext := ToLower (Ext path) in
      if decide (ext ∈ compressedExts) then CompNone
      else
        let sample := readSample file sampleSize in
        if len sample =? 0 then CompNone
        else if hasMagicHeader sample then CompNone
        else
          let entropy := calcEntropy sample in
          if p_le (p_lit 75 1) entropy then CompNone
          else if p_le entropy (p_lit 60 1) then CompZstd
          else if p_lt (compressionRatio sample) magicThreshold then CompZstd else CompNone
  end.

(** The choice of [SendFile]: the mode asked for, else the default one. *)
Definition send_compression (asked mode : CompressMode) (path : string) (file : option (list byte)) : compression :=
  match asked with
  | CompressOn => CompZstd
  | CompressOff => CompNone
  | CompressAuto => detectCompression mode path file
  end.

(** ** Properties *)

Lemma magic_match_prefix sample magic : magic_match sample magic = true <-> magic `prefix_of` sample.
Proof.
  revert sample. induction magic as [|b magic IH]; intros [|c sample]; cbn.
  - by split; [intros _; apply prefix_nil|].
  - by split; [intros _; apply prefix_nil|].
  - split; [done|]. by intros ?%prefix_nil_inv.
  - case_bool_decide as E.
    + rewrite IH, E. split; [apply prefix_cons|]. by intros ?%prefix_cons_inv_2.
    + split; [done|]. by intros <-%prefix_cons_inv_1.
Qed.

(** The magic test is that the sample begins with one of the headers. *)
Lemma hasMagicHeader_spec sample : hasMagicHeader sample = true <-> exists e, e ∈ magicHeaders /\ e.2 `prefix_of` sample.
Proof.
  unfold hasMagicHeader. rewrite existsb_exists. setoid_rewrite <-list_elem_of_In. split.
  - intros (e & He & [_ Hm]%andb_true_iff). exists e. by rewrite <-magic_match_prefix.
  - intros (e & He & Hp). exists e. split; [done|]. apply andb_true_iff. split; [|by apply magic_match_prefix].
    apply prefix_length in Hp. lia.
Qed.

Lemma count_byte_lookup freq b k : length freq = 256%nat ->
  count_byte freq b !! Z.to_nat (Z_of_byte k) = (fun c => if decide (k = b) then c + 1 else c) <$> freq !! Z.to_nat (Z_of_byte k).
Proof.
  intros Hl. unfold count_byte. destruct (decide (k = b)) as [->|Hne].
  - by rewrite list_lookup_alter_eq.
  - rewrite list_lookup_alter_ne; [by destruct (freq !! _)|]. pose proof (Z_of_byte_range b). pose proof (Z_of_byte_range k).
    intros E. apply Hne. apply Z_of_byte_inj. unfold is_u8 in *. lia.
Qed.

(** Each counter is the number of its byte. *)
Lemma histogram_count sample k : length (histogram sample) = 256%nat /\
  histogram sample !! Z.to_nat (Z_of_byte k) = Some (len (filter (fun b => b = k) sample)).
Proof.
  unfold histogram. induction sample as [|b sample IH] using rev_ind.
  - split; [apply length_replicate|]. cbn [foldl filter]. apply lookup_replicate_2. pose proof (Z_of_byte_range k). unfold is_u8 in *. lia.
  - rewrite foldl_app. cbn [foldl]. destruct IH as [Hl Hk]. split; [unfold count_byte; by rewrite length_alter|].
    rewrite count_byte_lookup, Hk by done. cbn. rewrite filter_app, length_app, filter_cons. f_equal.
    destruct (decide (k = b)) as [->|Hne]; [rewrite decide_True by done|rewrite decide_False by congruence]; cbn; lia.
Qed.

(** The entropy goes by how often each byte occurs and not by the order: the same
    bytes shuffled are judged the same way. *)
Lemma calcEntropy_perm sample sample' : sample ≡ₚ sample' -> calcEntropy sample = calcEntropy sample'.
Proof.
  intros H. unfold calcEntropy. rewrite (Permutation_length H). case_match; [done|]. f_equal.
  unfold histogram. generalize (replicate 256 0). clear -H. induction H as [|b l l' _ IH|a b l|l1 l2 l3 _ IH1 _ IH2]; intros freq; cbn.
  - done.
  - apply IH.
  - f_equal. unfold count_byte. apply list_eq. intros i. destruct (decide (Z.to_nat (Z_of_byte a) = Z.to_nat (Z_of_byte b))) as [->|Hne]; [done|].
    rewrite !list_lookup_alter. repeat case_decide; congruence.
  - by rewrite IH1.
Qed.

(** When a file is sent compressed.  Asked for, always; forbidden, never; otherwise
    only a file that can be read, whose name is not that of a compressed kind, that
    does not begin like one, and whose sample has less than 7.5 bits per byte. *)
Theorem compression_choice asked mode path file :
  send_compression asked mode path file = CompZstd <->
  asked = CompressOn \/ asked = CompressAuto /\
    (mode = CompressOn \/ mode = CompressAuto /\
      (ToLower (Ext path) ∉ compressedExts) /\ exists avail, file = Some avail /\ avail <> [] /\
      let sample := takeZ sampleSize avail in
      (forall e, e ∈ magicHeaders -> ~ e.2 `prefix_of` sample) /\ p_le (p_lit 75 1) (calcEntropy sample) = false /\
      (p_le (calcEntropy sample) (p_lit 60 1) = true \/ p_lt (compressionRatio sample) magicThreshold = true)).
Proof.
  destruct asked; [|naive_solver|split; [done|naive_solver]]. destruct mode; [|naive_solver|split; [done|naive_solver]].
  cbn [send_compression detectCompression]. destruct (decide _) as [He|He]; [split; [done|]; intros [?|(_ & [?|(_ & ? & _)])]; done|].
  destruct file as [[|b avail]|]; cbn [readSample]; [split; [done|]; naive_solver| |split; [done|]; naive_solver].
  set (sample := takeZ sampleSize (b :: avail)). replace (len sample =? 0) with false.
  2:{ symmetry. apply Z.eqb_neq. unfold sample, takeZ. rewrite length_take. unfold sampleSize. cbn [length]. lia. }
  destruct (hasMagicHeader sample) eqn:Em.
  - apply hasMagicHeader_spec in Em as (e & Hin & Hp). split; [done|]. intros [?|(_ & [?|(_ & _ & ? & [= <-] & _ & Hno & _)])]; [done..|]. by apply Hno in Hp.
  - assert (forall e, e ∈ magicHeaders -> ~ e.2 `prefix_of` sample) as Hno.
    { intros e Hin Hp. assert (hasMagicHeader sample = true) as H by (apply hasMagicHeader_spec; eauto). congruence. }
    split.
    + intros H. right. split; [done|]. right. split; [done|]. split; [done|]. exists (b :: avail). split; [done|]. split; [done|]. split; [done|].
      fold sample. destruct (p_le (p_lit 75 1) _); [done|]. split; [done|]. destruct (p_le (calcEntropy sample) _); [by left|]. destruct (p_lt _ _); [by right|done].
    + intros [?|(_ & [?|(_ & _ & ? & [= <-] & _ & _ & Hle & Hor)])]; [done..|]. fold sample in Hle, Hor. rewrite Hle.
      destruct Hor as [->| ->]; [done|]. by case_match.
Qed.
End comp.

(** ** Examples *)

(** Rational arithmetic with a logarithm good to the powers of two. *)
Definition log2_powers (x : @pfloat rational_pool) : @pfloat rational_pool :=
  @p_of_Z rational_pool (- Z.log2 (@p_ceil rational_pool (@p_div rational_pool (@p_of_Z rational_pool 1) x))).

Definition stored_zstd : Zstd := {| zstd_encode src := Some (byte_of_Z 0 :: src); zstd_decode enc := Some (tail enc) |}.

Definition example_choice (path : string) (file : option (list byte)) : compression :=
  @send_compression rational_pool stored_zstd log2_powers (fun s => s) CompressAuto CompressAuto path file.

Example choices :
  example_choice "/a/notes.txt" (Some (magic_bytes [65; 65; 66; 66])) = CompZstd /\
  example_choice "/a/notes.txt" (Some (magic_bytes [0x1F; 0x8B; 66])) = CompNone /\
  example_choice "/a.b/photo.jpg" (Some (magic_bytes [65; 65; 66; 66])) = CompNone /\
  example_choice "/a.jpg/notes" (Some (magic_bytes [65; 65; 66; 66])) = CompZstd /\
  example_choice "/a/notes.txt" (Some (byte_of_Z <$> seqZ 0 256)) = CompNone /\
  example_choice "/a/notes.txt" None = CompNone.
Proof. by vm_compute. Qed.
