(* ===== verification/RelayPool.v ===== *)
(** The two-tier pool of relays (src/p2put/relaypool.go): scores, tiers, the
    circuit breaker, selection and pruning.

    The float64 operations, the order of a [range] over a map and the result of
    [sort.Slice] are those of [GoLib]; no theorem assumes anything of the first.
    Parsing a multiaddress is the libp2p library's: [Add] takes its result.
    A critical section under the pool's mutex is one definition: [Add] and
    [RecordResult] have two, of which [prune] is the second.  Log messages are
    left out. *)

From stdpp Require Import gmap strings.
From S2P Require Import Prelude GoLib.

Definition probationMax : Z := 10.
Definition poolHighWater : Z := 50.
Definition poolLowWater : Z := 40.
Definition demoteThreshold : Z := 3.

Inductive errType := errOK | errRateLimited | errFailed.

(** The errors [classifyError] tells apart. *)
Inductive pool_error := ErrReset | ReservationRefused | OtherError.

Definition classifyError (err : option pool_error) : errType :=
  match err with
  | None => errOK
  | Some ErrReset => errRateLimited
  | Some ReservationRefused => errRateLimited
  | Some OtherError => errFailed
  end.

Section pool.
Context {F : PoolFloat}.

Record WeightConfig := mkWeights {
  wc_Success : pfloat;
  wc_Latency : pfloat;
  wc_DataLimit : pfloat;
  wc_DurationLimit : pfloat;
  wc_TTL : pfloat;
  wc_Uptime : pfloat;
}.

#[global] Instance WeightConfig_eta : Eta WeightConfig := fun w => mkWeights
  (wc_Success w) (wc_Latency w) (wc_DataLimit w) (wc_DurationLimit w) (wc_TTL w) (wc_Uptime w).

Definition defaultWeights : WeightConfig :=
  mkWeights (p_lit 35 2) (p_lit 20 2) (p_lit 15 2) (p_lit 15 2) (p_lit 10 2) (p_lit 5 2).

Record RelayItem := mkItem {
  ri_PeerID : string;
  ri_Addr : string;
  ri_inMain : bool;
  ri_successScore : pfloat;
  ri_avgRTT : Z;
  ri_limitDuration : Z;
  ri_limitData : Z;
  ri_rateLimitHits : Z;
  ri_consecutiveFails : Z;
  ri_circuitOpen : bool;
  ri_reservationExpires : Z;
  ri_connectedSince : Z;
  ri_lastResult : Z;
}.

#[global] Instance RelayItem_eta : Eta RelayItem := fun i => mkItem
  (ri_PeerID i) (ri_Addr i) (ri_inMain i) (ri_successScore i) (ri_avgRTT i) (ri_limitDuration i)
  (ri_limitData i) (ri_rateLimitHits i) (ri_consecutiveFails i) (ri_circuitOpen i)
  (ri_reservationExpires i) (ri_connectedSince i) (ri_lastResult i).

Record RelayPool := mkPool {
  rp_items : gmap string RelayItem;
  rp_config : WeightConfig;
  rp_protected : gset string;
  rp_managed : gset string;
  rp_lowWater : Z;
  rp_highWater : Z;
}.

#[global] Instance RelayPool_eta : Eta RelayPool := fun p => mkPool
  (rp_items p) (rp_config p) (rp_protected p) (rp_managed p) (rp_lowWater p) (rp_highWater p).

Definition pool_size (p : RelayPool) : Z := Z.of_nat (size (rp_items p)).

Definition NewRelayPool (cfg : WeightConfig) : RelayPool :=
  let zero := p_of_Z 0 in
  let cfg := if p_eq (wc_Success cfg) zero && p_eq (wc_Latency cfg) zero &&
                p_eq (wc_DataLimit cfg) zero && p_eq (wc_DurationLimit cfg) zero &&
                p_eq (wc_TTL cfg) zero && p_eq (wc_Uptime cfg) zero
             then defaultWeights else cfg in
  mkPool ∅ cfg ∅ ∅ poolLowWater poolHighWater.

(** ** Scores *)

Definition ema (old newVal alpha : pfloat) : pfloat :=
  p_add (p_mul alpha newVal) (p_mul (p_sub (p_of_Z 1) alpha) old).

Definition emaRTT (old newVal : Z) (alpha : pfloat) : Z :=
  p_trunc (p_add (p_mul alpha (p_of_Z newVal)) (p_mul (p_sub (p_of_Z 1) alpha) (p_of_Z old))).

Definition calcLatency (rtt : Z) : pfloat :=
  if rtt =? 0 then p_lit 5 1
  else if rtt <? 50 * millisecond then p_lit 1 0
  else if 2000 * millisecond <? rtt then p_lit 1 1
  else p_sub (p_lit 1 0)
         (p_mul (p_div (p_of_Z (rtt - 50 * millisecond)) (p_of_Z (1950 * millisecond))) (p_lit 9 1)).

Definition calcDataLimit (data : Z) : pfloat :=
  if data =? 0 then p_lit 5 1
  else p_min (p_div (p_of_Z data) (p_of_Z (128 * 1024))) (p_lit 1 0).

Definition calcDurationLimit (dur : Z) : pfloat :=
  if dur =? 0 then p_lit 5 1
  else p_min (p_div (p_of_Z dur) (p_of_Z (2 * minute))) (p_lit 1 0).

Definition calcTTL (now expires : Z) : pfloat :=
  let remaining := time_sub expires now in
  if remaining <? 0 then p_of_Z 0
  else if 10 * minute <? remaining then p_lit 1 0
  else p_div (p_of_Z remaining) (p_of_Z (10 * minute)).

Definition calcUptime (now since : Z) : pfloat :=
  let d := time_sub now since in
  if 5 * minute <? d then p_lit 1 0
  else if d <? 10 * second then p_lit 3 1
  else p_add (p_lit 3 1)
         (p_mul (p_div (p_of_Z (d - 10 * second)) (p_of_Z (290 * second))) (p_lit 7 1)).

Definition calcScore (now : Z) (c : WeightConfig) (item : RelayItem) : pfloat :=
  if ri_circuitOpen item then p_of_Z 0
  else
    let s := p_mul (wc_Success c) (ri_successScore item) in
    let s := p_add s (p_mul (wc_Latency c) (calcLatency (ri_avgRTT item))) in
    let s := p_add s (p_mul (wc_DataLimit c) (calcDataLimit (ri_limitData item))) in
    let s := p_add s (p_mul (wc_DurationLimit c) (calcDurationLimit (ri_limitDuration item))) in
    let s := p_add s (p_mul (wc_TTL c) (calcTTL now (ri_reservationExpires item))) in
    p_add s (p_mul (wc_Uptime c) (calcUptime now (ri_connectedSince item))).

Context {O : MapOrder} {Srt : SortSlice}.

(** ** Pruning *)

Definition evict_one (p : RelayPool) (e : string * RelayItem) : RelayPool :=
  p <| rp_items := delete e.1 (rp_items p) |> <| rp_protected := rp_protected p ∖ {[e.1]} |>.

(** The deletions of the eviction loops; a peer travels with the item the map
    holds for it. *)
Definition evict (l : list (string * RelayItem)) (p : RelayPool) : RelayPool := foldl evict_one p l.

(** Oldest first. *)
Definition by_age (l : list (string * RelayItem)) : list (string * RelayItem) :=
  sort_slice (fun a b => ri_connectedSince a.2 <? ri_connectedSince b.2) l.

Definition probation_of (p : RelayPool) : list (string * RelayItem) :=
  filter (fun e => ri_inMain e.2 = false) (map_range (rp_items p)).
Definition main_of (p : RelayPool) : list (string * RelayItem) :=
  filter (fun e => ri_inMain e.2 = true) (map_range (rp_items p)).

(** How many to evict from probation and from main. *)
Definition quotas (need probation main : Z) : Z * Z :=
  let evictFromProbation := need / 2 in
  let evictFromMain := need - evictFromProbation in
  let '(evictFromProbation, evictFromMain) :=
    if probation <? evictFromProbation
    then (probation, evictFromMain + (evictFromProbation - probation))
    else (evictFromProbation, evictFromMain) in
  if main <? evictFromMain
  then (evictFromProbation + (evictFromMain - main), main)
  else (evictFromProbation, evictFromMain).

(** A candidate for eviction with its score. *)
Definition kv : Type := (string * RelayItem) * pfloat.

(** Round 1: neither protected nor recently active. *)
Definition candidates (now : Z) (p : RelayPool) (mainPids : list (string * RelayItem)) : list kv :=
  (fun e => (e, calcScore now (rp_config p) e.2)) <$>
  (filter (fun e => is_Some (rp_items p !! e.1) /\ (e.1 ∉ rp_protected p) /\
                    5 * minute <= time_sub now (ri_lastResult e.2)) mainPids).

(** Round 2: the best fifth by score is kept. *)
Definition drop_best (l : list kv) : list kv :=
  let topK := p_ceil (p_mul (p_of_Z (len l)) (p_lit 20 2)) in
  if (0 <? topK) && (topK <? len l) then dropZ topK (sort_slice (fun a b => p_lt b.2 a.2) l)
  else if len l <=? topK then [] else l.

(** Round 3: the ten connected longest are kept. *)
Definition drop_oldest (l : list kv) : list kv :=
  if 0 <? len l then
    let uptimeK := Z.min 10 (len l) in
    if (0 <? uptimeK) && (uptimeK <? len l)
    then dropZ uptimeK (sort_slice (fun a b => ri_connectedSince a.1.2 <? ri_connectedSince b.1.2) l)
    else if len l <=? uptimeK then [] else l
  else l.

Definition victims (now : Z) (p : RelayPool) (mainPids : list (string * RelayItem))
    : list (string * RelayItem) :=
  fst <$> sort_slice (fun a b : kv => p_lt a.2 b.2) (drop_oldest (drop_best (candidates now p mainPids))).

Definition prune (now : Z) (p : RelayPool) : RelayPool :=
  if pool_size p <=? rp_highWater p then p
  else
    let need := pool_size p - rp_lowWater p in
    let probationPids := probation_of p in
    let mainPids := main_of p in
    let '(evictFromProbation, evictFromMain) := quotas need (len probationPids) (len mainPids) in
    let p := if 0 <? evictFromProbation
             then evict (takeZ evictFromProbation (by_age probationPids)) p else p in
    if 0 <? evictFromMain then
      let gone := takeZ evictFromMain (victims now p mainPids) in
      let p := evict gone p in
      let evictFromMain := evictFromMain - len gone in
      if 0 <? evictFromMain then evict (takeZ evictFromMain (by_age (probation_of p))) p else p
    else p.

(** ** Operations *)

(** The first critical section of [Add], for a parsed address, and whether the
    peer is new; [prune] is the second one. *)
Definition Add_insert (now : Z) (pid addr : string) (p : RelayPool) : RelayPool * bool :=
  match rp_items p !! pid with
  | Some _ => (p, false)
  | None =>
      let item := {|
        ri_PeerID := pid; ri_Addr := addr; ri_inMain := false; ri_successScore := p_lit 70 2;
        ri_avgRTT := 0; ri_limitDuration := 0; ri_limitData := 0; ri_rateLimitHits := 0;
        ri_consecutiveFails := 0; ri_circuitOpen := false; ri_reservationExpires := 0;
        ri_connectedSince := now; ri_lastResult := 0 |} in
      (p <| rp_items := <[pid := item]> (rp_items p) |>, true)
  end.

(** A call of [Add] with nothing between its two critical sections and one reading
    of the clock; [RelayPoolProps] takes the sections apart. *)
Definition Add (now : Z) (parsed : option (string * string)) (p : RelayPool) : RelayPool :=
  match parsed with
  | None => p
  | Some (pid, addr) =>
      let '(p, added) := Add_insert now pid addr p in
      if added : bool then prune now p else p
  end.

Definition Remove (pid : string) (p : RelayPool) : RelayPool :=
  p <| rp_items := delete pid (rp_items p) |>
    <| rp_protected := rp_protected p ∖ {[pid]} |>
    <| rp_managed := rp_managed p ∖ {[pid]} |>.

Definition Protect (pid : string) (p : RelayPool) : RelayPool :=
  p <| rp_protected := {[pid]} ∪ rp_protected p |>.
Definition Unprotect (pid : string) (p : RelayPool) : RelayPool :=
  p <| rp_protected := rp_protected p ∖ {[pid]} |>.
Definition AddManaged (pids : list string) (p : RelayPool) : RelayPool :=
  p <| rp_managed := foldl (fun m pid => {[pid]} ∪ m) (rp_managed p) pids |>.
Definition RemoveManaged (pids : list string) (p : RelayPool) : RelayPool :=
  p <| rp_managed := foldl (fun m pid => m ∖ {[pid]}) (rp_managed p) pids |>.

Definition IsCircuitOpen (pid : string) (p : RelayPool) : bool :=
  match rp_items p !! pid with Some item => ri_circuitOpen item | None => false end.

(** The changes of [RecordResult] to the item. *)
Definition record_item (now : Z) (err : option pool_error) (item : RelayItem) : RelayItem :=
  let item :=
    match classifyError err with
    | errOK =>
        item <| ri_successScore := ema (ri_successScore item) (p_of_Z 1) (p_lit 3 1) |>
             <| ri_consecutiveFails := 0 |> <| ri_circuitOpen := false |> <| ri_inMain := true |>
    | errRateLimited =>
        item <| ri_successScore := ema (ri_successScore item) (p_of_Z 0) (p_lit 5 1) |>
             <| ri_rateLimitHits := ri_rateLimitHits item + 1 |>
    | errFailed =>
        let item := item <| ri_successScore := ema (ri_successScore item) (p_of_Z 0) (p_lit 3 1) |>
                         <| ri_consecutiveFails := ri_consecutiveFails item + 1 |> in
        let item := if ri_inMain item && (demoteThreshold <=? ri_consecutiveFails item)
                    then item <| ri_inMain := false |> <| ri_successScore := p_lit 70 2 |> else item in
        if 5 <=? ri_consecutiveFails item then item <| ri_circuitOpen := true |> else item
    end in
  item <| ri_lastResult := now |>.

(** The first critical section of [RecordResult], and whether the relay is there. *)
Definition RecordResult_update (now : Z) (pid : string) (err : option pool_error) (p : RelayPool) : RelayPool * bool :=
  match rp_items p !! pid with
  | None => (p, false)
  | Some item => (p <| rp_items := <[pid := record_item now err item]> (rp_items p) |>, true)
  end.

(** A call with nothing between the update and [prune]. *)
Definition RecordResult (now : Z) (pid : string) (err : option pool_error) (p : RelayPool) : RelayPool :=
  let '(p, found) := RecordResult_update now pid err p in
  if found : bool then prune now p else p.

(** The item, changed in place when it is there. *)
Definition update_item (pid : string) (f : RelayItem -> RelayItem) (p : RelayPool) : RelayPool :=
  match rp_items p !! pid with
  | Some item => p <| rp_items := <[pid := f item]> (rp_items p) |>
  | None => p
  end.

Definition SetRelayLimits (pid : string) (dur data : Z) : RelayPool -> RelayPool :=
  update_item pid (fun i => i <| ri_limitDuration := dur |> <| ri_limitData := data |>).
Definition SetReservationTTL (pid : string) (expires : Z) : RelayPool -> RelayPool :=
  update_item pid (fun i => i <| ri_reservationExpires := expires |>).

(** A ping of the health check that succeeded. *)
Definition health_ok (pid : string) (rtt : Z) : RelayPool -> RelayPool :=
  update_item pid (fun i => i <| ri_avgRTT := emaRTT (ri_avgRTT i) rtt (p_lit 3 1) |>
    <| ri_successScore := ema (ri_successScore i) (p_of_Z 1) (p_lit 3 1) |>
    <| ri_consecutiveFails := 0 |>).

(** The peers a health check pings. *)
Definition health_targets (connected : string -> bool) (p : RelayPool) : list string :=
  (fun e => ri_PeerID e.2) <$>
  filter (fun e => ri_circuitOpen e.2 = false /\ connected (ri_PeerID e.2) = true) (map_range (rp_items p)).

Definition SetWeights (w : WeightConfig) (p : RelayPool) : RelayPool := p <| rp_config := w |>.

Definition SetWeight (factor : Z) (value : pfloat) (p : RelayPool) : RelayPool :=
  let value := if p_lt value (p_of_Z 0) then p_of_Z 0 else value in
  let value := if p_lt (p_of_Z 1) value then p_of_Z 1 else value in
  let c := rp_config p in
  p <| rp_config :=
    if factor =? 0 then c <| wc_Success := value |>
    else if factor =? 1 then c <| wc_Latency := value |>
    else if factor =? 2 then c <| wc_DataLimit := value |>
    else if factor =? 3 then c <| wc_DurationLimit := value |>
    else if factor =? 4 then c <| wc_TTL := value |>
    else if factor =? 5 then c <| wc_Uptime := value |>
    else c |>.

(** ** Selection *)

(** The relays whose circuit is closed, with their scores. *)
Definition entries (now : Z) (p : RelayPool) : list kv :=
  (fun e => (e, calcScore now (rp_config p) e.2)) <$>
  filter (fun e => ri_circuitOpen e.2 = false) (map_range (rp_items p)).

(** The walk down the scores until the draw is used up. *)
Fixpoint select_walk (r : pfloat) (l : list kv) : option kv :=
  match l with
  | [] => None
  | e :: l =>
      let r := p_sub r e.2 in
      if p_le r (p_of_Z 0) then Some e else select_walk r l
  end.

(** [Select] with its random draws: two of [rand.Float64()] and one of
    [rand.Intn(len(entries))]. *)
Definition Select (now : Z) (explore draw : pfloat) (pick : Z) (p : RelayPool) : option string :=
  let l := entries now p in
  match l with
  | [] => None
  | _ =>
      let chosen (i : Z) := (fun e : kv => ri_Addr e.1.2) <$> l !! Z.to_nat i in
      if p_lt explore (p_lit 1 1) then chosen pick
      else
        let total := foldl (fun s (e : kv) => p_add s e.2) (p_of_Z 0) l in
        if p_eq total (p_of_Z 0) then chosen pick
        else
          match select_walk (p_mul draw total) l with
          | Some e => Some (ri_Addr e.1.2)
          | None => chosen (len l - 1)
          end
  end.

(** The peers and addresses of the [n] best; panics on a negative [n]. *)
Definition SelectN (now n : Z) (p : RelayPool) : outcome (list (string * string)) :=
  let l := sort_slice (fun a b : kv => p_lt b.2 a.2) (entries now p) in
  let n := Z.min n (len l) in
  if n <? 0 then Panic
  else Ok ((fun e : kv => (e.1.1, ri_Addr e.1.2)) <$> takeZ n l).

Record RelayPoolStats := mkStats {
  ps_Total : Z;
  ps_Healthy : Z;
  ps_CircuitOpen : Z;
  ps_AvgScore : pfloat;
  ps_ProbationCnt : Z;
  ps_MainCnt : Z;
}.

Definition count (f : RelayItem -> bool) (p : RelayPool) : Z :=
  len (filter (fun e => f e.2 = true) (map_range (rp_items p))).

Definition Stats (now : Z) (p : RelayPool) : RelayPoolStats :=
  let total := pool_size p in
  let totalScore := foldl (fun s e => p_add s (calcScore now (rp_config p) e.2)) (p_of_Z 0)
                      (map_range (rp_items p)) in
  {| ps_Total := total;
     ps_Healthy := count (fun i => negb (ri_circuitOpen i)) p;
     ps_CircuitOpen := count ri_circuitOpen p;
     ps_AvgScore := if 0 <? total then p_div totalScore (p_of_Z total) else p_of_Z 0;
     ps_ProbationCnt := count (fun i => negb (ri_inMain i)) p;
     ps_MainCnt := count ri_inMain p |}.
End pool.
