(* ===== verification/RelayPoolProps.v ===== *)
(** What the relay pool guarantees (src/p2put/relaypool.go): the outcome of
    pruning, the capacity and the tiers of a pool under any sequence of calls,
    the circuit breaker, and what selection returns. *)

From Stdlib Require Import Sorting.Permutation Sorting.Sorted.
From stdpp Require Import gmap strings.
From S2P Require Import Prelude GoLib RelayPool.

Section pool.
Context {F : PoolFloat} {O : MapOrder} {Srt : SortSlice}.
Context `{!MapOrderLaws O} `{!SortSliceLaws Srt}.
Implicit Types (p : RelayPool) (l : list (string * RelayItem)).

(** ** Eviction *)

Lemma evict_fields l p :
  rp_config (evict l p) = rp_config p /\ rp_lowWater (evict l p) = rp_lowWater p /\
  rp_highWater (evict l p) = rp_highWater p /\ rp_managed (evict l p) = rp_managed p.
Proof. revert p. induction l as [|e l IH]; intros p; [done|]. apply (IH (evict_one p e)). Qed.

Lemma evict_low l p : rp_lowWater (evict l p) = rp_lowWater p.
Proof. apply evict_fields. Qed.
Lemma evict_high l p : rp_highWater (evict l p) = rp_highWater p.
Proof. apply evict_fields. Qed.

Lemma evict_lookup l p k :
  rp_items (evict l p) !! k = if bool_decide (k ∈ l.*1) then None else rp_items p !! k.
Proof.
  revert p. induction l as [|e l IH]; intros p; [done|]. change (evict (e :: l) p) with (evict l (evict_one p e)).
  rewrite IH. cbn [evict_one rp_items set_field fmap list_fmap]. destruct (decide (k = e.1)) as [->|Hne].
  - rewrite (bool_decide_eq_true_2 (e.1 ∈ e.1 :: _)) by (apply elem_of_cons; by left).
    case_bool_decide; [done|]. apply lookup_delete_eq.
  - assert (bool_decide (k ∈ l.*1) = bool_decide (k ∈ e.1 :: l.*1)) as <-
      by (apply bool_decide_ext; rewrite elem_of_cons; naive_solver).
    case_bool_decide; [done|]. by apply lookup_delete_ne.
Qed.

Lemma evict_protected l p k :
  k ∈ rp_protected (evict l p) <-> k ∈ rp_protected p /\ k ∉ l.*1.
Proof.
  revert p. induction l as [|e l IH]; intros p; [cbn; set_solver|].
  change (evict (e :: l) p) with (evict l (evict_one p e)). rewrite IH.
  cbn [evict_one rp_protected set_field fmap list_fmap]. set_solver.
Qed.

(** [l] lists entries of the pool, each once. *)
Definition listed_in l p : Prop := NoDup l.*1 /\ forall e, e ∈ l -> rp_items p !! e.1 = Some e.2.

Lemma evict_size l p : listed_in l p -> pool_size (evict l p) = pool_size p - len l.
Proof.
  revert p. induction l as [|e l IH]; intros p [Hnd Hin]; [cbn; unfold pool_size; lia|].
  cbn [fmap list_fmap] in Hnd. apply NoDup_cons in Hnd as [Hne Hnd].
  change (evict (e :: l) p) with (evict l (evict_one p e)). rewrite IH.
  - unfold pool_size. cbn [evict_one rp_items set_field length].
    assert (rp_items p !! e.1 = Some e.2) as He by (apply Hin; left).
    rewrite map_size_delete_Some by eauto.
    assert (size (rp_items p) <> 0)%nat by (intros H0%map_size_empty_inv; rewrite H0, lookup_empty in He; done). lia.
  - split; [done|]. intros x Hx. cbn. rewrite lookup_delete_ne; [by apply Hin; right|].
    intros E. apply Hne. rewrite E. by apply list_elem_of_fmap_2.
Qed.

Lemma listed_sub l l' p : listed_in l p -> l' ⊆+ l -> listed_in l' p.
Proof.
  intros [Hnd Hin] [r Hp]%submseteq_Permutation. split.
  - rewrite Hp, fmap_app in Hnd. by apply NoDup_app in Hnd as [? _].
  - intros e He. apply Hin. rewrite Hp. apply elem_of_app. by left.
Qed.

Lemma listed_take n l l' p : listed_in l p -> l' ≡ₚ l -> listed_in (takeZ n l') p.
Proof. intros Hl Hp. apply (listed_sub l); [done|]. rewrite <- Hp. apply sublist_submseteq, sublist_take. Qed.

(** Entries that survive an eviction of others are still listed. *)
Lemma listed_evict l l' p : listed_in l p -> (forall e, e ∈ l -> e.1 ∉ l'.*1) -> listed_in l (evict l' p).
Proof.
  intros [Hnd Hin] Hdis. split; [done|]. intros e He. rewrite evict_lookup.
  rewrite bool_decide_eq_false_2 by (by apply Hdis). by apply Hin.
Qed.

Lemma evict_take n l p : (if 0 <? n then evict (takeZ n l) p else p) = evict (takeZ n l) p.
Proof. destruct (Z.ltb_spec 0 n); [done|]. unfold takeZ. by replace (Z.to_nat n) with 0%nat by lia. Qed.

(** ** The tiers as lists *)

Lemma tier_spec (f : RelayItem -> bool) b p :
  listed_in (filter (fun e => f e.2 = b) (map_range (rp_items p))) p /\
  forall e, e ∈ filter (fun e => f e.2 = b) (map_range (rp_items p)) <->
    rp_items p !! e.1 = Some e.2 /\ f e.2 = b.
Proof.
  assert (forall e, e ∈ filter (fun e => f e.2 = b) (map_range (rp_items p)) <->
    rp_items p !! e.1 = Some e.2 /\ f e.2 = b) as He.
  { intros [k i]. rewrite list_elem_of_filter, (map_range_perm _ (rp_items p)), elem_of_map_to_list. naive_solver. }
  split; [|done]. split; [|intros e Hin; by apply He in Hin as [? _]].
  rewrite (map_range_perm _ (rp_items p)). eapply (sublist_NoDup _ ((map_to_list (rp_items p)).*1));
    [apply NoDup_fst_map_to_list|]. apply fmap_sublist, sublist_filter.
Qed.

Lemma probation_spec p : listed_in (probation_of p) p /\
  forall e, e ∈ probation_of p <-> rp_items p !! e.1 = Some e.2 /\ ri_inMain e.2 = false.
Proof. apply (tier_spec ri_inMain false). Qed.

Lemma main_spec p : listed_in (main_of p) p /\
  forall e, e ∈ main_of p <-> rp_items p !! e.1 = Some e.2 /\ ri_inMain e.2 = true.
Proof. apply (tier_spec ri_inMain true). Qed.

Lemma tiers_size p : len (probation_of p) + len (main_of p) = pool_size p.
Proof.
  unfold probation_of, main_of, pool_size.
  rewrite <- (length_map_to_list (rp_items p)), <- (Permutation_length (map_range_perm _ (rp_items p))).
  generalize (map_range (rp_items p)) as l. induction l as [|e l IH]; [done|].
  rewrite !filter_cons. destruct (ri_inMain e.2); repeat case_decide; try done; cbn; lia.
Qed.

(** ** Victims *)

Lemma drop_sort_sub {A} n (less : A -> A -> bool) (xs : list A) : dropZ n (sort_slice less xs) ⊆+ xs.
Proof. rewrite <- (sort_slice_perm _ less xs) at 2. apply sublist_submseteq, sublist_drop. Qed.

Lemma drop_best_sub (xs : list kv) : drop_best xs ⊆+ xs.
Proof.
  unfold drop_best. case_match; [apply drop_sort_sub|]. case_match; [apply submseteq_nil_l|done].
Qed.

Lemma drop_oldest_sub (xs : list kv) : drop_oldest xs ⊆+ xs.
Proof.
  unfold drop_oldest. case_match; [|done]. cbv zeta. case_match; [apply drop_sort_sub|].
  case_match; [apply submseteq_nil_l|done].
Qed.

(** Whom round 1 leaves to be evicted. *)
Definition evictable (now : Z) p (e : string * RelayItem) : Prop :=
  (e.1 ∉ rp_protected p) /\ 5 * minute <= time_sub now (ri_lastResult e.2).

Lemma victims_candidates now p l : victims now p l ⊆+ (candidates now p l).*1.
Proof.
  unfold victims. rewrite sort_slice_perm. apply fmap_submseteq.
  etrans; [apply drop_oldest_sub|apply drop_best_sub].
Qed.

Lemma victims_sub now p l : victims now p l ⊆+ l.
Proof.
  etrans; [apply victims_candidates|]. unfold candidates. rewrite <- list_fmap_compose.
  rewrite (list_fmap_ext _ id) by done. rewrite list_fmap_id. apply sublist_submseteq, sublist_filter.
Qed.

Lemma victims_evictable now p l e : e ∈ victims now p l -> evictable now p e.
Proof.
  intros He. pose proof (elem_of_submseteq _ _ _ He (victims_candidates now p l)) as Hc.
  unfold candidates in Hc. rewrite <- list_fmap_compose in Hc.
  apply list_elem_of_fmap in Hc as (x & -> & Hx). by apply list_elem_of_filter in Hx as [(_ & ? & ?) _].
Qed.

(** ** Pruning *)

Lemma quotas_spec need P M : 0 <= P -> 0 <= M -> 0 <= need <= P + M ->
  exists a b, quotas need P M = (a, b) /\ a + b = need /\ 0 <= a <= P /\ 0 <= b <= M.
Proof. intros HP HM Hn. unfold quotas. repeat case_match; simplify_eq; zbool; eexists _, _; (split; [done|]); mlia. Qed.

(** The three eviction loops, one after the other. *)
Lemma prune_stages now p : rp_highWater p < pool_size p -> 0 <= rp_lowWater p <= rp_highWater p ->
  exists a b, let p1 := evict (takeZ a (by_age (probation_of p))) p in
    let gone := takeZ b (victims now p1 (main_of p)) in
    let p2 := evict gone p1 in
    prune now p = evict (takeZ (b - len gone) (by_age (probation_of p2))) p2 /\
    a + b = pool_size p - rp_lowWater p /\ 0 <= a <= len (probation_of p) /\ 0 <= b <= len (main_of p).
Proof.
  intros Hs Hw. pose proof (tiers_size p) as Ht.
  destruct (quotas_spec (pool_size p - rp_lowWater p) (len (probation_of p)) (len (main_of p)))
    as (a & b & Hq & Hab & Ha & Hb); [lia..|].
  exists a, b. cbv zeta. split; [|done]. unfold prune. replace (pool_size p <=? rp_highWater p) with false by lia.
  rewrite Hq, evict_take, evict_take. destruct (Z.ltb_spec 0 b) as [|Hb0]; [done|].
  assert (b = 0) as -> by lia. done.
Qed.

Lemma by_age_split n l x y : x ∈ takeZ n (by_age l) -> y ∈ dropZ n (by_age l) ->
  ri_connectedSince x.2 <= ri_connectedSince y.2.
Proof.
  pose proof (sort_slice_sorted _ (fun a b : string * RelayItem => ri_connectedSince a.2 <? ri_connectedSince b.2)
    (fun e => ri_connectedSince e.2) l ltac:(done)) as Hs.
  change (StronglySorted (fun a b => ri_connectedSince a.2 <= ri_connectedSince b.2) (by_age l)) in Hs.
  rewrite <- (take_dropZ n (by_age l)) in Hs. intros Hx Hy.
  induction (takeZ n (by_age l)) as [|z zs IH]; [by apply not_elem_of_nil in Hx|].
  cbn [app] in Hs. apply StronglySorted_inv in Hs as [Hs Hall]. apply elem_of_cons in Hx as [->|Hx]; [|by apply IH].
  rewrite Forall_forall in Hall. apply Hall. apply elem_of_app. by right.
Qed.

(** What [prune] leaves of a pool above its high-water mark. *)
Record pruned (now : Z) p p' : Prop := {
  pr_subset : rp_items p' ⊆ rp_items p;
  pr_floor : rp_lowWater p <= pool_size p';
  pr_size : pool_size p' = rp_lowWater p \/
    (forall k i, rp_items p' !! k = Some i -> ri_inMain i = true);
  pr_fifo : forall k i k' i', rp_items p !! k = Some i -> ri_inMain i = false -> rp_items p' !! k = None ->
    rp_items p' !! k' = Some i' -> ri_inMain i' = false -> ri_connectedSince i <= ri_connectedSince i';
  pr_main : forall k i, rp_items p !! k = Some i -> ri_inMain i = true ->
    k ∈ rp_protected p \/ time_sub now (ri_lastResult i) < 5 * minute -> rp_items p' !! k = Some i;
}.

Lemma listed_lookup l p e e' : listed_in l p -> e ∈ l -> rp_items p !! e'.1 = Some e'.2 -> e.1 = e'.1 -> e = e'.
Proof. intros [_ Hin] He He' E. apply Hin in He. rewrite E in He. destruct e, e'. cbn in *. congruence. Qed.

(** What is left of probation after evicting its oldest and some of main. *)
Section stages.
Context (p : RelayPool) (a : Z) (gone : list (string * RelayItem)).
Let aged := by_age (probation_of p).
Let A := takeZ a aged.
Let R := dropZ a aged.
Context (Hgone : gone ⊆+ main_of p).

Lemma aged_perm : aged ≡ₚ probation_of p.
Proof. apply sort_slice_perm. Qed.

Lemma aged_listed : listed_in aged p.
Proof. apply (listed_sub (probation_of p)); [apply probation_spec|]. by rewrite aged_perm. Qed.

Lemma A_elem e : e ∈ A -> rp_items p !! e.1 = Some e.2 /\ ri_inMain e.2 = false.
Proof. intros He. apply probation_spec. rewrite <- aged_perm, <- (take_dropZ a aged). apply elem_of_app. by left. Qed.

Lemma R_elem e : e ∈ R -> rp_items p !! e.1 = Some e.2 /\ ri_inMain e.2 = false.
Proof. intros He. apply probation_spec. rewrite <- aged_perm, <- (take_dropZ a aged). apply elem_of_app. by right. Qed.

Lemma gone_elem e : e ∈ gone -> rp_items p !! e.1 = Some e.2 /\ ri_inMain e.2 = true.
Proof. intros He. apply main_spec. by apply (elem_of_submseteq gone). Qed.

Lemma tiers_disjoint e e' : rp_items p !! e.1 = Some e.2 /\ ri_inMain e.2 = false ->
  rp_items p !! e'.1 = Some e'.2 /\ ri_inMain e'.2 = true -> e.1 <> e'.1.
Proof. intros [H1 H2] [H3 H4] E. rewrite E, H3 in H1. congruence. Qed.

Lemma not_gone e : rp_items p !! e.1 = Some e.2 -> ri_inMain e.2 = false -> e.1 ∉ gone.*1.
Proof.
  intros H1 H2 (x & E & Hx)%list_elem_of_fmap. apply gone_elem in Hx. by apply (tiers_disjoint e x).
Qed.

Lemma stage2_lookup k : rp_items (evict gone (evict A p)) !! k =
  if bool_decide (k ∈ gone.*1) then None else if bool_decide (k ∈ A.*1) then None else rp_items p !! k.
Proof. by rewrite !evict_lookup. Qed.

Lemma A_not_R e : e ∈ R -> e.1 ∉ A.*1.
Proof.
  intros He (x & E & Hx)%list_elem_of_fmap. destruct aged_listed as [Hnd _].
  rewrite <- (take_dropZ a aged), fmap_app in Hnd. apply NoDup_app in Hnd as (_ & Hd & _).
  apply (Hd e.1); [rewrite E; by apply list_elem_of_fmap_2|by apply list_elem_of_fmap_2].
Qed.

Lemma stage2_probation : probation_of (evict gone (evict A p)) ≡ₚ R.
Proof.
  apply NoDup_Permutation.
  - eapply NoDup_fmap_1, probation_spec.
  - destruct aged_listed as [Hnd _]. apply NoDup_fmap_1 in Hnd. by apply (sublist_NoDup _ aged), sublist_drop.
  - intros e. rewrite (proj2 (probation_spec _)), stage2_lookup. split.
    + intros [Hl Hm]. case_bool_decide; [done|]. case_bool_decide as HA; [done|].
      assert (e ∈ A ++ R) as Hin.
      { unfold A, R. rewrite take_dropZ, aged_perm. by apply probation_spec. }
      apply elem_of_app in Hin as [Hin|]; [|done]. by destruct HA; apply list_elem_of_fmap_2.
    + intros He. pose proof (R_elem e He) as [Hl Hm]. split; [|done].
      rewrite bool_decide_eq_false_2 by (by apply not_gone). by rewrite bool_decide_eq_false_2 by (by apply A_not_R).
Qed.

Lemma stage2_size : pool_size (evict gone (evict A p)) = pool_size p - len A - len gone.
Proof.
  rewrite evict_size, evict_size; [lia| |].
  - apply (listed_take a aged); [apply aged_listed|done].
  - apply listed_evict; [apply (listed_sub (main_of p)); [apply main_spec|done]|].
    intros e He (x & E & Hx)%list_elem_of_fmap. by apply (tiers_disjoint x e); [apply A_elem|apply gone_elem|].
Qed.
End stages.

(** The stages put together. *)
Section run.
Context (now : Z) (p : RelayPool) (a b : Z) (Ha : 0 <= a <= len (probation_of p)) (Hb : 0 <= b).
Let A := takeZ a (by_age (probation_of p)).
Let p1 := evict A p.
Let gone := takeZ b (victims now p1 (main_of p)).
Let p2 := evict gone p1.
Let c := b - len gone.
Let B := takeZ c (by_age (probation_of p2)).
Let p3 := evict B p2.

Lemma run_gone : gone ⊆+ main_of p.
Proof. etrans; [apply sublist_submseteq, sublist_take|apply victims_sub]. Qed.

Lemma run_B e : e ∈ B -> rp_items p2 !! e.1 = Some e.2 /\ ri_inMain e.2 = false.
Proof. apply A_elem. Qed.

Lemma run_lookup k : rp_items p3 !! k =
  if bool_decide (k ∈ B.*1) then None else
  if bool_decide (k ∈ gone.*1) then None else if bool_decide (k ∈ A.*1) then None else rp_items p !! k.
Proof. unfold p3, p2, p1, A. by rewrite evict_lookup, stage2_lookup. Qed.

Lemma run_kept k i : rp_items p3 !! k = Some i ->
  (k ∉ B.*1) /\ rp_items p2 !! k = Some i /\ rp_items p !! k = Some i.
Proof.
  unfold p3. rewrite evict_lookup. case_bool_decide as H; [done|]. intros H2. split; [done|]. split; [done|].
  unfold p2, p1, A in H2. rewrite stage2_lookup in H2. do 2 (case_bool_decide; [done|]). done.
Qed.

Lemma run_size : pool_size p3 = pool_size p - a - len gone - Z.min c (len (probation_of p) - a).
Proof.
  assert (len gone <= b) by (unfold gone; rewrite length_takeZ_min; lia).
  unfold p3. rewrite evict_size by (apply (listed_take c (probation_of p2)); [apply probation_spec|apply sort_slice_perm]).
  unfold p2, p1, A at 1. rewrite (stage2_size p a gone run_gone).
  assert (len (takeZ a (by_age (probation_of p))) = a) as ->.
  { rewrite length_takeZ_min by lia. rewrite (Permutation_length (aged_perm p)). lia. }
  unfold B. rewrite length_takeZ_min by (unfold c; lia). rewrite (Permutation_length (aged_perm p2)).
  unfold p2, p1, A. rewrite (Permutation_length (stage2_probation p a gone run_gone)).
  unfold dropZ. rewrite length_drop, (Permutation_length (aged_perm p)). lia.
Qed.

Lemma run_floor low : a + b = pool_size p - low -> low <= pool_size p3 /\
  (pool_size p3 = low \/ forall k i, rp_items p3 !! k = Some i -> ri_inMain i = true).
Proof.
  intros Hab. rewrite run_size.
  assert (len gone <= b) by (unfold gone; rewrite length_takeZ_min; lia).
  unfold c. split; [lia|]. destruct (Z.le_gt_cases (b - len gone) (len (probation_of p) - a)) as [|Hgt]; [left; lia|right].
  intros k i (HnB & H2 & _)%run_kept. destruct (ri_inMain i) eqn:Hm; [done|]. destruct HnB.
  assert ((k, i) ∈ B) as Hin; [|by apply (list_elem_of_fmap_2 fst) in Hin].
  assert (B = by_age (probation_of p2)) as ->.
  { unfold B, takeZ. apply take_ge. rewrite (Permutation_length (aged_perm p2)). unfold p2, p1, A.
    rewrite (Permutation_length (stage2_probation p a gone run_gone)).
    unfold dropZ. rewrite length_drop, (Permutation_length (aged_perm p)). unfold c. lia. }
  rewrite aged_perm. by apply probation_spec.
Qed.

Lemma run_fifo k i k' i' : rp_items p !! k = Some i -> ri_inMain i = false -> rp_items p3 !! k = None ->
  rp_items p3 !! k' = Some i' -> ri_inMain i' = false -> ri_connectedSince i <= ri_connectedSince i'.
Proof.
  intros Hk Hm Hnone (HnB & H2 & H0)%run_kept Hm'. rewrite run_lookup in Hnone.
  pose proof (not_gone p gone run_gone (k, i) Hk Hm) as Hng. cbn in Hng.
  rewrite (bool_decide_eq_false_2 (k ∈ gone.*1)) in Hnone by done.
  assert ((k', i') ∈ probation_of p2) as H2' by (by apply probation_spec).
  case_bool_decide as HB; [|case_bool_decide as HA; [|congruence]].
  - apply list_elem_of_fmap in HB as ([k0 i0] & -> & HB). cbn in *.
    pose proof (run_B _ HB) as [Hl _]. assert (i0 = i) as ->.
    { cbn in Hl. unfold p2, p1, A in Hl. rewrite stage2_lookup in Hl. do 2 (case_bool_decide; [done|]). congruence. }
    apply (by_age_split c (probation_of p2) (k0, i) (k', i') HB).
    rewrite <- aged_perm, <- (take_dropZ c) in H2'. apply elem_of_app in H2' as [H2'|]; [|done].
    destruct HnB. by apply (list_elem_of_fmap_2 fst) in H2'.
  - apply list_elem_of_fmap in HA as ([k0 i0] & -> & HA). cbn in *.
    assert (i0 = i) as -> by (apply A_elem in HA as [HA _]; cbn in HA; congruence).
    apply (by_age_split a (probation_of p) (k0, i) (k', i') HA).
    unfold p2, p1, A in H2'. by rewrite (stage2_probation p a gone run_gone) in H2'.
Qed.

Lemma run_main k i : rp_items p !! k = Some i -> ri_inMain i = true ->
  k ∈ rp_protected p \/ time_sub now (ri_lastResult i) < 5 * minute -> rp_items p3 !! k = Some i.
Proof.
  intros Hk Hm Hsafe. rewrite run_lookup.
  assert (k ∉ A.*1) as HA.
  { intros (x & -> & Hx)%list_elem_of_fmap. apply A_elem in Hx as [Hx ?]. congruence. }
  assert (k ∉ gone.*1) as Hg.
  { intros (x & -> & Hx)%list_elem_of_fmap. pose proof (gone_elem p gone run_gone x Hx) as [Hx' _].
    assert (x.2 = i) as Hxi by congruence.
    assert (x ∈ victims now p1 (main_of p)) as Hv
      by (rewrite <- (take_dropZ b (victims now p1 (main_of p))); apply elem_of_app; by left).
    apply victims_evictable in Hv as [Hp Ht]. rewrite Hxi in Ht. destruct Hsafe as [Hsafe|]; [|lia].
    apply Hp. by apply evict_protected. }
  rewrite !bool_decide_eq_false_2; [done|done|done|].
  intros (x & -> & Hx)%list_elem_of_fmap. apply run_B in Hx as [Hl Hx].
  unfold p2, p1, A in Hl. rewrite stage2_lookup in Hl. do 2 (case_bool_decide; [done|]). congruence.
Qed.
End run.

Lemma prune_pruned now p : rp_highWater p < pool_size p -> 0 <= rp_lowWater p <= rp_highWater p ->
  pruned now p (prune now p).
Proof.
  intros Hs Hw. destruct (prune_stages now p Hs Hw) as (a & b & -> & Hab & Ha & Hb).
  destruct (run_floor now p a b Ha ltac:(lia) (rp_lowWater p) Hab) as [Hfloor Hsize].
  split; [|done|done|by apply run_fifo|by apply run_main].
  apply map_subseteq_spec. intros k i. by intros (_ & _ & ?)%run_kept.
Qed.

Lemma prune_cases now p : 0 <= rp_lowWater p <= rp_highWater p ->
  (pool_size p <= rp_highWater p -> prune now p = p) /\
  (rp_highWater p < pool_size p -> pruned now p (prune now p)).
Proof.
  intros Hw. split; [|intros Hs; by apply prune_pruned].
  intros Hs. unfold prune. by replace (pool_size p <=? rp_highWater p) with true by lia.
Qed.

(** C28: What pruning does to a pool above its high-water mark: it only removes,
    never below the low-water mark; it reaches the low-water mark unless
    probation is empty; probation leaves oldest first; protected and recently
    active relays of the main tier stay.  Below the mark it does nothing. *)
Theorem prune_outcome now p : 0 <= rp_lowWater p <= rp_highWater p ->
  (pool_size p <= rp_highWater p -> prune now p = p) /\
  (rp_highWater p < pool_size p -> pruned now p (prune now p)).
Proof. apply prune_cases. Qed.

(** ** The pool under calls that run to their end *)

Inductive pool_op :=
  | OpAdd (now : Z) (parsed : option (string * string))
  | OpRemove (pid : string)
  | OpProtect (pid : string)
  | OpUnprotect (pid : string)
  | OpAddManaged (pids : list string)
  | OpRemoveManaged (pids : list string)
  | OpRecord (now : Z) (pid : string) (err : option pool_error)
  | OpLimits (pid : string) (dur data : Z)
  | OpTTL (pid : string) (expires : Z)
  | OpHealth (pid : string) (rtt : Z)
  | OpWeights (w : WeightConfig)
  | OpWeight (factor : Z) (value : pfloat).

Definition pool_exec (op : pool_op) : RelayPool -> RelayPool :=
  match op with
  | OpAdd now parsed => Add now parsed
  | OpRemove pid => Remove pid
  | OpProtect pid => Protect pid
  | OpUnprotect pid => Unprotect pid
  | OpAddManaged pids => AddManaged pids
  | OpRemoveManaged pids => RemoveManaged pids
  | OpRecord now pid err => RecordResult now pid err
  | OpLimits pid dur data => SetRelayLimits pid dur data
  | OpTTL pid expires => SetReservationTTL pid expires
  | OpHealth pid rtt => health_ok pid rtt
  | OpWeights w => SetWeights w
  | OpWeight factor value => SetWeight factor value
  end.

(** An item is filed under its peer, and a relay in the main tier has a closed
    circuit and fewer failures than demotion takes. *)
Definition item_ok (k : string) (i : RelayItem) : Prop :=
  ri_PeerID i = k /\ 0 <= ri_consecutiveFails i /\
  (ri_inMain i = true -> ri_circuitOpen i = false /\ ri_consecutiveFails i < demoteThreshold).

Record pool_inv p : Prop := {
  pi_low : rp_lowWater p = poolLowWater;
  pi_high : rp_highWater p = poolHighWater;
  pi_size : pool_size p <= poolHighWater;
  pi_items : map_Forall item_ok (rp_items p);
}.

Lemma prune_fields now p : 0 <= rp_lowWater p <= rp_highWater p ->
  rp_lowWater (prune now p) = rp_lowWater p /\ rp_highWater (prune now p) = rp_highWater p /\
  rp_items (prune now p) ⊆ rp_items p.
Proof.
  intros Hw. destruct (Z.le_gt_cases (pool_size p) (rp_highWater p)) as [Hle|Hgt].
  - unfold prune. by replace (pool_size p <=? rp_highWater p) with true by lia.
  - pose proof (pr_subset _ _ _ (prune_pruned now p Hgt Hw)) as Hsub.
    destruct (prune_stages now p Hgt Hw) as (a & b & E & _). cbv zeta in E. rewrite E in *.
    by rewrite !evict_low, !evict_high.
Qed.

Lemma pool_inv_prune now p : rp_lowWater p = poolLowWater -> rp_highWater p = poolHighWater ->
  map_Forall item_ok (rp_items p) -> pool_size (prune now p) <= poolHighWater -> pool_inv (prune now p).
Proof.
  intros Hl Hh Hi Hs.
  destruct (prune_fields now p) as (Hl' & Hh' & Hsub); [rewrite Hl, Hh; unfold poolLowWater, poolHighWater; lia|].
  split; [congruence|congruence|done|].
  intros k i Hk. apply Hi. by apply (lookup_weaken _ _ _ _ Hk Hsub).
Qed.

Lemma pool_inv_update pid f p : (forall i, item_ok pid i -> item_ok pid (f i)) ->
  pool_inv p -> pool_inv (update_item pid f p).
Proof.
  intros Hf [Hl Hh Hs Hi]. unfold update_item. destruct (rp_items p !! pid) as [i|] eqn:E; [|done].
  split; [done|done| |].
  - unfold pool_size. cbn. rewrite map_size_insert_Some by eauto. done.
  - cbn. apply map_Forall_insert_2; [|done]. apply Hf, (Hi _ _ E).
Qed.

Lemma record_item_fields now err i (i' := record_item now err i) :
  ri_PeerID i' = ri_PeerID i /\
  match classifyError err with
  | errOK => ri_consecutiveFails i' = 0 /\ ri_inMain i' = true /\ ri_circuitOpen i' = false
  | errRateLimited => ri_consecutiveFails i' = ri_consecutiveFails i /\ ri_inMain i' = ri_inMain i /\
      ri_circuitOpen i' = ri_circuitOpen i
  | errFailed => ri_consecutiveFails i' = ri_consecutiveFails i + 1 /\
      ri_inMain i' = ri_inMain i && (ri_consecutiveFails i + 1 <? demoteThreshold) /\
      ri_circuitOpen i' = ri_circuitOpen i || (5 <=? ri_consecutiveFails i + 1)
  end.
Proof.
  unfold i', record_item. destruct (classifyError err); [done|done|].
  cbn [ri_inMain ri_consecutiveFails ri_circuitOpen ri_successScore set_field].
  rewrite (Z.ltb_antisym demoteThreshold).
  destruct (ri_inMain i) eqn:Em, (demoteThreshold <=? ri_consecutiveFails i + 1), (5 <=? ri_consecutiveFails i + 1) eqn:E;
    cbn -[Z.leb Z.add]; rewrite ?E; cbn; rewrite ?orb_true_r, ?orb_false_r, ?Em; done.
Qed.

Lemma record_item_ok now err k i : item_ok k i -> item_ok k (record_item now err i).
Proof.
  intros (Hk & Hf & Hm). destruct (record_item_fields now err i) as [Hp Hx]. unfold item_ok. rewrite Hp.
  split; [done|]. unfold demoteThreshold in *. destruct (classifyError err); destruct Hx as (-> & -> & ->);
    [split; [lia|done]|done|]. split; [lia|]. intros [H1 H2]%andb_prop. apply Hm in H1 as [-> H1]. lia.
Qed.

Lemma Add_inv now parsed p : pool_inv p -> pool_inv (Add now parsed p).
Proof.
  intros Hp. destruct parsed as [[pid addr]|]; [|done]. unfold Add, Add_insert.
  destruct (rp_items p !! pid) as [i|] eqn:E; [done|]. destruct Hp as [Hl Hh Hs Hi].
  match goal with |- pool_inv (prune now ?q) => set (p1 := q) end.
  assert (pool_size p1 = pool_size p + 1) as Hs1.
  { unfold pool_size, p1. cbn. rewrite map_size_insert_None by done. lia. }
  assert (exists i, rp_items p1 !! pid = Some i /\ ri_inMain i = false) as (i & Epid & Hnew).
  { eexists. split; [apply lookup_insert_eq|done]. }
  assert (map_Forall item_ok (rp_items p1)) as Hi1 by (by apply map_Forall_insert_2).
  assert (rp_lowWater p1 = poolLowWater /\ rp_highWater p1 = poolHighWater) as [Hl1 Hh1] by done.
  clearbody p1. apply pool_inv_prune; [done|done|done|].
  destruct (prune_cases now p1) as [Hsmall Hbig].
  { rewrite Hl1, Hh1. unfold poolLowWater, poolHighWater. lia. }
  destruct (Z.le_gt_cases (pool_size p1) (rp_highWater p1)) as [Hle|Hgt]; [rewrite Hsmall by done; lia|].
  destruct (Hbig ltac:(lia)) as [Hsub _ [->|Hall] _ _]; [rewrite Hl1; done|].
  assert (rp_items (prune now p1) ⊆ delete pid (rp_items p1)) as Hsub'.
  { apply map_subseteq_spec. intros k j Hk. rewrite lookup_delete_ne; [by apply (lookup_weaken _ _ _ _ Hk)|].
    intros <-. pose proof (lookup_weaken _ _ _ _ Hk Hsub) as Hk'. rewrite Epid in Hk'. injection Hk' as <-.
    apply Hall in Hk. congruence. }
  apply map_subseteq_size in Hsub'. rewrite map_size_delete_Some in Hsub' by eauto. unfold pool_size in *. lia.
Qed.

Lemma RecordResult_inv now pid err p : pool_inv p -> pool_inv (RecordResult now pid err p).
Proof.
  intros [Hl Hh Hs Hi]. unfold RecordResult, RecordResult_update. destruct (rp_items p !! pid) as [i|] eqn:E; [|done].
  match goal with |- pool_inv (prune now ?q) => assert (pool_inv q) as Hq end.
  { split; [done|done| |].
    - unfold pool_size. cbn. by rewrite map_size_insert_Some by eauto.
    - cbn. apply map_Forall_insert_2; [|done]. apply record_item_ok, (Hi _ _ E). }
  match goal with |- pool_inv (prune now ?q) => set (p1 := q) in * end. clearbody p1. destruct Hq as [Hl1 Hh1 Hs1 Hi1].
  destruct (prune_cases now p1) as [Hsmall _].
  { rewrite Hl1, Hh1. unfold poolLowWater, poolHighWater. lia. }
  by rewrite Hsmall by lia.
Qed.

Lemma pool_exec_inv op p : pool_inv p -> pool_inv (pool_exec op p).
Proof.
  intros Hp. pose proof Hp as [Hl Hh Hs Hi]. destruct op; cbn [pool_exec].
  - by apply Add_inv.
  - split; [done|done| |by apply map_Forall_delete].
    unfold pool_size, Remove in *. cbn. pose proof (map_subseteq_size _ _ (delete_subseteq (rp_items p) pid)). lia.
  - by split.
  - by split.
  - by split.
  - by split.
  - by apply RecordResult_inv.
  - by apply pool_inv_update.
  - by apply pool_inv_update.
  - apply pool_inv_update; [|done]. intros i (Hk & Hf & Hm). split; [done|]. cbn. unfold demoteThreshold.
    split; [lia|]. intros [? ?]%Hm. split; [done|lia].
  - by split.
  - by split.
Qed.

(** ** The pool under calls that interleave

    A critical section is one step.  [Add] and [RecordResult] release the mutex
    and take it again to prune; the state counts the prunes still to come.  When
    [overlap] is off, no other such call gets in between. *)

Definition one_section (op : pool_op) : Prop :=
  match op with OpAdd _ _ | OpRecord _ _ _ => False | _ => True end.

Definition owing (r : RelayPool * bool) (n : nat) : RelayPool * nat := (r.1, if r.2 then S n else n).

Inductive pool_step (overlap : bool) : RelayPool * nat -> RelayPool * nat -> Prop :=
  | ps_insert p n now pid addr : (overlap = false -> n = 0%nat) ->
      pool_step overlap (p, n) (owing (Add_insert now pid addr p) n)
  | ps_record p n now pid err : (overlap = false -> n = 0%nat) ->
      pool_step overlap (p, n) (owing (RecordResult_update now pid err p) n)
  | ps_prune p n now : pool_step overlap (p, S n) (prune now p, n)
  | ps_call p n op : one_section op -> pool_step overlap (p, n) (pool_exec op p, n).

Definition pool_reachable (overlap : bool) (cfg : WeightConfig) : RelayPool * nat -> Prop :=
  reachable (eq (NewRelayPool cfg, 0%nat)) (pool_step overlap).

Definition all_main p : Prop := map_Forall (fun _ i => ri_inMain i = true) (rp_items p).

(** One relay too many, with some relay on probation. *)
Definition crowded p : Prop :=
  pool_size p <= poolHighWater \/
  (pool_size p <= poolHighWater + 1 /\ exists k i, rp_items p !! k = Some i /\ ri_inMain i = false).

Record calls_inv (overlap : bool) (st : RelayPool * nat) : Prop := {
  ci_water : rp_lowWater st.1 = poolLowWater /\ rp_highWater st.1 = poolHighWater;
  ci_items : map_Forall item_ok (rp_items st.1);
  ci_quiet : st.2 = 0%nat -> pool_size st.1 <= poolHighWater \/ all_main st.1;
  ci_alone : overlap = false ->
    (st.2 = 0%nat -> pool_size st.1 <= poolHighWater) /\ (st.2 = 1%nat -> crowded st.1) /\ (st.2 <= 1)%nat;
}.

Lemma Add_insert_new now pid addr p : rp_items p !! pid = None ->
  exists i, Add_insert now pid addr p = (p <| rp_items := <[pid := i]> (rp_items p) |>, true) /\
    item_ok pid i /\ ri_inMain i = false.
Proof. intros E. unfold Add_insert. rewrite E. by eexists. Qed.

(** After a prune the pool is within its mark, or no relay is left on probation. *)
Lemma prune_quiet now p : rp_lowWater p = poolLowWater -> rp_highWater p = poolHighWater ->
  pool_size (prune now p) <= poolHighWater \/ all_main (prune now p).
Proof.
  intros Hl Hh. destruct (prune_cases now p) as [Hsmall Hbig].
  { rewrite Hl, Hh. unfold poolLowWater, poolHighWater. lia. }
  destruct (Z.le_gt_cases (pool_size p) (rp_highWater p)) as [Hle|Hgt].
  - left. rewrite Hsmall by done. lia.
  - destruct (Hbig ltac:(lia)) as [_ _ [->|Hall] _ _]; [left; rewrite Hl; done|by right].
Qed.

(** Pruning a pool that is crowded brings it back to its mark. *)
Lemma prune_crowded now p : rp_lowWater p = poolLowWater -> rp_highWater p = poolHighWater -> crowded p ->
  pool_size (prune now p) <= poolHighWater.
Proof.
  intros Hl Hh Hc. destruct (prune_cases now p) as [Hsmall Hbig].
  { rewrite Hl, Hh. unfold poolLowWater, poolHighWater. lia. }
  destruct (Z.le_gt_cases (pool_size p) (rp_highWater p)) as [Hle|Hgt]; [rewrite Hsmall by done; lia|].
  destruct Hc as [Hs|[Hs (k & i & Hk & Hm)]]; [lia|].
  destruct (Hbig ltac:(lia)) as [Hsub _ [->|Hall] _ _]; [rewrite Hl; done|].
  assert (rp_items (prune now p) ⊆ delete k (rp_items p)) as Hsub'.
  { apply map_subseteq_spec. intros k' j Hk'. rewrite lookup_delete_ne; [by apply (lookup_weaken _ _ _ _ Hk')|].
    intros <-. pose proof (lookup_weaken _ _ _ _ Hk' Hsub) as Hj. rewrite Hk in Hj. injection Hj as <-.
    apply Hall in Hk'. congruence. }
  apply map_subseteq_size in Hsub'. rewrite map_size_delete_Some in Hsub' by eauto. unfold pool_size, poolHighWater in *. lia.
Qed.

Lemma all_main_sub p p' : rp_items p' ⊆ rp_items p -> all_main p -> all_main p'.
Proof. intros Hsub H k i Hk. apply (H k). by apply (lookup_weaken _ _ _ _ Hk Hsub). Qed.

Lemma update_item_size pid f p : pool_size (update_item pid f p) = pool_size p.
Proof.
  unfold update_item, pool_size. destruct (rp_items p !! pid) eqn:E; [|done]. cbn. by rewrite map_size_insert_Some by eauto.
Qed.

Lemma update_item_main pid f p k : (forall i, ri_inMain (f i) = ri_inMain i) ->
  ri_inMain <$> rp_items (update_item pid f p) !! k = ri_inMain <$> rp_items p !! k.
Proof.
  intros Hf. unfold update_item. destruct (rp_items p !! pid) as [i|] eqn:E; [|done]. cbn.
  destruct (decide (pid = k)) as [<-|]; [rewrite lookup_insert_eq, E; cbn; by rewrite Hf|by rewrite lookup_insert_ne].
Qed.

(** The tiers are all that [all_main] and [crowded] look at. *)
Lemma tiers_same p p' : pool_size p' = pool_size p ->
  (forall k, ri_inMain <$> rp_items p' !! k = ri_inMain <$> rp_items p !! k) ->
  (all_main p -> all_main p') /\ (crowded p -> crowded p').
Proof.
  intros Hs Ht. split.
  - intros H k i Hk. specialize (Ht k). rewrite Hk in Ht. destruct (rp_items p !! k) as [i0|] eqn:E; [|done].
    injection Ht as ->. by apply (H k).
  - unfold crowded. rewrite Hs. intros [?|[? (k & i & Hk & Hm)]]; [by left|right; split; [done|]]. specialize (Ht k).
    rewrite Hk in Ht. destruct (rp_items p' !! k) as [i'|] eqn:E; [|done]. injection Ht as Ht. exists k, i'. by rewrite Ht.
Qed.

(** A call of one critical section. *)
Lemma one_section_inv op p : one_section op -> map_Forall item_ok (rp_items p) ->
  let p' := pool_exec op p in
  rp_lowWater p' = rp_lowWater p /\ rp_highWater p' = rp_highWater p /\ map_Forall item_ok (rp_items p') /\
  pool_size p' <= pool_size p /\ (all_main p -> all_main p') /\ (crowded p -> crowded p').
Proof.
  intros Hop Hi. assert (forall pid f, (forall i, item_ok pid i -> item_ok pid (f i)) -> (forall i, ri_inMain (f i) = ri_inMain i) ->
    let p' := update_item pid f p in
    rp_lowWater p' = rp_lowWater p /\ rp_highWater p' = rp_highWater p /\ map_Forall item_ok (rp_items p') /\
    pool_size p' <= pool_size p /\ (all_main p -> all_main p') /\ (crowded p -> crowded p')) as Hupd.
  { intros pid f Hok Hmain. cbv zeta. rewrite update_item_size.
    destruct (tiers_same p (update_item pid f p)) as [H1 H2];
      [apply update_item_size|intros k; by apply update_item_main|].
    revert H1 H2. unfold update_item. destruct (rp_items p !! pid) as [i|] eqn:E; intros H1 H2; split_and!; try done.
    apply map_Forall_insert_2; [|done]. apply Hok, (Hi _ _ E). }
  destruct op; try done; cbn [pool_exec]; try (by split_and!); try (apply Hupd; [|done]).
  - unfold Remove. cbn. split_and!; [done|done|by apply map_Forall_delete| | |].
    + unfold pool_size. cbn. pose proof (map_subseteq_size _ _ (delete_subseteq (rp_items p) pid)). lia.
    + apply all_main_sub, delete_subseteq.
    + unfold crowded, pool_size. cbn. destruct (rp_items p !! pid) as [i|] eqn:E.
      * rewrite map_size_delete_Some by eauto. unfold poolHighWater. intros [?|[? _]]; left; lia.
      * by rewrite delete_id.
  - done.
  - done.
  - intros i (Hk & Hf & Hm). split; [done|]. cbn. unfold demoteThreshold. split; [lia|].
    intros [? ?]%Hm. split; [done|lia].
Qed.

Lemma pool_step_inv overlap st st' : calls_inv overlap st -> pool_step overlap st st' -> calls_inv overlap st'.
Proof.
  intros [[Hl Hh] Hi Hq Ha] Hst. destruct Hst as [p n now pid addr Hn|p n now pid err Hn|p n now|p n op Hop]; cbn [fst snd] in *.
  - destruct (rp_items p !! pid) as [i|] eqn:E; [unfold Add_insert; by rewrite E|].
    destruct (Add_insert_new now pid addr p E) as (i & -> & Hok & Hm). unfold owing. cbn [fst snd].
    split; cbn [fst snd]; [done|by apply map_Forall_insert_2|done|]. intros Ho. destruct (Ha Ho) as (Hs & _ & _). rewrite (Hn Ho) in *.
    split_and!; [done| |lia]. intros _. right. unfold pool_size in *. cbn. rewrite map_size_insert_None by done.
    split; [specialize (Hs eq_refl); lia|]. exists pid, i. by rewrite lookup_insert_eq.
  - unfold RecordResult_update. destruct (rp_items p !! pid) as [i|] eqn:E; [|done]. unfold owing. cbn [fst snd].
    split; cbn [fst snd]; [done|apply map_Forall_insert_2; [|done]; apply record_item_ok, (Hi _ _ E)|done|].
    intros Ho. destruct (Ha Ho) as (Hs & _ & _). rewrite (Hn Ho) in *. split_and!; [done| |lia]. intros _. left.
    unfold pool_size in *. cbn. rewrite map_size_insert_Some by eauto. by apply Hs.
  - destruct (prune_fields now p) as (Hl' & Hh' & Hsub); [rewrite Hl, Hh; unfold poolLowWater, poolHighWater; lia|].
    split; cbn [fst snd]; [split; congruence|intros k i Hk; apply Hi; by apply (lookup_weaken _ _ _ _ Hk Hsub)| |].
    + intros _. by apply prune_quiet.
    + intros Ho. destruct (Ha Ho) as (_ & Hc & Hle). assert (n = 0%nat) as -> by lia.
      split_and!; [intros _; by apply prune_crowded; [..|apply Hc]|lia|lia].
  - destruct (one_section_inv op p Hop Hi) as (Hl' & Hh' & Hi' & Hs' & Hm' & Hc').
    split; cbn [fst snd]; [split; congruence|done| |].
    + intros [?|?]%Hq; [left; lia|right; auto].
    + intros Ho. destruct (Ha Ho) as (Hs & Hc & Hle). split_and!; [intros Hn; specialize (Hs Hn); lia|auto|done].
Qed.

(** C9: Whatever critical sections of calls a pool sees, in any order: every item
    is filed under its own peer, a relay in the main tier has a closed circuit
    and fewer than three consecutive failures, and when no prune is to come the
    pool holds at most the high-water mark of relays unless all of them are in the
    main tier.  When a call of [Add] or [RecordResult] reaches its prune before the
    next one starts, the pool never holds more than the high-water mark, and one
    more only until that prune.  (When calls overlap it can: see
    [overfull_reachable].) *)
Theorem relay_pool_invariant overlap cfg p n : pool_reachable overlap cfg (p, n) ->
  map_Forall item_ok (rp_items p) /\
  (n = 0%nat -> pool_size p <= poolHighWater \/ forall k i, rp_items p !! k = Some i -> ri_inMain i = true) /\
  (overlap = false -> (n <= 1)%nat /\ pool_size p <= poolHighWater + Z.of_nat n).
Proof.
  intros H. assert (calls_inv overlap (p, n)) as [_ Hi Hq Ha].
  { revert H. apply reachable_invariant; [|apply pool_step_inv].
    intros q <-. split; cbn [fst snd]; [done|apply map_Forall_empty|by left|]. intros _. split_and!; [done|lia|lia]. }
  cbn [fst snd] in *. split_and!; [done|exact Hq|]. intros Ho. destruct (Ha Ho) as (Hs & Hc & Hn). split; [done|].
  destruct n as [|[|n]]; [specialize (Hs eq_refl); lia| |lia]. destruct (Hc eq_refl) as [|[? _]]; lia.
Qed.

(** ** The circuit breaker *)

(** An item after a success followed by results none of which is a success. *)
Definition after_success (now : Z) (errs : list pool_error) (i : RelayItem) : RelayItem :=
  foldl (fun i err => record_item now (Some err) i) (record_item now None i) errs.

#[local] Instance errType_eq_dec : EqDecision errType.
Proof. solve_decision. Defined.

Definition failures (errs : list pool_error) : Z :=
  len (filter (fun e => classifyError (Some e) = errFailed) errs).

(** After a success a relay is in the main tier with a closed circuit; with
    the third failure in a row it falls back to probation and with the fifth
    its circuit opens.  Rate limiting does not count as a failure. *)
Theorem circuit_breaker now errs i (i' := after_success now errs i) :
  ri_consecutiveFails i' = failures errs /\
  ri_inMain i' = (failures errs <? demoteThreshold) /\
  ri_circuitOpen i' = (5 <=? failures errs).
Proof.
  unfold i', after_success, failures. induction errs as [|e errs IH] using rev_ind; [done|].
  rewrite foldl_app, filter_app, length_app. cbn [foldl].
  match goal with |- context [record_item now (Some e) ?x] =>
    destruct (record_item_fields now (Some e) x) as [_ Hx] end.
  destruct IH as (IH1 & IH2 & IH3). rewrite IH1, IH2, IH3 in Hx. unfold demoteThreshold in *.
  rewrite filter_cons. destruct e; cbn [classifyError] in *; destruct Hx as (-> & -> & ->);
    case_decide; try done; cbn [filter list_filter length]; lia.
Qed.

(** ** Selection *)

Definition healthy p (k : string) (i : RelayItem) : Prop :=
  rp_items p !! k = Some i /\ ri_circuitOpen i = false.

Lemma entries_spec now p (e : kv) : e ∈ entries now p <->
  healthy p e.1.1 e.1.2 /\ e.2 = calcScore now (rp_config p) e.1.2.
Proof.
  unfold entries. rewrite list_elem_of_fmap. destruct e as [e s]. split.
  - intros (x & [= -> ->] & Hx). by apply (tier_spec ri_circuitOpen false) in Hx.
  - cbn. intros [Hh Hsc]. subst s. exists e. split; [done|]. by apply (tier_spec ri_circuitOpen false).
Qed.

Lemma select_walk_in r (xs : list kv) e : select_walk r xs = Some e -> e ∈ xs.
Proof.
  revert r. induction xs as [|x xs IH]; intros r; cbn; [done|]. case_match; [intros [= ->]; by left|].
  intros Hw. right. by apply (IH _ Hw).
Qed.

(** Whatever the random draws, [Select] returns the address of a relay of
    the pool whose circuit is closed, and nil only when there is none. *)
Theorem select_healthy now explore draw pick p :
  (forall addr, Select now explore draw pick p = Some addr -> exists k i, healthy p k i /\ ri_Addr i = addr) /\
  (0 <= pick < len (entries now p) ->
   Select now explore draw pick p = None <-> forall k i, ~ healthy p k i).
Proof.
  unfold Select. destruct (entries now p) as [|e0 es] eqn:E.
  { split; [done|]. cbn. lia. }
  rewrite <- E. assert (forall x, x ∈ entries now p -> exists k i, healthy p k i /\ ri_Addr i = ri_Addr x.1.2) as Hin.
  { intros x [Hx _]%entries_spec. eauto. }
  assert (forall j addr, (fun e : kv => ri_Addr e.1.2) <$> entries now p !! Z.to_nat j = Some addr ->
    exists k i, healthy p k i /\ ri_Addr i = addr) as Hpick.
  { intros j addr (x & Hx & ->)%fmap_Some. by apply Hin, (list_elem_of_lookup_2 _ (Z.to_nat j)). }
  split.
  - intros addr. repeat case_match; try apply Hpick. intros [= <-]. by apply Hin, (select_walk_in _ _ _ H1).
  - intros Hp. split; [|intros Hnone; destruct (Hin e0) as (k & i & Hh & _); [rewrite E; left|by destruct (Hnone k i)]].
    assert (forall j, 0 <= j < len (entries now p) ->
      (fun e : kv => ri_Addr e.1.2) <$> entries now p !! Z.to_nat j <> None) as Hsome.
    { intros j Hj. destruct (lookup_lt_is_Some_2 (entries now p) (Z.to_nat j) ltac:(lia)) as [x ->]. done. }
    repeat case_match; intros Hn; try done; by (apply Hsome in Hn; [|lia]).
Qed.

(** ** A pool that cannot be pruned *)

(** When every relay of a pool above its high-water mark is in the main tier
    and recently active or protected, pruning removes nothing. *)
Theorem busy_pool_not_pruned now p : 0 <= rp_lowWater p <= rp_highWater p ->
  (forall k i, rp_items p !! k = Some i -> ri_inMain i = true /\
     (k ∈ rp_protected p \/ time_sub now (ri_lastResult i) < 5 * minute)) ->
  rp_items (prune now p) = rp_items p.
Proof.
  intros Hw Hall. destruct (prune_cases now p Hw) as [Hsmall Hbig].
  destruct (Z.le_gt_cases (pool_size p) (rp_highWater p)) as [Hle|Hgt]; [by rewrite Hsmall|].
  destruct (Hbig ltac:(lia)) as [Hsub _ _ _ Hmain]. apply (anti_symm (⊆)); [done|].
  apply map_subseteq_spec. intros k i Hk. destruct (Hall k i Hk). by apply Hmain.
Qed.
End pool.

(** ** Examples *)

Section examples.
#[local] Existing Instances rational_pool listed_order listed_order_laws insertion_sort insertion_sort_laws.

(** A relay of the main tier whose last result came at time 100. *)
Definition example_item (pid : string) : RelayItem :=
  mkItem pid "addr" true (p_lit 70 2) 0 0 0 0 0 false 0 50 100.

Definition example_pool : RelayPool :=
  mkPool {[ "a" := example_item "a"; "b" := example_item "b" ]} defaultWeights ∅ ∅ 0 1.

Lemma prune_outcome_witness :
  pruned (600 * second) example_pool (prune (600 * second) example_pool) /\
  pool_size (prune (600 * second) example_pool) <= 2.
Proof.
  split; [|by vm_compute]. apply (prune_outcome (600 * second) example_pool); by vm_compute.
Defined.

Lemma busy_pool_not_pruned_witness :
  rp_items (prune 200 example_pool) = rp_items example_pool.
Proof.
  apply (busy_pool_not_pruned 200 example_pool); [by vm_compute|].
  intros k i Hk. cbn in Hk. apply lookup_insert_Some in Hk as [[_ <-]|[_ Hk]]; [split; [done|right; by vm_compute]|].
  apply lookup_singleton_Some in Hk as [_ <-]. split; [done|right; by vm_compute].
Defined.

(** A relay is added and another call records its success before the prune of
    the first. *)
Definition example_reached : RelayPool :=
  prune 30 (prune 20 (RecordResult_update 20 "a" None (Add_insert 10 "a" "addr" (NewRelayPool defaultWeights)).1).1).

Lemma relay_pool_invariant_witness :
  (pool_size example_reached <= poolHighWater \/
   forall k i, rp_items example_reached !! k = Some i -> ri_inMain i = true) /\
  map_Forall item_ok (rp_items example_reached).
Proof.
  assert (pool_reachable true defaultWeights (example_reached, 0%nat)) as Hr.
  { eapply reach_step; [|apply ps_prune]. eapply reach_step; [|apply ps_prune].
    eapply reach_step; [|exact (ps_record true (Add_insert 10 "a" "addr" (NewRelayPool defaultWeights)).1 1 20 "a" None ltac:(done))].
    eapply reach_step; [|exact (ps_insert true (NewRelayPool defaultWeights) 0 10 "a" "addr" ltac:(done))]. by apply reach_init. }
  destruct (relay_pool_invariant true defaultWeights example_reached 0 Hr) as (Hi & Hs & _).
  split; [by apply Hs|done].
Defined.

(** A new relay is added and proves itself before the prune of its [Add]. *)
Definition add_and_promote (st : RelayPool) (pid : string) : RelayPool :=
  prune 100 (prune 100 (RecordResult_update 100 pid None (Add_insert 100 pid "addr" st).1).1).

Lemma add_and_promote_reachable cfg p pid :
  pool_reachable true cfg (p, 0%nat) -> rp_items p !! pid = None ->
  pool_reachable true cfg (add_and_promote p pid, 0%nat).
Proof.
  intros Hp Hnew. destruct (Add_insert_new 100 pid "addr" p Hnew) as (i & E & _). unfold add_and_promote.
  eapply reach_step; [|apply ps_prune]. eapply reach_step; [|apply ps_prune].
  assert (pool_reachable true cfg ((Add_insert 100 pid "addr" p).1, 1%nat)) as H1.
  { eapply reach_step; [exact Hp|]. pose proof (ps_insert true p 0 100 pid "addr" ltac:(done)) as Hs.
    unfold owing in Hs. rewrite E in *. exact Hs. }
  eapply reach_step; [exact H1|]. pose proof (ps_record true (Add_insert 100 pid "addr" p).1 1 100 pid None ltac:(done)) as Hs.
  unfold owing, RecordResult_update in *. rewrite E in *. cbn [fst snd rp_items set_field] in *.
  rewrite lookup_insert_eq in *. exact Hs.
Qed.

(** Names of one, two, ... letters. *)
Fixpoint relay_name (n : nat) : string := match n with O => "" | S n => ("r" +:+ relay_name n)%string end.

Definition overfull : RelayPool := foldl add_and_promote (NewRelayPool defaultWeights) (relay_name <$> seq 0 60).

(** Every relay is new when its turn comes. *)
Fixpoint all_new (l : list string) (p : RelayPool) : bool :=
  match l with
  | [] => true
  | pid :: l => negb (bool_decide (is_Some (rp_items p !! pid))) && all_new l (add_and_promote p pid)
  end.

(** Sixty relays that are added and promoted this way all stay, ten above the
    high-water mark, although no prune is to come. *)
Example overfull_reachable :
  pool_reachable true defaultWeights (overfull, 0%nat) /\ pool_size overfull = 60 /\ poolHighWater = 50.
Proof.
  split; [|by vm_compute]. unfold overfull.
  assert (forall l p, pool_reachable true defaultWeights (p, 0%nat) -> all_new l p = true ->
    pool_reachable true defaultWeights (foldl add_and_promote p l, 0%nat)) as H.
  { induction l as [|x l IH]; intros p Hp Hl; [done|]. apply andb_prop in Hl as [Hx Hl].
    apply IH; [|exact Hl]. apply add_and_promote_reachable; [exact Hp|].
    apply negb_true_iff, bool_decide_eq_false in Hx. by apply eq_None_not_Some. }
  apply H; [by apply reach_init|]. vm_compute. reflexivity.
Qed.

Lemma select_healthy_witness :
  exists k i, healthy example_pool k i /\ ri_Addr i = "addr"%string.
Proof.
  apply (proj1 (select_healthy 200 (p_lit 5 1) (p_lit 5 1) 0 example_pool) "addr"%string).
  vm_compute. reflexivity.
Defined.
End examples.
