(* ===== verification/StablePeers.v ===== *)
(** The table of stable peers (src/p2put/stable_peers.go): connections and
    disconnections, latency, eviction and the listing.

    The table is a map from peers to their records; each operation runs under
    the table's mutex.  Which peers are bootstrap peers, the addresses the
    peerstore knows and the classification of an IP address come from libp2p:
    they are arguments.  The zero time is 0. *)

From Stdlib Require Import Sorting.Permutation Sorting.Sorted.
From stdpp Require Import gmap strings.
From S2P Require Import Prelude GoLib.

Definition maxStablePeers : Z := 32.

Record stableInfo := mkStable {
  si_firstSeen : Z;
  si_onlineSince : Z;
  si_totalOnline : Z;
  si_lastSeen : Z;
  si_connCount : Z;
  si_disconnCount : Z;
  si_avgLatency : Z;
}.

#[global] Instance stableInfo_eta : Eta stableInfo := fun s => mkStable
  (si_firstSeen s) (si_onlineSince s) (si_totalOnline s) (si_lastSeen s) (si_connCount s)
  (si_disconnCount s) (si_avgLatency s).

Abbreviation table := (gmap string stableInfo).

Inductive connectedness := NotConnected | Connected | OtherConnectedness.

Section stable.
Context {F : PoolFloat} {O : MapOrder} {Srt : SortSlice}.
(** [isBootstrapPeer]. *)
Context (bootstrap : string -> bool).

(** The time an eviction goes by. *)
Definition eviction_time (si : stableInfo) : Z :=
  if si_lastSeen si =? 0 then si_firstSeen si else si_lastSeen si.

(** One turn of the search: the victim so far with its time, [None] at first. *)
Definition older (best : option (string * Z)) (e : string * stableInfo) : option (string * Z) :=
  let t := eviction_time e.2 in
  match best with
  | None => Some (e.1, t)
  | Some (_, oldest) => if t <? oldest then Some (e.1, t) else best
  end.

Definition evictOne (m : table) : table :=
  match foldl older None (map_range m) with
  | Some (victim, _) => delete victim m
  | None => m
  end.

(** [time.Now()] is read up to twice. *)
Definition handlePeerConnectednessChanged (now now' : Z) (peer : string) (c : connectedness) (m : table)
    : table :=
  if bootstrap peer then m
  else
    match c with
    | Connected =>
        match m !! peer with
        | Some si =>
            let si := if si_onlineSince si =? 0 then si <| si_onlineSince := now |> else si in
            <[peer := si <| si_connCount := si_connCount si + 1 |>]> m
        | None =>
            let m := if maxStablePeers <=? Z.of_nat (size m) then evictOne m else m in
            <[peer := mkStable now now' 0 0 1 0 0]> m
        end
    | NotConnected =>
        match m !! peer with
        | Some si =>
            let si := if negb (si_onlineSince si =? 0)
                      then si <| si_totalOnline := int64 (si_totalOnline si + time_sub now (si_onlineSince si)) |>
                              <| si_onlineSince := 0 |>
                      else si in
            <[peer := si <| si_lastSeen := now' |> <| si_disconnCount := si_disconnCount si + 1 |>]> m
        | None => m
        end
    | OtherConnectedness => m
    end.

Definition updatePeerLatency (pid : string) (elapsed : Z) (m : table) : table :=
  if bootstrap pid then m
  else
    match m !! pid with
    | None => m
    | Some si =>
        let avg := if si_connCount si <=? 1 then elapsed
                   else p_trunc (p_add (p_mul (p_of_Z elapsed) (p_lit 3 1))
                                       (p_mul (p_of_Z (si_avgLatency si)) (p_lit 7 1))) in
        <[pid := si <| si_avgLatency := avg |>]> m
    end.

Definition peerScore (si : stableInfo) : pfloat :=
  let score := p_lit 0 0 in
  let score := if negb (si_onlineSince si =? 0) then p_add score (p_of_Z 100) else score in
  let total := si_connCount si + si_disconnCount si in
  let score := if 0 <? total
               then p_add score (p_mul (p_div (p_of_Z (si_connCount si)) (p_of_Z total)) (p_of_Z 50))
               else score in
  if (0 <? si_avgLatency si) && (si_avgLatency si <? 10 * second)
  then p_add score (p_mul (p_sub (p_of_Z 1) (p_div (p_of_Z (si_avgLatency si)) (p_of_Z (10 * second))))
                          (p_of_Z 50))
  else score.

(** ** The listing *)

(** The addresses listed; [local] tells the loopback and private ones. *)
Definition listed_addrs (local : string -> bool) (addrs : list string) : list string :=
  filter (fun s => (contains s "/ip6/" || contains s "/udp/" || contains s "/quic" ||
                    contains s "webrtc" || contains s "/dns/" || local s) = false) addrs.

Record StablePeerEntry := mkEntry {
  se_PeerID : string;
  se_Addrs : list string;
  se_info : stableInfo;
  se_Online : bool;
}.

Definition CollectStablePeers (peerstore : string -> list string) (local : string -> bool) (m : table)
    : list StablePeerEntry :=
  let tmp := (fun e : string * stableInfo =>
    (mkEntry e.1 (listed_addrs local (peerstore e.1)) e.2 (negb (si_onlineSince e.2 =? 0)), peerScore e.2))
    <$> map_range m in
  fst <$> sort_slice (fun a b : StablePeerEntry * pfloat =>
    si_totalOnline (se_info b.1) <? si_totalOnline (se_info a.1)) tmp.

Context `{!MapOrderLaws O} `{!SortSliceLaws Srt}.

(** ** Eviction *)

Lemma older_min l best : (exists e, e ∈ l) \/ best <> None ->
  exists k t, foldl older best l = Some (k, t) /\
    ((exists e, e ∈ l /\ k = e.1 /\ t = eviction_time e.2) \/ best = Some (k, t)) /\
    (forall e, e ∈ l -> t <= eviction_time e.2) /\ (forall k' t', best = Some (k', t') -> t <= t').
Proof.
  revert best. induction l as [|x l IH]; intros best Hne; cbn [foldl].
  { destruct Hne as [[e He]|Hb]; [by apply not_elem_of_nil in He|]. destruct best as [[k t]|]; [|done].
    exists k, t. split; [done|]. split; [by right|]. split; [intros e He; by apply not_elem_of_nil in He|].
    intros k' t' [= -> ->]. done. }
  destruct (IH (older best x)) as (k & t & Hf & Hin & Hall & Hb).
  { right. unfold older. destruct best as [[]|]; [by case_match|done]. }
  exists k, t. split; [done|].
  assert (t <= eviction_time x.2 /\ forall k' t', best = Some (k', t') -> t <= t') as [Hx Hbest].
  { unfold older in Hb. destruct best as [[k0 t0]|]; [|split; [by apply (Hb x.1)|done]].
    destruct (Z.ltb_spec (eviction_time x.2) t0).
    - specialize (Hb x.1 _ eq_refl). split; [done|]. intros ?? [= -> ->]. lia.
    - specialize (Hb k0 t0 eq_refl). split; [lia|]. by intros ?? [= -> ->]. }
  split; [|split; [|done]].
  - destruct Hin as [(e & He & -> & ->)|Hold]; [left; exists e; split; [by right|done]|].
    unfold older in Hold. destruct best as [[k0 t0]|].
    + case_match; [|by right]. injection Hold as <- <-. left. exists x. split; [left|done].
    + injection Hold as <- <-. left. exists x. split; [left|done].
  - intros e [->|He]%elem_of_cons; [done|by apply Hall].
Qed.

(** Eviction removes exactly one peer of a table that is not empty, one whose
    last disconnection, or first connection if it never disconnected, is the
    earliest; every other record stays. *)
Theorem evictOne_oldest (m : table) : m <> ∅ ->
  exists victim si, m !! victim = Some si /\ evictOne m = delete victim m /\
    forall k si', m !! k = Some si' -> eviction_time si <= eviction_time si'.
Proof.
  intros Hm. assert (exists e, e ∈ map_range m) as Hne.
  { destruct (map_choose m Hm) as (k & si & Hk). exists (k, si).
    by rewrite (map_range_perm _ m), elem_of_map_to_list. }
  destruct (older_min (map_range m) None (or_introl Hne)) as (k & t & Hf & [([k0 si] & He & -> & ->)|] & Hall & _); [|done].
  rewrite (map_range_perm _ m), elem_of_map_to_list in He. exists k0, si. split; [done|]. split.
  - unfold evictOne. by rewrite Hf.
  - intros k' si' Hk'. apply (Hall (k', si')). by rewrite (map_range_perm _ m), elem_of_map_to_list.
Qed.

(** A peer that has stayed online without a single disconnection is evicted
    before every peer that has since gone offline: the table goes by the last
    disconnection, which such a peer does not have. *)
Theorem eviction_prefers_never_offline (m : table) k si :
  m !! k = Some si -> si_lastSeen si = 0 ->
  (forall k' si', m !! k' = Some si' -> k' <> k -> si_firstSeen si < si_lastSeen si') -> 0 <= si_firstSeen si ->
  evictOne m = delete k m.
Proof.
  intros Hk Hl Hothers Hpos. destruct (evictOne_oldest m) as (v & siv & Hv & -> & Hmin).
  { intros ->. by rewrite lookup_empty in Hk. }
  destruct (decide (v = k)) as [->|Hne]; [done|]. specialize (Hmin k si Hk).
  specialize (Hothers v siv Hv Hne). unfold eviction_time in Hmin. rewrite Hl in Hmin. cbn in Hmin.
  replace (si_lastSeen siv =? 0) with false in Hmin by lia. lia.
Qed.

(** ** The table under any sequence of events *)

Inductive peer_event :=
  | EvConn (now now' : Z) (peer : string) (c : connectedness)
  | EvLatency (peer : string) (elapsed : Z).

Definition event_exec (m : table) (e : peer_event) : table :=
  match e with
  | EvConn now now' peer c => handlePeerConnectednessChanged now now' peer c m
  | EvLatency peer elapsed => updatePeerLatency peer elapsed m
  end.

Definition event_ok (e : peer_event) : Prop :=
  match e with EvConn now now' _ _ => 0 < now /\ 0 < now' | EvLatency _ _ => True end.

(** Whether the last connection event of a peer said it is connected. *)
Definition note_event (k : string) (last : option bool) (e : peer_event) : option bool :=
  match e with
  | EvConn _ _ peer Connected => if bool_decide (peer = k) then Some true else last
  | EvConn _ _ peer NotConnected => if bool_decide (peer = k) then Some false else last
  | _ => last
  end.
Definition last_status (k : string) (evs : list peer_event) : option bool := foldl (note_event k) None evs.

Definition online (si : stableInfo) : bool := negb (si_onlineSince si =? 0).

Definition table_ok (evs : list peer_event) (m : table) : Prop :=
  Z.of_nat (size m) <= maxStablePeers /\
  forall k si, m !! k = Some si -> bootstrap k = false /\ 1 <= si_connCount si /\ 0 <= si_disconnCount si /\
    last_status k evs = Some (online si).

Lemma evictOne_size (m : table) : m <> ∅ -> Z.of_nat (size (evictOne m)) = Z.of_nat (size m) - 1.
Proof.
  intros Hm. destruct (evictOne_oldest m Hm) as (v & si & Hv & -> & _).
  rewrite map_size_delete_Some by eauto.
  assert (size m <> 0)%nat by (intros H0%map_size_empty_inv; done). lia.
Qed.

Lemma evictOne_sub (m : table) k si : evictOne m !! k = Some si -> m !! k = Some si.
Proof. unfold evictOne. destruct (foldl older None (map_range m)) as [[v t]|]; [|done]. by intros [_ ?]%lookup_delete_Some. Qed.

(** A record of one peer changes; those of the others keep their last status. *)
Lemma table_ok_insert evs e m k si : table_ok evs m -> is_Some (m !! k) ->
  bootstrap k = false -> 1 <= si_connCount si -> 0 <= si_disconnCount si ->
  last_status k (evs ++ [e]) = Some (online si) ->
  (forall k', k' <> k -> last_status k' (evs ++ [e]) = last_status k' evs) -> table_ok (evs ++ [e]) (<[k := si]> m).
Proof.
  intros [Hs Hm] Hk Hb Hc Hd Hl Hothers. split; [by rewrite map_size_insert_Some|].
  intros k' si' [[<- <-]|[Hne Hk']]%lookup_insert_Some; [done|]. rewrite Hothers by done. by apply Hm.
Qed.

(** A new peer takes the place of an evicted one when the table is full. *)
Lemma table_ok_new evs e m k now now' : table_ok evs m -> m !! k = None -> bootstrap k = false ->
  last_status k (evs ++ [e]) = Some (online (mkStable now now' 0 0 1 0 0)) ->
  (forall k', k' <> k -> last_status k' (evs ++ [e]) = last_status k' evs) ->
  table_ok (evs ++ [e])
    (<[k := mkStable now now' 0 0 1 0 0]> (if maxStablePeers <=? Z.of_nat (size m) then evictOne m else m)).
Proof.
  intros [Hs Hm] Hk Hb Hl Hothers.
  set (m' := if maxStablePeers <=? Z.of_nat (size m) then evictOne m else m).
  assert (Z.of_nat (size m') < maxStablePeers) as Hs'.
  { unfold m'. destruct (Z.leb_spec maxStablePeers (Z.of_nat (size m))) as [Hfull|]; [|done].
    rewrite evictOne_size; [unfold maxStablePeers in *; lia|]. intros ->. by vm_compute in Hfull. }
  assert (forall k si, m' !! k = Some si -> m !! k = Some si) as Hsub.
  { unfold m'. case_match; [apply evictOne_sub|done]. }
  split.
  - rewrite map_size_insert_None; [lia|]. destruct (m' !! k) as [si|] eqn:E'; [|done]. apply Hsub in E'. congruence.
  - intros k' si [[<- <-]|[Hne Hk']]%lookup_insert_Some; [by split_and!|]. rewrite Hothers by done. by apply Hm, Hsub.
Qed.

Lemma last_status_snoc k evs e : last_status k (evs ++ [e]) = note_event k (last_status k evs) e.
Proof. unfold last_status. by rewrite foldl_app. Qed.

Lemma event_exec_ok evs m e : event_ok e -> table_ok evs m -> table_ok (evs ++ [e]) (event_exec m e).
Proof.
  intros He Hm. pose proof Hm as [Hs Hall].
  destruct e as [now now' peer c|peer elapsed]; cbn [event_exec event_ok] in *.
  - destruct He as [Hn Hn']. unfold handlePeerConnectednessChanged.
    assert (forall k, k <> peer -> last_status k (evs ++ [EvConn now now' peer c]) = last_status k evs) as Hothers.
    { intros k Hk. rewrite last_status_snoc. cbn. rewrite bool_decide_eq_false_2 by done. by destruct c. }
    destruct (bootstrap peer) eqn:Eb.
    { split; [done|]. intros k si Hk. rewrite Hothers; [by apply Hall|]. intros ->. by apply Hall in Hk as [? _]; congruence. }
    destruct c.
    + destruct (m !! peer) as [si|] eqn:E.
      * pose proof (Hall _ _ E) as (_ & Hc & Hd & _). apply table_ok_insert; eauto.
        -- by case_match.
        -- case_match; cbn; lia.
        -- rewrite last_status_snoc. cbn. rewrite bool_decide_eq_true_2 by done. f_equal. unfold online.
           destruct (Z.eqb_spec (si_onlineSince si) 0) as [E0|]; cbn; [by rewrite E0|done].
      * split; [done|]. intros k si Hk. rewrite Hothers; [by apply Hall|congruence].
    + destruct (m !! peer) as [si|] eqn:E.
      * pose proof (Hall _ _ E) as (_ & Hc & Hd & _). apply table_ok_insert; eauto.
        -- case_match; cbn; lia.
        -- by case_match.
        -- rewrite last_status_snoc. cbn. rewrite bool_decide_eq_true_2 by done. f_equal. unfold online.
           destruct (Z.eqb_spec (si_onlineSince si) 0); cbn; lia.
      * apply table_ok_new; [done|done|done| |done].
        rewrite last_status_snoc. cbn. rewrite bool_decide_eq_true_2 by done. unfold online. cbn. f_equal. lia.
    + split; [done|]. intros k si Hk. rewrite last_status_snoc. cbn. by apply Hall.
  - assert (forall k, last_status k (evs ++ [EvLatency peer elapsed]) = last_status k evs) as Hst
      by (intros k; by rewrite last_status_snoc).
    unfold updatePeerLatency. destruct (bootstrap peer) eqn:Eb; [split; [done|]; intros k si; rewrite Hst; apply Hall|].
    destruct (m !! peer) as [si|] eqn:E; [|split; [done|]; intros k si; rewrite Hst; apply Hall].
    pose proof (Hall _ _ E) as (_ & Hc & Hd & Hl). apply table_ok_insert; eauto. rewrite Hst. exact Hl.
Qed.

(** Whatever events arrive, the table holds at most 32 peers, none of them a
    bootstrap peer, and it shows a peer as online exactly when the last event
    about that peer said it is connected. *)
Theorem stable_table_faithful evs (m := foldl event_exec ∅ evs) : Forall event_ok evs ->
  Z.of_nat (size m) <= maxStablePeers /\
  forall k si, m !! k = Some si -> bootstrap k = false /\ last_status k evs = Some (online si).
Proof.
  intros Hok. assert (table_ok evs m) as [Hs Hm]; [|split; [done|]; intros k si Hk; by destruct (Hm k si Hk) as (? & _ & _ & ?)].
  unfold m. clear m. induction evs as [|e evs IH] using rev_ind; 
    [split; [done|]; intros k si Hk; cbn in Hk; by rewrite lookup_empty in Hk|].
  apply Forall_app in Hok as [Hok He]. inversion He; subst. rewrite foldl_app. cbn [foldl].
  apply event_exec_ok; [done|by apply IH].
Qed.

(** The listing has one entry per peer of the table, those online longest
    first. *)
Theorem listing_sorted peerstore local (m : table) :
  (se_PeerID <$> CollectStablePeers peerstore local m) ≡ₚ (map_to_list m).*1 /\
  StronglySorted (fun a b => si_totalOnline (se_info b) <= si_totalOnline (se_info a))
    (CollectStablePeers peerstore local m).
Proof.
  unfold CollectStablePeers. split.
  - rewrite sort_slice_perm, <- !list_fmap_compose, <- (map_range_perm _ m).
    apply Permutation_refl'. by apply list_fmap_ext.
  - match goal with |- StronglySorted _ (fst <$> sort_slice ?less ?l) =>
      pose proof (sort_slice_sorted _ less (fun a => - si_totalOnline (se_info a.1)) l) as Hs end.
    specialize (Hs ltac:(intros; cbn; lia)).
    induction Hs as [|x l Hs IH Hx]; cbn; [constructor|]. constructor; [done|].
    apply Forall_fmap. eapply Forall_impl; [exact Hx|]. cbn. intros; lia.
Qed.
End stable.

(** ** Examples *)

Section examples.
#[local] Existing Instances rational_pool listed_order listed_order_laws insertion_sort insertion_sort_laws.

Definition example_table : table :=
  {[ "always-on" := mkStable 10 10 0 0 1 0 0; "left" := mkStable 20 0 30 50 1 1 0 ]}.

Lemma evictOne_oldest_witness :
  exists victim si, example_table !! victim = Some si /\ evictOne example_table = delete victim example_table /\
    forall k si', example_table !! k = Some si' -> eviction_time si <= eviction_time si'.
Proof. apply (evictOne_oldest example_table), insert_non_empty. Defined.

Lemma eviction_prefers_never_offline_witness :
  evictOne example_table = delete "always-on"%string example_table.
Proof.
  apply (eviction_prefers_never_offline example_table "always-on" (mkStable 10 10 0 0 1 0 0)).
  - by vm_compute.
  - done.
  - intros k si Hk Hne. unfold example_table in Hk.
    apply lookup_insert_Some in Hk as [[<- _]|[_ Hk]]; [done|]. by apply lookup_singleton_Some in Hk as [_ <-].
  - done.
Defined.

Definition example_events : list peer_event :=
  [EvConn 10 11 "p" Connected; EvLatency "p" 5; EvConn 20 21 "q" Connected; EvConn 30 31 "p" NotConnected].

Lemma stable_table_faithful_witness :
  Z.of_nat (size (foldl (event_exec (fun _ => false)) ∅ example_events)) <= maxStablePeers.
Proof.
  apply (stable_table_faithful (fun _ => false) example_events).
  unfold example_events. repeat constructor; cbn; lia.
Defined.

Lemma listing_sorted_witness :
  (se_PeerID <$> CollectStablePeers (fun _ => []) (fun _ => false) example_table)
  ≡ₚ ["always-on"; "left"]%string.
Proof.
  rewrite (proj1 (listing_sorted (fun _ => []) (fun _ => false) example_table)).
  vm_compute. apply Permutation_refl || apply Permutation_swap.
Defined.
End examples.
