(* ===== verification/Protocols.v ===== *)
(** The registry of stream protocols (src/p2put/user_protocols.go).

    A handler is registered under a protocol id and, when the libp2p host
    exists, set on it: for the id alone, or for every id that starts with it.
    The host is what has been set on it; looking up the handler of a stream is
    libp2p's. *)

From Stdlib Require Import Ascii.
From stdpp Require Import gmap strings.
From S2P Require Import Prelude.

#[local] Open Scope string_scope.

Definition baseProtocolPath : string := "/d2hub/".

(** ** Strings *)

(** [strings.TrimPrefix(s, "/")]. *)
Definition trim_slash (s : string) : string :=
  match s with
  | String c rest => if bool_decide (c = "/"%char) then rest else s
  | EmptyString => s
  end.

(** [strings.HasPrefix(s, p)]. *)
Fixpoint has_prefix (s p : string) {struct p} : bool :=
  match p, s with
  | EmptyString, _ => true
  | String a p, String b s => bool_decide (a = b) && has_prefix s p
  | String _ _, EmptyString => false
  end.

(** [strings.LastIndex(s, "/")]. *)
Fixpoint last_slash (s : string) : option nat :=
  match s with
  | EmptyString => None
  | String c rest =>
      match last_slash rest with
      | Some n => Some (S n)
      | None => if bool_decide (c = "/"%char) then Some 0%nat else None
      end
  end.

(** [strings.HasSuffix(s, "/")]. *)
Fixpoint ends_in_slash (s : string) : bool :=
  match s with
  | EmptyString => false
  | String c EmptyString => bool_decide (c = "/"%char)
  | String _ rest => ends_in_slash rest
  end.

Definition fullProtoID (name : string) : string := baseProtocolPath +:+ trim_slash name.

(** The part up to the last slash, for a slash that is not the first character. *)
Definition base_prefix (name : string) : option string :=
  match last_slash name with
  | Some (S n) => Some (String.substring 0 (S (S n)) name)
  | _ => None
  end.

(** ** The registry *)

Section registry.
Context {handler : Type}.

(** What is set on the host: whether by prefix, and the handler. *)
Record protocols := mkProtocols {
  pr_registry : gmap string handler;
  pr_host : option (gmap string (bool * handler));
}.

#[global] Instance protocols_eta : Eta protocols := fun p => mkProtocols (pr_registry p) (pr_host p).

Inductive register_error := ErrWildcard | ErrRegistered.

Definition set_handler (pid : string) (wildcard : bool) (h : handler) (p : protocols) : protocols :=
  p <| pr_host := (fun m => <[pid := (wildcard, h)]> m) <$> pr_host p |>.

Definition register_id (name : string) (wildcard : bool) : register_error + string :=
  if wildcard then
    match base_prefix name with
    | Some prefix => inr (fullProtoID prefix)
    | None => inl ErrWildcard
    end
  else inr (fullProtoID name).

Definition RegisterProtocol (name : string) (h : handler) (wildcard : bool) (p : protocols)
    : option register_error * protocols :=
  match register_id name wildcard with
  | inl e => (Some e, p)
  | inr pid =>
      match pr_registry p !! pid with
      | Some _ => (Some ErrRegistered, p)
      | None => (None, set_handler pid wildcard h (p <| pr_registry := <[pid := h]> (pr_registry p) |>))
      end
  end.

Definition MustRegisterProtocol (name : string) (h : handler) (wildcard : bool) (p : protocols)
    : outcome protocols :=
  match RegisterProtocol name h wildcard p with
  | (None, p) => Ok p
  | (Some _, _) => Panic
  end.

Definition UnregisterProtocol (name : string) (p : protocols) : protocols :=
  let pid := fullProtoID name in
  p <| pr_registry := delete pid (pr_registry p) |>
    <| pr_host := (fun m => delete pid m) <$> pr_host p |>.

(** What [replayProtocols] sets on a new host. *)
Definition replayProtocols (p : protocols) : protocols :=
  p <| pr_host := Some (map_imap (fun pid h => Some (ends_in_slash pid, h)) (pr_registry p)) |>.

(** Whether a stream's protocol matches what is set under [pid]. *)
Definition matches (pid : string) (wildcard : bool) (proto : string) : bool :=
  if wildcard then has_prefix proto pid else bool_decide (proto = pid).
End registry.
Arguments protocols : clear implicits.

(** ** Lemmas *)

Lemma has_prefix_app s rest : has_prefix (s +:+ rest) s = true.
Proof.
  induction s as [|c s IH]; [done|].
  change (has_prefix (String c s +:+ rest) (String c s)) with (bool_decide (c = c) && has_prefix (s +:+ rest) s).
  by rewrite bool_decide_eq_true_2, IH.
Qed.

Lemma ends_in_slash_app a b : b <> "" -> ends_in_slash (a +:+ b) = ends_in_slash b.
Proof.
  intros Hb. induction a as [|c a IH]; [done|].
  change (String c a +:+ b) with (String c (a +:+ b)). cbn [ends_in_slash].
  destruct (a +:+ b) eqn:E; [|done]. destruct a; [by destruct b|done].
Qed.

Lemma last_slash_prefix s n : last_slash s = Some n -> ends_in_slash (String.substring 0 (S n) s) = true.
Proof.
  revert n. induction s as [|c s IH]; intros n; cbn [last_slash]; [done|].
  destruct (last_slash s) as [m|] eqn:E.
  - intros [= <-]. specialize (IH m eq_refl).
    change (String.substring 0 (S (S m)) (String c s)) with (String c (String.substring 0 (S m) s)).
    cbn [ends_in_slash]. destruct (String.substring 0 (S m) s); done.
  - case_bool_decide; [|done]. intros [= <-]. subst c. by destruct s.
Qed.

Lemma fullProtoID_ends name : trim_slash name <> "" ->
  ends_in_slash (fullProtoID name) = ends_in_slash (trim_slash name).
Proof. apply ends_in_slash_app. Qed.

(** Names that name a protocol: not empty, and no trailing slash. *)
Definition proper_name (name : string) : Prop := name <> "" /\ ends_in_slash name = false.

Lemma proper_name_id name : proper_name name -> ends_in_slash (fullProtoID name) = false.
Proof.
  intros [Hne He]. destruct name as [|c rest]; [done|]. rewrite fullProtoID_ends; cbn [trim_slash].
  - case_bool_decide; [|done]. by destruct rest.
  - case_bool_decide as Hc; [|done]. subst c. by destruct rest.
Qed.

Lemma base_prefix_id name prefix : base_prefix name = Some prefix ->
  ends_in_slash (fullProtoID prefix) = true.
Proof.
  unfold base_prefix. destruct (last_slash name) as [[|n]|] eqn:E; [done| |done]. intros [= <-].
  pose proof (last_slash_prefix _ _ E) as He. destruct name as [|c rest]; [done|].
  change (String.substring 0 (S (S n)) (String c rest)) with (String c (String.substring 0 (S n) rest)) in *.
  destruct (String.substring 0 (S n) rest) as [|d s'] eqn:Es.
  { destruct rest; [|done]. cbn in E. by case_bool_decide. }
  rewrite fullProtoID_ends; cbn [trim_slash]; case_bool_decide; done.
Qed.

Lemma register_id_ends name (wildcard : bool) pid : (wildcard = true \/ proper_name name) ->
  register_id name wildcard = inr pid -> ends_in_slash pid = wildcard.
Proof.
  unfold register_id. destruct wildcard.
  - intros _. destruct (base_prefix name) as [prefix|] eqn:E; [|done]. intros [= <-]. by apply (base_prefix_id name).
  - intros [|Hn]; [done|]. intros [= <-]. by apply proper_name_id.
Qed.

Section registry_props.
Context {handler : Type}.
Implicit Types (p : protocols handler).

(** Registrations one after the other, their errors ignored. *)
Definition register_all (l : list (string * handler * bool)) p : protocols handler :=
  foldl (fun p e => (RegisterProtocol e.1.1 e.1.2 e.2 p).2) p l.

Lemma replay_register name h (wildcard : bool) p : (wildcard = true \/ proper_name name) ->
  replayProtocols (RegisterProtocol name h wildcard p).2 = (RegisterProtocol name h wildcard (replayProtocols p)).2.
Proof.
  intros Hn. unfold RegisterProtocol. destruct (register_id name wildcard) as [e|pid] eqn:Eid; [done|].
  cbn [replayProtocols pr_registry set_field]. destruct (pr_registry p !! pid); [done|].
  unfold set_handler, replayProtocols. cbn. rewrite map_imap_insert.
  by rewrite (register_id_ends name wildcard pid Hn Eid).
Qed.

(** It does not matter whether protocols are registered before or after the
    host starts: replaying the registry on a new host sets exactly the handlers
    that registering on the running host would have set. *)
Theorem registration_order_irrelevant l p :
  Forall (fun e => e.2 = true \/ proper_name e.1.1) l ->
  replayProtocols (register_all l p) = register_all l (replayProtocols p).
Proof.
  intros Hl. revert p. induction Hl as [|e l He Hl IH]; intros p; [done|]. cbn [register_all foldl].
  unfold register_all in IH. rewrite IH. by rewrite replay_register.
Qed.

(** Unregistering a wildcard protocol by its name leaves it registered: it is
    kept under the prefix, and the name is removed. *)
Theorem unregister_misses_wildcard name h prefix p : proper_name name -> base_prefix name = Some prefix ->
  pr_registry p !! fullProtoID prefix = None ->
  let p' := (RegisterProtocol name h true p).2 in
  pr_registry (UnregisterProtocol name p') !! fullProtoID prefix = Some h /\
  (pr_host p = None \/ exists m, pr_host (UnregisterProtocol name p') = Some m /\ m !! fullProtoID prefix = Some (true, h)).
Proof.
  intros Hn Hb Hnone. unfold RegisterProtocol, register_id. rewrite Hb, Hnone.
  assert (fullProtoID name <> fullProtoID prefix) as Hne.
  { intros E. pose proof (proper_name_id name Hn). pose proof (base_prefix_id name prefix Hb). congruence. }
  cbn. rewrite lookup_delete_ne, lookup_insert_eq by done. split; [done|].
  destruct (pr_host p) as [m|]; [right|by left]. cbn. eexists. split; [done|].
  by rewrite lookup_delete_ne, lookup_insert_eq by done.
Qed.
End registry_props.

Lemma registration_order_irrelevant_witness :
  replayProtocols (register_all [("tunnel/1.0", 1, true); ("file/1.0", 2, false)] (mkProtocols ∅ None))
  = register_all [("tunnel/1.0", 1, true); ("file/1.0", 2, false)] (replayProtocols (mkProtocols ∅ None)).
Proof.
  apply (registration_order_irrelevant [("tunnel/1.0", 1, true); ("file/1.0", 2, false)]).
  constructor; [by left|]. constructor; [|constructor]. by right.
Defined.

Lemma unregister_misses_wildcard_witness :
  pr_registry (UnregisterProtocol "tunnel/1.0" (RegisterProtocol "tunnel/1.0" 1 true (mkProtocols ∅ None)).2)
    !! "/d2hub/tunnel/" = Some 1.
Proof. apply (unregister_misses_wildcard "tunnel/1.0" 1 "tunnel/" (mkProtocols ∅ None)); done. Defined.
