(* ===== verification/TunnelAddr.v ===== *)
(** The addresses of the tunnels (src/pbtunnel/pbtunnel.go): how a dialler
    writes a port into the protocol name and how the other side reads it back.

    Strings and decimal numbers are Go's; a call of [log.Panicln] is the outcome
    [Panic].  Opening the stream is libp2p's: [Dial] is modelled up to the peer
    and the protocol it opens. *)

From Stdlib Require Import Ascii.
From stdpp Require Import gmap strings.
From S2P Require Import Prelude Protocols.

#[local] Open Scope string_scope.
#[local] Open Scope Z_scope.

Definition tunnelProto : string := "tunnel/1.0".
Definition udpTunnelProto : string := "udptunnel/1.0".

(** ** Strings *)

(** [strings.Index(s, sub)]. *)
Fixpoint str_index (sub s : string) : option nat :=
  if has_prefix s sub then Some 0%nat
  else match s with EmptyString => None | String _ s => S <$> str_index sub s end.

(** [s[n:]]. *)
Fixpoint str_drop (n : nat) (s : string) : string :=
  match n, s with
  | O, _ => s
  | S n, String _ s => str_drop n s
  | S _, EmptyString => EmptyString
  end.

(** [strings.Split(s, ":")]. *)
Fixpoint split_colon (s : string) : list string :=
  match s with
  | EmptyString => [""]
  | String c rest =>
      if bool_decide (c = ":"%char) then "" :: split_colon rest
      else
        match split_colon rest with
        | [] => [String c ""]
        | e :: es => String c e :: es
        end
  end.

Definition digit_char (d : Z) : ascii := ascii_of_nat (48 + Z.to_nat d).
Definition char_digit (c : ascii) : option Z :=
  let n := Z.of_nat (nat_of_ascii c) - 48 in if (0 <=? n) && (n <? 10) then Some n else None.

Fixpoint itoa_go (fuel : nat) (n : Z) (acc : string) : string :=
  match fuel with
  | O => acc
  | S fuel =>
      let acc := String (digit_char (n mod 10)) acc in
      if n / 10 =? 0 then acc else itoa_go fuel (n / 10) acc
  end.

(** [strconv.Itoa]: a 64-bit integer has at most 19 digits. *)
Definition itoa (n : Z) : string :=
  if n <? 0 then String "-" (itoa_go 20 (- n) "") else itoa_go 20 n "".

Fixpoint atoi_digits (s : string) (acc : Z) : option Z :=
  match s with
  | EmptyString => Some acc
  | String c s =>
      match char_digit c with
      | Some d => atoi_digits s (acc * 10 + d)
      | None => None
      end
  end.

Definition atoi_unsigned (s : string) : option Z :=
  match s with EmptyString => None | _ => atoi_digits s 0 end.

(** [strconv.Atoi], [None] on an error. *)
Definition Atoi (s : string) : option Z :=
  let r := match s with
           | String c rest =>
               if bool_decide (c = "-"%char) then Z.opp <$> atoi_unsigned rest
               else if bool_decide (c = "+"%char) then atoi_unsigned rest
               else atoi_unsigned s
           | EmptyString => None
           end in
  match r with
  | Some n => if (- 2 ^ 63 <=? n) && (n <? 2 ^ 63) then Some n else None
  | None => None
  end.

(** ** Addresses *)

Record tunnel_config := mkTunnel { tc_target : string; tc_port : Z }.

Definition local_addr (port : Z) : string := "127.0.0.1:" +:+ itoa port.

Definition targetAddr (cfg : tunnel_config) (proto : option string) : outcome string :=
  if negb (bool_decide (tc_target cfg = "")) then Ok (tc_target cfg)
  else
    match proto with
    | None => Ok (local_addr (tc_port cfg))
    | Some proto =>
        match str_index tunnelProto proto with
        | None => Panic
        | Some idx =>
            let suffix := str_drop (idx + String.length tunnelProto) proto in
            if bool_decide (suffix = "" \/ suffix = "0") then Ok (local_addr (tc_port cfg))
            else
              match Atoi suffix with
              | None => Panic
              | Some n => Ok (local_addr n)
              end
        end
    end.

(** The peer and the protocol [Dial] and [DialUDP] open, for the protocol of
    each. *)
Definition dial_proto (base : string) (cfg : tunnel_config) (peerID : string) : outcome (string * string) :=
  match split_colon peerID with
  | [_] => Ok (peerID, base +:+ itoa (tc_port cfg))
  | [peer; port] => Ok (peer, base +:+ port)
  | _ => Panic
  end.

Definition Dial : tunnel_config -> string -> outcome (string * string) := dial_proto tunnelProto.
Definition DialUDP : tunnel_config -> string -> outcome (string * string) := dial_proto udpTunnelProto.

(** ** Lemmas *)

Lemma char_digit_char d : 0 <= d < 10 -> char_digit (digit_char d) = Some d.
Proof.
  intros H. unfold char_digit, digit_char. rewrite nat_ascii_embedding by lia.
  replace (Z.of_nat (48 + Z.to_nat d) - 48) with d by lia. by replace ((0 <=? d) && (d <? 10)) with true by lia.
Qed.

Lemma atoi_itoa_go fuel n acc : 0 <= n < 10 ^ Z.of_nat fuel -> fuel <> 0%nat ->
  exists k, 0 <= k /\ forall a, atoi_digits (itoa_go fuel n acc) a = atoi_digits acc (a * 10 ^ k + n).
Proof.
  revert n acc. induction fuel as [|fuel IH]; intros n acc Hn Hf; [done|]. cbn [itoa_go].
  pose proof (Z.mod_pos_bound n 10 ltac:(lia)) as Hm. pose proof (Z.div_mod n 10 ltac:(lia)) as Hd.
  destruct (Z.eqb_spec (n / 10) 0) as [E|E].
  - exists 1. split; [lia|]. intros a. cbn [atoi_digits]. rewrite char_digit_char by lia. f_equal. lia.
  - rewrite Nat2Z.inj_succ, Z.pow_succ_r in Hn by lia.
    destruct (IH (n / 10) (String (digit_char (n mod 10)) acc)) as (k & Hk0 & Hk).
    { split; [apply Z.div_pos; lia|]. apply Z.div_lt_upper_bound; lia. }
    { intros ->. cbn in Hn. assert (n / 10 = 0) by (apply Z.div_small; lia). done. }
    exists (Z.succ k). split; [lia|]. intros a. rewrite Hk. cbn [atoi_digits]. rewrite char_digit_char by lia.
    f_equal. rewrite Z.pow_succ_r by lia. nia.
Qed.

(** The first character of a decimal number is a digit. *)
Lemma itoa_go_head fuel n acc : 0 <= n -> fuel <> 0%nat ->
  exists d rest, itoa_go fuel n acc = String (digit_char d) rest /\ 0 <= d < 10.
Proof.
  revert n acc. induction fuel as [|fuel IH]; intros n acc Hn Hf; [done|]. cbn [itoa_go].
  pose proof (Z.mod_pos_bound n 10 ltac:(lia)).
  destruct (n / 10 =? 0); [eauto|]. destruct fuel as [|fuel]; [cbn; eauto|]. apply IH; [|done].
  apply Z.div_pos; lia.
Qed.

Lemma digit_char_plain d : 0 <= d < 10 ->
  digit_char d <> "-"%char /\ digit_char d <> "+"%char /\ digit_char d <> ":"%char.
Proof.
  intros H. pose proof (char_digit_char d H) as E.
  split_and!; intros Hc; rewrite Hc in E; by vm_compute in E.
Qed.

Lemma Atoi_itoa n : 0 <= n < 2 ^ 63 -> Atoi (itoa n) = Some n.
Proof.
  intros Hn. unfold itoa. replace (n <? 0) with false by lia.
  destruct (itoa_go_head 20 n "") as (d & rest & E & Hd); [lia|done|].
  destruct (atoi_itoa_go 20 n "") as (k & _ & Hk); [lia|done|]. specialize (Hk 0).
  rewrite E in *. destruct (digit_char_plain d Hd) as (H1 & H2 & _). unfold Atoi.
  rewrite !bool_decide_eq_false_2 by done. unfold atoi_unsigned. rewrite Hk. cbn [atoi_digits].
  replace (0 * 10 ^ k + n) with n by lia. by replace ((- 2 ^ 63 <=? n) && (n <? 2 ^ 63)) with true by lia.
Qed.

Lemma itoa_go_plain fuel n acc : 0 <= n -> split_colon acc = [acc] ->
  split_colon (itoa_go fuel n acc) = [itoa_go fuel n acc].
Proof.
  revert n acc. induction fuel as [|fuel IH]; intros n acc Hn Ha; [done|]. cbn [itoa_go].
  pose proof (Z.mod_pos_bound n 10 ltac:(lia)).
  assert (split_colon (String (digit_char (n mod 10)) acc) = [String (digit_char (n mod 10)) acc]) as Hs.
  { cbn [split_colon]. rewrite bool_decide_eq_false_2 by (by apply digit_char_plain). by rewrite Ha. }
  destruct (n / 10 =? 0); [done|]. apply IH; [apply Z.div_pos; lia|done].
Qed.

Lemma split_colon_app a b : split_colon a = [a] -> split_colon (a +:+ ":" +:+ b) = a :: split_colon b.
Proof.
  induction a as [|c a IH]; [done|].
  change (String c a +:+ ":" +:+ b) with (String c (a +:+ ":" +:+ b)). cbn [split_colon].
  case_bool_decide.
  - by intros [=].
  - destruct (split_colon a) as [|e es] eqn:E.
    + intros _. by destruct a; cbn in E; repeat case_match.
    + intros [= -> ->]. by rewrite IH.
Qed.

Lemma str_drop_app a b : str_drop (String.length a) (a +:+ b) = b.
Proof. induction a as [|c a IH]; [by destruct b|exact IH]. Qed.

(** The suffix of a tunnel protocol, as the other side sees it. *)
Lemma target_suffix base rest : base = tunnelProto \/ base = udpTunnelProto ->
  exists idx, str_index tunnelProto (fullProtoID (base +:+ rest)) = Some idx /\
    str_drop (idx + String.length tunnelProto) (fullProtoID (base +:+ rest)) = rest.
Proof.
  intros [->| ->].
  - exists 7%nat. split; [reflexivity|]. apply (str_drop_app "/d2hub/tunnel/1.0" rest).
  - exists 10%nat. split; [reflexivity|]. apply (str_drop_app "/d2hub/udptunnel/1.0" rest).
Qed.

(** A port travels intact: dialling [peer:port], over TCP or UDP, opens at the
    peer a protocol whose handler forwards to exactly that local port, unless
    the peer forwards everything to a fixed target. *)
Theorem dial_reaches_port base cfg remote peer port :
  base = tunnelProto \/ base = udpTunnelProto -> split_colon peer = [peer] -> 0 < port < 2 ^ 63 ->
  tc_target remote = "" ->
  exists proto, dial_proto base cfg (peer +:+ ":" +:+ itoa port) = Ok (peer, proto) /\
    targetAddr remote (Some (fullProtoID proto)) = Ok (local_addr port).
Proof.
  intros Hb Hp Hport Ht. exists (base +:+ itoa port). unfold dial_proto. rewrite split_colon_app by done.
  assert (split_colon (itoa port) = [itoa port]) as ->.
  { unfold itoa. replace (port <? 0) with false by lia. apply itoa_go_plain; [lia|done]. }
  split; [done|]. unfold targetAddr. rewrite Ht. cbn [negb].
  rewrite bool_decide_eq_true_2 by done. cbn [negb].
  destruct (target_suffix base (itoa port) Hb) as (idx & -> & ->).
  rewrite bool_decide_eq_false_2.
  - by rewrite Atoi_itoa by lia.
  - intros [E|E]; apply (f_equal Atoi) in E; rewrite Atoi_itoa in E by lia; vm_compute in E; [done|].
    injection E as E. lia.
Qed.

Lemma dial_reaches_port_witness :
  exists proto, DialUDP (mkTunnel "" 1) "12D3Koo:9339" = Ok ("12D3Koo", proto) /\
    targetAddr (mkTunnel "" 9229) (Some (fullProtoID proto)) = Ok "127.0.0.1:9339".
Proof. apply (dial_reaches_port udpTunnelProto (mkTunnel "" 1) (mkTunnel "" 9229) "12D3Koo" 9339); auto; lia. Defined.

(** A peer can crash the process by naming a protocol: every protocol below
    [/d2hub/tunnel/] is handed to the tunnel, and forwarding panics unless the
    name contains [tunnel/1.0] followed by nothing or a decimal number. *)
Theorem protocol_name_panics cfg rest :
  tc_target cfg = "" -> str_index tunnelProto ("/d2hub/tunnel/" +:+ rest) = None ->
  match register_id tunnelProto true with
  | inr pid => matches pid true ("/d2hub/tunnel/" +:+ rest) = true
  | inl _ => False
  end /\ targetAddr cfg (Some ("/d2hub/tunnel/" +:+ rest)) = Panic.
Proof.
  intros Ht Hi. split; [apply (has_prefix_app "/d2hub/tunnel/")|].
  unfold targetAddr. rewrite Ht, Hi. done.
Qed.

Lemma protocol_name_panics_witness :
  targetAddr (mkTunnel "" 9229) (Some "/d2hub/tunnel/2.0") = Panic.
Proof. apply (protocol_name_panics (mkTunnel "" 9229) "2.0"); reflexivity. Defined.
