(* ===== verification/Tunnel.v ===== *)
(** The tunnels (src/pbtunnel/pbtunnel.go, src/pbtunnel/httpproxy.go): copying
    between a socket and a stream, datagrams over a stream, and the connection
    object of a UDP dialler.

    A destination of bytes is what has been written to it and a script of how its next
    writes go, each of which may take only a part, or fail.  A tunnel is the pair of
    its directions; what happens to it is a sequence of reads that return, of either
    goroutine.  A read may never return: a run need not be over. *)

From S2P Require Import Prelude.

Definition bufSize : Z := 3072.
Definition udpBufSize : Z := 65535.

(** ** Writing *)

Record writer := mkWriter {
  wr_out : list byte;
  wr_script : list (Z * bool);
}.

(** [dst.Write(p)]: the number of bytes taken, and whether it returned no error. *)
Definition writer_Write (p : list byte) (w : writer) : Z * bool * writer :=
  match wr_script w with
  | [] => (len p, true, mkWriter (wr_out w ++ p) [])
  | (k, ok) :: script =>
      let k := Z.min (Z.max 0 k) (len p) in
      (k, ok, mkWriter (wr_out w ++ takeZ k p) script)
  end.

Fixpoint writen_loop (fuel : nat) (buf : list byte) (wn n : Z) (w : writer) : outcome (Z * bool * writer) :=
  match fuel with
  | O => Panic
  | S fuel =>
      if wn <? n then
        let '(k, ok, w) := writer_Write (slice buf wn n) w in
        if ok : bool then writen_loop fuel buf (wn + k) n w else Ok (wn + k, false, w)
      else Ok (wn, true, w)
  end.

(** Each turn uses up an entry of the script, and with none left a write takes
    everything. *)
Definition writen (buf : list byte) (n : Z) (w : writer) : outcome (Z * bool * writer) :=
  writen_loop (S (S (length (wr_script w)))) buf 0 n w.

(** A writer none of whose writes will fail, though each may take only a part. *)
Definition willing (w : writer) : Prop := Forall (fun e => e.2 = true) (wr_script w).

Lemma willing_new out : willing (mkWriter out []).
Proof. constructor. Qed.

Lemma take_slice {A} (buf : list A) a n k : 0 <= k <= n - a -> takeZ k (slice buf a n) = slice buf a (a + k).
Proof. intros H. unfold slice, takeZ. rewrite take_take. f_equal. lia. Qed.

Lemma slice_app {A} (buf : list A) a b c : 0 <= a <= b -> b <= c ->
  slice buf a b ++ slice buf b c = slice buf a c.
Proof.
  intros H H'. unfold slice. replace (Z.to_nat b) with (Z.to_nat a + Z.to_nat (b - a))%nat by lia.
  rewrite <- drop_drop, take_take_drop. f_equal. lia.
Qed.

Lemma slice_length {A} (buf : list A) a b : 0 <= a <= b -> b <= len buf -> len (slice buf a b) = b - a.
Proof. intros H H'. unfold slice. rewrite length_take, length_drop. lia. Qed.

Lemma writen_loop_spec fuel buf wn n w : 0 <= wn <= n -> n <= len buf ->
  (length (wr_script w) + 2 <= fuel \/ (wn = n /\ 1 <= fuel))%nat ->
  exists wn' ok w', writen_loop fuel buf wn n w = Ok (wn', ok, w') /\ wn <= wn' <= n /\
    wr_out w' = wr_out w ++ slice buf wn wn' /\ (ok = true -> wn' = n) /\
    (willing w -> ok = true /\ willing w').
Proof.
  revert wn w. induction fuel as [|fuel IH]; intros wn w Hwn Hn Hf; [lia|]. cbn [writen_loop].
  destruct (Z.ltb_spec wn n) as [Hlt|Hge].
  2: { exists wn, true, w. assert (slice buf wn wn = []) as -> by (unfold slice; by rewrite Z.sub_diag).
       rewrite app_nil_r. split_and!; try done; lia. }
  pose proof (slice_length buf wn n ltac:(lia) Hn) as Hlen.
  unfold writer_Write. destruct (wr_script w) as [|[k ok] script] eqn:Es.
  - destruct (IH (wn + len (slice buf wn n)) (mkWriter (wr_out w ++ slice buf wn n) []))
      as (wn' & ok & w' & -> & Hr & Ho & Hok & Hw); [lia|done|cbn; lia|].
    exists wn', ok, w'. split_and!; try done; [lia|lia| |by intros _; apply Hw, willing_new]. rewrite Ho. cbn [wr_out].
    rewrite <- app_assoc. replace (wn + len (slice buf wn n)) with n by lia. by rewrite slice_app by lia.
  - set (k' := Z.min (Z.max 0 k) (len (slice buf wn n))). assert (0 <= k' <= n - wn) as Hk by lia.
    rewrite take_slice by done. destruct ok.
    + destruct (IH (wn + k') (mkWriter (wr_out w ++ slice buf wn (wn + k')) script))
        as (wn' & ok & w' & -> & Hr & Ho & Hok & Hw); [lia|done|cbn in *; lia|].
      exists wn', ok, w'. split_and!; try done; [lia|lia| |].
      * rewrite Ho. cbn [wr_out]. rewrite <- app_assoc. by rewrite slice_app by lia.
      * intros E. unfold willing in E. rewrite Es in E. inversion E; subst. by apply Hw.
    + exists (wn + k'), false, (mkWriter (wr_out w ++ slice buf wn (wn + k')) script).
      split_and!; try done; [lia|lia|]. intros E. unfold willing in E. rewrite Es in E. by inversion E.
Qed.

(** [writen] returns, has written a prefix, all of it unless it reports an error. *)
Lemma writen_spec buf n w : 0 <= n <= len buf ->
  exists wn ok w', writen buf n w = Ok (wn, ok, w') /\ 0 <= wn <= n /\
    wr_out w' = wr_out w ++ takeZ wn buf /\ (ok = true -> wn = n) /\ (willing w -> ok = true /\ willing w').
Proof.
  intros Hn. destruct (writen_loop_spec (S (S (length (wr_script w)))) buf 0 n w) as (wn & ok & w' & He & H);
    [lia|lia|lia|]. exists wn, ok, w'. split; [exact He|].
  unfold slice in H. rewrite drop_0, Z.sub_0_r in H. exact H.
Qed.

(** ** Copying *)

(** How a read ended: normally, by its deadline, or for good. *)
Inductive read_end := ReadMore | ReadTimeout | ReadEnd.

(** The three tunnels of streams of bytes. *)
Inductive tunnel_kind := HandleTunnel | ServeConnect | HandleP2x.

(** Whether the deadline of a read is waited out again ([handleP2x] sets none, and
    takes every error for the end). *)
Definition retry_deadline (k : tunnel_kind) : bool := match k with HandleP2x => false | _ => true end.

(** Whether the goroutine that reads the socket closes the stream when it ends; in
    [handleTunnel] that [defer] is commented out.  The other goroutine always closes
    the socket. *)
Definition closes_stream (k : tunnel_kind) : bool := match k with HandleTunnel => false | _ => true end.

Definition read_stops (k : tunnel_kind) (rerr : read_end) : bool :=
  match rerr with ReadMore => false | ReadTimeout => negb (retry_deadline k) | ReadEnd => true end.

(** One turn of a copy loop, for what its read returned: whether the loop goes on, the
    count of bytes written, and the destination. *)
Definition copy_turn (k : tunnel_kind) (data : list byte) (rerr : read_end) (count : Z) (w : writer)
    : outcome (bool * Z * writer) :=
  if 0 <? len data then
    match writen data (len data) w with
    | Panic => Panic
    | Ok (wn, _, w) =>
        if negb (wn =? len data) then Ok (false, count + wn, w)
        else Ok (negb (read_stops k rerr), count + wn, w)
    end
  else Ok (negb (read_stops k rerr), count, w).

(** A direction: whether its goroutine still runs, its counter, what it writes to and
    whether that is closed; [d_got] records all that its reads returned. *)
Record direction := mkDirection {
  d_live : bool;
  d_count : Z;
  d_dst : writer;
  d_closed : bool;
  d_got : list byte;
}.

(** From the socket to the stream, and back.  What one of them writes to is what the
    other reads. *)
Record tunnel := mkTunnel { tn_up : direction; tn_down : direction }.

Definition new_direction (w : writer) : direction := mkDirection true 0 w false [].
Definition new_tunnel (stream sock : writer) : tunnel := mkTunnel (new_direction stream) (new_direction sock).

(** A turn of a direction whose source may be closed: then its read returns nothing
    but an error.  [closes] is whether it closes its destination when it ends. *)
Definition direction_turn (k : tunnel_kind) (closes src_closed : bool) (data : list byte) (rerr : read_end)
    (d : direction) : outcome direction :=
  if d_live d then
    let '(data, rerr) := if src_closed then ([], ReadEnd) else (data, rerr) in
    match copy_turn k data rerr (d_count d) (d_dst d) with
    | Panic => Panic
    | Ok (go, count, w) => Ok (mkDirection go count w (d_closed d || (negb go && closes)) (d_got d ++ data))
    end
  else Ok d.

(** [wg.Wait] and the deferred calls: when both goroutines have ended the stream and the
    socket are closed. *)
Definition tunnel_return (t : tunnel) : tunnel :=
  if negb (d_live (tn_up t)) && negb (d_live (tn_down t)) then
    let close (d : direction) := mkDirection (d_live d) (d_count d) (d_dst d) true (d_got d) in
    mkTunnel (close (tn_up t)) (close (tn_down t))
  else t.

(** A read of one of the goroutines returns.  A read that has not returned is no event:
    a run is any sequence of them, in any order, and need not be over. *)
Inductive tunnel_event := Up (data : list byte) (rerr : read_end) | Down (data : list byte) (rerr : read_end).

Definition tunnel_turn (k : tunnel_kind) (e : tunnel_event) (t : tunnel) : outcome tunnel :=
  match e with
  | Up data rerr =>
      match direction_turn k (closes_stream k) (d_closed (tn_down t)) data rerr (tn_up t) with
      | Ok d => Ok (tunnel_return (mkTunnel d (tn_down t)))
      | Panic => Panic
      end
  | Down data rerr =>
      match direction_turn k true (d_closed (tn_up t)) data rerr (tn_down t) with
      | Ok d => Ok (tunnel_return (mkTunnel (tn_up t) d))
      | Panic => Panic
      end
  end.

Fixpoint run_tunnel (k : tunnel_kind) (evs : list tunnel_event) (t : tunnel) : outcome tunnel :=
  match evs with
  | [] => Ok t
  | e :: evs => match tunnel_turn k e t with Ok t => run_tunnel k evs t | Panic => Panic end
  end.

Definition handleTunnel_copy := run_tunnel HandleTunnel.
Definition serveConnect_copy := run_tunnel ServeConnect.
Definition handleP2x_copy := run_tunnel HandleP2x.

(** What a source gave: the bytes, and how the reads ended. *)
Definition ups (evs : list tunnel_event) : list (list byte * read_end) :=
  omap (fun e => match e with Up data rerr => Some (data, rerr) | Down _ _ => None end) evs.
Definition downs (evs : list tunnel_event) : list (list byte * read_end) :=
  omap (fun e => match e with Down data rerr => Some (data, rerr) | Up _ _ => None end) evs.
Definition given (reads : list (list byte * read_end)) : list byte := concat reads.*1.

(** What is true of a direction that began with the destination [w], for the reads its
    source gave. *)
Record direction_ok (k : tunnel_kind) (w : writer) (reads : list (list byte * read_end)) (src_closed : bool) (d : direction) : Prop := {
  do_out : wr_out (d_dst d) = wr_out w ++ takeZ (d_count d) (d_got d);
  do_count : 0 <= d_count d <= len (d_got d);
  do_got : d_got d `prefix_of` given reads;
  do_live : d_live d = true -> d_got d = given reads /\ d_count d = len (d_got d);
  do_willing : willing w -> d_count d = len (d_got d) /\ willing (d_dst d);
  do_dead : d_live d = false ->
    Exists (fun r => read_stops k r.2 = true) reads \/ ~ willing w \/ src_closed = true;
}.

Lemma given_snoc reads data rerr : given (reads ++ [(data, rerr)]) = given reads ++ data.
Proof. unfold given. rewrite fmap_app, concat_app. cbn. by rewrite app_nil_r. Qed.

Lemma copy_turn_spec k data rerr count w :
  exists go n w', copy_turn k data rerr count w = Ok (go, count + n, w') /\ 0 <= n <= len data /\
    wr_out w' = wr_out w ++ takeZ n data /\ (willing w -> n = len data /\ willing w') /\
    (go = true -> n = len data /\ read_stops k rerr = false) /\
    (go = false -> read_stops k rerr = true \/ ~ willing w).
Proof.
  unfold copy_turn. destruct (Z.ltb_spec 0 (len data)) as [Hpos|Hnil].
  - destruct (writen_spec data (len data) w ltac:(lia)) as (wn & ok & w1 & -> & Hwn & Ho & Hok & Hw).
    destruct (Z.eqb_spec wn (len data)) as [->|Hne]; cbn [negb].
    + exists (negb (read_stops k rerr)), (len data), w1.
      split_and!; try done; try lia; try (by intros [_ ?]%Hw); intros H; destruct (read_stops k rerr); auto.
    + exists false, wn, w1. split_and!; try done; try lia.
      * intros H. destruct (Hw H). by destruct Hne; apply Hok.
      * intros _. right. intros H. destruct (Hw H). by destruct Hne; apply Hok.
  - assert (data = []) as -> by (destruct data; [done|cbn in *; lia]).
    exists (negb (read_stops k rerr)), 0, w. rewrite Z.add_0_r, app_nil_r.
    split_and!; try done; try lia; intros H; destruct (read_stops k rerr); auto.
Qed.

Lemma direction_ok_mono k w reads src src' d data rerr : (src = true -> src' = true) -> d_live d = false ->
  direction_ok k w reads src d -> direction_ok k w (reads ++ [(data, rerr)]) src' d.
Proof.
  intros Hs Hl [Ho Hc Hg Hlv Hw Hd]. split; try done.
  - rewrite given_snoc. by apply prefix_app_r.
  - congruence.
  - intros _. destruct (Hd Hl) as [?|[?|?]]; [left; apply Exists_app; by left|by right; left|by right; right; apply Hs].
Qed.

Lemma direction_turn_ok k w reads closes src d data rerr : direction_ok k w reads src d ->
  exists d', direction_turn k closes src data rerr d = Ok d' /\ direction_ok k w (reads ++ [(data, rerr)]) src d' /\
    (d_live d' = true -> d_live d = true) /\ d_closed d' = d_closed d || (d_live d && negb (d_live d') && closes) /\
    (src = true -> d_live d' = false).
Proof.
  intros Hok. unfold direction_turn. destruct (d_live d) eqn:Hl.
  2: { exists d. rewrite Hl, orb_false_r. split_and!; try done. by eapply direction_ok_mono. }
  set (got := if src then [] else data).
  destruct (copy_turn_spec k got (if src then ReadEnd else rerr) (d_count d) (d_dst d))
    as (go & n & w' & He & Hn & Ho & Hw & Hgo & Hstop).
  exists (mkDirection go (d_count d + n) w' (d_closed d || (negb go && closes)) (d_got d ++ got)).
  split; [subst got; destruct src; by rewrite He|]. destruct Hok as [Ho0 Hc0 Hg0 Hl0 Hw0 Hd0].
  destruct (Hl0 Hl) as [Hgot Hcount].
  split; [|split; [done|split; [done|]]].
  2: { intros ->. cbn. destruct go; [|done]. by destruct (Hgo eq_refl) as [_ ?]. }
  split; cbn.
  - rewrite Ho, Ho0, Hcount, <-app_assoc. f_equal. unfold takeZ. rewrite Nat2Z.id, firstn_all, take_app_ge by lia.
    do 2 f_equal. lia.
  - rewrite length_app. lia.
  - rewrite given_snoc, Hgot. subst got. destruct src; [|done]. rewrite app_nil_r. by apply prefix_app_r.
  - intros ->. destruct (Hgo eq_refl) as [-> Hrs]. rewrite given_snoc, length_app, Hgot. split; [|rewrite <-Hgot; lia].
    subst got. by destruct src.
  - intros H. destruct (Hw0 H) as [_ Hw1]. destruct (Hw Hw1) as [-> ?]. rewrite length_app. split; [lia|done].
  - intros ->. destruct src; [by right; right|]. destruct (Hstop eq_refl) as [?|Hnw].
    + left. apply Exists_app. right. by constructor.
    + right. left. intros H. by apply Hnw, Hw0.
Qed.

(** What is true of a tunnel after some events. *)
Record tunnel_ok (k : tunnel_kind) (stream sock : writer) (evs : list tunnel_event) (t : tunnel) : Prop := {
  to_up : direction_ok k stream (ups evs) (d_closed (tn_down t)) (tn_up t);
  to_down : direction_ok k sock (downs evs) (d_closed (tn_up t)) (tn_down t);
  to_sock : d_closed (tn_down t) = negb (d_live (tn_down t));
  to_stream : d_closed (tn_up t) = negb (d_live (tn_up t)) && (closes_stream k || negb (d_live (tn_down t)));
}.

Lemma direction_ok_src k w reads src src' d : (src = true -> src' = true) -> direction_ok k w reads src d -> direction_ok k w reads src' d.
Proof. intros Hs [Ho Hc Hg Hl Hw Hd]. split; try done. intros H. destruct (Hd H) as [?|[?|?]]; auto. Qed.

Lemma direction_ok_close k w reads src d : direction_ok k w reads src d ->
  direction_ok k w reads src (mkDirection (d_live d) (d_count d) (d_dst d) true (d_got d)).
Proof. by intros [Ho Hc Hg Hl Hw Hd]. Qed.

Lemma tunnel_return_ok k stream sock evs t :
  direction_ok k stream (ups evs) (d_closed (tn_down t)) (tn_up t) ->
  direction_ok k sock (downs evs) (d_closed (tn_up t)) (tn_down t) ->
  d_closed (tn_down t) = negb (d_live (tn_down t)) ->
  (d_live (tn_up t) = true \/ d_live (tn_down t) = true ->
    d_closed (tn_up t) = negb (d_live (tn_up t)) && (closes_stream k || negb (d_live (tn_down t)))) ->
  tunnel_ok k stream sock evs (tunnel_return t).
Proof.
  intros Hu Hd Hs Hc. unfold tunnel_return. destruct t as [u d]. cbn in *.
  destruct (d_live u) eqn:Hlu; [by split; cbn; rewrite ?Hlu in *; auto|].
  destruct (d_live d) eqn:Hld; cbn; [by split; cbn; rewrite ?Hlu, ?Hld in *; auto|].
  split; cbn; rewrite ?Hlu, ?Hld; [| |done|by rewrite orb_true_r].
  - eapply direction_ok_close in Hu. cbn in Hu. rewrite Hlu in Hu. by eapply direction_ok_src; [|exact Hu].
  - eapply direction_ok_close in Hd. cbn in Hd. rewrite Hld in Hd. by eapply direction_ok_src; [|exact Hd].
Qed.

Lemma tunnel_turn_ok k stream sock evs e t : tunnel_ok k stream sock evs t ->
  exists t', tunnel_turn k e t = Ok t' /\ tunnel_ok k stream sock (evs ++ [e]) t'.
Proof.
  intros [Hu Hd Hs Hc]. destruct t as [u d]. cbn in *. destruct e as [data rerr|data rerr]; cbn.
  - destruct (direction_turn_ok k stream _ (closes_stream k) _ u data rerr Hu) as (u' & -> & Hu' & Hmono & Hcl & Hdead).
    eexists. split; [done|]. apply tunnel_return_ok; cbn; unfold ups, downs; rewrite ?omap_app; cbn; rewrite ?app_nil_r; try done.
    + eapply direction_ok_src; [|exact Hd]. rewrite Hcl. by intros ->.
    + rewrite Hcl, Hc. rewrite Hs in Hdead. revert Hmono Hdead.
      destruct (d_live u), (d_live u'), (d_live d), (closes_stream k); cbn; intuition congruence.
  - destruct (direction_turn_ok k sock _ true _ d data rerr Hd) as (d' & -> & Hd' & Hmono & Hcl & Hdead).
    eexists. split; [done|]. apply tunnel_return_ok; cbn; unfold ups, downs; rewrite ?omap_app; cbn; rewrite ?app_nil_r; try done.
    + eapply direction_ok_src; [|exact Hu]. rewrite Hcl. by intros ->.
    + rewrite Hcl, Hs. revert Hmono. destruct (d_live d), (d_live d'); cbn; intuition congruence.
    + rewrite Hc. revert Hmono. destruct (d_live u), (d_live d), (d_live d'), (closes_stream k); cbn; intuition congruence.
Qed.

Lemma run_tunnel_app k evs evs' t : run_tunnel k (evs ++ evs') t =
  match run_tunnel k evs t with Ok t => run_tunnel k evs' t | Panic => Panic end.
Proof. revert t. induction evs as [|e evs IH]; intros t; [done|]. cbn. by destruct (tunnel_turn k e t). Qed.

Lemma run_tunnel_ok k stream sock evs :
  exists t, run_tunnel k evs (new_tunnel stream sock) = Ok t /\ tunnel_ok k stream sock evs t.
Proof.
  induction evs as [|e evs IH] using rev_ind.
  - eexists. split; [done|]. split; cbn; try done; by split; cbn; rewrite ?app_nil_r; try done; lia.
  - destruct IH as (t & Hr & Hok). destruct (tunnel_turn_ok k stream sock evs e t Hok) as (t' & He & Hok').
    exists t'. by rewrite run_tunnel_app, Hr; cbn; rewrite He.
Qed.

(** C10: A tunnel is transparent in each direction, at every moment of every run: what
    came out is an unchanged prefix of what went in, of as many bytes as the counter
    says; nothing is held back by a goroutine that still runs, nor anything that was
    read when no write to the destination fails.  A goroutine stops only when a
    read ends for good (a deadline is waited out again, but for [handleP2x]), a write is
    cut short, or what it reads was closed.  The goroutine that reads the stream closes
    the socket when it stops, and with that the other one stops at its next turn; the
    one that reads the socket closes the stream, except in [handleTunnel]; when both have
    stopped everything is closed. *)
Theorem tunnel_transparent k evs stream sock :
  exists t, run_tunnel k evs (new_tunnel stream sock) = Ok t /\
    let up := tn_up t in let down := tn_down t in
    (wr_out (d_dst up) = wr_out stream ++ takeZ (d_count up) (given (ups evs)) /\
     wr_out (d_dst down) = wr_out sock ++ takeZ (d_count down) (given (downs evs)) /\
     0 <= d_count up <= len (given (ups evs)) /\ 0 <= d_count down <= len (given (downs evs))) /\
    ((d_live up = true -> d_count up = len (given (ups evs))) /\
     (d_live down = true -> d_count down = len (given (downs evs))) /\
     (willing stream -> d_count up = len (d_got up)) /\ (willing sock -> d_count down = len (d_got down))) /\
    ((d_live up = false -> Exists (fun r => read_stops k r.2 = true) (ups evs) \/ ~ willing stream \/ d_closed down = true) /\
     (d_live down = false -> Exists (fun r => read_stops k r.2 = true) (downs evs) \/ ~ willing sock \/ d_closed up = true)) /\
    d_closed down = negb (d_live down) /\
    d_closed up = negb (d_live up) && (closes_stream k || negb (d_live down)) /\
    forall data rerr,
      (d_closed down = true -> exists t', tunnel_turn k (Up data rerr) t = Ok t' /\ d_live (tn_up t') = false) /\
      (d_closed up = true -> exists t', tunnel_turn k (Down data rerr) t = Ok t' /\ d_live (tn_down t') = false).
Proof.
  destruct (run_tunnel_ok k stream sock evs) as (t & Hr & [Hu Hd Hs Hc]). exists t. split; [done|]. cbv zeta.
  assert (forall w reads src d, direction_ok k w reads src d ->
    takeZ (d_count d) (d_got d) = takeZ (d_count d) (given reads) /\ len (d_got d) <= len (given reads)) as Hpre.
  { intros w reads src d [_ Hcnt [x ->] _ _ _]. rewrite length_app. split; [|lia]. unfold takeZ. by rewrite take_app_le by lia. }
  destruct (Hpre _ _ _ _ Hu) as [Eu Lu], (Hpre _ _ _ _ Hd) as [Ed Ld]. clear Hpre.
  pose proof Hu as [Ho Hcnt Hg Hl Hw Hdead]. pose proof Hd as [Ho' Hcnt' Hg' Hl' Hw' Hdead'].
  rewrite <-Eu, <-Ed. split; [split_and!; try done; lia|].
  split; [split_and!; [by intros [<- ->]%Hl|by intros [<- ->]%Hl'|by intros [? _]%Hw|by intros [? _]%Hw']|].
  split; [done|]. split; [done|]. split; [done|]. intros data rerr. split; intros H.
  - destruct (direction_turn_ok k stream _ (closes_stream k) _ (tn_up t) data rerr Hu) as (u' & He & _ & _ & _ & Hx).
    cbn. rewrite He. eexists. split; [done|]. specialize (Hx H). unfold tunnel_return. cbn. rewrite Hx. by destruct (d_live (tn_down t)).
  - destruct (direction_turn_ok k sock _ true _ (tn_down t) data rerr Hd) as (d' & He & _ & _ & _ & Hx).
    cbn. rewrite He. eexists. split; [done|]. specialize (Hx H). unfold tunnel_return. cbn. rewrite Hx. by destruct (d_live (tn_up t)).
Qed.

(** In [handleTunnel] the end of the socket is not passed on: the other goroutine goes
    on waiting for the stream, through any number of deadlines, and the stream stays
    open. *)
Theorem tunnel_waits n stream sock :
  exists t, handleTunnel_copy (Up [] ReadEnd :: replicate n (Down [] ReadTimeout)) (new_tunnel stream sock) = Ok t /\
    d_live (tn_up t) = false /\ d_live (tn_down t) = true /\ d_closed (tn_up t) = false.
Proof.
  set (t := mkTunnel (mkDirection false 0 stream false []) (new_direction sock)). exists t.
  split; [|done]. unfold handleTunnel_copy. cbn. fold t. by induction n as [|n IH].
Qed.

(** ** Datagrams over a stream *)

Inductive terr := TEOF | TUnexpectedEOF | TReset | TClosed | TDial | TShort.

(** A stream: what is left to read, whether it then ends by a reset, and what
    is written to it. *)
Record tstream := mkTstream { ts_in : list byte; ts_reset : bool; ts_out : writer }.

#[global] Instance tstream_eta : Eta tstream := fun s => mkTstream (ts_in s) (ts_reset s) (ts_out s).

(** [io.ReadFull]. *)
Definition ts_ReadFull (n : Z) (s : tstream) : (terr + list byte) * tstream :=
  if len (ts_in s) <? n
  then (inl (if ts_reset s then TReset else if len (ts_in s) =? 0 then TEOF else TUnexpectedEOF),
        s <| ts_in := [] |>)
  else (inr (takeZ n (ts_in s)), s <| ts_in := dropZ n (ts_in s) |>).

Definition udp_header (n : Z) : list byte := be_put 2 (wrap16 n).

(** The write of one datagram: [writen(s, append(hdr, buf...), n+2)]. *)
Definition udp_send (data : list byte) (w : writer) : outcome (Z * bool * writer) :=
  writen (udp_header (len data) ++ data) (len data + 2) w.

(** The read of one datagram. *)
Definition udp_recv (s : tstream) : (terr + list byte) * tstream :=
  let '(r, s) := ts_ReadFull 2 s in
  match r with
  | inl e => (inl e, s)
  | inr hdr => ts_ReadFull (be_get hdr) s
  end.

(** The loop of [handleUDPTunnel] from the socket to the stream, over what the
    reads of the socket return: the count, and the stream. *)
Fixpoint udp_from_sock (reads : list (list byte * bool)) (count : Z) (w : writer) : outcome (Z * writer) :=
  match reads with
  | [] => Ok (count, w)
  | (data, more) :: reads =>
      let resume (count : Z) (w : writer) := if more : bool then udp_from_sock reads count w else Ok (count, w) in
      if 0 <? len data then
        match udp_send data w with
        | Panic => Panic
        | Ok (_, false, w) => Ok (count, w)
        | Ok (wn, true, w) => if negb (wn =? len data + 2) then Ok (count + wn, w) else resume (count + wn) w
        end
      else resume count w
  end.

(** The loop from the stream to the socket: the datagrams written, with which
    of the writes fail. *)
Fixpoint udp_from_stream (fuel : nat) (fails : list bool) (s : tstream) : outcome (list (list byte) * terr) :=
  match fuel with
  | O => Panic
  | S fuel =>
      let '(r, s) := udp_recv s in
      match r with
      | inl e => Ok ([], e)
      | inr data =>
          match fails with
          | true :: _ => Ok ([], TClosed)
          | _ =>
              match udp_from_stream fuel (tail fails) s with
              | Ok (l, e) => Ok (data :: l, e)
              | Panic => Panic
              end
          end
      end
  end.

Definition handleUDPTunnel_out (fails : list bool) (s : tstream) : outcome (list (list byte) * terr) :=
  udp_from_stream (S (length (ts_in s))) fails s.

Lemma udp_send_spec data w :
  exists wn ok w', udp_send data w = Ok (wn, ok, w') /\
    wr_out w' = wr_out w ++ takeZ wn (udp_header (len data) ++ data) /\ (ok = true -> wn = len data + 2) /\
    (willing w -> ok = true /\ willing w').
Proof.
  destruct (writen_spec (udp_header (len data) ++ data) (len data + 2) w) as (wn & ok & w' & H & _ & Ho & Hk & Hw).
  { rewrite length_app. unfold udp_header. rewrite length_be_put. lia. }
  exists wn, ok, w'. done.
Qed.

(** The bytes of a datagram. *)
Definition udp_frame (data : list byte) : list byte := udp_header (len data) ++ data.

Lemma length_udp_frame data : len (udp_frame data) = len data + 2.
Proof. unfold udp_frame, udp_header. rewrite length_app, length_be_put. lia. Qed.

Lemma udp_recv_frame data rest s : len data < 2 ^ 16 -> ts_in s = udp_frame data ++ rest ->
  udp_recv s = (inr data, s <| ts_in := rest |>).
Proof.
  intros Hl E. destruct s as [i r o]. cbn [ts_in] in E. subst i. unfold udp_recv, ts_ReadFull, udp_frame. cbn [ts_in].
  rewrite <- app_assoc. rewrite !length_app. unfold udp_header at 1. rewrite length_be_put.
  replace (_ <? 2) with false by lia.
  assert (takeZ 2 (udp_header (len data) ++ data ++ rest) = udp_header (len data)) as ->
    by (apply take_app_length'; done).
  assert (dropZ 2 (udp_header (len data) ++ data ++ rest) = data ++ rest) as ->
    by (apply drop_app_length'; done).
  unfold udp_header. rewrite be_get_put16. cbn [ts_in set_field].
  rewrite !(wrap16_small (len data)) by (unfold is_u16; lia). rewrite length_app.
  replace (_ <? _) with false by lia. unfold takeZ, dropZ. by rewrite Nat2Z.id, take_app_length, drop_app_length.
Qed.

(** What a datagram adds to a willing stream. *)
Lemma udp_send_willing d w : willing w ->
  exists w', udp_send d w = Ok (len d + 2, true, w') /\ wr_out w' = wr_out w ++ udp_frame d /\ willing w'.
Proof.
  intros Hw. destruct (udp_send_spec d w) as (wn & ok & w' & -> & Ho & Hk & Hwill).
  destruct (Hwill Hw) as [-> Hw']. rewrite (Hk eq_refl) in *. exists w'. split; [done|]. split; [|done].
  rewrite Ho. f_equal. unfold takeZ. apply take_ge. pose proof (length_udp_frame d). unfold udp_frame in *. lia.
Qed.

Lemma udp_from_sock_willing ds count w : willing w ->
  exists n w', udp_from_sock ((fun d => (d, true)) <$> ds) count w = Ok (n, w') /\ willing w' /\
    wr_out w' = wr_out w ++ concat (udp_frame <$> filter (fun d => d <> []) ds).
Proof.
  revert count w. induction ds as [|d ds IH]; intros count w Hw.
  { exists count, w. by rewrite app_nil_r. }
  cbn [fmap list_fmap udp_from_sock]. rewrite filter_cons. destruct (Z.ltb_spec 0 (len d)) as [Hpos|Hnil].
  - rewrite decide_True by (by intros ->). destruct (udp_send_willing d w Hw) as (w1 & -> & Ho & Hw1).
    rewrite Z.eqb_refl. cbn [negb]. destruct (IH (count + (len d + 2)) w1 Hw1) as (n & w' & -> & Hw' & Ho').
    exists n, w'. split; [done|]. split; [done|]. rewrite Ho', Ho. cbn [fmap list_fmap concat]. by rewrite app_assoc.
  - assert (d = []) as -> by (destruct d; [done|cbn in *; lia]). rewrite decide_False by auto. by apply IH.
Qed.

Lemma udp_from_stream_frames ds fuel s : Forall (fun d => len d < 2 ^ 16) ds -> ts_reset s = false ->
  ts_in s = concat (udp_frame <$> ds) -> (length ds < fuel)%nat ->
  udp_from_stream fuel [] s = Ok (ds, TEOF).
Proof.
  revert fuel s. induction ds as [|d ds IH]; intros fuel s Hds Hr Hin Hf; (destruct fuel as [|fuel]; [lia|]).
  - cbn [udp_from_stream]. unfold udp_recv, ts_ReadFull. rewrite Hin, Hr. done.
  - inversion Hds as [|?? Hd Hds']; subst. cbn [udp_from_stream].
    rewrite (udp_recv_frame d (concat (udp_frame <$> ds))) by done.
    cbn [tail]. rewrite IH; [done|done|done|done|]. cbn in Hf. lia.
Qed.
