(* ===== verification/TunnelUdp.v ===== *)
(** The two UDP objects of the tunnels (src/pbtunnel/pbtunnel.go): the dialler's
    connection [p2pUdpConn], and the session table of [DriftServer].

    What [OpenStream] returns is a script of the connection.  A method of
    [p2pUdpConn] that finds no stream checks under its mutex, opens outside it
    and stores under it again: the two halves of [getStream] are separate
    steps.

    The sessions of a server: each critical section of [ListenUDP], [newUDPSession],
    [removeUDPSession], [reapUDP] and [Close] is a step, and so is the closing of a
    stream that one of them took out; they come in any order.  [Close] cancels the
    context and closes its socket in the step that takes the sessions. *)

From stdpp Require Import gmap strings.
From S2P Require Import Prelude GoLib Tunnel.

(** ** The connection of a dialler *)

Record udpConn := mkUdpConn {
  uc_holder : option tstream;
  uc_closed : bool;
  uc_opens : list (option tstream);
}.

#[global] Instance udpConn_eta : Eta udpConn := fun c => mkUdpConn (uc_holder c) (uc_closed c) (uc_opens c).

Definition connectOverStream : M udpConn (option tstream) :=
  l <- gets uc_opens ;;
  match l with
  | [] => ret None
  | o :: l => modify (fun c => c <| uc_opens := l |>) ;; ret o
  end.

(** The first critical section: an answer, or [None] when a stream is to be opened. *)
Definition getStream_begin : M udpConn (option (terr + ())) :=
  c <- get ;;
  match uc_holder c with
  | Some _ => ret (Some (inr ()))
  | None => if uc_closed c then ret (Some (inl TClosed)) else ret None
  end.

(** The second one, with what was opened. *)
Definition getStream_end (opened : option tstream) : M udpConn (terr + ()) :=
  match opened with
  | None => modify (fun c => c <| uc_closed := true |>) ;; ret (inl TDial)
  | Some s =>
      c <- get ;;
      if uc_closed c then ret (inl TClosed)
      else
        match uc_holder c with
        | Some _ => ret (inr ())
        | None => modify (fun c => c <| uc_holder := Some s |>) ;; ret (inr ())
        end
  end.

Definition getStream : M udpConn (terr + ()) :=
  r <- getStream_begin ;;
  match r with
  | Some r => ret r
  | None => o <- connectOverStream ;; getStream_end o
  end.

Definition implRead (cap : Z) : M udpConn (terr + list byte) :=
  h <- gets uc_holder ;;
  r <- (match h with Some _ => ret (inr ()) | None => getStream end) ;;
  match r with
  | inl e => ret (inl e)
  | inr _ =>
      s <- deref uc_holder ;;
      let '(r, s) := udp_recv s in
      modify (fun c => c <| uc_holder := Some s |>) ;;
      match r with
      | inl e => ret (inl e)
      | inr data => if cap <? len data then panic else ret (inr data)
      end
  end.

(** What follows a stream reset in [Read] and [Write]. *)
Definition drop_stream : M udpConn () :=
  modify (fun c => c <| uc_closed := true |> <| uc_holder := None |>).

Definition UdpRead (cap : Z) : M udpConn (terr + list byte) :=
  r <- implRead cap ;;
  match r with
  | inl TReset => drop_stream ;; implRead cap
  | _ => ret r
  end.

Definition implWrite (data : list byte) : M udpConn (terr + Z) :=
  h <- gets uc_holder ;;
  r <- (match h with Some _ => ret (inr ()) | None => getStream end) ;;
  match r with
  | inl e => ret (inl e)
  | inr _ =>
      s <- deref uc_holder ;;
      match udp_send data (ts_out s) with
      | Panic => panic
      | Ok (wn, ok, w) =>
          modify (fun c => c <| uc_holder := Some (s <| ts_out := w |>) |>) ;;
          if negb ok then ret (inl (if ts_reset s then TReset else TClosed))
          else if negb (wn =? len data + 2) then ret (inl TShort)
          else ret (inr (len data))
      end
  end.

Definition UdpWrite (data : list byte) : M udpConn (terr + Z) :=
  r <- implWrite data ;;
  match r with
  | inl TReset => drop_stream ;; implWrite data
  | _ => ret r
  end.

Definition UdpClose : M udpConn () :=
  modify (fun c => c <| uc_closed := true |> <| uc_holder := None |>).

(** Calls one after the other. *)
Fixpoint UdpWrites (ds : list (list byte)) : M udpConn (list (terr + Z)) :=
  match ds with
  | [] => ret []
  | d :: ds => r <- UdpWrite d ;; rs <- UdpWrites ds ;; ret (r :: rs)
  end.

Fixpoint UdpReads (n : nat) (cap : Z) : M udpConn (list (terr + list byte)) :=
  match n with
  | O => ret []
  | S n => r <- UdpRead cap ;; rs <- UdpReads n cap ;; ret (r :: rs)
  end.

Lemma UdpWrite_willing d c s : uc_holder c = Some s -> willing (ts_out s) ->
  exists w, UdpWrite d c = Ok (inr (len d), c <| uc_holder := Some (s <| ts_out := w |>) |>) /\ willing w /\
    wr_out w = wr_out (ts_out s) ++ udp_frame d.
Proof.
  intros Hh Hw. destruct (udp_send_willing d (ts_out s) Hw) as (w & He & Ho & Hw'). exists w. split; [|done].
  unfold UdpWrite, bind, implWrite, gets, deref, ret, modify, bind. rewrite Hh. cbv beta iota. rewrite Hh, He. cbn.
  by rewrite Z.eqb_refl.
Qed.

Lemma UdpWrites_willing ds c s : uc_holder c = Some s -> willing (ts_out s) ->
  exists c' s', UdpWrites ds c = Ok ((fun d => inr (len d)) <$> ds, c') /\ uc_holder c' = Some s' /\
    wr_out (ts_out s') = wr_out (ts_out s) ++ concat (udp_frame <$> ds).
Proof.
  revert c s. induction ds as [|d ds IH]; intros c s Hh Hw.
  { exists c, s. cbn. by rewrite app_nil_r. }
  destruct (UdpWrite_willing d c s Hh Hw) as (w & He & Hw' & Ho). cbn [UdpWrites]. unfold bind at 1. rewrite He.
  destruct (IH (c <| uc_holder := Some (s <| ts_out := w |>) |>) (s <| ts_out := w |>)) as (c' & s' & He' & Hh' & Ho'); [by destruct c|done|].
  exists c', s'. unfold bind. rewrite He'. split; [done|]. split; [done|]. rewrite Ho'. cbn. by rewrite Ho, <-app_assoc.
Qed.

Lemma UdpReads_frames ds cap c s : uc_holder c = Some s -> ts_reset s = false ->
  ts_in s = concat (udp_frame <$> ds) -> Forall (fun d => len d < 2 ^ 16 /\ len d <= cap) ds ->
  exists c', UdpReads (S (length ds)) cap c = Ok ((inr <$> ds) ++ [inl TEOF], c').
Proof.
  revert c s. induction ds as [|d ds IH]; intros c s Hh Hr Hin Hds.
  - eexists. cbn. unfold UdpRead, bind, implRead, gets, deref, ret, modify, bind. rewrite Hh. cbv beta iota. rewrite Hh.
    unfold udp_recv, ts_ReadFull. rewrite Hin, Hr. cbn. done.
  - inversion Hds as [|?? [Hd Hc] Hds']; subst. set (rest := concat (udp_frame <$> ds)) in *.
    assert (UdpRead cap c = Ok (inr d, c <| uc_holder := Some (s <| ts_in := rest |>) |>)) as He.
    { unfold UdpRead, bind, implRead, gets, deref, ret, modify, bind. rewrite Hh. cbv beta iota. rewrite Hh.
      rewrite (udp_recv_frame d rest) by done. cbn. by replace (cap <? len d) with false by lia. }
    destruct (IH (c <| uc_holder := Some (s <| ts_in := rest |>) |>) (s <| ts_in := rest |>)) as [c' He']; [by destruct c|done|done|done|].
    exists c'. cbn [length]. remember (S (length ds)) as n eqn:En. cbn [UdpReads]. unfold bind at 1. rewrite He. unfold bind. by rewrite He'.
Qed.



(** A connection without a stream that no call will give one. *)
Definition dead (c : udpConn) : Prop := uc_holder c = None /\ uc_closed c = true.

Lemma dead_read cap c : dead c -> implRead cap c = Ok (inl TClosed, c).
Proof. destruct c as [h cl o]. intros [Hh Hc]. cbn in *. by subst. Qed.

Lemma dead_write data c : dead c -> implWrite data c = Ok (inl TClosed, c).
Proof. destruct c as [h cl o]. intros [Hh Hc]. cbn in *. by subst. Qed.

(** A stream reset is final: the [Read] that meets it marks the connection
    closed before it tries again, so it opens no new stream but returns an
    error, and so does every [Read] and [Write] after it. *)
Theorem udp_reset_is_final cap c s : uc_holder c = Some s -> (udp_recv s).1 = inl TReset ->
  exists c', UdpRead cap c = Ok (inl TClosed, c') /\ uc_opens c' = uc_opens c /\
    (forall cap', UdpRead cap' c' = Ok (inl TClosed, c')) /\
    (forall data, UdpWrite data c' = Ok (inl TClosed, c')).
Proof.
  intros Hh Hr. exists (mkUdpConn None true (uc_opens c)).
  assert (dead (mkUdpConn None true (uc_opens c))) as Hd by done.
  split; [|split; [done|split]].
  - unfold UdpRead, bind. unfold implRead at 1, bind, gets, deref, ret, modify. rewrite Hh. cbv beta iota. rewrite Hh.
    destruct (udp_recv s) as [r s']. cbn in Hr. subst r. cbn -[implRead]. apply (dead_read cap _ Hd).
  - intros cap'. unfold UdpRead, bind. rewrite dead_read by done. done.
  - intros data. unfold UdpWrite, bind. rewrite dead_write by done. done.
Qed.

Lemma udp_reset_is_final_witness :
  exists c', UdpRead 100 (mkUdpConn (Some (mkTstream [Byte.x00] true (mkWriter [] []))) false
      [Some (mkTstream [Byte.x00; Byte.x00] false (mkWriter [] []))]) = Ok (inl TClosed, c').
Proof.
  destruct (udp_reset_is_final 100 (mkUdpConn (Some (mkTstream [Byte.x00] true (mkWriter [] []))) false
      [Some (mkTstream [Byte.x00; Byte.x00] false (mkWriter [] []))]) (mkTstream [Byte.x00] true (mkWriter [] []))
      eq_refl eq_refl) as (c' & H & _). by exists c'.
Defined.

(** A datagram of more than 65535 bytes is written with success, but its
    header holds the length modulo 65536: the other side reads its beginning as
    a datagram and takes the rest for headers. *)
Theorem oversized_datagram_splits data : 2 ^ 16 <= len data ->
  exists w, udp_send data (mkWriter [] []) = Ok (len data + 2, true, w) /\
    forall out, (udp_recv (mkTstream (wr_out w) false out)).1 = inr (takeZ (len data mod 2 ^ 16) data).
Proof.
  intros Hl. destruct (udp_send_spec data (mkWriter [] [])) as (wn & ok & w & -> & Ho & Hk & Hw).
  destruct (Hw (willing_new [])) as [-> _]. rewrite (Hk eq_refl) in *. exists w. split; [done|]. intros out.
  assert (wr_out w = udp_header (len data) ++ data) as ->.
  { rewrite Ho. cbn [wr_out app]. unfold takeZ. apply take_ge.
    rewrite length_app. unfold udp_header. rewrite length_be_put. lia. }
  unfold udp_recv, ts_ReadFull. cbn [ts_in]. rewrite length_app. unfold udp_header at 1. rewrite length_be_put.
  replace (_ <? 2) with false by lia.
  assert (takeZ 2 (udp_header (len data) ++ data) = udp_header (len data)) as -> by (apply take_app_length'; done).
  assert (dropZ 2 (udp_header (len data) ++ data) = data) as -> by (apply drop_app_length'; done).
  unfold udp_header. rewrite be_get_put16. cbn [ts_in set_field].
  replace (wrap16 (wrap16 (len data))) with (len data mod 2 ^ 16) by (unfold wrap16; by rewrite Zmod_mod).
  pose proof (Z.mod_pos_bound (len data) (2 ^ 16) ltac:(lia)). by replace (_ <? _) with false by lia.
Qed.

Lemma oversized_datagram_splits_witness :
  exists w, udp_send (replicate (Z.to_nat 65537) Byte.x61) (mkWriter [] []) = Ok (65539, true, w).
Proof.
  destruct (oversized_datagram_splits (replicate (Z.to_nat 65537) Byte.x61)) as (w & H & _);
    [rewrite length_replicate; lia|].
  exists w. rewrite length_replicate in H. exact H.
Defined.

(** ** The sessions of a server *)

(** A session: its stream, by number, and when it was last used. *)
Record udpSession := mkUdpSession { us_stream : Z; us_lastUse : Z }.

#[global] Instance udpSession_eta : Eta udpSession := fun s => mkUdpSession (us_stream s) (us_lastUse s).

(** Where a call of [ListenUDP] is: reading its socket; about to open a stream for a new
    session; about to store the session, whose stream is open; about to write the
    datagram; returned. *)
Inductive listen_turn :=
  | LtRead
  | LtOpen (key : string)
  | LtStore (key : string) (s : udpSession)
  | LtWrite (key : string)
  | LtEnded.

(** A call of [ListenUDP], and whether its socket is closed. *)
Record listener := mkListener { li_turn : listen_turn; li_closed : bool }.

(** The table; the streams closed so far, those taken from the table to be closed, and
    the number of the next one; the calls of [ListenUDP] so far, the last of them being
    the one whose socket [udpConn] is; the goroutines of [reapUDP]; and whether
    [udpCtx] is cancelled. *)
Record driftServer := mkDrift {
  ds_sessions : gmap string udpSession;
  ds_closed : gset Z;
  ds_closing : gset Z;
  ds_next : Z;
  ds_timeout : Z;
  ds_loops : list listener;
  ds_reapers : nat;
  ds_cancelled : bool;
}.

#[global] Instance driftServer_eta : Eta driftServer := fun d =>
  mkDrift (ds_sessions d) (ds_closed d) (ds_closing d) (ds_next d) (ds_timeout d) (ds_loops d) (ds_reapers d) (ds_cancelled d).

Definition NewDriftServer : driftServer := mkDrift ∅ ∅ ∅ 0 (5 * minute) [] 0 false.

(** The beginning of [ListenUDP]: a new socket, a new table, a new context. *)
Definition ListenUDP_begin (d : driftServer) : driftServer :=
  d <| ds_loops := ds_loops d ++ [mkListener LtRead false] |> <| ds_sessions := ∅ |>
    <| ds_reapers := S (ds_reapers d) |> <| ds_cancelled := false |>.

(** A datagram from [key]: the first critical section of a turn. *)
Definition ListenUDP_lookup (now : Z) (key : string) (d : driftServer) : listen_turn * driftServer :=
  match ds_sessions d !! key with
  | Some s => (LtWrite key, d <| ds_sessions := <[key := s <| us_lastUse := now |>]> (ds_sessions d) |>)
  | None => (LtOpen key, d)
  end.

(** [newUDPSession]: the stream, outside the lock, and the second critical section. *)
Definition newUDPSession_open (now : Z) (key : string) (opened : bool) (d : driftServer) : listen_turn * driftServer :=
  if opened then (LtStore key (mkUdpSession (ds_next d) now), d <| ds_next := ds_next d + 1 |>) else (LtRead, d).

Definition newUDPSession_store (key : string) (s : udpSession) (d : driftServer) : listen_turn * driftServer :=
  (LtWrite key, d <| ds_sessions := <[key := s]> (ds_sessions d) |>).

(** Its critical section; the stream is closed after it. *)
Definition removeUDPSession (key : string) (d : driftServer) : driftServer :=
  match ds_sessions d !! key with
  | Some s => d <| ds_sessions := delete key (ds_sessions d) |>
                <| ds_closing := {[us_stream s]} ∪ ds_closing d |>
  | None => d
  end.

Definition ListenUDP_write (key : string) (written : bool) (d : driftServer) : listen_turn * driftServer :=
  (LtRead, if written then d else removeUDPSession key d).

(** The next step of a call of [ListenUDP], with what its environment does: the datagram
    read, if any, whether a stream could be opened, whether the datagram was written. *)
Definition ListenUDP_step (now : Z) (datagram : option string) (opened written : bool) (l : listener) (d : driftServer)
    : listen_turn * driftServer :=
  match li_turn l with
  | LtRead =>
      if li_closed l then (LtEnded, d)
      else match datagram with Some key => ListenUDP_lookup now key d | None => (LtEnded, d) end
  | LtOpen key => newUDPSession_open now key opened d
  | LtStore key s => newUDPSession_store key s d
  | LtWrite key => ListenUDP_write key written d
  | LtEnded => (LtEnded, d)
  end.

(** The reader goroutine of a session passed a datagram on. *)
Definition session_response (now : Z) (key : string) (stream : Z) (d : driftServer) : driftServer :=
  match ds_sessions d !! key with
  | Some s => if us_stream s =? stream
              then d <| ds_sessions := <[key := s <| us_lastUse := now |>]> (ds_sessions d) |> else d
  | None => d
  end.

(** One tick of [reapUDP]. *)
Definition idle (now : Z) (d : driftServer) (s : udpSession) : bool := ds_timeout d <? time_sub now (us_lastUse s).

(** The streams of the sessions of a table. *)
Definition streams_of (m : gmap string udpSession) : gset Z := list_to_set ((fun e => us_stream e.2) <$> map_to_list m).

Definition reapUDP_tick (now : Z) (d : driftServer) : driftServer :=
  d <| ds_sessions := filter (fun e => idle now d e.2 = false) (ds_sessions d) |>
    <| ds_closed := streams_of (filter (fun e => idle now d e.2 = true) (ds_sessions d)) ∪ ds_closed d |>.

(** [Close]: the context is cancelled, the socket of the last [ListenUDP] closed, and the
    streams of the sessions are to be closed; the table is left as it is. *)
Definition drift_Close (d : driftServer) : driftServer :=
  let closed := match list.last (ds_loops d) with
                | Some l => removelast (ds_loops d) ++ [mkListener (li_turn l) true]
                | None => []
                end in
  d <| ds_closing := streams_of (ds_sessions d) ∪ ds_closing d |>
    <| ds_loops := closed |>
    <| ds_cancelled := match ds_loops d with [] => ds_cancelled d | _ => true end |>.

(** [stream.Close] of one of them. *)
Definition close_stream (i : Z) (d : driftServer) : driftServer :=
  d <| ds_closing := ds_closing d ∖ {[i]} |> <| ds_closed := {[i]} ∪ ds_closed d |>.

(** What can happen to a server. *)
Inductive drift_op :=
  | DoListen
  | DoStep (loop : nat) (now : Z) (datagram : option string) (opened written : bool)
  | DoResponse (now : Z) (key : string) (stream : Z)
  | DoReap (now : Z)
  | DoReaperExit
  | DoClose
  | DoCloseStream (i : Z).

Definition drift_do (op : drift_op) (d : driftServer) : option driftServer :=
  match op with
  | DoListen => Some (ListenUDP_begin d)
  | DoStep i now datagram opened written =>
      l ← ds_loops d !! i;
      let '(t, d') := ListenUDP_step now datagram opened written l d in
      Some (d' <| ds_loops := <[i := mkListener t (li_closed l)]> (ds_loops d) |>)
  | DoResponse now key stream => Some (session_response now key stream d)
  | DoReap now => if decide (ds_reapers d = 0%nat) then None else Some (reapUDP_tick now d)
  | DoReaperExit =>
      if ds_cancelled d then match ds_reapers d with O => None | S n => Some (d <| ds_reapers := n |>) end else None
  | DoClose => Some (drift_Close d)
  | DoCloseStream i => if decide (i ∈ ds_closing d) then Some (close_stream i d) else None
  end.

Definition drift_step (d d' : driftServer) : Prop := exists op, drift_do op d = Some d'.

Definition drift_initial (d : driftServer) : Prop := d = NewDriftServer.

Definition drift_run (ops : list drift_op) : option driftServer :=
  foldl (fun d op => d ≫= drift_do op) (Some NewDriftServer) ops.

Lemma drift_run_reachable ops d : drift_run ops = Some d -> reachable drift_initial drift_step d.
Proof.
  revert d. unfold drift_run. induction ops as [|op ops IH] using rev_ind; intros d; cbn.
  { intros [= <-]. by apply reach_init. }
  rewrite foldl_app. cbn. destruct (foldl _ _ ops) as [d0|] eqn:E; [|done]. cbn. intros H.
  eapply reach_step; [by apply IH|]. by exists op.
Qed.

(** The stream that a call of [ListenUDP] has opened and not yet stored. *)
Definition turn_stream (t : listen_turn) : option Z := match t with LtStore _ s => Some (us_stream s) | _ => None end.

(** The key a call of [ListenUDP] makes a session for. *)
Definition turn_key (t : listen_turn) : option string := match t with LtOpen key | LtStore key _ => Some key | _ => None end.

(** A table, the streams closed or about to be, the number of streams, whether [Close]
    was called, and the stream held by the call of [ListenUDP]. *)
Record table_ok (m : gmap string udpSession) (gone : gset Z) (next : Z) (cancelled : bool) (hd : option Z) : Prop := {
  tb_range : forall k s, m !! k = Some s -> 0 <= us_stream s < next;
  tb_open : forall k s, m !! k = Some s -> cancelled = false -> us_stream s ∉ gone;
  tb_inj : forall k k' s s', m !! k = Some s -> m !! k' = Some s' -> us_stream s = us_stream s' -> k = k';
  tb_all : forall i, 0 <= i < next -> i ∈ gone \/ hd = Some i \/ exists k s, m !! k = Some s /\ us_stream s = i;
  tb_gone : forall i, i ∈ gone -> 0 <= i < next;
  tb_held : forall i, hd = Some i -> 0 <= i < next /\ (i ∉ gone) /\ forall k s, m !! k = Some s -> us_stream s <> i;
}.

Lemma table_ok_empty gone next : (forall i, i ∈ gone <-> 0 <= i < next) -> table_ok ∅ gone next false None.
Proof. intros Hg. split; try (by intros k; rewrite lookup_empty); [|by apply Hg|done]. intros i Hi. left. by apply Hg. Qed.

(** Only the times of sessions are changed. *)
Lemma table_ok_touch m gone next c hd key s now : m !! key = Some s -> table_ok m gone next c hd ->
  table_ok (<[key := s <| us_lastUse := now |>]> m) gone next c hd.
Proof.
  intros Hk [Hr Ho Hi Ha Hg Hh].
  assert (forall k s', <[key := s <| us_lastUse := now |>]> m !! k = Some s' ->
    exists s0, m !! k = Some s0 /\ us_stream s0 = us_stream s') as Hold.
  { intros k s' [[<- <-]|[_ Hk']]%lookup_insert_Some; eauto. }
  split; [| | | |done|].
  - intros k s' (s0 & Hk0 & <-)%Hold. by apply (Hr k).
  - intros k s' (s0 & Hk0 & <-)%Hold. by apply (Ho k).
  - intros k k' s1 s2 (s10 & H1 & <-)%Hold (s20 & H2 & <-)%Hold. by apply Hi.
  - intros i Hx. destruct (Ha i Hx) as [|[|(k & s' & Hk' & <-)]]; [by left|by right; left|right; right].
    destruct (decide (k = key)) as [->|Hne].
    + exists key, (s <| us_lastUse := now |>). rewrite lookup_insert_eq. split; [done|]. cbn. congruence.
    + exists k, s'. by rewrite lookup_insert_ne.
  - intros i Hx. destruct (Hh i Hx) as (? & ? & Hn). split_and!; [lia|lia|done|]. intros k s' (s0 & Hk0 & <-)%Hold. by apply (Hn k).
Qed.

(** A stream is opened. *)
Lemma table_ok_open m gone next c : 0 <= next -> table_ok m gone next c None -> table_ok m gone (next + 1) c (Some next).
Proof.
  intros Hn [Hr Ho Hi Ha Hg Hh]. split; [| |done| | |].
  - intros k s Hk%Hr. lia.
  - intros k s Hk. by apply (Ho k).
  - intros i Hx. destruct (decide (i = next)) as [->|Hne]; [by right; left|].
    destruct (Ha i ltac:(lia)) as [|[|]]; [by left|done|by right; right].
  - intros i Hx%Hg. lia.
  - intros i [= <-]. split; [lia|]. split; [by intros ?%Hg; lia|]. intros k s Hk%Hr. lia.
Qed.

(** It is stored. *)
Lemma table_ok_store m gone next c key s : m !! key = None -> table_ok m gone next c (Some (us_stream s)) ->
  table_ok (<[key := s]> m) gone next c None.
Proof.
  intros Hk [Hr Ho Hi Ha Hg Hh]. destruct (Hh _ eq_refl) as (Hsr & Hsg & Hsn). split; [| | | |done|done].
  - intros k s' [[<- <-]|[_ Hk']]%lookup_insert_Some; [done|by apply (Hr k)].
  - intros k s' [[<- <-]|[_ Hk']]%lookup_insert_Some; [done|by apply (Ho k)].
  - intros k k' s1 s2 [[<- <-]|[_ H1]]%lookup_insert_Some [[<- <-]|[_ H2]]%lookup_insert_Some E; try done.
    + by destruct (Hsn k' s2).
    + by destruct (Hsn k s1).
    + by apply (Hi k k' s1 s2).
  - intros i Hx. destruct (Ha i Hx) as [|[[= <-]|(k & s' & Hk' & <-)]]; [by left| |]; right; right.
    + exists key, s. by rewrite lookup_insert_eq.
    + exists k, s'. rewrite lookup_insert_ne; [done|congruence].
Qed.

(** Sessions are taken out, and their streams closed. *)
Lemma table_ok_shrink m m' gone gone' next c hd : m' ⊆ m ->
  (forall i, i ∈ gone' <-> i ∈ gone \/ exists k s, m !! k = Some s /\ m' !! k = None /\ us_stream s = i) ->
  table_ok m gone next c hd -> table_ok m' gone' next c hd.
Proof.
  intros Hsub Heq [Hr Ho Hi Ha Hg Hh].
  assert (forall k s, m' !! k = Some s -> m !! k = Some s) as Hin by (intros k s Hk; by eapply lookup_weaken).
  split.
  - intros k s Hk%Hin. by apply (Hr k).
  - intros k s Hk Hc. rewrite Heq. intros [Hx|(k' & s' & Hk' & Hn & E)]; [by apply Hin, Ho in Hk|].
    assert (k' = k) as -> by (by apply (Hi _ _ s' s); [|apply Hin|]). congruence.
  - intros k k' s s' H1%Hin H2%Hin. by apply Hi.
  - intros i Hx. rewrite Heq. destruct (Ha i Hx) as [|[|(k & s & Hk & E)]]; [by left; left|by right; left|].
    destruct (m' !! k) as [s'|] eqn:E'; [|left; right; by exists k, s].
    right; right. exists k, s'. split; [done|]. apply Hin in E'. congruence.
  - intros i [Hx|(k & s & Hk & _ & <-)]%Heq; [by apply Hg|by apply (Hr k)].
  - intros i Hx. destruct (Hh i Hx) as (? & Hng & Hn). split; [done|]. split.
    + intros [?|(k & s & Hk & _ & E)]%Heq; [done|by apply (Hn k s)].
    + intros k s Hk%Hin. by apply (Hn k).
Qed.

Lemma elem_of_streams m i : i ∈ streams_of m <-> exists k s, m !! k = Some s /\ us_stream s = i.
Proof.
  unfold streams_of. rewrite elem_of_list_to_set, list_elem_of_fmap. split.
  - intros ([k s] & -> & Hl%elem_of_map_to_list). by exists k, s.
  - intros (k & s & Hk & <-). exists (k, s). split; [done|]. by apply elem_of_map_to_list.
Qed.

(** [Close]. *)
Lemma table_ok_close m gone gone' next c hd : (forall i, i ∈ gone' <-> i ∈ gone \/ i ∈ streams_of m) ->
  table_ok m gone next c hd -> table_ok m gone' next true hd.
Proof.
  intros Heq [Hr Ho Hi Ha Hg Hh]. split; [done|done|done| | |].
  - intros i Hx. rewrite Heq. destruct (Ha i Hx) as [|[|]]; auto.
  - intros i [Hx|(k & s & Hk & <-)%elem_of_streams]%Heq; [by apply Hg|by apply (Hr k)].
  - intros i Hx. destruct (Hh i Hx) as (? & Hng & Hn). split; [done|]. split; [|done].
    intros [?|(k & s & Hk & E)%elem_of_streams]%Heq; [done|by apply (Hn k s)].
Qed.

Lemma table_ok_same m gone gone' next c hd : (forall i, i ∈ gone' <-> i ∈ gone) -> table_ok m gone next c hd -> table_ok m gone' next c hd.
Proof.
  intros Heq. apply table_ok_shrink; [done|]. intros i. rewrite Heq. split; [by left|].
  intros [?|(k & s & Hk & Hn & _)]; [done|congruence].
Qed.

Definition gone (d : driftServer) : gset Z := ds_closed d ∪ ds_closing d.
Definition held (d : driftServer) : option Z := match ds_loops d with [l] => turn_stream (li_turn l) | _ => None end.

(** While [ListenUDP] has been called at most once. *)
Record drift_inv (d : driftServer) : Prop := {
  di_table : table_ok (ds_sessions d) (gone d) (ds_next d) (ds_cancelled d) (held d);
  di_key : forall l key, l ∈ ds_loops d -> turn_key (li_turn l) = Some key -> ds_sessions d !! key = None;
  di_idle : ds_loops d = [] -> ds_sessions d = ∅ /\ ds_cancelled d = false /\ ds_next d = 0;
  di_next : 0 <= ds_next d;
}.

Lemma remove_table key d : exists m', ds_sessions (removeUDPSession key d) = m' /\ m' ⊆ ds_sessions d /\
  (forall i, i ∈ gone (removeUDPSession key d) <->
     i ∈ gone d \/ exists k s, ds_sessions d !! k = Some s /\ m' !! k = None /\ us_stream s = i).
Proof.
  eexists. split; [done|]. unfold removeUDPSession, gone. destruct (ds_sessions d !! key) as [s|] eqn:E; cbn.
  - split; [apply delete_subseteq|]. intros i. rewrite !elem_of_union, elem_of_singleton. split.
    + intros [?|[->|?]]; [by left; left| |by left; right]. right. exists key, s. by rewrite lookup_delete_eq.
    + intros [[?|?]|(k & s' & Hk & Hn & <-)]; [by left|by right; right|]. right. left.
      apply lookup_delete_None in Hn as [->|Hn]; [congruence|congruence].
  - split; [done|]. intros i. split; [by left|]. intros [?|(k & s & Hk & Hn & _)]; [done|congruence].
Qed.

Lemma reap_table now d : exists m', ds_sessions (reapUDP_tick now d) = m' /\ m' ⊆ ds_sessions d /\
  (forall i, i ∈ gone (reapUDP_tick now d) <->
     i ∈ gone d \/ exists k s, ds_sessions d !! k = Some s /\ m' !! k = None /\ us_stream s = i).
Proof.
  eexists. split; [done|]. split; [apply map_filter_subseteq|]. intros i. unfold gone. cbn.
  rewrite !elem_of_union, elem_of_streams. split.
  - intros [[(k & s & [Hk Hx]%map_lookup_filter_Some & <-)|?]|?]; [|by left; left|by left; right].
    right. exists k, s. split; [done|]. split; [|done]. apply map_lookup_filter_None. right.
    intros s' Hs' Hi. cbn in *. congruence.
  - intros [[?|?]|(k & s & Hk & Hn & <-)]; [by left; right|by right|]. left; left. exists k, s. split; [|done].
    apply map_lookup_filter_Some. split; [done|]. cbn. apply map_lookup_filter_None in Hn as [Hn|Hn]; [congruence|].
    specialize (Hn _ Hk). cbn in Hn. by destruct (idle now d s).
Qed.

(** Each of the steps of a call of [ListenUDP], for the only call there is. *)
Lemma listen_step_inv d l t d' now datagram opened written : ds_loops d = [l] -> drift_inv d ->
  ListenUDP_step now datagram opened written l d = (t, d') ->
  drift_inv (d' <| ds_loops := [mkListener t (li_closed l)] |>).
Proof.
  intros Hl [Ht Hk Hi Hn] E. unfold held in Ht. rewrite Hl in Ht, Hk.
  assert (forall key, turn_key (li_turn l) = Some key -> ds_sessions d !! key = None) as Hkey.
  { intros key. apply Hk. by left. }
  assert (forall d' : driftServer, turn_key t = None -> turn_stream t = None -> 0 <= ds_next d' ->
    table_ok (ds_sessions d') (gone d') (ds_next d') (ds_cancelled d') None ->
    drift_inv (d' <| ds_loops := [mkListener t (li_closed l)] |>)) as Hsimple.
  { intros e H1 H2 H3 H4. split; cbn; [by rewrite H2| |done|done]. intros l' key ->%list_elem_of_singleton. cbn. congruence. }
  unfold ListenUDP_step in E. destruct (li_turn l) as [|key|key s|key|] eqn:Et.
  - destruct (li_closed l); [injection E as <- <-; by apply Hsimple|].
    destruct datagram as [key|]; [|injection E as <- <-; by apply Hsimple]. unfold ListenUDP_lookup in E.
    destruct (ds_sessions d !! key) as [s|] eqn:Es; injection E as <- <-.
    + apply Hsimple; [done|done|done|]. cbn. by apply table_ok_touch.
    + split; cbn; [done| |done|done]. intros l' key' ->%list_elem_of_singleton [= <-]. done.
  - unfold newUDPSession_open in E. destruct opened; injection E as <- <-; [|by apply Hsimple].
    split; cbn; [by apply table_ok_open| |done|lia]. intros l' key' ->%list_elem_of_singleton [= <-]. by apply Hkey.
  - injection E as <- <-. apply Hsimple; [done|done|done|]. cbn. apply table_ok_store; [by apply Hkey|done].
  - unfold ListenUDP_write in E. injection E as <- <-. apply Hsimple; [done|done|by destruct written; [|unfold removeUDPSession; case_match]|].
    destruct written; [done|]. destruct (remove_table key d) as (m' & <- & Hsub & Heq).
    replace (ds_next (removeUDPSession key d)) with (ds_next d) by (unfold removeUDPSession; by case_match).
    replace (ds_cancelled (removeUDPSession key d)) with (ds_cancelled d) by (unfold removeUDPSession; by case_match).
    by eapply table_ok_shrink.
  - injection E as <- <-. by apply Hsimple.
Qed.

Lemma drift_do_loops op d d' : drift_do op d = Some d' -> (length (ds_loops d) <= length (ds_loops d'))%nat.
Proof.
  destruct op as [|i now dg op wr|now key st|now| | |i]; cbn.
  - intros [= <-]. cbn. rewrite length_app. lia.
  - destruct (ds_loops d !! i); [|done]. cbn. destruct (ListenUDP_step _ _ _ _ _ _). intros [= <-]. cbn. by rewrite length_insert.
  - intros [= <-]. unfold session_response. by repeat case_match.
  - case_decide; [done|]. by intros [= <-].
  - destruct (ds_cancelled d), (ds_reapers d); try done. by intros [= <-].
  - intros [= <-]. unfold drift_Close. cbn. destruct (ds_loops d) as [|l loops _] using rev_ind; [done|].
    rewrite last_snoc, removelast_last, !length_app. done.
  - case_decide; [|done]. by intros [= <-].
Qed.

Lemma drift_step_inv op d d' : drift_inv d -> drift_do op d = Some d' -> (length (ds_loops d') <= 1)%nat -> drift_inv d'.
Proof.
  intros Hd He Hlen. pose proof (drift_do_loops _ _ _ He) as Hmono. pose proof Hd as [Ht Hk Hi Hn].
  destruct op as [|i now dg op wr|now key st|now| | |i]; cbn in He.
  - injection He as <-. cbn in Hlen. rewrite length_app in Hlen. cbn in Hlen.
    destruct (ds_loops d) as [|l ls] eqn:El; [|cbn in Hlen; lia]. destruct (Hi eq_refl) as (Es & Ec & En).
    split; cbn; rewrite ?El; [|by intros l' key ->%list_elem_of_singleton|done|done].
    unfold held in *. cbn. rewrite El, Es, Ec in *. exact Ht.
  - destruct (ds_loops d !! i) as [l|] eqn:El; [|done]. cbn in He.
    destruct (ListenUDP_step now dg op wr l d) as [t d0] eqn:Es. injection He as <-.
    cbn in Hlen. rewrite length_insert in Hlen. destruct (ds_loops d) as [|l0 [|? ?]] eqn:El0; cbn in Hlen; [done| |lia].
    destruct i as [|i]; [|done]. injection El as ->. by eapply listen_step_inv.
  - injection He as <-. unfold session_response. destruct (ds_sessions d !! key) as [s|] eqn:Es; [|done].
    case_match; [|done]. split; cbn; [by apply table_ok_touch| | |done].
    + intros l k Hl Htk. destruct (decide (k = key)) as [->|Hne]; [by rewrite (Hk l) in Es|]. rewrite lookup_insert_ne by done. by apply (Hk l).
    + intros E. destruct (Hi E) as (E' & _). by rewrite E', lookup_empty in Es.
  - case_decide; [done|]. injection He as <-. destruct (reap_table now d) as (m' & Em & Hsub & Heq).
    split; [rewrite Em; by eapply table_ok_shrink| | |done].
    + intros l key Hl Htk. rewrite Em. eapply lookup_weaken_None; [|done]. by apply (Hk l).
    + intros E. rewrite Em. destruct (Hi E) as (E' & ?). split; [|done]. rewrite E' in Hsub. apply map_empty. intros k. by eapply lookup_weaken_None, Hsub.
  - destruct (ds_cancelled d) eqn:Ec, (ds_reapers d); try done. injection He as <-. by split; cbn; rewrite ?Ec.
  - injection He as <-. destruct (ds_loops d) as [|l ls] eqn:El.
    + destruct (Hi eq_refl) as (Es & Ec & En). split; unfold held; cbn; rewrite ?El; [|by intros ? ? ?%not_elem_of_nil|done|done].
      unfold held in Ht. rewrite El in Ht. eapply table_ok_same; [|exact Ht]. unfold gone. cbn. rewrite Es. intros j.
      rewrite !elem_of_union, elem_of_streams. split; [|naive_solver].
      intros [?|[(k & s & Hk' & _)|?]]; [by left|by rewrite lookup_empty in Hk'|by right].
    + assert (ls = []) as -> by (destruct ls; [done|cbn in Hmono, Hlen; unfold drift_Close in *; cbn in *; rewrite El in *; cbn in *; lia]).
      split; unfold held; cbn; rewrite ?El; cbn; [| |done|done].
      * unfold held in Ht. rewrite El in Ht. eapply table_ok_close; [|exact Ht]. intros j. unfold gone. cbn. set_solver.
      * intros l' key ->%list_elem_of_singleton. cbn. intros H. apply (Hk l); [by left|done].
  - case_decide; [|done]. injection He as <-. split; try done. eapply table_ok_same; [|exact Ht]. intros j. unfold gone. cbn.
    rewrite !elem_of_union, elem_of_difference, elem_of_singleton. destruct (decide (j = i)) as [->|]; naive_solver.
Qed.

Lemma drift_reachable_inv d : reachable drift_initial drift_step d -> (length (ds_loops d) <= 1)%nat -> drift_inv d.
Proof.
  intros Hr. induction Hr as [d ->|d d' Hr IH [op Hs]].
  - intros _. split; cbn; [|by intros ? ? ?%not_elem_of_nil|done|done]. apply table_ok_empty. intros i. unfold gone. cbn. set_solver by lia.
  - intros Hlen. eapply drift_step_inv; [|done|done]. apply IH. apply drift_do_loops in Hs. lia.
Qed.

(** C36: As long as [ListenUDP] is called once, each stream that the server ever opened is
    closed, or about to be closed by the goroutine that took it for that, or the stream
    of exactly one session of the table, or held by the call of [ListenUDP] that is
    about to store it; and no session of the table has a stream that is closed or about
    to be, until [Close] is called.  [Close] takes every stream of the table: all that
    the server opened before it is then closed or about to be, but for the one that the
    call of [ListenUDP] holds. *)
Theorem udp_sessions_no_leak d : reachable drift_initial drift_step d -> (length (ds_loops d) <= 1)%nat ->
  (forall i, 0 <= i < ds_next d ->
     i ∈ ds_closed d \/ i ∈ ds_closing d \/ held d = Some i \/
     exists k s, ds_sessions d !! k = Some s /\ us_stream s = i /\
       forall k' s', ds_sessions d !! k' = Some s' -> us_stream s' = i -> k' = k) /\
  (ds_cancelled d = false -> forall k s, ds_sessions d !! k = Some s -> us_stream s ∉ ds_closed d ∪ ds_closing d) /\
  (forall i, 0 <= i < ds_next d ->
     i ∈ ds_closed (drift_Close d) \/ i ∈ ds_closing (drift_Close d) \/ held (drift_Close d) = Some i).
Proof.
  intros Hr Hlen. destruct (drift_reachable_inv d Hr Hlen) as [[Hg Ho Hi Ha _ _] _ _ _]. split; [|split].
  - intros i Hx. destruct (Ha i Hx) as [[?|?]%elem_of_union|[?|(k & s & Hk & E)]]; auto.
    right; right; right. exists k, s. split; [done|]. split; [done|]. intros k' s' Hk' E'. apply (Hi k' k s' s Hk' Hk). congruence.
  - intros Hc k s Hk. by apply (Ho k).
  - intros i Hx. assert (held (drift_Close d) = held d) as ->.
    { unfold held, drift_Close. cbn. by destruct (ds_loops d) as [|l [|? ?]]; [| |cbn in Hlen; lia]. }
    cbn. destruct (Ha i Hx) as [[?|?]%elem_of_union|[?|Hs]]; auto; right; left; apply elem_of_union; [by right|left]. by apply elem_of_streams.
Qed.

Lemma udp_sessions_no_leak_witness :
  exists d, drift_run [DoListen; DoStep 0 10 (Some "10.0.0.2:53"%string) true true; DoStep 0 10 None true true;
      DoStep 0 10 None true true] = Some d /\ ds_next d = 1 /\
    (forall i, 0 <= i < ds_next d ->
       i ∈ ds_closed (drift_Close d) \/ i ∈ ds_closing (drift_Close d) \/ held (drift_Close d) = Some i).
Proof.
  destruct (drift_run _) as [d|] eqn:E; [|by vm_compute in E]. exists d. split; [done|].
  assert (ds_next d = 1 /\ length (ds_loops d) = 1%nat) as [Hn Hl] by (vm_compute in E; by injection E as <-).
  split; [done|]. apply (udp_sessions_no_leak d); [by eapply drift_run_reachable|lia].
Defined.

(** A stream that [ListenUDP] holds while [Close] runs stays open for good: the session is
    stored after [Close] has taken what the table held, and then no goroutine is left
    that would close it. *)
Theorem close_race_leaks : exists d, reachable drift_initial drift_step d /\
  ds_loops d = [mkListener LtEnded true] /\ ds_reapers d = 0%nat /\ ds_closing d = ∅ /\ ds_next d = 1 /\ 0 ∉ ds_closed d.
Proof.
  eexists. split; [eapply (drift_run_reachable [DoListen; DoStep 0 10 (Some "10.0.0.2:53"%string) true true; DoStep 0 10 None true true;
    DoClose; DoStep 0 10 None true true; DoStep 0 10 None true true; DoStep 0 10 None true true; DoReaperExit]); by vm_compute|].
  split_and!; by vm_compute.
Qed.

(** A second [ListenUDP] makes a new table and forgets the sessions of the first, whose
    streams nothing closes any more. *)
Theorem relisten_leaks : exists d, reachable drift_initial drift_step d /\
  ds_sessions d = ∅ /\ held d = None /\ ds_closing (drift_Close d) = ∅ /\ ds_next d = 1 /\ 0 ∉ ds_closed (drift_Close d).
Proof.
  eexists. split; [eapply (drift_run_reachable [DoListen; DoStep 0 10 (Some "10.0.0.2:53"%string) true true; DoStep 0 10 None true true;
    DoStep 0 10 None true true; DoStep 0 10 None true true; DoListen]); by vm_compute|].
  split_and!; by vm_compute.
Qed.
