(* ===== verification/Drift.v ===== *)
(** The drift server and the HTTP client of the tunnels (src/pbtunnel/pbtunnel.go):
    which peer a local address stands for ([peeridByConnIP]), and the CONNECT request
    of [NewHttpClient].

    [crc64.Checksum] and [sort.Strings] are Go's, written out; [net.SplitHostPort]
    gives its host.  A stream is the list of what its one-byte reads return. *)

From Stdlib Require Import Ascii Strings.String Sorting.Sorted.
From stdpp Require Import gmap strings.
From S2P Require Import Prelude GoLib Protocols TunnelAddr Tunnel.
#[local] Open Scope Z_scope.

(** ** Peers by address *)

Definition ecma : Z := 0xC96C5795D7870F42.

Fixpoint crc64_bits (n : nat) (crc : Z) : Z :=
  match n with
  | O => crc
  | S n => crc64_bits n (if Z.testbit crc 0 then Z.lxor (Z.shiftr crc 1) ecma else Z.shiftr crc 1)
  end.

Definition crc64_byte (crc b : Z) : Z := crc64_bits 8 (Z.lxor crc b).

Definition ones64 : Z := 2 ^ 64 - 1.

Definition crc64 (s : string) : Z :=
  Z.lxor (foldl crc64_byte ones64 ((fun c => Z.of_nat (nat_of_ascii c)) <$> list_ascii_of_string s)) ones64.

(** The check value of CRC-64 with this polynomial. *)
Example crc64_check : crc64 "123456789" = 0x995DC9BBDF1939FA.
Proof. by vm_compute. Qed.

Definition stringToHostPart (s : string) : Z := crc64 s mod 253 + 2.

Definition vlanpfx : string := "10.0.0.".

Definition mappedIP (id : string) : string := vlanpfx +:+ itoa (stringToHostPart id).

(** [sort.Strings]. *)
Fixpoint insert_string (s : string) (l : list string) : list string :=
  match l with
  | [] => [s]
  | x :: l' => if String.leb s x then s :: l else x :: insert_string s l'
  end.

Definition sort_Strings (l : list string) : list string := foldr insert_string [] l.

(** The loop that fills [peerips]. *)
Definition fill_peerips (ids : list string) (peerips : gmap string string) : gmap string string :=
  foldl (fun (m : gmap string string) id => <[mappedIP id := id]> m) peerips (sort_Strings ids).

(** [host] is what [SplitHostPort] gives, [ids] the cluster's peers; the empty answer
    stands for the default peer. *)
Definition peeridByConnIP (host : option string) (ids : list string) (peerips : gmap string string) : string * gmap string string :=
  match host with
  | None => ("", peerips)
  | Some rawIP =>
      if bool_decide (rawIP = "127.0.0.1"%string) then ("", peerips)
      else
        match peerips !! rawIP with
        | Some id => (id, peerips)
        | None => let m := fill_peerips ids peerips in (default ""%string (m !! rawIP), m)
        end
  end.

(** The peer [handleP2x] dials. *)
Definition drift_peer (default_peer : string) (host : option string) (ids : list string) (peerips : gmap string string)
    : string * gmap string string :=
  let '(p, m) := peeridByConnIP host ids peerips in
  ((if bool_decide (p <> ""%string) then p else default_peer), m).

(** ** The CONNECT request *)

Definition CR : byte := byte_of_Z 13.
Definition LF : byte := byte_of_Z 10.
Definition blank_line : list byte := [CR; LF; CR; LF].

Definition ends_blank (buf : list byte) : bool := bool_decide (drop (length buf - 4) buf = blank_line).

(** [bytes.Contains]. *)
Fixpoint has_sub (buf sub : list byte) : bool :=
  bool_decide (take (length sub) buf = sub) || match buf with [] => false | _ :: buf => has_sub buf sub end.

Definition text200 : list byte := byte_of_Z <$> [50; 48; 48].

(** How the loop that reads the answer ends: a read failed, the blank line was read,
    or it was given up; with the counter, the bytes read, and the reads left. *)
Inductive connect_end := CeRead | CeBlank | CeMany.

(** [None] when the stream gives nothing more and has not ended. *)
Fixpoint connect_read (cnter : Z) (buf : list byte) (reads : list (option byte)) : option (connect_end * Z * list byte * list (option byte)) :=
  if cnter <? 9999 then
    match reads with
    | [] => None
    | None :: reads => Some (CeRead, cnter + 1, buf, reads)
    | Some b :: reads =>
        let buf := buf ++ [b] in
        if (4 <=? len buf) && ends_blank buf then Some (CeBlank, cnter + 1, buf, reads)
        else connect_read (cnter + 1) buf reads
    end
  else Some (CeMany, cnter, buf, reads).

(** The result of [DialContext] for a stream that could be opened and written to:
    whether it is the stream, whether the stream was closed, and what is left to
    read of it. *)
Record dial_result := mkDial { dr_ok : bool; dr_closed : bool; dr_rest : list (option byte) }.

Definition http_connect (reads : list (option byte)) : option dial_result :=
  '(e, cnter, buf, rest) ← connect_read 0 [] reads;
  Some match e with
       | CeRead => mkDial false true rest
       | _ =>
           if 9999 <=? cnter then mkDial false false rest
           else if negb (has_sub buf text200) then mkDial false true rest
           else mkDial true false rest
       end.

(** What [serveConnect] answers. *)
Definition established : list byte :=
  (fun c => byte_of_Z (Z.of_nat (nat_of_ascii c))) <$> list_ascii_of_string "HTTP/1.1 200 Connection Established" ++ ["013"; "010"; "013"; "010"]%char.

(** ** Peers by address: properties *)

Lemma host_part_range s : 2 <= stringToHostPart s <= 254.
Proof. unfold stringToHostPart. pose proof (Z.mod_pos_bound (crc64 s) 253 ltac:(lia)). lia. Qed.

Lemma insert_string_perm s l : insert_string s l ≡ₚ s :: l.
Proof. induction l as [|x l IH]; [done|]. cbn. case_match; [done|]. rewrite IH. constructor. Qed.

Lemma sort_Strings_perm l : sort_Strings l ≡ₚ l.
Proof. induction l as [|x l IH]; [done|]. cbn. rewrite insert_string_perm. by constructor. Qed.

Lemma fill_lookup l (m : gmap string string) ip : foldl (fun (m : gmap string string) id => <[mappedIP id := id]> m) m l !! ip =
  match list.last (filter (fun id => mappedIP id = ip) l) with Some id => Some id | None => m !! ip end.
Proof.
  induction l as [|id l IH] using rev_ind; [done|]. rewrite foldl_app, filter_app. cbn [foldl]. destruct (decide (mappedIP id = ip)) as [<-|Hne].
  - rewrite lookup_insert_eq, filter_cons, decide_True, filter_nil by done. by rewrite last_snoc.
  - rewrite lookup_insert_ne, filter_cons, decide_False, filter_nil by done. by rewrite app_nil_r.
Qed.

(** The table only says true things: an address stands for a peer it is computed for. *)
Definition peerips_ok (m : gmap string string) : Prop := forall ip id, m !! ip = Some id -> ip = mappedIP id.

Lemma fill_ok ids m : peerips_ok m -> peerips_ok (fill_peerips ids m).
Proof.
  intros Hm ip id. unfold fill_peerips. rewrite fill_lookup. destruct (list.last _) as [id'|] eqn:E; [|apply Hm].
  intros [= ->]. apply last_Some_elem_of, list_elem_of_filter in E. by destruct E as [-> _].
Qed.

(** Which peer an address stands for.  Whatever lookups came before, with whatever
    clusters: an address that stood for a peer still does, also when the peer has
    left; another one is given a peer of the cluster with that address, if there is
    one; and the peer found always has the address. *)
Theorem vlan_lookup lookups host ids : host <> "127.0.0.1"%string ->
  let run := foldl (fun m l => (peeridByConnIP l.1 l.2 m).2) ∅ lookups in
  let '(p, m') := peeridByConnIP (Some host) ids run in
  peerips_ok m' /\
  match run !! host with
  | Some q => p = q /\ m' = run
  | None => (p ∈ ids /\ mappedIP p = host /\ m' !! host = Some p) \/ (p = ""%string /\ forall id, id ∈ ids -> mappedIP id <> host)
  end.
Proof.
  intros Hne. cbv zeta. set (run := foldl _ ∅ lookups). assert (peerips_ok run) as Hok.
  { subst run. assert (peerips_ok ∅) as H by (intros ip id; by rewrite lookup_empty). revert H. generalize (∅ : gmap string string).
    induction lookups as [|[host' ids'] l IH]; intros m Hm; [done|]. cbn [foldl fst snd]. apply IH. unfold peeridByConnIP.
    destruct host' as [rawIP|]; [|done]. case_bool_decide; [done|]. case_match; [done|]. by apply fill_ok. }
  clearbody run. unfold peeridByConnIP. rewrite bool_decide_eq_false_2 by done.
  destruct (run !! host) as [p|] eqn:E; [done|]. split; [by apply fill_ok|].
  unfold fill_peerips. rewrite fill_lookup. destruct (list.last _) as [id|] eqn:El; cbn.
  - left. apply last_Some_elem_of, list_elem_of_filter in El as [Hmap Hin]. by rewrite sort_Strings_perm in Hin.
  - right. rewrite E. split; [done|]. intros id Hid Hmap. apply last_None in El.
    assert (id ∈ filter (fun id => mappedIP id = host) (sort_Strings ids)) as Hx by (apply list_elem_of_filter; by rewrite sort_Strings_perm).
    rewrite El in Hx. by apply not_elem_of_nil in Hx.
Qed.

Lemma shared_host_part ids : NoDup ids -> 253 < len ids ->
  exists a b, a ∈ ids /\ b ∈ ids /\ a <> b /\ stringToHostPart a = stringToHostPart b.
Proof.
  intros Hn Hl. destruct (decide (Forall (fun a => Forall (fun b => stringToHostPart a = stringToHostPart b -> a = b) ids) ids)) as [Hall|Hex].
  - assert (NoDup (stringToHostPart <$> ids)) as Hnd.
    { apply NoDup_fmap_2_strong; [|done]. intros a b Ha Hb. rewrite !Forall_forall in Hall. specialize (Hall a Ha). rewrite Forall_forall in Hall. by apply Hall. }
    assert ((stringToHostPart <$> ids) ⊆+ seqZ 2 253) as Hsub%submseteq_length.
    { apply NoDup_submseteq; [done|]. intros x (a & -> & _)%list_elem_of_fmap. apply elem_of_seqZ. pose proof (host_part_range a). lia. }
    rewrite length_fmap, length_seqZ in Hsub. lia.
  - apply not_Forall_Exists in Hex; [|apply _]. apply Exists_exists in Hex as (a & Ha & Hex). apply not_Forall_Exists in Hex; [|apply _].
    apply Exists_exists in Hex as (b & Hb & Hne). exists a, b. split; [done|]. split; [done|].
    destruct (decide (a = b)) as [->|Hab]; [by destruct Hne|]. split; [done|]. destruct (decide (stringToHostPart a = stringToHostPart b)); [done|]. by destruct Hne.
Qed.

(** There are 253 addresses: in a cluster of more peers one of them cannot be reached
    by an address at all. *)
Theorem vlan_peer_unreachable ids : NoDup ids -> 253 < len ids -> (""%string ∉ ids) ->
  exists id, id ∈ ids /\ forall host, (peeridByConnIP host ids ∅).1 <> id.
Proof.
  intros Hn Hl Hempty. destruct (shared_host_part ids Hn Hl) as (a & b & Ha & Hb & Hab & E).
  assert (mappedIP a = mappedIP b) as Em by (unfold mappedIP; by rewrite E).
  set (v := fill_peerips ids ∅ !! mappedIP a).
  assert (forall id, id ∈ [a; b] -> v <> Some id -> forall host, (peeridByConnIP host ids ∅).1 <> id) as Hbad.
  { intros id Hid Hv host Hp. apply elem_of_cons in Hid as Hid'. rewrite list_elem_of_singleton in Hid'.
    assert (id <> ""%string) as Hne by (intros ->; apply Hempty; by destruct Hid' as [->| ->]). unfold peeridByConnIP in Hp. destruct host as [rawIP|]; [|by subst].
    case_bool_decide; [by subst|]. rewrite lookup_empty in Hp. cbn in Hp. destruct (fill_peerips ids ∅ !! rawIP) as [q|] eqn:Eq; [|by subst]. cbn in Hp. subst q.
    assert (peerips_ok ∅) as Hok by (intros ip x; by rewrite lookup_empty). apply (fill_ok ids ∅ Hok) in Eq as Er. subst rawIP.
    apply Hv. unfold v. rewrite <-Eq. f_equal. by destruct Hid' as [->| ->]. }
  destruct (decide (v = Some a)) as [->|Hva]; [exists b|exists a]; (split; [done|]); apply Hbad; [set_solver|congruence|set_solver|done].
Qed.

(** ** The CONNECT request: properties *)

(** Reading a text that ends in the first blank line of it. *)
Definition headed (text : list byte) : Prop :=
  4 <= len text /\ ends_blank text = true /\ forall k, 4 <= k < len text -> ends_blank (takeZ k text) = false.

(** Before the end of the head the buffer does not end in a blank line. *)
Lemma not_blank_yet buf b b' rest : (forall k, 4 <= k < len (buf ++ b :: b' :: rest) -> ends_blank (takeZ k (buf ++ b :: b' :: rest)) = false) ->
  (4 <=? len (buf ++ [b])) && ends_blank (buf ++ [b]) = false.
Proof.
  intros Hk. destruct (Z.leb_spec 4 (len (buf ++ [b]))) as [H4|]; [|done]. cbn [andb]. rewrite <-(Hk (len (buf ++ [b]))).
  - f_equal. unfold takeZ. replace (buf ++ b :: b' :: rest) with ((buf ++ [b]) ++ b' :: rest) by (by rewrite <-app_assoc).
    rewrite take_app_length'; [done|]. lia.
  - split; [done|]. rewrite !length_app. cbn [length]. lia.
Qed.

Lemma connect_read_text text rest buf cnter : headed (buf ++ text) -> text <> [] -> cnter + len text <= 9999 -> 0 <= cnter ->
  connect_read cnter buf ((Some <$> text) ++ rest) = Some (CeBlank, cnter + len text, buf ++ text, rest).
Proof.
  revert buf cnter. induction text as [|b text IH]; intros buf cnter Hh Hne Hc Hc0; [done|].
  cbn [fmap list_fmap app connect_read]. cbn [length] in Hc. replace (cnter <? 9999) with true by lia.
  destruct text as [|b' text].
  - destruct Hh as (H4 & He & _). rewrite He. replace (4 <=? len (buf ++ [b])) with true by lia. cbn. replace (cnter + Z.of_nat 1) with (cnter + 1) by lia. done.
  - assert ((4 <=? len (buf ++ [b])) && ends_blank (buf ++ [b]) = false) as -> by (eapply not_blank_yet, Hh).
    rewrite (IH (buf ++ [b]) (cnter + 1)); [|by rewrite <-app_assoc|done|cbn [length] in *; lia|lia].
    rewrite <-app_assoc. cbn [app length] in *. by replace (cnter + 1 + Z.of_nat (S (length text))) with (cnter + Z.of_nat (S (S (length text)))) by lia.
Qed.

(** When the proxy at the other end answers with a head of fewer than 9999 bytes, the
    request succeeds exactly when "200" occurs anywhere in it, and what follows the
    head is left to read; otherwise the stream is closed. *)
Theorem connect_outcome text rest : headed text -> len text < 9999 ->
  http_connect ((Some <$> text) ++ rest) =
    Some (if has_sub text text200 then mkDial true false rest else mkDial false true rest).
Proof.
  intros Hh Hl. unfold http_connect. rewrite (connect_read_text text rest [] 0); [|done|intros ->; destruct Hh as [H4 _]; cbn in H4; lia|lia|lia].
  cbn [mbind option_bind app]. replace (9999 <=? 0 + len text) with false by lia. by destruct (has_sub text text200).
Qed.

(** [Fprintf] of the CONNECT answered by [serveConnect] gives the stream, with the
    tunnel's bytes all there. *)
Lemma headed_established : headed established.
Proof.
  split; [by vm_compute|]. split; [by vm_compute|]. intros k Hk.
  assert (forallb (fun k => negb (ends_blank (takeZ k established))) (seqZ 4 (len established - 4)) = true) as H by (by vm_compute).
  rewrite forallb_forall in H. apply negb_true_iff, H, list_elem_of_In, elem_of_seqZ. lia.
Qed.

Theorem connect_to_own_proxy rest : http_connect ((Some <$> established) ++ rest) = Some (mkDial true false rest).
Proof. rewrite connect_outcome; [by vm_compute|apply headed_established|by vm_compute]. Qed.

(** A refusal is taken for a success when "200" occurs in it. *)
Definition refusal : list byte :=
  (fun c => byte_of_Z (Z.of_nat (nat_of_ascii c))) <$>
  list_ascii_of_string "HTTP/1.1 502 Bad Gateway" ++ ["013"; "010"]%char ++ list_ascii_of_string "Content-Length: 200" ++ ["013"; "010"; "013"; "010"]%char.

Example refusal_accepted : http_connect (Some <$> refusal) = Some (mkDial true false []).
Proof. by vm_compute. Qed.

Lemma connect_read_stop cnter buf reads : 9999 <= cnter -> connect_read cnter buf reads = Some (CeMany, cnter, buf, reads).
Proof. intros H. destruct reads; cbn [connect_read]; by replace (cnter <? 9999) with false by lia. Qed.

(** A head of 9999 bytes or more is an error that leaves the stream open. *)
Theorem long_head_leaks text rest : len text = 9999 -> (forall k, 4 <= k < len text -> ends_blank (takeZ k text) = false) ->
  http_connect ((Some <$> text) ++ rest) = Some (mkDial false false rest).
Proof.
  intros Hl Hk. assert (forall (sfx buf : list byte) (cnter : Z), text = buf ++ sfx -> cnter = len buf ->
    exists e buf', connect_read cnter buf ((Some <$> sfx) ++ rest) = Some (e, 9999, buf', rest) /\ e <> CeRead) as H.
  { induction sfx as [|b sfx IH]; intros buf cnter -> ->.
    - rewrite app_nil_r in Hl. rewrite app_nil_l. rewrite (connect_read_stop (len buf)) by lia. rewrite Hl. by eexists _, _.
    - cbn [fmap list_fmap app connect_read]. rewrite length_app in Hl. cbn [length] in Hl. replace (len buf <? 9999) with true by lia.
      destruct sfx as [|b' sfx].
      + destruct ((4 <=? len (buf ++ [b])) && ends_blank (buf ++ [b])).
        * replace (len buf + 1) with 9999 by (cbn [length] in Hl; lia). by eexists _, _.
        * rewrite app_nil_l, connect_read_stop by (cbn [length] in Hl; lia). replace (len buf + 1) with 9999 by (cbn [length] in Hl; lia). by eexists _, _.
      + assert ((4 <=? len (buf ++ [b])) && ends_blank (buf ++ [b]) = false) as -> by (eapply not_blank_yet, Hk).
        destruct (IH (buf ++ [b]) (len buf + 1)) as (e & buf' & He & Hne); [by rewrite <-app_assoc|rewrite length_app; cbn; lia|]. by exists e, buf'. }
  destruct (H text [] 0 eq_refl eq_refl) as (e & buf' & He & Hne). unfold http_connect. rewrite He. cbn. by destruct e.
Qed.

(** ** Examples *)

(** Two peers with one address: the second in the order of names is dialled. *)
Example two_peers_one_address : mappedIP "9" = mappedIP "19" /\
  (drift_peer "default" (Some (mappedIP "19")) ["9"; "19"]%string ∅).1 = "9"%string.
Proof. by vm_compute. Qed.

Lemma vlan_lookup_witness :
  let '(p, m') := peeridByConnIP (Some (mappedIP "13")) ["13"]%string (peeridByConnIP (Some "10.0.0.1"%string) ["38"]%string ∅).2 in p = "38"%string.
Proof.
  pose proof (vlan_lookup [(Some "10.0.0.1"%string, ["38"]%string)] (mappedIP "13") ["13"]%string ltac:(done)) as H.
  cbn [foldl fst snd] in H. destruct (peeridByConnIP _ _ (peeridByConnIP _ _ ∅).2) as [p m'].
  destruct H as [_ H]. replace ((peeridByConnIP (Some "10.0.0.1"%string) ["38"]%string ∅).2 !! mappedIP "13") with (Some "38"%string) in H by (by vm_compute).
  apply H.
Defined.
