(* ===== verification/IrohCodec.v ===== *)
(** The wire format of the iroh relay client (src/p2put/irohrelay.go): variable-
    length integers, the frames of multiplexed streams, and the datagrams that
    carry them through a relay server. *)

From stdpp Require Import countable.
From S2P Require Import Prelude.

(** ** Constants *)

Definition maxDatagramPayload : Z := 64000.
Definition streamIDBase : Z := 1000.

Definition hsServerChallenge : Z := 0.
Definition hsClientAuth : Z := 1.
Definition hsServerConfirmsAuth : Z := 2.
Definition hsServerDeniesAuth : Z := 3.

Definition frameClientToRelayDatagram : Z := 4.
Definition frameRelayToClientDatagram : Z := 6.
Definition frameRelayToClientDatagramBatch : Z := 7.
Definition frameEndpointGone : Z := 8.
Definition framePing : Z := 9.
Definition framePong : Z := 10.
Definition frameHealth : Z := 11.
Definition frameRestarting : Z := 12.
Definition frameStatus : Z := 13.

Definition flagDATA : Z := 0.
Definition flagCLOSE : Z := 1.
Definition flagRESET : Z := 2.

(** ** Little-endian integers ([encoding/binary.LittleEndian]) *)

Definition le_put (n : nat) (z : Z) : list byte := reverse (be_put n z).
Definition le_get (l : list byte) : Z := be_get (reverse l).

Lemma length_le_put n z : length (le_put n z) = n.
Proof. unfold le_put. by rewrite length_reverse, length_be_put. Qed.

Lemma le_get_put64 z : le_get (le_put 8 z) = wrap64 z.
Proof. unfold le_get, le_put. rewrite reverse_involutive. apply be_get_put64. Qed.

#[global] Instance byte_countable : Countable byte.
Proof.
  apply (inj_countable' Z_of_byte byte_of_Z), byte_of_Z_of_byte.
Defined.

(** ** Variable-length integers *)

(** [v] is a [uint64]. *)
Definition appendVarInt (buf : list byte) (v : Z) : list byte :=
  if v <=? 63 then buf ++ [byte_of_Z v]
  else if v <=? 16383 then buf ++ [byte_of_Z (Z.lor (wrap8 (Z.shiftr v 8)) 64); byte_of_Z v]
  else if v <=? 1073741823 then
    buf ++ [byte_of_Z (Z.lor (wrap8 (Z.shiftr v 24)) 128); byte_of_Z (Z.shiftr v 16);
            byte_of_Z (Z.shiftr v 8); byte_of_Z v]
  else
    buf ++ [byte_of_Z (Z.lor (wrap8 (Z.shiftr v 56)) 192); byte_of_Z (Z.shiftr v 48);
            byte_of_Z (Z.shiftr v 40); byte_of_Z (Z.shiftr v 32); byte_of_Z (Z.shiftr v 24);
            byte_of_Z (Z.shiftr v 16); byte_of_Z (Z.shiftr v 8); byte_of_Z v].

Fixpoint appendLEB128_loop (fuel : nat) (buf : list byte) (v : Z) : outcome (list byte) :=
  match fuel with
  | O => Panic
  | S fuel =>
      let b := wrap8 (Z.land v 127) in
      let v := Z.shiftr v 7 in
      let b := if negb (v =? 0) then Z.lor b 128 else b in
      let buf := buf ++ [byte_of_Z b] in
      if v =? 0 then Ok buf else appendLEB128_loop fuel buf v
  end.

(** A 64-bit number has at most ten groups of seven bits. *)
Definition appendLEB128 (buf : list byte) (v : Z) : outcome (list byte) := appendLEB128_loop 10 buf v.

Fixpoint consumeLEB128_loop (buf : list byte) (i v : Z) : option (Z * Z) :=
  match buf with
  | [] => None
  | b :: buf =>
      let v := Z.lor v (wrap64 (Z.shiftl (Z.land (Z_of_byte b) 127) (7 * i))) in
      if Z.land (Z_of_byte b) 128 =? 0 then Some (v, i + 1) else consumeLEB128_loop buf (i + 1) v
  end.

(** The number and the bytes it takes, or [io.ErrUnexpectedEOF]. *)
Definition consumeLEB128 (buf : list byte) : option (Z * Z) := consumeLEB128_loop buf 0 0.

(** ** Stream frames and datagrams *)

Definition stream_frame (sid flags : Z) (data : list byte) : list byte :=
  le_put 8 sid ++ [byte_of_Z flags] ++ data.

Definition datagram_msg (remotePub payload : list byte) : list byte :=
  [byte_of_Z frameClientToRelayDatagram] ++ remotePub ++ [byte_of_Z 0] ++ payload.

(** What [handleRecvDatagram] reads off the body of a datagram: the source, the
    stream, the flags and the data; [None] where it returns early. *)
Definition parse_datagram {S} (body : list byte) : M S (option (list byte * Z * Z * list byte)) :=
  if len body <? 33 then ret None
  else
    src <- cut_to 32 body ;;
    payload <- cut_from 33 body ;;
    if len payload <? 9 then ret None
    else
      sid <- cut_to 8 payload ;;
      flags <- at_index 8 payload ;;
      data <- cut_from 9 payload ;;
      ret (Some (src, le_get sid, Z_of_byte flags, data)).

(** ** Lemmas *)

Lemma appendLEB128_loop_app fuel buf v :
  appendLEB128_loop fuel buf v = match appendLEB128_loop fuel [] v with
                                 | Ok enc => Ok (buf ++ enc) | Panic => Panic end.
Proof.
  revert buf v. induction fuel as [|fuel IH]; intros buf v; [done|]. cbn [appendLEB128_loop].
  case_match; [done|]. rewrite IH, (IH ([] ++ _)). destruct (appendLEB128_loop fuel [] _); [|done].
  by rewrite <- !app_assoc.
Qed.

(** A byte that carries seven bits and the continuation flag, checked on all of
    them. *)
Definition leb_byte (m : Z) (more : bool) : byte := byte_of_Z (if more then Z.lor (wrap8 m) 128 else wrap8 m).

Definition leb_byte_ok (m : Z) (more : bool) : bool :=
  (Z.land (Z_of_byte (leb_byte m more)) 127 =? m) &&
  Bool.eqb (Z.land (Z_of_byte (leb_byte m more)) 128 =? 0) (negb more).

Lemma leb_byte_spec m more : 0 <= m < 128 ->
  Z.land (Z_of_byte (leb_byte m more)) 127 = m /\
  Z.eqb (Z.land (Z_of_byte (leb_byte m more)) 128) 0 = negb more.
Proof.
  intros Hm. assert (leb_byte_ok m more = true) as H.
  { assert (forallb (fun n => leb_byte_ok (Z.of_nat n) more) (seq 0 128) = true) as Hall
      by (destruct more; vm_compute; reflexivity).
    rewrite List.forallb_forall in Hall. specialize (Hall (Z.to_nat m)). rewrite Z2Nat.id in Hall by lia.
    apply Hall, in_seq. lia. }
  apply andb_prop in H as [H1 H2]. split; [by apply Z.eqb_eq|by apply eqb_prop].
Qed.

Lemma lor_add_low a m k : 0 <= k -> 0 <= a < 2 ^ k -> Z.lor a (Z.shiftl m k) = a + m * 2 ^ k.
Proof.
  intros Hk Ha. assert (Z.land a (Z.shiftl m k) = 0) as Hd.
  { apply Z.bits_inj'. intros i Hi. rewrite Z.land_spec, Z.bits_0. destruct (Z_lt_le_dec i k).
    - by rewrite Z.shiftl_spec_low, andb_false_r by lia.
    - by rewrite <- (Z.mod_small a (2 ^ k)), Z.mod_pow2_bits_high by lia. }
  by rewrite <- Z.lxor_lor, <- Z.add_nocarry_lxor, Z.shiftl_mul_pow2 by done.
Qed.

(** Reading resumes where writing went on, with [acc] the bits read so far. *)
Lemma consume_append fuel v rest i acc enc :
  0 <= i -> 0 <= v -> v * 2 ^ (7 * i) < 2 ^ 64 -> 0 <= acc < 2 ^ (7 * i) ->
  appendLEB128_loop fuel [] v = Ok enc ->
  consumeLEB128_loop (enc ++ rest) i acc = Some (acc + v * 2 ^ (7 * i), i + len enc).
Proof.
  revert v i acc enc. induction fuel as [|fuel IH]; intros v i acc enc Hi Hv Hb Ha; [done|].
  cbn [appendLEB128_loop]. rewrite app_nil_l.
  assert (Z.land v 127 = v mod 128) as -> by (apply (Z.land_ones v 7); lia).
  fold (leb_byte (v mod 128) (negb (Z.shiftr v 7 =? 0))).
  assert (0 <= v mod 128 < 128) as Hr by (apply Z.mod_pos_bound; lia).
  destruct (leb_byte_spec (v mod 128) (negb (Z.shiftr v 7 =? 0)) Hr) as [Hg Hm].
  set (b := leb_byte _ _) in *. clearbody b.
  assert (v = 128 * Z.shiftr v 7 + v mod 128) as Hdiv by 
    (rewrite Z.shiftr_div_pow2 by lia; apply Z.div_mod; lia).
  assert (0 <= Z.shiftr v 7) as Hs by (apply Z.shiftr_nonneg; lia).
  assert (0 < 2 ^ (7 * i)) as Hp by lia.
  assert (Z.lor acc (wrap64 (Z.shiftl (v mod 128) (7 * i))) = acc + v mod 128 * 2 ^ (7 * i)) as Hor.
  { unfold wrap64. rewrite Z.mod_small; [by apply lor_add_low; lia|]. rewrite Z.shiftl_mul_pow2 by lia. nia. }
  intros E. destruct (Z.eqb_spec (Z.shiftr v 7) 0) as [E0|E0].
  - injection E as <-. cbn [app consumeLEB128_loop]. rewrite Hg, Hm, Hor. cbn. do 2 f_equal. nia.
  - rewrite appendLEB128_loop_app in E. destruct (appendLEB128_loop fuel [] (Z.shiftr v 7)) as [enc'|] eqn:Er; [|done].
    injection E as <-. cbn [app consumeLEB128_loop]. rewrite Hg, Hm, Hor. cbn [negb].
    assert (2 ^ (7 * (i + 1)) = 128 * 2 ^ (7 * i)) as Hpow.
    { rewrite Z.mul_add_distr_l, Z.pow_add_r by lia. change (2 ^ (7 * 1)) with 128. lia. }
    rewrite (IH (Z.shiftr v 7) (i + 1) _ enc'); [|lia|lia|rewrite Hpow; nia|rewrite Hpow; nia|done].
    cbn [length]. do 2 f_equal; [rewrite Hpow; nia|lia].
Qed.

Lemma append_total fuel v : 0 <= v < 2 ^ (7 * Z.of_nat fuel) -> (0 < fuel)%nat ->
  exists enc, appendLEB128_loop fuel [] v = Ok enc.
Proof.
  revert v. induction fuel as [|fuel IH]; intros v Hv Hf; [lia|]. cbn [appendLEB128_loop].
  destruct (Z.eqb_spec (Z.shiftr v 7) 0) as [E|E]; [eauto|].
  rewrite appendLEB128_loop_app. assert (0 < Z.shiftr v 7) as Hs.
  { assert (0 <= Z.shiftr v 7) by (apply Z.shiftr_nonneg; lia). lia. }
  rewrite Z.shiftr_div_pow2 in * by lia. change (2 ^ 7) with 128 in *.
  destruct fuel as [|fuel].
  { change (2 ^ (7 * Z.of_nat 1)) with 128 in Hv. rewrite Z.div_small in Hs by lia. lia. }
  destruct (IH (v `div` 128)) as [enc ->]; [|lia|eauto].
  split; [lia|]. apply Z.div_lt_upper_bound; [lia|]. change 128 with (2 ^ 7). rewrite <- Z.pow_add_r by lia.
  replace (7 + 7 * Z.of_nat (S fuel)) with (7 * Z.of_nat (S (S fuel))) by lia. lia.
Qed.

(** A number written by [appendLEB128] is read back by [consumeLEB128] with
    its exact length, whatever bytes follow; writing terminates and extends the
    buffer. *)
Theorem leb128_roundtrip buf v rest : 0 <= v < 2 ^ 64 ->
  exists enc, appendLEB128 buf v = Ok (buf ++ enc) /\ consumeLEB128 (enc ++ rest) = Some (v, len enc).
Proof.
  intros Hv. unfold appendLEB128, consumeLEB128. destruct (append_total 10 v) as [enc E]; [lia|lia|].
  exists enc. rewrite appendLEB128_loop_app, E. split; [done|].
  rewrite (consume_append 10 v rest 0 0 enc); [do 2 f_equal; lia|lia|lia|lia|lia|done].
Qed.

Lemma leb128_roundtrip_witness :
  exists enc, appendLEB128 [] 624485 = Ok enc /\ consumeLEB128 (enc ++ [Byte.x00]) = Some (624485, len enc).
Proof. apply (leb128_roundtrip [] 624485 [Byte.x00]). lia. Defined.

(** A datagram forwarded by a relay is read back to the frame it carries. *)
Lemma parse_datagram_frame {S} src ecn sid flags data (s : S) : len src = 32 -> 0 <= flags < 256 ->
  parse_datagram (src ++ [ecn] ++ stream_frame sid flags data) s = Ok (Some (src, wrap64 sid, flags, data), s).
Proof.
  intros Hs Hf. unfold parse_datagram, stream_frame. set (body := src ++ _).
  assert (len body = 42 + len data) as Hl.
  { unfold body. rewrite !length_app, length_le_put. cbn [length]. lia. }
  replace (len body <? 33) with false by lia. unfold bind at 1. rewrite cut_to_ok by lia.
  unfold bind at 1. rewrite cut_from_ok by lia.
  assert (takeZ 32 body = src) as -> by (unfold takeZ, body; rewrite take_app_length' by lia; done).
  assert (dropZ 33 body = le_put 8 sid ++ [byte_of_Z flags] ++ data) as ->.
  { unfold dropZ, body. rewrite (app_assoc src). rewrite drop_app_length'; [done|]. rewrite length_app. cbn. lia. }
  set (payload := le_put 8 sid ++ _).
  assert (len payload = 9 + len data) as Hp.
  { unfold payload. rewrite !length_app, length_le_put. cbn [length]. lia. }
  replace (len payload <? 9) with false by lia. unfold bind at 1. rewrite cut_to_ok by lia.
  unfold bind at 1. rewrite (at_index_ok 8 payload (byte_of_Z flags));
    [|lia|unfold payload; rewrite lookup_app_r by (rewrite length_le_put; lia); by rewrite length_le_put].
  unfold bind at 1. rewrite cut_from_ok by lia.
  assert (takeZ 8 payload = le_put 8 sid) as ->
    by (unfold takeZ, payload; rewrite take_app_length' by (rewrite length_le_put; lia); done).
  assert (dropZ 9 payload = data) as ->.
  { unfold dropZ, payload. rewrite (app_assoc (le_put 8 sid)). rewrite drop_app_length'; [done|].
    rewrite length_app, length_le_put. done. }
  rewrite le_get_put64, Z_of_byte_of_Z, wrap8_small by mlia. done.
Qed.

(** No body of a datagram makes the parser panic. *)
Lemma parse_datagram_total {S} body (s : S) : exists r, parse_datagram body s = Ok (r, s).
Proof.
  unfold parse_datagram. destruct (Z.ltb_spec (len body) 33); [by eexists|].
  unfold bind at 1. rewrite cut_to_ok by lia. unfold bind at 1. rewrite cut_from_ok by lia.
  destruct (Z.ltb_spec (len (dropZ 33 body)) 9); [by eexists|]. set (payload := dropZ 33 body) in *.
  unfold bind at 1. rewrite cut_to_ok by lia.
  destruct (lookup_lt_is_Some_2 payload (Z.to_nat 8)) as [b Eb]; [lia|].
  unfold bind at 1. rewrite (at_index_ok 8 payload b) by done.
  unfold bind at 1. rewrite cut_from_ok by lia. by eexists.
Qed.
