(* ===== verification/IrohConn.v ===== *)
(** One connection to an iroh relay server (src/p2put/irohrelay.go,
    [irohRelayConn]): the handshake, the life cycle run by [runLoop] with its
    keep-alive and back-off, and the frames [readLoop] takes.

    The websocket is a third-party object; it is the list of messages written
    to it, a script of failing writes, and whether it has been closed.  What it
    delivers is an argument. *)

From stdpp Require Import strings.
From S2P Require Import Prelude GoLib IrohCodec.

Definition relayPingInterval : Z := 9 * second.

Inductive IrohRelayState :=
  | IrohRelayDisconnected | IrohRelayConnecting | IrohRelayAuthenticating | IrohRelayAlive
  | IrohRelayReconnecting.

#[global] Instance IrohRelayState_eq_dec : EqDecision IrohRelayState.
Proof. solve_decision. Defined.

Record wsConn := mkWs { ws_out : list (list byte); ws_fails : list bool; ws_closed : bool }.

#[global] Instance wsConn_eta : Eta wsConn := fun w => mkWs (ws_out w) (ws_fails w) (ws_closed w).

(** [WriteMessage]; the flag is success. *)
Definition ws_WriteMessage (msg : list byte) (w : wsConn) : bool * wsConn :=
  if ws_closed w then (false, w)
  else if default false (head (ws_fails w)) then (false, w <| ws_fails := tail (ws_fails w) |>)
  else (true, w <| ws_fails := tail (ws_fails w) |> <| ws_out := ws_out w ++ [msg] |>).

Record relayConn := mkRelay {
  rc_pubkey : list byte;
  rc_state : IrohRelayState;
  rc_ws : option wsConn;
  rc_createdAt : Z;
  rc_stopped : bool;       (* stopCh is closed *)
  rc_reconnectNow : bool;  (* the channel of capacity 1 is full *)
  rc_loops : Z;            (* calls of start *)
  rc_lastRecv : Z;
  rc_pingSeq : Z;
  rc_pendingPing : Z;
  rc_lastPong : Z;
  rc_pongCnt : Z;
  rc_txBytes : Z;
  rc_rxBytes : Z;
  rc_failCount : Z;
}.

#[global] Instance relayConn_eta : Eta relayConn := fun c => mkRelay
  (rc_pubkey c) (rc_state c) (rc_ws c) (rc_createdAt c) (rc_stopped c) (rc_reconnectNow c) (rc_loops c)
  (rc_lastRecv c) (rc_pingSeq c) (rc_pendingPing c) (rc_lastPong c) (rc_pongCnt c) (rc_txBytes c) (rc_rxBytes c)
  (rc_failCount c).

Definition newRelayConn (now : Z) : relayConn :=
  mkRelay (replicate 32 Byte.x00) IrohRelayDisconnected None now false false 0 now 0 0 now 0 0 0 0.

Definition start (c : relayConn) : relayConn := c <| rc_loops := rc_loops c + 1 |>.

(** Closing a closed channel panics. *)
Definition stop : M relayConn () :=
  c <- get ;;
  if rc_stopped c then panic else modify (fun c => c <| rc_stopped := true |>).

Definition setState (s : IrohRelayState) : M relayConn () := modify (fun c => c <| rc_state := s |>).

Definition set_ws (w : option wsConn) : M relayConn () := modify (fun c => c <| rc_ws := w |>).

Definition shutdown : M relayConn () :=
  setState IrohRelayDisconnected ;; set_ws None.

(** [false] is an error, of a closed or failing websocket. *)
Definition write_ws (msg : list byte) : M relayConn bool :=
  w <- gets rc_ws ;;
  match w with
  | None => ret false
  | Some w => let '(ok, w) := ws_WriteMessage msg w in set_ws (Some w) ;; ret ok
  end.

Definition writeFrame (tag : Z) (payload : list byte) : M relayConn bool :=
  write_ws ([byte_of_Z tag] ++ payload).

Definition sendDatagram (remotePub payload : list byte) : M relayConn bool :=
  write_ws (datagram_msg remotePub payload).

Definition sendPong (payload : list byte) : M relayConn bool := writeFrame framePong payload.

(** ** The handshake *)

Inductive hs_error :=
  | HsReadChallenge | HsExpectedChallenge | HsSend | HsReadResponse | HsEmpty | HsParse
  | HsDenied (reason : list byte) | HsUnexpected.

(** The first byte of a message, or a panic. *)
Definition first_byte (msg : list byte) : M relayConn Z :=
  match msg with [] => panic | b :: _ => ret (Z_of_byte b) end.

Section handshake.
(** [blake3.DeriveKey] with the domain of the challenge, and [ed25519.Sign] with
    the key of the pool. *)
Variable derive_key : list byte -> list byte.
Variable sign : list byte -> list byte.
Variable localPub : list byte.

Definition client_auth (challenge : list byte) : outcome (list byte) :=
  match appendLEB128 ([byte_of_Z hsClientAuth] ++ localPub) 64 with
  | Ok auth => Ok (auth ++ sign (derive_key challenge))
  | Panic => Panic
  end.

(** The reason of a denial, [msg[1+n : 1+n+int(reasonLen)]]; a slice expression
    may go past the length of the message, up to the capacity of its buffer,
    of which [slack] is the rest. *)
Definition denial_reason (msg slack : list byte) : M relayConn hs_error :=
  match consumeLEB128 (dropZ 1 msg) with
  | None => ret HsParse
  | Some (reasonLen, n) =>
      let lo := 1 + n in
      let hi := int64 (1 + n + int64 reasonLen) in
      if (lo <=? hi) && (hi <=? len (msg ++ slack)) then ret (HsDenied (slice (msg ++ slack) lo hi)) else panic
  end.

Definition auth_response (response : option (list byte * list byte)) : M relayConn (option hs_error) :=
  match response with
  | None => ret (Some HsReadResponse)
  | Some (msg, slack) =>
      match msg with
      | [] => ret (Some HsEmpty)
      | b :: _ =>
          let t := Z_of_byte b in
          if t =? hsServerConfirmsAuth then ret None
          else if t =? hsServerDeniesAuth then e <- denial_reason msg slack ;; ret (Some e)
          else ret (Some HsUnexpected)
      end
  end.

(** [challenge] and [response] are what the two reads return; [None] an error. *)
Definition handshake (challenge : option (list byte)) (response : option (list byte * list byte))
    : M relayConn (option hs_error) :=
  match challenge with
  | None => ret (Some HsReadChallenge)
  | Some msg =>
      if len msg <? 17 then first_byte msg ;; ret (Some HsExpectedChallenge)
      else
        t <- first_byte msg ;;
        if negb (t =? hsServerChallenge) then ret (Some HsExpectedChallenge)
        else
          auth <- lift (client_auth (slice msg 1 17)) ;;
          sent <- write_ws auth ;;
          if negb sent then ret (Some HsSend)
          else auth_response response
  end.

(** What one attempt to connect meets: the websocket dialled, if any, and the
    messages of the handshake. *)
Record attempt := mkAttempt {
  at_dial : option wsConn;
  at_challenge : option (list byte);
  at_response : option (list byte * list byte);
  at_now : Z;
}.

(** [true] is success. *)
Definition connect (a : attempt) : M relayConn bool :=
  setState IrohRelayConnecting ;;
  modify (fun c => c <| rc_reconnectNow := false |>) ;;
  match at_dial a with
  | None => setState IrohRelayDisconnected ;; ret false
  | Some ws =>
      set_ws (Some ws) ;;
      setState IrohRelayAuthenticating ;;
      e <- handshake (at_challenge a) (at_response a) ;;
      match e with
      | Some _ =>
          modify (fun c => c <| rc_ws := (fun w => w <| ws_closed := true |>) <$> rc_ws c |>) ;;
          setState IrohRelayDisconnected ;; ret false
      | None =>
          modify (fun c => c <| rc_lastRecv := at_now a |> <| rc_pubkey := localPub |> <| rc_failCount := 0 |>) ;;
          setState IrohRelayAlive ;; ret true
      end
  end.

(** The attempts of [connectWithBackoff], each with whether the connection is
    found stopped at the wait that follows it; the delays waited are returned,
    and whether the attempts ran out before the loop ended. *)
Fixpoint backoff_loop (attempts : list (attempt * bool)) (backoff : Z) : M relayConn (list Z * bool) :=
  match attempts with
  | [] => ret ([], true)
  | (a, stopping) :: attempts =>
      connect a ;;
      s <- gets rc_state ;;
      if bool_decide (s = IrohRelayAlive) then ret ([], false)
      else if stopping : bool then ret ([], false)
      else
        let next := backoff * 2 in
        let next := if 60 * second <? next then 60 * second else next in
        r <- backoff_loop attempts next ;;
        ret (backoff :: r.1, r.2)
  end.

Definition connectWithBackoff (attempts : list (attempt * bool)) : M relayConn (list Z * bool) :=
  backoff_loop attempts (1 * second).

(** ** The life cycle *)

(** What the [select] of a turn of [runLoop] receives. *)
Inductive loop_event := EvStop | EvReconnect | EvTick (now : Z).

Definition keepalive_tick (now : Z) : M relayConn () :=
  c <- get ;;
  if relayPingInterval * 3 <? time_sub now (rc_lastRecv c) then shutdown
  else if negb (rc_pendingPing c =? 0) then ret ()
  else
    let seq := wrap64 (rc_pingSeq c + 1) in
    modify (fun c => c <| rc_pingSeq := seq |> <| rc_pendingPing := seq |>) ;;
    ok <- writeFrame framePing (le_put 8 seq) ;;
    when (negb ok) shutdown.

(** One turn; [false] when the loop returns. *)
Definition runLoop_turn (attempts : list (attempt * bool)) (ev : loop_event) : M relayConn bool :=
  s <- gets rc_state ;;
  if negb (bool_decide (s = IrohRelayAlive)) then
    shutdown ;;
    stopped <- gets rc_stopped ;;
    if stopped then ret false else connectWithBackoff attempts ;; ret true
  else
    match ev with
    | EvStop => shutdown ;; ret false
    | EvReconnect => modify (fun c => c <| rc_reconnectNow := false |>) ;; shutdown ;; ret true
    | EvTick now => keepalive_tick now ;; ret true
    end.
End handshake.

(** ** Frames from the server *)

(** What a frame asks of the pool, or that [readLoop] returns. *)
Inductive read_action := RdContinue | RdExit | RdDatagram (body : list byte) | RdGone (pub : list byte).

(** A turn of [readLoop] with a live websocket; [None] is a read error.  What is
    read off a frame only to be logged is read here too. *)
Definition readLoop_turn (now : Z) (msg : option (list byte)) : M relayConn read_action :=
  c <- get ;;
  if rc_stopped c then ret RdExit
  else
    match rc_ws c with
    | None => ret RdExit
    | Some _ =>
        match msg with
        | None => modify (fun c => c <| rc_reconnectNow := true |>) ;; ret RdExit
        | Some msg =>
            if len msg =? 0 then ret RdContinue
            else
              modify (fun c => c <| rc_lastRecv := now |>) ;;
              b <- at_index 0 msg ;;
              body <- cut_from 1 msg ;;
              let frameType := Z_of_byte b in
              if frameType =? framePing then
                ok <- sendPong body ;;
                ret (if ok : bool then RdContinue else RdExit)
              else if frameType =? framePong then
                when (8 <=? len body)
                  ((h <- cut_to 8 body ;;
                    let seq := le_get h in
                    modify (fun c => if seq =? rc_pendingPing c then c <| rc_pendingPing := 0 |> else c)) ;;
                   modify (fun c => c <| rc_lastPong := now |> <| rc_pongCnt := int64 (rc_pongCnt c + 1) |>)) ;;
                ret RdContinue
              else if (frameType =? frameRelayToClientDatagram) || (frameType =? frameRelayToClientDatagramBatch) then
                ret (RdDatagram body)
              else if frameType =? frameEndpointGone then
                if 32 <=? len body then gonePub <- cut_to 32 body ;; ret (RdGone gonePub) else ret RdContinue
              else if frameType =? frameRestarting then
                when (8 <=? len body)
                  (cut_to 4 body ;; tryFor <- cut_to 8 body ;; cut_from 4 tryFor ;; ret ()) ;;
                ret RdContinue
              else if frameType =? frameStatus then
                when (1 <=? len body) (at_index 0 body ;; ret ()) ;;
                ret RdContinue
              else ret RdContinue
        end
    end.

(** ** When a server can crash the client *)

(** A denial whose length field points outside the buffer of the message. *)
Definition denial_out_of_range (msg slack : list byte) : Prop :=
  exists r n, consumeLEB128 (dropZ 1 msg) = Some (r, n) /\
    ~ (1 + n <= int64 (1 + n + int64 r) <= len (msg ++ slack)).

Lemma denial_reason_panics msg slack c :
  denial_reason msg slack c = Panic <-> denial_out_of_range msg slack.
Proof.
  unfold denial_reason, denial_out_of_range. destruct (consumeLEB128 (dropZ 1 msg)) as [[r n]|].
  - case_match; zbool; (split; [try done|]).
    + intros (r' & n' & [= <- <-] & H'). lia.
    + intros _. exists r, n. split; [done|]. intros H'. rewrite <- !Z.leb_le in H'. destruct H' as [H1 H2]. by rewrite H1, H2 in H.
    + done.
  - split; [done|]. by intros (r & n & [=] & _).
Qed.

Lemma handshake_response_panics response c :
  auth_response response c = Panic <->
  exists msg slack, response = Some (msg, slack) /\ head msg = Some (byte_of_Z hsServerDeniesAuth) /\
     denial_out_of_range msg slack.
Proof.
  unfold auth_response. destruct response as [[[|b msg] slack]|]; [split; [done|naive_solver]| |split; [done|naive_solver]].
  unfold hsServerConfirmsAuth, hsServerDeniesAuth.
  destruct (Z.eqb_spec (Z_of_byte b) 2) as [E2|E2]; [|destruct (Z.eqb_spec (Z_of_byte b) 3) as [E3|E3]].
  - split; [done|]. intros (m & sl & [= <- <-] & [= ->] & _). by vm_compute in E2.
  - assert (b = byte_of_Z 3) as -> by (apply Z_of_byte_inj; by rewrite E3).
    unfold bind. pose proof (denial_reason_panics (byte_of_Z 3 :: msg) slack c) as H.
    destruct (denial_reason _ slack c) as [[e c']|].
    + split; [done|]. intros (m & sl & [= <- <-] & _ & Hd). by apply H in Hd.
    + split; [|done]. intros _. eexists _, _. split_and!; [done|done|by apply H].
  - split; [done|]. intros (m & sl & [= <- <-] & [= ->] & _). by destruct E3.
Qed.

Lemma client_auth_ok sign derive pub ch : exists auth, client_auth derive sign pub ch = Ok auth.
Proof. unfold client_auth, appendLEB128. rewrite appendLEB128_loop_app. cbn. eauto. Qed.

Lemma write_ws_ok msg c : exists ok c', write_ws msg c = Ok (ok, c').
Proof.
  unfold write_ws, bind, gets. destruct (rc_ws c) as [w|]; [|by eexists _, _].
  destruct (ws_WriteMessage msg w) as [ok w']. by eexists _, _.
Qed.

(** Whether the client gets as far as waiting for the response. *)
Definition auth_sent derive sign pub (challenge : option (list byte)) (c : relayConn) : Prop :=
  exists msg auth c', challenge = Some msg /\ 17 <= len msg /\ head msg = Some (byte_of_Z hsServerChallenge) /\
    client_auth derive sign pub (slice msg 1 17) = Ok auth /\ write_ws auth c = Ok (true, c').

(** C38: The handshake crashes the client in exactly two cases: the server opens
    with an empty message, or it answers the authentication with a denial whose
    length field points outside the message's buffer. *)
Theorem handshake_panics_iff derive sign pub challenge response c :
  handshake derive sign pub challenge response c = Panic <->
  challenge = Some [] \/
  (auth_sent derive sign pub challenge c /\
   exists msg slack, response = Some (msg, slack) /\ head msg = Some (byte_of_Z hsServerDeniesAuth) /\
     denial_out_of_range msg slack).
Proof.
  unfold handshake. destruct challenge as [[|b msg]|].
  - split; [by left|done].
  - destruct (Z.ltb_spec (len (b :: msg)) 17) as [Hl|Hl].
    { split; [done|]. intros [|[(m & _ & _ & [= <-] & ? & _) _]]; [done|lia]. }
    unfold first_byte, bind at 1, ret at 1, hsServerChallenge.
    destruct (Z.eqb_spec (Z_of_byte b) 0) as [Hb|Hb]; cbn [negb]; cycle 1.
    { split; [done|]. intros [|[(m & _ & _ & [= <-] & _ & [= ->] & _) _]]; [done|by destruct Hb]. }
    destruct (client_auth_ok sign derive pub (slice (b :: msg) 1 17)) as [auth Ha].
    destruct (write_ws_ok auth c) as (ok & c' & Hw).
    unfold bind at 1, lift. rewrite Ha. unfold bind at 1. rewrite Hw. destruct ok; cbn [negb]; cycle 1.
    { split; [done|]. intros [|[(m & a & c1 & [= <-] & _ & _ & Ha' & Hw') _]]; congruence. }
    assert (auth_sent derive sign pub (Some (b :: msg)) c) as Hs.
    { exists (b :: msg), auth, c'. split_and!; try done. cbn. f_equal. apply Z_of_byte_inj. by rewrite Hb. }
    rewrite (handshake_response_panics response c'). naive_solver.
  - split; [done|]. intros [|[(m & _ & _ & [=] & _) _]]; done.
Qed.

Lemma handshake_panics_iff_witness :
  handshake (fun _ => []) (fun _ => []) [] (Some []) None (newRelayConn 0) = Panic.
Proof. apply (handshake_panics_iff (fun _ => []) (fun _ => []) [] (Some []) None (newRelayConn 0)). by left. Defined.

(** ** Keep-alive *)

(** The ticks of a connection on which nothing arrives, up to the one that shuts
    it down. *)
Fixpoint silent_ticks (ts : list Z) : M relayConn () :=
  match ts with
  | [] => ret ()
  | t :: ts =>
      s <- gets rc_state ;;
      if bool_decide (s = IrohRelayAlive)
      then runLoop_turn (fun _ => []) (fun _ => []) [] [] (EvTick t) ;; silent_ticks ts
      else ret ()
  end.

Definition overdue (last t : Z) : Prop := 3 * relayPingInterval < t - last.

#[global] Instance overdue_dec last t : Decision (overdue last t).
Proof. unfold overdue. apply _. Defined.

Definition ping_msg (seq : Z) : list byte := [byte_of_Z framePing] ++ le_put 8 seq.

(** A live connection whose websocket takes every message. *)
Definition live (w : wsConn) (c : relayConn) : Prop :=
  rc_state c = IrohRelayAlive /\ rc_ws c = Some w /\ ws_closed w = false /\ ws_fails w = [].

Lemma write_ws_live w msg c : live w c ->
  write_ws msg c = Ok (true, c <| rc_ws := Some (w <| ws_out := ws_out w ++ [msg] |>) |>).
Proof.
  intros (_ & Hw & Hc & Hf). unfold write_ws, bind, gets. rewrite Hw. destruct w as [out fails closed]. cbn in *.
  by subst.
Qed.

Definition plain_time (last t : Z) : Prop := is_i64 (t - last).

Lemma time_sub_plain now t : plain_time t now -> time_sub now t = now - t.
Proof. unfold plain_time, is_i64, time_sub. lia. Qed.

Lemma tick_overdue c t : plain_time (rc_lastRecv c) t -> overdue (rc_lastRecv c) t ->
  wp (keepalive_tick t) (fun _ c' => rc_state c' = IrohRelayDisconnected /\ rc_ws c' = None) c.
Proof.
  intros Hp Ho. unfold wp, keepalive_tick, bind, get. rewrite time_sub_plain by done. unfold overdue in Ho.
  replace (relayPingInterval * 3 <? t - rc_lastRecv c) with true by lia. done.
Qed.

Lemma tick_quiet w c t : live w c -> plain_time (rc_lastRecv c) t -> ~ overdue (rc_lastRecv c) t ->
  wp (keepalive_tick t) (fun _ c' => rc_lastRecv c' = rc_lastRecv c /\
    if bool_decide (rc_pendingPing c = 0)
    then live (w <| ws_out := ws_out w ++ [ping_msg (wrap64 (rc_pingSeq c + 1))] |>) c' /\
         rc_pendingPing c' = wrap64 (rc_pingSeq c + 1)
    else c' = c) c.
Proof.
  intros (Ha & Hw & Hc & Hf) Hp Ho. unfold wp, keepalive_tick, bind, get. rewrite time_sub_plain by done.
  unfold overdue in Ho. replace (relayPingInterval * 3 <? t - rc_lastRecv c) with false by lia.
  destruct (Z.eqb_spec (rc_pendingPing c) 0) as [E|E]; cbn [negb].
  - rewrite bool_decide_eq_true_2 by done. unfold modify, writeFrame. cbv beta iota.
    rewrite (write_ws_live w) by done. cbn [negb when ret]. by split_and!.
  - by rewrite bool_decide_eq_false_2 by done.
Qed.

Lemma silent_alive t ts c : rc_state c = IrohRelayAlive ->
  silent_ticks (t :: ts) c = (keepalive_tick t ;; silent_ticks ts) c.
Proof.
  intros Ha. cbn [silent_ticks]. unfold bind at 1, gets. rewrite Ha, bool_decide_eq_true_2 by done.
  unfold runLoop_turn. unfold bind, gets, ret. rewrite Ha, bool_decide_eq_true_2 by done. cbn [negb].
  by destruct (keepalive_tick t c) as [[]|].
Qed.

Lemma silent_dead ts c : rc_state c <> IrohRelayAlive -> silent_ticks ts c = Ok ((), c).
Proof. intros Ha. destruct ts; [done|]. cbn. unfold bind, gets. by rewrite bool_decide_eq_false_2 by done. Qed.

Lemma wp_decide_true {A} (P : Prop) `{Decision P} (m : M relayConn A) Q1 Q2 c :
  P -> wp m Q1 c -> wp m (fun a c' => if decide P then Q1 a c' else Q2 a c') c.
Proof. intros HP Hm. eapply wp_mono; [exact Hm|]. intros a c' HQ. by rewrite decide_True. Qed.

Lemma silent_down c ts (P : () -> relayConn -> Prop) : rc_state c <> IrohRelayAlive -> P () c -> wp (silent_ticks ts) P c.
Proof. intros Ha HP. unfold wp. by rewrite silent_dead. Qed.

(** A tick that is overdue, among ticks that follow in any way. *)
Lemma silent_overdue w t ts c : live w c -> plain_time (rc_lastRecv c) t -> overdue (rc_lastRecv c) t ->
  wp (silent_ticks (t :: ts)) (fun _ c' => rc_state c' = IrohRelayDisconnected /\ rc_ws c' = None) c.
Proof.
  intros (Ha & _) Hp Ho. unfold wp. rewrite silent_alive by done. apply wp_bind.
  eapply wp_mono; [by apply tick_overdue|]. intros ? c' [Hs Hw]. apply silent_down; [by rewrite Hs|done].
Qed.

Lemma Exists_later {A} (P : A -> Prop) x l : ~ P x -> Exists P (x :: l) <-> Exists P l.
Proof. rewrite Exists_cons. tauto. Qed.

Lemma silent_pending w ts c : live w c -> rc_pendingPing c <> 0 -> Forall (plain_time (rc_lastRecv c)) ts ->
  wp (silent_ticks ts) (fun _ c' =>
    if decide (Exists (overdue (rc_lastRecv c)) ts)
    then rc_state c' = IrohRelayDisconnected /\ rc_ws c' = None else live w c') c.
Proof.
  intros Hl Hp Hts. induction Hts as [|t ts Ht Hts IH].
  - cbn. rewrite decide_False by (rewrite Exists_nil; tauto). done.
  - destruct (decide (overdue (rc_lastRecv c) t)) as [Ho|Ho].
    + apply wp_decide_true; [by left|]. by eapply silent_overdue.
    + unfold wp. rewrite silent_alive by apply Hl. apply wp_bind. eapply wp_mono; [by eapply tick_quiet|].
      intros ? c' [_ Hc']. rewrite bool_decide_eq_false_2 in Hc' by done. subst c'.
      eapply wp_mono; [exact IH|]. intros ? c' HQ. cbn in HQ. by rewrite (decide_ext _ _ _ _ (Exists_later _ _ _ Ho)).
Qed.

(** Silence is noticed, and only silence: when no frame arrives, the ticks
    keep the connection open and send one ping at most, until a tick comes more
    than three intervals after the last frame; that tick shuts it down. *)
Theorem relay_silence_detected w ts c : live w c -> 0 <= rc_pingSeq c < 2 ^ 64 - 1 ->
  Forall (plain_time (rc_lastRecv c)) ts ->
  wp (silent_ticks ts) (fun _ c' =>
    if decide (Exists (overdue (rc_lastRecv c)) ts)
    then rc_state c' = IrohRelayDisconnected /\ rc_ws c' = None
    else exists w', live w' c' /\
      ws_out w' = ws_out w ++
        (if bool_decide (ts <> [] /\ rc_pendingPing c = 0) then [ping_msg (rc_pingSeq c + 1)] else [])) c.
Proof.
  intros Hl Hs Hts. destruct Hts as [|t ts Ht Hts].
  { cbn. rewrite decide_False by (rewrite Exists_nil; tauto). exists w. by rewrite app_nil_r. }
  destruct (decide (overdue (rc_lastRecv c) t)) as [Ho|Ho].
  { apply wp_decide_true; [by left|]. by eapply silent_overdue. }
  destruct (decide (rc_pendingPing c = 0)) as [E|E].
  - unfold wp. rewrite silent_alive by apply Hl.
    apply wp_bind. eapply wp_mono; [by eapply tick_quiet|]. intros ? c' [Hr Hc'].
    rewrite bool_decide_eq_true_2 in Hc' by done. destruct Hc' as [Hl' Hp'].
    assert (wrap64 (rc_pingSeq c + 1) = rc_pingSeq c + 1) as Ew by (unfold wrap64; apply Z.mod_small; lia).
    rewrite Ew in *. eapply wp_mono; [apply (silent_pending _ ts c' Hl'); [lia|by rewrite Hr]|].
    intros ? c2. cbn beta. rewrite Hr, (decide_ext _ _ _ _ (Exists_later _ _ _ Ho)), (bool_decide_eq_true_2 (_ /\ _)) by done.
    case_decide; [done|]. intros Hc2. by exists (w <| ws_out := ws_out w ++ [ping_msg (rc_pingSeq c + 1)] |>).
  - eapply wp_mono; [apply (silent_pending w (t :: ts) c Hl E); by constructor|].
    intros ? c2. case_decide; [done|]. rewrite (bool_decide_eq_false_2 (_ /\ _)) by (by intros []).
    rewrite app_nil_r. eauto.
Qed.

Definition example_ws : wsConn := mkWs [] [] false.
Definition example_relay : relayConn :=
  (newRelayConn 0) <| rc_state := IrohRelayAlive |> <| rc_ws := Some example_ws |>.

Lemma relay_silence_detected_witness :
  wp (silent_ticks [9 * second; 18 * second; 27 * second]) (fun _ c => rc_state c = IrohRelayAlive) example_relay /\
  wp (silent_ticks [9 * second; 18 * second; 27 * second; 36 * second]) (fun _ c => rc_ws c = None) example_relay.
Proof.
  split.
  - eapply wp_mono; [apply (relay_silence_detected example_ws); [done|cbn; lia|]|].
    + split_Forall; vm_compute; split; congruence.
    + intros ? c. cbn [rc_lastRecv example_relay]. rewrite decide_False; [by intros (w' & [] & _)|].
      rewrite !Exists_cons, Exists_nil. vm_compute. intuition congruence.
  - eapply wp_mono; [apply (relay_silence_detected example_ws); [done|cbn; lia|]|].
    + split_Forall; vm_compute; split; congruence.
    + intros ? c. cbn beta. rewrite decide_True; [by intros []|]. do 3 apply Exists_cons_tl. apply Exists_cons_hd. vm_compute. reflexivity.
Defined.

(** ** Reconnecting *)

Lemma backoff_loop_delays derive sign pub attempts b c : 0 < b <= 60 ->
  wlp (backoff_loop derive sign pub attempts (b * second)) (fun r _ =>
    forall i d, r.1 !! i = Some d -> d = Z.min (b * 2 ^ Z.of_nat i) 60 * second) c.
Proof.
  revert b c. induction attempts as [|[a stopping] attempts IH]; intros b c Hb; [done|]. cbn [backoff_loop].
  apply wlp_bind. eapply (wlp_mono _ (fun _ _ => True)).
  { unfold wlp. by destruct (connect derive sign pub a c) as [[]|]. }
  intros ? c1 _. apply wlp_bind, wlp_gets. case_bool_decide; [done|]. destruct stopping; [done|].
  apply wlp_bind. replace (if _ <? _ then _ else _) with (Z.min (b * 2) 60 * second).
  2: { unfold second. case_match; zbool; lia. }
  eapply wlp_mono; [apply IH; lia|]. intros [ds e] c2 HQ. apply wlp_ret. intros [|i] d.
  - intros [= <-]. f_equal. change (2 ^ Z.of_nat 0) with 1. lia.
  - intros Hi. cbn in Hi. rewrite (HQ i d Hi). f_equal.
    replace (Z.of_nat (S i)) with (1 + Z.of_nat i) by lia. rewrite Z.pow_add_r by lia. change (2 ^ 1) with 2.
    assert (1 <= 2 ^ Z.of_nat i) by (pose proof (Z.pow_pos_nonneg 2 (Z.of_nat i)); lia). nia.
Qed.

(** The waits between failed attempts double from one second up to a minute. *)
Lemma backoff_delays derive sign pub attempts c :
  wlp (connectWithBackoff derive sign pub attempts) (fun r _ =>
    forall i d, r.1 !! i = Some d -> d = Z.min (2 ^ Z.of_nat i) 60 * second) c.
Proof.
  eapply wlp_mono; [apply (backoff_loop_delays _ _ _ _ 1); lia|].
  intros r ? HQ i d Hi. rewrite (HQ i d Hi). f_equal. lia.
Qed.

(** ** A live connection has a websocket *)

Section alive.
Variable derive_key sign : list byte -> list byte.
Variable localPub : list byte.

Definition has_socket (c : relayConn) : Prop := exists w, rc_ws c = Some w /\ ws_closed w = false.

Definition alive_ok (c : relayConn) : Prop :=
  rc_state c = IrohRelayAlive -> has_socket c /\ rc_pubkey c = localPub.

(** The websocket [Dial] returns is open. *)
Definition attempt_ok (a : attempt) : Prop := from_option (fun w => ws_closed w = false) True (at_dial a).

Lemma write_ws_keeps msg c : wlp (write_ws msg) (fun _ c' => exists w, c' = c <| rc_ws := w |> /\ (has_socket c -> has_socket c')) c.
Proof.
  unfold wlp, write_ws, bind, gets. destruct c as [pub st ws cr stp rec lo lr ps pp lp pc tx rx fc]. cbn.
  destruct ws as [w|]; [|by exists None].
  destruct w as [o f cl]. unfold ws_WriteMessage, set_ws, modify, ret. cbn.
  destruct cl; [by eexists|]. destruct (default false (head f)); eexists; (split; [done|]); intros _; by eexists.
Qed.

Lemma write_ws_alive msg c : alive_ok c -> wlp (write_ws msg) (fun _ => alive_ok) c.
Proof.
  intros Hc. eapply wlp_mono; [apply write_ws_keeps|]. intros ? c' (w & -> & Hs) Ha. destruct (Hc Ha). auto.
Qed.

Lemma shutdown_alive c : wlp shutdown (fun _ => alive_ok) c.
Proof. done. Qed.

(** A computation that only looks at the state. *)
Definition reads_only {A} (m : M relayConn A) : Prop := forall c a c', m c = Ok (a, c') -> c' = c.

Lemma wlp_reads_only {A} (m : M relayConn A) (P : relayConn -> Prop) c : reads_only m -> P c -> wlp m (fun _ => P) c.
Proof. intros Hm HP. unfold wlp. destruct (m c) as [[a c']|] eqn:E; [|done]. by rewrite (Hm _ _ _ E). Qed.

Lemma denial_reason_reads msg slack : reads_only (denial_reason msg slack).
Proof. intros c a c'. unfold denial_reason. destruct (consumeLEB128 _) as [[]|]; [case_match; [|done]|]; by intros [= _ <-]. Qed.

Lemma auth_response_reads r : reads_only (auth_response r).
Proof.
  unfold auth_response. intros c a c'. destruct r as [[[|b msg] slack]|]; try (by intros [= _ <-]).
  cbv zeta. case_match; [by intros [= _ <-]|]. case_match; [|by intros [= _ <-]].
  unfold bind. destruct (denial_reason (b :: msg) slack c) as [[e c1]|] eqn:E; [|done].
  apply denial_reason_reads in E as ->. by intros [= _ <-].
Qed.

Lemma handshake_socket ch r c : has_socket c -> wlp (handshake derive_key sign localPub ch r) (fun _ => has_socket) c.
Proof.
  intros Hc. unfold handshake. destruct ch as [[|b msg]|]; [done| |done].
  case_match; [done|]. apply wlp_bind, wlp_ret. case_match; [done|].
  apply wlp_bind. unfold wlp at 1, lift. destruct (client_auth _ _ _ _) as [auth|]; [|done].
  apply wlp_bind. eapply wlp_mono; [apply write_ws_keeps|]. intros ok c' (w & _ & Hs).
  destruct ok; cbn [negb]; [|by apply Hs]. apply wlp_reads_only; [apply auth_response_reads|by apply Hs].
Qed.

Lemma connect_alive a c : attempt_ok a -> wlp (connect derive_key sign localPub a) (fun _ => alive_ok) c.
Proof.
  intros Ha. unfold connect. do 2 apply wlp_bind, wlp_modify. unfold attempt_ok in Ha.
  destruct (at_dial a) as [w|]; [|by apply wlp_bind, wlp_modify, wlp_ret]. cbn in Ha.
  do 2 apply wlp_bind, wlp_modify. apply wlp_bind.
  eapply wlp_mono; [apply handshake_socket; by exists w|]. intros [e|] c' Hs; cbn beta iota.
  - by do 2 apply wlp_bind, wlp_modify.
  - do 2 apply wlp_bind, wlp_modify. apply wlp_ret. intros _. by split.
Qed.

Lemma backoff_alive attempts b c : Forall (fun x => attempt_ok x.1) attempts -> alive_ok c ->
  wlp (backoff_loop derive_key sign localPub attempts b) (fun _ => alive_ok) c.
Proof.
  intros Hat. revert b c. induction Hat as [|[a stopping] attempts Ha Hat IH]; intros b c Hc; [done|]. cbn [backoff_loop].
  apply wlp_bind. eapply wlp_mono; [by apply connect_alive|]. intros ? c1 Hc1. apply wlp_bind, wlp_gets.
  case_bool_decide; [done|]. destruct stopping; [done|].
  apply wlp_bind. eapply wlp_mono; [by apply IH|]. by intros ? c2 Hc2.
Qed.

Lemma turn_alive attempts ev c : Forall (fun x => attempt_ok x.1) attempts -> alive_ok c ->
  wlp (runLoop_turn derive_key sign localPub attempts ev) (fun _ => alive_ok) c.
Proof.
  intros Hat Hc. unfold runLoop_turn. apply wlp_bind, wlp_gets. case_match.
  - apply wlp_bind, wlp_bind, wlp_modify, wlp_modify, wlp_bind, wlp_gets. case_match; [done|].
    apply wlp_bind. eapply wlp_mono; [by apply backoff_alive|]. by intros ? c2 Hc2.
  - destruct ev as [| |now]; [done|done|]. apply wlp_bind. unfold keepalive_tick.
    apply wlp_bind. unfold wlp at 1, get. case_match; [done|]. case_match; [done|].
    apply wlp_bind, wlp_modify, wlp_bind. eapply wlp_mono; [by apply write_ws_alive|].
    intros ok c1 Hc1. by destruct ok.
Qed.

Lemma read_alive now msg c : alive_ok c -> wlp (readLoop_turn now msg) (fun _ => alive_ok) c.
Proof.
  intros Hc. unfold readLoop_turn. apply wlp_bind. unfold wlp at 1, get. case_match; [done|].
  case_match; [|done]. destruct msg as [msg|]; [|done]. destruct (len msg =? 0); [done|].
  apply wlp_bind, wlp_modify, wlp_bind, wlp_at_index. intros b _. apply wlp_bind, wlp_cut_from.
  case_match; [apply wlp_bind; eapply wlp_mono; [by apply write_ws_alive|done]|].
  case_match.
  { apply wlp_bind. destruct (8 <=? _); [|done]. cbn [when]. apply wlp_bind, wlp_bind, wlp_cut_to, wlp_modify, wlp_modify.
    by case_match. }
  case_match; [done|]. case_match.
  { case_match; [|done]. by apply wlp_bind, wlp_cut_to. }
  case_match.
  { apply wlp_bind. destruct (8 <=? _); [|done]. cbn [when].
    by apply wlp_bind, wlp_cut_to, wlp_bind, wlp_cut_to, wlp_bind, wlp_cut_from. }
  case_match; [|done]. apply wlp_bind. destruct (1 <=? _); [|done]. cbn [when].
  apply wlp_bind, wlp_at_index. by intros.
Qed.

Inductive relay_step (c : relayConn) : relayConn -> Prop :=
  | relay_step_turn attempts ev b c' : Forall (fun x => attempt_ok x.1) attempts ->
      runLoop_turn derive_key sign localPub attempts ev c = Ok (b, c') -> relay_step c c'
  | relay_step_read now msg r c' : readLoop_turn now msg c = Ok (r, c') -> relay_step c c'
  | relay_step_send remote payload ok c' : sendDatagram remote payload c = Ok (ok, c') -> relay_step c c'
  | relay_step_stop c' : stop c = Ok ((), c') -> relay_step c c'.

(** A connection in the state alive has an open websocket on which the pool
    has authenticated, whatever attempts, frames, sends and stops it has seen. *)
Theorem relay_alive_open now c : reachable (eq (newRelayConn now)) relay_step c -> alive_ok c.
Proof.
  apply reachable_invariant; [by intros ? <-|]. intros s s' Hs Hst. destruct Hst as [??????| | |? E].
  - by eapply (wlp_run _ (fun _ => alive_ok)); [|by apply turn_alive].
  - by eapply (wlp_run _ (fun _ => alive_ok)); [|by apply read_alive].
  - by eapply (wlp_run _ (fun _ => alive_ok)); [|by apply write_ws_alive].
  - unfold stop, bind, get in E. destruct (rc_stopped s); [done|]. injection E as <-. exact Hs.
Qed.
End alive.

Lemma relay_alive_open_witness : exists c,
  reachable (eq (newRelayConn 0)) (relay_step (fun _ => []) (fun _ => []) []) c /\
  rc_state c = IrohRelayAlive /\ has_socket c.
Proof.
  set (a := mkAttempt (Some example_ws) (Some (replicate 17 Byte.x00)) (Some ([Byte.x02], [])) 5).
  assert (exists b c, runLoop_turn (fun _ => []) (fun _ => []) [] [(a, false)] EvStop (newRelayConn 0) = Ok (b, c) /\
    rc_state c = IrohRelayAlive) as (b & c & E & Hs) by (vm_compute; eauto).
  assert (reachable (eq (newRelayConn 0)) (relay_step (fun _ => []) (fun _ => []) []) c) as Hr.
  { eapply reach_step; [by apply reach_init|]. eapply relay_step_turn; [|exact E]. by repeat constructor. }
  exists c. split; [done|]. split; [done|]. by apply (relay_alive_open (fun _ => []) (fun _ => []) [] 0 c Hr).
Defined.
