(* ===== verification/IrohPool.v ===== *)
(** The streams multiplexed over iroh relays (src/p2put/irohrelay.go):
    [IrohRelayStream], [peerStreamManager] and [IrohRelayPool].

    A stream object is shared by the table of its peer, the accept channel and
    the application: streams live in a store and are named by their index.
    Each method is one step; the goroutine that sends a RESET for a refused
    stream is a queue of pending resets, served by a step of its own.  What a
    relay server does with a datagram is a parameter where it matters. *)

From stdpp Require Import gmap strings.
From S2P Require Import Prelude GoLib IrohCodec IrohConn.

(** ** Data *)

Record irohStream := mkIrohStream {
  st_id : Z;
  st_remote : list byte;
  st_rxBuf : list byte;
  st_closed : bool;
  st_reset : bool;
}.

#[global] Instance irohStream_eta : Eta irohStream := fun s =>
  mkIrohStream (st_id s) (st_remote s) (st_rxBuf s) (st_closed s) (st_reset s).

Record peerStreamManager := mkMgr {
  pm_oddBit : Z;
  pm_nextID : Z;
  pm_streams : gmap Z nat;
}.

#[global] Instance peerStreamManager_eta : Eta peerStreamManager := fun m =>
  mkMgr (pm_oddBit m) (pm_nextID m) (pm_streams m).

Record IrohRelayPool := mkIrohPool {
  ip_relays : gmap string relayConn;
  ip_started : bool;
  ip_localPub : list byte;
  ip_acceptCh : option (list nat);        (* nil before the first Start; capacity 64 *)
  ip_pmap : gmap (list byte) peerStreamManager;
  ip_store : list irohStream;
  ip_resets : list (list byte * Z);       (* goroutines about to send a RESET *)
}.

#[global] Instance IrohRelayPool_eta : Eta IrohRelayPool := fun p => mkIrohPool
  (ip_relays p) (ip_started p) (ip_localPub p) (ip_acceptCh p) (ip_pmap p) (ip_store p) (ip_resets p).

Definition NewIrohRelayPool : IrohRelayPool :=
  mkIrohPool ∅ false (replicate 32 Byte.x00) None ∅ [] [].

(** ** The store *)

Definition stream_at (r : nat) : M IrohRelayPool irohStream := deref (fun p => ip_store p !! r).

Definition set_stream (r : nat) (s : irohStream) : M IrohRelayPool () :=
  modify (fun p => p <| ip_store := <[r := s]> (ip_store p) |>).

Definition newStream (id : Z) (remote : list byte) : M IrohRelayPool nat :=
  p <- get ;;
  modify (fun p => p <| ip_store := ip_store p ++ [mkIrohStream id remote [] false false] |>) ;;
  ret (length (ip_store p)).

Definition set_mgr (remote : list byte) (m : peerStreamManager) : M IrohRelayPool () :=
  modify (fun p => p <| ip_pmap := <[remote := m]> (ip_pmap p) |>).

(** ** Peers *)

(** [bytes.Compare(a, b) < 0]. *)
Fixpoint bytes_less (a b : list byte) : bool :=
  match a, b with
  | _, [] => false
  | [], _ :: _ => true
  | x :: a, y :: b =>
      if Z_of_byte x <? Z_of_byte y then true
      else if Z_of_byte y <? Z_of_byte x then false
      else bytes_less a b
  end.

Definition newPeerStreamManager (localPub remotePub : list byte) : peerStreamManager :=
  mkMgr (if bytes_less localPub remotePub then 1 else 0) streamIDBase ∅.

Definition allocID (m : peerStreamManager) : Z * peerStreamManager :=
  let n := wrap64 (pm_nextID m + 2) in
  let id := wrap64 (n - 2) in
  (Z.lor id (pm_oddBit m), m <| pm_nextID := n |>).

(** The manager of a peer, made on first use. *)
Definition peer_manager (remote : list byte) : M IrohRelayPool peerStreamManager :=
  p <- get ;;
  match ip_pmap p !! remote with
  | Some m => ret m
  | None =>
      let m := newPeerStreamManager (ip_localPub p) remote in
      set_mgr remote m ;; ret m
  end.

Definition removeStream (remote : list byte) (sid : Z) : M IrohRelayPool () :=
  p <- get ;;
  match ip_pmap p !! remote with
  | Some m => set_mgr remote (m <| pm_streams := delete sid (pm_streams m) |>)
  | None => ret ()
  end.

(** ** Streams: what arrives *)

Definition stream_dispatch (r : nat) (flags : Z) (data : list byte) : M IrohRelayPool () :=
  s <- stream_at r ;;
  if flags =? flagRESET then set_stream r (s <| st_reset := true |> <| st_rxBuf := [] |>)
  else if flags =? flagCLOSE then set_stream r (s <| st_closed := true |>)
  else if flags =? flagDATA then set_stream r (s <| st_rxBuf := st_rxBuf s ++ data |>)
  else ret ().

(** A stream that the peer opened: it goes to the accept channel, or is refused
    when the channel is full. *)
Definition refuse (remote : list byte) (sid : Z) : M IrohRelayPool () :=
  removeStream remote sid ;; modify (fun p => p <| ip_resets := ip_resets p ++ [(remote, sid)] |>).

Definition accept_new (remote : list byte) (sid : Z) (m : peerStreamManager) : M IrohRelayPool () :=
  r <- newStream sid remote ;;
  set_mgr remote (m <| pm_streams := <[sid := r]> (pm_streams m) |>) ;;
  p <- get ;;
  match ip_acceptCh p with
  | Some q => if len q <? 64 then modify (fun p => p <| ip_acceptCh := Some (q ++ [r]) |>) else refuse remote sid
  | None => refuse remote sid
  end.

Definition mgr_dispatch (remote : list byte) (sid flags : Z) (data : list byte) : M IrohRelayPool () :=
  m <- peer_manager remote ;;
  match pm_streams m !! sid with
  | Some r => stream_dispatch r flags data
  | None => if negb (flags =? flagDATA) then ret () else accept_new remote sid m
  end.

Definition dispatchStreamFrame (src : list byte) (sid flags : Z) (data : list byte) : M IrohRelayPool () :=
  mgr_dispatch src sid flags data.

Definition handleRecvDatagram (body : list byte) : M IrohRelayPool () :=
  r <- parse_datagram body ;;
  match r with
  | None => ret ()
  | Some (src, sid, flags, data) => dispatchStreamFrame src sid flags data
  end.

(** The peer's table is dropped, then each of its streams is reset. *)
Fixpoint reset_all (rs : list nat) : M IrohRelayPool () :=
  match rs with
  | [] => ret ()
  | r :: rs => stream_dispatch r flagRESET [] ;; reset_all rs
  end.

Definition peerGone (pub : list byte) : M IrohRelayPool () :=
  p <- get ;;
  match ip_pmap p !! pub with
  | None => ret ()
  | Some m =>
      modify (fun p => p <| ip_pmap := delete pub (ip_pmap p) |>) ;;
      reset_all (map_to_list (pm_streams m)).*2
  end.

(** ** Sending *)

(** Runs a method of the connection [url]. *)
Definition on_relay {A} (url : string) (m : M relayConn A) : M IrohRelayPool A :=
  c <- deref (fun p => ip_relays p !! url) ;;
  ' (a, c) <- lift (m c) ;;
  modify (fun p => p <| ip_relays := <[url := c]> (ip_relays p) |>) ;;
  ret a.

Section order.
Context `{Ord : MapOrder}.

Definition first_alive (l : list (string * relayConn)) : option string :=
  fst <$> head (filter (fun e => rc_state e.2 = IrohRelayAlive) l).

(** [false] is an error. *)
Definition sendTo (remotePub frame : list byte) : M IrohRelayPool bool :=
  p <- get ;;
  match first_alive (map_range (ip_relays p)) with
  | None => ret false
  | Some url =>
      ok <- on_relay url (sendDatagram remotePub frame) ;;
      if negb ok then ret false
      else
        on_relay url (modify (fun c => c <| rc_txBytes := int64 (rc_txBytes c + len frame) |>)) ;;
        ret true
  end.

Definition sendRESET (remotePub : list byte) (sid : Z) : M IrohRelayPool () :=
  sendTo remotePub (stream_frame sid flagRESET []) ;; ret ().

(** A pending goroutine runs. *)
Definition run_reset : M IrohRelayPool () :=
  p <- get ;;
  match ip_resets p with
  | [] => ret ()
  | (remote, sid) :: rs => modify (fun p => p <| ip_resets := rs |>) ;; sendRESET remote sid
  end.

(** ** Streams: the calls of the application *)

Inductive read_result := StreamData (data : list byte) | StreamEOF | StreamErrClosed | StreamWait.

(** With a buffer of [n] bytes; [StreamWait] where the call blocks. *)
Definition Stream_Read (r : nat) (n : Z) : M IrohRelayPool read_result :=
  s <- stream_at r ;;
  if len (st_rxBuf s) =? 0 then
    ret (if st_reset s then StreamErrClosed else if st_closed s then StreamEOF else StreamWait)
  else
    set_stream r (s <| st_rxBuf := dropZ n (st_rxBuf s) |>) ;;
    ret (StreamData (takeZ n (st_rxBuf s))).

(** The loop of [Write]; the number of bytes written and whether all were. *)
Fixpoint write_chunks (fuel : nat) (s : irohStream) (total : Z) (b : list byte) : M IrohRelayPool (Z * bool) :=
  match fuel with
  | O => panic
  | S fuel =>
      if negb (0 <? len b) then ret (total, true)
      else
        let chunk := if maxDatagramPayload <? len b then takeZ maxDatagramPayload b else b in
        ok <- sendTo (st_remote s) (stream_frame (st_id s) flagDATA chunk) ;;
        if negb ok then ret (total - len b, false)
        else write_chunks fuel s total (dropZ (len chunk) b)
  end.

Definition Stream_Write (r : nat) (b : list byte) : M IrohRelayPool (Z * bool) :=
  s <- stream_at r ;; write_chunks (S (length b)) s (len b) b.

(** [false] is [net.ErrClosed]. *)
Definition Stream_Close (r : nat) : M IrohRelayPool bool :=
  s <- stream_at r ;;
  if st_closed s then ret false
  else
    set_stream r (s <| st_closed := true |>) ;;
    sendTo (st_remote s) (stream_frame (st_id s) flagCLOSE []) ;;
    removeStream (st_remote s) (st_id s) ;;
    ret true.

Definition Stream_Reset (r : nat) : M IrohRelayPool () :=
  s <- stream_at r ;;
  set_stream r (s <| st_reset := true |> <| st_rxBuf := [] |>) ;;
  sendTo (st_remote s) (stream_frame (st_id s) flagRESET []) ;;
  removeStream (st_remote s) (st_id s).

(** ** The pool *)

Definition OpenStream (remotePub : list byte) : M IrohRelayPool nat :=
  m <- peer_manager remotePub ;;
  let '(sid, m) := allocID m in
  set_mgr remotePub m ;;
  r <- newStream sid remotePub ;;
  set_mgr remotePub (m <| pm_streams := <[sid := r]> (pm_streams m) |>) ;;
  ret r.

(** [None] where the call waits. *)
Definition AcceptStream : M IrohRelayPool (option nat) :=
  p <- get ;;
  match ip_acceptCh p with
  | Some (r :: q) => modify (fun p => p <| ip_acceptCh := Some q |>) ;; ret (Some r)
  | _ => ret None
  end.

(** [key] is the public key of the key ring, [None] when it cannot be loaded;
    [false] is an error. *)
Definition Start (key : option (list byte)) : M IrohRelayPool bool :=
  p <- get ;;
  if ip_started p then ret true
  else
    modify (fun p => p <| ip_started := true |> <| ip_acceptCh := Some [] |>) ;;
    match key with
    | None => modify (fun p => p <| ip_started := false |>) ;; ret false
    | Some pub =>
        modify (fun p => p <| ip_localPub := pub |> <| ip_relays := start <$> ip_relays p |>) ;;
        ret true
    end.

(** Stops the relays one after the other; a relay stopped before panics. *)
Fixpoint stop_all (urls : list string) : M IrohRelayPool () :=
  match urls with
  | [] => ret ()
  | url :: urls => on_relay url stop ;; stop_all urls
  end.

Definition Stop : M IrohRelayPool () :=
  p <- get ;;
  if negb (ip_started p) then ret ()
  else
    modify (fun p => p <| ip_started := false |>) ;;
    stop_all (map_range (ip_relays p)).*1.

(** [false] is an error. *)
Definition AddRelay (now : Z) (url : string) : M IrohRelayPool bool :=
  p <- get ;;
  match ip_relays p !! url with
  | Some _ => ret false
  | None =>
      let c := newRelayConn now in
      modify (fun p => p <| ip_relays := <[url := if ip_started p then start c else c]> (ip_relays p) |>) ;;
      ret true
  end.

Definition RemoveRelay (url : string) : M IrohRelayPool () :=
  p <- get ;;
  match ip_relays p !! url with
  | Some _ => on_relay url stop ;; modify (fun p => p <| ip_relays := delete url (ip_relays p) |>)
  | None => ret ()
  end.

Record IrohRelayStats := mkIrohStats {
  is_URL : string; is_State : IrohRelayState; is_Uptime : Z; is_Pubkey : list byte;
  is_TxBytes : Z; is_RxBytes : Z; is_FailCount : Z;
}.

Definition ListStats (now : Z) (p : IrohRelayPool) : list IrohRelayStats :=
  (fun e => mkIrohStats e.1 (rc_state e.2) (time_sub now (rc_createdAt e.2)) (rc_pubkey e.2)
              (rc_txBytes e.2) (rc_rxBytes e.2) (rc_failCount e.2)) <$> map_range (ip_relays p).
End order.

(** A message of the server of [url], as [readLoop] takes it; [false] when the
    loop returns. *)
Definition relay_message (url : string) (now : Z) (msg : option (list byte)) : M IrohRelayPool bool :=
  a <- on_relay url (readLoop_turn now msg) ;;
  match a with
  | RdContinue => ret true
  | RdExit => ret false
  | RdDatagram body => handleRecvDatagram body ;; ret true
  | RdGone pub => peerGone pub ;; ret true
  end.
