(* ===== verification/IrohProps.v ===== *)
(** What the iroh stream multiplexer guarantees: stream numbers, the tables of a
    pool under any calls and any messages, and the delivery of written data. *)

From stdpp Require Import gmap strings.
From S2P Require Import Prelude GoLib IrohCodec IrohConn IrohPool.

(** ** Stream numbers *)

(** The numbers of the next [n] streams a manager opens. *)
Fixpoint alloc_ids (n : nat) (m : peerStreamManager) : list Z :=
  match n with
  | O => []
  | S n => let '(id, m) := allocID m in id :: alloc_ids n m
  end.

Lemma lor_bit k b : (b = 0 \/ b = 1) -> Z.lor (2 * k) b = 2 * k + b.
Proof.
  intros Hb. rewrite Z.lor_comm. replace (2 * k) with (Z.shiftl k 1) at 1 by (rewrite Z.shiftl_mul_pow2 by lia; lia).
  rewrite lor_add_low by lia. lia.
Qed.

Lemma alloc_ids_spec n b k streams : (b = 0 \/ b = 1) -> 0 <= k -> 2 * (k + Z.of_nat n) < 2 ^ 64 ->
  alloc_ids n (mkMgr b (2 * k) streams) = (fun i => 2 * (k + Z.of_nat i) + b) <$> seq 0 n.
Proof.
  intros Hb. revert k. induction n as [|n IH]; intros k Hk Hn; [done|]. cbn [alloc_ids allocID pm_oddBit pm_nextID].
  unfold wrap64.
  rewrite (Z.mod_small (2 * k + 2)) by lia. replace (2 * k + 2 - 2) with (2 * k) by lia.
  rewrite (Z.mod_small (2 * k)) by lia. rewrite lor_bit by done. cbn [seq fmap list_fmap]. f_equal; [lia|].
  change (set_field (proj := pm_nextID) (2 * k + 2) (mkMgr b (2 * k) streams)) with (mkMgr b (2 * k + 2) streams).
  replace (2 * k + 2) with (2 * (k + 1)) by lia. rewrite IH by lia.
  rewrite <- seq_shift, <- list_fmap_compose. apply list_fmap_ext. intros i x _. cbn. lia.
Qed.

Lemma bytes_less_antisym a b : length a = length b -> a <> b -> bytes_less a b = negb (bytes_less b a).
Proof.
  revert b. induction a as [|x a IH]; intros [|y b] Hl Hab; try done. cbn [bytes_less]. cbn in Hl.
  destruct (Z.ltb_spec (Z_of_byte x) (Z_of_byte y)), (Z.ltb_spec (Z_of_byte y) (Z_of_byte x)); try lia; try done.
  assert (x = y) as -> by (apply Z_of_byte_inj; lia). apply IH; [lia|congruence].
Qed.

(** The stream numbers that two peers give to the streams they open to each
    other never clash: all numbers allocated on both sides are distinct, as
    long as the 64-bit counter does not wrap. *)
Theorem iroh_ids_unique a b n k : length a = length b -> a <> b ->
  streamIDBase + 2 * Z.of_nat n < 2 ^ 64 -> streamIDBase + 2 * Z.of_nat k < 2 ^ 64 ->
  NoDup (alloc_ids n (newPeerStreamManager a b) ++ alloc_ids k (newPeerStreamManager b a)).
Proof.
  unfold streamIDBase. intros Hl Hab Hn Hk. unfold newPeerStreamManager. rewrite (bytes_less_antisym a b) by done.
  assert (forall n b k, NoDup ((fun i => 2 * (k + Z.of_nat i) + b) <$> seq 0 n)) as Hnd.
  { intros n0 b0 k0. apply NoDup_fmap_2; [intros i j; lia|apply NoDup_seq]. }
  change streamIDBase with (2 * 500). destruct (bytes_less b a); cbn [negb];
    rewrite !alloc_ids_spec by (lia || auto); (apply NoDup_app; split_and!; [apply Hnd| |apply Hnd]);
    intros x Hx Hy; apply list_elem_of_fmap in Hx as (i & -> & _), Hy as (j & Hj & _); lia.
Qed.

Lemma iroh_ids_unique_witness :
  NoDup (alloc_ids 3 (newPeerStreamManager [Byte.x01] [Byte.x02]) ++
         alloc_ids 2 (newPeerStreamManager [Byte.x02] [Byte.x01])).
Proof. apply (iroh_ids_unique [Byte.x01] [Byte.x02] 3 2); [done|done|vm_compute; done|vm_compute; done]. Defined.

(** ** The tables of a pool *)

(** Every entry of a peer's table is the stream with its number and peer. *)
Definition filed (p : IrohRelayPool) (remote : list byte) (sid : Z) (r : nat) : Prop :=
  exists s, ip_store p !! r = Some s /\ st_id s = sid /\ st_remote s = remote.

Record pool_ok (p : IrohRelayPool) : Prop := {
  po_filed : forall remote m sid r, ip_pmap p !! remote = Some m -> pm_streams m !! sid = Some r -> filed p remote sid r;
  po_accept : forall q, ip_acceptCh p = Some q -> len q <= 64 /\ Forall (fun r => r < length (ip_store p))%nat q;
}.

(** What an update of the pool's connections, of one stream's data, or of the
    pending resets cannot break. *)
Lemma pool_ok_relays p rel : pool_ok p -> pool_ok (p <| ip_relays := rel |>).
Proof. intros [Hf Ha]. by split. Qed.

Lemma filed_insert p r s s' remote sid r' : ip_store p !! r = Some s -> st_id s' = st_id s -> st_remote s' = st_remote s ->
  filed p remote sid r' -> filed (p <| ip_store := <[r := s']> (ip_store p) |>) remote sid r'.
Proof.
  intros Hs Hi Hr (s1 & Hs1 & <- & <-). unfold filed. cbn. destruct (decide (r = r')) as [->|].
  - exists s'. rewrite list_lookup_insert_eq by (by eapply lookup_lt_Some). split_and!; [done|congruence|congruence].
  - exists s1. by rewrite list_lookup_insert_ne by done.
Qed.

Lemma pool_ok_stream p r s s' : ip_store p !! r = Some s -> st_id s' = st_id s -> st_remote s' = st_remote s ->
  pool_ok p -> pool_ok (p <| ip_store := <[r := s']> (ip_store p) |>).
Proof.
  intros Hs Hi Hr [Hf Ha]. split; cbn.
  - intros remote m sid r' Hm Hsid. apply (filed_insert p r s s'); eauto.
  - intros q Hq. rewrite length_insert. by apply Ha.
Qed.

Lemma pool_ok_new p id remote :
  pool_ok p -> pool_ok (p <| ip_store := ip_store p ++ [mkIrohStream id remote [] false false] |>).
Proof.
  intros [Hf Ha]. split; cbn.
  - intros remote' m sid r Hm Hsid. destruct (Hf _ _ _ _ Hm Hsid) as (s & Hs & ?). exists s.
    split; [|done]. cbn. by apply lookup_app_l_Some.
  - intros q Hq. destruct (Ha q Hq) as [? Hall]. split; [done|]. eapply Forall_impl; [exact Hall|].
    intros r Hr. cbn in *. rewrite length_app. cbn. lia.
Qed.

(** A table of a peer may be replaced by one whose entries are filed. *)
Lemma pool_ok_mgr p remote m : (forall sid r, pm_streams m !! sid = Some r -> filed p remote sid r) ->
  pool_ok p -> pool_ok (p <| ip_pmap := <[remote := m]> (ip_pmap p) |>).
Proof.
  intros Hm [Hf Ha]. split; cbn; [|done]. intros remote' m' sid r. destruct (decide (remote = remote')) as [->|].
  - rewrite lookup_insert_eq. intros [= <-] Hr. by apply Hm.
  - rewrite lookup_insert_ne by done. apply Hf.
Qed.

Lemma pool_ok_resets p rs : pool_ok p -> pool_ok (p <| ip_resets := rs |>).
Proof. intros [Hf Ha]. by split. Qed.

Lemma stream_dispatch_ok r flags data p : pool_ok p -> (r < length (ip_store p))%nat ->
  wp (stream_dispatch r flags data)
     (fun _ p' => pool_ok p' /\ ip_pmap p' = ip_pmap p /\ length (ip_store p') = length (ip_store p)) p.
Proof.
  intros Hp Hr. destruct (lookup_lt_is_Some_2 _ _ Hr) as [s Hs]. unfold stream_dispatch.
  apply wp_bind, (wp_deref _ _ _ s); [done|]. repeat case_match; (apply wp_modify || apply wp_ret); try done.
  all: split; [by eapply pool_ok_stream|cbn; by rewrite length_insert].
Qed.

Lemma removeStream_ok remote sid p : pool_ok p -> wp (removeStream remote sid) (fun _ p' => pool_ok p') p.
Proof.
  intros Hp. unfold removeStream. apply wp_bind, wp_get. destruct (ip_pmap p !! remote) as [m|] eqn:E; [|done].
  apply wp_modify, pool_ok_mgr; [|done]. cbn. intros sid' r [_ Hr]%lookup_delete_Some. by eapply po_filed.
Qed.

Lemma peer_manager_ok remote p : pool_ok p ->
  wp (peer_manager remote) (fun m p' => pool_ok p' /\ ip_pmap p' !! remote = Some m /\ ip_store p' = ip_store p /\
    ip_acceptCh p' = ip_acceptCh p /\
    m = default (newPeerStreamManager (ip_localPub p) remote) (ip_pmap p !! remote)) p.
Proof.
  intros Hp. unfold peer_manager. apply wp_bind, wp_get. destruct (ip_pmap p !! remote) as [m|] eqn:E.
  - by apply wp_ret.
  - apply wp_bind, wp_modify, wp_ret. cbn. rewrite lookup_insert_eq. split_and!; try done.
    apply pool_ok_mgr; [|done]. by intros sid r [=].
Qed.

(** A new stream is put into the table of its peer. *)
Lemma register_ok remote sid m m' p : pool_ok p -> ip_pmap p !! remote = Some m ->
  pm_streams m' = <[sid := length (ip_store p)]> (pm_streams m) ->
  pool_ok (p <| ip_store := ip_store p ++ [mkIrohStream sid remote [] false false] |>
             <| ip_pmap := <[remote := m']> (ip_pmap p) |>).
Proof.
  intros Hp Hm Em. pose proof (pool_ok_new p sid remote Hp) as Hn.
  pose proof (pool_ok_mgr (p <| ip_store := ip_store p ++ [mkIrohStream sid remote [] false false] |>) remote m') as Hq. cbn in Hq. apply Hq; [clear Hq|done].
  intros sid' r. rewrite Em. destruct (decide (sid = sid')) as [->|].
  - rewrite lookup_insert_eq. intros [= <-]. eexists. cbn. by rewrite lookup_app_r, Nat.sub_diag by done.
  - rewrite lookup_insert_ne by done. intros Hr. by eapply (po_filed _ Hn).
Qed.

Lemma refuse_ok remote sid p : pool_ok p ->
  wp (refuse remote sid) (fun _ p' => pool_ok p') p.
Proof.
  intros Hp. apply wp_bind. eapply wp_mono; [by apply removeStream_ok|]. intros ? p' Hp'. by apply wp_modify, pool_ok_resets.
Qed.

Lemma mgr_dispatch_ok remote sid flags data p : pool_ok p ->
  wp (mgr_dispatch remote sid flags data) (fun _ p' => pool_ok p') p.
Proof.
  intros Hp. unfold mgr_dispatch. apply wp_bind. eapply wp_mono; [by apply peer_manager_ok|].
  intros m p1 (Hp1 & Hm & _). destruct (pm_streams m !! sid) as [r|] eqn:Er.
  - destruct (po_filed _ Hp1 _ _ _ _ Hm Er) as (s & Hs & _).
    eapply wp_mono; [apply stream_dispatch_ok; [done|by eapply lookup_lt_Some]|]. by intros ? ? [].
  - case_match; [done|]. unfold accept_new. apply wp_bind. unfold newStream. apply wp_bind, wp_get, wp_bind, wp_modify, wp_ret.
    apply wp_bind, wp_modify, wp_bind, wp_get.
    pose proof (register_ok remote sid m (m <| pm_streams := <[sid := length (ip_store p1)]> (pm_streams m) |>) p1 Hp1 Hm eq_refl) as Hn.
    cbn. destruct (ip_acceptCh p1) as [q|] eqn:Eq; [|by apply refuse_ok].
    case_match; zbool; [|by apply refuse_ok]. apply wp_modify. destruct Hn as [Hf Ha]. split; [exact Hf|].
    cbn. intros q' [= <-]. destruct (Ha q Eq) as [_ Hall]. rewrite length_app. cbn. split; [lia|].
    apply Forall_app_2; [exact Hall|]. constructor; [|constructor]. cbn. rewrite length_app. cbn. lia.
Qed.

Lemma reset_all_ok rs p : pool_ok p -> Forall (fun r => r < length (ip_store p))%nat rs ->
  wp (reset_all rs) (fun _ p' => pool_ok p') p.
Proof.
  revert p. induction rs as [|r rs IH]; intros p Hp Hrs; [done|]. inversion Hrs; subst. cbn [reset_all].
  apply wp_bind. eapply wp_mono; [by apply stream_dispatch_ok|]. intros ? p' (Hp' & _ & Hl). apply IH; [done|].
  by rewrite Hl.
Qed.

Lemma peerGone_ok pub p : pool_ok p -> wp (peerGone pub) (fun _ p' => pool_ok p') p.
Proof.
  intros Hp. unfold peerGone. apply wp_bind, wp_get. destruct (ip_pmap p !! pub) as [m|] eqn:E; [|done].
  apply wp_bind, wp_modify, reset_all_ok.
  - destruct Hp as [Hf Ha]. split; [|done]. cbn. intros remote m' sid r [_ Hm]%lookup_delete_Some. by apply (Hf _ m').
  - apply Forall_forall. intros r ((sid & r') & -> & Hin)%list_elem_of_fmap. apply elem_of_map_to_list in Hin.
    destruct (po_filed _ Hp _ _ _ _ E Hin) as (s & Hs & _). by eapply lookup_lt_Some.
Qed.

(** ** Any calls, any messages *)

Lemma wp_wlp {S A} (m : M S A) Q s : wp m Q s -> wlp m Q s.
Proof. unfold wp, wlp. by destruct (m s) as [[]|]. Qed.

Lemma on_relay_only {A} url (m : M relayConn A) p :
  wlp (on_relay url m) (fun _ p' => exists rel, p' = p <| ip_relays := rel |>) p.
Proof.
  unfold on_relay. apply wlp_bind, wlp_deref. intros c Hc. apply wlp_bind. unfold wlp at 1, lift.
  destruct (m c) as [[a c']|]; [|done]. apply wlp_bind, wlp_modify, wlp_ret. by eexists.
Qed.

Lemma on_relay_ok {A} url (m : M relayConn A) p : pool_ok p -> wlp (on_relay url m) (fun _ p' => pool_ok p') p.
Proof. intros Hp. eapply wlp_mono; [apply on_relay_only|]. intros ? ? [rel ->]. by apply pool_ok_relays. Qed.

Section ops.
Context `{Ord : MapOrder}.

Lemma sendTo_only remote frame p : wlp (sendTo remote frame) (fun _ p' => exists rel, p' = p <| ip_relays := rel |>) p.
Proof.
  unfold sendTo. apply wlp_bind. unfold wlp at 1, get. destruct (first_alive _) as [url|].
  2: { apply wlp_ret. exists (ip_relays p). by destruct p. }
  apply wlp_bind. eapply wlp_mono; [apply on_relay_only|]. intros ok p1 [rel1 ->]. destruct ok; cbn [negb].
  - apply wlp_bind. eapply wlp_mono; [apply on_relay_only|]. intros ? p2 [rel2 ->]. apply wlp_ret. by exists rel2.
  - apply wlp_ret. by exists rel1.
Qed.

Lemma sendTo_ok remote frame p : pool_ok p -> wlp (sendTo remote frame) (fun _ p' => pool_ok p') p.
Proof. intros Hp. eapply wlp_mono; [apply sendTo_only|]. intros ? ? [rel ->]. by apply pool_ok_relays. Qed.

Lemma write_chunks_ok fuel s total b p : pool_ok p -> wlp (write_chunks fuel s total b) (fun _ p' => pool_ok p') p.
Proof.
  revert b p. induction fuel as [|fuel IH]; intros b p Hp; [done|]. cbn [write_chunks]. case_match; [done|].
  apply wlp_bind. eapply wlp_mono; [by apply sendTo_ok|]. intros ok p1 Hp1. destruct ok; [by apply IH|done].
Qed.

Lemma OpenStream_ok remote p : pool_ok p -> wlp (OpenStream remote) (fun _ p' => pool_ok p') p.
Proof.
  intros Hp. unfold OpenStream. apply wlp_bind. eapply wlp_mono; [by apply wp_wlp, peer_manager_ok|].
  intros m p1 (Hp1 & Hm & _). unfold allocID. apply wlp_bind, wlp_modify.
  set (m1 := m <| pm_nextID := _ |>). set (sid := Z.lor _ _).
  assert (pool_ok (p1 <| ip_pmap := <[remote := m1]> (ip_pmap p1) |>)) as Hp2.
  { apply pool_ok_mgr; [|done]. intros sid' r Hr. by eapply (po_filed _ Hp1 remote m). }
  apply wlp_bind. unfold newStream. apply wlp_bind. unfold wlp at 1, get. apply wlp_bind, wlp_modify, wlp_ret.
  apply wlp_bind, wlp_modify, wlp_ret.
  pose proof (register_ok remote sid m1 (m1 <| pm_streams := <[sid := length (ip_store p1)]> (pm_streams m1) |>) _ Hp2) as H.
  apply H; [cbn; by rewrite lookup_insert_eq|done].
Qed.

(** The calls a pool can see, the messages of its servers and the turns of its
    connections, each with its arguments. *)
Inductive pool_call :=
  | CallStart (key : option (list byte)) | CallStop
  | CallAddRelay (now : Z) (url : string) | CallRemoveRelay (url : string)
  | CallOpen (remote : list byte) | CallAccept
  | CallRead (r : nat) (n : Z) | CallWrite (r : nat) (b : list byte) | CallClose (r : nat) | CallReset (r : nat)
  | CallMessage (url : string) (now : Z) (msg : option (list byte))
  | CallRunReset
  | CallTurn (url : string) (turn : M relayConn bool).

Definition discard {A} (m : M IrohRelayPool A) : M IrohRelayPool () := m ;; ret ().

Definition call_exec (c : pool_call) : M IrohRelayPool () :=
  match c with
  | CallStart key => discard (Start key)
  | CallStop => Stop
  | CallAddRelay now url => discard (AddRelay now url)
  | CallRemoveRelay url => RemoveRelay url
  | CallOpen remote => discard (OpenStream remote)
  | CallAccept => discard AcceptStream
  | CallRead r n => discard (Stream_Read r n)
  | CallWrite r b => discard (Stream_Write r b)
  | CallClose r => discard (Stream_Close r)
  | CallReset r => Stream_Reset r
  | CallMessage url now msg => discard (relay_message url now msg)
  | CallRunReset => run_reset
  | CallTurn url turn => discard (on_relay url turn)
  end.

Definition pool_step (p p' : IrohRelayPool) : Prop := exists c, call_exec c p = Ok ((), p').

Lemma wlp_discard {A} (m : M IrohRelayPool A) (P : IrohRelayPool -> Prop) p :
  wlp m (fun _ => P) p -> wlp (discard m) (fun _ => P) p.
Proof. intros Hm. apply wlp_bind. by eapply wlp_mono. Qed.

Lemma relay_message_ok url now msg p : pool_ok p -> wlp (relay_message url now msg) (fun _ p' => pool_ok p') p.
Proof.
  intros Hp. unfold relay_message. apply wlp_bind. eapply wlp_mono; [by apply on_relay_ok|]. intros a p1 Hp1.
  destruct a as [| |body|pub]; [done|done| |].
  - apply wlp_bind. unfold handleRecvDatagram. apply wlp_bind.
    match goal with |- wlp _ _ ?p => destruct (parse_datagram_total body p) as [o Eo] end.
    unfold wlp at 1. rewrite Eo. destruct o as [[[[src sid] flags] data]|]; [|done].
    eapply wlp_mono; [by apply wp_wlp, mgr_dispatch_ok|]. done.
  - apply wlp_bind. eapply wlp_mono; [by apply wp_wlp, peerGone_ok|]. done.
Qed.

Lemma set_stream_ok r s f p (Q : IrohRelayPool -> Prop) : pool_ok p -> ip_store p !! r = Some s ->
  st_id (f s) = st_id s -> st_remote (f s) = st_remote s ->
  (forall p', pool_ok p' -> Q p') -> wlp (set_stream r (f s)) (fun _ => Q) p.
Proof. intros Hp Hs Hi Hr HQ. apply wlp_modify, HQ. by eapply pool_ok_stream. Qed.

Lemma Start_ok key p : pool_ok p -> wlp (Start key) (fun _ p' => pool_ok p') p.
Proof.
  intros [Hf Ha]. unfold Start. apply wlp_bind. unfold wlp at 1, get. case_match; [done|].
  apply wlp_bind, wlp_modify. destruct key; apply wlp_bind, wlp_modify, wlp_ret; (split; [done|]); cbn;
    by intros q [= <-].
Qed.

Lemma stop_all_ok urls p : pool_ok p -> wlp (stop_all urls) (fun _ p' => pool_ok p') p.
Proof.
  revert p. induction urls as [|url urls IH]; intros p Hp; [done|]. cbn [stop_all]. apply wlp_bind.
  eapply wlp_mono; [by apply on_relay_ok|]. intros ? p1 Hp1. by apply IH.
Qed.

Lemma AcceptStream_ok p : pool_ok p -> wlp AcceptStream (fun _ p' => pool_ok p') p.
Proof.
  intros Hp. pose proof Hp as [Hf Ha]. unfold AcceptStream. apply wlp_bind. unfold wlp at 1, get.
  destruct (ip_acceptCh p) as [[|r q]|] eqn:E; [done| |done]. apply wlp_bind, wlp_modify, wlp_ret.
  split; [done|]. cbn. intros q' [= <-]. destruct (Ha (r :: q) eq_refl) as [Hl Hall]. cbn in Hl. inversion Hall; subst.
  split; [lia|done].
Qed.

Lemma Close_ok r p : pool_ok p -> wlp (Stream_Close r) (fun _ p' => pool_ok p') p.
Proof.
  intros Hp. unfold Stream_Close. apply wlp_bind, wlp_deref. intros s Hs. case_match; [done|].
  apply wlp_bind. apply (set_stream_ok r s (fun s => s <| st_closed := true |>)); [done..|]. intros p1 Hp1.
  apply wlp_bind. eapply wlp_mono; [by apply sendTo_ok|]. intros ? p2 Hp2.
  apply wlp_bind. eapply wlp_mono; [by apply wp_wlp, removeStream_ok|]. done.
Qed.

Lemma Reset_ok r p : pool_ok p -> wlp (Stream_Reset r) (fun _ p' => pool_ok p') p.
Proof.
  intros Hp. unfold Stream_Reset. apply wlp_bind, wlp_deref. intros s Hs. apply wlp_bind.
  apply (set_stream_ok r s (fun s => s <| st_reset := true |> <| st_rxBuf := [] |>)); [done..|]. intros p1 Hp1.
  apply wlp_bind. eapply wlp_mono; [by apply sendTo_ok|]. intros ? p2 Hp2. by apply wp_wlp, removeStream_ok.
Qed.

Lemma call_exec_ok c p : pool_ok p -> wlp (call_exec c) (fun _ p' => pool_ok p') p.
Proof.
  intros Hp. destruct c; cbn [call_exec]; try apply wlp_discard.
  - by apply Start_ok.
  - unfold Stop. apply wlp_bind. unfold wlp at 1, get. case_match; [done|]. apply wlp_bind, wlp_modify.
    apply stop_all_ok. destruct Hp. by split.
  - unfold AddRelay. apply wlp_bind. unfold wlp at 1, get. case_match; [done|].
    apply wlp_bind, wlp_modify, wlp_ret. by apply pool_ok_relays.
  - unfold RemoveRelay. apply wlp_bind. unfold wlp at 1, get. case_match; [|done].
    apply wlp_bind. eapply wlp_mono; [by apply on_relay_ok|]. intros ? p1 Hp1. by apply wlp_modify, pool_ok_relays.
  - by apply OpenStream_ok.
  - by apply AcceptStream_ok.
  - unfold Stream_Read. apply wlp_bind, wlp_deref. intros s Hs. case_match; [done|]. apply wlp_bind.
    by apply (set_stream_ok r s (fun s => s <| st_rxBuf := dropZ n (st_rxBuf s) |>)).
  - unfold Stream_Write. apply wlp_bind, wlp_deref. intros s Hs. by apply write_chunks_ok.
  - by apply Close_ok.
  - by apply Reset_ok.
  - by apply relay_message_ok.
  - unfold run_reset. apply wlp_bind. unfold wlp at 1, get. destruct (ip_resets p) as [|[remote sid] rs]; [done|].
    apply wlp_bind, wlp_modify. unfold sendRESET. apply wlp_bind.
    eapply wlp_mono; [by apply sendTo_ok, pool_ok_resets|]. done.
  - by apply on_relay_ok.
Qed.

Lemma reachable_pool_ok p : reachable (eq NewIrohRelayPool) pool_step p -> pool_ok p.
Proof.
  apply reachable_invariant.
  - intros ? <-. by split.
  - intros s s' Hs [c Hc]. by eapply (wlp_run _ (fun _ => pool_ok)); [|by apply call_exec_ok].
Qed.

Lemma readLoop_turn_total now msg c : wp (readLoop_turn now msg) (fun _ _ => True) c.
Proof.
  unfold readLoop_turn. apply wp_bind, wp_get. case_match; [done|]. case_match; [|done].
  destruct msg as [msg|]; [|done]. destruct (Z.eqb_spec (len msg) 0); [done|].
  apply wp_bind, wp_modify, wp_bind, wp_at_index; [lia|]. intros b _. apply wp_bind, wp_cut_from; [lia|].
  case_match.
  { apply wp_bind. unfold sendPong, writeFrame.
    match goal with |- wp (write_ws ?m) _ ?c => destruct (write_ws_ok m c) as (ok & c' & E) end.
    unfold wp. by rewrite E. }
  case_match.
  { apply wp_bind. destruct (Z.leb_spec 8 (len (dropZ 1 msg))); [|done]. cbn [when].
    by apply wp_bind, wp_bind, wp_cut_to; [lia|]. }
  case_match; [done|]. case_match.
  { destruct (Z.leb_spec 32 (len (dropZ 1 msg))); [|done]. by apply wp_bind, wp_cut_to; [lia|]. }
  case_match.
  { apply wp_bind. destruct (Z.leb_spec 8 (len (dropZ 1 msg))); [|done]. cbn [when].
    apply wp_bind, wp_cut_to; [lia|]. apply wp_bind, wp_cut_to; [lia|].
    apply wp_bind, wp_cut_from; [rewrite length_takeZ; lia|]. done. }
  case_match; [|done]. apply wp_bind. destruct (Z.leb_spec 1 (len (dropZ 1 msg))); [|done]. cbn [when].
  apply wp_bind, wp_at_index; [lia|]. by intros.
Qed.

(** C37: No message of a relay server and no state of the pool makes the reader
    panic: in every state that calls and messages lead to, the message is
    handled, and afterwards as before every entry of a peer's table is the
    stream with that number of that peer, and the accept channel holds at most
    64 streams that exist.  Indexing and slicing a frame past its end panics in
    the model, so the guards on the lengths are what this rests on. *)
Theorem iroh_messages_safe p url c now msg : reachable (eq NewIrohRelayPool) pool_step p ->
  ip_relays p !! url = Some c ->
  wp (relay_message url now msg) (fun _ p' => pool_ok p') p.
Proof.
  intros Hr Hc. pose proof (reachable_pool_ok p Hr) as Hp. unfold relay_message, on_relay. do 2 apply wp_bind.
  apply (wp_deref _ _ _ c); [done|]. apply wp_bind. destruct (wp_inv _ _ _ (readLoop_turn_total now msg c)) as (a & c' & E & _).
  unfold wp at 1, lift. rewrite E. cbv beta iota. apply wp_bind, wp_modify, wp_ret.
  pose proof (pool_ok_relays p (<[url := c']> (ip_relays p)) Hp) as Hp1.
  destruct a as [| |body|pub]; [done|done| |]; apply wp_bind.
  - unfold handleRecvDatagram. apply wp_bind.
    match goal with |- wp _ _ ?p => destruct (parse_datagram_total body p) as [o Eo] end.
    unfold wp at 1. rewrite Eo. destruct o as [[[[src sid] flags] data]|]; [|done].
    eapply wp_mono; [by apply mgr_dispatch_ok|]. done.
  - eapply wp_mono; [by apply peerGone_ok|]. done.
Qed.
End ops.

Lemma iroh_messages_safe_witness : exists p,
  wp (relay_message "wss://relay" 7 (Some [Byte.x08])) (fun _ p' => pool_ok p') p.
Proof.
  destruct (AddRelay 0 "wss://relay" NewIrohRelayPool) as [[b p]|] eqn:E; [|vm_compute in E; discriminate].
  exists p. pose proof (listed_order : MapOrder) as Ord. apply (iroh_messages_safe (Ord := listed_order) p _ (newRelayConn 0)).
  - apply (reach_step _ _ NewIrohRelayPool); [by apply reach_init|]. exists (CallAddRelay 0 "wss://relay"). cbn. unfold discard, bind. by rewrite E.
  - cbn in E. injection E as _ <-. reflexivity.
Defined.

(** ** Delivery *)

(** The pieces a [Write] cuts its data into. *)
Fixpoint chunks (fuel : nat) (b : list byte) : list (list byte) :=
  match fuel with
  | O => []
  | S fuel =>
      if 0 <? len b then takeZ maxDatagramPayload b :: chunks fuel (dropZ maxDatagramPayload b) else []
  end.

Definition data_msg (remote : list byte) (sid : Z) (chunk : list byte) : list byte :=
  datagram_msg remote (stream_frame sid flagDATA chunk).

Lemma concat_chunks fuel b : (length b < fuel)%nat -> concat (chunks fuel b) = b.
Proof.
  revert b. induction fuel as [|fuel IH]; intros b Hb; [lia|]. cbn [chunks]. destruct (Z.ltb_spec 0 (len b)).
  - cbn [concat]. rewrite IH; [apply take_dropZ|]. unfold dropZ, maxDatagramPayload. rewrite length_drop. lia.
  - by destruct b.
Qed.

Section sender.
Context `{Ord : MapOrder} `{OL : !MapOrderLaws Ord}.

(** [url] is the only live connection of the pool, and it takes every message. *)
Definition sends_over (url : string) (w : wsConn) (p : IrohRelayPool) : Prop :=
  (exists c, ip_relays p !! url = Some c /\ live w c) /\
  forall u c, ip_relays p !! u = Some c -> rc_state c = IrohRelayAlive -> u = url.

Lemma first_alive_url url w p : sends_over url w p -> first_alive (map_range (ip_relays p)) = Some url.
Proof.
  intros [(c & Hc & Ha & _) Hu]. unfold first_alive.
  assert (forall e, e ∈ map_range (ip_relays p) <-> ip_relays p !! e.1 = Some e.2) as Hin.
  { intros [u c']. rewrite (map_range_perm _), elem_of_map_to_list. done. }
  destruct (filter _ _) as [|[u c1] l] eqn:E.
  - assert ((url, c) ∈ filter (fun e : string * relayConn => rc_state e.2 = IrohRelayAlive) (map_range (ip_relays p))) as Hx.
    { apply list_elem_of_filter. split; [done|by apply Hin]. }
    rewrite E in Hx. by apply not_elem_of_nil in Hx.
  - cbn. f_equal. assert ((u, c1) ∈ filter (fun e : string * relayConn => rc_state e.2 = IrohRelayAlive) (map_range (ip_relays p))) as Hx.
    { rewrite E. by left. }
    apply list_elem_of_filter in Hx as [Hs Hx]. apply Hin in Hx. by apply (Hu u c1).
Qed.

Lemma sends_over_update url w w' c' p : sends_over url w p -> live w' c' ->
  sends_over url w' (p <| ip_relays := <[url := c']> (ip_relays p) |>).
Proof.
  intros [_ Hu] Hc'. split.
  - exists c'. cbn. by rewrite lookup_insert_eq.
  - cbn. intros u c. destruct (decide (u = url)) as [->|]; [done|]. rewrite lookup_insert_ne by done. apply Hu.
Qed.

Definition sent (w : wsConn) (msgs : list (list byte)) : wsConn := w <| ws_out := ws_out w ++ msgs |>.

Lemma sendTo_live url w remote frame p : sends_over url w p ->
  wp (sendTo remote frame) (fun ok p' => ok = true /\ sends_over url (sent w [datagram_msg remote frame]) p') p.
Proof.
  intros Hs. pose proof Hs as [(c & Hc & Hl) Hu]. unfold sendTo. apply wp_bind, wp_get.
  rewrite (first_alive_url url w p Hs). apply wp_bind. unfold on_relay at 1.
  apply wp_bind, (wp_deref _ _ _ c); [done|]. apply wp_bind. unfold wp at 1, lift, sendDatagram.
  rewrite (write_ws_live w) by done. cbv beta iota. apply wp_bind, wp_modify, wp_ret. cbn [negb].
  set (c1 := c <| rc_ws := _ |>). assert (live (sent w [datagram_msg remote frame]) c1) as Hl1.
  { destruct Hl as (? & ? & ? & ?). by split_and!. }
  pose proof (sends_over_update url w _ c1 p Hs Hl1) as Hs1. set (p1 := p <| ip_relays := _ |>) in *.
  apply wp_bind. unfold on_relay. apply wp_bind, (wp_deref _ _ _ c1); [cbn; by rewrite lookup_insert_eq|].
  apply wp_bind. unfold wp at 1, lift, modify at 1. apply wp_bind, wp_modify, wp_ret, wp_ret.
  split; [done|]. apply (sends_over_update url _ _ _ p1 Hs1). exact Hl1.
Qed.

Lemma sent_app w a b : sent (sent w a) b = sent w (a ++ b).
Proof. unfold sent. cbn. by rewrite app_assoc. Qed.

Lemma write_chunks_live fuel url w s total b p : (length b < fuel)%nat -> sends_over url w p ->
  wp (write_chunks fuel s total b) (fun r p' => r = (total, true) /\
    sends_over url (sent w (data_msg (st_remote s) (st_id s) <$> chunks fuel b)) p') p.
Proof.
  revert w b p. induction fuel as [|fuel IH]; intros w b p Hf Hs; [lia|]. cbn [write_chunks chunks].
  destruct (Z.ltb_spec 0 (len b)) as [Hb|Hb]; cbn [negb].
  2: { apply wp_ret. split; [done|]. unfold sent. cbn. rewrite app_nil_r. by destruct w. }
  replace (if maxDatagramPayload <? len b then takeZ maxDatagramPayload b else b) with (takeZ maxDatagramPayload b).
  2: { case_match; [done|]. zbool. unfold takeZ. rewrite take_ge; [done|lia]. }
  apply wp_bind. eapply wp_mono; [by apply sendTo_live|]. intros ok p1 [-> Hs1]. cbn [negb].
  replace (dropZ (len (takeZ maxDatagramPayload b)) b) with (dropZ maxDatagramPayload b).
  2: { unfold dropZ, takeZ. rewrite length_take, Nat2Z.id. unfold maxDatagramPayload.
       destruct (decide (length b <= Z.to_nat 64000)%nat);
         [rewrite Nat.min_r, !drop_ge by lia|rewrite Nat.min_l by lia]; done. }
  eapply wp_mono; [apply IH; [|exact Hs1]|].
  - unfold dropZ, maxDatagramPayload. rewrite length_drop. lia.
  - intros r p2 [-> Hs2]. split; [done|]. rewrite sent_app in Hs2. exact Hs2.
Qed.

(** [Write] sends its data in order, in one frame per piece. *)
Lemma Stream_Write_live url w r s b p : sends_over url w p -> ip_store p !! r = Some s ->
  wp (Stream_Write r b) (fun n p' => n = (len b, true) /\
    sends_over url (sent w (data_msg (st_remote s) (st_id s) <$> chunks (S (length b)) b)) p') p.
Proof.
  intros Hs Hr. unfold Stream_Write. apply wp_bind, (wp_deref _ _ _ s); [done|]. apply write_chunks_live; [lia|done].
Qed.
End sender.

Section receiver.
(** What a relay server hands on to the addressee of a message, given its
    sender: a datagram becomes a datagram from the sender. *)
Variable relay : list byte -> list byte -> option (list byte).
Hypothesis relay_forwards : forall src dst payload, len dst = 32 ->
  relay src (datagram_msg dst payload) =
  Some ([byte_of_Z frameRelayToClientDatagram] ++ src ++ [byte_of_Z 0] ++ payload).

Variable url : string.
Variable now : Z.

(** The messages that [src] sent, as the other side gets them. *)
Fixpoint deliver (src : list byte) (msgs : list (list byte)) : M IrohRelayPool () :=
  match msgs with
  | [] => ret ()
  | msg :: msgs =>
      match relay src msg with
      | Some m => relay_message url now (Some m) ;; deliver src msgs
      | None => deliver src msgs
      end
  end.

(** The pool reads from the connection [url]. *)
Definition listening (p : IrohRelayPool) : Prop :=
  exists c w, ip_relays p !! url = Some c /\ rc_stopped c = false /\ rc_ws c = Some w.

Lemma read_datagram body c w : rc_stopped c = false -> rc_ws c = Some w ->
  readLoop_turn now (Some (byte_of_Z frameRelayToClientDatagram :: body)) c =
  Ok (RdDatagram body, c <| rc_lastRecv := now |>).
Proof.
  intros Hst Hw. unfold readLoop_turn, bind, get. rewrite Hst, Hw.
  replace (len (_ :: body) =? 0) with false by (cbn [length]; lia). unfold modify.
  rewrite (at_index_ok 0 _ (byte_of_Z frameRelayToClientDatagram)) by done.
  by rewrite cut_from_ok by (cbn [length]; lia).
Qed.

(** A message with a stream frame does what dispatching the frame does. *)
Lemma relay_message_frame src sid flags data p (Q : bool -> IrohRelayPool -> Prop) :
  listening p -> len src = 32 -> 0 <= flags < 256 ->
  (forall rel, listening (p <| ip_relays := rel |>) ->
     wp (mgr_dispatch src (wrap64 sid) flags data) (fun _ => Q true) (p <| ip_relays := rel |>)) ->
  wp (relay_message url now
       (Some ([byte_of_Z frameRelayToClientDatagram] ++ src ++ [byte_of_Z 0] ++ stream_frame sid flags data)))
     Q p.
Proof.
  intros (c & w & Hc & Hst & Hw) Hsrc Hf HQ. unfold relay_message, on_relay. do 2 apply wp_bind.
  apply (wp_deref _ _ _ c); [done|]. apply wp_bind. unfold wp at 1, lift.
  change ([byte_of_Z frameRelayToClientDatagram] ++ ?l) with (byte_of_Z frameRelayToClientDatagram :: l).
  rewrite (read_datagram _ c w) by done. cbv beta iota. apply wp_bind, wp_modify, wp_ret.
  apply wp_bind. unfold handleRecvDatagram. apply wp_bind. unfold wp at 1. rewrite parse_datagram_frame by done. cbv beta iota.
  apply (HQ (<[url := c <| rc_lastRecv := now |>]> (ip_relays p))).
  exists (c <| rc_lastRecv := now |>), w. cbn. by rewrite lookup_insert_eq.
Qed.

(** The stream [sid] of the peer [src] is the object [r]. *)
Definition known (src : list byte) (sid : Z) (r : nat) (s : irohStream) (p : IrohRelayPool) : Prop :=
  (exists m, ip_pmap p !! src = Some m /\ pm_streams m !! sid = Some r) /\ ip_store p !! r = Some s.

Lemma dispatch_known src sid r s data p : known src sid r s p ->
  wp (mgr_dispatch src sid flagDATA data) (fun _ p' =>
    known src sid r (s <| st_rxBuf := st_rxBuf s ++ data |>) p' /\ ip_relays p' = ip_relays p /\
    ip_acceptCh p' = ip_acceptCh p) p.
Proof.
  intros [(m & Hm & Hsid) Hr]. unfold mgr_dispatch, peer_manager. do 2 apply wp_bind. apply wp_get. rewrite Hm.
  apply wp_ret. rewrite Hsid. unfold stream_dispatch. apply wp_bind, (wp_deref _ _ _ s); [done|].
  apply wp_modify. cbn. split; [|done]. split; [by exists m|]. cbn. apply list_lookup_insert_eq. by eapply lookup_lt_Some.
Qed.

Lemma deliver_known src dst sid r s cs p : len src = 32 -> len dst = 32 -> 0 <= sid < 2 ^ 64 -> listening p -> known src sid r s p ->
  wp (deliver src (data_msg dst sid <$> cs)) (fun _ p' =>
    known src sid r (s <| st_rxBuf := st_rxBuf s ++ concat cs |>) p' /\ ip_acceptCh p' = ip_acceptCh p) p.
Proof.
  intros Hsrc Hdst Hsid. revert s p. induction cs as [|c cs IH]; intros s p Hl Hk.
  { cbn. rewrite app_nil_r. by destruct s. }
  cbn [fmap list_fmap deliver concat]. unfold data_msg at 1. rewrite relay_forwards by done. apply wp_bind.
  apply relay_message_frame; [done|done|done|]. intros rel Hl1. unfold wrap64. rewrite Z.mod_small by done.
  eapply wp_mono; [apply (dispatch_known src sid r s); exact Hk|]. intros ? p1 (Hk1 & Hrel & Hacc).
  eapply wp_mono; [apply (IH (s <| st_rxBuf := st_rxBuf s ++ c |>) p1); [|exact Hk1]|].
  - unfold listening. rewrite Hrel. exact Hl1.
  - cbn. rewrite <- app_assoc. intros ? p2 [? Ha]. split; [done|]. by rewrite Ha, Hacc.
Qed.

Lemma accept_new_queue src sid m q p : ip_acceptCh p = Some q -> len q < 64 ->
  wp (accept_new src sid m) (fun _ p' =>
    known src sid (length (ip_store p)) (mkIrohStream sid src [] false false) p' /\ ip_relays p' = ip_relays p /\
    ip_acceptCh p' = Some (q ++ [length (ip_store p)])) p.
Proof.
  intros Ea Hlen. unfold accept_new, newStream.
  do 2 apply wp_bind. apply wp_get, wp_bind, wp_modify, wp_ret, wp_bind, wp_modify, wp_bind, wp_get. cbn.
  rewrite Ea. replace (len q <? 64) with true by lia. apply wp_modify. cbn. split_and!; try done.
  split; cbn.
  - eexists. rewrite lookup_insert_eq. split; [done|]. cbn. by rewrite lookup_insert_eq.
  - by rewrite lookup_app_r, Nat.sub_diag by done.
Qed.

(** The first frame of a stream that the receiver does not know. *)
Lemma dispatch_unknown src sid data q p : ip_acceptCh p = Some q -> len q < 64 ->
  (forall m, ip_pmap p !! src = Some m -> pm_streams m !! sid = None) ->
  wp (mgr_dispatch src sid flagDATA data) (fun _ p' =>
    known src sid (length (ip_store p)) (mkIrohStream sid src [] false false) p' /\ ip_relays p' = ip_relays p /\
    ip_acceptCh p' = Some (q ++ [length (ip_store p)])) p.
Proof.
  intros Hq Hlen Hnone. unfold mgr_dispatch, peer_manager. do 2 apply wp_bind. apply wp_get.
  destruct (ip_pmap p !! src) as [m|] eqn:Em.
  - apply wp_ret. rewrite (Hnone m) by done. by apply accept_new_queue.
  - apply wp_bind, wp_modify, wp_ret. cbn [newPeerStreamManager pm_streams]. rewrite lookup_empty. cbn [flagDATA Z.eqb negb].
    match goal with |- wp _ _ ?p1 => pose proof (accept_new_queue src sid (newPeerStreamManager (ip_localPub p) src) q p1) as H end.
    cbn in H. by apply H.
Qed.

(** A stream nobody knows yet: the data of its first frame is dropped. *)
Lemma deliver_unknown src dst sid c cs q p : len src = 32 -> len dst = 32 -> 0 <= sid < 2 ^ 64 -> listening p ->
  ip_acceptCh p = Some q -> len q < 64 ->
  (forall m, ip_pmap p !! src = Some m -> pm_streams m !! sid = None) ->
  wp (deliver src (data_msg dst sid <$> c :: cs)) (fun _ p' =>
    known src sid (length (ip_store p)) (mkIrohStream sid src (concat cs) false false) p' /\
    ip_acceptCh p' = Some (q ++ [length (ip_store p)])) p.
Proof.
  intros Hsrc Hdst Hsid Hl Hq Hlen Hnone. cbn [fmap list_fmap deliver]. unfold data_msg at 1. rewrite relay_forwards by done.
  apply wp_bind. apply relay_message_frame; [done|done|done|]. intros rel Hl1. unfold wrap64. rewrite Z.mod_small by done.
  eapply wp_mono; [apply (dispatch_unknown src sid c q (p <| ip_relays := rel |>)); done|].
  intros ? p1 (Hk1 & Hrel & Hacc). cbn in Hk1, Hacc.
  eapply wp_mono; [apply (deliver_known src dst sid (length (ip_store p)) (mkIrohStream sid src [] false false) cs p1 Hsrc Hdst Hsid); [|exact Hk1]|].
  - unfold listening. rewrite Hrel. exact Hl1.
  - cbn. intros ? p2 [? Ha]. split; [done|]. by rewrite Ha, Hacc.
Qed.

Context `{Ord : MapOrder} `{OL : !MapOrderLaws Ord}.

(** C8: What one side writes to a stream the other side gets: all of it, in order
    and after what was there, when the other side knows the stream (it opened
    it, or has accepted it); but when the write opens the stream at the other
    side, its first frame, up to 64000 bytes, is lost, and the accepted stream
    starts after it. *)
Theorem iroh_write_delivery urlA w pa ra s b pb : len (ip_localPub pa) = 32 -> len (st_remote s) = 32 ->
  0 <= st_id s < 2 ^ 64 -> sends_over urlA w pa -> ip_store pa !! ra = Some s -> listening pb ->
  exists pa' msgs, Stream_Write ra b pa = Ok ((len b, true), pa') /\ sends_over urlA (sent w msgs) pa' /\
    (forall rb sb, known (ip_localPub pa) (st_id s) rb sb pb ->
       wp (deliver (ip_localPub pa) msgs) (fun _ p' =>
         known (ip_localPub pa) (st_id s) rb (sb <| st_rxBuf := st_rxBuf sb ++ b |>) p') pb) /\
    (forall q, b <> [] -> ip_acceptCh pb = Some q -> len q < 64 ->
       (forall m, ip_pmap pb !! ip_localPub pa = Some m -> pm_streams m !! st_id s = None) ->
       wp (deliver (ip_localPub pa) msgs) (fun _ p' =>
         known (ip_localPub pa) (st_id s) (length (ip_store pb))
           (mkIrohStream (st_id s) (ip_localPub pa) (dropZ maxDatagramPayload b) false false) p' /\
         ip_acceptCh p' = Some (q ++ [length (ip_store pb)])) pb).
Proof.
  intros Hpub Hrem Hid Hs Hr Hl. destruct (wp_inv _ _ _ (Stream_Write_live urlA w ra s b pa Hs Hr)) as ([n ok] & pa' & E & [= -> ->] & Hs').
  exists pa', (data_msg (st_remote s) (st_id s) <$> chunks (S (length b)) b). split_and!; [done|done| |].
  - intros rb sb Hk. eapply wp_mono; [by apply (deliver_known _ _ _ rb sb)|]. intros ? p' [Hk' _].
    by rewrite concat_chunks in Hk' by lia.
  - intros q Hb Hq Hlen Hnone. cbn [chunks]. replace (0 <? len b) with true by (destruct b; [done|cbn; lia]).
    eapply wp_mono; [by apply (deliver_unknown _ _ _ _ _ q)|]. intros ? p' [Hk' ?].
    split; [|done]. rewrite concat_chunks in Hk'; [done|]. unfold dropZ. rewrite length_drop. unfold maxDatagramPayload.
    destruct b; [done|cbn [length]; lia].
Qed.
End receiver.

(** A relay that forwards, a sender with one live connection and one stream, and
    a receiver that has seen nothing. *)
Definition example_forward (src msg : list byte) : option (list byte) :=
  Some ([byte_of_Z frameRelayToClientDatagram] ++ src ++ dropZ 33 msg).

Definition example_key (b : byte) : list byte := replicate 32 b.

Definition example_pool (me : byte) : IrohRelayPool :=
  NewIrohRelayPool <| ip_localPub := example_key me |> <| ip_acceptCh := Some [] |>
    <| ip_relays := {["r" := example_relay]} |>.

Definition example_sender : IrohRelayPool :=
  (example_pool Byte.x01) <| ip_store := [mkIrohStream 1001 (example_key Byte.x02) [] false false] |>.

Lemma example_forwards src dst payload : len dst = 32 ->
  example_forward src (datagram_msg dst payload) =
  Some ([byte_of_Z frameRelayToClientDatagram] ++ src ++ [byte_of_Z 0] ++ payload).
Proof.
  intros Hd. unfold example_forward, datagram_msg. do 3 f_equal. cbn [app]. unfold dropZ.
  change (Z.to_nat 33) with (S 32). cbn [drop]. rewrite drop_app_length' by lia. done.
Qed.

Lemma example_sends : sends_over "r" example_ws example_sender.
Proof.
  split; [by exists example_relay|]. intros u c Hu _. cbn in Hu.
  destruct (decide (u = "r")) as [->|]; [done|]. rewrite lookup_singleton_ne in Hu; done.
Qed.

Lemma iroh_write_delivery_witness : exists msgs,
  wp (deliver example_forward "r" 0 (example_key Byte.x01) msgs) (fun _ p' =>
    known (example_key Byte.x01) 1001 0 (mkIrohStream 1001 (example_key Byte.x01) [] false false) p')
    (example_pool Byte.x02).
Proof.
  destruct (iroh_write_delivery (Ord := listed_order) (OL := listed_order_laws) example_forward example_forwards "r" 0 "r" example_ws
    example_sender 0 (mkIrohStream 1001 (example_key Byte.x02) [] false false) [Byte.x41] (example_pool Byte.x02))
    as (pa' & msgs & _ & _ & _ & H); [done|done|cbn; lia|apply example_sends|done| |].
  - by exists example_relay, example_ws.
  - exists msgs. eapply wp_mono; [apply (H []); [done|done|cbn; lia|done]|]. by intros ? p' [? _].
Defined.

(** ** Stopping *)

Section stopping.
Context `{Ord : MapOrder} `{OL : !MapOrderLaws Ord}.

Definition stopped_relay (c : relayConn) : relayConn := c <| rc_stopped := true |>.

Lemma stop_all_spec urls p : NoDup urls ->
  Forall (fun u => exists c, ip_relays p !! u = Some c /\ rc_stopped c = false) urls ->
  wp (stop_all urls) (fun _ p' => ip_started p' = ip_started p /\ forall u, ip_relays p' !! u =
    if decide (u ∈ urls) then stopped_relay <$> ip_relays p !! u else ip_relays p !! u) p.
Proof.
  intros Hnd. revert p. induction Hnd as [|u urls Hu Hnd IH]; intros p Hall; [done|]. cbn [stop_all].
  inversion Hall as [|?? (c & Hc & Hst) Hall']; subst. unfold on_relay. do 2 apply wp_bind.
  apply (wp_deref _ _ _ c); [done|]. apply wp_bind. unfold wp at 1, lift, stop, bind at 1, get at 1. rewrite Hst.
  unfold modify at 1. apply wp_bind, wp_modify, wp_ret. eapply wp_mono; [apply IH|].
  - apply Forall_forall. intros x Hx. cbn. destruct (decide (x = u)) as [->|]; [done|].
    rewrite lookup_insert_ne by done. rewrite Forall_forall in Hall'. by apply Hall'.
  - cbn. intros _ p' [Hs' Hp']. split; [done|]. intros x. rewrite (Hp' x). destruct (decide (x = u)) as [->|Hxu].
    + rewrite decide_False by done. rewrite decide_True by (by left). by rewrite lookup_insert_eq, Hc.
    + rewrite lookup_insert_ne by done. repeat case_decide; try done; exfalso; set_solver.
Qed.

Lemma map_range_keys p u : u ∈ (map_range (ip_relays p)).*1 <-> is_Some (ip_relays p !! u).
Proof.
  rewrite (map_range_perm _), list_elem_of_fmap. split.
  - intros ([k c] & -> & Hin). apply elem_of_map_to_list in Hin. by exists c.
  - intros [c Hc]. exists (u, c). by rewrite elem_of_map_to_list.
Qed.

Lemma map_range_keys_nodup p : NoDup (map_range (ip_relays p)).*1.
Proof. rewrite (map_range_perm _). apply NoDup_fst_map_to_list. Qed.

Lemma Stop_spec p : ip_started p = true -> (forall u c, ip_relays p !! u = Some c -> rc_stopped c = false) ->
  wp Stop (fun _ p' => ip_started p' = false /\ forall u, ip_relays p' !! u = stopped_relay <$> ip_relays p !! u) p.
Proof.
  intros Hs Hns. unfold Stop. apply wp_bind, wp_get. rewrite Hs. cbn [negb]. apply wp_bind, wp_modify.
  eapply wp_mono; [apply stop_all_spec; [apply map_range_keys_nodup|]|].
  - apply Forall_forall. intros u [c Hc]%map_range_keys. exists c. split; [exact Hc|by apply (Hns u)].
  - cbn. intros _ p' [Hs' Hp']. split; [done|]. intros u. rewrite Hp'. case_decide as Hin; [done|]. rewrite map_range_keys in Hin.
    destruct (ip_relays p !! u); [by destruct Hin|done].
Qed.

(** The loop of a stopped relay returns in the first turn that finds it not
    alive, without another attempt. *)
Lemma stopped_loop_ends derive sign pub attempts ev c : rc_stopped c = true -> rc_state c <> IrohRelayAlive ->
  exists c', runLoop_turn derive sign pub attempts ev c = Ok (false, c').
Proof.
  intros Hs Ha. unfold runLoop_turn, bind, gets. rewrite bool_decide_eq_false_2 by done. cbn. rewrite Hs. by eexists.
Qed.

(** Stopping a pool is final for its relays: removing one of them afterwards
    panics; starting the pool again starts their loops, but they are still
    stopped, and such a loop returns when it finds its connection down instead
    of connecting. *)
Theorem iroh_stop_is_final p url c : ip_started p = true ->
  (forall u c, ip_relays p !! u = Some c -> rc_stopped c = false) -> ip_relays p !! url = Some c ->
  wp Stop (fun _ p1 => RemoveRelay url p1 = Panic /\
    forall key, wp (Start (Some key)) (fun _ p2 => exists c2, ip_relays p2 !! url = Some c2 /\
      rc_loops c2 = rc_loops c + 1 /\
      forall derive sign pub attempts ev, rc_state c2 <> IrohRelayAlive ->
        exists c3, runLoop_turn derive sign pub attempts ev c2 = Ok (false, c3)) p1) p.
Proof.
  intros Hs Hns Hc. eapply wp_mono; [by apply Stop_spec|]. cbn. intros _ p1 [Hs1 Hp1].
  assert (ip_relays p1 !! url = Some (stopped_relay c)) as Hc1 by (by rewrite Hp1, Hc). split.
  - unfold RemoveRelay, on_relay, bind, get, deref. rewrite Hc1. cbn. rewrite Hc1. done.
  - intros key. unfold Start. apply wp_bind, wp_get. rewrite Hs1. apply wp_bind, wp_modify, wp_bind, wp_modify, wp_ret.
    exists (start (stopped_relay c)). cbn. rewrite lookup_fmap, Hc1. split_and!; [done|done|].
    intros. by apply (stopped_loop_ends _ _ _ _ _ (start (stopped_relay c))).
Qed.
End stopping.

Lemma iroh_stop_is_final_witness : exists p1,
  Stop (Ord := listed_order) ((example_pool Byte.x01) <| ip_started := true |>) = Ok ((), p1) /\ RemoveRelay "r" p1 = Panic.
Proof.
  pose proof (iroh_stop_is_final (Ord := listed_order) (OL := listed_order_laws)
    ((example_pool Byte.x01) <| ip_started := true |>) "r" example_relay) as H.
  destruct (wp_inv _ _ _ (H ltac:(done)
    ltac:(intros u c Hu; cbn in Hu; destruct (decide (u = "r")) as [->|];
          [by injection Hu as <-|by rewrite lookup_singleton_ne in Hu]) eq_refl)) as ([] & p1 & E & Hr & _).
  by exists p1.
Defined.
