(* ===== verification/PeerDB.v ===== *)
(** The database of peers seen (src/p2put/peerdb.go): last writer wins, and
    records older than the time to live are invisible.

    [view now db] is what the database shows from the time [now] on; two
    databases with the same view are the same to their clients, which is what
    makes the periodic clean-up invisible. *)

From stdpp Require Import gmap strings.
From S2P Require Import Prelude GoLib.

Record PeerRecord := mkRecord {
  pr_PeerID : string;
  pr_Addrs : list string;
  pr_SeenAt : Z;
}.

Record PeerDB := mkPeerDB {
  db_peers : gmap string PeerRecord;
  db_ttl : Z;
}.

#[global] Instance PeerDB_eta : Eta PeerDB := fun d => mkPeerDB (db_peers d) (db_ttl d).

Definition NewPeerDB (ttl : Z) : PeerDB := mkPeerDB ∅ ttl.

Definition Update (pid : string) (addrs : list string) (seenAt : Z) (db : PeerDB) : PeerDB :=
  let stale := match db_peers db !! pid with
               | Some existing => negb (pr_SeenAt existing <? seenAt)
               | None => false
               end in
  if stale then db else db <| db_peers := <[pid := mkRecord pid addrs seenAt]> (db_peers db) |>.

(** [now.Sub(r.SeenAt) > db.ttl]. *)
Definition expired (ttl now : Z) (r : PeerRecord) : bool := ttl <? time_sub now (pr_SeenAt r).

Definition Get (now : Z) (pid : string) (db : PeerDB) : option PeerRecord :=
  match db_peers db !! pid with
  | Some r => if expired (db_ttl db) now r then None else Some r
  | None => None
  end.

(** The tick of [cleanup]. *)
Definition cleanup_tick (now : Z) (db : PeerDB) : PeerDB :=
  db <| db_peers := filter (fun e => expired (db_ttl db) now e.2 = false) (db_peers db) |>.

Section list.
Context `{Ord : MapOrder}.

Definition List (now : Z) (db : PeerDB) : list PeerRecord :=
  filter (fun r => expired (db_ttl db) now r = false) (map_range (db_peers db)).*2.

Definition ListIDs (now : Z) (db : PeerDB) : list string := pr_PeerID <$> List now db.
End list.

(** ** What a database shows *)

Definition view (now : Z) (db : PeerDB) : gmap string PeerRecord :=
  filter (fun e => expired (db_ttl db) now e.2 = false) (db_peers db).

Lemma lookup_view now db pid : view now db !! pid = Get now pid db.
Proof.
  unfold view, Get. destruct (db_peers db !! pid) as [r|] eqn:E.
  - destruct (expired (db_ttl db) now r) eqn:Ex.
    + apply map_lookup_filter_None. right. intros r' [= <-]%(eq_trans (eq_sym E)). cbn. by rewrite Ex.
    + by apply map_lookup_filter_Some.
  - apply map_lookup_filter_None. by left.
Qed.

(** The same to every client from [now] on. *)
Definition same_view (now : Z) (db1 db2 : PeerDB) : Prop := db_ttl db1 = db_ttl db2 /\ view now db1 = view now db2.

#[global] Instance same_view_equiv now : Equivalence (same_view now).
Proof.
  split; [by intros d|by intros d1 d2 []|].
  intros d1 d2 d3 [H1 H2] [H3 H4]. split; [by rewrite H1|by rewrite H2].
Qed.

Lemma expired_later ttl now now' r : now <= now' -> expired ttl now r = true -> expired ttl now' r = true.
Proof. unfold expired, time_sub. intros Hn H. lia. Qed.

Lemma expired_older ttl now r r' : pr_SeenAt r' <= pr_SeenAt r -> expired ttl now r = true -> expired ttl now r' = true.
Proof. unfold expired, time_sub. intros Hn H. lia. Qed.

Lemma view_later now now' db : now <= now' ->
  view now' db = filter (fun e => expired (db_ttl db) now' e.2 = false) (view now db).
Proof.
  intros Hn. unfold view. rewrite map_filter_filter. apply map_filter_ext. intros i r _. cbn. split; [|by intros []].
  intros H. split; [done|]. destruct (expired (db_ttl db) now r) eqn:E; [|done].
  by rewrite (expired_later _ now now') in H.
Qed.

Lemma same_view_later now now' db1 db2 : now <= now' -> same_view now db1 db2 -> same_view now' db1 db2.
Proof. intros Hn [Ht Hv]. split; [done|]. by rewrite !(view_later now now'), Hv, Ht by done. Qed.

(** An update seen through the view: a record that has expired changes nothing,
    another one is stored unless the record shown is as new. *)
Definition view_update (ttl now : Z) (r : PeerRecord) (v : gmap string PeerRecord) : gmap string PeerRecord :=
  if expired ttl now r then v
  else match v !! pr_PeerID r with
       | Some r' => if pr_SeenAt r' <? pr_SeenAt r then <[pr_PeerID r := r]> v else v
       | None => <[pr_PeerID r := r]> v
       end.

Lemma view_insert now db pid r : expired (db_ttl db) now r = false ->
  view now (db <| db_peers := <[pid := r]> (db_peers db) |>) = <[pid := r]> (view now db).
Proof. intros H. unfold view. cbn. by rewrite map_filter_insert_True. Qed.

Lemma view_Update now pid addrs s db :
  view now (Update pid addrs s db) = view_update (db_ttl db) now (mkRecord pid addrs s) (view now db).
Proof.
  set (r := mkRecord pid addrs s). unfold view_update. cbn [pr_PeerID r]. rewrite lookup_view.
  unfold Update, Get. destruct (db_peers db !! pid) as [r'|] eqn:E; cbn [negb].
  - destruct (Z.ltb_spec (pr_SeenAt r') s) as [Hlt|Hge]; cbn [negb].
    + destruct (expired (db_ttl db) now r) eqn:Er.
      * assert (expired (db_ttl db) now r' = true) as Er' by (apply (expired_older _ _ r); [cbn; lia|done]).
        unfold view. cbn. rewrite map_filter_insert_False; [|cbn; by fold r; rewrite Er].
        rewrite map_filter_delete. apply delete_id. apply map_lookup_filter_None. right.
        intros r2 [= <-]%(eq_trans (eq_sym E)). cbn. by rewrite Er'.
      * fold r. rewrite view_insert by done. destruct (expired (db_ttl db) now r'); [done|].
        by replace (pr_SeenAt r' <? pr_SeenAt r) with true by (cbn; lia).
    + destruct (expired (db_ttl db) now r) eqn:Er; [done|].
      assert (expired (db_ttl db) now r' = false) as ->.
      { destruct (expired (db_ttl db) now r') eqn:E'; [|done]. rewrite (expired_older _ _ r' r) in Er; [done|cbn; lia|done]. }
      by replace (pr_SeenAt r' <? pr_SeenAt r) with false by (cbn; lia).
  - fold r. destruct (expired (db_ttl db) now r) eqn:Er; [|by apply view_insert].
    unfold view. cbn. rewrite map_filter_insert_False; [|cbn; by rewrite Er].
    rewrite map_filter_delete. apply delete_id. apply map_lookup_filter_None. by left.
Qed.

Lemma ttl_Update pid addrs s db : db_ttl (Update pid addrs s db) = db_ttl db.
Proof. unfold Update. repeat case_match; done. Qed.

(** Updates respect the equivalence, so what is invisible stays so. *)
#[global] Instance Update_proper now pid addrs s : Proper (same_view now ==> same_view now) (Update pid addrs s).
Proof. intros d1 d2 [Ht Hv]. split; [by rewrite !ttl_Update|]. by rewrite !view_Update, Ht, Hv. Qed.

Lemma cleanup_same_view now now' db : now <= now' -> same_view now' (cleanup_tick now db) db.
Proof.
  intros Hn. apply (same_view_later now); [done|]. split; [done|]. unfold view, cleanup_tick. cbn.
  rewrite map_filter_filter. apply map_filter_ext. naive_solver.
Qed.

(** ** Histories *)

Inductive db_op :=
| OpUpdate (pid : string) (addrs : list string) (seenAt : Z)
| OpCleanup.

(** What happens at a time: [Update] does not read the clock, the clean-up does. *)
Definition do_op (now : Z) (o : db_op) (db : PeerDB) : PeerDB :=
  match o with
  | OpUpdate pid addrs seenAt => Update pid addrs seenAt db
  | OpCleanup => cleanup_tick now db
  end.

Definition run_ops (h : list (Z * db_op)) (db : PeerDB) : PeerDB := foldl (fun db e => do_op e.1 e.2 db) db h.

Definition is_update (e : Z * db_op) : Prop := e.2 <> OpCleanup.

#[global] Instance is_update_dec e : Decision (is_update e).
Proof. unfold is_update. destruct e as [now []]; cbn; [by left|by right; intros []]. Defined.

Lemma run_ops_snoc h e db : run_ops (h ++ [e]) db = do_op e.1 e.2 (run_ops h db).
Proof. unfold run_ops. by rewrite foldl_app. Qed.

Lemma ttl_run_ops h db : db_ttl (run_ops h db) = db_ttl db.
Proof.
  induction h as [|[now []] h IH] using rev_ind; [done| |]; rewrite run_ops_snoc; cbn; [by rewrite ttl_Update|done].
Qed.

(** Cleaning up at times that have passed changes nothing a client sees. *)
Lemma run_ops_same_view now h db : Forall (fun e => e.1 <= now) h ->
  same_view now (run_ops h db) (run_ops (filter is_update h) db).
Proof.
  induction h as [|[t o] h IH] using rev_ind; [reflexivity|].
  intros [Hh [Ht _]%Forall_cons]%Forall_app. rewrite filter_app, run_ops_snoc. cbn in Ht.
  destruct o as [pid addrs s|].
  - rewrite (filter_cons_True is_update), filter_nil, run_ops_snoc by done. cbn. by rewrite IH.
  - rewrite (filter_cons_False is_update), filter_nil, app_nil_r by (intros []; done). cbn.
    etrans; [by apply cleanup_same_view|by apply IH].
Qed.

Section observe.
Context `{Ord : MapOrder} `{OL : !MapOrderLaws Ord}.

Lemma List_view now db : List now db ≡ₚ (map_to_list (view now db)).*2.
Proof.
  unfold List, view. rewrite map_range_perm. generalize (db_peers db) as m. intros m.
  induction m as [|k r m Hk IH] using map_ind.
  - by rewrite map_filter_empty, map_to_list_empty.
  - rewrite map_to_list_insert, fmap_cons, filter_cons by done. case_decide as E.
    + rewrite map_filter_insert_True by done. rewrite map_to_list_insert; [cbn; by rewrite IH|].
      apply map_lookup_filter_None. by left.
    + rewrite map_filter_insert_False, map_filter_delete, delete_id; [done| |done].
      apply map_lookup_filter_None. by left.
Qed.

(** C40: The periodic clean-up cannot be noticed.  Whatever updates and clean-ups
    a database has seen up to [now], every lookup and the list of the peers are
    those of the same updates with no clean-up at all. *)
Theorem peerdb_cleanup_invisible now h db : Forall (fun e => e.1 <= now) h ->
  (forall pid, Get now pid (run_ops h db) = Get now pid (run_ops (filter is_update h) db)) /\
  List now (run_ops h db) ≡ₚ List now (run_ops (filter is_update h) db).
Proof.
  intros [_ Hv]%(run_ops_same_view now h db). split; [|by rewrite !List_view, Hv].
  intros pid. by rewrite <-!lookup_view, Hv.
Qed.
End observe.

(** ** The newest update wins *)

Definition run_updates (us : list PeerRecord) (db : PeerDB) : PeerDB :=
  foldl (fun db r => Update (pr_PeerID r) (pr_Addrs r) (pr_SeenAt r) db) db us.

(** [r] is a newest update of its peer. *)
Definition newest (us : list PeerRecord) (r : PeerRecord) : Prop :=
  r ∈ us /\ forall r', r' ∈ us -> pr_PeerID r' = pr_PeerID r -> pr_SeenAt r' <= pr_SeenAt r.

Lemma run_updates_snoc us r db :
  run_updates (us ++ [r]) db = Update (pr_PeerID r) (pr_Addrs r) (pr_SeenAt r) (run_updates us db).
Proof. unfold run_updates. by rewrite foldl_app. Qed.

(** What is stored for a peer after an update. *)
Definition merge_record (old : option PeerRecord) (r : PeerRecord) : PeerRecord :=
  match old with
  | Some existing => if pr_SeenAt existing <? pr_SeenAt r then r else existing
  | None => r
  end.

Lemma lookup_Update r db q :
  db_peers (Update (pr_PeerID r) (pr_Addrs r) (pr_SeenAt r) db) !! q =
    if decide (pr_PeerID r = q) then Some (merge_record (db_peers db !! q) r) else db_peers db !! q.
Proof.
  unfold Update. assert (mkRecord (pr_PeerID r) (pr_Addrs r) (pr_SeenAt r) = r) as -> by by destruct r.
  case_decide as Hd; [subst q|].
  - destruct (db_peers db !! pr_PeerID r) as [e|] eqn:E; cbn; [|by rewrite lookup_insert_eq].
    destruct (pr_SeenAt e <? pr_SeenAt r); cbn; [by rewrite lookup_insert_eq|done].
  - case_match; [done|]. cbn. by rewrite lookup_insert_ne.
Qed.

Lemma newest_snoc us r0 r : newest us r -> (pr_PeerID r0 = pr_PeerID r -> pr_SeenAt r0 <= pr_SeenAt r) ->
  newest (us ++ [r0]) r.
Proof. intros [Hin Hmax] H0. split; [set_solver|]. intros r' [?| ->%list_elem_of_singleton]%elem_of_app ?; auto. Qed.

Lemma run_updates_lookup us ttl pid :
  match db_peers (run_updates us (NewPeerDB ttl)) !! pid with
  | Some r => pr_PeerID r = pid /\ newest us r
  | None => Forall (fun r => pr_PeerID r <> pid) us
  end.
Proof.
  induction us as [|r0 us IH] using rev_ind; [cbn; by rewrite lookup_empty|]. rewrite run_updates_snoc, lookup_Update.
  destruct (db_peers (run_updates us _) !! pid) as [r|]; case_decide as Hd; subst; cbn.
  - destruct IH as [Hid [Hin Hmax]]. destruct (Z.ltb_spec (pr_SeenAt r) (pr_SeenAt r0)).
    + split; [done|]. split; [set_solver|]. intros r1 [H1| ->%list_elem_of_singleton]%elem_of_app Heq; [|lia].
      specialize (Hmax r1 H1 ltac:(congruence)). lia.
    + split; [done|]. apply newest_snoc; [by split|lia].
  - destruct IH as [<- Hn]. split; [done|]. apply newest_snoc; [done|congruence].
  - split; [done|]. split; [set_solver|]. rewrite Forall_forall in IH.
    intros r1 [H1| ->%list_elem_of_singleton]%elem_of_app ?; [by destruct (IH r1 H1)|lia].
  - apply Forall_app. split; [done|by constructor].
Qed.

Lemma ttl_run_updates us db : db_ttl (run_updates us db) = db_ttl db.
Proof. induction us as [|r us IH] using rev_ind; [done|]. by rewrite run_updates_snoc, ttl_Update. Qed.

Lemma PeerDB_eq d1 d2 : db_ttl d1 = db_ttl d2 -> db_peers d1 = db_peers d2 -> d1 = d2.
Proof. destruct d1, d2. cbn. by intros -> ->. Qed.

(** No peer was reported twice with the same time. *)
Definition no_ties (us : list PeerRecord) : Prop :=
  forall r1 r2, r1 ∈ us -> r2 ∈ us -> pr_PeerID r1 = pr_PeerID r2 -> pr_SeenAt r1 = pr_SeenAt r2 -> r1 = r2.

Lemma newest_unique us r1 r2 : no_ties us -> newest us r1 -> newest us r2 -> pr_PeerID r1 = pr_PeerID r2 -> r1 = r2.
Proof.
  intros Ht [Hin1 Hm1] [Hin2 Hm2] Hid. apply Ht; [done..|].
  specialize (Hm1 r2 Hin2). specialize (Hm2 r1 Hin1). rewrite Hid in *. specialize (Hm1 eq_refl). specialize (Hm2 eq_refl). lia.
Qed.

Lemma newest_ext us1 us2 r : (forall r, r ∈ us2 <-> r ∈ us1) -> newest us1 r -> newest us2 r.
Proof. intros Heq [Hin Hm]. split; [by apply Heq|]. intros r' ?%Heq. by apply Hm. Qed.

(** C39: Replicas converge.  Two databases that have received the same updates, in
    whatever order and with whatever repetitions, hold the same records, when no
    peer was reported twice with the same time and different addresses. *)
Theorem peerdb_converges us1 us2 ttl : (forall r, r ∈ us1 <-> r ∈ us2) -> no_ties us1 ->
  run_updates us1 (NewPeerDB ttl) = run_updates us2 (NewPeerDB ttl).
Proof.
  intros Heq Ht.
  apply PeerDB_eq; [by rewrite !ttl_run_updates|]. apply map_eq. intros pid.
  pose proof (run_updates_lookup us1 ttl pid) as H1. pose proof (run_updates_lookup us2 ttl pid) as H2.
  destruct (db_peers (run_updates us1 _) !! pid) as [r1|], (db_peers (run_updates us2 _) !! pid) as [r2|];
    rewrite ?Forall_forall in *.
  - destruct H1 as [Hi1 H1], H2 as [Hi2 H2]. f_equal.
    apply (newest_unique us1); [done|done|by apply (newest_ext us2)|congruence].
  - destruct H1 as [Hi1 [Hin%Heq _]]. by destruct (H2 r1 Hin).
  - destruct H2 as [Hi2 [Hin%Heq _]]. by destruct (H1 r2 Hin).
  - done.
Qed.

(** ** Examples *)

(** A record is overwritten by a newer one only; the clean-up drops it for good, and
    an older update arriving then is not seen either. *)
Lemma peerdb_cleanup_invisible_witness :
  let h := [(0, OpUpdate "p" ["a"%string] 100); (600, OpCleanup); (700, OpUpdate "p" ["b"%string] 50)] in
  Get 900 "p" (run_ops h (NewPeerDB 300)) = None.
Proof.
  intros h. assert (Forall (fun e => e.1 <= 900) h) as H by (repeat constructor; cbn; lia).
  rewrite (proj1 (@peerdb_cleanup_invisible listed_order listed_order_laws 900 h (NewPeerDB 300) H) "p"%string). reflexivity.
Defined.

Lemma peerdb_converges_witness :
  let a := mkRecord "p" ["a"%string] 1 in let b := mkRecord "p" ["b"%string] 2 in
  run_updates [a; b] (NewPeerDB 300) = run_updates [b; a; b] (NewPeerDB 300).
Proof.
  intros a b. apply peerdb_converges; [set_solver|].
  intros r1 r2 H1 H2 _ Hs. set_unfold. destruct H1 as [->|[->|[]]], H2 as [->|[->|[]]]; done.
Defined.
