(* ===== verification/PrivateIP.v ===== *)
(** Private IP addresses (src/p2put/utils.go, [isPrivateIP]) and the part of Go's
    [net] package it rests on: the two forms of an address, [net.ParseIP].

    The theorem compares the byte tests of the code with the CIDR blocks they
    stand for. *)

From Stdlib Require Import Ascii.
From stdpp Require Import list strings.
From S2P Require Import Prelude.

(** ** IP addresses: [net.IP] is nil or 4 or 16 bytes *)

Definition IP : Type := list Z.

Definition v4InV6Prefix : list Z := [0; 0; 0; 0; 0; 0; 0; 0; 0; 0; 255; 255].

Definition To4 (ip : IP) : option IP :=
  if decide (length ip = 4%nat) then Some ip
  else if decide (length ip = 16%nat /\ take 12 ip = v4InV6Prefix) then Some (drop 12 ip)
  else None.

Definition IsUnspecified (ip : IP) : bool :=
  bool_decide (To4 ip = Some [0; 0; 0; 0]) || bool_decide (ip = replicate 16 0).

Definition IsLoopback (ip : IP) : bool :=
  match To4 ip with
  | Some ip4 => nth 0 ip4 0 =? 127
  | None => bool_decide (ip = replicate 15 0 ++ [1])
  end.

Definition IsLinkLocalUnicast (ip : IP) : bool :=
  match To4 ip with
  | Some ip4 => (nth 0 ip4 0 =? 169) && (nth 1 ip4 0 =? 254)
  | None => bool_decide (length ip = 16%nat) && (nth 0 ip 0 =? 254) && (Z.land (nth 1 ip 0) 192 =? 128)
  end.

(** [isPrivateIP]; [None] is the nil address. *)
Definition isPrivateIP (oip : option IP) : bool :=
  match oip with
  | None => true
  | Some ip =>
      if IsUnspecified ip then true
      else if IsLoopback ip then true
      else if IsLinkLocalUnicast ip then true
      else
        match To4 ip with
        | Some ip4 =>
            if nth 0 ip4 0 =? 10 then true
            else if (nth 0 ip4 0 =? 172) && (16 <=? nth 1 ip4 0) && (nth 1 ip4 0 <=? 31) then true
            else if (nth 0 ip4 0 =? 192) && (nth 1 ip4 0 =? 168) then true
            else false
        | None =>
            if bool_decide (length ip = 16%nat) then
              if (nth 0 ip 0 =? 254) && (128 <=? nth 1 ip 0) && (nth 1 ip 0 <=? 191) then true
              else if (nth 0 ip 0 =? 252) || (nth 0 ip 0 =? 253) then true
              else false
            else false
        end
  end.

(** ** The blocks that are private, in CIDR notation *)

(** The address as a 128-bit number, IPv4 addresses in ::ffff:0:0/96. *)
Definition ip_number (ip : IP) : Z :=
  foldl (fun n b => 256 * n + b) 0 (if decide (length ip = 4%nat) then v4InV6Prefix ++ ip else ip).

Definition v4 (a b c d : Z) : Z := ip_number [a; b; c; d].

Definition private_blocks : list (Z * Z) :=
  [ (v4 0 0 0 0, 128); (v4 127 0 0 0, 104); (v4 169 254 0 0, 112); (v4 10 0 0 0, 104); (v4 172 16 0 0, 108);
    (v4 192 168 0 0, 112);
    (0, 128); (1, 128); (Z.shiftl 65152 112, 10); (Z.shiftl 64512 112, 7) ].

(** Membership in the block [base/len]. *)
Definition in_block (n : Z) (blk : Z * Z) : bool := Z.shiftr n (128 - blk.2) =? Z.shiftr blk.1 (128 - blk.2).

Definition valid_ip (ip : IP) : Prop :=
  (length ip = 4%nat \/ length ip = 16%nat) /\ Forall (fun b => 0 <= b < 256) ip.

(** ** The equivalence *)

Abbreviation is_bytes l := (Forall (fun b => 0 <= b < 256) l).

(** The number with the digits [l] in base 256. *)
Definition digits (l : list Z) : Z := foldl (fun n b => 256 * n + b) 0 l.

Lemma digits_snoc l b : digits (l ++ [b]) = 256 * digits l + b.
Proof. unfold digits. by rewrite foldl_app. Qed.

Lemma digits_prefix l1 l2 : is_bytes l2 -> digits (l1 ++ l2) / 2 ^ (8 * len l2) = digits l1.
Proof.
  revert l1. induction l2 as [|b l2 IH]; intros l1.
  - intros _. cbn. rewrite app_nil_r. apply Z.div_1_r.
  - intros [Hb Hl]%Forall_cons. rewrite cons_middle, app_assoc.
    replace (8 * len (b :: l2)) with (8 * len l2 + 8) by (cbn; lia).
    rewrite Z.pow_add_r, <-Z.div_div, IH, digits_snoc by (done || lia).
    symmetry. apply (Z.div_unique _ _ _ b); lia.
Qed.

Lemma digits_inj l m : length l = length m -> is_bytes l -> is_bytes m -> digits l = digits m -> l = m.
Proof.
  revert m. induction l as [|b l IH] using rev_ind; intros m; [by destruct m|].
  destruct m as [|c m _] using rev_ind; rewrite !length_app; [cbn; lia|]. intros Hlen.
  rewrite !Forall_app, !Forall_cons, !digits_snoc. intros (Hl&Hb&_) (Hm&Hc&_) Heq.
  assert (b = c) as -> by lia. f_equal. apply IH; [cbn in Hlen; lia|done..|lia].
Qed.

(** Two addresses agree on the bits before the last [8 * len l2 + k]. *)
Lemma same_prefix l1 b l2 m1 c m2 k : length l1 = length m1 -> length l2 = length m2 ->
  is_bytes (l1 ++ b :: l2) -> is_bytes (m1 ++ c :: m2) -> 0 <= k <= 8 ->
  Z.shiftr (digits (l1 ++ b :: l2)) (8 * len l2 + k) = Z.shiftr (digits (m1 ++ c :: m2)) (8 * len l2 + k) <->
    l1 = m1 /\ b / 2 ^ k = c / 2 ^ k.
Proof.
  intros H1 H2. rewrite !Forall_app, !Forall_cons. intros (Hl1&Hb&Hl2) (Hm1&Hc&Hm2) Hk.
  rewrite !Z.shiftr_div_pow2, !Z.pow_add_r, <-!Z.div_div by lia. rewrite !(cons_middle _ l1), !(cons_middle _ m1), !app_assoc.
  replace (len l2) with (len m2) at 2 by lia. rewrite !digits_prefix, !digits_snoc by done.
  assert (forall n b, 256 * n + b = n * 2 ^ (8 - k) * 2 ^ k + b) as Heq.
  { intros n x. rewrite <-Z.mul_assoc, <-Z.pow_add_r by lia. replace (8 - k + k) with 8 by lia. lia. }
  rewrite !Heq, !Z.div_add_l by lia.
  assert (forall x, 0 <= x < 256 -> 0 <= x / 2 ^ k < 2 ^ (8 - k)) as Hd.
  { intros x Hx. split; [apply Z.div_pos; lia|]. apply Z.div_lt_upper_bound; [lia|].
    rewrite <-Z.pow_add_r by lia. replace (k + (8 - k)) with 8 by lia. lia. }
  pose proof (Hd _ Hb). pose proof (Hd _ Hc). split; [|by intros [-> ->]]. intros Hq.
  assert (digits l1 = digits m1) as E by nia. split; [by apply digits_inj|]. rewrite E in Hq. lia.
Qed.

Lemma in_block_iff l1 b l2 m1 c m2 k n base L : n = digits (l1 ++ b :: l2) -> base = digits (m1 ++ c :: m2) ->
  128 - L = 8 * len l2 + k -> length l1 = length m1 -> length l2 = length m2 ->
  is_bytes (l1 ++ b :: l2) -> is_bytes (m1 ++ c :: m2) -> 0 <= k <= 8 ->
  in_block n (base, L) = true <-> l1 = m1 /\ b / 2 ^ k = c / 2 ^ k.
Proof. intros -> -> HL H1 H2 Hl Hm Hk. unfold in_block. cbn [fst snd]. by rewrite HL, Z.eqb_eq, same_prefix. Qed.

Lemma ip_number_16 ip : length ip = 16%nat -> ip_number ip = digits ip.
Proof. intros H. unfold ip_number, digits. case_decide; [lia|done]. Qed.

Ltac in_block_bytes l1 b l2 m1 c m2 k :=
  rewrite (in_block_iff l1 b l2 m1 c m2 k);
  [|first [assumption|lia|by (cbn; repeat constructor; lia)|reflexivity]..].

Lemma cons_eq_iff (x y : Z) l k : x :: l = y :: k <-> x = y /\ l = k.
Proof. split; [by intros [= -> ->]|by intros [-> ->]]. Qed.

Lemma nil_eq_iff : @nil Z = [] <-> True.
Proof. done. Qed.

Abbreviation zeros n := (replicate n 0).

Lemma blocks_v4 m n o p : is_bytes [m; n; o; p] ->
  existsb (in_block (ip_number [m; n; o; p])) private_blocks = true <->
    [m; n; o; p] = [0; 0; 0; 0] \/ m = 127 \/ m = 169 /\ n = 254 \/ m = 10 \/ m = 172 /\ 16 <= n <= 31 \/ m = 192 /\ n = 168.
Proof.
  intros H. set (q := v4InV6Prefix).
  assert (is_bytes (q ++ [m; n; o; p])) as Hb by (apply Forall_app; split; [repeat constructor; lia|done]).
  unfold private_blocks. cbn [existsb]. rewrite !orb_true_iff.
  in_block_bytes (q ++ [m; n; o]) p (@nil Z) (q ++ [0; 0; 0]) 0 (@nil Z) 0.
  in_block_bytes q m [n; o; p] q 127 [0; 0; 0] 0.
  in_block_bytes (q ++ [m]) n [o; p] (q ++ [169]) 254 [0; 0] 0.
  in_block_bytes q m [n; o; p] q 10 [0; 0; 0] 0.
  in_block_bytes (q ++ [m]) n [o; p] (q ++ [172]) 16 [0; 0] 4.
  in_block_bytes (q ++ [m]) n [o; p] (q ++ [192]) 168 [0; 0] 0.
  in_block_bytes (q ++ [m; n; o]) p (@nil Z) (zeros 15) 0 (@nil Z) 0.
  in_block_bytes (q ++ [m; n; o]) p (@nil Z) (zeros 15) 1 (@nil Z) 0.
  in_block_bytes [0] 0 (drop 2 (q ++ [m; n; o; p])) [254] 128 (zeros 14) 6.
  in_block_bytes (@nil Z) 0 (drop 1 (q ++ [m; n; o; p])) (@nil Z) 252 (zeros 15) 1.
  rewrite !app_inv_head_iff. change (2 ^ 0) with 1. change (2 ^ 4) with 16. change (2 ^ 1) with 2. change (2 ^ 6) with 64.
  rewrite !Z.div_1_r.
  rewrite !Forall_cons in H. subst q. unfold v4InV6Prefix. cbn.
  rewrite !cons_eq_iff, nil_eq_iff.
  Z.to_euclidean_division_equations; lia.
Qed.

Lemma blocks_v6 ip : length ip = 16%nat -> is_bytes ip -> take 12 ip <> v4InV6Prefix ->
  existsb (in_block (ip_number ip)) private_blocks = true <->
    ip = zeros 16 \/ ip = zeros 15 ++ [1] \/ nth 0 ip 0 = 254 /\ 128 <= nth 1 ip 0 <= 191 \/ nth 0 ip 0 = 252 \/ nth 0 ip 0 = 253.
Proof.
  intros Hlen Hb Hq. do 16 (destruct ip as [|? ip]; [done|]). destruct ip; [|done]. clear Hlen. cbn in Hq.
  rename z into a, z0 into b, z1 into c, z2 into d, z3 into e, z4 into f, z5 into g, z6 into h, z7 into i, z8 into j,
    z9 into k, z10 into l, z11 into m, z12 into n, z13 into o, z14 into p.
  set (r := [a; b; c; d; e; f; g; h; i; j; k; l]) in *. set (q := v4InV6Prefix) in *.
  change ([a; b; c; d; e; f; g; h; i; j; k; l; m; n; o; p]) with (r ++ [m; n; o; p]) in *.
  rewrite ip_number_16 by reflexivity.
  unfold private_blocks. cbn [existsb]. rewrite !orb_true_iff.
  in_block_bytes (r ++ [m; n; o]) p (@nil Z) (q ++ [0; 0; 0]) 0 (@nil Z) 0.
  in_block_bytes r m [n; o; p] q 127 [0; 0; 0] 0.
  in_block_bytes (r ++ [m]) n [o; p] (q ++ [169]) 254 [0; 0] 0.
  in_block_bytes r m [n; o; p] q 10 [0; 0; 0] 0.
  in_block_bytes (r ++ [m]) n [o; p] (q ++ [172]) 16 [0; 0] 4.
  in_block_bytes (r ++ [m]) n [o; p] (q ++ [192]) 168 [0; 0] 0.
  in_block_bytes (r ++ [m; n; o]) p (@nil Z) (zeros 15) 0 (@nil Z) 0.
  in_block_bytes (r ++ [m; n; o]) p (@nil Z) (zeros 15) 1 (@nil Z) 0.
  in_block_bytes [a] b (drop 2 (r ++ [m; n; o; p])) [254] 128 (zeros 14) 6.
  in_block_bytes (@nil Z) a (drop 1 (r ++ [m; n; o; p])) (@nil Z) 252 (zeros 15) 1.
  change (2 ^ 0) with 1. change (2 ^ 1) with 2. change (2 ^ 6) with 64. rewrite !Z.div_1_r, <-!app_inj_tail_iff, <-!app_assoc.
  assert (forall x y : list Z, length x = length y -> r ++ x = q ++ y <-> False) as Hn.
  { intros x y Hl. split; [|done]. intros E. by apply app_inj_1 in E as []. }
  rewrite !Hn by done.
  assert (0 <= a < 256 /\ 0 <= b < 256) as [Ha Hb'] by (apply Forall_cons in Hb as [? [? _]%Forall_cons]; done).
  change (nth 0 (r ++ [m; n; o; p]) 0) with a. change (nth 1 (r ++ [m; n; o; p]) 0) with b.
  cbn [app] in *. rewrite !cons_eq_iff, nil_eq_iff.
  assert (b / 64 = 128 / 64 <-> 128 <= b <= 191) as -> by (clear -Hb'; Z.to_euclidean_division_equations; lia).
  assert (a / 2 = 252 / 2 <-> a = 252 \/ a = 253) as -> by (clear -Ha; Z.to_euclidean_division_equations; lia).
  assert (false = true <-> False) as -> by done. change (zeros 16) with (zeros 15 ++ [0]).
  clear. tauto.
Qed.

Lemma To4_16 ip : length ip = 16%nat ->
  To4 ip = if decide (take 12 ip = v4InV6Prefix) then Some (drop 12 ip) else None.
Proof. intros H. unfold To4. rewrite H. repeat case_decide; naive_solver. Qed.

(** What the switch of [isPrivateIP] decides for a mapped and for another address. *)
Lemma isPrivateIP_v4 m n o p ip : To4 ip = Some [m; n; o; p] -> ip <> zeros 16 ->
  isPrivateIP (Some ip) = true <->
    [m; n; o; p] = [0; 0; 0; 0] \/ m = 127 \/ m = 169 /\ n = 254 \/ m = 10 \/ m = 172 /\ 16 <= n <= 31 \/ m = 192 /\ n = 168.
Proof.
  intros H4 Hz. unfold isPrivateIP, IsUnspecified, IsLoopback, IsLinkLocalUnicast. rewrite H4. cbn [nth].
  rewrite (bool_decide_eq_false_2 (ip = _)) by done.
  destruct (decide ([m; n; o; p] = [0; 0; 0; 0])) as [E|E].
  - rewrite bool_decide_eq_true_2 by congruence. cbn. tauto.
  - rewrite bool_decide_eq_false_2 by congruence. cbn [orb].
    assert ([m; n; o; p] = [0; 0; 0; 0] <-> False) as -> by tauto. repeat case_match; lia.
Qed.

(** The top bits 10 of a byte. *)
Lemma land_192 b : 0 <= b < 256 -> (Z.land b 192 =? 128) = (128 <=? b) && (b <=? 191).
Proof.
  intros Hb. assert (Forall (fun b => (Z.land b 192 =? 128) = (128 <=? b) && (b <=? 191)) (seqZ 0 256)) as H.
  { apply (bool_decide_unpack _). by vm_compute. }
  rewrite Forall_forall in H. apply H. apply elem_of_seqZ. lia.
Qed.

Lemma isPrivateIP_v6 ip : To4 ip = None -> length ip = 16%nat -> 0 <= nth 1 ip 0 < 256 ->
  isPrivateIP (Some ip) = true <->
    ip = zeros 16 \/ ip = zeros 15 ++ [1] \/ nth 0 ip 0 = 254 /\ 128 <= nth 1 ip 0 <= 191 \/ nth 0 ip 0 = 252 \/ nth 0 ip 0 = 253.
Proof.
  intros H4 Hl Hb. unfold isPrivateIP, IsUnspecified, IsLoopback, IsLinkLocalUnicast.
  rewrite H4, Hl, land_192, (bool_decide_eq_false_2 (None = _)) by done. cbn [orb].
  case_bool_decide as E1; [tauto|]. assert (ip = zeros 16 <-> False) as -> by tauto.
  case_bool_decide as E2; [tauto|]. assert (ip = zeros 15 ++ [1] <-> False) as -> by tauto.
  rewrite (bool_decide_eq_true_2 (16 = 16)%nat) by done. cbn [andb]. repeat case_match; lia.
Qed.

(** [isPrivateIP] is membership in the private blocks: for every IPv4 and IPv6
    address, in whichever of its two forms, the chain of byte tests answers what
    the ten CIDR blocks (0.0.0.0/32, 127.0.0.0/8, 169.254.0.0/16, 10.0.0.0/8,
    172.16.0.0/12, 192.168.0.0/16, ::/128, ::1/128, fe80::/10, fc00::/7) answer. *)
Theorem isPrivateIP_blocks ip : valid_ip ip ->
  isPrivateIP (Some ip) = existsb (in_block (ip_number ip)) private_blocks.
Proof.
  intros [[Hl|Hl] Hb]; apply eq_true_iff_eq.
  - destruct ip as [|m [|n [|o [|p [|]]]]]; try done. by rewrite blocks_v4, (isPrivateIP_v4 m n o p).
  - destruct (decide (take 12 ip = v4InV6Prefix)) as [Hq|Hq].
    + assert (length (drop 12 ip) = 4%nat) as Hd by (rewrite length_drop; lia).
      rewrite <-(take_drop 12 ip) in Hb |- *. rewrite Hq in *. apply Forall_app in Hb as [_ Hb].
      destruct (drop 12 ip) as [|m [|n [|o [|p [|]]]]]; try done.
      rewrite (isPrivateIP_v4 m n o p) by done. by rewrite <-blocks_v4.
    + rewrite blocks_v6 by done. apply isPrivateIP_v6; [|done|].
      * rewrite To4_16 by done. by rewrite decide_False.
      * destruct ip as [|a [|b ip]]; try done. by apply Forall_cons in Hb as [_ [? _]%Forall_cons].
Qed.

Lemma isPrivateIP_blocks_witness :
  valid_ip [172; 31; 0; 9] /\ isPrivateIP (Some [172; 31; 0; 9]) = existsb (in_block (ip_number [172; 31; 0; 9])) private_blocks.
Proof.
  assert (valid_ip [172; 31; 0; 9]) as H by (split; [by left|repeat constructor; lia]).
  split; [exact H|]. exact (isPrivateIP_blocks _ H).
Defined.

(** ** [net.ParseIP] *)

(** A decimal number of an IPv4 address: one to three digits, no leading zero, at
    most 255. *)
Definition parse_octet (s : list ascii) : option Z :=
  let digit c := let n := Z.of_nat (nat_of_ascii c) in if (48 <=? n) && (n <=? 57) then Some (n - 48) else None in
  match mapM digit s with
  | Some [d] => Some d
  | Some (d :: ds) =>
      if d =? 0 then None
      else let n := foldl (fun n d => 10 * n + d) d ds in if n <=? 255 then Some n else None
  | _ => None
  end.

Fixpoint split_on (c : ascii) (s : list ascii) : list (list ascii) :=
  match s with
  | [] => [[]]
  | x :: s =>
      if bool_decide (x = c) then [] :: split_on c s
      else match split_on c s with [] => [[x]] | e :: es => (x :: e) :: es end
  end.

Definition parse_v4 (s : list ascii) : option (list Z) :=
  match mapM parse_octet (split_on "." s) with
  | Some [a; b; c; d] => Some [a; b; c; d]
  | _ => None
  end.

Definition hex_digit (c : ascii) : option Z :=
  let n := Z.of_nat (nat_of_ascii c) in
  if (48 <=? n) && (n <=? 57) then Some (n - 48)
  else if (97 <=? n) && (n <=? 102) then Some (n - 87)
  else if (65 <=? n) && (n <=? 70) then Some (n - 55)
  else None.

(** The leading hexadecimal digits, and what follows them. *)
Fixpoint hex_span (s : list ascii) : list Z * list ascii :=
  match s with
  | c :: s' => match hex_digit c with Some d => let '(ds, r) := hex_span s' in (d :: ds, r) | None => ([], s) end
  | [] => ([], [])
  end.

(** The loop over the groups of an IPv6 address: the bytes read so far, the position
    of the double colon, what is left.  Eight turns fill the address. *)
Fixpoint v6_groups (turns : nat) (bytes : list Z) (ellipsis : option nat) (s : list ascii)
    : option (list Z * option nat * list ascii) :=
  match turns with
  | O => Some (bytes, ellipsis, s)
  | S turns =>
      let '(ds, r) := hex_span s in
      if bool_decide (ds = []) || (4 <? len ds) then None
      else
        match r with
        | "."%char :: _ =>
            if bool_decide (ellipsis = None) && bool_decide (length bytes <> 12%nat) then None
            else if 16 <? len bytes + 4 then None
            else q ← parse_v4 s; Some (bytes ++ q, ellipsis, [])
        | _ =>
            let acc := foldl (fun n d => 16 * n + d) 0 ds in
            let bytes := bytes ++ [acc / 256; acc mod 256] in
            match r with
            | [] => Some (bytes, ellipsis, [])
            | ":"%char :: [] => None
            | ":"%char :: ":"%char :: rest =>
                if bool_decide (is_Some ellipsis) then None
                else match rest with
                     | [] => Some (bytes, Some (length bytes), [])
                     | _ => v6_groups turns bytes (Some (length bytes)) rest
                     end
            | ":"%char :: rest => v6_groups turns bytes ellipsis rest
            | _ => None
            end
        end
  end.

Definition parse_v6 (s : list ascii) : option (list Z) :=
  let start := match s with
               | ":"%char :: ":"%char :: rest => (Some 0%nat, rest)
               | _ => (None, s)
               end in
  match start with
  | (Some _, []) => Some (zeros 16)
  | (ellipsis, s) =>
      match v6_groups 8 [] ellipsis s with
      | Some (bytes, ellipsis, []) =>
          match ellipsis with
          | Some e => if 16 <=? len bytes then None else Some (take e bytes ++ zeros (16 - length bytes) ++ drop e bytes)
          | None => if len bytes <? 16 then None else Some bytes
          end
      | _ => None
      end
  end.

(** The first of [.], [:] and [%] decides; a zone is refused by [net.ParseIP]. *)
Definition ParseIP (s : string) : option IP :=
  let l := String.list_ascii_of_string s in
  match list_find (fun c => c = "."%char \/ c = ":"%char \/ c = "%"%char) l with
  | Some (_, "."%char) => (fun q => v4InV6Prefix ++ q) <$> parse_v4 l
  | Some (_, ":"%char) => parse_v6 l
  | _ => None
  end.

Example ParseIP_v4 : ParseIP "192.168.1.20" = Some (v4InV6Prefix ++ [192; 168; 1; 20]).
Proof. reflexivity. Qed.

Example ParseIP_v6 : ParseIP "fe80::1:2a" = Some ([254; 128] ++ zeros 11 ++ [1; 0; 42]).
Proof. reflexivity. Qed.

Example ParseIP_mapped : ParseIP "::ffff:10.0.0.1" = ParseIP "10.0.0.1" /\ ParseIP "1.2.3" = None /\
  ParseIP "01.2.3.4" = None /\ ParseIP "::" = Some (zeros 16) /\ ParseIP "1::2::3" = None.
Proof. repeat split. Qed.
