(* ===== verification/PeerAddr.v ===== *)
(** Addresses of peers (src/p2put/utils.go, [mergeAddrs] of libp2p_bs.go): which
    multiaddrs go through a relay, which peers are worth dialling, which addresses
    are announced.

    A multiaddr is its text; what the go-multiaddr and go-libp2p packages make of
    it is the class [Multiaddrs], with what is documented of them in
    [MultiaddrsLaws]. *)

From stdpp Require Import gmap strings.
From S2P Require Import Prelude GoLib PrivateIP.

(** ** Multiaddrs and peer identities *)

Class Multiaddrs := {
  (** The components of a multiaddr: protocol names with the text of their values. *)
  components : string -> list (string * string);
  NewMultiaddr : string -> option string;
  peer_Decode : string -> option string;
  peer_String : string -> string;
}.

Class MultiaddrsLaws (MA : Multiaddrs) := {
  (** The text of a multiaddr parses to that multiaddr. *)
  NewMultiaddr_text : forall s m, NewMultiaddr s = Some m -> NewMultiaddr m = Some m;
  peer_Decode_String : forall p, peer_Decode (peer_String p) = Some p;
}.

Section addrs.
Context {MA : Multiaddrs}.

(** [a.ValueForProtocol(name)]: the value of the first component of that protocol. *)
Definition ValueForProtocol (name : string) (cs : list (string * string)) : option string :=
  snd <$> head (filter (fun c => c.1 = name) cs).

Definition isRelayAddr (addr : string) : bool :=
  existsb (fun c => bool_decide (c.1 = "p2p-circuit"%string)) (components addr).

Definition extractIPFromAddr (addr : string) : option IP :=
  match head (filter (fun c => c.1 = "ip4"%string \/ c.1 = "ip6"%string) (components addr)) with
  | Some (name, _) => ipStr ← ValueForProtocol name (components addr); ParseIP ipStr
  | None => None
  end.

(** The components before the first [p2p-circuit]: the first half of [SplitFunc]. *)
Fixpoint before_circuit (cs : list (string * string)) : list (string * string) :=
  match cs with
  | [] => []
  | c :: cs => if bool_decide (c.1 = "p2p-circuit"%string) then [] else c :: before_circuit cs
  end.

(** [None] is an error. *)
Definition extractRelayPeerID (addr : string) : option string :=
  match before_circuit (components addr) with
  | [] => None
  | relayPart => pidStr ← ValueForProtocol "p2p" relayPart; peer_Decode pidStr
  end.

Definition addrStrings (addrs : list string) : list string := addrs.

Definition parseAddrs (strs : list string) : list string := omap NewMultiaddr strs.

(** A loop of [mergeAddrs]: what has been seen and what has been kept. *)
Definition merge_step (st : gset string * list string) (a : string) : gset string * list string :=
  let '(seen, out) := st in
  if decide (a ∈ seen) then (seen, out) else ({[a]} ∪ seen, out ++ [a]).

Definition mergeAddrs (existing incoming : list string) : list string :=
  (foldl merge_step (foldl merge_step (∅, []) existing) incoming).2.

(** The reference: the first occurrences, in order. *)
Fixpoint first_occurrences (seen : gset string) (l : list string) : list string :=
  match l with
  | [] => []
  | a :: l => if decide (a ∈ seen) then first_occurrences seen l else a :: first_occurrences ({[a]} ∪ seen) l
  end.

Lemma merge_steps seen out l :
  foldl merge_step (seen, out) l = (list_to_set l ∪ seen, out ++ first_occurrences seen l).
Proof.
  revert seen out. induction l as [|a l IH]; intros seen out; cbn; [by rewrite app_nil_r, (left_id_L ∅ _)|].
  case_decide; rewrite IH; f_equal; [set_solver|set_solver|by rewrite <-app_assoc].
Qed.

Lemma mergeAddrs_first existing incoming : mergeAddrs existing incoming = first_occurrences ∅ (existing ++ incoming).
Proof. unfold mergeAddrs. rewrite <-foldl_app, merge_steps. done. Qed.

Lemma elem_of_first_occurrences seen l a : a ∈ first_occurrences seen l <-> a ∈ l /\ a ∉ seen.
Proof.
  revert seen. induction l as [|b l IH]; intros seen; cbn; [set_solver|].
  case_decide; rewrite ?elem_of_cons, IH; [set_solver|]. destruct (decide (a = b)); set_solver.
Qed.

Lemma NoDup_first_occurrences seen l : NoDup (first_occurrences seen l).
Proof.
  revert seen. induction l as [|b l IH]; intros seen; cbn; [constructor|].
  case_decide; [apply IH|]. constructor; [|apply IH]. rewrite elem_of_first_occurrences. set_solver.
Qed.

Lemma elem_of_mergeAddrs existing incoming a : a ∈ mergeAddrs existing incoming <-> a ∈ existing \/ a ∈ incoming.
Proof. rewrite mergeAddrs_first, elem_of_first_occurrences. set_solver. Qed.

Lemma NoDup_mergeAddrs existing incoming : NoDup (mergeAddrs existing incoming).
Proof. rewrite mergeAddrs_first. apply NoDup_first_occurrences. Qed.

(** ** Peers worth dialling *)

(** One address of [IsGoodPeerAddr]. *)
Definition good_addr (a : string) : bool :=
  if isRelayAddr a then false
  else if contains a "libp2p.direct" then false
  else if bool_decide (is_Some (ValueForProtocol "ip6" (components a))) then false
  else if negb (contains a "/tcp/4001") && negb (contains a "/tcp/443") then false
  else
    match ValueForProtocol "ip4" (components a) with
    | Some ipStr => negb (isPrivateIP (ParseIP ipStr))
    | None => false
    end.

Section bootstrap.
(** [isBootstrapPeer]. *)
Context (bootstrap : string -> bool).

Definition IsGoodPeerAddr (id : string) (addrs : list string) : bool :=
  if bootstrap id then false else existsb good_addr addrs.

(** [IsGoodPeer] for a decoded identity: the addresses of the peerstore, then those
    of the open connections; the first good one is the answer. *)
Definition IsGoodPeer (p : option string) (ready : bool) (stored conns : list string) : string :=
  match p with
  | None => ""
  | Some p =>
      if bootstrap p then ""
      else if negb ready then ""
      else default "" (head (filter (fun a => IsGoodPeerAddr p [a] = true) (stored ++ conns)))
  end.
End bootstrap.
End addrs.
