(* ===== verification/AddrMgr.v ===== *)
(** The addresses announced to other peers (src/p2put/addrmgr.go): the host's own,
    circuit addresses through relays, and what a relay vouched for with its
    reservation, until it expires.

    [GetAll] reads the clock once for each circuit address with a vouch and once
    for each vouch; [cc] and [vc] are what it reads. *)

From stdpp Require Import gmap strings.
From S2P Require Import Prelude GoLib PrivateIP PeerAddr.

Record relayVouch := mkVouch { rv_addrs : list string; rv_expiration : Z }.

Record AddrManager := mkAddrMgr {
  am_localAddrs : list string;
  am_relayCircuitAddrs : list string;
  am_relayVouches : gmap string relayVouch;
}.

#[global] Instance AddrManager_eta : Eta AddrManager := fun m =>
  mkAddrMgr (am_localAddrs m) (am_relayCircuitAddrs m) (am_relayVouches m).

Definition NewAddrManager : AddrManager := mkAddrMgr [] [] ∅.

Definition SetLocal (addrs : list string) (m : AddrManager) : AddrManager := m <| am_localAddrs := addrs |>.

Definition SetRelayCircuit (addrs : list string) (m : AddrManager) : AddrManager :=
  match addrs with [] => m | _ => m <| am_relayCircuitAddrs := addrs |> end.

Definition SetRelayVouch (id : string) (addrs : list string) (expiry : Z) (m : AddrManager) : AddrManager :=
  m <| am_relayVouches := <[id := mkVouch addrs expiry]> (am_relayVouches m) |>.

Section mgr.
Context {MA : Multiaddrs} {Ord : MapOrder}.

(** A turn of the first loop of [GetAll]. *)
Definition valid_circuit (cc : string -> Z) (vouches : gmap string relayVouch) (a : string) : bool :=
  match extractRelayPeerID a with
  | None => true
  | Some relayID =>
      match vouches !! relayID with
      | None => true
      | Some v => cc a <? rv_expiration v
      end
  end.

(** A turn of the second one: the addresses so far and the vouches that are left. *)
Definition vouch_step (vc : string -> Z) (st : list string * gmap string relayVouch) (e : string * relayVouch)
    : list string * gmap string relayVouch :=
  let '(out, vouches) := st in
  if vc e.1 <? rv_expiration e.2 then (mergeAddrs out (rv_addrs e.2), vouches)
  else (out, delete e.1 vouches).

Definition GetAll (cc vc : string -> Z) (m : AddrManager) : list string * AddrManager :=
  let validCircuits := filter (fun a => valid_circuit cc (am_relayVouches m) a = true) (am_relayCircuitAddrs m) in
  let out := mergeAddrs (am_localAddrs m) validCircuits in
  let '(out, vouches) := foldl (vouch_step vc) (out, am_relayVouches m) (map_range (am_relayVouches m)) in
  (out, mkAddrMgr (am_localAddrs m) validCircuits vouches).

Context `{OL : !MapOrderLaws Ord}.

Lemma vouch_steps vc out vs l : NoDup out ->
  let '(out', vs') := foldl (vouch_step vc) (out, vs) l in
  NoDup out' /\
  (forall a, a ∈ out' <-> a ∈ out \/ exists e, e ∈ l /\ vc e.1 < rv_expiration e.2 /\ a ∈ rv_addrs e.2) /\
  (forall id v, vs' !! id = Some v <-> vs !! id = Some v /\ forall v', (id, v') ∈ l -> vc id < rv_expiration v').
Proof.
  revert out vs. induction l as [|[k v0] l IH]; intros out vs Hout; cbn.
  - split; [done|]. split; [set_solver|]. set_solver.
  - destruct (Z.ltb_spec (vc k) (rv_expiration v0)) as [Hlt|Hge].
    + specialize (IH (mergeAddrs out (rv_addrs v0)) vs (NoDup_mergeAddrs _ _)). destruct (foldl _ _ l) as [out' vs'].
      destruct IH as (Hn & Hin & Hvs). split; [done|]. split.
      * intros a. rewrite Hin, elem_of_mergeAddrs. setoid_rewrite elem_of_cons. naive_solver.
      * intros id v. rewrite Hvs. setoid_rewrite elem_of_cons. naive_solver.
    + specialize (IH out (delete k vs) Hout). destruct (foldl _ _ l) as [out' vs'].
      destruct IH as (Hn & Hin & Hvs). split; [done|]. split.
      * intros a. rewrite Hin. setoid_rewrite elem_of_cons. naive_solver lia.
      * intros id v. rewrite Hvs, lookup_delete_Some. setoid_rewrite elem_of_cons.
        split; [intros [[Hne Hv] Hall]; split; [done|]; intros v' [[= -> ->]|]; [done|by apply Hall]|].
        intros [Hv Hall]. split; [|naive_solver]. split; [|done]. intros ->. specialize (Hall v0 (or_introl eq_refl)). lia.
Qed.

Lemma elem_of_map_range {A} (m : gmap string A) k x : (k, x) ∈ map_range m <-> m !! k = Some x.
Proof. rewrite map_range_perm. apply elem_of_map_to_list. Qed.

(** What is announced.  [GetAll] returns, each once, the local addresses, the
    circuit addresses whose relay has not vouched or whose vouch has not expired,
    and what the relays vouched for that has not expired; it keeps exactly these
    circuits and vouches. *)
Lemma GetAll_spec cc vc m :
  let '(out, m') := GetAll cc vc m in
  NoDup out /\
  (forall a, a ∈ out <->
     a ∈ am_localAddrs m \/
     (a ∈ am_relayCircuitAddrs m /\ valid_circuit cc (am_relayVouches m) a = true) \/
     exists id v, am_relayVouches m !! id = Some v /\ vc id < rv_expiration v /\ a ∈ rv_addrs v) /\
  am_localAddrs m' = am_localAddrs m /\
  (forall a, a ∈ am_relayCircuitAddrs m' <-> a ∈ am_relayCircuitAddrs m /\ valid_circuit cc (am_relayVouches m) a = true) /\
  (forall id v, am_relayVouches m' !! id = Some v <-> am_relayVouches m !! id = Some v /\ vc id < rv_expiration v).
Proof.
  unfold GetAll. set (vcs := filter _ _).
  pose proof (vouch_steps vc (mergeAddrs (am_localAddrs m) vcs) (am_relayVouches m) (map_range (am_relayVouches m))
    (NoDup_mergeAddrs _ _)) as H. destruct (foldl _ _ _) as [out vs]. destruct H as (Hn & Hin & Hvs).
  assert (forall a, a ∈ vcs <-> a ∈ am_relayCircuitAddrs m /\ valid_circuit cc (am_relayVouches m) a = true) as Hc.
  { intros a. subst vcs. rewrite list_elem_of_filter. tauto. }
  split; [done|]. split; [|split; [done|split; [done|]]].
  - intros a. rewrite Hin, elem_of_mergeAddrs, Hc. rewrite Logic.or_assoc. do 2 f_equiv. split.
    + intros ([id v] & He%elem_of_map_range & ?). by exists id, v.
    + intros (id & v & He%elem_of_map_range & ?). by exists (id, v).
  - cbn. intros id v. rewrite Hvs. setoid_rewrite elem_of_map_range. naive_solver.
Qed.
(** What is announced.  [GetAll] returns, each once, the local addresses, the
    circuit addresses whose relay has not vouched or whose vouch has not expired,
    and what the relays vouched for that has not expired; called again at once it
    returns the same addresses and changes nothing more. *)
Theorem getall_announces cc vc m :
  let '(out, m') := GetAll cc vc m in
  NoDup out /\
  (forall a, a ∈ out <->
     a ∈ am_localAddrs m \/
     (a ∈ am_relayCircuitAddrs m /\ valid_circuit cc (am_relayVouches m) a = true) \/
     exists id v, am_relayVouches m !! id = Some v /\ vc id < rv_expiration v /\ a ∈ rv_addrs v) /\
  (forall a, a ∈ (GetAll cc vc m').1 <-> a ∈ out) /\ (GetAll cc vc m').2 = m'.
Proof.
  pose proof (GetAll_spec cc vc m) as H. destruct (GetAll cc vc m) as [out m'] eqn:E.
  destruct H as (Hn & Hin & Hl & Hc & Hv). split; [done|]. split; [done|].
  pose proof (GetAll_spec cc vc m') as H. destruct (GetAll cc vc m') as [out' m''] eqn:E'. cbn.
  destruct H as (Hn' & Hin' & Hl' & Hc' & Hv').
  assert (forall a, a ∈ am_relayCircuitAddrs m' -> valid_circuit cc (am_relayVouches m') a = true) as Hstay.
  { intros a [_ Ha]%Hc. revert Ha. unfold valid_circuit. destruct (extractRelayPeerID a) as [r|]; [|done].
    destruct (am_relayVouches m' !! r) as [v|] eqn:Ev; [|done]. by apply Hv in Ev as [-> _]. }
  split.
  - intros a. rewrite Hin', Hin, Hl, Hc. setoid_rewrite Hv. split; [clear; naive_solver|].
    intros [?|[?|(id & v & ? & ? & ?)]]; [by left| |by right; right; exists id, v]. right. left. split; [done|]. by apply Hstay, Hc.
  - unfold GetAll in E'. destruct (foldl _ _ _) as [o vs] eqn:Ef. simplify_eq/=.
    destruct m' as [lo ci vo]. cbn in *. f_equal.
    + clear -Hstay. induction ci as [|a ci IH]; [done|]. rewrite filter_cons_True by (apply Hstay; set_solver).
      f_equal. apply IH. set_solver.
    + apply map_eq. intros id. apply option_eq. intros v. rewrite Hv', Hv. naive_solver.
Qed.

(** A lapsed relay is announced again.  Once [GetAll] has dropped the expired
    vouch of a relay, a circuit address through it set afterwards is announced
    whatever the time, and never dropped; without that call it would be dropped. *)
Theorem lapsed_circuit_reannounced cc vc cc' vc' m a r v :
  extractRelayPeerID a = Some r -> am_relayVouches m !! r = Some v -> rv_expiration v <= vc r ->
  let m1 := SetRelayCircuit [a] (GetAll cc vc m).2 in
  a ∈ (GetAll cc' vc' m1).1 /\ a ∈ am_relayCircuitAddrs (GetAll cc' vc' m1).2 /\
  (rv_expiration v <= cc' a -> a ∉ am_relayCircuitAddrs (GetAll cc' vc' (SetRelayCircuit [a] m)).2).
Proof.
  intros Ha Hr Hexp m1.
  pose proof (GetAll_spec cc vc m) as H. destruct (GetAll cc vc m) as [out m'] eqn:E. destruct H as (_ & _ & _ & _ & Hv).
  assert (am_relayVouches m' !! r = None) as Hgone.
  { destruct (am_relayVouches m' !! r) as [v'|] eqn:E'; [|done]. apply Hv in E' as [? ?]. simplify_eq. lia. }
  assert (valid_circuit cc' (am_relayVouches m1) a = true) as Hval.
  { unfold valid_circuit. rewrite Ha. subst m1. cbn. by rewrite Hgone. }
  assert (a ∈ am_relayCircuitAddrs m1) as Hin by (subst m1; cbn; set_solver).
  split; [|split].
  - pose proof (GetAll_spec cc' vc' m1) as H. destruct (GetAll cc' vc' m1). destruct H as (_ & H & _). apply H. tauto.
  - pose proof (GetAll_spec cc' vc' m1) as H. destruct (GetAll cc' vc' m1). destruct H as (_ & _ & _ & H & _). by apply H.
  - intros Hexp'. pose proof (GetAll_spec cc' vc' (SetRelayCircuit [a] m)) as H.
    destruct (GetAll cc' vc' (SetRelayCircuit [a] m)). destruct H as (_ & _ & _ & H & _). cbn [snd]. rewrite H.
    intros [_ Hc]. unfold valid_circuit in Hc. rewrite Ha in Hc. cbn in Hc. rewrite Hr in Hc. lia.
Qed.
End mgr.

(** ** A relay that lapses *)

Definition toy_multiaddrs : Multiaddrs := {|
  components a := if bool_decide (a = "c"%string) then [("p2p", "r"); ("p2p-circuit", "")]%string else [("ip4", a)]%string;
  NewMultiaddr := Some; peer_Decode := Some; peer_String := id |}.

Definition lapsed : AddrManager := SetRelayVouch "r" ["v"%string] 10 (SetRelayCircuit ["c"%string] NewAddrManager).

Lemma lapsed_circuit_reannounced_witness :
  let m1 := @SetRelayCircuit ["c"%string] (@GetAll toy_multiaddrs listed_order (fun _ => 20) (fun _ => 20) lapsed).2 in
  "c"%string ∈ (@GetAll toy_multiaddrs listed_order (fun _ => 99) (fun _ => 99) m1).1.
Proof.
  refine (proj1 (@lapsed_circuit_reannounced toy_multiaddrs listed_order listed_order_laws
    (fun _ => 20) (fun _ => 20) (fun _ => 99) (fun _ => 99) lapsed "c" "r" (mkVouch ["v"%string] 10) _ _ _)); [done|done|cbn; lia].
Defined.

Lemma getall_announces_witness :
  (@GetAll toy_multiaddrs listed_order (fun _ => 5) (fun _ => 5) lapsed).1 = ["c"; "v"]%string /\
  NoDup (@GetAll toy_multiaddrs listed_order (fun _ => 5) (fun _ => 5) lapsed).1.
Proof.
  split; [reflexivity|].
  exact (proj1 (@getall_announces toy_multiaddrs listed_order listed_order_laws (fun _ => 5) (fun _ => 5) lapsed)).
Defined.
