(* ===== verification/HostEvents.v ===== *)
(** What the node does with the events of its libp2p host (src/p2put/libp2p_bs.go,
    [myEventSuber], [GetCurrConns]): reachability, connections, addresses, and
    which peers it pushes its addresses to.

    An event is handled from start to end by one goroutine, so it is one step on
    the part of [BootNode] it changes.  The push itself is in [PeerExchange]; here
    a step says to which peers one is started.  [rawChan] and [latencyCh] are lists
    of what has been sent; what is taken out of the second by the latency worker is
    a step of its own. *)

From stdpp Require Import gmap strings.
From S2P Require Import Prelude GoLib StablePeers PrivateIP PeerAddr AddrMgr.

Definition LimitedPxProtocol : string := "/d2hub/push/1.0".
(** The capacity of [latencyCh]. *)
Definition latencyCap : Z := 32.

Inductive reachability := ReachabilityUnknown | ReachabilityPublic | ReachabilityPrivate.

Inductive host_event :=
| LocalReachabilityChanged (r : reachability)
| PeerConnectednessChanged (peer : string) (c : connectedness)
| LocalAddressesUpdated (current removed : list string)
| PeerProtocolsUpdated (peer : string) (added removed : list string)
| PeerIdentificationCompleted (peer : string) (protocols : list string).

Record boot := mkBoot {
  bn_NATStatus : reachability;
  bn_stable : table;
  bn_addrs : AddrManager;
  bn_latency : list (string * string);
  bn_raw : list reachability;
}.

#[global] Instance boot_eta : Eta boot := fun b =>
  mkBoot (bn_NATStatus b) (bn_stable b) (bn_addrs b) (bn_latency b) (bn_raw b).

Section events.
Context {MA : Multiaddrs} {Ord : MapOrder}.
(** [isBootstrapPeer], the host's own identity, and [IsGoodPeer] when it is asked. *)
Context (bootstrap : string -> bool) (self : string) (good : string -> string).

(** [latencyCh <- ...] with a default case. *)
Definition offer_latency (addr peer : string) (b : boot) : boot :=
  if len (bn_latency b) <? latencyCap then b <| bn_latency := bn_latency b ++ [(addr, peer)] |> else b.

(** The worker takes the next request. *)
Definition take_latency (b : boot) : boot := b <| bn_latency := tail (bn_latency b) |>.

Definition connectedness_changed (now now' : Z) (peer : string) (c : connectedness) (b : boot) : boot :=
  let b := b <| bn_stable := handlePeerConnectednessChanged bootstrap now now' peer c (bn_stable b) |> in
  match c with
  | Connected => let addr := good peer in if bool_decide (addr = ""%string) then b else offer_latency addr peer b
  | _ => b
  end.

Definition addresses_updated (current removed : list string) (b : boot) : boot :=
  let b := b <| bn_addrs := SetLocal (mergeAddrs [] current) (bn_addrs b) |> in
  let relayCircuits := filter (fun a => isRelayAddr a = true) removed in
  b <| bn_addrs := SetRelayCircuit (mergeAddrs [] relayCircuits) (bn_addrs b) |>.

(** A turn of the loop of [myEventSuber]; the second result is the peers a push is
    started to. *)
Definition handle_event (now now' : Z) (e : host_event) (b : boot) : boot * list string :=
  match e with
  | LocalReachabilityChanged r => (b <| bn_raw := bn_raw b ++ [r] |> <| bn_NATStatus := r |>, [])
  | PeerConnectednessChanged peer c => (connectedness_changed now now' peer c b, [])
  | LocalAddressesUpdated current removed => (addresses_updated current removed b, [])
  | PeerProtocolsUpdated _ _ _ => (b, [])
  | PeerIdentificationCompleted peer protocols =>
      if decide (peer = self) then (b, [])
      else if bool_decide (LimitedPxProtocol ∈ protocols) then (b, [peer]) else (b, [])
  end.

(** [GetCurrConns]: the remote peers of the connections. *)
Definition GetCurrConns (conns : list string) : gset string := list_to_set conns.

(** ** Runs *)

(** What happens: an event with the clock, or the latency worker. *)
Inductive host_step := HEvent (now now' : Z) (e : host_event) | HLatency.

Definition do_step (st : boot * list string) (s : host_step) : boot * list string :=
  match s with
  | HEvent now now' e => let '(b, pushes) := handle_event now now' e st.1 in (b, st.2 ++ pushes)
  | HLatency => (take_latency st.1, st.2)
  end.

Definition fresh_boot (am : AddrManager) : boot := mkBoot ReachabilityUnknown ∅ am [] [].

Definition run_host (am : AddrManager) (h : list host_step) : boot * list string := foldl do_step (fresh_boot am, []) h.

(** What the table of stable peers, the NAT status and the peers pushed to go by. *)
Definition conn_event (s : host_step) : option peer_event :=
  match s with HEvent now now' (PeerConnectednessChanged peer c) => Some (EvConn now now' peer c) | _ => None end.

Definition reach_event (s : host_step) : option reachability :=
  match s with HEvent _ _ (LocalReachabilityChanged r) => Some r | _ => None end.

Definition push_event (s : host_step) : option string :=
  match s with
  | HEvent _ _ (PeerIdentificationCompleted peer protocols) =>
      if decide (peer <> self /\ LimitedPxProtocol ∈ protocols) then Some peer else None
  | _ => None
  end.

Lemma run_host_snoc am h s : run_host am (h ++ [s]) = do_step (run_host am h) s.
Proof. unfold run_host. by rewrite foldl_app. Qed.

Lemma conn_step b now now' peer c : let b' := connectedness_changed now now' peer c b in
  bn_stable b' = handlePeerConnectednessChanged bootstrap now now' peer c (bn_stable b) /\
  bn_NATStatus b' = bn_NATStatus b /\ bn_raw b' = bn_raw b /\ bn_addrs b' = bn_addrs b /\
  (len (bn_latency b) <= latencyCap -> len (bn_latency b') <= latencyCap).
Proof.
  cbv zeta. unfold connectedness_changed. destruct c; [done| |done]. case_bool_decide; [done|].
  unfold offer_latency. cbn [bn_latency set_field]. case_match; cbn; [|done].
  split; [done|]. split; [done|]. split; [done|]. split; [done|]. rewrite length_app. cbn. lia.
Qed.

Context {F : PoolFloat}.

(** What the events come to.  The table of stable peers is that of the connection
    events alone; the NAT status is the last one reported, and every report is
    passed on; a push is started to exactly the peers, other than itself, that
    identified themselves as speaking the push protocol, once each time; the
    latency queue never exceeds its capacity. *)
Theorem host_events_effects am h : let '(b, pushes) := run_host am h in
  bn_stable b = foldl (event_exec bootstrap) ∅ (omap conn_event h) /\
  bn_raw b = omap reach_event h /\
  bn_NATStatus b = default ReachabilityUnknown (list.last (omap reach_event h)) /\
  pushes = omap push_event h /\
  len (bn_latency b) <= latencyCap.
Proof.
  induction h as [|s h IH] using rev_ind; [done|]. rewrite run_host_snoc, !omap_app, foldl_app.
  destruct (run_host am h) as [b pushes]. destruct IH as (Ht & Hr & Hn & Hp & Hl). destruct s as [now now' e|].
  - destruct e as [r|peer c|current removed|peer added removed|peer protocols]; cbn [do_step handle_event fst snd omap list_omap conn_event reach_event push_event].
    all: rewrite ?app_nil_r.
    + cbn. rewrite Hr, last_snoc. done.
    + pose proof (conn_step b now now' peer c) as (E1 & E2 & E3 & _ & E5). cbn [foldl event_exec]. rewrite E1, E2, E3, Ht. split_and!; auto.
    + done.
    + done.
    + destruct (decide (peer = self)) as [->|Hne]; cbn; rewrite ?decide_False by naive_solver; [by rewrite !app_nil_r|].
      case_bool_decide; [rewrite decide_True by done|rewrite decide_False by naive_solver]; rewrite ?app_nil_r; [|done].
      by rewrite Hp.
  - cbn. rewrite !app_nil_r. destruct (bn_latency b); cbn in *; [done|]. split_and!; try done. lia.
Qed.

End events.

(** ** Addresses *)

Section addresses.
Context {MA : Multiaddrs} {Ord : MapOrder} {OL : MapOrderLaws Ord}.

(** A circuit address that the host has given up is announced again.  After an
    update that removes a circuit address, [GetAll] returns it, unless a vouch of
    its relay has expired; the circuit addresses it returns besides those of the
    update and of the vouches are exactly the removed ones. *)
Theorem removed_circuit_announced cc vc current removed b a :
  a ∈ removed -> isRelayAddr a = true -> valid_circuit cc (am_relayVouches (bn_addrs b)) a = true ->
  a ∈ (GetAll cc vc (bn_addrs (addresses_updated current removed b))).1 /\
  (forall x, x ∈ am_relayCircuitAddrs (bn_addrs (addresses_updated current removed b)) <-> x ∈ removed /\ isRelayAddr x = true).
Proof.
  intros Ha Hr Hv. set (m := bn_addrs (addresses_updated current removed b)).
  assert (am_relayVouches m = am_relayVouches (bn_addrs b) /\
    forall x, x ∈ am_relayCircuitAddrs m <-> x ∈ removed /\ isRelayAddr x = true) as [Hm Hc].
  { subst m. unfold addresses_updated, SetRelayCircuit. cbn [bn_addrs set_field].
    assert (forall x, x ∈ mergeAddrs [] (filter (fun a => isRelayAddr a = true) removed) <-> x ∈ removed /\ isRelayAddr x = true) as He.
    { intros x. rewrite elem_of_mergeAddrs, list_elem_of_filter. set_solver. }
    destruct (mergeAddrs [] _) as [|y l]; [|done].
    exfalso. apply (not_elem_of_nil (A:=string) a). by apply He. }
  split; [|done]. pose proof (GetAll_spec cc vc m) as H. destruct (GetAll cc vc m) as [out m'].
  destruct H as (_ & H & _). apply H. right. left. rewrite Hc, Hm. done.
Qed.
End addresses.

(** ** Examples *)

Lemma removed_circuit_announced_witness :
  "c"%string ∈ (@GetAll toy_multiaddrs listed_order (fun _ => 5) (fun _ => 5)
    (bn_addrs (@addresses_updated toy_multiaddrs ["a"%string] ["c"%string] (fresh_boot NewAddrManager)))).1.
Proof.
  refine (proj1 (@removed_circuit_announced toy_multiaddrs listed_order listed_order_laws
    (fun _ => 5) (fun _ => 5) ["a"%string] ["c"%string] (fresh_boot NewAddrManager) "c" _ _ _)); [set_solver|done|done].
Defined.

Example host_run : let '(b, pushes) := @run_host toy_multiaddrs listed_order (fun _ => false) "me" (fun _ => "/ip4/1.2.3.4/tcp/4001"%string) NewAddrManager
    [HEvent 5 5 (PeerConnectednessChanged "p" Connected);
     HEvent 6 6 (PeerIdentificationCompleted "p" ["/ipfs/ping/1.0.0"%string; LimitedPxProtocol]);
     HEvent 7 7 (PeerIdentificationCompleted "me" [LimitedPxProtocol])] in
  bn_latency b = [("/ip4/1.2.3.4/tcp/4001"%string, "p"%string)] /\ pushes = ["p"%string].
Proof. by vm_compute. Qed.
