(* ===== verification/PeerStore.v ===== *)
(** The peerstore kept across restarts (src/p2put/libp2p_bs.go, [savePeerstore],
    [loadPeerstore], [cleanPeerstore]).

    What libp2p's peerstore holds is an argument: its peers and their addresses.
    The file is its bytes; encoding/json is the class [StoreJson], and the MD5 of
    the bytes an argument. *)

From stdpp Require Import gmap strings.
From S2P Require Import Prelude GoLib PrivateIP PeerAddr.

Definition minPeerCount : Z := 16.

(** [net.IP.IsPrivate]. *)
Definition IsPrivate (ip : IP) : bool :=
  match To4 ip with
  | Some ip4 =>
      (nth 0 ip4 0 =? 10) || ((nth 0 ip4 0 =? 172) && (Z.land (nth 1 ip4 0) 240 =? 16)) ||
      ((nth 0 ip4 0 =? 192) && (nth 1 ip4 0 =? 168))
  | None => bool_decide (length ip = 16%nat) && (Z.land (nth 0 ip 0) 254 =? 252)
  end.

Class StoreJson := {
  store_marshal : gmap string (list string) -> list byte;
  store_unmarshal : list byte -> option (gmap string (list string));
}.

Class StoreJsonLaws (J : StoreJson) := {
  store_unmarshal_marshal m : store_unmarshal (store_marshal m) = Some m;
}.

Section store.
Context {MA : Multiaddrs} {Ord : MapOrder} {J : StoreJson} (md5 : list byte -> string).

(** An address worth keeping. *)
Definition saved_addr (a : string) : bool :=
  let local := match extractIPFromAddr a with Some ip => IsLoopback ip || IsPrivate ip | None => false end in
  if local then false
  else negb (contains a "/ip6/" || contains a "/udp/" || contains a "/quic" || contains a "webrtc" || contains a "/dns/").

Definition saved_addrs (l : list string) : list string := filter (fun a => saved_addr a = true) l.

Definition save_entry (addrs : string -> list string) (m : gmap string (list string)) (p : string)
    : gmap string (list string) :=
  match addrs p with [] => m | l => <[peer_String p := saved_addrs l]> m end.

Definition saved_table (peers : list string) (addrs : string -> list string) : gmap string (list string) :=
  foldl (save_entry addrs) ∅ peers.

(** [savedPeerstoreSum] and the file. *)
Record saver := mkSaver { sv_sum : string; sv_file : option (list byte) }.

#[global] Instance saver_eta : Eta saver := fun s => mkSaver (sv_sum s) (sv_file s).

Inductive save_error := SaveNotReady | SaveWrite.

(** [write] is how [WriteFile] ends: [None] when it succeeds, else the file it leaves. *)
Definition savePeerstore (ready : bool) (peers : list string) (addrs : string -> list string)
    (write : option (option (list byte))) (s : saver) : option save_error * saver :=
  if negb ready then (Some SaveNotReady, s)
  else
    let m := saved_table peers addrs in
    if Z.of_nat (size m) <? minPeerCount then (None, s)
    else
      let raw := store_marshal m in
      if decide (md5 raw = sv_sum s) then (None, s)
      else
        let s := s <| sv_sum := md5 raw |> in
        match write with
        | Some broken => (Some SaveWrite, s <| sv_file := broken |>)
        | None => (None, s <| sv_file := Some raw |>)
        end.

Inductive file_content := ReadMissing | ReadFailed | ReadData (raw : list byte).
Inductive load_error := LoadRead | LoadJson.

Definition load_entry (e : string * list string) : option (string * list string) :=
  pid ← peer_Decode e.1;
  match omap NewMultiaddr e.2 with [] => None | mas => Some (pid, mas) end.

(** [loadPeerstore]: the calls of [AddAddrs], in order. *)
Definition loadPeerstore (r : file_content) : option load_error * list (string * list string) :=
  match r with
  | ReadMissing => (None, [])
  | ReadFailed => (Some LoadRead, [])
  | ReadData raw =>
      match store_unmarshal raw with
      | None => (Some LoadJson, [])
      | Some m => (None, omap load_entry (map_range m))
      end
  end.

(** [cleanPeerstore]: the peers it removes, in order. *)
Definition cleanPeerstore (ready : bool) (self : string) (bootstrap connected : string -> bool) (peers : list string)
    : list string :=
  if negb ready then []
  else if len peers <? minPeerCount then []
  else filter (fun p => (bool_decide (p = self) || bootstrap p || connected p) = false) peers.

(** ** What a restart finds *)

Context {ML : MultiaddrsLaws MA} {OL : MapOrderLaws Ord} {JL : StoreJsonLaws J}.

Lemma peer_String_inj p q : peer_String p = peer_String q -> p = q.
Proof. intros E. apply (inj Some). by rewrite <-!peer_Decode_String, E. Qed.

Lemma lookup_saved peers addrs k l :
  saved_table peers addrs !! k = Some l <-> exists p, p ∈ peers /\ k = peer_String p /\ addrs p <> [] /\ l = saved_addrs (addrs p).
Proof.
  unfold saved_table. revert l. induction peers as [|p peers IH] using rev_ind; intros l.
  - cbn. rewrite lookup_empty. split; [done|]. intros (p & Hp & _). by apply not_elem_of_nil in Hp.
  - rewrite foldl_app. cbn [foldl]. unfold save_entry at 1. destruct (addrs p) as [|a as_] eqn:Ea.
    + rewrite IH. split; [intros (q & Hq & H); exists q; set_solver|].
      intros (q & [Hq| ->%list_elem_of_singleton]%elem_of_app & H); [by exists q|]. naive_solver.
    + rewrite lookup_insert_Some, IH. rewrite <-Ea. split.
      * intros [[<- <-]|[Hne (q & Hq & H)]]; [exists p; rewrite Ea; set_solver|exists q; set_solver].
      * intros (q & Hq & -> & Hn & ->). destruct (decide (peer_String p = peer_String q)) as [E|E].
        -- apply peer_String_inj in E as ->. by left.
        -- right. split; [done|]. exists q. apply elem_of_app in Hq as [?| ->%list_elem_of_singleton]; [done|done].
Qed.

Lemma omap_parsed (l : list string) : (forall a, a ∈ l -> NewMultiaddr a = Some a) -> omap NewMultiaddr l = l.
Proof.
  induction l as [|a l IH]; intros H; [done|]. cbn. rewrite (H a) by set_solver. f_equal. apply IH. set_solver.
Qed.

(** C30: The peerstore survives a restart.  When a save writes the file, a load of it adds,
    once each, exactly the peers of the store that have an address worth keeping,
    with exactly these addresses. *)
Theorem peerstore_survives peers addrs s : minPeerCount <= Z.of_nat (size (saved_table peers addrs)) ->
  md5 (store_marshal (saved_table peers addrs)) <> sv_sum s ->
  (forall p a, p ∈ peers -> a ∈ addrs p -> NewMultiaddr a = Some a) ->
  exists raw calls, savePeerstore true peers addrs None s = (None, mkSaver (md5 raw) (Some raw)) /\
    loadPeerstore (ReadData raw) = (None, calls) /\ NoDup calls.*1 /\
    forall p l, (p, l) ∈ calls <-> p ∈ peers /\ l = saved_addrs (addrs p) /\ l <> [].
Proof.
  intros Hn Hs Hp. eexists _, _. split; [|split; [|split]].
  - unfold savePeerstore. cbn [negb]. replace (_ <? minPeerCount) with false by lia. by rewrite decide_False.
  - unfold loadPeerstore. by rewrite store_unmarshal_marshal.
  - pose proof (NoDup_fst_map_to_list (saved_table peers addrs)) as Hnd.
    rewrite <-(map_range_perm _ (saved_table peers addrs)) in Hnd.
    assert (forall k l, (k, l) ∈ map_range (saved_table peers addrs) -> exists p, k = peer_String p) as Hk.
    { intros k l. rewrite (map_range_perm _ _), elem_of_map_to_list, lookup_saved. intros (p & _ & -> & _). by exists p. }
    induction (map_range (saved_table peers addrs)) as [|[k l] es IH]; [constructor|].
    apply NoDup_cons in Hnd as [Hk1 Hnd]. assert (NoDup (omap load_entry es).*1) as IH' by (apply IH; [done|]; intros; eapply Hk; by right).
    cbn. unfold load_entry at 1. cbn. destruct (Hk k l) as [p ->]; [by left|]. rewrite peer_Decode_String. cbn.
    destruct (omap NewMultiaddr l); [done|]. cbn. constructor; [|done]. intros ([q ql] & Hq & (e & He & Hel)%list_elem_of_omap)%list_elem_of_fmap.
    cbn in Hq. subst q. destruct e as [k' l']. destruct (Hk k' l') as [p' ->]; [by right|].
    unfold load_entry in Hel. cbn in Hel. rewrite peer_Decode_String in Hel. cbn in Hel. case_match; [done|]. simplify_eq.
    apply Hk1. apply list_elem_of_fmap. by exists (peer_String p, l').
  - intros p l. rewrite list_elem_of_omap. setoid_rewrite (map_range_perm _ (saved_table peers addrs)). split.
    + intros ([k l'] & Hin%elem_of_map_to_list & He). apply lookup_saved in Hin as (q & Hq & -> & Hne & ->).
      unfold load_entry in He. cbn in He. rewrite peer_Decode_String in He. cbn in He.
      rewrite omap_parsed in He by (intros a [_ Ha]%list_elem_of_filter; eauto). case_match; [done|]. by simplify_eq.
    + intros (Hin & -> & Hne). exists (peer_String p, saved_addrs (addrs p)). split.
      * rewrite elem_of_map_to_list, lookup_saved. exists p. split; [done|]. split; [done|]. split; [|done]. by intros E; rewrite E in Hne.
      * unfold load_entry. cbn. rewrite peer_Decode_String. cbn.
        rewrite omap_parsed by (intros a [_ Ha]%list_elem_of_filter; eauto). by destruct (saved_addrs (addrs p)).
Qed.

(** A save that fails is not tried again: the checksum is kept before the file is
    written, so with the same peers every later save succeeds without writing,
    whatever the failed one left of the file. *)
Theorem failed_save_not_retried peers addrs broken s s' : savePeerstore true peers addrs (Some broken) s = (Some SaveWrite, s') ->
  sv_file s' = broken /\ forall write, savePeerstore true peers addrs write s' = (None, s').
Proof.
  unfold savePeerstore. cbn [negb]. case_match; [done|]. case_decide; [done|]. intros [= <-]. split; [done|].
  intros write. cbn. by rewrite decide_True.
Qed.

(** What a cleaning of 16 peers or more leaves: the host itself, bootstrap peers and
    connected ones; a smaller store is left alone. *)
Theorem clean_outcome self bootstrap connected peers p : p ∈ peers ->
  p ∈ cleanPeerstore true self bootstrap connected peers <->
    minPeerCount <= len peers /\ p <> self /\ bootstrap p = false /\ connected p = false.
Proof.
  intros Hp. unfold cleanPeerstore. cbn [negb]. destruct (Z.ltb_spec (len peers) minPeerCount) as [H|H].
  - split; [intros Hx; by apply not_elem_of_nil in Hx|]. lia.
  - rewrite list_elem_of_filter. split.
    + intros [E _]. apply orb_false_iff in E as [[E1 E2]%orb_false_iff E3]. by apply bool_decide_eq_false in E1.
    + intros (_ & Hne & -> & ->). by rewrite bool_decide_eq_false_2.
Qed.
End store.

(** ** Examples *)

Definition plain_multiaddrs : Multiaddrs := {|
  components a := [("ip4", a)]%string; NewMultiaddr := Some; peer_Decode := Some; peer_String := id |}.

Lemma plain_multiaddrs_laws : MultiaddrsLaws plain_multiaddrs.
Proof. by split. Qed.

Definition example_store_json : StoreJson := {| store_marshal := any_marshal; store_unmarshal := any_unmarshal |}.

Lemma example_store_json_laws : StoreJsonLaws example_store_json.
Proof. split. intros m. apply any_unmarshal_marshal. Qed.

Definition letters : list string := (fun i => String (Ascii.ascii_of_nat (97 + i)) "") <$> seq 0 16.

Definition letter_addrs (p : string) : list string := ["8.8.8.8"; "192.168.1.1"]%string.

Lemma peerstore_survives_witness :
  exists raw calls, @loadPeerstore plain_multiaddrs listed_order example_store_json (ReadData raw) = (None, calls) /\
    ("c"%string, ["8.8.8.8"%string]) ∈ calls.
Proof.
  destruct (@peerstore_survives plain_multiaddrs listed_order example_store_json (fun _ => "sum"%string)
    plain_multiaddrs_laws listed_order_laws example_store_json_laws letters letter_addrs (mkSaver "" None))
    as (raw & calls & _ & Hl & _ & Hc); [vm_compute; done|done|done|].
  exists raw, calls. split; [exact Hl|]. apply Hc. split; [|split; [by vm_compute|done]].
  apply (bool_decide_unpack _). by vm_compute.
Defined.

Lemma failed_save_not_retried_witness :
  (@savePeerstore plain_multiaddrs example_store_json (fun _ => "sum"%string) true letters letter_addrs None
    (mkSaver "sum" None)).2 = mkSaver "sum" None.
Proof.
  rewrite (proj2 (@failed_save_not_retried plain_multiaddrs example_store_json (fun _ => "sum"%string)
    letters letter_addrs None (mkSaver "" None) (mkSaver "sum" None) ltac:(by vm_compute)) None). reflexivity.
Defined.

Lemma clean_outcome_witness :
  "b"%string ∈ cleanPeerstore true "a" (fun _ => false) (fun p => bool_decide (p = "c"%string)) letters.
Proof.
  apply (clean_outcome "a" (fun _ => false) (fun p => bool_decide (p = "c"%string)) letters "b");
    [apply (bool_decide_unpack _); by vm_compute|]. split; [by vm_compute|done].
Defined.
