(* ===== verification/DnsAddrs.v ===== *)
(** Resolving the bootstrap addresses (src/p2put/multidns.go, and
    [loadOrResolveAllDNSAddrs] of libp2p_bs.go): following DNS multiaddrs down to
    addresses, and the cache file of the result.

    The DNS is the class [Dns]: what [madns.Resolve] answers for a multiaddr.  The
    recursion of [resolveDNSAddrFully] goes as deep as the DNS says, so it takes
    fuel; [None] is a call that has not returned when the fuel is used up, and
    [resolve_returns_iff] says when some fuel is enough. *)

From stdpp Require Import gmap strings.
From S2P Require Import Prelude GoLib PrivateIP PeerAddr PeerStore.

(** [madns.Resolve]: the answers, and whether there was no error; [madns.Matches]. *)
Class Dns := {
  Resolve : string -> list string * bool;
  Matches : string -> bool;
}.

Section dns.
Context {MA : Multiaddrs} {D : Dns}.

Definition hasDNSComponent (a : string) : bool :=
  existsb (fun c => bool_decide (c.1 ∈ ["dns4"; "dns6"; "dns"; "dnsaddr"]%string)) (components a).

(** ** Resolving *)

Inductive dns_error := ParseMultiaddr | ResolveFailed.

(** A turn of the loop of [resolveDNSAddrFully]; [self] is the recursive call. *)
Definition resolve_turn (self : string -> option (list string * list dns_error))
    (acc : option (list string * list dns_error)) (r : string) : option (list string * list dns_error) :=
  '(resolved, errs) ← acc;
  if Matches r then
    '(subResolved, subErrs) ← self r;
    Some (resolved ++ subResolved, errs ++ subErrs)
  else if hasDNSComponent r then
    '(subResolved, subErrs) ← self r;
    Some (resolved ++ (match subResolved with [] => [r] | _ => subResolved end), errs ++ subErrs)
  else Some (resolved ++ [r], errs).

Fixpoint resolveDNSAddrFully (fuel : nat) (addrStr : string) : option (list string * list dns_error) :=
  match fuel with
  | O => None
  | S fuel =>
      match NewMultiaddr addrStr with
      | None => Some ([], [ParseMultiaddr])
      | Some maddr =>
          let '(results, ok) := Resolve maddr in
          foldl (resolve_turn (resolveDNSAddrFully fuel)) (Some ([], if ok then [] else [ResolveFailed])) results
      end
  end.

Definition resolve_name (fuel : nat) (acc : option (gmap string (list string))) (addrStr : string)
    : option (gmap string (list string)) :=
  result ← acc;
  '(resolved, _) ← resolveDNSAddrFully fuel addrStr;
  Some (match resolved with [] => result | _ => <[addrStr := resolved]> result end).

Definition resolveAllDNSAddrsQuiet (fuel : nat) (addrStrs : list string) : option (gmap string (list string)) :=
  foldl (resolve_name fuel) (Some ∅) addrStrs.

(** ** When it returns *)

(** Resolving [a] resolves [r] in turn. *)
Definition refers (r a : string) : Prop :=
  exists maddr, NewMultiaddr a = Some maddr /\ r ∈ (Resolve maddr).1 /\ Matches r || hasDNSComponent r = true.

Lemma turns_None self l : foldl (resolve_turn self) None l = None.
Proof. induction l; [done|]. by cbn. Qed.

Lemma turns_Some_acc self l acc res : foldl (resolve_turn self) acc l = Some res -> is_Some acc.
Proof. destruct acc; [by eauto|]. by rewrite turns_None. Qed.

(** A loop ends when every recursive call in it does. *)
Lemma turns_returns self l acc :
  (forall r, r ∈ l -> Matches r || hasDNSComponent r = true -> is_Some (self r)) -> is_Some (foldl (resolve_turn self) (Some acc) l).
Proof.
  revert acc. induction l as [|r l IH]; intros [resolved errs] H; [by eexists|]. cbn [foldl].
  assert (exists acc', resolve_turn self (Some (resolved, errs)) r = Some acc') as [acc' ->].
  { unfold resolve_turn. cbn. specialize (H r ltac:(left)). destruct (Matches r), (hasDNSComponent r); cbn in H; [| | |by eexists].
    all: destruct (H eq_refl) as [[] ->]; by eexists. }
  apply IH. intros. apply H; [by right|done].
Qed.

Lemma turns_calls self l acc : is_Some (foldl (resolve_turn self) acc l) ->
  forall r, r ∈ l -> Matches r || hasDNSComponent r = true -> is_Some (self r).
Proof.
  revert acc. induction l as [|x l IH]; intros acc [res H] r Hr Hd; [by apply not_elem_of_nil in Hr|]. cbn in H.
  apply elem_of_cons in Hr as [->|Hr]; [|by eapply IH].
  apply turns_Some_acc in H as [acc' H]. destruct acc as [[resolved errs]|]; [|done]. cbn in H.
  destruct (self x); [by eexists|]. by destruct (Matches x), (hasDNSComponent x).
Qed.

Lemma turns_ext self self' l acc res :
  (forall r x, self r = Some x -> self' r = Some x) ->
  foldl (resolve_turn self) acc l = Some res -> foldl (resolve_turn self') acc l = Some res.
Proof.
  intros Hs. revert acc. induction l as [|r l IH]; intros acc H; [done|]. cbn [foldl] in *.
  assert (resolve_turn self' acc r = resolve_turn self acc r) as ->; [|by apply IH].
  apply turns_Some_acc in H as [x Hx]. rewrite Hx. destruct acc as [[resolved errs]|]; [|done]. cbn in *.
  destruct (Matches r), (hasDNSComponent r); try done; destruct (self r) eqn:E; try done; by rewrite (Hs _ _ E).
Qed.

Lemma resolve_more fuel fuel' a res : (fuel <= fuel')%nat ->
  resolveDNSAddrFully fuel a = Some res -> resolveDNSAddrFully fuel' a = Some res.
Proof.
  revert fuel' a res. induction fuel as [|fuel IH]; intros fuel' a res Hle H; [done|].
  destruct fuel' as [|fuel']; [lia|]. cbn in *. destruct (NewMultiaddr a) as [m|]; [|done]. destruct (Resolve m) as [results ok].
  eapply turns_ext; [|exact H]. intros r x. apply IH. lia.
Qed.

(** Enough fuel for each of a list is enough for all. *)
Lemma fuel_for_all (l : list string) (P : string -> Prop) : (forall r, r ∈ l -> P r -> exists fuel, is_Some (resolveDNSAddrFully fuel r)) ->
  (forall r, Decision (P r)) -> exists fuel, forall r, r ∈ l -> P r -> is_Some (resolveDNSAddrFully fuel r).
Proof.
  intros H HP. induction l as [|r l IH]; [exists O; intros r Hr; by apply not_elem_of_nil in Hr|].
  destruct IH as [f1 H1]; [intros x Hx; apply H; by right|]. destruct (decide (P r)) as [Hd|Hd].
  - destruct (H r ltac:(left) Hd) as [f2 H2]. exists (f1 `max` f2)%nat. intros x [->|Hx]%elem_of_cons Hp.
    + destruct H2 as [y Hy]. exists y. eapply resolve_more; [|exact Hy]. lia.
    + destruct (H1 x Hx Hp) as [y Hy]. exists y. eapply resolve_more; [|exact Hy]. lia.
  - exists f1. intros x [->|Hx]%elem_of_cons Hp; [done|auto].
Qed.

(** Resolving a name returns exactly when the names it leads to form no endless
    chain: there is no limit in the code, so a name whose answers lead back to it
    makes the recursion run until the stack is used up. *)
Theorem resolve_returns_iff a : (exists fuel, is_Some (resolveDNSAddrFully fuel a)) <-> Acc refers a.
Proof.
  split.
  - intros [fuel H]. revert a H. induction fuel as [|fuel IH]; intros a H; [by destruct H|].
    constructor. intros r (m & Hm & Hr & Hd). apply IH. cbn in H. rewrite Hm in H. destruct (Resolve m) as [results ok].
    by eapply turns_calls.
  - induction 1 as [a _ IH]. destruct (NewMultiaddr a) as [m|] eqn:Em; [|exists 1%nat; cbn; rewrite Em; by eexists].
    destruct (fuel_for_all (Resolve m).1 (fun r => Matches r || hasDNSComponent r = true)) as [fuel Hf].
    { intros r Hr Hd. apply IH. by exists m. }
    { intros r. apply _. }
    exists (S fuel). cbn. rewrite Em. destruct (Resolve m) as [results ok]. by apply turns_returns.
Qed.

(** ** What it returns *)

(** [x] is an address at the end of a chain of answers from [a]. *)
Inductive yields : string -> string -> Prop :=
| yields_now a maddr x : NewMultiaddr a = Some maddr -> x ∈ (Resolve maddr).1 -> Matches x = false -> hasDNSComponent x = false -> yields a x
| yields_later a r x : refers r a -> yields r x -> yields a x.

(** What a turn adds, when [madns.Matches] knows every DNS component. *)
Lemma turns_result self l acc errs res (Y : string -> string -> Prop) :
  (forall a, hasDNSComponent a = true -> Matches a = true) ->
  (forall r sub e, self r = Some (sub, e) -> forall x, x ∈ sub <-> Y r x) ->
  foldl (resolve_turn self) (Some (acc, errs)) l = Some res ->
  forall x, x ∈ res.1 <-> x ∈ acc \/ (x ∈ l /\ Matches x = false) \/ exists r, r ∈ l /\ Matches r = true /\ Y r x.
Proof.
  intros Hdns Hself. revert acc errs. induction l as [|r l IH]; intros acc errs H x.
  { injection H as <-. cbn. set_solver. }
  cbn [foldl] in H. pose proof (turns_Some_acc _ _ _ _ H) as [[acc' errs'] E]. rewrite E in H. rewrite (IH _ _ H x).
  clear IH H. cbn in E. destruct (Matches r) eqn:Em.
  - destruct (self r) as [[sub e]|] eqn:Es; [|done]. injection E as <- <-. pose proof (Hself _ _ _ Es x) as Hx.
    rewrite elem_of_app, Hx. split.
    + intros [[?|?]|[[? ?]|(r' & ? & ? & ?)]]; [by left| | |]; right; [right; exists r|left|right; exists r'];
        (split; [|done]); by constructor.
    + intros [?|[[[->|?]%elem_of_cons ?]|(r' & [->|?]%elem_of_cons & ? & ?)]]; [by left; left|congruence| | |].
      * right. by left.
      * left. by right.
      * right. right. by exists r'.
  - assert (hasDNSComponent r = false) as Hd by (destruct (hasDNSComponent r) eqn:Ed; [apply Hdns in Ed; congruence|done]).
    rewrite Hd in E. injection E as <- <-. rewrite elem_of_app, list_elem_of_singleton. split.
    + intros [[?| ->]|[[? ?]|(r' & ? & ? & ?)]]; [by left| | |]; right; [left|left|right; exists r']; (split; [|done]); by constructor.
    + intros [?|[[[->|?]%elem_of_cons ?]|(r' & [->|?]%elem_of_cons & ? & ?)]]; [by left; left|by left; right| |congruence|].
      * right. by left.
      * right. right. by exists r'.
Qed.

(** The result is complete: when it returns, it has exactly the addresses at the end
    of the chains of answers, whatever errors occurred beside them. *)
Theorem resolve_complete fuel a l errs : (forall a, hasDNSComponent a = true -> Matches a = true) ->
  resolveDNSAddrFully fuel a = Some (l, errs) -> forall x, x ∈ l <-> yields a x.
Proof.
  intros Hdns. revert a l errs. induction fuel as [|fuel IH]; intros a l errs H x; [done|]. cbn in H.
  destruct (NewMultiaddr a) as [m|] eqn:Em.
  - destruct (Resolve m) as [results ok] eqn:Er.
    rewrite (turns_result _ _ _ _ _ yields Hdns IH H x). split.
    + intros [Hx|[[Hx Hm]|(r & Hr & Hm & Hy)]]; [by apply not_elem_of_nil in Hx| |].
      * eapply yields_now; [done|by rewrite Er|done|]. destruct (hasDNSComponent x) eqn:Ed; [apply Hdns in Ed; congruence|done].
      * eapply yields_later; [|exact Hy]. exists m. rewrite Er, Hm. done.
    + intros Hy. inversion Hy as [? m' ? Hm' Hx Hmx Hdx|? r ? (m' & Hm' & Hr & Hd) Hy']; subst.
      * right. left. simplify_eq. by rewrite Er in Hx.
      * right. right. simplify_eq. rewrite Er in Hr. exists r. split; [done|]. split; [|done].
        apply orb_true_iff in Hd as [?|?]; auto.
  - injection H as <- <-. split; [intros Hx; by apply not_elem_of_nil in Hx|].
    intros Hy. inversion Hy as [? m' ? Hm'|? r ? (m' & Hm' & _)]; congruence.
Qed.
End dns.

(** ** The cache *)

Definition dnsaddrsCacheDur : Z := 5 * 3600 * second.

(** The two addresses left out: with a colon, and over UDP. *)
Definition usable (addr : string) : bool := negb (contains addr ":" || contains addr "/udp/").

Definition containsAddr (slice : list string) (addr : string) : bool := existsb (fun a => bool_decide (a = addr)) slice.

Definition add_node (nodes : list string) (addr : string) : list string :=
  if negb (usable addr) then nodes else if containsAddr nodes addr then nodes else nodes ++ [addr].

Definition add_nodes {Ord : MapOrder} (resolved : gmap string (list string)) (nodes : list string) : list string :=
  foldl (fun nodes e => foldl add_node nodes e.2) nodes (map_range resolved).

(** What is read: the data of the file with its time, [None] when [Stat] fails.  The
    resolved map when it is fresh and decodes. *)
Definition fresh_cache {J : StoreJson} (now : Z) (file : option (list byte * option Z)) : option (gmap string (list string)) :=
  '(data, stat) ← file;
  modTime ← stat;
  if time_sub now modTime <? dnsaddrsCacheDur then store_unmarshal data else None.

(** [loadOrResolveAllDNSAddrs]: the nodes and what is written to the file. *)
Definition loadOrResolveAllDNSAddrs {MA : Multiaddrs} {D : Dns} {Ord : MapOrder} {J : StoreJson}
    (fuel : nat) (now : Z) (bootstrap : list string) (file : option (list byte * option Z)) (writable : bool)
    (nodes : list string) : option (outcome (list string * option (list byte))) :=
  match fresh_cache now file with
  | Some resolved => Some (Ok (add_nodes resolved nodes, None))
  | None =>
      resolved ← resolveAllDNSAddrsQuiet fuel bootstrap;
      if negb writable then Some Panic
      else Some (Ok (add_nodes resolved nodes, Some (store_marshal resolved)))
  end.

Lemma containsAddr_spec l a : containsAddr l a = bool_decide (a ∈ l).
Proof.
  unfold containsAddr. induction l as [|b l IH]; [done|]. cbn. rewrite IH. rewrite (bool_decide_ext (a ∈ b :: l) (b = a \/ a ∈ l)) by set_solver.
  by rewrite bool_decide_or.
Qed.

Lemma add_node_spec nodes a : NoDup nodes -> NoDup (add_node nodes a) /\
  forall x, x ∈ add_node nodes a <-> x ∈ nodes \/ usable x = true /\ x = a.
Proof.
  intros Hn. unfold add_node. rewrite containsAddr_spec. destruct (usable a) eqn:Eu; cbn.
  - case_bool_decide as Ha; (split; [|set_solver]); [done|]. apply NoDup_app. split; [done|]. split; [set_solver|apply NoDup_singleton].
  - split; [done|]. intros x. split; [by left|]. intros [?|[? ->]]; [done|congruence].
Qed.

Lemma add_list_spec l nodes : NoDup nodes -> NoDup (foldl add_node nodes l) /\
  forall x, x ∈ foldl add_node nodes l <-> x ∈ nodes \/ usable x = true /\ x ∈ l.
Proof.
  revert nodes. induction l as [|a l IH]; intros nodes Hn; cbn; [set_solver|].
  destruct (add_node_spec nodes a Hn) as [Hn1 Hx1]. destruct (IH _ Hn1) as [Hn2 Hx2]. split; [done|]. intros x. rewrite Hx2, Hx1, elem_of_cons. tauto.
Qed.

Lemma add_nodes_spec {Ord : MapOrder} {OL : MapOrderLaws Ord} resolved nodes : NoDup nodes -> NoDup (add_nodes resolved nodes) /\
  forall x, x ∈ add_nodes resolved nodes <-> x ∈ nodes \/ usable x = true /\ exists k l, resolved !! k = Some l /\ x ∈ l.
Proof.
  unfold add_nodes. assert (forall k l, (k, l) ∈ map_range resolved <-> resolved !! k = Some l) as Hr.
  { intros k l. by rewrite (map_range_perm _ _), elem_of_map_to_list. }
  setoid_rewrite <-Hr. clear Hr. generalize (map_range resolved). intros es. revert nodes. induction es as [|[k l] es IH]; intros nodes Hn; cbn.
  - split; [done|]. intros x. split; [by left|]. intros [?|(_ & k & l & Hkl & _)]; [done|by apply not_elem_of_nil in Hkl].
  - destruct (add_list_spec l nodes Hn) as [Hn1 Hx1]. destruct (IH _ Hn1) as [Hn2 Hx2]. split; [done|]. intros x. rewrite Hx2, Hx1. clear. split.
    + intros [[?|[? ?]]|(? & k' & l' & ? & ?)]; [by left|right|right]; (split; [done|]); [exists k, l|exists k', l']; (split; [|done]); by constructor.
    + intros [?|(? & k' & l' & [[= -> ->]|?]%elem_of_cons & ?)]; [by left; left|by left; right|]. right. split; [done|]. by exists k', l'.
Qed.

Section nodes.
Context {MA : Multiaddrs} {D : Dns} {J : StoreJson} {JL : StoreJsonLaws J}.

Lemma resolveAll_spec fuel names resolved : (forall a, hasDNSComponent a = true -> Matches a = true) ->
  resolveAllDNSAddrsQuiet fuel names = Some resolved ->
  forall k l, resolved !! k = Some l -> k ∈ names /\ forall x, x ∈ l <-> yields k x.
Proof.
  intros Hdns. unfold resolveAllDNSAddrsQuiet. revert resolved. induction names as [|a names IH] using rev_ind; intros resolved.
  - cbn. intros [= <-] k l. by rewrite lookup_empty.
  - rewrite foldl_app. cbn [foldl]. unfold resolve_name at 1. destruct (foldl _ _ names) as [r|]; [|done]. cbn.
    destruct (resolveDNSAddrFully fuel a) as [[l' e]|] eqn:E; [|done]. cbn. intros [= <-] k l Hk.
    assert (r !! k = Some l \/ k = a /\ l = l') as [H|[-> ->]].
    { destruct l'; [by left|]. apply lookup_insert_Some in Hk as [[<- <-]|[_ ?]]; [by right|by left]. }
    + destruct (IH r eq_refl k l H) as [? ?]. split; [set_solver|done].
    + split; [set_solver|]. by eapply resolve_complete.
Qed.

Lemma resolveAll_present fuel names resolved a x : (forall a, hasDNSComponent a = true -> Matches a = true) ->
  resolveAllDNSAddrsQuiet fuel names = Some resolved -> a ∈ names -> yields a x -> exists l, resolved !! a = Some l /\ x ∈ l.
Proof.
  intros Hdns. unfold resolveAllDNSAddrsQuiet. revert resolved. induction names as [|b names IH] using rev_ind; intros resolved.
  - intros _ Ha. by apply not_elem_of_nil in Ha.
  - rewrite foldl_app. cbn [foldl]. unfold resolve_name at 1. destruct (foldl _ _ names) as [r|]; [|done]. cbn.
    destruct (resolveDNSAddrFully fuel b) as [[l' e]|] eqn:E; [|done]. cbn. intros [= <-] Ha Hy.
    destruct (decide (a = b)) as [->|Hne].
    + assert (x ∈ l') as Hx by (by eapply (resolve_complete fuel b)). destruct l'; [by apply not_elem_of_nil in Hx|].
      eexists. split; [apply lookup_insert_eq|done].
    + destruct (IH r eq_refl) as (l & Hl & Hx); [set_solver|done|]. exists l. split; [|done].
      destruct l'; [done|]. by rewrite lookup_insert_ne.
Qed.

(** Enough fuel resolves them all. *)
Lemma resolveAll_returns names : (forall a, a ∈ names -> Acc refers a) ->
  exists fuel resolved, forall fuel', (fuel <= fuel')%nat -> resolveAllDNSAddrsQuiet fuel' names = Some resolved.
Proof.
  unfold resolveAllDNSAddrsQuiet. induction names as [|a names IH] using rev_ind; intros Hacc; [by exists O, ∅|].
  destruct IH as (f1 & r & H1); [intros; apply Hacc; set_solver|].
  destruct (proj2 (resolve_returns_iff a)) as (f2 & [l e] & H2); [apply Hacc; set_solver|].
  eexists (f1 `max` f2)%nat, _. intros fuel' Hle. rewrite foldl_app, H1 by lia. cbn.
  by rewrite (resolve_more f2 fuel' a (l, e)) by (done || lia).
Qed.

(** C29: The bootstrap nodes.  Without a fresh cache file and with names that lead in no
    circle, resolving returns, and the nodes are, each once, exactly the usable
    addresses the bootstrap names lead to; and a run that finds the file written
    then, within five hours, gets the same nodes without asking the DNS, in some
    order. *)
Theorem bootstrap_nodes_exact {Ord : MapOrder} {OL : MapOrderLaws Ord} now names file :
  (forall a, hasDNSComponent a = true -> Matches a = true) -> (forall a, a ∈ names -> Acc refers a) ->
  fresh_cache now file = None ->
  exists fuel nodes raw,
  (forall fuel', (fuel <= fuel')%nat -> loadOrResolveAllDNSAddrs fuel' now names file true [] = Some (Ok (nodes, Some raw))) /\
  NoDup nodes /\ (forall x, x ∈ nodes <-> usable x = true /\ exists a, a ∈ names /\ yields a x) /\
  forall (Ord' : MapOrder) (OL' : MapOrderLaws Ord') (D' : Dns) fuel' now' names' modTime writable,
    time_sub now' modTime < dnsaddrsCacheDur ->
    exists nodes', @loadOrResolveAllDNSAddrs MA D' Ord' J fuel' now' names' (Some (raw, Some modTime)) writable [] = Some (Ok (nodes', None)) /\
      nodes' ≡ₚ nodes.
Proof.
  intros Hdns Hacc Hf. destruct (resolveAll_returns names Hacc) as (fuel & resolved & Hr). pose proof (Hr fuel (le_n _)) as Er.
  destruct (add_nodes_spec (Ord := Ord) resolved [] ltac:(constructor)) as [Hn Hx].
  exists fuel, (add_nodes resolved []), (store_marshal resolved). split; [|split; [done|split]].
  - intros fuel' Hle. unfold loadOrResolveAllDNSAddrs. by rewrite Hf, Hr.
  - intros x. rewrite Hx. split.
    + intros [H|(Hu & k & l & Hk & Hl)]; [by apply not_elem_of_nil in H|]. split; [done|].
      destruct (resolveAll_spec fuel names resolved Hdns Er k l Hk) as [? H]. exists k. by rewrite <-H.
    + intros (Hu & a & Ha & Hy). right. split; [done|]. exists a. by eapply resolveAll_present.
  - intros Ord' OL' D' fuel' now' names' modTime writable Ht. unfold loadOrResolveAllDNSAddrs, fresh_cache. cbn.
    replace (_ <? _) with true by lia. rewrite store_unmarshal_marshal. eexists. split; [done|].
    destruct (add_nodes_spec (Ord := Ord') resolved [] ltac:(constructor)) as [Hn' Hx']. apply NoDup_Permutation; [done..|].
    intros x. by rewrite Hx', Hx.
Qed.

End nodes.

(** ** Examples *)

(** The names: one that needs the DNS and one that is an address. *)
Definition names_text : Multiaddrs := {|
  components a := if contains a "dnsaddr" then [("dnsaddr", a)]%string else [("ip4", a)]%string;
  NewMultiaddr := Some; peer_Decode := Some; peer_String := id |}.

Definition dns_matches (a : string) : bool := contains a "dnsaddr".

Definition dns_up : Dns := {|
  Resolve a := if bool_decide (a = "/dnsaddr/boot"%string) then (["/dnsaddr/inner"; "/ip4/2/udp/1"]%string, true)
               else if bool_decide (a = "/dnsaddr/inner"%string) then (["/ip4/3"]%string, true) else ([a], true);
  Matches := dns_matches |}.

Definition dns_down : Dns := {| Resolve a := if dns_matches a then ([], false) else ([a], true); Matches := dns_matches |}.

Definition boot_names : list string := ["/dnsaddr/boot"; "/ip4/1"]%string.

Definition node_start (D : Dns) (now : Z) (file : option (list byte * option Z)) : option (outcome (list string * option (list byte))) :=
  @loadOrResolveAllDNSAddrs names_text D listed_order example_store_json 3 now boot_names file true [].

(** A start while the DNS is down caches what it got; a start within five hours does
    not see that the DNS is up again. *)
Example outage_is_cached :
  match node_start dns_down 1000 None with
  | Some (Ok (nodes, Some raw)) =>
      nodes = ["/ip4/1"]%string /\
      node_start dns_up (1000 + 4 * 3600 * second) (Some (raw, Some 1000)) = Some (Ok (["/ip4/1"]%string, None)) /\
      (fst <$> match node_start dns_up (1000 + 6 * 3600 * second) (Some (raw, Some 1000)) with Some (Ok r) => Some r | _ => None end)
        = Some ["/ip4/1"; "/ip4/3"]%string
  | _ => False
  end.
Proof. by vm_compute. Qed.

Lemma dns_up_matches a : @hasDNSComponent names_text a = true -> @Matches dns_up a = true.
Proof. unfold hasDNSComponent. cbn. unfold dns_matches. by destruct (contains a "dnsaddr"). Qed.

Lemma dns_up_ends a : a ∈ boot_names -> Acc (@refers names_text dns_up) a.
Proof.
  intros Ha. apply (@resolve_returns_iff names_text dns_up). exists 3%nat. revert a Ha. apply Forall_forall.
  repeat constructor; by vm_compute; eexists.
Qed.

Lemma bootstrap_nodes_exact_witness : exists fuel nodes raw,
  (forall fuel', (fuel <= fuel')%nat ->
    @loadOrResolveAllDNSAddrs names_text dns_up listed_order example_store_json fuel' 1000 boot_names None true [] = Some (Ok (nodes, Some raw))) /\
  "/ip4/3"%string ∈ nodes.
Proof.
  destruct (@bootstrap_nodes_exact names_text dns_up example_store_json example_store_json_laws
    listed_order listed_order_laws 1000 boot_names None dns_up_matches dns_up_ends eq_refl) as (fuel & nodes & raw & Hrun & _ & Hx & _).
  exists fuel, nodes, raw. split; [exact Hrun|]. apply Hx.
  split; [done|]. exists "/dnsaddr/boot"%string. split; [by left|].
  apply (yields_later _ "/dnsaddr/inner"); [exists "/dnsaddr/boot"%string; split; [done|]; split; [by left|done]|].
  by eapply (yields_now _ "/dnsaddr/inner"); [|left| |].
Defined.

Lemma resolve_complete_witness :
  "/ip4/3"%string ∈ ["/ip4/3"; "/ip4/2/udp/1"]%string <-> @yields names_text dns_up "/dnsaddr/boot" "/ip4/3".
Proof.
  apply (@resolve_complete names_text dns_up 3 "/dnsaddr/boot" ["/ip4/3"; "/ip4/2/udp/1"]%string []); [|by vm_compute].
  intros a. unfold hasDNSComponent. cbn. unfold dns_matches. by destruct (contains a "dnsaddr").
Defined.

(** A name that answers with itself is followed for ever. *)
Example dns_loop : exists D : Dns, forall fuel, @resolveDNSAddrFully names_text D fuel "/dnsaddr/x" = None.
Proof.
  exists {| Resolve a := ([a], true); Matches := dns_matches |}. induction fuel as [|fuel IH]; [done|].
  cbn [resolveDNSAddrFully]. change (NewMultiaddr "/dnsaddr/x") with (Some "/dnsaddr/x"%string). cbn -[resolveDNSAddrFully]. by rewrite IH.
Qed.
