(* ===== verification/RelayManager.v ===== *)
(** The manager of the relay reservations (src/p2put/libp2p_bs.go,
    [relayPoolManager] and [doRelayReserve]), on top of the relay pool and the
    address manager.

    What the network answers during a pass is a [relay_env]: which peers are
    connected when the managed relays are checked and when new ones are taken,
    the results of [Connect] and [Reserve], and the clock at each call.  A pass is
    one step; other calls of the pool come between passes. *)

From stdpp Require Import gmap strings.
From S2P Require Import Prelude GoLib RelayPool RelayPoolProps PrivateIP PeerAddr AddrMgr.

Section manager.
Context {F : PoolFloat} {O : MapOrder} {Srt : SortSlice}.

Record relay_env := mkEnv {
  re_connected : string -> bool;
  re_connected' : string -> bool;
  re_connect : string -> option pool_error;
  (** [client.Reserve]: an error, or the addresses and the expiration. *)
  re_reserve : string -> pool_error + list string * Z;
  re_clock : nat -> string -> Z;
}.

Record manager := mkManager {
  mg_pool : RelayPool.RelayPool;
  mg_addrs : AddrManager;
  (** The peers [ClosePeer] was called for. *)
  mg_closed : list string;
}.

#[global] Instance manager_eta : Eta manager := fun m => mkManager (mg_pool m) (mg_addrs m) (mg_closed m).

Definition on_pool (f : RelayPool.RelayPool -> RelayPool.RelayPool) (m : manager) : manager := m <| mg_pool := f (mg_pool m) |>.

Definition ListManaged (p : RelayPool.RelayPool) : list string :=
  (map_range (gset_to_gmap () (rp_managed p))).*1.

(** What is done with the result of [Reserve], here and in the check of a managed relay. *)
Definition reserved (env : relay_env) (pid : string) (m : manager) : manager :=
  match re_reserve env pid with
  | inl err => on_pool (RecordResult (re_clock env 1 pid) pid (Some err)) m
  | inr (addrs, expiration) =>
      let m := m <| mg_addrs := SetRelayVouch pid addrs expiration (mg_addrs m) |> in
      let m := on_pool (SetReservationTTL pid expiration) m in
      on_pool (RecordResult (re_clock env 1 pid) pid None) m
  end.

Definition doRelayReserve (env : relay_env) (pid : string) (m : manager) : manager :=
  match re_connect env pid with
  | Some err => on_pool (RecordResult (re_clock env 0 pid) pid (Some err)) m
  | None => reserved env pid (on_pool (RecordResult (re_clock env 0 pid) pid None) m)
  end.

(** A managed relay: the peers to remove so far and the state. *)
Definition check_managed (env : relay_env) (st : list string * manager) (pid : string) : list string * manager :=
  let '(toRemove, m) := st in
  if negb (re_connected env pid) then (toRemove ++ [pid], m)
  else if IsCircuitOpen pid (mg_pool m) then (toRemove ++ [pid], m <| mg_closed := mg_closed m ++ [pid] |>)
  else (toRemove, reserved env pid m).

Definition take_relay (env : relay_env) (m : manager) (ai : string * string) : manager :=
  if re_connected' env ai.1 then m
  else doRelayReserve env ai.1 (on_pool (AddManaged [ai.1]) m).

(** The initial reservations of [relayPoolManager]. *)
Definition manager_start (now : Z) (env : relay_env) (k : Z) (m : manager) : outcome manager :=
  match SelectN now k (mg_pool m) with
  | Panic => Panic
  | Ok initial =>
      let m := on_pool (AddManaged initial.*1) m in
      Ok (foldl (fun m ai => doRelayReserve env ai.1 m) m initial)
  end.

(** A tick. *)
Definition manager_tick (now : Z) (env : relay_env) (k : Z) (m : manager) : outcome manager :=
  let '(toRemove, m) := foldl (check_managed env) ([], m) (ListManaged (mg_pool m)) in
  let m := on_pool (RemoveManaged toRemove) m in
  if len (ListManaged (mg_pool m)) <? k then
    let need := k - len (ListManaged (mg_pool m)) in
    match SelectN now need (mg_pool m) with
    | Panic => Panic
    | Ok infos => Ok (foldl (take_relay env) m infos)
    end
  else Ok m.

(** ** What a pass does to the managed relays *)

Context `{!MapOrderLaws O} `{!SortSliceLaws Srt}.

Lemma prune_managed now p : rp_managed (prune now p) = rp_managed p.
Proof. unfold prune. cbv zeta. repeat case_match; rewrite ?(proj2 (proj2 (proj2 (evict_fields _ _)))); done. Qed.

Lemma RecordResult_managed now pid err p : rp_managed (RecordResult now pid err p) = rp_managed p.
Proof. unfold RecordResult, RecordResult_update. destruct (rp_items p !! pid); [by rewrite prune_managed|done]. Qed.

Lemma update_item_managed pid f p : rp_managed (update_item pid f p) = rp_managed p.
Proof. unfold update_item. by case_match. Qed.

Lemma pool_on_pool f m : mg_pool (on_pool f m) = f (mg_pool m).
Proof. done. Qed.

Abbreviation managed_of m := (rp_managed (mg_pool m)).

Lemma reserved_managed env pid m : managed_of (reserved env pid m) = managed_of m.
Proof.
  unfold reserved, on_pool, SetReservationTTL. repeat case_match; cbn;
    by rewrite RecordResult_managed, ?update_item_managed.
Qed.

Lemma doRelayReserve_managed env pid m : managed_of (doRelayReserve env pid m) = managed_of m.
Proof.
  unfold doRelayReserve. case_match; [|rewrite reserved_managed]; unfold on_pool; cbn; by rewrite RecordResult_managed.
Qed.

Lemma check_loop env l rem m : let '(rem', m') := foldl (check_managed env) (rem, m) l in
  managed_of m' = managed_of m /\ exists gone, rem' = rem ++ gone /\
    (forall pid, pid ∈ gone -> pid ∈ l) /\ (forall pid, pid ∈ l -> re_connected env pid = false -> pid ∈ gone).
Proof.
  revert rem m. induction l as [|pid l IH]; intros rem m; cbn [foldl].
  { split; [done|]. exists []. rewrite app_nil_r. set_solver. }
  destruct (check_managed env (rem, m) pid) as [rem1 m1] eqn:E. specialize (IH rem1 m1).
  destruct (foldl _ _ l) as [rem' m']. destruct IH as (-> & gone & -> & Hin & Hout). unfold check_managed in E.
  destruct (re_connected env pid) eqn:Ec; cbn [negb] in E; [case_match; simplify_eq|simplify_eq].
  - split; [done|]. exists (pid :: gone). rewrite <-app_assoc. set_solver.
  - split; [by rewrite reserved_managed|]. exists gone. split; [done|]. split; [set_solver|].
    intros q [->|?]%elem_of_cons ?; [congruence|auto].
  - split; [done|]. exists (pid :: gone). rewrite <-app_assoc. split; [done|]. split; [set_solver|].
    intros q [->|?]%elem_of_cons ?; [set_solver|]. apply elem_of_cons. right. auto.
Qed.

Lemma elem_of_ListManaged p pid : pid ∈ ListManaged p <-> pid ∈ rp_managed p.
Proof.
  unfold ListManaged. rewrite list_elem_of_fmap. split.
  - intros ([k u] & -> & Hk%elem_of_map_range). apply lookup_gset_to_gmap_Some in Hk. tauto.
  - intros H. exists (pid, ()). split; [done|]. apply elem_of_map_range. by apply lookup_gset_to_gmap_Some.
Qed.

Lemma len_ListManaged p : len (ListManaged p) = Z.of_nat (size (rp_managed p)).
Proof.
  unfold ListManaged. rewrite length_fmap, map_range_perm, length_map_to_list. f_equal.
  by rewrite <-size_dom, dom_gset_to_gmap.
Qed.

Lemma RemoveManaged_managed l p : rp_managed (RemoveManaged l p) = rp_managed p ∖ list_to_set l.
Proof.
  unfold RemoveManaged. cbn. generalize (rp_managed p) as s. induction l as [|x l IH]; intros s; cbn; [set_solver|].
  rewrite IH. set_solver.
Qed.

Lemma AddManaged_managed l p : rp_managed (AddManaged l p) = list_to_set l ∪ rp_managed p.
Proof.
  unfold AddManaged. cbn. generalize (rp_managed p) as s. induction l as [|x l IH]; intros s; cbn; [set_solver|].
  rewrite IH. set_solver.
Qed.

Lemma take_loop env m l : let m' := foldl (take_relay env) m l in
  managed_of m' = list_to_set (filter (fun pid => re_connected' env pid = false) l.*1) ∪ managed_of m.
Proof.
  cbv zeta. revert m. induction l as [|ai l IH]; intros m; cbn [foldl]; [cbn; set_solver|]. rewrite IH, fmap_cons.
  unfold take_relay. destruct (re_connected' env ai.1) eqn:E.
  - by rewrite filter_cons_False by (rewrite E; done).
  - rewrite filter_cons_True, doRelayReserve_managed by done. unfold on_pool. cbn. set_solver.
Qed.

Lemma SelectN_spec now n p : 0 <= n -> exists infos, SelectN now n p = Ok infos /\ len infos <= n /\
  forall ai, ai ∈ infos -> exists i, healthy p ai.1 i.
Proof.
  intros Hn. unfold SelectN. set (l := sort_slice _ _). replace (Z.min n (len l) <? 0) with false by lia.
  eexists. split; [done|]. split; [rewrite length_fmap; unfold takeZ; rewrite length_take; lia|].
  intros ai (e & -> & He)%list_elem_of_fmap. unfold takeZ in He. apply elem_of_take in He as (j & He & _).
  apply list_elem_of_lookup_2 in He. unfold l in He. rewrite sort_slice_perm in He. apply entries_spec in He as [He _].
  by exists e.1.2.
Qed.

Lemma size_filter_le (s : gset string) (f : string -> bool) (l : list string) :
  Z.of_nat (size (list_to_set (C := gset string) (filter (fun x => f x = false) l) ∪ s)) <= len l + Z.of_nat (size s).
Proof.
  assert (size (list_to_set (C := gset string) (filter (fun x => f x = false) l) ∪ s)
    <= length (filter (fun x => f x = false) l) + size s)%nat as H.
  { induction (filter _ l) as [|x k IH]; cbn; [by rewrite (left_id_L ∅ _)|].
    rewrite <-(assoc_L _). pose proof (size_union_alt ({[x]} : gset string) (list_to_set k ∪ s)) as Hu.
    rewrite size_singleton in Hu. rewrite Hu.
    assert ((list_to_set k ∪ s) ∖ {[x]} ⊆ list_to_set k ∪ s) as Hs%subseteq_size by set_solver. lia. }
  pose proof (length_filter (fun x => f x = false) l). lia.
Qed.
(** ** Runs of the manager *)

Definition same_managed (op : pool_op) : Prop := match op with OpAddManaged _ => False | _ => True end.

Lemma pool_exec_managed op p : same_managed op -> rp_managed (pool_exec op p) ⊆ rp_managed p.
Proof.
  destruct op as [now [[pid addr]|]| | | | |pids|now pid err|pid ? ?|pid ?|pid ?| |]; cbn [pool_exec same_managed]; intros H; try done.
  - unfold Add, Add_insert. repeat case_match; simplify_eq/=; rewrite ?prune_managed; done.
  - unfold Remove. cbn. set_solver.
  - rewrite RemoveManaged_managed. set_solver.
  - by rewrite RecordResult_managed.
  - unfold SetRelayLimits. by rewrite update_item_managed.
  - unfold SetReservationTTL. by rewrite update_item_managed.
  - unfold health_ok. by rewrite update_item_managed.
Qed.

(** From the start of the manager for [k] relays: ticks, and other calls of the pool. *)
Inductive managed_run (k : Z) : manager -> Prop :=
| run_start now env m m' : managed_of m = ∅ -> manager_start now env k m = Ok m' -> managed_run k m'
| run_tick now env m m' : managed_run k m -> manager_tick now env k m = Ok m' -> managed_run k m'
| run_pool op m : managed_run k m -> same_managed op -> managed_run k (on_pool (pool_exec op) m).

Lemma start_managed now env k m : 0 <= k -> managed_of m = ∅ ->
  exists m', manager_start now env k m = Ok m' /\ Z.of_nat (size (managed_of m')) <= k.
Proof.
  intros Hk Hm. unfold manager_start. destruct (SelectN_spec now k (mg_pool m) Hk) as (infos & -> & Hl & _).
  eexists. split; [done|].
  assert (forall l m0, managed_of (foldl (fun m (ai : string * string) => doRelayReserve env ai.1 m) m0 l) = managed_of m0) as ->.
  { induction l as [|ai l IH]; intros m0; cbn [foldl]; [done|]. by rewrite IH, doRelayReserve_managed. }
  rewrite pool_on_pool, AddManaged_managed, Hm.
  pose proof (size_filter_le ∅ (fun _ => false) infos.*1) as Hs.
  replace (filter (fun _ => false = false) infos.*1) with infos.*1 in Hs.
  2:{ clear. induction infos.*1 as [|x l IH]; [done|]. rewrite filter_cons_True by done. by rewrite <-IH. }
  rewrite length_fmap, size_empty in Hs. lia.
Qed.

(** The relays a tick keeps were connected; the ones it takes were not, and have a
    closed circuit. *)
Lemma tick_managed now env k m : Z.of_nat (size (managed_of m)) <= k ->
  exists m', manager_tick now env k m = Ok m' /\ Z.of_nat (size (managed_of m')) <= k /\
    forall pid, pid ∈ managed_of m' ->
      (pid ∈ managed_of m /\ re_connected env pid = true) \/ re_connected' env pid = false.
Proof.
  intros Hk. unfold manager_tick. pose proof (check_loop env (ListManaged (mg_pool m)) [] m) as H.
  destruct (foldl (check_managed env) _ _) as [rem m1]. destruct H as (Hm1 & gone & -> & Hin & Hout).
  set (m2 := on_pool (RemoveManaged ([] ++ gone)) m1).
  assert (managed_of m2 = managed_of m ∖ list_to_set gone) as Hm2.
  { unfold m2. rewrite pool_on_pool, RemoveManaged_managed. by rewrite Hm1. }
  assert (forall pid, pid ∈ managed_of m2 -> pid ∈ managed_of m /\ re_connected env pid = true) as Hkept.
  { rewrite Hm2. intros pid [Hp Hg]%elem_of_difference. split; [done|].
    destruct (re_connected env pid) eqn:E; [done|]. exfalso. apply Hg, elem_of_list_to_set, Hout; [|done].
    by apply elem_of_ListManaged. }
  assert (Z.of_nat (size (managed_of m2)) <= k) as Hs2.
  { rewrite Hm2. assert (managed_of m ∖ list_to_set gone ⊆ managed_of m) as Hs%subseteq_size by set_solver. lia. }
  rewrite len_ListManaged. destruct (Z.ltb_spec (Z.of_nat (size (managed_of m2))) k).
  - assert (0 <= k - Z.of_nat (size (managed_of m2))) as Hneed by lia.
    destruct (SelectN_spec now _ (mg_pool m2) Hneed) as (infos & -> & Hl & _).
    eexists. split; [done|]. rewrite take_loop. split.
    + etrans; [apply size_filter_le|]. rewrite length_fmap. lia.
    + intros pid [Hp|Hp]%elem_of_union; [|by left; apply Hkept].
      right. apply elem_of_list_to_set, list_elem_of_filter in Hp. tauto.
  - eexists. split; [done|]. split; [done|]. intros pid Hp. by left; apply Hkept.
Qed.

(** The manager of [k] relays never manages more than [k] of them, whatever
    the network answers and whatever else happens to the pool; its passes do not
    panic; and after a tick every managed relay was connected or is one just
    taken that was not. *)
Theorem relay_manager_bounded k m : 0 <= k -> managed_run k m ->
  Z.of_nat (size (managed_of m)) <= k /\
  forall now env, exists m', manager_tick now env k m = Ok m' /\
    forall pid, pid ∈ managed_of m' ->
      (pid ∈ managed_of m /\ re_connected env pid = true) \/ re_connected' env pid = false.
Proof.
  intros Hk H. assert (Z.of_nat (size (managed_of m)) <= k) as Hs.
  { induction H as [now env m m' Hm E|now env m m' _ IH E|op m _ IH Hop].
    - destruct (start_managed now env k m Hk Hm) as (m1 & E1 & ?). congruence.
    - destruct (tick_managed now env k m IH) as (m1 & E1 & ? & _). congruence.
    - apply (pool_exec_managed op (mg_pool m)) in Hop as Hsub%subseteq_size. rewrite pool_on_pool. lia. }
  split; [done|]. intros now env. destruct (tick_managed now env k m Hs) as (m' & ? & ? & ?). by exists m'.
Qed.
End manager.

(** ** Two relays wanted, one used *)

Section examples.
#[local] Existing Instances rational_pool listed_order listed_order_laws insertion_sort insertion_sort_laws.

(** Relay [a] is connected and renews its reservations; [b] would answer too. *)
Definition quiet_env (t : Z) : relay_env :=
  mkEnv (fun pid => bool_decide (pid = "a"%string)) (fun pid => bool_decide (pid = "a"%string)) (fun _ => None)
    (fun _ => inr (["via"%string], t + 3600 * second)) (fun _ _ => t).

(** The manager starts when only [a] is in the pool. *)
Definition start_pool : RelayPool.RelayPool :=
  pool_exec (OpRecord 15 "a" None) (pool_exec (OpAdd 10 (Some ("a", "addr a")%string)) (NewRelayPool defaultWeights)).

Definition started : manager :=
  match manager_start 16 (quiet_env 16) 2 (mkManager start_pool NewAddrManager []) with
  | Ok m => on_pool (pool_exec (OpAdd 20 (Some ("b", "addr b")%string))) m
  | Panic => mkManager start_pool NewAddrManager []
  end.

Fixpoint ticks (n : nat) (t : Z) (m : manager) : outcome manager :=
  match n with
  | O => Ok m
  | S n => match manager_tick t (quiet_env t) 2 m with
           | Ok m => ticks n (t + minute) m
           | Panic => Panic
           end
  end.

(** Two relays are wanted and both are healthy, but [SelectN] offers the best relay,
    which is managed and connected already, so the second is never taken. *)
Example manager_underfills :
  match ticks 6 minute started with
  | Ok m => rp_managed (mg_pool m) = {["a"%string]} /\ rp_items (mg_pool m) !! "b"%string <> None
  | Panic => False
  end.
Proof. by vm_compute. Qed.

Lemma relay_manager_bounded_witness : managed_run 2 started /\ Z.of_nat (size (rp_managed (mg_pool started))) <= 2.
Proof.
  assert (managed_run 2 started) as H.
  { unfold started.
    destruct (manager_start 16 (quiet_env 16) 2 (mkManager start_pool NewAddrManager [])) as [m|] eqn:E.
    - apply run_pool; [|exact I]. refine (run_start 2 _ _ _ _ _ E). reflexivity.
    - exfalso. by vm_compute in E. }
  split; [exact H|]. apply (relay_manager_bounded 2 started); [lia|exact H].
Defined.
End examples.
