(* ===== verification/Announce.v ===== *)
(** The addresses the host gives to libp2p (src/p2put/utils.go, [myAddrsFactory]), and
    keeping the reservations of the static relays (libp2p_bs.go,
    [watchStaticRelays]).

    A tick of one of the two tickers of [watchStaticRelays] is one step; what the
    network answers during it is a [static_env].  [bootres.RelayPool] may be nil. *)

From stdpp Require Import gmap strings.
From S2P Require Import Prelude GoLib RelayPool RelayPoolProps PrivateIP PeerAddr AddrMgr TunnelAddr.

(** ** The addresses *)

(** An address of a TURN relay: a TCP address with its IP ([None] is nil) and port, or
    something else. *)
Inductive net_addr := TCPAddr (ip : option IP) (port : Z) | OtherAddr.

Section factory.
Context {MA : Multiaddrs} (ip_String : IP -> string).

Definition own_addr (a : string) : bool :=
  if isRelayAddr a then true
  else match extractIPFromAddr a with Some ip => negb (IsLoopback ip) | None => true end.

(** [fmt.Sprintf("/ip4/%s/tcp/%d", ...)] or with ip6. *)
Definition relay_text (ip : IP) (port : Z) : string :=
  (match To4 ip with Some _ => "/ip4/" | None => "/ip6/" end) +:+ ip_String ip +:+ "/tcp/" +:+ itoa port.

Definition turn_addr (a : net_addr) : option string :=
  match a with
  | OtherAddr => None
  | TCPAddr None _ => None
  | TCPAddr (Some ip) port =>
      if IsUnspecified ip || (port =? 0) then None else NewMultiaddr (relay_text ip port)
  end.

Definition myAddrsFactory (turn : list net_addr) (addrs : list string) : list string :=
  filter (fun a => own_addr a = true) addrs ++ omap turn_addr turn.

(** What is announced: no loopback address that is not through a relay, every other
    one of the host in its order, and each TURN relay with an address. *)
Lemma addrs_factory_spec turn addrs a : a ∈ myAddrsFactory turn addrs <->
  (a ∈ addrs /\ (isRelayAddr a = true \/ forall ip, extractIPFromAddr a = Some ip -> IsLoopback ip = false)) \/
  (exists ip port, TCPAddr (Some ip) port ∈ turn /\ IsUnspecified ip = false /\ port <> 0 /\ NewMultiaddr (relay_text ip port) = Some a).
Proof.
  unfold myAddrsFactory. rewrite elem_of_app, list_elem_of_filter, list_elem_of_omap. f_equiv.
  - unfold own_addr. destruct (isRelayAddr a); [naive_solver|]. destruct (extractIPFromAddr a) as [ip|]; [|naive_solver].
    destruct (IsLoopback ip) eqn:E; cbn; [|naive_solver]. split; [naive_solver|]. intros [_ [?|H]]; [done|]. specialize (H ip eq_refl). congruence.
  - split.
    + intros ([[ip|] port|] & Hin & H); try done. cbn in H. destruct (IsUnspecified ip) eqn:Eu; [done|].
      destruct (Z.eqb_spec port 0); [done|]. by exists ip, port.
    + intros (ip & port & Hin & Hu & Hp & Hm). exists (TCPAddr (Some ip) port). split; [done|]. cbn. rewrite Hu.
      by replace (port =? 0) with false by lia.
Qed.
End factory.

(** ** Static relays *)

Section static.
Context {F : PoolFloat} {O : MapOrder} {Srt : SortSlice}.

Record static_env := mkStaticEnv {
  se_connected : string -> bool;
  (** The result of a ping, and of [client.Reserve]. *)
  se_ping : string -> option pool_error;
  se_reserve : string -> pool_error + list string * Z;
  se_clock : string -> Z;
}.

Record static_state := mkStatic { ss_pool : option RelayPool.RelayPool; ss_addrs : AddrManager }.

#[global] Instance static_eta : Eta static_state := fun s => mkStatic (ss_pool s) (ss_addrs s).

Definition static_pool (f : RelayPool.RelayPool -> RelayPool.RelayPool) (s : static_state) : static_state :=
  s <| ss_pool := f <$> ss_pool s |>.

Definition ping_relay (env : static_env) (s : static_state) (pid : string) : static_state :=
  if negb (se_connected env pid) then s
  else static_pool (RecordResult (se_clock env pid) pid (se_ping env pid)) s.

(** A tick of the ping ticker; the selection after it is only logged. *)
Definition ping_tick (env : static_env) (relays : list string) (s : static_state) : static_state :=
  foldl (ping_relay env) s relays.

Definition reserve_relay (env : static_env) (s : static_state) (pid : string) : static_state :=
  if se_connected env pid then s
  else
    match se_reserve env pid with
    | inl err => static_pool (RecordResult (se_clock env pid) pid (Some err)) s
    | inr (addrs, expiration) =>
        let s := s <| ss_addrs := SetRelayVouch pid addrs expiration (ss_addrs s) |> in
        static_pool (fun p => RecordResult (se_clock env pid) pid None (SetReservationTTL pid expiration p)) s
    end.

Definition reserve_tick (env : static_env) (relays : list string) (s : static_state) : static_state :=
  foldl (reserve_relay env) s relays.

Definition static_ok (s : static_state) : Prop := forall p, ss_pool s = Some p -> pool_inv p.

Context `{!MapOrderLaws O} `{!SortSliceLaws Srt}.

Lemma static_pool_ok f s : (forall p, pool_inv p -> pool_inv (f p)) -> static_ok s -> static_ok (static_pool f s).
Proof. intros Hf Hs p. unfold static_pool. cbn. destruct (ss_pool s) as [q|] eqn:E; [|done]. intros [= <-]. apply Hf, (Hs _ E). Qed.

Lemma ping_relay_ok env s pid : static_ok s -> static_ok (ping_relay env s pid).
Proof.
  intros Hs. unfold ping_relay. case_match; [done|]. apply static_pool_ok; [|done]. intros p. apply RecordResult_inv.
Qed.

Lemma reserve_relay_ok env s pid : static_ok s -> static_ok (reserve_relay env s pid).
Proof.
  intros Hs. unfold reserve_relay. case_match; [done|]. destruct (se_reserve env pid) as [err|[addrs expiration]].
  - apply static_pool_ok; [|done]. intros p. apply RecordResult_inv.
  - apply static_pool_ok; [|exact Hs]. intros p Hp. apply RecordResult_inv, pool_inv_update; [|done]. intros i Hi. exact Hi.
Qed.

(** A tick of reservations.  The vouches of exactly the relays that are not connected
    and granted a reservation are replaced, by the granted ones; those of the
    others, a connected relay's with the rest, stay as they are: a reservation is
    not renewed while the connection lasts.  The pool keeps its invariant through
    any such ticks and pings. *)
Theorem reserve_tick_exact env relays s : static_ok s ->
  let s' := reserve_tick env relays s in
  static_ok s' /\
  (forall pid, pid ∉ relays \/ se_connected env pid = true \/ (exists err, se_reserve env pid = inl err) ->
     am_relayVouches (ss_addrs s') !! pid = am_relayVouches (ss_addrs s) !! pid) /\
  (forall pid addrs expiration, pid ∈ relays -> se_connected env pid = false -> se_reserve env pid = inr (addrs, expiration) ->
     am_relayVouches (ss_addrs s') !! pid = Some (mkVouch addrs expiration)) /\
  am_localAddrs (ss_addrs s') = am_localAddrs (ss_addrs s) /\
  forall env', static_ok (ping_tick env' relays s').
Proof.
  intros Hs. cbv zeta. unfold reserve_tick.
  assert (forall l s, static_ok s -> static_ok (foldl (reserve_relay env) s l)) as Hok.
  { induction l as [|pid l IH]; intros s0 H0; [done|]. cbn. by apply IH, reserve_relay_ok. }
  split; [by apply Hok|]. split; [|split; [|split]].
  - intros pid Hpid. clear Hs. revert s. induction relays as [|q relays IH]; intros s; [done|]. cbn [foldl]. rewrite IH by set_solver.
    unfold reserve_relay. destruct (se_connected env q) eqn:Ec; [done|]. destruct (se_reserve env q) as [err|[addrs expiration]] eqn:Er; [done|].
    cbn. apply lookup_insert_ne. intros ->. destruct Hpid as [H|[H|[err H]]]; [set_solver|congruence|congruence].
  - intros pid addrs expiration Hin Hc Hr. clear Hs. revert s. induction relays as [|q relays IH] using rev_ind; intros s; [by apply not_elem_of_nil in Hin|].
    rewrite foldl_app. cbn [foldl]. destruct (decide (q = pid)) as [->|Hne].
    + unfold reserve_relay at 1. rewrite Hc, Hr. cbn. apply lookup_insert_eq.
    + assert (pid ∈ relays) as Hin' by set_solver. unfold reserve_relay at 1. destruct (se_connected env q); [by apply IH|].
      destruct (se_reserve env q) as [err|[addrs' expiration']]; cbn; [by apply IH|]. rewrite lookup_insert_ne by done. by apply IH.
  - clear Hs. revert s. induction relays as [|q relays IH]; intros s; [done|]. cbn [foldl]. rewrite IH. unfold reserve_relay.
    destruct (se_connected env q); [done|]. by destruct (se_reserve env q) as [err|[addrs expiration]].
  - intros env'. unfold ping_tick. specialize (Hok relays s Hs). revert Hok. generalize (foldl (reserve_relay env) s relays).
    induction relays as [|q l IH]; intros s0 H0; [done|]. cbn. by apply IH, ping_relay_ok.
Qed.
End static.

(** ** Examples *)

Lemma reserve_tick_exact_witness :
  am_relayVouches (ss_addrs (@reserve_tick rational_pool listed_order insertion_sort
    (mkStaticEnv (fun p => bool_decide (p = "up"%string)) (fun _ => None) (fun _ => inr (["a"]%string, 9)) (fun _ => 5)) ["up"; "down"]%string
    (mkStatic None NewAddrManager))) !! "down"%string = Some (mkVouch ["a"]%string 9).
Proof.
  refine (proj1 (proj2 (proj2 (@reserve_tick_exact rational_pool listed_order insertion_sort listed_order_laws insertion_sort_laws
    (mkStaticEnv (fun p => bool_decide (p = "up"%string)) (fun _ => None) (fun _ => inr (["a"]%string, 9)) (fun _ => 5)) ["up"; "down"]%string
    (mkStatic None NewAddrManager) _))) "down"%string ["a"]%string 9 _ eq_refl eq_refl).
  - done.
  - set_solver.
Defined.
