(* ===== verification/Offline.v ===== *)
(** The offline detector (src/p2put/offline.go): whether the host has connections
    is sampled every 1.5 s, and the state changes only after the samples have
    agreed for [confirmDur].

    [evaluate] runs under the detector's mutex.  The zero time is 0. *)

From stdpp Require Import list strings.
From S2P Require Import Prelude GoLib.

Inductive OfflineState := StateOffline | StateOnline.

#[global] Instance OfflineState_eq_dec : EqDecision OfflineState.
Proof. solve_decision. Defined.

Definition state_String (s : OfflineState) : string :=
  match s with StateOnline => "online" | StateOffline => "offline" end.

Definition evaluateTick : Z := 1500 * millisecond.
Definition stickCount : Z := 3.
Definition confirmDur : Z := evaluateTick * stickCount.

Record OfflineDetector := mkDetector {
  od_state : OfflineState;
  od_lastTransitionTime : Z;
  od_goodSince : Z;
  od_badSince : Z;
}.

#[global] Instance OfflineDetector_eta : Eta OfflineDetector := fun d =>
  mkDetector (od_state d) (od_lastTransitionTime d) (od_goodSince d) (od_badSince d).

Definition NewOfflineDetector (now : Z) : OfflineDetector := mkDetector StateOffline now 0 0.

(** [network.Direction]. *)
Inductive direction := DirUnknown | DirInbound | DirOutbound.

#[global] Instance direction_eq_dec : EqDecision direction.
Proof. solve_decision. Defined.

(** How many of the two directions have a connection. *)
Definition active_count (conns : list direction) : Z :=
  (if bool_decide (DirOutbound ∈ conns) then 1 else 0) + (if bool_decide (DirInbound ∈ conns) then 1 else 0).

(** [evaluate]; the second result is what [OnChange] is called with. *)
Definition evaluate (now : Z) (conns : list direction) (d : OfflineDetector)
    : OfflineDetector * option (OfflineState * string) :=
  let d := if 0 <? active_count conns
           then (if od_goodSince d =? 0 then d <| od_goodSince := now |> else d) <| od_badSince := 0 |>
           else (if od_badSince d =? 0 then d <| od_badSince := now |> else d) <| od_goodSince := 0 |> in
  let target :=
    if negb (od_goodSince d =? 0) && (confirmDur <=? time_sub now (od_goodSince d)) then StateOnline
    else if negb (od_badSince d =? 0) && (confirmDur <=? time_sub now (od_badSince d)) then StateOffline
    else od_state d in
  if decide (target <> od_state d)
  then (d <| od_state := target |> <| od_lastTransitionTime := now |>, Some (target, state_String target))
  else (d, None).

Definition isOnline (d : OfflineDetector) : bool := bool_decide (od_state d = StateOnline).

(** [IsOnline]: no detector before the host is set up. *)
Definition IsOnline (d : option OfflineDetector) : bool :=
  match d with Some d => isOnline d | None => false end.

(** The samples taken so far, the last one first, and the calls of [OnChange]. *)
Definition sample : Type := Z * list direction.

Fixpoint run_detector (start : Z) (h : list sample) : OfflineDetector * list (Z * OfflineState) :=
  match h with
  | [] => (NewOfflineDetector start, [])
  | (now, conns) :: h =>
      let '(d, calls) := run_detector start h in
      let '(d, call) := evaluate now conns d in
      (d, match call with Some (s, _) => (now, s) :: calls | None => calls end)
  end.

(** ** The specification: the last streak that was long enough *)

Definition online_sample (s : sample) : bool := 0 <? active_count s.2.

(** When the streak of equal samples at the head of the history began. *)
Fixpoint streak_start (b : bool) (h : list sample) (t : Z) : Z :=
  match h with
  | s :: h => if eqb (online_sample s) b then streak_start b h s.1 else t
  | [] => t
  end.

Fixpoint confirmed (h : list sample) : OfflineState :=
  match h with
  | [] => StateOffline
  | s :: h' =>
      if confirmDur <=? s.1 - streak_start (online_sample s) h' s.1
      then if online_sample s then StateOnline else StateOffline
      else confirmed h'
  end.

(** Times of a history: positive and not decreasing. *)
Fixpoint clocked (h : list sample) : Prop :=
  match h with
  | [] => True
  | s :: h' => 0 < s.1 /\ match h' with s' :: _ => s'.1 <= s.1 | [] => True end /\ clocked h'
  end.

(** What the detector remembers of the streak. *)
Definition since (h : list sample) (b : bool) : Z :=
  match h with
  | s :: h' => if eqb (online_sample s) b then streak_start b h' s.1 else 0
  | [] => 0
  end.

Lemma streak_start_pos h b t : clocked h -> 0 < t -> 0 < streak_start b h t.
Proof. revert t. induction h as [|s h IH]; intros t; cbn [streak_start]; [done|].
  intros (Hs & _ & Hh) Ht. destruct (eqb _ _); [by apply IH|done]. Qed.

Lemma streak_start_le h b t : clocked h -> match h with s :: _ => s.1 <= t | [] => True end -> streak_start b h t <= t.
Proof.
  revert t. induction h as [|s h IH]; intros t; cbn [streak_start]; [lia|]. intros (Hs & Hn & Hh) Ht.
  destruct (eqb _ _); [|lia]. specialize (IH s.1 Hh Hn). lia.
Qed.

Lemma since_cons s h b : clocked (s :: h) -> online_sample s = b ->
  since (s :: h) b = if since h b =? 0 then s.1 else since h b.
Proof.
  intros Hc Hb. cbn [since]. rewrite Hb, eqb_reflx. destruct Hc as (Hs & Hn & Hh). destruct h as [|s' h]; cbn; [done|].
  destruct (eqb (online_sample s') b) eqn:E; [|done]. destruct Hh as (Hs' & _ & Hh).
  pose proof (streak_start_pos h b s'.1 Hh Hs'). case_match; [lia|done].
Qed.

Lemma since_other s h b : online_sample s = negb b -> since (s :: h) b = 0.
Proof. intros E. cbn. rewrite E. by destruct b. Qed.

(** The samples recorded by an evaluation. *)
Definition sampled (s : sample) (d : OfflineDetector) : OfflineDetector :=
  if online_sample s
  then (if od_goodSince d =? 0 then d <| od_goodSince := s.1 |> else d) <| od_badSince := 0 |>
  else (if od_badSince d =? 0 then d <| od_badSince := s.1 |> else d) <| od_goodSince := 0 |>.

Definition remembers (h : list sample) (d : OfflineDetector) : Prop :=
  od_goodSince d = since h true /\ od_badSince d = since h false.

Lemma sampled_remembers s h d : clocked (s :: h) -> remembers h d ->
  remembers (s :: h) (sampled s d) /\ od_state (sampled s d) = od_state d.
Proof.
  intros Hc [Hg Hb]. unfold sampled, remembers. destruct (online_sample s) eqn:E.
  - rewrite (since_cons s h true), (since_other s h false) by done. rewrite <-Hg. by destruct (od_goodSince d =? 0).
  - rewrite (since_cons s h false), (since_other s h true) by done. rewrite <-Hb. by destruct (od_badSince d =? 0).
Qed.

(** What a detector that remembers the streak decides. *)
Lemma evaluate_confirmed s h d : clocked (s :: h) -> remembers h d -> od_state d = confirmed h ->
  let '(d', call) := evaluate s.1 s.2 d in
  remembers (s :: h) d' /\ od_state d' = confirmed (s :: h) /\
  match call with
  | Some (st, _) => st = confirmed (s :: h) /\ st <> confirmed h
  | None => confirmed (s :: h) = confirmed h
  end.
Proof.
  intros Hc Hr Hst. unfold evaluate. change (0 <? active_count s.2) with (online_sample s).
  change (if online_sample s then _ else _) with (sampled s d). cbv zeta.
  destruct (sampled_remembers s h d Hc Hr) as [Hr' Hst']. set (d1 := sampled s d) in *.
  match goal with |- context [decide (?x <> _)] => assert (x = confirmed (s :: h)) as -> end.
  { destruct Hr' as [-> ->]. rewrite Hst', Hst. cbn [confirmed since].
    pose proof (streak_start_pos h (online_sample s) s.1) as Hp. destruct Hc as (Hs & _ & Hh). specialize (Hp Hh Hs).
    unfold time_sub, confirmDur, evaluateTick, stickCount, millisecond in *.
    destruct (online_sample s); cbn [eqb negb Z.eqb andb]; repeat case_match; done || lia. }
  rewrite Hst', Hst. destruct (decide (confirmed (s :: h) = confirmed h)) as [E|E].
  - rewrite decide_False by (intros []; done). split; [done|]. by rewrite Hst', Hst.
  - rewrite decide_True by done. repeat split; [apply Hr'..|done].
Qed.

(** Calls of [OnChange], the last one first: they alternate, [confirmDur] apart. *)
Fixpoint spaced (calls : list (Z * OfflineState)) : Prop :=
  match calls with
  | (t2, s2) :: (((t1, s1) :: _) as calls') => s1 <> s2 /\ confirmDur <= t2 - t1 /\ spaced calls'
  | [(_, s)] => s = StateOnline
  | [] => True
  end.

(** The last call announced the state, and a streak against it began later. *)
Definition announced (h : list sample) (calls : list (Z * OfflineState)) : Prop :=
  match calls with
  | (t, s) :: _ =>
      s = confirmed h /\ match h with s0 :: _ => t <= s0.1 | [] => False end /\
      forall b : bool, (if b then StateOnline else StateOffline) <> s -> since h b = 0 \/ t <= since h b
  | [] => confirmed h = StateOffline
  end.

Lemma since_later (h : list sample) b s (t : Z) : clocked (s :: h) -> match h with s0 :: _ => t <= s0.1 | [] => False end ->
  since h b = 0 \/ t <= since h b -> since (s :: h) b = 0 \/ t <= since (s :: h) b.
Proof.
  intros Hc Ht H. destruct (eqb (online_sample s) b) eqn:E; [|left; cbn; by rewrite E].
  apply eqb_prop in E. rewrite (since_cons s h b) by done. right. destruct Hc as (_ & Hle & _).
  destruct h as [|s0 h]; [done|]. destruct (Z.eqb_spec (since (s0 :: h) b) 0); lia.
Qed.

(** A confirmation lasts: the streak that turned the state began [confirmDur] ago. *)
Lemma confirmed_turn s h : clocked (s :: h) -> confirmed (s :: h) <> confirmed h ->
  confirmed (s :: h) = (if online_sample s then StateOnline else StateOffline) /\
  0 < since (s :: h) (online_sample s) <= s.1 - confirmDur.
Proof.
  intros (Hs & Hn & Hh). cbn [confirmed since]. rewrite eqb_reflx.
  destruct (confirmDur <=? _) eqn:E; [|by intros []]. intros _. split; [done|].
  pose proof (streak_start_pos h (online_sample s) s.1 Hh Hs). lia.
Qed.

Lemma announced_step s h calls : clocked (s :: h) -> announced h calls -> spaced calls ->
  let calls' := if decide (confirmed (s :: h) = confirmed h) then calls else (s.1, confirmed (s :: h)) :: calls in
  announced (s :: h) calls' /\ spaced calls'.
Proof.
  intros Hc Ha Hsp. case_decide as E; cbv zeta.
  - split; [|done]. destruct calls as [|[t st] calls]; cbn [announced] in *; [congruence|].
    destruct Ha as (-> & Ht & Hb). split; [done|]. split; [destruct h as [|s0 h]; [done|]; destruct Hc as (_ & ? & _); lia|].
    intros b Hne. apply since_later; auto.
  - destruct (confirmed_turn s h Hc E) as [Hs [Hp Hle]].
    assert (forall b : bool, (if b then StateOnline else StateOffline) <> confirmed (s :: h) -> since (s :: h) b = 0) as Hz.
    { intros b. rewrite Hs. intros Hne. apply since_other. by destruct b, (online_sample s). }
    split; [cbn [announced]; split; [done|]; split; [lia|auto]|].
    destruct calls as [|[t st] calls]; cbn [announced spaced] in *.
    + rewrite Hs in *. destruct (online_sample s); [done|congruence].
    + destruct Ha as (-> & Ht & Hb). split; [congruence|]. split; [|done].
      destruct (since_later h (online_sample s) s t Hc Ht) as [?|?]; [|lia|lia].
      apply Hb. rewrite <-Hs. congruence.
Qed.

(** C25: The detector is the specification: after any samples the state is that of
    the last streak of agreeing samples that lasted [confirmDur] (offline when
    there was none), however the connections came and went in between; and
    [OnChange] is called with alternating states, online first, at least
    [confirmDur] apart. *)
Theorem offline_detector_spec start h : clocked h ->
  let '(d, calls) := run_detector start h in
  od_state d = confirmed h /\ spaced calls /\ (isOnline d = true <-> exists t calls', calls = (t, StateOnline) :: calls').
Proof.
  intros Hc.
  assert (let '(d, calls) := run_detector start h in
          remembers h d /\ od_state d = confirmed h /\ announced h calls /\ spaced calls) as H.
  { induction h as [|s h IH]; [done|]. cbn [run_detector]. destruct s as [now conns]. specialize (IH (proj2 (proj2 Hc))).
    destruct (run_detector start h) as [d calls]. destruct IH as (Hr & Hst & Ha & Hsp).
    pose proof (evaluate_confirmed (now, conns) h d Hc Hr Hst) as H. cbn [fst snd] in H.
    destruct (evaluate now conns d) as [d' call]. destruct H as (Hr' & Hst' & Hcall). split; [done|]. split; [done|].
    pose proof (announced_step (now, conns) h calls Hc Ha Hsp) as Hstep. cbv zeta in Hstep.
    destruct call as [[st msg]|].
    - destruct Hcall as [-> Hne]. by rewrite decide_False in Hstep.
    - by rewrite decide_True in Hstep. }
  destruct (run_detector start h) as [d calls]. destruct H as (_ & Hst & Ha & Hsp). split; [done|]. split; [done|].
  unfold isOnline. rewrite bool_decide_eq_true, Hst. destruct calls as [|[t s] calls]; cbn in Ha.
  - rewrite Ha. split; [done|]. by intros (? & ? & ?).
  - destruct Ha as (-> & _). split; [intros ->; eauto|]. by intros (? & ? & [= _ -> _]).
Qed.

Definition two_switches : list sample :=
  [(21 * second, []); (18 * second, []); (16 * second, []); (15 * second, [DirInbound]); (10 * second, [DirOutbound]);
   (7 * second, [DirUnknown]); (6 * second, [DirInbound; DirOutbound]); (3 * second, [])].

Lemma offline_detector_spec_witness :
  clocked two_switches /\ (run_detector second two_switches).2 = [(21 * second, StateOffline); (15 * second, StateOnline)] /\
  od_state (run_detector second two_switches).1 = confirmed two_switches.
Proof.
  assert (clocked two_switches) as H by (cbn; unfold second; lia).
  split; [exact H|]. split; [reflexivity|].
  pose proof (offline_detector_spec second two_switches H) as Hd. destruct (run_detector second two_switches) as [d calls].
  exact (proj1 Hd).
Defined.
