(* ===== verification/TurnPool.v ===== *)
(** The pool of TURN servers (src/p2put/turnpool.go): the table of the servers and
    their life cycle, the permitted addresses, the rate limiter.

    A server is its background loops and its stop channel here; what a loop does
    is in [TurnServer].  Methods hold the pool's mutex, or the one of the
    permitted addresses. *)

From Stdlib Require Import Ascii.
From stdpp Require Import gmap strings.
From S2P Require Import Prelude GoLib PrivateIP TunnelAddr.

Inductive TurnState :=
  TurnDisconnected | TurnConnecting | TurnAuthenticating | TurnAllocating | TurnAlive | TurnReconnecting.

#[global] Instance TurnState_eq_dec : EqDecision TurnState.
Proof. solve_decision. Defined.

(** ** The permitted addresses *)

Abbreviation permips := (gset string).

(** [strings.Count(ip, ".")]. *)
Fixpoint count_dots (s : string) : nat :=
  match s with
  | EmptyString => 0
  | String c s => (if bool_decide (c = "."%char) then 1 else 0) + count_dots s
  end.

(** The address that is entered for a text: what comes before the first colon, when
    it has three dots. *)
Definition perm_key (ip : string) : option string :=
  match ip with
  | EmptyString => None
  | _ =>
      let ip := if contains ip ":" then default "" (head (split_colon ip)) else ip in
      if decide (count_dots ip = 3%nat) then Some ip else None
  end.

Definition AddPermIP (ip : string) (m : permips) : permips :=
  match perm_key ip with Some k => {[k]} ∪ m | None => m end.

Definition RemovePermIP (ip : string) (m : permips) : permips :=
  match perm_key ip with Some k => m ∖ {[k]} | None => m end.

Section order.
Context {O : MapOrder}.

(** [permAddresses]: [None] is the nil address [net.ParseIP] gives for other text. *)
Definition permAddresses (m : permips) : list (option IP) :=
  (fun e => ParseIP e.1) <$> map_range (gset_to_gmap () m).
End order.

(** ** The table of servers *)

(** A server: the address of its relay when it is alive, how many loops were
    started for it, and whether its stop channel is closed. *)
Record server := mkServer {
  sv_state : TurnState;
  sv_relayAddr : option string;
  sv_loops : nat;
  sv_stopped : bool;
}.

#[global] Instance server_eta : Eta server := fun s =>
  mkServer (sv_state s) (sv_relayAddr s) (sv_loops s) (sv_stopped s).

Definition newTurnServer : server := mkServer TurnDisconnected None 0 false.

Definition server_start (s : server) : server := s <| sv_loops := S (sv_loops s) |>.

(** Closing a closed channel panics. *)
Definition server_stop (s : server) : outcome server :=
  if sv_stopped s then Panic else Ok (s <| sv_stopped := true |>).

(** [tp_ctx]: no context before [Start], then whether it is cancelled. *)
Record TurnPool := mkTurnPool {
  tp_servers : gmap string server;
  tp_ctx : option bool;
}.

#[global] Instance TurnPool_eta : Eta TurnPool := fun p => mkTurnPool (tp_servers p) (tp_ctx p).

Definition NewTurnPool : TurnPool := mkTurnPool ∅ None.

Definition Start (p : TurnPool) : TurnPool :=
  p <| tp_ctx := Some false |> <| tp_servers := server_start <$> tp_servers p |>.

Section pool.
Context {O : MapOrder}.

Definition stop_one (acc : outcome (gmap string server)) (e : string * server) : outcome (gmap string server) :=
  match acc with
  | Panic => Panic
  | Ok m => match server_stop e.2 with Panic => Panic | Ok s => Ok (<[e.1 := s]> m) end
  end.

Definition Stop (p : TurnPool) : outcome TurnPool :=
  let p := match tp_ctx p with Some _ => p <| tp_ctx := Some true |> | None => p end in
  match foldl stop_one (Ok (tp_servers p)) (map_range (tp_servers p)) with
  | Panic => Panic
  | Ok m => Ok (p <| tp_servers := m |>)
  end.

Definition ListRelayAddrs (p : TurnPool) : list string :=
  omap (fun e : string * server => if decide (sv_state e.2 = TurnAlive) then sv_relayAddr e.2 else None) (map_range (tp_servers p)).
End pool.

(** [None] is the error that the server exists. *)
Definition AddServer (addr : string) (p : TurnPool) : option TurnPool :=
  match tp_servers p !! addr with
  | Some _ => None
  | None =>
      let ts := newTurnServer in
      let ts := match tp_ctx p with Some _ => server_start ts | None => ts end in
      Some (p <| tp_servers := <[addr := ts]> (tp_servers p) |>)
  end.

Definition RemoveServer (addr : string) (p : TurnPool) : outcome TurnPool :=
  match tp_servers p !! addr with
  | None => Ok p
  | Some ts =>
      match server_stop ts with
      | Panic => Panic
      | Ok _ => Ok (p <| tp_servers := delete addr (tp_servers p) |>)
      end
  end.

Definition Status (addr : string) (p : TurnPool) : TurnState * bool :=
  match tp_servers p !! addr with
  | None => (TurnDisconnected, false)
  | Some ts => (sv_state ts, true)
  end.

(** ** The life cycle *)

Section lifecycle.
Context {O : MapOrder} `{OL : !MapOrderLaws O}.

(** Stopping visits every server once, so it panics exactly on a server stopped before. *)
Lemma stop_all l m : NoDup l.*1 -> (forall k s, (k, s) ∈ l -> m !! k = Some s) ->
  (exists k s, (k, s) ∈ l /\ sv_stopped s = true) /\ foldl stop_one (Ok m) l = Panic \/
  (forall k s, (k, s) ∈ l -> sv_stopped s = false) /\
  exists m', foldl stop_one (Ok m) l = Ok m' /\
    forall k, m' !! k = if decide (k ∈ l.*1) then (fun s => s <| sv_stopped := true |>) <$> m !! k else m !! k.
Proof.
  revert m. induction l as [|[k s] l IH]; intros m; cbn [foldl fmap list_fmap fst snd].
  { intros _ _. right. split; [set_solver|]. exists m. split; [done|]. intros k. by rewrite decide_False by set_solver. }
  intros [Hk Hnd]%NoDup_cons Hm. unfold stop_one at 2 4. cbn [fst snd]. unfold server_stop. destruct (sv_stopped s) eqn:Es.
  { left. split; [exists k, s; set_solver|]. clear. induction l; done. }
  destruct (IH (<[k := s <| sv_stopped := true |>]> m) Hnd) as [[(k' & s' & Hin & Hs') ->]|(Hall & m' & -> & Hm')].
  { intros k' s' Hin. rewrite lookup_insert_ne; [apply Hm; set_solver|]. intros <-. apply Hk.
    apply list_elem_of_fmap. by exists (k, s'). }
  - left. split; [exists k', s'; set_solver|done].
  - right. split; [intros k' s' [[= -> ->]|?]%elem_of_cons; [done|by apply (Hall k' s')]|]. exists m'. split; [done|].
    intros k'. rewrite Hm'. destruct (decide (k' = k)) as [->|Hne].
    + rewrite decide_False, decide_True by set_solver. rewrite lookup_insert_eq, (Hm k s) by set_solver. done.
    + rewrite lookup_insert_ne by done. destruct (decide (k' ∈ l.*1)); [by rewrite decide_True by set_solver|].
      by rewrite decide_False by set_solver.
Qed.

Lemma NoDup_map_range {A} (m : gmap string A) : NoDup (map_range m).*1.
Proof. rewrite map_range_perm. apply NoDup_fst_map_to_list. Qed.

Lemma elem_of_range {A} (m : gmap string A) k x : (k, x) ∈ map_range m <-> m !! k = Some x.
Proof. rewrite map_range_perm. apply elem_of_map_to_list. Qed.

Lemma pool_Stop_spec p :
  Stop p = Panic /\ (exists k s, tp_servers p !! k = Some s /\ sv_stopped s = true) \/
  exists p', Stop p = Ok p' /\ (forall k s, tp_servers p !! k = Some s -> sv_stopped s = false) /\
    tp_servers p' = (fun s => s <| sv_stopped := true |>) <$> tp_servers p /\ tp_ctx p' = ((fun _ => true) <$> tp_ctx p).
Proof.
  unfold Stop. set (q := match tp_ctx p with Some _ => _ | None => p end).
  assert (tp_servers q = tp_servers p /\ tp_ctx q = ((fun _ => true) <$> tp_ctx p)) as [Hq Hc].
  { unfold q. by destruct (tp_ctx p) eqn:E. }
  destruct (stop_all (map_range (tp_servers q)) (tp_servers q) (NoDup_map_range _)) as [[(k & s & Hin & Hs) ->]|(Hall & m' & -> & Hm')].
  { intros k s. by rewrite elem_of_range. }
  - left. split; [done|]. rewrite elem_of_range, Hq in Hin. eauto.
  - right. eexists. split; [done|]. split; [intros k s Hk; apply (Hall k s); by rewrite elem_of_range, Hq|].
    split; [|done]. cbn. rewrite <-Hq. apply map_eq. intros k. rewrite Hm', lookup_fmap.
    case_decide as Hd; [done|]. destruct (tp_servers q !! k) as [s|] eqn:E; [|done]. exfalso. apply Hd.
    apply list_elem_of_fmap. exists (k, s). by rewrite elem_of_range.
Qed.

(** The intended use: servers come and go, [Start] is called once. *)
Inductive pool_run : TurnPool -> Prop :=
| pr_new : pool_run NewTurnPool
| pr_start p : pool_run p -> tp_ctx p = None -> pool_run (Start p)
| pr_add p addr p' : pool_run p -> AddServer addr p = Some p' -> pool_run p'
| pr_remove p addr p' : pool_run p -> RemoveServer addr p = Ok p' -> pool_run p'.

Definition loops_of (ctx : option bool) : nat := match ctx with Some _ => 1 | None => 0 end.

Lemma pool_run_inv p : pool_run p -> tp_ctx p <> Some true /\
  map_Forall (fun _ s => sv_stopped s = false /\ sv_loops s = loops_of (tp_ctx p)) (tp_servers p).
Proof.
  induction 1 as [|p _ [Hc IH] Hn|p addr p' _ [Hc IH] E|p addr p' _ [Hc IH] E].
  - split; [done|]. apply map_Forall_empty.
  - split; [done|]. intros k s. unfold Start. cbn. rewrite lookup_fmap_Some. intros (s0 & <- & Hs%IH).
    rewrite Hn in Hs. destruct Hs as [? Hl]. split; [done|]. cbn in *. by rewrite Hl.
  - unfold AddServer in E. destruct (tp_servers p !! addr) as [|] eqn:Ea; [done|]. injection E as <-. cbn. split; [done|].
    apply map_Forall_insert_2; [|done]. by destruct (tp_ctx p).
  - unfold RemoveServer in E. destruct (tp_servers p !! addr) as [ts|] eqn:Ea; [|by simplify_eq].
    destruct (server_stop ts); [|done]. injection E as <-. cbn. split; [done|]. by apply map_Forall_delete.
Qed.

(** The life cycle of the pool.  As long as [Start] is called once, no removal
    and no final [Stop] panics, no loop runs before [Start] and every server of
    the table runs exactly one after it; [Stop] tells every one of them to stop. *)
Theorem turn_pool_lifecycle p : pool_run p ->
  map_Forall (fun _ s => sv_loops s = loops_of (tp_ctx p)) (tp_servers p) /\
  (forall addr, exists p', RemoveServer addr p = Ok p' /\ tp_servers p' = delete addr (tp_servers p)) /\
  exists p', Stop p = Ok p' /\ map_Forall (fun _ s => sv_stopped s = true) (tp_servers p') /\
    dom (tp_servers p') = dom (tp_servers p).
Proof.
  intros [_ Hinv]%pool_run_inv. split; [intros k s Hs; by apply (Hinv k s Hs)|]. split.
  - intros addr. unfold RemoveServer. destruct (tp_servers p !! addr) as [ts|] eqn:E; [|by eexists; rewrite delete_id].
    unfold server_stop. destruct (Hinv _ _ E) as [-> _]. eauto.
  - destruct (pool_Stop_spec p) as [[_ (k & s & Hk & Hs)]|(p' & -> & _ & Hp' & _)]; [destruct (Hinv _ _ Hk); congruence|].
    exists p'. split; [done|]. rewrite Hp', dom_fmap_L. split; [|done].
    intros k s. rewrite lookup_fmap_Some. by intros (s0 & <- & _).
Qed.

(** A stopped pool must be left alone: a second [Stop] and the removal of a
    server panic (the stop channel is closed twice), and a server added after
    [Stop] starts running. *)
Theorem stopped_pool_misuse p p' : pool_run p -> Stop p = Ok p' ->
  (tp_servers p <> ∅ -> Stop p' = Panic) /\
  (forall addr, addr ∈ dom (tp_servers p) -> RemoveServer addr p' = Panic) /\
  (forall addr q, tp_ctx p <> None -> AddServer addr p' = Some q ->
     exists s, tp_servers q !! addr = Some s /\ sv_loops s = 1%nat /\ sv_stopped s = false).
Proof.
  intros Hrun Hstop. destruct (pool_Stop_spec p) as [[? _]|(p1 & E & _ & Hs & Hc)]; [congruence|]. rewrite Hstop in E. injection E as <-.
  split; [|split].
  - intros Hne. destruct (pool_Stop_spec p') as [[? _]|(p2 & _ & Hall & _)]; [done|].
    destruct (map_choose _ Hne) as (k & s & Hk). rewrite Hs in Hall. specialize (Hall k (s <| sv_stopped := true |>)).
    rewrite lookup_fmap, Hk in Hall. by specialize (Hall eq_refl).
  - intros addr [s Hk]%elem_of_dom. unfold RemoveServer. by rewrite Hs, lookup_fmap, Hk.
  - intros addr q Hctx. unfold AddServer. destruct (tp_servers p' !! addr); [done|]. rewrite Hc.
    destruct (tp_ctx p); [|done]. intros [= <-]. cbn. rewrite lookup_insert_eq. eauto.
Qed.
End lifecycle.

(** ** Examples *)

Lemma example_pool_run :
  pool_run (Start (mkTurnPool {["turn:1" := newTurnServer]}%string None)).
Proof. apply pr_start; [|done]. apply (pr_add NewTurnPool "turn:1"); [apply pr_new|done]. Qed.

Lemma turn_pool_lifecycle_witness :
  map_Forall (fun _ s => sv_loops s = 1%nat) (tp_servers (Start (mkTurnPool {["turn:1" := newTurnServer]}%string None))).
Proof. exact (proj1 (@turn_pool_lifecycle listed_order listed_order_laws _ example_pool_run)). Defined.

Lemma stopped_pool_misuse_witness :
  exists p', @Stop listed_order (Start (mkTurnPool {["turn:1" := newTurnServer]}%string None)) = Ok p' /\
    RemoveServer "turn:1" p' = Panic.
Proof.
  eexists. split; [reflexivity|].
  apply (proj1 (proj2 (@stopped_pool_misuse listed_order listed_order_laws _ _ example_pool_run eq_refl))).
  rewrite elem_of_dom. by eexists.
Defined.

(** Text that is no address is entered and comes out as the nil address. *)
Example perm_not_an_address : @permAddresses listed_order (AddPermIP "a.b.c.d:9" ∅) = [None].
Proof. reflexivity. Qed.
