(* ===== verification/PeerExchange.v ===== *)
(** The exchange of peers (src/p2put/pushid.go): a node pushes its addresses to a
    peer and gets the peers that one knows; what it learns goes into its peer
    database.  The reconnections of mydiscovery.go refresh it.

    A message is one frame of the stream: reading and writing frames is
    go-msgio's, the codec is encoding/json's ([PushJson]).  Times of
    [time.UnixMilli] count from 1970. *)

From stdpp Require Import gmap strings.
From S2P Require Import Prelude GoLib PrivateIP PeerAddr AddrMgr PeerDB TurnPool.

(** ** Unix milliseconds *)

(** 1970-01-01, in nanoseconds since the zero time. *)
Definition unix_epoch : Z := 62135596800 * second.

Definition UnixMilli (t : Z) : Z := (t - unix_epoch) / millisecond.
Definition time_UnixMilli (ms : Z) : Z := unix_epoch + ms * millisecond.

(** ** Messages *)

Record PeerInfo := mkInfo {
  pi_ID : string;
  pi_Addrs : list string;
  pi_MappedAddrs : list string;
  pi_AllocedAddrs : list string;
  pi_SeenAt : Z;
}.

Record PushMessage := mkPush { pm_Peers : list PeerInfo; pm_TS : Z }.

Class PushJson := {
  push_marshal : PushMessage -> list byte;
  push_unmarshal : list byte -> option PushMessage;
}.

Class PushJsonLaws (J : PushJson) := {
  push_unmarshal_marshal : forall m, push_unmarshal (push_marshal m) = Some m;
}.

(** ** A node *)

Record node := mkNode {
  nd_id : string;
  nd_db : PeerDB;
  nd_perms : permips;
  nd_addrs : AddrManager;
  (** [AcceptMappedAddr], and the relay addresses of the TURN pool. *)
  nd_mapped : option string;
  nd_alloced : list string;
}.

#[global] Instance node_eta : Eta node := fun n =>
  mkNode (nd_id n) (nd_db n) (nd_perms n) (nd_addrs n) (nd_mapped n) (nd_alloced n).

Section exchange.
Context {MA : Multiaddrs} {Ord : MapOrder} {J : PushJson}.

(** A peer of the request: it was seen now. *)
Definition learn_pushed (self : string) (db : PeerDB) (e : PeerInfo * Z) : PeerDB :=
  let '(p, now) := e in
  match peer_Decode (pi_ID p) with
  | None => db
  | Some rpid =>
      if decide (rpid = self) then db
      else Update rpid (parseAddrs (pi_Addrs p)) now db
  end.

(** The texts a request asks to permit. *)
Definition permit (perms : permips) (p : PeerInfo) : permips :=
  foldl (fun m a => AddPermIP a m) (foldl (fun m a => AddPermIP a m) perms (pi_MappedAddrs p)) (pi_AllocedAddrs p).

(** The records of the answer: not the node itself, not the peer that asked. *)
Definition shared (self pid : string) (records : list PeerRecord) (mapped alloced : list string) : list PeerInfo :=
  (fun r => mkInfo (peer_String (pr_PeerID r)) (addrStrings (pr_Addrs r)) mapped alloced (UnixMilli (pr_SeenAt r))) <$>
  filter (fun r => pr_PeerID r <> self /\ pr_PeerID r <> pid) records.

Definition mapped_list (n : node) : list string := match nd_mapped n with Some a => [a] | None => [] end.

(** [HandlePushStream] on the frame read, [None] when reading failed: the node and
    the frame written.  [clock i] is read for the i-th peer, [now] for the list. *)
Definition HandlePushStream (clock : nat -> Z) (now : Z) (pid : string) (raw : option (list byte)) (n : node)
    : node * option (list byte) :=
  match raw with
  | None => (n, None)
  | Some raw =>
      match push_unmarshal raw with
      | None => (n, None)
      | Some req =>
          let stamped := imap (fun i p => (p, clock i)) (pm_Peers req) in
          let n := n <| nd_db := foldl (learn_pushed (nd_id n)) (nd_db n) stamped |> in
          let n := n <| nd_perms := foldl permit (nd_perms n) (pm_Peers req) |> in
          let records := List now (nd_db n) in
          let resp := mkPush (shared (nd_id n) pid records (mapped_list n) (nd_alloced n)) (UnixMilli now) in
          (n, Some (push_marshal resp))
      end
  end.

(** The request of [PushToPeer]; collecting the addresses prunes them. *)
Definition push_request (cc vc : string -> Z) (now : Z) (n : node) : node * list byte :=
  let '(addrs, am) := GetAll cc vc (nd_addrs n) in
  (n <| nd_addrs := am |>,
   push_marshal (mkPush [mkInfo (peer_String (nd_id n)) (addrStrings addrs) (mapped_list n) (nd_alloced n) 0] (UnixMilli now))).

(** A peer of the answer: it was seen when the other node says. *)
Definition learn_shared (self : string) (db : PeerDB) (e : PeerInfo * Z) : PeerDB :=
  let '(p, now) := e in
  match peer_Decode (pi_ID p) with
  | None => db
  | Some rpid =>
      if decide (rpid = self) then db
      else
        let seenAt := if 0 <? pi_SeenAt p then time_UnixMilli (pi_SeenAt p) else now in
        Update rpid (parseAddrs (pi_Addrs p)) seenAt db
  end.

(** The answer of [PushToPeer], [None] when reading failed; whether it succeeded. *)
Definition push_answer (clock : nat -> Z) (raw : option (list byte)) (n : node) : node * bool :=
  match raw with
  | None => (n, false)
  | Some raw =>
      match push_unmarshal raw with
      | None => (n, false)
      | Some resp =>
          let stamped := imap (fun i p => (p, clock i)) (pm_Peers resp) in
          (n <| nd_db := foldl (learn_shared (nd_id n)) (nd_db n) stamped |>, true)
      end
  end.

(** A whole [PushToPeer] between two nodes on a working stream. *)
Record push_clocks := mkClocks {
  pc_circuits : string -> Z; pc_vouches : string -> Z; pc_request : Z;
  pc_handled : nat -> Z; pc_listed : Z; pc_answered : nat -> Z }.

Definition PushToPeer (c : push_clocks) (a b : node) : node * node * bool :=
  let '(a, req) := push_request (pc_circuits c) (pc_vouches c) (pc_request c) a in
  let '(b, resp) := HandlePushStream (pc_handled c) (pc_listed c) (nd_id a) (Some req) b in
  let '(a, ok) := push_answer (pc_answered c) resp a in
  (a, b, ok).
End exchange.

(** ** What a database has of a peer only gets newer *)

Definition seen_at (db : PeerDB) (x : string) : option Z := pr_SeenAt <$> db_peers db !! x.

(** Records are filed under their peer. *)
Definition keyed (db : PeerDB) : Prop := map_Forall (fun k r => pr_PeerID r = k) (db_peers db).

Lemma lookup_Update' pid addrs s db x :
  db_peers (Update pid addrs s db) !! x =
    if decide (pid = x) then Some (merge_record (db_peers db !! x) (mkRecord pid addrs s)) else db_peers db !! x.
Proof. apply (lookup_Update (mkRecord pid addrs s)). Qed.

Lemma keyed_Update pid addrs s db : keyed db -> keyed (Update pid addrs s db).
Proof.
  intros Hk x r. rewrite lookup_Update'. case_decide as Hd; [|apply Hk]. subst x. unfold merge_record. intros [= <-].
  destruct (db_peers db !! pid) as [e|] eqn:E; [|done]. case_match; [done|by apply Hk].
Qed.

(** A relation on databases that the operations here respect: nothing gets older. *)
Definition newer (db db' : PeerDB) : Prop :=
  forall x s, seen_at db x = Some s -> exists s', seen_at db' x = Some s' /\ s <= s'.

#[global] Instance newer_preorder : PreOrder newer.
Proof.
  split; [intros db x s; eauto with lia|]. intros d1 d2 d3 H12 H23 x s (s2 & H2 & ?)%H12.
  destruct (H23 _ _ H2) as (s3 & ? & ?). exists s3. split; [done|lia].
Qed.

Lemma Update_newer pid addrs s db :
  newer db (Update pid addrs s db) /\ exists s', seen_at (Update pid addrs s db) pid = Some s' /\ s <= s'.
Proof.
  unfold newer, seen_at. setoid_rewrite lookup_Update'. split.
  - intros x t Ht. case_decide as Hd; [|exists t; split; [done|lia]]. subst x. unfold merge_record.
    destruct (db_peers db !! pid) as [e|]; [|done]. injection Ht as <-. cbn. eexists. split; [done|]. case_match; cbn in *; lia.
  - rewrite decide_True by done. cbn. eexists. split; [done|]. unfold merge_record.
    destruct (db_peers db !! pid); [case_match|]; cbn in *; lia.
Qed.

Section learning.
Context {MA : Multiaddrs}.

Lemma learn_shared_newer self db e : newer db (learn_shared self db e).
Proof.
  destruct e as [p now]. unfold learn_shared. destruct (peer_Decode (pi_ID p)); [|done]. case_decide; [done|].
  cbv zeta. apply Update_newer.
Qed.

Lemma learn_shared_loop self db es : newer db (foldl (learn_shared self) db es) /\
  forall e rpid, e ∈ es -> peer_Decode (pi_ID e.1) = Some rpid -> rpid <> self ->
    exists s, seen_at (foldl (learn_shared self) db es) rpid = Some s /\
      (if 0 <? pi_SeenAt e.1 then time_UnixMilli (pi_SeenAt e.1) else e.2) <= s.
Proof.
  revert db. induction es as [|e0 es IH]; intros db; cbn [foldl]; [split; [done|set_solver]|].
  destruct (IH (learn_shared self db e0)) as [Hn Hin]. split; [etrans; [apply learn_shared_newer|done]|].
  intros e rpid [->|He]%elem_of_cons Hd Hne; [|by apply Hin]. destruct e0 as [p now]. cbn [fst snd] in *.
  assert (exists s, seen_at (learn_shared self db (p, now)) rpid = Some s /\
    (if 0 <? pi_SeenAt p then time_UnixMilli (pi_SeenAt p) else now) <= s) as (s & Hs & Hle).
  { unfold learn_shared. rewrite Hd, decide_False by done. apply Update_newer. }
  destruct (Hn _ _ Hs) as (s' & ? & ?). exists s'. split; [done|lia].
Qed.

(** A time in the future pins a record.  When an answer gives a peer a time
    later than what is known of it, that record is returned until the time plus
    the time to live has passed, with the addresses of the answer, whatever is
    heard from the peer itself in the meantime: updates up to that time are
    ignored. *)
Theorem future_record_pins self db p rpid now us later :
  peer_Decode (pi_ID p) = Some rpid -> rpid <> self -> 0 < pi_SeenAt p ->
  (forall s, seen_at db rpid = Some s -> s < time_UnixMilli (pi_SeenAt p)) ->
  Forall (fun u => pr_SeenAt u <= time_UnixMilli (pi_SeenAt p)) us ->
  0 <= db_ttl db -> later <= time_UnixMilli (pi_SeenAt p) + db_ttl db ->
  Get later rpid (run_updates us (learn_shared self db (p, now))) =
    Some (mkRecord rpid (parseAddrs (pi_Addrs p)) (time_UnixMilli (pi_SeenAt p))).
Proof.
  intros Hd Hne Hpos Hold Hus Httl Hlater. set (T := time_UnixMilli (pi_SeenAt p)) in *.
  set (r := mkRecord rpid (parseAddrs (pi_Addrs p)) T).
  assert (db_peers (learn_shared self db (p, now)) !! rpid = Some r) as H0.
  { unfold learn_shared. rewrite Hd, decide_False by done. replace (0 <? pi_SeenAt p) with true by lia.
    rewrite lookup_Update', decide_True by done. f_equal. unfold merge_record. unfold seen_at in Hold.
    destruct (db_peers db !! rpid) as [e|]; [|done]. specialize (Hold _ eq_refl). cbn [pr_SeenAt fmap option_fmap option_map] in *.
    fold T. by replace (pr_SeenAt e <? T) with true by lia. }
  assert (db_ttl (learn_shared self db (p, now)) = db_ttl db) as Ht0.
  { unfold learn_shared. rewrite Hd, decide_False by done. cbv zeta. by rewrite ttl_Update. }
  assert (db_peers (run_updates us (learn_shared self db (p, now))) !! rpid = Some r) as Hr.
  { induction us as [|u us IH] using rev_ind; [done|]. apply Forall_app in Hus as [Hus [Hu _]%Forall_cons].
    rewrite run_updates_snoc, lookup_Update, (IH Hus). case_decide; [|done].
    unfold merge_record. cbv beta iota. change (pr_SeenAt r) with T. by replace (T <? pr_SeenAt u) with false by lia. }
  unfold Get. rewrite Hr, ttl_run_updates, Ht0. unfold expired, time_sub. cbn [pr_SeenAt r].
  case_match; [lia|done].
Qed.
End learning.

(** ** One exchange *)

Section one.
Context {MA : Multiaddrs} {ML : MultiaddrsLaws MA} {Ord : MapOrder} {OL : MapOrderLaws Ord}.
Context {J : PushJson} {JL : PushJsonLaws J}.

(** What [PushToPeer] does to the two databases. *)
Lemma PushToPeer_dbs c a b : nd_id a <> nd_id b ->
  let addrs := (GetAll (pc_circuits c) (pc_vouches c) (nd_addrs a)).1 in
  let '(a', b', ok) := PushToPeer c a b in
  ok = true /\ nd_id a' = nd_id a /\ nd_id b' = nd_id b /\
  nd_db b' = Update (nd_id a) (parseAddrs addrs) (pc_handled c 0%nat) (nd_db b) /\
  nd_db a' = foldl (learn_shared (nd_id a)) (nd_db a)
    (imap (fun i p => (p, pc_answered c i))
       (shared (nd_id b) (nd_id a) (List (pc_listed c) (nd_db b')) (mapped_list b) (nd_alloced b))).
Proof.
  intros Hne. cbv zeta. unfold PushToPeer, push_request. destruct (GetAll _ _ _) as [addrs am].
  unfold HandlePushStream. rewrite push_unmarshal_marshal. cbn [pm_Peers imap foldl].
  unfold learn_pushed. cbn [pi_ID pi_Addrs]. rewrite peer_Decode_String, decide_False by done.
  unfold push_answer. rewrite push_unmarshal_marshal. done.
Qed.

Lemma elem_of_List now db r : keyed db ->
  r ∈ List now db <-> Get now (pr_PeerID r) db = Some r.
Proof.
  intros Hk. rewrite List_view, <-lookup_view, list_elem_of_fmap. split.
  - intros ([k r'] & -> & Hin%elem_of_map_to_list). cbn.
    assert (pr_PeerID r' = k) as ->; [|done]. rewrite lookup_view in Hin. unfold Get in Hin.
    destruct (db_peers db !! k) as [r0|] eqn:E; [|done]. case_match; simplify_eq. by apply (Hk _ _ E).
  - intros H. exists (pr_PeerID r, r). split; [done|]. by apply elem_of_map_to_list.
Qed.

Lemma UnixMilli_floor t : time_UnixMilli (UnixMilli t) <= t < time_UnixMilli (UnixMilli t) + millisecond.
Proof. unfold time_UnixMilli, UnixMilli, millisecond. change (10 ^ 6) with 1000000. Z.to_euclidean_division_equations. lia. Qed.

(** The addresses [GetAll] collects are multiaddrs. *)
Definition multiaddrs (l : list string) : Prop := Forall (fun m => NewMultiaddr m = Some m) l.

Lemma parseAddrs_id l : multiaddrs l -> parseAddrs l = l.
Proof. unfold parseAddrs. induction 1 as [|m l Hm Hl IH]; [done|]. cbn. rewrite Hm, IH. done. Qed.

(** A push informs both sides.  After [PushToPeer] over a working stream the
    peer has the sender with exactly the addresses it announces, unless it knew
    something newer; and the sender knows every peer the other would list, at a
    time no older than the other's by a millisecond. *)
Theorem push_informs c a b : nd_id a <> nd_id b -> keyed (nd_db b) ->
  let addrs := (GetAll (pc_circuits c) (pc_vouches c) (nd_addrs a)).1 in
  multiaddrs addrs ->
  let '(a', b', ok) := PushToPeer c a b in
  ok = true /\
  (match db_peers (nd_db b) !! nd_id a with Some r => pr_SeenAt r < pc_handled c 0%nat | None => True end ->
     db_peers (nd_db b') !! nd_id a = Some (mkRecord (nd_id a) addrs (pc_handled c 0%nat))) /\
  (forall x r, Get (pc_listed c) x (nd_db b') = Some r -> x <> nd_id a -> x <> nd_id b -> 0 < UnixMilli (pr_SeenAt r) ->
     exists s, seen_at (nd_db a') x = Some s /\ pr_SeenAt r - millisecond < s) /\
  newer (nd_db a) (nd_db a') /\ newer (nd_db b) (nd_db b').
Proof.
  intros Hne Hk addrs Hma. pose proof (PushToPeer_dbs c a b Hne) as H. cbv zeta in H. fold addrs in H.
  destruct (PushToPeer c a b) as [[a' b'] ok]. destruct H as (-> & _ & _ & Hb & Ha). rewrite parseAddrs_id in Hb by done.
  destruct (learn_shared_loop (nd_id a) (nd_db a) (imap (fun i p => (p, pc_answered c i))
    (shared (nd_id b) (nd_id a) (List (pc_listed c) (nd_db b')) (mapped_list b) (nd_alloced b)))) as [Hn Hin]. rewrite <-Ha in Hn, Hin.
  split; [done|]. split; [|split; [|split; [done|rewrite Hb; apply Update_newer]]].
  - intros Hold. rewrite Hb, lookup_Update', decide_True by done. unfold merge_record.
    destruct (db_peers (nd_db b) !! nd_id a) as [e|]; [|done]. cbn. by replace (pr_SeenAt e <? _) with true by lia.
  - intros x r Hget Hxa Hxb Hms.
    assert (keyed (nd_db b')) as Hk' by (rewrite Hb; by apply keyed_Update).
    assert (pr_PeerID r = x) as Hid.
    { unfold Get in Hget. destruct (db_peers (nd_db b') !! x) as [r0|] eqn:E; [|done]. case_match; simplify_eq. by apply (Hk' _ _ E). }
    rewrite <-Hid in Hget, Hxa, Hxb |- *. apply elem_of_List in Hget as Hl; [|done].
    set (p := mkInfo (peer_String (pr_PeerID r)) (addrStrings (pr_Addrs r)) (mapped_list b) (nd_alloced b) (UnixMilli (pr_SeenAt r))).
    assert (p ∈ shared (nd_id b) (nd_id a) (List (pc_listed c) (nd_db b')) (mapped_list b) (nd_alloced b)) as Hp.
    { unfold shared. apply list_elem_of_fmap. exists r. split; [done|]. by apply list_elem_of_filter. }
    apply list_elem_of_lookup in Hp as [i Hi].
    destruct (Hin (p, pc_answered c i) (pr_PeerID r)) as (s & Hs & Hle); [|by cbn; rewrite peer_Decode_String|done|].
    { apply list_elem_of_lookup. exists i. rewrite list_lookup_imap, Hi. done. }
    exists s. split; [done|]. cbn [fst snd pi_SeenAt p] in Hle. replace (0 <? UnixMilli (pr_SeenAt r)) with true in Hle by lia.
    pose proof (UnixMilli_floor (pr_SeenAt r)). lia.
Qed.
End one.

(** ** A network of nodes *)

(** Ghost: the last time each peer pushed its addresses or answered a ping. *)
Record gnet := mkNet {
  gn_nodes : gmap string node;
  gn_contact : string -> Z;
  gn_now : Z;
}.

Definition touch (x : string) (t : Z) (contact : string -> Z) : string -> Z :=
  fun y => if decide (y = x) then t else contact y.

Section gossip.
Context {MA : Multiaddrs} {ML : MultiaddrsLaws MA} {Ord : MapOrder} {OL : MapOrderLaws Ord}.
Context {J : PushJson} {JL : PushJsonLaws J}.
(** The time to live all nodes use, and how far their clocks are from the time. *)
Context (ttl skew : Z) (Hskew : 0 <= skew).

(** A clock read at a moment between [t] and [t']. *)
Definition clock_in (t t' now : Z) : Prop := t - skew <= now <= t' + skew.

Definition clocks_in (t t' : Z) (c : push_clocks) : Prop :=
  clock_in t t' (pc_listed c) /\ (forall i, clock_in t t' (pc_handled c i)) /\ forall i, clock_in t t' (pc_answered c i).

Definition gossip_init (n : gnet) : Prop := 
  gn_nodes n = ∅ /\ unix_epoch + millisecond + skew <= gn_now n /\ forall x, gn_contact n x <= gn_now n.

(** Nodes start with an empty database; they push to each other, and the answer may
    be lost; they reconnect to peers they know, which answer a ping; databases are
    cleaned up. *)
Inductive gossip_step : gnet -> gnet -> Prop :=
| gs_join n a x t' : gn_now n <= t' -> nd_id x = a -> nd_db x = NewPeerDB ttl ->
    gossip_step n (mkNet (<[a := x]> (gn_nodes n)) (gn_contact n) t')
| gs_push n a b na nb c t' na' nb' ok answered :
    gn_nodes n !! a = Some na -> gn_nodes n !! b = Some nb -> a <> b ->
    gn_now n <= t' -> clocks_in (gn_now n) t' c -> PushToPeer c na nb = (na', nb', ok) ->
    gossip_step n (mkNet (<[a := if answered : bool then na' else na]> (<[b := nb']> (gn_nodes n)))
                         (touch a t' (gn_contact n)) t')
| gs_reconnect n a na x r t t' :
    gn_nodes n !! a = Some na -> db_peers (nd_db na) !! x = Some r -> gn_now n <= t' -> clock_in (gn_now n) t' t ->
    gossip_step n (mkNet (<[a := na <| nd_db := Update x (pr_Addrs r) t (nd_db na) |>]> (gn_nodes n))
                         (touch x t' (gn_contact n)) t')
| gs_cleanup n a na t t' : gn_nodes n !! a = Some na -> gn_now n <= t' -> clock_in (gn_now n) t' t ->
    gossip_step n (mkNet (<[a := na <| nd_db := cleanup_tick t (nd_db na) |>]> (gn_nodes n)) (gn_contact n) t').

(** No record is newer than the last contact with its peer, up to the skew. *)
Definition db_ok (contact : string -> Z) (db : PeerDB) : Prop :=
  db_ttl db = ttl /\ keyed db /\
  map_Forall (fun x r => unix_epoch + millisecond <= pr_SeenAt r <= contact x + skew) (db_peers db).

Definition net_ok (n : gnet) : Prop :=
  unix_epoch + millisecond + skew <= gn_now n /\ (forall x, gn_contact n x <= gn_now n) /\
  map_Forall (fun a x => nd_id x = a /\ db_ok (gn_contact n) (nd_db x)) (gn_nodes n).

Lemma db_ok_touch contact db a t : db_ok contact db -> (forall x, contact x <= t) -> db_ok (touch a t contact) db.
Proof.
  intros (Ht & Hk & Hr) Hc. split; [done|]. split; [done|]. intros x r Hx. specialize (Hr x r Hx). cbn in *.
  unfold touch. specialize (Hc x). case_decide; lia.
Qed.

Lemma db_ok_Update contact db x addrs t : db_ok contact db -> unix_epoch + millisecond <= t <= contact x + skew ->
  db_ok contact (Update x addrs t db).
Proof.
  intros (Ht & Hk & Hr) Hc. split; [by rewrite ttl_Update|]. split; [by apply keyed_Update|].
  intros y r. rewrite lookup_Update'. case_decide as Hd; [|apply Hr]. subst y. intros [= <-].
  unfold merge_record. destruct (db_peers db !! x) as [e|] eqn:E; [|done]. case_match; [done|by apply (Hr _ _ E)].
Qed.

(** Learning from an answer keeps the bound: the times of the other node rounded
    down, none of which is before 1970. *)
Lemma db_ok_learn_shared contact self db e : db_ok contact db ->
  (forall x, peer_Decode (pi_ID e.1) = Some x ->
     0 < pi_SeenAt e.1 /\ unix_epoch + millisecond <= time_UnixMilli (pi_SeenAt e.1) <= contact x + skew) ->
  db_ok contact (learn_shared self db e).
Proof.
  destruct e as [p now]. cbn. intros Hok Hp. destruct (peer_Decode (pi_ID p)) as [x|]; [|done]. case_decide; [done|].
  destruct (Hp x eq_refl) as [Hpos Hin]. replace (0 <? pi_SeenAt p) with true by lia. by apply db_ok_Update.
Qed.

Lemma db_ok_learn_loop contact self db es : db_ok contact db ->
  (forall e x, e ∈ es -> peer_Decode (pi_ID e.1) = Some x ->
     0 < pi_SeenAt e.1 /\ unix_epoch + millisecond <= time_UnixMilli (pi_SeenAt e.1) <= contact x + skew) ->
  db_ok contact (foldl (learn_shared self) db es).
Proof.
  revert db. induction es as [|e es IH]; intros db Hok Hes; cbn [foldl]; [done|].
  apply IH; [apply db_ok_learn_shared; [done|]; intros x; apply Hes; set_solver|].
  intros e' x He'. apply Hes. set_solver.
Qed.

Lemma shared_times contact db self pid mapped alloced now p x :
  db_ok contact db -> p ∈ shared self pid (List now db) mapped alloced -> peer_Decode (pi_ID p) = Some x ->
  0 < pi_SeenAt p /\ unix_epoch + millisecond <= time_UnixMilli (pi_SeenAt p) <= contact x + skew.
Proof.
  intros (_ & Hk & Hr) (r & -> & [_ Hin]%list_elem_of_filter)%list_elem_of_fmap. cbn. rewrite peer_Decode_String.
  intros [= <-]. apply elem_of_List in Hin; [|done]. unfold Get in Hin.
  destruct (db_peers db !! pr_PeerID r) as [r'|] eqn:E; [|done]. case_match; simplify_eq.
  specialize (Hr _ _ E). cbn in Hr. pose proof (UnixMilli_floor (pr_SeenAt r)) as Hf.
  unfold time_UnixMilli, millisecond in *. set (m := UnixMilli (pr_SeenAt r)) in *. lia.
Qed.

Lemma touch_le a t contact now : now <= t -> (forall x, contact x <= now) -> forall x, touch a t contact x <= t.
Proof. intros Ht Hc x. unfold touch. specialize (Hc x). case_decide; lia. Qed.

Lemma push_ok contact c t t' na nb na' nb' ok : clocks_in t t' c -> t <= t' -> unix_epoch + millisecond + skew <= t ->
  (forall x, contact x <= t) -> nd_id na <> nd_id nb -> db_ok contact (nd_db na) -> db_ok contact (nd_db nb) ->
  PushToPeer c na nb = (na', nb', ok) ->
  let contact' := touch (nd_id na) t' contact in
  nd_id na' = nd_id na /\ nd_id nb' = nd_id nb /\ db_ok contact' (nd_db na') /\ db_ok contact' (nd_db nb').
Proof.
  intros (Hl & Hh & _) Htt Hep Hcon Hne Ha Hb E contact'. pose proof (PushToPeer_dbs c na nb Hne) as H. cbv zeta in H. rewrite E in H.
  destruct H as (_ & Hia & Hib & Hdb & Hda). split; [done|]. split; [done|].
  assert (forall x, contact x <= t') as Hcon' by (intros x; specialize (Hcon x); lia).
  assert (db_ok contact' (nd_db nb')) as Hb'.
  { rewrite Hdb. apply db_ok_Update; [by apply db_ok_touch|]. unfold contact', touch. rewrite decide_True by done.
    specialize (Hh 0%nat). unfold clock_in in Hh. lia. }
  split; [|done]. rewrite Hda. apply db_ok_learn_loop; [by apply db_ok_touch|].
  intros e x (i & p & -> & Hp)%elem_of_lookup_imap_1. cbn [fst].
  eapply shared_times; [exact Hb'|by eapply list_elem_of_lookup_2].
Qed.

Lemma gossip_step_ok n n' : net_ok n -> gossip_step n n' -> net_ok n'.
Proof.
  intros (Hep & Hcon & Hn) H.
  assert (forall t k x, gn_now n <= t -> forall a, gn_nodes n !! k = Some x ->
    nd_id x = k /\ db_ok (touch a t (gn_contact n)) (nd_db x)) as Htouch.
  { intros t k x Ht a Hk. destruct (Hn _ _ Hk). split; [done|]. apply db_ok_touch; [done|]. intros y. specialize (Hcon y). lia. }
  destruct H as [n a x t' Ht Hid Hdb|n a b na nb c t' na' nb' ok answered H H0 Hab Ht Hc E|n a na x r t t' H Hx Ht Hct|n a na t t' H Ht _];
    unfold net_ok; cbn [gn_now gn_nodes gn_contact].
  - split; [lia|]. split; [intros y; specialize (Hcon y); lia|]. apply map_Forall_insert_2; [|done]. split; [done|].
    rewrite Hdb. split; [done|]. split; apply map_Forall_empty.
  - destruct (Hn _ _ H) as [<- Hna], (Hn _ _ H0) as [<- Hnb].
    destruct (push_ok _ _ _ _ _ _ _ _ _ Hc Ht Hep Hcon Hab Hna Hnb E) as (Ha' & Hb' & Hna' & Hnb').
    split; [lia|]. split; [by apply (touch_le _ _ _ (gn_now n))|].
    apply map_Forall_insert_2; [|apply map_Forall_insert_2; [done|intros k x; by apply Htouch]].
    destruct answered; [done|by apply Htouch].
  - split; [lia|]. split; [apply (touch_le _ _ _ (gn_now n)); [lia|done]|].
    apply map_Forall_insert_2; [|intros k y; apply Htouch; lia].
    destruct (Htouch t' a na ltac:(lia) x H) as [? ?]. split; [done|]. apply db_ok_Update; [done|].
    unfold touch. rewrite decide_True by done. unfold clock_in in Hct. lia.
  - split; [lia|]. split; [intros y; specialize (Hcon y); lia|].
    apply map_Forall_insert_2; [|done]. destruct (Hn _ _ H) as [? (Ht0 & Hk & Hr)]. split; [done|]. split; [done|].
    split; intros x r (Hx & _)%map_lookup_filter_Some; [by apply Hk|by apply Hr].
Qed.

(** C22: Gossip does not keep the departed alive.  In a network where nodes push to
    each other, lose answers, reconnect and clean up in any order, and whose
    clocks are never further from the time than [skew], no record of a peer is
    ever newer than the last time that peer itself pushed or answered a ping, plus
    [skew]; so once a node's clock is past that time by more than the time to live
    and [skew], the node neither returns nor lists it, however often the others
    exchanged it.  (The bound on the clocks is needed: [future_record_pins].) *)
Theorem gossip_forgets n a x y now : 0 <= ttl < 2 ^ 62 ->
  reachable gossip_init gossip_step n -> gn_nodes n !! a = Some x -> gn_contact n y + skew + ttl < now ->
  Get now y (nd_db x) = None /\ forall r, r ∈ List now (nd_db x) -> pr_PeerID r <> y.
Proof.
  intros Httl Hreach Ha Hnow.
  assert (net_ok n) as (Hep & _ & Hn).
  { revert Hreach. apply reachable_invariant; [|intros ? ? ? ?; by eapply gossip_step_ok].
    intros m (He & ? & ?). split; [done|]. split; [done|]. rewrite He. apply map_Forall_empty. }
  destruct (Hn _ _ Ha) as [_ (Ht & Hk & Hr)].
  assert (Get now y (nd_db x) = None) as Hget.
  { unfold Get. destruct (db_peers (nd_db x) !! y) as [r|] eqn:E; [|done]. specialize (Hr _ _ E). cbn in Hr.
    unfold expired, time_sub. rewrite Ht. case_match; [done|lia]. }
  split; [done|]. intros r Hin Hid. apply elem_of_List in Hin; [|done]. congruence.
Qed.

End gossip.

(** ** Examples *)

#[global] Instance PeerInfo_eq_dec : EqDecision PeerInfo.
Proof. solve_decision. Defined.

#[global] Instance PeerInfo_countable : Countable PeerInfo.
Proof.
  refine (inj_countable' (fun p => (pi_ID p, pi_Addrs p, pi_MappedAddrs p, pi_AllocedAddrs p, pi_SeenAt p))
    (fun '(a, b, c, d, e) => mkInfo a b c d e) _). by intros [].
Defined.

#[global] Instance PushMessage_eq_dec : EqDecision PushMessage.
Proof. solve_decision. Defined.

#[global] Instance PushMessage_countable : Countable PushMessage.
Proof. refine (inj_countable' (fun m => (pm_Peers m, pm_TS m)) (fun '(a, b) => mkPush a b) _). by intros []. Defined.

Definition example_json : PushJson := {| push_marshal := any_marshal; push_unmarshal := any_unmarshal |}.

Lemma example_json_laws : PushJsonLaws example_json.
Proof. split. apply any_unmarshal_marshal. Qed.

Lemma toy_multiaddrs_laws : MultiaddrsLaws toy_multiaddrs.
Proof. by split. Qed.

Definition t0 : Z := unix_epoch + 10 * second.

Definition example_node (id addr : string) : node :=
  mkNode id (NewPeerDB (600 * minute)) ∅ (SetLocal [addr] NewAddrManager) None [].

Definition still (t : Z) : push_clocks := mkClocks (fun _ => t) (fun _ => t) t (fun _ => t) t (fun _ => t).

Lemma push_informs_witness :
  let '(_, b', ok) := @PushToPeer toy_multiaddrs listed_order example_json (still t0) (example_node "A" "a1") (example_node "B" "b1") in
  ok = true /\ db_peers (nd_db b') !! "A"%string = Some (mkRecord "A" ["a1"%string] t0).
Proof.
  pose proof (@push_informs toy_multiaddrs toy_multiaddrs_laws listed_order listed_order_laws example_json example_json_laws
    (still t0) (example_node "A" "a1") (example_node "B" "b1")) as H.
  cbv zeta in H. specialize (H ltac:(done) (map_Forall_empty _) ltac:(repeat constructor)).
  destruct (PushToPeer _ _ _) as [[a' b'] ok]. destruct H as (Hok & Hb & _). split; [exact Hok|exact (Hb I)].
Defined.

Lemma future_record_pins_witness :
  Get (t0 + minute) "B" (run_updates [mkRecord "B" ["true"%string] (t0 + second)]
    (@learn_shared toy_multiaddrs "A" (NewPeerDB (600 * minute)) (mkInfo "B" ["forged"%string] [] [] 20000, t0))) =
  Some (mkRecord "B" ["forged"%string] (time_UnixMilli 20000)).
Proof.
  apply (@future_record_pins toy_multiaddrs "A" (NewPeerDB (600 * minute)) (mkInfo "B" ["forged"%string] [] [] 20000) "B" t0);
    [reflexivity|done|cbn; lia|done| |cbn; unfold minute, second; lia|cbn; unfold t0, time_UnixMilli, minute, second, millisecond; lia].
  constructor; [|constructor]. cbn. unfold t0, time_UnixMilli, second, millisecond. lia.
Defined.

(** B hears of A once; ten hours and more after that nobody returns it. *)
Definition example_net : gnet :=
  mkNet (<["B" := example_node "B" "b1"]> (<["A" := example_node "A" "a1"]> ∅))%string (fun _ => 0) t0.

Lemma gossip_forgets_witness :
  exists n x, gn_nodes n !! "B"%string = Some x /\ db_peers (nd_db x) !! "A"%string <> None /\
    Get (t0 + 601 * minute) "A" (nd_db x) = None.
Proof.
  set (r := @PushToPeer toy_multiaddrs listed_order example_json (still t0) (example_node "A" "a1") (example_node "B" "b1")).
  set (n := mkNet (<["A" := r.1.1]> (<["B" := r.1.2]> (gn_nodes example_net)))%string (touch "A" t0 (fun _ => 0)) t0).
  assert (reachable (gossip_init second) (@gossip_step toy_multiaddrs listed_order example_json (600 * minute) second) n) as Hn.
  { set (n0 := mkNet ∅ (fun _ => 0) t0).
    set (n1 := mkNet (<["A" := example_node "A" "a1"]> ∅)%string (fun _ => 0) t0).
    apply (reach_step _ _ example_net).
    - apply (reach_step _ _ n1); [|apply (gs_join _ _ n1 "B" (example_node "B" "b1") t0); [cbn; lia|done|done]].
      apply (reach_step _ _ n0); [|apply (gs_join _ _ n0 "A" (example_node "A" "a1") t0); [cbn; lia|done|done]].
      apply reach_init. split; [done|]. split; [cbn; unfold t0, millisecond, second; lia|intros y; cbn; unfold t0, unix_epoch, second; lia].
    - refine (gs_push _ _ _ "A" "B" (example_node "A" "a1") (example_node "B" "b1") (still t0) t0 r.1.1 r.1.2 r.2 true _ _ _ _ _ _);
        [reflexivity|reflexivity|done|cbn; lia|unfold clocks_in, clock_in, still, second; cbn; repeat split; lia|reflexivity]. }
  exists n, r.1.2. split; [reflexivity|]. split; [by vm_compute|].
  apply (@gossip_forgets toy_multiaddrs toy_multiaddrs_laws listed_order listed_order_laws example_json example_json_laws
    (600 * minute) second ltac:(unfold second; lia) n "B" r.1.2 "A" (t0 + 601 * minute)); [unfold minute, second; lia|exact Hn|reflexivity|].
  change (t0 + second + 600 * minute < t0 + 601 * minute). unfold minute, second. lia.
Defined.
