(* ===== verification/PubSub.v ===== *)
(** Messages of topics forwarded over streams (src/p2put/pso_nopubsub.go): the
    table that drops duplicates, the handler of an incoming message, publishing.
    The table is the same in pso_pubsub.go.

    The handler and [PublishTopic] return the events they put on [rawChan].  The
    table is a [sync.Map] and an atomic counter; calls are taken one at a time.
    The codec is encoding/json's ([FwdJson]). *)

From stdpp Require Import gmap strings.
From S2P Require Import Prelude GoLib PeerDB.
Import Base64.

Definition dedupTTL : Z := 10 * minute.
Definition dedupMaxSize : Z := 2000.
Definition maxPublishSize : Z := 2 ^ 20.
(** The bound of the handler's reader, [msgio.NewVarintReaderSize(s, 1<<20)]. *)
Definition maxFwdFrame : Z := 2 ^ 20.

(** ** Duplicates *)

Record dedup := mkDedup {
  dd_seen : gmap (list byte) Z;
  dd_count : Z;
}.

#[global] Instance dedup_eta : Eta dedup := fun d => mkDedup (dd_seen d) (dd_count d).

Definition new_dedup : dedup := mkDedup ∅ 0.

(** The sweep of [isMsgSeen]; [since] is the clock at each entry. *)
Definition sweep (since : list byte -> Z) (d : dedup) : dedup :=
  let kept := filter (fun e => (dedupTTL <? time_sub (since e.1) e.2) = false) (dd_seen d) in
  mkDedup kept (int32 (Z.of_nat (size kept))).

Definition isMsgSeen (now : Z) (since : list byte -> Z) (msgID : list byte) (d : dedup) : bool * dedup :=
  match dd_seen d !! msgID with
  | Some _ => (true, d)
  | None =>
      let d := mkDedup (<[msgID := now]> (dd_seen d)) (int32 (dd_count d + 1)) in
      if dedupMaxSize <=? dd_count d then (false, sweep since d) else (false, d)
  end.

(** ** Messages *)

Record pubsubFwdMsg := mkFwd {
  fm_From : list byte;
  fm_Data : list byte;
  fm_Seqno : list byte;
  fm_Topic : string;
}.

Class FwdJson := {
  fwd_marshal : pubsubFwdMsg -> list byte;
  fwd_unmarshal : list byte -> option pubsubFwdMsg;
  (** Strings JSON carries unchanged. *)
  fwd_plain : string -> Prop;
}.

Class FwdJsonLaws (J : FwdJson) := {
  fwd_unmarshal_marshal : forall m, fwd_plain (fm_Topic m) -> fwd_unmarshal (fwd_marshal m) = Some m;
}.

(** The event of a message; its number in base64. *)
Record pubsubEvent := mkPubsub {
  pe_From : list byte;
  pe_Data : list byte;
  pe_Seqno : list byte;
  pe_Topic : string;
  pe_ReceivedFrom : string;
}.

Definition fwdMsgID (m : pubsubFwdMsg) : list byte := fm_From m ++ fm_Seqno m.

Definition event_of (m : pubsubFwdMsg) (receivedFrom : string) : pubsubEvent :=
  mkPubsub (fm_From m) (fm_Data m) (EncodeToString (fm_Seqno m)) (fm_Topic m) receivedFrom.

Section fwd.
Context {J : FwdJson}.

(** [handlePubSubFwdStream] on the frame [pid] sends, [None] when none can be read;
    the reader refuses a frame that is larger than its bound.  The log line reads
    the number as 64 bits, which panics on fewer than 8 bytes. *)
Definition handlePubSubFwdStream (now : Z) (since : list byte -> Z) (pid : string) (raw : option (list byte)) (d : dedup)
    : outcome (list pubsubEvent * dedup) :=
  match raw with
  | None => Ok ([], d)
  | Some raw =>
      if maxFwdFrame <? len raw then Ok ([], d)
      else
        match fwd_unmarshal raw with
        | None => Ok ([], d)
        | Some msg =>
            let '(seen, d) := isMsgSeen now since (fwdMsgID msg) d in
            if seen then Ok ([], d)
            else if len (fm_Seqno msg) <? 8 then Panic
            else Ok ([event_of msg pid], d)
        end
  end.

Inductive publish_error := NotReady | TooLarge | NoPeers.

(** What comes of a stream to a peer. *)
Inductive send_result := SendOk | StreamFailed | WriteFailed.

Section order.
Context {O : MapOrder}.

(** [PublishTopic]: the error, the events raised, the frames written to peers, the
    table.  [net] is the host's identity and the peers of the database, [None]
    when libp2p is not ready; [now] numbers the message. *)
Definition PublishTopic (now : Z) (since : list byte -> Z) (net : option (list byte * list string))
    (send : string -> send_result) (short : list byte -> string) (topic : string) (data : list byte) (d : dedup)
    : option publish_error * list pubsubEvent * list (string * list byte) * dedup :=
  match net with
  | None => (Some NotReady, [], [], d)
  | Some (self, peers) =>
      if maxPublishSize <? len data then (Some TooLarge, [], [], d)
      else
        let msg := mkFwd self data (be_put 8 (wrap64 now)) topic in
        let '(_, d) := isMsgSeen now since (fwdMsgID msg) d in
        let raised := [event_of msg (short self)] in
        match peers with
        | [] => (Some NoPeers, raised, [], d)
        | _ =>
            let sent := filter (fun p => match send p with SendOk => true | _ => false end = true) peers in
            (if len sent =? 0 then Some NoPeers else None, raised, (fun p => (p, fwd_marshal msg)) <$> sent, d)
        end
  end.
End order.
End fwd.

(** ** The table keeps what it must *)

(** A call: the clock, the clock at the entries of a sweep, the id. *)
Record call := mkCall { cl_now : Z; cl_since : list byte -> Z; cl_id : list byte }.

(** The answers of a sequence of calls, with the table after each. *)
Fixpoint run_calls (cs : list call) (d : dedup) : list (call * bool * dedup) :=
  match cs with
  | [] => []
  | c :: cs =>
      let '(b, d) := isMsgSeen (cl_now c) (cl_since c) (cl_id c) d in
      (c, b, d) :: run_calls cs d
  end.

(** The clock does not go back; a sweep reads it before the next call. *)
Fixpoint in_order (now : Z) (cs : list call) : Prop :=
  match cs with
  | [] => True
  | c :: cs =>
      now <= cl_now c /\ exists t, (forall k, cl_now c <= cl_since c k <= t) /\ in_order t cs
  end.

(** An entry goes only when a sweep finds it older than the time to live. *)
Lemma isMsgSeen_keeps now since id d k t : dd_seen d !! k = Some t ->
  dd_seen (isMsgSeen now since id d).2 !! k = Some t \/ dedupTTL < since k - t.
Proof.
  intros Hk. unfold isMsgSeen. destruct (dd_seen d !! id) as [t'|] eqn:Eid; [by left|].
  assert (<[id := now]> (dd_seen d) !! k = Some t) as Hk' by (rewrite lookup_insert_ne; [done|congruence]).
  case_match; cbn -[dedupTTL]; [|by left].
  destruct (dedupTTL <? time_sub (since k) t) eqn:E; [right; unfold time_sub, dedupTTL, minute, second in *; lia|].
  left. by apply map_lookup_filter_Some.
Qed.

Lemma isMsgSeen_stored now since id d t : dd_seen d !! id = None -> (forall k, now <= since k <= t) ->
  dd_seen (isMsgSeen now since id d).2 !! id = Some now \/ dedupTTL < t - now.
Proof.
  intros Hd Ht. unfold isMsgSeen. rewrite Hd. case_match; cbn -[dedupTTL]; [|left; by rewrite lookup_insert_eq].
  destruct (dedupTTL <? time_sub (since id) now) eqn:E.
  - right. specialize (Ht id). unfold time_sub, dedupTTL, minute, second in *. lia.
  - left. apply map_lookup_filter_Some. by rewrite lookup_insert_eq.
Qed.

Lemma run_calls_later cs now d : in_order now cs -> Forall (fun r => now <= cl_now r.1.1) (run_calls cs d).
Proof.
  revert now d. induction cs as [|c cs IH]; intros now d; cbn [run_calls in_order]; [by constructor|].
  intros (Hn & t & Ht & Hc). destruct (isMsgSeen _ _ _ _) as [b d']. constructor; [done|].
  eapply Forall_impl; [apply (IH t), Hc|]. cbn. intros r Hr. specialize (Ht []). lia.
Qed.

(** Once stored, an id is answered as seen until the time to live has passed. *)
Lemma run_calls_seen cs now d id t0 : in_order now cs -> dd_seen d !! id = Some t0 ->
  Forall (fun r => cl_id r.1.1 = id -> r.1.2 = true \/ dedupTTL < cl_now r.1.1 - t0) (run_calls cs d).
Proof.
  revert now d. induction cs as [|c cs IH]; intros now d; cbn [run_calls in_order]; [by constructor|].
  intros (Hn & t & Ht & Hc) Hd. pose proof (isMsgSeen_keeps (cl_now c) (cl_since c) (cl_id c) d id t0 Hd) as Hk.
  destruct (isMsgSeen _ _ _ _) as [b d'] eqn:E. constructor.
  - cbn. intros <-. unfold isMsgSeen in E. rewrite Hd in E. left. congruence.
  - destruct Hk as [Hk|Hk]; [by apply (IH t)|]. eapply Forall_impl; [apply (run_calls_later cs t), Hc|].
    cbn. intros r Hr _. right. specialize (Ht id). lia.
Qed.

(** A message is delivered once.  However calls with other ids are interleaved
    and whenever the table is swept, two calls with the same id that are both
    answered "not seen" are more than the time to live apart. *)
Theorem duplicates_dropped cs now d i j ci cj di dj : in_order now cs ->
  run_calls cs d !! i = Some (ci, false, di) -> run_calls cs d !! j = Some (cj, false, dj) -> (i < j)%nat ->
  cl_id ci = cl_id cj -> dedupTTL < cl_now cj - cl_now ci.
Proof.
  revert now d i j. induction cs as [|c cs IH]; intros now d i j; cbn [run_calls in_order]; [done|].
  intros (Hn & t & Ht & Hc). destruct (isMsgSeen _ _ _ _) as [b d'] eqn:E.
  destruct j as [|j]; [lia|]. destruct i as [|i]; cbn; [|intros Hi Hj Hij; apply (IH t d' i j); [done..|lia]].
  intros [= <- -> <-] Hj _ Hid. assert (dd_seen d !! cl_id c = None) as Hnone.
  { unfold isMsgSeen in E. destruct (dd_seen d !! cl_id c) eqn:Ec; [by injection E|done]. }
  apply list_elem_of_lookup_2 in Hj.
  destruct (isMsgSeen_stored (cl_now c) (cl_since c) (cl_id c) d t Hnone Ht) as [Hs|Hold].
  - rewrite E in Hs. cbn in Hs. pose proof (run_calls_seen cs t d' _ _ Hc Hs) as Hall. rewrite Forall_forall in Hall.
    destruct (Hall _ Hj) as [?|?]; [by symmetry|done|done].
  - pose proof (run_calls_later cs t d' Hc) as Hall. rewrite Forall_forall in Hall. specialize (Hall _ Hj). cbn in Hall. lia.
Qed.

(** A sweep eleven minutes later drops the id, and it is taken again. *)
Lemma duplicates_dropped_witness :
  let cs := [mkCall 1 (fun _ => 11 * minute) [Byte.x01]; mkCall (12 * minute) (fun _ => 12 * minute) [Byte.x01]] in
  (run_calls cs (mkDedup ∅ 1999)).*1.*2 = [false; false] /\ dedupTTL < 12 * minute - 1.
Proof.
  split; [by vm_compute|].
  refine (@duplicates_dropped
    [mkCall 1 (fun _ => 11 * minute) [Byte.x01]; mkCall (12 * minute) (fun _ => 12 * minute) [Byte.x01]]
    0 (mkDedup ∅ 1999) 0 1 _ _ _ _ _ eq_refl eq_refl _ eq_refl); [|lia].
  cbn. unfold minute, second. split; [lia|]. exists (11 * (60 * 10 ^ 9)). split; [lia|]. split; [lia|].
  exists (12 * (60 * 10 ^ 9)). split; [lia|done].
Defined.

Lemma isMsgSeen_present now since id d : (forall k, since k - now <= dedupTTL) ->
  exists t, dd_seen (isMsgSeen now since id d).2 !! id = Some t.
Proof.
  intros Hs. destruct (dd_seen d !! id) as [t|] eqn:E; [exists t; unfold isMsgSeen; by rewrite E|].
  exists now. unfold isMsgSeen. rewrite E. case_match; cbn -[dedupTTL]; [|by rewrite lookup_insert_eq].
  apply map_lookup_filter_Some. rewrite lookup_insert_eq. split; [done|]. cbn -[dedupTTL].
  specialize (Hs id). apply Z.ltb_ge. unfold time_sub, dedupTTL, minute, second in *. lia.
Qed.

(** The counter is the number of entries; a call that leaves 2000 of them or more has
    just swept the table, and all that is left is young. *)
Lemma isMsgSeen_count now since id d : dd_count d = Z.of_nat (size (dd_seen d)) -> dd_count d < 2 ^ 31 - 1 ->
  let d' := (isMsgSeen now since id d).2 in
  dd_count d' = Z.of_nat (size (dd_seen d')) /\
  (d' = d \/ dd_count d' < dedupMaxSize \/ map_Forall (fun k t => since k - t <= dedupTTL) (dd_seen d')).
Proof.
  intros Hc Hr. unfold isMsgSeen. destruct (dd_seen d !! id) as [t|] eqn:E; cbn [snd]; [auto|].
  set (d1 := mkDedup _ _). assert (dd_count d1 = Z.of_nat (size (dd_seen d1))) as Hc1.
  { cbn [dd_count dd_seen d1]. rewrite map_size_insert_None, int32_small by (done || lia). lia. }
  assert (dd_count d1 < 2 ^ 31) as Hr1.
  { rewrite Hc1. cbn [dd_seen d1]. rewrite map_size_insert_None by done. lia. }
  case_match; cbn [snd]; [|split; [done|right; left; lia]].
  unfold sweep. cbn [dd_count dd_seen]. set (kept := filter _ _).
  assert (size kept <= size (dd_seen d1))%nat as Hk by (apply map_subseteq_size, map_filter_subseteq).
  split; [apply int32_small; lia|]. right. right.
  intros k t [_ Ht]%map_lookup_filter_Some. cbn -[dedupTTL] in Ht. unfold time_sub, dedupTTL, minute, second in *. lia.
Qed.

(** ** Publishing and receiving *)

Section delivery.
Context {J : FwdJson} {JL : FwdJsonLaws J}.

(** A frame that crashes the node.  The handler panics exactly on a message it
    has not seen whose number is shorter than 8 bytes, an empty JSON object for
    one: the number is read for a log line without a check of its length. *)
Theorem short_seqno_panics now since pid raw d :
  handlePubSubFwdStream now since pid raw d = Panic <->
  exists r msg, raw = Some r /\ len r <= maxFwdFrame /\ fwd_unmarshal r = Some msg /\
    dd_seen d !! fwdMsgID msg = None /\ len (fm_Seqno msg) < 8.
Proof.
  unfold handlePubSubFwdStream, isMsgSeen. destruct raw as [r|]; [|split; [done|naive_solver]].
  destruct (Z.ltb_spec maxFwdFrame (len r)) as [Hmax|Hmax]; [split; [done|intros (r' & msg & [= <-] & ? & _); lia]|].
  destruct (fwd_unmarshal r) as [msg|] eqn:Em; [|split; [done|naive_solver]].
  destruct (dd_seen d !! fwdMsgID msg) eqn:Ed; [split; [done|naive_solver]|].
  set (p := dedupMaxSize <=? _). destruct (Z.ltb_spec (len (fm_Seqno msg)) 8) as [Hl|Hl].
  - split; [intros _; eauto 10|]. by destruct p.
  - split; [by destruct p|]. intros (r' & msg' & [= <-] & _ & Em' & _ & Hl'). rewrite Em in Em'. injection Em' as <-. lia.
Qed.

Lemma handle_fresh now since pid msg d : fwd_plain (fm_Topic msg) -> len (fwd_marshal msg) <= maxFwdFrame ->
  dd_seen d !! fwdMsgID msg = None -> 8 <= len (fm_Seqno msg) ->
  handlePubSubFwdStream now since pid (Some (fwd_marshal msg)) d = Ok ([event_of msg pid], (isMsgSeen now since (fwdMsgID msg) d).2).
Proof.
  intros Hp Hm Hd Hl. unfold handlePubSubFwdStream. replace (maxFwdFrame <? _) with false by lia.
  rewrite fwd_unmarshal_marshal by done. unfold isMsgSeen. rewrite Hd.
  replace (len (fm_Seqno msg) <? 8) with false by lia. by destruct (_ <=? _).
Qed.

Lemma handle_seen now since pid msg d t : fwd_plain (fm_Topic msg) -> dd_seen d !! fwdMsgID msg = Some t ->
  handlePubSubFwdStream now since pid (Some (fwd_marshal msg)) d = Ok ([], d).
Proof.
  intros Hp Hd. unfold handlePubSubFwdStream. case_match; [done|]. rewrite fwd_unmarshal_marshal by done.
  unfold isMsgSeen. by rewrite Hd.
Qed.

Lemma handle_large now since pid raw d : maxFwdFrame < len raw ->
  handlePubSubFwdStream now since pid (Some raw) d = Ok ([], d).
Proof. intros H. unfold handlePubSubFwdStream. by replace (maxFwdFrame <? _) with true by lia. Qed.

(** C24: Publishing.  A message of at most 1 MiB, on a topic that JSON carries
    unchanged (any valid UTF-8), is raised once at its own node
    whatever happens, and written to exactly the peers a stream could be opened
    and written to; publishing succeeds when there is one.  If the encoded message
    fits the reader of the other side (1 MiB as well, though the encoding is
    larger than the data), each of them raises the same event once; if it does
    not, it raises nothing.  At the publisher a copy that comes back raises
    nothing. *)
Theorem publish_delivers now since self peers send short topic data d :
  len data <= maxPublishSize -> fwd_plain topic -> (forall k, since k - now <= dedupTTL) ->
  let msg := mkFwd self data (be_put 8 (wrap64 now)) topic in
  let '(err, raised, frames, d') := PublishTopic now since (Some (self, peers)) send short topic data d in
  raised = [event_of msg (short self)] /\
  (err = None <-> exists p, p ∈ peers /\ send p = SendOk) /\
  (forall p f, (p, f) ∈ frames <-> p ∈ peers /\ send p = SendOk /\ f = fwd_marshal msg) /\
  (forall p f now2 since2 d2, (p, f) ∈ frames -> len f <= maxFwdFrame -> dd_seen d2 !! fwdMsgID msg = None ->
     exists d3, handlePubSubFwdStream now2 since2 (short self) (Some f) d2 = Ok (raised, d3) /\
       ((forall k, since2 k - now2 <= dedupTTL) -> handlePubSubFwdStream now2 since2 (short self) (Some f) d3 = Ok ([], d3))) /\
  (forall p f now2 since2 d2, (p, f) ∈ frames -> maxFwdFrame < len f ->
     handlePubSubFwdStream now2 since2 (short self) (Some f) d2 = Ok ([], d2)) /\
  (forall p f now2 since2, (p, f) ∈ frames -> handlePubSubFwdStream now2 since2 p (Some f) d' = Ok ([], d')).
Proof.
  intros Hlen Hplain Hsince msg. unfold PublishTopic. replace (maxPublishSize <? len data) with false by lia. fold msg.
  pose proof (fun now since d => isMsgSeen_present now since (fwdMsgID msg) d) as Hstored.
  specialize (Hstored now since d Hsince) as Hown. destruct (isMsgSeen now since (fwdMsgID msg) d) as [b d'].
  destruct Hown as [t Hown].
  assert (8 <= len (fm_Seqno msg)) as Hseq by (cbn [fm_Seqno msg]; rewrite length_be_put; lia).
  set (sent := filter (fun p => match send p with SendOk => true | _ => false end = true) peers).
  assert (forall p, p ∈ sent <-> p ∈ peers /\ send p = SendOk) as Hsent.
  { intros p. unfold sent. rewrite list_elem_of_filter. destruct (send p); naive_solver. }
  assert (forall p f, (p, f) ∈ ((fun p => (p, fwd_marshal msg)) <$> sent) <-> p ∈ peers /\ send p = SendOk /\ f = fwd_marshal msg) as Hframes.
  { intros p f. rewrite list_elem_of_fmap. setoid_rewrite Hsent. naive_solver. }
  assert (forall f now2 since2 d2, f = fwd_marshal msg -> len f <= maxFwdFrame -> dd_seen d2 !! fwdMsgID msg = None ->
     exists d3, handlePubSubFwdStream now2 since2 (short self) (Some f) d2 = Ok ([event_of msg (short self)], d3) /\
       ((forall k, since2 k - now2 <= dedupTTL) -> handlePubSubFwdStream now2 since2 (short self) (Some f) d3 = Ok ([], d3))) as Hrecv.
  { intros f now2 since2 d2 -> Hm Hd2. eexists. split; [by apply handle_fresh|].
    intros Hs2. destruct (Hstored now2 since2 d2 Hs2) as [t2 Ht2]. by apply (handle_seen _ _ _ _ _ t2). }
  destruct peers as [|p0 peers]; cbn [list_fmap fmap]; split; [done| |done|].
  - split; [split; [done|set_solver]|]. split; [set_solver|]. split; [set_solver|]. split; set_solver.
  - fold sent. split; [|split; [apply Hframes|split; [|split]]].
    + destruct sent as [|q sent'] eqn:Es; cbn.
      * split; [done|]. intros (p & Hp). apply Hsent in Hp. set_solver.
      * split; [intros _; exists q; apply Hsent; set_solver|done].
    + intros p f now2 since2 d2 (_ & _ & ->)%Hframes. by apply Hrecv.
    + intros p f now2 since2 d2 _. apply handle_large.
    + intros p f now2 since2 (_ & _ & ->)%Hframes. by apply (handle_seen _ _ _ _ _ t).
Qed.

(** A message that is published and never arrives: encoding/json writes the data in
    base64, four bytes for three, so that data of more than 768 KiB, which
    [PublishTopic] takes up to 1 MiB, makes a frame that no handler reads. *)
Theorem large_message_lost now since self peers send short topic data d p :
  (forall m, 4 * ((len (fm_Data m) + 2) / 3) <= len (fwd_marshal m)) ->
  3 * 2 ^ 18 < len data <= maxPublishSize -> p ∈ peers -> send p = SendOk ->
  let '(err, _, frames, _) := PublishTopic now since (Some (self, peers)) send short topic data d in
  err = None /\ exists f, (p, f) ∈ frames /\
    forall now2 since2 pid d2, handlePubSubFwdStream now2 since2 pid (Some f) d2 = Ok ([], d2).
Proof.
  intros Hb Hlen Hp Hs. unfold PublishTopic. replace (maxPublishSize <? len data) with false by lia.
  destruct (isMsgSeen _ _ _ _) as [b d']. set (msg := mkFwd _ _ _ _).
  set (sent := filter (fun p => match send p with SendOk => true | _ => false end = true) peers).
  assert (p ∈ sent) as Hin by (apply list_elem_of_filter; by rewrite Hs).
  destruct peers as [|p0 peers]; [by apply elem_of_nil in Hp|]. fold sent.
  split; [by destruct sent; [apply elem_of_nil in Hin|]|].
  exists (fwd_marshal msg). split; [apply list_elem_of_fmap; by exists p|]. intros now2 since2 pid d2. apply handle_large.
  specialize (Hb msg). cbn [fm_Data msg] in Hb. unfold maxFwdFrame. Z.div_mod_to_equations. lia.
Qed.
End delivery.

(** ** Examples *)

#[global] Instance pubsubFwdMsg_eq_dec : EqDecision pubsubFwdMsg.
Proof. solve_decision. Defined.

#[global] Instance pubsubFwdMsg_countable : Countable pubsubFwdMsg.
Proof.
  refine (inj_countable' (fun m => (fm_From m, fm_Data m, fm_Seqno m, fm_Topic m)) (fun '(a, b, c, d) => mkFwd a b c d) _). by intros [].
Defined.

Definition example_fwd : FwdJson := {| fwd_marshal := any_marshal; fwd_unmarshal := any_unmarshal; fwd_plain := fun _ => True |}.

Lemma example_fwd_laws : FwdJsonLaws example_fwd.
Proof. split. intros m _. apply any_unmarshal_marshal. Qed.

Lemma publish_delivers_witness :
  let send p := if bool_decide (p = "b"%string) then StreamFailed else SendOk in
  let '(err, raised, frames, _) := @PublishTopic example_fwd 77 (fun _ => 77) (Some ([Byte.x41], ["b"; "c"]%string)) send (fun _ => "A"%string) "t" [Byte.x68] new_dedup in
  err = None /\ raised = [mkPubsub [Byte.x41] [Byte.x68] (EncodeToString (be_put 8 77)) "t" "A"] /\ frames.*1 = ["c"%string].
Proof.
  pose proof (@publish_delivers example_fwd example_fwd_laws 77 (fun _ => 77) [Byte.x41] ["b"; "c"]%string
    (fun p => if bool_decide (p = "b"%string) then StreamFailed else SendOk) (fun _ => "A"%string) "t" [Byte.x68] new_dedup
    ltac:(cbn; unfold maxPublishSize; lia) I ltac:(intros; unfold dedupTTL, minute, second; lia)) as H.
  cbv zeta in H |- *.
  assert ((@PublishTopic example_fwd 77 (fun _ => 77) (Some ([Byte.x41], ["b"; "c"]%string))
    (fun p => if bool_decide (p = "b"%string) then StreamFailed else SendOk) (fun _ => "A"%string) "t" [Byte.x68] new_dedup).1.2.*1
    = ["c"%string]) as Hf by reflexivity.
  destruct (PublishTopic _ _ _ _ _ _ _) as [[[err raised] frames] d']. destruct H as (Hr & He & _).
  split; [apply He; exists "c"%string; split; [set_solver|reflexivity]|]. split; [exact Hr|exact Hf].
Defined.

(** A codec whose encoding is as long as that of base64: the rest is padding. *)
Definition padded_fwd : FwdJson := {|
  fwd_marshal m := replicate (Z.to_nat (4 * ((len (fm_Data m) + 2) / 3))) Byte.x00;
  fwd_unmarshal _ := None;
  fwd_plain _ := False;
|}.

Lemma large_message_lost_witness :
  let '(err, _, frames, _) := @PublishTopic padded_fwd 77 (fun _ => 77) (Some ([Byte.x41], ["c"]%string)) (fun _ => SendOk)
    (fun _ => "A"%string) "t" (replicate (Z.to_nat (2 ^ 20)) Byte.x68) new_dedup in
  err = None /\ exists f, ("c"%string, f) ∈ frames /\
    forall now2 since2 pid d2, @handlePubSubFwdStream padded_fwd now2 since2 pid (Some f) d2 = Ok ([], d2).
Proof.
  apply (@large_message_lost padded_fwd).
  - intros m. cbn [fwd_marshal padded_fwd]. rewrite length_replicate. Z.div_mod_to_equations. lia.
  - rewrite length_replicate, Z2Nat.id by lia. unfold maxPublishSize. lia.
  - by apply list_elem_of_singleton.
  - done.
Defined.
