(* ===== verification/Events.v ===== *)
(** Events for local clients (src/p2put/utapi.go and [onEvents] of restapi.go): the
    replay buffer of each topic, the broadcast to the clients' channels, the
    callbacks, and the long poll.

    A channel is its queue, of capacity 128.  The value of an event is left open.
    Handlers registered with [OnEvent] are told apart by their pointer, a number. *)

From Stdlib Require Import Sorting.Sorted.
From stdpp Require Import gmap strings.
From S2P Require Import Prelude GoLib.

Definition eventBufCap : Z := 128.
Definition maxCap : Z := 0.
(** [make(chan Event, 128)] and the size of a batch. *)
Definition clientCap : Z := 128.
Definition batch : Z := 20.

Section events.
Context {value : Type}.

Record Event := mkEvent {
  ev_ID : Z;
  ev_Type : string;
  ev_Topic : string;
  ev_Value : value;
}.

#[global] Instance Event_eta : Eta Event := fun e => mkEvent (ev_ID e) (ev_Type e) (ev_Topic e) (ev_Value e).

(** ** The buffer of a topic *)

Record eventBuffer := mkBuffer { eb_events : list Event; eb_lastID : Z }.

Definition new_buffer : eventBuffer := mkBuffer [] 0.

Definition push (now : Z) (evt : Event) (eb : eventBuffer) : eventBuffer :=
  let id := if now <=? eb_lastID eb then eb_lastID eb + 1 else now in
  let events := eb_events eb ++ [evt <| ev_ID := id |>] in
  let events := if eventBufCap <? len events then dropZ (len events - eventBufCap) events else events in
  mkBuffer events id.

Definition replay (afterID : Z) (eb : eventBuffer) : list Event :=
  filter (fun e => (afterID <? ev_ID e) = true) (eb_events eb).

Abbreviation buffers := (gmap string eventBuffer).

Definition pushToBuf (now : Z) (evt : Event) (b : buffers) : buffers :=
  <[ev_Topic evt := push now evt (default new_buffer (b !! ev_Topic evt))]> b.

(** ** The broadcast *)

Fixpoint hasTopic (topics : list string) (topic : string) : bool :=
  match topics with
  | [] => false
  | t :: topics => if decide (t = topic) then true else hasTopic topics topic
  end.

Record client := mkClient { cl_queue : list Event; cl_topics : list string }.

(** A send to a channel that does not wait: an event is dropped for a slow client. *)
Definition offer (evt : Event) (c : client) : client :=
  if len (cl_queue c) <? clientCap then mkClient (cl_queue c ++ [evt]) (cl_topics c) else c.

Record hub := mkHub {
  hb_clients : gmap nat client;
  hb_buffers : buffers;
  hb_callbacks : gset nat;
}.

#[global] Instance hub_eta : Eta hub := fun h => mkHub (hb_clients h) (hb_buffers h) (hb_callbacks h).

Definition fireClients (evt : Event) (h : hub) : hub := h <| hb_clients := offer evt <$> hb_clients h |>.

(** What is put on [rawChan]: an event, or something else with its type's name. *)
Inductive raw := RawEvent (e : Event) | RawOther (type : string) (v : value).

Definition wrap_raw (now : Z) (r : raw) : Event :=
  match r with
  | RawEvent e => mkEvent now (ev_Type e) (ev_Topic e) (ev_Value e)
  | RawOther type v => mkEvent now type "" v
  end.

(** A turn of [broadcastLoop]; the second result is the callbacks it starts. *)
Definition broadcast (now now' : Z) (r : raw) (h : hub) : hub * gset nat :=
  let evt := wrap_raw now r in
  let h := fireClients evt h in
  (h <| hb_buffers := pushToBuf now' evt (hb_buffers h) |>, hb_callbacks h).

(** [None] is the error. *)
Definition OnEvent (fn : nat) (h : hub) : option hub :=
  if decide (fn ∈ hb_callbacks h) then None else Some (h <| hb_callbacks := {[fn]} ∪ hb_callbacks h |>).

Definition OffEvent (fn : nat) (h : hub) : option hub :=
  if decide (fn ∈ hb_callbacks h) then Some (h <| hb_callbacks := hb_callbacks h ∖ {[fn]} |>) else None.

(** ** The long poll *)

(** The first part of [onEvents]: the client's channel, then the events replayed. *)
Definition add_client (id : nat) (topics : list string) (h : hub) : hub :=
  h <| hb_clients := <[id := mkClient [] topics]> (hb_clients h) |>.

Definition remove_client (id : nat) (h : hub) : hub := h <| hb_clients := delete id (hb_clients h) |>.

Section sort.
Context {Srt : SortSlice}.

Definition replayed (topics : list string) (after : Z) (b : buffers) : list Event :=
  let events := concat ((fun t => match b !! t with Some eb => replay after eb | None => [] end) <$> (topics ++ [""%string])) in
  let events := sort_slice (fun a b => ev_ID a <? ev_ID b) events in
  if maxCap <? len events then takeZ maxCap events else events.
End sort.

(** What a wait on the channel ends with: an event, the time out, or the client
    hung up. *)
Inductive wait := WEvent (e : Event) | WTimeout | WCancelled.

Inductive response := REvents (l : list Event) | RTimeout | RNothing.

(** Phase 2, with the waits to come; [None] when they run out. *)
Fixpoint collect (events : list Event) (waits : list wait) : option response :=
  if len events <? batch then
    match waits with
    | WEvent e :: waits => collect (events ++ [e]) waits
    | WTimeout :: _ => Some (REvents events)
    | WCancelled :: _ => Some RNothing
    | [] => None
    end
  else Some (REvents events).

(** The rest of [onEvents]: what was replayed, else the queue, else what comes. *)
Definition poll (events queue : list Event) (waits : list wait) : option response :=
  match events with
  | _ :: _ => Some (REvents events)
  | [] =>
      let events := takeZ batch queue in
      if batch <=? len events then Some (REvents events)
      else
        match events, waits with
        | _ :: _, _ => collect events waits
        | [], WEvent e :: waits => collect [e] waits
        | [], WTimeout :: _ => Some RTimeout
        | [], WCancelled :: _ => Some RNothing
        | [], [] => None
        end
  end.

(** ** The buffer against the log of all pushes *)

(** The events as they are numbered, one after the other. *)
Fixpoint stamped (last : Z) (ps : list (Z * Event)) : list Event :=
  match ps with
  | [] => []
  | (now, e) :: ps =>
      let id := if now <=? last then last + 1 else now in
      e <| ev_ID := id |> :: stamped id ps
  end.

Definition run_pushes (ps : list (Z * Event)) : eventBuffer := foldl (fun eb p => push p.1 p.2 eb) new_buffer ps.

(** The last [n] entries. *)
Definition last_entries {A} (n : Z) (l : list A) : list A := dropZ (len l - n) l.

Definition last_id (last : Z) (l : list Event) : Z := match list.last l with Some e => ev_ID e | None => last end.

Definition next_id (last now : Z) : Z := if now <=? last then last + 1 else now.

Lemma last_id_snoc last l e : last_id last (l ++ [e]) = ev_ID e.
Proof. unfold last_id. by rewrite last_snoc. Qed.

Lemma last_id_cons last e l : last_id last (e :: l) = last_id (ev_ID e) l.
Proof. unfold last_id. destruct l as [|x l] using rev_ind; [done|]. by rewrite app_comm_cons, !last_snoc. Qed.

Lemma stamped_snoc last ps now e :
  stamped last (ps ++ [(now, e)]) = stamped last ps ++ [e <| ev_ID := next_id (last_id last (stamped last ps)) now |>].
Proof.
  revert last. induction ps as [|[t x] ps IH]; intros last; [done|].
  cbn [app stamped]. by rewrite IH, last_id_cons.
Qed.

Lemma last_entries_snoc {A} n (l : list A) x : 0 < n ->
  let l' := last_entries n l ++ [x] in
  (if n <? len l' then dropZ (len l' - n) l' else l') = last_entries n (l ++ [x]).
Proof.
  intros Hn. cbv zeta. unfold last_entries, dropZ. rewrite !length_app, length_drop. cbn [length].
  destruct (Z.ltb_spec n (Z.of_nat (length l - Z.to_nat (len l - n) + 1))).
  - rewrite !drop_app_le by (rewrite ?length_drop; lia). rewrite drop_drop. do 2 f_equal. lia.
  - rewrite drop_app_le by lia. do 2 f_equal. lia.
Qed.

(** The buffer is the end of the log. *)
Lemma run_pushes_log ps :
  run_pushes ps = mkBuffer (last_entries eventBufCap (stamped 0 ps)) (last_id 0 (stamped 0 ps)).
Proof.
  induction ps as [|[now e] ps IH] using rev_ind; [done|]. unfold run_pushes in *. rewrite foldl_app, IH. cbn [foldl fst snd].
  rewrite stamped_snoc, last_id_snoc. unfold push. cbn [eb_events eb_lastID]. fold (next_id (last_id 0 (stamped 0 ps)) now).
  by rewrite last_entries_snoc by (unfold eventBufCap; lia).
Qed.

Lemma stamped_sorted last ps : Forall (fun e => last < ev_ID e) (stamped last ps) /\
  StronglySorted (fun a b => ev_ID a < ev_ID b) (stamped last ps).
Proof.
  revert last. induction ps as [|[now e] ps IH]; intros last; cbn [stamped]; [by repeat constructor|].
  fold (next_id last now). assert (last < next_id last now) as Hn by (unfold next_id; case_match; lia).
  destruct (IH (next_id last now)) as [Hf Hs]. split.
  - constructor; [done|]. eapply Forall_impl; [exact Hf|]. cbn. lia.
  - by constructor.
Qed.

(** Numbered in order, the entries after the [i]-th are those with a greater number. *)
Lemma filter_after (l : list Event) (i : nat) e : StronglySorted (fun a b => ev_ID a < ev_ID b) l -> l !! i = Some e ->
  forall k, filter (fun x => (ev_ID e <? ev_ID x) = true) (drop k l) = drop (Nat.max (S i) k) l.
Proof.
  assert (forall l (t : Z), Forall (fun x => t < ev_ID x) l -> filter (fun x => (t <? ev_ID x) = true) l = l) as Hall.
  { induction 1 as [|x l' Hx Hl IH]; [done|]. rewrite filter_cons_True by lia. by rewrite IH. }
  intros Hs. revert i. induction Hs as [|x l Hs IH Hx]; intros i; [done|]. intros Hi k.
  destruct i as [|i]; cbn in Hi.
  - injection Hi as ->. destruct k as [|k]; cbn [drop Nat.max].
    + rewrite filter_cons_False by lia. by apply Hall.
    + apply Hall. by apply Forall_drop.
  - destruct k as [|k]; cbn [drop Nat.max]; [|by apply IH]. rewrite Forall_forall in Hx.
    specialize (Hx e (list_elem_of_lookup_2 _ _ _ Hi)). rewrite filter_cons_False by lia.
    specialize (IH i Hi 0%nat). by rewrite drop_0, Nat.max_0_r in IH.
Qed.

(** Resuming from the buffer.  The buffer of a topic holds the last 128 of all
    events ever pushed, in order and with growing numbers however the clock
    behaves; asked for what came after an event of the log, it answers with every
    later event, in order, except those that more than 128 others followed. *)
Theorem buffer_resumes ps i e : stamped 0 ps !! i = Some e ->
  let eb := run_pushes ps in
  let n := len (stamped 0 ps) in
  StronglySorted (fun a b => ev_ID a < ev_ID b) (eb_events eb) /\
  eb_events eb = dropZ (n - eventBufCap) (stamped 0 ps) /\ len (eb_events eb) <= eventBufCap /\
  replay (ev_ID e) eb = dropZ (Z.max (Z.of_nat i + 1) (n - eventBufCap)) (stamped 0 ps) /\
  replay 0 eb = eb_events eb.
Proof.
  intros Hi eb n. destruct (stamped_sorted 0 ps) as [Hpos Hs]. unfold eb. rewrite run_pushes_log. cbn [eb_events].
  unfold last_entries, dropZ. fold n. split; [|split; [done|split; [|split]]].
  - generalize (Z.to_nat (n - eventBufCap)) as k. clear -Hs. induction Hs as [|x l Hs IH Hx]; intros [|k]; cbn; by constructor || done || apply IH.
  - rewrite length_drop. unfold n, eventBufCap. lia.
  - unfold replay. cbn [eb_events]. unfold last_entries, dropZ. fold n. rewrite (filter_after _ i e) by done. f_equal. lia.
  - unfold replay. cbn [eb_events]. unfold last_entries, dropZ. fold n.
    apply Forall_drop with (n := Z.to_nat (n - eventBufCap)) in Hpos. revert Hpos. generalize (drop (Z.to_nat (n - eventBufCap)) (stamped 0 ps)).
    induction 1 as [|x l Hx Hl IH]; [done|]. rewrite filter_cons_True by lia. by rewrite IH.
Qed.
(** ** The clients *)

(** What happens to a client: a broadcast, or it takes an event from its channel. *)
Inductive client_op := OpBroadcast (e : Event) | OpReceive.

(** The queue and what was received. *)
Definition client_step (st : client * list Event) (o : client_op) : client * list Event :=
  let '(c, got) := st in
  match o with
  | OpBroadcast e => (offer e c, got)
  | OpReceive =>
      match cl_queue c with
      | e :: q => (mkClient q (cl_topics c), got ++ [e])
      | [] => (c, got)
      end
  end.

Definition run_client (topics : list string) (ops : list client_op) : client * list Event :=
  foldl client_step (mkClient [] topics, []) ops.

Definition broadcasts (ops : list client_op) : list Event :=
  omap (fun o => match o with OpBroadcast e => Some e | OpReceive => None end) ops.

(** How far a client is behind at each broadcast. *)
Definition keeps_up (topics : list string) (ops : list client_op) : Prop :=
  forall n e, ops !! n = Some (OpBroadcast e) -> len (cl_queue (run_client topics (take n ops)).1) < clientCap.

Lemma run_client_snoc topics ops o : run_client topics (ops ++ [o]) = client_step (run_client topics ops) o.
Proof. unfold run_client. by rewrite foldl_app. Qed.

(** Fan-out.  A client gets a subsequence of what is broadcast while it is
    registered, in order and nothing twice, with at most 128 events waiting; as
    long as fewer than 128 were waiting at every broadcast it misses none. *)
Theorem fan_out topics ops : let '(c, got) := run_client topics ops in
  (got ++ cl_queue c) `sublist_of` broadcasts ops /\ len (cl_queue c) <= clientCap /\
  (keeps_up topics ops -> got ++ cl_queue c = broadcasts ops).
Proof.
  induction ops as [|o ops IH] using rev_ind; [done|]. rewrite run_client_snoc.
  assert (keeps_up topics (ops ++ [o]) -> keeps_up topics ops) as Hprev.
  { intros H n e Hn. specialize (H n e). rewrite take_app_le in H by (apply lookup_lt_Some in Hn; lia).
    apply H. by apply lookup_app_l_Some. }
  assert (keeps_up topics (ops ++ [o]) -> forall e, o = OpBroadcast e -> len (cl_queue (run_client topics ops).1) < clientCap) as Hnow.
  { intros H e ->. specialize (H (length ops) e). rewrite take_app_length in H. apply H. by rewrite lookup_app_r, Nat.sub_diag by lia. }
  destruct (run_client topics ops) as [c got]. destruct IH as (Hsub & Hcap & Heq).
  unfold broadcasts in *. rewrite omap_app. destruct o as [e|]; cbn [client_step omap list_omap].
  - unfold offer. destruct (Z.ltb_spec (len (cl_queue c)) clientCap); cbn [cl_queue].
    + split; [rewrite app_assoc; by apply sublist_app|]. split; [rewrite length_app; cbn; lia|].
      intros Hk. by rewrite app_assoc, Heq by auto.
    + split; [by apply sublist_inserts_r|]. split; [done|]. intros Hk. specialize (Hnow Hk e eq_refl). cbn in Hnow. lia.
  - rewrite app_nil_r. destruct (cl_queue c) as [|e q] eqn:E; cbn [cl_queue].
    + rewrite E. auto.
    + rewrite <-app_assoc. cbn in *. split; [done|]. split; [lia|auto].
Qed.

(** The topics a client asked for play no part. *)
Lemma offer_topics evt q topics topics' : cl_queue (offer evt (mkClient q topics)) = cl_queue (offer evt (mkClient q topics')).
Proof. unfold offer. cbn. by case_match. Qed.

Section polls.
Context {Srt : SortSlice}.

(** Nothing is ever replayed.  Whatever topics and starting point a client asks
    for and whatever the buffers hold, the handler's list of missed events is cut
    to length 0 ([maxCap]). *)
Theorem replay_disabled topics after b : replayed topics after b = [].
Proof.
  unfold replayed. set (l := sort_slice _ _). unfold maxCap. destruct (Z.ltb_spec 0 (len l)); [done|].
  destruct l; [done|cbn in *; lia].
Qed.
End polls.

Definition arrivals (waits : list wait) : list Event := omap (fun w => match w with WEvent e => Some e | _ => None end) waits.

Lemma collect_prefix events waits l : collect events waits = Some (REvents l) -> len events <= batch ->
  events `prefix_of` l /\ l `prefix_of` events ++ arrivals waits /\ len l <= batch.
Proof.
  revert events. induction waits as [|w waits IH]; intros events; cbn [collect].
  - case_match; [done|]. intros [= <-] Hl. rewrite app_nil_r. done.
  - destruct (Z.ltb_spec (len events) batch).
    + destruct w as [e| |]; [|intros [= <-] Hl|done].
      * intros Hc Hl. apply IH in Hc; [|rewrite length_app; cbn; lia]. destruct Hc as (Hp & Hq & Hb).
        split; [by etrans; [apply prefix_app_r|]|]. split; [|done]. by rewrite <-app_assoc in Hq.
      * split; [done|]. split; [by apply prefix_app_r|lia].
    + intros [= <-] Hl. split; [done|]. split; [by apply prefix_app_r|done].
Qed.

(** The long poll answers in order: a list it returns is a beginning, not empty
    and at most 20 long, of what was waiting in the channel followed by what
    arrived; the time out is reported only when there was nothing. *)
Theorem poll_in_order queue waits r : poll [] queue waits = Some r ->
  match r with
  | REvents l => l `prefix_of` queue ++ arrivals waits /\ 1 <= len l <= batch
  | RTimeout => queue = [] /\ exists waits', waits = WTimeout :: waits'
  | RNothing => WCancelled ∈ waits
  end.
Proof.
  unfold poll. cbv zeta.
  assert (takeZ batch queue `prefix_of` queue) as Htake by apply prefix_take.
  assert (len (takeZ batch queue) <= batch) as Hlen by (unfold takeZ; rewrite length_take; unfold batch; lia).
  assert (len (takeZ batch queue) < batch -> takeZ batch queue = queue) as Hall.
  { unfold takeZ, batch. rewrite length_take. intros. apply take_ge. lia. }
  destruct (Z.leb_spec batch (len (takeZ batch queue))) as [Hb|Hb].
  - intros [= <-]. split; [by apply prefix_app_r|unfold batch in *; lia].
  - rewrite Hall in * by done. clear Hall Htake.
    assert (forall events waits, events <> [] -> len events <= batch -> collect events waits = Some r ->
      match r with REvents l => l `prefix_of` events ++ arrivals waits /\ 1 <= len l <= batch | RTimeout => False | RNothing => WCancelled ∈ waits end) as Hc.
    { intros events ws Hne Hle H. destruct r as [l| |].
      - apply collect_prefix in H as (Hp & Hq & ?); [|done]. split; [done|]. apply prefix_length in Hp. destruct events; [done|]. cbn in Hp. lia.
      - revert events Hne Hle H. induction ws as [|w ws IH]; intros events Hne Hle; cbn; case_match; try done.
        destruct w; try done. apply IH; [by destruct events|rewrite length_app; cbn; lia].
      - revert events Hne Hle H. induction ws as [|w ws IH]; intros events Hne Hle; cbn; case_match; try done.
        destruct w; try done; [|set_solver]. intros H'. apply elem_of_cons. right.
        apply (IH (events ++ [e])); [by destruct events|rewrite length_app; cbn; lia|done]. }
    destruct queue as [|e queue].
    + destruct waits as [|[e| |] waits]; [done| |intros [= <-]; eauto|intros [= <-]; set_solver].
      intros H. apply Hc in H; [|done|cbn; unfold batch; lia]. destruct r; [done|done|set_solver].
    + intros H. apply Hc in H; [|done|lia]. by destruct r.
Qed.
End events.

(** ** Examples *)

Definition example_event (n : nat) : @Event nat := mkEvent 0 "pubsub" "t" n.

Lemma buffer_resumes_witness :
  let ps := [(5, example_event 1); (5, example_event 2); (9, example_event 3)] in
  ev_ID <$> stamped 0 ps = [5; 6; 9] /\ ev_Value <$> replay 5 (run_pushes ps) = [2%nat; 3%nat].
Proof.
  split; [reflexivity|].
  set (ps := [(5, example_event 1); (5, example_event 2); (9, example_event 3)]).
  assert (replay 5 (run_pushes ps) = dropZ 1 (stamped 0 ps)) as ->; [|reflexivity].
  exact (proj1 (proj2 (proj2 (proj2 (@buffer_resumes nat ps 0 ((example_event 1) <| ev_ID := 5 |>) eq_refl))))).
Defined.

Lemma poll_in_order_witness :
  exists l, poll [] [example_event 1] [WEvent (example_event 2); WTimeout] = Some (REvents l) /\ 1 <= len l <= batch.
Proof.
  eexists. split; [reflexivity|].
  exact (proj2 (@poll_in_order nat [example_event 1] [WEvent (example_event 2); WTimeout] _ eq_refl)).
Defined.
