(* ===== verification/GossipSub.v ===== *)
(** Topics over GossipSub (src/p2put/pso_pubsub.go): subscribing and unsubscribing,
    the listener of a topic, and forwarding to peers outside the mesh; the listing
    of topics, which both builds have.

    The library go-libp2p-pubsub is the class [PubsubLib]; what is documented of it
    and the code meets is in [PubsubLibLaws]: a topic can be joined only once, and a
    topic is not closed while it has a subscription.  A topic handle stands for the
    [*pubsub.Topic] it is.  Calls are taken one at a time; a message read by the
    listener is one step. *)

From stdpp Require Import gmap strings.
From S2P Require Import Prelude GoLib PeerDB PubSub Events.
Import Base64.

(** ** The library *)

Class PubsubLib := {
  ps_state : Type;
  topic_handle : Type;
  (** [None] is an error. *)
  Join : string -> ps_state -> option (topic_handle * ps_state);
  Subscribe : topic_handle -> ps_state -> option ps_state;
  TopicClose : topic_handle -> ps_state -> option ps_state;
  (** The result and the state. *)
  TopicPublish : topic_handle -> list byte -> ps_state -> bool * ps_state;
  ListPeers : ps_state -> string -> list string;
  GetTopics : ps_state -> list string;
}.

Class PubsubLibLaws (L : PubsubLib) := {
  (** The topic of a handle, the topics joined, and the subscriptions that are open. *)
  topic_of : topic_handle -> string;
  joined : ps_state -> string -> Prop;
  subscribed : ps_state -> topic_handle -> Prop;
  Join_laws t s h s' : Join t s = Some (h, s') -> topic_of h = t /\ ~ joined s t /\ joined s' t /\
    (forall t', joined s t' -> joined s' t') /\ (forall h', subscribed s h' -> subscribed s' h');
  Subscribe_laws h s s' : Subscribe h s = Some s' -> subscribed s' h /\
    (forall t', joined s t' -> joined s' t') /\ (forall h', subscribed s h' -> subscribed s' h');
  TopicClose_laws h s s' : TopicClose h s = Some s' -> ~ subscribed s h /\
    (forall t', t' <> topic_of h -> joined s t' -> joined s' t') /\ (forall h', subscribed s h' -> subscribed s' h');
  TopicPublish_laws h data s : let s' := (TopicPublish h data s).2 in
    (forall t', joined s t' -> joined s' t') /\ (forall h', subscribed s h' -> subscribed s' h');
}.

Section topics.
Context {L : PubsubLib}.

(** ** Subscriptions *)

(** [topicSubs] and the library, which is absent until libp2p is ready. *)
Record pso := mkPso {
  ps_subs : gmap string topic_handle;
  ps_lib : option ps_state;
}.

#[global] Instance pso_eta : Eta pso := fun p => mkPso (ps_subs p) (ps_lib p).

Definition getOrSubscribeTopic (topic : string) (p : pso) : option topic_handle * pso :=
  match ps_lib p with
  | None => (None, p)
  | Some s =>
      match ps_subs p !! topic with
      | Some t => (Some t, p)
      | None =>
          match Join topic s with
          | None => (ps_subs p !! topic, p)
          | Some (t, s) =>
              let p := p <| ps_lib := Some s |> <| ps_subs := <[topic := t]> (ps_subs p) |> in
              match Subscribe t s with
              | None => (None, p <| ps_subs := delete topic (ps_subs p) |>)
              | Some s => (Some t, p <| ps_lib := Some s |>)
              end
          end
      end
  end.

(** Whether it succeeded. *)
Definition UnsubscribeTopic (topic : string) (p : pso) : bool * pso :=
  match ps_lib p with
  | None => (false, p)
  | Some s =>
      match ps_subs p !! topic with
      | None => (false, p)
      | Some t =>
          match TopicClose t s with
          | None => (false, p)
          | Some s => (true, mkPso (delete topic (ps_subs p)) (Some s))
          end
      end
  end.

Definition gossip_PublishTopic (topic : string) (data : list byte) (p : pso) : bool * pso :=
  match getOrSubscribeTopic topic p with
  | (None, p) => (false, p)
  | (Some t, p) =>
      if maxPublishSize <? len data then (false, p)
      else
        match ps_lib p with
        | None => (false, p)
        | Some s =>
            let '(ok, s) := TopicPublish t data s in
            (ok && negb (len (ListPeers s topic) =? 0), p <| ps_lib := Some s |>)
        end
  end.

(** ** Listing topics *)

Record TopicEntry := mkTopicEntry { te_Topic : string; te_Peers : list string; te_Subscribed : bool; te_IsTag : bool }.

#[global] Instance TopicEntry_eta : Eta TopicEntry := fun e => mkTopicEntry (te_Topic e) (te_Peers e) (te_Subscribed e) (te_IsTag e).

Definition new_entry (t : string) : TopicEntry := mkTopicEntry t [] false false.

Definition subscribed_entry (seen : gmap string TopicEntry) (e : string * list string) : gmap string TopicEntry :=
  let entry := default (new_entry e.1) (seen !! e.1) in
  <[e.1 := entry <| te_Subscribed := true |> <| te_Peers := te_Peers entry ++ e.2 |>]> seen.

Definition tag_entry (seen : gmap string TopicEntry) (t : string) : gmap string TopicEntry :=
  let entry := default (new_entry t) (seen !! t) in
  <[t := entry <| te_IsTag := true |>]> seen.

(** [subs] is [getSubscribedTopicPeers], [tags] the keys of [discoveryTags]. *)
Definition CollectTopics {Ord : MapOrder} (sort : list TopicEntry -> list TopicEntry) (psoTopics : list string)
    (subs : gmap string (list string)) (tags : list string) : list TopicEntry :=
  let seen := foldl (fun m t => <[t := new_entry t]> m) ∅ psoTopics in
  let seen := foldl subscribed_entry seen (map_range subs) in
  let seen := foldl tag_entry seen tags in
  sort ((map_range seen).*2).

(** ** What unsubscribing comes to *)

Context {LL : PubsubLibLaws L}.

Inductive pso_call := CallSubscribe (topic : string) | CallUnsubscribe (topic : string) | CallPublish (topic : string) (data : list byte).

Definition do_call (p : pso) (c : pso_call) : pso :=
  match c with
  | CallSubscribe t => (getOrSubscribeTopic t p).2
  | CallUnsubscribe t => (UnsubscribeTopic t p).2
  | CallPublish t data => (gossip_PublishTopic t data p).2
  end.

(** Every handle kept is one of its topic with a subscription. *)
Definition subs_open (p : pso) : Prop :=
  forall t h, ps_subs p !! t = Some h -> topic_of h = t /\ exists s, ps_lib p = Some s /\ subscribed s h.

Lemma getOrSubscribe_open t p : subs_open p -> subs_open (getOrSubscribeTopic t p).2.
Proof.
  intros Hp. unfold getOrSubscribeTopic. destruct (ps_lib p) as [s|] eqn:El; [|done].
  destruct (ps_subs p !! t) as [h|] eqn:Et; [done|]. destruct (Join t s) as [[h s1]|] eqn:Ej; [|done].
  apply Join_laws in Ej as (Ht & _ & _ & _ & Hsub). destruct (Subscribe h s1) as [s2|] eqn:Es; unfold subs_open; cbn.
  - apply Subscribe_laws in Es as (Hh & _ & Hsub2). intros t' h' [[<- <-]|[Hne Hl]]%lookup_insert_Some.
    + split; [done|]. eexists. by split.
    + destruct (Hp t' h' Hl) as (? & s' & Hs' & Hh'). rewrite El in Hs'. injection Hs' as <-. split; [done|]. eexists. split; [done|]. auto.
  - intros t' h'. rewrite delete_insert_id by done. intros Hl. destruct (Hp t' h' Hl) as (? & s' & Hs' & Hh').
    rewrite El in Hs'. injection Hs' as <-. split; [done|]. eexists. split; [done|]. auto.
Qed.

Lemma Unsubscribe_fails t p : subs_open p -> UnsubscribeTopic t p = (false, p).
Proof.
  intros Hp. unfold UnsubscribeTopic. destruct (ps_lib p) as [s|] eqn:El; [|done].
  destruct (ps_subs p !! t) as [h|] eqn:Et; [|done]. destruct (TopicClose h s) as [s'|] eqn:Ec; [|done].
  apply TopicClose_laws in Ec as [Hn _]. destruct (Hp t h Et) as (_ & s1 & Hs1 & Hh). rewrite El in Hs1. by injection Hs1 as <-.
Qed.

Lemma Publish_open t data p : subs_open p -> subs_open (gossip_PublishTopic t data p).2.
Proof.
  intros Hp. unfold gossip_PublishTopic. pose proof (getOrSubscribe_open t p Hp) as H. destruct (getOrSubscribeTopic t p) as [[h|] p1]; cbn in H |- *; [|done].
  destruct (maxPublishSize <? len data); [done|]. destruct (ps_lib p1) as [s|] eqn:El; [|done].
  pose proof (TopicPublish_laws h data s) as [_ Hsub]. destruct (TopicPublish h data s) as [ok s']. cbn in Hsub. unfold subs_open; cbn.
  intros t' h' Hl. destruct (H t' h' Hl) as (? & s1 & Hs1 & Hh'). rewrite El in Hs1. injection Hs1 as <-. split; [done|]. eexists. split; [done|]. auto.
Qed.

(** Nobody can unsubscribe.  The subscription of a topic is held by its listener and
    never cancelled, and a topic with a subscription is not closed: after any calls
    [UnsubscribeTopic] fails and changes nothing. *)
Theorem unsubscribe_always_fails s calls t : let p := foldl do_call (mkPso ∅ s) calls in UnsubscribeTopic t p = (false, p).
Proof.
  cbv zeta. apply Unsubscribe_fails.
  assert (subs_open (mkPso ∅ s)) as Hp by (intros t' h'; cbn; by rewrite lookup_empty).
  revert Hp. generalize (mkPso ∅ s). induction calls as [|c calls IH]; intros p Hp; [done|]. cbn. apply IH. destruct c; cbn.
  - by apply getOrSubscribe_open.
  - by rewrite Unsubscribe_fails.
  - by apply Publish_open.
Qed.

(** A topic whose subscription failed once stays joined with nobody to close it, so
    it cannot be subscribed to again. *)
Definition stuck (t : string) (p : pso) : Prop :=
  subs_open p /\ ps_subs p !! t = None /\ exists s, ps_lib p = Some s /\ joined s t.

Lemma stuck_subscribe t t' p : stuck t p -> stuck t (getOrSubscribeTopic t' p).2 /\ (t' = t -> (getOrSubscribeTopic t' p).1 = None).
Proof.
  intros (Hp & Hn & s & Hs & Hj). pose proof (getOrSubscribe_open t' p Hp) as Ho. revert Ho.
  unfold getOrSubscribeTopic, stuck. rewrite Hs. destruct (ps_subs p !! t') as [h|] eqn:Et; cbn.
  { intros _. split; [eauto|]. intros ->. congruence. }
  destruct (Join t' s) as [[h s1]|] eqn:Ej; cbn; [|split; [eauto|done]].
  apply Join_laws in Ej as (_ & Hnj & _ & Hjs & _). assert (t' <> t) as Hne by (by intros ->).
  destruct (Subscribe h s1) as [s2|] eqn:Es; cbn; intros Ho; (split; [|done]); (split; [done|]).
  - apply Subscribe_laws in Es as (_ & Hjs2 & _). rewrite lookup_insert_ne by done. split; [done|]. eexists. split; [done|]. auto.
  - rewrite delete_insert_id by done. split; [done|]. eexists. split; [done|]. auto.
Qed.

Lemma stuck_publish t t' data p : stuck t p -> stuck t (gossip_PublishTopic t' data p).2.
Proof.
  intros H. pose proof (Publish_open t' data p (proj1 H)) as Ho. revert Ho. unfold gossip_PublishTopic.
  destruct (stuck_subscribe t t' p H) as [Hst _]. destruct (getOrSubscribeTopic t' p) as [[h|] p1]; cbn in Hst |- *; [|done].
  destruct (maxPublishSize <? len data); [done|]. destruct Hst as (_ & Hn & s & Hs & Hj). rewrite Hs.
  pose proof (TopicPublish_laws h data s) as [Hjs _]. destruct (TopicPublish h data s) as [ok s']. cbn in Hjs |- *.
  intros Ho. split; [done|]. split; [done|]. eexists. split; [done|]. auto.
Qed.

Theorem failed_subscribe_is_final p t p' calls : subs_open p -> is_Some (ps_lib p) ->
  ps_subs p !! t = None -> (forall s, ps_lib p = Some s -> is_Some (Join t s)) ->
  getOrSubscribeTopic t p = (None, p') -> (getOrSubscribeTopic t (foldl do_call p' calls)).1 = None.
Proof.
  intros Hp [s Hs] Hn Hjoin H. assert (stuck t p') as Hst.
  { pose proof (getOrSubscribe_open t p Hp) as Ho. rewrite H in Ho. cbn in Ho. split; [done|]. revert H. unfold getOrSubscribeTopic.
    rewrite Hs, Hn. destruct (Hjoin s Hs) as [[h s1] Ej]. rewrite Ej. apply Join_laws in Ej as (_ & _ & Hj & _ & _).
    destruct (Subscribe h s1); [done|]. intros [= <-]. cbn. rewrite delete_insert_id by done. split; [done|]. by eexists. }
  clear H Hp Hs Hn Hjoin. revert p' Hst. induction calls as [|c calls IH]; intros q Hst; [by apply (stuck_subscribe t t q Hst)|].
  cbn. apply IH. destruct c as [t'|t'|t' data]; cbn; [by apply (stuck_subscribe t t' q Hst)| |by apply stuck_publish].
  rewrite Unsubscribe_fails; [done|]. apply Hst.
Qed.
End topics.

(** ** Messages *)

(** A [pubsub.Message]: the fields of its inner message, who handed it on, its ID. *)
Record gossip_msg := mkGossip {
  gm_From : list byte;
  gm_Data : list byte;
  gm_Seqno : list byte;
  gm_Topic : option string;
  gm_ReceivedFrom : string;
  gm_ID : list byte;
}.

#[global] Instance gossip_msg_eta : Eta gossip_msg := fun m =>
  mkGossip (gm_From m) (gm_Data m) (gm_Seqno m) (gm_Topic m) (gm_ReceivedFrom m) (gm_ID m).

(** encoding/json, and [pubsub.DefaultMsgIdFn]: the sender and the number. *)
Class GossipJson := {
  gossip_marshal : gossip_msg -> list byte;
  gossip_unmarshal : list byte -> option gossip_msg;
  DefaultMsgIdFn : gossip_msg -> list byte;
}.

Class GossipJsonLaws (J : GossipJson) := {
  gossip_unmarshal_marshal m : gossip_unmarshal (gossip_marshal m) = Some m;
  DefaultMsgIdFn_eq m : DefaultMsgIdFn m = gm_From m ++ gm_Seqno m;
}.

Definition gossip_event (m : gossip_msg) (topic : string) (short : string -> string) : pubsubEvent :=
  mkPubsub (gm_From m) (gm_Data m) (EncodeToString (gm_Seqno m)) topic (short (gm_ReceivedFrom m)).

(** What a peer is known to speak ([GetProtocols], [SupportsProtocols]; [None] is an
    error), and what comes of a stream to it. *)
Record forward_env := mkForward {
  fe_protos : option (list string);
  fe_supported : option (list string);
  fe_send : send_result;
}.

Definition unsupported (e : forward_env) : bool :=
  match fe_supported e with
  | Some [] => match fe_protos e with Some [] => false | _ => true end
  | _ => false
  end.

Section gossip.
Context {J : GossipJson} {Ord : MapOrder} (short : string -> string).

(** [None] is an error; else the frame written. *)
Definition ForwardPubSubToPeer (ready : bool) (now : Z) (db : PeerDB) (e : forward_env) (pid : string) (msg : gossip_msg)
    : option (list byte) :=
  if negb ready then None
  else
    match Get now pid db with
    | None => None
    | Some _ =>
        if unsupported e then None
        else
          let out := gossip_marshal (msg <| gm_ID := [] |>) in
          match fe_send e with SendOk => Some out | _ => None end
    end.

(** [topicPeers] is [ListPeers], [None] without GossipSub; [clock] is read at each
    peer.  The frames written and the table of messages seen. *)
Definition ForwardToLimitedPeers (ready : bool) (now : Z) (clock : string -> Z) (since : list byte -> Z) (db : PeerDB)
    (env : string -> forward_env) (self : string) (topicPeers : option (list string)) (topic : string) (data : list byte) (d : dedup)
    : list (string * list byte) * dedup :=
  if negb ready then ([], d)
  else
    let msg := mkGossip (String.list_byte_of_string self) data (be_put 8 (wrap64 now)) (Some topic) self [] in
    let msg := msg <| gm_ID := DefaultMsgIdFn msg |> in
    let '(_, d) := isMsgSeen now since (gm_ID msg) d in
    let topicSet := default [] topicPeers in
    (omap (fun r =>
      if bool_decide (pr_PeerID r ∈ topicSet) then None
      else (fun f => (pr_PeerID r, f)) <$> ForwardPubSubToPeer ready (clock (pr_PeerID r)) db (env (pr_PeerID r)) (pr_PeerID r) msg)
      (List now db), d).

(** A turn of [topicListener]: the clients and buffers, the callbacks started, the
    frames written, the table. *)
Definition topicListener_turn (now : Z) (clock : string -> Z) (since : list byte -> Z) (ready : bool) (db : PeerDB)
    (env : string -> forward_env) (self : string) (topicPeers : option (list string)) (topic : string) (msg : gossip_msg)
    (h : @hub pubsubEvent) (d : dedup) : outcome (@hub pubsubEvent * gset nat * list (string * list byte) * dedup) :=
  let '(seen, d) := isMsgSeen now since (gm_ID msg) d in
  if seen then Ok (h, ∅, [], d)
  else
    match gm_Topic msg with
    | None => Panic
    | Some t =>
        let '(frames, d) :=
          if bool_decide (gm_ReceivedFrom msg = self)
          then ForwardToLimitedPeers ready now clock since db env self topicPeers t (gm_Data msg) d
          else ([], d) in
        let evt := mkEvent now "pubsub" topic (gossip_event msg t short) in
        let h := h <| hb_clients := (fun c => if hasTopic (cl_topics c) topic then offer evt c else c) <$> hb_clients h |> in
        Ok (h <| hb_buffers := pushToBuf now evt (hb_buffers h) |>, hb_callbacks h, frames, d)
    end.

(** [handlePubSubFwdStream] of this build. *)
Definition gossip_handleFwdStream (now : Z) (since : list byte -> Z) (pid : string) (raw : option (list byte)) (d : dedup)
    : outcome (list pubsubEvent * dedup) :=
  match raw with
  | None => Ok ([], d)
  | Some raw =>
      match gossip_unmarshal raw with
      | None => Ok ([], d)
      | Some msg =>
          let msg := msg <| gm_ID := DefaultMsgIdFn msg |> <| gm_ReceivedFrom := pid |> in
          let '(seen, d) := isMsgSeen now since (gm_ID msg) d in
          if seen then Ok ([], d)
          else if len (gm_Seqno msg) <? 8 then Panic
          else match gm_Topic msg with None => Panic | Some t => Ok ([gossip_event msg t short], d) end
      end
  end.

(** ** What becomes of a message *)

Context {JL : GossipJsonLaws J} {OL : MapOrderLaws Ord}.

Lemma List_In now db pid : pid ∈ pr_PeerID <$> List now db <-> exists k r, Get now k db = Some r /\ pr_PeerID r = pid.
Proof.
  rewrite list_elem_of_fmap. split.
  - intros (r & -> & Hr). rewrite List_view, list_elem_of_fmap in Hr. destruct Hr as ([k r'] & -> & Hin%elem_of_map_to_list).
    rewrite lookup_view in Hin. by exists k, r'.
  - intros (k & r & Hr & <-). exists r. split; [done|]. rewrite List_view, list_elem_of_fmap. exists (k, r). split; [done|].
    by rewrite elem_of_map_to_list, lookup_view.
Qed.

(** A frame goes to the peers the database shows, that GossipSub does not count to the
    topic, that are not known to lack the protocol, and to which the stream works. *)
Lemma forward_frames now clock since db env self peers topic data d :
  let '(frames, d') := ForwardToLimitedPeers true now clock since db env self peers topic data d in
  let msg := mkGossip (String.list_byte_of_string self) data (be_put 8 (wrap64 now)) (Some topic) self [] in
  d' = (isMsgSeen now since (DefaultMsgIdFn msg) d).2 /\
  forall p f, (p, f) ∈ frames <-> f = gossip_marshal msg /\ p ∈ (pr_PeerID <$> List now db) /\ (p ∉ default [] peers) /\
    is_Some (Get (clock p) p db) /\ unsupported (env p) = false /\ fe_send (env p) = SendOk.
Proof.
  unfold ForwardToLimitedPeers. cbn [negb]. set (msg := mkGossip _ _ _ _ _ _).
  change (gm_ID (msg <| gm_ID := DefaultMsgIdFn msg |>)) with (DefaultMsgIdFn msg).
  destruct (isMsgSeen now since (DefaultMsgIdFn msg) d) as [b d']. split; [done|]. intros p f. rewrite list_elem_of_omap, list_elem_of_fmap. split.
  - intros (r & Hr & H). case_bool_decide as Hin; [done|]. unfold ForwardPubSubToPeer in H. cbn [negb] in H.
    destruct (Get _ _ db) as [r'|] eqn:Eg; [|done]. destruct (unsupported _) eqn:Eu; [done|]. destruct (fe_send _) eqn:Es; [|done..].
    cbn in H. injection H as <- <-. split; [done|]. split; [eauto|]. split; [done|]. split; [by eexists|]. done.
  - intros (-> & (r & -> & Hr) & Hn & [r' Hg] & Hu & Hs). exists r. split; [done|]. rewrite bool_decide_eq_false_2 by done.
    unfold ForwardPubSubToPeer. cbn [negb]. by rewrite Hg, Hu, Hs.
Qed.

Lemma isMsgSeen_fresh now since id d : dd_seen d !! id = None -> (isMsgSeen now since id d).1 = false.
Proof. intros H. unfold isMsgSeen. rewrite H. by case_match. Qed.

(** A message is raised to the clients that asked for its topic, once, and forwarded
    only by the node that published it; a second copy does nothing. *)
Theorem listener_outcome now clock since db env self peers topic t msg h d :
  gm_Topic msg = Some t -> dd_seen d !! gm_ID msg = None ->
  exists h' frames d', topicListener_turn now clock since true db env self peers topic msg h d = Ok (h', hb_callbacks h, frames, d') /\
  (forall id c, hb_clients h !! id = Some c -> hasTopic (cl_topics c) topic = false -> hb_clients h' !! id = Some c) /\
  (forall id c, hb_clients h !! id = Some c -> hasTopic (cl_topics c) topic = true -> len (cl_queue c) < clientCap ->
     hb_clients h' !! id = Some (mkClient (cl_queue c ++ [mkEvent now "pubsub" topic (gossip_event msg t short)]) (cl_topics c))) /\
  (gm_ReceivedFrom msg <> self -> frames = []) /\
  (gm_ReceivedFrom msg = self -> forall p f, (p, f) ∈ frames -> (p ∉ default [] peers) /\
     exists m, gossip_unmarshal f = Some m /\ gm_Data m = gm_Data msg /\ gm_Topic m = Some t /\ gm_From m = String.list_byte_of_string self) /\
  forall clock2 since2 h2 d2 now2 x, dd_seen d2 !! gm_ID msg = Some x ->
     topicListener_turn now2 clock2 since2 true db env self peers topic msg h2 d2 = Ok (h2, ∅, [], d2).
Proof.
  intros Ht Hd. unfold topicListener_turn. pose proof (isMsgSeen_fresh now since (gm_ID msg) d Hd) as Hf.
  destruct (isMsgSeen now since (gm_ID msg) d) as [seen d1]. cbn in Hf. subst seen. rewrite Ht.
  destruct (if bool_decide _ then _ else _) as [frames d2] eqn:Efr. eexists _, frames, d2. split; [done|]. cbn.
  split; [|split; [|split; [|split]]].
  - intros id c Hc Hh. rewrite lookup_fmap, Hc. cbn. by rewrite Hh.
  - intros id c Hc Hh Hl. rewrite lookup_fmap, Hc. cbn. rewrite Hh. unfold offer. by replace (_ <? _) with true by lia.
  - intros Hne. rewrite bool_decide_eq_false_2 in Efr by done. by injection Efr.
  - intros Heq p f Hin. rewrite bool_decide_eq_true_2 in Efr by done.
    pose proof (forward_frames now clock since db env self peers t (gm_Data msg) d1) as H. rewrite Efr in H.
    destruct H as [_ H]. apply H in Hin as (-> & _ & Hn & _). split; [done|]. eexists. split; [apply gossip_unmarshal_marshal|]. done.
  - intros clock2 since2 h2 d3 now2 x Hx. unfold isMsgSeen. by rewrite Hx.
Qed.

(** The forwarded copy is a new message: it carries a number of its own, so a peer
    that has the message from the mesh already, through a third peer, does not
    take the copy for a duplicate and raises it a second time. *)
Theorem forwarded_copy_raised_again now clock since db env self peers topic msg h d h' cbs frames d' p f :
  gm_Topic msg = Some topic -> gm_ReceivedFrom msg = self -> gm_From msg = String.list_byte_of_string self ->
  gm_Seqno msg <> be_put 8 (wrap64 now) ->
  topicListener_turn now clock since true db env self peers topic msg h d = Ok (h', cbs, frames, d') -> (p, f) ∈ frames ->
  forall now2 since2 now3 since3 pid d2, DefaultMsgIdFn msg = gm_ID msg ->
    (forall m, gossip_unmarshal f = Some m -> dd_seen d2 !! DefaultMsgIdFn m = None) ->
    let d3 := (isMsgSeen now2 since2 (gm_ID msg) d2).2 in
    exists e d4, gossip_handleFwdStream now3 since3 pid (Some f) d3 = Ok ([e], d4) /\
      pe_From e = gm_From msg /\ pe_Data e = gm_Data msg /\ pe_Topic e = topic.
Proof.
  intros Ht Hr Hfrom Hseq Hturn Hin now2 since2 now3 since3 pid d2 Hid Hfresh. cbv zeta.
  unfold topicListener_turn in Hturn. destruct (isMsgSeen now since (gm_ID msg) d) as [seen d1]. destruct seen; [injection Hturn as _ _ <- _; by apply not_elem_of_nil in Hin|].
  rewrite Ht, bool_decide_eq_true_2 in Hturn by done.
  pose proof (forward_frames now clock since db env self peers topic (gm_Data msg) d1) as H.
  destruct (ForwardToLimitedPeers _ _ _ _ _ _ _ _ _ _ d1) as [frames1 d5]. destruct H as [_ H]. injection Hturn as _ _ <- _.
  apply H in Hin as (-> & _). clear H. set (m := mkGossip _ _ _ _ _ _) in *. unfold gossip_handleFwdStream. rewrite gossip_unmarshal_marshal.
  specialize (Hfresh m (gossip_unmarshal_marshal m)). 
  assert (DefaultMsgIdFn m <> gm_ID msg) as Hne.
  { rewrite <-Hid, !DefaultMsgIdFn_eq, Hfrom. cbn [m gm_From gm_Seqno]. intros E%app_inv_head. by rewrite E in Hseq. }
  assert (dd_seen (isMsgSeen now2 since2 (gm_ID msg) d2).2 !! DefaultMsgIdFn m = None) as Hd3.
  { unfold isMsgSeen. destruct (dd_seen d2 !! gm_ID msg); cbn; [done|]. case_match; cbn -[dedupTTL].
    - apply map_lookup_filter_None. left. by rewrite lookup_insert_ne.
    - by rewrite lookup_insert_ne. }
  pose proof (isMsgSeen_fresh now3 since3 _ _ Hd3) as Hf.
  change (gm_ID (m <| gm_ID := DefaultMsgIdFn m |> <| gm_ReceivedFrom := pid |>)) with (DefaultMsgIdFn m).
  destruct (isMsgSeen now3 since3 (DefaultMsgIdFn m) _) as [b d6]. cbn in Hf. subst b.
  cbn [gm_Seqno gm_Topic set_field m]. replace (len (be_put 8 (wrap64 now)) <? 8) with false by (rewrite length_be_put; done).
  eexists _, _. split; [done|]. cbn. by rewrite Hfrom.
Qed.

(** What crashes the handler: a message not seen whose number is short, or that has
    no topic. *)
Theorem gossip_handler_panics now since pid raw d : gossip_handleFwdStream now since pid raw d = Panic <->
  exists r msg, raw = Some r /\ gossip_unmarshal r = Some msg /\ dd_seen d !! DefaultMsgIdFn msg = None /\
    (len (gm_Seqno msg) < 8 \/ gm_Topic msg = None).
Proof.
  unfold gossip_handleFwdStream. destruct raw as [r|]; [|split; [done|naive_solver]].
  destruct (gossip_unmarshal r) as [msg|] eqn:Em; [|split; [done|naive_solver]].
  change (gm_ID (msg <| gm_ID := DefaultMsgIdFn msg |> <| gm_ReceivedFrom := pid |>)) with (DefaultMsgIdFn msg).
  unfold isMsgSeen. destruct (dd_seen d !! DefaultMsgIdFn msg) eqn:Ed; [split; [done|naive_solver]|].
  set (q := dedupMaxSize <=? _). change (gm_Seqno (msg <| gm_ID := DefaultMsgIdFn msg |> <| gm_ReceivedFrom := pid |>)) with (gm_Seqno msg).
  change (gm_Topic (msg <| gm_ID := DefaultMsgIdFn msg |> <| gm_ReceivedFrom := pid |>)) with (gm_Topic msg).
  split.
  - intros H. exists r, msg. split; [done|]. split; [done|]. split; [done|]. destruct q; destruct (Z.ltb_spec (len (gm_Seqno msg)) 8); auto; by destruct (gm_Topic msg); auto.
  - intros (r' & msg' & [= <-] & Em' & _ & Hl). rewrite Em in Em'. injection Em' as <-.
    destruct q; destruct (Z.ltb_spec (len (gm_Seqno msg)) 8); try done; destruct Hl as [?|Hl]; try lia; by rewrite Hl.
Qed.
End gossip.

(** ** Examples *)

(** A library that does what the laws say: a handle is its topic; what is joined and
    what is subscribed to.  The topic "bad" can be joined but not subscribed to. *)
Definition toy_pubsub : PubsubLib := {|
  ps_state := gset string * gset string;
  topic_handle := string;
  Join t s := if decide (t ∈ s.1) then None else Some (t, ({[t]} ∪ s.1, s.2));
  Subscribe h s := if decide (h = "bad"%string) then None else Some (s.1, {[h]} ∪ s.2);
  TopicClose h s := if decide (h ∈ s.2) then None else Some (s.1 ∖ {[h]}, s.2);
  TopicPublish h data s := (true, s);
  ListPeers s t := ["p"]%string;
  GetTopics s := elements s.1;
|}.

#[refine] Instance toy_pubsub_laws : PubsubLibLaws toy_pubsub := {|
  topic_of (h : @topic_handle toy_pubsub) := h;
  joined (s : @ps_state toy_pubsub) t := t ∈ s.1;
  subscribed (s : @ps_state toy_pubsub) h := h ∈ s.2;
|}.
Proof.
  - intros t s h s'. cbn. case_decide; [done|]. intros [= <- <-]. cbn. set_solver.
  - intros h s s'. cbn. case_decide; [done|]. intros [= <-]. cbn. set_solver.
  - intros h s s'. cbn. case_decide; [done|]. intros [= <-]. cbn. set_solver.
  - done.
Defined.

Definition pso_start : @pso toy_pubsub := @mkPso toy_pubsub ∅ (Some (∅, ∅)).

Example not_unsubscribed : (@UnsubscribeTopic toy_pubsub "a" (@do_call toy_pubsub pso_start (CallSubscribe "a"))).1 = false.
Proof. by vm_compute. Qed.

Lemma failed_subscribe_is_final_witness :
  (@getOrSubscribeTopic toy_pubsub "bad" (@getOrSubscribeTopic toy_pubsub "bad" pso_start).2).1 = None.
Proof.
  apply (@failed_subscribe_is_final toy_pubsub toy_pubsub_laws pso_start "bad" _ []); try done.
  intros s [= <-]. by eexists.
Defined.

Definition toy_gossip : GossipJson := {|
  gossip_marshal m := any_marshal (gm_From m, gm_Data m, gm_Seqno m, gm_Topic m, gm_ReceivedFrom m, gm_ID m);
  gossip_unmarshal b := '(a, b, c, d, e, f) ← any_unmarshal b; Some (mkGossip a b c d e f);
  DefaultMsgIdFn m := gm_From m ++ gm_Seqno m;
|}.

Lemma toy_gossip_laws : GossipJsonLaws toy_gossip.
Proof. split; [|done]. intros []. cbn. by rewrite any_unmarshal_marshal. Qed.

(** The node "s" publishes; "q" is in its database and not in the topic's list. *)
Definition published : gossip_msg := mkGossip [Byte.x73] [Byte.x01] (be_put 8 7) (Some "t"%string) "s" [].

Definition known_q : PeerDB := Update "q" [] 100 (NewPeerDB minute).

Definition reachable_peer : forward_env := mkForward (Some []) (Some []) SendOk.

Example published_forwarded :
  match @topicListener_turn toy_gossip listed_order (fun p => p) 200 (fun _ => 200) (fun _ => 200) true known_q (fun _ => reachable_peer) "s"
    (Some []) "t" published (mkHub ∅ ∅ ∅) new_dedup with
  | Ok (_, _, [(q, f)], _) => q = "q"%string /\
      match @gossip_handleFwdStream toy_gossip (fun p => p) 300 (fun _ => 300) "s" (Some f) new_dedup with
      | Ok ([e], _) => pe_Data e = [Byte.x01] /\ pe_Seqno e = EncodeToString (be_put 8 200)
      | _ => False
      end
  | _ => False
  end.
Proof. by vm_compute. Qed.
