(* ===== verification/TurnPeer.v ===== *)
(** The test peer of a TURN server (src/p2put/turnpeer.go) and what TURN code holds
    open: connections, clients, allocations.

    A resource is a number; the [world] knows which are open.  Each call to the
    TURN library or the network is an argument that says how far it got.  The peer's
    methods run in its own goroutine, one at a time. *)

From stdpp Require Import gmap strings.
From S2P Require Import Prelude GoLib.

(** ** Resources *)

Record world := mkWorld { w_next : nat; w_open : gset nat }.

Definition open_res (w : world) : nat * world := (w_next w, mkWorld (S (w_next w)) ({[w_next w]} ∪ w_open w)).
Definition close_res (i : nat) (w : world) : world := mkWorld (w_next w) (w_open w ∖ {[i]}).

Definition close_opt (o : option nat) (w : world) : world := match o with Some i => close_res i w | None => w end.

(** What is open besides [base] is [l], each once. *)
Record owns (base : gset nat) (w : world) (l : list nat) : Prop := {
  ow_open : w_open w = base ∪ list_to_set l;
  ow_nodup : NoDup l;
  ow_fresh : forall i, i ∈ l -> i ∉ base;
  ow_next : forall i, i ∈ base \/ i ∈ l -> (i < w_next w)%nat;
}.

#[global] Instance owns_perm base w : Proper (Permutation ==> iff) (owns base w).
Proof.
  assert (forall l l', l ≡ₚ l' -> owns base w l -> owns base w l') as H.
  { intros l l' Hp [Ho Hn Hf Hx]. split; [|by rewrite <-Hp| |].
    - rewrite Ho. apply set_eq. intros i. by rewrite !elem_of_union, !elem_of_list_to_set, Hp.
    - intros i. rewrite <-Hp. auto.
    - intros i. rewrite <-Hp. auto. }
  intros l l' Hp. split; [by apply H|]. by apply H.
Qed.

Lemma owns_open base w l : owns base w l -> let '(i, w') := open_res w in owns base w' (i :: l).
Proof.
  intros [Ho Hn Hf Hx]. unfold open_res. split; cbn [w_open w_next].
  - rewrite Ho. set_solver.
  - constructor; [|done]. intros Hi. specialize (Hx _ (or_intror Hi)). lia.
  - intros i [->|Hi]%elem_of_cons; [|auto]. intros Hb. specialize (Hx _ (or_introl Hb)). lia.
  - intros i [Hb|[->|Hi]%elem_of_cons]; [|lia|]; [specialize (Hx i (or_introl Hb))|specialize (Hx i (or_intror Hi))]; lia.
Qed.

Lemma owns_close base w i l : owns base w (i :: l) -> owns base (close_res i w) l.
Proof.
  intros [Ho [Hi Hn]%NoDup_cons Hf Hx]. split; cbn.
  - rewrite Ho. specialize (Hf i). apply set_eq. intros j. destruct (decide (j = i)) as [->|]; set_solver.
  - done.
  - intros j Hj. apply Hf. set_solver.
  - intros j Hj. apply Hx. set_solver.
Qed.

Definition opt_list (o : option nat) : list nat := match o with Some i => [i] | None => [] end.

Lemma owns_close_opt base w o l : owns base w (opt_list o ++ l) -> owns base (close_opt o w) l.
Proof. destruct o; [apply owns_close|done]. Qed.

(** ** The peer *)

Record TurnPeer := mkPeer {
  tp_mappedAddr : option string;
  tp_turnConn : option nat;
  tp_turnClient : option nat;
  tp_turnAlloc : option nat;
  tp_relayConn : option nat;
  tp_failCount : Z;
  tp_lastPing : Z;
  tp_lastPong : Z;
  tp_txBytes : Z;
  tp_rxBytes : Z;
}.

#[global] Instance TurnPeer_eta : Eta TurnPeer := fun p => mkPeer (tp_mappedAddr p) (tp_turnConn p)
  (tp_turnClient p) (tp_turnAlloc p) (tp_relayConn p) (tp_failCount p) (tp_lastPing p) (tp_lastPong p) (tp_txBytes p) (tp_rxBytes p).

Definition NewTurnPeer : TurnPeer := mkPeer None None None None None 0 0 0 0 0.

Definition owned (p : TurnPeer) : list nat :=
  opt_list (tp_turnAlloc p) ++ opt_list (tp_turnClient p) ++ opt_list (tp_turnConn p) ++ opt_list (tp_relayConn p).

(** How far [ExchangeMapped] gets. *)
Inductive exchange_result :=
  XDialFail | XClientFail | XListenFail | XBindingFail | XNotUDP | XAllocFail | XOk (mapped : string).

Definition ExchangeMapped (r : exchange_result) (st : TurnPeer * world) : TurnPeer * world * option string :=
  let '(p, w) := st in
  match r with
  | XDialFail => (p, w, None)
  | XClientFail =>
      let '(conn, w) := open_res w in
      (p, close_res conn w, None)
  | XListenFail | XBindingFail | XNotUDP | XAllocFail =>
      let '(conn, w) := open_res w in
      let '(c, w) := open_res w in
      (p, close_res conn (close_res c w), None)
  | XOk mapped =>
      let '(conn, w) := open_res w in
      let '(c, w) := open_res w in
      let '(alloc, w) := open_res w in
      let p := p <| tp_turnConn := Some conn |> <| tp_turnClient := Some c |> <| tp_turnAlloc := Some alloc |> in
      (p <| tp_mappedAddr := Some mapped |>, w, Some mapped)
  end.

Definition closeRelay (st : TurnPeer * world) : TurnPeer * world :=
  let '(p, w) := st in (p <| tp_relayConn := None |>, close_opt (tp_relayConn p) w).

Definition closeTurn (st : TurnPeer * world) : TurnPeer * world :=
  let '(p, w) := st in
  let w := close_opt (tp_turnAlloc p) w in
  let w := close_opt (tp_turnClient p) w in
  let w := close_opt (tp_turnConn p) w in
  (p <| tp_turnAlloc := None |> <| tp_turnClient := None |> <| tp_turnConn := None |>, w).

(** The binding request succeeds, or the control connection is set up again. *)
Definition peer_stun (bound : bool) (r : exchange_result) (st : TurnPeer * world) : TurnPeer * world :=
  match tp_turnClient st.1 with
  | None => st
  | Some _ => if bound then st else (ExchangeMapped r (closeTurn st)).1
  end.

Definition dialRelay (ok : bool) (st : TurnPeer * world) : (TurnPeer * world) * bool :=
  let '(p, w) := st in
  match tp_relayConn p with
  | Some _ => (st, true)
  | None =>
      if ok then let '(conn, w) := open_res w in ((p <| tp_relayConn := Some conn |>, w), true)
      else (st, false)
  end.

(** How far a ping gets on a connection: the deadline, the write, the read, the
    answer; with the bytes counted and the time of the pong. *)
Inductive ping_result :=
| PDeadlineFail | PWriteFail
| PReadFail (written : Z)
| PUnexpected (written read : Z)
| PPong (written read now : Z).

Definition relayPing (dial : bool) (now : Z) (r : ping_result) (st : TurnPeer * world) : TurnPeer * world :=
  let '(st, connected) := match tp_relayConn st.1 with Some _ => (st, true) | None => dialRelay dial st end in
  if negb connected then (st.1 <| tp_failCount := tp_failCount st.1 + 1 |>, st.2)
  else
    let p := st.1 <| tp_lastPing := now |> in
    match r with
    | PDeadlineFail | PWriteFail => closeRelay (p, st.2)
    | PReadFail n => closeRelay (p <| tp_txBytes := tp_txBytes p + n |>, st.2)
    | PUnexpected n m => closeRelay (p <| tp_txBytes := tp_txBytes p + n |> <| tp_rxBytes := tp_rxBytes p + m |>, st.2)
    | PPong n m pong =>
        let p := p <| tp_txBytes := tp_txBytes p + n |> <| tp_rxBytes := tp_rxBytes p + m |> in
        (p <| tp_failCount := 0 |> <| tp_lastPong := pong |>, st.2)
    end.

(** What [runLoop] runs: a ping first, then the ticks. *)
Inductive peer_event :=
| PeerStun (bound : bool) (r : exchange_result)
| PeerPing (dial : bool) (now : Z) (r : ping_result).

Definition peer_step (st : TurnPeer * world) (e : peer_event) : TurnPeer * world :=
  match e with
  | PeerStun bound r => peer_stun bound r st
  | PeerPing dial now r => relayPing dial now r st
  end.

(** The end of [runLoop], which [Stop] waits for. *)
Definition peer_exit (st : TurnPeer * world) : TurnPeer * world := closeRelay (closeTurn st).

(** [Alive] of [Stats]. *)
Definition peer_alive (p : TurnPeer) : bool := tp_failCount p =? 0.

(** ** Nothing leaks *)

Lemma ExchangeMapped_owns base r p w l : tp_turnConn p = None -> tp_turnClient p = None -> tp_turnAlloc p = None ->
  owns base w (owned p ++ l) -> let '(p', w', _) := ExchangeMapped r (p, w) in owns base w' (owned p' ++ l).
Proof.
  intros H1 H2 H3 H. unfold ExchangeMapped, open_res.
  pose proof (owns_open _ _ _ H) as Ho. unfold open_res in Ho. pose proof (owns_open _ _ _ Ho) as Ho2. unfold open_res in Ho2.
  pose proof (owns_open _ _ _ Ho2) as Ho3. unfold open_res in Ho3.
  destruct r; try (by repeat apply owns_close).
  unfold owned in *. cbn [tp_turnAlloc tp_turnClient tp_turnConn tp_relayConn set_field opt_list app] in *.
  rewrite H1, H2, H3 in Ho3. exact Ho3.
Qed.

Lemma closeRelay_owns base p w l : owns base w (owned p ++ l) ->
  owns base (closeRelay (p, w)).2 (owned (closeRelay (p, w)).1 ++ l).
Proof.
  intros H. cbn. apply (owns_close_opt _ _ (tp_relayConn p)). unfold owned in *. cbn. rewrite app_nil_r.
  eapply owns_perm; [|exact H]. solve_Permutation.
Qed.

Lemma closeTurn_owns base p w l : owns base w (owned p ++ l) ->
  owns base (closeTurn (p, w)).2 (owned (closeTurn (p, w)).1 ++ l).
Proof.
  intros H. cbn. apply (owns_close_opt _ _ (tp_turnConn p)), (owns_close_opt _ _ (tp_turnClient p)), (owns_close_opt _ _ (tp_turnAlloc p)).
  unfold owned in *. cbn. eapply owns_perm; [|exact H]. solve_Permutation.
Qed.

Lemma dialRelay_owns base ok p w l : owns base w (owned p ++ l) ->
  owns base (dialRelay ok (p, w)).1.2 (owned (dialRelay ok (p, w)).1.1 ++ l).
Proof.
  intros H. unfold dialRelay. destruct (tp_relayConn p) as [c|] eqn:E; [done|]. destruct ok; [|done].
  apply owns_open in H. cbn in *. unfold owned in *. cbn. rewrite E in H. cbn in *. rewrite app_nil_r in H.
  eapply owns_perm; [|exact H]. solve_Permutation.
Qed.

Lemma peer_step_owns base st e l : owns base st.2 (owned st.1 ++ l) ->
  owns base (peer_step st e).2 (owned (peer_step st e).1 ++ l).
Proof.
  destruct st as [p w]. cbn [fst snd]. intros H. destruct e as [bound r|dial now r]; cbn [peer_step].
  - unfold peer_stun. cbn [fst]. destruct (tp_turnClient p); [|done]. destruct bound; [done|].
    pose proof (closeTurn_owns base p w l H) as Hc. pose proof (ExchangeMapped_owns base r (closeTurn (p, w)).1 (closeTurn (p, w)).2 l eq_refl eq_refl eq_refl Hc) as He.
    cbn [closeTurn fst snd] in He |- *. destruct (ExchangeMapped _ _) as [[p' w'] o]. exact He.
  - unfold relayPing. cbn [fst].
    assert (let '(st', _) := match tp_relayConn p with Some _ => ((p, w), true) | None => dialRelay dial (p, w) end in
      owns base st'.2 (owned st'.1 ++ l)) as Hd.
    { pose proof (dialRelay_owns base dial p w l H) as Hd. destruct (tp_relayConn p); [done|]. by destruct (dialRelay dial (p, w)). }
    destruct (match tp_relayConn p with Some _ => _ | None => _ end) as [[p1 w1] []]; cbn [negb fst snd] in *; [|done].
    destruct r; cbn [fst snd]; try (apply closeRelay_owns); exact Hd.
Qed.

Lemma peer_steps_owns base events st l : owns base st.2 (owned st.1 ++ l) ->
  owns base (foldl peer_step st events).2 (owned (foldl peer_step st events).1 ++ l).
Proof. revert st. induction events as [|e events IH]; intros st H; [done|]. cbn [foldl]. by apply IH, peer_step_owns. Qed.

Lemma peer_exit_owns base st l : owns base st.2 (owned st.1 ++ l) -> owns base (peer_exit st).2 l.
Proof.
  destruct st as [p w]. intros H%closeTurn_owns. apply closeRelay_owns in H. unfold peer_exit.
  destruct (closeTurn (p, w)) as [p1 w1] eqn:E. cbn in E. injection E as <- <-. exact H.
Qed.

Lemma new_peer_owns base w r l : owns base w l ->
  let '(p, w, _) := ExchangeMapped r (NewTurnPeer, w) in owns base w (owned p ++ l).
Proof. intros H. by apply (ExchangeMapped_owns base r NewTurnPeer w l). Qed.

(** Nothing but what was there. *)
Lemma owns_base w : (forall i, i ∈ w_open w -> (i < w_next w)%nat) -> owns (w_open w) w [].
Proof. intros Hw. split; cbn; [set_solver|constructor|set_solver|]. intros i [?|?]; [auto|set_solver]. Qed.

(** A peer leaks nothing.  Whatever the network answers, between
    [ExchangeMapped] and the end of its loop at most four resources are open
    beyond those there before, and after the end none is. *)
Theorem turn_peer_no_leak w r events : (forall i, i ∈ w_open w -> (i < w_next w)%nat) ->
  let st := foldl peer_step (ExchangeMapped r (NewTurnPeer, w)).1 events in
  (size (w_open st.2) <= size (w_open w) + 4)%nat /\ w_open w ⊆ w_open st.2 /\ w_open (peer_exit st).2 = w_open w.
Proof.
  intros Hw st. assert (owns (w_open w) st.2 (owned st.1 ++ [])) as H.
  { apply peer_steps_owns. pose proof (new_peer_owns _ w r [] (owns_base w Hw)) as H0.
    by destruct (ExchangeMapped r (NewTurnPeer, w)) as [[p0 w0] o]. }
  pose proof (peer_exit_owns _ _ _ H) as [He _ _ _]. destruct H as [Ho Hn _ _]. rewrite app_nil_r in Ho, Hn.
  split; [|split; [rewrite Ho; set_solver|rewrite He; set_solver]]. rewrite Ho.
  rewrite size_union_alt. match goal with |- context [size (?l ∖ ?b)] => assert (l ∖ b ⊆ l) as Hs%subseteq_size by set_solver end.
  rewrite size_list_to_set in Hs by done. unfold owned in *. rewrite !length_app in Hs.
  assert (forall o, length (opt_list o) <= 1)%nat as H1 by (intros []; cbn; lia).
  pose proof (H1 (tp_turnAlloc st.1)). pose proof (H1 (tp_turnClient st.1)).
  pose proof (H1 (tp_turnConn st.1)). pose proof (H1 (tp_relayConn st.1)). lia.
Qed.

(** A peer that gave up looks alive.  Once a reconnection has failed no tick
    tries the control connection again; and pings that never get an answer leave
    the failure count alone as long as the relay can be dialled, so [Stats] says
    the peer is alive though it never saw a pong. *)
Theorem dead_peer_looks_alive st events :
  tp_turnClient st.1 = None -> tp_failCount st.1 = 0 ->
  Forall (fun e => match e with PeerPing dial _ _ => dial = true | PeerStun _ _ => True end) events ->
  let st' := foldl peer_step st events in
  tp_turnClient st'.1 = None /\ peer_alive st'.1 = true /\
  (Forall (fun e => match e with PeerPing _ _ (PPong _ _ _) => False | _ => True end) events ->
     tp_lastPong st'.1 = tp_lastPong st.1).
Proof.
  intros Hc Hf Hall. cbv zeta.
  assert (forall e st, tp_turnClient st.1 = None -> tp_failCount st.1 = 0 ->
    match e with PeerPing dial _ _ => dial = true | PeerStun _ _ => True end ->
    tp_turnClient (peer_step st e).1 = None /\ tp_failCount (peer_step st e).1 = 0 /\
    (match e with PeerPing _ _ (PPong _ _ _) => False | _ => True end -> tp_lastPong (peer_step st e).1 = tp_lastPong st.1)) as Hstep.
  { clear. intros [bound r|dial now r] [p w] Hc Hf; cbn in Hc, Hf; intros He.
    - cbn. unfold peer_stun. cbn. rewrite Hc. auto.
    - subst dial. cbn. unfold relayPing, dialRelay. cbn. destruct (tp_relayConn p); cbn; destruct r; cbn; (split; [done|]); (split; [done|]); by intros. }
  unfold peer_alive. revert st Hc Hf. induction Hall as [|e events He _ IH]; intros st Hc Hf; cbn [foldl].
  - rewrite Hf. auto.
  - destruct (Hstep e st Hc Hf He) as (Hc' & Hf' & Hp). destruct (IH _ Hc' Hf') as (H1 & H2 & H3). split; [done|]. split; [done|].
    intros [He' Hev]%Forall_cons. rewrite H3 by done. by apply Hp.
Qed.

(** ** Examples *)

Lemma turn_peer_no_leak_witness :
  w_open (peer_exit (foldl peer_step (ExchangeMapped (XOk "1.2.3.4:5") (NewTurnPeer, mkWorld 0 ∅)).1
    [PeerPing true 4 (PPong 4 4 5); PeerStun false (XOk "1.2.3.4:6")])).2 = ∅.
Proof. exact (proj2 (proj2 (turn_peer_no_leak (mkWorld 0 ∅) (XOk "1.2.3.4:5") _ ltac:(cbn; set_solver)))). Defined.

Lemma dead_peer_looks_alive_witness :
  let st := (ExchangeMapped XDialFail (NewTurnPeer, mkWorld 0 ∅)).1 in
  peer_alive (foldl peer_step st [PeerPing true 4 (PReadFail 4); PeerStun true XDialFail; PeerPing true 23 PWriteFail]).1 = true.
Proof.
  refine (proj1 (proj2 (dead_peer_looks_alive (NewTurnPeer, mkWorld 0 ∅)
    [PeerPing true 4 (PReadFail 4); PeerStun true XDialFail; PeerPing true 23 PWriteFail] eq_refl eq_refl _))). repeat constructor.
Defined.
