(* ===== verification/TurnServer.v ===== *)
(** A server of the TURN pool (src/p2put/turnpool.go, [turnServer]): connecting,
    shutting down, reallocating the relay, and the loop that keeps it alive.

    The main loop is a machine with a program counter ([pc]); the accept loop and the
    goroutines of the accepted connections run beside it.  A call is one step, but for
    [reallocate], which the accept loop runs while the main loop goes on: its three
    parts between network calls are steps of their own.  Resources are those of
    [TurnPeer]; permissions are in [TurnPool] and change nothing here. *)

From stdpp Require Import gmap strings.
From S2P Require Import Prelude GoLib PrivateIP TunnelAddr TurnPool TurnPeer.

(** Where a [reallocate] is: waiting for its new allocation, or for the new peer. *)
Inductive realloc_stage := RaAllocate | RaExchange (r : exchange_result).

Record turnServer := mkTS {
  ts_state : TurnState;
  ts_client : option nat;
  ts_conn : option nat;
  ts_alloc : option nat;
  ts_relayAddr : option string;
  ts_stunFailCount : Z;
  ts_peer : option TurnPeer;
  (** Channels closed: [stopCh], [acceptStopCh], [reconnectNow]; an accept loop runs. *)
  ts_stopped : bool;
  ts_acceptStopped : bool;
  ts_reconnect : bool;
  ts_acceptor : bool;
  ts_world : world;
  (** Ghost: connections that came up after the dial was given up. *)
  ts_lost : list nat;
  (** A [reallocate] under way; what the goroutines of the accepted connections hold:
      the connection, and the one to the own port; the accepted connections that
      nothing closes. *)
  ts_realloc : option realloc_stage;
  ts_handlers : list (list nat);
  ts_unclosed : list nat;
}.

#[global] Instance turnServer_eta : Eta turnServer := fun t => mkTS (ts_state t) (ts_client t) (ts_conn t) (ts_alloc t)
  (ts_relayAddr t) (ts_stunFailCount t) (ts_peer t) (ts_stopped t) (ts_acceptStopped t) (ts_reconnect t) (ts_acceptor t)
  (ts_world t) (ts_lost t) (ts_realloc t) (ts_handlers t) (ts_unclosed t).

Definition newTurnServer (w : world) : turnServer :=
  mkTS TurnDisconnected None None None None 0 None false false false false w [] None [] [].

(** [ts.peer.Stop()] waits until the peer has closed what it holds. *)
Definition stop_peer (ts : turnServer) : turnServer :=
  match ts_peer ts with
  | Some p => ts <| ts_world := (peer_exit (p, ts_world ts)).2 |>
  | None => ts
  end.

(** A new peer that exchanges its address and starts. *)
Definition start_peer (r : exchange_result) (ts : turnServer) : turnServer :=
  let '(p, w, _) := ExchangeMapped r (NewTurnPeer, ts_world ts) in
  ts <| ts_peer := Some p |> <| ts_world := w |>.

(** ** Connecting *)

(** How far [connect] gets: it is stopped while dialling, and the dial succeeds later
    or not; a call fails; everything works up to the peer. *)
Inductive connect_result :=
| CStopped (late : bool) | CDialFail | CClientFail | CListenFail | CAllocFail
| CBindingFail (relay : string) | COk (relay : string) (r : exchange_result).

(** The new channels leave an accept loop of before with its own; the one of a
    connection that fails finds no allocation and ends.  The flag is [err == nil]. *)
Definition connect (r : connect_result) (ts : turnServer) : turnServer * bool :=
  let ts := ts <| ts_acceptStopped := false |> <| ts_reconnect := false |> <| ts_acceptor := false |> in
  let ts := ts <| ts_state := TurnConnecting |> in
  let down (ts : turnServer) := ts <| ts_state := TurnDisconnected |> in
  match r with
  | CStopped false => (ts, true)
  | CStopped true =>
      let '(conn, w) := open_res (ts_world ts) in
      (ts <| ts_world := w |> <| ts_lost := conn :: ts_lost ts |>, true)
  | CDialFail => (down ts, false)
  | CClientFail =>
      let '(conn, w) := open_res (ts_world ts) in
      ((down ts) <| ts_world := close_res conn w |>, false)
  | CListenFail | CAllocFail =>
      let '(conn, w) := open_res (ts_world ts) in
      let '(c, w) := open_res w in
      ((down ts) <| ts_world := close_res conn (close_res c w) |>, false)
  | CBindingFail relay =>
      let '(conn, w) := open_res (ts_world ts) in
      let '(c, w) := open_res w in
      let '(alloc, w) := open_res w in
      let ts := ts <| ts_stunFailCount := 0 |> in
      let ts := (down ts) <| ts_client := None |> <| ts_conn := None |> <| ts_alloc := None |> <| ts_relayAddr := None |> in
      (ts <| ts_world := close_res alloc (close_res conn (close_res c w)) |>, false)
  | COk relay r =>
      let '(conn, w) := open_res (ts_world ts) in
      let '(c, w) := open_res w in
      let '(alloc, w) := open_res w in
      let ts := ts <| ts_client := Some c |> <| ts_conn := Some conn |> <| ts_alloc := Some alloc |> in
      let ts := ts <| ts_relayAddr := Some relay |> <| ts_acceptor := true |> <| ts_stunFailCount := 0 |> in
      let ts := ts <| ts_state := TurnAlive |> <| ts_world := w |> in
      (start_peer r ts, true)
  end.

Definition shutdown (ts : turnServer) : turnServer :=
  let ts := ts <| ts_state := TurnDisconnected |> in
  let ts := (stop_peer ts) <| ts_peer := None |> in
  let ts := ts <| ts_acceptStopped := true |> in
  let w := close_opt (ts_alloc ts) (ts_world ts) in
  let w := close_opt (ts_client ts) w in
  let w := close_opt (ts_conn ts) w in
  let ts := ts <| ts_world := w |> <| ts_client := None |> <| ts_conn := None |> in
  ts <| ts_alloc := None |> <| ts_relayAddr := None |>.

(** A binding request on the control connection; no client is a nil pointer. *)
Definition stunCtrlKeepMappedPort (bound : bool) (ts : turnServer) : outcome turnServer :=
  match ts_client ts with
  | None => Panic
  | Some _ =>
      if bound then Ok (ts <| ts_stunFailCount := 0 |>)
      else
        let ts := ts <| ts_stunFailCount := ts_stunFailCount ts + 1 |> in
        Ok (if 2 <=? ts_stunFailCount ts then ts <| ts_state := TurnDisconnected |> else ts)
  end.

(** ** Reallocating *)

Inductive realloc_result := RAllocFail | RBindingFail (relay : string) | ROk (relay : string) (r : exchange_result).

(** Up to [AllocateTCP]; no client is an error. *)
Definition realloc_begin (ts : turnServer) : option turnServer :=
  match ts_client ts with
  | None => None
  | Some _ => Some (ts <| ts_world := close_opt (ts_alloc ts) (ts_world ts) |> <| ts_state := TurnAllocating |>)
  end.

(** A new allocation and its accept loop. *)
Definition realloc_new (relay : string) (ts : turnServer) : turnServer :=
  let '(alloc, w) := open_res (ts_world ts) in
  let ts := ts <| ts_world := w |> <| ts_acceptStopped := false |> <| ts_alloc := Some alloc |> in
  ts <| ts_relayAddr := Some relay |> <| ts_acceptor := true |> <| ts_stunFailCount := 0 |>.

(** From its result up to the peer's exchange; [None] when it ends in an error. *)
Definition realloc_bind (r : realloc_result) (ts : turnServer) : outcome (turnServer * option exchange_result) :=
  match r with
  | RAllocFail =>
      let ts := ts <| ts_state := TurnDisconnected |> <| ts_alloc := None |> <| ts_relayAddr := None |> in
      if ts_acceptStopped ts then Ok (ts, None)
      else if ts_reconnect ts then Panic
      else Ok (ts <| ts_reconnect := true |>, None)
  | RBindingFail relay => Ok ((realloc_new relay ts) <| ts_state := TurnDisconnected |>, None)
  | ROk relay xr =>
      let ts := realloc_new relay ts in
      match ts_conn ts with
      | None => Panic
      | Some _ => Ok ((stop_peer ts) <| ts_peer := Some NewTurnPeer |>, Some xr)
      end
  end.

(** The rest: the peer starts, the connection's address is permitted. *)
Definition realloc_end (r : exchange_result) (ts : turnServer) : outcome turnServer :=
  match ts_peer ts, ts_conn ts with
  | Some _, Some _ => Ok ((start_peer r ts) <| ts_state := TurnAlive |>)
  | _, _ => Panic
  end.

(** The accept loop meets an error that ends it. *)
Definition accept_fatal (ts : turnServer) : outcome turnServer :=
  if ts_reconnect ts then Panic
  else Ok (ts <| ts_state := TurnDisconnected |> <| ts_reconnect := true |> <| ts_acceptor := false |>).

(** It meets a reset, and reallocates: [reallocate] in its three steps. *)
Definition accept_reset (ts : turnServer) : turnServer :=
  let ts := ts <| ts_acceptor := false |> in
  match realloc_begin ts with
  | None => ts
  | Some ts => ts <| ts_realloc := Some RaAllocate |>
  end.

Definition realloc_next (r : realloc_result) (ts : turnServer) : outcome turnServer :=
  match ts_realloc ts with
  | None => Ok ts
  | Some RaAllocate =>
      match realloc_bind r ts with
      | Panic => Panic
      | Ok (ts, xr) => Ok (ts <| ts_realloc := RaExchange <$> xr |>)
      end
  | Some (RaExchange xr) =>
      match realloc_end xr ts with
      | Panic => Panic
      | Ok ts => Ok (ts <| ts_realloc := None |>)
      end
  end.

(** A connection is accepted: a goroutine runs [handleAccept2] on it. *)
Definition accept_conn (ts : turnServer) : turnServer :=
  let '(c, w) := open_res (ts_world ts) in
  ts <| ts_world := w |> <| ts_handlers := [c] :: ts_handlers ts |>.

(** [handleAccept2]: the dial to the own port, which leaves the accepted connection open
    when it fails; the end of [Pipe], which closes both. *)
Definition handle_next (dialed : bool) (i : nat) (ts : turnServer) : turnServer :=
  match ts_handlers ts !! i with
  | Some [c] =>
      if dialed then
        let '(conn, w) := open_res (ts_world ts) in
        ts <| ts_world := w |> <| ts_handlers := <[i := [c; conn]]> (ts_handlers ts) |>
      else ts <| ts_handlers := delete i (ts_handlers ts) |> <| ts_unclosed := c :: ts_unclosed ts |>
  | Some [c; conn] =>
      ts <| ts_world := close_res c (close_res conn (ts_world ts)) |> <| ts_handlers := delete i (ts_handlers ts) |>
  | _ => ts
  end.

(** ** The machine *)

(** Where the main loop is: before the first [connect], at the top of the loop, in
    [connectWithBackoff] before and after a try, in the [select], returned. *)
Inductive pc := PInit | PTop | PBackoff | PTried | PSelect | PExited.

(** A turn of the main loop. *)
Inductive loop_step : pc * turnServer -> pc * turnServer -> Prop :=
| ls_init r ts : (match r with CStopped _ => ts_stopped ts = true | _ => True end) ->
    loop_step (PInit, ts) (PTop, (connect r ts).1)
| ls_alive ts : ts_state ts = TurnAlive -> loop_step (PTop, ts) (PSelect, ts)
| ls_down ts : ts_state ts <> TurnAlive ->
    loop_step (PTop, ts) (if ts_stopped ts then PExited else PBackoff, shutdown ts)
| ls_try r ts : (match r with CStopped _ => ts_stopped ts = true | _ => True end) ->
    loop_step (PBackoff, ts) (PTried, (connect r ts).1)
| ls_up ts : ts_state ts = TurnAlive -> loop_step (PTried, ts) (PTop, ts)
| ls_give_up ts : ts_state ts <> TurnAlive -> ts_stopped ts = true -> loop_step (PTried, ts) (PTop, ts)
| ls_again ts : ts_state ts <> TurnAlive -> ts_stopped ts = false -> loop_step (PTried, ts) (PBackoff, ts)
| ls_stop ts : ts_stopped ts = true -> loop_step (PSelect, ts) (PExited, shutdown ts)
| ls_reconnect ts : ts_reconnect ts = true -> loop_step (PSelect, ts) (PTop, shutdown ts)
| ls_ping bound ts ts' : stunCtrlKeepMappedPort bound ts = Ok ts' -> loop_step (PSelect, ts) (PTop, ts').

(** What happens beside it: the pool stops the server, the peer's loop runs (once it
    was started), connections are accepted and handled. *)
Inductive side_step : turnServer -> turnServer -> Prop :=
| ss_stop ts : side_step ts (ts <| ts_stopped := true |>)
| ss_peer ts p e : ts_peer ts = Some p -> (forall r, ts_realloc ts <> Some (RaExchange r)) ->
    side_step ts (let st := peer_step (p, ts_world ts) e in ts <| ts_peer := Some st.1 |> <| ts_world := st.2 |>)
| ss_accept ts : ts_acceptor ts = true -> side_step ts (accept_conn ts)
| ss_handle dialed i ts : side_step ts (handle_next dialed i ts).

(** The accept loop fails. *)
Inductive accept_step : turnServer -> turnServer -> Prop :=
| as_fatal ts ts' : ts_acceptor ts = true -> ts_acceptStopped ts = false -> accept_fatal ts = Ok ts' -> accept_step ts ts'
| as_reset ts : ts_acceptor ts = true -> ts_acceptStopped ts = false -> ts_realloc ts = None -> accept_step ts (accept_reset ts).

(** A reallocation goes on. *)
Inductive realloc_step : turnServer -> turnServer -> Prop :=
| rs_next r ts ts' : ts_realloc ts <> None -> realloc_next r ts = Ok ts' -> realloc_step ts ts'.

(** All runs (with one reallocation at a time), and the calm ones: accepting fails only
    while the main loop waits and no reallocation is under way, and the main loop goes
    on only when none is. *)
Inductive server_step : pc * turnServer -> pc * turnServer -> Prop :=
| sv_loop s s' : loop_step s s' -> server_step s s'
| sv_side c ts ts' : side_step ts ts' -> server_step (c, ts) (c, ts')
| sv_accept c ts ts' : accept_step ts ts' -> server_step (c, ts) (c, ts')
| sv_realloc c ts ts' : realloc_step ts ts' -> server_step (c, ts) (c, ts').

Inductive calm_step : pc * turnServer -> pc * turnServer -> Prop :=
| cs_loop s s' : ts_realloc s.2 = None -> loop_step s s' -> calm_step s s'
| cs_side c ts ts' : side_step ts ts' -> calm_step (c, ts) (c, ts')
| cs_accept ts ts' : ts_realloc ts = None -> accept_step ts ts' -> calm_step (PSelect, ts) (PSelect, ts')
| cs_realloc c ts ts' : realloc_step ts ts' -> calm_step (c, ts) (c, ts').

(** ** Nothing leaks in calm runs *)

(** The allocation: while a reallocation waits for a new one, the old one is closed. *)
Definition held_alloc (ts : turnServer) : list nat :=
  match ts_realloc ts with Some RaAllocate => [] | _ => opt_list (ts_alloc ts) end.

Definition owned_ts (ts : turnServer) : list nat :=
  held_alloc ts ++ opt_list (ts_client ts) ++ opt_list (ts_conn ts) ++
  match ts_peer ts with Some p => owned p | None => [] end.

Definition bare (ts : turnServer) : Prop :=
  ts_alloc ts = None /\ ts_client ts = None /\ ts_conn ts = None /\ ts_peer ts = None.

Definition connected (ts : turnServer) : Prop := ts_client ts <> None /\ ts_conn ts <> None.

(** What is open beside the server's own: lost dials and accepted connections. *)
Definition beside (ts : turnServer) : list nat := ts_lost ts ++ concat (ts_handlers ts) ++ ts_unclosed ts.

Section leak.
Context (base : gset nat).

Definition holds (ts : turnServer) : Prop := owns base (ts_world ts) (owned_ts ts ++ beside ts).

Lemma stop_peer_holds ts : holds ts -> holds ((stop_peer ts) <| ts_peer := None |>).
Proof.
  unfold holds, stop_peer, owned_ts. intros H. destruct (ts_peer ts) as [p|]; [|done].
  cbn -[peer_exit owned]. apply (peer_exit_owns base (p, ts_world ts)). cbn [fst snd].
  eapply owns_perm; [|exact H]. solve_Permutation.
Qed.

Lemma start_peer_holds r ts : match ts_peer ts with Some p => owned p | None => [] end = [] ->
  holds ts -> holds (start_peer r ts).
Proof.
  unfold holds, start_peer, owned_ts. intros E H. rewrite E in H.
  pose proof (new_peer_owns base (ts_world ts) r _ H) as Hn. destruct (ExchangeMapped r _) as [[p w] o]. cbn.
  eapply owns_perm; [|exact Hn]. solve_Permutation.
Qed.

Lemma held_alloc_idle ts : ts_realloc ts = None -> held_alloc ts = opt_list (ts_alloc ts).
Proof. unfold held_alloc. by intros ->. Qed.

Lemma shutdown_holds ts : ts_realloc ts = None -> holds ts -> holds (shutdown ts) /\ ts_realloc (shutdown ts) = None /\
  bare (shutdown ts) /\ ts_lost (shutdown ts) = ts_lost ts /\
  ts_stopped (shutdown ts) = ts_stopped ts /\ ts_state (shutdown ts) = TurnDisconnected /\ ts_acceptStopped (shutdown ts) = true.
Proof.
  intros Hra H. assert (holds (ts <| ts_state := TurnDisconnected |>)) as H1 by exact H.
  apply stop_peer_holds in H1. unfold shutdown. set (t1 := (stop_peer _) <| ts_peer := None |>) in *.
  assert (ts_peer t1 = None) as Hp by done.
  assert (ts_lost t1 = ts_lost ts /\ ts_stopped t1 = ts_stopped ts /\ ts_state t1 = TurnDisconnected /\ ts_realloc t1 = None)
    as (Hl & Hs & Hst & Hra1) by (unfold t1, stop_peer; cbn; by destruct (ts_peer ts)).
  split; [|by repeat split]. unfold holds, owned_ts in *. rewrite Hp, app_nil_r, held_alloc_idle in H1 by done.
  rewrite held_alloc_idle by done. cbn -[t1 beside]. rewrite Hp. cbn [app].
  apply (owns_close_opt _ _ (ts_conn t1)), (owns_close_opt _ _ (ts_client t1)), (owns_close_opt _ _ (ts_alloc t1)).
  eapply owns_perm; [|exact H1]. solve_Permutation.
Qed.

Lemma connect_holds r ts : ts_realloc ts = None -> bare ts -> holds ts -> let ts' := (connect r ts).1 in
  ts_realloc ts' = None /\ holds ts' /\ (ts_state ts' = TurnAlive -> connected ts' /\ ts_lost ts' = ts_lost ts) /\ (ts_state ts' <> TurnAlive -> bare ts') /\
  ts_stopped ts' = ts_stopped ts /\ ts_reconnect ts' = false /\
  (ts_lost ts' = ts_lost ts \/ (exists i, ts_lost ts' = i :: ts_lost ts) /\ r = CStopped true).
Proof.
  intros Hra (Ha & Hc & Hco & Hp) H. cbv zeta.
  assert (ts_realloc (connect r ts).1 = None) as Hra' by (destruct r as [[]| | | | | |]; try done; by cbn; unfold start_peer; destruct (ExchangeMapped _ _) as [[? ?] ?]).
  split; [done|].
  pose proof (owns_open _ _ _ H) as H1. unfold open_res in H1. pose proof (owns_open _ _ _ H1) as H2. unfold open_res in H2.
  pose proof (owns_open _ _ _ H2) as H3. unfold open_res in H3. unfold holds, owned_ts in H, H1, H2, H3. rewrite (held_alloc_idle _ Hra), Ha, Hc, Hco, Hp in *. cbn [opt_list app] in *.
  destruct r as [[]| | | | |relay|relay r].
  1: split; [|split; [done|split; [done|split; [done|split; [done|right; by eauto]]]]].
  7: split; [|split; [done|split; [done|split; [done|split; [done|by left]]]]].
  2-6: split; [|split; [done|split; [done|split; [done|split; [done|by left]]]]].
  1-7: unfold holds, owned_ts; rewrite (held_alloc_idle _ Hra'); cbn -[close_res union singleton beside]; rewrite ?Ha, ?Hc, ?Hco, ?Hp; cbn -[close_res union singleton beside].
  - exact H1.
  - exact H.
  - exact H.
  - by apply owns_close.
  - by apply owns_close, owns_close.
  - by apply owns_close, owns_close.
  - apply owns_close, owns_close, owns_close. eapply owns_perm; [|exact H3]. solve_Permutation.
  - cbn [connect open_res fst snd]. set (t := set_field _ _). assert (ts_peer t = None) as Ht by exact Hp.
    assert (holds t) as Hh.
    { unfold holds, owned_ts. rewrite Ht, held_alloc_idle by done. cbn -[union singleton beside]. eapply owns_perm; [|exact H3]. solve_Permutation. }
    split; [apply start_peer_holds; [by rewrite Ht|done]|]. unfold start_peer. destruct (ExchangeMapped r _) as [[p w] o].
    split; [done|]. split; [intros Hx; by destruct Hx|]. split; [done|]. split; [done|by left].
Qed.

(** What every part of a reallocation keeps. *)
Definition same_frame (ts ts' : turnServer) : Prop :=
  ts_lost ts' = ts_lost ts /\ ts_stopped ts' = ts_stopped ts /\ ts_client ts' = ts_client ts /\ ts_conn ts' = ts_conn ts.

Lemma same_frame_connected ts ts' : same_frame ts ts' -> connected ts -> connected ts'.
Proof. unfold connected. by intros (_ & _ & -> & ->). Qed.

(** With the control connection up a reallocation begins, and the old allocation is
    closed. *)
Lemma accept_reset_holds ts : connected ts -> holds ts -> ts_realloc ts = None ->
  holds (accept_reset ts) /\ same_frame ts (accept_reset ts) /\ ts_realloc (accept_reset ts) = Some RaAllocate /\
  ts_acceptor (accept_reset ts) = false /\ ts_reconnect (accept_reset ts) = ts_reconnect ts /\
  ts_state (accept_reset ts) = TurnAllocating.
Proof.
  intros [Hc Hco] H Hra. unfold accept_reset, realloc_begin. cbn. destruct (ts_client ts) as [c|] eqn:Ec; [|done].
  split; [|by repeat split]. unfold holds, owned_ts in *. rewrite (held_alloc_idle _ Hra) in H. cbn -[close_opt beside].
  rewrite <-app_assoc in H. apply owns_close_opt in H. rewrite Ec in *. exact H.
Qed.

(** A new allocation is held. *)
Lemma realloc_new_holds relay ts stage : holds ts -> ts_realloc ts = Some RaAllocate -> stage <> Some RaAllocate ->
  holds ((realloc_new relay ts) <| ts_realloc := stage |>).
Proof.
  intros H Hra Hs. apply owns_open in H. unfold open_res in H. unfold holds, owned_ts, held_alloc in *. rewrite Hra in H.
  cbn -[union singleton beside]. eapply owns_perm; [|exact H]. destruct stage as [[]|]; try done; cbn; solve_Permutation.
Qed.

(** What each stage of a reallocation relies on in calm runs. *)
Definition stage_ok (ts : turnServer) : Prop :=
  match ts_realloc ts with
  | None => ts_acceptor ts = true -> ts_acceptStopped ts = false -> ts_reconnect ts = false
  | Some RaAllocate => ts_acceptor ts = false /\ ts_reconnect ts = false
  | Some (RaExchange _) => ts_peer ts = Some NewTurnPeer /\ ts_reconnect ts = false
  end.

Lemma start_peer_eq r ts : exists p w, ExchangeMapped r (NewTurnPeer, ts_world ts) = (p, w, (ExchangeMapped r (NewTurnPeer, ts_world ts)).2) /\
  start_peer r ts = ts <| ts_peer := Some p |> <| ts_world := w |>.
Proof. unfold start_peer. destruct (ExchangeMapped r _) as [[p w] o]. by exists p, w. Qed.

(** The old peer makes way for a new one. *)
Lemma replace_peer_holds ts xr : holds (ts <| ts_realloc := Some (RaExchange xr) |>) ->
  holds ((stop_peer ts) <| ts_peer := Some NewTurnPeer |> <| ts_realloc := Some (RaExchange xr) |>).
Proof.
  intros H. apply stop_peer_holds in H. unfold stop_peer in *.
  change (ts_peer (ts <| ts_realloc := Some (RaExchange xr) |>)) with (ts_peer ts) in H. by destruct (ts_peer ts).
Qed.

(** The next step of a reallocation does not panic and loses nothing. *)
Lemma realloc_allocate_holds r ts : connected ts -> holds ts -> stage_ok ts -> ts_realloc ts = Some RaAllocate ->
  exists ts', realloc_next r ts = Ok ts' /\ holds ts' /\ same_frame ts ts' /\ stage_ok ts'.
Proof.
  intros [Hc Hco] H Hst Era. unfold realloc_next. unfold stage_ok in Hst. rewrite Era in *.
  destruct (ts_conn ts) as [co|] eqn:Eco; [|done].
  destruct Hst as [Ha Hr]. pose proof (fun relay stage => realloc_new_holds relay ts stage H Era) as Hnew.
  destruct r as [|relay|relay xr]; cbn [realloc_bind].
  - assert (holds (ts <| ts_state := TurnDisconnected |> <| ts_alloc := None |> <| ts_relayAddr := None |> <| ts_realloc := None |>)) as H2.
    { unfold holds, owned_ts, held_alloc in *. rewrite Era in H. exact H. }
    cbn. rewrite Hr. by destruct (ts_acceptStopped ts); (eexists; split; [done|]); (split; [exact H2|]); (split; [done|]); cbn; rewrite Ha.
  - eexists. split; [done|]. split; [exact (Hnew relay None ltac:(done))|]. split; [done|]. by intros _ _.
  - pose proof (replace_peer_holds (realloc_new relay ts) xr (Hnew relay (Some (RaExchange xr)) ltac:(done))) as H2.
    change (ts_conn (realloc_new relay ts)) with (ts_conn ts). rewrite Eco. eexists. split; [done|]. split; [exact H2|].
    clear H2 Hnew. unfold stop_peer. change (ts_peer (realloc_new relay ts)) with (ts_peer ts). by destruct (ts_peer ts).
Qed.

Lemma realloc_exchange_holds r xr ts : connected ts -> holds ts -> stage_ok ts -> ts_realloc ts = Some (RaExchange xr) ->
  exists ts', realloc_next r ts = Ok ts' /\ holds ts' /\ same_frame ts ts' /\ stage_ok ts'.
Proof.
  intros [Hc Hco] H Hst Era. unfold realloc_next. unfold stage_ok in Hst. rewrite Era in *.
  destruct Hst as [Hp Hr]. unfold realloc_end. rewrite Hp. destruct (ts_conn ts) as [co|] eqn:Eco; [|done].
  eexists. split; [done|].
  assert (holds (ts <| ts_realloc := None |>)) as H1 by (unfold holds, owned_ts, held_alloc in *; by rewrite Era in H).
  apply (start_peer_holds xr) in H1; [|cbn; by rewrite Hp].
  destruct (start_peer_eq xr ts) as (p & w & E & ->). destruct (start_peer_eq xr (ts <| ts_realloc := None |>)) as (p' & w' & E' & E2).
  rewrite E2 in H1. cbn [ts_world set_field] in E'. change (ts_world (ts <| ts_realloc := None |>)) with (ts_world ts) in E'.
  rewrite E in E'. injection E' as <- <-. split; [exact H1|]. split; [done|]. by intros _ _.
Qed.

Lemma realloc_next_holds r ts : connected ts -> holds ts -> stage_ok ts -> ts_realloc ts <> None ->
  exists ts', realloc_next r ts = Ok ts' /\ holds ts' /\ same_frame ts ts' /\ stage_ok ts'.
Proof.
  intros Hc H Hs Hra. destruct (ts_realloc ts) as [[|xr]|] eqn:E; [by apply realloc_allocate_holds|by eapply realloc_exchange_holds|done].
Qed.

(** Accepted connections, handled or left open, are all accounted for. *)
Lemma accept_conn_holds ts : holds ts -> holds (accept_conn ts).
Proof.
  intros H. apply owns_open in H. unfold open_res in H. unfold holds, accept_conn, owned_ts, held_alloc, beside in *.
  cbn -[union singleton]. eapply owns_perm; [|exact H]. solve_Permutation.
Qed.

Lemma concat_delete {A} (ls : list (list A)) i l : ls !! i = Some l -> concat ls ≡ₚ l ++ concat (delete i ls).
Proof. intros H. rewrite (delete_Permutation _ _ _ H) at 1. done. Qed.

Lemma concat_insert {A} (ls : list (list A)) i l x : ls !! i = Some l -> concat (<[i := x]> ls) ≡ₚ x ++ concat (delete i ls).
Proof.
  intros H. assert (i < length ls)%nat as Hi by (by apply lookup_lt_Some in H).
  rewrite insert_take_drop, delete_take_drop by done. rewrite !concat_app. cbn. solve_Permutation.
Qed.

Lemma handle_next_holds dialed i ts : holds ts -> holds (handle_next dialed i ts).
Proof.
  intros H. unfold handle_next. destruct (ts_handlers ts !! i) as [[|c [|conn [|]]]|] eqn:E; try done.
  - destruct dialed.
    + apply owns_open in H. unfold open_res in H. unfold holds, owned_ts, held_alloc, beside in *. cbn -[union singleton].
      rewrite (concat_insert _ _ _ _ E). rewrite (concat_delete _ _ _ E) in H. eapply owns_perm; [|exact H]. solve_Permutation.
    + unfold holds, owned_ts, held_alloc, beside in *. cbn. rewrite (concat_delete _ _ _ E) in H.
      eapply owns_perm; [|exact H]. solve_Permutation.
  - unfold holds, owned_ts, held_alloc, beside in *. cbn -[close_res]. rewrite (concat_delete _ _ _ E) in H.
    apply owns_close, owns_close. eapply owns_perm; [|exact H]. solve_Permutation.
Qed.

(** The invariant of calm runs. *)
Definition machine_ok (s : pc * turnServer) : Prop :=
  let '(c, ts) := s in
  holds ts /\ stage_ok ts /\ (ts_realloc ts <> None -> c = PSelect) /\
  (ts_state ts = TurnAlive -> connected ts) /\
  match c with
  | PInit | PBackoff | PExited => bare ts
  | PTried => ts_state ts <> TurnAlive -> bare ts
  | PTop => True
  | PSelect => connected ts
  end /\
  (ts_lost ts = [] \/ length (ts_lost ts) = 1%nat /\ ts_stopped ts = true /\ ts_state ts <> TurnAlive /\
                      match c with PTop | PTried | PExited => True | _ => False end).

Lemma connect_ok r ts c : machine_ok (c, ts) -> ts_realloc ts = None -> bare ts -> ts_lost ts = [] ->
  (match r with CStopped _ => ts_stopped ts = true | _ => True end) ->
  forall c', c' = PTop \/ c' = PTried -> machine_ok (c', (connect r ts).1).
Proof.
  intros (H & _) Hra Hb Hl Hr c' Hc'. destruct (connect_holds r ts Hra Hb H) as (H0 & H1 & H2 & H3 & H4 & H5 & H6).
  set (t := (connect r ts).1) in *. split; [done|]. split; [unfold stage_ok; by rewrite H0|]. split; [congruence|]. split; [apply H2|].
  split; [by destruct Hc' as [-> | ->]|]. rewrite Hl in *. destruct H6 as [->|[[i Hi] ->]]; [by left|].
  right. rewrite Hi, H4. split; [done|]. split; [done|]. split; [done|]. by destruct Hc' as [-> | ->].
Qed.

Lemma shutdown_ok ts c : machine_ok (c, ts) -> ts_realloc ts = None -> (ts_lost ts <> [] -> ts_stopped ts = true) ->
  forall c', (match c' with PTop | PExited => True | PBackoff => ts_lost ts = [] | _ => False end) -> machine_ok (c', shutdown ts).
Proof.
  intros (H & _ & _ & _ & _ & Hl) Hra Hs c' Hc'. destruct (shutdown_holds ts Hra H) as (H1 & Hra' & Hb & Hl' & Hs' & Hst' & Has).
  split; [done|]. split; [unfold stage_ok; rewrite Hra'; congruence|]. split; [congruence|]. split; [congruence|]. split; [by destruct c'|].
  destruct Hl as [Hl|(Hl & Hst & _)]; [left; congruence|]. rewrite Hl', Hs'. destruct c'; try done.
  - right. rewrite Hst'. done.
  - left. exact Hc'.
  - right. rewrite Hst'. done.
Qed.

Lemma loop_step_ok s s' : machine_ok s -> ts_realloc s.2 = None -> loop_step s s' -> machine_ok s'.
Proof.
  intros Hok Hra Hl. destruct Hl as [r ts Hr|ts Hal|ts Hal|r ts Hr|ts Hal|ts Hal Hst|ts Hal Hst|ts Hst|ts Hre|bound ts ts' E];
    cbn [machine_ok] in Hok; cbn [snd] in Hra; pose proof Hok as (H & HJ & _ & HC & Hpc & Hlost).
  - destruct Hlost as [Hlost|(_ & _ & _ & [])]. apply (connect_ok r ts PInit); auto.
  - split; [done|]. split; [done|]. split; [done|]. split; [done|]. split; [by apply HC|]. destruct Hlost as [?|(_ & _ & ? & _)]; [by left|done].
  - apply (shutdown_ok ts PTop); [done|done|intros Hne; by destruct Hlost as [?|(_ & ? & _)]|].
    destruct (ts_stopped ts) eqn:Es; [done|]. destruct Hlost as [?|(_ & ? & _)]; [done|congruence].
  - destruct Hlost as [Hlost|(_ & _ & _ & [])]. apply (connect_ok r ts PBackoff); auto.
  - split; [done|]. split; [done|]. split; [done|]. split; [done|]. split; [done|]. destruct Hlost as [?|(_ & _ & ? & _)]; [by left|done].
  - split; [done|]. split; [done|]. split; [done|]. split; [done|]. split; [done|]. destruct Hlost as [?|?]; [by left|by right].
  - split; [done|]. split; [done|]. split; [done|]. split; [done|]. split; [by apply Hpc|]. destruct Hlost as [?|(_ & ? & _)]; [by left|congruence].
  - apply (shutdown_ok ts PSelect); [done|done|by intros|done].
  - apply (shutdown_ok ts PSelect); [done|done|intros Hne; by destruct Hlost as [?|(_ & ? & _)]|done].
  - destruct Hlost as [Hlost|(_ & _ & _ & [])]. unfold stunCtrlKeepMappedPort in E. destruct (ts_client ts) eqn:Ec; [|done].
    unfold stage_ok in HJ. rewrite Hra in HJ.
    destruct bound; [|case_match]; injection E as <-;
      (split; [exact H|]); (split; [unfold stage_ok; cbn; by rewrite Hra|]); (split; [done|]); (split; [done|]); (split; [done|]); by left.
Qed.

Lemma side_step_ok c ts ts' : machine_ok (c, ts) -> side_step ts ts' -> machine_ok (c, ts').
Proof.
  intros (H & HJ & Hsel & HC & Hpc & Hlost) Hs. destruct Hs as [ts|ts p e Hp Hne|ts Ha|dialed i ts].
  - split; [exact H|]. split; [exact HJ|]. split; [exact Hsel|]. split; [exact HC|]. split; [exact Hpc|].
    destruct Hlost as [?|(? & _ & ? & ?)]; [by left|by right].
  - split.
    { unfold holds, owned_ts, held_alloc in *. rewrite Hp in H. cbn -[peer_step owned beside]. cbn -[beside] in H.
      eapply owns_perm; [|apply (peer_step_owns base (p, ts_world ts) e)]; [|eapply owns_perm; [|exact H]].
      - instantiate (1 := held_alloc ts ++ opt_list (ts_client ts) ++ opt_list (ts_conn ts) ++ beside ts).
        unfold held_alloc. cbn -[beside]. solve_Permutation.
      - unfold held_alloc. cbn -[beside]. solve_Permutation. }
    split; [unfold stage_ok in *; cbn; destruct (ts_realloc ts) as [[|r]|] eqn:Er; [done|by destruct (Hne r)|done]|].
    split; [exact Hsel|]. split; [exact HC|]. split; [|exact Hlost].
    assert (~ bare ts) as Hnb by (intros (_ & _ & _ & ?); congruence).
    destruct c; try done. intros Hx. by destruct (Hnb (Hpc Hx)).
  - split; [by apply accept_conn_holds|done].
  - split; [by apply handle_next_holds|]. unfold handle_next. destruct (ts_handlers ts !! i) as [[|x [|y [|]]]|]; try done. by destruct dialed.
Qed.

Lemma accept_step_ok ts ts' : machine_ok (PSelect, ts) -> ts_realloc ts = None -> accept_step ts ts' -> machine_ok (PSelect, ts').
Proof.
  intros (H & HJ & Hsel & HC & Hpc & Hlost) Hra Hs. destruct Hlost as [Hlost|(_ & _ & _ & [])].
  unfold stage_ok in HJ. rewrite Hra in HJ. destruct Hs as [ts ts' Ha Hst E|ts Ha Hst _].
  - unfold accept_fatal in E. destruct (ts_reconnect ts); [done|]. injection E as <-.
    split; [exact H|]. split; [unfold stage_ok; cbn; by rewrite Hra|]. split; [done|]. split; [done|]. split; [exact Hpc|by left].
  - destruct (accept_reset_holds ts Hpc H Hra) as (H1 & Hf & H2 & H3 & H4 & H5). split; [done|].
    split; [unfold stage_ok; rewrite H2; split; [done|rewrite H4; auto]|]. split; [done|]. split; [congruence|].
    split; [by eapply same_frame_connected|]. left. by rewrite (proj1 Hf).
Qed.

Lemma calm_step_ok s s' : machine_ok s -> calm_step s s' -> machine_ok s'.
Proof.
  intros Hok Hstep. destruct Hstep as [s s' Hra Hl|c ts ts' Hs|ts ts' Hra Ha|c ts ts' [r t t' Hra E]].
  - by eapply loop_step_ok.
  - by eapply side_step_ok.
  - by eapply accept_step_ok.
  - destruct Hok as (H & HJ & Hsel & HC & Hpc & Hlost). rewrite (Hsel Hra) in *.
    destruct (realloc_next_holds r t Hpc H HJ Hra) as (t'' & Et & H1 & Hf & H2). rewrite E in Et. injection Et as <-.
    pose proof (same_frame_connected _ _ Hf Hpc). destruct Hlost as [Hlost|(_ & _ & _ & [])].
    split; [done|]. split; [done|]. split; [done|]. split; [done|]. split; [done|]. left. by rewrite (proj1 Hf).
Qed.
End leak.

(** A server before its loop, in a world where what is open is numbered. *)
Definition fresh_server (w : world) (s : pc * turnServer) : Prop := s = (PInit, newTurnServer w).

(** C23: What a TURN server opens is accounted for, in calm runs: those in which accepting
    fails only while the main loop waits and no reallocation is under way, and the main
    loop waits until a reallocation is over (the others panic or leak, as shown below).
    Whatever the network answers, whenever the server is stopped and connections are
    accepted: once the loop has returned, what is open besides what was before is at
    most one connection, of a dial that was given up and came through later; the
    accepted connections whose goroutines have not ended, with those to the own port;
    and the accepted ones for which the own port could not be dialled, which nothing
    closes.  Before that, neither a ping nor the end of the accept loop nor any step of
    a reallocation panics. *)
Theorem turn_server_no_leak w c ts : (forall i, i ∈ w_open w -> (i < w_next w)%nat) ->
  reachable (fresh_server w) calm_step (c, ts) ->
  (c = PExited -> w_open (ts_world ts) = w_open w ∪ list_to_set (ts_lost ts ++ concat (ts_handlers ts) ++ ts_unclosed ts) /\
     (length (ts_lost ts) <= 1)%nat /\ NoDup (ts_lost ts ++ concat (ts_handlers ts) ++ ts_unclosed ts)) /\
  (c = PSelect -> (forall bound, stunCtrlKeepMappedPort bound ts <> Panic) /\
     (ts_realloc ts = None -> ts_acceptor ts = true -> ts_acceptStopped ts = false -> accept_fatal ts <> Panic)) /\
  (forall r, realloc_next r ts <> Panic).
Proof.
  intros Hw Hr. assert (machine_ok (w_open w) (c, ts)) as (H & HJ & Hsel & HC & Hpc & Hlost).
  { revert Hr. apply reachable_invariant; [|intros s s'; apply calm_step_ok]. intros s ->.
    split; [by apply owns_base|]. split; [done|]. split; [done|]. split; [done|]. split; [done|by left]. }
  split; [|split].
  - intros ->. destruct (ts_realloc ts) eqn:Hra; [by specialize (Hsel ltac:(done))|].
    destruct Hpc as (Ha & Hc & Hco & Hp). destruct H as [Ho Hnd _ _].
    unfold owned_ts in Ho, Hnd. rewrite (held_alloc_idle _ Hra), Ha, Hc, Hco, Hp in Ho, Hnd.
    split; [exact Ho|]. split; [|exact Hnd]. destruct Hlost as [->|(-> & _)]; cbn; lia.
  - intros ->. split.
    + intros bound. unfold stunCtrlKeepMappedPort. destruct Hpc as [Hc _]. destruct (ts_client ts); [|done]. by destruct bound.
    + intros Hra Ha Hs. unfold stage_ok in HJ. rewrite Hra in HJ. unfold accept_fatal. by rewrite HJ.
  - intros r. destruct (ts_realloc ts) eqn:Hra; [|by unfold realloc_next; rewrite Hra].
    rewrite (Hsel ltac:(done)) in *. destruct (realloc_next_holds (w_open w) r ts) as (t & -> & _); try done. by rewrite Hra.
Qed.

(** ** When accepting fails early *)

Lemma reach_loop w s s' : reachable (fresh_server w) server_step s -> loop_step s s' -> reachable (fresh_server w) server_step s'.
Proof. intros H Hs. eapply reach_step; [exact H|by apply sv_loop]. Qed.

Definition w0 : world := mkWorld 0 ∅.

(** The first try fails, the second comes up, its accept loop ends before
    [connectWithBackoff] looks at the state, the third comes up, the server is stopped. *)
Definition early_failure (r1 r2 : connect_result) : turnServer :=
  let ts := shutdown (connect CDialFail (newTurnServer w0)).1 in
  let ts := (connect r1 ts).1 <| ts_state := TurnDisconnected |> <| ts_reconnect := true |> <| ts_acceptor := false |> in
  shutdown ((connect r2 ts).1 <| ts_stopped := true |>).

(** An accept loop that ends while [connectWithBackoff] is still connecting makes it
    connect again without [shutdown].  When the server is stopped afterwards, the
    connection, client and allocation of the first time and all three resources of
    its peer are open for ever. *)
Example early_accept_failure_leaks :
  exists ts, reachable (fresh_server w0) server_step (PExited, ts) /\ ts_lost ts = [] /\ w_open (ts_world ts) = {[0; 1; 2; 3; 4; 5]}%nat.
Proof.
  set (r := COk "1.2.3.4:5" (XOk "5.6.7.8:9")). exists (early_failure r r). split; [|split; [done|by vm_compute]].
  set (ts1 := shutdown (connect CDialFail (newTurnServer w0)).1).
  set (ts2 := (connect r ts1).1).
  set (ts3 := ts2 <| ts_state := TurnDisconnected |> <| ts_reconnect := true |> <| ts_acceptor := false |>).
  set (ts4 := (connect r ts3).1).
  assert (reachable (fresh_server w0) server_step (PTried, ts2)) as H2.
  { eapply reach_loop; [|by apply (ls_try r ts1)].
    eapply reach_loop; [|by apply (ls_down (connect CDialFail (newTurnServer w0)).1)].
    eapply reach_loop; [by apply reach_init|by apply (ls_init CDialFail)]. }
  assert (reachable (fresh_server w0) server_step (PTried, ts4)) as H4.
  { eapply reach_loop; [|by apply (ls_try r ts3)]. eapply reach_loop; [|by apply ls_again].
    eapply reach_step; [exact H2|]. by apply sv_accept, as_fatal. }
  eapply reach_loop; [|by apply ls_stop]. eapply reach_step; [|apply sv_side, ss_stop].
  eapply reach_loop; [|by apply ls_alive]. eapply reach_loop; [exact H4|by apply ls_up].
Qed.

(** ** When the server goes down while reallocating *)

(** A [reallocate] whose allocation comes when the main loop has shut the connection
    down panics, and so does one whose peer is taken away before it starts. *)
Theorem reallocate_race_panics ts ts' relay r : connected ts -> realloc_begin ts = Some ts' ->
  realloc_bind (ROk relay r) (shutdown ts') = Panic /\
  exists t, realloc_bind (ROk relay r) ts' = Ok (t, Some r) /\ realloc_end r (shutdown t) = Panic.
Proof.
  unfold realloc_begin. intros [_ Hc] E. destruct (ts_client ts); [|done]. injection E as <-. split; [done|].
  cbn -[close_opt]. destruct (ts_conn ts); [|done]. eexists. by split.
Qed.

(** So a server that is stopped while its accept loop reallocates stops the process. *)
Example stop_while_reallocating : exists ts, reachable (fresh_server w0) server_step (PExited, ts) /\
  realloc_next (ROk "1.2.3.4:6" XDialFail) ts = Panic.
Proof.
  pose (ts := (connect (COk "1.2.3.4:5" XDialFail) (newTurnServer w0)).1).
  exists (shutdown ((accept_reset ts) <| ts_stopped := true |>)). split; [|by vm_compute].
  eapply reach_loop; [|by apply ls_stop]. eapply reach_step; [|apply sv_side, ss_stop].
  eapply reach_step; [|by apply sv_accept, (as_reset ts)].
  eapply reach_loop; [|by apply ls_alive]. eapply reach_loop; [by apply reach_init|by apply (ls_init (COk "1.2.3.4:5" XDialFail))].
Qed.

(** ** Examples *)

Lemma turn_server_no_leak_witness :
  exists ts, reachable (fresh_server w0) calm_step (PExited, ts) /\ w_open (ts_world ts) = ∅.
Proof.
  pose (ts := (connect (COk "1.2.3.4:5" XDialFail) (newTurnServer w0)).1).
  pose (ts1 := ts <| ts_state := TurnDisconnected |> <| ts_reconnect := true |> <| ts_acceptor := false |>).
  assert (reachable (fresh_server w0) calm_step (PExited, shutdown (ts1 <| ts_stopped := true |>))) as H.
  { eapply reach_step; [|by apply cs_loop, ls_stop].
    eapply reach_step; [|apply cs_side, ss_stop].
    eapply reach_step; [|by apply cs_accept; [|apply (as_fatal ts)]].
    eapply reach_step; [|by apply cs_loop, ls_alive].
    eapply reach_step; [by apply reach_init|by apply cs_loop, (ls_init (COk "1.2.3.4:5" XDialFail))]. }
  eexists. split; [exact H|].
  assert (forall i, i ∈ w_open w0 -> (i < w_next w0)%nat) as Hw by (cbn; set_solver).
  exact (proj1 (proj1 (turn_server_no_leak w0 PExited _ Hw H) eq_refl)).
Defined.

Lemma reallocate_race_panics_witness :
  realloc_bind (ROk "1.2.3.4:6" XDialFail)
    (shutdown ((connect (COk "1.2.3.4:5" XDialFail) (newTurnServer w0)).1 <| ts_world := close_opt (Some 2%nat) (mkWorld 3 {[0%nat; 1%nat; 2%nat]}) |>
       <| ts_state := TurnAllocating |>)) = Panic.
Proof.
  refine (proj1 (reallocate_race_panics (connect (COk "1.2.3.4:5" XDialFail) (newTurnServer w0)).1 _ "1.2.3.4:6" XDialFail _ _)); by vm_compute.
Defined.
