(* ===== verification/Pipe.v ===== *)
(** Joining two connections (src/p2put/iocopy.go, [Pipe]) and the connections accepted
    from a TURN relay (turnpool.go, [handleAccept2]), which are joined to the host's
    own port.

    [Copy] is [io.Copy]'s loop; the shortcuts it takes when a connection offers
    [WriteTo] or [ReadFrom] keep its contract.  A connection is what its next reads
    return, the [writer] of [Tunnel], and how far it is closed: reading from a closed
    connection and writing to one fail.  The two copying goroutines run
    interleaved, a turn of a copy loop, a half-close and the end being one step each. *)

From S2P Require Import Prelude Tunnel.

Inductive copy_end := CopyMore | CopyEOF | CopyFail.
Inductive copy_error := ErrRead | ErrWrite | ErrShortWrite.

Record pconn := mkPconn {
  pc_reads : list (list byte * copy_end);
  pc_w : writer;
  (** It has a [CloseWrite]. *)
  pc_half : bool;
  pc_wclosed : bool;
  pc_closed : bool;
}.

#[global] Instance pconn_eta : Eta pconn := fun c => mkPconn (pc_reads c) (pc_w c) (pc_half c) (pc_wclosed c) (pc_closed c).

(** A turn of the loop: [None] while the read waits, else how the loop ends, if it
    does, with the two connections. *)
Definition copy_turn (src dst : pconn) : option (option (option copy_error) * pconn * pconn) :=
  if pc_closed src then Some (Some (Some ErrRead), src, dst)
  else
    match pc_reads src with
    | [] => None
    | (data, rerr) :: rest =>
        let src := src <| pc_reads := rest |> in
        let after (dst : pconn) :=
          Some (match rerr with CopyMore => None | CopyEOF => Some None | CopyFail => Some (Some ErrRead) end, src, dst) in
        if 0 <? len data then
          if pc_closed dst then Some (Some (Some ErrWrite), src, dst)
          else
            let '(k, ok, w) := writer_Write data (pc_w dst) in
            let dst := dst <| pc_w := w |> in
            if negb ok then Some (Some (Some ErrWrite), src, dst)
            else if negb (k =? len data) then Some (Some (Some ErrShortWrite), src, dst)
            else after dst
        else after dst
    end.

(** The end of [streamCopy]: [CloseWrite], or [Close] where there is none. *)
Definition half_close (dst : pconn) : pconn :=
  if pc_half dst then dst <| pc_wclosed := true |> else dst <| pc_closed := true |>.

(** A goroutine: copying, waiting to close with its error, done. *)
Inductive direction := DCopy | DWait (e : option copy_error) | DDone (e : option copy_error).

Record pipe := mkPipe { pi_alice : pconn; pi_bob : pconn; pi_ab : direction; pi_ba : direction; pi_ended : bool }.

Definition pipe_start (alice bob : pconn) : pipe := mkPipe alice bob DCopy DCopy false.

Definition after_turn (r : option (option copy_error)) : direction := match r with None => DCopy | Some e => DWait e end.

Inductive pipe_step (p : pipe) : pipe -> Prop :=
  | pipe_copy_ab r a b : pi_ab p = DCopy -> copy_turn (pi_alice p) (pi_bob p) = Some (r, a, b) ->
      pipe_step p (mkPipe a b (after_turn r) (pi_ba p) (pi_ended p))
  | pipe_copy_ba r a b : pi_ba p = DCopy -> copy_turn (pi_bob p) (pi_alice p) = Some (r, b, a) ->
      pipe_step p (mkPipe a b (pi_ab p) (after_turn r) (pi_ended p))
  | pipe_close_b e : pi_ab p = DWait e -> pipe_step p (mkPipe (pi_alice p) (half_close (pi_bob p)) (DDone e) (pi_ba p) (pi_ended p))
  | pipe_close_a e : pi_ba p = DWait e -> pipe_step p (mkPipe (half_close (pi_alice p)) (pi_bob p) (pi_ab p) (DDone e) (pi_ended p))
  | pipe_end ea eb : pi_ab p = DDone ea -> pi_ba p = DDone eb -> pi_ended p = false ->
      pipe_step p (mkPipe ((pi_alice p) <| pc_closed := true |>) ((pi_bob p) <| pc_closed := true |>) (pi_ab p) (pi_ba p) true).

(** [handleAccept2]: the accepted connection [c], and the dial to the host's port. *)
Inductive accepted := AcceptedLeft (c : pconn) | AcceptedPipe (p : pipe).

Definition handleAccept2 (dialed : option pconn) (c : pconn) : accepted :=
  match dialed with None => AcceptedLeft c | Some conn => AcceptedPipe (pipe_start conn c) end.

(** ** One direction *)

(** What is read before a copy ends, and how it ends. *)
Fixpoint upto (reads : list (list byte * copy_end)) : list byte :=
  match reads with
  | [] => []
  | (data, e) :: reads => data ++ match e with CopyMore => upto reads | _ => [] end
  end.

Fixpoint ends_in (reads : list (list byte * copy_end)) : option copy_end :=
  match reads with
  | [] => None
  | (_, CopyMore) :: reads => ends_in reads
  | (_, e) :: _ => Some e
  end.

Definition dir_inv (reads0 : list (list byte * copy_end)) (out0 : list byte) (d : direction) (src dst : pconn) : Prop :=
  match d with
  | DCopy => out0 ++ upto reads0 = wr_out (pc_w dst) ++ upto (pc_reads src) /\ ends_in reads0 = ends_in (pc_reads src)
  | DWait e | DDone e => wr_out (pc_w dst) `prefix_of` out0 ++ upto reads0 /\
      (e = None -> wr_out (pc_w dst) = out0 ++ upto reads0 /\ ends_in reads0 = Some CopyEOF)
  end.

(** A turn touches the reads of its source and the writer of its destination. *)
Lemma copy_turn_frame src dst r src' dst' : copy_turn src dst = Some (r, src', dst') ->
  (exists reads, src' = src <| pc_reads := reads |>) /\ (exists w, dst' = dst <| pc_w := w |>).
Proof.
  unfold copy_turn. destruct src as [rs w h wc c], dst as [rs' w' h' wc' c']. cbn [pc_closed pc_reads pc_w set_field].
  destruct c; [intros [= <- <- <-]; split; by eexists|].
  destruct rs as [|[data e] rs]; [done|]. destruct (0 <? len data); [|intros [= <- <- <-]; split; by eexists].
  destruct c'; [intros [= <- <- <-]; split; by eexists|]. destruct (writer_Write data w') as [[k ok] w2].
  destruct (negb ok); [intros [= <- <- <-]; split; by eexists|].
  destruct (negb (k =? len data)); intros [= <- <- <-]; split; by eexists.
Qed.

Lemma copy_turn_inv reads0 out0 src dst r src' dst' : dir_inv reads0 out0 DCopy src dst ->
  copy_turn src dst = Some (r, src', dst') -> dir_inv reads0 out0 (after_turn r) src' dst'.
Proof.
  intros [Ho He]. unfold copy_turn. destruct (pc_closed src).
  { intros [= <- <- <-]. cbn. split; [|done]. by rewrite Ho; exists (upto (pc_reads src)). }
  destruct (pc_reads src) as [|[data e] rs] eqn:Er; [done|]. cbn [upto ends_in] in Ho, He.
  assert (forall dst1, out0 ++ upto reads0 = wr_out (pc_w dst1) ++ match e with CopyMore => upto rs | _ => [] end ->
    Some (match e with CopyMore => None | CopyEOF => Some None | CopyFail => Some (Some ErrRead) end, src <| pc_reads := rs |>, dst1) = Some (r, src', dst') ->
    dir_inv reads0 out0 (after_turn r) src' dst') as Hafter.
  { intros dst1 H1 [= <- <- <-]. destruct e; cbn; [by split|rewrite app_nil_r in H1; rewrite H1; by split|rewrite app_nil_r in H1; rewrite H1; by split]. }
  destruct (Z.ltb_spec 0 (len data)) as [Hpos|Hz].
  - destruct (pc_closed dst). { intros [= <- <- <-]. cbn. split; [|done]. rewrite Ho. by eexists. }
    unfold writer_Write. destruct (wr_script (pc_w dst)) as [|[k ok] script].
    + cbn [negb]. rewrite Z.eqb_refl. cbn [negb]. apply Hafter. cbn. rewrite Ho. by rewrite <-app_assoc.
    + destruct ok; cbn [negb].
      * destruct (Z.eqb_spec (Z.min (Z.max 0 k) (len data)) (len data)) as [Hk|Hk]; cbn [negb].
        -- apply Hafter. cbn. rewrite Ho, Hk. unfold takeZ. rewrite take_ge by lia. by rewrite <-app_assoc.
        -- intros [= <- <- <-]. cbn. split; [|done]. rewrite Ho. apply prefix_app, prefix_app_r, prefix_take.
      * intros [= <- <- <-]. cbn. split; [|done]. rewrite Ho. apply prefix_app, prefix_app_r, prefix_take.
  - apply Hafter. rewrite Ho. by destruct data.
Qed.

Lemma half_close_frame c : exists wc cl, half_close c = c <| pc_wclosed := wc |> <| pc_closed := cl |>.
Proof. destruct c as [rs w [] wc cl]; [by exists true, cl|by exists wc, true]. Qed.

(** ** What a pipe delivers *)

Definition pipe_inv (ra rb : list (list byte * copy_end)) (oa ob : list byte) (p : pipe) : Prop :=
  dir_inv ra ob (pi_ab p) (pi_alice p) (pi_bob p) /\ dir_inv rb oa (pi_ba p) (pi_bob p) (pi_alice p) /\
  (pi_ended p = true -> pc_closed (pi_alice p) = true /\ pc_closed (pi_bob p) = true /\
     exists ea eb, pi_ab p = DDone ea /\ pi_ba p = DDone eb).

Lemma dir_inv_ext reads0 out0 d src dst src' dst' : pc_reads src' = pc_reads src -> pc_w dst' = pc_w dst ->
  dir_inv reads0 out0 d src dst -> dir_inv reads0 out0 d src' dst'.
Proof. intros Hr Hw. unfold dir_inv. by rewrite Hr, Hw. Qed.

Lemma pipe_step_inv ra rb oa ob p p' : pipe_inv ra rb oa ob p -> pipe_step p p' -> pipe_inv ra rb oa ob p'.
Proof.
  intros (Hab & Hba & He) Hs. destruct Hs as [r a b E Ht|r a b E Ht|e E|e E|ea eb Ea Eb En].
  - rewrite E in Hab. destruct (copy_turn_frame _ _ _ _ _ Ht) as [[reads ->] [w ->]]. split; [|split].
    + by eapply copy_turn_inv.
    + eapply dir_inv_ext; [..|exact Hba]; done.
    + intros H. destruct (He H) as (_ & _ & ea & eb & H' & _). cbn in H'. congruence.
  - rewrite E in Hba. destruct (copy_turn_frame _ _ _ _ _ Ht) as [[reads ->] [w ->]]. split; [|split].
    + eapply dir_inv_ext; [..|exact Hab]; done.
    + by eapply copy_turn_inv.
    + intros H. destruct (He H) as (_ & _ & ea & eb & _ & H'). cbn in H'. congruence.
  - rewrite E in Hab. destruct (half_close_frame (pi_bob p)) as (wc & cl & ->). split; [exact Hab|]. split; [exact Hba|].
    intros H. destruct (He H) as (_ & _ & ea & eb & H' & _). congruence.
  - rewrite E in Hba. destruct (half_close_frame (pi_alice p)) as (wc & cl & ->). split; [exact Hab|]. split; [exact Hba|].
    intros H. destruct (He H) as (_ & _ & ea & eb & _ & H'). congruence.
  - split; [exact Hab|]. split; [exact Hba|]. intros _. cbn. split; [done|]. split; [done|]. by exists ea, eb.
Qed.

Lemma pipe_reachable_inv a b p : reachable (fun p => p = pipe_start a b) pipe_step p ->
  pipe_inv (pc_reads a) (pc_reads b) (wr_out (pc_w a)) (wr_out (pc_w b)) p.
Proof.
  apply reachable_invariant; [|apply pipe_step_inv]. intros p' ->. split; [done|]. split; [done|]. done.
Qed.

(** Both connections are closed at the end, and each has got a prefix of what the other
    sent, in order; all of it up to its end when that direction reports no error. *)
Theorem pipe_delivers a b p : reachable (fun p => p = pipe_start a b) pipe_step p -> pi_ended p = true ->
  pc_closed (pi_alice p) = true /\ pc_closed (pi_bob p) = true /\
  exists errA errB, pi_ab p = DDone errA /\ pi_ba p = DDone errB /\
    wr_out (pc_w (pi_bob p)) `prefix_of` wr_out (pc_w b) ++ upto (pc_reads a) /\
    wr_out (pc_w (pi_alice p)) `prefix_of` wr_out (pc_w a) ++ upto (pc_reads b) /\
    (errA = None -> wr_out (pc_w (pi_bob p)) = wr_out (pc_w b) ++ upto (pc_reads a)) /\
    (errB = None -> wr_out (pc_w (pi_alice p)) = wr_out (pc_w a) ++ upto (pc_reads b)).
Proof.
  intros (Hab & Hba & He)%pipe_reachable_inv Hend. destruct (He Hend) as (Hca & Hcb & ea & eb & Ea & Eb).
  rewrite Ea in Hab. rewrite Eb in Hba. destruct Hab as [Hp1 Hn1], Hba as [Hp2 Hn2].
  split; [done|]. split; [done|]. exists ea, eb. split_and!; try done; intros E; [by apply Hn1|by apply Hn2].
Qed.

(** ** A pipe ends *)

(** Steps a direction has left at most. *)
Definition weight (d : direction) (src : pconn) : nat :=
  match d with DCopy => 2 + length (pc_reads src) | DWait _ => 1 | DDone _ => 0 end.

Definition pipe_weight (p : pipe) : nat :=
  weight (pi_ab p) (pi_alice p) + weight (pi_ba p) (pi_bob p) + (if pi_ended p then 0 else 1).

Lemma weight_reads d src src' : pc_reads src' = pc_reads src -> weight d src' = weight d src.
Proof. intros H. unfold weight. by rewrite H. Qed.

Lemma copy_turn_weight src dst r src' dst' : copy_turn src dst = Some (r, src', dst') ->
  (weight (after_turn r) src' < weight DCopy src)%nat.
Proof.
  unfold copy_turn. destruct (pc_closed src); [intros [= <- <- <-]; cbn; lia|].
  destruct (pc_reads src) as [|[data e] rs] eqn:Er; [done|]. cbn [weight]. rewrite Er. cbn [length].
  assert (forall r', weight (after_turn r') (src <| pc_reads := rs |>) < 2 + S (length rs))%nat as H by (intros [?|]; cbn; lia).
  destruct (0 <? len data); [|intros [= <- <- <-]; apply H]. destruct (pc_closed dst); [intros [= <- <- <-]; apply (H (Some _))|].
  destruct (writer_Write data (pc_w dst)) as [[k ok] w]. destruct (negb ok); [intros [= <- <- <-]; apply (H (Some _))|].
  destruct (negb (k =? len data)); intros [= <- <- <-]; [apply (H (Some _))|apply H].
Qed.

Lemma pipe_step_weight p p' : pipe_step p p' -> (pipe_weight p' < pipe_weight p)%nat.
Proof.
  intros Hs. unfold pipe_weight. destruct Hs as [r a b E Ht|r a b E Ht|e E|e E|ea eb Ea Eb En]; cbn [pi_ab pi_ba pi_alice pi_bob pi_ended].
  - pose proof (copy_turn_weight _ _ _ _ _ Ht). destruct (copy_turn_frame _ _ _ _ _ Ht) as [_ [w ->]]. rewrite E.
    rewrite (weight_reads (pi_ba p) (pi_bob p)) by done. lia.
  - pose proof (copy_turn_weight _ _ _ _ _ Ht). destruct (copy_turn_frame _ _ _ _ _ Ht) as [_ [w ->]]. rewrite E.
    rewrite (weight_reads (pi_ab p) (pi_alice p)) by done. lia.
  - destruct (half_close_frame (pi_bob p)) as (wc & cl & ->). rewrite E. rewrite (weight_reads (pi_ba p) (pi_bob p)) by done. cbn [weight]. lia.
  - destruct (half_close_frame (pi_alice p)) as (wc & cl & ->). rewrite E. rewrite (weight_reads (pi_ab p) (pi_alice p)) by done. cbn [weight]. lia.
  - rewrite En, (weight_reads (pi_ab p) (pi_alice p)), (weight_reads (pi_ba p) (pi_bob p)) by done. lia.
Qed.

(** The source of a direction that copies is closed, or what it sends ends. *)
Definition can_end (d : direction) (src : pconn) : Prop :=
  match d with DCopy => pc_closed src = true \/ is_Some (ends_in (pc_reads src)) | _ => True end.

Lemma copy_turn_can src dst r src' dst' : can_end DCopy src -> copy_turn src dst = Some (r, src', dst') -> can_end (after_turn r) src'.
Proof.
  intros Hc. unfold copy_turn. destruct (pc_closed src) eqn:Ec; [by intros [= <- <- <-]|]. destruct Hc as [|He]; [congruence|].
  destruct (pc_reads src) as [|[data e] rs]; [done|]. cbn [ends_in] in He.
  assert (can_end (after_turn match e with CopyMore => None | CopyEOF => Some None | CopyFail => Some (Some ErrRead) end) (src <| pc_reads := rs |>)) as H.
  { destruct e; cbn; [by right|done|done]. }
  destruct (0 <? len data); [|by intros [= <- <- <-]]. destruct (pc_closed dst); [by intros [= <- <- <-]|].
  destruct (writer_Write data (pc_w dst)) as [[k ok] w]. destruct (negb ok); [by intros [= <- <- <-]|]. destruct (negb _); by intros [= <- <- <-].
Qed.

Lemma can_end_mono d src src' : pc_reads src' = pc_reads src -> (pc_closed src = true -> pc_closed src' = true) -> can_end d src -> can_end d src'.
Proof. intros Hr Hc. unfold can_end. rewrite Hr. destruct d; [|done..]. intros [?|?]; [left; auto|by right]. Qed.

Lemma half_close_closed c : pc_closed c = true -> pc_closed (half_close c) = true.
Proof. intros H. unfold half_close. by destruct (pc_half c). Qed.

Lemma half_close_reads c : pc_reads (half_close c) = pc_reads c.
Proof. unfold half_close. by destruct (pc_half c). Qed.

Definition pipe_can (p : pipe) : Prop := can_end (pi_ab p) (pi_alice p) /\ can_end (pi_ba p) (pi_bob p).

Lemma pipe_step_can p p' : pipe_can p -> pipe_step p p' -> pipe_can p'.
Proof.
  intros [Ha Hb] Hs. destruct Hs as [r a b E Ht|r a b E Ht|e E|e E|ea eb Ea Eb En]; split; cbn.
  - rewrite E in Ha. by eapply copy_turn_can.
  - destruct (copy_turn_frame _ _ _ _ _ Ht) as [_ [w ->]]. by eapply can_end_mono; [..|exact Hb].
  - destruct (copy_turn_frame _ _ _ _ _ Ht) as [_ [w ->]]. by eapply can_end_mono; [..|exact Ha].
  - rewrite E in Hb. by eapply copy_turn_can.
  - done.
  - eapply can_end_mono; [apply half_close_reads|apply half_close_closed|exact Hb].
  - eapply can_end_mono; [apply half_close_reads|apply half_close_closed|exact Ha].
  - done.
  - by rewrite Ea.
  - by rewrite Eb.
Qed.

Lemma copy_turn_moves src dst : can_end DCopy src -> is_Some (copy_turn src dst).
Proof.
  intros Hc. unfold copy_turn. destruct (pc_closed src) eqn:Ec; [by eexists|]. destruct Hc as [|[x He]]; [congruence|].
  destruct (pc_reads src) as [|[data e] rs]; [done|]. destruct (0 <? len data); [|by eexists]. destruct (pc_closed dst); [by eexists|].
  destruct (writer_Write data (pc_w dst)) as [[k ok] w]. destruct (negb ok); [by eexists|]. destruct (negb _); by eexists.
Qed.

(** When what each side sends comes to an end, or fails, every run of the pipe ends,
    whatever order its goroutines run in. *)
Theorem pipe_ends a b : is_Some (ends_in (pc_reads a)) -> is_Some (ends_in (pc_reads b)) ->
  inevitable pipe_step (fun p => pi_ended p = true) (pipe_start a b).
Proof.
  intros Ha Hb. assert (pipe_can (pipe_start a b)) as Hc by (split; cbn; by right). revert Hc. generalize (pipe_start a b).
  intros p. remember (pipe_weight p) as n eqn:En. revert p En. induction (lt_wf n) as [n _ IH]. intros p -> Hc.
  destruct (pi_ended p) eqn:Ee; [by apply inev_now|]. apply inev_later.
  - destruct p as [al bo [|ea|ea] [|eb|eb] en]; destruct Hc as [H1 H2]; cbn in Ee, H1, H2.
    all: try (destruct (copy_turn_moves al bo H1) as [[[r a1] b1] Ht]; eexists; by apply (pipe_copy_ab _ r a1 b1)).
    all: try (destruct (copy_turn_moves bo al H2) as [[[r b1] a1] Ht]; eexists; by apply (pipe_copy_ba _ r a1 b1)).
    all: try (eexists; by apply (pipe_close_b _ ea)). all: try (eexists; by apply (pipe_close_a _ eb)).
    eexists. by apply (pipe_end _ ea eb).
  - intros p' Hs. eapply IH; [by apply pipe_step_weight|done|by eapply pipe_step_can].
Qed.

(** An accepted connection stays open when the host's own port cannot be dialled. *)
Lemma accept_leaks c : pc_closed c = false -> exists c', handleAccept2 None c = AcceptedLeft c' /\ pc_closed c' = false.
Proof. by exists c. Qed.

(** ** Examples *)

(** A connection that can close its sending half gets the late answer; one that cannot
    is closed by the end of the question. *)
Definition asking (half : bool) : pconn := mkPconn [([Byte.x41], CopyEOF)] (mkWriter [] []) half false false.
Definition answering (half : bool) : pconn := mkPconn [([Byte.x42], CopyEOF)] (mkWriter [] []) half false false.

Lemma pipe_ends_witness : inevitable pipe_step (fun p => pi_ended p = true) (pipe_start (asking true) (answering true)).
Proof. apply (pipe_ends (asking true) (answering true)); by eexists. Defined.

(** Without [CloseWrite] the end of one direction cuts the other off. *)
Example no_half_close_cuts : exists p, reachable (fun p => p = pipe_start (asking true) (answering false)) pipe_step p /\
  pi_ba p = DWait (Some ErrRead) /\ wr_out (pc_w (pi_alice p)) = [].
Proof.
  eexists. split.
  - eapply reach_step; [eapply reach_step; [eapply reach_step; [by apply reach_init|]|]|].
    + by apply pipe_copy_ab.
    + by apply pipe_close_b.
    + by apply pipe_copy_ba.
  - done.
Qed.
