(* ===== verification/DDLog.v ===== *)
(** The logger that merges repeated lines (src/dlog/ddlog.go).

    The methods hold the mutex.  The debouncer (the bep/debounce package) is asked
    to run a closure a second later and drops the one before; a closure whose
    timer has fired already may still be waiting for the mutex.  So any closure
    ever made may run at any time, once or not at all: [run_flush].  An entry's
    pointer is the number its allocation got. *)

From stdpp Require Import list strings.
From S2P Require Import Prelude GoLib.

Definition debounceDelay : Z := second.

Record ddEntry := mkEntry {
  de_firstFull : string;
  de_count : Z;
  de_firstAt : Z;
}.

#[global] Instance ddEntry_eta : Eta ddEntry := fun e => mkEntry (de_firstFull e) (de_count e) (de_firstAt e).

(** A closure handed to the debouncer: the generation and the entry it is for. *)
Record flusher := mkFlusher { fl_gen : Z; fl_entry : nat }.

Record DDLogger := mkLogger {
  dl_curKey : string;
  dl_cur : option (nat * ddEntry);
  dl_gen : Z;
  (** Entries allocated, closures made, lines written. *)
  dl_next : nat;
  dl_made : list flusher;
  dl_out : list (string * Z);
}.

#[global] Instance DDLogger_eta : Eta DDLogger := fun d =>
  mkLogger (dl_curKey d) (dl_cur d) (dl_gen d) (dl_next d) (dl_made d) (dl_out d).

Definition newDDLogger : DDLogger := mkLogger "" None 0 0 [] [].

(** A line with its count; the count is shown when it is more than one. *)
Definition printEntry (e : ddEntry) (d : DDLogger) : DDLogger :=
  d <| dl_out := dl_out d ++ [(de_firstFull e, de_count e)] |>.

Definition trig (gen : Z) (entry : nat) (d : DDLogger) : DDLogger :=
  d <| dl_made := dl_made d ++ [mkFlusher gen entry] |>.

(** [Printf] once the key and the full line are formatted; [d.cur] is read when the
    key is the current one. *)
Definition Printf (now : Z) (key full : string) (d : DDLogger) : outcome DDLogger :=
  let fresh (d : DDLogger) :=
    let d := match dl_cur d with Some (_, e) => printEntry e d | None => d end in
    let d := d <| dl_gen := wrap64 (dl_gen d + 1) |> in
    let id := dl_next d in
    let d := d <| dl_next := S id |> <| dl_cur := Some (id, mkEntry full 1 now) |> <| dl_curKey := key |> in
    Ok (trig (dl_gen d) id d) in
  if decide (key = dl_curKey d) then
    match dl_cur d with
    | None => Panic
    | Some (id, e) =>
        if time_sub now (de_firstAt e) <? debounceDelay then
          let d := d <| dl_cur := Some (id, e <| de_count := de_count e + 1 |>) |> <| dl_gen := wrap64 (dl_gen d + 1) |> in
          Ok (trig (dl_gen d) id d)
        else fresh d
    end
  else fresh d.

Definition ExitFlush (d : DDLogger) : DDLogger :=
  match dl_cur d with
  | Some (_, e) => (printEntry e d) <| dl_cur := None |> <| dl_curKey := ""%string |>
  | None => d
  end.

Definition flush (f : flusher) (d : DDLogger) : DDLogger :=
  if negb (fl_gen f =? dl_gen d) then d
  else
    match dl_cur d with
    | Some (id, e) =>
        if decide (id = fl_entry f) then (printEntry e d) <| dl_cur := None |> <| dl_curKey := ""%string |> else d
    | None => d
    end.

(** ** Runs *)

(** A call of [Printf]: the time, the key and the line. *)
Record call := mkCall { ca_now : Z; ca_key : string; ca_full : string }.

(** The calls made and the state they lead to.  The text a key is made of is never
    empty: it has the file, a colon and the line. *)
Inductive log_run : list call -> DDLogger -> Prop :=
| lr_new : log_run [] newDDLogger
| lr_printf cs d c d' : log_run cs d -> ca_key c <> ""%string ->
    Printf (ca_now c) (ca_key c) (ca_full c) d = Ok d' -> log_run (cs ++ [c]) d'
| lr_flush cs d f : log_run cs d -> f ∈ dl_made d -> log_run cs (flush f d)
| lr_exit cs d : log_run cs d -> log_run cs (ExitFlush d).

(** Lines written, and the one that waits, account for the calls: each stands for
    as many consecutive calls with one key as its count says, the first of which
    has its text. *)
Inductive accounts : list call -> list (string * Z) -> Prop :=
| acc_nil : accounts [] []
| acc_line cs lines c group : accounts cs lines ->
    Forall (fun x => ca_key x = ca_key c) group ->
    accounts (cs ++ c :: group) (lines ++ [(ca_full c, 1 + len group)]).

Definition waiting (d : DDLogger) : list (string * Z) :=
  match dl_cur d with Some (_, e) => [(de_firstFull e, de_count e)] | None => [] end.

(** The invariant: what is written accounts for a beginning of the calls; the rest
    is the batch that waits. *)
Definition log_inv (cs : list call) (d : DDLogger) : Prop :=
  exists done_cs rest, cs = done_cs ++ rest /\ accounts done_cs (dl_out d) /\
  match dl_cur d with
  | None => rest = [] /\ dl_curKey d = ""%string
  | Some (id, e) => exists c group, rest = c :: group /\ de_firstFull e = ca_full c /\ de_count e = 1 + len group /\
      Forall (fun x => ca_key x = dl_curKey d) rest /\ dl_curKey d <> ""%string
  end.

Lemma print_inv cs d : log_inv cs d -> dl_cur d <> None ->
  exists out', match dl_cur d with Some (_, e) => dl_out d ++ [(de_firstFull e, de_count e)] = out' | None => False end /\ accounts cs out'.
Proof.
  intros (dc & rest & -> & Hacc & Hcur) Hne. destruct (dl_cur d) as [[id e]|]; [|done].
  destruct Hcur as (c & group & -> & -> & -> & Hkeys & _). eexists. split; [done|].
  apply Forall_cons in Hkeys as [<- Hg]. by apply acc_line.
Qed.

Lemma flush_inv cs d : log_inv cs d -> log_inv cs (ExitFlush d).
Proof.
  intros H. unfold ExitFlush. destruct (dl_cur d) as [[id e]|] eqn:E; [|done].
  destruct (print_inv cs d H) as (out' & Ho & Hacc); [by rewrite E|]. rewrite E in Ho. exists cs, []. rewrite app_nil_r.
  split; [done|]. cbn. rewrite Ho. done.
Qed.

Lemma flush_is_exit f d : flush f d = d \/ flush f d = ExitFlush d.
Proof. unfold flush, ExitFlush. repeat case_match; auto. Qed.

Lemma Printf_inv cs d c : log_inv cs d -> ca_key c <> ""%string ->
  exists d', Printf (ca_now c) (ca_key c) (ca_full c) d = Ok d' /\ log_inv (cs ++ [c]) d' /\ dl_cur d' <> None.
Proof.
  intros H Hk. unfold Printf.
  assert (forall out', match dl_cur d with Some (_, e) => dl_out d ++ [(de_firstFull e, de_count e)] = out' | None => dl_out d = out' end ->
    accounts cs out' -> forall d', dl_cur d' = Some (dl_next d, mkEntry (ca_full c) 1 (ca_now c)) -> dl_curKey d' = ca_key c -> dl_out d' = out' ->
    log_inv (cs ++ [c]) d') as Hfresh.
  { intros out' _ Hacc d' Hc Hkey Ho. exists cs, [c]. rewrite Hc, Hkey, Ho. split; [done|]. split; [done|].
    exists c, []. split; [done|]. split; [done|]. split; [done|]. split; [by constructor|done]. }
  assert (exists out', match dl_cur d with Some (_, e) => dl_out d ++ [(de_firstFull e, de_count e)] = out' | None => dl_out d = out' end /\ accounts cs out') as (out' & Hout & Hacc).
  { destruct (dl_cur d) as [[id e]|] eqn:E.
    - destruct (print_inv cs d H) as (o & Ho & Ha); [by rewrite E|]. rewrite E in Ho. eauto.
    - destruct H as (dc & rest & -> & Ha & Hr). rewrite E in Hr. destruct Hr as [-> _]. rewrite app_nil_r. eauto. }
  specialize (Hfresh out' Hout Hacc).
  destruct (dl_cur d) as [[id e]|] eqn:Ecur.
  - case_decide as Hkey; [case_match|].
    + eexists. split; [done|]. split; [|done]. destruct H as (dc & rest & -> & Ha & Hr). rewrite Ecur in Hr.
      destruct Hr as (c0 & group & -> & Hf & Hcount & Hkeys & Hne). exists dc, (c0 :: group ++ [c]).
      split; [by rewrite <-app_assoc|]. split; [done|]. cbn. exists c0, (group ++ [c]). split; [done|]. split; [done|].
      split; [rewrite length_app; cbn; lia|]. split; [|done]. rewrite app_comm_cons. apply Forall_app. split; [done|by constructor].
    + eexists. split; [done|]. split; [|done]. by apply Hfresh.
    + eexists. split; [done|]. split; [|done]. by apply Hfresh.
  - rewrite decide_False.
    + eexists. split; [done|]. split; [|done]. by apply Hfresh.
    + destruct H as (dc & rest & _ & _ & Hr). rewrite Ecur in Hr. destruct Hr as [_ ->]. done.
Qed.

Lemma log_run_inv cs d : log_run cs d -> log_inv cs d.
Proof.
  induction 1 as [|cs d c d' _ IH Hk E|cs d f _ IH _|cs d _ IH].
  - exists [], []. split; [done|]. split; [constructor|done].
  - destruct (Printf_inv cs d c IH Hk) as (d1 & E1 & Hi & _). congruence.
  - destruct (flush_is_exit f d) as [->| ->]; [done|by apply flush_inv].
  - by apply flush_inv.
Qed.

(** Nothing is lost and nothing is written twice.  Whichever closures run, late
    or never, and whenever the logger is flushed by hand, the lines written and
    the one that waits account for all the calls in order, each for as many calls
    as its count; [Printf] never reads a missing entry, and a final [ExitFlush]
    leaves no call unaccounted for. *)
Theorem log_accounts_for_all cs d : log_run cs d ->
  accounts cs (dl_out d ++ waiting d) /\
  accounts cs (dl_out (ExitFlush d)) /\
  forall c, ca_key c <> ""%string -> exists d', Printf (ca_now c) (ca_key c) (ca_full c) d = Ok d'.
Proof.
  intros H%log_run_inv. split; [|split].
  - destruct (dl_cur d) as [[id e]|] eqn:E.
    + destruct (print_inv cs d H) as (o & Ho & Ha); [by rewrite E|]. rewrite E in Ho. unfold waiting. by rewrite E, Ho.
    + destruct H as (dc & rest & -> & Ha & Hr). rewrite E in Hr. destruct Hr as [-> _]. unfold waiting. by rewrite E, !app_nil_r.
  - apply flush_inv in H as (dc & rest & -> & Ha & Hr). assert (dl_cur (ExitFlush d) = None) as E.
    { unfold ExitFlush. by destruct (dl_cur d) as [[]|] eqn:E. }
    rewrite E in Hr. destruct Hr as [-> _]. by rewrite app_nil_r.
  - intros c Hk. destruct (Printf_inv cs d c H Hk) as (d' & ? & _). by exists d'.
Qed.

(** Closures run and flushes by hand, with no call of [Printf] in between. *)
Inductive settles (d : DDLogger) : DDLogger -> Prop :=
| st_refl : settles d d
| st_flush d' f : settles d d' -> settles d (flush f d')
| st_exit d' : settles d d' -> settles d (ExitFlush d').

Lemma exit_cur d : dl_gen (ExitFlush d) = dl_gen d /\ dl_cur (ExitFlush d) = None.
Proof. unfold ExitFlush. by destruct (dl_cur d) as [[]|] eqn:E. Qed.

(** The last line comes out.  Once the closure of the last call has run, in
    whatever company, nothing waits. *)
Theorem last_line_written now key full d d' d'' : Printf now key full d = Ok d' -> settles d' d'' ->
  exists f, last (dl_made d') = Some f /\ dl_cur (flush f d'') = None.
Proof.
  intros E Hs.
  assert (exists f e, last (dl_made d') = Some f /\ fl_gen f = dl_gen d' /\ dl_cur d' = Some (fl_entry f, e)) as (f & e & Hf & Hg & Hc).
  { unfold Printf in E. repeat case_match; simplify_eq/=; rewrite last_snoc; by do 2 eexists. }
  exists f. split; [done|].
  assert (dl_gen d'' = fl_gen f /\ (dl_cur d'' = None \/ dl_cur d'' = Some (fl_entry f, e))) as [Hg' Hc'].
  { induction Hs as [|x g Hs [IHg IHc]|x Hs [IHg IHc]]; [auto| |].
    - destruct (flush_is_exit g x) as [->| ->]; [done|]. destruct (exit_cur x) as [-> ->]. auto.
    - destruct (exit_cur x) as [-> ->]. auto. }
  unfold flush. rewrite Hg', Z.eqb_refl. cbn [negb]. destruct Hc' as [E'|E']; rewrite E'; [done|by rewrite decide_True].
Qed.

(** ** Example *)

Definition two_calls : list call :=
  [mkCall 0 "a.go:1: x" "00:00:00 a.go:1: x"; mkCall 5 "a.go:1: x" "00:00:00 a.go:1: x"].

Lemma log_accounts_for_all_witness :
  exists d, log_run two_calls d /\ dl_out (ExitFlush d) = [("00:00:00 a.go:1: x"%string, 2)] /\
    accounts two_calls (dl_out (ExitFlush d)).
Proof.
  set (after c d := match Printf (ca_now c) (ca_key c) (ca_full c) d with Ok d' => d' | Panic => d end).
  set (c1 := mkCall 0 "a.go:1: x" "00:00:00 a.go:1: x"). set (c2 := mkCall 5 "a.go:1: x" "00:00:00 a.go:1: x").
  assert (log_run [c1] (after c1 newDDLogger)) as H1 by (apply (lr_printf [] newDDLogger c1); [apply lr_new|done|reflexivity]).
  assert (log_run two_calls (after c2 (after c1 newDDLogger))) as H2 by (apply (lr_printf [c1] (after c1 newDDLogger) c2); [exact H1|done|reflexivity]).
  eexists. split; [exact H2|]. split; [reflexivity|]. exact (proj1 (proj2 (log_accounts_for_all _ _ H2))).
Defined.

Lemma last_line_written_witness :
  exists d' f, Printf 0 "k" "line" newDDLogger = Ok d' /\ last (dl_made d') = Some f /\ dl_cur (flush f (ExitFlush d')) = None.
Proof.
  eexists. destruct (last_line_written 0 "k" "line" newDDLogger _ _ eq_refl (st_exit _ _ (st_refl _))) as (f & Hf & Hc).
  exists f. split; [reflexivity|]. split; [exact Hf|exact Hc].
Defined.
