(* ===== verification/ExecEcho.v ===== *)
(** Two protocols over streams: running a shell command on a peer
    (src/pbexec/pbexec.go) and the echo (src/pbecho/pbecho.go).

    A handler reads what the peer sends up to a limit; the stream ends, breaks or
    stays open.  Running the command is the operating system's: its output and
    how it ended are arguments.  The codec is encoding/json's, which replaces
    what is not text ([exec_text]). *)

From stdpp Require Import countable list strings.
From S2P Require Import Prelude GoLib.

(** ** Reading a request *)

(** How the peer's side of the stream ends. *)
Inductive stream_end := EndEOF | EndError | StaysOpen.

Inductive read_outcome := Got (buf : list byte) | ReadFailed | ReadTimedOut.

(** [io.ReadAll(io.LimitReader(s, limit))] against the read timeout. *)
Definition read_limited (limit : Z) (sent : list byte) (e : stream_end) : read_outcome :=
  if limit <=? len sent then Got (takeZ limit sent)
  else match e with EndEOF => Got sent | EndError => ReadFailed | StaysOpen => ReadTimedOut end.

(** ** Shell commands *)

Definition maxCmdLen : Z := 4096.
Definition maxOutputLen : Z := 1024.

(** The encodings of the white space of [unicode.IsSpace]. *)
Definition space_encodings : list (list byte) :=
  map (fun z => [byte_of_Z z]) [9; 10; 11; 12; 13; 32].

Definition wide_spaces : list (list byte) :=
  map (map byte_of_Z)
  ([[194; 133]; [194; 160]; [225; 154; 128]; [226; 128; 168]; [226; 128; 169]; [226; 128; 175]; [226; 129; 159]; [227; 128; 128]] ++
   map (fun z => [226; 128; z]) (seqZ 128 11)).

(** The list without [p] at its head. *)
Fixpoint strip (p l : list byte) : option (list byte) :=
  match p, l with
  | [], _ => Some l
  | a :: p, b :: l => if decide (a = b) then strip p l else None
  | _ :: _, [] => None
  end.

Fixpoint strip_any (ps : list (list byte)) (l : list byte) : option (list byte) :=
  match ps with
  | [] => None
  | p :: ps => match strip p l with Some r => Some r | None => strip_any ps l end
  end.

Fixpoint trim_head (fuel : nat) (ps : list (list byte)) (l : list byte) : list byte :=
  match fuel with
  | O => l
  | S fuel => match strip_any ps l with Some r => trim_head fuel ps r | None => l end
  end.

(** [strings.TrimSpace]: each turn takes a byte at least. *)
Definition TrimSpace (l : list byte) : list byte :=
  let ps := space_encodings ++ wide_spaces in
  let l := trim_head (length l) ps l in
  reverse (trim_head (length l) (reverse <$> ps) (reverse l)).

Definition truncateStr (s : list byte) (n : Z) : list byte := if n <? len s then takeZ n s else s.

Record ExecResult := mkResult {
  er_Stdout : list byte;
  er_Stderr : list byte;
  er_ExitCode : Z;
  er_Error : string;
}.

(** How [cmd.Run] ended: without error, with an exit code, with another error, or
    not before the 3 seconds were over. *)
Inductive run_end := RunOK | RunExit (code : Z) | RunFailed (msg : string) | RunTimeout.

(** What a shell makes of a command: output, error output, the end. *)
Definition shell : Type := list byte -> list byte * list byte * run_end.

Definition run_code (e : run_end) : Z * string :=
  match e with
  | RunOK => (0, "")
  | RunExit code => (code, "")
  | RunFailed msg => (-1, msg)
  | RunTimeout => (-1, "execution timeout")
  end%string.

(** [handleExec]: the command run, and the answer. *)
Inductive exec_outcome := Rejected | NoAnswer | Answered (cmd : list byte) (r : ExecResult).

Definition handleExec (reject : bool) (sh : shell) (sent : list byte) (e : stream_end) : exec_outcome :=
  if reject then Rejected
  else
    match read_limited maxCmdLen sent e with
    | ReadFailed | ReadTimedOut => NoAnswer
    | Got buf =>
        match TrimSpace buf with
        | [] => NoAnswer
        | cmdStr =>
            let '(stdout, stderr, fin) := sh cmdStr in
            let '(exitCode, execErr) := run_code fin in
            Answered cmdStr (mkResult (truncateStr stdout maxOutputLen) (truncateStr stderr maxOutputLen) exitCode execErr)
        end
    end.

Class ExecJson := {
  exec_marshal : ExecResult -> list byte;
  exec_unmarshal : list byte -> option ExecResult;
  exec_text : list byte -> list byte;
}.

Class ExecJsonLaws (J : ExecJson) := {
  exec_unmarshal_marshal : forall r, exec_unmarshal (exec_marshal r) =
    Some (mkResult (exec_text (er_Stdout r)) (exec_text (er_Stderr r)) (er_ExitCode r) (er_Error r));
}.

Section exec.
Context {J : ExecJson}.

(** [Exec] over a stream that carries everything: the client writes the command and
    closes its side; [None] is an error. *)
Definition Exec (reject : bool) (sh : shell) (command : list byte) : option ExecResult :=
  match handleExec reject sh command EndEOF with
  | Answered _ r => exec_unmarshal (exec_marshal r)
  | Rejected | NoAnswer => None
  end.
End exec.

(** ** The echo *)

Definition maxEchoLen : Z := 64 * 1024.

(** The bytes "Re: ". *)
Definition re_prefix : list byte := map byte_of_Z [82; 101; 58; 32].

(** The handler: what is written back, [None] for a reset. *)
Definition handleEcho (reject : bool) (sent : list byte) (e : stream_end) : option (list byte) :=
  if reject then None
  else
    match read_limited maxEchoLen sent e with
    | Got buf => Some (re_prefix ++ buf)
    | ReadFailed | ReadTimedOut => Some []
    end.

(** [Echo]: everything read back; a reset is an error. *)
Definition Echo (reject : bool) (msg : list byte) : option (list byte) := handleEcho reject msg EndEOF.

(** ** Properties *)

Lemma read_limited_EOF limit sent : 0 <= limit -> read_limited limit sent EndEOF = Got (takeZ limit sent).
Proof.
  intros H. unfold read_limited. destruct (Z.leb_spec limit (len sent)); [done|]. unfold takeZ. by rewrite take_ge by lia.
Qed.

Lemma strip_spec p l r : strip p l = Some r -> l = p ++ r.
Proof.
  revert l. induction p as [|a p IH]; intros l; cbn; [by intros [= ->]|]. destruct l as [|b l]; [done|].
  case_decide as E; [|done]. subst. intros H%IH. by rewrite H.
Qed.

Lemma strip_any_spec ps l r : strip_any ps l = Some r -> exists p, p ∈ ps /\ l = p ++ r.
Proof.
  induction ps as [|p ps IH]; cbn; [done|]. destruct (strip p l) eqn:E.
  - intros [= ->]. exists p. split; [set_solver|by apply strip_spec].
  - intros (q & ? & ?)%IH. exists q. set_solver.
Qed.

Lemma trim_head_spec fuel ps l : trim_head fuel ps l `suffix_of` l.
Proof.
  revert l. induction fuel as [|fuel IH]; intros l; cbn; [done|]. destruct (strip_any ps l) as [r|] eqn:E; [|done].
  apply strip_any_spec in E as (p & _ & ->). etrans; [apply IH|]. by apply suffix_app_r.
Qed.

(** Fuel enough: nothing more can be stripped. *)
Lemma trim_head_done fuel ps l : Forall (fun p => p <> []) ps -> (length l <= fuel)%nat ->
  strip_any ps (trim_head fuel ps l) = None.
Proof.
  intros Hps. revert l. induction fuel as [|fuel IH]; intros l Hl.
  - destruct l; [|cbn in Hl; lia]. cbn. destruct (strip_any ps []) as [r|] eqn:E; [|done].
    apply strip_any_spec in E as (p & Hp & E). rewrite Forall_forall in Hps. specialize (Hps p Hp). by destruct p.
  - cbn. destruct (strip_any ps l) as [r|] eqn:E; [|done]. apply IH.
    apply strip_any_spec in E as (p & Hp & ->). rewrite Forall_forall in Hps. specialize (Hps p Hp).
    rewrite length_app in Hl. destruct p; [done|cbn in Hl; lia].
Qed.

(** [TrimSpace] leaves the middle of its argument, with no white space at its end. *)
Lemma TrimSpace_middle l : exists a b, l = a ++ TrimSpace l ++ b /\
  strip_any (reverse <$> (space_encodings ++ wide_spaces)) (reverse (TrimSpace l)) = None.
Proof.
  unfold TrimSpace. set (ps := space_encodings ++ wide_spaces). destruct (trim_head_spec (length l) ps l) as [a Ha].
  set (m := trim_head (length l) ps l) in *.
  destruct (trim_head_spec (length m) (reverse <$> ps) (reverse m)) as [b Hb].
  exists a, (reverse b). split.
  - rewrite Ha at 1. f_equal. rewrite <-(reverse_involutive m) at 1. rewrite Hb at 1. by rewrite reverse_app.
  - rewrite reverse_involutive. apply trim_head_done; [|by rewrite length_reverse].
    apply Forall_forall. intros p. assert (Forall (fun p => p <> []) (reverse <$> ps)) as H by (vm_compute; repeat constructor; done).
    rewrite Forall_forall in H. apply H.
Qed.

(** A remote command.  What a peer runs is the command's first 4096 bytes with
    the white space around them taken off, so a longer command is run cut short;
    the caller gets its output, each stream cut to 1024 bytes and made text, with
    the exit code, -1 when it could not be run or took too long.  A blank command
    runs nothing and is an error. *)
Theorem exec_runs_prefix {J : ExecJson} {JL : ExecJsonLaws J} sh command :
  let run := TrimSpace (takeZ maxCmdLen command) in
  let '(stdout, stderr, fin) := sh run in
  (run = [] -> Exec false sh command = None) /\
  (run <> [] ->
     handleExec false sh command EndEOF = Answered run (mkResult (truncateStr stdout maxOutputLen) (truncateStr stderr maxOutputLen)
       (run_code fin).1 (run_code fin).2) /\
     Exec false sh command = Some (mkResult (exec_text (takeZ maxOutputLen stdout)) (exec_text (takeZ maxOutputLen stderr))
       (run_code fin).1 (run_code fin).2)) /\
  (exists a b, takeZ maxCmdLen command = a ++ run ++ b) /\ Exec true sh command = None.
Proof.
  cbv zeta. destruct (sh (TrimSpace (takeZ maxCmdLen command))) as [[stdout stderr] fin] eqn:Esh.
  assert (forall s, truncateStr s maxOutputLen = takeZ maxOutputLen s) as Htr.
  { intros s. unfold truncateStr. destruct (Z.ltb_spec maxOutputLen (len s)); [done|]. unfold takeZ. by rewrite take_ge by lia. }
  unfold Exec, handleExec. rewrite read_limited_EOF by (unfold maxCmdLen; lia).
  split; [by intros ->|]. split; [|split; [|done]].
  - intros Hne. destruct (TrimSpace (takeZ maxCmdLen command)) as [|b0 cmd] eqn:Ec; [done|]. rewrite Esh.
    destruct (run_code fin) as [code err]. split; [done|]. rewrite exec_unmarshal_marshal. cbn. by rewrite !Htr.
  - destruct (TrimSpace_middle (takeZ maxCmdLen command)) as (a & b & H & _). eauto.
Qed.

(** The echo answers any message of at most 64 KiB with itself behind "Re: ",
    and a longer one with its beginning; a peer that never ends its message gets
    nothing, unless it is that long. *)
Theorem echo_answers msg e :
  Echo false msg = Some (re_prefix ++ takeZ maxEchoLen msg) /\ Echo true msg = None /\
  (len msg < maxEchoLen -> handleEcho false msg StaysOpen = Some []) /\
  (maxEchoLen <= len msg -> handleEcho false msg e = Some (re_prefix ++ takeZ maxEchoLen msg)).
Proof.
  unfold Echo, handleEcho. rewrite read_limited_EOF by (unfold maxEchoLen; lia). split; [done|]. split; [done|].
  unfold read_limited. split; intros H.
  - by replace (maxEchoLen <=? len msg) with false by lia.
  - by replace (maxEchoLen <=? len msg) with true by lia.
Qed.

(** ** Examples *)

#[global] Instance ExecResult_eq_dec : EqDecision ExecResult.
Proof. solve_decision. Defined.

#[global] Instance ExecResult_countable : Countable ExecResult.
Proof.
  refine (inj_countable' (fun r => (er_Stdout r, er_Stderr r, er_ExitCode r, er_Error r)) (fun '(a, b, c, d) => mkResult a b c d) _).
  by intros [].
Defined.

(** A codec for output that is text. *)
Definition text_codec : ExecJson := {| exec_marshal := any_marshal; exec_unmarshal := any_unmarshal; exec_text l := l |}.

Lemma text_codec_laws : ExecJsonLaws text_codec.
Proof. split. intros []. apply (any_unmarshal_marshal (mkResult _ _ _ _)). Qed.

(** A shell that prints its command. *)
Definition parrot : shell := fun cmd => (cmd, [], RunOK).

Definition padded : list byte := map byte_of_Z [32; 108; 115; 10].

Lemma exec_runs_prefix_witness :
  @Exec text_codec false parrot padded = Some (mkResult (map byte_of_Z [108; 115]) [] 0 "").
Proof.
  pose proof (@exec_runs_prefix text_codec text_codec_laws parrot padded) as H. cbv zeta in H.
  destruct H as (_ & H & _). specialize (H ltac:(by vm_compute)). destruct H as [_ H]. rewrite H. by vm_compute.
Defined.
