(* ===== verification/Trackers.v ===== *)
(** The HTTP services the node is found through: delegated routing trackers
    (src/p2put/mydiscovery.go, [IpfsHttpTrackerApi], [lookupPeerOnHTTP]), the Jami
    tracker (jamitracker.go) and the Jami DHT proxy (jamidhtproxy.go).

    A service is a function from requests to what [http.Client.Do] gives; a body is
    its bytes, [None] when reading it fails.  JSON is the class [TrackerJson]; the
    SHA-1 of a key, in hexadecimal, an argument. *)

From Stdlib Require Import Ascii.
From stdpp Require Import countable strings.
From S2P Require Import Prelude GoLib PrivateIP PeerAddr ExecEcho.
Import Base64.

Record FoundPeer := mkFound { fp_PeerID : string; fp_Addrs : list string }.

(** ** Requests and answers *)

Inductive http_method := GET | PUT | POST.

Record request := mkRequest { rq_method : http_method; rq_url : string; rq_body : list byte }.

(** [NewRequest] or [Do] fails, or there is an answer with a status. *)
Inductive http_result := BadRequest | DoFailed | Answer (status : Z) (body : option (list byte)).

Definition service : Type := request -> http_result.

Class TrackerJson := {
  (** [json.NewDecoder(resp.Body).Decode] of a list of peers under the given key. *)
  peers_decode : string -> list byte -> option (list FoundPeer);
  found_marshal : FoundPeer -> list byte;
  found_unmarshal : list byte -> option FoundPeer;
  (** The field "data" of an object, empty when there is none. *)
  data_unmarshal : list byte -> option (list byte);
  data_marshal : list byte -> list byte;
}.

(** [strings.TrimRight(s, "/")]. *)
Fixpoint trim_slashes (l : list Ascii.ascii) : list Ascii.ascii :=
  match l with
  | [] => []
  | c :: l =>
      match trim_slashes l with
      | [] => if bool_decide (c = "/"%char) then [] else [c]
      | r => c :: r
      end
  end.
Definition base_url (s : string) : string := String.string_of_list_ascii (trim_slashes (String.list_ascii_of_string s)).

(** The body [`{"data":"%s","id":0,"type":0}`]; a double quote is the character 34. *)
Definition quote : list byte := [byte_of_Z 34].
Definition jami_body_head : list byte :=
  bytes_of_string "{" ++ quote ++ bytes_of_string "data" ++ quote ++ bytes_of_string ":" ++ quote.
Definition jami_body_tail : list byte :=
  quote ++ bytes_of_string "," ++ quote ++ bytes_of_string "id" ++ quote ++ bytes_of_string ":0," ++ quote ++ bytes_of_string "type" ++ quote ++
  bytes_of_string ":0}".
Definition jami_body (dataB64 : list byte) : list byte := jami_body_head ++ dataB64 ++ jami_body_tail.

Section trackers.
Context {J : TrackerJson} {MA : Multiaddrs} (sha1 : string -> string).

(** ** Delegated routing *)

(** The loop over the peers of an answer. *)
Definition with_id (l : list FoundPeer) : list FoundPeer := filter (fun p => fp_PeerID p <> ""%string) l.

(** The three queries differ in the path and the key of the list. *)
Definition query (http : service) (url key arg : string) : option (list FoundPeer) :=
  if bool_decide (arg = ""%string) then None
  else
    match http (mkRequest GET (url +:+ arg) []) with
    | Answer _ (Some body) => with_id <$> peers_decode key body
    | _ => None
    end.

(** [None] is an error. *)
Definition FindProviders (http : service) (baseURL cid : string) : option (list FoundPeer) :=
  query http (base_url baseURL +:+ "/routing/v1/providers/") "Providers" cid.

Definition FindClosestPeers (http : service) (baseURL key : string) : option (list FoundPeer) :=
  query http (base_url baseURL +:+ "/routing/v1/dht/closest/peers/") "Peers" key.

Definition FindPeers (http : service) (baseURL peerID : string) : option (list FoundPeer) :=
  query http (base_url baseURL +:+ "/routing/v1/peers/") "Peers" peerID.

Definition tracker0 : string := "https://delegated-ipfs.dev".

(** [lookupPeerOnHTTP]: the addresses of the first entry of the peer. *)
Definition lookupPeerOnHTTP (http : service) (peerIDStr : string) : list string :=
  match http (mkRequest GET (tracker0 +:+ "/routing/v1/peers/" +:+ peerIDStr) []) with
  | Answer _ (Some body) =>
      match peers_decode "Peers" body with
      | Some peers =>
          match head (filter (fun p => fp_PeerID p = peerIDStr) peers) with
          | Some p => omap NewMultiaddr (fp_Addrs p)
          | None => []
          end
      | None => []
      end
  | _ => []
  end.

(** ** The Jami tracker *)

Definition fallbackJamiProxy : string := "http://141.94.96.2:80".

Inductive jami_error := JamiRequest | JamiDo | JamiStatus (status : Z) | JamiBody.

(** The loop over the two base URLs: an answer ends it, and so does a request that
    cannot be built; a failing [Do] moves on to the next.  [None] is no error; the
    second result is the requests made. *)
Fixpoint try_urls {A} (http : service) (req : string -> request) (answer : Z -> option (list byte) -> jami_error + A)
    (lastErr : jami_error + A) (urls : list string) : (jami_error + A) * list request :=
  match urls with
  | [] => (lastErr, [])
  | base :: urls =>
      let rq := req base in
      match http rq with
      | BadRequest => (inl JamiRequest, [rq])
      | DoFailed => let '(r, rqs) := try_urls http req answer (inl JamiDo) urls in (r, rq :: rqs)
      | Answer status body => (answer status body, [rq])
      end
  end.

Definition jami_urls (baseURL : string) : list string := [base_url baseURL; fallbackJamiProxy].

Definition ok_status (status : Z) (body : option (list byte)) : jami_error + () :=
  if 300 <=? status then inl (JamiStatus status) else inr ().

Definition JamiProvide (http : service) (baseURL key : string) (pid : string) (addrs : list string) : (jami_error + ()) * list request :=
  let hash := sha1 key in
  let dataB64 := EncodeToString (found_marshal (mkFound (peer_String pid) addrs)) in
  try_urls http (fun base => mkRequest POST (base +:+ "/key/" +:+ hash) (jami_body dataB64)) ok_status (inr ()) (jami_urls baseURL).

Fixpoint split_lines (l : list byte) : list (list byte) :=
  match l with
  | [] => [[]]
  | b :: l =>
      if Z_of_byte b =? 10 then [] :: split_lines l
      else match split_lines l with x :: xs => (b :: x) :: xs | [] => [[b]] end
  end.

(** One line of the answer. *)
Definition found_line (line : list byte) : option FoundPeer :=
  if bool_decide (line = []) then None
  else
    data ← data_unmarshal line;
    if bool_decide (data = []) then None
    else
      raw ← DecodeString data;
      fp ← found_unmarshal raw;
      if bool_decide (fp_PeerID fp = ""%string) then None else Some fp.

Definition JamiFindProviders (http : service) (baseURL key : string) : (jami_error + list FoundPeer) * list request :=
  let hash := sha1 key in
  try_urls http (fun base => mkRequest GET (base +:+ "/key/" +:+ hash) [])
    (fun _ body => match body with
                   | None => inl JamiBody
                   | Some b => inr (omap found_line (split_lines (TrimSpace b)))
                   end) (inr []) (jami_urls baseURL).

Definition JamiPing (http : service) (baseURL : string) : (jami_error + ()) * list request :=
  try_urls http (fun base => mkRequest GET (base +:+ "/node/info") []) ok_status (inr ()) (jami_urls baseURL).

(** [Listen]: the calls of the callback for the lines the scanner gives, and the
    scanner's error at the end. *)
Definition JamiListen (http : service) (baseURL topic : string) (lines : list (list byte)) (broken : bool)
    : (jami_error + list FoundPeer * bool) * list request :=
  let hash := sha1 topic in
  try_urls http (fun base => mkRequest GET (base +:+ "/key/" +:+ hash +:+ "/listen") [])
    (fun _ _ => inr (omap (fun l => found_line (TrimSpace l)) lines, broken)) (inr ([], false)) (jami_urls baseURL).

(** ** The DHT proxy *)

Definition DHTPut (http : service) (proxyURL key : string) (value : list byte) : bool :=
  match http (mkRequest POST (proxyURL +:+ "/key/" +:+ sha1 key) (data_marshal (EncodeToString value))) with
  | Answer status _ => bool_decide (status = 200)
  | _ => false
  end.

(** [None] is an error.  A body that cannot be read to its end is used as far as it was
    read ([partial]). *)
Definition DHTGet (http : service) (partial : list byte) (proxyURL key : string) : option (list byte) :=
  match http (mkRequest GET (proxyURL +:+ "/key/" +:+ sha1 key) []) with
  | Answer status body =>
      if negb (bool_decide (status = 200)) then None
      else
        match list.last (omap data_unmarshal (split_lines (TrimSpace (default partial body)))) with
        | None => None
        | Some data => DecodeString data
        end
  | _ => None
  end.
End trackers.

(** ** Lines *)

Definition line_break : byte := byte_of_Z 10.

(** What begins with a byte that is no white space and begins none. *)
Definition plain_head (l : list byte) : Prop := exists b r, l = b :: r /\ 32 < Z_of_byte b < 128.

(** A line that survives [TrimSpace] and [Split]. *)
Definition line_ok (l : list byte) : Prop :=
  Forall (fun b => Z_of_byte b <> 10) l /\ plain_head l /\ plain_head (reverse l).

(** A body of lines, each ended by a line break. *)
Definition body_of (lines : list (list byte)) : list byte := concat ((fun l => l ++ [line_break]) <$> lines).

Lemma strip_any_plain ps l : ps = space_encodings ++ wide_spaces \/ ps = reverse <$> (space_encodings ++ wide_spaces) ->
  plain_head l -> strip_any ps l = None.
Proof.
  intros Hps (b & r & -> & Hb).
  assert (Forall (fun p => ~ 32 < Z_of_byte (nth 0 p Byte.x00) < 128 /\ p <> []) ps) as H.
  { destruct Hps as [-> | ->]; apply (bool_decide_unpack _); by vm_compute. }
  clear Hps. induction H as [|p ps [Hp Hne] _ IH]; [done|]. cbn. destruct p as [|a p]; [done|]. cbn in *.
  rewrite decide_False by (intros ->; lia). exact IH.
Qed.

Lemma trim_head_stop fuel ps l : strip_any ps l = None -> trim_head fuel ps l = l.
Proof. intros H. destruct fuel; cbn; [done|]. by rewrite H. Qed.

(** One line break at the end is taken off. *)
Lemma TrimSpace_line l : plain_head l -> plain_head (reverse l) -> TrimSpace (l ++ [line_break]) = l.
Proof.
  intros Hl Hr. unfold TrimSpace. cbv zeta. rewrite (trim_head_stop _ (space_encodings ++ wide_spaces)).
  2: { apply strip_any_plain; [by left|]. destruct Hl as (b & r & -> & Hb). by exists b, (r ++ [line_break]). }
  rewrite reverse_app. replace (length (l ++ [line_break])) with (S (length l)) by (rewrite length_app; cbn; lia).
  change (reverse [line_break] ++ reverse l) with (line_break :: reverse l). cbn [trim_head].
  assert (strip_any (reverse <$> (space_encodings ++ wide_spaces)) (line_break :: reverse l) = Some (reverse l)) as ->.
  { generalize (reverse l). intros r. by vm_compute. }
  by rewrite trim_head_stop, reverse_involutive by (apply strip_any_plain; [by right|done]).
Qed.

Lemma split_lines_app l r : Forall (fun b => Z_of_byte b <> 10) l -> split_lines (l ++ line_break :: r) = l :: split_lines r.
Proof.
  induction 1 as [|b l Hb Hl IH]; cbn [app split_lines]; [done|]. replace (Z_of_byte b =? 10) with false by lia. by rewrite IH.
Qed.

Lemma split_lines_one l : Forall (fun b => Z_of_byte b <> 10) l -> split_lines l = [l].
Proof. induction 1 as [|b l Hb Hl IH]; [done|]. cbn. replace (Z_of_byte b =? 10) with false by lia. by rewrite IH. Qed.

Lemma body_snoc lines l : body_of (lines ++ [l]) = (body_of lines ++ l) ++ [line_break].
Proof. unfold body_of. rewrite fmap_app, concat_app. cbn. by rewrite app_nil_r, app_assoc. Qed.

Lemma split_body lines l : Forall line_ok lines -> line_ok l -> split_lines (body_of lines ++ l) = lines ++ [l].
Proof.
  intros Hls [Hl _]. induction Hls as [|x lines [Hx _] Hls IH]; [by apply split_lines_one|].
  change (body_of (x :: lines)) with ((x ++ [line_break]) ++ body_of lines). rewrite <-!app_assoc. cbn [app].
  rewrite split_lines_app by done. by rewrite IH.
Qed.

(** What [TrimSpace] and [Split] make of such a body: its lines. *)
Lemma lines_of_body lines l : Forall line_ok lines -> line_ok l ->
  split_lines (TrimSpace (body_of (lines ++ [l]))) = lines ++ [l].
Proof.
  intros Hls Hl. rewrite body_snoc, TrimSpace_line; [by apply split_body| |].
  - destruct Hls as [|x lines (_ & (b & r & -> & Hb) & _) _]; [apply Hl|]. by eexists _, _.
  - rewrite reverse_app. destruct Hl as (_ & _ & (b & r & -> & Hb)). by eexists _, _.
Qed.

Lemma no_break_lines l : Forall (fun b => is_break b = false) l -> Forall (fun b => Z_of_byte b <> 10) l.
Proof. intros H. eapply Forall_impl; [exact H|]. cbn. unfold is_break. intros b Hb. lia. Qed.

Lemma jami_body_ok d : Forall (fun b => is_break b = false) d -> line_ok (jami_body d).
Proof.
  intros Hd. split; [|split].
  - unfold jami_body. repeat (apply Forall_app; split); try (by apply no_break_lines); apply (bool_decide_unpack _); by vm_compute.
  - eexists _, _. split; [reflexivity|]. by vm_compute.
  - unfold jami_body. rewrite !app_assoc, reverse_app. eexists _, _. split; [reflexivity|]. by vm_compute.
Qed.

(** ** What the services do for the node *)

(** What the code relies on of encoding/json: objects decode to what was encoded, a
    posted body has its data, and an encoded object is a line. *)
Class TrackerJsonLaws (J : TrackerJson) := {
  found_unmarshal_marshal p : found_unmarshal (found_marshal p) = Some p;
  found_marshal_nonempty p : found_marshal p <> [];
  data_unmarshal_body d : data_unmarshal (jami_body d) = Some d;
  data_unmarshal_marshal d : data_unmarshal (data_marshal d) = Some d;
  data_marshal_line d : Forall (fun b => is_break b = false) d -> line_ok (data_marshal d);
}.

Section laws.
Context {J : TrackerJson} {JL : TrackerJsonLaws J} {MA : Multiaddrs} (sha1 : string -> string).

Lemma EncodeToString_nonempty l : l <> [] -> EncodeToString l <> [].
Proof. by destruct l as [|a [|b [|c l]]]. Qed.

Lemma found_line_body p : fp_PeerID p <> ""%string -> found_line (jami_body (EncodeToString (found_marshal p))) = Some p.
Proof.
  intros Hp. unfold found_line. rewrite bool_decide_eq_false_2 by done. rewrite data_unmarshal_body. cbn [mbind option_bind].
  rewrite bool_decide_eq_false_2 by (apply EncodeToString_nonempty, found_marshal_nonempty).
  rewrite base64_roundtrip. cbn [mbind option_bind]. rewrite found_unmarshal_marshal. cbn. by rewrite bool_decide_eq_false_2.
Qed.

(** Peers that provided a key are found.  Whatever peers posted themselves with
    [Provide], in whatever number: when the tracker, or the fallback when it cannot
    be reached, answers with the posted bodies one per line, [FindProviders] gives
    exactly these peers in that order; an empty answer gives none. *)
Theorem jami_roundtrip http baseURL key (posted : list FoundPeer) status url :
  Forall (fun p => fp_PeerID p <> ""%string) posted ->
  let body := body_of ((fun p => jami_body (EncodeToString (found_marshal p))) <$> posted) in
  let rq base := mkRequest GET (base +:+ "/key/" +:+ sha1 key) [] in
  (url = base_url baseURL \/ url = fallbackJamiProxy /\ http (rq (base_url baseURL)) = DoFailed) ->
  http (rq url) = Answer status (Some body) ->
  (JamiFindProviders sha1 http baseURL key).1 = inr posted.
Proof.
  intros Hposted body rq Hurl Hans.
  assert (omap found_line (split_lines (TrimSpace body)) = posted) as Hlines.
  { subst body. clear Hans Hurl rq. induction posted as [|p posted _] using rev_ind; [done|].
    apply Forall_app in Hposted as [Hps [Hp _]%Forall_cons]. rewrite fmap_app. cbn [fmap list_fmap].
    assert (forall p, line_ok (jami_body (EncodeToString (found_marshal p)))) as Hok by (intros q; apply jami_body_ok, encode_no_break).
    rewrite lines_of_body by (try apply Hok; apply Forall_fmap, Forall_forall; intros; apply Hok).
    rewrite omap_app. cbn [omap list_omap]. rewrite found_line_body by done. f_equal.
    clear -Hps JL. induction Hps as [|q posted Hq Hps IH]; [done|]. cbn [fmap list_fmap omap list_omap]. by rewrite found_line_body, IH. }
  unfold JamiFindProviders, jami_urls. cbn [try_urls].
  change (mkRequest GET (base_url baseURL +:+ "/key/" +:+ sha1 key) []) with (rq (base_url baseURL)).
  change (mkRequest GET (fallbackJamiProxy +:+ "/key/" +:+ sha1 key) []) with (rq fallbackJamiProxy).
  destruct Hurl as [->|[-> Hfail]].
  - rewrite Hans. cbn. by rewrite Hlines.
  - rewrite Hfail, Hans. cbn. by rewrite Hlines.
Qed.

(** When a peer is announced.  [Provide] posts to the tracker first and to the fallback
    only when the tracker cannot be reached; it succeeds exactly when one of the
    two it asked answers with a status below 300. *)
Theorem jami_failover http baseURL key pid addrs :
  let '(r, rqs) := JamiProvide sha1 http baseURL key pid addrs in
  exists first second, rqs = first :: second /\
    rq_url first = base_url baseURL +:+ "/key/" +:+ sha1 key /\
    (second <> [] <-> http first = DoFailed) /\
    (r = inr () <-> exists rq status body, rq ∈ rqs /\ http rq = Answer status body /\ status < 300).
Proof.
  set (rq := fun base : string => mkRequest POST (base +:+ "/key/" +:+ sha1 key)
    (jami_body (EncodeToString (found_marshal (mkFound (peer_String pid) addrs))))).
  change (JamiProvide sha1 http baseURL key pid addrs) with (try_urls http rq ok_status (inr ()) (jami_urls baseURL)).
  unfold jami_urls. cbn [try_urls].
  assert (forall status body, ok_status status body = inr () <-> status < 300) as Hok.
  { intros status body. unfold ok_status. destruct (Z.leb_spec 300 status); split; try done; lia. }
  destruct (http (rq (base_url baseURL))) as [| |status body] eqn:E1.
  - exists (rq (base_url baseURL)), []. split; [done|]. split; [done|]. rewrite E1. split; [done|]. split; [done|].
    intros (q & st & b & ->%list_elem_of_singleton & Hq & _). congruence.
  - destruct (http (rq fallbackJamiProxy)) as [| |status body] eqn:E2;
      (eexists _, [rq fallbackJamiProxy]; split; [done|]; split; [done|]; rewrite E1; split; [done|]).
    1-2: split; [done|]; intros (q & st & b & [->| ->%list_elem_of_singleton]%elem_of_cons & Hq & _); congruence.
    rewrite Hok. split.
    + intros Hs. exists (rq fallbackJamiProxy), status, body. split; [set_solver|done].
    + intros (q & st & b & [->| ->%list_elem_of_singleton]%elem_of_cons & Hq & Hs); [congruence|]. rewrite E2 in Hq. by simplify_eq.
  - exists (rq (base_url baseURL)), []. split; [done|]. split; [done|]. rewrite E1. split; [done|]. rewrite Hok. split.
    + intros Hs. exists (rq (base_url baseURL)), status, body. split; [set_solver|done].
    + intros (q & st & b & ->%list_elem_of_singleton & Hq & Hs). rewrite E1 in Hq. by simplify_eq.
Qed.

Lemma dht_value_get http partial proxyURL key values value :
  http (mkRequest GET (proxyURL +:+ "/key/" +:+ sha1 key) []) =
    Answer 200 (Some (body_of ((fun v => data_marshal (EncodeToString v)) <$> (values ++ [value])))) ->
  DHTGet sha1 http partial proxyURL key = Some value.
Proof.
  intros Hans. unfold DHTGet. rewrite Hans. cbn [negb bool_decide]. rewrite bool_decide_eq_true_2 by done. cbn [negb default from_option].
  assert (forall v, line_ok (data_marshal (EncodeToString v))) as Hok by (intros v; apply data_marshal_line, encode_no_break).
  rewrite fmap_app. cbn [fmap list_fmap]. unfold id. rewrite lines_of_body by (try apply Hok; apply Forall_fmap, Forall_forall; intros; apply Hok).
  rewrite omap_app. cbn [omap list_omap]. rewrite data_unmarshal_marshal, last_snoc. apply base64_roundtrip.
Qed.

(** A value put into the DHT proxy is the one [Get] gives, as long as it is the last
    the proxy lists for the key. *)
Theorem dht_value_roundtrip http partial proxyURL key values value :
  http (mkRequest GET (proxyURL +:+ "/key/" +:+ sha1 key) []) =
    Answer 200 (Some (body_of ((fun v => data_marshal (EncodeToString v)) <$> (values ++ [value])))) ->
  DHTGet sha1 http partial proxyURL key = Some value.
Proof. apply dht_value_get. Qed.

(** A failed query looks like an empty one.  The queries of the routing trackers go
    by the body alone: whatever the status, also one of an error, its peers with an
    identity are the result. *)
Theorem query_ignores_status http baseURL cid status body : cid <> ""%string ->
  http (mkRequest GET ((base_url baseURL +:+ "/routing/v1/providers/") +:+ cid) []) = Answer status (Some body) ->
  FindProviders http baseURL cid = with_id <$> peers_decode "Providers" body.
Proof.
  intros Hc Hans. unfold FindProviders, query. rewrite bool_decide_eq_false_2 by done.
  by rewrite Hans.
Qed.
End laws.

(** ** Examples *)

#[global] Instance FoundPeer_eq_dec : EqDecision FoundPeer.
Proof. solve_decision. Defined.

#[global] Instance FoundPeer_countable : Countable FoundPeer.
Proof. refine (inj_countable' (fun p => (fp_PeerID p, fp_Addrs p)) (fun '(a, b) => mkFound a b) _). by intros []. Defined.

(** A toy codec: the data of an object is what is left when the nine characters before
    it and the eighteen after it are taken off; values are those of [any_marshal]
    behind a digit. *)
Definition cut_data (b : list byte) : option (list byte) :=
  if decide (length b < 27)%nat then None else Some (take (length b - 27) (drop 9 b)).

Definition toy_tracker_json : TrackerJson := {|
  peers_decode _ b := any_unmarshal b;
  found_marshal p := Byte.x30 :: any_marshal p;
  found_unmarshal b := match b with _ :: b => any_unmarshal b | [] => None end;
  data_unmarshal := cut_data;
  data_marshal := jami_body;
|}.

Lemma cut_data_body d : cut_data (jami_body d) = Some d.
Proof.
  unfold cut_data, jami_body. rewrite !length_app.
  replace (length jami_body_head) with 9%nat by done. replace (length jami_body_tail) with 18%nat by done.
  rewrite decide_False by lia. f_equal. replace (9 + (length d + 18) - 27)%nat with (length d) by lia.
  rewrite drop_app_length' by done. by rewrite take_app_length.
Qed.

Lemma toy_tracker_laws : TrackerJsonLaws toy_tracker_json.
Proof.
  split; cbn.
  - intros p. apply any_unmarshal_marshal.
  - done.
  - apply cut_data_body.
  - apply cut_data_body.
  - apply jami_body_ok.
Qed.

Definition two_posted : list FoundPeer := [mkFound "p" ["/ip4/1.2.3.4/tcp/1"%string]; mkFound "q" []].

(** The tracker cannot be reached, the fallback has both. *)
Definition half_down : service := fun rq =>
  if bool_decide (rq_url rq = "http://141.94.96.2:80/key/h"%string)
  then Answer 200 (Some (body_of ((fun p => jami_body (EncodeToString (@found_marshal toy_tracker_json p))) <$> two_posted)))
  else DoFailed.

Lemma jami_roundtrip_witness :
  (@JamiFindProviders toy_tracker_json (fun _ => "h"%string) half_down "http://x/" "key").1 = inr two_posted.
Proof.
  apply (@jami_roundtrip toy_tracker_json toy_tracker_laws (fun _ => "h"%string) half_down "http://x/" "key" two_posted 200 fallbackJamiProxy).
  - by repeat constructor.
  - right. split; reflexivity.
  - reflexivity.
Defined.

Lemma dht_value_roundtrip_witness :
  @DHTGet toy_tracker_json (fun _ => "h"%string)
    (fun _ => Answer 200 (Some (body_of ((fun v => jami_body (EncodeToString v)) <$> ([[Byte.x41]] ++ [[Byte.x42; Byte.x43]]))))) [] "u" "k"
  = Some [Byte.x42; Byte.x43].
Proof.
  by apply (@dht_value_roundtrip toy_tracker_json toy_tracker_laws (fun _ => "h"%string) _ [] "u" "k" [[Byte.x41]]).
Defined.

Lemma query_ignores_status_witness :
  @FindProviders toy_tracker_json (fun _ => Answer 500 (Some (any_marshal two_posted))) "http://x" "c" = Some two_posted.
Proof.
  rewrite (@query_ignores_status toy_tracker_json (fun _ => Answer 500 (Some (any_marshal two_posted))) "http://x" "c" 500
    (any_marshal two_posted)); [|done|done].
  cbn. by rewrite any_unmarshal_marshal.
Defined.
