(* ===== verification/Discovery.v ===== *)
(** Finding and dialling peers (src/p2put/mydiscovery.go, [findAndConnect] and
    [myDiscoveryV3] of libp2p_bs_dht.go): which of the peers a tracker, the DHT or the
    database offers are dialled, and what is remembered of them.

    Other goroutines connect and disconnect meanwhile, so what the host says and how a
    dial or a ping ends is an argument of every turn of a loop. *)

From stdpp Require Import gmap strings.
From S2P Require Import Prelude GoLib StablePeers PrivateIP PeerAddr PeerDB ExecEcho Trackers.

Record AddrInfo := mkAddrInfo { ai_ID : string; ai_Addrs : list string }.

(** What the host says at a turn: the connectedness of the peer, the number of
    connections; and whether the dial succeeds. *)
Record dial_turn := mkTurn { dt_status : connectedness; dt_conns : Z; dt_ok : bool }.

Definition is_connected (c : connectedness) : bool := match c with Connected => true | _ => false end.
Definition not_connected (c : connectedness) : bool := match c with NotConnected => true | _ => false end.

(** Dials stop above this number of connections. *)
Definition maxDialConns : Z := 20.

Section discovery.
Context {MA : Multiaddrs} {Ord : MapOrder}.
Context (bootstrap : string -> bool) (self : string).

(** ** From the trackers *)

(** A peer of [discoveryV4]: what is dialled. *)
Definition v4_turn (t : dial_turn) (p : FoundPeer) : option AddrInfo :=
  match peer_Decode (fp_PeerID p) with
  | None => None
  | Some pid =>
      if bool_decide (pid = self) then None
      else if is_connected (dt_status t) then None
      else match omap NewMultiaddr (fp_Addrs p) with
           | [] => None
           | maddrs => Some (mkAddrInfo pid maddrs)
           end
  end.

Definition discoveryV4_dials (turns : nat -> dial_turn) (peers : list FoundPeer) : list AddrInfo :=
  omap (fun e : nat * FoundPeer => v4_turn (turns e.1) e.2) (imap pair peers).

(** A peer of [DiscoveryV6]: every third one is left out, and the loop ends when there
    are connections enough. *)
Inductive v6_outcome := V6Skip | V6Stop | V6Dial (ai : AddrInfo).

Definition v6_turn (n : nat) (t : dial_turn) (p : FoundPeer) : v6_outcome :=
  if bool_decide (n mod 3 = 1)%nat then V6Skip
  else
    match peer_Decode (fp_PeerID p) with
    | None => V6Skip
    | Some pid =>
        if bool_decide (pid = self) then V6Skip
        else if is_connected (dt_status t) then V6Skip
        else if maxDialConns <? dt_conns t then V6Stop
        else match omap NewMultiaddr (fp_Addrs p) with
             | [] => V6Skip
             | maddrs => if IsGoodPeerAddr bootstrap pid maddrs then V6Dial (mkAddrInfo pid maddrs) else V6Skip
             end
    end.

(** The dials with their results; the addresses are pushed to those that succeed. *)
Fixpoint v6_loop (n : nat) (turns : nat -> dial_turn) (peers : list FoundPeer) : list (AddrInfo * bool) :=
  match peers with
  | [] => []
  | p :: peers =>
      match v6_turn n (turns n) p with
      | V6Skip => v6_loop (S n) turns peers
      | V6Stop => []
      | V6Dial ai => (ai, dt_ok (turns n)) :: v6_loop (S n) turns peers
      end
  end.

(** A round of [DiscoveryV6]; [cid] is the random key, empty when there is none. *)
Definition DiscoveryV6_round {J : TrackerJson} (http : service) (cid : string) (turns : nat -> dial_turn) : list (AddrInfo * bool) :=
  if bool_decide (cid = ""%string) then []
  else match FindClosestPeers http tracker0 cid with
       | None => []
       | Some peers => v6_loop 0 turns peers
       end.

(** ** From the database *)

(** What a turn of [reconnectFromPeerDB] sees besides: whether the ping succeeds, the
    clock then, and whether the context ends in the pause after. *)
Record reconnect_turn := mkReturn { rt_dial : dial_turn; rt_ping : bool; rt_now : Z; rt_done : bool }.

Fixpoint reconnect_loop (turns : list reconnect_turn) (records : list PeerRecord) (db : PeerDB) {struct records} : list AddrInfo * PeerDB :=
  match records, turns with
  | r :: records, t :: turns =>
      if negb (not_connected (dt_status (rt_dial t))) then reconnect_loop turns records db
      else if maxDialConns <? dt_conns (rt_dial t) then ([], db)
      else if bool_decide (pr_Addrs r = []) then reconnect_loop turns records db
      else
        let ai := mkAddrInfo (pr_PeerID r) (pr_Addrs r) in
        if negb (dt_ok (rt_dial t)) then let '(dials, db) := reconnect_loop turns records db in (ai :: dials, db)
        else
          let db := if rt_ping t then Update (pr_PeerID r) (pr_Addrs r) (rt_now t) db else db in
          if rt_done t then ([ai], db)
          else let '(dials, db) := reconnect_loop turns records db in (ai :: dials, db)
  | _, _ => ([], db)
  end.

Definition reconnectFromPeerDB (ready : bool) (now : Z) (turns : list reconnect_turn) (db : PeerDB) : list AddrInfo * PeerDB :=
  if negb ready then ([], db) else reconnect_loop turns (List now db) db.

(** ** From the DHT *)

(** A peer of the channel in [findAndConnect]: the addresses of all its entries are
    kept, the last ones first. *)
Definition found_step (foundm : gmap string AddrInfo) (p : AddrInfo) : gmap string AddrInfo :=
  if bool_decide (ai_ID p = self \/ ai_ID p = ""%string) then foundm
  else
    let old := match foundm !! peer_String (ai_ID p) with Some op => ai_Addrs op | None => [] end in
    <[peer_String (ai_ID p) := mkAddrInfo (ai_ID p) (ai_Addrs p ++ old)]> foundm.

(** [channel] is [None] when there is no discovery or the search fails. *)
Definition findAndConnect (channel : option (list AddrInfo)) : list AddrInfo :=
  match channel with
  | None => []
  | Some peers => (map_range (foldl found_step ∅ peers)).*2
  end.

(** A peer of [myDiscoveryV3]: what is known of it, and the valid ones counted.  The
    addresses of the peerstore are given to the loop's copy only. *)
Definition known_step (st : gmap string AddrInfo * Z) (p : AddrInfo) : gmap string AddrInfo * Z :=
  let '(known, validcnt) := st in
  match ai_Addrs p with
  | [] => match known !! peer_String (ai_ID p) with
          | None => (<[peer_String (ai_ID p) := p]> known, validcnt)
          | Some _ => (known, validcnt)
          end
  | _ => (<[peer_String (ai_ID p) := p]> known, validcnt + 1)
  end.

Definition known_round (results : list (list AddrInfo)) (known : gmap string AddrInfo) : gmap string AddrInfo * Z :=
  foldl known_step (known, 0) (concat results).

(** ** Who is dialled *)

(** The turns of the [DiscoveryV6] loop before a position end no loop. *)
Definition not_stopped (turns : nat -> dial_turn) (peers : list FoundPeer) (from i : nat) : Prop :=
  forall j q, (j <= i)%nat -> peers !! j = Some q -> v6_turn (from + j) (turns (from + j)%nat) q <> V6Stop.

Lemma v6_loop_spec n turns peers ai ok : (ai, ok) ∈ v6_loop n turns peers <->
  exists i p, peers !! i = Some p /\ v6_turn (n + i) (turns (n + i)%nat) p = V6Dial ai /\ ok = dt_ok (turns (n + i)%nat) /\
    not_stopped turns peers n i.
Proof.
  revert n. induction peers as [|p peers IH]; intros n; cbn [v6_loop].
  { split; [intros H; by apply not_elem_of_nil in H|]. intros (i & p & Hi & _). by rewrite lookup_nil in Hi. }
  assert (v6_turn n (turns n) p <> V6Stop ->
    ((exists i q, (p :: peers) !! i = Some q /\ v6_turn (n + i) (turns (n + i)%nat) q = V6Dial ai /\ ok = dt_ok (turns (n + i)%nat) /\
       not_stopped turns (p :: peers) n i) <->
     (v6_turn n (turns n) p = V6Dial ai /\ ok = dt_ok (turns n)) \/ (ai, ok) ∈ v6_loop (S n) turns peers)) as Hsplit.
  { intros Hp. rewrite IH. split.
    - intros ([|i] & q & Hi & Hd & Hok & Hs); cbn in Hi.
      + left. injection Hi as <-. by rewrite Nat.add_0_r in Hd, Hok.
      + right. exists i, q. rewrite Nat.add_succ_comm. split_and!; try done. intros j r Hj Hr.
        specialize (Hs (S j) r ltac:(lia) Hr). by rewrite Nat.add_succ_comm.
    - intros [[Hd Hok]|(i & q & Hi & Hd & Hok & Hs)].
      + exists O, p. rewrite !Nat.add_0_r. split_and!; try done. intros [|j] r Hj Hr; [|lia]. injection Hr as <-. by rewrite Nat.add_0_r.
      + exists (S i), q. rewrite <-!Nat.add_succ_comm. split_and!; try done. intros [|j] r Hj Hr.
        * injection Hr as <-. by rewrite Nat.add_0_r.
        * rewrite <-Nat.add_succ_comm. apply Hs; [lia|done]. }
  destruct (v6_turn n (turns n) p) as [| |ai'] eqn:E.
  - rewrite Hsplit by done. naive_solver.
  - split; [intros H; by apply not_elem_of_nil in H|]. intros (i & q & _ & _ & _ & Hs). exfalso.
    apply (Hs O p); [lia|done|]. by rewrite Nat.add_0_r.
  - rewrite Hsplit, elem_of_cons by done. naive_solver.
Qed.

(** Whom [DiscoveryV6] dials.  A dial is to a peer of the answer, at a position that is
    not one of those left out, that decodes to another identity than the node's,
    is not connected, and has a public direct address on one of the two ports,
    with all its addresses that parse, while there are at most 20 connections. *)
Theorem v6_dials_sound turns peers ai ok : (ai, ok) ∈ v6_loop 0 turns peers ->
  exists i p, peers !! i = Some p /\ (i mod 3 <> 1)%nat /\ peer_Decode (fp_PeerID p) = Some (ai_ID ai) /\ ai_ID ai <> self /\
    dt_status (turns i) <> Connected /\ dt_conns (turns i) <= maxDialConns /\
    ai_Addrs ai = omap NewMultiaddr (fp_Addrs p) /\ bootstrap (ai_ID ai) = false /\
    exists a, a ∈ ai_Addrs ai /\ good_addr a = true.
Proof.
  intros (i & p & Hi & Hd & _ & _)%v6_loop_spec. exists i, p. split; [done|]. rewrite Nat.add_0_l in Hd. unfold v6_turn in Hd.
  case_bool_decide as Hmod; [done|]. destruct (peer_Decode (fp_PeerID p)) as [pid|]; [|done].
  case_bool_decide as Hself; [done|]. destruct (is_connected _) eqn:Ec; [done|].
  destruct (Z.ltb_spec maxDialConns (dt_conns (turns i))); [done|].
  destruct (omap NewMultiaddr (fp_Addrs p)) as [|m ms] eqn:Em; [done|]. destruct (IsGoodPeerAddr _ _ _) eqn:Eg; [|done].
  injection Hd as <-. cbn. split_and!; try done.
  - intros E. by rewrite E in Ec.
  - unfold IsGoodPeerAddr in Eg. by destruct (bootstrap pid).
  - unfold IsGoodPeerAddr in Eg. destruct (bootstrap pid); [done|]. apply existsb_exists in Eg as (a & Ha & Hg).
    exists a. split; [by apply list_elem_of_In|done].
Qed.

Lemma Update_lookup r now db q : db_peers (Update (pr_PeerID r) (pr_Addrs r) now db) !! q = db_peers db !! q \/
  q = pr_PeerID r /\ db_peers (Update (pr_PeerID r) (pr_Addrs r) now db) !! q = Some (mkRecord (pr_PeerID r) (pr_Addrs r) now).
Proof.
  unfold Update. case_match; [by left|]. cbn. destruct (decide (q = pr_PeerID r)) as [->|Hne].
  - right. split; [done|]. apply lookup_insert_eq.
  - left. by rewrite lookup_insert_ne.
Qed.

(** A turn at which the database is told that a peer was seen. *)
Definition seen_at_turn (records : list PeerRecord) (turns : list reconnect_turn) (dials : list AddrInfo) (q : string) (r : PeerRecord) : Prop :=
  exists r0 t, r0 ∈ records /\ t ∈ turns /\ pr_PeerID r0 = q /\ mkAddrInfo (pr_PeerID r0) (pr_Addrs r0) ∈ dials /\
    dt_status (rt_dial t) = NotConnected /\ dt_conns (rt_dial t) <= maxDialConns /\ dt_ok (rt_dial t) = true /\ rt_ping t = true /\
    r = mkRecord q (pr_Addrs r0) (rt_now t).

Lemma seen_weaken records turns dials r t ds q x : seen_at_turn records turns dials q x ->
  (forall d, d ∈ dials -> d ∈ ds) -> seen_at_turn (r :: records) (t :: turns) ds q x.
Proof.
  intros (r0 & t0 & H1 & H2 & H3 & H4 & H) Hd. exists r0, t0. split; [by right|]. split; [by right|]. split; [done|]. split; [auto|done].
Qed.

Lemma reconnect_loop_spec turns records db : let '(dials, db') := reconnect_loop turns records db in
  (forall ai, ai ∈ dials -> exists r, r ∈ records /\ ai = mkAddrInfo (pr_PeerID r) (pr_Addrs r) /\ pr_Addrs r <> []) /\
  (forall q, db_peers db' !! q = db_peers db !! q \/
     exists r, db_peers db' !! q = Some r /\ seen_at_turn records turns dials q r).
Proof.
  revert turns db. induction records as [|r records IH]; intros turns db; [cbn; split; [set_solver|by left]|].
  destruct turns as [|t turns]; [cbn; split; [set_solver|by left]|].
  assert (forall db ds, let '(dials, db') := reconnect_loop turns records db in
    (forall ai, ai ∈ dials -> exists r', r' ∈ r :: records /\ ai = mkAddrInfo (pr_PeerID r') (pr_Addrs r') /\ pr_Addrs r' <> []) /\
    (forall q, db_peers db' !! q = db_peers db !! q \/
       exists x, db_peers db' !! q = Some x /\ seen_at_turn (r :: records) (t :: turns) (ds ++ dials) q x)) as Hrest.
  { intros db1 ds. specialize (IH turns db1). destruct (reconnect_loop turns records db1) as [dials db']. destruct IH as [H1 H2]. split.
    - intros ai (r' & ? & ?)%H1. exists r'. split; [by right|done].
    - intros q. destruct (H2 q) as [?|(x & Hx & Hs)]; [by left|]. right. exists x. split; [done|].
      eapply seen_weaken; [exact Hs|]. set_solver. }
  cbn [reconnect_loop]. destruct (not_connected (dt_status (rt_dial t))) eqn:Es; cbn [negb]; [|apply (Hrest db [])].
  destruct (Z.ltb_spec maxDialConns (dt_conns (rt_dial t))); [split; [set_solver|by left]|].
  case_bool_decide as Ha; [apply (Hrest db [])|]. set (ai := mkAddrInfo _ _).
  assert (exists r', r' ∈ r :: records /\ ai = mkAddrInfo (pr_PeerID r') (pr_Addrs r') /\ pr_Addrs r' <> []) as Hai by (exists r; split; [by left|done]).
  destruct (dt_ok (rt_dial t)) eqn:Eok; cbn [negb].
  - set (db1 := if rt_ping t then _ else db).
    assert (forall q ds, ai ∈ ds -> db_peers db1 !! q = db_peers db !! q \/
      exists x, db_peers db1 !! q = Some x /\ seen_at_turn (r :: records) (t :: turns) ds q x) as H1.
    { intros q ds Hd. unfold db1. destruct (rt_ping t) eqn:Ep; [|by left].
      destruct (Update_lookup r (rt_now t) db q) as [?|[-> Hq]]; [by left|]. right. eexists. split; [exact Hq|].
      exists r, t. split_and!; try done; [by left|by left|]. by destruct (dt_status (rt_dial t)). }
    destruct (rt_done t).
    + split; [intros ai' ->%list_elem_of_singleton; done|]. intros q. apply H1. by left.
    + specialize (Hrest db1 [ai]). destruct (reconnect_loop turns records db1) as [dials db']. destruct Hrest as [Hd Hq]. split.
      * intros ai' [->|?]%elem_of_cons; auto.
      * intros q. destruct (Hq q) as [E|?]; [|by right]. rewrite E. apply H1. by left.
  - specialize (Hrest db [ai]). destruct (reconnect_loop turns records db) as [dials db']. destruct Hrest as [Hd Hq]. split.
    + intros ai' [->|?]%elem_of_cons; auto.
    + done.
Qed.

(** Reconnecting from the database.  Only peers the database shows are dialled, with
    their addresses; afterwards a record is as it was, or it is that of a peer that
    was not connected, was dialled with at most 20 connections open, and answered
    the ping, at that time. *)
Theorem reconnect_sound {OL : MapOrderLaws Ord} ready now turns db : let '(dials, db') := reconnectFromPeerDB ready now turns db in
  (forall ai, ai ∈ dials -> exists k r, Get now k db = Some r /\ ai = mkAddrInfo (pr_PeerID r) (pr_Addrs r) /\ ai_Addrs ai <> []) /\
  (forall q, db_peers db' !! q = db_peers db !! q \/
     exists r t, db_peers db' !! q = Some r /\ mkAddrInfo q (pr_Addrs r) ∈ dials /\ t ∈ turns /\
       dt_status (rt_dial t) = NotConnected /\ dt_ok (rt_dial t) = true /\ rt_ping t = true /\ pr_SeenAt r = rt_now t).
Proof.
  unfold reconnectFromPeerDB. destruct ready; cbn [negb]; [|split; [set_solver|by left]].
  pose proof (reconnect_loop_spec turns (List now db) db) as H. destruct (reconnect_loop _ _ _) as [dials db'].
  destruct H as [H1 H2]. split.
  - intros ai (r & Hr & -> & Hne)%H1. rewrite List_view, list_elem_of_fmap in Hr. destruct Hr as ([k r'] & -> & Hin%elem_of_map_to_list).
    rewrite lookup_view in Hin. by exists k, r'.
  - intros q. destruct (H2 q) as [?|(x & Hx & r0 & t & _ & Ht & <- & Hd & Hs & _ & Hok & Hp & ->)]; [by left|].
    right. by exists (mkRecord (pr_PeerID r0) (pr_Addrs r0) (rt_now t)), t.
Qed.

(** ** What is found *)

(** All the addresses under which the channel of the DHT named a peer, last ones first. *)
Definition addrs_of (id : string) (peers : list AddrInfo) : list string :=
  foldl (fun acc p => if bool_decide (ai_ID p = id) then ai_Addrs p ++ acc else acc) [] peers.

Lemma addrs_of_snoc id peers p : addrs_of id (peers ++ [p]) = if bool_decide (ai_ID p = id) then ai_Addrs p ++ addrs_of id peers else addrs_of id peers.
Proof. unfold addrs_of. by rewrite foldl_app. Qed.

(** [findAndConnect] lists, once each, the peers the DHT found other than the node and
    the empty identity, with all their addresses. *)
Theorem found_once {OL : MapOrderLaws Ord} {ML : MultiaddrsLaws MA} peers :
  NoDup (ai_ID <$> findAndConnect (Some peers)) /\
  forall id l, mkAddrInfo id l ∈ findAndConnect (Some peers) <->
    id <> self /\ id <> ""%string /\ l = addrs_of id peers /\ id ∈ ai_ID <$> peers.
Proof.
  unfold findAndConnect. set (m := foldl found_step ∅ peers).
  assert (forall k ai, m !! k = Some ai <-> k = peer_String (ai_ID ai) /\ ai_ID ai <> self /\ ai_ID ai <> ""%string /\
    ai_Addrs ai = addrs_of (ai_ID ai) peers /\ ai_ID ai ∈ ai_ID <$> peers) as Hm.
  { subst m. induction peers as [|p peers IH] using rev_ind; intros k ai.
    - cbn. rewrite lookup_empty. split; [done|]. intros (_ & _ & _ & _ & H). by apply not_elem_of_nil in H.
    - rewrite foldl_app. cbn [foldl]. unfold found_step at 1. rewrite addrs_of_snoc, fmap_app, elem_of_app. cbn [fmap list_fmap].
      rewrite list_elem_of_singleton. case_bool_decide as Hp.
      + rewrite IH. case_bool_decide as E; [|naive_solver]. rewrite <-E. clear IH. naive_solver.
      + assert (ai_ID p <> self /\ ai_ID p <> ""%string) as [Hns Hne] by tauto. set (old := match foldl found_step ∅ peers !! _ with Some op => _ | None => _ end).
        assert (old = addrs_of (ai_ID p) peers) as ->.
        { unfold old. destruct (foldl found_step ∅ peers !! peer_String (ai_ID p)) as [op|] eqn:Eo.
          - apply IH in Eo as (Heq & _ & _ & Ha & _). apply (f_equal peer_Decode) in Heq. rewrite !peer_Decode_String in Heq.
            injection Heq as Heq. by rewrite Heq.
          - assert (ai_ID p ∉ ai_ID <$> peers) as Hno.
            { intros Hin. specialize (IH (peer_String (ai_ID p)) (mkAddrInfo (ai_ID p) (addrs_of (ai_ID p) peers))). cbn in IH.
              rewrite Eo in IH. destruct IH as [_ IH]. by specialize (IH (conj eq_refl (conj Hns (conj Hne (conj eq_refl Hin))))). }
            clear -Hno. induction peers as [|q peers IH] using rev_ind; [done|]. rewrite addrs_of_snoc.
            rewrite fmap_app, elem_of_app in Hno. cbn in Hno. rewrite list_elem_of_singleton in Hno.
            rewrite bool_decide_eq_false_2 by naive_solver. apply IH. naive_solver. }
        rewrite lookup_insert_Some. split.
        * intros [[<- <-]|[Hk Hin]]; cbn; [rewrite bool_decide_eq_true_2 by done; by split_and!; try right|].
          apply IH in Hin as (-> & H1 & H2 & H3 & H4). rewrite bool_decide_eq_false_2 by congruence. split_and!; try done. by left.
        * intros (-> & H1 & H2 & H3 & H4). case_bool_decide as E.
          -- left. split; [by rewrite E|]. destruct ai as [id l]. cbn in *. subst. done.
          -- right. split; [intros Heq; apply (f_equal peer_Decode) in Heq; rewrite !peer_Decode_String in Heq; congruence|].
             apply IH. split_and!; try done. destruct H4 as [?|?]; [done|congruence]. }
  split.
  - rewrite <-list_fmap_compose. pose proof (NoDup_fst_map_to_list m) as Hnd. rewrite <-(map_range_perm _ m) in Hnd.
    assert (forall e, e ∈ map_range m -> e.1 = peer_String (ai_ID e.2)) as He.
    { intros [k ai]. rewrite (map_range_perm _ m), elem_of_map_to_list. intros H%Hm. apply H. }
    induction (map_range m) as [|e es IH]; [constructor|]. cbn in *. apply NoDup_cons in Hnd as [Hn Hnd]. constructor.
    + intros (e' & E & He')%list_elem_of_fmap. cbn in E. apply Hn. rewrite (He e) by (by left). rewrite E.
      rewrite <-(He e') by (by right). apply list_elem_of_fmap. by exists e'.
    + apply IH; [done|]. intros e' He'. apply He. by right.
  - intros id l. rewrite list_elem_of_fmap. split.
    + intros ([k ai] & E & Hin). cbn in E. subst ai. rewrite (map_range_perm _ m), elem_of_map_to_list in Hin. apply Hm in Hin as (_ & H).
      cbn in H. tauto.
    + intros (H1 & H2 & -> & H4). exists (peer_String id, mkAddrInfo id (addrs_of id peers)). split; [done|].
      rewrite (map_range_perm _ m), elem_of_map_to_list. apply Hm. cbn. auto.
Qed.
End discovery.
