(* ===== verification/KeyValue.v ===== *)
(** Key-value storage (src/p2put/utapi.go, [PutKV], [GetKV], [DelKV]; libp2p_bs_dht.go,
    [dhtPutKV], [dhtGetKV], [dhtDelKV]) and its HTTP handler [onKV] (restapi.go).

    There are two stores behind the calls: the HTTP proxy of [Trackers], and the DHT
    of libp2p, which is the class [Dht] with the state its calls change.  Waiting
    for the routing table of the temporary DHT is the list of the sizes seen until
    the wait is over. *)

From stdpp Require Import gmap strings.
From S2P Require Import Prelude GoLib PeerAddr Trackers.
Import Base64.

(** ** HTTP handlers *)

(** A request: its method, its query parameters (empty when absent), and what can be
    read of its body, with whether reading ends in an error. *)
Record rest_request := mkRest {
  rr_method : string;
  rr_query : string -> string;
  rr_body : list byte;
  rr_broken : bool;
}.

(** [writeErr], [writeJSON], [w.Write]. *)
Inductive response (A : Type) := RErr (code : Z) | RJson (v : A) | RRaw (b : list byte).
Arguments RErr {A} code.
Arguments RJson {A} v.
Arguments RRaw {A} b.

Definition StatusBadRequest : Z := 400.
Definition StatusNotFound : Z := 404.
Definition StatusMethodNotAllowed : Z := 405.
Definition StatusRequestEntityTooLarge : Z := 413.
Definition StatusInternalServerError : Z := 500.
Definition StatusServiceUnavailable : Z := 503.

(** ** The DHT *)

(** [GetValue] and [PutValue]; [None] is an error. *)
Class Dht := {
  dht_state : Type;
  GetValue : dht_state -> string -> option (list byte);
  PutValue : dht_state -> string -> list byte -> option dht_state;
}.

(** A value put is the value of its key, and of no other. *)
Class DhtLaws (D : Dht) := {
  GetValue_put s k v s' k' : PutValue s k v = Some s' ->
    GetValue s' k' = if decide (k' = k) then Some v else GetValue s k';
}.

(** [bootres.DHT]: nil, not an [IpfsDHT], or one. *)
Inductive dht_handle := DhtNil | DhtOther | DhtReady.

Inductive kv_error := KvNotReady | KvNotInit | KvCreate | KvTable | KvPut | KvVerify | KvGet | ErrNotFound.

Section kv.
Context {D : Dht} {J : TrackerJson} {MA : Multiaddrs} (sha1 : string -> string).

Definition dhtGetKV (h : dht_handle) (key : string) (s : dht_state) : kv_error + list byte :=
  match h with
  | DhtNil => inl KvNotReady
  | DhtOther => inl KvNotInit
  | DhtReady =>
      match GetValue s key with
      | None => inl KvGet
      | Some val => if len val =? 0 then inl ErrNotFound else inr val
      end
  end.

(** [tmp] is the temporary DHT: [None] when it cannot be created, else the sizes of
    its routing table that are looked at. *)
Definition dhtPutKV (h : dht_handle) (tmp : option (list Z)) (key : string) (value : list byte) (s : dht_state)
    : option kv_error * dht_state :=
  match h with
  | DhtNil => (Some KvNotReady, s)
  | DhtOther => (Some KvNotInit, s)
  | DhtReady =>
      match tmp with
      | None => (Some KvCreate, s)
      | Some sizes =>
          if negb (existsb (fun n => 3 <=? n) sizes) then (Some KvTable, s)
          else
            let key2 := "/pk/" +:+ key in
            match PutValue s key2 value with
            | None => (Some KvPut, s)
            | Some s => (match GetValue s key2 with None => Some KvVerify | Some _ => None end, s)
            end
      end
  end.

Definition dhtDelKV (h : dht_handle) (key : string) (s : dht_state) : option kv_error * dht_state :=
  match h with
  | DhtNil => (Some KvNotReady, s)
  | DhtOther => (Some KvNotInit, s)
  | DhtReady => match PutValue s key [] with None => (Some KvPut, s) | Some s => (None, s) end
  end.

(** ** The calls *)

(** [useJamiDHTProxy], the proxy with what an unreadable body gave, whether [bootres] is
    there, and the DHT. *)
Record kv_env := mkKv {
  kv_useJami : bool;
  kv_http : service;
  kv_partial : list byte;
  kv_proxyURL : string;
  kv_boot : bool;
  kv_handle : dht_handle;
  kv_tmp : option (list Z);
  kv_dht : dht_state;
}.

#[global] Instance kv_env_eta : Eta kv_env := fun e =>
  mkKv (kv_useJami e) (kv_http e) (kv_partial e) (kv_proxyURL e) (kv_boot e) (kv_handle e) (kv_tmp e) (kv_dht e).

Definition proxy_put (e : kv_env) (key : string) (value : list byte) : option kv_error :=
  if DHTPut sha1 (kv_http e) (kv_proxyURL e) key value then None else Some KvPut.

Definition PutKV (key : string) (value : list byte) (e : kv_env) : option kv_error * kv_env :=
  if kv_useJami e then (proxy_put e key value, e)
  else if negb (kv_boot e) then (Some KvNotReady, e)
  else let '(err, s) := dhtPutKV (kv_handle e) (kv_tmp e) key value (kv_dht e) in (err, e <| kv_dht := s |>).

Definition GetKV (key : string) (e : kv_env) : kv_error + list byte :=
  if kv_useJami e then
    match DHTGet sha1 (kv_http e) (kv_partial e) (kv_proxyURL e) key with Some v => inr v | None => inl KvGet end
  else if negb (kv_boot e) then inl KvNotReady
  else dhtGetKV (kv_handle e) key (kv_dht e).

Definition DelKV (key : string) (e : kv_env) : option kv_error * kv_env :=
  if kv_useJami e then (proxy_put e key [], e)
  else if negb (kv_boot e) then (Some KvNotReady, e)
  else let '(err, s) := dhtDelKV (kv_handle e) key (kv_dht e) in (err, e <| kv_dht := s |>).

(** ** The handler *)

Definition json_or_500 (r : option kv_error * kv_env) : response () * kv_env :=
  (match r.1 with None => RJson () | Some _ => RErr StatusInternalServerError end, r.2).

Definition onKV (r : rest_request) (e : kv_env) : response () * kv_env :=
  let op := rr_query r "op" in
  let key := rr_query r "key" in
  if bool_decide (key = ""%string) then (RErr StatusBadRequest, e)
  else if bool_decide (rr_method r = "GET"%string) then
    if bool_decide (op = "get"%string) then
      match GetKV key e with
      | inl _ => (RErr StatusNotFound, e)
      | inr val => (RRaw val, e)
      end
    else if bool_decide (op = "delete"%string) then json_or_500 (DelKV key e)
    else (RErr StatusBadRequest, e)
  else if bool_decide (rr_method r = "POST"%string) then
    if negb (bool_decide (op = "put"%string)) then (RErr StatusBadRequest, e)
    else if rr_broken r then (RErr StatusInternalServerError, e)
    else json_or_500 (PutKV key (rr_body r) e)
  else (RErr StatusMethodNotAllowed, e).

(** ** Properties *)

Context {DL : DhtLaws D}.

(** A value put into the DHT is not the one [GetKV] reads.  [PutKV] stores under the
    key behind "/pk/", [GetKV] and [DelKV] use the key as it is: after a put that
    succeeded, what [GetKV] gives for the key is what it gave before, and deleting
    the key leaves the value stored. *)
Theorem dht_put_never_read key value e e' : kv_useJami e = false -> PutKV key value e = (None, e') ->
  GetKV key e' = GetKV key e /\
  GetValue (kv_dht e') ("/pk/" +:+ key) = Some value /\
  forall e'', DelKV key e' = (None, e'') -> GetValue (kv_dht e'') ("/pk/" +:+ key) = Some value.
Proof.
  assert (key <> "/pk/" +:+ key) as Hne by (intros E%(f_equal String.length); change (String.length key = 4 + String.length key)%nat in E; lia).
  unfold PutKV. intros Hj. rewrite Hj. destruct (kv_boot e) eqn:Hb; [|done]. cbn [negb]. unfold dhtPutKV.
  destruct (kv_handle e) eqn:Hh; [done..|]. destruct (kv_tmp e) as [sizes|]; [|done].
  destruct (existsb _ sizes); [|done]. cbn [negb]. destruct (PutValue (kv_dht e) _ value) as [s|] eqn:Ep; [|done].
  pose proof (fun k => GetValue_put _ _ _ _ k Ep) as Hg. intros H. injection H as H <-. cbn. split; [|split].
  - unfold GetKV. cbn. rewrite Hj, Hb, Hh. cbn. by rewrite Hg, decide_False.
  - by rewrite Hg, decide_True.
  - intros e''. unfold DelKV. cbn. rewrite Hj, Hb, Hh. cbn. destruct (PutValue s key []) as [s'|] eqn:Ed; [|done].
    intros [= <-]. cbn. rewrite (GetValue_put _ _ _ _ _ Ed), decide_False by done. by rewrite Hg, decide_True.
Qed.

(** What a delete leaves.  In the DHT the deleted key is not found; the proxy, once it
    lists the empty value as the last one, answers the key with it, and [onKV] with
    an empty body instead of a 404. *)
Theorem delete_outcome {JL : TrackerJsonLaws J} key e e' : DelKV key e = (None, e') ->
  (kv_useJami e = false -> GetKV key e' = inl ErrNotFound) /\
  (kv_useJami e = true ->
    (exists values, kv_http e (mkRequest GET (kv_proxyURL e +:+ "/key/" +:+ sha1 key) []) =
      Answer 200 (Some (body_of ((fun v => data_marshal (EncodeToString v)) <$> (values ++ [[]]))))) ->
    GetKV key e' = inr [] /\
    forall r, rr_method r = "GET"%string -> rr_query r "op" = "get"%string -> rr_query r "key" = key -> key <> ""%string ->
      (onKV r e').1 = RRaw []).
Proof.
  unfold DelKV. intros H. split; intros Hj; rewrite Hj in H.
  - destruct (kv_boot e) eqn:Hb; [|done]. cbn [negb] in H. unfold dhtDelKV in H. destruct (kv_handle e) eqn:Hh; [done..|].
    destruct (PutValue (kv_dht e) key []) as [s|] eqn:Ep; [|done]. injection H as <-. unfold GetKV. cbn. rewrite Hj, Hb, Hh. cbn.
    by rewrite (GetValue_put _ _ _ _ _ Ep), decide_True.
  - intros [values Ha]. injection H as _ <-. assert (GetKV key e = inr []) as Hg.
    { unfold GetKV. rewrite Hj. by rewrite (dht_value_get sha1 _ (kv_partial e) _ _ _ _ Ha). }
    split; [done|]. intros r Hm Ho Hk Hne. unfold onKV. rewrite Hm, Ho, Hk, Hg. by rewrite bool_decide_eq_false_2.
Qed.

(** When the handler changes something, and what it answers then: only a POST that
    puts or a GET that deletes, with a key; its error is a 500, its success JSON. *)
Theorem onKV_changes r e : let '(resp, e') := onKV r e in
  match resp with
  | RErr code => code ∈ [StatusBadRequest; StatusNotFound; StatusMethodNotAllowed; StatusInternalServerError] /\
      (code <> StatusInternalServerError -> e' = e)
  | RRaw val => e' = e /\ GetKV (rr_query r "key") e = inr val
  | RJson _ => rr_query r "key" <> ""%string /\
      (rr_method r = "POST"%string /\ rr_query r "op" = "put"%string /\ rr_broken r = false /\
         PutKV (rr_query r "key") (rr_body r) e = (None, e') \/
       rr_method r = "GET"%string /\ rr_query r "op" = "delete"%string /\ DelKV (rr_query r "key") e = (None, e'))
  end.
Proof.
  unfold onKV. case_bool_decide as Hk; [split; [set_solver|done]|]. case_bool_decide as Hm.
  - case_bool_decide as Ho; [|case_bool_decide as Ho'].
    + destruct (GetKV _ e) as [err|val]; [split; [set_solver|done]|done].
    + unfold json_or_500. destruct (DelKV _ e) as [[err|] e']; cbn; [split; [set_solver|done]|]. by split; [|right].
    + split; [set_solver|done].
  - case_bool_decide as Hm'; [|split; [set_solver|done]].
    case_bool_decide as Ho; cbn [negb]; [|split; [set_solver|done]]. destruct (rr_broken r) eqn:Hb; [split; [set_solver|done]|].
    unfold json_or_500. destruct (PutKV _ _ e) as [[err|] e']; cbn; [split; [set_solver|done]|]. by split; [|left].
Qed.
End kv.

(** ** Examples *)

Definition map_dht : Dht := {|
  dht_state := gmap string (list byte);
  GetValue s k := s !! k;
  PutValue s k v := Some (<[k := v]> s);
|}.

Lemma map_dht_laws : DhtLaws map_dht.
Proof.
  split. intros s k v s' k' [= <-]. cbn. case_decide; [subst; apply lookup_insert_eq|by apply lookup_insert_ne].
Qed.

Definition kv_start (jami : bool) (http : service) : @kv_env map_dht :=
  @mkKv map_dht jami http [] "u" true DhtReady (Some [0; 4]) ∅.

Definition refuse_all : service := fun _ => DoFailed.

Lemma dht_put_never_read_witness :
  @GetKV map_dht toy_tracker_json (fun k => k) "k" (@PutKV map_dht toy_tracker_json (fun k => k) "k" [Byte.x41] (kv_start false refuse_all)).2
  = inl KvGet.
Proof.
  refine (eq_trans (proj1 (@dht_put_never_read map_dht toy_tracker_json (fun k => k) map_dht_laws "k" [Byte.x41] (kv_start false refuse_all) _ eq_refl eq_refl)) eq_refl).
Defined.

(** A proxy that answers every key with one value, the empty one. *)
Definition emptied : service := fun rq =>
  match rq_method rq with
  | GET => Answer 200 (Some (body_of ((fun v => @data_marshal toy_tracker_json (EncodeToString v)) <$> ([] ++ [[]]))))
  | _ => Answer 200 None
  end.

Lemma delete_outcome_witness :
  @GetKV map_dht toy_tracker_json (fun k => k) "k" (@DelKV map_dht toy_tracker_json (fun k => k) "k" (kv_start true emptied)).2 = inr [].
Proof.
  apply (proj2 (@delete_outcome map_dht toy_tracker_json (fun k => k) map_dht_laws toy_tracker_laws "k" (kv_start true emptied) _ eq_refl) eq_refl).
  by exists [].
Defined.
