(* ===== verification/NodeApi.v ===== *)
(** What the node tells of its connections and lets be sent (src/p2put/utapi.go,
    restapi.go, utils.go): which peers are connected, the listings of connections,
    relays and stored peers, and the HTTP handlers [onSend] and [onFindPeers].

    The host is its list of connections, its own addresses and its peerstore. *)

From stdpp Require Import gmap strings.
From S2P Require Import Prelude GoLib StablePeers PrivateIP PeerAddr PubSub Trackers KeyValue.

(** ** Connections *)

Inductive direction := DirUnknown | DirInbound | DirOutbound.

Record conn := mkConn {
  cn_RemotePeer : string;
  cn_RemoteMultiaddr : string;
  cn_Direction : direction;
  cn_Limited : bool;
  cn_Opened : string;
  cn_NumStreams : Z;
}.

Section api.
Context {MA : Multiaddrs} (bootstrap : string -> bool).

(** [pid] is what [toPeerID] gives; [ready] is that there is a host. *)
Definition IsPeerConnected (ready : bool) (conns : list conn) (pid : option string) (out : bool) : bool :=
  match pid with
  | None => false
  | Some p =>
      ready && existsb (fun c => bool_decide (cn_RemotePeer c = p) &&
        (out && match cn_Direction c with DirOutbound => true | _ => false end)) conns
  end.

Definition PeerIsConnected (ready : bool) (conns : list conn) (pid : string) (direct : bool) : bool :=
  ready && existsb (fun c => negb direct || negb (cn_Limited c)) (filter (fun c => cn_RemotePeer c = pid) conns).

Definition IsPeerInStore (ready : bool) (peers : list string) (pid : option string) : bool :=
  match pid with
  | None => false
  | Some p => ready && existsb (fun q => bool_decide (q = p)) peers
  end.

(** [connByPeerID] (fixconn.go): the first connection to a peer. *)
Definition connByPeerID (conns : list conn) (pid : string) : option conn :=
  head (filter (fun c => cn_RemotePeer c = pid) conns).

(** ** Listings *)

Record ConnResp := mkConnResp {
  cr_PeerID : string;
  cr_Addr : string;
  cr_Direction : string;
  cr_IsRelay : bool;
  cr_RelayPeer : string;
  cr_DirectAddrs : list string;
  cr_OpenAt : string;
  cr_NumStreams : Z;
}.

Definition conn_entry (stored : string -> list string) (c : conn) : ConnResp :=
  let dir := match cn_Direction c with DirInbound => "inbound"%string | _ => "outbound"%string end in
  let relay := cn_Limited c in
  mkConnResp (peer_String (cn_RemotePeer c)) (cn_RemoteMultiaddr c) dir relay
    (if relay then match extractRelayPeerID (cn_RemoteMultiaddr c) with Some r => peer_String r | None => "" end else "")
    (if relay then filter (fun a => isRelayAddr a = false) (stored (cn_RemotePeer c)) else [])
    (cn_Opened c) (cn_NumStreams c).

(** [None] is "libp2p not ready". *)
Definition CollectConns (ready : bool) (stored : string -> list string) (conns : list conn) : option (list ConnResp) :=
  if negb ready then None
  else Some (conn_entry stored <$> filter (fun c => bootstrap (cn_RemotePeer c) = false) conns).

(** [strings.TrimSuffix(s, "/p2p-circuit")]. *)
Definition trim_circuit (s : string) : string :=
  let n := String.length "/p2p-circuit" in
  let k := (String.length s - n)%nat in
  if bool_decide (String.substring k n s = "/p2p-circuit"%string) then String.substring 0 k s else s.

(** The relay of an address of the node. *)
Definition candidate_peer (addrStr : string) : option string :=
  ma ← NewMultiaddr (trim_circuit addrStr);
  pidStr ← ValueForProtocol "p2p" (components ma);
  peer_Decode pidStr.

Definition CollectRelays (ready : bool) (addrs : list string) (conns : list conn) : option (list string * list string) :=
  if negb ready then None
  else
    let candidates := filter (fun a => isRelayAddr a = true) addrs in
    let candidatePeers : gset string := list_to_set (omap candidate_peer candidates) in
    let connected := filter (fun c => cn_RemotePeer c ∈ candidatePeers) conns in
    Some (candidates, (fun c => cn_RemoteMultiaddr c +:+ "/p2p/" +:+ peer_String (cn_RemotePeer c)) <$> connected).

Definition stored_addr (s : string) : bool :=
  negb (contains s "/ip6/" || contains s "/udp/" || contains s "/quic" || contains s "webrtc" || contains s "/dns/").

Definition CollectStorePeers (ready : bool) (peers : list string) (stored : string -> list string) : list (string * list string) :=
  if negb ready then []
  else omap (fun p => match filter (fun a => stored_addr a = true) (stored p) with
                      | [] => None
                      | l => Some (peer_String p, l)
                      end) peers.

(** [CollectBoard]; the bandwidth and the resources are handed through. *)
Record AddrResp := mkAddrResp { ar_Addr : string; ar_Relay : bool; ar_Priv : bool }.

Record BoardResp (B : Type) := mkBoard {
  bd_PeerID : string;
  bd_Pubkey : string;
  bd_NATStatus : string;
  bd_MyAddrs : list AddrResp;
  bd_Relays0 : Z;
  bd_Relays1 : Z;
  bd_Conns : Z;
  bd_counters : B;
}.
Arguments mkBoard {B}.
Arguments bd_MyAddrs {B}.
Arguments bd_Relays0 {B}.
Arguments bd_Relays1 {B}.
Arguments bd_Conns {B}.

Definition CollectBoard {B} (ready : bool) (self pubkey nat : string) (addrs : list string)
    (stored : string -> list string) (conns : list conn) (counters : B) : option (BoardResp B) :=
  if negb ready then None
  else
    let relays := default ([], []) (CollectRelays ready addrs conns) in
    Some (mkBoard (peer_String self) pubkey nat
      ((fun a => mkAddrResp a (isRelayAddr a) (isPrivateIP (extractIPFromAddr a))) <$> addrs)
      (len relays.1) (len relays.2) (len (default [] (CollectConns ready stored conns))) counters).

(** [isPrivateIP] is asked of a nil address when there is none; see [PrivateIP]. *)

(** ** Sending *)

(** [onSend] in the build without GossipSub; [read] is what [ReadAll] gets through a
    reader limited to one byte more than may be published. *)
Definition onSend {FJ : FwdJson} (now : Z) (since : list byte -> Z) (net : option (list byte * list string))
    (send : string -> send_result) (short : list byte -> string) (r : rest_request) (d : dedup)
    : response () * list pubsubEvent * list (string * list byte) * dedup :=
  let topic := rr_query r "topic" in
  if bool_decide (topic = ""%string) then (RErr StatusBadRequest, [], [], d)
  else if negb (bool_decide (rr_method r = "POST"%string)) then (RErr StatusMethodNotAllowed, [], [], d)
  else
    let data := takeZ (maxPublishSize + 1) (rr_body r) in
    if rr_broken r && (len data <? maxPublishSize + 1) then (RErr StatusRequestEntityTooLarge, [], [], d)
    else
      let '(err, raised, frames, d) := PublishTopic now since net send short topic data d in
      (match err with None => RJson () | Some _ => RErr StatusInternalServerError end, raised, frames, d).

(** [FindPeers] and its handler: the tag and the limit asked for. *)
Definition find_args (hub tag : string) (limit : Z) : string * Z :=
  (if bool_decide (tag = ""%string) then hub else tag, if limit <=? 0 then 5 else limit).

Definition dhtFindPeers (hub : string) (find : string -> Z -> option (list FoundPeer)) (self : string) (tag : string) (limit : Z)
    : option (list FoundPeer) :=
  let '(tag, limit) := find_args hub tag limit in
  match find tag limit with
  | None => None
  | Some peers =>
      Some ((fun p => mkFound (peer_String (fp_PeerID p)) (fp_Addrs p)) <$>
            filter (fun p => fp_PeerID p <> self /\ fp_PeerID p <> ""%string) peers)
  end.

Definition onFindPeers (hub : string) (find : string -> Z -> option (list FoundPeer)) (self : string) (atoi : string -> Z) (r : rest_request)
    : response (list FoundPeer) :=
  match dhtFindPeers hub find self (rr_query r "tag") (atoi (rr_query r "limit")) with
  | None => RErr StatusServiceUnavailable
  | Some l => RJson l
  end.

(** ** Properties *)

(** [IsPeerConnected] knows outbound connections only, and without [out] none at all. *)
Theorem connected_out_only ready conns p out : IsPeerConnected ready conns (Some p) out = true <->
  ready = true /\ out = true /\ exists c, c ∈ conns /\ cn_RemotePeer c = p /\ cn_Direction c = DirOutbound.
Proof.
  cbn. rewrite andb_true_iff, existsb_exists. split.
  - intros [-> (c & Hc & [Hp%bool_decide_eq_true [-> Hd]%andb_true_iff]%andb_true_iff)]. split; [done|]. split; [done|].
    exists c. split; [by apply list_elem_of_In|]. by destruct (cn_Direction c).
  - intros (-> & -> & c & Hc & <- & Hd). split; [done|]. exists c. split; [by apply list_elem_of_In|].
    by rewrite bool_decide_eq_true_2, Hd.
Qed.

(** The board agrees with the listings, and of the connections to relays of the node
    all are listed and no others. *)
Theorem board_agrees {B} self pubkey nat addrs stored conns (counters : B) :
  exists board entries candidates connected,
  CollectBoard true self pubkey nat addrs stored conns counters = Some board /\
  CollectConns true stored conns = Some entries /\ CollectRelays true addrs conns = Some (candidates, connected) /\
  bd_Conns board = len entries /\ bd_Relays0 board = len candidates /\ bd_Relays1 board = len connected /\
  bd_Relays0 board = len (filter (fun a => ar_Relay a = true) (bd_MyAddrs board)) /\
  (forall s, s ∈ connected <-> exists c a, c ∈ conns /\ a ∈ addrs /\ isRelayAddr a = true /\
     candidate_peer a = Some (cn_RemotePeer c) /\ s = cn_RemoteMultiaddr c +:+ "/p2p/" +:+ peer_String (cn_RemotePeer c)) /\
  (forall e, e ∈ entries -> cr_IsRelay e = true -> forall a, a ∈ cr_DirectAddrs e -> isRelayAddr a = false).
Proof.
  eexists _, _, _, _. split; [done|]. split; [done|]. split; [done|]. cbn. do 3 (split; [done|]). split; [|split].
  - f_equal. induction addrs as [|a l IH]; [done|]. cbn [fmap list_fmap]. rewrite !filter_cons. cbn [ar_Relay].
    case_decide; cbn; by rewrite IH.
  - intros s. rewrite list_elem_of_fmap. setoid_rewrite list_elem_of_filter. setoid_rewrite elem_of_list_to_set.
    setoid_rewrite list_elem_of_omap. setoid_rewrite list_elem_of_filter. naive_solver.
  - intros e He _ a. apply list_elem_of_fmap in He as (c & -> & _). cbn. destruct (cn_Limited c); [|intros H; by apply not_elem_of_nil in H].
    by intros [? _]%list_elem_of_filter.
Qed.

(** What [onSend] answers.  A body over the limit is a 500 and nothing is sent; a 413
    is a body that broke off; and a JSON answer says that the body itself went to
    one peer at least. *)
Theorem send_outcome {FJ : FwdJson} now since net send short r d :
  rr_query r "topic" <> ""%string -> rr_method r = "POST"%string ->
  let '(resp, raised, frames, d') := onSend now since net send short r d in
  (maxPublishSize < len (rr_body r) -> resp = RErr StatusInternalServerError /\ raised = [] /\ frames = [] /\ d' = d) /\
  (resp = RErr StatusRequestEntityTooLarge <-> len (rr_body r) <= maxPublishSize /\ rr_broken r = true) /\
  (resp = RJson () -> frames <> [] /\ Forall (fun f => exists self seqno,
      f.2 = fwd_marshal (mkFwd self (rr_body r) seqno (rr_query r "topic"))) frames).
Proof.
  intros Ht Hm. unfold onSend. rewrite (bool_decide_eq_false_2 _ Ht), bool_decide_eq_true_2 by done. cbn [negb].
  assert (len (takeZ (maxPublishSize + 1) (rr_body r)) = Z.min (maxPublishSize + 1) (len (rr_body r))) as Hl.
  { unfold takeZ, maxPublishSize. rewrite length_take. lia. }
  destruct (rr_broken r && _) eqn:E.
  - apply andb_true_iff in E as [Hb Hlt]. rewrite Hl in Hlt. split; [lia|]. split; [|done]. split; [|done]. split; [lia|done].
  - unfold PublishTopic. destruct net as [[self peers]|].
    + rewrite Hl. destruct (Z.ltb_spec maxPublishSize (Z.min (maxPublishSize + 1) (len (rr_body r)))) as [Hbig|Hsmall].
      * split; [done|]. split; [|done]. split; [done|]. lia.
      * assert (takeZ (maxPublishSize + 1) (rr_body r) = rr_body r) as -> by (unfold takeZ; apply take_ge; unfold maxPublishSize in *; lia). destruct (isMsgSeen _ _ _ d) as [seen d'].
        assert (rr_broken r = false) as Hb by (destruct (rr_broken r); [|done]; cbn in E; lia). rewrite Hb.
        destruct peers as [|p peers]; [split; [lia|]; split; [split; [done|]; by intros []|done]|].
        set (sent := filter _ _). destruct (Z.eqb_spec (len sent) 0) as [H0|H0]; (split; [lia|]); (split; [split; [done|]; by intros []|]); [done|].
        intros _. split; [destruct sent; [done|]; by cbn|]. apply Forall_fmap, Forall_forall. intros x _. cbn. eauto.
    + split; [done|]. split; [|done]. split; [done|]. intros [Hle Hb]. rewrite Hb in E. cbn [andb] in E. lia.
Qed.
End api.

(** ** Examples *)

(** A mobile host behind a relay: one connection out, one in through the relay. *)
Definition relay_multiaddrs : Multiaddrs := {|
  components a := if contains a "/p2p-circuit" then [("p2p", "R"); ("p2p-circuit", "")]%string else [("p2p", "R")]%string;
  NewMultiaddr := Some; peer_Decode := Some; peer_String := id |}.

Definition two_conns : list conn :=
  [mkConn "R" "/ip4/8.8.8.8" DirOutbound false "t" 1; mkConn "P" "/p2p/R/p2p-circuit" DirInbound true "t" 1]%string.

Example relays_listed : @CollectRelays relay_multiaddrs true ["/ip4/8.8.8.8/p2p/R/p2p-circuit"; "/ip4/1.2.3.4"]%string two_conns =
  Some (["/ip4/8.8.8.8/p2p/R/p2p-circuit"]%string, ["/ip4/8.8.8.8/p2p/R"]%string).
Proof. by vm_compute. Qed.

Example inbound_not_connected : IsPeerConnected true two_conns (Some "P"%string) true = false /\
  IsPeerConnected true two_conns (Some "R"%string) false = false /\ PeerIsConnected true two_conns "P" false = true.
Proof. by vm_compute. Qed.

Lemma send_outcome_witness :
  let r := mkRest "POST" (fun k => "t"%string) [Byte.x41] true in
  (@onSend example_fwd 5 (fun _ => 5) None (fun _ => SendOk) (fun _ => "p"%string) r new_dedup).1.1.1
    = RErr StatusRequestEntityTooLarge.
Proof.
  pose proof (@send_outcome example_fwd 5 (fun _ => 5) None (fun _ => SendOk) (fun _ => "p"%string)
    (mkRest "POST" (fun k => "t"%string) [Byte.x41] true) new_dedup ltac:(done) eq_refl) as H.
  cbv zeta. destruct (onSend _ _ _ _ _ _ _) as [[[resp raised] frames] d']. cbn. apply H. split; [by vm_compute|done].
Defined.
