(* ===== verification/RcResources.v ===== *)
(** The counters of a resource scope, their limits and the checks against them:
    src/myvendor/go-libp2p/p2p/host/resource-manager/scope.go (the type
    [resources]) and the interface [Limit] of limit.go, the resource manager
    that p2put starts its host with ([myResourceManager] of config.go).

    Go's [int] and [int64] are 64 bits wide; every sum and product of the code
    is wrapped to that width.  A mutating method returns its error (or none)
    with the counters it leaves.  Logging is left out. *)

From stdpp Require Import strings list.
From S2P Require Import Prelude.
#[local] Open Scope Z_scope.

(** [network.Direction]. *)
Inductive Direction := DirUnknown | DirInbound | DirOutbound.
#[export] Instance Direction_eq_dec : EqDecision Direction.
Proof. solve_decision. Defined.

Definition is_inbound (dir : Direction) : bool :=
  match dir with DirInbound => true | _ => false end.

(** The interface [Limit]. *)
Record Limit := mkLimit {
  GetMemoryLimit : Z;
  GetStreamLimit : Direction -> Z;
  GetStreamTotalLimit : Z;
  GetConnLimit : Direction -> Z;
  GetConnTotalLimit : Z;
  GetFDLimit : Z;
}.

(** [network.ScopeStat]. *)
Record ScopeStat := mkStat {
  Memory : Z;
  NumStreamsInbound : Z;
  NumStreamsOutbound : Z;
  NumConnsInbound : Z;
  NumConnsOutbound : Z;
  NumFD : Z;
}.

Definition zero_stat : ScopeStat := mkStat 0 0 0 0 0 0.

Record resources := mkResources {
  rc_limit : Limit;
  nconnsIn : Z;
  nconnsOut : Z;
  nstreamsIn : Z;
  nstreamsOut : Z;
  nfd : Z;
  memory : Z;
}.

#[export] Instance resources_eta : Eta resources := fun r =>
  mkResources (rc_limit r) (nconnsIn r) (nconnsOut r) (nstreamsIn r) (nstreamsOut r)
    (nfd r) (memory r).

(** The errors of the resource manager. *)
Inductive rcerror :=
  | ErrNegativeMemory (rsvp : Z)
  | ErrMemoryLimitExceeded (current attempted limit prio : Z)
  | ErrStreamOrConnLimitExceeded (what : string) (current attempted limit : Z)
  | ErrResourceScopeClosed
  | ErrWrapped (name : string) (err : rcerror)
  | ErrRcmgr (msg : string).

(** ** Arithmetic that reports overflow *)

Definition addInt64WithOverflow (a b : Z) : Z * bool :=
  let c := int64 (a + b) in
  (c, Bool.eqb (a <? c) (0 <? b)).

Definition mostPositive : Z := 2 ^ 63 - 1.
Definition mostNegative : Z := - (mostPositive + 1).

Definition mulInt64WithOverflow (a b : Z) : Z * bool :=
  let c := int64 (a * b) in
  if (a =? 0) || (b =? 0) || (a =? 1) || (b =? 1) then (c, true)
  else if (a =? mostNegative) || (b =? mostNegative) then (c, false)
  else (c, int64 (Z.quot c b) =? a).

(** ** Memory *)

(** The reservation threshold: [(1 + prio) * limit / 256], by way of big
    integers when the product overflows. *)
Definition memory_threshold (limit prio : Z) : Z :=
  let '(threshold, mulOk) := mulInt64WithOverflow (1 + prio) limit in
  if mulOk then Z.quot threshold 256
  else int64 (Z.shiftr (limit * (1 + prio)) 8).

Definition checkMemory (rc : resources) (rsvp prio : Z) : option rcerror :=
  if rsvp <? 0 then Some (ErrNegativeMemory rsvp)
  else
    let limit := GetMemoryLimit (rc_limit rc) in
    if limit =? mostPositive then None
    else
      let '(newmem, addOk) := addInt64WithOverflow (memory rc) rsvp in
      let threshold := memory_threshold limit prio in
      if negb addOk || (threshold <? newmem)
      then Some (ErrMemoryLimitExceeded (memory rc) rsvp limit prio)
      else None.

Definition reserveMemory (size prio : Z) (rc : resources) : option rcerror * resources :=
  match checkMemory rc size prio with
  | Some err => (Some err, rc)
  | None => (None, rc <| memory := int64 (memory rc + size) |>)
  end.

(** A counter after a release: a negative result is reported and reset. *)
Definition released (n : Z) : Z := if n <? 0 then 0 else n.

Definition releaseMemory (size : Z) (rc : resources) : resources :=
  rc <| memory := released (int64 (memory rc - size)) |>.

(** ** Streams *)

Definition addStreams (incount outcount : Z) (rc : resources) : option rcerror * resources :=
  let lim := rc_limit rc in
  if (0 <? incount) && (GetStreamLimit lim DirInbound <? int64 (nstreamsIn rc + incount)) then
    (Some (ErrStreamOrConnLimitExceeded "cannot reserve inbound stream" (nstreamsIn rc) incount
             (GetStreamLimit lim DirInbound)), rc)
  else if (0 <? outcount) && (GetStreamLimit lim DirOutbound <? int64 (nstreamsOut rc + outcount)) then
    (Some (ErrStreamOrConnLimitExceeded "cannot reserve outbound stream" (nstreamsOut rc) outcount
             (GetStreamLimit lim DirOutbound)), rc)
  else if GetStreamTotalLimit lim <? int64 (nstreamsIn rc + incount + nstreamsOut rc + outcount) then
    (Some (ErrStreamOrConnLimitExceeded "cannot reserve stream"
             (int64 (nstreamsIn rc + nstreamsOut rc)) (int64 (incount + outcount))
             (GetStreamTotalLimit lim)), rc)
  else
    (None, rc <| nstreamsIn := int64 (nstreamsIn rc + incount) |>
              <| nstreamsOut := int64 (nstreamsOut rc + outcount) |>).

Definition addStream (dir : Direction) (rc : resources) : option rcerror * resources :=
  if is_inbound dir then addStreams 1 0 rc else addStreams 0 1 rc.

Definition removeStreams (incount outcount : Z) (rc : resources) : resources :=
  rc <| nstreamsIn := released (int64 (nstreamsIn rc - incount)) |>
     <| nstreamsOut := released (int64 (nstreamsOut rc - outcount)) |>.

Definition removeStream (dir : Direction) (rc : resources) : resources :=
  if is_inbound dir then removeStreams 1 0 rc else removeStreams 0 1 rc.

(** ** Connections *)

Definition addConns (incount outcount fdcount : Z) (rc : resources) : option rcerror * resources :=
  let lim := rc_limit rc in
  if (0 <? incount) && (GetConnLimit lim DirInbound <? int64 (nconnsIn rc + incount)) then
    (Some (ErrStreamOrConnLimitExceeded "cannot reserve inbound connection" (nconnsIn rc) incount
             (GetConnLimit lim DirInbound)), rc)
  else if (0 <? outcount) && (GetConnLimit lim DirOutbound <? int64 (nconnsOut rc + outcount)) then
    (Some (ErrStreamOrConnLimitExceeded "cannot reserve outbound connection" (nconnsOut rc) outcount
             (GetConnLimit lim DirOutbound)), rc)
  else if GetConnTotalLimit lim <? int64 (nconnsIn rc + incount + nconnsOut rc + outcount) then
    (Some (ErrStreamOrConnLimitExceeded "cannot reserve connection"
             (int64 (nconnsIn rc + nconnsOut rc)) (int64 (incount + outcount))
             (GetConnTotalLimit lim)), rc)
  else if (0 <? fdcount) && (GetFDLimit lim <? int64 (nfd rc + fdcount)) then
    (Some (ErrStreamOrConnLimitExceeded "cannot reserve file descriptor" (nfd rc) fdcount
             (GetFDLimit lim)), rc)
  else
    (None, rc <| nconnsIn := int64 (nconnsIn rc + incount) |>
              <| nconnsOut := int64 (nconnsOut rc + outcount) |>
              <| nfd := int64 (nfd rc + fdcount) |>).

Definition fd_of (usefd : bool) : Z := if usefd then 1 else 0.

Definition addConn (dir : Direction) (usefd : bool) (rc : resources) : option rcerror * resources :=
  if is_inbound dir then addConns 1 0 (fd_of usefd) rc else addConns 0 1 (fd_of usefd) rc.

Definition removeConns (incount outcount fdcount : Z) (rc : resources) : resources :=
  rc <| nconnsIn := released (int64 (nconnsIn rc - incount)) |>
     <| nconnsOut := released (int64 (nconnsOut rc - outcount)) |>
     <| nfd := released (int64 (nfd rc - fdcount)) |>.

Definition removeConn (dir : Direction) (usefd : bool) (rc : resources) : resources :=
  if is_inbound dir then removeConns 1 0 (fd_of usefd) rc else removeConns 0 1 (fd_of usefd) rc.

Definition stat (rc : resources) : ScopeStat :=
  mkStat (memory rc) (nstreamsIn rc) (nstreamsOut rc) (nconnsIn rc) (nconnsOut rc) (nfd rc).

(** The body of [ReserveForChild] on the counters: memory (at
    [network.ReservationPriorityAlways], 255), streams, connections; what was
    taken is given back when a later part is refused. *)
Definition reserveStat (st : ScopeStat) (rc : resources) : option rcerror * resources :=
  match reserveMemory (Memory st) 255 rc with
  | (Some err, rc1) => (Some err, rc1)
  | (None, rc1) =>
      match addStreams (NumStreamsInbound st) (NumStreamsOutbound st) rc1 with
      | (Some err, rc2) => (Some err, releaseMemory (Memory st) rc2)
      | (None, rc2) =>
          match addConns (NumConnsInbound st) (NumConnsOutbound st) (NumFD st) rc2 with
          | (Some err, rc3) =>
              (Some err, removeStreams (NumStreamsInbound st) (NumStreamsOutbound st)
                           (releaseMemory (Memory st) rc3))
          | (None, rc3) => (None, rc3)
          end
      end
  end.

(** The body of [ReleaseForChild] and of [ReleaseResources] on the counters. *)
Definition releaseStat (st : ScopeStat) (rc : resources) : resources :=
  removeConns (NumConnsInbound st) (NumConnsOutbound st) (NumFD st)
    (removeStreams (NumStreamsInbound st) (NumStreamsOutbound st)
      (releaseMemory (Memory st) rc)).

(** ** The overflow checks are exact *)

Lemma int64_spec z : exists k, int64 z = z - k * 2 ^ 64.
Proof.
  unfold int64. destruct (Z.ltb_spec (wrap64 z) (2 ^ 63)).
  - exists (z / 2 ^ 64). unfold wrap64. pose proof (Z.div_mod z (2 ^ 64)). lia.
  - exists (z / 2 ^ 64 + 1). unfold wrap64 in *. pose proof (Z.div_mod z (2 ^ 64)). lia.
Qed.

Lemma addInt64WithOverflow_exact a b :
  is_i64 a -> is_i64 b ->
  (snd (addInt64WithOverflow a b) = true <-> is_i64 (a + b)) /\
  (is_i64 (a + b) -> fst (addInt64WithOverflow a b) = a + b).
Proof.
  intros Ha Hb. unfold addInt64WithOverflow; cbn [fst snd].
  split; [|apply int64_small].
  destruct (int64_spec (a + b)) as [k Hk]. pose proof (int64_range (a + b)) as Hr.
  rewrite eqb_true_iff. unfold is_i64 in *.
  destruct (Z.ltb_spec a (int64 (a + b))), (Z.ltb_spec 0 b);
    (split; [intros ?; try done; assert (k = 0) by lia; lia | intros ?; try done]).
  all: assert (k = 0) by lia; lia.
Qed.

(** A product that differs from its wrapped value is not [c] divided back. *)
Lemma mul_overflow_detected a b :
  is_i64 a -> is_i64 b -> b <> 0 -> a <> mostNegative ->
  int64 (Z.quot (int64 (a * b)) b) = a -> is_i64 (a * b).
Proof.
  intros Ha Hb Hb0 Ham Hq. set (c := int64 (a * b)) in *.
  pose proof (int64_range (a * b)) as Hc. fold c in Hc.
  destruct (int64_spec (a * b)) as [k Hk]. fold c in Hk.
  pose proof (Z.quot_rem c b Hb0) as Hdiv.
  pose proof (Z.rem_bound_abs c b Hb0) as Hrem.
  assert (Z.quot c b = a) as Hqa.
  { destruct (decide (b = -1)) as [->|Hb1].
    - assert (Z.quot c (-1) = - c) as Hneg.
      { change (-1) with (- (1)). by rewrite Z.quot_opp_r, Z.quot_1_r. }
      rewrite Hneg in *.
      unfold is_i64, mostNegative, mostPositive in *.
      destruct (decide (c = - 2 ^ 63)) as [Hcm|Hcm].
      + exfalso. rewrite Hcm in Hq. vm_compute in Hq. lia.
      + rewrite int64_small in Hq by (unfold is_i64; lia). done.
    - rewrite int64_small in Hq; [done|]. unfold is_i64 in *.
      destruct (decide (b = 1)) as [->|Hb2]; [rewrite Z.quot_1_r; lia|].
      pose proof (Z.quot_abs c b Hb0) as Habs.
      rewrite Z.quot_div_nonneg in Habs by lia.
      assert (Z.abs c / Z.abs b <= 2 ^ 63 / 2) as Hle.
      { transitivity (Z.abs c / 2); [apply Z.div_le_compat_l|apply Z.div_le_mono]; lia. }
      change (2 ^ 63 / 2) with (2 ^ 62) in Hle. lia. }
  rewrite Hqa in Hdiv. unfold is_i64, mostNegative, mostPositive in *.
  assert (k = 0) by lia. subst k. lia.
Qed.

Lemma mulInt64WithOverflow_exact a b :
  is_i64 a -> is_i64 b ->
  (snd (mulInt64WithOverflow a b) = true <-> is_i64 (a * b)) /\
  (is_i64 (a * b) -> fst (mulInt64WithOverflow a b) = a * b).
Proof.
  intros Ha Hb. unfold mulInt64WithOverflow.
  destruct ((a =? 0) || (b =? 0) || (a =? 1) || (b =? 1)) eqn:Htriv.
  - cbn [fst snd]. assert (is_i64 (a * b)) as Hin.
    { rewrite !orb_true_iff, !Z.eqb_eq in Htriv. unfold is_i64 in *.
      destruct Htriv as [[[-> | ->]| ->]| ->]; lia. }
    split; [done|apply int64_small].
  - rewrite !orb_false_iff, !Z.eqb_neq in Htriv.
    destruct ((a =? mostNegative) || (b =? mostNegative)) eqn:Hmin; cbn [fst snd];
      (split; [|apply int64_small]).
    + split; [done|]. intros Hin. exfalso. rewrite orb_true_iff, !Z.eqb_eq in Hmin.
      unfold is_i64, mostNegative, mostPositive in *. destruct Hmin as [-> | ->]; nia.
    + rewrite orb_false_iff, !Z.eqb_neq in Hmin. rewrite Z.eqb_eq.
      split; [apply mul_overflow_detected; tauto|].
      intros Hin. rewrite (int64_small (a * b)) by done.
      rewrite Z.quot_mul by tauto. by apply int64_small.
Qed.

Lemma memory_threshold_exact limit prio :
  0 <= limit <= mostPositive -> is_u8 prio ->
  memory_threshold limit prio = (1 + prio) * limit / 256.
Proof.
  intros Hl Hp. unfold memory_threshold.
  assert (is_i64 (1 + prio)) as H1 by (unfold is_i64, is_u8 in *; lia).
  assert (is_i64 limit) as H2 by (unfold is_i64, mostPositive in *; lia).
  destruct (mulInt64WithOverflow_exact (1 + prio) limit H1 H2) as [Hok Hval].
  destruct (mulInt64WithOverflow (1 + prio) limit) as [t []]; cbn [fst snd] in *.
  - rewrite Hval by (by apply Hok). apply Z.quot_div_nonneg; unfold is_u8 in *; nia.
  - rewrite Z.shiftr_div_pow2 by lia. change (2 ^ 8) with 256.
    rewrite (Z.mul_comm limit). apply int64_small. unfold is_i64, is_u8, mostPositive in *.
    split; [|apply Z.div_lt_upper_bound; nia].
    enough (0 <= (1 + prio) * limit / 256) by lia. apply Z.div_pos; nia.
Qed.

(** A reservation is granted exactly when the usage stays under
    [(1 + prio) * limit / 256], computed without overflow. *)
Lemma checkMemory_spec rc rsvp prio :
  0 <= GetMemoryLimit (rc_limit rc) < mostPositive -> 0 <= memory rc <= mostPositive ->
  is_i64 rsvp -> is_u8 prio ->
  checkMemory rc rsvp prio = None <->
  0 <= rsvp /\ memory rc + rsvp <= (1 + prio) * GetMemoryLimit (rc_limit rc) / 256.
Proof.
  intros Hl Hm Hr Hp. unfold checkMemory.
  destruct (Z.ltb_spec rsvp 0); [split; [done|lia]|].
  destruct (Z.eqb_spec (GetMemoryLimit (rc_limit rc)) mostPositive); [lia|].
  assert (is_i64 (memory rc)) as Hmi by (unfold is_i64, mostPositive in *; lia).
  destruct (addInt64WithOverflow_exact (memory rc) rsvp Hmi Hr) as [Hok Hval].
  destruct (addInt64WithOverflow (memory rc) rsvp) as [c ok]; cbn [fst snd] in *.
  rewrite memory_threshold_exact by (try done; lia).
  set (thr := (1 + prio) * GetMemoryLimit (rc_limit rc) / 256).
  assert (thr <= GetMemoryLimit (rc_limit rc)) as Hthr.
  { apply Z.div_le_upper_bound; unfold is_u8 in *; nia. }
  destruct ok; cbn.
  - rewrite Hval by (by apply Hok). destruct (Z.ltb_spec thr (memory rc + rsvp)); split; intros; try done; lia.
  - split; [done|]. intros [_ Hle]. assert (is_i64 (memory rc + rsvp)) as Hx.
    { unfold is_i64, mostPositive in *. lia. }
    by apply Hok in Hx.
Qed.

(** ** Usage within the limits *)

(** The six quantities a scope accounts for. *)
Inductive res := RMem | RStreamIn | RStreamOut | RConnIn | RConnOut | RFd.
#[export] Instance res_eq_dec : EqDecision res.
Proof. solve_decision. Defined.

Definition usage (rc : resources) (r : res) : Z :=
  match r with
  | RMem => memory rc
  | RStreamIn => nstreamsIn rc
  | RStreamOut => nstreamsOut rc
  | RConnIn => nconnsIn rc
  | RConnOut => nconnsOut rc
  | RFd => nfd rc
  end.

Definition amount (st : ScopeStat) (r : res) : Z :=
  match r with
  | RMem => Memory st
  | RStreamIn => NumStreamsInbound st
  | RStreamOut => NumStreamsOutbound st
  | RConnIn => NumConnsInbound st
  | RConnOut => NumConnsOutbound st
  | RFd => NumFD st
  end.

Definition limit_of (lim : Limit) (r : res) : Z :=
  match r with
  | RMem => GetMemoryLimit lim
  | RStreamIn => GetStreamLimit lim DirInbound
  | RStreamOut => GetStreamLimit lim DirOutbound
  | RConnIn => GetConnLimit lim DirInbound
  | RConnOut => GetConnLimit lim DirOutbound
  | RFd => GetFDLimit lim
  end.

(** Finite limits: small enough that the sums of the checks do not wrap. *)
Definition count_bound : Z := 2 ^ 60.

Record limit_ok (lim : Limit) : Prop := {
  lo_each : forall r, 0 <= limit_of lim r < count_bound;
  lo_streams : 0 <= GetStreamTotalLimit lim < count_bound;
  lo_conns : 0 <= GetConnTotalLimit lim < count_bound;
}.

Record within (rc : resources) : Prop := {
  wi_limit : limit_ok (rc_limit rc);
  wi_each : forall r, 0 <= usage rc r <= limit_of (rc_limit rc) r;
  wi_streams : nstreamsIn rc + nstreamsOut rc <= GetStreamTotalLimit (rc_limit rc);
  wi_conns : nconnsIn rc + nconnsOut rc <= GetConnTotalLimit (rc_limit rc);
}.

Lemma resources_ext rc rc' :
  rc_limit rc = rc_limit rc' -> (forall r, usage rc r = usage rc' r) -> rc = rc'.
Proof.
  intros Hl Hu. pose proof (Hu RMem). pose proof (Hu RStreamIn). pose proof (Hu RStreamOut).
  pose proof (Hu RConnIn). pose proof (Hu RConnOut). pose proof (Hu RFd).
  destruct rc, rc'; cbn in *. congruence.
Qed.

Lemma usage_stat rc r : amount (stat rc) r = usage rc r.
Proof. by destruct r. Qed.

(** ** Reservations as operations on the counters *)

(** What a reservation does to the counters of one scope, and what gives it back. *)
Record rop := mkRop {
  op_add : resources -> option rcerror * resources;
  op_remove : resources -> resources;
}.

Definition mem_op (size prio : Z) : rop := mkRop (reserveMemory size prio) (releaseMemory size).
Definition stream_op (dir : Direction) : rop := mkRop (addStream dir) (removeStream dir).
Definition conn_op (dir : Direction) (usefd : bool) : rop :=
  mkRop (addConn dir usefd) (removeConn dir usefd).
Definition stat_op (st : ScopeStat) : rop := mkRop (reserveStat st) (releaseStat st).

(** What the scopes rely on: a reservation of [delta] stays within the limits
    or changes nothing, and its release gives exactly [delta] back. *)
Class RopLaws (op : rop) (delta : res -> Z) : Prop := {
  rop_nonneg : forall r, 0 <= delta r;
  rop_add_ok : forall rc rc', within rc -> op_add op rc = (None, rc') ->
    within rc' /\ rc_limit rc' = rc_limit rc /\
    forall r, usage rc' r = usage rc r + delta r;
  rop_add_err : forall rc rc' e, within rc -> op_add op rc = (Some e, rc') -> rc' = rc;
  rop_remove_within : forall rc, within rc ->
    within (op_remove op rc) /\ rc_limit (op_remove op rc) = rc_limit rc;
  rop_remove_exact : forall rc, within rc -> (forall r, delta r <= usage rc r) ->
    forall r, usage (op_remove op rc) r = usage rc r - delta r;
}.

Lemma rop_undo op delta `{!RopLaws op delta} rc rc' :
  within rc -> op_add op rc = (None, rc') -> op_remove op rc' = rc.
Proof.
  intros Hw Hadd. destruct (rop_add_ok _ _ Hw Hadd) as (Hw' & Hl & Hu).
  assert (forall r, delta r <= usage rc' r) as Hle.
  { intros r. rewrite Hu. pose proof (wi_each _ Hw r). lia. }
  apply resources_ext.
  - by rewrite (proj2 (rop_remove_within _ Hw')).
  - intros r. rewrite (rop_remove_exact _ Hw' Hle), Hu. lia.
Qed.

(** Normalises counters whose sums do not leave the 64 bits. *)
Ltac small64 := rewrite !int64_small in * by (unfold is_i64, count_bound in *; lia).

Ltac within_facts H :=
  let Hlo := fresh "Hlo" in
  pose proof (wi_limit _ H) as Hlo;
  pose proof (wi_each _ H RMem); pose proof (wi_each _ H RStreamIn);
  pose proof (wi_each _ H RStreamOut); pose proof (wi_each _ H RConnIn);
  pose proof (wi_each _ H RConnOut); pose proof (wi_each _ H RFd);
  pose proof (wi_streams _ H); pose proof (wi_conns _ H);
  pose proof (lo_each _ Hlo RMem); pose proof (lo_each _ Hlo RStreamIn);
  pose proof (lo_each _ Hlo RStreamOut); pose proof (lo_each _ Hlo RConnIn);
  pose proof (lo_each _ Hlo RConnOut); pose proof (lo_each _ Hlo RFd);
  pose proof (lo_streams _ Hlo); pose proof (lo_conns _ Hlo).

Lemma released_small n c :
  0 <= n < count_bound -> 0 <= c < 2 ^ 63 ->
  0 <= released (int64 (n - c)) <= n /\ (c <= n -> released (int64 (n - c)) = n - c).
Proof.
  intros Hn Hc. small64. unfold released. destruct (Z.ltb_spec (n - c) 0); lia.
Qed.

(** The three parts of a stat, as the code's functions take them. *)
Definition mem_delta (size : Z) (r : res) : Z := match r with RMem => size | _ => 0 end.
Definition streams_delta (i o : Z) (r : res) : Z :=
  match r with RStreamIn => i | RStreamOut => o | _ => 0 end.
Definition conns_delta (i o f : Z) (r : res) : Z :=
  match r with RConnIn => i | RConnOut => o | RFd => f | _ => 0 end.

(** A quantity a method does not touch stays within its limit. *)
Ltac each_of H :=
  intros []; cbn;
  first [ lia
        | exact (wi_each _ H RMem) | exact (wi_each _ H RStreamIn)
        | exact (wi_each _ H RStreamOut) | exact (wi_each _ H RConnIn)
        | exact (wi_each _ H RConnOut) | exact (wi_each _ H RFd) ].

#[export] Instance mem_op_laws size prio :
  0 <= size < 2 ^ 63 -> is_u8 prio -> RopLaws (mem_op size prio) (mem_delta size).
Proof.
  intros Hs Hp. constructor.
  - intros []; cbn; lia.
  - intros rc rc' Hw Hadd. within_facts Hw. cbn [mem_op op_add] in Hadd. unfold reserveMemory in Hadd.
    destruct (checkMemory rc size prio) eqn:Hc; [done|]. injection Hadd as <-. cbn in *.
    apply checkMemory_spec in Hc; [|unfold count_bound, mostPositive, is_i64 in *; lia..|done].
    assert ((1 + prio) * GetMemoryLimit (rc_limit rc) / 256 <= GetMemoryLimit (rc_limit rc)).
    { apply Z.div_le_upper_bound; unfold is_u8 in *; nia. }
    small64. split; [|split; [done|intros []; cbn; lia]].
    split; [done|each_of Hw|done..].
  - intros rc rc' e Hw Hadd. cbn [mem_op op_add] in Hadd. unfold reserveMemory in Hadd.
    destruct (checkMemory rc size prio); [|done]. congruence.
  - intros rc Hw. within_facts Hw. cbn in *.
    destruct (released_small (memory rc) size) as [? _]; [unfold count_bound in *; lia|lia|].
    split; [|done]. split; [done|each_of Hw|done..].
  - intros rc Hw Hle. within_facts Hw. cbn in *. pose proof (Hle RMem) as Hm. cbn in Hm.
    destruct (released_small (memory rc) size) as [_ Hr]; [unfold count_bound in *; lia|lia|].
    intros []; cbn; rewrite ?Hr; lia.
Qed.

Definition streams_op (i o : Z) : rop := mkRop (addStreams i o) (removeStreams i o).
Definition conns_op (i o f : Z) : rop := mkRop (addConns i o f) (removeConns i o f).

(** Goes through the checks of a method that adds counts. *)
Ltac zchecks H :=
  repeat match type of H with
  | (if ?b then _ else _) = _ =>
      let E := fresh "Hck" in destruct b eqn:E; [discriminate H|]
  end; injection H as <-.

Ltac zcheck_facts :=
  repeat match goal with
  | H : _ && _ = false |- _ => rewrite andb_false_iff in H
  | H : (_ <? _) = false \/ _ |- _ => rewrite !Z.ltb_ge in H
  | H : (_ <? _) = false |- _ => rewrite Z.ltb_ge in H
  end; small64.

#[export] Instance streams_op_laws i o :
  0 <= i < count_bound -> 0 <= o < count_bound -> RopLaws (streams_op i o) (streams_delta i o).
Proof.
  intros Hi Ho. constructor.
  - intros []; cbn; lia.
  - intros rc rc' Hw Hadd. within_facts Hw. cbn in Hadd. unfold addStreams in Hadd.
    zchecks Hadd. cbn in *. zcheck_facts.
    split; [|split; [done|intros []; cbn; lia]].
    split; [done|each_of Hw|cbn; lia|done].
  - intros rc rc' e _ Hadd. cbn in Hadd. unfold addStreams in Hadd.
    repeat (destruct (_ : bool); [congruence|]). congruence.
  - intros rc Hw. within_facts Hw. cbn in *.
    destruct (released_small (nstreamsIn rc) i) as [? _]; [unfold count_bound in *; lia..|].
    destruct (released_small (nstreamsOut rc) o) as [? _]; [unfold count_bound in *; lia..|].
    split; [|done]. split; [done|each_of Hw|cbn; lia|done].
  - intros rc Hw Hle. within_facts Hw. cbn in *.
    pose proof (Hle RStreamIn). pose proof (Hle RStreamOut). cbn in *.
    destruct (released_small (nstreamsIn rc) i) as [_ Hr1]; [unfold count_bound in *; lia..|].
    destruct (released_small (nstreamsOut rc) o) as [_ Hr2]; [unfold count_bound in *; lia..|].
    intros []; cbn; rewrite ?Hr1, ?Hr2; lia.
Qed.

#[export] Instance conns_op_laws i o f :
  0 <= i < count_bound -> 0 <= o < count_bound -> 0 <= f < count_bound ->
  RopLaws (conns_op i o f) (conns_delta i o f).
Proof.
  intros Hi Ho Hf. constructor.
  - intros []; cbn; lia.
  - intros rc rc' Hw Hadd. within_facts Hw. cbn in Hadd. unfold addConns in Hadd.
    zchecks Hadd. cbn in *. zcheck_facts.
    split; [|split; [done|intros []; cbn; lia]].
    split; [done|each_of Hw|done|cbn; lia].
  - intros rc rc' e _ Hadd. cbn in Hadd. unfold addConns in Hadd.
    repeat (destruct (_ : bool); [congruence|]). congruence.
  - intros rc Hw. within_facts Hw. cbn in *.
    destruct (released_small (nconnsIn rc) i) as [? _]; [unfold count_bound in *; lia..|].
    destruct (released_small (nconnsOut rc) o) as [? _]; [unfold count_bound in *; lia..|].
    destruct (released_small (nfd rc) f) as [? _]; [unfold count_bound in *; lia..|].
    split; [|done]. split; [done|each_of Hw|done|cbn; lia].
  - intros rc Hw Hle. within_facts Hw. cbn in *.
    pose proof (Hle RConnIn). pose proof (Hle RConnOut). pose proof (Hle RFd). cbn in *.
    destruct (released_small (nconnsIn rc) i) as [_ Hr1]; [unfold count_bound in *; lia..|].
    destruct (released_small (nconnsOut rc) o) as [_ Hr2]; [unfold count_bound in *; lia..|].
    destruct (released_small (nfd rc) f) as [_ Hr3]; [unfold count_bound in *; lia..|].
    intros []; cbn; rewrite ?Hr1, ?Hr2, ?Hr3; lia.
Qed.

Definition dir_streams_delta (dir : Direction) : res -> Z :=
  if is_inbound dir then streams_delta 1 0 else streams_delta 0 1.
Definition dir_conns_delta (dir : Direction) (usefd : bool) : res -> Z :=
  if is_inbound dir then conns_delta 1 0 (fd_of usefd) else conns_delta 0 1 (fd_of usefd).

#[export] Instance stream_op_laws dir : RopLaws (stream_op dir) (dir_streams_delta dir).
Proof. destruct dir; apply streams_op_laws; unfold count_bound; lia. Qed.

#[export] Instance conn_op_laws dir usefd :
  RopLaws (conn_op dir usefd) (dir_conns_delta dir usefd).
Proof. destruct dir, usefd; apply conns_op_laws; unfold count_bound; cbn; lia. Qed.

Definition stat_ok (st : ScopeStat) : Prop := forall r, 0 <= amount st r < count_bound.

Lemma within_stat_ok rc : within rc -> stat_ok (stat rc).
Proof.
  intros Hw r. rewrite usage_stat. pose proof (wi_each _ Hw r).
  pose proof (lo_each _ (wi_limit _ Hw) r). lia.
Qed.

Section stat_laws.
Context (st : ScopeStat) (Hst : stat_ok st).

Let mem := mem_op (Memory st) 255.
Let str := streams_op (NumStreamsInbound st) (NumStreamsOutbound st).
Let con := conns_op (NumConnsInbound st) (NumConnsOutbound st) (NumFD st).

#[local] Instance mem_laws : RopLaws mem (mem_delta (Memory st)).
Proof using Hst.
  apply mem_op_laws; [|unfold is_u8; lia]. pose proof (Hst RMem). cbn in *. unfold count_bound in *. lia.
Qed.
#[local] Instance str_laws :
  RopLaws str (streams_delta (NumStreamsInbound st) (NumStreamsOutbound st)).
Proof using Hst. apply streams_op_laws; [apply (Hst RStreamIn)|apply (Hst RStreamOut)]. Qed.
#[local] Instance con_laws :
  RopLaws con (conns_delta (NumConnsInbound st) (NumConnsOutbound st) (NumFD st)).
Proof using Hst.
  apply conns_op_laws; [apply (Hst RConnIn)|apply (Hst RConnOut)|apply (Hst RFd)].
Qed.

Lemma amount_split r :
  amount st r = mem_delta (Memory st) r +
    streams_delta (NumStreamsInbound st) (NumStreamsOutbound st) r +
    conns_delta (NumConnsInbound st) (NumConnsOutbound st) (NumFD st) r.
Proof. destruct r; cbn; lia. Qed.

Lemma reserveStat_unfold rc :
  reserveStat st rc =
  match op_add mem rc with
  | (Some err, rc1) => (Some err, rc1)
  | (None, rc1) =>
      match op_add str rc1 with
      | (Some err, rc2) => (Some err, op_remove mem rc2)
      | (None, rc2) =>
          match op_add con rc2 with
          | (Some err, rc3) => (Some err, op_remove str (op_remove mem rc3))
          | (None, rc3) => (None, rc3)
          end
      end
  end.
Proof. done. Qed.

Lemma releaseStat_unfold rc : releaseStat st rc = op_remove con (op_remove str (op_remove mem rc)).
Proof. done. Qed.

(** The parts of a released stat, on counters that cover the whole of it. *)
Lemma releaseStat_exact rc :
  within rc -> (forall r, amount st r <= usage rc r) ->
  forall r, usage (releaseStat st rc) r = usage rc r - amount st r.
Proof using Hst.
  intros Hw Hle.
  assert (forall r, mem_delta (Memory st) r <= usage rc r) as H1.
  { intros r. pose proof (Hle r) as Hr. rewrite amount_split in Hr.
    pose proof (rop_nonneg (op := str) r). pose proof (rop_nonneg (op := con) r). lia. }
  pose proof (rop_remove_exact (op := mem) rc Hw H1) as E1.
  destruct (rop_remove_within (op := mem) rc Hw) as [W1 _].
  set (rc1 := op_remove mem rc) in *.
  assert (forall r, streams_delta (NumStreamsInbound st) (NumStreamsOutbound st) r <= usage rc1 r) as H2.
  { intros r. rewrite E1. pose proof (Hle r) as Hr. rewrite amount_split in Hr.
    pose proof (rop_nonneg (op := con) r). lia. }
  pose proof (rop_remove_exact (op := str) rc1 W1 H2) as E2.
  destruct (rop_remove_within (op := str) rc1 W1) as [W2 _].
  set (rc2 := op_remove str rc1) in *.
  assert (forall r, conns_delta (NumConnsInbound st) (NumConnsOutbound st) (NumFD st) r <= usage rc2 r) as H3.
  { intros r. rewrite E2, E1. pose proof (Hle r) as Hr. rewrite amount_split in Hr. lia. }
  intros r. rewrite releaseStat_unfold. fold rc1 rc2.
  rewrite (rop_remove_exact (op := con) rc2 W2 H3), E2, E1, amount_split. lia.
Qed.

#[export] Instance stat_op_laws : RopLaws (stat_op st) (amount st).
Proof using Hst.
  constructor.
  - intros r. apply Hst.
  - intros rc rc' Hw Hadd. cbn in Hadd. rewrite reserveStat_unfold in Hadd.
    destruct (op_add mem rc) as [[e|] rc1] eqn:E1; [done|].
    destruct (op_add str rc1) as [[e|] rc2] eqn:E2; [done|].
    destruct (op_add con rc2) as [[e|] rc3] eqn:E3; [done|]. injection Hadd as <-.
    destruct (rop_add_ok _ _ Hw E1) as (W1 & L1 & U1).
    destruct (rop_add_ok _ _ W1 E2) as (W2 & L2 & U2).
    destruct (rop_add_ok _ _ W2 E3) as (W3 & L3 & U3).
    split; [done|split; [congruence|]]. intros r. rewrite U3, U2, U1, amount_split. lia.
  - intros rc rc' e Hw Hadd. cbn in Hadd. rewrite reserveStat_unfold in Hadd.
    destruct (op_add mem rc) as [[e1|] rc1] eqn:E1.
    { injection Hadd as _ <-. exact (rop_add_err (op := mem) _ _ _ Hw E1). }
    destruct (rop_add_ok _ _ Hw E1) as (W1 & L1 & U1).
    destruct (op_add str rc1) as [[e1|] rc2] eqn:E2.
    { injection Hadd as _ <-. rewrite (rop_add_err (op := str) _ _ _ W1 E2).
      exact (rop_undo mem _ _ _ Hw E1). }
    destruct (rop_add_ok _ _ W1 E2) as (W2 & L2 & U2).
    destruct (op_add con rc2) as [[e1|] rc3] eqn:E3; [|done].
    injection Hadd as _ <-. rewrite (rop_add_err _ _ _ W2 E3).
    pose proof (rop_remove_within (op := mem) rc2 W2) as [W3 L3].
    assert (forall r, mem_delta (Memory st) r <= usage rc2 r) as H1.
    { intros r. rewrite U2, U1. pose proof (wi_each _ Hw r).
      pose proof (rop_nonneg (op := str) r). lia. }
    pose proof (rop_remove_exact (op := mem) rc2 W2 H1) as X1.
    pose proof (rop_remove_within (op := str) _ W3) as [W4 L4].
    assert (forall r, streams_delta (NumStreamsInbound st) (NumStreamsOutbound st) r
              <= usage (op_remove mem rc2) r) as H2.
    { intros r. rewrite X1, U2, U1. pose proof (wi_each _ Hw r). lia. }
    change (op_remove str (op_remove mem rc2) = rc).
    apply resources_ext; [congruence|]. intros r.
    rewrite (rop_remove_exact (op := str) _ W3 H2), X1, U2, U1. lia.
  - intros rc Hw. cbn. rewrite releaseStat_unfold.
    destruct (rop_remove_within (op := mem) rc Hw) as [W1 L1].
    destruct (rop_remove_within (op := str) _ W1) as [W2 L2].
    destruct (rop_remove_within (op := con) _ W2) as [W3 L3].
    split; [done|congruence].
  - intros rc Hw Hle. by apply releaseStat_exact.
Qed.
End stat_laws.

(** a memory reservation is granted exactly when it is not negative and the
    usage stays under [(1 + prio) / 256] of the limit (or the limit is the
    largest integer), although the code computes in 64 bits: its overflow checks
    of the sum and of the product are exact. *)
Theorem memory_check_exact rc rsvp prio :
  0 <= GetMemoryLimit (rc_limit rc) <= mostPositive -> 0 <= memory rc <= mostPositive ->
  is_i64 rsvp -> is_u8 prio ->
  (checkMemory rc rsvp prio = None <->
     0 <= rsvp /\
     (GetMemoryLimit (rc_limit rc) = mostPositive \/
      memory rc + rsvp <= (1 + prio) * GetMemoryLimit (rc_limit rc) / 256)) /\
  (snd (addInt64WithOverflow (memory rc) rsvp) = true <-> is_i64 (memory rc + rsvp)) /\
  (snd (mulInt64WithOverflow (1 + prio) (GetMemoryLimit (rc_limit rc))) = true <->
     is_i64 ((1 + prio) * GetMemoryLimit (rc_limit rc))).
Proof.
  intros Hl Hm Hr Hp. split; [|split].
  - destruct (decide (GetMemoryLimit (rc_limit rc) = mostPositive)) as [E|Hne].
    + unfold checkMemory. rewrite E, Z.eqb_refl. destruct (Z.ltb_spec rsvp 0); split; done || lia || by (split; [|left]).
    + rewrite checkMemory_spec by (done || lia). tauto.
  - apply addInt64WithOverflow_exact; [|done]. unfold is_i64, mostPositive in *. lia.
  - apply mulInt64WithOverflow_exact; unfold is_i64, is_u8, mostPositive in *; lia.
Qed.

Lemma memory_check_exact_witness :
  let rc := mkResources (mkLimit (2 ^ 62) (fun _ => 0) 0 (fun _ => 0) 0 0) 0 0 0 0 0 (2 ^ 60) in
  checkMemory rc (2 ^ 60) 127 = None /\
  snd (mulInt64WithOverflow 128 (2 ^ 62)) = false /\
  2 ^ 60 + 2 ^ 60 <= (1 + 127) * 2 ^ 62 / 256.
Proof.
  intros rc.
  destruct (memory_check_exact rc (2 ^ 60) 127) as (H1 & _ & H3);
    [cbn; unfold mostPositive; lia|cbn; unfold mostPositive; lia|unfold is_i64; lia|unfold is_u8; lia|].
  assert (checkMemory rc (2 ^ 60) 127 = None) as Hc by (vm_compute; reflexivity).
  split; [exact Hc|]. split; [vm_compute; reflexivity|].
  destruct (proj1 H1 Hc) as [_ [Hx|Hx]]; [discriminate Hx|exact Hx].
Defined.

(** With the largest limit nothing is checked, and the counter wraps: a scope
    without a memory limit can come to use a negative amount. *)
Lemma unlimited_memory_wraps :
  let rc := mkResources (mkLimit mostPositive (fun _ => 0) 0 (fun _ => 0) 0 0) 0 0 0 0 0 mostPositive in
  reserveMemory 1 255 rc = (None, rc <| memory := - 2 ^ 63 |>).
Proof. reflexivity. Qed.
