(* ===== verification/RcScope.v ===== *)
(** The scopes of the resource manager:
    src/myvendor/go-libp2p/p2p/host/resource-manager/scope.go (the type
    [resourceScope]) and [SetLimit] of extapi.go.

    Scopes are pointers into a heap; a scope is either a span, with an owner, or
    a node of the DAG, with the linearized list of its constraining scopes.  The
    code writes the same pattern three times, for memory, streams and
    connections (and a fourth time for a whole stat); here it is written once,
    for an operation [rop] on the counters, and the methods are its instances.

    A method holds the lock of its scope while it works on the owner or the
    edges: the model runs it to its end.  Traces, metrics and logs, and the stats that the [ForChild] methods return
    for the logs, are left out. *)

From stdpp Require Import gmap strings list.
From S2P Require Import Prelude RcResources TunnelAddr.
#[local] Open Scope Z_scope.

Record resourceScope := mkScope {
  done : bool;
  refCnt : Z;
  spanID : Z;
  rc : resources;
  owner : option nat;
  edges : list nat;
  sname : string;
}.

#[export] Instance resourceScope_eta : Eta resourceScope := fun s =>
  mkScope (done s) (refCnt s) (spanID s) (rc s) (owner s) (edges s) (sname s).

(** The allocated scopes; a new one gets the address [next]. *)
Record heap := mkHeap { scopes : gmap nat resourceScope; next : nat }.
#[export] Instance heap_eta : Eta heap := fun h => mkHeap (scopes h) (next h).

Definition empty_heap : heap := mkHeap ∅ 0.

Definition getScope (s : nat) : M heap resourceScope := deref (fun h => scopes h !! s).
Definition updScope (s : nat) (f : resourceScope -> resourceScope) : M heap () :=
  modify (fun h => h <| scopes := alter f s (scopes h) |>).
Definition alloc (sc : resourceScope) : M heap nat :=
  s <- gets next ;;
  modify (fun h => mkHeap (<[s := sc]> (scopes h)) (S (next h))) ;;
  ret s.

Definition wrapError (sc : resourceScope) (err : rcerror) : rcerror := ErrWrapped (sname sc) err.
Definition wrapErr (sc : resourceScope) (err : option rcerror) : option rcerror :=
  wrapError sc <$> err.

(** ** References *)

Definition IncRef (s : nat) : M heap () :=
  _ <- getScope s ;; updScope s (fun sc => sc <| refCnt := refCnt sc + 1 |>).
Definition DecRef (s : nat) : M heap () :=
  _ <- getScope s ;; updScope s (fun sc => sc <| refCnt := refCnt sc - 1 |>).

(** A [for] loop over a list of scopes. *)
Fixpoint for_each (l : list nat) (f : nat -> M heap ()) : M heap () :=
  match l with
  | [] => ret ()
  | e :: l' => f e ;; for_each l' f
  end.

Definition fresh_resources (limit : Limit) : resources := mkResources limit 0 0 0 0 0 0.

Definition newResourceScope (limit : Limit) (es : list nat) (name : string) : M heap nat :=
  for_each es IncRef ;;
  alloc (mkScope false 0 0 (fresh_resources limit) None es name).

Definition newResourceScopeSpan (o : nat) (id : Z) : M heap nat :=
  osc <- getScope o ;;
  alloc (mkScope false 0 0 (fresh_resources (rc_limit (rc osc))) (Some o) []
           (sname osc +:+ ".span-" +:+ itoa id)).

(** [IsSpan(name)]: [strings.Contains(name, ".span-")]. *)
Fixpoint IsSpan (name : string) : bool :=
  String.prefix ".span-" name ||
  match name with
  | EmptyString => false
  | String _ rest => IsSpan rest
  end.

(** ** Reservations *)

Definition add_for_child (op : rop) (e : nat) : M heap (option rcerror) :=
  sc <- getScope e ;;
  if done sc then ret (Some (wrapError sc ErrResourceScopeClosed))
  else
    let '(err, rc') := op_add op (rc sc) in
    updScope e (fun sc => sc <| rc := rc' |>) ;;
    ret (wrapErr sc err).

Definition remove_for_child (op : rop) (e : nat) : M heap () :=
  sc <- getScope e ;;
  if done sc then ret ()
  else updScope e (fun sc => sc <| rc := op_remove op (rc sc) |>).

(** The loop of the [ForEdges] methods up to the first error, with the number of
    edges that were reserved. *)
Fixpoint reserve_edges (op : rop) (es : list nat) : M heap (option rcerror * nat) :=
  match es with
  | [] => ret (None, 0%nat)
  | e :: es' =>
      err <- add_for_child op e ;;
      match err with
      | Some _ => ret (err, 0%nat)
      | None => ' (err', reserved) <- reserve_edges op es' ;; ret (err', S reserved)
      end
  end.

Definition add_for_edges (op : rop) (es : list nat) : M heap (option rcerror) :=
  ' (err, reserved) <- reserve_edges op es ;;
  match err with
  | Some _ => for_each (take reserved es) (remove_for_child op) ;; ret err
  | None => ret None
  end.

(** A reservation: on the scope itself, then on its owner or its edges; the
    scope's own part is undone when they refuse.  Owners are older than their
    spans, so that the address bounds the length of the chain ([fuel]). *)
Fixpoint scope_add (fuel : nat) (op : rop) (s : nat) : M heap (option rcerror) :=
  match fuel with
  | O => panic
  | S fuel =>
      sc <- getScope s ;;
      if done sc then ret (Some (wrapError sc ErrResourceScopeClosed))
      else
        let '(err, rc') := op_add op (rc sc) in
        updScope s (fun sc => sc <| rc := rc' |>) ;;
        match err with
        | Some _ => ret (wrapErr sc err)
        | None =>
            err <- (match owner sc with
                    | Some o => scope_add fuel op o
                    | None => add_for_edges op (edges sc)
                    end) ;;
            match err with
            | Some _ =>
                updScope s (fun sc => sc <| rc := op_remove op (rc sc) |>) ;;
                ret (wrapErr sc err)
            | None => ret None
            end
        end
  end.

(** A release: on the scope, then on its owner or on its edges.
    [removeConnForEdges] lacks the [return] after the owner ([falls_through]):
    a span has no edges, so that the loop that follows does nothing. *)
Fixpoint scope_remove (fuel : nat) (falls_through : bool) (op : rop) (s : nat) : M heap () :=
  match fuel with
  | O => panic
  | S fuel =>
      sc <- getScope s ;;
      if done sc then ret ()
      else
        updScope s (fun sc => sc <| rc := op_remove op (rc sc) |>) ;;
        match owner sc with
        | Some o =>
            scope_remove fuel falls_through op o ;;
            when falls_through (for_each (edges sc) (remove_for_child op))
        | None => for_each (edges sc) (remove_for_child op)
        end
  end.

Definition ReserveMemory (s : nat) (size prio : Z) : M heap (option rcerror) :=
  scope_add (S s) (mem_op size prio) s.
Definition ReserveMemoryForChild (s : nat) (size prio : Z) : M heap (option rcerror) :=
  add_for_child (mem_op size prio) s.
Definition ReleaseMemory (s : nat) (size : Z) : M heap () :=
  scope_remove (S s) false (mem_op size 0) s.
Definition ReleaseMemoryForChild (s : nat) (size : Z) : M heap () :=
  remove_for_child (mem_op size 0) s.

Definition AddStream (s : nat) (dir : Direction) : M heap (option rcerror) :=
  scope_add (S s) (stream_op dir) s.
Definition AddStreamForChild (s : nat) (dir : Direction) : M heap (option rcerror) :=
  add_for_child (stream_op dir) s.
Definition RemoveStream (s : nat) (dir : Direction) : M heap () :=
  scope_remove (S s) false (stream_op dir) s.
Definition RemoveStreamForChild (s : nat) (dir : Direction) : M heap () :=
  remove_for_child (stream_op dir) s.

Definition AddConn (s : nat) (dir : Direction) (usefd : bool) : M heap (option rcerror) :=
  scope_add (S s) (conn_op dir usefd) s.
Definition AddConnForChild (s : nat) (dir : Direction) (usefd : bool) : M heap (option rcerror) :=
  add_for_child (conn_op dir usefd) s.
Definition RemoveConn (s : nat) (dir : Direction) (usefd : bool) : M heap () :=
  scope_remove (S s) true (conn_op dir usefd) s.
Definition RemoveConnForChild (s : nat) (dir : Direction) (usefd : bool) : M heap () :=
  remove_for_child (conn_op dir usefd) s.

Definition ReserveForChild (s : nat) (st : ScopeStat) : M heap (option rcerror) :=
  add_for_child (stat_op st) s.
Definition ReleaseForChild (s : nat) (st : ScopeStat) : M heap () :=
  remove_for_child (stat_op st) s.
Definition ReleaseResources (s : nat) (st : ScopeStat) : M heap () :=
  scope_remove (S s) false (stat_op st) s.

(** ** Spans and the end of a scope *)

Definition nextSpanID (s : nat) : M heap Z :=
  updScope s (fun sc => sc <| spanID := spanID sc + 1 |>) ;;
  sc <- getScope s ;; ret (spanID sc).

Definition BeginSpan (s : nat) : M heap (rcerror + nat) :=
  sc <- getScope s ;;
  if done sc then ret (inl (wrapError sc ErrResourceScopeClosed))
  else
    updScope s (fun sc => sc <| refCnt := refCnt sc + 1 |>) ;;
    id <- nextSpanID s ;;
    span <- newResourceScopeSpan s id ;;
    ret (inr span).

(** [rc] with every counter reset. *)
Definition cleared (rc : resources) : resources :=
  rc <| nstreamsIn := 0 |> <| nstreamsOut := 0 |> <| nconnsIn := 0 |> <| nconnsOut := 0 |>
     <| nfd := 0 |> <| memory := 0 |>.

Definition doneUnlocked (s : nat) : M heap () :=
  sc <- getScope s ;;
  if done sc then ret ()
  else
    let st := stat (rc sc) in
    (match owner sc with
     | Some o => ReleaseResources o st ;; DecRef o
     | None => for_each (edges sc) (fun e => ReleaseForChild e st ;; DecRef e)
     end) ;;
    updScope s (fun sc => sc <| rc := cleared (rc sc) |> <| done := true |>).

Definition Done (s : nat) : M heap () := doneUnlocked s.

Definition Stat (s : nat) : M heap ScopeStat := sc <- getScope s ;; ret (stat (rc sc)).

(** Memory is not looked at. *)
Definition unused (sc : resourceScope) : bool :=
  done sc ||
  (negb (0 <? refCnt sc) &&
   let st := stat (rc sc) in
   (NumStreamsInbound st =? 0) && (NumStreamsOutbound st =? 0) &&
   (NumConnsInbound st =? 0) && (NumConnsOutbound st =? 0) && (NumFD st =? 0)).

Definition IsUnused (s : nat) : M heap bool := sc <- getScope s ;; ret (unused sc).

Definition SetLimit (s : nat) (limit : Limit) : M heap () :=
  _ <- getScope s ;; updScope s (fun sc => sc <| rc := (rc sc) <| rc_limit := limit |> |>).

