(* ===== verification/RcScopeProps.v ===== *)
(** What the scopes of RcScope.v guarantee: a reservation is all or nothing
    along the chain of constraining scopes, a release gives back exactly what
    was reserved, no scope is ever above its limits, and the usage of a scope is
    the sum of what is held below it. *)

From stdpp Require Import gmap strings list.
From S2P Require Import Prelude RcResources TunnelAddr RcScope.
#[local] Open Scope Z_scope.

(** ** Heaps and changes of the counters *)

(** Applies [f] to the counters of the scopes of a list. *)
Definition on_rc (f : resources -> resources) (l : list nat) (h : heap) : heap :=
  h <| scopes := foldl (fun m k => alter (fun sc => sc <| rc := f (rc sc) |>) k m) (scopes h) l |>.

Definition with_rc (f : resources -> resources) (sc : resourceScope) : resourceScope :=
  sc <| rc := f (rc sc) |>.

Lemma Ok_inj {S A} (a b : A) (s t : S) : Ok (a, s) = Ok (b, t) -> a = b /\ s = t.
Proof. by intros [= -> ->]. Qed.

Lemma alter_alter {A} (f g : A -> A) k (m : gmap nat A) :
  alter g k (alter f k m) = alter (fun x => g (f x)) k m.
Proof.
  apply map_eq. intros j. destruct (decide (j = k)) as [->|Hj].
  - rewrite !lookup_alter_eq. by destruct (m !! k).
  - by rewrite !lookup_alter_ne by congruence.
Qed.

Lemma heap_ext h h' : next h = next h' -> scopes h = scopes h' -> h = h'.
Proof. destruct h, h'; cbn. by intros -> ->. Qed.

Lemma on_rc_nil f h : on_rc f [] h = h.
Proof. by destruct h. Qed.

Lemma on_rc_cons f k l h : on_rc f (k :: l) h = on_rc f l (on_rc f [k] h).
Proof. done. Qed.

Lemma lookup_on_rc f l h k :
  NoDup l ->
  scopes (on_rc f l h) !! k =
    if bool_decide (k ∈ l) then with_rc f <$> scopes h !! k else scopes h !! k.
Proof.
  unfold on_rc; cbn. generalize (scopes h) as m. induction l as [|j l IH]; intros m Hnd; [done|].
  apply NoDup_cons in Hnd as [Hj Hnd]. cbn. rewrite IH by done.
  destruct (decide (k = j)) as [->|Hne].
  - rewrite (bool_decide_eq_false_2 (j ∈ l)) by done.
    rewrite bool_decide_eq_true_2 by (by apply list_elem_of_here).
    by rewrite lookup_alter_eq.
  - rewrite lookup_alter_ne by congruence.
    by rewrite (bool_decide_ext (k ∈ j :: l) (k ∈ l)) by (rewrite elem_of_cons; tauto).
Qed.

Lemma on_rc_in f l h k : NoDup l -> k ∈ l -> scopes (on_rc f l h) !! k = with_rc f <$> scopes h !! k.
Proof. intros Hnd Hk. rewrite lookup_on_rc by done. by rewrite bool_decide_eq_true_2. Qed.

Lemma on_rc_out f l h k : NoDup l -> k ∉ l -> scopes (on_rc f l h) !! k = scopes h !! k.
Proof. intros Hnd Hk. rewrite lookup_on_rc by done. by rewrite bool_decide_eq_false_2. Qed.

Lemma with_rc_id f sc : f (rc sc) = rc sc -> with_rc f sc = sc.
Proof. intros Hf. unfold with_rc, set_field. cbn. rewrite Hf. by destruct sc. Qed.

Lemma on_rc_undo f g l h :
  NoDup l -> (forall k sc, k ∈ l -> scopes h !! k = Some sc -> g (f (rc sc)) = rc sc) ->
  on_rc g l (on_rc f l h) = h.
Proof.
  intros Hnd Hgf. apply heap_ext; [done|]. apply map_eq. intros k.
  rewrite !lookup_on_rc by done. case_bool_decide as Hk; [|done].
  destruct (scopes h !! k) as [sc|] eqn:Hs; [|done]. cbn. f_equal.
  change (with_rc g (with_rc f sc)) with (with_rc (fun r => g (f r)) sc).
  apply with_rc_id. by eapply Hgf.
Qed.

(** A heap as the code builds it. *)
Record scope_wf (h : heap) (s : nat) (sc : resourceScope) : Prop := {
  sw_next : (s < next h)%nat;
  sw_owner : forall o, owner sc = Some o ->
    (o < s)%nat /\ is_Some (scopes h !! o) /\ edges sc = [];
  sw_edges : forall e, e ∈ edges sc ->
    e <> s /\ exists esc, scopes h !! e = Some esc /\ owner esc = None;
  sw_nodup : NoDup (edges sc);
  sw_within : within (rc sc);
}.

Definition heap_wf (h : heap) : Prop := forall s sc, scopes h !! s = Some sc -> scope_wf h s sc.

(** Two heaps with the same scopes, of the same shape. *)
Definition same_shape (h h' : heap) : Prop :=
  next h = next h' /\
  forall k, option_relation (fun sc sc' => owner sc = owner sc' /\ edges sc = edges sc')
              (fun _ => False) (fun _ => False) (scopes h !! k) (scopes h' !! k).

Lemma same_shape_wf h h' :
  heap_wf h -> same_shape h h' ->
  (forall k sc', scopes h' !! k = Some sc' -> within (rc sc')) -> heap_wf h'.
Proof.
  intros Hwf [Hn Hsh] Hin k sc' Hk. pose proof (Hsh k) as Hrel. rewrite Hk in Hrel.
  destruct (scopes h !! k) as [sc|] eqn:Hsc; [|done]. destruct Hrel as [Ho He].
  destruct (Hwf k sc Hsc) as [H1 H2 H3 H4 H5]. split.
  - lia.
  - intros o Hown. rewrite <- Ho in Hown. destruct (H2 o Hown) as (? & [x Hx] & Hnil).
    split; [done|split; [|congruence]]. pose proof (Hsh o) as Hr. rewrite Hx in Hr.
    destruct (scopes h' !! o); [by eexists|done].
  - intros e Hin'. rewrite <- He in Hin'. destruct (H3 e Hin') as (? & esc & Hx & Hnone).
    split; [done|]. pose proof (Hsh e) as Hr. rewrite Hx in Hr.
    destruct (scopes h' !! e) as [esc'|]; [|done]. exists esc'. destruct Hr; split; congruence.
  - by rewrite <- He.
  - by apply (Hin k).
Qed.

Lemma on_rc_shape f l h : same_shape h (on_rc f l h).
Proof.
  split; [done|]. intros k. unfold on_rc; cbn.
  enough (forall m, option_relation (fun sc sc' => owner sc = owner sc' /\ edges sc = edges sc')
    (fun _ => False) (fun _ => False) (m !! k)
    (foldl (fun m k => alter (fun sc => sc <| rc := f (rc sc) |>) k m) m l !! k)) as Hm by apply Hm.
  induction l as [|j l IH]; intros m; cbn.
  - by destruct (m !! k).
  - specialize (IH (alter (fun sc => sc <| rc := f (rc sc) |>) j m)).
    destruct (decide (j = k)) as [->|Hne].
    + rewrite lookup_alter_eq in IH. by destruct (m !! k).
    + by rewrite lookup_alter_ne in IH.
Qed.

Lemma on_rc_wf f l h :
  NoDup l -> heap_wf h ->
  (forall k sc, k ∈ l -> scopes h !! k = Some sc -> within (f (rc sc))) ->
  heap_wf (on_rc f l h).
Proof.
  intros Hnd Hwf Hf. apply (same_shape_wf h); [done|apply on_rc_shape|].
  intros k sc' Hk. rewrite lookup_on_rc in Hk by done. case_bool_decide as Hin.
  - destruct (scopes h !! k) as [sc|] eqn:Hsc; [|done]. injection Hk as <-. by apply (Hf k).
  - by apply (Hwf k).
Qed.

(** The scopes that constrain a scope: itself, its owners, and the edges of the
    root of its spans. *)
Fixpoint constraints (fuel : nat) (h : heap) (s : nat) : list nat :=
  match fuel with
  | O => []
  | S fuel =>
      match scopes h !! s with
      | None => []
      | Some sc =>
          s :: match owner sc with
               | Some o => constraints fuel h o
               | None => edges sc
               end
      end
  end.

Definition chain (h : heap) (s : nat) : list nat := constraints (S s) h s.

Lemma constraints_shape h h' fuel s :
  same_shape h h' -> constraints fuel h s = constraints fuel h' s.
Proof.
  intros [Hn Hsh]. revert s. induction fuel as [|fuel IH]; intros s; cbn; [done|].
  pose proof (Hsh s) as Hrel.
  destruct (scopes h !! s) as [sc|], (scopes h' !! s) as [sc'|]; try done.
  destruct Hrel as [-> ->]. destruct (owner sc'); [by rewrite IH|done].
Qed.

Lemma constraints_in h fuel s k :
  heap_wf h -> k ∈ constraints fuel h s ->
  is_Some (scopes h !! k) /\
  ((k <= s)%nat \/ exists sc, scopes h !! k = Some sc /\ owner sc = None).
Proof.
  intros Hwf. revert s. induction fuel as [|fuel IH]; intros s Hk; cbn in Hk; [by apply elem_of_nil in Hk|].
  destruct (scopes h !! s) as [sc|] eqn:Hs; [|by apply elem_of_nil in Hk].
  destruct (Hwf s sc Hs) as [_ Hown Hedge _ _].
  apply elem_of_cons in Hk as [->|Hk]; [split; [by rewrite Hs|left; lia]|].
  destruct (owner sc) as [o|].
  - destruct (Hown o eq_refl) as (Ho & _ & _). destruct (IH o Hk) as [? [?|?]]; split; auto; left; lia.
  - destruct (Hedge k Hk) as (_ & esc & Hx & Hnone). split; [by rewrite Hx|right; eauto].
Qed.

Lemma constraints_nodup h fuel s : heap_wf h -> NoDup (constraints fuel h s).
Proof.
  intros Hwf. revert s. induction fuel as [|fuel IH]; intros s; cbn; [apply NoDup_nil_2|].
  destruct (scopes h !! s) as [sc|] eqn:Hs; [|apply NoDup_nil_2].
  destruct (Hwf s sc Hs) as [_ Hown Hedge Hnd _]. apply NoDup_cons.
  destruct (owner sc) as [o|] eqn:Ho.
  - destruct (Hown o eq_refl) as (Hlt & _ & _). split; [|apply IH]. intros Hin.
    destruct (constraints_in h fuel o s Hwf Hin) as [_ [?|(sc' & Hs' & Hnone)]]; [lia|congruence].
  - split; [|done]. intros Hin. by destruct (Hedge s Hin).
Qed.

(** ** Reservations are all or nothing *)

(** The counters after a granted reservation. *)
Definition granted (op : rop) (rc : resources) : resources := snd (op_add op rc).

(** A scope that is open and has room. *)
Definition admits (op : rop) (h : heap) (k : nat) : Prop :=
  exists sc, scopes h !! k = Some sc /\ done sc = false /\ fst (op_add op (rc sc)) = None.

Section reservation.
Context (op : rop) (delta : res -> Z) `{!RopLaws op delta}.

Lemma granted_within h k :
  heap_wf h -> admits op h k ->
  forall sc, scopes h !! k = Some sc ->
  within (granted op (rc sc)) /\ op_remove op (granted op (rc sc)) = rc sc /\
  rc_limit (granted op (rc sc)) = rc_limit (rc sc) /\
  forall r, usage (granted op (rc sc)) r = usage (rc sc) r + delta r.
Proof using RopLaws0.
  intros Hwf (sc' & Hk & _ & Hok) sc Hk'. rewrite Hk in Hk'. injection Hk' as ->.
  unfold granted. pose proof (sw_within _ _ _ (Hwf k sc Hk)) as Hw.
  destruct (op_add op (rc sc)) as [err rc'] eqn:E; cbn in *. subst err.
  destruct (rop_add_ok _ _ Hw E) as (? & ? & ?).
  split; [done|split; [by eapply rop_undo|done]].
Qed.

Lemma admits_on_rc f l h k : NoDup l -> k ∉ l -> admits op (on_rc f l h) k <-> admits op h k.
Proof. intros Hnd Hk. unfold admits. by rewrite on_rc_out by done. Qed.

Lemma grant_wf l h :
  NoDup l -> heap_wf h -> (forall k, k ∈ l -> admits op h k) -> heap_wf (on_rc (granted op) l h).
Proof using RopLaws0.
  intros Hnd Hwf Had. apply on_rc_wf; [done..|]. intros k sc Hk Hsc.
  by apply (granted_within h k Hwf (Had k Hk)).
Qed.

(** The counters of one scope are written with what they already were. *)
Lemma on_rc_same f k h :
  (forall sc, scopes h !! k = Some sc -> f (rc sc) = rc sc) -> on_rc f [k] h = h.
Proof.
  intros Hf. apply heap_ext; [done|]. apply map_eq. intros j.
  rewrite lookup_on_rc by apply NoDup_singleton. case_bool_decide as Hj; [|done].
  apply list_elem_of_singleton in Hj as ->. destruct (scopes h !! k) eqn:Hk; [|done].
  cbn. by rewrite with_rc_id by (by apply Hf).
Qed.

Lemma on_rc_ext f g l h :
  NoDup l -> (forall k sc, k ∈ l -> scopes h !! k = Some sc -> f (rc sc) = g (rc sc)) ->
  on_rc f l h = on_rc g l h.
Proof.
  intros Hnd Hfg. apply heap_ext; [done|]. apply map_eq. intros j.
  rewrite !lookup_on_rc by done. case_bool_decide as Hj; [|done].
  destruct (scopes h !! j) eqn:Hk; [|done]. cbn. unfold with_rc. by rewrite (Hfg j).
Qed.

Lemma updScope_on_rc f k h :
  updScope k (fun sc => sc <| rc := f (rc sc) |>) h = Ok ((), on_rc f [k] h).
Proof. done. Qed.

Lemma add_for_child_spec h e :
  heap_wf h -> is_Some (scopes h !! e) ->
  exists err, add_for_child op e h =
    Ok (err, match err with None => on_rc (granted op) [e] h | Some _ => h end) /\
  (err = None <-> admits op h e).
Proof using RopLaws0.
  intros Hwf [sc He]. unfold add_for_child, bind, getScope, deref. rewrite He.
  destruct (done sc) eqn:Hd.
  - exists (Some (wrapError sc ErrResourceScopeClosed)). split; [done|].
    split; [done|]. intros (sc' & He' & Hd' & _). congruence.
  - pose proof (sw_within _ _ _ (Hwf e sc He)) as Hw.
    destruct (op_add op (rc sc)) as [err rc'] eqn:E. exists (wrapErr sc err).
    rewrite (updScope_on_rc (fun _ => rc')). unfold ret. destruct err as [x|]; cbn.
    + rewrite (on_rc_same (fun _ => rc')).
      * split; [done|]. split; [done|]. intros (sc' & He' & _ & Hok).
        rewrite He in He'. injection He' as <-. by rewrite E in Hok.
      * intros sc' He'. rewrite He in He'. injection He' as <-. by rewrite (rop_add_err _ _ _ Hw E).
    + split; [|split; [|done]].
      * do 2 f_equal. apply on_rc_ext; [apply NoDup_singleton|]. intros k sc' Hk Hsc'.
        apply list_elem_of_singleton in Hk as ->. rewrite He in Hsc'. injection Hsc' as <-.
        unfold granted. by rewrite E.
      * intros _. exists sc. by rewrite E.
Qed.

Lemma reserve_edges_spec es h :
  heap_wf h -> NoDup es -> (forall e, e ∈ es -> is_Some (scopes h !! e)) ->
  exists err n, reserve_edges op es h = Ok ((err, n), on_rc (granted op) (take n es) h) /\
    (forall e, e ∈ take n es -> admits op h e) /\
    (err = None -> take n es = es) /\
    (err = None <-> forall e, e ∈ es -> admits op h e).
Proof using RopLaws0.
  revert h. induction es as [|e es IH]; intros h Hwf Hnd Hin.
  { exists None, 0%nat. refine (conj _ (conj _ (conj _ _))); [by rewrite on_rc_nil|by intros e ?%elem_of_nil|done|].
    split; [|done]. by intros _ e ?%elem_of_nil. }
  apply NoDup_cons in Hnd as [He Hnd].
  destruct (add_for_child_spec h e Hwf (Hin e ltac:(by apply list_elem_of_here))) as (err & E & Hadm).
  cbn [reserve_edges]. unfold bind at 1. rewrite E. destruct err as [x|].
  - exists (Some x), 0%nat. refine (conj _ (conj _ (conj _ _))); [by rewrite on_rc_nil|by intros k ?%elem_of_nil|done|].
    split; [done|]. intros Hall. apply Hadm, Hall, list_elem_of_here.
  - pose proof (proj1 Hadm eq_refl) as Had.
    assert (NoDup [e]) as Hnd1 by apply NoDup_singleton.
    assert (forall k, k ∈ [e] -> admits op h k) as Had1
      by (intros k Hk; apply list_elem_of_singleton in Hk as ->; exact Had).
    destruct (IH (on_rc (granted op) [e] h)) as (err & n & E' & Hpre & Hfull & Hiff).
    + by apply grant_wf.
    + done.
    + intros k Hk. rewrite lookup_on_rc by done. destruct (Hin k ltac:(by apply list_elem_of_further)) as [y Hy].
      rewrite Hy. case_bool_decide; by eexists.
    + exists err, (S n). unfold bind. rewrite E'. cbn [ret take].
      assert (forall k, k ∈ es -> k ∉ [e]) as Hne.
      { intros k Hk ->%list_elem_of_singleton. done. }
      refine (conj _ (conj _ (conj _ _))); [done| | |].
      * intros k [->|Hk]%elem_of_cons; [done|].
        rewrite <- (admits_on_rc (granted op) [e]); [by apply Hpre|done|].
        apply Hne. eapply subseteq_take, Hk.
      * intros Hn. by rewrite (Hfull Hn).
      * rewrite Hiff. split.
        -- intros Hall k [->|Hk]%elem_of_cons; [done|].
           rewrite <- (admits_on_rc (granted op) [e]); [by apply Hall|done|by apply Hne].
        -- intros Hall k Hk. rewrite admits_on_rc; [|done|by apply Hne].
           by apply Hall, list_elem_of_further.
Qed.

(** Giving back what a list of open scopes was granted. *)
Lemma for_each_remove l h :
  NoDup l -> (forall k, k ∈ l -> exists sc, scopes h !! k = Some sc /\ done sc = false) ->
  for_each l (remove_for_child op) h = Ok ((), on_rc (op_remove op) l h).
Proof.
  revert h. induction l as [|k l IH]; intros h Hnd Hin; [by rewrite on_rc_nil|].
  apply NoDup_cons in Hnd as [Hk Hnd]. cbn [for_each].
  destruct (Hin k ltac:(by apply list_elem_of_here)) as (sc & Hs & Hd).
  unfold bind at 1, remove_for_child, bind at 1, getScope, deref. rewrite Hs, Hd.
  rewrite updScope_on_rc. rewrite IH; [done|done|]. intros j Hj.
  destruct (Hin j ltac:(by apply list_elem_of_further)) as (scj & Hsj & Hdj).
  exists scj. rewrite on_rc_out; [done|apply NoDup_singleton|].
  intros ->%list_elem_of_singleton. done.
Qed.

Lemma add_for_edges_spec es h :
  heap_wf h -> NoDup es -> (forall e, e ∈ es -> is_Some (scopes h !! e)) ->
  exists err, add_for_edges op es h =
    Ok (err, match err with None => on_rc (granted op) es h | Some _ => h end) /\
  (err = None <-> forall e, e ∈ es -> admits op h e).
Proof using RopLaws0.
  intros Hwf Hnd Hin.
  destruct (reserve_edges_spec es h Hwf Hnd Hin) as (err & n & E & Hpre & Hfull & Hiff).
  exists err. split; [|done]. unfold add_for_edges, bind. rewrite E. destruct err as [x|].
  - assert (NoDup (take n es)) as Hnd' by (by eapply sublist_NoDup, sublist_take).
    rewrite for_each_remove; [|done|].
    + cbn. rewrite on_rc_undo; [done|done|]. intros k sc Hk Hs.
      by apply (granted_within h k Hwf (Hpre k Hk)).
    + intros k Hk. destruct (Hpre k Hk) as (sc & Hs & Hd & _).
      exists (with_rc (granted op) sc). by rewrite on_rc_in, Hs.
  - cbn. by rewrite Hfull.
Qed.

(** A reservation is granted exactly when every constraining scope is open and
    has room; then each of them accounts for it.  Otherwise nothing changed. *)
Lemma scope_add_spec fuel s h :
  (s < fuel)%nat -> heap_wf h -> is_Some (scopes h !! s) ->
  exists err, scope_add fuel op s h =
    Ok (err, match err with None => on_rc (granted op) (constraints fuel h s) h | Some _ => h end) /\
  (err = None <-> forall k, k ∈ constraints fuel h s -> admits op h k).
Proof using RopLaws0.
  revert s h. induction fuel as [|fuel IH]; intros s h Hfuel Hwf [sc Hs]; [lia|].
  cbn [scope_add constraints]. rewrite Hs. unfold bind at 1, getScope, deref. rewrite Hs.
  set (rest := match owner sc with Some o => constraints fuel h o | None => edges sc end).
  destruct (done sc) eqn:Hd.
  { exists (Some (wrapError sc ErrResourceScopeClosed)). split; [done|]. split; [done|].
    intros Hall. destruct (Hall s ltac:(by apply list_elem_of_here)) as (sc' & Hs' & Hd' & _). congruence. }
  pose proof (Hwf s sc Hs) as [_ Hown Hedge Hnd Hw].
  destruct (op_add op (rc sc)) as [err rc'] eqn:E. unfold bind at 1.
  rewrite (updScope_on_rc (fun _ => rc')). destruct err as [x|].
  { rewrite (on_rc_same (fun _ => rc')).
    - exists (wrapErr sc (Some x)). split; [done|]. split; [done|]. intros Hall.
      destruct (Hall s ltac:(by apply list_elem_of_here)) as (sc' & Hs' & _ & Hok).
      rewrite Hs in Hs'. injection Hs' as <-. by rewrite E in Hok.
    - intros sc' Hs'. rewrite Hs in Hs'. injection Hs' as <-. by rewrite (rop_add_err _ _ _ Hw E). }
  assert (admits op h s) as Had by (exists sc; by rewrite E).
  assert (NoDup [s]) as Hnd1 by apply NoDup_singleton.
  assert (forall k, k ∈ [s] -> admits op h k) as Had1
    by (intros k Hk; apply list_elem_of_singleton in Hk as ->; exact Had).
  replace (on_rc (fun _ => rc') [s] h) with (on_rc (granted op) [s] h).
  2: { apply on_rc_ext; [done|]. intros k sc' Hk Hsc'. apply list_elem_of_singleton in Hk as ->.
       rewrite Hs in Hsc'. injection Hsc' as <-. unfold granted. by rewrite E. }
  set (h1 := on_rc (granted op) [s] h).
  assert (heap_wf h1) as Hwf1 by (by apply grant_wf).
  pose proof (on_rc_shape (granted op) [s] h) as Hshape. fold h1 in Hshape.
  assert (s ∉ rest) as Hsrest.
  { pose proof (constraints_nodup h (S fuel) s Hwf) as Hn. cbn in Hn. rewrite Hs in Hn.
    by apply NoDup_cons in Hn as [Hn _]. }
  assert (exists err, (match owner sc with
                       | Some o => scope_add fuel op o
                       | None => add_for_edges op (edges sc)
                       end) h1 =
      Ok (err, match err with None => on_rc (granted op) rest h1 | Some _ => h1 end) /\
      (err = None <-> forall k, k ∈ rest -> admits op h1 k)) as (err & Hrun & Hiff).
  { subst rest. destruct (owner sc) as [o|].
    - destruct (Hown o eq_refl) as (Hlt & [osc Ho] & _).
      rewrite (constraints_shape h h1 fuel o Hshape). apply IH; [lia|done|].
      unfold h1. rewrite on_rc_out, Ho; [by eexists|done|]. intros ->%list_elem_of_singleton. lia.
    - apply add_for_edges_spec; [done..|]. intros e He. destruct (Hedge e He) as (Hne & esc & Hx & _).
      unfold h1. rewrite on_rc_out, Hx; [by eexists|done|]. by intros ->%list_elem_of_singleton. }
  unfold bind. rewrite Hrun. exists (wrapErr sc err). destruct err as [x|]; cbv beta iota.
  - rewrite updScope_on_rc. cbn [wrapErr option_fmap fmap option_map ret]. unfold h1. rewrite on_rc_undo; [|done|].
    + split; [done|]. split; [done|]. intros Hall. exfalso. enough (Some x = None) by done.
      apply Hiff. intros k Hk. unfold h1. apply admits_on_rc; [done| |by apply Hall, list_elem_of_further].
      by intros ->%list_elem_of_singleton.
    + intros k sc' Hk Hsc'. by apply (granted_within h k Hwf (Had1 k Hk)).
  - split; [done|]. split; [|done]. intros _ k [->|Hk]%elem_of_cons; [done|].
    rewrite <- (admits_on_rc (granted op) [s]); [by apply Hiff|done|].
    by intros ->%list_elem_of_singleton.
Qed.

Lemma scope_add_wf s h err h' :
  heap_wf h -> scope_add (S s) op s h = Ok (err, h') -> is_Some (scopes h !! s) -> heap_wf h'.
Proof using RopLaws0.
  intros Hwf Hrun Hs. destruct (scope_add_spec (S s) s h ltac:(lia) Hwf Hs) as (err' & Hrun' & Hiff).
  rewrite Hrun in Hrun'. apply Ok_inj in Hrun' as [<- ->]. destruct err as [x|]; [done|].
  apply grant_wf; [by apply constraints_nodup|done|by apply Hiff].
Qed.

End reservation.

(** ** Releases *)

Definition is_live (h : heap) (k : nat) : bool :=
  match scopes h !! k with Some sc => negb (done sc) | None => false end.

(** The scopes that a release reaches: up to the first that is done. *)
Fixpoint live_constraints (fuel : nat) (h : heap) (s : nat) : list nat :=
  match fuel with
  | O => []
  | S fuel =>
      match scopes h !! s with
      | None => []
      | Some sc =>
          if done sc then []
          else s :: match owner sc with
                    | Some o => live_constraints fuel h o
                    | None => filter (fun e => is_live h e = true) (edges sc)
                    end
      end
  end.

Lemma live_constraints_sublist fuel h s :
  live_constraints fuel h s `sublist_of` constraints fuel h s.
Proof.
  revert s. induction fuel as [|fuel IH]; intros s; cbn; [done|].
  destruct (scopes h !! s) as [sc|]; [|done]. destruct (done sc); [apply sublist_nil_l|].
  apply sublist_skip. destruct (owner sc); [apply IH|apply sublist_filter].
Qed.

Lemma live_constraints_nodup fuel h s : heap_wf h -> NoDup (live_constraints fuel h s).
Proof.
  intros Hwf. eapply sublist_NoDup; [by apply constraints_nodup|apply live_constraints_sublist].
Qed.

Lemma is_live_on_rc f l h k : is_live (on_rc f l h) k = is_live h k.
Proof.
  unfold is_live, on_rc; cbn. generalize (scopes h) as m.
  induction l as [|j l IH]; intros m; cbn; [done|]. rewrite IH.
  destruct (decide (j = k)) as [->|Hne]; [rewrite lookup_alter_eq|by rewrite lookup_alter_ne].
  by destruct (m !! k).
Qed.

Lemma live_constraints_on_rc f l fuel h s :
  live_constraints fuel (on_rc f l h) s = live_constraints fuel h s.
Proof.
  revert s. induction fuel as [|fuel IH]; intros s; cbn [live_constraints]; [done|].
  pose proof (is_live_on_rc f l h s) as Hlive. unfold is_live in Hlive.
  pose proof (on_rc_shape f l h) as [_ Hsh]. specialize (Hsh s).
  destruct (scopes h !! s) as [sc|], (scopes (on_rc f l h) !! s) as [sc'|]; try done.
  destruct Hsh as [-> ->]. replace (done sc') with (done sc) by (destruct (done sc), (done sc'); done).
  destruct (done sc); [done|]. f_equal. destruct (owner sc'); [apply IH|].
  apply list_filter_iff. intros e. by rewrite is_live_on_rc.
Qed.

Lemma for_each_release op l h :
  NoDup l -> (forall k, k ∈ l -> is_Some (scopes h !! k)) ->
  for_each l (remove_for_child op) h =
    Ok ((), on_rc (op_remove op) (filter (fun e => is_live h e = true) l) h).
Proof.
  revert h. induction l as [|k l IH]; intros h Hnd Hin; [by rewrite on_rc_nil|].
  apply NoDup_cons in Hnd as [Hk Hnd]. cbn [for_each].
  destruct (Hin k ltac:(by apply list_elem_of_here)) as [sc Hs].
  unfold bind at 1, remove_for_child, bind at 1, getScope, deref. rewrite Hs, filter_cons.
  assert (is_live h k = negb (done sc)) as Hl by (unfold is_live; by rewrite Hs).
  destruct (done sc) eqn:Hd; cbn [negb] in Hl.
  - rewrite decide_False by (by rewrite Hl). cbn [ret]. apply IH; [done|].
    intros j Hj. by apply Hin, list_elem_of_further.
  - rewrite decide_True by done. rewrite on_rc_cons, updScope_on_rc, IH; [|done|].
    + do 3 f_equal. apply list_filter_iff. intros e. by rewrite is_live_on_rc.
    + intros j Hj. rewrite on_rc_out; [by apply Hin, list_elem_of_further|apply NoDup_singleton|].
      intros ->%list_elem_of_singleton. done.
Qed.

Section release.
Context (op : rop) (delta : res -> Z) `{!RopLaws op delta}.

Lemma release_wf l h : NoDup l -> heap_wf h -> heap_wf (on_rc (op_remove op) l h).
Proof using RopLaws0.
  intros Hnd Hwf. apply on_rc_wf; [done..|]. intros k sc _ Hsc.
  by apply rop_remove_within, (Hwf k).
Qed.

(** A release subtracts from every scope of the chain up to the first closed one. *)
Lemma scope_remove_spec through fuel s h :
  (s < fuel)%nat -> heap_wf h -> is_Some (scopes h !! s) ->
  scope_remove fuel through op s h =
    Ok ((), on_rc (op_remove op) (live_constraints fuel h s) h).
Proof using RopLaws0.
  revert s h. induction fuel as [|fuel IH]; intros s h Hfuel Hwf [sc Hs]; [lia|].
  cbn [scope_remove live_constraints]. rewrite Hs. unfold bind at 1, getScope, deref. rewrite Hs.
  destruct (done sc) eqn:Hd; [by rewrite on_rc_nil|].
  rewrite on_rc_cons. unfold bind at 1. rewrite updScope_on_rc.
  pose proof (Hwf s sc Hs) as [_ Hown Hedge Hnd Hw].
  set (h1 := on_rc (op_remove op) [s] h).
  assert (NoDup [s]) as Hnd1 by apply NoDup_singleton.
  assert (heap_wf h1) as Hwf1 by (by apply release_wf).
  destruct (owner sc) as [o|].
  - destruct (Hown o eq_refl) as (Hlt & [osc Ho] & Hnil). unfold bind.
    rewrite IH; [|lia|done|].
    + unfold h1 at 1. rewrite live_constraints_on_rc. rewrite Hnil. by destruct through.
    + unfold h1. rewrite on_rc_out, Ho; [by eexists|done|]. intros ->%list_elem_of_singleton. lia.
  - rewrite for_each_release; [|done|].
    + do 3 f_equal. apply list_filter_iff. intros e. unfold h1. by rewrite is_live_on_rc.
    + intros e He. destruct (Hedge e He) as (Hne & esc & Hx & _).
      unfold h1. rewrite on_rc_out, Hx; [by eexists|done|]. by intros ->%list_elem_of_singleton.
Qed.
End release.
