(* ===== verification/RcAccount.v ===== *)
(** The accounts of the resource manager: how the usage of a scope is made up.

    [held s] is what the users of scope [s] hold through [s] itself.  A scope
    owns that and the usage of its open spans; a node of the DAG accounts
    moreover for what the open scopes it constrains own ([balanced]).  Every
    operation of RcScope.v keeps the accounts balanced, provided its users
    release no more than they hold; so nothing leaks, and no release is ever
    larger than the counter it is taken from. *)

From stdpp Require Import gmap strings list.
From S2P Require Import Prelude RcResources TunnelAddr RcScope RcScopeProps.
#[local] Open Scope Z_scope.

Definition holdings : Type := nat -> res -> Z.
Definition no_holdings : holdings := fun _ _ => 0.

(** [held] with [d] more for the scope [s]. *)
Definition hadd (held : holdings) (s : nat) (d : res -> Z) : holdings :=
  fun k r => if decide (k = s) then held k r + d r else held k r.

Definition span_use (o : nat) (r : res) (s : nat) (sc : resourceScope) : Z :=
  if negb (done sc) && bool_decide (owner sc = Some o) then usage (rc sc) r else 0.

Definition own (h : heap) (held : holdings) (s : nat) (r : res) : Z :=
  held s r + msum (span_use s r) (scopes h).

Definition edge_use (h : heap) (held : holdings) (p : nat) (r : res) (c : nat)
    (sc : resourceScope) : Z :=
  if negb (done sc) && bool_decide (p ∈ edges sc) then own h held c r else 0.

Definition balanced (h : heap) (held : holdings) : Prop :=
  forall p sc r, scopes h !! p = Some sc -> done sc = false ->
  usage (rc sc) r = own h held p r + msum (edge_use h held p r) (scopes h).

(** The references a scope must count: its open spans and the open scopes it
    constrains. *)
Definition refs_from (p : nat) (c : nat) (sc : resourceScope) : Z :=
  if negb (done sc) && (bool_decide (owner sc = Some p) || bool_decide (p ∈ edges sc)) then 1 else 0.

Definition refs (h : heap) (p : nat) : Z := msum (refs_from p) (scopes h).

Record accounts (h : heap) (held : holdings) : Prop := {
  ac_wf : heap_wf h;
  ac_balanced : balanced h held;
  ac_held : forall k r, 0 <= held k r;
  ac_fresh : forall k r, scopes h !! k = None -> held k r = 0;
  ac_refs : forall p sc, scopes h !! p = Some sc -> done sc = false -> refs h p <= refCnt sc;
}.

(** ** What a scope owns *)

Lemma span_use_nonneg h o r :
  heap_wf h -> forall k sc, scopes h !! k = Some sc -> 0 <= span_use o r k sc.
Proof.
  intros Hwf k sc Hk. unfold span_use. destruct (_ && _); [|done].
  apply (wi_each _ (sw_within _ _ _ (Hwf k sc Hk))).
Qed.

Lemma own_nonneg h held s r :
  heap_wf h -> (forall k r, 0 <= held k r) -> 0 <= own h held s r.
Proof.
  intros Hwf Hheld. unfold own. pose proof (Hheld s r).
  pose proof (msum_nonneg _ _ (span_use_nonneg h s r Hwf)). lia.
Qed.

Lemma edge_use_nonneg h held p r :
  heap_wf h -> (forall k r, 0 <= held k r) ->
  forall k sc, scopes h !! k = Some sc -> 0 <= edge_use h held p r k sc.
Proof.
  intros Hwf Hheld k sc Hk. unfold edge_use. destruct (_ && _); [|done]. by apply own_nonneg.
Qed.

(** A scope's usage covers what it owns, its owner's what the span uses, and a
    constraining scope's what the constrained scope owns. *)
Lemma usage_covers_own h held s sc r :
  accounts h held -> scopes h !! s = Some sc -> done sc = false ->
  own h held s r <= usage (rc sc) r.
Proof.
  intros [Hwf Hbal Hheld _ _] Hs Hd. rewrite (Hbal s sc r Hs Hd).
  pose proof (msum_nonneg _ _ (edge_use_nonneg h held s r Hwf Hheld)). lia.
Qed.

Lemma own_covers_span h held s sc o r :
  accounts h held -> scopes h !! s = Some sc -> done sc = false -> owner sc = Some o ->
  usage (rc sc) r <= own h held o r.
Proof.
  intros [Hwf Hbal Hheld _ _] Hs Hd Ho. unfold own. pose proof (Hheld o r).
  pose proof (msum_ge _ _ s sc (span_use_nonneg h o r Hwf) Hs) as Hge.
  unfold span_use at 1 in Hge. rewrite Hd, Ho, bool_decide_eq_true_2 in Hge by done. cbn in Hge. lia.
Qed.

Lemma usage_covers_edge h held s sc e esc r :
  accounts h held -> scopes h !! s = Some sc -> done sc = false -> e ∈ edges sc ->
  scopes h !! e = Some esc -> done esc = false ->
  own h held s r <= usage (rc esc) r.
Proof.
  intros [Hwf Hbal Hheld _ _] Hs Hd He Hes Hde. rewrite (Hbal e esc r Hes Hde).
  pose proof (own_nonneg h held e r Hwf Hheld).
  pose proof (msum_ge _ _ s sc (edge_use_nonneg h held e r Hwf Hheld) Hs) as Hge.
  unfold edge_use at 1 in Hge. rewrite Hd, bool_decide_eq_true_2 in Hge by done. cbn in Hge. lia.
Qed.

(** What a scope owns can be released along its whole chain. *)
Lemma chain_covers h held fuel s (d : res -> Z) :
  accounts h held -> (forall sc, scopes h !! s = Some sc -> done sc = false ->
    forall r, d r <= own h held s r) ->
  forall k sc r, k ∈ live_constraints fuel h s -> scopes h !! k = Some sc -> d r <= usage (rc sc) r.
Proof.
  intros Hac. revert s. induction fuel as [|fuel IH]; intros s Hd k sc r Hk Hsc; cbn in Hk;
    [by apply elem_of_nil in Hk|].
  destruct (scopes h !! s) as [ssc|] eqn:Hs; [|by apply elem_of_nil in Hk].
  destruct (done ssc) eqn:Hdone; [by apply elem_of_nil in Hk|].
  specialize (Hd ssc eq_refl Hdone). apply elem_of_cons in Hk as [->|Hk].
  - rewrite Hs in Hsc. injection Hsc as <-. specialize (Hd r).
    pose proof (usage_covers_own h held s ssc r Hac Hs Hdone). lia.
  - destruct (owner ssc) as [o|] eqn:Ho.
    + apply (IH o) with (k := k); [|done..]. intros osc Hosc Hdo r'. specialize (Hd r').
      pose proof (usage_covers_own h held s ssc r' Hac Hs Hdone).
      pose proof (own_covers_span h held s ssc o r' Hac Hs Hdone Ho). lia.
    + apply list_elem_of_filter in Hk as [Hl Hk]. unfold is_live in Hl. rewrite Hsc in Hl.
      destruct (done sc) eqn:Hdk; [done|]. specialize (Hd r).
      pose proof (usage_covers_edge h held s ssc k sc r Hac Hs Hdone Hk Hsc Hdk). lia.
Qed.

(** ** The accounts after a change of the counters *)

Lemma balanced_ext h held held' :
  (forall k sc r, scopes h !! k = Some sc -> done sc = false -> held k r = held' k r) ->
  balanced h held -> balanced h held'.
Proof.
  intros Heq Hbal p sc r Hp Hd. rewrite (Hbal p sc r Hp Hd). unfold own at 1 2.
  rewrite (Heq p sc r Hp Hd). f_equal. apply msum_ext. intros k y Hk. unfold edge_use.
  destruct (done y) eqn:Hdy; [done|]. cbn. destruct (bool_decide _); [|done].
  unfold own. by rewrite (Heq k y r Hk Hdy).
Qed.

Section shift.
Context (f : resources -> resources) (d : res -> Z).

(** [f] moves the counters of the scopes of [l] by [d]. *)
Definition moves (h : heap) (l : list nat) : Prop :=
  forall k sc, k ∈ l -> scopes h !! k = Some sc ->
  within (f (rc sc)) /\ forall r, usage (f (rc sc)) r = usage (rc sc) r + d r.

Definition hopp : res -> Z := fun r => - d r.

(** A change of one span is passed on to its owner. *)
Lemma balanced_span_step h held s sc o :
  heap_wf h -> scopes h !! s = Some sc -> done sc = false -> owner sc = Some o ->
  moves h [s] -> balanced h held ->
  balanced (on_rc f [s] h) (hadd (hadd held s d) o hopp).
Proof.
  intros Hwf Hs Hd Ho Hmv Hbal. destruct (Hwf s sc Hs) as [_ Hown _ _ _].
  destruct (Hown o Ho) as (Hlt & _ & Hnil).
  destruct (Hmv s sc ltac:(by apply list_elem_of_singleton) Hs) as [_ Hu].
  assert (NoDup [s]) as Hnd by apply NoDup_singleton.
  assert (scopes (on_rc f [s] h) !! s = Some (with_rc f sc)) as Hs'
    by (rewrite on_rc_in, Hs; [done|done|by apply list_elem_of_singleton]).
  assert (forall k, k <> s -> scopes (on_rc f [s] h) !! k = scopes h !! k) as Hother
    by (intros k Hk; apply on_rc_out; [done|]; by intros ->%list_elem_of_singleton).
  assert (forall c r, own (on_rc f [s] h) (hadd (hadd held s d) o hopp) c r =
            own h held c r + if decide (c = s) then d r else 0) as Hownc.
  { intros c r. unfold own, hadd, hopp.
    rewrite (msum_shift (span_use c r) (span_use c r) (scopes h) (scopes (on_rc f [s] h)) s
      sc (with_rc f sc) (if decide (c = o) then d r else 0)); [|done|done| |].
    - destruct (decide (c = o)), (decide (c = s)); try lia.
    - unfold span_use. cbn. rewrite Hd, Ho. destruct (decide (c = o)) as [->|Hne].
      + rewrite bool_decide_eq_true_2 by done. cbn. apply Hu.
      + rewrite bool_decide_eq_false_2 by congruence. cbn. lia.
    - intros j Hj. rewrite Hother by done. by destruct (scopes h !! j). }
  intros p psc r Hp Hdp. rewrite Hownc.
  replace (msum (edge_use (on_rc f [s] h) (hadd (hadd held s d) o hopp) p r) (scopes (on_rc f [s] h)))
    with (msum (edge_use h held p r) (scopes h)).
  2: { apply msum_rel. intros k. unfold edge_use. destruct (decide (k = s)) as [->|Hk].
       - rewrite Hs, Hs'. cbn. by rewrite Hnil, !andb_false_r.
       - rewrite Hother by done. destruct (scopes h !! k) as [y|]; [|done]. cbn.
         destruct (_ && _); [|done]. rewrite Hownc, decide_False by done. lia. }
  destruct (decide (p = s)) as [->|Hps].
  - rewrite Hs' in Hp. injection Hp as <-. cbn. rewrite Hu, (Hbal s sc r Hs Hd). lia.
  - rewrite Hother in Hp by done. rewrite (Hbal p psc r Hp Hdp). lia.
Qed.

(** A change of a node of the DAG is accounted for by the scopes of its edges. *)
Lemma balanced_root_step h held s sc :
  heap_wf h -> scopes h !! s = Some sc -> done sc = false -> owner sc = None ->
  let l := s :: filter (fun e => is_live h e = true) (edges sc) in
  moves h l -> balanced h held ->
  balanced (on_rc f l h) (hadd held s d).
Proof.
  intros Hwf Hs Hd Ho l Hmv Hbal. destruct (Hwf s sc Hs) as [_ _ Hedge Hnde _].
  assert (NoDup l) as Hnd.
  { apply NoDup_cons. split; [|by apply NoDup_filter]. intros [_ Hin]%list_elem_of_filter.
    by destruct (Hedge s Hin). }
  assert (forall k y, k ∈ l -> scopes h !! k = Some y -> owner y = None /\ done y = false) as Hroots.
  { intros k y [->|Hk]%elem_of_cons Hy; [rewrite Hs in Hy; by injection Hy as <-|].
    apply list_elem_of_filter in Hk as [Hl Hk]. destruct (Hedge k Hk) as (_ & esc & Hx & Hn).
    unfold is_live in Hl. rewrite Hy in *. injection Hx as <-. by destruct (done y). }
  assert (forall c r, own (on_rc f l h) (hadd held s d) c r =
            own h held c r + if decide (c = s) then d r else 0) as Hownc.
  { intros c r. unfold own, hadd.
    replace (msum (span_use c r) (scopes (on_rc f l h))) with (msum (span_use c r) (scopes h)).
    - destruct (decide (c = s)); lia.
    - apply msum_rel. intros k. rewrite lookup_on_rc by done. case_bool_decide as Hk.
      + destruct (scopes h !! k) as [y|] eqn:Hy; [|done]. cbn. unfold span_use. cbn.
        destruct (Hroots k y Hk Hy) as [-> _]. by rewrite bool_decide_eq_false_2, !andb_false_r.
      + by destruct (scopes h !! k). }
  assert (forall p r, msum (edge_use (on_rc f l h) (hadd held s d) p r) (scopes (on_rc f l h)) =
            msum (edge_use h held p r) (scopes h) +
              if bool_decide (p ∈ edges sc) then d r else 0) as Hedges.
  { intros p r.
    rewrite (msum_shift (edge_use h held p r) (edge_use (on_rc f l h) (hadd held s d) p r)
      (scopes h) (scopes (on_rc f l h)) s sc (with_rc f sc)
      (if bool_decide (p ∈ edges sc) then d r else 0)); [done|done| | |].
    - rewrite on_rc_in, Hs; [done|done|by apply list_elem_of_here].
    - unfold edge_use. cbn. rewrite Hd. cbn. destruct (bool_decide _); [|done].
      rewrite Hownc, decide_True by done. lia.
    - intros j Hj. rewrite lookup_on_rc by done.
      destruct (scopes h !! j) as [y|] eqn:Hy; [|by destruct (bool_decide _)].
      case_bool_decide; cbn; unfold edge_use; cbn; (destruct (_ && _); [|done]);
        rewrite Hownc, decide_False by done; lia. }
  intros p psc r Hp Hdp. rewrite Hownc, Hedges. rewrite lookup_on_rc in Hp by done.
  destruct (scopes h !! p) as [y|] eqn:Hy; [|by destruct (bool_decide _) in Hp].
  assert (done y = false) as Hdy by (case_bool_decide; injection Hp as <-; done).
  assert (bool_decide (p ∈ l) = bool_decide (p = s) || bool_decide (p ∈ edges sc)) as Hl.
  { rewrite <- bool_decide_or. apply bool_decide_ext.
    unfold l. rewrite elem_of_cons, list_elem_of_filter. unfold is_live. rewrite Hy, Hdy. naive_solver. }
  pose proof (Hbal p y r Hy Hdy) as Hb. rewrite Hl in Hp.
  destruct (decide (p = s)) as [->|Hps].
  - assert (bool_decide (s ∈ edges sc) = false) as ->
      by (apply bool_decide_eq_false_2; intros Hin; by destruct (Hedge s Hin)).
    rewrite bool_decide_eq_true_2 in Hp by done. injection Hp as <-. cbn.
    destruct (Hmv s y ltac:(by apply list_elem_of_here) Hy) as [_ ->]. lia.
  - rewrite (bool_decide_eq_false_2 (p = s)) in Hp by done. cbn in Hp.
    clear Hl. revert Hp. case_bool_decide as Hpe; intros [= <-]; [|lia]. cbn.
    destruct (Hmv p y) as [_ ->]; [|done|lia]. unfold l.
    apply list_elem_of_further, list_elem_of_filter. split; [|done]. unfold is_live. by rewrite Hy, Hdy.
Qed.

(** A change along a chain. *)
Lemma balanced_shift fuel h held s :
  (s < fuel)%nat -> heap_wf h -> is_Some (scopes h !! s) ->
  moves h (live_constraints fuel h s) -> balanced h held ->
  balanced (on_rc f (live_constraints fuel h s) h) (hadd held s d).
Proof.
  revert h held s. induction fuel as [|fuel IH]; intros h held s Hfuel Hwf [sc Hs] Hmv Hbal; [lia|].
  cbn [live_constraints] in *. rewrite Hs in *. destruct (done sc) eqn:Hd.
  { rewrite on_rc_nil. apply (balanced_ext h held); [|done]. intros k y r Hk Hdy.
    unfold hadd. rewrite decide_False; [done|]. intros ->. congruence. }
  destruct (owner sc) as [o|] eqn:Ho; [|by apply (balanced_root_step h held s sc)].
  destruct (Hwf s sc Hs) as [_ Hown _ _ _]. destruct (Hown o Ho) as (Hlt & [osc Hosc] & _).
  rewrite on_rc_cons. set (h1 := on_rc f [s] h).
  assert (NoDup [s]) as Hnd1 by apply NoDup_singleton.
  assert (s ∉ live_constraints fuel h o) as Hnin.
  { intros Hin. pose proof (live_constraints_sublist fuel h o) as Hsub.
    destruct (constraints_in h fuel o s Hwf) as [_ [?|(sc' & Hs' & Hnone)]]; [|lia|congruence].
    eapply elem_of_submseteq; [exact Hin|]. by apply sublist_submseteq. }
  assert (heap_wf h1) as Hwf1.
  { apply on_rc_wf; [done..|]. intros k y ->%list_elem_of_singleton Hy.
    by apply (Hmv s y); [apply list_elem_of_here|]. }
  replace (live_constraints fuel h o) with (live_constraints fuel h1 o)
    by apply live_constraints_on_rc.
  apply (balanced_ext _ (hadd (hadd (hadd held s d) o hopp) o d)).
  { intros k y r _ _. unfold hadd, hopp. repeat destruct (decide _); lia. }
  apply IH; [lia|done| | |].
  - unfold h1. rewrite on_rc_out, Hosc; [by eexists|done|]. intros ->%list_elem_of_singleton. lia.
  - intros k y Hk Hy. unfold h1 in Hk. rewrite live_constraints_on_rc in Hk.
    unfold h1 in Hy. rewrite on_rc_out in Hy;
      [|done|intros ->%list_elem_of_singleton; done].
    by apply (Hmv k y); [apply list_elem_of_further|].
  - apply (balanced_span_step h held s sc o); try done.
    intros k y ->%list_elem_of_singleton Hy. by apply (Hmv s y); [apply list_elem_of_here|].
Qed.
End shift.

(** ** The operations keep the accounts *)

Lemma refs_on_rc f l h p : NoDup l -> refs (on_rc f l h) p = refs h p.
Proof.
  intros Hnd. symmetry. apply msum_rel. intros k. rewrite lookup_on_rc by done.
  case_bool_decide; by destruct (scopes h !! k).
Qed.

Lemma accounts_on_rc f l h held held' :
  NoDup l -> accounts h held -> heap_wf (on_rc f l h) -> balanced (on_rc f l h) held' ->
  (forall k r, 0 <= held' k r) -> (forall k r, scopes h !! k = None -> held' k r = 0) ->
  accounts (on_rc f l h) held'.
Proof.
  intros Hnd [Hwf _ _ _ Hrefs] Hwf' Hbal Hheld Hfresh. split; [done..| |].
  - intros k r Hk. apply Hfresh. rewrite lookup_on_rc in Hk by done.
    case_bool_decide; by destruct (scopes h !! k).
  - intros p sc Hp Hd. rewrite refs_on_rc by done. rewrite lookup_on_rc in Hp by done.
    destruct (scopes h !! p) as [y|] eqn:Hy; [|by destruct (bool_decide _) in Hp].
    revert Hp. case_bool_decide; intros [= <-]; by apply (Hrefs p y).
Qed.

Lemma live_constraints_open fuel h s :
  (forall k sc, k ∈ constraints fuel h s -> scopes h !! k = Some sc -> done sc = false) ->
  heap_wf h -> live_constraints fuel h s = constraints fuel h s.
Proof.
  intros Hopen Hwf. revert s Hopen. induction fuel as [|fuel IH]; intros s Hopen; cbn in *; [done|].
  destruct (scopes h !! s) as [sc|] eqn:Hs; [|done].
  rewrite (Hopen s sc) by (try apply list_elem_of_here; done). f_equal.
  destruct (owner sc) as [o|] eqn:Ho.
  - apply IH. intros k y Hk Hy. by apply (Hopen k y); [apply list_elem_of_further|].
  - apply filter_everything. intros e He.
    destruct (sw_edges _ _ _ (Hwf s sc Hs) e He) as (_ & esc & Hx & _).
    unfold is_live. rewrite Hx. by rewrite (Hopen e esc (list_elem_of_further _ _ _ He) Hx).
Qed.

Lemma hadd_nonneg held s d :
  (forall k r, 0 <= held k r) -> (forall r, 0 <= held s r + d r) ->
  forall k r, 0 <= hadd held s d k r.
Proof. intros Hh Hd k r. unfold hadd. destruct (decide (k = s)) as [->|?]; auto. Qed.

Lemma hadd_fresh h held s d :
  is_Some (scopes h !! s) -> (forall k r, scopes h !! k = None -> held k r = 0) ->
  forall k r, scopes h !! k = None -> hadd held s d k r = 0.
Proof.
  intros [x Hx] Hf k r Hk. unfold hadd. destruct (decide (k = s)) as [->|?]; [congruence|auto].
Qed.

Section operations.
Context (op : rop) (delta : res -> Z) `{!RopLaws op delta}.

Lemma accounts_add h held s err h' :
  accounts h held -> is_Some (scopes h !! s) -> scope_add (S s) op s h = Ok (err, h') ->
  accounts h' (match err with None => hadd held s delta | Some _ => held end).
Proof using RopLaws0.
  intros Hac Hs Hrun. pose proof Hac as [Hwf Hbal Hheld Hfresh _].
  destruct (scope_add_spec op delta (S s) s h ltac:(lia) Hwf Hs) as (err' & Hrun' & Hiff).
  rewrite Hrun in Hrun'. apply Ok_inj in Hrun' as [<- ->]. destruct err as [x|]; [done|].
  pose proof (proj1 Hiff eq_refl) as Had.
  pose proof (constraints_nodup h (S s) s Hwf) as Hnd.
  assert (moves (granted op) delta h (constraints (S s) h s)) as Hmv.
  { intros k sc Hk Hsc. by destruct (granted_within op delta h k Hwf (Had k Hk) sc Hsc) as (? & _ & _ & ?). }
  apply (accounts_on_rc _ _ h held); [done|done| | | |by apply hadd_fresh].
  - apply on_rc_wf; [done..|]. intros k sc Hk Hsc. by apply (Hmv k sc).
  - rewrite <- (live_constraints_open (S s) h s); [|intros k sc Hk Hsc|done].
    + apply balanced_shift; [lia|done|done| |done].
      rewrite live_constraints_open; [done| |done]. intros k sc Hk Hsc.
      destruct (Had k Hk) as (y & Hy & Hd & _). congruence.
    + destruct (Had k Hk) as (y & Hy & Hd & _). congruence.
  - apply hadd_nonneg; [done|]. intros r. pose proof (rop_nonneg (op := op) r). specialize (Hheld s r). lia.
Qed.

(** A release takes exactly what it says from every scope it reaches. *)
Lemma release_moves h held fuel s :
  accounts h held -> (forall sc, scopes h !! s = Some sc -> done sc = false ->
    forall r, delta r <= own h held s r) ->
  moves (op_remove op) (hopp delta) h (live_constraints fuel h s).
Proof using RopLaws0.
  intros Hac Hd k sc Hk Hsc. pose proof (sw_within _ _ _ (ac_wf _ _ Hac k sc Hsc)) as Hw.
  split; [by apply rop_remove_within|]. unfold hopp. intros r.
  rewrite (rop_remove_exact (op := op) (delta := delta)); [lia|done|].
  intros r'. by apply (chain_covers h held fuel s delta Hac Hd k sc).
Qed.

Lemma accounts_remove through h held s h' :
  accounts h held -> is_Some (scopes h !! s) ->
  (is_live h s = true -> forall r, delta r <= held s r) ->
  scope_remove (S s) through op s h = Ok ((), h') ->
  accounts h' (if is_live h s then hadd held s (hopp delta) else held).
Proof using RopLaws0.
  intros Hac Hs Hd Hrun. pose proof Hac as [Hwf Hbal Hheld Hfresh _].
  rewrite (scope_remove_spec op delta through (S s) s h) in Hrun by (done || lia).
  apply Ok_inj in Hrun as [_ <-]. destruct (is_live h s) eqn:Hl.
  - assert (moves (op_remove op) (hopp delta) h (live_constraints (S s) h s)) as Hmv.
    { apply (release_moves h held); [done|]. intros sc _ _ r. specialize (Hd eq_refl r). unfold own.
      pose proof (msum_nonneg _ _ (span_use_nonneg h s r Hwf)). lia. }
    pose proof (live_constraints_nodup (S s) h s Hwf) as Hnd.
    apply (accounts_on_rc _ _ h held); [done|done| | | |by apply hadd_fresh].
    + apply on_rc_wf; [done..|]. intros k sc Hk Hsc. by apply (Hmv k sc).
    + by apply balanced_shift; [lia|..].
    + apply hadd_nonneg; [done|]. intros r. unfold hopp. specialize (Hd eq_refl r). lia.
  - assert (live_constraints (S s) h s = []) as ->; [|by rewrite on_rc_nil].
    cbn. unfold is_live in Hl. destruct (scopes h !! s) as [sc|]; [|done]. by destruct (done sc).
Qed.
End operations.

(** ** New scopes *)

Lemma usage_fresh limit r : usage (fresh_resources limit) r = 0.
Proof. by destruct r. Qed.

Lemma fresh_within limit : limit_ok limit -> within (fresh_resources limit).
Proof.
  intros Hl. split; [done| |apply (lo_streams _ Hl)|apply (lo_conns _ Hl)].
  intros r. rewrite usage_fresh. cbn. pose proof (lo_each _ Hl r). lia.
Qed.

(** A fresh scope, which uses nothing and whose references its owner or edges
    already count. *)
Lemma accounts_alloc h held sc :
  accounts h held -> done sc = false -> scope_wf (mkHeap (scopes h) (S (next h))) (next h) sc ->
  (forall r, usage (rc sc) r = 0) -> 0 <= refCnt sc ->
  (forall p psc, scopes h !! p = Some psc -> done psc = false ->
     refs h p + refs_from p (next h) sc <= refCnt psc) ->
  accounts (mkHeap (<[next h := sc]> (scopes h)) (S (next h))) held.
Proof.
  intros [Hwf Hbal Hheld Hfresh Hrefs] Hd Hsc Hu Href0 Href.
  assert (scopes h !! next h = None) as Hnone.
  { destruct (scopes h !! next h) as [x|] eqn:Hx; [|done]. pose proof (sw_next _ _ _ (Hwf _ _ Hx)). lia. }
  set (h' := mkHeap (<[next h := sc]> (scopes h)) (S (next h))).
  destruct Hsc as [_ Hown Hedge Hnd Hwi]. cbn in Hown, Hedge.
  assert (forall k y, scopes h !! k = Some y -> scopes h' !! k = Some y) as Hmono.
  { intros k y Hk. cbn. rewrite lookup_insert_ne; [done|congruence]. }
  assert (forall k r, own h' held k r = own h held k r) as Hownk.
  { intros k r. unfold own. cbn. rewrite msum_insert by done. unfold span_use at 1. rewrite Hu.
    destruct (_ && _); lia. }
  assert (forall r, own h held (next h) r = 0) as Hown0.
  { intros r. unfold own. rewrite Hfresh by done. rewrite msum_zero; [lia|]. intros k y Hk.
    unfold span_use. rewrite (bool_decide_eq_false_2 (owner y = Some (next h))); [by rewrite andb_false_r|].
    intros Ho. destruct (sw_owner _ _ _ (Hwf k y Hk) _ Ho) as (? & [z Hz] & _). congruence. }
  assert (forall p r, msum (edge_use h' held p r) (scopes h') = msum (edge_use h held p r) (scopes h)) as Hedges.
  { intros p r. cbn. rewrite msum_insert by done. unfold edge_use at 1. rewrite Hownk, Hown0.
    destruct (_ && _); rewrite ?Z.add_0_l; apply msum_ext; intros k y _; unfold edge_use; by rewrite Hownk. }
  split.
  - intros k y Hk. cbn in Hk. apply lookup_insert_Some in Hk as [[<- <-]|[Hne Hk]].
    + split; [cbn; lia| | |done|done].
      * intros o Ho. destruct (Hown o Ho) as (? & [z Hz] & ?). split; [done|split; [|done]].
        exists z. by apply Hmono.
      * intros e He. destruct (Hedge e He) as (? & esc & Hx & ?). split; [done|].
        exists esc. split; [by apply Hmono|done].
    + destruct (Hwf k y Hk) as [H1 H2 H3 H4 H5]. split; [cbn; lia| | |done|done].
      * intros o Ho. destruct (H2 o Ho) as (? & [z Hz] & ?). split; [done|split; [|done]].
        exists z. by apply Hmono.
      * intros e He. destruct (H3 e He) as (? & esc & Hx & ?). split; [done|].
        exists esc. split; [by apply Hmono|done].
  - intros p y r Hp Hdp. rewrite Hownk, Hedges. cbn in Hp.
    apply lookup_insert_Some in Hp as [[<- <-]|[Hne Hp]]; [|by apply Hbal].
    rewrite Hu, Hown0, msum_zero; [done|]. intros k z Hk. unfold edge_use.
    rewrite (bool_decide_eq_false_2 (next h ∈ edges z)); [by rewrite andb_false_r|].
    intros Hin. destruct (sw_edges _ _ _ (Hwf k z Hk) _ Hin) as (_ & esc & Hx & _). congruence.
  - done.
  - intros k r Hk. cbn in Hk. apply lookup_insert_None in Hk as [Hk _]. by apply Hfresh.
  - intros p y Hp Hdp. unfold refs. cbn in Hp |- *. rewrite msum_insert by done.
    apply lookup_insert_Some in Hp as [[<- <-]|[Hne Hp]].
    + assert (refs h (next h) = 0) as Hr0.
      { apply msum_zero. intros k z Hk. unfold refs_from.
        rewrite (bool_decide_eq_false_2 (owner z = Some (next h))).
        - rewrite (bool_decide_eq_false_2 (next h ∈ edges z)); [by rewrite andb_false_r|].
          intros Hin. destruct (sw_edges _ _ _ (Hwf k z Hk) _ Hin) as (_ & esc & Hx & _). congruence.
        - intros Ho. destruct (sw_owner _ _ _ (Hwf k z Hk) _ Ho) as (? & [w Hw] & _). congruence. }
      fold (refs h (next h)). rewrite Hr0. unfold refs_from.
      rewrite (bool_decide_eq_false_2 (owner sc = Some (next h)))
        by (intros Ho; destruct (Hown _ Ho) as (? & _ & _); lia).
      rewrite (bool_decide_eq_false_2 (next h ∈ edges sc))
        by (intros Hin; by destruct (Hedge _ Hin)).
      rewrite andb_false_r. lia.
    + specialize (Href p y Hp Hdp). fold (refs h p). lia.
Qed.

(** A change of the number of references of a scope. *)
Definition on_refs (n : Z) (s : nat) (h : heap) : heap :=
  h <| scopes := alter (fun sc => sc <| refCnt := refCnt sc + n |>) s (scopes h) |>.

Lemma lookup_on_refs n s h k :
  scopes (on_refs n s h) !! k =
    (fun sc => if decide (k = s) then sc <| refCnt := refCnt sc + n |> else sc) <$> scopes h !! k.
Proof.
  cbn. destruct (decide (k = s)) as [->|Hk]; [by rewrite lookup_alter_eq|].
  rewrite lookup_alter_ne by done. by destruct (scopes h !! k).
Qed.

Lemma IncRef_spec s h : is_Some (scopes h !! s) -> IncRef s h = Ok ((), on_refs 1 s h).
Proof. intros [x Hx]. unfold IncRef, bind, getScope, deref. by rewrite Hx. Qed.

Lemma DecRef_spec s h : is_Some (scopes h !! s) -> DecRef s h = Ok ((), on_refs (-1) s h).
Proof.
  intros [x Hx]. unfold DecRef, bind, getScope, deref. rewrite Hx.
  unfold updScope, modify. do 2 f_equal.
Qed.

(** Heaps that differ in the reference counts only. *)
Lemma accounts_same h h' held :
  next h = next h' ->
  (forall k, option_relation (fun a b => done a = done b /\ rc a = rc b /\ owner a = owner b /\ edges a = edges b)
     (fun _ => False) (fun _ => False) (scopes h !! k) (scopes h' !! k)) ->
  (forall p sc, scopes h' !! p = Some sc -> done sc = false -> refs h p <= refCnt sc) ->
  accounts h held -> accounts h' held.
Proof.
  intros Hn Hrel Href [Hwf Hbal Hheld Hfresh _].
  assert (forall k, match scopes h' !! k with
    | Some b => exists a, scopes h !! k = Some a /\ done a = done b /\ rc a = rc b /\ owner a = owner b /\ edges a = edges b
    | None => scopes h !! k = None end) as Hback.
  { intros k. specialize (Hrel k). destruct (scopes h !! k) as [a|], (scopes h' !! k) as [b|]; try done. by exists a. }
  assert (forall k r, own h' held k r = own h held k r) as Hown.
  { intros k r. unfold own. f_equal. symmetry. apply msum_rel. intros j. specialize (Hrel j).
    destruct (scopes h !! j), (scopes h' !! j); cbn in *; try done.
    unfold span_use. by destruct Hrel as (-> & -> & -> & _). }
  split; [| |done| |].
  - apply (same_shape_wf h); [done| |].
    + split; [done|]. intros k. specialize (Hrel k). destruct (scopes h !! k), (scopes h' !! k); cbn in *; tauto.
    + intros k b Hk. specialize (Hback k). rewrite Hk in Hback. destruct Hback as (a & Ha & _ & <- & _).
      apply (Hwf k a Ha).
  - intros p b r Hp Hd. pose proof (Hback p) as Hb. rewrite Hp in Hb. destruct Hb as (a & Ha & Hda & <- & _).
    rewrite Hown, (Hbal p a r Ha) by congruence. f_equal. apply msum_rel. intros j. specialize (Hrel j).
    destruct (scopes h !! j), (scopes h' !! j); cbn in *; try done.
    unfold edge_use. destruct Hrel as (-> & _ & _ & ->). by rewrite Hown.
  - intros k r Hk. specialize (Hback k). rewrite Hk in Hback. by apply Hfresh.
  - intros p b Hp Hd. replace (refs h' p) with (refs h p); [by apply Href|].
    apply msum_rel. intros j. specialize (Hrel j).
    destruct (scopes h !! j), (scopes h' !! j); cbn in *; try done.
    unfold refs_from. by destruct Hrel as (-> & _ & -> & ->).
Qed.

Lemma accounts_on_refs n s h held :
  (forall sc, scopes h !! s = Some sc -> done sc = false -> refs h s <= refCnt sc + n) ->
  accounts h held -> accounts (on_refs n s h) held.
Proof.
  intros Hn Hac. apply (accounts_same h); [done| | |done].
  - intros k. rewrite lookup_on_refs. destruct (scopes h !! k); [|done]. cbn. by destruct (decide _).
  - intros p sc Hp Hd. rewrite lookup_on_refs in Hp. destruct (scopes h !! p) as [y|] eqn:Hy; [|done].
    cbn in Hp. injection Hp as <-. destruct (decide (p = s)) as [->|Hne]; cbn in *.
    + by apply Hn.
    + by apply (ac_refs _ _ Hac).
Qed.

(** ** The end of a scope *)

Definition closed_scope (sc : resourceScope) : resourceScope :=
  sc <| rc := cleared (rc sc) |> <| done := true |>.

Definition on_done (s : nat) (h : heap) : heap :=
  h <| scopes := alter closed_scope s (scopes h) |>.

Lemma lookup_on_done s h k :
  scopes (on_done s h) !! k =
    (fun sc => if decide (k = s) then closed_scope sc else sc) <$> scopes h !! k.
Proof.
  cbn. destruct (decide (k = s)) as [->|Hk]; [by rewrite lookup_alter_eq|].
  rewrite lookup_alter_ne by done. by destruct (scopes h !! k).
Qed.

Lemma is_live_on_done s h : is_live (on_done s h) s = false.
Proof.
  unfold is_live. rewrite lookup_on_done. destruct (scopes h !! s); [|done]. cbn. by rewrite decide_True.
Qed.

(** What the loop of [doneUnlocked] does to a scope of the edges. *)
Definition drop_child (op : rop) (sc : resourceScope) : resourceScope :=
  (if done sc then sc else with_rc (op_remove op) sc) <| refCnt := refCnt sc - 1 |>.

Lemma drop_child_shape op sc :
  done (drop_child op sc) = done sc /\ owner (drop_child op sc) = owner sc /\
  edges (drop_child op sc) = edges sc.
Proof. unfold drop_child. by destruct (done sc) eqn:Hd; cbn. Qed.

Lemma for_each_drop op es h :
  NoDup es -> (forall e, e ∈ es -> is_Some (scopes h !! e)) ->
  exists h', for_each es (fun e => remove_for_child op e ;; DecRef e) h = Ok ((), h') /\
    next h' = next h /\
    forall k, scopes h' !! k =
      (fun sc => if bool_decide (k ∈ es) then drop_child op sc else sc) <$> scopes h !! k.
Proof.
  revert h. induction es as [|e es IH]; intros h Hnd Hin.
  { exists h. split; [done|split; [done|]]. intros k. cbn. by destruct (scopes h !! k). }
  apply NoDup_cons in Hnd as [He Hnd]. cbn [for_each].
  destruct (Hin e ltac:(by apply list_elem_of_here)) as [sc Hs].
  set (h1 := mkHeap (alter (drop_child op) e (scopes h)) (next h)).
  assert ((remove_for_child op e ;; DecRef e) h = Ok ((), h1)) as Hrun.
  { unfold bind at 1, remove_for_child, bind at 1, getScope, deref. rewrite Hs.
    assert (forall f g, (forall x, scopes h !! e = Some x -> g (f x) = drop_child op x) ->
      alter g e (alter f e (scopes h)) = alter (drop_child op) e (scopes h)) as Halt.
    { intros f g Hfg. apply map_eq. intros k. destruct (decide (k = e)) as [->|Hk].
      - rewrite !lookup_alter_eq. rewrite Hs in *. cbn. by rewrite Hfg.
      - by rewrite !lookup_alter_ne by congruence. }
    destruct (done sc) eqn:Hd; cbn [ret]; unfold updScope, modify.
    - rewrite DecRef_spec by (by rewrite Hs). unfold h1, on_refs. do 2 f_equal. apply heap_ext; [done|].
      cbn. apply map_eq. intros k. destruct (decide (k = e)) as [->|Hk];
        [|by rewrite !lookup_alter_ne by congruence].
      rewrite !lookup_alter_eq, Hs. cbn. unfold drop_child. by rewrite Hd.
    - rewrite DecRef_spec by (cbn; rewrite lookup_alter_eq, Hs; by eexists).
      unfold h1, on_refs. do 2 f_equal. apply heap_ext; [done|]. cbn. apply Halt.
      intros x Hx. unfold drop_child. rewrite Hs in Hx. injection Hx as <-. by rewrite Hd. }
  unfold bind at 1. rewrite Hrun.
  destruct (IH h1 Hnd) as (h' & Hrun' & Hn & Hlk).
  { intros k Hk. cbn. rewrite lookup_alter_ne by (intros ->; done). by apply Hin, list_elem_of_further. }
  exists h'. split; [exact Hrun'|split; [done|]]. intros k. rewrite Hlk. cbn.
  destruct (decide (k = e)) as [->|Hk].
  - rewrite lookup_alter_eq, Hs. cbn. rewrite (bool_decide_eq_false_2 (e ∈ es)) by done.
    by rewrite bool_decide_eq_true_2 by apply list_elem_of_here.
  - rewrite lookup_alter_ne by congruence.
    by rewrite (bool_decide_ext (k ∈ e :: es) (k ∈ es)) by (rewrite elem_of_cons; tauto).
Qed.

(** The holdings once a scope is done. *)
Definition hclear (held : holdings) (s : nat) : holdings :=
  fun k r => if decide (k = s) then 0 else held k r.

Lemma cleared_within r : within r -> within (cleared r).
Proof.
  intros Hw. pose proof (wi_limit _ Hw) as Hl. split; [done| |apply (lo_streams _ Hl)|apply (lo_conns _ Hl)].
  intros x. pose proof (lo_each _ Hl x). destruct x; cbn in *; lia.
Qed.

(** A node of the DAG that constrains no open scope: its edges lose what it owns. *)
Section done_dag.
Context (h : heap) (held : holdings) (s : nat) (sc : resourceScope).
Context (Hac : accounts h held) (Hs : scopes h !! s = Some sc) (Hd : done sc = false).
Context (Ho : owner sc = None).
Context (Hleaf : forall k y, scopes h !! k = Some y -> done y = false -> s ∉ edges y).

Let st := stat (rc sc).

Lemma leaf_usage r : usage (rc sc) r = own h held s r.
Proof using Hac Hs Hd Hleaf.
  rewrite (ac_balanced _ _ Hac s sc r Hs Hd). rewrite (msum_zero (edge_use h held s r)); [lia|].
  intros k y Hk. unfold edge_use. destruct (done y) eqn:Hdy; [done|].
  by rewrite bool_decide_eq_false_2 by (by apply (Hleaf k y)).
Qed.

(** The heap after [Done]. *)
Definition dag_done : nat -> option resourceScope := fun k =>
  (fun y => if decide (k = s) then closed_scope y
            else if bool_decide (k ∈ edges sc) then drop_child (stat_op st) y else y) <$> scopes h !! k.

#[local] Instance done_stat_laws : RopLaws (stat_op st) (amount st).
Proof using Hac Hs.
  apply stat_op_laws, within_stat_ok, (sw_within _ _ _ (ac_wf _ _ Hac s sc Hs)).
Qed.

Lemma Done_dag_run :
  exists h', Done s h = Ok ((), h') /\ next h' = next h /\ forall k, scopes h' !! k = dag_done k.
Proof using Hac Hs Hd Ho.
  destruct (ac_wf _ _ Hac s sc Hs) as [_ _ Hedge Hnd _].
  destruct (for_each_drop (stat_op st) (edges sc) h Hnd) as (h1 & Hrun & Hn & Hlk).
  { intros e He. destruct (Hedge e He) as (_ & esc & -> & _). by eexists. }
  exists (on_done s h1). split; [|split; [done|]].
  - unfold Done, doneUnlocked, bind at 1, getScope, deref. rewrite Hs, Hd, Ho. fold st.
    unfold bind at 1. unfold ReleaseForChild. by rewrite Hrun.
  - intros k. rewrite lookup_on_done, Hlk. unfold dag_done. destruct (scopes h !! k); [|done]. cbn.
    destruct (decide (k = s)) as [->|?]; [|done].
    by rewrite (bool_decide_eq_false_2 (s ∈ edges sc)) by (intros Hin; by destruct (Hedge s Hin)).
Qed.

Lemma drop_edge_exact e esc :
  e ∈ edges sc -> scopes h !! e = Some esc ->
  drop_child (stat_op st) esc =
    (if done esc then esc else with_rc (releaseStat st) esc) <| refCnt := refCnt esc - 1 |> /\
  (done esc = false -> within (releaseStat st (rc esc)) /\
     forall r, usage (releaseStat st (rc esc)) r = usage (rc esc) r - own h held s r).
Proof using Hac Hs Hd Hleaf.
  intros He Hesc. split; [done|]. intros Hde.
  pose proof (sw_within _ _ _ (ac_wf _ _ Hac e esc Hesc)) as Hw.
  split; [by apply (rop_remove_within (op := stat_op st))|]. intros r.
  rewrite <- leaf_usage, <- usage_stat.
  apply (rop_remove_exact (op := stat_op st) (delta := amount st)); [done|]. intros r'.
  unfold st. rewrite usage_stat, leaf_usage. by apply (usage_covers_edge h held s sc e esc).
Qed.

Lemma Done_dag_accounts h' :
  next h' = next h -> (forall k, scopes h' !! k = dag_done k) -> accounts h' (hclear held s).
Proof using Hac Hs Hd Ho Hleaf.
  intros Hn Hlk. pose proof Hac as [Hwf Hbal Hheld Hfresh Hrefs].
  assert (forall k y', scopes h' !! k = Some y' -> exists y, scopes h !! k = Some y /\
    owner y' = owner y /\ edges y' = edges y /\
    (k <> s -> done y' = done y /\ within (rc y') /\
       (k ∉ edges sc -> y' = y) /\
       (k ∈ edges sc -> refCnt y' = refCnt y - 1 /\
          (done y = false -> forall r, usage (rc y') r = usage (rc y) r - own h held s r))) /\
    (k = s -> done y' = true /\ within (rc y'))) as Hinv.
  { intros k y' Hk. rewrite Hlk in Hk. unfold dag_done in Hk.
    destruct (scopes h !! k) as [y|] eqn:Hy; [|done]. cbn in Hk. injection Hk as <-. exists y.
    pose proof (sw_within _ _ _ (Hwf k y Hy)) as Hw.
    split; [done|]. destruct (decide (k = s)) as [->|Hne].
    { split; [done|split; [done|split; [done|]]]. intros _. split; [done|by apply cleared_within]. }
    case_bool_decide as Hin.
    - destruct (drop_edge_exact k y Hin Hy) as [-> Hex]. destruct (done y) eqn:Hdy; cbn;
        (split; [done|split; [done|split; [|done]]]; intros _; split; [done|]).
      + split; [done|split; [done|]]. intros _. split; [done|done].
      + destruct (Hex eq_refl) as [Hw' Hu]. split; [done|split; [done|]]. intros _. split; [done|]. by intros _.
    - split; [done|split; [done|split; [|done]]]. intros _. split; [done|]. split; [done|split; done]. }
  assert (forall k r, k <> s -> own h' (hclear held s) k r = own h held k r) as Hown.
  { intros k r Hk. unfold own, hclear. rewrite decide_False by done. f_equal. symmetry.
    apply msum_rel. intros j. rewrite Hlk. unfold dag_done. destruct (scopes h !! j) as [y|] eqn:Hy; [|done].
    cbn. destruct (decide (j = s)) as [->|Hjs].
    - rewrite Hs in Hy. injection Hy as <-. unfold span_use. cbn. rewrite Ho.
      rewrite (bool_decide_eq_false_2 (None = Some k)) by done. by rewrite !andb_false_r.
    - case_bool_decide as Hin; [|done].
      destruct (sw_edges _ _ _ (Hwf s sc Hs) j Hin) as (_ & esc & Hx & Hnone).
      rewrite Hy in Hx. injection Hx as <-. unfold span_use, drop_child.
      destruct (done y) eqn:Hdy; cbn; rewrite ?Hdy, Hnone; [done|].
      by rewrite (bool_decide_eq_false_2 (None = Some k)). }
  assert (forall p r, msum (edge_use h' (hclear held s) p r) (scopes h') =
    msum (edge_use h held p r) (scopes h) + - (if bool_decide (p ∈ edges sc) then own h held s r else 0)) as Hsum.
  { intros p r.
    apply (msum_shift _ _ _ _ s sc (closed_scope sc)); [done| | |].
    - rewrite Hlk. unfold dag_done. rewrite Hs. cbn. by rewrite decide_True.
    - unfold edge_use. cbn. rewrite Hd. cbn. lia.
    - intros j Hj. destruct (scopes h !! j) as [y|] eqn:Hy; rewrite Hlk; unfold dag_done; rewrite Hy; [|done].
      cbn. rewrite decide_False by done. unfold edge_use. rewrite Hown by done.
      destruct (bool_decide (j ∈ edges sc)); [|done].
      by destruct (drop_child_shape (stat_op st) y) as (-> & _ & ->). }
  split.
  - apply (same_shape_wf h); [done| |].
    + split; [done|]. intros k. rewrite Hlk. unfold dag_done. destruct (scopes h !! k) as [y|]; [|done]. cbn.
      destruct (decide _); [done|]. case_bool_decide; [|done]. unfold drop_child. by destruct (done y).
    + intros k y' Hk. destruct (Hinv k y' Hk) as (y & Hy & _ & _ & H1 & H2).
      destruct (decide (k = s)) as [->|Hks]; [by apply H2|by apply H1].
  - intros p y' r Hp Hdp. destruct (Hinv p y' Hp) as (y & Hy & _ & _ & H1 & H2).
    destruct (decide (p = s)) as [->|Hps]; [destruct (H2 eq_refl); congruence|].
    destruct (H1 Hps) as (Hdd & _ & Hout & Hin). rewrite Hown, Hsum by done.
    assert (done y = false) as Hdy by congruence. pose proof (Hbal p y r Hy Hdy) as Hb.
    case_bool_decide as Hpe.
    + destruct (Hin Hpe) as [_ Hu]. rewrite Hu by done. lia.
    + rewrite (Hout Hpe). lia.
  - intros k r. unfold hclear. by destruct (decide _).
  - intros k r Hk. unfold hclear. destruct (decide _); [done|]. apply Hfresh.
    rewrite Hlk in Hk. unfold dag_done in Hk. by destruct (scopes h !! k).
  - intros p y' Hp Hdp. destruct (Hinv p y' Hp) as (y & Hy & _ & _ & H1 & H2).
    destruct (decide (p = s)) as [->|Hps]; [destruct (H2 eq_refl); congruence|].
    destruct (H1 Hps) as (Hdd & _ & Hout & Hin).
    assert (refs h' p = refs h p + - (if bool_decide (p ∈ edges sc) then 1 else 0)) as ->.
    { apply (msum_shift _ _ _ _ s sc (closed_scope sc)); [done| | |].
      - rewrite Hlk. unfold dag_done. rewrite Hs. cbn. by rewrite decide_True.
      - unfold refs_from. cbn. rewrite Hd, Ho, (bool_decide_eq_false_2 (None = Some p)) by done. cbn.
        destruct (bool_decide _); done.
      - intros j Hj. destruct (scopes h !! j) as [z|] eqn:Hz; rewrite Hlk; unfold dag_done; rewrite Hz; [|done].
        cbn. rewrite decide_False by done. destruct (bool_decide (j ∈ edges sc)); [|done].
        unfold refs_from. by destruct (drop_child_shape (stat_op st) z) as (-> & -> & ->). }
    assert (done y = false) as Hdy by congruence. pose proof (Hrefs p y Hy Hdy).
    case_bool_decide as Hpe.
    + destruct (Hin Hpe) as [-> _]. lia.
    + rewrite (Hout Hpe). lia.
Qed.
End done_dag.

(** A span: its owner's chain loses what the span uses. *)
Section done_span.
Context (h : heap) (held : holdings) (s : nat) (sc : resourceScope) (o : nat).
Context (Hac : accounts h held) (Hs : scopes h !! s = Some sc) (Hd : done sc = false).
Context (Ho : owner sc = Some o).

Let st := stat (rc sc).
Let l := live_constraints (S o) h o.
Let h1 := on_rc (releaseStat st) l h.

#[local] Instance span_stat_laws : RopLaws (stat_op st) (amount st).
Proof using Hac Hs.
  apply stat_op_laws, within_stat_ok, (sw_within _ _ _ (ac_wf _ _ Hac s sc Hs)).
Qed.

Lemma span_owner : (o < s)%nat /\ is_Some (scopes h !! o) /\ edges sc = [].
Proof using Hac Hs Hd Ho. exact (sw_owner _ _ _ (ac_wf _ _ Hac s sc Hs) o Ho). Qed.

Lemma span_off_chain : s ∉ l.
Proof using Hac Hs Hd Ho.
  intros Hin. destruct span_owner as (Hlt & _ & _).
  destruct (constraints_in h (S o) o s (ac_wf _ _ Hac)) as [_ [?|(sc' & Hs' & Hnone)]]; [|lia|congruence].
  eapply elem_of_submseteq; [exact Hin|]. apply sublist_submseteq, live_constraints_sublist.
Qed.

Lemma span_chain_nodup : NoDup l.
Proof using Hac. apply live_constraints_nodup, (ac_wf _ _ Hac). Qed.

Lemma Done_span_run : Done s h = Ok ((), on_done s (on_refs (-1) o h1)).
Proof using Hac Hs Hd Ho.
  unfold Done, doneUnlocked, bind at 1, getScope, deref. rewrite Hs, Hd, Ho. fold st.
  destruct span_owner as (Hlt & [osc Hosc] & _).
  unfold bind at 1. unfold ReleaseResources, bind at 1.
  rewrite (scope_remove_spec (stat_op st) (amount st) false (S o) o h);
    [|lia|exact (ac_wf _ _ Hac)|by eexists].
  change (on_rc (op_remove (stat_op st)) (live_constraints (S o) h o) h) with h1.
  rewrite DecRef_spec; [done|]. unfold h1. rewrite lookup_on_rc, Hosc by apply span_chain_nodup.
  destruct (bool_decide _); by eexists.
Qed.

Lemma span_chain_moves : moves (releaseStat st) (hopp (amount st)) h l.
Proof using Hac Hs Hd Ho.
  apply (release_moves (stat_op st) (amount st) h held); [done|].
  intros osc Hosc Hdo r. unfold st. rewrite usage_stat. by apply (own_covers_span h held s sc o).
Qed.

Lemma span_balanced : balanced h1 (hadd held o (hopp (amount st))).
Proof using Hac Hs Hd Ho.
  destruct span_owner as (Hlt & Hosc & _).
  apply balanced_shift; [lia|exact (ac_wf _ _ Hac)|done|apply span_chain_moves|exact (ac_balanced _ _ Hac)].
Qed.

Lemma span_in_h1 : scopes h1 !! s = Some sc.
Proof using Hac Hs Hd Ho.
  unfold h1. rewrite on_rc_out; [done|apply span_chain_nodup|apply span_off_chain].
Qed.

Lemma span_wf : heap_wf h1.
Proof using Hac Hs Hd Ho.
  apply on_rc_wf; [apply span_chain_nodup|exact (ac_wf _ _ Hac)|].
  intros k y Hk Hy. by apply (span_chain_moves k y Hk Hy).
Qed.

Lemma span_done_own c r :
  c <> s -> own (on_done s h1) (hclear held s) c r = own h1 (hadd held o (hopp (amount st))) c r.
Proof using Hac Hs Hd Ho.
  intros Hc. unfold own, hclear, hadd, hopp. rewrite (decide_False (P := c = s)) by done.
  rewrite (msum_shift (span_use c r) (span_use c r) (scopes h1) (scopes (on_done s h1)) s sc (closed_scope sc)
    (if decide (c = o) then - usage (rc sc) r else 0)).
  - unfold st. rewrite usage_stat. destruct (decide (c = o)); lia.
  - apply span_in_h1.
  - rewrite lookup_on_done, span_in_h1. cbn. by rewrite decide_True.
  - unfold span_use. cbn. rewrite Hd, Ho. cbn. destruct (decide (c = o)) as [->|Hne].
    + rewrite bool_decide_eq_true_2 by done. lia.
    + by rewrite bool_decide_eq_false_2 by congruence.
  - intros j Hj. rewrite lookup_on_done. destruct (scopes h1 !! j); [|done]. cbn. by rewrite decide_False.
Qed.

Lemma span_done_balanced : balanced (on_done s h1) (hclear held s).
Proof using Hac Hs Hd Ho.
  destruct span_owner as (_ & _ & Hnil).
  intros p y r Hp Hdp. rewrite lookup_on_done in Hp.
  destruct (scopes h1 !! p) as [z|] eqn:Hz; [|done]. cbn in Hp. injection Hp as <-.
  destruct (decide (p = s)) as [->|Hps]; [done|].
  rewrite span_done_own by done. rewrite (span_balanced p z r Hz Hdp). f_equal.
  apply msum_rel. intros j. rewrite lookup_on_done. destruct (scopes h1 !! j) as [x|] eqn:Hj; [|done]. cbn.
  destruct (decide (j = s)) as [->|Hjs].
  - rewrite span_in_h1 in Hj. injection Hj as <-. unfold edge_use. cbn. by rewrite Hnil, andb_false_r.
  - unfold edge_use. by rewrite span_done_own.
Qed.

Lemma span_done_refs p :
  refs (on_done s h1) p = refs h p - (if decide (p = o) then 1 else 0).
Proof using Hac Hs Hd Ho.
  destruct span_owner as (_ & _ & Hnil).
  assert (refs h1 p = refs h p) as <- by apply refs_on_rc, span_chain_nodup.
  unfold refs. rewrite (msum_shift (refs_from p) (refs_from p) (scopes h1) (scopes (on_done s h1)) s sc
    (closed_scope sc) (- (if decide (p = o) then 1 else 0))).
  - destruct (decide _); lia.
  - apply span_in_h1.
  - rewrite lookup_on_done, span_in_h1. cbn. by rewrite decide_True.
  - unfold refs_from. cbn. rewrite Hd, Ho, Hnil. cbn. destruct (decide (p = o)) as [->|Hne].
    + by rewrite bool_decide_eq_true_2.
    + by rewrite bool_decide_eq_false_2 by congruence.
  - intros j Hj. rewrite lookup_on_done. destruct (scopes h1 !! j); [|done]. cbn. by rewrite decide_False.
Qed.

Lemma on_done_refs_comm n k h0 : on_done s (on_refs n k h0) = on_refs n k (on_done s h0).
Proof.
  apply heap_ext; [done|]. apply map_eq. intros j. rewrite lookup_on_done, !lookup_on_refs, lookup_on_done.
  destruct (scopes h0 !! j); [|done]. cbn. by repeat destruct (decide _).
Qed.

Lemma Done_span_accounts : accounts (on_done s (on_refs (-1) o h1)) (hclear held s).
Proof using Hac Hs Hd Ho.
  rewrite on_done_refs_comm.
  assert (forall p y, scopes (on_done s h1) !! p = Some y -> done y = false ->
    refs (on_done s h1) p + (if decide (p = o) then 1 else 0) <= refCnt y) as Hrefs.
  { intros p y Hp Hdp. rewrite span_done_refs. rewrite lookup_on_done in Hp.
    destruct (scopes h1 !! p) as [z|] eqn:Hz; [|done]. cbn in Hp. injection Hp as <-.
    destruct (decide (p = s)) as [->|Hps]; [done|].
    unfold h1 in Hz. rewrite lookup_on_rc in Hz by apply span_chain_nodup.
    destruct (scopes h !! p) as [w|] eqn:Hw; [|by destruct (bool_decide _) in Hz].
    revert Hz. destruct (bool_decide _); intros [= <-];
      pose proof (ac_refs _ _ Hac p w Hw Hdp); destruct (decide _); cbn; lia. }
  apply accounts_on_refs.
  { intros y Hy Hdy. specialize (Hrefs o y Hy Hdy). rewrite decide_True in Hrefs by done. lia. }
  pose proof Hac as [Hwf _ Hheld Hfresh _]. split.
  - apply (same_shape_wf h1); [apply span_wf| |].
    + split; [done|]. intros k. rewrite lookup_on_done. destruct (scopes h1 !! k); [|done]. cbn.
      by destruct (decide _).
    + intros k y Hk. rewrite lookup_on_done in Hk. destruct (scopes h1 !! k) as [z|] eqn:Hz; [|done].
      pose proof (sw_within _ _ _ (span_wf k z Hz)). cbn in Hk. injection Hk as <-.
      destruct (decide _); [by apply cleared_within|done].
  - apply span_done_balanced.
  - intros k r. unfold hclear. by destruct (decide _).
  - intros k r Hk. unfold hclear. destruct (decide _); [done|]. apply Hfresh.
    rewrite lookup_on_done in Hk. unfold h1 in Hk. rewrite lookup_on_rc in Hk by apply span_chain_nodup.
    by destruct (scopes h !! k), (bool_decide _).
  - intros p y Hp Hdp. specialize (Hrefs p y Hp Hdp). destruct (decide _); lia.
Qed.
End done_span.

(** [Done] closes the scope and keeps the accounts, when the scope constrains no
    open scope: what it held, with its spans, is given back. *)
Lemma accounts_done h held s :
  accounts h held -> is_Some (scopes h !! s) ->
  (forall k y, scopes h !! k = Some y -> done y = false -> s ∉ edges y) ->
  exists h', Done s h = Ok ((), h') /\ is_live h' s = false /\
    accounts h' (if is_live h s then hclear held s else held).
Proof.
  intros Hac [sc Hs] Hleaf. unfold is_live at 2. rewrite Hs. destruct (done sc) eqn:Hd; cbn [negb].
  { exists h. split; [|split; [|done]].
    - unfold Done, doneUnlocked, bind, getScope, deref. by rewrite Hs, Hd.
    - unfold is_live. by rewrite Hs, Hd. }
  destruct (owner sc) as [o|] eqn:Ho.
  - exists (on_done s (on_refs (-1) o (on_rc (releaseStat (stat (rc sc))) (live_constraints (S o) h o) h))).
    split; [by apply (Done_span_run h held s sc o)|split; [|by apply (Done_span_accounts h held s sc o)]].
    apply is_live_on_done.
  - destruct (Done_dag_run h held s sc) as (h' & Hrun & Hn & Hlk); [done..|].
    exists h'. split; [done|split; [|by apply (Done_dag_accounts h held s sc)]].
    unfold is_live. rewrite Hlk. unfold dag_done. rewrite Hs. cbn. by rewrite decide_True.
Qed.
