(* ===== verification/RcLimits.v ===== *)
(** The limits of the resource manager:
    src/myvendor/go-libp2p/p2p/host/resource-manager/limit.go and
    limit_defaults.go, with the limits that p2put starts its host with
    ([myResourceManager] of src/p2put/config.go).

    A limit of a configuration is a number, or one of the marks default (0),
    unlimited (-1) and block all (-2).  A partial configuration is completed
    with defaults to a concrete one.  Integers are 64 bits wide, a Go map that
    may be nil is an option.  The fraction of file descriptors is a float64
    ([PoolFloat]).  Marshalling is that of single limits; json of strings with
    escapes is an argument. *)

From Stdlib Require Import Ascii.
From stdpp Require Import gmap strings list.
From S2P Require Import Prelude GoLib TunnelAddr RcResources.
#[local] Open Scope Z_scope.

Definition MaxInt : Z := 2 ^ 63 - 1.

Record BaseLimit := mkBase {
  Streams : Z;
  StreamsInbound : Z;
  StreamsOutbound : Z;
  Conns : Z;
  ConnsInbound : Z;
  ConnsOutbound : Z;
  FD : Z;
  bl_Memory : Z;
}.
#[export] Instance BaseLimit_eq_dec : EqDecision BaseLimit.
Proof. solve_decision. Defined.

(** [BaseLimit] as a [Limit]: the getters of limit.go. *)
Definition base_limit (l : BaseLimit) : Limit := {|
  GetMemoryLimit := bl_Memory l;
  GetStreamLimit dir := if is_inbound dir then StreamsInbound l else StreamsOutbound l;
  GetStreamTotalLimit := Streams l;
  GetConnLimit dir := if is_inbound dir then ConnsInbound l else ConnsOutbound l;
  GetConnTotalLimit := Conns l;
  GetFDLimit := FD l;
|}.

(** ** A limit of a configuration *)

Definition DefaultLimit : Z := 0.
Definition Unlimited : Z := -1.
Definition BlockAllLimit : Z := -2.

(** [LimitVal.Build] and [LimitVal64.Build]. *)
Definition limit_build (l defaultVal : Z) : Z :=
  if l =? DefaultLimit then defaultVal
  else if l =? Unlimited then MaxInt
  else if l =? BlockAllLimit then 0
  else l.

(** [valueOrBlockAll] and [valueOrBlockAll64]. *)
Definition valueOrBlockAll (n : Z) : Z :=
  if n =? 0 then BlockAllLimit else if n =? MaxInt then Unlimited else n.

Section json.
(** What [json.Unmarshal] makes of a quoted string that has escapes. *)
Context (unescape : string -> option string).

Definition quote : Ascii.ascii := Ascii.ascii_of_nat 34.
Definition quoted (s : string) : string := String quote (s +:+ String quote "").

(** The content of a plain quoted string: no escape, no quote, no control character. *)
Fixpoint plain_content (s : string) : option string :=
  match s with
  | EmptyString => None
  | String c rest =>
      if bool_decide (c = quote) then match rest with EmptyString => Some "" | _ => None end
      else if bool_decide (c = Ascii.ascii_of_nat 92) || (Nat.ltb (Ascii.nat_of_ascii c) 32) then None
      else String c <$> plain_content rest
  end.

Definition json_string (b : string) : option string :=
  match b with
  | String c rest =>
      if bool_decide (c = quote) then
        match plain_content rest with Some s => Some s | None => unescape b end
      else None
  | EmptyString => None
  end.

(** A JSON number that fits an [int]: no sign but a minus, no leading zero. *)
Definition json_digits (s : string) : option Z :=
  match s with
  | EmptyString => None
  | String c rest => if bool_decide (c = "0"%char /\ rest <> "") then None else atoi_digits s 0
  end.

Definition json_int (b : string) : option Z :=
  let r := match b with
           | String c rest => if bool_decide (c = "-"%char) then Z.opp <$> json_digits rest else json_digits b
           | EmptyString => None
           end in
  match r with
  | Some n => if (- 2 ^ 63 <=? n) && (n <? 2 ^ 63) then Some n else None
  | None => None
  end.

Definition limit_word (l : Z) : option string :=
  if l =? Unlimited then Some (quoted "unlimited")
  else if l =? DefaultLimit then Some (quoted "default")
  else if l =? BlockAllLimit then Some (quoted "blockAll")
  else None.

(** The marks that both [UnmarshalJSON] look for first. *)
Definition word_limit (b : string) : option Z :=
  if bool_decide (b = quoted "default") then Some DefaultLimit
  else if bool_decide (b = quoted "unlimited") then Some Unlimited
  else if bool_decide (b = quoted "blockAll") then Some BlockAllLimit
  else None.

Definition zero_blocks (n : Z) : Z := if n =? 0 then BlockAllLimit else n.

Definition LimitVal_MarshalJSON (l : Z) : string :=
  match limit_word l with Some w => w | None => itoa l end.

Definition LimitVal_UnmarshalJSON (b : string) : option Z :=
  match word_limit b with
  | Some l => Some l
  | None => zero_blocks <$> json_int b
  end.

Definition LimitVal64_MarshalJSON (l : Z) : string :=
  match limit_word l with Some w => w | None => quoted (itoa l) end.

Definition LimitVal64_UnmarshalJSON (b : string) : option Z :=
  match word_limit b with
  | Some l => Some l
  | None =>
      match json_string b with
      | None => zero_blocks <$> json_int b
      | Some val => zero_blocks <$> Atoi val
      end
  end.
End json.

(** ** The limits of a scope in a configuration *)

Record ResourceLimits := mkLimits {
  rl_Streams : Z;
  rl_StreamsInbound : Z;
  rl_StreamsOutbound : Z;
  rl_Conns : Z;
  rl_ConnsInbound : Z;
  rl_ConnsOutbound : Z;
  rl_FD : Z;
  rl_Memory : Z;
}.
#[export] Instance ResourceLimits_eq_dec : EqDecision ResourceLimits.
Proof. solve_decision. Defined.

Definition no_limits : ResourceLimits := mkLimits 0 0 0 0 0 0 0 0.

Definition IsDefault (l : option ResourceLimits) : bool :=
  match l with
  | None => true
  | Some l =>
      (rl_Streams l =? DefaultLimit) && (rl_StreamsInbound l =? DefaultLimit) &&
      (rl_StreamsOutbound l =? DefaultLimit) && (rl_Conns l =? DefaultLimit) &&
      (rl_ConnsInbound l =? DefaultLimit) && (rl_ConnsOutbound l =? DefaultLimit) &&
      (rl_FD l =? DefaultLimit) && (rl_Memory l =? DefaultLimit)
  end.

Definition ToMaybeNilPtr (l : option ResourceLimits) : option ResourceLimits :=
  if IsDefault l then None else l.

(** A zero-valued field takes the other's value. *)
Definition or_else (a b : Z) : Z := if a =? 0 then b else a.

Definition BaseLimit_Apply (l l2 : BaseLimit) : BaseLimit := {|
  Streams := or_else (Streams l) (Streams l2);
  StreamsInbound := or_else (StreamsInbound l) (StreamsInbound l2);
  StreamsOutbound := or_else (StreamsOutbound l) (StreamsOutbound l2);
  Conns := or_else (Conns l) (Conns l2);
  ConnsInbound := or_else (ConnsInbound l) (ConnsInbound l2);
  ConnsOutbound := or_else (ConnsOutbound l) (ConnsOutbound l2);
  FD := or_else (FD l) (FD l2);
  bl_Memory := or_else (bl_Memory l) (bl_Memory l2);
|}.

Definition ResourceLimits_Apply (l l2 : ResourceLimits) : ResourceLimits := {|
  rl_Streams := or_else (rl_Streams l) (rl_Streams l2);
  rl_StreamsInbound := or_else (rl_StreamsInbound l) (rl_StreamsInbound l2);
  rl_StreamsOutbound := or_else (rl_StreamsOutbound l) (rl_StreamsOutbound l2);
  rl_Conns := or_else (rl_Conns l) (rl_Conns l2);
  rl_ConnsInbound := or_else (rl_ConnsInbound l) (rl_ConnsInbound l2);
  rl_ConnsOutbound := or_else (rl_ConnsOutbound l) (rl_ConnsOutbound l2);
  rl_FD := or_else (rl_FD l) (rl_FD l2);
  rl_Memory := or_else (rl_Memory l) (rl_Memory l2);
|}.

Definition ResourceLimits_Build (l : option ResourceLimits) (defaults : Limit) : BaseLimit :=
  match l with
  | None => {|
      Streams := GetStreamTotalLimit defaults;
      StreamsInbound := GetStreamLimit defaults DirInbound;
      StreamsOutbound := GetStreamLimit defaults DirOutbound;
      Conns := GetConnTotalLimit defaults;
      ConnsInbound := GetConnLimit defaults DirInbound;
      ConnsOutbound := GetConnLimit defaults DirOutbound;
      FD := GetFDLimit defaults;
      bl_Memory := GetMemoryLimit defaults;
    |}
  | Some l => {|
      Streams := limit_build (rl_Streams l) (GetStreamTotalLimit defaults);
      StreamsInbound := limit_build (rl_StreamsInbound l) (GetStreamLimit defaults DirInbound);
      StreamsOutbound := limit_build (rl_StreamsOutbound l) (GetStreamLimit defaults DirOutbound);
      Conns := limit_build (rl_Conns l) (GetConnTotalLimit defaults);
      ConnsInbound := limit_build (rl_ConnsInbound l) (GetConnLimit defaults DirInbound);
      ConnsOutbound := limit_build (rl_ConnsOutbound l) (GetConnLimit defaults DirOutbound);
      FD := limit_build (rl_FD l) (GetFDLimit defaults);
      bl_Memory := limit_build (rl_Memory l) (GetMemoryLimit defaults);
    |}
  end.

(** Completes the limits with concrete ones. *)
Definition build_base (l : ResourceLimits) (defaults : BaseLimit) : BaseLimit :=
  ResourceLimits_Build (Some l) (base_limit defaults).

Definition ToResourceLimits (l : BaseLimit) : ResourceLimits := {|
  rl_Streams := valueOrBlockAll (Streams l);
  rl_StreamsInbound := valueOrBlockAll (StreamsInbound l);
  rl_StreamsOutbound := valueOrBlockAll (StreamsOutbound l);
  rl_Conns := valueOrBlockAll (Conns l);
  rl_ConnsInbound := valueOrBlockAll (ConnsInbound l);
  rl_ConnsOutbound := valueOrBlockAll (ConnsOutbound l);
  rl_FD := valueOrBlockAll (FD l);
  rl_Memory := valueOrBlockAll (bl_Memory l);
|}.

(** ** Whole configurations *)

(** A Go map from names to limits, possibly nil. *)
Definition limit_map (A : Type) : Type := option (gmap string A).
Definition entries {A} (m : limit_map A) : gmap string A := match m with Some m => m | None => ∅ end.
Definition map_limits {A B} (f : A -> B) (m : limit_map A) : limit_map B :=
  match m with Some m => Some (f <$> m) | None => None end.

Record PartialLimitConfig := mkPartial {
  pc_System : ResourceLimits;
  pc_Transient : ResourceLimits;
  pc_AllowlistedSystem : ResourceLimits;
  pc_AllowlistedTransient : ResourceLimits;
  pc_ServiceDefault : ResourceLimits;
  pc_ServicePeerDefault : ResourceLimits;
  pc_ProtocolDefault : ResourceLimits;
  pc_ProtocolPeerDefault : ResourceLimits;
  pc_PeerDefault : ResourceLimits;
  pc_Conn : ResourceLimits;
  pc_Stream : ResourceLimits;
  pc_Service : limit_map ResourceLimits;
  pc_ServicePeer : limit_map ResourceLimits;
  pc_Protocol : limit_map ResourceLimits;
  pc_ProtocolPeer : limit_map ResourceLimits;
  pc_Peer : limit_map ResourceLimits;
}.

Record ConcreteLimitConfig := mkConcrete {
  cc_system : BaseLimit;
  cc_transient : BaseLimit;
  cc_allowlistedSystem : BaseLimit;
  cc_allowlistedTransient : BaseLimit;
  cc_serviceDefault : BaseLimit;
  cc_servicePeerDefault : BaseLimit;
  cc_protocolDefault : BaseLimit;
  cc_protocolPeerDefault : BaseLimit;
  cc_peerDefault : BaseLimit;
  cc_conn : BaseLimit;
  cc_stream : BaseLimit;
  cc_service : limit_map BaseLimit;
  cc_servicePeer : limit_map BaseLimit;
  cc_protocol : limit_map BaseLimit;
  cc_protocolPeer : limit_map BaseLimit;
  cc_peer : limit_map BaseLimit;
}.

(** The fallback has been applied to the defaults of the configuration first. *)
Definition applyResourceLimitsMap (this other : limit_map ResourceLimits)
    (fallbackDefault : ResourceLimits) : limit_map ResourceLimits :=
  let own := map_imap (fun k l =>
    Some (ResourceLimits_Apply l (default fallbackDefault (entries other !! k)))) (entries this) in
  match this, other with
  | None, None => None
  | _, _ => Some (own ∪ entries other)
  end.

Definition buildMapWithDefault (definedLimits : limit_map ResourceLimits)
    (defaults : limit_map BaseLimit) (fallbackDefault : BaseLimit) : limit_map BaseLimit :=
  match definedLimits, defaults with
  | None, None => None
  | _, _ =>
      Some (map_imap (fun k l =>
              Some (build_base l (default fallbackDefault (entries defaults !! k)))) (entries definedLimits)
            ∪ entries defaults)
  end.

Definition resourceLimitsMapFromBaseLimitMap (baseLimitMap : limit_map BaseLimit) :
    limit_map ResourceLimits :=
  map_limits ToResourceLimits baseLimitMap.

Definition PartialLimitConfig_Apply (cfg c : PartialLimitConfig) : PartialLimitConfig :=
  let serviceDefault := ResourceLimits_Apply (pc_ServiceDefault cfg) (pc_ServiceDefault c) in
  let servicePeerDefault := ResourceLimits_Apply (pc_ServicePeerDefault cfg) (pc_ServicePeerDefault c) in
  let protocolDefault := ResourceLimits_Apply (pc_ProtocolDefault cfg) (pc_ProtocolDefault c) in
  let protocolPeerDefault := ResourceLimits_Apply (pc_ProtocolPeerDefault cfg) (pc_ProtocolPeerDefault c) in
  let peerDefault := ResourceLimits_Apply (pc_PeerDefault cfg) (pc_PeerDefault c) in
  {|
    pc_System := ResourceLimits_Apply (pc_System cfg) (pc_System c);
    pc_Transient := ResourceLimits_Apply (pc_Transient cfg) (pc_Transient c);
    pc_AllowlistedSystem := ResourceLimits_Apply (pc_AllowlistedSystem cfg) (pc_AllowlistedSystem c);
    pc_AllowlistedTransient := ResourceLimits_Apply (pc_AllowlistedTransient cfg) (pc_AllowlistedTransient c);
    pc_ServiceDefault := serviceDefault;
    pc_ServicePeerDefault := servicePeerDefault;
    pc_ProtocolDefault := protocolDefault;
    pc_ProtocolPeerDefault := protocolPeerDefault;
    pc_PeerDefault := peerDefault;
    pc_Conn := ResourceLimits_Apply (pc_Conn cfg) (pc_Conn c);
    pc_Stream := ResourceLimits_Apply (pc_Stream cfg) (pc_Stream c);
    pc_Service := applyResourceLimitsMap (pc_Service cfg) (pc_Service c) serviceDefault;
    pc_ServicePeer := applyResourceLimitsMap (pc_ServicePeer cfg) (pc_ServicePeer c) servicePeerDefault;
    pc_Protocol := applyResourceLimitsMap (pc_Protocol cfg) (pc_Protocol c) protocolDefault;
    pc_ProtocolPeer := applyResourceLimitsMap (pc_ProtocolPeer cfg) (pc_ProtocolPeer c) protocolPeerDefault;
    pc_Peer := applyResourceLimitsMap (pc_Peer cfg) (pc_Peer c) peerDefault;
  |}.

Definition PartialLimitConfig_Build (cfg : PartialLimitConfig) (defaults : ConcreteLimitConfig) :
    ConcreteLimitConfig :=
  let serviceDefault := build_base (pc_ServiceDefault cfg) (cc_serviceDefault defaults) in
  let servicePeerDefault := build_base (pc_ServicePeerDefault cfg) (cc_servicePeerDefault defaults) in
  let protocolDefault := build_base (pc_ProtocolDefault cfg) (cc_protocolDefault defaults) in
  let protocolPeerDefault := build_base (pc_ProtocolPeerDefault cfg) (cc_protocolPeerDefault defaults) in
  let peerDefault := build_base (pc_PeerDefault cfg) (cc_peerDefault defaults) in
  {|
    cc_system := build_base (pc_System cfg) (cc_system defaults);
    cc_transient := build_base (pc_Transient cfg) (cc_transient defaults);
    cc_allowlistedSystem := build_base (pc_AllowlistedSystem cfg) (cc_allowlistedSystem defaults);
    cc_allowlistedTransient := build_base (pc_AllowlistedTransient cfg) (cc_allowlistedTransient defaults);
    cc_serviceDefault := serviceDefault;
    cc_servicePeerDefault := servicePeerDefault;
    cc_protocolDefault := protocolDefault;
    cc_protocolPeerDefault := protocolPeerDefault;
    cc_peerDefault := peerDefault;
    cc_conn := build_base (pc_Conn cfg) (cc_conn defaults);
    cc_stream := build_base (pc_Stream cfg) (cc_stream defaults);
    cc_service := buildMapWithDefault (pc_Service cfg) (cc_service defaults) serviceDefault;
    cc_servicePeer := buildMapWithDefault (pc_ServicePeer cfg) (cc_servicePeer defaults) servicePeerDefault;
    cc_protocol := buildMapWithDefault (pc_Protocol cfg) (cc_protocol defaults) protocolDefault;
    cc_protocolPeer := buildMapWithDefault (pc_ProtocolPeer cfg) (cc_protocolPeer defaults) protocolPeerDefault;
    cc_peer := buildMapWithDefault (pc_Peer cfg) (cc_peer defaults) peerDefault;
  |}.

Definition ToPartialLimitConfig (cfg : ConcreteLimitConfig) : PartialLimitConfig := {|
  pc_System := ToResourceLimits (cc_system cfg);
  pc_Transient := ToResourceLimits (cc_transient cfg);
  pc_AllowlistedSystem := ToResourceLimits (cc_allowlistedSystem cfg);
  pc_AllowlistedTransient := ToResourceLimits (cc_allowlistedTransient cfg);
  pc_ServiceDefault := ToResourceLimits (cc_serviceDefault cfg);
  pc_ServicePeerDefault := ToResourceLimits (cc_servicePeerDefault cfg);
  pc_ProtocolDefault := ToResourceLimits (cc_protocolDefault cfg);
  pc_ProtocolPeerDefault := ToResourceLimits (cc_protocolPeerDefault cfg);
  pc_PeerDefault := ToResourceLimits (cc_peerDefault cfg);
  pc_Conn := ToResourceLimits (cc_conn cfg);
  pc_Stream := ToResourceLimits (cc_stream cfg);
  pc_Service := resourceLimitsMapFromBaseLimitMap (cc_service cfg);
  pc_ServicePeer := resourceLimitsMapFromBaseLimitMap (cc_servicePeer cfg);
  pc_Protocol := resourceLimitsMapFromBaseLimitMap (cc_protocol cfg);
  pc_ProtocolPeer := resourceLimitsMapFromBaseLimitMap (cc_protocolPeer cfg);
  pc_Peer := resourceLimitsMapFromBaseLimitMap (cc_peer cfg);
|}.

(** ** The limiter *)

(** The interface [Limiter]. *)
Record Limiter := mkLimiter {
  GetSystemLimits : Limit;
  GetTransientLimits : Limit;
  GetAllowlistedSystemLimits : Limit;
  GetAllowlistedTransientLimits : Limit;
  GetServiceLimits : string -> Limit;
  GetServicePeerLimits : string -> Limit;
  GetProtocolLimits : string -> Limit;
  GetProtocolPeerLimits : string -> Limit;
  GetPeerLimits : string -> Limit;
  GetStreamLimits : string -> Limit;
  GetConnLimits : Limit;
}.

Definition limits_for (m : limit_map BaseLimit) (d : BaseLimit) (k : string) : Limit :=
  base_limit (default d (entries m !! k)).

Definition NewFixedLimiter (conf : ConcreteLimitConfig) : Limiter := {|
  GetSystemLimits := base_limit (cc_system conf);
  GetTransientLimits := base_limit (cc_transient conf);
  GetAllowlistedSystemLimits := base_limit (cc_allowlistedSystem conf);
  GetAllowlistedTransientLimits := base_limit (cc_allowlistedTransient conf);
  GetServiceLimits := limits_for (cc_service conf) (cc_serviceDefault conf);
  GetServicePeerLimits := limits_for (cc_servicePeer conf) (cc_servicePeerDefault conf);
  GetProtocolLimits := limits_for (cc_protocol conf) (cc_protocolDefault conf);
  GetProtocolPeerLimits := limits_for (cc_protocolPeer conf) (cc_protocolPeerDefault conf);
  GetPeerLimits := limits_for (cc_peer conf) (cc_peerDefault conf);
  GetStreamLimits _ := base_limit (cc_stream conf);
  GetConnLimits := base_limit (cc_conn conf);
|}.

(** ** Scaling *)

Section scaling.
Context `{F : PoolFloat}.

Record BaseLimitIncrease := mkIncrease {
  bi_Streams : Z;
  bi_StreamsInbound : Z;
  bi_StreamsOutbound : Z;
  bi_Conns : Z;
  bi_ConnsInbound : Z;
  bi_ConnsOutbound : Z;
  bi_Memory : Z;
  FDFraction : pfloat;
}.

Definition BaseLimitIncrease_Apply (l l2 : BaseLimitIncrease) : BaseLimitIncrease := {|
  bi_Streams := or_else (bi_Streams l) (bi_Streams l2);
  bi_StreamsInbound := or_else (bi_StreamsInbound l) (bi_StreamsInbound l2);
  bi_StreamsOutbound := or_else (bi_StreamsOutbound l) (bi_StreamsOutbound l2);
  bi_Conns := or_else (bi_Conns l) (bi_Conns l2);
  bi_ConnsInbound := or_else (bi_ConnsInbound l) (bi_ConnsInbound l2);
  bi_ConnsOutbound := or_else (bi_ConnsOutbound l) (bi_ConnsOutbound l2);
  bi_Memory := or_else (bi_Memory l) (bi_Memory l2);
  FDFraction := if p_eq (FDFraction l) (p_of_Z 0) then FDFraction l2 else FDFraction l;
|}.

(** [base + (inc * mebibytesAvailable) >> 10]. *)
Definition scaled (base inc mebibytes : Z) : Z :=
  int64 (base + Z.shiftr (int64 (inc * mebibytes)) 10).

Definition scale (base : BaseLimit) (inc : BaseLimitIncrease) (memory numFD : Z) : BaseLimit :=
  let mb := if Z.shiftl 128 20 <? memory then Z.shiftr memory 20 else 0 in
  {|
    Streams := scaled (Streams base) (bi_Streams inc) mb;
    StreamsInbound := scaled (StreamsInbound base) (bi_StreamsInbound inc) mb;
    StreamsOutbound := scaled (StreamsOutbound base) (bi_StreamsOutbound inc) mb;
    Conns := scaled (Conns base) (bi_Conns inc) mb;
    ConnsInbound := scaled (ConnsInbound base) (bi_ConnsInbound inc) mb;
    ConnsOutbound := scaled (ConnsOutbound base) (bi_ConnsOutbound inc) mb;
    FD :=
      if p_lt (p_of_Z 0) (FDFraction inc) && (0 <? numFD) then
        let fd := p_trunc (p_mul (FDFraction inc) (p_of_Z numFD)) in
        if fd <? FD base then FD base else fd
      else FD base;
    bl_Memory := scaled (bl_Memory base) (bi_Memory inc) mb;
  |}.

Record baseLimitConfig := mkBaseConfig { bc_base : BaseLimit; bc_increase : BaseLimitIncrease }.

Definition scale_config (memory numFD : Z) (l : baseLimitConfig) : BaseLimit :=
  scale (bc_base l) (bc_increase l) memory numFD.

(** A scope's base limit and increase are kept together, as a [baseLimitConfig]. *)
Record ScalingLimitConfig := mkScaling {
  SystemBase : baseLimitConfig;
  TransientBase : baseLimitConfig;
  AllowlistedSystemBase : baseLimitConfig;
  AllowlistedTransientBase : baseLimitConfig;
  ServiceBase : baseLimitConfig;
  ServicePeerBase : baseLimitConfig;
  ProtocolBase : baseLimitConfig;
  ProtocolPeerBase : baseLimitConfig;
  PeerBase : baseLimitConfig;
  ConnBase : baseLimitConfig;
  StreamBase : baseLimitConfig;
  ServiceLimits : limit_map baseLimitConfig;
  ServicePeerLimits : limit_map baseLimitConfig;
  ProtocolLimits : limit_map baseLimitConfig;
  ProtocolPeerLimits : limit_map baseLimitConfig;
  PeerLimits : limit_map baseLimitConfig;
}.

#[export] Instance ScalingLimitConfig_eta : Eta ScalingLimitConfig := fun c =>
  mkScaling (SystemBase c) (TransientBase c) (AllowlistedSystemBase c) (AllowlistedTransientBase c) (ServiceBase c) (ServicePeerBase c) (ProtocolBase c) (ProtocolPeerBase c) (PeerBase c) (ConnBase c) (StreamBase c)
    (ServiceLimits c) (ServicePeerLimits c) (ProtocolLimits c) (ProtocolPeerLimits c) (PeerLimits c).

Definition AddServiceLimit (cfg : ScalingLimitConfig) (k : string) (base : BaseLimit)
    (inc : BaseLimitIncrease) : ScalingLimitConfig :=
  cfg <| ServiceLimits := Some (<[k := mkBaseConfig base inc]> (entries (ServiceLimits cfg))) |>.

Definition AddProtocolLimit (cfg : ScalingLimitConfig) (k : string) (base : BaseLimit)
    (inc : BaseLimitIncrease) : ScalingLimitConfig :=
  cfg <| ProtocolLimits := Some (<[k := mkBaseConfig base inc]> (entries (ProtocolLimits cfg))) |>.

Definition AddPeerLimit (cfg : ScalingLimitConfig) (k : string) (base : BaseLimit)
    (inc : BaseLimitIncrease) : ScalingLimitConfig :=
  cfg <| PeerLimits := Some (<[k := mkBaseConfig base inc]> (entries (PeerLimits cfg))) |>.

Definition AddServicePeerLimit (cfg : ScalingLimitConfig) (k : string) (base : BaseLimit)
    (inc : BaseLimitIncrease) : ScalingLimitConfig :=
  cfg <| ServicePeerLimits := Some (<[k := mkBaseConfig base inc]> (entries (ServicePeerLimits cfg))) |>.

Definition AddProtocolPeerLimit (cfg : ScalingLimitConfig) (k : string) (base : BaseLimit)
    (inc : BaseLimitIncrease) : ScalingLimitConfig :=
  cfg <| ProtocolPeerLimits := Some (<[k := mkBaseConfig base inc]> (entries (ProtocolPeerLimits cfg))) |>.

(** The stream limit is scaled with the increase of the connection limit. *)
Definition Scale (cfg : ScalingLimitConfig) (memory numFD : Z) : ConcreteLimitConfig :=
  let sc := scale_config memory numFD in
  {|
    cc_system := sc (SystemBase cfg);
    cc_transient := sc (TransientBase cfg);
    cc_allowlistedSystem := sc (AllowlistedSystemBase cfg);
    cc_allowlistedTransient := sc (AllowlistedTransientBase cfg);
    cc_serviceDefault := sc (ServiceBase cfg);
    cc_servicePeerDefault := sc (ServicePeerBase cfg);
    cc_protocolDefault := sc (ProtocolBase cfg);
    cc_protocolPeerDefault := sc (ProtocolPeerBase cfg);
    cc_peerDefault := sc (PeerBase cfg);
    cc_conn := sc (ConnBase cfg);
    cc_stream := scale (bc_base (StreamBase cfg)) (bc_increase (ConnBase cfg)) memory numFD;
    cc_service := map_limits sc (ServiceLimits cfg);
    cc_servicePeer := map_limits sc (ServicePeerLimits cfg);
    cc_protocol := map_limits sc (ProtocolLimits cfg);
    cc_protocolPeer := map_limits sc (ProtocolPeerLimits cfg);
    cc_peer := map_limits sc (PeerLimits cfg);
  |}.

(** [AutoScale]: an eighth of the memory and half of the descriptors. *)
Definition AutoScale (cfg : ScalingLimitConfig) (totalMemory numFDs : Z) : ConcreteLimitConfig :=
  Scale cfg (Z.quot (int64 totalMemory) 8) (Z.quot numFDs 2).

Definition no_increase : BaseLimitIncrease := mkIncrease 0 0 0 0 0 0 0 (p_of_Z 0).

Definition MiB (n : Z) : Z := Z.shiftl n 20.
Definition GiB (n : Z) : Z := Z.shiftl n 30.

(** [DefaultLimits]: streams, inbound, outbound; connections, inbound, outbound;
    file descriptors; memory. *)
Definition DefaultLimits : ScalingLimitConfig := {|
  SystemBase := mkBaseConfig
    (mkBase (128 * 16) (64 * 16) (128 * 16) 128 64 128 256 (MiB 128))
    (mkIncrease (128 * 16) (64 * 16) (128 * 16) 128 64 128 (GiB 1) (p_of_Z 1));
  TransientBase := mkBaseConfig
    (mkBase 256 128 256 64 32 64 64 (MiB 32))
    (mkIncrease 256 128 256 32 16 32 (MiB 128) (p_lit 25 2));
  AllowlistedSystemBase := mkBaseConfig
    (mkBase (128 * 16) (64 * 16) (128 * 16) 128 64 128 256 (MiB 128))
    (mkIncrease (128 * 16) (64 * 16) (128 * 16) 128 64 128 (GiB 1) (p_of_Z 1));
  AllowlistedTransientBase := mkBaseConfig
    (mkBase 256 128 256 64 32 64 64 (MiB 32))
    (mkIncrease 256 128 256 32 16 32 (MiB 128) (p_lit 25 2));
  ServiceBase := mkBaseConfig
    (mkBase 4096 1024 4096 0 0 0 0 (MiB 64))
    (mkIncrease 2048 512 2048 0 0 0 (MiB 128) (p_of_Z 0));
  ServicePeerBase := mkBaseConfig
    (mkBase 256 128 256 0 0 0 0 (MiB 16))
    (mkIncrease 8 4 8 0 0 0 (MiB 4) (p_of_Z 0));
  ProtocolBase := mkBaseConfig
    (mkBase 2048 512 2048 0 0 0 0 (MiB 64))
    (mkIncrease 512 256 512 0 0 0 (MiB 164) (p_of_Z 0));
  ProtocolPeerBase := mkBaseConfig
    (mkBase 256 64 128 0 0 0 0 (MiB 16))
    (mkIncrease 16 4 8 0 0 0 4 (p_of_Z 0));
  PeerBase := mkBaseConfig
    (mkBase 512 256 512 8 8 8 4 (MiB 64))
    (mkIncrease 256 128 256 0 0 0 (MiB 128) (p_div (p_of_Z 1) (p_of_Z 64)));
  ConnBase := mkBaseConfig (mkBase 0 0 0 1 1 1 1 (MiB 32)) no_increase;
  StreamBase := mkBaseConfig (mkBase 1 1 1 0 0 0 0 (MiB 16)) no_increase;
  ServiceLimits := None; ServicePeerLimits := None; ProtocolLimits := None;
  ProtocolPeerLimits := None; PeerLimits := None;
|}.

(** The limits of [myResourceManager]: the system's base is divided by four and
    multiplied by [rate], 1 on a mobile, 4 elsewhere; nothing is scaled up. *)
Definition quarter (rate n : Z) : Z := int64 (Z.quot n 4 * rate).

Definition my_limits (IsMobile : bool) : ConcreteLimitConfig :=
  let rate := if IsMobile then 1 else 4 in
  let syslmt := bc_base (SystemBase DefaultLimits) in
  let q := quarter rate in
  Scale (DefaultLimits <| SystemBase := mkBaseConfig
    (mkBase (q (Streams syslmt)) (q (StreamsInbound syslmt)) (q (StreamsOutbound syslmt))
       (q (Conns syslmt)) (q (ConnsInbound syslmt)) (q (ConnsOutbound syslmt))
       (q (FD syslmt)) (q (bl_Memory syslmt)))
    (bc_increase (SystemBase DefaultLimits)) |>) 0 0.
End scaling.

Definition infiniteBaseLimit : BaseLimit :=
  mkBase MaxInt MaxInt MaxInt MaxInt MaxInt MaxInt MaxInt MaxInt.

Definition InfiniteLimits : ConcreteLimitConfig :=
  let l := infiniteBaseLimit in
  mkConcrete l l l l l l l l l l l None None None None None.

(** ** Limits as JSON *)

Lemma itoa_go_head_pos fuel n acc : 0 < n < 10 ^ Z.of_nat fuel -> fuel <> 0%nat ->
  exists d rest, itoa_go fuel n acc = String (digit_char d) rest /\ 1 <= d < 10.
Proof.
  revert n acc. induction fuel as [|fuel IH]; intros n acc Hn Hf; [done|]. cbn [itoa_go].
  pose proof (Z.mod_pos_bound n 10 ltac:(lia)). pose proof (Z.div_mod n 10 ltac:(lia)).
  destruct (Z.eqb_spec (n / 10) 0) as [E|E].
  - exists (n mod 10), acc. split; [done|lia].
  - rewrite Nat2Z.inj_succ, Z.pow_succ_r in Hn by lia. apply IH.
    + split; [pose proof (Z.div_pos n 10); lia|]. apply Z.div_lt_upper_bound; lia.
    + intros ->. cbn in Hn. assert (n / 10 = 0) by (apply Z.div_small; lia). done.
Qed.

Lemma json_digits_itoa n : 0 < n < 10 ^ 20 -> json_digits (itoa_go 20 n "") = Some n.
Proof.
  intros Hn. destruct (itoa_go_head_pos 20 n "") as (d & rest & E & Hd); [lia|done|].
  destruct (atoi_itoa_go 20 n "") as (k & _ & Hk); [lia|done|]. specialize (Hk 0).
  rewrite E in *. unfold json_digits. rewrite bool_decide_eq_false_2.
  - rewrite Hk. by replace (0 * 10 ^ k + n) with n by lia.
  - intros [Hc _]. pose proof (char_digit_char d ltac:(lia)) as Hcd. rewrite Hc in Hcd.
    vm_compute in Hcd. injection Hcd as <-. lia.
Qed.

Lemma json_int_itoa n : is_i64 n -> n <> 0 -> json_int (itoa n) = Some n.
Proof.
  intros Hn H0. unfold json_int, itoa. assert (- 2 ^ 63 <= n < 2 ^ 63) as Hb by exact Hn.
  assert ((- 2 ^ 63 <=? n) && (n <? 2 ^ 63) = true) as Hr by lia.
  destruct (Z.ltb_spec n 0).
  - rewrite bool_decide_eq_true_2 by done. rewrite json_digits_itoa by lia. cbn [fmap option_fmap option_map].
    rewrite Z.opp_involutive. by rewrite Hr.
  - destruct (itoa_go_head 20 n "") as (d & rest & E & Hd); [lia|done|].
    pose proof (json_digits_itoa n ltac:(lia)) as Hj. rewrite E in *.
    destruct (digit_char_plain d Hd) as (Hm & _). rewrite bool_decide_eq_false_2 by done.
    rewrite Hj. by rewrite Hr.
Qed.

Lemma Atoi_itoa_neg n : - 2 ^ 63 <= n < 0 -> Atoi (itoa n) = Some n.
Proof.
  intros Hn. unfold itoa. replace (n <? 0) with true by lia. unfold Atoi.
  rewrite bool_decide_eq_true_2 by done.
  destruct (itoa_go_head 20 (- n) "") as (d & rest & E & Hd); [lia|done|].
  destruct (atoi_itoa_go 20 (- n) "") as (k & _ & Hk); [lia|done|]. specialize (Hk 0).
  unfold atoi_unsigned. rewrite E in *. rewrite Hk. cbn [atoi_digits fmap option_fmap option_map].
  replace (- (0 * 10 ^ k + - n)) with n by lia. by replace ((- 2 ^ 63 <=? n) && (n <? 2 ^ 63)) with true by lia.
Qed.

Lemma digit_char_json d : 0 <= d < 10 ->
  digit_char d <> quote /\ digit_char d <> Ascii.ascii_of_nat 92 /\
  (Ascii.nat_of_ascii (digit_char d) <? 32)%nat = false.
Proof.
  intros H. pose proof (char_digit_char d H) as E. split; [|split].
  - intros Hc. rewrite Hc in E. by vm_compute in E.
  - intros Hc. rewrite Hc in E. by vm_compute in E.
  - unfold digit_char. rewrite nat_ascii_embedding by lia. apply Nat.ltb_ge. lia.
Qed.

Lemma plain_content_digit d s : 0 <= d < 10 ->
  plain_content (String (digit_char d) s) = String (digit_char d) <$> plain_content s.
Proof.
  intros Hd. destruct (digit_char_json d Hd) as (H1 & H2 & H3). cbn [plain_content].
  by rewrite !bool_decide_eq_false_2, H3 by done.
Qed.

Lemma plain_content_itoa_go fuel n acc : 0 <= n ->
  plain_content (acc +:+ String quote "") = Some acc ->
  plain_content (itoa_go fuel n acc +:+ String quote "") = Some (itoa_go fuel n acc).
Proof.
  revert n acc. induction fuel as [|fuel IH]; intros n acc Hn Ha; [done|]. cbn [itoa_go].
  pose proof (Z.mod_pos_bound n 10 ltac:(lia)) as Hm.
  set (acc' := String (digit_char (n mod 10)) acc).
  assert (plain_content (acc' +:+ String quote "") = Some acc') as Ha'.
  { change (acc' +:+ String quote "") with (String (digit_char (n mod 10)) (acc +:+ String quote "")).
    rewrite plain_content_digit by done. by rewrite Ha. }
  destruct (n / 10 =? 0); [done|]. apply IH; [apply Z.div_pos; lia|done].
Qed.

Lemma json_string_itoa unescape n : json_string unescape (quoted (itoa n)) = Some (itoa n).
Proof.
  unfold quoted, json_string. rewrite bool_decide_eq_true_2 by done.
  assert (plain_content (itoa n +:+ String quote "") = Some (itoa n)) as ->; [|done].
  unfold itoa. destruct (Z.ltb_spec n 0).
  - change (String "-" (itoa_go 20 (- n) "") +:+ String quote "") with
      (String "-" (itoa_go 20 (- n) "" +:+ String quote "")). cbn [plain_content].
    rewrite !bool_decide_eq_false_2 by done. cbn [orb].
    replace (Ascii.nat_of_ascii "-" <? 32)%nat with false by done.
    by rewrite plain_content_itoa_go by (lia || done).
  - by apply plain_content_itoa_go.
Qed.


(** A number is none of the words. *)
Lemma itoa_not_word n w : In w ["default"; "unlimited"; "blockAll"] ->
  itoa n <> quoted w /\ quoted (itoa n) <> quoted w.
Proof.
  intros Hw.
  assert (exists c rest, itoa n = String c rest /\ (c = "-"%char \/ exists d, c = digit_char d /\ 0 <= d < 10))
    as (c & rest & E & Hc).
  { unfold itoa. destruct (Z.ltb_spec n 0); [eexists _, _; by split; [|left]|].
    destruct (itoa_go_head 20 n "") as (d & rest & E & Hd); [lia|done|].
    exists (digit_char d), rest. split; [done|]. right. by exists d. }
  assert (forall x, c = x -> char_digit x = None -> x <> "-"%char -> False) as Hno.
  { intros x -> Hx Hm. destruct Hc as [?|(d & -> & Hd)]; [done|]. by rewrite char_digit_char in Hx. }
  rewrite E. split.
  - intros [= Hq _]. by apply (Hno quote).
  - unfold quoted. intros [= Heq]. cbn in Hw. destruct Hw as [<-|[<-|[<-|[]]]]; cbn in Heq;
      injection Heq as Heq _; by eapply (Hno _ Heq).
Qed.

Lemma word_limit_number n : word_limit (itoa n) = None /\ word_limit (quoted (itoa n)) = None.
Proof.
  unfold word_limit.
  destruct (itoa_not_word n "default") as [A1 B1]; [cbn; tauto|].
  destruct (itoa_not_word n "unlimited") as [A2 B2]; [cbn; tauto|].
  destruct (itoa_not_word n "blockAll") as [A3 B3]; [cbn; tauto|].
  by rewrite !bool_decide_eq_false_2.
Qed.

(** a limit read back from its JSON is the limit that was written, for every
    64-bit value: the marks for default, unlimited and block all as words, a
    memory limit as a quoted number. *)
Theorem limit_json_roundtrip unescape l :
  is_i64 l ->
  LimitVal_UnmarshalJSON (LimitVal_MarshalJSON l) = Some l /\
  LimitVal64_UnmarshalJSON unescape (LimitVal64_MarshalJSON l) = Some l.
Proof.
  intros Hl. unfold LimitVal_MarshalJSON, LimitVal64_MarshalJSON, limit_word.
  destruct (Z.eqb_spec l Unlimited) as [->|H1]; [by split|].
  destruct (Z.eqb_spec l DefaultLimit) as [->|H2]; [by split|].
  destruct (Z.eqb_spec l BlockAllLimit) as [->|H3]; [by split|].
  unfold LimitVal_UnmarshalJSON, LimitVal64_UnmarshalJSON, DefaultLimit in *.
  destruct (word_limit_number l) as [-> ->]. rewrite json_string_itoa.
  assert (zero_blocks l = l) as Hz by (unfold zero_blocks; by destruct (Z.eqb_spec l 0)).
  split.
  - rewrite json_int_itoa by done. cbn. by rewrite Hz.
  - assert (Atoi (itoa l) = Some l) as ->.
    { unfold is_i64 in Hl. destruct (Z_lt_le_dec l 0); [apply Atoi_itoa_neg|apply Atoi_itoa]; lia. }
    cbn. by rewrite Hz.
Qed.

Lemma limit_json_roundtrip_witness :
  is_i64 4096 /\ LimitVal_UnmarshalJSON (LimitVal_MarshalJSON 4096) = Some 4096.
Proof.
  assert (is_i64 4096) as H by (unfold is_i64; lia). split; [exact H|].
  exact (proj1 (limit_json_roundtrip (fun _ => None) 4096 H)).
Defined.

(** ** Completing a configuration *)

Lemma limit_build_or_else a b d : limit_build (or_else a b) d = limit_build a (limit_build b d).
Proof.
  unfold or_else. destruct (Z.eqb_spec a 0) as [->|Ha]; [done|].
  unfold limit_build at 1 2, DefaultLimit. by rewrite !(proj2 (Z.eqb_neq a 0) Ha).
Qed.

(** applying one set of limits on top of another and completing the result
    with defaults is the same as completing the second with the defaults and the
    first with what comes out. *)
Theorem apply_then_build l l2 d :
  build_base (ResourceLimits_Apply l l2) d = build_base l (build_base l2 d).
Proof. destruct l, l2, d. unfold build_base, ResourceLimits_Apply. cbn. by rewrite !limit_build_or_else. Qed.

Definition base_ok (l : BaseLimit) : Prop :=
  Forall (fun x => 0 <= x <= MaxInt)
    [Streams l; StreamsInbound l; StreamsOutbound l; Conns l; ConnsInbound l; ConnsOutbound l; FD l; bl_Memory l].

Lemma limit_build_value n d : 0 <= n <= MaxInt -> limit_build (valueOrBlockAll n) d = n.
Proof.
  intros Hn. unfold valueOrBlockAll. destruct (Z.eqb_spec n 0) as [->|H0]; [done|].
  destruct (Z.eqb_spec n MaxInt) as [->|H1]; [done|].
  unfold limit_build, DefaultLimit, Unlimited, BlockAllLimit.
  destruct (Z.eqb_spec n 0); [done|]. destruct (Z.eqb_spec n (-1)); [lia|].
  destruct (Z.eqb_spec n (-2)); [lia|done].
Qed.

Lemma build_to_limits l d : base_ok l -> build_base (ToResourceLimits l) d = l.
Proof.
  intros Hl. unfold base_ok in Hl. rewrite !Forall_cons in Hl. destruct l. cbn in Hl.
  unfold build_base, ToResourceLimits. cbn. by rewrite !limit_build_value by tauto.
Qed.

Definition map_ok (m : limit_map BaseLimit) : Prop := forall k l, entries m !! k = Some l -> base_ok l.

(** The defaults name no key that the configuration does not have. *)
Definition covers (m defaults : limit_map BaseLimit) : Prop :=
  (m = None -> defaults = None) /\ forall k, entries m !! k = None -> entries defaults !! k = None.

Lemma build_map_to_limits m defaults fb :
  map_ok m -> covers m defaults ->
  buildMapWithDefault (resourceLimitsMapFromBaseLimitMap m) defaults fb = m.
Proof.
  intros Hok [Hnil Hcov]. destruct m as [m|]; cbn -[build_base]; [|by rewrite Hnil].
  f_equal. apply map_eq. intros k. specialize (Hcov k). specialize (Hok k). cbn -[build_base] in *.
  rewrite lookup_union, map_lookup_imap, lookup_fmap.
  destruct (m !! k) as [l|] eqn:Hk; cbn -[build_base].
  - rewrite build_to_limits by (by apply Hok). by destruct (entries defaults !! k).
  - by rewrite Hcov.
Qed.

Record config_ok (cfg : ConcreteLimitConfig) : Prop := {
  co_scopes : Forall base_ok [cc_system cfg; cc_transient cfg; cc_allowlistedSystem cfg;
    cc_allowlistedTransient cfg; cc_serviceDefault cfg; cc_servicePeerDefault cfg; cc_protocolDefault cfg;
    cc_protocolPeerDefault cfg; cc_peerDefault cfg; cc_conn cfg; cc_stream cfg];
  co_maps : Forall map_ok [cc_service cfg; cc_servicePeer cfg; cc_protocol cfg; cc_protocolPeer cfg; cc_peer cfg];
}.

(** a concrete configuration turned into a partial one has no default left:
    completed with any defaults that name no further service, protocol or peer,
    it is the configuration again. *)
Theorem concrete_partial_roundtrip cfg defaults :
  config_ok cfg ->
  covers (cc_service cfg) (cc_service defaults) -> covers (cc_servicePeer cfg) (cc_servicePeer defaults) ->
  covers (cc_protocol cfg) (cc_protocol defaults) ->
  covers (cc_protocolPeer cfg) (cc_protocolPeer defaults) -> covers (cc_peer cfg) (cc_peer defaults) ->
  PartialLimitConfig_Build (ToPartialLimitConfig cfg) defaults = cfg.
Proof.
  intros [Hs Hm] C1 C2 C3 C4 C5. rewrite !Forall_cons in Hs. rewrite !Forall_cons in Hm.
  destruct cfg. cbn in *. unfold PartialLimitConfig_Build, ToPartialLimitConfig.
  cbn -[build_base buildMapWithDefault resourceLimitsMapFromBaseLimitMap]. by rewrite !build_to_limits, !build_map_to_limits by tauto.
Qed.

(** ** Scaling *)

Section scaling_facts.
Context `{F : PoolFloat}.

(** the limits of streams do not depend on the configured increase of the
    stream limit: [Scale] uses that of the connection limit. *)
Theorem stream_increase_ignored cfg inc memory numFD :
  Scale (cfg <| StreamBase := mkBaseConfig (bc_base (StreamBase cfg)) inc |>) memory numFD =
  Scale cfg memory numFD.
Proof. done. Qed.

Lemma scaled_exact base inc mb :
  0 <= base < 2 ^ 61 -> 0 <= inc < 2 ^ 31 -> 0 <= mb < 2 ^ 31 ->
  scaled base inc mb = base + inc * mb / 2 ^ 10 /\ base <= scaled base inc mb.
Proof.
  intros Hb Hi Hm. unfold scaled. rewrite (int64_small (inc * mb)) by (unfold is_i64; nia).
  rewrite Z.shiftr_div_pow2 by lia. pose proof (Z.div_pos (inc * mb) (2 ^ 10)).
  assert (inc * mb / 2 ^ 10 < 2 ^ 62) by (apply Z.div_lt_upper_bound; nia).
  rewrite int64_small by (unfold is_i64; nia). nia.
Qed.

(** With no memory to spare and no descriptors, the base limits are used. *)
Lemma scale_base base inc :
  base_ok base -> scale base inc 0 0 = base.
Proof.
  intros Hb. unfold base_ok in Hb. rewrite !Forall_cons in Hb. unfold MaxInt in Hb.
  unfold scale. rewrite andb_false_r. cbn [Z.ltb Z.compare].
  replace (Z.shiftl 128 20 <? 0) with false by done.
  assert (forall b i, 0 <= b <= 2 ^ 63 - 1 -> scaled b i 0 = b) as Hsc.
  { intros b i Hbi. unfold scaled. rewrite Z.mul_0_r. change (Z.shiftr (int64 0) 10) with 0.
    rewrite Z.add_0_r. apply int64_small. unfold is_i64. lia. }
  destruct base. cbn in *. by rewrite !Hsc by tauto.
Qed.

(** Every limit that a limiter gives is finite, so that the checks of the scopes
    do not overflow. *)
Record limiter_ok (L : Limiter) : Prop := {
  lk_system : limit_ok (GetSystemLimits L);
  lk_transient : limit_ok (GetTransientLimits L);
  lk_asystem : limit_ok (GetAllowlistedSystemLimits L);
  lk_atransient : limit_ok (GetAllowlistedTransientLimits L);
  lk_service : forall s, limit_ok (GetServiceLimits L s);
  lk_servicePeer : forall s, limit_ok (GetServicePeerLimits L s);
  lk_protocol : forall s, limit_ok (GetProtocolLimits L s);
  lk_protocolPeer : forall s, limit_ok (GetProtocolPeerLimits L s);
  lk_peer : forall s, limit_ok (GetPeerLimits L s);
  lk_stream : forall s, limit_ok (GetStreamLimits L s);
  lk_conn : limit_ok (GetConnLimits L);
}.

Definition base_finite (l : BaseLimit) : bool :=
  forallb (fun x => (0 <=? x) && (x <? count_bound))
    [Streams l; StreamsInbound l; StreamsOutbound l; Conns l; ConnsInbound l; ConnsOutbound l; FD l; bl_Memory l].

Lemma base_finite_ok l : base_finite l = true -> limit_ok (base_limit l).
Proof.
  unfold base_finite. cbn. rewrite !andb_true_iff, !Z.leb_le, !Z.ltb_lt. intros H.
  split; [|cbn; tauto..]. intros []; cbn; tauto.
Qed.

Lemma base_finite_base_ok l : base_finite l = true -> base_ok l.
Proof.
  unfold base_finite, base_ok. cbn. rewrite !andb_true_iff, !Z.leb_le, !Z.ltb_lt.
  unfold count_bound, MaxInt. intros H. repeat (apply Forall_cons; split; [lia|]). done.
Qed.

(** the limits that p2put starts its host with are all finite, on a mobile
    and elsewhere: the resource manager's checks never overflow. *)
Theorem my_limits_finite IsMobile : limiter_ok (NewFixedLimiter (my_limits IsMobile)).
Proof.
  unfold my_limits, Scale, scale_config. cbn -[scale quarter].
  split; cbn -[scale quarter]; try intros k; unfold limits_for; cbn -[scale quarter];
    rewrite ?lookup_empty; cbn -[scale quarter];
    (rewrite scale_base;
      [apply base_finite_ok|apply base_finite_base_ok]; destruct IsMobile; vm_compute; reflexivity).
Qed.
End scaling_facts.
