(* ===== verification/RcUse.v ===== *)
(** Programs that use resource scopes: a step relation for the methods of
    RcScope.v, with what the users hold, and what is true of every state they
    reach. *)

From stdpp Require Import gmap strings list.
From S2P Require Import Prelude RcResources TunnelAddr RcScope RcScopeProps RcAccount.
#[local] Open Scope Z_scope.

(** No open scope is constrained by [s]: [Done] is not called on a node of the
    DAG before the nodes below it are done. *)
Definition constrains_none (h : heap) (s : nat) : Prop :=
  forall k y, scopes h !! k = Some y -> done y = false -> s ∉ edges y.

Definition grant (held : holdings) (err : option rcerror) (s : nat) (d : res -> Z) : holdings :=
  match err with None => hadd held s d | Some _ => held end.
Definition give_back (h : heap) (held : holdings) (s : nat) (d : res -> Z) : holdings :=
  if is_live h s then hadd held s (hopp d) else held.

(** One call of a method.  Users release what they hold, give back references
    they took, and build scopes on open nodes of the DAG. *)
Inductive use_step : heap * holdings -> heap * holdings -> Prop :=
  | us_reserve_memory h held s size prio err h' :
      is_Some (scopes h !! s) -> 0 <= size < 2 ^ 63 -> is_u8 prio ->
      ReserveMemory s size prio h = Ok (err, h') ->
      use_step (h, held) (h', grant held err s (mem_delta size))
  | us_release_memory h held s size h' :
      is_Some (scopes h !! s) -> 0 <= size < 2 ^ 63 ->
      (is_live h s = true -> size <= held s RMem) ->
      ReleaseMemory s size h = Ok ((), h') ->
      use_step (h, held) (h', give_back h held s (mem_delta size))
  | us_add_stream h held s dir err h' :
      is_Some (scopes h !! s) -> AddStream s dir h = Ok (err, h') ->
      use_step (h, held) (h', grant held err s (dir_streams_delta dir))
  | us_remove_stream h held s dir h' :
      is_Some (scopes h !! s) ->
      (is_live h s = true -> forall r, dir_streams_delta dir r <= held s r) ->
      RemoveStream s dir h = Ok ((), h') ->
      use_step (h, held) (h', give_back h held s (dir_streams_delta dir))
  | us_add_conn h held s dir usefd err h' :
      is_Some (scopes h !! s) -> AddConn s dir usefd h = Ok (err, h') ->
      use_step (h, held) (h', grant held err s (dir_conns_delta dir usefd))
  | us_remove_conn h held s dir usefd h' :
      is_Some (scopes h !! s) ->
      (is_live h s = true -> forall r, dir_conns_delta dir usefd r <= held s r) ->
      RemoveConn s dir usefd h = Ok ((), h') ->
      use_step (h, held) (h', give_back h held s (dir_conns_delta dir usefd))
  | us_begin_span h held s span h' :
      is_Some (scopes h !! s) -> BeginSpan s h = Ok (span, h') ->
      use_step (h, held) (h', held)
  | us_new_scope h held limit es name s h' :
      limit_ok limit -> NoDup es ->
      (forall e, e ∈ es -> exists esc, scopes h !! e = Some esc /\ owner esc = None) ->
      newResourceScope limit es name h = Ok (s, h') ->
      use_step (h, held) (h', held)
  | us_done h held s h' :
      is_Some (scopes h !! s) -> constrains_none h s -> Done s h = Ok ((), h') ->
      use_step (h, held) (h', if is_live h s then hclear held s else held)
  | us_incref h held s h' :
      is_Some (scopes h !! s) -> IncRef s h = Ok ((), h') -> use_step (h, held) (h', held)
  | us_decref h held s h' :
      (forall sc, scopes h !! s = Some sc -> done sc = false -> refs h s < refCnt sc) ->
      is_Some (scopes h !! s) -> DecRef s h = Ok ((), h') -> use_step (h, held) (h', held).

Definition used : heap * holdings -> Prop := reachable (eq (empty_heap, no_holdings)) use_step.

(** ** Every step keeps the accounts *)

Lemma accounts_empty : accounts empty_heap no_holdings.
Proof.
  split; done.
Qed.

Lemma refs_nonneg h p : 0 <= refs h p.
Proof. apply msum_nonneg. intros k x _. unfold refs_from. by destruct (_ && _). Qed.

Lemma accounts_begin_span h held s :
  accounts h held -> is_Some (scopes h !! s) ->
  exists span h', BeginSpan s h = Ok (span, h') /\ accounts h' held /\
    (forall k y, scopes h !! k = Some y ->
       exists y', scopes h' !! k = Some y' /\ done y' = done y /\ owner y' = owner y /\ edges y' = edges y) /\
    (forall k y', scopes h' !! k = Some y' -> scopes h !! k = None -> is_Some (owner y')).
Proof.
  intros Hac [sc Hs]. unfold BeginSpan, bind at 1, getScope, deref. rewrite Hs.
  destruct (done sc) eqn:Hd.
  { exists (inl (wrapError sc ErrResourceScopeClosed)), h. split; [done|split; [done|]].
    split; [intros k y Hk; by exists y|intros k y'; congruence]. }
  set (f := fun x : resourceScope => x <| refCnt := refCnt x + 1 |> <| spanID := spanID x + 1 |>).
  set (h1 := h <| scopes := alter f s (scopes h) |>).
  assert (scopes h1 !! s = Some (f sc)) as Hs1 by (cbn; by rewrite lookup_alter_eq, Hs).
  assert (forall k, k <> s -> scopes h1 !! k = scopes h !! k) as Hother
    by (intros k Hk; cbn; by rewrite lookup_alter_ne by congruence).
  assert (accounts h1 held) as Hac1.
  { apply (accounts_same h); [done| | |done].
    - intros k. destruct (decide (k = s)) as [->|Hk]; [by rewrite Hs1, Hs|].
      rewrite Hother by done. by destruct (scopes h !! k).
    - intros p y Hp Hdp. destruct (decide (p = s)) as [->|Hk].
      + rewrite Hs1 in Hp. injection Hp as <-. pose proof (ac_refs _ _ Hac s sc Hs Hd). cbn. lia.
      + rewrite Hother in Hp by done. by apply (ac_refs _ _ Hac). }
  set (span := mkScope false 0 0 (fresh_resources (rc_limit (rc sc))) (Some s) []
                 (sname sc +:+ ".span-" +:+ itoa (spanID sc + 1))).
  exists (inr (next h)), (mkHeap (<[next h := span]> (scopes h1)) (S (next h))). split; [|split; [|split]].
  - assert (nextSpanID s (h <| scopes := alter (fun x => x <| refCnt := refCnt x + 1 |>) s (scopes h) |>) =
      Ok (spanID sc + 1, h1)) as Hid.
    { unfold nextSpanID, bind, updScope, modify, getScope, deref, ret. cbn.
      rewrite !lookup_alter_eq, Hs. cbn. unfold h1, set_field. cbn. by rewrite alter_alter. }
    unfold bind at 1, updScope, modify. unfold bind at 1. rewrite Hid.
    unfold newResourceScopeSpan, bind, getScope, deref. rewrite Hs1. reflexivity.
  - apply (accounts_alloc h1); [done|done| |intros r; apply usage_fresh|done|].
    + pose proof (ac_wf _ _ Hac) as Hwf. pose proof (Hwf s sc Hs) as Hsw. split.
      * cbn. lia.
      * intros o [= <-]. split; [apply (sw_next _ _ _ Hsw)|split; [|done]]. cbn [scopes].
        by exists (f sc).
      * intros e He. by apply elem_of_nil in He.
      * apply NoDup_nil_2.
      * apply fresh_within, (wi_limit _ (sw_within _ _ _ Hsw)).
    + intros p y Hp Hdp.
      assert (refs h1 p = refs h p) as ->.
      { symmetry. apply msum_rel. intros k. destruct (decide (k = s)) as [->|Hk]; [by rewrite Hs1, Hs|].
        rewrite Hother by done. by destruct (scopes h !! k). }
      unfold refs_from. cbn. destruct (decide (p = s)) as [->|Hk].
      * rewrite Hs1 in Hp. injection Hp as <-. pose proof (ac_refs _ _ Hac s sc Hs Hd).
        rewrite bool_decide_eq_true_2 by done. cbn. lia.
      * rewrite Hother in Hp by done. pose proof (ac_refs _ _ Hac p y Hp Hdp).
        rewrite bool_decide_eq_false_2 by congruence. cbn.
        rewrite (bool_decide_eq_false_2 (p ∈ [])) by apply not_elem_of_nil. lia.
  - intros k y Hk. cbn [scopes]. rewrite lookup_insert_ne.
    + destruct (decide (k = s)) as [->|Hne]; [|exists y; by rewrite Hother].
      exists (f sc). split; [done|]. by assert (y = sc) as -> by congruence.
    + intros <-. pose proof (sw_next _ _ _ (ac_wf _ _ Hac _ _ Hk)). lia.
  - intros k y' Hk Hn. cbn [scopes] in Hk. apply lookup_insert_Some in Hk as [[<- <-]|[Hne Hk]]; [by eexists|].
    destruct (decide (k = s)) as [->|Hks]; [congruence|]. rewrite Hother in Hk by done. congruence.
Qed.

Lemma for_each_IncRef es h :
  NoDup es -> (forall e, e ∈ es -> is_Some (scopes h !! e)) ->
  exists h1, for_each es IncRef h = Ok ((), h1) /\ next h1 = next h /\
    forall k, scopes h1 !! k =
      (fun sc => if bool_decide (k ∈ es) then sc <| refCnt := refCnt sc + 1 |> else sc) <$> scopes h !! k.
Proof.
  revert h. induction es as [|e es IH]; intros h Hnd Hin.
  { exists h. split; [done|split; [done|]]. intros k. cbn. by destruct (scopes h !! k). }
  apply NoDup_cons in Hnd as [He Hnd]. cbn [for_each]. unfold bind at 1.
  rewrite IncRef_spec by apply Hin, list_elem_of_here.
  destruct (IH (on_refs 1 e h) Hnd) as (h1 & Hrun & Hn & Hlk).
  { intros k Hk. rewrite lookup_on_refs. destruct (Hin k) as [y ->]; [by apply list_elem_of_further|by eexists]. }
  exists h1. split; [done|split; [done|]]. intros k. rewrite Hlk, lookup_on_refs.
  destruct (scopes h !! k) as [y|]; [|done]. cbn. f_equal. destruct (decide (k = e)) as [->|Hk].
  - rewrite (bool_decide_eq_false_2 (e ∈ es)) by done.
    by rewrite bool_decide_eq_true_2 by apply list_elem_of_here.
  - by rewrite (bool_decide_ext (k ∈ e :: es) (k ∈ es)) by (rewrite elem_of_cons; tauto).
Qed.

Lemma accounts_new_scope h held limit es name :
  accounts h held -> limit_ok limit -> NoDup es ->
  (forall e, e ∈ es -> exists esc, scopes h !! e = Some esc /\ owner esc = None) ->
  exists h', newResourceScope limit es name h = Ok (next h, h') /\ accounts h' held /\
    scopes h' !! next h = Some (mkScope false 0 0 (fresh_resources limit) None es name) /\
    next h' = S (next h) /\
    forall k, (k < next h)%nat -> scopes h' !! k =
      (fun sc => if bool_decide (k ∈ es) then sc <| refCnt := refCnt sc + 1 |> else sc) <$> scopes h !! k.
Proof.
  intros Hac Hlim Hnd Hin.
  destruct (for_each_IncRef es h Hnd) as (h1 & Hrun & Hn & Hlk).
  { intros e He. destruct (Hin e He) as (esc & -> & _). by eexists. }
  set (sc := mkScope false 0 0 (fresh_resources limit) None es name).
  exists (mkHeap (<[next h1 := sc]> (scopes h1)) (S (next h1))). split; [|split; [|split; [|split]]].
  - unfold newResourceScope, bind at 1. rewrite Hrun. unfold alloc, bind, gets, modify, ret. by rewrite Hn.
  - assert (forall p, refs h1 p = refs h p) as Hrefs.
    { intros p. symmetry. apply msum_rel. intros k. rewrite Hlk. destruct (scopes h !! k); [|done]. cbn.
      by destruct (bool_decide _). }
    assert (forall p y, scopes h1 !! p = Some y -> done y = false ->
      refs h p + (if bool_decide (p ∈ es) then 1 else 0) <= refCnt y) as Hr.
    { intros p y Hp Hdp. rewrite Hlk in Hp. destruct (scopes h !! p) as [z|] eqn:Hz; [|done].
      cbn in Hp. injection Hp as <-. case_bool_decide; cbn in *; pose proof (ac_refs _ _ Hac p z Hz Hdp); lia. }
    assert (accounts h1 held) as Hac1.
    { apply (accounts_same h); [done| | |done].
      - intros k. rewrite Hlk. destruct (scopes h !! k); [|done]. cbn. by destruct (bool_decide _).
      - intros p y Hp Hdp. specialize (Hr p y Hp Hdp). destruct (bool_decide _); lia. }
    apply accounts_alloc; [done|done| |intros r; apply usage_fresh|done|].
    + split; [cbn; lia|done| |done|by apply fresh_within].
      intros e He. destruct (Hin e He) as (esc & Hesc & Hnone). split.
      * intros ->. pose proof (sw_next _ _ _ (ac_wf _ _ Hac _ _ Hesc)). lia.
      * cbn [scopes]. exists (esc <| refCnt := refCnt esc + 1 |>).
        by rewrite Hlk, Hesc, bool_decide_eq_true_2 by done.
    + intros p y Hp Hdp. rewrite Hrefs. specialize (Hr p y Hp Hdp). unfold refs_from. cbn.
      rewrite (bool_decide_eq_false_2 (None = Some p)) by done. destruct (bool_decide (p ∈ es)); cbn; lia.
  - cbn. rewrite <- Hn. apply lookup_insert_eq.
  - cbn. by rewrite Hn.
  - intros k Hk. cbn. rewrite lookup_insert_ne by lia. apply Hlk.
Qed.

Lemma use_step_accounts x y : accounts x.1 x.2 -> use_step x y -> accounts y.1 y.2.
Proof.
  intros Hac Hstep. destruct Hstep as
    [h held s size prio err h' Hs Hsz Hp Hrun|h held s size h' Hs Hsz Hheld Hrun
    |h held s dir err h' Hs Hrun|h held s dir h' Hs Hheld Hrun
    |h held s dir fd err h' Hs Hrun|h held s dir fd h' Hs Hheld Hrun
    |h held s span h' Hs Hrun|h held limit es name s h' Hl Hnd Hin Hrun
    |h held s h' Hs Hleaf Hrun|h held s h' Hs Hrun|h held s h' Href Hs Hrun]; cbn [fst snd] in *.
  - pose proof (mem_op_laws size prio Hsz Hp).
    by apply (accounts_add (mem_op size prio) (mem_delta size) h held s).
  - assert (is_u8 0) as H0 by (unfold is_u8; lia). pose proof (mem_op_laws size 0 Hsz H0).
    apply (accounts_remove (mem_op size 0) (mem_delta size) false h held s); try done.
    intros Hl r. specialize (Hheld Hl). pose proof (ac_held _ _ Hac s). destruct r; cbn; auto.
  - by apply (accounts_add (stream_op dir) (dir_streams_delta dir) h held s).
  - by apply (accounts_remove (stream_op dir) (dir_streams_delta dir) false h held s).
  - by apply (accounts_add (conn_op dir fd) (dir_conns_delta dir fd) h held s).
  - by apply (accounts_remove (conn_op dir fd) (dir_conns_delta dir fd) true h held s).
  - destruct (accounts_begin_span h held s Hac Hs) as (sp & h1 & Hrun' & ? & _). congruence.
  - destruct (accounts_new_scope h held limit es name Hac Hl Hnd Hin) as (h1 & Hrun' & ? & _). congruence.
  - destruct (accounts_done h held s Hac Hs Hleaf) as (h1 & Hrun' & _ & ?). congruence.
  - rewrite IncRef_spec in Hrun by done. injection Hrun as <-. apply accounts_on_refs; [|done].
    intros sc Hsc Hd. pose proof (ac_refs _ _ Hac s sc Hsc Hd). lia.
  - rewrite DecRef_spec in Hrun by done. injection Hrun as <-. apply accounts_on_refs; [|done].
    intros sc Hsc Hd. specialize (Href sc Hsc Hd). lia.
Qed.

Lemma used_accounts h held : used (h, held) -> accounts h held.
Proof.
  intros Hu. apply (reachable_invariant (eq (empty_heap, no_holdings)) use_step (fun x => accounts x.1 x.2)) in Hu; [done| |].
  - intros s <-. apply accounts_empty.
  - intros s s' Hac Hst. by apply (use_step_accounts s).
Qed.

(** ** What every reachable state satisfies *)

(** A span constrains nothing: it uses what it owns. *)
Lemma span_usage h held s sc o r :
  accounts h held -> scopes h !! s = Some sc -> done sc = false -> owner sc = Some o ->
  usage (rc sc) r = own h held s r.
Proof.
  intros Hac Hs Hd Ho. rewrite (ac_balanced _ _ Hac s sc r Hs Hd).
  rewrite (msum_zero (edge_use h held s r)); [lia|]. intros k y Hk. unfold edge_use.
  rewrite (bool_decide_eq_false_2 (s ∈ edges y)); [by rewrite andb_false_r|]. intros Hin.
  destruct (sw_edges _ _ _ (ac_wf _ _ Hac k y Hk) s Hin) as (_ & esc & Hx & Hnone). congruence.
Qed.

Lemma own_zero h held r :
  accounts h held ->
  (forall k sc, scopes h !! k = Some sc -> done sc = false -> held k r = 0) ->
  forall s sc, scopes h !! s = Some sc -> done sc = false -> own h held s r = 0.
Proof.
  intros Hac Hzero s. remember (next h - s)%nat as n eqn:Hn. revert s Hn.
  induction n as [n IH] using lt_wf_ind. intros s Hn sc Hs Hd. unfold own.
  rewrite (Hzero s sc Hs Hd), msum_zero; [done|]. intros k y Hk. unfold span_use.
  destruct (done y) eqn:Hdy; [done|]. cbn. case_bool_decide as Ho; [|done].
  destruct (sw_owner _ _ _ (ac_wf _ _ Hac k y Hk) s Ho) as (Hlt & _ & _).
  pose proof (sw_next _ _ _ (ac_wf _ _ Hac k y Hk)).
  rewrite (span_usage h held k y s r Hac Hk Hdy Ho).
  apply (IH (next h - k)%nat ltac:(lia) k eq_refl y Hk Hdy).
Qed.

(** ** An example: a connection of a system scope, with a span that holds memory *)

Definition run_heap {A} (m : M heap A) (h : heap) : heap :=
  match m h with Ok (_, h') => h' | Panic => h end.

Definition demo_limit : Limit := mkLimit (2 ^ 27) (fun _ => 1024) 2048 (fun _ => 64) 128 256.

Lemma demo_limit_ok : limit_ok demo_limit.
Proof. split; [intros []|..]; unfold count_bound; cbn; lia. Qed.

Definition demo1 : heap := run_heap (newResourceScope demo_limit [] "system") empty_heap.
Definition demo2 : heap := run_heap (newResourceScope demo_limit [0%nat] "conn-1") demo1.
Definition demo3 : heap := run_heap (AddConn 1 DirInbound true) demo2.
Definition demo4 : heap := run_heap (BeginSpan 1) demo3.
Definition demo5 : heap := run_heap (ReserveMemory 2 100 255) demo4.

Definition demo_held : holdings :=
  grant (grant no_holdings None 1 (dir_conns_delta DirInbound true)) None 2 (mem_delta 100).

Lemma demo_used : used (demo5, demo_held).
Proof.
  unfold used, demo_held.
  eapply reach_step; [eapply reach_step; [eapply reach_step; [eapply reach_step; [eapply reach_step|]|]|]|].
  - apply reach_init. reflexivity.
  - eapply (us_new_scope _ _ demo_limit [] "system" 0%nat demo1); [apply demo_limit_ok|apply NoDup_nil_2| |].
    + by intros e He%elem_of_nil.
    + vm_compute. reflexivity.
  - eapply (us_new_scope _ _ demo_limit [0%nat] "conn-1" 1%nat demo2); [apply demo_limit_ok|apply NoDup_singleton| |].
    + intros e ->%list_elem_of_singleton. eexists. split; vm_compute; reflexivity.
    + vm_compute. reflexivity.
  - eapply (us_add_conn _ _ 1%nat DirInbound true None demo3); [vm_compute; by eexists|vm_compute; reflexivity].
  - eapply (us_begin_span _ _ 1%nat (inr 2%nat) demo4); [vm_compute; by eexists|vm_compute; reflexivity].
  - eapply (us_reserve_memory _ _ 2%nat 100 255 None demo5);
      [vm_compute; by eexists|lia|unfold is_u8; lia|vm_compute; reflexivity].
Qed.

(** however the users of the resource manager reserve, release, open spans
    and close scopes, no scope ever uses more memory, streams, connections or
    file descriptors than its limits allow, in either direction or in total, and
    no counter is negative. *)
Theorem scopes_within_limits h held s sc :
  used (h, held) -> scopes h !! s = Some sc ->
  (forall r, 0 <= usage (rc sc) r <= limit_of (rc_limit (rc sc)) r) /\
  nstreamsIn (rc sc) + nstreamsOut (rc sc) <= GetStreamTotalLimit (rc_limit (rc sc)) /\
  nconnsIn (rc sc) + nconnsOut (rc sc) <= GetConnTotalLimit (rc_limit (rc sc)).
Proof.
  intros Hu Hs. pose proof (used_accounts h held Hu) as Hac.
  destruct (sw_within _ _ _ (ac_wf _ _ Hac s sc Hs)) as [_ H1 H2 H3]. done.
Qed.

(** the usage of an open scope is exactly what its users hold, plus what its
    open spans use, plus what the open scopes that it constrains own; when
    nobody holds anything, every open scope uses nothing: no reservation leaks. *)
Theorem usage_is_what_is_held h held s sc r :
  used (h, held) -> scopes h !! s = Some sc -> done sc = false ->
  usage (rc sc) r =
    held s r + msum (span_use s r) (scopes h) + msum (edge_use h held s r) (scopes h) /\
  ((forall k y, scopes h !! k = Some y -> done y = false -> held k r = 0) -> usage (rc sc) r = 0).
Proof.
  intros Hu Hs Hd. pose proof (used_accounts h held Hu) as Hac. split.
  - by rewrite (ac_balanced _ _ Hac s sc r Hs Hd).
  - intros Hz. rewrite (ac_balanced _ _ Hac s sc r Hs Hd).
    rewrite (own_zero h held r Hac Hz s sc Hs Hd), msum_zero; [done|].
    intros k y Hk. unfold edge_use. destruct (done y) eqn:Hdy; [done|]. cbn.
    destruct (bool_decide _); [|done]. by apply (own_zero h held r Hac Hz k y).
Qed.

(** C18: a reservation returns, and is all or nothing: it is granted exactly when
    the scope, its owners and the constraining scopes of their root are all open
    and all have room; then each of them, and no other scope, accounts for it.
    When one refuses, the whole heap is what it was. *)
Theorem reservation_all_or_nothing op delta h held s :
  used (h, held) -> RopLaws op delta -> is_Some (scopes h !! s) ->
  exists err h', scope_add (S s) op s h = Ok (err, h') /\
    (err = None <-> forall k, k ∈ chain h s -> admits op h k) /\
    match err with
    | Some _ => h' = h
    | None => forall k, scopes h' !! k =
        (if bool_decide (k ∈ chain h s) then with_rc (granted op) <$> scopes h !! k else scopes h !! k) /\
        forall sc r, k ∈ chain h s -> scopes h !! k = Some sc ->
          usage (granted op (rc sc)) r = usage (rc sc) r + delta r
    end.
Proof.
  intros Hu Hop Hs. pose proof (ac_wf _ _ (used_accounts h held Hu)) as Hwf.
  destruct (scope_add_spec op delta (S s) s h ltac:(lia) Hwf Hs) as (err & Hrun & Hiff).
  eexists err, _. split; [exact Hrun|split; [done|]]. destruct err as [x|]; [done|]. intros k.
  split; [by apply lookup_on_rc, constraints_nodup|]. intros sc r Hk Hsc.
  by apply (granted_within op delta h k Hwf (proj1 Hiff eq_refl k Hk)).
Qed.

(** a release of what a user holds takes exactly that from every open scope
    of the chain: the counters that the code would reset with a warning ("too
    much memory released") never go below zero. *)
Theorem release_is_exact op delta through h held s sc :
  used (h, held) -> RopLaws op delta -> scopes h !! s = Some sc -> done sc = false ->
  (forall r, delta r <= held s r) ->
  exists h', scope_remove (S s) through op s h = Ok ((), h') /\
    forall k y, scopes h !! k = Some y ->
      exists y', scopes h' !! k = Some y' /\
        forall r, usage (rc y') r =
          usage (rc y) r - (if bool_decide (k ∈ live_constraints (S s) h s) then delta r else 0).
Proof.
  intros Hu Hop Hs Hd Hle. pose proof (used_accounts h held Hu) as Hac.
  pose proof (ac_wf _ _ Hac) as Hwf.
  eexists. split; [by apply (scope_remove_spec op delta); [lia|done|rewrite Hs]|].
  intros k y Hk. rewrite lookup_on_rc by (by apply live_constraints_nodup). rewrite Hk.
  case_bool_decide as Hin; [|exists y; split; [done|lia]].
  exists (with_rc (op_remove op) y). split; [done|]. intros r.
  assert (moves (op_remove op) (hopp delta) h (live_constraints (S s) h s)) as Hmv.
  { apply (release_moves op delta h held); [done|]. intros sc' _ _ r'. specialize (Hle r').
    unfold own. pose proof (msum_nonneg _ _ (span_use_nonneg h s r' Hwf)). lia. }
  destruct (Hmv k y Hin Hk) as [_ Hus]. cbn. rewrite Hus. unfold hopp. lia.
Qed.

(** releasing what was just reserved restores the heap. *)
Theorem reserve_release_roundtrip op delta through h held s h' :
  used (h, held) -> RopLaws op delta -> is_Some (scopes h !! s) ->
  scope_add (S s) op s h = Ok (None, h') ->
  scope_remove (S s) through op s h' = Ok ((), h).
Proof.
  intros Hu Hop Hs Hrun. pose proof (ac_wf _ _ (used_accounts h held Hu)) as Hwf.
  destruct (scope_add_spec op delta (S s) s h ltac:(lia) Hwf Hs) as (err & Hrun' & Hiff).
  rewrite Hrun in Hrun'. apply Ok_inj in Hrun' as [<- Heq].
  pose proof (proj1 Hiff eq_refl) as Had. pose proof (constraints_nodup h (S s) s Hwf) as Hnd.
  assert (heap_wf h') as Hwf' by (rewrite Heq; by apply (grant_wf op delta)).
  rewrite (scope_remove_spec op delta) by
    (try done; try lia; rewrite Heq, lookup_on_rc by done; destruct Hs as [x ->]; destruct (bool_decide _); by eexists).
  rewrite Heq, live_constraints_on_rc, live_constraints_open; [|intros k sc Hk Hsc|done].
  - rewrite on_rc_undo; [done|done|]. intros k sc Hk Hsc.
    by apply (granted_within op delta h k Hwf (Had k Hk)).
  - destruct (Had k Hk) as (y & Hy & Hdy & _). congruence.
Qed.

Lemma scopes_within_limits_witness :
  used (demo5, demo_held) /\
  exists sc, scopes demo5 !! 0%nat = Some sc /\ usage (rc sc) RMem = 100 /\
    0 <= usage (rc sc) RMem <= limit_of (rc_limit (rc sc)) RMem.
Proof.
  split; [exact demo_used|]. eexists. split; [vm_compute; reflexivity|split; [vm_compute; reflexivity|]].
  refine (proj1 (scopes_within_limits demo5 demo_held 0 _ demo_used _) RMem). vm_compute. reflexivity.
Defined.

Lemma usage_is_what_is_held_witness :
  used (demo5, demo_held) /\
  exists sc, scopes demo5 !! 0%nat = Some sc /\ done sc = false /\
    usage (rc sc) RMem =
      demo_held 0%nat RMem + msum (span_use 0 RMem) (scopes demo5) +
      msum (edge_use demo5 demo_held 0 RMem) (scopes demo5).
Proof.
  split; [exact demo_used|]. eexists. split; [vm_compute; reflexivity|split; [vm_compute; reflexivity|]].
  refine (proj1 (usage_is_what_is_held demo5 demo_held 0 _ RMem demo_used _ _)); vm_compute; reflexivity.
Defined.

Lemma reservation_all_or_nothing_witness :
  used (demo5, demo_held) /\ RopLaws (conn_op DirOutbound false) (dir_conns_delta DirOutbound false) /\
  exists err h', scope_add 2 (conn_op DirOutbound false) 1 demo5 = Ok (err, h') /\
    (err = None <-> forall k, k ∈ chain demo5 1 -> admits (conn_op DirOutbound false) demo5 k).
Proof.
  split; [exact demo_used|]. split; [apply conn_op_laws|].
  destruct (reservation_all_or_nothing (conn_op DirOutbound false) (dir_conns_delta DirOutbound false)
    demo5 demo_held 1 demo_used (conn_op_laws _ _)) as (err & h' & H1 & H2 & _).
  - vm_compute. by eexists.
  - exists err, h'. by split.
Defined.

Lemma release_is_exact_witness :
  used (demo5, demo_held) /\
  exists h', ReleaseMemory 2 60 demo5 = Ok ((), h') /\
    (forall y, scopes demo5 !! 0%nat = Some y -> exists y', scopes h' !! 0%nat = Some y' /\
       usage (rc y') RMem = usage (rc y) RMem - 60).
Proof.
  split; [exact demo_used|].
  assert (0 <= 60 < 2 ^ 63) as Hz by lia. assert (is_u8 0) as Hp by (unfold is_u8; lia).
  destruct (release_is_exact (mem_op 60 0) (mem_delta 60) false demo5 demo_held 2
    (match scopes demo5 !! 2%nat with Some sc => sc | None => mkScope false 0 0 (fresh_resources demo_limit) None [] "" end)
    demo_used (mem_op_laws 60 0 Hz Hp))
    as (h' & Hrun & Hk).
  - vm_compute. reflexivity.
  - vm_compute. reflexivity.
  - intros []; vm_compute; discriminate.
  - exists h'. split; [exact Hrun|]. intros y Hy. destruct (Hk 0%nat y Hy) as (y' & Hy' & Hu).
    exists y'. split; [done|]. rewrite (Hu RMem).
    rewrite bool_decide_eq_true_2; [done|]. vm_compute. repeat (constructor || done).
Defined.

Lemma reserve_release_roundtrip_witness :
  used (demo5, demo_held) /\
  exists h', AddStream 1 DirInbound demo5 = Ok (None, h') /\ RemoveStream 1 DirInbound h' = Ok ((), demo5).
Proof.
  split; [exact demo_used|]. exists (run_heap (AddStream 1 DirInbound) demo5).
  assert (AddStream 1 DirInbound demo5 = Ok (None, run_heap (AddStream 1 DirInbound) demo5)) as H
    by (vm_compute; reflexivity).
  split; [exact H|].
  refine (reserve_release_roundtrip (stream_op DirInbound) (dir_streams_delta DirInbound) false
    demo5 demo_held 1 _ demo_used (stream_op_laws _) _ H).
  vm_compute. by eexists.
Defined.
