(* ===== verification/ConnLimiter.v ===== *)
(** The limits on connections per address range:
    src/myvendor/go-libp2p/p2p/host/resource-manager/conn_limiter.go.

    An address is a number of 32 or 128 bits (an IPv4-mapped address has 128, as
    for Go's [netip.Addr.Is6]) with a zone.  The two families of the code's
    fields are two records of one type.  The text of a masked prefix, the key of
    the code's maps, is the masked number: within one map the length is fixed. *)

From stdpp Require Import gmap strings list.
From S2P Require Import Prelude RcResources.
#[local] Open Scope Z_scope.

Record addr := mkAddr { is6 : bool; bits_of : Z; zone : string }.
#[export] Instance addr_eq_dec : EqDecision addr.
Proof. solve_decision. Defined.

Definition width (six : bool) : Z := if six then 128 else 32.

(** The number with all but its first [len] bits cleared. *)
Definition mask_bits (six : bool) (len v : Z) : Z :=
  Z.shiftl (Z.shiftr v (width six - len)) (width six - len).

(** [netip.Prefix]. *)
Record prefix := mkPrefix { p_is6 : bool; p_bits : Z; p_len : Z }.

(** [Prefix.Contains]: of the same family, without a zone. *)
Definition Contains (p : prefix) (ip : addr) : bool :=
  bool_decide (0 <= p_len p <= width (p_is6 p)) && bool_decide (zone ip = "") &&
  Bool.eqb (p_is6 p) (is6 ip) &&
  (mask_bits (is6 ip) (p_len p) (bits_of ip) =? mask_bits (is6 ip) (p_len p) (p_bits p)).

(** [Addr.Prefix]: an error when the length is out of range. *)
Definition Prefix (ip : addr) (len : Z) : option Z :=
  if (0 <=? len) && (len <=? width (is6 ip)) then Some (mask_bits (is6 ip) len (bits_of ip)) else None.

Record ConnLimitPerSubnet := mkSubnet { PrefixLength : Z; sn_ConnCount : Z }.
Record NetworkPrefixLimit := mkNetwork { Network : prefix; np_ConnCount : Z }.

(** One family of a [connLimiter]. *)
Record family := mkFamily {
  networkPrefixLimit : list NetworkPrefixLimit;
  connsPerNetworkPrefix : list Z;
  connLimitPerSubnet : list ConnLimitPerSubnet;
  connsPerLimit : list (gmap Z Z);
}.
#[export] Instance family_eta : Eta family := fun f =>
  mkFamily (networkPrefixLimit f) (connsPerNetworkPrefix f) (connLimitPerSubnet f) (connsPerLimit f).

Record connLimiter := mkConnLimiter { cl_v4 : family; cl_v6 : family }.

(** [slices.SortStableFunc] by decreasing length, as insertion. *)
Fixpoint insert_network (l : NetworkPrefixLimit) (ls : list NetworkPrefixLimit) : list NetworkPrefixLimit :=
  match ls with
  | [] => [l]
  | x :: ls' => if p_len (Network x) <? p_len (Network l) then l :: ls else x :: insert_network l ls'
  end.
Definition sortNetworkPrefixes (limits : list NetworkPrefixLimit) : list NetworkPrefixLimit :=
  foldl (fun acc l => insert_network l acc) [] limits.

Definition defaultMaxConcurrentConns : Z := 8.

Definition newConnLimiter : connLimiter := {|
  cl_v4 := mkFamily
    (sortNetworkPrefixes [mkNetwork (mkPrefix false (Z.shiftl 127 24) 8) mostPositive]) []
    [mkSubnet 32 defaultMaxConcurrentConns] [];
  cl_v6 := mkFamily
    (sortNetworkPrefixes [mkNetwork (mkPrefix true 1 128) mostPositive]) []
    [mkSubnet 56 defaultMaxConcurrentConns; mkSubnet 48 (8 * defaultMaxConcurrentConns)] [];
|}.

Definition with_family (cl : connLimiter) (six : bool) (f : family) : connLimiter :=
  if six then mkConnLimiter (cl_v4 cl) f else mkConnLimiter f (cl_v6 cl).
Definition family_of (cl : connLimiter) (six : bool) : family := if six then cl_v6 cl else cl_v4 cl.

Definition addNetworkPrefixLimit (cl : connLimiter) (isIP6 : bool) (npLimit : NetworkPrefixLimit) :
    connLimiter :=
  let f := family_of cl isIP6 in
  with_family cl isIP6
    (f <| networkPrefixLimit := sortNetworkPrefixes (networkPrefixLimit f ++ [npLimit]) |>).

(** The first network that contains the address. *)
Fixpoint first_network (ls : list NetworkPrefixLimit) (ip : addr) : option (nat * NetworkPrefixLimit) :=
  match ls with
  | [] => None
  | l :: ls' => if Contains (Network l) ip then Some (0%nat, l)
                else (fun p => (S p.1, p.2)) <$> first_network ls' ip
  end.

(** The counters, made on the first use. *)
Definition init_counts {A} (zero : A) (n : nat) (counts : list A) : list A :=
  match counts with [] => replicate n zero | _ => counts end.

(** The loop of checks: entries that are missing are made, also when a later
    limit refuses. *)
Fixpoint check_limits (limits : list ConnLimitPerSubnet) (counts : list (gmap Z Z)) (ip : addr) :
    outcome (bool * list (gmap Z Z)) :=
  match limits with
  | [] => Ok (true, counts)
  | limit :: limits' =>
      match Prefix ip (PrefixLength limit) with
      | None => Ok (false, counts)
      | Some masked =>
          match counts with
          | [] => Panic
          | m :: counts' =>
              let n := default 0 (m !! masked) in
              let m' := match m !! masked with Some _ => m | None => <[masked := 0]> m end in
              if sn_ConnCount limit <? int64 (n + 1) then Ok (false, m' :: counts')
              else
                match check_limits limits' counts' ip with
                | Ok (ok, rest) => Ok (ok, m' :: rest)
                | Panic => Panic
                end
          end
      end
  end.

(** The counts of the prefixes of an address, changed by [f]. *)
Fixpoint update_counts (f : Z -> gmap Z Z -> gmap Z Z) (limits : list ConnLimitPerSubnet)
    (counts : list (gmap Z Z)) (ip : addr) : list (gmap Z Z) :=
  match limits, counts with
  | limit :: limits', m :: counts' =>
      (match Prefix ip (PrefixLength limit) with Some masked => f masked m | None => m end)
        :: update_counts f limits' counts' ip
  | _, _ => counts
  end.

Definition count_up (masked : Z) (m : gmap Z Z) : gmap Z Z :=
  <[masked := int64 (default 0 (m !! masked) + 1)]> m.

Definition count_down (masked : Z) (m : gmap Z Z) : gmap Z Z :=
  match m !! masked with
  | None => m
  | Some n =>
      if n =? 0 then m
      else if n - 1 <=? 0 then delete masked m else <[masked := n - 1]> m
  end.

(** The method's local variables are [networks] and [counts], written back to
    the family. *)
Definition family_addConn (fam : family) (ip : addr) : outcome (bool * family) :=
  let networks := init_counts 0 (length (networkPrefixLimit fam)) (connsPerNetworkPrefix fam) in
  let fam1 := fam <| connsPerNetworkPrefix := networks |> in
  match first_network (networkPrefixLimit fam) ip with
  | Some (i, limit) =>
      match networks !! i with
      | None => Panic
      | Some n =>
          if np_ConnCount limit <? int64 (n + 1) then Ok (false, fam1)
          else Ok (true, fam <| connsPerNetworkPrefix := <[i := int64 (n + 1)]> networks |>)
      end
  | None =>
      let limits := connLimitPerSubnet fam in
      match check_limits limits (init_counts ∅ (length limits) (connsPerLimit fam)) ip with
      | Panic => Panic
      | Ok (false, counts) => Ok (false, fam1 <| connsPerLimit := counts |>)
      | Ok (true, counts) => Ok (true, fam1 <| connsPerLimit := update_counts count_up limits counts ip |>)
      end
  end.

Definition family_rmConn (fam : family) (ip : addr) : outcome family :=
  let networks := init_counts 0 (length (networkPrefixLimit fam)) (connsPerNetworkPrefix fam) in
  let fam1 := fam <| connsPerNetworkPrefix := networks |> in
  match first_network (networkPrefixLimit fam) ip with
  | Some (i, _) =>
      match networks !! i with
      | None => Panic
      | Some n =>
          if n <=? 0 then Ok fam1
          else Ok (fam <| connsPerNetworkPrefix := <[i := n - 1]> networks |>)
      end
  | None =>
      let limits := connLimitPerSubnet fam in
      Ok (fam1 <| connsPerLimit :=
        update_counts count_down limits (init_counts ∅ (length limits) (connsPerLimit fam)) ip |>)
  end.

(** [addConn]: whether the connection is allowed. *)
Definition addConn (cl : connLimiter) (ip : addr) : outcome (bool * connLimiter) :=
  match family_addConn (family_of cl (is6 ip)) ip with
  | Ok (ok, f) => Ok (ok, with_family cl (is6 ip) f)
  | Panic => Panic
  end.

Definition rmConn (cl : connLimiter) (ip : addr) : outcome connLimiter :=
  match family_rmConn (family_of cl (is6 ip)) ip with
  | Ok f => Ok (with_family cl (is6 ip) f)
  | Panic => Panic
  end.

(** ** The counters and the open connections *)

(** How many of the addresses satisfy [φ]. *)
Definition cnt (l : list addr) (φ : addr -> bool) : Z := len (filter (fun ip => φ ip = true) l).

Lemma cnt_cons ip l φ : cnt (ip :: l) φ = (if φ ip then 1 else 0) + cnt l φ.
Proof.
  unfold cnt. destruct (φ ip) eqn:E.
  - rewrite filter_cons_True by done. cbn [length]. lia.
  - rewrite filter_cons_False by (by rewrite E). lia.
Qed.

Lemma cnt_nil φ : cnt [] φ = 0.
Proof. done. Qed.

Lemma cnt_bounds l φ : 0 <= cnt l φ <= len l.
Proof. unfold cnt. pose proof (length_filter (fun ip => φ ip = true) l). lia. Qed.

Lemma cnt_perm l l' φ : l ≡ₚ l' -> cnt l φ = cnt l' φ.
Proof. intros Hp. unfold cnt. by rewrite Hp. Qed.

Section counting.
(** The configuration of the family. *)
Context (P : list NetworkPrefixLimit) (L : list ConnLimitPerSubnet).

Definition network_index (ip : addr) : option nat := fst <$> first_network P ip.

Definition in_network (i : nat) (ip : addr) : bool := bool_decide (network_index ip = Some i).

(** The addresses that the limit counts under a masked prefix. *)
Definition in_subnet (limit : ConnLimitPerSubnet) (masked : Z) (ip : addr) : bool :=
  bool_decide (network_index ip = None) && bool_decide (Prefix ip (PrefixLength limit) = Some masked).

(** The entries of a limit count the open connections, none above the limit. *)
Definition entry_ok (open : list addr) (limit : ConnLimitPerSubnet) (m : gmap Z Z) : Prop :=
  forall masked, default 0 (m !! masked) = cnt open (in_subnet limit masked) /\
    cnt open (in_subnet limit masked) <= Z.max 0 (sn_ConnCount limit).

Definition networks_ok (open : list addr) (counts : list Z) : Prop :=
  length counts = length P /\
  forall i limit, P !! i = Some limit ->
    counts !! i = Some (cnt open (in_network i)) /\
    cnt open (in_network i) <= Z.max 0 (np_ConnCount limit).

Record family_ok (f : family) (open : list addr) : Prop := {
  fo_networks : networkPrefixLimit f = P;
  fo_limits : connLimitPerSubnet f = L;
  fo_counts : networks_ok open (init_counts 0 (length P) (connsPerNetworkPrefix f));
  fo_entries : Forall2 (entry_ok open) L (init_counts ∅ (length L) (connsPerLimit f));
}.

Lemma init_counts_idem {A} (z : A) n l : init_counts z n (init_counts z n l) = init_counts z n l.
Proof. destruct l; cbn; [|done]. by destruct n. Qed.

Lemma first_network_lookup ip i limit :
  first_network P ip = Some (i, limit) -> P !! i = Some limit.
Proof.
  revert i. induction P as [|x ls IH]; intros i; cbn; [done|].
  destruct (Contains (Network x) ip); [by intros [= <- <-]|].
  destruct (first_network ls ip) as [[j l]|]; [|done]. cbn. intros [= <- ->]. cbn. by apply IH.
Qed.

Lemma in_network_first ip i limit j :
  first_network P ip = Some (i, limit) -> in_network j ip = bool_decide (i = j).
Proof.
  intros Hf. unfold in_network, network_index. rewrite Hf. apply bool_decide_ext. split; [by intros [= ->]|by intros ->].
Qed.

(** ** The checks *)

Lemma entry_ok_zero open limit m masked :
  entry_ok open limit m ->
  entry_ok open limit (match m !! masked with Some _ => m | None => <[masked := 0]> m end).
Proof.
  intros He. destruct (m !! masked) eqn:Hm; [done|]. intros k. destruct (He k) as [H1 H2]. split; [|done].
  destruct (decide (k = masked)) as [->|Hk]; [|by rewrite lookup_insert_ne].
  by rewrite lookup_insert_eq, <- H1, Hm.
Qed.

Lemma check_limits_spec open limits counts ip :
  Forall2 (entry_ok open) limits counts -> len open < mostPositive ->
  exists ok counts', check_limits limits counts ip = Ok (ok, counts') /\
    Forall2 (entry_ok open) limits counts' /\
    (ok = true <-> Forall (fun limit => exists masked, Prefix ip (PrefixLength limit) = Some masked /\
       cnt open (in_subnet limit masked) + 1 <= sn_ConnCount limit) limits).
Proof.
  intros Hall Hlen. induction Hall as [|limit m limits counts He Hall IH]; cbn.
  { exists true, []. by repeat split. }
  destruct (Prefix ip (PrefixLength limit)) as [masked|] eqn:Hp.
  2: { exists false, (m :: counts). split; [done|split; [by constructor|]]. split; [done|].
       intros (masked & Hm & _)%Forall_inv. congruence. }
  destruct (He masked) as [Hn Hle]. rewrite Hn.
  pose proof (cnt_bounds open (in_subnet limit masked)).
  rewrite int64_small by (unfold is_i64, mostPositive in *; lia).
  pose proof (entry_ok_zero open limit m masked He) as He'.
  destruct (Z.ltb_spec (sn_ConnCount limit) (cnt open (in_subnet limit masked) + 1)).
  - eexists false, _. split; [done|split; [by constructor|]]. split; [done|].
    intros (masked' & Hm & Hc)%Forall_inv. assert (masked' = masked) as -> by congruence. lia.
  - destruct IH as (ok & counts' & -> & Hall' & Hiff). eexists ok, _.
    split; [done|split; [by constructor|]]. rewrite Hiff, Forall_cons. split; [|tauto].
    intros Hr. split; [|done]. exists masked. split; [done|lia].
Qed.

(** ** The updates *)

Lemma entries_up open limits counts ip :
  network_index ip = None -> len open < mostPositive ->
  Forall2 (entry_ok open) limits counts ->
  Forall (fun limit => exists masked, Prefix ip (PrefixLength limit) = Some masked /\
       cnt open (in_subnet limit masked) + 1 <= sn_ConnCount limit) limits ->
  Forall2 (entry_ok (ip :: open)) limits (update_counts count_up limits counts ip).
Proof.
  intros Hnet Hlen Hall. induction Hall as [|limit m limits counts He Hall IH]; cbn; [constructor|].
  intros Hroom. apply Forall_cons in Hroom as [(masked & Hp & Hc) Hroom]. rewrite Hp.
  constructor; [|by apply IH]. intros k. rewrite cnt_cons. unfold in_subnet at 1 3.
  rewrite Hnet, Hp, bool_decide_eq_true_2 by done. cbn [andb]. destruct (He k) as [H1 H2].
  pose proof (cnt_bounds open (in_subnet limit k)). unfold count_up.
  destruct (decide (k = masked)) as [->|Hk].
  - rewrite lookup_insert_eq, bool_decide_eq_true_2 by done. cbn. rewrite H1.
    rewrite int64_small by (unfold is_i64, mostPositive in *; lia). lia.
  - rewrite lookup_insert_ne, bool_decide_eq_false_2 by congruence. lia.
Qed.

Lemma entries_keep open limits counts ip i :
  network_index ip = Some i ->
  Forall2 (entry_ok open) limits counts <-> Forall2 (entry_ok (ip :: open)) limits counts.
Proof.
  intros Hnet. assert (forall limit m, entry_ok open limit m <-> entry_ok (ip :: open) limit m) as He.
  { intros limit m. unfold entry_ok. split; intros Hm k; specialize (Hm k);
      rewrite cnt_cons in *; unfold in_subnet at 1 3 in Hm || unfold in_subnet at 1 3;
      rewrite Hnet in *; cbn in *; lia. }
  split; intros Hall; (eapply Forall2_impl; [exact Hall|]); intros; by apply He.
Qed.

Lemma entries_down open limits counts ip :
  network_index ip = None ->
  Forall2 (entry_ok (ip :: open)) limits counts ->
  Forall2 (entry_ok open) limits (update_counts count_down limits counts ip).
Proof.
  intros Hnet Hall. induction Hall as [|limit m limits counts He Hall IH]; cbn; [constructor|].
  constructor; [|done]. intros k. destruct (He k) as [H1 H2]. rewrite cnt_cons in H1, H2.
  unfold in_subnet at 1 in H1. unfold in_subnet at 1 in H2. rewrite Hnet in H1, H2.
  rewrite bool_decide_eq_true_2 in H1, H2 by done. cbn [andb] in H1, H2.
  pose proof (cnt_bounds open (in_subnet limit k)).
  destruct (Prefix ip (PrefixLength limit)) as [masked|] eqn:Hp.
  2: { rewrite bool_decide_eq_false_2 in H1, H2 by done. lia. }
  unfold count_down. destruct (decide (k = masked)) as [->|Hk].
  - rewrite bool_decide_eq_true_2 in H1, H2 by done.
    destruct (m !! masked) as [n|] eqn:Hm; cbn in H1; [|lia].
    destruct (Z.eqb_spec n 0); [lia|]. destruct (Z.leb_spec (n - 1) 0).
    + rewrite lookup_delete_eq. cbn. lia.
    + rewrite lookup_insert_eq. cbn. lia.
  - rewrite bool_decide_eq_false_2 in H1, H2 by congruence.
    destruct (m !! masked) as [n|] eqn:Hm; [|lia].
    destruct (n =? 0); [lia|]. destruct (n - 1 <=? 0); [rewrite lookup_delete_ne by done|rewrite lookup_insert_ne by done]; lia.
Qed.

Lemma networks_up open counts ip i limit :
  first_network P ip = Some (i, limit) -> networks_ok open counts ->
  cnt open (in_network i) + 1 <= np_ConnCount limit ->
  networks_ok (ip :: open) (<[i := cnt open (in_network i) + 1]> counts).
Proof.
  intros Hf [Hlen Hn] Hle. split; [by rewrite length_insert|]. intros j l Hj.
  destruct (Hn j l Hj) as [H1 H2]. rewrite cnt_cons, (in_network_first ip i limit j Hf).
  destruct (decide (j = i)) as [->|Hji].
  - rewrite list_lookup_insert_eq by (apply lookup_lt_is_Some; by eexists).
    rewrite bool_decide_eq_true_2 by done.
    rewrite (first_network_lookup ip i limit Hf) in Hj. injection Hj as <-. split; [f_equal; lia|lia].
  - rewrite list_lookup_insert_ne by done. rewrite bool_decide_eq_false_2 by congruence. rewrite H1. split; [f_equal|]; lia.
Qed.

Lemma networks_down open counts ip i limit :
  first_network P ip = Some (i, limit) -> networks_ok (ip :: open) counts ->
  networks_ok open (<[i := cnt open (in_network i)]> counts).
Proof.
  intros Hf [Hlen Hn]. split; [by rewrite length_insert|]. intros j l Hj.
  destruct (Hn j l Hj) as [H1 H2]. rewrite cnt_cons, (in_network_first ip i limit j Hf) in H1, H2.
  pose proof (cnt_bounds open (in_network j)).
  destruct (decide (j = i)) as [->|Hji].
  - rewrite list_lookup_insert_eq by (apply lookup_lt_is_Some; by eexists).
    rewrite bool_decide_eq_true_2 in H2 by done. split; [done|lia].
  - rewrite list_lookup_insert_ne by done. rewrite bool_decide_eq_false_2 in H1, H2 by congruence.
    rewrite H1. split; [f_equal|]; lia.
Qed.

Lemma networks_keep open counts ip :
  network_index ip = None -> networks_ok open counts <-> networks_ok (ip :: open) counts.
Proof.
  intros Hnet. unfold networks_ok.
  assert (forall i, cnt (ip :: open) (in_network i) = cnt open (in_network i)) as Hc.
  { intros i. rewrite cnt_cons. unfold in_network at 1. by rewrite Hnet. }
  by setoid_rewrite Hc.
Qed.

(** ** The operations keep the counts *)

Lemma family_addConn_ok f open ip :
  family_ok f open -> len open < mostPositive ->
  exists ok f', family_addConn f ip = Ok (ok, f') /\
    family_ok f' (if ok then ip :: open else open) /\
    (ok = true <->
      match first_network P ip with
      | Some (i, limit) => cnt open (in_network i) + 1 <= np_ConnCount limit
      | None => Forall (fun limit => exists masked, Prefix ip (PrefixLength limit) = Some masked /\
          cnt open (in_subnet limit masked) + 1 <= sn_ConnCount limit) L
      end).
Proof.
  intros [HP HL Hc He] Hlen. unfold family_addConn.
  rewrite HP.
  destruct (first_network P ip) as [[i limit]|] eqn:Hf.
  - destruct Hc as [Hcl Hcn]. destruct (Hcn i limit (first_network_lookup ip i limit Hf)) as [Hci Hcb].
    rewrite Hci. pose proof (cnt_bounds open (in_network i)).
    rewrite int64_small by (unfold is_i64, mostPositive in *; lia).
    destruct (Z.ltb_spec (np_ConnCount limit) (cnt open (in_network i) + 1)); eexists _, _; (split; [reflexivity|]).
    + split; [|split; [done|lia]]. split; cbn; try done. by rewrite init_counts_idem.
    + split; [|split; [lia|done]]. split; cbn; try done.
      * set (cs := init_counts 0 (length P) (connsPerNetworkPrefix f)) in *.
        assert (networks_ok (ip :: open) (<[i := cnt open (in_network i) + 1]> cs)) as Hn
          by (apply (networks_up open cs ip i limit); [done|by split|lia]).
        assert (init_counts 0 (length P) (<[i := cnt open (in_network i) + 1]> cs) =
          <[i := cnt open (in_network i) + 1]> cs) as ->; [|done].
        destruct (<[i := cnt open (in_network i) + 1]> cs) eqn:Hi; [|done].
        apply (f_equal length) in Hi. rewrite length_insert, Hcl in Hi. cbn in Hi. by rewrite Hi.
      * assert (network_index ip = Some i) as Hnet by (unfold network_index; by rewrite Hf).
        by apply (proj1 (entries_keep open _ _ ip i Hnet)).
  - rewrite HL.
    destruct (check_limits_spec open L (init_counts ∅ (length L) (connsPerLimit f)) ip He Hlen)
      as (ok & counts' & -> & He' & Hiff).
    assert (network_index ip = None) as Hnet by (unfold network_index; by rewrite Hf).
    assert (forall cs open', Forall2 (entry_ok open') L cs -> init_counts ∅ (length L) cs = cs) as Hinit.
    { intros cs open' Hcs. apply Forall2_length in Hcs. destruct cs; [|done]. by rewrite Hcs. }
    destruct ok; eexists _, _; (split; [reflexivity|]); (split; [|done]).
    + pose proof (entries_up open L counts' ip Hnet Hlen He' (proj1 Hiff eq_refl)) as Hup.
      split; cbn; try done.
      * rewrite init_counts_idem. by apply networks_keep.
      * by rewrite (Hinit _ _ Hup).
    + split; cbn; try done; [by rewrite init_counts_idem|by rewrite (Hinit _ _ He')].
Qed.

Lemma family_rmConn_ok f open ip :
  family_ok f (ip :: open) -> exists f', family_rmConn f ip = Ok f' /\ family_ok f' open.
Proof.
  intros [HP HL Hc He]. unfold family_rmConn.
  rewrite HP.
  destruct (first_network P ip) as [[i limit]|] eqn:Hf.
  - pose proof Hc as [Hcl Hcn]. destruct (Hcn i limit (first_network_lookup ip i limit Hf)) as [Hci Hcb].
    rewrite Hci, cnt_cons, (in_network_first ip i limit i Hf), bool_decide_eq_true_2 by done. pose proof (cnt_bounds open (in_network i)).
    destruct (Z.leb_spec (1 + cnt open (in_network i)) 0); [lia|]. eexists. split; [reflexivity|].
    replace (1 + cnt open (in_network i) - 1) with (cnt open (in_network i)) by lia.
    set (cs := init_counts 0 (length P) (connsPerNetworkPrefix f)) in *.
    split; cbn; try done.
    + pose proof (networks_down open cs ip i limit Hf Hc) as Hn.
      assert (init_counts 0 (length P) (<[i := cnt open (in_network i)]> cs) =
        <[i := cnt open (in_network i)]> cs) as ->; [|done].
      destruct (<[i := cnt open (in_network i)]> cs) eqn:Hi; [|done].
      apply (f_equal length) in Hi. rewrite length_insert, Hcl in Hi. cbn in Hi. by rewrite Hi.
    + assert (network_index ip = Some i) as Hnet by (unfold network_index; by rewrite Hf).
      by apply (proj2 (entries_keep open _ _ ip i Hnet)).
  - rewrite HL. eexists. split; [reflexivity|].
    assert (network_index ip = None) as Hnet by (unfold network_index; by rewrite Hf).
    pose proof (entries_down open L _ ip Hnet He) as Hd. split; cbn; try done.
    + rewrite init_counts_idem. by apply (networks_keep open _ ip).
    + assert (init_counts ∅ (length L) (update_counts count_down L
        (init_counts ∅ (length L) (connsPerLimit f)) ip) = update_counts count_down L
        (init_counts ∅ (length L) (connsPerLimit f)) ip) as ->; [|done].
      pose proof (Forall2_length _ _ _ Hd) as Hl. destruct (update_counts _ _ _ _); [|done]. by rewrite Hl.
Qed.

Lemma family_ok_perm f open open' : open ≡ₚ open' -> family_ok f open -> family_ok f open'.
Proof.
  intros Hp [HP HL [Hc1 Hc2] He]. split; [done|done| |].
  - split; [done|]. intros i limit Hi. rewrite <- (cnt_perm _ _ _ Hp). by apply Hc2.
  - eapply Forall2_impl; [exact He|]. intros limit m Hm k. rewrite <- (cnt_perm _ _ _ Hp). apply Hm.
Qed.
End counting.

(** ** Runs of the limiter *)

Definition of_family (six : bool) (open : list addr) : list addr :=
  filter (fun ip => is6 ip = six) open.

(** A connection is opened when the limiter allows it, and closed once. *)
Inductive limiter_step : connLimiter * list addr -> connLimiter * list addr -> Prop :=
  | ls_open cl open ip cl' :
      len open < mostPositive -> addConn cl ip = Ok (true, cl') ->
      limiter_step (cl, open) (cl', ip :: open)
  | ls_refused cl open ip cl' :
      len open < mostPositive -> addConn cl ip = Ok (false, cl') ->
      limiter_step (cl, open) (cl', open)
  | ls_close cl open open' ip cl' :
      open ≡ₚ ip :: open' -> rmConn cl ip = Ok cl' ->
      limiter_step (cl, open) (cl', open').

(** No connection has been counted yet. *)
Definition unused_family (f : family) : Prop := connsPerNetworkPrefix f = [] /\ connsPerLimit f = [].

Definition limited (cl0 : connLimiter) : connLimiter * list addr -> Prop :=
  reachable (eq (cl0, [])) limiter_step.

Lemma family_ok_unused f :
  unused_family f -> family_ok (networkPrefixLimit f) (connLimitPerSubnet f) f [].
Proof.
  intros [H1 H2]. split; [done|done| |].
  - rewrite H1. cbn. split; [apply length_replicate|]. intros i limit Hi. rewrite cnt_nil. split; [|lia].
    apply lookup_replicate_2. by apply lookup_lt_Some in Hi.
  - rewrite H2. cbn. induction (connLimitPerSubnet f) as [|l ls IH]; cbn; [constructor|].
    constructor; [|done]. intros k. rewrite lookup_empty, cnt_nil. cbn. lia.
Qed.

Lemma of_family_cons six ip open :
  of_family six (ip :: open) = if Bool.eqb (is6 ip) six then ip :: of_family six open else of_family six open.
Proof.
  unfold of_family. destruct (Bool.eqb (is6 ip) six) eqn:E.
  - rewrite filter_cons_True; [done|by apply Bool.eqb_prop].
  - rewrite filter_cons_False; [done|]. by apply eqb_false_iff.
Qed.

Section runs.
Context (cl0 : connLimiter) (Hu4 : unused_family (cl_v4 cl0)) (Hu6 : unused_family (cl_v6 cl0)).

Let P six := networkPrefixLimit (family_of cl0 six).
Let L six := connLimitPerSubnet (family_of cl0 six).

Definition limiter_ok (st : connLimiter * list addr) : Prop :=
  forall six, family_ok (P six) (L six) (family_of st.1 six) (of_family six st.2).

Lemma family_of_with cl six f six' :
  family_of (with_family cl six f) six' = if Bool.eqb six six' then f else family_of cl six'.
Proof. by destruct six, six'. Qed.

Lemma length_of_family six open : len (of_family six open) <= len open.
Proof.
  unfold of_family. pose proof (length_filter (fun ip => is6 ip = six) open) as Hl. apply inj_le in Hl. exact Hl.
Qed.

Lemma limiter_perm cl open open' : open ≡ₚ open' -> limiter_ok (cl, open) -> limiter_ok (cl, open').
Proof.
  intros Hp Hok six. apply (family_ok_perm _ _ _ (of_family six open)); [|apply (Hok six)].
  unfold of_family. cbn [snd]. by rewrite Hp.
Qed.

Lemma limiter_open cl open ip :
  limiter_ok (cl, open) -> len open < mostPositive ->
  exists ok cl', addConn cl ip = Ok (ok, cl') /\ limiter_ok (cl', if ok then ip :: open else open).
Proof.
  intros Hok Hlen. pose proof (Hok (is6 ip)) as Hf. cbn [fst snd] in Hf.
  destruct (family_addConn_ok _ _ _ _ ip Hf) as (ok & f' & E & Hf' & _);
    [exact (Z.le_lt_trans _ _ _ (length_of_family (is6 ip) open) Hlen)|].
  exists ok, (with_family cl (is6 ip) f'). unfold addConn. rewrite E. split; [done|].
  intros six. specialize (Hok six). cbn [fst snd] in *. rewrite family_of_with.
  destruct ok; rewrite ?of_family_cons;
    (destruct (Bool.eqb (is6 ip) six) eqn:E6; [apply Bool.eqb_prop in E6 as <-|]; done).
Qed.

Lemma limiter_close cl open open' ip :
  limiter_ok (cl, open) -> open ≡ₚ ip :: open' ->
  exists cl', rmConn cl ip = Ok cl' /\ limiter_ok (cl', open').
Proof.
  intros Hok Hp. pose proof (Hok (is6 ip)) as Hf. cbn [fst snd] in Hf.
  assert (forall s, of_family s open ≡ₚ of_family s (ip :: open')) as Hperm
    by (intros s; unfold of_family; by rewrite Hp).
  assert (family_ok (P (is6 ip)) (L (is6 ip)) (family_of cl (is6 ip)) (ip :: of_family (is6 ip) open')) as Hf1.
  { eapply family_ok_perm; [|exact Hf]. rewrite Hperm, of_family_cons. by rewrite Bool.eqb_reflx. }
  destruct (family_rmConn_ok _ _ _ _ ip Hf1) as (f' & E & Hf').
  exists (with_family cl (is6 ip) f'). unfold rmConn. rewrite E. split; [done|].
  intros six. cbn [fst snd]. rewrite family_of_with.
  destruct (Bool.eqb (is6 ip) six) eqn:E6; [apply Bool.eqb_prop in E6 as <-; done|].
  apply (family_ok_perm _ _ _ (of_family six open)); [|apply (Hok six)].
  specialize (Hperm six). rewrite of_family_cons, E6 in Hperm. exact Hperm.
Qed.

Lemma limiter_step_ok st st' : limiter_ok st -> limiter_step st st' -> limiter_ok st'.
Proof.
  intros Hok Hst. destruct Hst as [cl open ip cl' Hlen Hrun|cl open ip cl' Hlen Hrun|cl open open' ip cl' Hp Hrun].
  - destruct (limiter_open cl open ip Hok Hlen) as (ok & cl1 & E & H). rewrite Hrun in E. by injection E as <- ->.
  - destruct (limiter_open cl open ip Hok Hlen) as (ok & cl1 & E & H). rewrite Hrun in E. by injection E as <- ->.
  - destruct (limiter_close cl open open' ip Hok Hp) as (cl1 & E & H). rewrite Hrun in E. by injection E as ->.
Qed.

Lemma limited_ok st : limited cl0 st -> limiter_ok st.
Proof using Hu4 Hu6.
  intros Hr. apply (reachable_invariant (eq (cl0, [])) limiter_step limiter_ok) in Hr; [done| |].
  - intros s <- six. destruct six; by apply family_ok_unused.
  - intros s s'. apply limiter_step_ok.
Qed.
End runs.

(** C21: however connections come and go, the limiter neither panics nor loses
    count: from no range of addresses are more connections open than its limit,
    be it a configured network or a subnet of the default limits, and a
    connection is refused exactly when it would exceed one. *)
Theorem subnets_within_limits cl0 cl open :
  unused_family (cl_v4 cl0) -> unused_family (cl_v6 cl0) -> limited cl0 (cl, open) ->
  forall six, let P := networkPrefixLimit (family_of cl0 six) in
  let here := of_family six open in
  (forall i limit, P !! i = Some limit -> cnt here (in_network P i) <= Z.max 0 (np_ConnCount limit)) /\
  (forall limit masked, limit ∈ connLimitPerSubnet (family_of cl0 six) ->
     cnt here (in_subnet P limit masked) <= Z.max 0 (sn_ConnCount limit)) /\
  (forall ip, is6 ip = six -> len open < mostPositive ->
     exists ok cl', addConn cl ip = Ok (ok, cl') /\
     (ok = true <->
       match first_network P ip with
       | Some (i, limit) => cnt here (in_network P i) + 1 <= np_ConnCount limit
       | None => Forall (fun limit => exists masked, Prefix ip (PrefixLength limit) = Some masked /\
           cnt here (in_subnet P limit masked) + 1 <= sn_ConnCount limit)
           (connLimitPerSubnet (family_of cl0 six))
       end)).
Proof.
  intros H4 H6 Hr six P here. pose proof (limited_ok cl0 H4 H6 _ Hr six) as Hok. cbn [fst snd] in Hok.
  split; [|split].
  - intros i limit Hi. by apply (fo_counts _ _ _ _ Hok).
  - intros limit masked Hin. apply list_elem_of_lookup in Hin as [i Hi].
    destruct (Forall2_lookup_l _ _ _ _ _ (fo_entries _ _ _ _ Hok) Hi) as (m & _ & He). apply (He masked).
  - intros ip <- Hlen.
    destruct (family_addConn_ok _ _ _ _ ip Hok) as (ok & f' & E & _ & Hiff);
      [exact (Z.le_lt_trans _ _ _ (length_of_family (is6 ip) open) Hlen)|].
    exists ok, (with_family cl (is6 ip) f'). unfold addConn. by rewrite E.
Qed.

Definition demo_ip : addr := mkAddr false (Z.shiftl 10 24 + 7) "".

Lemma subnets_within_limits_witness :
  limited newConnLimiter (newConnLimiter, []) /\
  exists cl', addConn newConnLimiter demo_ip = Ok (true, cl').
Proof.
  assert (limited newConnLimiter (newConnLimiter, [])) as Hr by (by apply reach_init).
  split; [exact Hr|].
  destruct (subnets_within_limits newConnLimiter newConnLimiter []
    ltac:(vm_compute; split; reflexivity) ltac:(vm_compute; split; reflexivity) Hr false) as (_ & _ & H).
  destruct (H demo_ip eq_refl ltac:(vm_compute; reflexivity)) as (ok & cl' & E & Hiff).
  exists cl'. replace true with ok; [exact E|]. apply Hiff. vm_compute.
  repeat constructor. eexists. split; [reflexivity|]. discriminate.
Defined.

(** An IPv6 connection refused for its /48 has made an entry for its /56 that
    nothing removes: closing connections only deletes entries they counted. *)
Definition full_v6 : family :=
  mkFamily [] [] [mkSubnet 56 8; mkSubnet 48 1] [{[ 0 := 1 ]}; {[ 0 := 1 ]}].
Definition other_56 : addr := mkAddr true (Z.shiftl 1 72) "".

Lemma refused_connection_leaves_entry :
  match family_addConn full_v6 other_56 with
  | Ok (false, f) =>
      (fun m : gmap Z Z => m !! bits_of other_56) <$> connsPerLimit f = [Some 0; None] /\
      match connsPerLimit f with m :: _ => count_down (bits_of other_56) m = m | [] => False end
  | _ => False
  end.
Proof. vm_compute. by split. Qed.
