(* ===== verification/ResourceManager.v ===== *)
(** The resource manager:
    src/myvendor/go-libp2p/p2p/host/resource-manager/rcmgr.go, with the limits and
    the listings of extapi.go.

    The manager owns a heap of scopes (RcScope.v) and knows its fixed scopes, the
    scopes of services, protocols and peers by name, and the connections and
    streams it has opened, by the address of their scope.  The limits are a
    [Limiter] (RcLimits.v), the connections per address range are limited by
    ConnLimiter.v.  The allowlist is consulted through its answers, an endpoint's
    IP address is the multiaddr library's; both are arguments.  Methods are run
    to their end, metrics and traces are left out; the scopes of a map are
    visited in any order ([MapOrder]). *)

From stdpp Require Import gmap strings list.
From S2P Require Import Prelude GoLib TunnelAddr RcResources RcScope RcLimits ConnLimiter.
#[local] Open Scope Z_scope.

(** A Go map that may be nil: a nil map has no entries, and writing to it panics. *)
Abbreviation gomap A := (option (gmap string A)).

Definition entries {A} (m : gomap A) : gmap string A := default ∅ m.

(** [if m == nil { m = make(...) }]. *)
Definition make_if_nil {A} (m : gomap A) : gomap A := match m with None => Some ∅ | Some _ => m end.

Definition map_set {A} (k : string) (v : A) (m : gomap A) : outcome (gomap A) :=
  match m with None => Panic | Some m => Ok (Some (<[k := v]> m)) end.

Lemma map_set_made {A} k (v : A) m : map_set k v (make_if_nil m) = Ok (Some (<[k := v]> (entries m))).
Proof. by destruct m. Qed.

(** A [serviceScope] or a [protocolScope]: its scope and those of its peers. *)
Record namedScope := mkNamed { ns_scope : nat; ns_peerMap : gomap nat }.
#[export] Instance namedScope_eta : Eta namedScope := fun s => mkNamed (ns_scope s) (ns_peerMap s).

Definition ns_peers (s : namedScope) : gmap string nat := entries (ns_peerMap s).
#[export] Instance set_ns_peers : Setter ns_peers := fun v s => s <| ns_peerMap := Some v |>.

(** A [connectionScope]; [cn_peer] is the scope of the peer it is attached to. *)
Record connectionScope := mkConn {
  cn_dir : Direction;
  cn_usefd : bool;
  isAllowlisted : bool;
  cn_peer : option nat;
  endpoint : string;
  cn_ip : option addr;
}.
#[export] Instance connectionScope_eta : Eta connectionScope := fun c =>
  mkConn (cn_dir c) (cn_usefd c) (isAllowlisted c) (cn_peer c) (endpoint c) (cn_ip c).

(** A [streamScope]: its peer, and the service and protocol it is attached to. *)
Record streamScope := mkStream {
  st_dir : Direction;
  st_peer : string;
  st_peerScope : nat;
  st_svc : option nat;
  st_proto : option nat;
  peerProtoScope : option nat;
  peerSvcScope : option nat;
}.
#[export] Instance streamScope_eta : Eta streamScope := fun s =>
  mkStream (st_dir s) (st_peer s) (st_peerScope s) (st_svc s) (st_proto s) (peerProtoScope s) (peerSvcScope s).

Record resourceManager := mkManager {
  rm_heap : heap;
  rm_connLimiter : connLimiter;
  rm_system : nat;
  rm_transient : nat;
  allowlistedSystem : nat;
  allowlistedTransient : nat;
  rm_svc : gmap string namedScope;
  rm_proto : gmap string namedScope;
  rm_peer : gmap string nat;
  stickyProto : gomap ();
  stickyPeer : gomap ();
  connId : Z;
  streamId : Z;
  rm_conns : gmap nat connectionScope;
  rm_streams : gmap nat streamScope;
}.
#[export] Instance resourceManager_eta : Eta resourceManager := fun r =>
  mkManager (rm_heap r) (rm_connLimiter r) (rm_system r) (rm_transient r) (allowlistedSystem r)
    (allowlistedTransient r) (rm_svc r) (rm_proto r) (rm_peer r) (stickyProto r) (stickyPeer r)
    (connId r) (streamId r) (rm_conns r) (rm_streams r).

(** A method of a scope, on the manager's heap. *)
Definition on_heap {A} (m : M heap A) : M resourceManager A := fun r =>
  match m (rm_heap r) with
  | Ok (a, h) => Ok (a, r <| rm_heap := h |>)
  | Panic => Panic
  end.

Definition getConn (c : nat) : M resourceManager connectionScope := deref (fun r => rm_conns r !! c).
Definition updConn (c : nat) (f : connectionScope -> connectionScope) : M resourceManager () :=
  modify (fun r => r <| rm_conns := alter f c (rm_conns r) |>).
Definition getStream (s : nat) : M resourceManager streamScope := deref (fun r => rm_streams r !! s).
Definition updStream (s : nat) (f : streamScope -> streamScope) : M resourceManager () :=
  modify (fun r => r <| rm_streams := alter f s (rm_streams r) |>).
Definition setEdges (s : nat) (es : list nat) : M resourceManager () :=
  on_heap (updScope s (fun sc => sc <| edges := es |>)).

Section manager.
Context (L : Limiter).
(** The allowlist's answers for an endpoint, and for a peer at an endpoint. *)
Context (Allowed : string -> bool) (AllowedPeerAndMultiaddr : string -> string -> bool).
(** The IP address of an endpoint, if it has one ([manet.ToIP]). *)
Context (ToIP : string -> option addr).

(** The fixed scopes are held by the manager. *)
Definition NewResourceManager (cl : connLimiter) : M heap resourceManager :=
  system <- newResourceScope (GetSystemLimits L) [] "system" ;;
  IncRef system ;;
  transient <- newResourceScope (GetTransientLimits L) [system] "transient" ;;
  IncRef transient ;;
  asystem <- newResourceScope (GetAllowlistedSystemLimits L) [] "allowlistedSystem" ;;
  IncRef asystem ;;
  atransient <- newResourceScope (GetAllowlistedTransientLimits L) [asystem] "allowlistedTransient" ;;
  IncRef atransient ;;
  h <- get ;;
  ret (mkManager h cl system transient asystem atransient ∅ ∅ ∅ None None 0 0 ∅ ∅).

(** ** The scopes of services, protocols and peers *)

Definition newServiceScope (svc : string) : M resourceManager nat :=
  system <- gets rm_system ;;
  on_heap (newResourceScope (GetServiceLimits L svc) [system] ("service:" +:+ svc)).
Definition newProtocolScope (proto : string) : M resourceManager nat :=
  system <- gets rm_system ;;
  on_heap (newResourceScope (GetProtocolLimits L proto) [system] ("protocol:" +:+ proto)).
Definition newPeerScope (p : string) : M resourceManager nat :=
  system <- gets rm_system ;;
  on_heap (newResourceScope (GetPeerLimits L p) [system] ("peer:" +:+ p)).

(** The [get] methods: the scope of the name, made if there is none, with one
    more reference. *)
Definition getServiceScope (svc : string) : M resourceManager nat :=
  m <- gets rm_svc ;;
  s <- (match m !! svc with
        | Some s => ret (ns_scope s)
        | None =>
            s <- newServiceScope svc ;;
            modify (fun r => r <| rm_svc := <[svc := mkNamed s None]> (rm_svc r) |>) ;;
            ret s
        end) ;;
  on_heap (IncRef s) ;;
  ret s.

Definition getProtocolScope (proto : string) : M resourceManager nat :=
  m <- gets rm_proto ;;
  s <- (match m !! proto with
        | Some s => ret (ns_scope s)
        | None =>
            s <- newProtocolScope proto ;;
            modify (fun r => r <| rm_proto := <[proto := mkNamed s None]> (rm_proto r) |>) ;;
            ret s
        end) ;;
  on_heap (IncRef s) ;;
  ret s.

Definition getPeerScope (p : string) : M resourceManager nat :=
  m <- gets rm_peer ;;
  s <- (match m !! p with
        | Some s => ret s
        | None =>
            s <- newPeerScope p ;;
            modify (fun r => r <| rm_peer := <[p := s]> (rm_peer r) |>) ;;
            ret s
        end) ;;
  on_heap (IncRef s) ;;
  ret s.

(** The scope of a peer within a service or a protocol: it has no edges.
    [getm] and [setm] are the manager's map that the service is found in. *)
Definition named_peer_scope (limit : Limit) (getm : resourceManager -> gmap string namedScope)
    (setm : gmap string namedScope -> resourceManager -> resourceManager)
    (name p : string) : M resourceManager nat :=
  s <- deref (fun r => getm r !! name) ;;
  match ns_peers s !! p with
  | Some ps => on_heap (IncRef ps) ;; ret ps
  | None =>
      let s := s <| ns_peerMap := make_if_nil (ns_peerMap s) |> in
      sc <- on_heap (getScope (ns_scope s)) ;;
      ps <- on_heap (newResourceScope limit [] (sname sc +:+ ".peer:" +:+ p)) ;;
      peers <- lift (map_set p ps (ns_peerMap s)) ;;
      modify (fun r => setm (<[name := s <| ns_peerMap := peers |>]> (getm r)) r) ;;
      on_heap (IncRef ps) ;;
      ret ps
  end.

Definition service_getPeerScope (svc p : string) : M resourceManager nat :=
  named_peer_scope (GetServicePeerLimits L svc) rm_svc (fun m r => r <| rm_svc := m |>) svc p.
Definition protocol_getPeerScope (proto p : string) : M resourceManager nat :=
  named_peer_scope (GetProtocolPeerLimits L proto) rm_proto (fun m r => r <| rm_proto := m |>) proto p.

Definition setStickyProtocol (proto : string) : M resourceManager () :=
  modify (fun r => r <| stickyProto := make_if_nil (stickyProto r) |>) ;;
  m <- gets stickyProto ;;
  m <- lift (map_set proto () m) ;;
  modify (fun r => r <| stickyProto := m |>).
Definition setStickyPeer (p : string) : M resourceManager () :=
  modify (fun r => r <| stickyPeer := make_if_nil (stickyPeer r) |>) ;;
  m <- gets stickyPeer ;;
  m <- lift (map_set p () m) ;;
  modify (fun r => r <| stickyPeer := m |>).

Definition is_sticky (m : gomap ()) (name : string) : bool := bool_decide (is_Some (entries m !! name)).

Definition nextConnId : M resourceManager Z :=
  modify (fun r => r <| connId := int64 (connId r + 1) |>) ;; gets connId.
Definition nextStreamId : M resourceManager Z :=
  modify (fun r => r <| streamId := int64 (streamId r + 1) |>) ;; gets streamId.

(** The [View] methods hold a reference while the caller's function runs. *)
Definition view {A} (getScope : M resourceManager nat) (f : nat -> M resourceManager A) :
    M resourceManager A :=
  s <- getScope ;;
  a <- f s ;;
  on_heap (DecRef s) ;;
  ret a.
Definition ViewService {A} (svc : string) (f : nat -> M resourceManager A) := view (getServiceScope svc) f.
Definition ViewProtocol {A} (proto : string) (f : nat -> M resourceManager A) := view (getProtocolScope proto) f.
Definition ViewPeer {A} (p : string) (f : nat -> M resourceManager A) := view (getPeerScope p) f.

(** ** Connections *)

Definition newConnectionScope (dir : Direction) (usefd : bool) (ep : string) (ip : option addr) :
    M resourceManager nat :=
  transient <- gets rm_transient ;; system <- gets rm_system ;;
  id <- nextConnId ;;
  c <- on_heap (newResourceScope (GetConnLimits L) [transient; system] ("conn-" +:+ itoa id)) ;;
  modify (fun r => r <| rm_conns := <[c := mkConn dir usefd false None ep ip]> (rm_conns r) |>) ;;
  ret c.

Definition newAllowListedConnectionScope (dir : Direction) (usefd : bool) (ep : string) :
    M resourceManager nat :=
  transient <- gets allowlistedTransient ;; system <- gets allowlistedSystem ;;
  id <- nextConnId ;;
  c <- on_heap (newResourceScope (GetConnLimits L) [transient; system] ("conn-" +:+ itoa id)) ;;
  modify (fun r => r <| rm_conns := <[c := mkConn dir usefd true None ep None]> (rm_conns r) |>) ;;
  ret c.

(** [connectionScope.Done]: the address is given back to the limiter once. *)
Definition conn_Done (c : nat) : M resourceManager () :=
  sc <- on_heap (getScope c) ;;
  if done sc then ret ()
  else
    cn <- getConn c ;;
    (match cn_ip cn with
     | Some ip => fun r => match rmConn (rm_connLimiter r) ip with
                           | Ok cl => Ok ((), r <| rm_connLimiter := cl |>)
                           | Panic => Panic
                           end
     | None => ret ()
     end) ;;
    on_heap (doneUnlocked c).

Definition limiter_addConn (ip : option addr) : M resourceManager bool := fun r =>
  match ip with
  | None => Ok (true, r)
  | Some ip =>
      match ConnLimiter.addConn (rm_connLimiter r) ip with
      | Ok (ok, cl) => Ok (ok, r <| rm_connLimiter := cl |>)
      | Panic => Panic
      end
  end.

Definition is_Some_b {A} (o : option A) : bool := match o with Some _ => true | None => false end.

Definition openConnection (dir : Direction) (usefd : bool) (ep : string) (ip : option addr) :
    M resourceManager (rcerror + nat) :=
  ok <- limiter_addConn ip ;;
  if negb ok then ret (inl (ErrRcmgr "connections per ip limit exceeded"))
  else
    conn <- newConnectionScope dir usefd ep ip ;;
    err <- on_heap (AddConn conn dir usefd) ;;
    ' (conn, err) <- (if is_Some_b err && is_Some_b ip && Allowed ep then
                        conn_Done conn ;;
                        conn <- newAllowListedConnectionScope dir usefd ep ;;
                        err <- on_heap (AddConn conn dir usefd) ;;
                        ret (conn, err)
                      else ret (conn, err)) ;;
    match err with
    | Some e => conn_Done conn ;; ret (inl e)
    | None => ret (inr conn)
    end.

Definition OpenConnection (dir : Direction) (usefd : bool) (ep : string) :
    M resourceManager (rcerror + nat) :=
  openConnection dir usefd ep (ToIP ep).
Definition OpenConnectionNoIP (dir : Direction) (usefd : bool) (ep : string) :
    M resourceManager (rcerror + nat) :=
  openConnection dir usefd ep None.

(** Moves a connection from the allowlisted scopes to the standard ones; when
    these refuse it, it is left without constraining scopes. *)
Definition transferAllowedToStandard (c : nat) : M resourceManager (option rcerror) :=
  system <- gets rm_system ;; transient <- gets rm_transient ;;
  sc <- on_heap (getScope c) ;;
  let st := stat (rc sc) in
  on_heap (for_each (edges sc) (fun e => ReleaseForChild e st ;; DecRef e)) ;;
  setEdges c [] ;;
  err <- on_heap (ReserveForChild system st) ;;
  match err with
  | Some e => ret (Some e)
  | None =>
      on_heap (IncRef system) ;;
      err <- on_heap (ReserveForChild transient st) ;;
      match err with
      | Some e => on_heap (ReleaseForChild system st) ;; on_heap (DecRef system) ;; ret (Some e)
      | None =>
          on_heap (IncRef transient) ;;
          setEdges c [system; transient] ;;
          ret None
      end
  end.

(** The second half of [SetPeer]: the connection's resources go from the
    transient scope to the peer's. *)
Definition attach_peer (c : nat) (p : string) (system transient : nat) : M resourceManager (option rcerror) :=
  peer <- getPeerScope p ;;
  updConn c (fun cn => cn <| cn_peer := Some peer |>) ;;
  sc <- on_heap (getScope c) ;;
  let st := stat (rc sc) in
  err <- on_heap (ReserveForChild peer st) ;;
  match err with
  | Some e =>
      on_heap (DecRef peer) ;;
      updConn c (fun cn => cn <| cn_peer := None |>) ;;
      ret (Some e)
  | None =>
      on_heap (ReleaseForChild transient st) ;;
      on_heap (DecRef transient) ;;
      setEdges c [peer; system] ;;
      ret None
  end.

Definition SetPeer (c : nat) (p : string) : M resourceManager (option rcerror) :=
  cn <- getConn c ;;
  match cn_peer cn with
  | Some _ => ret (Some (ErrRcmgr "connection scope already attached to a peer"))
  | None =>
      system <- gets rm_system ;; transient <- gets rm_transient ;;
      if isAllowlisted cn then
        if AllowedPeerAndMultiaddr p (endpoint cn) then
          asystem <- gets allowlistedSystem ;; atransient <- gets allowlistedTransient ;;
          attach_peer c p asystem atransient
        else
          updConn c (fun cn => cn <| isAllowlisted := false |>) ;;
          err <- transferAllowedToStandard c ;;
          match err with
          | Some e => ret (Some e)
          | None => attach_peer c p system transient
          end
      else attach_peer c p system transient
  end.

(** ** Streams *)

Definition newStreamScope (dir : Direction) (limit : Limit) (p : string) (peer : nat) : M resourceManager nat :=
  transient <- gets rm_transient ;; system <- gets rm_system ;;
  id <- nextStreamId ;;
  s <- on_heap (newResourceScope limit [peer; transient; system] ("stream-" +:+ itoa id)) ;;
  modify (fun r => r <| rm_streams := <[s := mkStream dir p peer None None None None]> (rm_streams r) |>) ;;
  ret s.

Definition OpenStream (p : string) (dir : Direction) : M resourceManager (rcerror + nat) :=
  peer <- getPeerScope p ;;
  stream <- newStreamScope dir (GetStreamLimits L p) p peer ;;
  on_heap (DecRef peer) ;;
  err <- on_heap (AddStream stream dir) ;;
  match err with
  | Some e => on_heap (Done stream) ;; ret (inl e)
  | None => ret (inr stream)
  end.

Definition SetProtocol (s : nat) (proto : string) : M resourceManager (option rcerror) :=
  str <- getStream s ;;
  match st_proto str with
  | Some _ => ret (Some (ErrRcmgr "stream scope already attached to a protocol"))
  | None =>
      pr <- getProtocolScope proto ;;
      sc <- on_heap (getScope s) ;;
      let st := stat (rc sc) in
      err <- on_heap (ReserveForChild pr st) ;;
      match err with
      | Some e => on_heap (DecRef pr) ;; ret (Some e)
      | None =>
          pps <- protocol_getPeerScope proto (st_peer str) ;;
          err <- on_heap (ReserveForChild pps st) ;;
          match err with
          | Some e =>
              on_heap (ReleaseForChild pr st) ;; on_heap (DecRef pr) ;; on_heap (DecRef pps) ;;
              ret (Some e)
          | None =>
              transient <- gets rm_transient ;; system <- gets rm_system ;;
              on_heap (ReleaseForChild transient st) ;; on_heap (DecRef transient) ;;
              setEdges s [st_peerScope str; pps; pr; system] ;;
              updStream s (fun str => str <| st_proto := Some pr |> <| peerProtoScope := Some pps |>) ;;
              ret None
          end
      end
  end.

Definition SetService (s : nat) (svc : string) : M resourceManager (option rcerror) :=
  str <- getStream s ;;
  match st_svc str, st_proto str, peerProtoScope str with
  | Some _, _, _ => ret (Some (ErrRcmgr "stream scope already attached to a service"))
  | None, Some pr, Some pps =>
      sv <- getServiceScope svc ;;
      sc <- on_heap (getScope s) ;;
      let st := stat (rc sc) in
      err <- on_heap (ReserveForChild sv st) ;;
      match err with
      | Some e => on_heap (DecRef sv) ;; ret (Some e)
      | None =>
          pss <- service_getPeerScope svc (st_peer str) ;;
          err <- on_heap (ReserveForChild pss st) ;;
          match err with
          | Some e =>
              on_heap (ReleaseForChild sv st) ;; on_heap (DecRef sv) ;; on_heap (DecRef pss) ;;
              ret (Some e)
          | None =>
              system <- gets rm_system ;;
              setEdges s [st_peerScope str; pps; pss; pr; sv; system] ;;
              updStream s (fun str => str <| st_svc := Some sv |> <| peerSvcScope := Some pss |>) ;;
              ret None
          end
      end
  | None, _, _ => ret (Some (ErrRcmgr "stream scope not attached to a protocol"))
  end.

(** ** Garbage collection *)

Context `{O : MapOrder}.

(** A [for] loop over the entries of a map. *)
Fixpoint for_range {A} (l : list (string * A)) (f : string -> A -> M resourceManager ()) :
    M resourceManager () :=
  match l with
  | [] => ret ()
  | (k, a) :: l' => f k a ;; for_range l' f
  end.

Definition gc_protocols : M resourceManager () :=
  m <- gets rm_proto ;;
  for_range (map_range m) (fun proto s =>
    sticky <- gets stickyProto ;;
    if is_sticky sticky proto then ret ()
    else
      u <- on_heap (IsUnused (ns_scope s)) ;;
      when u (on_heap (Done (ns_scope s)) ;;
              modify (fun r => r <| rm_proto := delete proto (rm_proto r) |>))).

(** The peers that are not used any more, with the effect of removing them. *)
Fixpoint gc_peers (l : list (string * nat)) : M resourceManager (list string) :=
  match l with
  | [] => ret []
  | (p, s) :: l' =>
      sticky <- gets stickyPeer ;;
      u <- on_heap (IsUnused s) ;;
      if negb (is_sticky sticky p) && u then
        on_heap (Done s) ;;
        modify (fun r => r <| rm_peer := delete p (rm_peer r) |>) ;;
        dead <- gc_peers l' ;;
        ret (p :: dead)
      else gc_peers l'
  end.

(** Closes the scopes of the dead peers within one service or protocol, and deletes
    their entries. *)
Fixpoint drop_peers (dead : list string) (peers : gmap string nat) : M heap (gmap string nat) :=
  match dead with
  | [] => ret peers
  | p :: dead' =>
      match peers !! p with
      | Some ps => Done ps ;; drop_peers dead' (delete p peers)
      | None => drop_peers dead' peers
      end
  end.

Definition gc_named (dead : list string) (getm : resourceManager -> gmap string namedScope)
    (setm : gmap string namedScope -> resourceManager -> resourceManager) : M resourceManager () :=
  m <- gets getm ;;
  for_range (map_range m) (fun name s =>
    peers <- on_heap (drop_peers dead (ns_peers s)) ;;
    modify (fun r => setm (<[name := s <| ns_peerMap := (fun _ => peers) <$> ns_peerMap s |>]> (getm r)) r)).

Definition gc : M resourceManager () :=
  gc_protocols ;;
  m <- gets rm_peer ;;
  dead <- gc_peers (map_range m) ;;
  gc_named dead rm_svc (fun m r => r <| rm_svc := m |>) ;;
  gc_named dead rm_proto (fun m r => r <| rm_proto := m |>).
End manager.

(** ** Limits and views of a running manager (extapi.go) *)

Definition protocol_SetLimit (proto : string) (limit : Limit) : M resourceManager () :=
  s <- deref (fun r => rm_proto r !! proto) ;;
  setStickyProtocol proto ;;
  on_heap (SetLimit (ns_scope s) limit).

Definition peer_SetLimit (p : string) (limit : Limit) : M resourceManager () :=
  s <- deref (fun r => rm_peer r !! p) ;;
  setStickyPeer p ;;
  on_heap (SetLimit s limit).

Definition manager_GetConnLimit (L : Limiter) : Z := GetConnTotalLimit (GetSystemLimits L).

(** ** Listings and statistics (extapi.go) *)

Definition scope_Limit (s : nat) : M heap Limit := sc <- getScope s ;; ret (rc_limit (rc sc)).

(** Strings in the order of their bytes. *)
Definition str_less (a b : string) : bool :=
  match String.compare a b with Lt => true | _ => false end.

Record ResourceManagerStat := mkManagerStat {
  ms_System : ScopeStat;
  ms_Transient : ScopeStat;
  ms_Services : gmap string ScopeStat;
  ms_Protocols : gmap string ScopeStat;
  ms_Peers : gmap string ScopeStat;
}.

Section views.
Context `{O : MapOrder, S : SortSlice}.

Definition sorted_names {A} (m : gmap string A) : list string := sort_slice str_less (map_range m).*1.

Definition ListServices : M resourceManager (list string) := m <- gets rm_svc ;; ret (sorted_names m).
Definition ListProtocols : M resourceManager (list string) := m <- gets rm_proto ;; ret (sorted_names m).
Definition ListPeers : M resourceManager (list string) := m <- gets rm_peer ;; ret (sorted_names m).

(** The statistics of the scopes of a map, read one after the other. *)
Fixpoint collect_stats {A} (scope_of : A -> nat) (l : list (string * A)) (result : gmap string ScopeStat) :
    M heap (gmap string ScopeStat) :=
  match l with
  | [] => ret result
  | (name, a) :: l' => st <- Stat (scope_of a) ;; collect_stats scope_of l' (<[name := st]> result)
  end.

Definition manager_Stat : M resourceManager ResourceManagerStat :=
  svcs <- gets rm_svc ;; protos <- gets rm_proto ;; peers <- gets rm_peer ;;
  ps <- on_heap (collect_stats id (map_range peers) ∅) ;;
  prs <- on_heap (collect_stats ns_scope (map_range protos) ∅) ;;
  ss <- on_heap (collect_stats ns_scope (map_range svcs) ∅) ;;
  transient <- gets rm_transient ;; t <- on_heap (Stat transient) ;;
  system <- gets rm_system ;; sy <- on_heap (Stat system) ;;
  ret (mkManagerStat sy t ss prs ps).
End views.
