(* ===== verification/RcMove.v ===== *)
(** Moving a node of the DAG from some constraining scopes to others, the way
    [SetPeer], [SetProtocol] and [SetService] do: what the node uses is reserved
    on the scopes it comes under and released on those it leaves, and its list of
    edges is replaced.  The accounts hold again afterwards. *)

From stdpp Require Import gmap strings list.
From S2P Require Import Prelude RcResources TunnelAddr RcScope RcScopeProps RcAccount.
#[local] Open Scope Z_scope.

(** ** Heaps changed scope by scope *)

Definition upd (F : nat -> resourceScope -> resourceScope) (h : heap) : heap :=
  h <| scopes := map_imap (fun k y => Some (F k y)) (scopes h) |>.

Definition at_scope (e : nat) (f : resourceScope -> resourceScope) (k : nat) (y : resourceScope) :
    resourceScope :=
  if decide (k = e) then f y else y.

Definition more_refs (n : Z) (y : resourceScope) : resourceScope := y <| refCnt := refCnt y + n |>.

(** A release, which a closed scope ignores. *)
Definition dropped (op : rop) (y : resourceScope) : resourceScope :=
  if done y then y else with_rc (op_remove op) y.

Definition with_edges (es : list nat) (y : resourceScope) : resourceScope := y <| edges := es |>.

Lemma lookup_upd F h k : scopes (upd F h) !! k = F k <$> scopes h !! k.
Proof. unfold upd. cbn. rewrite map_lookup_imap. by destruct (scopes h !! k). Qed.

Lemma upd_exists F h k : is_Some (scopes h !! k) -> is_Some (scopes (upd F h) !! k).
Proof. intros [y Hy]. rewrite lookup_upd, Hy. by eexists. Qed.

Lemma upd_upd F G h : upd G (upd F h) = upd (fun k y => G k (F k y)) h.
Proof.
  apply heap_ext; [done|]. apply map_eq. intros k. rewrite !lookup_upd. by destruct (scopes h !! k).
Qed.

Lemma upd_ext F G h :
  (forall k y, scopes h !! k = Some y -> F k y = G k y) -> upd F h = upd G h.
Proof.
  intros He. apply heap_ext; [done|]. apply map_eq. intros k. rewrite !lookup_upd.
  destruct (scopes h !! k) eqn:Hk; [|done]. cbn. f_equal. by apply He.
Qed.

Lemma upd_id F h : (forall k y, scopes h !! k = Some y -> F k y = y) -> upd F h = h.
Proof.
  intros He. apply heap_ext; [done|]. apply map_eq. intros k. rewrite lookup_upd.
  destruct (scopes h !! k) eqn:Hk; [|done]. cbn. f_equal. by apply He.
Qed.

Lemma alter_upd e f h : h <| scopes := alter f e (scopes h) |> = upd (at_scope e f) h.
Proof.
  apply heap_ext; [done|]. apply map_eq. intros k. rewrite lookup_upd. unfold at_scope. cbn.
  destruct (decide (k = e)) as [->|Hk]; [apply lookup_alter_eq|].
  rewrite lookup_alter_ne by done. by destruct (scopes h !! k).
Qed.

Lemma on_refs_upd n e h : on_refs n e h = upd (at_scope e (more_refs n)) h.
Proof. apply alter_upd. Qed.

Lemma on_rc_upd f e h : on_rc f [e] h = upd (at_scope e (with_rc f)) h.
Proof. apply alter_upd. Qed.

Lemma IncRef_upd e h :
  is_Some (scopes h !! e) -> IncRef e h = Ok ((), upd (at_scope e (more_refs 1)) h).
Proof. intros He. by rewrite IncRef_spec, on_refs_upd by done. Qed.

Lemma DecRef_upd e h :
  is_Some (scopes h !! e) -> DecRef e h = Ok ((), upd (at_scope e (more_refs (-1))) h).
Proof. intros He. by rewrite DecRef_spec, on_refs_upd by done. Qed.

Lemma ReserveForChild_upd st e h :
  stat_ok st -> heap_wf h -> is_Some (scopes h !! e) ->
  exists err, ReserveForChild e st h =
    Ok (err, match err with
             | None => upd (at_scope e (with_rc (granted (stat_op st)))) h
             | Some _ => h
             end) /\
  (err = None <-> admits (stat_op st) h e).
Proof.
  intros Hst Hwf He. pose proof (stat_op_laws st Hst).
  destruct (add_for_child_spec (stat_op st) (amount st) h e Hwf He) as (err & Hrun & Hiff).
  exists err. split; [|done]. unfold ReserveForChild. rewrite Hrun. destruct err; [done|].
  by rewrite on_rc_upd.
Qed.

Lemma ReleaseForChild_upd st e h :
  is_Some (scopes h !! e) ->
  ReleaseForChild e st h = Ok ((), upd (at_scope e (dropped (stat_op st))) h).
Proof.
  intros [y He]. unfold ReleaseForChild, remove_for_child, bind, getScope, deref. rewrite He.
  destruct (done y) eqn:Hd.
  - rewrite upd_id; [done|]. intros k z Hk. unfold at_scope, dropped.
    destruct (decide (k = e)) as [->|]; [|done]. rewrite He in Hk. injection Hk as <-. by rewrite Hd.
  - unfold updScope, modify. rewrite alter_upd. do 2 f_equal. apply upd_ext. intros k z Hk.
    unfold at_scope, dropped. destruct (decide (k = e)) as [->|]; [|done].
    rewrite He in Hk. injection Hk as <-. by rewrite Hd.
Qed.

Lemma updScope_upd e f h : updScope e f h = Ok ((), upd (at_scope e f) h).
Proof. unfold updScope, modify. by rewrite alter_upd. Qed.

(** The shape of a scope: all but its counters. *)
Definition like (y y' : resourceScope) : Prop :=
  done y' = done y /\ owner y' = owner y /\ edges y' = edges y.

#[export] Instance like_refl : Reflexive like.
Proof. done. Qed.
#[export] Instance like_trans : Transitive like.
Proof. intros x y z (H1 & H2 & H3) (H4 & H5 & H6). split_and!; congruence. Qed.

Lemma like_refs n y : like y (more_refs n y).
Proof. done. Qed.
Lemma like_with_rc f y : like y (with_rc f y).
Proof. done. Qed.
Lemma like_dropped op y : like y (dropped op y).
Proof. unfold dropped. by destruct (done y). Qed.
Lemma like_at e f k y : like y (f y) -> like y (at_scope e f k y).
Proof. unfold at_scope. by destruct (decide _). Qed.

Lemma upd_wf F h :
  heap_wf h -> (forall k y, scopes h !! k = Some y -> like y (F k y) /\ within (rc (F k y))) ->
  heap_wf (upd F h).
Proof.
  intros Hwf HF. apply (same_shape_wf h); [done| |].
  - split; [done|]. intros k. rewrite lookup_upd. destruct (scopes h !! k) as [y|] eqn:Hk; [|done].
    cbn. destruct (HF k y Hk) as [(_ & -> & ->) _]. done.
  - intros k y' Hk. rewrite lookup_upd in Hk. destruct (scopes h !! k) as [y|] eqn:Hy; [|done].
    cbn in Hk. injection Hk as <-. by apply (HF k y).
Qed.

(** ** The move *)

Section move.
Context (h : heap) (held : holdings) (s : nat) (sc : resourceScope) (es : list nat).
Context (F : nat -> resourceScope -> resourceScope).
Context (Hac : accounts h held) (Hs : scopes h !! s = Some sc) (Hd : done sc = false).
Context (Ho : owner sc = None).
Context (Hleaf : forall k y, scopes h !! k = Some y -> done y = false -> s ∉ edges y).
Context (Hnd : NoDup es).
Context (Hes : forall e, e ∈ es -> e <> s /\ exists esc, scopes h !! e = Some esc /\ owner esc = None).

(** By how many copies of what [s] uses the scope [k] changes. *)
Definition moved (k : nat) : Z :=
  (if bool_decide (k ∈ es) then 1 else 0) - (if bool_decide (k ∈ edges sc) then 1 else 0).

Context (HF : forall k y, scopes h !! k = Some y ->
  done (F k y) = done y /\ owner (F k y) = owner y /\
  edges (F k y) = (if decide (k = s) then es else edges y) /\ within (rc (F k y)) /\
  (done y = false -> (forall r, usage (rc (F k y)) r = usage (rc y) r + moved k * usage (rc sc) r) /\
     refs h k + moved k <= refCnt (F k y))).

Lemma span_off_edges k y : scopes h !! k = Some y -> is_Some (owner y) -> moved k = 0.
Proof using All.
  intros Hk [o Hy]. unfold moved. rewrite !bool_decide_eq_false_2; [done| |].
  - intros Hin. destruct (sw_edges _ _ _ (ac_wf _ _ Hac s sc Hs) k Hin) as (_ & z & Hz & Hnone). congruence.
  - intros Hin. destruct (Hes k Hin) as (_ & z & Hz & Hnone). congruence.
Qed.

Lemma move_own k r : own (upd F h) held k r = own h held k r.
Proof using All.
  unfold own. f_equal. symmetry. apply msum_rel. intros j. rewrite lookup_upd.
  destruct (scopes h !! j) as [y|] eqn:Hy; [|done]. cbn.
  destruct (HF j y Hy) as (H1 & H2 & _ & _ & H5). unfold span_use. rewrite H1, H2.
  destruct (done y) eqn:Hdy; [done|]. cbn. case_bool_decide as Howner; [|done].
  destruct (H5 eq_refl) as [Hu _]. rewrite Hu, (span_off_edges j y Hy) by (by rewrite Howner). lia.
Qed.

Lemma move_edge_use p r :
  msum (edge_use (upd F h) held p r) (scopes (upd F h)) =
  msum (edge_use h held p r) (scopes h) + moved p * usage (rc sc) r.
Proof using All.
  apply (msum_shift _ _ _ _ s sc (F s sc)); [done| | |].
  - by rewrite lookup_upd, Hs.
  - destruct (HF s sc Hs) as (H1 & _ & H3 & _). unfold edge_use.
    rewrite move_own, H1, H3, decide_True, Hd by done. cbn.
    rewrite <- (leaf_usage h held s sc Hac Hs Hd Hleaf r). unfold moved.
    destruct (bool_decide (p ∈ es)), (bool_decide (p ∈ edges sc)); lia.
  - intros j Hj. rewrite lookup_upd. destruct (scopes h !! j) as [y|] eqn:Hy; [|done]. cbn.
    destruct (HF j y Hy) as (H1 & _ & H3 & _). unfold edge_use. by rewrite move_own, H1, H3, decide_False.
Qed.

Lemma move_refs p : refs (upd F h) p = refs h p + moved p.
Proof using All.
  apply (msum_shift _ _ _ _ s sc (F s sc)); [done| | |].
  - by rewrite lookup_upd, Hs.
  - destruct (HF s sc Hs) as (H1 & H2 & H3 & _). unfold refs_from.
    rewrite H1, H2, H3, decide_True, Hd, Ho by done. cbn.
    rewrite (bool_decide_eq_false_2 (None = Some p)) by done. cbn. unfold moved.
    by destruct (bool_decide (p ∈ es)), (bool_decide (p ∈ edges sc)).
  - intros j Hj. rewrite lookup_upd. destruct (scopes h !! j) as [y|] eqn:Hy; [|done]. cbn.
    destruct (HF j y Hy) as (H1 & H2 & H3 & _). unfold refs_from. by rewrite H1, H2, H3, decide_False.
Qed.

Lemma move_wf : heap_wf (upd F h).
Proof using All.
  intros k y' Hk. rewrite lookup_upd in Hk. destruct (scopes h !! k) as [y|] eqn:Hy; [|done].
  cbn in Hk. injection Hk as <-. destruct (HF k y Hy) as (H1 & H2 & H3 & H4 & _).
  assert (forall e, (e <> k /\ exists esc, scopes h !! e = Some esc /\ owner esc = None) ->
    e <> k /\ exists esc, scopes (upd F h) !! e = Some esc /\ owner esc = None) as Hlift.
  { intros e (Hne & esc & Hesc & Hnone). split; [done|]. exists (F e esc). rewrite lookup_upd, Hesc.
    split; [done|]. by destruct (HF e esc Hesc) as (_ & -> & _). }
  destruct (ac_wf _ _ Hac k y Hy) as [W1 W2 W3 W4 W5]. split.
  - done.
  - intros o Hown. rewrite H2 in Hown. destruct (W2 o Hown) as (Hlt & Hex & Hnil).
    split; [done|split; [by apply upd_exists|]]. rewrite H3. case_decide as Hks; [|done]. congruence.
  - intros e He. rewrite H3 in He. case_decide as Hks; [subst k|]; apply Hlift; auto.
  - rewrite H3. by case_decide.
  - done.
Qed.

Lemma accounts_move : accounts (upd F h) held.
Proof using All.
  split; [by apply move_wf| |by apply (ac_held _ _ Hac)| |].
  - intros p y' r Hp Hdp. rewrite lookup_upd in Hp. destruct (scopes h !! p) as [y|] eqn:Hy; [|done].
    cbn in Hp. injection Hp as <-. destruct (HF p y Hy) as (H1 & _ & _ & _ & H5).
    rewrite H1 in Hdp. destruct (H5 Hdp) as [Hu _].
    rewrite move_own, move_edge_use, Hu, (ac_balanced _ _ Hac p y r Hy Hdp). lia.
  - intros k r Hk. apply (ac_fresh _ _ Hac). rewrite lookup_upd in Hk. by destruct (scopes h !! k).
  - intros p y' Hp Hdp. rewrite lookup_upd in Hp. destruct (scopes h !! p) as [y|] eqn:Hy; [|done].
    cbn in Hp. injection Hp as <-. destruct (HF p y Hy) as (H1 & _ & _ & _ & H5).
    rewrite H1 in Hdp. rewrite move_refs. by destruct (H5 Hdp).
Qed.
End move.

(** ** What the move does to one scope *)

Section parts.
Context (h : heap) (held : holdings) (s : nat) (sc : resourceScope).
Context (Hac : accounts h held) (Hs : scopes h !! s = Some sc) (Hd : done sc = false).
Context (Hleaf : forall k y, scopes h !! k = Some y -> done y = false -> s ∉ edges y).

Let st := stat (rc sc).

Lemma move_stat_ok : stat_ok st.
Proof using Hac Hs. apply within_stat_ok, (sw_within _ _ _ (ac_wf _ _ Hac s sc Hs)). Qed.

Lemma granted_usage e h' y :
  heap_wf h' -> scopes h' !! e = Some y -> admits (stat_op st) h' e ->
  within (rc (with_rc (granted (stat_op st)) y)) /\
  forall r, usage (rc (with_rc (granted (stat_op st)) y)) r = usage (rc y) r + usage (rc sc) r.
Proof using Hac Hs.
  intros Hwf He Had. pose proof (stat_op_laws st move_stat_ok).
  destruct (granted_within (stat_op st) (amount st) h' e Hwf Had y He) as (Hw & _ & _ & Hu).
  split; [done|]. intros r. cbn. by rewrite Hu, <- usage_stat.
Qed.

Lemma dropped_within y : within (rc y) -> within (rc (dropped (stat_op st) y)).
Proof using Hac Hs.
  intros Hw. unfold dropped. destruct (done y); [done|]. pose proof (stat_op_laws st move_stat_ok).
  by apply (rop_remove_within (op := stat_op st)).
Qed.

Lemma dropped_usage e y r :
  e ∈ edges sc -> scopes h !! e = Some y -> done y = false ->
  usage (rc (dropped (stat_op st) y)) r = usage (rc y) r - usage (rc sc) r.
Proof using Hac Hs Hd Hleaf.
  intros He Hy Hdy. unfold dropped. rewrite Hdy. pose proof (stat_op_laws st move_stat_ok).
  rewrite <- (usage_stat (rc sc)). apply (rop_remove_exact (op := stat_op st) (delta := amount st)).
  - apply (sw_within _ _ _ (ac_wf _ _ Hac e y Hy)).
  - intros r'. unfold st. rewrite usage_stat, (leaf_usage h held s sc Hac Hs Hd Hleaf).
    by apply (usage_covers_edge h held s sc e y).
Qed.

(** A reservation that is given back leaves the scope as it was. *)
Lemma dropped_granted e h' y :
  heap_wf h' -> scopes h' !! e = Some y -> admits (stat_op st) h' e ->
  dropped (stat_op st) (with_rc (granted (stat_op st)) y) = y.
Proof using Hac Hs.
  intros Hwf He Had. pose proof (stat_op_laws st move_stat_ok).
  destruct (granted_within (stat_op st) (amount st) h' e Hwf Had y He) as (_ & Hrem & _).
  destruct Had as (z & Hz & Hdz & _). rewrite He in Hz. injection Hz as <-.
  unfold dropped. cbn. rewrite Hdz.
  change (with_rc (fun x => op_remove (stat_op st) (granted (stat_op st) x)) y = y). by apply with_rc_id.
Qed.
End parts.

(** ** The move as the code makes it *)

(** What [s] uses is reserved on the scopes [added] and released on the scopes
    [left], and [s] gets the edges [es]. *)
Definition shift (st : ScopeStat) (added left : list nat) (s : nat) (es : list nat)
    (k : nat) (y : resourceScope) : resourceScope :=
  let y := if bool_decide (k ∈ added) then with_rc (granted (stat_op st)) y else y in
  let y := if bool_decide (k ∈ left) then more_refs (-1) (dropped (stat_op st) y) else y in
  if decide (k = s) then with_edges es y else y.

(** A reference to [s] that no edge accounts for. *)
Definition kept (h : heap) (s : nat) : Prop :=
  forall y, scopes h !! s = Some y -> done y = false -> refs h s + 1 <= refCnt y.

Lemma accounts_shift h held s sc es added left :
  accounts h held -> scopes h !! s = Some sc -> done sc = false -> owner sc = None ->
  (forall k y, scopes h !! k = Some y -> done y = false -> s ∉ edges y) ->
  NoDup es -> (forall e, e ∈ es <-> e ∈ added \/ (e ∈ edges sc /\ e ∉ left)) ->
  (forall e, e ∈ left -> e ∈ edges sc) ->
  (forall e, e ∈ added -> (e ∉ edges sc) /\ e <> s /\ kept h e /\ admits (stat_op (stat (rc sc))) h e /\
     exists y, scopes h !! e = Some y /\ owner y = None) ->
  accounts (upd (shift (stat (rc sc)) added left s es) h) held.
Proof.
  intros Hac Hs Hd Ho Hleaf Hnd Hes Hleft Hadded. pose proof (ac_wf _ _ Hac) as Hwf.
  pose proof (sw_edges _ _ _ (Hwf s sc Hs)) as Hedges.
  apply (accounts_move h held s sc es _ Hac Hs Hd Ho Hleaf Hnd).
  { intros e [He|[He _]]%Hes; [|by apply Hedges]. destruct (Hadded e He) as (_ & ? & _ & _ & ?). done. }
  intros k y Hk. pose proof (sw_within _ _ _ (Hwf k y Hk)) as Hw. unfold shift, moved.
  destruct (decide (k ∈ added)) as [Hin|Hout].
  - destruct (Hadded k Hin) as (Hnot & Hks & Hkept & Had & _).
    rewrite (bool_decide_eq_true_2 (k ∈ added)), (bool_decide_eq_false_2 (k ∈ edges sc)) by done.
    rewrite (bool_decide_eq_false_2 (k ∈ left)) by auto.
    rewrite (bool_decide_eq_true_2 (k ∈ es)) by (apply Hes; by left). rewrite !decide_False by done.
    destruct (granted_usage h held s sc Hac Hs k h y Hwf Hk Had) as [Hw' Hu].
    split; [done|split; [done|split; [done|split; [done|]]]]. intros Hdy. split; [intros r; rewrite Hu; lia|].
    specialize (Hkept y Hk Hdy). cbn. lia.
  - rewrite (bool_decide_eq_false_2 (k ∈ added)) by done.
    assert ((if bool_decide (k ∈ es) then 1 else 0) - (if bool_decide (k ∈ edges sc) then 1 else 0) =
      0 - (if bool_decide (k ∈ left) then 1 else 0)) as Hmv.
    { destruct (decide (k ∈ left)) as [Hl|Hl].
      - rewrite (bool_decide_eq_true_2 (k ∈ left)), (bool_decide_eq_true_2 (k ∈ edges sc)) by auto.
        rewrite bool_decide_eq_false_2; [done|]. intros [?|[_ ?]]%Hes; done.
      - rewrite (bool_decide_eq_false_2 (k ∈ left)) by done.
        rewrite (bool_decide_ext (k ∈ es) (k ∈ edges sc)); [lia|]. rewrite Hes. tauto. }
    rewrite Hmv. destruct (decide (k ∈ left)) as [Hl|Hl].
    + rewrite (bool_decide_eq_true_2 (k ∈ left)) by done. pose proof (Hleft k Hl) as Hke.
      destruct (Hedges k Hke) as (Hks & _). rewrite !decide_False by done.
      destruct (like_dropped (stat_op (stat (rc sc))) y) as (L1 & L2 & L3).
      split; [done|split; [done|split; [done|split; [by apply (dropped_within h held s sc Hac Hs)|]]]].
      intros Hdy. split.
      * intros r. cbn. rewrite (dropped_usage h held s sc Hac Hs Hd Hleaf k y r Hke Hk Hdy). lia.
      * pose proof (ac_refs _ _ Hac k y Hk Hdy). unfold dropped. rewrite Hdy. cbn. lia.
    + rewrite (bool_decide_eq_false_2 (k ∈ left)) by done. destruct (decide (k = s)) as [->|Hks];
        (split; [done|split; [done|split; [done|split; [done|]]]]; intros Hdy;
         split; [intros r; cbn; lia|pose proof (ac_refs _ _ Hac _ y Hk Hdy); cbn; lia]).
Qed.

(** ** Changes of different scopes commute *)

Lemma upd_at_comm a b f g h : a <> b -> upd (at_scope a f) (upd (at_scope b g) h) = upd (at_scope b g) (upd (at_scope a f) h).
Proof.
  intros Hab. rewrite !upd_upd. apply upd_ext. intros k y _. unfold at_scope.
  repeat case_decide; congruence.
Qed.

Definition with_scope (sc : resourceScope) (h : heap) : heap := mkHeap (<[next h := sc]> (scopes h)) (S (next h)).

Lemma with_scope_upd sc e f h : e <> next h -> with_scope sc (upd (at_scope e f) h) = upd (at_scope e f) (with_scope sc h).
Proof.
  intros He. apply heap_ext; [done|]. apply map_eq. intros k. rewrite lookup_upd. cbn.
  destruct (decide (k = next h)) as [->|Hk].
  - rewrite !lookup_insert_eq. unfold at_scope. cbn. by rewrite decide_False by congruence.
  - by rewrite !lookup_insert_ne, map_lookup_imap by done.
Qed.

Lemma newResourceScope_nil limit name h :
  newResourceScope limit [] name h = Ok (next h, with_scope (mkScope false 0 0 (fresh_resources limit) None [] name) h).
Proof. done. Qed.

Lemma more_refs_back y : more_refs (-1) (more_refs 1 y) = y.
Proof. destruct y as [d n i rc o es nm]. unfold more_refs, set_field. cbn. f_equal. lia. Qed.

Lemma refs_wf e n h : heap_wf h -> heap_wf (upd (at_scope e (more_refs n)) h).
Proof.
  intros Hwf. apply upd_wf; [done|]. intros k y Hk. split; [apply like_at, like_refs|].
  pose proof (sw_within _ _ _ (Hwf k y Hk)). unfold at_scope. by destruct (decide _).
Qed.

Lemma granted_wf st e h :
  stat_ok st -> heap_wf h -> admits (stat_op st) h e -> heap_wf (upd (at_scope e (with_rc (granted (stat_op st)))) h).
Proof.
  intros Hst Hwf Had. pose proof (stat_op_laws st Hst). rewrite <- on_rc_upd.
  apply (grant_wf (stat_op st) (amount st)); [apply NoDup_singleton|done|].
  by intros k ->%list_elem_of_singleton.
Qed.

Lemma dropped_refs op n y : dropped op (more_refs n y) = more_refs n (dropped op y).
Proof. unfold dropped. by destruct y as [[] ? ? ? ? ? ?]. Qed.
