(* ===== verification/ManagerInv.v ===== *)
(** What every state of a resource manager satisfies: which part each scope of
    its heap plays, and what the edges of the parts are.  The roles are ghost
    state: the code only has pointers. *)

From stdpp Require Import gmap strings list.
From S2P Require Import Prelude GoLib TunnelAddr RcResources RcScope RcScopeProps RcAccount RcLimits RcUse RcMove ConnLimiter ResourceManager.
#[local] Open Scope Z_scope.

(** ** Roles *)

Inductive role :=
  | KSystem | KTransient | KAllowSystem | KAllowTransient
  | KPeer (p : string) | KProto (n : string) | KSvc (n : string)
  | KProtoPeer (n p : string) | KSvcPeer (n p : string)
  | KConn | KStream
  | KSpan.

(** The scopes that may constrain others. *)
Definition is_node (κ : role) : bool :=
  match κ with KConn | KStream | KSpan => false | _ => true end.

Definition roles : Type := nat -> role.

Section shapes.
Context (r : resourceManager) (kd : roles).

(** The edges of a connection: under the transient scope of its kind until its
    peer is known, then under the peer; none when it could not be moved out of
    the allowlisted scopes. *)
Definition conn_edges (cn : connectionScope) (es : list nat) : Prop :=
  match cn_peer cn with
  | Some peer => (exists p, kd peer = KPeer p) /\ (es = [peer; rm_system r] \/ es = [peer; allowlistedSystem r])
  | None =>
      if isAllowlisted cn then es = [allowlistedTransient r; allowlistedSystem r]
      else es = [] \/ es = [rm_transient r; rm_system r] \/ es = [rm_system r; rm_transient r]
  end.

Definition stream_edges (st : streamScope) (es : list nat) : Prop :=
  rm_peer r !! st_peer st = Some (st_peerScope st) /\
  match st_proto st, peerProtoScope st, st_svc st, peerSvcScope st with
  | None, None, None, None => es = [st_peerScope st; rm_transient r; rm_system r]
  | Some pr, Some pps, None, None =>
      (exists n, kd pr = KProto n /\ kd pps = KProtoPeer n (st_peer st)) /\
      es = [st_peerScope st; pps; pr; rm_system r]
  | Some pr, Some pps, Some sv, Some pss =>
      (exists n, kd pr = KProto n /\ kd pps = KProtoPeer n (st_peer st)) /\
      (exists n, kd sv = KSvc n /\ kd pss = KSvcPeer n (st_peer st)) /\
      es = [st_peerScope st; pps; pss; pr; sv; rm_system r]
  | _, _, _, _ => False
  end.

(** What a scope of a role looks like; an open one is the one that is
    registered under its name. *)
Definition shape (k : nat) (y : resourceScope) : Prop :=
  match kd k with
  | KSystem => k = rm_system r /\ edges y = []
  | KTransient => k = rm_transient r /\ edges y = [rm_system r]
  | KAllowSystem => k = allowlistedSystem r /\ edges y = []
  | KAllowTransient => k = allowlistedTransient r /\ edges y = [allowlistedSystem r]
  | KPeer p => edges y = [rm_system r] /\ (done y = false -> rm_peer r !! p = Some k)
  | KProto n => edges y = [rm_system r] /\ (done y = false -> ns_scope <$> rm_proto r !! n = Some k)
  | KSvc n => edges y = [rm_system r] /\ (done y = false -> ns_scope <$> rm_svc r !! n = Some k)
  | KProtoPeer _ _ | KSvcPeer _ _ => edges y = []
  | KConn => exists cn, rm_conns r !! k = Some cn /\ (done y = false -> conn_edges cn (edges y))
  | KStream => exists st, rm_streams r !! k = Some st /\ (done y = false -> stream_edges st (edges y))
  | KSpan => is_Some (owner y)
  end.

(** A map of services or protocols, with the roles of its entries. *)
Definition named_ok (m : gmap string namedScope) (whole : string -> role) (part : string -> string -> role) : Prop :=
  forall n ns, m !! n = Some ns ->
    kd (ns_scope ns) = whole n /\ forall p q, ns_peers ns !! p = Some q -> kd q = part n p.
End shapes.

(** The addresses that the open connections are counted under. *)
Definition open_map (r : resourceManager) : gmap nat addr :=
  map_imap (fun k cn => if is_live (rm_heap r) k then cn_ip cn else None) (rm_conns r).
Definition open_ips (r : resourceManager) : list addr := (map_to_list (open_map r)).*2.

(** What the manager has registered has the role of its place. *)
Record registered (r : resourceManager) (kd : roles) : Prop := {
  rg_fixed : kd (rm_system r) = KSystem /\ kd (rm_transient r) = KTransient /\
    kd (allowlistedSystem r) = KAllowSystem /\ kd (allowlistedTransient r) = KAllowTransient;
  rg_peers : forall p k, rm_peer r !! p = Some k -> kd k = KPeer p;
  rg_protos : named_ok kd (rm_proto r) KProto KProtoPeer;
  rg_svcs : named_ok kd (rm_svc r) KSvc KSvcPeer;
  rg_conns : forall k cn, rm_conns r !! k = Some cn -> kd k = KConn;
  rg_streams : forall k st, rm_streams r !! k = Some st -> kd k = KStream;
}.

Record ok (r : resourceManager) (held : holdings) (kd : roles) : Prop := {
  ok_acc : accounts (rm_heap r) held;
  ok_shape : forall k y, scopes (rm_heap r) !! k = Some y ->
    shape r kd k y /\ (kd k <> KSpan -> owner y = None);
  ok_fresh : forall k, scopes (rm_heap r) !! k = None -> kd k = KSpan;
  ok_reg : registered r kd;
  ok_live : forall p k, rm_peer r !! p = Some k -> is_live (rm_heap r) k = true;
}.

(** ** Consequences *)

Section facts.
Context (r : resourceManager) (held : holdings) (kd : roles) (Hok : ok r held kd).

Lemma ok_wf : heap_wf (rm_heap r).
Proof. apply (ac_wf _ _ (ok_acc _ _ _ Hok)). Qed.

(** A scope with a role is allocated. *)
Lemma ok_exists k : kd k <> KSpan -> exists y, scopes (rm_heap r) !! k = Some y /\ owner y = None.
Proof.
  intros Hk. destruct (scopes (rm_heap r) !! k) as [y|] eqn:Hy.
  - exists y. split; [done|]. by apply (ok_shape _ _ _ Hok k y Hy).
  - by destruct Hk; apply (ok_fresh _ _ _ Hok).
Qed.

Lemma ok_alloc k : kd k <> KSpan -> is_Some (scopes (rm_heap r) !! k).
Proof. intros Hk. destruct (ok_exists k Hk) as (y & -> & _). by eexists. Qed.

Lemma ok_next : kd (next (rm_heap r)) = KSpan.
Proof.
  apply (ok_fresh _ _ _ Hok). destruct (scopes (rm_heap r) !! next (rm_heap r)) as [y|] eqn:Hy; [|done].
  pose proof (sw_next _ _ _ (ok_wf _ _ Hy)). lia.
Qed.

(** The kind of a fixed scope, and of the scopes of a stream. *)
Lemma stream_roles st es :
  stream_edges r kd st es ->
  kd (st_peerScope st) = KPeer (st_peer st) /\
  forall q n p, q ∈ es -> (kd q = KProtoPeer n p \/ kd q = KSvcPeer n p) ->
    st_peer st = p /\ rm_peer r !! p = Some (st_peerScope st).
Proof.
  intros [Hp Hes]. destruct (rg_fixed _ _ (ok_reg _ _ _ Hok)) as (F1 & F2 & _).
  pose proof (rg_peers _ _ (ok_reg _ _ _ Hok) _ _ Hp) as Hk. split; [done|].
  intros q n p Hq Hkq. destruct (st_proto st), (peerProtoScope st), (st_svc st), (peerSvcScope st);
    try done; [destruct Hes as [(m1 & E1 & E2) [(m2 & E3 & E4) ->]]|destruct Hes as [(m1 & E1 & E2) ->]|subst es];
    repeat (apply elem_of_cons in Hq as [->|Hq]); try (by apply elem_of_nil in Hq);
    destruct Hkq as [Hkq|Hkq]; try congruence;
    (assert (st_peer st = p) as <- by congruence); by split.
Qed.

(** The edges of an open scope lead to nodes; only a stream has the scopes of a
    peer within a service or protocol among them. *)
Lemma edges_nodes k y :
  scopes (rm_heap r) !! k = Some y -> done y = false ->
  Forall (fun e => is_node (kd e) = true) (edges y) /\
  forall q n p, q ∈ edges y -> (kd q = KProtoPeer n p \/ kd q = KSvcPeer n p) ->
    exists ps, rm_peer r !! p = Some ps /\ ps ∈ edges y.
Proof.
  intros Hk Hd. destruct (ok_shape _ _ _ Hok k y Hk) as [Hsh _].
  destruct (rg_fixed _ _ (ok_reg _ _ _ Hok)) as (F1 & F2 & F3 & F4). unfold shape in Hsh.
  assert (forall l, edges y = l -> Forall (fun e => is_node (kd e) = true /\
    forall n p, kd e <> KProtoPeer n p /\ kd e <> KSvcPeer n p) l ->
    Forall (fun e => is_node (kd e) = true) (edges y) /\
    forall q n p, q ∈ edges y -> (kd q = KProtoPeer n p \/ kd q = KSvcPeer n p) ->
    exists ps, rm_peer r !! p = Some ps /\ ps ∈ edges y) as Hl.
  { intros l -> Hall. split; [eapply Forall_impl; [exact Hall|]; by intros ? []|].
    intros q n p Hq Hkq. destruct (proj1 (Forall_forall _ _) Hall q Hq) as [_ Hno].
    destruct (Hno n p), Hkq; done. }
  assert (forall e κ, kd e = κ -> is_node κ = true -> (forall n p, κ <> KProtoPeer n p /\ κ <> KSvcPeer n p) ->
    is_node (kd e) = true /\ forall n p, kd e <> KProtoPeer n p /\ kd e <> KSvcPeer n p) as Hn
    by (by intros e κ ->).
  destruct (kd k) eqn:Hkd.
  - apply (Hl []); [apply Hsh|apply Forall_nil_2].
  - apply (Hl [rm_system r]); [apply Hsh|]. apply Forall_singleton; by apply (Hn _ _ F1).
  - apply (Hl []); [apply Hsh|apply Forall_nil_2].
  - apply (Hl [allowlistedSystem r]); [apply Hsh|]. apply Forall_singleton; by apply (Hn _ _ F3).
  - apply (Hl [rm_system r]); [apply Hsh|]. apply Forall_singleton; by apply (Hn _ _ F1).
  - apply (Hl [rm_system r]); [apply Hsh|]. apply Forall_singleton; by apply (Hn _ _ F1).
  - apply (Hl [rm_system r]); [apply Hsh|]. apply Forall_singleton; by apply (Hn _ _ F1).
  - apply (Hl []); [apply Hsh|apply Forall_nil_2].
  - apply (Hl []); [apply Hsh|apply Forall_nil_2].
  - destruct Hsh as (cn & _ & Hes). specialize (Hes Hd). unfold conn_edges in Hes.
    destruct (cn_peer cn) as [peer|]; [destruct Hes as [[p Hp] [Hes|Hes]]|
      destruct (isAllowlisted cn); [|destruct Hes as [Hes|[Hes|Hes]]]]; apply (Hl _ Hes);
      repeat (apply Forall_cons; split); try apply Forall_nil_2; (eapply Hn; [eassumption|done|done]).
  - destruct Hsh as (st & _ & Hes). specialize (Hes Hd).
    destruct (stream_roles st (edges y) Hes) as [Hps Hsub]. destruct Hes as [Hp Hes]. split.
    + destruct (st_proto st), (peerProtoScope st), (st_svc st), (peerSvcScope st);
        try done; [destruct Hes as [(m1 & E1 & E2) [(m2 & E3 & E4) ->]]|destruct Hes as [(m1 & E1 & E2) ->]|rewrite Hes];
        repeat (apply Forall_cons; split); try apply Forall_nil_2;
        rewrite ?F1, ?F2, ?Hps, ?E1, ?E2, ?E3, ?E4; done.
    + intros q n p Hq Hkq. destruct (Hsub q n p Hq Hkq) as [_ Hreg]. exists (st_peerScope st).
      split; [done|]. destruct (st_proto st), (peerProtoScope st), (st_svc st), (peerSvcScope st);
        try done; [destruct Hes as [_ [_ ->]]|destruct Hes as [_ ->]|rewrite Hes]; apply list_elem_of_here.
  - destruct Hsh as [o Ho]. apply (Hl []); [|done]. by apply (sw_owner _ _ _ (ok_wf _ _ Hk) o Ho).
Qed.

(** A connection, a stream or a span constrains nothing. *)
Lemma ok_leaf s :
  is_node (kd s) = false -> forall k y, scopes (rm_heap r) !! k = Some y -> done y = false -> s ∉ edges y.
Proof.
  intros Hs k y Hk Hd Hin. destruct (edges_nodes k y Hk Hd) as [Hall _].
  by rewrite (proj1 (Forall_forall _ _) Hall s Hin) in Hs.
Qed.

(** Nor does a scope to which there are no references. *)
Lemma unused_leaf s sc :
  scopes (rm_heap r) !! s = Some sc -> done sc = false -> refCnt sc <= 0 ->
  forall k y, scopes (rm_heap r) !! k = Some y -> done y = false -> s ∉ edges y.
Proof.
  intros Hs Hd Hrc k y Hk Hdy Hin. pose proof (ac_refs _ _ (ok_acc _ _ _ Hok) s sc Hs Hd) as Hr.
  assert (0 < refs (rm_heap r) s); [|lia]. unfold refs.
  pose proof (msum_ge (refs_from s) (scopes (rm_heap r)) k y) as Hge.
  rewrite (ltac:(unfold refs_from; by rewrite Hdy, (bool_decide_eq_true_2 (s ∈ edges y)), orb_true_r by done) :
    refs_from s k y = 1) in Hge.
  enough (1 <= msum (refs_from s) (scopes (rm_heap r))) by lia. apply Hge; [|done].
  intros j z _. unfold refs_from. by destruct (_ && _).
Qed.

(** The scope of a peer that is not known any more, within a service or protocol. *)
Lemma part_leaf q n p :
  (kd q = KProtoPeer n p \/ kd q = KSvcPeer n p) -> rm_peer r !! p = None ->
  forall k y, scopes (rm_heap r) !! k = Some y -> done y = false -> q ∉ edges y.
Proof.
  intros Hq Hp k y Hk Hd Hin. destruct (edges_nodes k y Hk Hd) as [_ Hsub].
  destruct (Hsub q n p Hin Hq) as (ps & Hps & _). congruence.
Qed.
End facts.

(** ** Managers that grow *)

Record grows (r r' : resourceManager) (kd kd' : roles) : Prop := {
  gr_system : rm_system r' = rm_system r;
  gr_transient : rm_transient r' = rm_transient r;
  gr_asystem : allowlistedSystem r' = allowlistedSystem r;
  gr_atransient : allowlistedTransient r' = allowlistedTransient r;
  gr_peer : forall p k, rm_peer r !! p = Some k -> rm_peer r' !! p = Some k;
  gr_proto : forall n k, ns_scope <$> rm_proto r !! n = Some k -> ns_scope <$> rm_proto r' !! n = Some k;
  gr_svc : forall n k, ns_scope <$> rm_svc r !! n = Some k -> ns_scope <$> rm_svc r' !! n = Some k;
  gr_conns : forall k cn, rm_conns r !! k = Some cn -> rm_conns r' !! k = Some cn;
  gr_streams : forall k st, rm_streams r !! k = Some st -> rm_streams r' !! k = Some st;
  gr_roles : forall k, kd k <> KSpan -> kd' k = kd k;
}.

Lemma grows_refl r kd : grows r r kd kd.
Proof. by split. Qed.

Lemma grows_trans r1 r2 r3 kd1 kd2 kd3 :
  grows r1 r2 kd1 kd2 -> grows r2 r3 kd2 kd3 -> grows r1 r3 kd1 kd3.
Proof.
  intros [A1 A2 A3 A4 A5 A6 A7 A8 A9 A10] [B1 B2 B3 B4 B5 B6 B7 B8 B9 B10]. split; try congruence; auto.
  intros k Hk. rewrite <- (A10 k Hk). apply B10. by rewrite (A10 k Hk).
Qed.

Lemma conn_edges_grow r r' kd kd' cn es :
  grows r r' kd kd' -> conn_edges r kd cn es -> conn_edges r' kd' cn es.
Proof.
  intros Hg. unfold conn_edges.
  rewrite (gr_system _ _ _ _ Hg), (gr_transient _ _ _ _ Hg), (gr_asystem _ _ _ _ Hg), (gr_atransient _ _ _ _ Hg).
  destruct (cn_peer cn) as [peer|]; [|done]. intros [[p Hp] H]. split; [|done]. exists p.
  rewrite <- Hp. apply (gr_roles _ _ _ _ Hg). congruence.
Qed.

Lemma stream_edges_grow r r' kd kd' st es :
  grows r r' kd kd' -> stream_edges r kd st es -> stream_edges r' kd' st es.
Proof.
  intros Hg [Hp H]. split; [by apply (gr_peer _ _ _ _ Hg)|].
  rewrite (gr_system _ _ _ _ Hg), (gr_transient _ _ _ _ Hg).
  assert (forall k κ, κ <> KSpan -> kd k = κ -> kd' k = κ) as Hr
    by (intros k κ Hκ <-; by apply (gr_roles _ _ _ _ Hg)).
  destruct (st_proto st), (peerProtoScope st), (st_svc st), (peerSvcScope st); try done.
  - destruct H as [(m1 & E1 & E2) [(m2 & E3 & E4) H]].
    split; [exists m1; split; by apply Hr|split; [|done]]. exists m2; split; by apply Hr.
  - destruct H as [(m1 & E1 & E2) H]. split; [|done]. exists m1; split; by apply Hr.
Qed.

Lemma shape_grow r r' kd kd' k y y' :
  grows r r' kd kd' -> kd' k = kd k -> owner y' = owner y -> edges y' = edges y ->
  (owner y = None -> done y' = false -> done y = false) -> (kd k <> KSpan -> owner y = None) ->
  shape r kd k y -> shape r' kd' k y'.
Proof.
  intros Hg Hk Ho He Hd Hnone. unfold shape. rewrite Hk, He.
  rewrite (gr_system _ _ _ _ Hg), (gr_transient _ _ _ _ Hg), (gr_asystem _ _ _ _ Hg), (gr_atransient _ _ _ _ Hg).
  destruct (kd k); try done; try specialize (Hnone ltac:(done)).
  - intros [H1 H2]. split; [done|]. intros Hd'. by apply (gr_peer _ _ _ _ Hg), H2, Hd.
  - intros [H1 H2]. split; [done|]. intros Hd'. by apply (gr_proto _ _ _ _ Hg), H2, Hd.
  - intros [H1 H2]. split; [done|]. intros Hd'. by apply (gr_svc _ _ _ _ Hg), H2, Hd.
  - intros (cn & H1 & H2). exists cn. split; [by apply (gr_conns _ _ _ _ Hg)|].
    intros Hd'. by eapply conn_edges_grow, H2, Hd.
  - intros (st & H1 & H2). exists st. split; [by apply (gr_streams _ _ _ _ Hg)|].
    intros Hd'. by eapply stream_edges_grow, H2, Hd.
  - by rewrite Ho.
Qed.

(** The same nodes, some of them closed, with other counters, and new spans. *)
Definition same_node (y y' : resourceScope) : Prop :=
  owner y' = owner y /\ edges y' = edges y /\ (owner y = None -> done y' = false -> done y = false).

Record evolves (h h' : heap) : Prop := {
  ev_old : forall k y, scopes h !! k = Some y -> exists y', scopes h' !! k = Some y' /\ same_node y y';
  ev_new : forall k y', scopes h' !! k = Some y' -> scopes h !! k = None -> is_Some (owner y');
}.

Lemma ok_heap r held held' kd h' :
  ok r held kd -> accounts h' held' -> evolves (rm_heap r) h' ->
  (forall p k, rm_peer r !! p = Some k -> is_live h' k = is_live (rm_heap r) k) ->
  ok (r <| rm_heap := h' |>) held' kd.
Proof.
  intros Hok Hac [Hold Hnew] Hlive. pose proof Hok as [_ Hsh Hfr Hreg Hl]. split; [done| | |by destruct Hreg|].
  3: { intros p k Hp. rewrite <- (Hl p k Hp). by apply (Hlive p). }
  - intros k y' Hk. cbn in Hk. destruct (scopes (rm_heap r) !! k) as [y|] eqn:Hy.
    + destruct (Hold k y Hy) as (z & Hz & Ho & He & Hd). rewrite Hk in Hz. injection Hz as <-.
      destruct (Hsh k y Hy) as [Hs Hn]. split; [|rewrite Ho; done].
      apply (shape_grow r _ kd _ k y); done.
    + pose proof (Hnew k y' Hk Hy) as Hspan. pose proof (Hfr k Hy) as Hkd. split; [|by rewrite Hkd].
      unfold shape. by rewrite Hkd.
  - intros k Hk. apply Hfr. cbn in Hk. destruct (scopes (rm_heap r) !! k) as [y|] eqn:Hy; [|done].
    destruct (Hold k y Hy) as (z & Hz & _). congruence.
Qed.

Lemma evolves_upd F h : (forall k y, scopes h !! k = Some y -> same_node y (F k y)) -> evolves h (upd F h).
Proof.
  intros HF. split.
  - intros k y Hk. exists (F k y). rewrite lookup_upd, Hk. split; [done|by apply HF].
  - intros k y'. rewrite lookup_upd. intros Hk Hn. by rewrite Hn in Hk.
Qed.

Lemma evolves_refl h : evolves h h.
Proof. split; [intros k y Hk; by exists y|intros k y'; congruence]. Qed.

Lemma like_same_node y y' : like y y' -> same_node y y'.
Proof. intros (H1 & H2 & H3). split_and!; congruence. Qed.

Lemma heap_set r h : rm_heap (r <| rm_heap := h |>) = h.
Proof. done. Qed.

(** ** References *)

Lemma refs_like F h p : (forall k y, scopes h !! k = Some y -> like y (F k y)) -> refs (upd F h) p = refs h p.
Proof.
  intros HF. symmetry. apply msum_rel. intros k. rewrite lookup_upd.
  destruct (scopes h !! k) as [y|] eqn:Hk; [|done]. cbn. unfold refs_from.
  by destruct (HF k y Hk) as (-> & -> & ->).
Qed.

Lemma at_refs_like e n k y : like y (at_scope e (more_refs n) k y).
Proof. apply like_at, like_refs. Qed.

Lemma is_live_upd F h k : (forall y, scopes h !! k = Some y -> done (F k y) = done y) -> is_live (upd F h) k = is_live h k.
Proof.
  intros HF. unfold is_live. rewrite lookup_upd. destruct (scopes h !! k) as [y|] eqn:Hk; [|done].
  cbn. by rewrite HF.
Qed.

(** One more reference. *)
Lemma ok_incref r held kd s :
  ok r held kd ->
  let r' := r <| rm_heap := upd (at_scope s (more_refs 1)) (rm_heap r) |> in
  ok r' held kd /\ kept (rm_heap r') s /\ forall k, kept (rm_heap r) k -> kept (rm_heap r') k.
Proof.
  intros Hok r'. pose proof (ok_acc _ _ _ Hok) as Hac.
  assert (forall p, refs (rm_heap r') p = refs (rm_heap r) p) as Hrefs
    by (intros p; apply refs_like; intros; apply at_refs_like).
  split; [|split].
  - apply (ok_heap r held); [done| |apply evolves_upd; intros k y _; apply like_same_node, at_refs_like|];
      [|intros p k _; apply is_live_upd; intros y _; by destruct (at_refs_like s 1 k y)].
    rewrite <- on_refs_upd. apply accounts_on_refs; [|done]. intros sc Hs Hd.
    pose proof (ac_refs _ _ Hac s sc Hs Hd). lia.
  - intros y Hy Hd. rewrite Hrefs. cbn in Hy. rewrite map_lookup_imap in Hy.
    destruct (scopes (rm_heap r) !! s) as [z|] eqn:Hz; [|done]. cbn in Hy. injection Hy as <-.
    unfold at_scope in *. rewrite decide_True in * by done. cbn in *.
    pose proof (ac_refs _ _ Hac s z Hz Hd). lia.
  - intros k Hkept y Hy Hd. rewrite Hrefs. cbn in Hy. rewrite map_lookup_imap in Hy.
    destruct (scopes (rm_heap r) !! k) as [z|] eqn:Hz; [|done]. cbn in Hy. injection Hy as <-.
    destruct (at_refs_like s 1 k z) as (Hdz & _). rewrite Hdz in Hd. specialize (Hkept z Hz Hd).
    unfold at_scope. destruct (decide (k = s)); cbn; lia.
Qed.

(** A kept reference is given back. *)
Lemma ok_decref r held kd s :
  ok r held kd -> kept (rm_heap r) s ->
  ok (r <| rm_heap := upd (at_scope s (more_refs (-1))) (rm_heap r) |>) held kd.
Proof.
  intros Hok Hkept. apply (ok_heap r held); [done| |apply evolves_upd; intros k y _; apply like_same_node, at_refs_like|];
    [|intros p k _; apply is_live_upd; intros y _; by destruct (at_refs_like s (-1) k y)].
  rewrite <- on_refs_upd. apply accounts_on_refs; [|apply (ok_acc _ _ _ Hok)]. intros sc Hs Hd.
  specialize (Hkept sc Hs Hd). lia.
Qed.

Lemma kept_decref h s k :
  k <> s -> kept h k -> kept (upd (at_scope s (more_refs (-1))) h) k.
Proof.
  intros Hk Hkept y Hy Hd. rewrite refs_like by (intros; apply at_refs_like).
  rewrite lookup_upd in Hy. destruct (scopes h !! k) as [z|] eqn:Hz; [|done]. cbn in Hy. injection Hy as <-.
  unfold at_scope in *. rewrite decide_False in * by done. by apply Hkept.
Qed.

(** ** Closing a node *)

Definition closed (h : heap) (held : holdings) (s : nat) : holdings :=
  if is_live h s then hclear held s else held.

Lemma node_done r held kd s :
  ok r held kd -> kd s <> KSpan ->
  (forall k y, scopes (rm_heap r) !! k = Some y -> done y = false -> s ∉ edges y) ->
  exists h', Done s (rm_heap r) = Ok ((), h') /\ accounts h' (closed (rm_heap r) held s) /\
    evolves (rm_heap r) h' /\
    is_live h' s = false /\ forall k, k <> s -> is_live h' k = is_live (rm_heap r) k.
Proof.
  intros Hok Hs Hleaf. destruct (ok_exists r held kd Hok s Hs) as (sc & Hsc & Hnone).
  pose proof (ok_acc _ _ _ Hok) as Hac. set (h := rm_heap r) in *.
  destruct (accounts_done h held s Hac ltac:(by eexists) Hleaf) as (h' & Hrun & Hl & Hac').
  exists h'. split; [done|]. unfold closed. destruct (done sc) eqn:Hd.
  - assert (h' = h) as ->.
    { revert Hrun. unfold Done, doneUnlocked, bind at 1, getScope, deref. rewrite Hsc, Hd.
      unfold ret. by intros [= ->]. }
    split; [done|split; [apply evolves_refl|done]].
  - destruct (Done_dag_run h held s sc Hac Hsc Hd Hnone) as (h1 & Hrun1 & Hn & Hlk).
    rewrite Hrun in Hrun1. apply Ok_inj in Hrun1 as [_ <-]. unfold dag_done in Hlk.
    assert (forall k, k <> s -> is_live h' k = is_live h k) as Hlive.
    { intros k Hk. unfold is_live. rewrite Hlk. destruct (scopes h !! k) as [y|]; [|done]. cbn.
      rewrite decide_False by done. case_bool_decide; [|done].
      by destruct (drop_child_shape (stat_op (stat (rc sc))) y) as (-> & _). }
    split; [done|split; [|by split]]. split.
    + intros k y Hk. fold h in Hk. rewrite Hlk, Hk. cbn. eexists. split; [reflexivity|].
      destruct (decide (k = s)) as [->|Hks].
      * split; [done|split; [done|]]. cbn. done.
      * case_bool_decide; [|done]. destruct (drop_child_shape (stat_op (stat (rc sc))) y) as (H1 & H2 & H3).
        split; [done|split; [done|congruence]].
    + intros k y' Hk Hn'. fold h in Hn'. by rewrite Hlk, Hn' in Hk.
Qed.

Lemma ok_done r held kd s :
  ok r held kd -> kd s <> KSpan -> (forall p, kd s <> KPeer p) ->
  (forall k y, scopes (rm_heap r) !! k = Some y -> done y = false -> s ∉ edges y) ->
  exists h', Done s (rm_heap r) = Ok ((), h') /\ ok (r <| rm_heap := h' |>) (closed (rm_heap r) held s) kd /\
    is_live h' s = false /\ forall k, k <> s -> is_live h' k = is_live (rm_heap r) k.
Proof.
  intros Hok Hs Hnp Hleaf. destruct (node_done r held kd s Hok Hs Hleaf) as (h' & Hrun & Hac & Hev & Hd & Hl).
  exists h'. split; [done|split; [|done]]. apply (ok_heap r held); [done..|]. intros p k Hp. apply Hl.
  intros ->. apply (Hnp p), (rg_peers _ _ (ok_reg _ _ _ Hok) _ _ Hp).
Qed.

(** ** New nodes *)

Definition set_role (k : nat) (κ : role) (kd : roles) : roles := fun j => if decide (j = k) then κ else kd j.

Lemma set_role_new k κ kd : set_role k κ kd k = κ.
Proof. unfold set_role. by rewrite decide_True. Qed.

Lemma set_role_old k κ kd j : kd k = KSpan -> kd j <> KSpan -> set_role k κ kd j = kd j.
Proof. intros Hk Hj. unfold set_role. rewrite decide_False; [done|]. by intros ->. Qed.

(** What a call that makes scopes leaves alone. *)
Record after (r r' : resourceManager) (kd kd' : roles) : Prop := {
  af_grows : grows r r' kd kd';
  af_limiter : rm_connLimiter r' = rm_connLimiter r;
  af_like : forall k y, scopes (rm_heap r) !! k = Some y ->
    exists y', scopes (rm_heap r') !! k = Some y' /\ like y y' /\ rc y' = rc y /\ sname y' = sname y;
  af_kept : forall k, kd k <> KSpan -> kept (rm_heap r) k -> kept (rm_heap r') k;
}.

Lemma after_trans r1 r2 r3 kd1 kd2 kd3 :
  after r1 r2 kd1 kd2 -> after r2 r3 kd2 kd3 -> after r1 r3 kd1 kd3.
Proof.
  intros [A1 A3 A4 A5] [B1 B3 B4 B5]. split.
  - by eapply grows_trans.
  - congruence.
  - intros k y Hk. destruct (A4 k y Hk) as (y1 & H1 & L1 & R1 & N1).
    destruct (B4 k y1 H1) as (y2 & H2 & L2 & R2 & N2).
    exists y2. split; [done|split; [by transitivity y1|split; congruence]].
  - intros k Hk Hkept. apply B5; [by rewrite (gr_roles _ _ _ _ A1 k Hk)|by apply A5].
Qed.

Lemma after_incref r kd s :
  after r (r <| rm_heap := upd (at_scope s (more_refs 1)) (rm_heap r) |>) kd kd.
Proof.
  split; [by split|done| |].
  - intros k y Hk. exists (at_scope s (more_refs 1) k y). cbn. rewrite map_lookup_imap, Hk.
    split; [done|split; [apply at_refs_like|]]. unfold at_scope. by destruct (decide _).
  - intros k _ Hkept y Hy Hd. rewrite heap_set in *. rewrite refs_like by (intros; apply at_refs_like).
    rewrite lookup_upd in Hy. destruct (scopes (rm_heap r) !! k) as [z|] eqn:Hz; [|done].
    cbn in Hy. injection Hy as <-. destruct (at_refs_like s 1 k z) as (Hdz & _). rewrite Hdz in Hd.
    specialize (Hkept z Hz Hd). unfold at_scope. destruct (decide (k = s)); cbn; lia.
Qed.

Section new_node.
Context (r : resourceManager) (held : holdings) (kd : roles) (κ : role).
Context (limit : Limit) (es : list nat) (name : string).
Context (Hok : ok r held kd) (Hlim : limit_ok limit) (Hnd : NoDup es).
Context (Hes : forall e, e ∈ es -> kd e <> KSpan) (Hκ : κ <> KSpan).

Let k0 := next (rm_heap r).
Let kd' := set_role k0 κ kd.
Let fresh := mkScope false 0 0 (fresh_resources limit) None es name.

Let incref_edges (k : nat) (y : resourceScope) : resourceScope :=
  if bool_decide (k ∈ es) then more_refs 1 y else y.
Let with_new : heap := mkHeap (<[k0 := fresh]> (scopes (upd incref_edges (rm_heap r)))) (S k0).

Lemma new_node_run :
  newResourceScope limit es name (rm_heap r) = Ok (k0, with_new) /\ accounts with_new held.
Proof using Hok Hlim Hnd Hes.
  pose proof (ok_acc _ _ _ Hok) as Hac.
  destruct (accounts_new_scope (rm_heap r) held limit es name Hac Hlim Hnd) as (h' & Hrun & Hac' & Hnew & Hn & Hlk).
  { intros e He. by apply (ok_exists r held kd Hok), Hes. }
  enough (h' = with_new) as -> by done. apply heap_ext; [done|]. apply map_eq. intros k. cbn [scopes with_new].
  destruct (decide (k = k0)) as [->|Hk]; [by rewrite lookup_insert_eq|].
  rewrite lookup_insert_ne, lookup_upd by done. destruct (decide (k < next (rm_heap r))%nat) as [Hlt|Hge].
  - rewrite (Hlk k Hlt). by destruct (scopes (rm_heap r) !! k).
  - destruct (scopes h' !! k) as [y|] eqn:Hy.
    + pose proof (sw_next _ _ _ (ac_wf _ _ Hac' k y Hy)). unfold k0 in Hk. lia.
    + destruct (scopes (rm_heap r) !! k) as [y|] eqn:Hy'; [|done].
      pose proof (sw_next _ _ _ (ac_wf _ _ Hac k y Hy')). lia.
Qed.

Lemma lookup_with_new k y :
  scopes (rm_heap r) !! k = Some y -> scopes with_new !! k = Some (incref_edges k y).
Proof using Hok.
  intros Hk. pose proof (sw_next _ _ _ (ok_wf r held kd Hok k y Hk)). cbn [scopes with_new].
  rewrite lookup_insert_ne, lookup_upd, Hk by (unfold k0; lia). done.
Qed.

Lemma incref_edges_like k y : like y (incref_edges k y).
Proof. unfold incref_edges. by destruct (bool_decide _). Qed.

Lemma refs_with_new k : kd k <> KSpan ->
  refs with_new k = refs (rm_heap r) k + (if bool_decide (k ∈ es) then 1 else 0).
Proof using Hok.
  intros Hk. unfold refs. cbn [scopes with_new]. rewrite msum_insert.
  - change (msum (refs_from k) (scopes (upd incref_edges (rm_heap r)))) with (refs (upd incref_edges (rm_heap r)) k).
    rewrite refs_like by (intros; apply incref_edges_like). unfold refs_from at 1. cbn.
    rewrite (bool_decide_eq_false_2 (None = Some k)) by done. unfold refs.
    destruct (bool_decide (k ∈ es)); cbn; lia.
  - rewrite lookup_upd. destruct (scopes (rm_heap r) !! k0) as [y|] eqn:Hy; [|done].
    pose proof (sw_next _ _ _ (ok_wf r held kd Hok k0 y Hy)). unfold k0 in *. lia.
Qed.

(** The node is part of the manager once it is registered in its role. *)
Lemma ok_new r' :
  rm_heap r' = with_new -> rm_connLimiter r' = rm_connLimiter r -> grows r r' kd kd' ->
  shape r' kd' k0 fresh -> registered r' kd' ->
  (forall p k, rm_peer r' !! p = Some k -> rm_peer r !! p = Some k \/ k = k0) ->
  ok r' held kd' /\ after r r' kd kd'.
Proof using Hok Hlim Hnd Hes Hκ.
  intros Hh Hcl Hg Hsh Hreg Hpeers. destruct new_node_run as [_ Hac]. pose proof (ok_next r held kd Hok) as Hnext.
  fold k0 in Hnext. split; [split|split].
  - by rewrite Hh.
  - intros k y' Hk. rewrite Hh in Hk. destruct (decide (k = k0)) as [->|Hne].
    + cbn in Hk. rewrite lookup_insert_eq in Hk. injection Hk as <-. by split.
    + destruct (scopes (rm_heap r) !! k) as [y|] eqn:Hy.
      * rewrite (lookup_with_new k y Hy) in Hk. injection Hk as <-.
        destruct (ok_shape _ _ _ Hok k y Hy) as [Hs Hn].
        assert (kd' k = kd k) as Hkd by (unfold kd', set_role; by rewrite decide_False).
        destruct (incref_edges_like k y) as (L1 & L2 & L3). rewrite L2. split; [|by rewrite Hkd].
        eapply shape_grow; try done. by rewrite L1.
      * cbn in Hk. rewrite lookup_insert_ne in Hk by done. rewrite map_lookup_imap, Hy in Hk. done.
  - intros k Hk. rewrite Hh in Hk. unfold kd', set_role. destruct (decide (k = k0)) as [->|Hne].
    + cbn in Hk. by rewrite lookup_insert_eq in Hk.
    + apply (ok_fresh _ _ _ Hok). destruct (scopes (rm_heap r) !! k) as [y|] eqn:Hy; [|done].
      by rewrite (lookup_with_new k y Hy) in Hk.
  - done.
  - intros p k Hp. rewrite Hh. destruct (Hpeers p k Hp) as [Hold| ->].
    + pose proof (ok_live _ _ _ Hok p k Hold) as Hl. unfold is_live in *.
      destruct (scopes (rm_heap r) !! k) as [y|] eqn:Hy; [|done]. rewrite (lookup_with_new k y Hy).
      by destruct (incref_edges_like k y) as (-> & _).
    + unfold is_live. cbn. by rewrite lookup_insert_eq.
  - done.
  - done.
  - intros k y Hk. exists (incref_edges k y). rewrite Hh. split; [by apply lookup_with_new|].
    split; [apply incref_edges_like|]. unfold incref_edges. by destruct (bool_decide _).
  - intros k Hk Hkept y' Hy' Hd. rewrite Hh in *. destruct (ok_exists r held kd Hok k Hk) as (y & Hy & _).
    rewrite (lookup_with_new k y Hy) in Hy'. injection Hy' as <-.
    destruct (incref_edges_like k y) as (L1 & _). rewrite L1 in Hd. specialize (Hkept y Hy Hd).
    rewrite refs_with_new by done. unfold incref_edges. destruct (bool_decide (k ∈ es)); cbn; lia.
Qed.
End new_node.

(** ** Registering *)

Lemma registered_mono r r' kd kd' :
  registered r kd -> grows r r' kd kd' ->
  (forall p k, rm_peer r' !! p = Some k -> rm_peer r !! p = Some k \/ kd' k = KPeer p) ->
  (forall n ns, rm_proto r' !! n = Some ns -> rm_proto r !! n = Some ns \/
     (kd' (ns_scope ns) = KProto n /\ forall p q, ns_peers ns !! p = Some q -> kd' q = KProtoPeer n p)) ->
  (forall n ns, rm_svc r' !! n = Some ns -> rm_svc r !! n = Some ns \/
     (kd' (ns_scope ns) = KSvc n /\ forall p q, ns_peers ns !! p = Some q -> kd' q = KSvcPeer n p)) ->
  (forall k cn, rm_conns r' !! k = Some cn -> is_Some (rm_conns r !! k) \/ kd' k = KConn) ->
  (forall k st, rm_streams r' !! k = Some st -> is_Some (rm_streams r !! k) \/ kd' k = KStream) ->
  registered r' kd'.
Proof.
  intros [(F1 & F2 & F3 & F4) Hp Hpr Hsv Hcn Hst] Hg Hp' Hpr' Hsv' Hcn' Hst'.
  assert (forall k κ, κ <> KSpan -> kd k = κ -> kd' k = κ) as Hr
    by (intros k κ Hκ <-; by apply (gr_roles _ _ _ _ Hg)).
  split.
  - rewrite (gr_system _ _ _ _ Hg), (gr_transient _ _ _ _ Hg), (gr_asystem _ _ _ _ Hg), (gr_atransient _ _ _ _ Hg).
    split_and!; by apply Hr.
  - intros p k Hk. destruct (Hp' p k Hk) as [Hold|]; [|done]. by apply Hr, Hp.
  - intros n ns Hn. destruct (Hpr' n ns Hn) as [Hold|]; [|done]. destruct (Hpr n ns Hold) as [E1 E2].
    split; [by apply Hr|]. intros p q Hq. by apply Hr, E2.
  - intros n ns Hn. destruct (Hsv' n ns Hn) as [Hold|]; [|done]. destruct (Hsv n ns Hold) as [E1 E2].
    split; [by apply Hr|]. intros p q Hq. by apply Hr, E2.
  - intros k cn Hk. destruct (Hcn' k cn Hk) as [[cn0 Hold]|]; [|done]. by eapply Hr, Hcn.
  - intros k st Hk. destruct (Hst' k st Hk) as [[st0 Hold]|]; [|done]. by eapply Hr, Hst.
Qed.

(** A map with an entry added, looked up. *)
Lemma lookup_insert_cases {A} (m : gmap string A) k a k' b :
  <[k := a]> m !! k' = Some b -> m !! k' = Some b \/ (k' = k /\ b = a).
Proof. intros [[-> ->]|[_ H]]%lookup_insert_Some; [by right|by left]. Qed.
