(* ===== verification/ManagerOps.v ===== *)
(** Every method of the resource manager returns, and leaves the manager in a
    state that satisfies the invariant of ManagerInv.v. *)

From stdpp Require Import gmap strings list.
From S2P Require Import Prelude GoLib TunnelAddr RcResources RcScope RcScopeProps RcAccount RcLimits RcUse RcMove ConnLimiter ResourceManager ManagerInv.
#[local] Open Scope Z_scope.

Lemma wp_on_heap {A} (m : M heap A) (Q : A -> resourceManager -> Prop) r a h :
  m (rm_heap r) = Ok (a, h) -> Q a (r <| rm_heap := h |>) -> wp (on_heap m) Q r.
Proof. unfold wp, on_heap. by intros ->. Qed.

(** The connections and streams are the same ones. *)
Definition same_users (r r' : resourceManager) : Prop :=
  rm_conns r' = rm_conns r /\ rm_streams r' = rm_streams r.

Section ops.
Context (L : Limiter) (HL : RcLimits.limiter_ok L).

Lemma wp_incref (Q : () -> resourceManager -> Prop) r held kd s :
  ok r held kd -> kd s <> KSpan ->
  (let r' := r <| rm_heap := upd (at_scope s (more_refs 1)) (rm_heap r) |> in
   ok r' held kd -> after r r' kd kd -> kept (rm_heap r') s -> Q () r') ->
  wp (on_heap (IncRef s)) Q r.
Proof.
  intros Hok Hs HQ. eapply wp_on_heap; [by apply IncRef_upd, (ok_alloc r held kd Hok)|].
  destruct (ok_incref r held kd s Hok) as (Hok' & Hkept & _). apply HQ; [done|apply after_incref|done].
Qed.

(** ** Moving a connection or stream *)

(** The same scopes under the same names. *)
Record same_names (r r' : resourceManager) : Prop := {
  sn_system : rm_system r' = rm_system r;
  sn_transient : rm_transient r' = rm_transient r;
  sn_asystem : allowlistedSystem r' = allowlistedSystem r;
  sn_atransient : allowlistedTransient r' = allowlistedTransient r;
  sn_peer : rm_peer r' = rm_peer r;
  sn_proto : rm_proto r' = rm_proto r;
  sn_svc : rm_svc r' = rm_svc r;
}.

Lemma shape_local r r' kd k y y' :
  same_names r r' -> rm_conns r' !! k = rm_conns r !! k -> rm_streams r' !! k = rm_streams r !! k ->
  like y y' -> shape r kd k y -> shape r' kd k y'.
Proof.
  intros [E1 E2 E3 E4 E5 E6 E7] Ec Es (L1 & L2 & L3). unfold shape, conn_edges, stream_edges.
  by rewrite E1, E2, E3, E4, E5, E6, E7, Ec, Es, L1, L2, L3.
Qed.

Lemma shift_like st added left s es k y : k <> s -> like y (shift st added left s es k y).
Proof.
  intros Hk. unfold shift. rewrite decide_False by done.
  transitivity (if bool_decide (k ∈ added) then with_rc (granted (stat_op st)) y else y);
    [by destruct (bool_decide _)|]. destruct (bool_decide (k ∈ left)); [|done].
  etransitivity; [apply (like_dropped (stat_op st))|apply like_refs].
Qed.

Lemma ok_moved r r' held kd s sc es added left :
  ok r held kd -> scopes (rm_heap r) !! s = Some sc -> done sc = false ->
  is_node (kd s) = false -> kd s <> KSpan ->
  NoDup es -> (forall e, e ∈ es <-> e ∈ added \/ (e ∈ edges sc /\ e ∉ left)) ->
  (forall e, e ∈ left -> e ∈ edges sc) ->
  (forall e, e ∈ added -> (e ∉ edges sc) /\ kd e <> KSpan /\ is_node (kd e) = true /\ kept (rm_heap r) e /\
     admits (stat_op (stat (rc sc))) (rm_heap r) e) ->
  rm_heap r' = upd (shift (stat (rc sc)) added left s es) (rm_heap r) -> same_names r r' ->
  (forall k, k <> s -> rm_conns r' !! k = rm_conns r !! k /\ rm_streams r' !! k = rm_streams r !! k) ->
  (kd s = KConn -> is_Some (rm_conns r' !! s) /\ rm_streams r' = rm_streams r) ->
  (kd s = KStream -> is_Some (rm_streams r' !! s) /\ rm_conns r' = rm_conns r) ->
  shape r' kd s (with_edges es sc) ->
  ok r' held kd /\ forall k, is_live (rm_heap r') k = is_live (rm_heap r) k.
Proof.
  intros Hok Hs Hd Hleaf Hspan Hnd Hes Hleft Hadded Hh Hnames Hother Hconn Hstream Hshape.
  destruct (ok_shape _ _ _ Hok s sc Hs) as [_ Hnone]. specialize (Hnone Hspan).
  assert (forall e, e ∈ added -> e <> s) as Hne.
  { intros e He ->. destruct (Hadded s He) as (_ & _ & Hn & _). congruence. }
  pose proof (accounts_shift (rm_heap r) held s sc es added left (ok_acc _ _ _ Hok) Hs Hd Hnone
    (ok_leaf r held kd Hok s Hleaf) Hnd Hes Hleft) as Hac.
  assert (accounts (rm_heap r') held) as Hac'.
  { rewrite Hh. apply Hac. intros e He. destruct (Hadded e He) as (H1 & H2 & H3 & H4 & H5).
    repeat (split; [done || by apply Hne|]). by apply (ok_exists r held kd Hok). }
  assert (shift (stat (rc sc)) added left s es s sc = with_edges es sc) as Hself.
  { unfold shift. rewrite decide_True, (bool_decide_eq_false_2 (s ∈ added)), (bool_decide_eq_false_2 (s ∈ left));
      [done| | |done].
    - intros Hin. apply Hleft in Hin. by destruct (sw_edges _ _ _ (ok_wf r held kd Hok s sc Hs) s Hin).
    - intros Hin. by destruct (Hne s Hin). }
  assert (forall k, is_live (rm_heap r') k = is_live (rm_heap r) k) as Hlive.
  { intros k. rewrite Hh. apply is_live_upd. intros y Hk. destruct (decide (k = s)) as [->|Hks].
    - assert (y = sc) as -> by congruence. by rewrite Hself.
    - by destruct (shift_like (stat (rc sc)) added left s es k y Hks). }
  split; [|exact Hlive].
  - split; [done| | | |].
    + intros k y' Hk. rewrite Hh, lookup_upd in Hk. destruct (scopes (rm_heap r) !! k) as [y|] eqn:Hy; [|done].
      cbn in Hk. injection Hk as <-. destruct (ok_shape _ _ _ Hok k y Hy) as [Hsh Hn].
      destruct (decide (k = s)) as [->|Hks].
      * assert (y = sc) as -> by congruence. by rewrite Hself.
      * pose proof (shift_like (stat (rc sc)) added left s es k y Hks) as HL'.
        destruct (Hother k Hks) as [Hc Hst]. split; [by apply (shape_local r r' kd k y)|].
        destruct HL' as (_ & -> & _). done.
    + intros k Hk. apply (ok_fresh _ _ _ Hok). rewrite Hh, lookup_upd in Hk. by destruct (scopes (rm_heap r) !! k).
    + destruct Hnames as [E1 E2 E3 E4 E5 E6 E7]. destruct (ok_reg _ _ _ Hok) as [R1 R2 R3 R4 R5 R6].
      split; rewrite ?E1, ?E2, ?E3, ?E4, ?E5, ?E6, ?E7; try done.
      * intros k cn Hk. destruct (decide (k = s)) as [->|Hks].
        -- destruct (kd s) eqn:Hkd; try done. destruct (Hstream eq_refl) as [_ Hc]. rewrite Hc in Hk.
           rewrite <- Hkd. by eapply R5.
        -- destruct (Hother k Hks) as [Hc _]. rewrite Hc in Hk. by eapply R5.
      * intros k st Hk. destruct (decide (k = s)) as [->|Hks].
        -- destruct (kd s) eqn:Hkd; try done. destruct (Hconn eq_refl) as [_ Hc]. rewrite Hc in Hk.
           rewrite <- Hkd. by eapply R6.
        -- destruct (Hother k Hks) as [_ Hc]. rewrite Hc in Hk. by eapply R6.
    + intros p k Hp. rewrite (sn_peer _ _ Hnames) in Hp. rewrite Hlive. by apply (ok_live _ _ _ Hok p).
Qed.

(** ** Scopes by name *)

(** What a [get] method promises for the scope it returns. *)
Definition got (r : resourceManager) (held : holdings) (kd : roles) (P : roles -> nat -> resourceManager -> Prop)
    (s : nat) (r' : resourceManager) : Prop :=
  exists kd', ok r' held kd' /\ after r r' kd kd' /\ same_users r r' /\ kept (rm_heap r') s /\ P kd' s r'.

Lemma set_role_grows r held kd κ :
  ok r held kd -> forall k, kd k <> KSpan -> set_role (next (rm_heap r)) κ kd k = kd k.
Proof. intros Hok k Hk. apply set_role_old; [by apply (ok_next r held)|done]. Qed.

(** Registering a new node under the system scope. *)
Lemma system_node r held kd κ limit name :
  ok r held kd -> limit_ok limit -> κ <> KSpan ->
  exists h', newResourceScope limit [rm_system r] name (rm_heap r) = Ok (next (rm_heap r), h') /\
    forall r', let kd' := set_role (next (rm_heap r)) κ kd in
    rm_heap r' = h' -> rm_connLimiter r' = rm_connLimiter r -> grows r r' kd kd' ->
    shape r' kd' (next (rm_heap r)) (mkScope false 0 0 (fresh_resources limit) None [rm_system r] name) ->
    registered r' kd' -> (forall p k, rm_peer r' !! p = Some k -> rm_peer r !! p = Some k \/ k = next (rm_heap r)) ->
    ok r' held kd' /\ after r r' kd kd'.
Proof.
  intros Hok Hlim Hκ. destruct (rg_fixed _ _ (ok_reg _ _ _ Hok)) as (F1 & _).
  assert (forall e, e ∈ [rm_system r] -> kd e <> KSpan) as He.
  { intros e ->%list_elem_of_singleton. by rewrite F1. }
  pose proof (NoDup_singleton (rm_system r)) as Hnd.
  destruct (new_node_run r held kd limit [rm_system r] name Hok Hlim Hnd He) as [Hrun _].
  eexists. split; [exact Hrun|]. intros r' kd' Hh Hcl Hg Hsh Hreg Hpeers.
  by apply (ok_new r held kd κ limit [rm_system r] name).
Qed.

(** A name is seen for the first time: a scope is made, registered by [g], and
    returned with a reference. *)
Lemma wp_register r held kd κ limit name (g : nat -> resourceManager -> resourceManager) P :
  ok r held kd -> limit_ok limit -> κ <> KSpan ->
  (let k0 := next (rm_heap r) in let kd' := set_role k0 κ kd in
   forall h', let r1 := g k0 (r <| rm_heap := h' |>) in
   (rm_heap r1 = h' /\ rm_connLimiter r1 = rm_connLimiter r /\ same_users r r1) /\
   (grows r r1 kd kd' -> shape r1 kd' k0 (mkScope false 0 0 (fresh_resources limit) None [rm_system r] name) /\
      registered r1 kd') /\
   grows r r1 kd kd' /\ (forall p k, rm_peer r1 !! p = Some k -> rm_peer r !! p = Some k \/ k = k0) /\
   forall h'', P kd' k0 (r1 <| rm_heap := h'' |>)) ->
  wp (on_heap (newResourceScope limit [rm_system r] name))
    (fun s => wp (modify (g s) ;; ret s) (fun s => wp (on_heap (IncRef s) ;; ret s) (got r held kd P))) r.
Proof using Type.
  intros Hok Hlim Hκ Hg. destruct (system_node r held kd κ limit name Hok Hlim Hκ) as (h' & Hrun & Hnew).
  eapply wp_on_heap; [exact Hrun|]. apply wp_bind, wp_modify, wp_ret, wp_bind.
  destruct (Hg h') as ((H1 & H2 & H3) & H4 & H5 & H9 & H6). destruct (H4 H5) as [H7 H8].
  destruct (Hnew _ H1 H2 H5 H7 H8 H9) as [Hok1 Haf1].
  eapply (wp_incref _ _ _ _ _ Hok1); [by rewrite set_role_new|]. intros r' Hok' Haf Hkept.
  apply wp_ret. eexists. split; [exact Hok'|]. split; [by eapply after_trans|]. split; [done|]. split; [done|].
  apply H6.
Qed.

Lemma wp_getPeerScope r held kd p :
  ok r held kd ->
  wp (getPeerScope L p)
    (got r held kd (fun kd' s r' => kd' s = KPeer p /\ rm_peer r' !! p = Some s)) r.
Proof using HL.
  intros Hok. unfold getPeerScope. apply wp_bind, wp_gets, wp_bind.
  destruct (rm_peer r !! p) as [s|] eqn:Hp.
  - apply wp_ret, wp_bind. pose proof (rg_peers _ _ (ok_reg _ _ _ Hok) _ _ Hp) as Hs.
    apply (wp_incref _ r held kd); [done|by rewrite Hs|]. intros r' Hok' Haf Hkept.
    apply wp_ret. exists kd. by split_and!.
  - unfold newPeerScope. apply wp_bind, wp_bind, wp_gets.
    apply (wp_register r held kd (KPeer p) _ _
      (fun s r => r <| rm_peer := <[p := s]> (rm_peer r) |>)); [done|apply HL|done|].
    intros k0 kd' h' r1. split; [done|]. split; [intros Hg; split|split; [|split]].
    + unfold shape, kd'. rewrite set_role_new. split; [done|]. intros _. apply lookup_insert_eq.
    + eapply registered_mono; [apply (ok_reg _ _ _ Hok)|exact Hg| | | | |]; try (by left).
      intros p' k [?|[-> ->]]%lookup_insert_cases; [by left|right; apply set_role_new].
    + split; try done; [|by apply (set_role_grows r held)].
      intros p' k Hk. cbn. rewrite lookup_insert_ne; [done|]. intros ->. congruence.
    + intros p' k [?|[-> ->]]%lookup_insert_cases; [by left|by right].
    + intros h''. split; [apply set_role_new|apply lookup_insert_eq].
Qed.

Lemma wp_getProtocolScope r held kd n :
  ok r held kd ->
  wp (getProtocolScope L n)
    (got r held kd (fun kd' s r' => kd' s = KProto n /\ exists ns, rm_proto r' !! n = Some ns /\ ns_scope ns = s)) r.
Proof using HL.
  intros Hok. unfold getProtocolScope. apply wp_bind, wp_gets, wp_bind.
  destruct (rm_proto r !! n) as [ns|] eqn:Hn.
  - apply wp_ret, wp_bind. destruct (rg_protos _ _ (ok_reg _ _ _ Hok) _ _ Hn) as [Hs _].
    apply (wp_incref _ r held kd); [done|by rewrite Hs|]. intros r' Hok' Haf Hkept.
    apply wp_ret. exists kd. split_and!; try done. by exists ns.
  - unfold newProtocolScope. apply wp_bind, wp_bind, wp_gets.
    apply (wp_register r held kd (KProto n) _ _
      (fun s r => r <| rm_proto := <[n := mkNamed s None]> (rm_proto r) |>)); [done|apply HL|done|].
    intros k0 kd' h' r1. split; [done|]. split; [intros Hg; split|split; [|split]].
    + unfold shape, kd'. rewrite set_role_new. split; [done|]. intros _. cbn. by rewrite lookup_insert_eq.
    + eapply registered_mono; [apply (ok_reg _ _ _ Hok)|exact Hg| | | | |]; try (by left).
      intros n' ns [?|[-> ->]]%lookup_insert_cases; [by left|right]. split; [apply set_role_new|done].
    + split; try done; [|by apply (set_role_grows r held)].
      intros n' k Hk. cbn. rewrite lookup_insert_ne; [done|]. intros ->. by rewrite Hn in Hk.
    + by left.
    + intros h''. split; [apply set_role_new|]. eexists. split; [apply lookup_insert_eq|done].
Qed.

Lemma wp_getServiceScope r held kd n :
  ok r held kd ->
  wp (getServiceScope L n)
    (got r held kd (fun kd' s r' => kd' s = KSvc n /\ exists ns, rm_svc r' !! n = Some ns /\ ns_scope ns = s)) r.
Proof using HL.
  intros Hok. unfold getServiceScope. apply wp_bind, wp_gets, wp_bind.
  destruct (rm_svc r !! n) as [ns|] eqn:Hn.
  - apply wp_ret, wp_bind. destruct (rg_svcs _ _ (ok_reg _ _ _ Hok) _ _ Hn) as [Hs _].
    apply (wp_incref _ r held kd); [done|by rewrite Hs|]. intros r' Hok' Haf Hkept.
    apply wp_ret. exists kd. split_and!; try done. by exists ns.
  - unfold newServiceScope. apply wp_bind, wp_bind, wp_gets.
    apply (wp_register r held kd (KSvc n) _ _
      (fun s r => r <| rm_svc := <[n := mkNamed s None]> (rm_svc r) |>)); [done|apply HL|done|].
    intros k0 kd' h' r1. split; [done|]. split; [intros Hg; split|split; [|split]].
    + unfold shape, kd'. rewrite set_role_new. split; [done|]. intros _. cbn. by rewrite lookup_insert_eq.
    + eapply registered_mono; [apply (ok_reg _ _ _ Hok)|exact Hg| | | | |]; try (by left).
      intros n' ns [?|[-> ->]]%lookup_insert_cases; [by left|right]. split; [apply set_role_new|done].
    + split; try done; [|by apply (set_role_grows r held)].
      intros n' k Hk. cbn. rewrite lookup_insert_ne; [done|]. intros ->. by rewrite Hn in Hk.
    + by left.
    + intros h''. split; [apply set_role_new|]. eexists. split; [apply lookup_insert_eq|done].
Qed.

(** ** The scope of a peer within a service or protocol *)

(** The lookup is made while [f] has already been applied to the counters of the
    scope [e]: the manager gets there as if that came afterwards. *)
Section parts.
Context (getm : resourceManager -> gmap string namedScope)
  (setm : gmap string namedScope -> resourceManager -> resourceManager).
Context (limit : Limit) (name p : string) (part : role).
Context (Hget : forall r h, getm (r <| rm_heap := h |>) = getm r)
  (Hset : forall m r h, setm m (r <| rm_heap := h |>) = (setm m r) <| rm_heap := h |>).

Lemma wp_named_peer_scope r held kd ns e f :
  ok r held kd -> limit_ok limit -> getm r !! name = Some ns -> kd (ns_scope ns) <> KSpan ->
  (forall q, ns_peers ns !! p = Some q -> kd q = part) ->
  part <> KSpan -> kd e <> part -> kd e <> KSpan ->
  (let k0 := next (rm_heap r) in let kd' := set_role k0 part kd in
   forall h' nm, let r1 := setm (<[name := ns <| ns_peers := <[p := k0]> (ns_peers ns) |>]> (getm r)) (r <| rm_heap := h' |>) in
   (rm_heap r1 = h' /\ rm_connLimiter r1 = rm_connLimiter r /\ same_users r r1 /\ rm_peer r1 = rm_peer r) /\
   (ns_peers ns !! p = None -> grows r r1 kd kd' /\ (grows r r1 kd kd' ->
     shape r1 kd' k0 (mkScope false 0 0 (fresh_resources limit) None [] nm) /\ registered r1 kd'))) ->
  wp (named_peer_scope limit getm setm name p)
    (fun q r2 => exists r', r2 = r' <| rm_heap := upd (at_scope e f) (rm_heap r') |> /\
       got r held kd (fun kd' q _ => kd' q = part) q r')
    (r <| rm_heap := upd (at_scope e f) (rm_heap r) |>).
Proof using Hget Hset.
  intros Hok Hlim Hn Hsc Hq Hpart Hep He Hnew. unfold named_peer_scope. apply wp_bind.
  eapply wp_deref; [rewrite Hget; exact Hn|]. destruct (ns_peers ns !! p) as [q|] eqn:Hp.
  - pose proof (Hq q eq_refl) as Hkq. apply wp_bind.
    assert (e <> q) as Hne by (intros ->; by rewrite Hkq in Hep).
    assert (kd q <> KSpan) as Hqs by (by rewrite Hkq).
    eapply wp_on_heap; [apply IncRef_upd; rewrite heap_set; apply upd_exists, (ok_alloc r held kd Hok), Hqs|].
    apply wp_ret. destruct (ok_incref r held kd q Hok) as (Hok' & Hkept & _).
    exists (r <| rm_heap := upd (at_scope q (more_refs 1)) (rm_heap r) |>). split.
    + rewrite !heap_set, upd_at_comm by congruence. done.
    + exists kd. by repeat (split; [done || apply after_incref|]).
  - apply wp_bind. destruct (ok_alloc r held kd Hok _ Hsc) as [sc Hscl].
    set (h2 := upd (at_scope e f) (rm_heap r)).
    assert (getScope (ns_scope ns) h2 = Ok (at_scope e f (ns_scope ns) sc, h2)) as Hgs.
    { unfold getScope, deref, h2. by rewrite lookup_upd, Hscl. }
    eapply wp_on_heap; [exact Hgs|]. apply wp_bind.
    eapply wp_on_heap; [apply newResourceScope_nil|]. apply wp_bind.
    change (ns_peerMap (ns <| ns_peerMap := make_if_nil (ns_peerMap ns) |>)) with (make_if_nil (ns_peerMap ns)).
    eapply wp_lift; [apply map_set_made|]. apply wp_bind, wp_modify, wp_bind.
    set (nm := sname (at_scope e f (ns_scope ns) sc) +:+ ".peer:" +:+ p).
    set (fresh := mkScope false 0 0 (fresh_resources limit) None [] nm).
    set (k0 := next (rm_heap r)) in *. set (h1 := with_scope fresh (rm_heap r)).
    assert (forall x, x ∈ @nil nat -> kd x <> KSpan) as Hnil by (by intros x ?%elem_of_nil).
    destruct (Hnew h1 nm) as ((N1 & N2 & N3 & N9) & N4). destruct (N4 eq_refl) as [N5 N6]. destruct (N6 N5) as [N7 N8].
    set (r1 := setm (<[name := ns <| ns_peers := <[p := k0]> (ns_peers ns) |>]> (getm r)) (r <| rm_heap := h1 |>)) in *.
    destruct (new_node_run r held kd limit [] nm Hok Hlim NoDup_nil_2 Hnil) as [Hrun _].
    rewrite newResourceScope_nil in Hrun. apply Ok_inj in Hrun as [_ Hh].
    destruct (ok_new r held kd part limit [] nm Hok Hlim NoDup_nil_2 Hnil Hpart r1
      ltac:(by rewrite N1) N2 N5 N7 N8 ltac:(rewrite N9; by left)) as [Hok1 Haf1].
    assert (e <> k0) as Hek by (intros ->; apply He, (ok_next r held kd Hok)).
    destruct (ok_incref _ _ _ k0 Hok1) as (Hok' & Hkept & _).
    match goal with |- wp _ _ ?r2 => assert (r2 = r1 <| rm_heap := upd (at_scope e f) h1 |>) as -> end.
    { transitivity (setm (<[name := ns <| ns_peers := <[p := k0]> (ns_peers ns) |>]>
        (getm (r <| rm_heap := with_scope fresh h2 |>))) (r <| rm_heap := with_scope fresh h2 |>)); [done|].
      rewrite (Hget r (with_scope fresh h2)), (Hset _ r (with_scope fresh h2)). unfold r1. rewrite (Hset _ r h1).
      unfold h1, h2. by rewrite with_scope_upd. }
    eapply wp_on_heap; [apply IncRef_upd; rewrite heap_set; apply upd_exists; cbn; rewrite lookup_insert_eq; by eexists|].
    apply wp_ret. exists (r1 <| rm_heap := upd (at_scope k0 (more_refs 1)) (rm_heap r1) |>). split.
    + rewrite !heap_set. change (next h2) with k0. rewrite upd_at_comm, N1 by congruence. done.
    + eexists. split; [exact Hok'|]. split; [eapply after_trans; [exact Haf1|apply after_incref]|].
      split; [exact N3|]. split; [exact Hkept|]. apply set_role_new.
Qed.
End parts.

Lemma wp_protocol_getPeerScope r held kd n ns p e f :
  ok r held kd -> rm_proto r !! n = Some ns -> kd e <> KProtoPeer n p -> kd e <> KSpan ->
  wp (protocol_getPeerScope L n p)
    (fun q r2 => exists r', r2 = r' <| rm_heap := upd (at_scope e f) (rm_heap r') |> /\
       got r held kd (fun kd' q _ => kd' q = KProtoPeer n p) q r')
    (r <| rm_heap := upd (at_scope e f) (rm_heap r) |>).
Proof using HL.
  intros Hok Hn He Hes. destruct (rg_protos _ _ (ok_reg _ _ _ Hok) _ _ Hn) as [Hk Hq].
  apply (wp_named_peer_scope rm_proto (fun m r => r <| rm_proto := m |>) _ n p (KProtoPeer n p)
    ltac:(done) ltac:(done) r held kd ns e f); try done; [apply HL|by rewrite Hk|by apply Hq|].
  intros k0 kd' h' nm r1. split; [done|]. intros Hp. split; [|intros Hg; split].
  - split; try done; [|by apply (set_role_grows r held)].
    intros n' k. cbn. destruct (decide (n' = n)) as [->|Hne].
    + rewrite lookup_insert_eq, Hn. done.
    + by rewrite lookup_insert_ne.
  - unfold shape, kd'. by rewrite set_role_new.
  - eapply registered_mono; [apply (ok_reg _ _ _ Hok)|exact Hg| | | | |]; try (by left).
    intros n' ns' [?|[-> ->]]%lookup_insert_cases; [by left|right]. cbn.
    split; [rewrite <- Hk; apply (gr_roles _ _ _ _ Hg); by rewrite Hk|].
    intros p' q [Hold|[-> ->]]%lookup_insert_cases; [|apply set_role_new].
    pose proof (Hq p' q Hold) as Hkq. rewrite <- Hkq. apply (gr_roles _ _ _ _ Hg). by rewrite Hkq.
Qed.

Lemma wp_service_getPeerScope r held kd n ns p e f :
  ok r held kd -> rm_svc r !! n = Some ns -> kd e <> KSvcPeer n p -> kd e <> KSpan ->
  wp (service_getPeerScope L n p)
    (fun q r2 => exists r', r2 = r' <| rm_heap := upd (at_scope e f) (rm_heap r') |> /\
       got r held kd (fun kd' q _ => kd' q = KSvcPeer n p) q r')
    (r <| rm_heap := upd (at_scope e f) (rm_heap r) |>).
Proof using HL.
  intros Hok Hn He Hes. destruct (rg_svcs _ _ (ok_reg _ _ _ Hok) _ _ Hn) as [Hk Hq].
  apply (wp_named_peer_scope rm_svc (fun m r => r <| rm_svc := m |>) _ n p (KSvcPeer n p)
    ltac:(done) ltac:(done) r held kd ns e f); try done; [apply HL|by rewrite Hk|by apply Hq|].
  intros k0 kd' h' nm r1. split; [done|]. intros Hp. split; [|intros Hg; split].
  - split; try done; [|by apply (set_role_grows r held)].
    intros n' k. cbn. destruct (decide (n' = n)) as [->|Hne].
    + rewrite lookup_insert_eq, Hn. done.
    + by rewrite lookup_insert_ne.
  - unfold shape, kd'. by rewrite set_role_new.
  - eapply registered_mono; [apply (ok_reg _ _ _ Hok)|exact Hg| | | | |]; try (by left).
    intros n' ns' [?|[-> ->]]%lookup_insert_cases; [by left|right]. cbn.
    split; [rewrite <- Hk; apply (gr_roles _ _ _ _ Hg); by rewrite Hk|].
    intros p' q [Hold|[-> ->]]%lookup_insert_cases; [|apply set_role_new].
    pose proof (Hq p' q Hold) as Hkq. rewrite <- Hkq. apply (gr_roles _ _ _ _ Hg). by rewrite Hkq.
Qed.

(** ** New connections and streams *)

Lemma ok_counters r held kd c s :
  ok r held kd -> ok (r <| connId := c |> <| streamId := s |>) held kd.
Proof. intros [H1 H2 H3 [] H5]. split; [exact H1|exact H2|exact H3|by split|exact H5]. Qed.

Lemma wp_new_conn (Q : nat -> resourceManager -> Prop) r held kd es cn name :
  ok r held kd -> conn_edges r kd cn es -> cn_peer cn = None -> NoDup es -> (forall e, e ∈ es -> kd e <> KSpan) ->
  (forall h', let k0 := next (rm_heap r) in
   let r' := r <| rm_heap := h' |> <| rm_conns := <[k0 := cn]> (rm_conns r) |> in
   ok r' held (set_role k0 KConn kd) -> after r r' kd (set_role k0 KConn kd) ->
   is_live h' k0 = true -> rm_conns r !! k0 = None -> scopes (rm_heap r) !! k0 = None -> Q k0 r') ->
  wp (c <- on_heap (newResourceScope (GetConnLimits L) es name) ;;
      modify (fun r => r <| rm_conns := <[c := cn]> (rm_conns r) |>) ;; ret c) Q r.
Proof using HL.
  intros Hok Hes Hnone Hnd Hin HQ. apply wp_bind.
  destruct (new_node_run r held kd (GetConnLimits L) es name Hok (lk_conn _ HL) Hnd Hin) as [Hrun _].
  eapply wp_on_heap; [exact Hrun|]. apply wp_bind, wp_modify, wp_ret.
  set (k0 := next (rm_heap r)) in *. set (kd' := set_role k0 KConn kd).
  assert (rm_conns r !! k0 = None) as Hfresh.
  { destruct (rm_conns r !! k0) as [c|] eqn:Hc; [|done].
    pose proof (rg_conns _ _ (ok_reg _ _ _ Hok) _ _ Hc) as Hk. pose proof (ok_next r held kd Hok) as Hn.
    fold k0 in Hn. congruence. }
  match goal with |- Q _ ?r' => assert (grows r r' kd kd') as Hg end.
  { split; try done; [|by apply (set_role_grows r held)]. intros k c Hc. cbn.
    rewrite lookup_insert_ne; [done|]. intros <-. congruence. }
  match goal with |- Q _ ?r' => destruct (ok_new r held kd KConn (GetConnLimits L) es name Hok
    (lk_conn _ HL) Hnd Hin ltac:(done) r') as [Hok' Haf']; [done|done|exact Hg| | |by left|] end.
  - unfold shape. fold k0. rewrite set_role_new. exists cn. split; [apply lookup_insert_eq|]. intros _.
    by eapply conn_edges_grow.
  - eapply registered_mono; [apply (ok_reg _ _ _ Hok)|exact Hg| | | | |]; try (by left).
    intros k c Hc. cbn in Hc. apply lookup_insert_Some in Hc as [[<- <-]|[_ Hc]];
      [right; apply set_role_new|left; by eexists].
  - apply (HQ _ Hok' Haf'); [|done|].
    + unfold is_live. cbn. by rewrite lookup_insert_eq.
    + destruct (scopes (rm_heap r) !! k0) as [y|] eqn:Hy; [|done].
      pose proof (sw_next _ _ _ (ok_wf r held kd Hok k0 y Hy)). unfold k0 in *. lia.
Qed.

Lemma wp_new_stream (Q : nat -> resourceManager -> Prop) r held kd es st limit name :
  ok r held kd -> limit_ok limit -> stream_edges r kd st es -> NoDup es -> (forall e, e ∈ es -> kd e <> KSpan) ->
  (forall h', let k0 := next (rm_heap r) in
   let r' := r <| rm_heap := h' |> <| rm_streams := <[k0 := st]> (rm_streams r) |> in
   ok r' held (set_role k0 KStream kd) -> after r r' kd (set_role k0 KStream kd) ->
   is_live h' k0 = true -> Q k0 r') ->
  wp (c <- on_heap (newResourceScope limit es name) ;;
      modify (fun r => r <| rm_streams := <[c := st]> (rm_streams r) |>) ;; ret c) Q r.
Proof using HL.
  intros Hok Hlim Hes Hnd Hin HQ. apply wp_bind.
  destruct (new_node_run r held kd limit es name Hok Hlim Hnd Hin) as [Hrun _].
  eapply wp_on_heap; [exact Hrun|]. apply wp_bind, wp_modify, wp_ret.
  set (k0 := next (rm_heap r)) in *. set (kd' := set_role k0 KStream kd).
  match goal with |- Q _ ?r' => assert (grows r r' kd kd') as Hg end.
  { split; try done; [|by apply (set_role_grows r held)]. intros k c Hc. cbn.
    rewrite lookup_insert_ne; [done|]. intros <-.
    pose proof (rg_streams _ _ (ok_reg _ _ _ Hok) _ _ Hc) as Hk. pose proof (ok_next r held kd Hok) as Hn.
    fold k0 in Hn. congruence. }
  match goal with |- Q _ ?r' => destruct (ok_new r held kd KStream limit es name Hok Hlim Hnd Hin
    ltac:(done) r') as [Hok' Haf']; [done|done|exact Hg| | |by left|] end.
  - unfold shape. fold k0. rewrite set_role_new. exists st. split; [apply lookup_insert_eq|]. intros _.
    by eapply stream_edges_grow.
  - eapply registered_mono; [apply (ok_reg _ _ _ Hok)|exact Hg| | | | |]; try (by left).
    intros k c Hc. cbn in Hc. apply lookup_insert_Some in Hc as [[<- <-]|[_ Hc]];
      [right; apply set_role_new|left; by eexists].
  - apply (HQ _ Hok' Haf'). unfold is_live. cbn. by rewrite lookup_insert_eq.
Qed.

(** ** The addresses the limiter counts *)

Context (cl0 : connLimiter).

(** The limiter counts the addresses of the open connections. *)
Definition counted (r : resourceManager) : Prop := ConnLimiter.limiter_ok cl0 (rm_connLimiter r, open_ips r).

Lemma lookup_open_map r k :
  open_map r !! k = rm_conns r !! k ≫= fun cn => if is_live (rm_heap r) k then cn_ip cn else None.
Proof. unfold open_map. by rewrite map_lookup_imap. Qed.

Lemma open_map_conns r r' :
  rm_conns r' = rm_conns r ->
  (forall k, is_Some (rm_conns r !! k) -> is_live (rm_heap r') k = is_live (rm_heap r) k) ->
  open_ips r' = open_ips r.
Proof.
  intros Hc Hl. unfold open_ips. do 2 f_equal. apply map_eq. intros k. rewrite !lookup_open_map, Hc.
  destruct (rm_conns r !! k) as [cn|] eqn:Hk; [|done]. cbn. by rewrite Hl by (by eexists).
Qed.

Lemma after_live r r' held kd kd' k :
  ok r held kd -> after r r' kd kd' -> kd k <> KSpan -> is_live (rm_heap r') k = is_live (rm_heap r) k.
Proof.
  intros Hok Haf Hk. destruct (ok_exists r held kd Hok k Hk) as (y & Hy & _). unfold is_live. rewrite Hy.
  destruct (af_like _ _ _ _ Haf k y Hy) as (y' & -> & (-> & _) & _). done.
Qed.

Lemma after_counted r r' held kd kd' :
  ok r held kd -> after r r' kd kd' -> rm_conns r' = rm_conns r -> counted r -> counted r'.
Proof.
  intros Hok Haf Hc. unfold counted. rewrite (af_limiter _ _ _ _ Haf), (open_map_conns r r'); [done|done|].
  intros k [cn Hk]. apply (after_live r r' held kd kd'); [done..|].
  by rewrite (rg_conns _ _ (ok_reg _ _ _ Hok) k cn Hk).
Qed.

Lemma open_map_alter r r' c f :
  rm_conns r' = alter f c (rm_conns r) -> (forall cn, cn_ip (f cn) = cn_ip cn) ->
  (forall k, is_live (rm_heap r') k = is_live (rm_heap r) k) -> open_ips r' = open_ips r.
Proof.
  intros Hc Hf Hl. unfold open_ips. do 2 f_equal. apply map_eq. intros k. rewrite !lookup_open_map, Hc, Hl.
  destruct (decide (k = c)) as [->|Hk].
  - rewrite lookup_alter_eq. destruct (rm_conns r !! c) as [cn|]; [|done]. cbn. by rewrite Hf.
  - by rewrite lookup_alter_ne.
Qed.

(** A connection is closed: its address is not counted any more. *)
Lemma open_ips_closed r r' c cn :
  rm_conns r' = rm_conns r -> rm_conns r !! c = Some cn -> is_live (rm_heap r) c = true ->
  is_live (rm_heap r') c = false ->
  (forall k, k <> c -> is_live (rm_heap r') k = is_live (rm_heap r) k) ->
  open_ips r ≡ₚ match cn_ip cn with Some ip => ip :: open_ips r' | None => open_ips r' end.
Proof.
  intros Hc Hcn Hl Hl' Hother. assert (open_map r !! c = cn_ip cn) as Hip.
  { rewrite lookup_open_map, Hcn. cbn. by rewrite Hl. }
  assert (open_map r' = delete c (open_map r)) as Hdel.
  { apply map_eq. intros k. rewrite lookup_open_map, Hc. destruct (decide (k = c)) as [->|Hk].
    - rewrite lookup_delete_eq, Hcn. cbn. by rewrite Hl'.
    - rewrite lookup_delete_ne, lookup_open_map, Hother by done. done. }
  unfold open_ips. rewrite Hdel. destruct (cn_ip cn) as [ip|].
  - change (ip :: (map_to_list (delete c (open_map r))).*2) with (((c, ip) :: map_to_list (delete c (open_map r))).*2).
    apply fmap_Permutation. symmetry. by apply map_to_list_delete.
  - by rewrite delete_id.
Qed.

Lemma open_ips_new r r' c cn :
  rm_conns r' = <[c := cn]> (rm_conns r) -> rm_conns r !! c = None -> is_live (rm_heap r') c = true ->
  (forall k, is_Some (rm_conns r !! k) -> is_live (rm_heap r') k = is_live (rm_heap r) k) ->
  open_ips r' ≡ₚ match cn_ip cn with Some ip => ip :: open_ips r | None => open_ips r end.
Proof.
  intros Hc Hnone Hl Hother. unfold open_ips.
  assert (open_map r !! c = None) as Hno by (by rewrite lookup_open_map, Hnone).
  assert (open_map r' = match cn_ip cn with Some ip => <[c := ip]> (open_map r) | None => open_map r end) as ->.
  { apply map_eq. intros k. rewrite lookup_open_map, Hc. destruct (decide (k = c)) as [->|Hk].
    - rewrite lookup_insert_eq. cbn. rewrite Hl. destruct (cn_ip cn); [by rewrite lookup_insert_eq|done].
    - rewrite lookup_insert_ne by done. destruct (cn_ip cn); rewrite ?lookup_insert_ne, lookup_open_map by done;
        (destruct (rm_conns r !! k) as [x|] eqn:Hx; [|done]; cbn; by rewrite Hother by (by eexists)). }
  destruct (cn_ip cn) as [ip|]; [|done].
  change (ip :: (map_to_list (open_map r)).*2) with (((c, ip) :: map_to_list (open_map r)).*2).
  apply fmap_Permutation. by apply map_to_list_insert.
Qed.

(** ** Closing connections and streams *)

(** The connections and streams, but for the one that is closed. *)
Definition all_but (s : nat) (r r' : resourceManager) : Prop :=
  same_users r r' /\ forall k, k <> s -> is_live (rm_heap r') k = is_live (rm_heap r) k.

Lemma wp_conn_Done r held kd c cn :
  ok r held kd -> counted r -> rm_conns r !! c = Some cn ->
  wp (conn_Done c) (fun _ r' => ok r' (closed (rm_heap r) held c) kd /\ counted r' /\ all_but c r r') r.
Proof using Type.
  intros Hok Hcl Hcn. pose proof (rg_conns _ _ (ok_reg _ _ _ Hok) _ _ Hcn) as Hk.
  destruct (ok_exists r held kd Hok c ltac:(by rewrite Hk)) as (sc & Hsc & _).
  assert (is_live (rm_heap r) c = negb (done sc)) as Hlive by (unfold is_live; by rewrite Hsc).
  unfold conn_Done. apply wp_bind. eapply wp_on_heap; [unfold getScope, deref; by rewrite Hsc|].
  destruct (done sc) eqn:Hd.
  { apply wp_ret. unfold closed. rewrite Hlive. by destruct Hok, r. }
  apply wp_bind. eapply wp_deref; [exact Hcn|]. apply wp_bind.
  assert (forall k y, scopes (rm_heap r) !! k = Some y -> done y = false -> c ∉ edges y) as Hleaf
    by (apply (ok_leaf r held kd Hok); by rewrite Hk).
  destruct (ok_done r held kd c Hok ltac:(by rewrite Hk) ltac:(by rewrite Hk) Hleaf) as (h' & Hrun & Hok' & Hdead & Hother).
  assert (open_ips r ≡ₚ match cn_ip cn with
    | Some ip => ip :: open_ips (r <| rm_heap := h' |>) | None => open_ips (r <| rm_heap := h' |>) end) as Hips
    by (apply (open_ips_closed r _ c cn); rewrite ?heap_set; done).
  destruct (cn_ip cn) as [ip|].
  - destruct (limiter_close cl0 _ _ _ ip Hcl Hips) as (cl' & Erm & Hcl').
    unfold wp at 1. change (rm_connLimiter (r <| rm_heap := rm_heap r |>)) with (rm_connLimiter r).
    rewrite Erm. eapply wp_on_heap; [exact Hrun|]. split; [|split; [exact Hcl'|done]].
    destruct Hok' as [H1 H2 H3 [] H5]. split; [exact H1|exact H2|exact H3|by split|exact H5].
  - apply wp_ret. eapply wp_on_heap; [exact Hrun|]. split; [exact Hok'|split; [|done]].
    eapply limiter_perm; [exact Hips|exact Hcl].
Qed.

Lemma wp_stream_Done r held kd s st :
  ok r held kd -> counted r -> rm_streams r !! s = Some st ->
  wp (on_heap (Done s)) (fun _ r' => ok r' (closed (rm_heap r) held s) kd /\ counted r' /\ all_but s r r') r.
Proof using Type.
  intros Hok Hcl Hst. pose proof (rg_streams _ _ (ok_reg _ _ _ Hok) _ _ Hst) as Hk.
  assert (forall k y, scopes (rm_heap r) !! k = Some y -> done y = false -> s ∉ edges y) as Hleaf
    by (apply (ok_leaf r held kd Hok); by rewrite Hk).
  destruct (ok_done r held kd s Hok ltac:(by rewrite Hk) ltac:(by rewrite Hk) Hleaf) as (h' & Hrun & Hok' & Hdead & Hother).
  eapply wp_on_heap; [exact Hrun|]. split; [exact Hok'|split; [|done]].
  unfold counted. rewrite (open_map_conns r); [exact Hcl|done|]. intros k [cn Hcn]. apply Hother. intros ->.
  pose proof (rg_conns _ _ (ok_reg _ _ _ Hok) _ _ Hcn). congruence.
Qed.

(** ** Opening *)

Lemma ok_ext r held held' kd : (forall k x, held k x = held' k x) -> ok r held kd -> ok r held' kd.
Proof.
  intros He [[H1 H2 H3 H4 H5] Hs Hf Hr Hl]. split; [split|done..]; try done.
  - by apply (balanced_ext _ held).
  - intros k x. rewrite <- He. apply H3.
  - intros k x Hk. rewrite <- He. by apply H4.
Qed.

(** A reservation by a scope of the manager. *)
Lemma ok_add op delta `{!RopLaws op delta} r held kd s :
  ok r held kd -> is_Some (scopes (rm_heap r) !! s) ->
  exists err h', scope_add (S s) op s (rm_heap r) = Ok (err, h') /\
    ok (r <| rm_heap := h' |>) (grant held err s delta) kd /\
    forall k, is_live h' k = is_live (rm_heap r) k.
Proof using Type.
  intros Hok Hs. pose proof (ok_wf r held kd Hok) as Hwf.
  destruct (scope_add_spec op delta (S s) s (rm_heap r) ltac:(lia) Hwf Hs) as (err & Hrun & _).
  pose proof (accounts_add op delta _ held s _ _ (ok_acc _ _ _ Hok) Hs Hrun) as Hac.
  eexists _, _. split; [exact Hrun|]. pose proof (constraints_nodup (rm_heap r) (S s) s Hwf) as Hnd.
  assert (forall k, is_live (match err with None => on_rc (granted op) (constraints (S s) (rm_heap r) s) (rm_heap r)
    | Some _ => rm_heap r end) k = is_live (rm_heap r) k) as Hlive.
  { intros k. destruct err; [done|]. unfold is_live. rewrite lookup_on_rc by done.
    case_bool_decide; [|done]. by destruct (scopes (rm_heap r) !! k). }
  split; [|exact Hlive].
  - apply (ok_heap r held); [done|by destruct err| |by intros; apply Hlive]. destruct err; [apply evolves_refl|]. split.
    + intros k y Hk. rewrite lookup_on_rc, Hk by done. case_bool_decide; (eexists; split; [reflexivity|]); done.
    + intros k y Hk Hn. rewrite lookup_on_rc, Hn in Hk by done. by case_bool_decide.
Qed.

Lemma closed_fresh r held c :
  (forall x, held c x = 0) -> forall k x, closed (rm_heap r) held c k x = held k x.
Proof.
  intros Hz k x. unfold closed. destruct (is_live _ _); [|done]. unfold hclear.
  destruct (decide (k = c)) as [->|]; [by rewrite Hz|done].
Qed.

(** A new connection that asks for its place. *)
Lemma wp_add_new_conn (Q : nat -> option rcerror -> resourceManager -> Prop) r held kd es cn name dir usefd :
  ok r held kd -> conn_edges r kd cn es -> cn_peer cn = None -> NoDup es -> (forall e, e ∈ es -> kd e <> KSpan) ->
  ConnLimiter.limiter_ok cl0 (rm_connLimiter r, match cn_ip cn with Some ip => ip :: open_ips r | None => open_ips r end) ->
  (forall err c r', ok r' (grant held err c (dir_conns_delta dir usefd)) (set_role c KConn kd) -> counted r' ->
     rm_conns r' = <[c := cn]> (rm_conns r) -> (forall x, held c x = 0) ->
     grows r r' kd (set_role c KConn kd) -> Q c err r') ->
  wp (c <- on_heap (newResourceScope (GetConnLimits L) es name) ;;
      modify (fun r => r <| rm_conns := <[c := cn]> (rm_conns r) |>) ;; ret c)
    (fun c => wp (on_heap (AddConn c dir usefd)) (Q c)) r.
Proof using HL.
  intros Hok Hes Hnone Hnd Hin Hcl HQ. apply (wp_new_conn _ r held kd); try done.
  intros h' k0 r1 Hok1 Haf1 Hlive Hfresh Hunalloc.
  assert (is_Some (scopes (rm_heap r1) !! k0)) as Hs1.
  { unfold is_live in Hlive. cbn. destruct (scopes h' !! k0); [by eexists|done]. }
  destruct (ok_add (conn_op dir usefd) (dir_conns_delta dir usefd) r1 held _ k0 Hok1 Hs1)
    as (err & h2 & Hrun & Hok2 & Hl2).
  eapply wp_on_heap; [exact Hrun|]. apply HQ; [exact Hok2| |done| |].
  - assert (open_ips (r1 <| rm_heap := h2 |>) ≡ₚ
      match cn_ip cn with Some ip => ip :: open_ips r | None => open_ips r end) as Hips.
    { apply (open_ips_new r _ k0); rewrite ?heap_set; [done|done|by rewrite Hl2|]. intros k [x Hx].
      rewrite Hl2. apply (after_live r r1 held kd _ k Hok Haf1).
      by rewrite (rg_conns _ _ (ok_reg _ _ _ Hok) k x Hx). }
    eapply limiter_perm; [symmetry; exact Hips|exact Hcl].
  - intros x. by apply (ac_fresh _ _ (ok_acc _ _ _ Hok)).
  - by destruct (af_grows _ _ _ _ Haf1).
Qed.

Definition opened (held : holdings) (result : rcerror + nat) (d : res -> Z) : holdings :=
  match result with inl _ => held | inr c => hadd held c d end.

(** Changes that the invariant does not see. *)
Lemma ok_limiter r held kd cl : ok r held kd -> ok (r <| rm_connLimiter := cl |>) held kd.
Proof. intros [H1 H2 H3 [] H5]. split; [exact H1|exact H2|exact H3|by split|exact H5]. Qed.
Lemma ok_connId r held kd n : ok r held kd -> ok (r <| connId := n |>) held kd.
Proof. intros [H1 H2 H3 [] H5]. split; [exact H1|exact H2|exact H3|by split|exact H5]. Qed.

Lemma pair_NoDup {A} (a b : A) : a <> b -> NoDup [a; b].
Proof. intros Hab. apply NoDup_cons. split; [by rewrite list_elem_of_singleton|apply NoDup_singleton]. Qed.

Lemma wp_openConnection (Allowed : string -> bool) r held kd dir usefd ep ip :
  ok r held kd -> counted r -> len (open_ips r) < mostPositive ->
  wp (openConnection L Allowed dir usefd ep ip)
    (fun result r' => exists kd', ok r' (opened held result (dir_conns_delta dir usefd)) kd' /\ counted r') r.
Proof using HL.
  intros Hok Hcl Hlen. unfold openConnection. apply wp_bind.
  assert (exists ok1 cl', limiter_addConn ip r = Ok (ok1, r <| rm_connLimiter := cl' |>) /\
    ConnLimiter.limiter_ok cl0 (cl', if ok1 then match ip with Some ip => ip :: open_ips r | None => open_ips r end
                                     else open_ips r)) as (ok1 & cl' & Hadd & Hcl1).
  { destruct ip as [ip|].
    - destruct (limiter_open cl0 _ _ ip Hcl Hlen) as (ok1 & cl' & E & H). exists ok1, cl'.
      unfold limiter_addConn. rewrite E. split; [done|]. by destruct ok1.
    - exists true, (rm_connLimiter r). split; [|exact Hcl]. unfold limiter_addConn. by destruct r. }
  unfold wp at 1. rewrite Hadd. set (r1 := r <| rm_connLimiter := cl' |>) in *.
  assert (ok r1 held kd) as Hok1 by (by apply ok_limiter).
  destruct ok1; cbn [negb]; [|apply wp_ret; exists kd; by split].
  destruct (rg_fixed _ _ (ok_reg _ _ _ Hok)) as (F1 & F2 & F3 & F4).
  assert (forall e, e ∈ [rm_transient r; rm_system r] -> kd e <> KSpan) as Hin
    by (intros e [->| ->%list_elem_of_singleton]%elem_of_cons; congruence).
  assert (rm_transient r <> rm_system r) as Hne by congruence.
  apply wp_bind. unfold newConnectionScope. apply wp_bind, wp_gets, wp_bind, wp_gets, wp_bind.
  unfold nextConnId. apply wp_bind, wp_modify, wp_gets.
  match goal with |- wp _ _ ?x => assert (ok x held kd) as Hok2 by (by apply ok_connId) end.
  eapply wp_mono; [|intros c0 r0 Hadd0; apply wp_bind; exact Hadd0].
  eapply (wp_add_new_conn _ _ held kd); [exact Hok2|by right; left|done|by apply pair_NoDup|exact Hin|exact Hcl1|].
  intros err c r3 Hok3 Hcl3 Hc3 Hz3 Hg3. apply wp_bind.
  assert (rm_conns r3 !! c = Some (mkConn dir usefd false None ep ip)) as Hcn3 by (rewrite Hc3; apply lookup_insert_eq).
  set (d := dir_conns_delta dir usefd) in *.
  apply (wp_mono _ (fun x r' => exists kd' cn', ok r' (grant held x.2 x.1 d) kd' /\ counted r' /\
    rm_conns r' !! x.1 = Some cn' /\ forall x', held x.1 x' = 0)).
  - destruct (is_Some_b err && is_Some_b ip && Allowed ep) eqn:Hretry;
      [|apply wp_ret; eexists _, _; split; [exact Hok3|by split_and!]].
    destruct err as [x|]; [|done]. apply wp_bind.
    eapply wp_mono; [exact (wp_conn_Done _ _ _ c _ Hok3 Hcl3 Hcn3)|]. intros [] r4 (Hok4 & Hcl4 & Hu4 & _).
    apply (ok_ext _ _ held) in Hok4; [|by apply closed_fresh].
    destruct (rg_fixed _ _ (ok_reg _ _ _ Hok4)) as (_ & _ & G3 & G4). set (kd4 := set_role c KConn kd) in *.
    assert (forall e, e ∈ [allowlistedTransient r4; allowlistedSystem r4] -> kd4 e <> KSpan) as Hin4
      by (intros e [->| ->%list_elem_of_singleton]%elem_of_cons; congruence).
    assert (allowlistedTransient r4 <> allowlistedSystem r4) as Hne4 by congruence.
    apply wp_bind. unfold newAllowListedConnectionScope. apply wp_bind, wp_gets, wp_bind, wp_gets, wp_bind.
    unfold nextConnId. apply wp_bind, wp_modify, wp_gets.
    match goal with |- wp _ _ ?x => assert (ok x held kd4) as Hok5 by (by apply ok_connId) end.
    eapply wp_mono; [|intros c0 r0 Hadd0; apply wp_bind; exact Hadd0].
    eapply (wp_add_new_conn _ _ held kd4); [exact Hok5|done|done|by apply pair_NoDup|exact Hin4|exact Hcl4|].
    intros err' c' r6 Hok6 Hcl6 Hc6 Hz6 _. apply wp_ret. eexists _, _. split; [exact Hok6|split; [exact Hcl6|]].
    split; [rewrite Hc6; apply lookup_insert_eq|done].
  - intros [c' err'] r' (kd' & cn' & Hok' & Hcl' & Hcn' & Hz'). cbn [fst snd] in *. destruct err' as [x|].
    + apply wp_bind. eapply wp_mono; [exact (wp_conn_Done _ _ _ c' _ Hok' Hcl' Hcn')|].
      intros [] r5 (Hok5 & Hcl5 & _). apply wp_ret. exists kd'. split; [|done]. cbn.
      eapply ok_ext; [|exact Hok5]. by apply closed_fresh.
    + apply wp_ret. exists kd'. by split.
Qed.

Lemma ok_streamId r held kd n : ok r held kd -> ok (r <| streamId := n |>) held kd.
Proof. intros [H1 H2 H3 [] H5]. split; [exact H1|exact H2|exact H3|by split|exact H5]. Qed.

Lemma counted_heap r h' :
  (forall k, is_live h' k = is_live (rm_heap r) k) -> counted r -> counted (r <| rm_heap := h' |>).
Proof. intros Hl Hcl. unfold counted. rewrite (open_map_conns r); [exact Hcl|done|]. intros k _. apply Hl. Qed.

Lemma wp_decref (Q : () -> resourceManager -> Prop) r held kd s :
  ok r held kd -> counted r -> kd s <> KSpan -> kept (rm_heap r) s ->
  (let r' := r <| rm_heap := upd (at_scope s (more_refs (-1))) (rm_heap r) |> in
   ok r' held kd -> counted r' -> Q () r') ->
  wp (on_heap (DecRef s)) Q r.
Proof using Type.
  intros Hok Hcl Hs Hkept HQ. eapply wp_on_heap; [by apply DecRef_upd, (ok_alloc r held kd Hok)|].
  apply HQ; [by apply ok_decref|]. apply counted_heap; [|done]. intros k. apply is_live_upd.
  intros y _. by destruct (at_refs_like s (-1) k y).
Qed.

Lemma wp_OpenStream r held kd p dir :
  ok r held kd -> counted r ->
  wp (OpenStream L p dir)
    (fun result r' => exists kd', ok r' (opened held result (dir_streams_delta dir)) kd' /\ counted r') r.
Proof using HL.
  intros Hok Hcl. unfold OpenStream. apply wp_bind.
  eapply wp_mono; [by apply wp_getPeerScope|].
  intros peer r1 (kd1 & Hok1 & Haf1 & [Hc1 Hs1] & Hkept1 & Hpeer & Hreg).
  pose proof (after_counted r r1 held kd kd1 Hok Haf1 Hc1 Hcl) as Hcl1.
  destruct (rg_fixed _ _ (ok_reg _ _ _ Hok1)) as (F1 & F2 & _).
  apply wp_bind. unfold newStreamScope. apply wp_bind, wp_gets, wp_bind, wp_gets, wp_bind.
  unfold nextStreamId. apply wp_bind, wp_modify, wp_gets.
  match goal with |- wp _ _ ?x => assert (ok x held kd1) as Hok2 by (by apply ok_streamId) end.
  eapply (wp_new_stream _ _ held kd1); [exact Hok2|apply HL|by split| | |].
  { apply NoDup_cons. split; [|apply pair_NoDup; congruence].
    intros [E|E%list_elem_of_singleton]%elem_of_cons; cbn in E; congruence. }
  { intros e [->|[->| ->%list_elem_of_singleton]%elem_of_cons]%elem_of_cons; cbn; congruence. }
  intros h' k0 r3 Hok3 Haf3 Hlive3. set (kd3 := set_role k0 KStream kd1) in *.
  assert (counted r3) as Hcl3 by (apply (after_counted _ r3 held kd1 kd3 Hok2 Haf3); [done|exact Hcl1]).
  assert (kd1 peer <> KSpan) as Hps by congruence.
  assert (kd3 peer <> KSpan) as Hps3 by (by rewrite (gr_roles _ _ _ _ (af_grows _ _ _ _ Haf3) peer Hps)).
  apply wp_bind. eapply (wp_decref _ _ _ _ _ Hok3 Hcl3); [done|by apply (af_kept _ _ _ _ Haf3)|].
  intros r4 Hok4 Hcl4. apply wp_bind.
  destruct (ok_add (stream_op dir) (dir_streams_delta dir) r4 held kd3 k0 Hok4) as (err & h5 & Hrun & Hok5 & Hl5).
  { apply (ok_alloc r4 held kd3 Hok4). unfold kd3. by rewrite set_role_new. }
  eapply wp_on_heap; [exact Hrun|]. assert (counted (r4 <| rm_heap := h5 |>)) as Hcl5 by (by apply counted_heap).
  destruct err as [x|].
  - apply wp_bind. eapply wp_mono; [eapply (wp_stream_Done _ _ _ k0 _ Hok5 Hcl5), lookup_insert_eq|].
    intros [] r6 (Hok6 & Hcl6 & _). apply wp_ret. exists kd3. split; [|done]. cbn.
    eapply ok_ext; [|exact Hok6]. apply closed_fresh. intros x'.
    apply (ac_fresh _ _ (ok_acc _ _ _ Hok2)). destruct (scopes _ !! k0) as [y|] eqn:Hy; [|done].
    pose proof (sw_next _ _ _ (ok_wf _ _ _ Hok2 k0 y Hy)). unfold k0 in *. lia.
  - apply wp_ret. exists kd3. by split.
Qed.

(** ** Attaching a connection to its peer *)

(** The counters of a scope that reserves and releases, one after the other. *)
Lemma wp_reserve (Q : option rcerror -> resourceManager -> Prop) r e st :
  stat_ok st -> heap_wf (rm_heap r) -> is_Some (scopes (rm_heap r) !! e) ->
  (forall err, Q (Some err) r) ->
  (admits (stat_op st) (rm_heap r) e ->
     Q None (r <| rm_heap := upd (at_scope e (with_rc (granted (stat_op st)))) (rm_heap r) |>)) ->
  wp (on_heap (ReserveForChild e st)) Q r.
Proof using Type.
  intros Hst Hwf He HS HN. destruct (ReserveForChild_upd st e (rm_heap r) Hst Hwf He) as (err & Hrun & Hiff).
  eapply wp_on_heap; [exact Hrun|]. destruct err as [x|]; [|by apply HN, Hiff].
  enough ((r <| rm_heap := rm_heap r |>) = r) as -> by apply HS. by destruct r.
Qed.

Lemma wp_release (Q : () -> resourceManager -> Prop) r e st :
  is_Some (scopes (rm_heap r) !! e) ->
  Q () (r <| rm_heap := upd (at_scope e (dropped (stat_op st))) (rm_heap r) |>) ->
  wp (on_heap (ReleaseForChild e st)) Q r.
Proof using Type. intros He HQ. eapply wp_on_heap; [by apply ReleaseForChild_upd|done]. Qed.

Lemma wp_refs (Q : () -> resourceManager -> Prop) (n : Z) m r e :
  (is_Some (scopes (rm_heap r) !! e) -> m (rm_heap r) = Ok ((), upd (at_scope e (more_refs n)) (rm_heap r))) ->
  is_Some (scopes (rm_heap r) !! e) ->
  Q () (r <| rm_heap := upd (at_scope e (more_refs n)) (rm_heap r) |>) -> wp (on_heap m) Q r.
Proof using Type. intros Hm He HQ. eapply wp_on_heap; [by apply Hm|done]. Qed.

Lemma wp_setEdges (Q : () -> resourceManager -> Prop) r s es :
  Q () (r <| rm_heap := upd (at_scope s (with_edges es)) (rm_heap r) |>) -> wp (setEdges s es) Q r.
Proof using Type. intros HQ. eapply wp_on_heap; [apply updScope_upd|done]. Qed.

Lemma at_exists e f h k : is_Some (scopes h !! k) -> is_Some (scopes (upd (at_scope e f) h) !! k).
Proof using Type. apply upd_exists. Qed.

Lemma bool_in1 (k a : nat) : bool_decide (k ∈ [a]) = bool_decide (k = a).
Proof using Type. apply bool_decide_ext, list_elem_of_singleton. Qed.
Lemma bool_in2 (k a b : nat) : bool_decide (k ∈ [a; b]) = bool_decide (k = a) || bool_decide (k = b).
Proof using Type.
  rewrite <- bool_decide_or. apply bool_decide_ext. by rewrite elem_of_cons, list_elem_of_singleton.
Qed.

(** The steps of a move, put together. *)
Lemma move_one st a t s es h :
  a <> t -> s <> t -> s <> a ->
  upd (at_scope s (with_edges es)) (upd (at_scope t (more_refs (-1)))
    (upd (at_scope t (dropped (stat_op st))) (upd (at_scope a (with_rc (granted (stat_op st)))) h))) =
  upd (shift st [a] [t] s es) h.
Proof using Type.
  intros H1 H2 H3. rewrite !upd_upd. apply upd_ext. intros k y _. unfold shift, at_scope.
  rewrite !bool_in1. repeat (case_bool_decide || case_decide); congruence.
Qed.

Lemma alter_restore {A} (f g : A -> A) c (m : gmap nat A) x :
  m !! c = Some x -> g (f x) = x -> alter g c (alter f c m) = m.
Proof using Type.
  intros Hc Hgf. rewrite alter_alter. apply map_eq. intros k. destruct (decide (k = c)) as [->|Hk].
  - rewrite lookup_alter_eq, Hc. cbn. by rewrite Hgf.
  - by rewrite lookup_alter_ne.
Qed.

Lemma wp_attach_peer r held kd c cn sc p sys tr :
  ok r held kd -> counted r -> rm_conns r !! c = Some cn -> cn_peer cn = None ->
  scopes (rm_heap r) !! c = Some sc -> done sc = false ->
  edges sc = [tr; sys] \/ edges sc = [sys; tr] ->
  (sys = rm_system r /\ tr = rm_transient r) \/ (sys = allowlistedSystem r /\ tr = allowlistedTransient r) ->
  wp (attach_peer L c p sys tr) (fun _ r' => exists kd', ok r' held kd' /\ counted r') r.
Proof using HL.
  intros Hok Hcl Hcn Hnone Hsc Hd Hedges Hsys. unfold attach_peer. apply wp_bind.
  pose proof (rg_conns _ _ (ok_reg _ _ _ Hok) _ _ Hcn) as Hkc.
  eapply wp_mono; [by apply wp_getPeerScope|].
  intros peer r1 (kd1 & Hok1 & Haf1 & [Hc1 Hs1] & Hkept1 & Hpeer & Hreg).
  pose proof (after_counted r r1 held kd kd1 Hok Haf1 Hc1 Hcl) as Hcl1.
  destruct (af_like _ _ _ _ Haf1 c sc Hsc) as (sc1 & Hsc1 & (L1 & L2 & L3) & Hrc & _).
  rewrite <- Hc1 in Hcn. rewrite Hd in L1. rewrite <- L3 in Hedges.
  pose proof (rg_conns _ _ (ok_reg _ _ _ Hok1) _ _ Hcn) as Hkc1.
  destruct (rg_fixed _ _ (ok_reg _ _ _ Hok1)) as (F1 & F2 & F3 & F4).
  assert ((sys = rm_system r1 /\ tr = rm_transient r1) \/ (sys = allowlistedSystem r1 /\ tr = allowlistedTransient r1)) as Hsys1.
  { destruct (af_grows _ _ _ _ Haf1) as [E1 E2 E3 E4 _ _ _ _ _ _]. rewrite E1, E2, E3, E4. exact Hsys. }
  assert (kd1 sys = KSystem \/ kd1 sys = KAllowSystem) as Ksys by (destruct Hsys1 as [[-> _]|[-> _]]; tauto).
  assert (kd1 tr = KTransient \/ kd1 tr = KAllowTransient) as Ktr by (destruct Hsys1 as [[_ ->]|[_ ->]]; tauto).
  clear Hsys F1 F2 F3 F4. set (h1 := rm_heap r1) in *.
  assert (peer <> tr /\ peer <> sys /\ sys <> tr /\ c <> tr /\ c <> sys /\ c <> peer) as (N1 & N2 & N3 & N4 & N5 & N6)
    by (split_and!; intros ->; destruct Ksys, Ktr; congruence).
  apply wp_bind, wp_modify, wp_bind.
  apply (wp_on_heap _ _ _ sc1 h1); [unfold getScope, deref; change (rm_heap _) with h1; by rewrite Hsc1|].
  pose proof (move_stat_ok h1 held c sc1 (ok_acc _ _ _ Hok1) Hsc1) as Hst. set (st := stat (rc sc1)) in *.
  assert (forall k, kd1 k <> KSpan -> is_Some (scopes h1 !! k)) as Hex by (intros k; apply (ok_alloc r1 held kd1 Hok1)).
  assert (is_Some (scopes h1 !! peer)) as Xp by (apply Hex; congruence).
  assert (is_Some (scopes h1 !! tr)) as Xt by (apply Hex; destruct Ktr; congruence).
  apply wp_bind, wp_reserve; [exact Hst|apply (ok_wf r1 held kd1 Hok1)|exact Xp| |].
  - intros err. apply wp_bind. eapply (wp_refs _ (-1)); [apply DecRef_upd|exact Xp|].
    apply wp_bind, wp_modify, wp_ret. exists kd1.
    match goal with |- ok ?x _ _ /\ _ =>
      assert (x = r1 <| rm_heap := upd (at_scope peer (more_refs (-1))) h1 |>) as -> end.
    { transitivity (r1 <| rm_heap := upd (at_scope peer (more_refs (-1))) h1 |>
        <| rm_conns := alter (fun cn => cn <| cn_peer := None |>) c
             (alter (fun cn => cn <| cn_peer := Some peer |>) c (rm_conns r1)) |>); [done|].
      rewrite (alter_restore _ _ c (rm_conns r1) cn Hcn) by (destruct cn; cbn in *; by rewrite Hnone). by destruct r1. }
    split; [by apply ok_decref|]. apply counted_heap; [|done]. intros k. apply is_live_upd.
    intros y _. by destruct (at_refs_like peer (-1) k y).
  - intros Hadm. apply wp_bind, wp_release; [by apply at_exists|].
    apply wp_bind. eapply (wp_refs _ (-1)); [apply DecRef_upd|by do 2 apply at_exists|].
    apply wp_bind, wp_setEdges, wp_ret. exists kd1.
    match goal with |- ok ?x _ _ /\ _ => set (r' := x) end.
    assert (rm_heap r' = upd (shift st [peer] [tr] c [peer; sys]) h1) as Hh' by (by apply move_one).
    assert (forall e, e ∈ edges sc1 <-> e = tr \/ e = sys) as Hin.
    { intros e. destruct Hedges as [->| ->]; rewrite elem_of_cons, list_elem_of_singleton; tauto. }
    destruct (ok_moved r1 r' held kd1 c sc1 [peer; sys] [peer] [tr] Hok1 Hsc1 L1) as [Hok' Hl'];
      try (by rewrite Hkc1); try done.
    + by apply pair_NoDup.
    + intros e. rewrite Hin, elem_of_cons, !list_elem_of_singleton. split; [intros [->| ->]; [by left|right]|].
      * split; [by right|]. congruence.
      * intros [->|[[->| ->] ?]]; [by left|done|by right].
    + intros e ->%list_elem_of_singleton. apply Hin. by left.
    + intros e ->%list_elem_of_singleton. rewrite Hin, Hpeer. split; [intros [?|?]; done|by split_and!].
    + intros k Hk. split; [|done]. unfold r'. cbn. by rewrite lookup_alter_ne.
    + intros _. split; [|done]. unfold r'. cbn. rewrite lookup_alter_eq, Hcn. by eexists.
    + unfold shape. rewrite Hkc1. exists (cn <| cn_peer := Some peer |>). split.
      * unfold r'. cbn. by rewrite lookup_alter_eq, Hcn.
      * intros _. unfold conn_edges. cbn. split; [by exists p|]. destruct Hsys1 as [[-> _]|[-> _]]; [by left|by right].
    + split; [done|]. unfold counted. enough (open_ips r' = open_ips r1) as -> by exact Hcl1.
      apply (open_map_alter _ _ c (fun cn => cn <| cn_peer := Some peer |>)); done.
Qed.

(** ** From the allowlisted scopes to the standard ones *)

Lemma admits_refs op n e h k : admits op (upd (at_scope e (more_refs n)) h) k <-> admits op h k.
Proof using Type.
  unfold admits. split.
  - intros (y & Hy & H1 & H2). rewrite lookup_upd in Hy. destruct (scopes h !! k) as [z|] eqn:Hz; [|done].
    cbn in Hy. injection Hy as <-. exists z. unfold at_scope in *. destruct (decide (k = e)); by split_and!.
  - intros (y & Hy & H1 & H2). exists (at_scope e (more_refs n) k y). rewrite lookup_upd, Hy.
    unfold at_scope. destruct (decide (k = e)); by split_and!.
Qed.

Lemma admits_elsewhere op e f h k : k <> e -> admits op (upd (at_scope e f) h) k <-> admits op h k.
Proof using Type.
  intros Hk. unfold admits. rewrite lookup_upd. destruct (scopes h !! k) as [y|]; [|done]. cbn.
  unfold at_scope. by rewrite decide_False.
Qed.

Lemma drop_edges st c es h :
  NoDup es -> c ∉ es -> (forall e, e ∈ es -> is_Some (scopes h !! e)) ->
  exists h', for_each es (fun e => ReleaseForChild e st ;; DecRef e) h = Ok ((), h') /\
    upd (at_scope c (with_edges [])) h' = upd (shift st [] es c []) h.
Proof using Type.
  intros Hnd Hc Hex. destruct (for_each_drop (stat_op st) es h Hnd Hex) as (h' & Hrun & Hn & Hlk).
  exists h'. split; [exact Hrun|]. apply heap_ext; [exact Hn|]. apply map_eq. intros k.
  rewrite !lookup_upd, Hlk. destruct (scopes h !! k) as [y|]; [|done]. cbn. f_equal.
  unfold shift, at_scope. rewrite (bool_decide_eq_false_2 (k ∈ [])) by apply not_elem_of_nil.
  unfold drop_child, dropped. by destruct (bool_decide (k ∈ es)), (decide (k = c)), (done y).
Qed.

Lemma move_two st a b s es h :
  a <> b -> s <> a -> s <> b ->
  upd (at_scope s (with_edges es)) (upd (at_scope b (more_refs 1)) (upd (at_scope b (with_rc (granted (stat_op st))))
    (upd (at_scope a (more_refs 1)) (upd (at_scope a (with_rc (granted (stat_op st)))) h)))) =
  upd (shift st [a; b] [] s es) (upd (at_scope b (more_refs 1)) (upd (at_scope a (more_refs 1)) h)).
Proof using Type.
  intros H1 H2 H3. rewrite !upd_upd. apply upd_ext. intros k y _. unfold shift, at_scope.
  rewrite !bool_in2, (bool_decide_eq_false_2 (k ∈ [])) by apply not_elem_of_nil.
  repeat (case_bool_decide || case_decide); congruence || done.
Qed.

(** The connection without any edges, in the middle of a transfer. *)
Lemma wp_leave_allowlist (Q : () -> resourceManager -> Prop) r held kd c cn sc :
  ok r held kd -> counted r -> rm_conns r !! c = Some cn -> cn_peer cn = None ->
  scopes (rm_heap r) !! c = Some sc -> done sc = false ->
  (forall r', ok r' held kd -> counted r' -> rm_conns r' !! c = Some (cn <| isAllowlisted := false |>) ->
     same_names r r' -> scopes (rm_heap r') !! c = Some (with_edges [] sc) -> Q () r') ->
  wp (on_heap (for_each (edges sc) (fun e => ReleaseForChild e (stat (rc sc)) ;; DecRef e)) ;; setEdges c []) Q
    (r <| rm_conns := alter (fun cn => cn <| isAllowlisted := false |>) c (rm_conns r) |>).
Proof using Type.
  intros Hok Hcl Hcn Hnone Hsc Hd HQ. pose proof (rg_conns _ _ (ok_reg _ _ _ Hok) _ _ Hcn) as Hkc.
  pose proof (ok_wf r held kd Hok c sc Hsc) as Hwf.
  assert (c ∉ edges sc) as Hself by (intros Hin; by destruct (sw_edges _ _ _ Hwf c Hin)).
  destruct (drop_edges (stat (rc sc)) c (edges sc) (rm_heap r) (sw_nodup _ _ _ Hwf) Hself) as (h' & Hrun & Hh').
  { intros e He. destruct (sw_edges _ _ _ Hwf e He) as (_ & y & -> & _). by eexists. }
  apply wp_bind. eapply wp_on_heap; [exact Hrun|]. apply wp_setEdges.
  match goal with |- Q _ ?x => set (r' := x) end.
  assert (rm_heap r' = upd (shift (stat (rc sc)) [] (edges sc) c []) (rm_heap r)) as Hheap by exact Hh'.
  destruct (ok_moved r r' held kd c sc [] [] (edges sc) Hok Hsc Hd) as [Hok' Hl'];
    try (by rewrite Hkc); try done.
  - apply NoDup_nil_2.
  - intros e. split; [by intros ?%elem_of_nil|intros [?%elem_of_nil|[? ?]]; done].
  - by intros e ?%elem_of_nil.
  - intros k Hk. split; [|done]. unfold r'. cbn. by rewrite lookup_alter_ne.
  - intros _. split; [|done]. unfold r'. cbn. rewrite lookup_alter_eq, Hcn. by eexists.
  - unfold shape. rewrite Hkc. exists (cn <| isAllowlisted := false |>). split.
    + unfold r'. cbn. by rewrite lookup_alter_eq, Hcn.
    + intros _. unfold conn_edges. cbn. rewrite Hnone. by left.
  - apply HQ; [done| | |done|].
    + unfold counted. enough (open_ips r' = open_ips r) as -> by exact Hcl.
      apply (open_map_alter _ _ c (fun cn => cn <| isAllowlisted := false |>)); done.
    + unfold r'. cbn. by rewrite lookup_alter_eq, Hcn.
    + rewrite Hheap, lookup_upd, Hsc. cbn. unfold shift.
      by rewrite decide_True, (bool_decide_eq_false_2 (c ∈ [])), (bool_decide_eq_false_2 (c ∈ edges sc))
        by (done || apply not_elem_of_nil).
Qed.

Lemma wp_transferAllowedToStandard r held kd c cn sc :
  ok r held kd -> counted r -> rm_conns r !! c = Some cn -> cn_peer cn = None ->
  scopes (rm_heap r) !! c = Some sc -> done sc = false ->
  wp (transferAllowedToStandard c)
    (fun err r' => ok r' held kd /\ counted r' /\ same_names r r' /\
       (err = None -> rm_conns r' !! c = Some (cn <| isAllowlisted := false |>) /\
          exists sc', scopes (rm_heap r') !! c = Some sc' /\ done sc' = false /\
            edges sc' = [rm_system r'; rm_transient r']))
    (r <| rm_conns := alter (fun cn => cn <| isAllowlisted := false |>) c (rm_conns r) |>).
Proof using Type.
  intros Hok Hcl Hcn Hnone Hsc Hd. unfold transferAllowedToStandard.
  apply wp_bind, wp_gets, wp_bind, wp_gets, wp_bind.
  apply (wp_on_heap _ _ _ sc (rm_heap r)); [unfold getScope, deref; change (rm_heap _) with (rm_heap r); by rewrite Hsc|].
  assert (forall A (m : M resourceManager A) Q (x : resourceManager), wp (on_heap (for_each (edges sc) (fun e => ReleaseForChild e (stat (rc sc)) ;; DecRef e)) ;; setEdges c []) (fun _ => wp m Q) x -> wp (on_heap (for_each (edges sc) (fun e => ReleaseForChild e (stat (rc sc)) ;; DecRef e)) ;; setEdges c [] ;; m) Q x) as Hassoc.
  { intros A m Q x. unfold wp, bind. destruct (on_heap _ x) as [[a y]|]; [|done]. by destruct (setEdges c [] y) as [[? ?]|]. }
  apply Hassoc. eapply (wp_leave_allowlist _ r held kd c cn sc); try done.
  intros r1 Hok1 Hcl1 Hcn1 Hn1 Hsc1. set (sc1 := with_edges [] sc) in *. set (st := stat (rc sc)) in *.
  pose proof (rg_conns _ _ (ok_reg _ _ _ Hok1) _ _ Hcn1) as Hkc.
  destruct (rg_fixed _ _ (ok_reg _ _ _ Hok1)) as (F1 & F2 & _).
  pose proof (move_stat_ok (rm_heap r1) held c sc1 (ok_acc _ _ _ Hok1) Hsc1) as Hst. fold st in Hst.
  destruct Hn1 as [E1 E2 E3 E4 E5 E6 E7].
  match goal with |- context [ReserveForChild (rm_system ?x)] =>
    change (rm_system x) with (rm_system r); change (rm_transient x) with (rm_transient r) end.
  rewrite <- E1, <- E2. set (sys := rm_system r1) in *. set (tr := rm_transient r1) in *.
  assert (sys <> tr /\ c <> sys /\ c <> tr) as (N1 & N2 & N3) by (split_and!; congruence).
  assert (is_Some (scopes (rm_heap r1) !! sys)) as Xs by (apply (ok_alloc r1 held kd Hok1); congruence).
  assert (is_Some (scopes (rm_heap r1) !! tr)) as Xt by (apply (ok_alloc r1 held kd Hok1); congruence).
  apply wp_bind, wp_reserve; [exact Hst|apply (ok_wf r1 held kd Hok1)|exact Xs| |].
  { intros err. apply wp_ret. by split_and!. }
  intros Hadm1. apply wp_bind. eapply (wp_refs _ 1); [apply IncRef_upd|by apply at_exists|].
  apply wp_bind, wp_reserve; [exact Hst| |by do 2 apply at_exists| |].
  { apply refs_wf, granted_wf; [exact Hst|apply (ok_wf r1 held kd Hok1)|done]. }
  - intros err. apply wp_bind, wp_release; [by do 2 apply at_exists|].
    apply wp_bind. eapply (wp_refs _ (-1)); [apply DecRef_upd|by do 3 apply at_exists|]. apply wp_ret.
    match goal with |- ok ?x _ _ /\ _ => assert (x = r1) as -> end.
    { match goal with |- ?x = _ => transitivity (r1 <| rm_heap := rm_heap x |>); [done|] end.
      match goal with |- r1 <| rm_heap := ?h |> = _ => assert (h = rm_heap r1) as -> end; [|by destruct r1].
      cbn [rm_heap set_field]. rewrite !upd_upd. apply upd_id. intros k y Hk. unfold at_scope.
      destruct (decide (k = sys)) as [->|]; [|done]. rewrite dropped_refs.
      pose proof (dropped_granted (rm_heap r1) held c sc1 (ok_acc _ _ _ Hok1) Hsc1 sys (rm_heap r1) y
        (ok_wf r1 held kd Hok1) Hk Hadm1) as Hdg. change (stat (rc sc1)) with st in Hdg.
      rewrite Hdg. apply more_refs_back. }
    by split_and!.
  - intros Hadm2. apply wp_bind. eapply (wp_refs _ 1); [apply IncRef_upd|by do 3 apply at_exists|].
    apply wp_bind, wp_setEdges, wp_ret.
    change (admits (stat_op st) (upd (at_scope sys (more_refs 1))
      (upd (at_scope sys (with_rc (granted (stat_op st)))) (rm_heap r1))) tr) in Hadm2.
    rewrite !admits_elsewhere in Hadm2 by congruence.
    match goal with |- ok ?x _ _ /\ _ => set (r' := x) end.
    set (r2 := r1 <| rm_heap := upd (at_scope sys (more_refs 1)) (rm_heap r1) |>).
    destruct (ok_incref r1 held kd sys Hok1) as (Hok2 & Hkept2 & _). fold r2 in Hok2, Hkept2.
    set (r3 := r2 <| rm_heap := upd (at_scope tr (more_refs 1)) (rm_heap r2) |>).
    destruct (ok_incref r2 held kd tr Hok2) as (Hok3 & Hkept3 & Hmono). fold r3 in Hok3, Hkept3, Hmono.
    assert (rm_heap r' = upd (shift st [sys; tr] [] c [sys; tr]) (rm_heap r3)) as Hh' by (by apply move_two).
    assert (scopes (rm_heap r3) !! c = Some sc1) as Hsc3.
    { change (rm_heap r3) with (upd (at_scope tr (more_refs 1)) (upd (at_scope sys (more_refs 1)) (rm_heap r1))).
      rewrite !lookup_upd, Hsc1. cbn. unfold at_scope. by rewrite !decide_False by done. }
    destruct (ok_moved r3 r' held kd c sc1 [sys; tr] [sys; tr] [] Hok3 Hsc3 Hd) as [Hok' Hl'];
      try (by rewrite Hkc); try done.
    + by apply pair_NoDup.
    + intros e. split; [by left|intros [?|[?%elem_of_nil _]]; done].
    + intros e He. split; [apply not_elem_of_nil|].
      assert (kept (rm_heap r3) e /\ admits (stat_op st) (rm_heap r1) e /\ (kd e = KSystem \/ kd e = KTransient))
        as (Hk & Ha & Hr).
      { apply elem_of_cons in He as [->| ->%list_elem_of_singleton]; split_and!; auto. }
      split; [destruct Hr; congruence|split; [by destruct Hr as [->| ->]|split; [done|]]].
      by apply admits_refs, admits_refs.
    + unfold shape. rewrite Hkc. exists (cn <| isAllowlisted := false |>). split; [exact Hcn1|].
      intros _. unfold conn_edges. cbn. rewrite Hnone. by right; right.
    + assert (same_names r r') as Hn' by (by split).
      split; [done|split; [|split; [done|]]].
      * unfold counted. rewrite (open_map_conns r1); [exact Hcl1|done|]. intros k _. rewrite Hl'.
        unfold r3, r2. rewrite !heap_set, !is_live_upd; [done|..];
          intros y _; [by destruct (at_refs_like sys 1 k y)|by destruct (at_refs_like tr 1 k y)].
      * intros _. split; [exact Hcn1|]. exists (with_edges [sys; tr] sc1). split_and!; try done.
        rewrite Hh', lookup_upd, Hsc3. cbn. unfold shift.
        rewrite decide_True, bool_in2, !bool_decide_eq_false_2 by (done || apply not_elem_of_nil). done.
Qed.

Lemma wp_SetPeer AllowedPeer r held kd c cn sc p :
  ok r held kd -> counted r -> rm_conns r !! c = Some cn ->
  scopes (rm_heap r) !! c = Some sc -> done sc = false -> edges sc <> [] ->
  wp (SetPeer L AllowedPeer c p) (fun _ r' => exists kd', ok r' held kd' /\ counted r') r.
Proof using HL.
  intros Hok Hcl Hcn Hsc Hd Hne. pose proof (rg_conns _ _ (ok_reg _ _ _ Hok) _ _ Hcn) as Hkc.
  destruct (ok_shape _ _ _ Hok c sc Hsc) as [Hsh _]. unfold shape in Hsh. rewrite Hkc in Hsh.
  destruct Hsh as (cn' & Hcn' & Hes). rewrite Hcn in Hcn'. injection Hcn' as <-. specialize (Hes Hd).
  unfold SetPeer. apply wp_bind. eapply wp_deref; [exact Hcn|].
  unfold conn_edges in Hes. destruct (cn_peer cn) as [peer|] eqn:Hpeer; [apply wp_ret; exists kd; by split|].
  apply wp_bind, wp_gets, wp_bind, wp_gets. destruct (isAllowlisted cn) eqn:Hal.
  - destruct (AllowedPeer p (endpoint cn)).
    + apply wp_bind, wp_gets, wp_bind, wp_gets.
      eapply (wp_attach_peer _ held kd c cn sc); try done; [by left|by right].
    + apply wp_bind, wp_modify, wp_bind.
      eapply wp_mono; [by apply (wp_transferAllowedToStandard r held kd c cn sc)|].
      intros err r1 (Hok1 & Hcl1 & Hn1 & Hnext). destruct err as [x|]; [apply wp_ret; exists kd; by split|].
      destruct (Hnext eq_refl) as (Hcn1 & sc1 & Hsc1 & Hd1 & Hes1).
      rewrite <- (sn_system _ _ Hn1), <- (sn_transient _ _ Hn1).
      eapply (wp_attach_peer _ held kd c _ sc1); try done; [by right|by left].
  - eapply (wp_attach_peer _ held kd c cn sc); try done; [|by left].
    destruct Hes as [?|[Hes|Hes]]; [done|by left|by right].
Qed.

(** ** Streams *)

(** Different roles, different scopes. *)
Ltac nodup_roles :=
  repeat (apply NoDup_cons; split; [rewrite ?not_elem_of_cons; split_and?; try done; apply not_elem_of_nil|]);
  apply NoDup_nil_2.

Lemma move_two_one st a b t s es h :
  a <> b -> a <> t -> b <> t -> s <> t -> s <> a -> s <> b ->
  upd (at_scope s (with_edges es)) (upd (at_scope t (more_refs (-1)))
    (upd (at_scope t (dropped (stat_op st))) (upd (at_scope b (with_rc (granted (stat_op st))))
      (upd (at_scope a (with_rc (granted (stat_op st)))) h)))) =
  upd (shift st [a; b] [t] s es) h.
Proof using Type.
  intros H1 H2 H3 H4 H5 H6. rewrite !upd_upd. apply upd_ext. intros k y _. unfold shift, at_scope.
  rewrite bool_in2, bool_in1. repeat (case_bool_decide || case_decide); congruence || done.
Qed.

Lemma after_admits op r r' kd kd' e : after r r' kd kd' -> admits op (rm_heap r) e -> admits op (rm_heap r') e.
Proof using Type.
  intros Haf (y & Hy & H1 & H2). destruct (af_like _ _ _ _ Haf e y Hy) as (y' & Hy' & (L1 & _) & Hrc & _).
  exists y'. by rewrite Hy', L1, Hrc.
Qed.

(** What [SetProtocol] and [SetService] share: what the stream uses is reserved
    in the scope [e], then in that of the peer within it, or in neither. *)
Lemma wp_reserve_two (Q : option rcerror -> resourceManager -> Prop) getPart (K : nat -> M resourceManager (option rcerror))
    r held kd s sc e part :
  ok r held kd -> counted r -> scopes (rm_heap r) !! s = Some sc -> kd s <> KSpan ->
  kept (rm_heap r) e -> kd e <> KSpan -> kd e <> part -> part <> KSpan ->
  let st := stat (rc sc) in let f := with_rc (granted (stat_op st)) in
  wp getPart (fun q r2 => exists r', r2 = r' <| rm_heap := upd (at_scope e f) (rm_heap r') |> /\
       got r held kd (fun kd' q _ => kd' q = part) q r')
    (r <| rm_heap := upd (at_scope e f) (rm_heap r) |>) ->
  (forall q r1 kd1, ok r1 held kd1 -> after r r1 kd kd1 -> same_users r r1 -> counted r1 -> kd1 q = part ->
     kept (rm_heap r1) e -> kept (rm_heap r1) q ->
     admits (stat_op st) (rm_heap r1) e -> admits (stat_op st) (rm_heap r1) q ->
     wp (K q) Q (r1 <| rm_heap := upd (at_scope q f) (upd (at_scope e f) (rm_heap r1)) |>)) ->
  (forall x r' kd', ok r' held kd' -> counted r' -> Q (Some x) r') ->
  wp (err <- on_heap (ReserveForChild e st) ;;
      match err with
      | Some x => on_heap (DecRef e) ;; ret (Some x)
      | None =>
          q <- getPart ;;
          err <- on_heap (ReserveForChild q st) ;;
          match err with
          | Some x =>
              on_heap (ReleaseForChild e st) ;; on_heap (DecRef e) ;; on_heap (DecRef q) ;; ret (Some x)
          | None => K q
          end
      end) Q r.
Proof using Type.
  intros Hok Hcl Hs Hss Hkept He Hep Hpart st f Hget HK HS.
  pose proof (move_stat_ok (rm_heap r) held s sc (ok_acc _ _ _ Hok) Hs) as Hst. fold st in Hst.
  apply wp_bind, wp_reserve; [exact Hst|apply (ok_wf r held kd Hok)|by apply (ok_alloc r held kd Hok)| |].
  { intros x. apply wp_bind, (wp_decref _ r held kd); try done. intros r' Hok' Hcl'. apply wp_ret. by apply (HS _ _ kd). }
  intros Hadm. apply wp_bind. eapply wp_mono; [exact Hget|].
  intros q r2 (r1 & -> & kd1 & Hok1 & Haf1 & Hu1 & Hkq & Hq).
  pose proof (after_counted r r1 held kd kd1 Hok Haf1 (proj1 Hu1) Hcl) as Hcl1.
  pose proof (after_admits _ _ _ _ _ _ Haf1 Hadm) as Hadm1.
  pose proof (gr_roles _ _ _ _ (af_grows _ _ _ _ Haf1) e He) as Hke.
  pose proof (af_kept _ _ _ _ Haf1 e He Hkept) as Hkept1.
  assert (kd1 q <> KSpan) as Hqs by (by rewrite Hq). assert (q <> e) as Hqe by (intros ->; congruence).
  assert (is_Some (scopes (rm_heap r1) !! q)) as Xq by (by apply (ok_alloc r1 held kd1 Hok1)).
  assert (is_Some (scopes (rm_heap r1) !! e)) as Xe by (apply (ok_alloc r1 held kd1 Hok1); congruence).
  apply wp_bind, wp_reserve; [exact Hst| |by apply at_exists| |].
  - apply granted_wf; [exact Hst|apply (ok_wf r1 held kd1 Hok1)|done].
  - intros x. apply wp_bind, wp_release; [by apply at_exists|].
    match goal with |- wp _ _ ?x => assert (x = r1) as -> end.
    { match goal with |- ?x = _ => transitivity (r1 <| rm_heap := rm_heap x |>); [done|] end.
      match goal with |- r1 <| rm_heap := ?h |> = _ => assert (h = rm_heap r1) as -> end; [|by destruct r1].
      cbn [rm_heap set_field]. rewrite upd_upd. apply upd_id. intros k y Hk. unfold at_scope.
      destruct (decide (k = e)) as [->|]; [|done]. destruct (af_like _ _ _ _ Haf1 s sc Hs) as (sc1 & Hs1 & _ & Hrc1 & _).
      pose proof (dropped_granted (rm_heap r1) held s sc1 (ok_acc _ _ _ Hok1) Hs1 e (rm_heap r1) y
        (ok_wf r1 held kd1 Hok1) Hk) as Hdg. rewrite Hrc1 in Hdg. by apply Hdg. }
    apply wp_bind, (wp_decref _ r1 held kd1); try done; [congruence|]. intros r2 Hok2 Hcl2.
    apply wp_bind, (wp_decref _ r2 held kd1); try done; [by apply kept_decref|]. intros r3 Hok3 Hcl3.
    apply wp_ret. by apply (HS _ _ kd1).
  - intros Hadm2. change (admits (stat_op st) (upd (at_scope e f) (rm_heap r1)) q) in Hadm2.
    rewrite admits_elsewhere in Hadm2 by done. by apply (HK q r1 kd1).
Qed.

Lemma wp_SetProtocol r held kd s st sc n :
  ok r held kd -> counted r -> rm_streams r !! s = Some st ->
  scopes (rm_heap r) !! s = Some sc -> done sc = false ->
  wp (SetProtocol L s n) (fun _ r' => exists kd', ok r' held kd' /\ counted r') r.
Proof using HL.
  intros Hok Hcl Hst Hsc Hd. pose proof (rg_streams _ _ (ok_reg _ _ _ Hok) _ _ Hst) as Hks.
  destruct (ok_shape _ _ _ Hok s sc Hsc) as [Hsh _]. unfold shape in Hsh. rewrite Hks in Hsh.
  destruct Hsh as (st' & Hst' & Hes). rewrite Hst in Hst'. injection Hst' as <-. specialize (Hes Hd).
  unfold SetProtocol. apply wp_bind. eapply wp_deref; [exact Hst|].
  destruct (st_proto st) as [pr|] eqn:Hpr; [apply wp_ret; exists kd; by split|].
  destruct (stream_roles r held kd Hok st _ Hes) as [Hkp _]. destruct Hes as [Hreg Hes]. rewrite Hpr in Hes.
  destruct (peerProtoScope st) eqn:Hpps, (st_svc st) eqn:Hsv, (peerSvcScope st) eqn:Hpss; try done.
  apply wp_bind. eapply wp_mono; [by apply wp_getProtocolScope|].
  intros pr r1 (kd1 & Hok1 & Haf1 & [Hc1 Hs1] & Hkept1 & Hkpr & ns & Hns & _).
  pose proof (after_counted r r1 held kd kd1 Hok Haf1 Hc1 Hcl) as Hcl1.
  destruct (af_like _ _ _ _ Haf1 s sc Hsc) as (sc1 & Hsc1 & (L1 & L2 & L3) & Hrc & _).
  apply wp_bind. apply (wp_on_heap _ _ _ sc1 (rm_heap r1)); [unfold getScope, deref; by rewrite Hsc1|].
  match goal with |- wp _ _ ?x => assert (x = r1) as -> by (by destruct r1) end.
  assert (kd1 s = KStream) as Hks1 by (rewrite <- Hks; apply (gr_roles _ _ _ _ (af_grows _ _ _ _ Haf1)); congruence).
  apply (wp_reserve_two _ _ _ r1 held kd1 s sc1 pr (KProtoPeer n (st_peer st))); try congruence; try done.
  - apply (wp_protocol_getPeerScope r1 held kd1 n ns); congruence.
  - intros pps r2 kd2 Hok2 Haf2 [Hc2 Hs2] Hcl2 Hkpps Hkept2 Hkept2' Hadm Hadm'.
    pose proof (after_trans _ _ _ _ _ _ Haf1 Haf2) as Haf. pose proof (af_grows _ _ _ _ Haf) as Hg.
    destruct (af_like _ _ _ _ Haf2 s sc1 Hsc1) as (sc2 & Hsc2 & (M1 & M2 & M3) & Hrc2 & _).
    destruct (rg_fixed _ _ (ok_reg _ _ _ Hok2)) as (F1 & F2 & _).
    assert (kd2 pr = KProto n) as Hkpr2 by (rewrite <- Hkpr; apply (gr_roles _ _ _ _ (af_grows _ _ _ _ Haf2)); congruence).
    assert (kd2 s = KStream) as Hks2 by (rewrite <- Hks1; apply (gr_roles _ _ _ _ (af_grows _ _ _ _ Haf2)); congruence).
    assert (kd2 (st_peerScope st) = KPeer (st_peer st)) as Hkp2
      by (rewrite <- Hkp; apply (gr_roles _ _ _ _ Hg); congruence).
    apply wp_bind, wp_gets, wp_bind, wp_gets.
    set (tr := rm_transient r2) in *. set (sys := rm_system r2) in *.
    assert (edges sc2 = [st_peerScope st; tr; sys]) as Hes2.
    { rewrite M3, L3, Hes. unfold tr, sys. by rewrite (gr_transient _ _ _ _ Hg), (gr_system _ _ _ _ Hg). }
    assert (is_Some (scopes (rm_heap r2) !! tr)) as Xt by (apply (ok_alloc r2 held kd2 Hok2); congruence).
    match goal with |- context [ReleaseForChild (rm_transient ?x)] =>
      change (rm_transient x) with tr; change (rm_system x) with sys end.
    apply wp_bind, wp_release; [by do 2 apply at_exists|]. apply wp_bind.
    eapply (wp_refs _ (-1)); [apply DecRef_upd|by do 3 apply at_exists|].
    apply wp_bind, wp_setEdges, wp_bind, wp_modify, wp_ret. exists kd2.
    match goal with |- ok ?x _ _ /\ _ => set (r' := x) end.
    set (es := [st_peerScope st; pps; pr; sys]) in *.
    assert (rm_heap r' = upd (shift (stat (rc sc1)) [pr; pps] [tr] s es) (rm_heap r2)) as Hh'
      by (apply move_two_one; congruence).
    rewrite <- Hrc2 in *. assert (done sc2 = false) as Hd2 by congruence.
    assert (rm_streams r2 !! s = Some st) as Hst2 by (by rewrite Hs2, Hs1).
    destruct (ok_moved r2 r' held kd2 s sc2 es [pr; pps] [tr] Hok2 Hsc2 Hd2) as [Hok' Hl'];
      try (by rewrite Hks2); try done.
    + apply (NoDup_fmap_1 kd2). cbn. rewrite Hkp2, Hkpps, Hkpr2, F1. nodup_roles.
    + intros e. rewrite Hes2. unfold es. assert (st_peerScope st <> tr /\ sys <> tr) as [? ?] by (split; congruence).
      set_unfold. naive_solver.
    + intros e ->%list_elem_of_singleton. rewrite Hes2. set_unfold. tauto.
    + intros e He. rewrite Hes2. apply elem_of_cons in He as [->| ->%list_elem_of_singleton].
      * split_and!; [|congruence|by rewrite Hkpr2|done|done]. set_unfold. intros [?|[?|[?|?]]]; congruence || done.
      * split_and!; [|congruence|by rewrite Hkpps|done|done]. set_unfold. intros [?|[?|[?|?]]]; congruence || done.
    + intros k Hk. split; [done|]. unfold r'. cbn. by rewrite lookup_alter_ne.
    + intros _. split; [|done]. unfold r'. cbn. rewrite lookup_alter_eq, Hst2. by eexists.
    + unfold shape. rewrite Hks2. exists (st <| st_proto := Some pr |> <| peerProtoScope := Some pps |>). split.
      * unfold r'. cbn. by rewrite lookup_alter_eq, Hst2.
      * intros _. unfold stream_edges. cbn. rewrite Hsv, Hpss. split; [by apply (gr_peer _ _ _ _ Hg)|].
        split; [by exists n|done].
    + split; [done|]. unfold counted. rewrite (open_map_conns r2 r'); [exact Hcl2|done|]. intros k _. apply Hl'.
  - intros _ r' kd' ? ?. by exists kd'.
Qed.

Lemma move_pair st a b s es h :
  a <> b -> s <> a -> s <> b ->
  upd (at_scope s (with_edges es)) (upd (at_scope b (with_rc (granted (stat_op st))))
      (upd (at_scope a (with_rc (granted (stat_op st)))) h)) =
  upd (shift st [a; b] [] s es) h.
Proof using Type.
  intros H1 H2 H3. rewrite !upd_upd. apply upd_ext. intros k y _. unfold shift, at_scope.
  rewrite bool_in2, (bool_decide_eq_false_2 (k ∈ [])) by apply not_elem_of_nil.
  repeat (case_bool_decide || case_decide); congruence || done.
Qed.

Lemma wp_SetService r held kd s st sc n :
  ok r held kd -> counted r -> rm_streams r !! s = Some st ->
  scopes (rm_heap r) !! s = Some sc -> done sc = false ->
  wp (SetService L s n) (fun _ r' => exists kd', ok r' held kd' /\ counted r') r.
Proof using HL.
  intros Hok Hcl Hst Hsc Hd. pose proof (rg_streams _ _ (ok_reg _ _ _ Hok) _ _ Hst) as Hks.
  destruct (ok_shape _ _ _ Hok s sc Hsc) as [Hsh _]. unfold shape in Hsh. rewrite Hks in Hsh.
  destruct Hsh as (st' & Hst' & Hes). rewrite Hst in Hst'. injection Hst' as <-. specialize (Hes Hd).
  unfold SetService. apply wp_bind. eapply wp_deref; [exact Hst|].
  destruct (st_svc st) as [sv|] eqn:Hsv; [apply wp_ret; exists kd; by split|].
  destruct (st_proto st) as [pr|] eqn:Hpr; [|apply wp_ret; exists kd; by split].
  destruct (stream_roles r held kd Hok st _ Hes) as [Hkp _]. destruct Hes as [Hreg Hes]. rewrite Hpr, Hsv in Hes.
  destruct (peerProtoScope st) as [pps|] eqn:Hpps, (peerSvcScope st) eqn:Hpss; try done.
  destruct Hes as [(m & Hkpr & Hkpps) Hes].
  apply wp_bind. eapply wp_mono; [by apply wp_getServiceScope|].
  intros sv r1 (kd1 & Hok1 & Haf1 & [Hc1 Hs1] & Hkept1 & Hksv & ns & Hns & _).
  pose proof (after_counted r r1 held kd kd1 Hok Haf1 Hc1 Hcl) as Hcl1.
  destruct (af_like _ _ _ _ Haf1 s sc Hsc) as (sc1 & Hsc1 & (L1 & L2 & L3) & Hrc & _).
  apply wp_bind. apply (wp_on_heap _ _ _ sc1 (rm_heap r1)); [unfold getScope, deref; by rewrite Hsc1|].
  match goal with |- wp _ _ ?x => assert (x = r1) as -> by (by destruct r1) end.
  assert (kd1 s = KStream) as Hks1 by (rewrite <- Hks; apply (gr_roles _ _ _ _ (af_grows _ _ _ _ Haf1)); congruence).
  apply (wp_reserve_two _ _ _ r1 held kd1 s sc1 sv (KSvcPeer n (st_peer st))); try congruence; try done.
  - apply (wp_service_getPeerScope r1 held kd1 n ns); congruence.
  - intros pss r2 kd2 Hok2 Haf2 [Hc2 Hs2] Hcl2 Hkpss Hkept2 Hkept2' Hadm Hadm'.
    pose proof (after_trans _ _ _ _ _ _ Haf1 Haf2) as Haf. pose proof (af_grows _ _ _ _ Haf) as Hg.
    destruct (af_like _ _ _ _ Haf2 s sc1 Hsc1) as (sc2 & Hsc2 & (M1 & M2 & M3) & Hrc2 & _).
    destruct (rg_fixed _ _ (ok_reg _ _ _ Hok2)) as (F1 & F2 & _).
    assert (forall k κ, kd k = κ -> κ <> KSpan -> kd2 k = κ) as Hroles
      by (intros k κ <- ?; by apply (gr_roles _ _ _ _ Hg)).
    assert (kd2 sv = KSvc n) as Hksv2 by (rewrite <- Hksv; apply (gr_roles _ _ _ _ (af_grows _ _ _ _ Haf2)); congruence).
    apply Hroles in Hks as Hks2; [|done]. apply Hroles in Hkp as Hkp2; [|done].
    apply Hroles in Hkpr as Hkpr2; [|done]. apply Hroles in Hkpps as Hkpps2; [|done].
    apply wp_bind, wp_gets. set (sys := rm_system r2) in *.
    assert (edges sc2 = [st_peerScope st; pps; pr; sys]) as Hes2.
    { rewrite M3, L3, Hes. unfold sys. by rewrite (gr_system _ _ _ _ Hg). }
    match goal with |- context [rm_system ?x] => change (rm_system x) with sys end.
    apply wp_bind, wp_setEdges, wp_bind, wp_modify, wp_ret. exists kd2.
    match goal with |- ok ?x _ _ /\ _ => set (r' := x) end.
    set (es := [st_peerScope st; pps; pss; pr; sv; sys]) in *.
    assert (rm_heap r' = upd (shift (stat (rc sc1)) [sv; pss] [] s es) (rm_heap r2)) as Hh'
      by (apply move_pair; congruence).
    rewrite <- Hrc2 in *. assert (done sc2 = false) as Hd2 by congruence.
    assert (rm_streams r2 !! s = Some st) as Hst2 by (by rewrite Hs2, Hs1).
    destruct (ok_moved r2 r' held kd2 s sc2 es [sv; pss] [] Hok2 Hsc2 Hd2) as [Hok' Hl'];
      try (by rewrite Hks2); try done.
    + apply (NoDup_fmap_1 kd2). cbn. rewrite Hkp2, Hkpps2, Hkpss, Hkpr2, Hksv2, F1. nodup_roles.
    + intros e. rewrite Hes2. unfold es. set_unfold. naive_solver.
    + by intros e ?%elem_of_nil.
    + intros e He. rewrite Hes2. apply elem_of_cons in He as [->| ->%list_elem_of_singleton].
      * split_and!; [|congruence|by rewrite Hksv2|done|done]. set_unfold. intros [?|[?|[?|[?|?]]]]; congruence || done.
      * split_and!; [|congruence|by rewrite Hkpss|done|done]. set_unfold. intros [?|[?|[?|[?|?]]]]; congruence || done.
    + intros k Hk. split; [done|]. unfold r'. cbn. by rewrite lookup_alter_ne.
    + intros _. split; [|done]. unfold r'. cbn. rewrite lookup_alter_eq, Hst2. by eexists.
    + unfold shape. rewrite Hks2. exists (st <| st_svc := Some sv |> <| peerSvcScope := Some pss |>). split.
      * unfold r'. cbn. by rewrite lookup_alter_eq, Hst2.
      * intros _. unfold stream_edges. cbn. rewrite Hpr, Hpps. split; [by apply (gr_peer _ _ _ _ Hg)|].
        split; [by exists m|split; [by exists n|done]].
    + split; [done|]. unfold counted. rewrite (open_map_conns r2 r'); [exact Hcl2|done|]. intros k _. apply Hl'.
  - intros _ r' kd' ? ?. by exists kd'.
Qed.
End ops.
