(* ===== verification/ManagerGc.v ===== *)
(** Garbage collection by the resource manager: it always ends, it closes only
    scopes that nothing open depends on, and it never touches a connection or
    stream. *)

From stdpp Require Import gmap strings list.
From S2P Require Import Prelude GoLib TunnelAddr RcResources RcScope RcScopeProps RcAccount RcLimits RcUse RcMove ConnLimiter ResourceManager ManagerInv ManagerOps.
#[local] Open Scope Z_scope.

(** ** Taking a closed scope out of the tables *)

Lemma ok_delete_proto r held kd n ns :
  ok r held kd -> rm_proto r !! n = Some ns -> is_live (rm_heap r) (ns_scope ns) = false ->
  ok (r <| rm_proto := delete n (rm_proto r) |>) held kd.
Proof.
  intros [H1 Hs H3 [R1 R2 R3 R4 R5 R6] H5] Hn Hdead. split; [exact H1| |exact H3| |exact H5].
  - intros k y Hk. destruct (Hs k y Hk) as [Hsh Hnone]. split; [|exact Hnone].
    revert Hsh. unfold shape. destruct (kd k) as [| | | |?|n'|?|?|?| | |] eqn:Hkd; try done.
    intros [He Hreg]. split; [exact He|]. intros Hd. cbn. rewrite lookup_delete_ne; [by apply Hreg|].
    intros <-. specialize (Hreg Hd). rewrite Hn in Hreg. cbn in Hreg. injection Hreg as Hreg.
    unfold is_live in Hdead. change (scopes (rm_heap r) !! k = Some y) in Hk. by rewrite Hreg, Hk, Hd in Hdead.
  - split; [exact R1|exact R2| |exact R4|exact R5|exact R6].
    intros n' ns' Hn'. cbn in Hn'; apply lookup_delete_Some in Hn' as [_ Hn']. by apply R3.
Qed.

Lemma ok_close_peer r held held' kd p s h' :
  ok r held kd -> rm_peer r !! p = Some s ->
  (forall k y, scopes (rm_heap r) !! k = Some y -> done y = false -> s ∉ edges y) ->
  accounts h' held' -> evolves (rm_heap r) h' -> is_live h' s = false ->
  (forall k, k <> s -> is_live h' k = is_live (rm_heap r) k) ->
  ok (r <| rm_heap := h' |> <| rm_peer := delete p (rm_peer r) |>) held' kd.
Proof.
  intros Hok Hp Hleaf Hac [Hold Hnew] Hdead Hother. pose proof Hok as [_ Hs Hfr [R1 R2 R3 R4 R5 R6] Hl].
  split; [exact Hac| | | |].
  - intros k y' Hk. cbn in Hk. destruct (scopes (rm_heap r) !! k) as [y|] eqn:Hy.
    + destruct (Hold k y Hy) as (z & Hz & Ho & He & Hd). rewrite Hk in Hz. injection Hz as <-.
      destruct (Hs k y Hy) as [Hsh Hnone]. split; [|rewrite Ho; exact Hnone].
      revert Hsh. unfold shape. destruct (kd k) as [| | | |p'|n'|n'|?|?| | |] eqn:Hkd; rewrite ?He; try done;
        try specialize (Hd (Hnone ltac:(done))).
      * intros [E Hreg]. split; [exact E|]. intros Hd'. cbn. rewrite lookup_delete_ne; [by apply Hreg, Hd|].
        intros <-. rewrite (Hreg (Hd Hd')) in Hp. injection Hp as ->.
        unfold is_live in Hdead. by rewrite Hk, Hd' in Hdead.
      * intros [E Hreg]. split; [exact E|]. intros Hd'. by apply Hreg, Hd.
      * intros [E Hreg]. split; [exact E|]. intros Hd'. by apply Hreg, Hd.
      * intros (cn & E & Hreg). exists cn. split; [exact E|]. intros Hd'. by apply Hreg, Hd.
      * intros (st & E & Hreg). exists st. split; [exact E|]. intros Hd'.
        pose proof (Hreg (Hd Hd')) as Hes. destruct (stream_roles r held kd Hok st _ Hes) as [_ _].
        destruct Hes as [Hps Hes]. split; [|exact Hes]. cbn. rewrite lookup_delete_ne; [exact Hps|].
        intros ->. rewrite Hp in Hps. injection Hps as ->. apply (Hleaf k y Hy (Hd Hd')).
        destruct (st_proto st), (peerProtoScope st), (st_svc st), (peerSvcScope st); try done;
          [destruct Hes as [_ [_ ->]]|destruct Hes as [_ ->]|rewrite Hes]; apply list_elem_of_here.
      * by rewrite Ho.
    + pose proof (Hnew k y' Hk Hy) as Hspan. pose proof (Hfr k Hy) as Hkd. split; [|by rewrite Hkd].
      unfold shape. by rewrite Hkd.
  - intros k Hk. apply Hfr. cbn in Hk. destruct (scopes (rm_heap r) !! k) as [y|] eqn:Hy; [|done].
    destruct (Hold k y Hy) as (z & Hz & _). congruence.
  - split; [exact R1| |exact R3|exact R4|exact R5|exact R6].
    intros p' k Hp'. cbn in Hp'; apply lookup_delete_Some in Hp' as [_ Hp']. by apply R2.
  - intros p' k Hp'. cbn in Hp'; apply lookup_delete_Some in Hp' as [Hne Hp']. change (is_live h' k = true). rewrite Hother; [by apply (Hl p')|].
    intros ->. pose proof (R2 _ _ Hp). pose proof (R2 _ _ Hp'). congruence.
Qed.

(** The same parts under a service or protocol, or fewer. *)
Lemma named_ok_parts kd m whole part n ns ns1 :
  named_ok kd m whole part -> m !! n = Some ns -> ns_scope ns1 = ns_scope ns -> ns_peers ns1 ⊆ ns_peers ns ->
  named_ok kd (<[n := ns1]> m) whole part.
Proof.
  intros Hm Hn Hsc Hsub n' ns' [[<- <-]|[_ Hn']]%lookup_insert_Some; [|by apply Hm].
  destruct (Hm n ns Hn) as [H1 H2]. rewrite Hsc. split; [exact H1|]. intros p q Hq. apply H2.
  by apply (lookup_weaken _ _ _ _ Hq).
Qed.

(** ** What the collector may do *)

(** What the open scopes hold, once those that were closed hold nothing. *)
Definition closed_since (h h' : heap) (held : holdings) : holdings := fun k x =>
  if is_live h k && negb (is_live h' k) then 0 else held k x.

Record shut (held : holdings) (kd : roles) (r r' : resourceManager) : Prop := {
  sh_ok : ok r' (closed_since (rm_heap r) (rm_heap r') held) kd;
  sh_users : same_users r r';
  sh_limiter : rm_connLimiter r' = rm_connLimiter r;
  sh_less : forall k, is_live (rm_heap r') k = true -> is_live (rm_heap r) k = true;
  sh_kept : forall k, kd k = KConn \/ kd k = KStream -> is_live (rm_heap r') k = is_live (rm_heap r) k;
  sh_peer : rm_peer r' ⊆ rm_peer r;
}.

Lemma closed_since_same h h' held :
  (forall k, is_live h' k = is_live h k) -> forall k x, closed_since h h' held k x = held k x.
Proof. intros Hl k x. unfold closed_since. rewrite Hl. by destruct (is_live h k). Qed.

Lemma closed_since_one h h' held s :
  is_live h' s = false -> (forall k, k <> s -> is_live h' k = is_live h k) ->
  forall k x, closed h held s k x = closed_since h h' held k x.
Proof.
  intros Hs Ho k x. unfold closed, closed_since, hclear. destruct (decide (k = s)) as [->|Hk].
  - rewrite Hs. destruct (is_live h s); cbn; [by rewrite decide_True|done].
  - rewrite (Ho k Hk). destruct (is_live h s), (is_live h k); cbn; by rewrite ?decide_False.
Qed.

Lemma closed_since_trans h1 h2 h3 held :
  (forall k, is_live h2 k = true -> is_live h1 k = true) ->
  (forall k, is_live h3 k = true -> is_live h2 k = true) ->
  forall k x, closed_since h2 h3 (closed_since h1 h2 held) k x = closed_since h1 h3 held k x.
Proof.
  intros H1 H2 k x. unfold closed_since. specialize (H1 k). specialize (H2 k).
  destruct (is_live h1 k), (is_live h2 k), (is_live h3 k); cbn; naive_solver.
Qed.

Lemma shut_refl held kd r : ok r held kd -> shut held kd r r.
Proof. intros Hok. split; try done. eapply ok_ext; [|exact Hok]. intros k x. by rewrite closed_since_same. Qed.

Lemma shut_trans held kd r1 r2 r3 :
  shut held kd r1 r2 -> shut (closed_since (rm_heap r1) (rm_heap r2) held) kd r2 r3 -> shut held kd r1 r3.
Proof.
  intros [A1 [A2 A2'] A3 A4 A5 A6] [B1 [B2 B2'] B3 B4 B5 B6]. split; try congruence; auto.
  - eapply ok_ext; [|exact B1]. by apply closed_since_trans.
  - split; congruence.
  - intros k Hk. by rewrite B5, A5.
  - by etransitivity.
Qed.

Lemma shut_counted cl0 held kd r r' : ok r held kd -> shut held kd r r' -> counted cl0 r -> counted cl0 r'.
Proof.
  intros Hok Hsh Hcl. unfold counted. rewrite (sh_limiter _ _ _ _ Hsh), (open_map_conns r r'); [exact Hcl|apply Hsh|].
  intros k [cn Hk]. apply (sh_kept _ _ _ _ Hsh). left. by apply (rg_conns _ _ (ok_reg _ _ _ Hok) k cn).
Qed.

(** Closing one node that is neither a connection nor a stream. *)
Lemma shut_done held kd r s :
  ok r held kd -> kd s <> KSpan -> kd s <> KConn -> kd s <> KStream -> (forall p, kd s <> KPeer p) ->
  (forall k y, scopes (rm_heap r) !! k = Some y -> done y = false -> s ∉ edges y) ->
  exists h', Done s (rm_heap r) = Ok ((), h') /\ shut held kd r (r <| rm_heap := h' |>) /\ is_live h' s = false.
Proof.
  intros Hok Hs Hc Hst Hp Hleaf.
  destruct (ok_done r held kd s Hok Hs Hp Hleaf) as (h' & Hrun & Hok' & Hdead & Ho).
  exists h'. split; [exact Hrun|split; [|exact Hdead]]. split; try done; rewrite ?heap_set.
  - eapply ok_ext; [|exact Hok']. by apply closed_since_one.
  - intros k Hk. destruct (decide (k = s)) as [->|Hne]; [congruence|by rewrite <- Ho].
  - intros k Hk. apply Ho. intros ->. by destruct Hk.
Qed.

Lemma Done_closed h s sc : scopes h !! s = Some sc -> done sc = true -> Done s h = Ok ((), h).
Proof.
  intros Hs Hd. unfold Done, doneUnlocked, bind at 1, getScope, deref. by rewrite Hs, Hd.
Qed.

Lemma shut_unused held kd r s sc :
  ok r held kd -> kd s <> KSpan -> kd s <> KConn -> kd s <> KStream -> (forall p, kd s <> KPeer p) ->
  scopes (rm_heap r) !! s = Some sc -> unused sc = true ->
  exists h', Done s (rm_heap r) = Ok ((), h') /\ shut held kd r (r <| rm_heap := h' |>) /\ is_live h' s = false.
Proof.
  intros Hok H1 H2 H3 H4 Hs Hu. destruct (done sc) eqn:Hsd.
  - exists (rm_heap r). split; [by apply (Done_closed _ _ sc)|]. split; [|unfold is_live; by rewrite Hs, Hsd].
    replace (r <| rm_heap := rm_heap r |>) with r by (by destruct r). by apply shut_refl.
  - unfold unused in Hu. rewrite Hsd in Hu. cbn in Hu. apply andb_prop in Hu as [Hr _].
    apply negb_true_iff, Z.ltb_ge in Hr. apply shut_done; try done.
    exact (unused_leaf r held kd Hok s sc Hs Hsd Hr).
Qed.

Lemma wp_IsUnused (Q : bool -> resourceManager -> Prop) r s :
  is_Some (scopes (rm_heap r) !! s) ->
  (forall sc, scopes (rm_heap r) !! s = Some sc -> Q (unused sc) r) -> wp (on_heap (IsUnused s)) Q r.
Proof.
  intros [sc Hs] HQ. apply (wp_on_heap _ _ _ (unused sc) (rm_heap r)).
  - unfold IsUnused, bind, getScope, deref. by rewrite Hs.
  - replace (r <| rm_heap := rm_heap r |>) with r by (by destruct r). by apply HQ.
Qed.

(** The invariant holds again for what is left. *)
Lemma shut_then held kd r r1 r' :
  shut held kd r r1 -> ok r' (closed_since (rm_heap r) (rm_heap r1) held) kd ->
  rm_heap r' = rm_heap r1 -> same_users r1 r' -> rm_connLimiter r' = rm_connLimiter r1 ->
  rm_peer r' ⊆ rm_peer r1 -> shut held kd r r'.
Proof.
  intros [A1 [A2 A2'] A3 A4 A5 A6] Hok Hh [U1 U2] Hl Hp. split; rewrite ?Hh; auto; try congruence.
  - split; congruence.
  - by etransitivity.
Qed.

(** ** Protocols *)

Section collect.
Context `{O : MapOrder}.

Definition gc_protocol (proto : string) (s : namedScope) : M resourceManager () :=
  sticky <- gets stickyProto ;;
  if is_sticky sticky proto then ret ()
  else
    u <- on_heap (IsUnused (ns_scope s)) ;;
    when u (on_heap (Done (ns_scope s)) ;;
            modify (fun r => r <| rm_proto := delete proto (rm_proto r) |>)).

Lemma gc_protocols_unfold :
  gc_protocols = (m <- gets rm_proto ;; for_range (map_range m) gc_protocol).
Proof. done. Qed.

Lemma wp_gc_protocol held kd r n ns :
  ok r held kd -> rm_proto r !! n = Some ns ->
  wp (gc_protocol n ns) (fun _ r' => shut held kd r r' /\
    forall n' ns', n' <> n -> rm_proto r !! n' = Some ns' -> rm_proto r' !! n' = Some ns') r.
Proof.
  intros Hok Hn. destruct (rg_protos _ _ (ok_reg _ _ _ Hok) _ _ Hn) as [Hk _].
  unfold gc_protocol. apply wp_bind, wp_gets. case_match; [apply wp_ret; split; [by apply shut_refl|done]|].
  apply wp_bind, wp_IsUnused; [apply (ok_alloc r held kd Hok); congruence|]. intros sc Hsc.
  apply wp_when; [|intros _; split; [by apply shut_refl|done]]. intros Hu. apply wp_bind.
  destruct (shut_unused held kd r (ns_scope ns) sc Hok) as (h' & Hrun & Hsh & Hdead); try congruence.
  eapply wp_on_heap; [exact Hrun|]. apply wp_modify. split.
  - eapply shut_then; [exact Hsh| |done|done|done|done].
    exact (ok_delete_proto (r <| rm_heap := h' |>) _ kd n ns (sh_ok _ _ _ _ Hsh) Hn Hdead).
  - intros n' ns' Hne Hn'. cbn. by rewrite lookup_delete_ne.
Qed.

(** A loop over the entries of a map, each of which is there when its turn comes. *)
Lemma wp_for_range {A} (l : list (string * A)) (f : string -> A -> M resourceManager ())
    (look : resourceManager -> gmap string A) held kd r :
  ok r held kd -> NoDup l.*1 -> (forall n a, (n, a) ∈ l -> look r !! n = Some a) ->
  (forall r held n a, ok r held kd -> look r !! n = Some a ->
     wp (f n a) (fun _ r' => shut held kd r r' /\
       forall n' a', n' <> n -> look r !! n' = Some a' -> look r' !! n' = Some a') r) ->
  wp (for_range l f) (fun _ r' => shut held kd r r') r.
Proof.
  intros Hok Hnd Hin Hf. revert held r Hok Hin. induction l as [|[n a] l IH]; intros held r Hok Hin.
  - by apply wp_ret, shut_refl.
  - cbn in Hnd. apply NoDup_cons in Hnd as [Hn Hnd]. apply wp_bind.
    eapply wp_mono; [apply (Hf r held n a Hok), Hin, list_elem_of_here|]. intros [] r1 [Hsh Hrest].
    eapply wp_mono; [apply (IH Hnd _ r1 (sh_ok _ _ _ _ Hsh))|].
    + intros n' a' Hl. apply Hrest; [|apply Hin; by right]. intros ->. apply Hn, list_elem_of_fmap. by exists (n, a').
    + intros [] r2 Hsh2. by eapply shut_trans.
Qed.

Context `{!MapOrderLaws O}.

Lemma map_range_nodup {A} (m : gmap string A) : NoDup (map_range m).*1.
Proof. rewrite map_range_perm. apply NoDup_fst_map_to_list. Qed.
Lemma map_range_lookup {A} (m : gmap string A) k a : (k, a) ∈ map_range m -> m !! k = Some a.
Proof. rewrite map_range_perm. by rewrite elem_of_map_to_list. Qed.

Lemma wp_gc_protocols held kd r :
  ok r held kd -> wp gc_protocols (fun _ r' => shut held kd r r') r.
Proof.
  intros Hok. rewrite gc_protocols_unfold. apply wp_bind, wp_gets.
  apply (wp_for_range _ _ rm_proto); [done|apply map_range_nodup|intros n a; apply map_range_lookup|].
  intros r0 held0 n ns. apply wp_gc_protocol.
Qed.

(** ** Peers *)

Lemma shut_close_peer held kd r p s sc :
  ok r held kd -> rm_peer r !! p = Some s -> scopes (rm_heap r) !! s = Some sc -> unused sc = true ->
  exists h', Done s (rm_heap r) = Ok ((), h') /\
    shut held kd r (r <| rm_heap := h' |> <| rm_peer := delete p (rm_peer r) |>).
Proof.
  intros Hok Hp Hs Hu. pose proof (rg_peers _ _ (ok_reg _ _ _ Hok) _ _ Hp) as Hk.
  pose proof (ok_live _ _ _ Hok p s Hp) as Hl. unfold is_live in Hl. rewrite Hs in Hl. apply negb_true_iff in Hl.
  assert (forall k y, scopes (rm_heap r) !! k = Some y -> done y = false -> s ∉ edges y) as Hleaf.
  { unfold unused in Hu. rewrite Hl in Hu. cbn in Hu. apply andb_prop in Hu as [Hr _].
    apply negb_true_iff, Z.ltb_ge in Hr. exact (unused_leaf r held kd Hok s sc Hs Hl Hr). }
  destruct (node_done r held kd s Hok ltac:(congruence) Hleaf) as (h' & Hrun & Hac & Hev & Hdead & Ho).
  exists h'. split; [exact Hrun|]. split; try done; cbn [rm_heap rm_peer set_field].
  - eapply ok_ext; [|by eapply (ok_close_peer r held _ kd p s)]. by apply closed_since_one.
  - intros k Hk'. destruct (decide (k = s)) as [->|Hne]; [|by rewrite <- Ho].
    unfold is_live. by rewrite Hs, Hl.
  - intros k Hk'. apply Ho. intros ->. destruct Hk'; congruence.
  - apply delete_subseteq.
Qed.

Lemma wp_gc_peers l held kd r :
  ok r held kd -> NoDup l.*1 -> (forall p s, (p, s) ∈ l -> rm_peer r !! p = Some s) ->
  wp (gc_peers l) (fun dead r' => shut held kd r r' /\ forall p, p ∈ dead -> rm_peer r' !! p = None) r.
Proof.
  intros Hok Hnd Hin. revert held r Hok Hin. induction l as [|[p s] l IH]; intros held r Hok Hin.
  { apply wp_ret. split; [by apply shut_refl|]. by intros p ?%elem_of_nil. }
  cbn in Hnd. apply NoDup_cons in Hnd as [Hn Hnd]. specialize (IH Hnd).
  assert (rm_peer r !! p = Some s) as Hp by (apply Hin, list_elem_of_here).
  pose proof (rg_peers _ _ (ok_reg _ _ _ Hok) _ _ Hp) as Hk. cbn [gc_peers].
  apply wp_bind, wp_gets, wp_bind, wp_IsUnused; [apply (ok_alloc r held kd Hok); congruence|]. intros sc Hsc.
  destruct (negb (is_sticky (stickyPeer r) p) && unused sc) eqn:Hu;
    [|apply IH; [done|intros p' s' Hl; apply Hin; by right]].
  apply andb_prop in Hu as [_ Hu].
  destruct (shut_close_peer held kd r p s sc Hok Hp Hsc Hu) as (h' & Hrun & Hsh).
  apply wp_bind. eapply wp_on_heap; [exact Hrun|]. apply wp_bind, wp_modify, wp_bind.
  eapply wp_mono; [apply (IH _ _ (sh_ok _ _ _ _ Hsh))|].
  - intros p' s' Hl. cbn. rewrite lookup_delete_ne; [apply Hin; by right|]. intros <-.
    apply Hn, list_elem_of_fmap. by exists (p, s').
  - intros dead r2 [Hsh2 Hdead]. apply wp_ret. split; [by eapply shut_trans|].
    intros p' [->|Hl]%elem_of_cons; [|by apply Hdead].
    destruct (rm_peer r2 !! p) as [x|] eqn:Hx; [|done].
    pose proof (lookup_weaken _ _ _ _ Hx (sh_peer _ _ _ _ Hsh2)) as Hy. cbn in Hy. by rewrite lookup_delete_eq in Hy.
Qed.

(** ** The scopes of dead peers within services and protocols *)

Lemma drop_peers_run dead peers (part : string -> role) held kd r :
  ok r held kd -> (forall p q, peers !! p = Some q -> kd q = part p) ->
  (forall p, exists n, part p = KProtoPeer n p \/ part p = KSvcPeer n p) ->
  (forall p, p ∈ dead -> rm_peer r !! p = None) ->
  exists peers' h', drop_peers dead peers (rm_heap r) = Ok (peers', h') /\ peers' ⊆ peers /\
    shut held kd r (r <| rm_heap := h' |>).
Proof.
  intros Hok Hq Hpart Hdead. revert held r peers Hok Hq Hdead.
  induction dead as [|p dead IH]; intros held r peers Hok Hq Hdead; cbn [drop_peers].
  { exists peers, (rm_heap r). split; [done|split; [done|]].
    replace (r <| rm_heap := rm_heap r |>) with r by (by destruct r). by apply shut_refl. }
  destruct (peers !! p) as [q|] eqn:Hp; [|apply IH; [done|done|intros; apply Hdead; by right]].
  pose proof (Hq p q Hp) as Hk. destruct (Hpart p) as (n & Hn). rewrite <- Hk in Hn.
  pose proof (part_leaf r held kd Hok q n p Hn (Hdead p (list_elem_of_here _ _))) as Hleaf.
  destruct (shut_done held kd r q Hok) as (h1 & Hrun & Hsh & _); try (destruct Hn; congruence); [done|].
  destruct (IH _ (r <| rm_heap := h1 |>) (delete p peers) (sh_ok _ _ _ _ Hsh)) as (peers' & h' & Hrun' & Hsub & Hsh').
  - intros p' q' Hl. apply lookup_delete_Some in Hl as [_ Hl]. by apply Hq.
  - intros p' Hl. apply Hdead. by right.
  - exists peers', h'. split; [|split; [etransitivity; [exact Hsub|apply delete_subseteq]|]].
    + unfold bind. rewrite Hrun. exact Hrun'.
    + eapply shut_trans; [exact Hsh|exact Hsh'].
Qed.

Section named.
Context (getm : resourceManager -> gmap string namedScope)
  (setm : gmap string namedScope -> resourceManager -> resourceManager)
  (whole : string -> role) (part : string -> string -> role).
Context (Hget : forall r h, getm (r <| rm_heap := h |>) = getm r) (Hgs : forall m r, getm (setm m r) = m)
  (Hset : forall m r, rm_heap (setm m r) = rm_heap r /\ same_users r (setm m r) /\
     rm_connLimiter (setm m r) = rm_connLimiter r /\ rm_peer (setm m r) = rm_peer r)
  (Hreg : forall r kd, registered r kd -> named_ok kd (getm r) whole part)
  (Hpart : forall n p, part n p = KProtoPeer n p \/ part n p = KSvcPeer n p)
  (Hok' : forall r held kd n ns ns1, ok r held kd -> getm r !! n = Some ns -> ns_scope ns1 = ns_scope ns -> ns_peers ns1 ⊆ ns_peers ns ->
     ok (setm (<[n := ns1]> (getm r)) r) held kd).

Lemma wp_gc_named dead held kd r :
  ok r held kd -> (forall p, p ∈ dead -> rm_peer r !! p = None) ->
  wp (gc_named dead getm setm) (fun _ r' => shut held kd r r' /\ forall p, p ∈ dead -> rm_peer r' !! p = None) r.
Proof using Type*.
  intros Hok Hdead. apply (wp_mono _ (fun _ r' => shut held kd r r')).
  2: { intros [] r' Hsh. split; [exact Hsh|]. intros p Hp. specialize (Hdead p Hp).
       destruct (rm_peer r' !! p) as [x|] eqn:Hx; [|done].
       pose proof (lookup_weaken _ _ _ _ Hx (sh_peer _ _ _ _ Hsh)). congruence. }
  unfold gc_named. apply wp_bind, wp_gets.
  apply (wp_mono _ (fun _ r' => shut held kd r r')); [|done].
  enough (forall l : list (string * namedScope), NoDup l.*1 ->
    (forall n a, (n, a) ∈ l -> getm r !! n = Some a) ->
    wp (for_range l (fun name s => peers <- on_heap (drop_peers dead (ns_peers s)) ;;
          modify (fun r => setm (<[name := s <| ns_peerMap := (fun _ => peers) <$> ns_peerMap s |>]> (getm r)) r)))
       (fun _ r' => shut held kd r r') r) as Hl.
  { apply Hl; [apply map_range_nodup|intros n a; apply map_range_lookup]. }
  intros l Hnd. revert held r Hok Hdead. induction l as [|[n ns] l IH]; intros held r Hok Hdead Hin.
  { by apply wp_ret, shut_refl. }
  cbn in Hnd. apply NoDup_cons in Hnd as [Hnot Hnd]. specialize (IH Hnd).
  pose proof (Hin n ns (list_elem_of_here _ _)) as Hn.
  destruct (drop_peers_run dead (ns_peers ns) (part n) held kd r Hok) as (peers & h' & Hrun & Hsub & Hsh); [| |done|].
  { apply (Hreg r kd (ok_reg _ _ _ Hok) n ns Hn). }
  { intros p. exists n. apply Hpart. }
  cbn [for_range]. apply wp_bind, wp_bind. eapply wp_on_heap; [exact Hrun|]. apply wp_modify.
  set (r1 := r <| rm_heap := h' |>) in *. set (m := <[n := ns <| ns_peerMap := (fun _ => peers) <$> ns_peerMap ns |>]> (getm r1)).
  destruct (Hset m r1) as (E1 & E2 & E3 & E4).
  assert (shut held kd r (setm m r1)) as Hsh1.
  { eapply shut_then; [exact Hsh| |done|done|done|by rewrite E4].
    apply (Hok' _ _ _ n ns); [exact (sh_ok _ _ _ _ Hsh)|by unfold r1; rewrite Hget|done|].
    unfold ns_peers in *. cbn. destruct (ns_peerMap ns); [exact Hsub|done]. }
  eapply wp_mono; [apply (IH _ _ (sh_ok _ _ _ _ Hsh1))|].
  - intros p Hp. rewrite E4. by apply Hdead.
  - intros n' a Hl. rewrite Hgs. unfold m, r1. rewrite Hget, lookup_insert_ne; [apply Hin; by right|].
    intros <-. apply Hnot, list_elem_of_fmap. by exists (n, a).
  - intros [] r2 Hsh2. by eapply shut_trans.
Qed.
End named.

Lemma ok_parts_svc r held kd n ns ns1 :
  ok r held kd -> rm_svc r !! n = Some ns -> ns_scope ns1 = ns_scope ns -> ns_peers ns1 ⊆ ns_peers ns ->
  ok (r <| rm_svc := <[n := ns1]> (rm_svc r) |>) held kd.
Proof.
  intros [H1 Hs H3 [R1 R2 R3 R4 R5 R6] H5] Hn Hsc Hsub. split; [exact H1| |exact H3| |exact H5].
  - intros k y Hk. destruct (Hs k y Hk) as [Hsh Hnone]. split; [|exact Hnone].
    revert Hsh. unfold shape. destruct (kd k) as [| | | |?|?|n'|?|?| | |]; try done.
    intros [He Hreg]. split; [exact He|]. intros Hd. cbn. specialize (Hreg Hd).
    destruct (decide (n' = n)) as [->|Hne]; [|by rewrite lookup_insert_ne].
    rewrite lookup_insert_eq. rewrite Hn in Hreg. cbn in *. by rewrite Hsc.
  - split; [exact R1|exact R2|exact R3| |exact R5|exact R6]. by eapply named_ok_parts.
Qed.

Lemma ok_parts_proto r held kd n ns ns1 :
  ok r held kd -> rm_proto r !! n = Some ns -> ns_scope ns1 = ns_scope ns -> ns_peers ns1 ⊆ ns_peers ns ->
  ok (r <| rm_proto := <[n := ns1]> (rm_proto r) |>) held kd.
Proof.
  intros [H1 Hs H3 [R1 R2 R3 R4 R5 R6] H5] Hn Hsc Hsub. split; [exact H1| |exact H3| |exact H5].
  - intros k y Hk. destruct (Hs k y Hk) as [Hsh Hnone]. split; [|exact Hnone].
    revert Hsh. unfold shape. destruct (kd k) as [| | | |?|n'|?|?|?| | |]; try done.
    intros [He Hreg]. split; [exact He|]. intros Hd. cbn. specialize (Hreg Hd).
    destruct (decide (n' = n)) as [->|Hne]; [|by rewrite lookup_insert_ne].
    rewrite lookup_insert_eq. rewrite Hn in Hreg. cbn in *. by rewrite Hsc.
  - split; [exact R1|exact R2| |exact R4|exact R5|exact R6]. by eapply named_ok_parts.
Qed.

(** The collector returns; it keeps the invariant, closes no connection and no
    stream and gives back only what the closed scopes held. *)
Lemma wp_gc held kd r : ok r held kd -> wp gc (fun _ r' => shut held kd r r') r.
Proof using Type*.
  intros Hok. unfold gc. apply wp_bind. eapply wp_mono; [by apply wp_gc_protocols|]. intros [] r1 Hsh1.
  pose proof (sh_ok _ _ _ _ Hsh1) as Hok1. apply wp_bind, wp_gets, wp_bind.
  eapply wp_mono; [apply (wp_gc_peers _ _ _ _ Hok1); [apply map_range_nodup|intros p s; apply map_range_lookup]|].
  intros dead r2 [Hsh2 Hdead]. pose proof (sh_ok _ _ _ _ Hsh2) as Hok2. apply wp_bind.
  eapply wp_mono; [apply (wp_gc_named rm_svc (fun m r => r <| rm_svc := m |>) KSvc KSvcPeer) with (kd := kd);
    [done|done|done|by destruct 1|by right|by intros; eapply ok_parts_svc|exact Hok2|exact Hdead]|].
  intros [] r3 [Hsh3 Hdead3].
  eapply wp_mono; [apply (wp_gc_named rm_proto (fun m r => r <| rm_proto := m |>) KProto KProtoPeer) with (kd := kd);
    [done|done|done|by destruct 1|by left|by intros; eapply ok_parts_proto|exact (sh_ok _ _ _ _ Hsh3)|exact Hdead3]|].
  intros [] r4 [Hsh4 _]. eapply shut_trans; [exact Hsh1|]. eapply shut_trans; [exact Hsh2|].
  eapply shut_trans; [exact Hsh3|exact Hsh4].
Qed.
End collect.
