(* ===== verification/ManagerProps.v ===== *)
(** The resource manager over all its histories: what its users can do, in any
    order, and what holds in every state they can bring it to. *)

From stdpp Require Import gmap strings list.
From S2P Require Import Prelude GoLib TunnelAddr RcResources RcScope RcScopeProps RcAccount RcLimits RcUse RcMove ConnLimiter ResourceManager ManagerInv ManagerOps ManagerGc.
#[local] Open Scope Z_scope.

(** ** What users do with the scopes they are handed *)

(** Changes that open and close no node. *)
Record same_nodes (h h' : heap) : Prop := {
  sm_old : forall k y, scopes h !! k = Some y -> exists y', scopes h' !! k = Some y' /\
    owner y' = owner y /\ edges y' = edges y /\ (owner y = None -> done y' = done y);
  sm_new : forall k y', scopes h' !! k = Some y' -> scopes h !! k = None -> is_Some (owner y');
}.

Lemma same_nodes_refl h : same_nodes h h.
Proof. split; [intros k y Hk; by exists y|intros k y'; congruence]. Qed.

Lemma same_nodes_on_rc f l h : NoDup l -> same_nodes h (on_rc f l h).
Proof.
  intros Hnd. split.
  - intros k y Hk. rewrite lookup_on_rc, Hk by done. case_bool_decide; (eexists; split; [reflexivity|done]).
  - intros k y' Hk Hn. rewrite lookup_on_rc, Hn in Hk by done. by case_bool_decide.
Qed.

Lemma same_nodes_trans h1 h2 h3 :
  (forall k, scopes h2 !! k = None <-> scopes h1 !! k = None) ->
  same_nodes h1 h2 -> same_nodes h2 h3 -> same_nodes h1 h3.
Proof.
  intros Hd [A1 A2] [B1 B2]. split.
  - intros k y Hk. destruct (A1 k y Hk) as (y1 & H1 & O1 & E1 & D1). destruct (B1 k y1 H1) as (y2 & H2 & O2 & E2 & D2).
    exists y2. split_and!; try congruence. intros Hn. rewrite D2, D1; congruence.
  - intros k y' Hk Hn. apply (B2 k y' Hk), Hd, Hn.
Qed.

Lemma ok_same_nodes cl0 r held held' kd h' :
  ok r held kd -> counted cl0 r -> accounts h' held' -> same_nodes (rm_heap r) h' ->
  ok (r <| rm_heap := h' |>) held' kd /\ counted cl0 (r <| rm_heap := h' |>).
Proof.
  intros Hok Hcl Hac [Hold Hnew].
  assert (forall k, kd k <> KSpan -> is_live h' k = is_live (rm_heap r) k) as Hlive.
  { intros k Hk. destruct (ok_exists r held kd Hok k Hk) as (y & Hy & Hn).
    destruct (Hold k y Hy) as (y' & Hy' & _ & _ & Hd). unfold is_live. by rewrite Hy, Hy', Hd. }
  split.
  - apply (ok_heap r held); [done|done| |].
    + split; [|done]. intros k y Hk. destruct (Hold k y Hk) as (y' & ? & ? & ? & Hd). exists y'. split; [done|].
      split; [done|split; [done|]]. intros Hn. by rewrite Hd.
    + intros p k Hp. apply Hlive. by rewrite (rg_peers _ _ (ok_reg _ _ _ Hok) p k Hp).
  - unfold counted. rewrite (open_map_conns r); [exact Hcl|done|]. intros k [cn Hk]. apply Hlive.
    by rewrite (rg_conns _ _ (ok_reg _ _ _ Hok) k cn Hk).
Qed.

Lemma same_nodes_scope_add op delta `{!RopLaws op delta} h s err h' :
  heap_wf h -> is_Some (scopes h !! s) -> scope_add (S s) op s h = Ok (err, h') -> same_nodes h h'.
Proof.
  intros Hwf Hs Hrun. destruct (scope_add_spec op delta (S s) s h ltac:(lia) Hwf Hs) as (err' & Hrun' & _).
  rewrite Hrun in Hrun'. apply Ok_inj in Hrun' as [<- ->]. destruct err; [apply same_nodes_refl|].
  by apply same_nodes_on_rc, constraints_nodup.
Qed.

Lemma same_nodes_scope_remove op delta `{!RopLaws op delta} h s through h' :
  heap_wf h -> is_Some (scopes h !! s) -> scope_remove (S s) through op s h = Ok ((), h') -> same_nodes h h'.
Proof.
  intros Hwf Hs Hrun. rewrite (scope_remove_spec op delta through (S s) s h) in Hrun by (done || lia).
  apply Ok_inj in Hrun as [_ <-]. by apply same_nodes_on_rc, live_constraints_nodup.
Qed.

Lemma same_nodes_span_done h held s sc o h' :
  accounts h held -> scopes h !! s = Some sc -> owner sc = Some o -> Done s h = Ok ((), h') -> same_nodes h h'.
Proof.
  intros Hac Hs Ho Hrun. destruct (done sc) eqn:Hd.
  { rewrite (Done_closed h s sc Hs Hd) in Hrun. apply Ok_inj in Hrun as [_ <-]. apply same_nodes_refl. }
  rewrite (Done_span_run h held s sc o Hac Hs Hd Ho) in Hrun. apply Ok_inj in Hrun as [_ <-].
  set (l := live_constraints (S o) h o). assert (NoDup l) as Hnd by apply live_constraints_nodup, (ac_wf _ _ Hac).
  set (h1 := on_rc (releaseStat (stat (rc sc))) l h).
  assert (forall k, scopes (on_done s (on_refs (-1) o h1)) !! k =
    (fun y => (if decide (k = s) then closed_scope else id) ((if decide (k = o) then more_refs (-1) else id) y)) <$> scopes h1 !! k) as Hlk.
  { intros k. rewrite lookup_on_done, lookup_on_refs. destruct (scopes h1 !! k); [|done]. cbn.
    by repeat destruct (decide _). }
  assert (forall k, scopes h1 !! k = None <-> scopes h !! k = None) as Hdom.
  { intros k. unfold h1. rewrite lookup_on_rc by done. case_bool_decide; [|done]. by destruct (scopes h !! k). }
  apply (same_nodes_trans h h1); [done|by apply same_nodes_on_rc|]. split.
  - intros k y Hk. rewrite Hlk, Hk. eexists. split; [reflexivity|].
    destruct (decide (k = s)) as [->|Hne]; [|by destruct (decide (k = o))].
    assert (owner y = Some o) as Hoy.
    { unfold h1 in Hk. rewrite lookup_on_rc, Hs in Hk by done. revert Hk. case_bool_decide; by intros [= <-]. }
    destruct (decide (s = o)); (split; [done|split; [done|congruence]]).
  - intros k y' Hk Hn. by rewrite Hlk, Hn in Hk.
Qed.

(** ** A new manager *)

Definition node_at (h : heap) (k : nat) (es : list nat) : Prop :=
  exists y, scopes h !! k = Some y /\ done y = false /\ owner y = None /\ edges y = es.

Lemma fixed_scope {B} h held limit es name (K : nat -> M heap B) :
  accounts h held -> limit_ok limit -> NoDup es -> (forall e, e ∈ es -> exists es', node_at h e es') ->
  exists h', (s <- newResourceScope limit es name ;; IncRef s ;; K s) h = K (next h) h' /\
    accounts h' held /\ next h' = S (next h) /\ node_at h' (next h) es /\
    forall k es', (k < next h)%nat -> node_at h k es' -> node_at h' k es'.
Proof.
  intros Hac Hlim Hnd Hes.
  destruct (accounts_new_scope h held limit es name Hac Hlim Hnd) as (h1 & Hrun & Hac1 & Hnew & Hn & Hlk).
  { intros e He. destruct (Hes e He) as (es' & y & Hy & _ & Ho & _). by exists y. }
  exists (on_refs 1 (next h) h1). unfold bind at 1. rewrite Hrun. unfold bind at 1.
  rewrite IncRef_spec by (by rewrite Hnew). split; [done|split; [|split; [done|split]]].
  - apply accounts_on_refs; [|done]. intros sc Hs Hd. pose proof (ac_refs _ _ Hac1 _ sc Hs Hd). lia.
  - eexists. rewrite lookup_on_refs, Hnew. cbn. rewrite decide_True by done. split; [reflexivity|done].
  - intros k es' Hk (y & Hy & Hd & Ho & He). unfold node_at. rewrite lookup_on_refs, (Hlk k Hk), Hy. cbn.
    rewrite decide_False by lia. eexists. split; [reflexivity|]. by case_bool_decide.
Qed.

Definition first_roles : roles := fun k =>
  match k with 0 => KSystem | 1 => KTransient | 2 => KAllowSystem | 3 => KAllowTransient | _ => KSpan end%nat.

Section histories.
Context (L : Limiter) (HL : RcLimits.limiter_ok L).
Context (cl0 : connLimiter) (Hcl0 : unused_family (cl_v4 cl0) /\ unused_family (cl_v6 cl0)).

Lemma new_manager_ok :
  exists h r, NewResourceManager L cl0 empty_heap = Ok (r, h) /\ ok r no_holdings first_roles /\ counted cl0 r.
Proof using HL Hcl0.
  unfold NewResourceManager.
  assert (forall h e, (exists es, node_at h e es) -> forall x, x ∈ [e] -> exists es', node_at h x es') as Hone
    by (by intros h e He x ->%list_elem_of_singleton).
  assert (forall (h : heap) x, x ∈ @nil nat -> exists es', node_at h x es') as Hnone by (by intros h x ?%elem_of_nil).
  edestruct (fixed_scope (B:=resourceManager) empty_heap no_holdings (GetSystemLimits L) [] "system") as (h1 & -> & A1 & N1 & D0 & _);
    [apply accounts_empty|apply HL|apply NoDup_nil_2|apply Hnone|].
  edestruct (fixed_scope (B:=resourceManager) h1 no_holdings (GetTransientLimits L) [next empty_heap] "transient") as (h2 & -> & A2 & N2 & D1 & P2);
    [exact A1|apply HL|apply NoDup_singleton|apply Hone; by eexists|].
  edestruct (fixed_scope (B:=resourceManager) h2 no_holdings (GetAllowlistedSystemLimits L) [] "allowlistedSystem") as (h3 & -> & A3 & N3 & D2 & P3);
    [exact A2|apply HL|apply NoDup_nil_2|apply Hnone|].
  edestruct (fixed_scope (B:=resourceManager) h3 no_holdings (GetAllowlistedTransientLimits L) [next h2] "allowlistedTransient") as (h4 & -> & A4 & N4 & D3 & P4);
    [exact A3|apply HL|apply NoDup_singleton|apply Hone; by eexists|].
  change (next empty_heap) with 0%nat in *.
  assert (next h1 = 1 /\ next h2 = 2 /\ next h3 = 3 /\ next h4 = 4)%nat as (M1 & M2 & M3 & M4) by (split_and!; congruence).
  clear N1 N2 N3 N4. rewrite M1, ?M2, ?M3 in *.
  assert (node_at h4 0 [] /\ node_at h4 1 [0%nat] /\ node_at h4 2 []) as (E0 & E1 & E2).
  { split_and!; repeat first [assumption | apply P4; [lia|] | apply P3; [lia|] | apply P2; [lia|]]. }
  eexists _, _. split; [reflexivity|]. cbn [next] in *. split.
  - assert (forall k y, scopes h4 !! k = Some y -> owner y = None /\ (k = 0 /\ edges y = [] \/ k = 1 /\ edges y = [0] \/
      k = 2 /\ edges y = [] \/ k = 3 /\ edges y = [2])%nat) as Hall.
    { intros k y Hk. pose proof (sw_next _ _ _ (ac_wf _ _ A4 k y Hk)) as Hlt. rewrite M4 in Hlt.
      destruct k as [|[|[|[|k]]]]; [destruct E0 as (y' & ? & ? & ? & ?)|destruct E1 as (y' & ? & ? & ? & ?)|
        destruct E2 as (y' & ? & ? & ? & ?)|destruct D3 as (y' & ? & ? & ? & ?)|lia];
        (assert (y = y') as -> by congruence; split; [done|tauto]). }
    split; [exact A4| | | |done].
    + intros k y Hk. destruct (Hall k y Hk) as [Ho Hc]. split; [|done]. unfold shape.
      by destruct Hc as [[-> Hc]|[[-> Hc]|[[-> Hc]|[-> Hc]]]].
    + intros k Hk. destruct k as [|[|[|[|k]]]]; [..|done]; cbn in Hk.
      * destruct E0 as (? & ? & _). congruence.
      * destruct E1 as (? & ? & _). congruence.
      * destruct E2 as (? & ? & _). congruence.
      * destruct D3 as (? & ? & _). congruence.
    + split; done.
  - intros six. destruct Hcl0, six; by apply family_ok_unused.
Qed.

(** ** Histories *)

Context `{O : MapOrder, !MapOrderLaws O}.

Definition open_conn (r : resourceManager) (c : nat) : Prop :=
  is_Some (rm_conns r !! c) /\ is_live (rm_heap r) c = true.
Definition open_stream (r : resourceManager) (s : nat) : Prop :=
  is_Some (rm_streams r !! s) /\ is_live (rm_heap r) s = true.
(** Something constrains the scope: a connection that left the allowlisted
    scopes and found no place in the standard ones is not. *)
Definition constrained (r : resourceManager) (c : nat) : Prop :=
  exists sc, scopes (rm_heap r) !! c = Some sc /\ edges sc <> [].

(** The methods of the manager and of the scopes it hands out, with what the
    users of the scopes then hold.  A reference to a scope of a peer, protocol or
    service is dropped by who got it ([kept]); who releases memory has reserved
    it; [SetPeer], [SetProtocol] and [SetService] are called on open scopes.  The
    allowlist may change between calls (Allowlist.v). *)
Inductive manager_step : resourceManager * holdings -> resourceManager * holdings -> Prop :=
  | ms_open_conn (Allowed : string -> bool) dir usefd ep ip r held result r' :
      len (open_ips r) < mostPositive -> openConnection L Allowed dir usefd ep ip r = Ok (result, r') ->
      manager_step (r, held) (r', opened held result (dir_conns_delta dir usefd))
  | ms_open_stream p dir r held result r' :
      OpenStream L p dir r = Ok (result, r') ->
      manager_step (r, held) (r', opened held result (dir_streams_delta dir))
  | ms_set_peer (AllowedPeer : string -> string -> bool) c p r held err r' :
      open_conn r c -> constrained r c -> SetPeer L AllowedPeer c p r = Ok (err, r') ->
      manager_step (r, held) (r', held)
  | ms_set_protocol s proto r held err r' :
      open_stream r s -> SetProtocol L s proto r = Ok (err, r') -> manager_step (r, held) (r', held)
  | ms_set_service s svc r held err r' :
      open_stream r s -> SetService L s svc r = Ok (err, r') -> manager_step (r, held) (r', held)
  | ms_conn_done c r held r' :
      is_Some (rm_conns r !! c) -> conn_Done c r = Ok ((), r') ->
      manager_step (r, held) (r', closed (rm_heap r) held c)
  | ms_stream_done s r held r' :
      is_Some (rm_streams r !! s) -> on_heap (Done s) r = Ok ((), r') ->
      manager_step (r, held) (r', closed (rm_heap r) held s)
  | ms_get_peer p s r held r' : getPeerScope L p r = Ok (s, r') -> manager_step (r, held) (r', held)
  | ms_get_protocol n s r held r' : getProtocolScope L n r = Ok (s, r') -> manager_step (r, held) (r', held)
  | ms_get_service n s r held r' : getServiceScope L n r = Ok (s, r') -> manager_step (r, held) (r', held)
  | ms_put s es r held r' :
      (exists y, scopes (rm_heap r) !! s = Some y /\ owner y = None /\ edges y = es) ->
      kept (rm_heap r) s -> on_heap (DecRef s) r = Ok ((), r') -> manager_step (r, held) (r', held)
  | ms_gc r held r' :
      gc r = Ok ((), r') -> manager_step (r, held) (r', closed_since (rm_heap r) (rm_heap r') held)
  | ms_reserve s size prio r held err r' :
      is_Some (scopes (rm_heap r) !! s) -> 0 <= size < 2 ^ 63 -> is_u8 prio ->
      on_heap (ReserveMemory s size prio) r = Ok (err, r') ->
      manager_step (r, held) (r', grant held err s (mem_delta size))
  | ms_release s size r held r' :
      is_Some (scopes (rm_heap r) !! s) -> 0 <= size < 2 ^ 63 ->
      (is_live (rm_heap r) s = true -> size <= held s RMem) ->
      on_heap (ReleaseMemory s size) r = Ok ((), r') ->
      manager_step (r, held) (r', give_back (rm_heap r) held s (mem_delta size))
  | ms_span s span r held r' :
      is_Some (scopes (rm_heap r) !! s) -> on_heap (BeginSpan s) r = Ok (span, r') ->
      manager_step (r, held) (r', held)
  | ms_span_done s sc o r held r' :
      scopes (rm_heap r) !! s = Some sc -> owner sc = Some o -> on_heap (Done s) r = Ok ((), r') ->
      manager_step (r, held) (r', closed (rm_heap r) held s).

Definition manager_start (st : resourceManager * holdings) : Prop :=
  exists h, NewResourceManager L cl0 empty_heap = Ok (st.1, h) /\ st.2 = no_holdings.
Definition managed : resourceManager * holdings -> Prop := reachable manager_start manager_step.

Definition kept_ok (st : resourceManager * holdings) : Prop :=
  exists kd, ok st.1 st.2 kd /\ counted cl0 st.1.

Lemma on_heap_inv {A} (m : M heap A) r a r' :
  on_heap m r = Ok (a, r') -> exists h', m (rm_heap r) = Ok (a, h') /\ r' = r <| rm_heap := h' |>.
Proof using Type. unfold on_heap. destruct (m (rm_heap r)) as [[b h']|]; [|done]. intros [= -> <-]. by exists h'. Qed.

Definition is_ok {A B} (x : outcome (A * B)) : Prop := exists a b, x = Ok (a, b).
Lemma wp_is_ok {S A} (m : M S A) Q s : wp m Q s -> is_ok (m s).
Proof using Type. intros (a & s' & E & _)%wp_inv. by exists a, s'. Qed.

(** A step of a user of a scope keeps the invariant. *)
Lemma user_step r held kd h' held' :
  ok r held kd -> counted cl0 r -> use_step (rm_heap r, held) (h', held') -> same_nodes (rm_heap r) h' ->
  kept_ok (r <| rm_heap := h' |>, held').
Proof using Type.
  intros Hok Hcl Hst Hsame. exists kd. pose proof (use_step_accounts (rm_heap r, held) _ (ok_acc _ _ _ Hok) Hst) as Hac.
  by apply (ok_same_nodes cl0 r held).
Qed.

Lemma open_conn_lookup r held kd c :
  ok r held kd -> open_conn r c ->
  exists cn sc, rm_conns r !! c = Some cn /\ scopes (rm_heap r) !! c = Some sc /\ done sc = false.
Proof using Type.
  intros Hok [[cn Hc] Hl]. unfold is_live in Hl. destruct (scopes (rm_heap r) !! c) as [sc|] eqn:Hs; [|done].
  exists cn, sc. split_and!; [done|done|]. by apply negb_true_iff.
Qed.
Lemma open_stream_lookup r held kd s :
  ok r held kd -> open_stream r s ->
  exists st sc, rm_streams r !! s = Some st /\ scopes (rm_heap r) !! s = Some sc /\ done sc = false.
Proof using Type.
  intros Hok [[st Hc] Hl]. unfold is_live in Hl. destruct (scopes (rm_heap r) !! s) as [sc|] eqn:Hs; [|done].
  exists st, sc. split_and!; [done|done|]. by apply negb_true_iff.
Qed.

Lemma got_kept r held kd P s r' : counted cl0 r -> ok r held kd -> got r held kd P s r' -> kept_ok (r', held).
Proof using Type.
  intros Hcl Hok (kd' & Hok' & Haf & [Hc _] & _). exists kd'. split; [done|].
  by apply (after_counted cl0 r r' held kd kd').
Qed.

Lemma manager_step_ok st st' : kept_ok st -> manager_step st st' -> kept_ok st'.
Proof using HL MapOrderLaws0.
  intros (kd & Hok & Hcl) Hst. destruct Hst as
    [Allowed dir fd ep ip r held res r' Hlen Hrun|p dir r held res r' Hrun|AllowedPeer c p r held err r' Hc [sc' [Hs' Hne]] Hrun
    |s n r held err r' Hs Hrun|s n r held err r' Hs Hrun|c r held r' [cn Hc] Hrun|s r held r' [x Hs] Hrun
    |p s r held r' Hrun|n s r held r' Hrun|n s r held r' Hrun|s es r held r' (y & Hy & Ho & He) Hk Hrun|r held r' Hrun
    |s size prio r held err r' Hs Hsz Hp Hrun|s size r held r' Hs Hsz Hh Hrun|s span r held r' Hs Hrun
    |s sc o r held r' Hs Ho Hrun]; cbn [fst snd] in *.
  - exact (wp_run _ _ _ _ _ Hrun (wp_openConnection L HL cl0 Allowed r held kd dir fd ep ip Hok Hcl Hlen)).
  - exact (wp_run _ _ _ _ _ Hrun (wp_OpenStream L HL cl0 r held kd p dir Hok Hcl)).
  - destruct (open_conn_lookup r held kd c Hok Hc) as (cn & sc & Hcn & Hsc & Hd).
    rewrite Hsc in Hs'. injection Hs' as <-.
    exact (wp_run _ _ _ _ _ Hrun (wp_SetPeer L HL cl0 AllowedPeer r held kd c cn sc p Hok Hcl Hcn Hsc Hd Hne)).
  - destruct (open_stream_lookup r held kd s Hok Hs) as (x & sc & Hx & Hsc & Hd).
    exact (wp_run _ _ _ _ _ Hrun (wp_SetProtocol L HL cl0 r held kd s x sc n Hok Hcl Hx Hsc Hd)).
  - destruct (open_stream_lookup r held kd s Hok Hs) as (x & sc & Hx & Hsc & Hd).
    exact (wp_run _ _ _ _ _ Hrun (wp_SetService L HL cl0 r held kd s x sc n Hok Hcl Hx Hsc Hd)).
  - destruct (wp_run _ _ _ _ _ Hrun (wp_conn_Done cl0 r held kd c cn Hok Hcl Hc)) as (? & ? & _). by exists kd.
  - destruct (wp_run _ _ _ _ _ Hrun (wp_stream_Done cl0 r held kd s x Hok Hcl Hs)) as (? & ? & _). by exists kd.
  - by apply (got_kept r held kd _ s r' Hcl Hok (wp_run _ _ _ _ _ Hrun (wp_getPeerScope L HL r held kd p Hok))).
  - by apply (got_kept r held kd _ s r' Hcl Hok (wp_run _ _ _ _ _ Hrun (wp_getProtocolScope L HL r held kd n Hok))).
  - by apply (got_kept r held kd _ s r' Hcl Hok (wp_run _ _ _ _ _ Hrun (wp_getServiceScope L HL r held kd n Hok))).
  - refine (wp_run _ _ _ _ _ Hrun (wp_decref cl0 (fun _ r' => kept_ok (r', held)) r held kd s Hok Hcl _ Hk _)).
    + intros Hkd. destruct (ok_shape _ _ _ Hok s y Hy) as [Hsh _]. unfold shape in Hsh. rewrite Hkd, Ho in Hsh.
      by destruct Hsh.
    + intros r1 H1 H2. by exists kd.
  - pose proof (wp_run _ _ _ _ _ Hrun (wp_gc held kd r Hok)) as Hsh. exists kd. split; [apply Hsh|].
    by apply (shut_counted cl0 held kd r).
  - destruct (on_heap_inv _ _ _ _ Hrun) as (h' & Hrun' & ->). apply (user_step r held kd); [done|done|by econstructor|].
    pose proof (mem_op_laws size prio Hsz Hp).
    by apply (same_nodes_scope_add (mem_op size prio) (mem_delta size) _ s err), Hrun'; [apply (ok_wf r held kd Hok)|].
  - destruct (on_heap_inv _ _ _ _ Hrun) as (h' & Hrun' & ->). apply (user_step r held kd); [done|done|by econstructor|].
    assert (is_u8 0) as H0 by (unfold is_u8; lia). pose proof (mem_op_laws size 0 Hsz H0).
    by apply (same_nodes_scope_remove (mem_op size 0) (mem_delta size) _ s false), Hrun'; [apply (ok_wf r held kd Hok)|].
  - destruct (on_heap_inv _ _ _ _ Hrun) as (h' & Hrun' & ->). apply (user_step r held kd); [done|done|by econstructor|].
    destruct (accounts_begin_span _ held s (ok_acc _ _ _ Hok) Hs) as (sp & h1 & Hrun1 & _ & Hold & Hnew).
    rewrite Hrun' in Hrun1. apply Ok_inj in Hrun1 as [_ <-]. split; [|done].
    intros k y Hk. destruct (Hold k y Hk) as (y' & ? & ? & ? & ?). by exists y'.
  - destruct (on_heap_inv _ _ _ _ Hrun) as (h' & Hrun' & ->).
    apply (user_step r held kd); [done|done| |by apply (same_nodes_span_done _ held s sc o _ (ok_acc _ _ _ Hok))].
    apply us_done; [by eexists| |exact Hrun']. refine (ok_leaf r held kd Hok s _).
    destruct (ok_shape _ _ _ Hok s sc Hs) as [_ Hnone].
    destruct (kd s); try done; by rewrite (Hnone ltac:(done)) in Ho.
Qed.

Lemma managed_ok st : managed st -> kept_ok st.
Proof using HL Hcl0 MapOrderLaws0.
  intros Hr. apply (reachable_invariant manager_start manager_step kept_ok) in Hr; [done| |].
  - intros [r held] (h & Hrun & Hheld). cbn [fst snd] in *. subst held.
    destruct new_manager_ok as (h1 & r1 & Hrun1 & Hok & Hcl). rewrite Hrun in Hrun1.
    apply Ok_inj in Hrun1 as [<- _]. by exists first_roles.
  - intros s s'. apply manager_step_ok.
Qed.

(** ** What holds in every state *)

(** C13: However connections and streams are opened, attached, used, closed and
    collected: no scope ever accounts for more than its limits allow, an open
    scope accounts for exactly what is held in it, in its spans and in the open
    scopes that it constrains, and from no range of addresses are more
    connections open than the limiter allows. *)
Theorem manager_accounts r held :
  managed (r, held) ->
  (forall s sc, scopes (rm_heap r) !! s = Some sc ->
     (forall x, 0 <= usage (rc sc) x <= limit_of (rc_limit (rc sc)) x) /\
     nstreamsIn (rc sc) + nstreamsOut (rc sc) <= GetStreamTotalLimit (rc_limit (rc sc)) /\
     nconnsIn (rc sc) + nconnsOut (rc sc) <= GetConnTotalLimit (rc_limit (rc sc))) /\
  (forall s sc x, scopes (rm_heap r) !! s = Some sc -> done sc = false ->
     usage (rc sc) x = held s x + msum (span_use s x) (scopes (rm_heap r)) +
       msum (edge_use (rm_heap r) held s x) (scopes (rm_heap r))) /\
  (forall six i limit, networkPrefixLimit (family_of cl0 six) !! i = Some limit ->
     cnt (of_family six (open_ips r)) (in_network (networkPrefixLimit (family_of cl0 six)) i) <= Z.max 0 (np_ConnCount limit)) /\
  (forall six limit masked, limit ∈ connLimitPerSubnet (family_of cl0 six) ->
     cnt (of_family six (open_ips r)) (in_subnet (networkPrefixLimit (family_of cl0 six)) limit masked) <=
       Z.max 0 (sn_ConnCount limit)).
Proof using HL Hcl0 MapOrderLaws0.
  intros Hm. destruct (managed_ok _ Hm) as (kd & Hok & Hcl). cbn [fst snd] in *.
  pose proof (ok_acc _ _ _ Hok) as Hac. split; [|split; [|split]].
  - intros s sc Hs. destruct (sw_within _ _ _ (ac_wf _ _ Hac s sc Hs)) as [_ H1 H2 H3]. done.
  - intros s sc x Hs Hd. by apply (ac_balanced _ _ Hac).
  - intros six i limit Hi. by apply (fo_counts _ _ _ _ (Hcl six)).
  - intros six limit masked Hin. apply list_elem_of_lookup in Hin as [i Hi].
    destruct (Forall2_lookup_l _ _ _ _ _ (fo_entries _ _ _ _ (Hcl six)) Hi) as (m & _ & He). apply (He masked).
Qed.

(** The guards of the sticky maps make a nil map before it is written to. *)
Lemma setStickyProtocol_run n r : exists m, setStickyProtocol n r = Ok ((), r <| stickyProto := m |>).
Proof.
  eexists. unfold setStickyProtocol, bind, modify, gets, lift. cbv beta iota.
  change (stickyProto (r <| stickyProto := make_if_nil (stickyProto r) |>)) with (make_if_nil (stickyProto r)).
  rewrite map_set_made. reflexivity.
Qed.

Lemma setStickyPeer_run p r : exists m, setStickyPeer p r = Ok ((), r <| stickyPeer := m |>).
Proof.
  eexists. unfold setStickyPeer, bind, modify, gets, lift. cbv beta iota.
  change (stickyPeer (r <| stickyPeer := make_if_nil (stickyPeer r) |>)) with (make_if_nil (stickyPeer r)).
  rewrite map_set_made. reflexivity.
Qed.

Lemma SetLimit_run s limit h : is_Some (scopes h !! s) -> exists h', SetLimit s limit h = Ok ((), h').
Proof.
  intros [sc Hs]. unfold SetLimit, bind, getScope, deref. rewrite Hs. unfold updScope, bind, getScope, deref, modify. rewrite ?Hs. by eexists.
Qed.

Lemma protocol_SetLimit_run n ns limit r : rm_proto r !! n = Some ns -> is_Some (scopes (rm_heap r) !! ns_scope ns) ->
  is_ok (protocol_SetLimit n limit r).
Proof.
  intros Hn Hs. unfold protocol_SetLimit, bind, deref. rewrite Hn. destruct (setStickyProtocol_run n r) as [m ->].
  unfold on_heap. destruct (SetLimit_run (ns_scope ns) limit (rm_heap r) Hs) as [h' Hr]. cbn. rewrite Hr. by eexists _, _.
Qed.

Lemma peer_SetLimit_run p s limit r : rm_peer r !! p = Some s -> is_Some (scopes (rm_heap r) !! s) ->
  is_ok (peer_SetLimit p limit r).
Proof.
  intros Hn Hs. unfold peer_SetLimit, bind, deref. rewrite Hn. destruct (setStickyPeer_run p r) as [m ->].
  unfold on_heap. destruct (SetLimit_run s limit (rm_heap r) Hs) as [h' Hr]. cbn. rewrite Hr. by eexists _, _.
Qed.

(** C14: No method of the manager panics, in any state its users can bring it to: no nil
    pointer is dereferenced, no nil map written to, no slice of the limiter indexed past
    its end; each returns.  [SetPeer] is called for a connection that is open and still
    has its scopes, [SetProtocol] and [SetService] for an open stream, [Done] for a
    connection or stream the manager handed out, [SetLimit] for a scope that is
    registered, and fewer connections are open per address than an int counts. *)
Theorem manager_never_panics r held :
  managed (r, held) ->
  (forall Allowed dir usefd ep ip, len (open_ips r) < mostPositive ->
     is_ok (openConnection L Allowed dir usefd ep ip r)) /\
  (forall p dir, is_ok (OpenStream L p dir r)) /\
  (forall AllowedPeer c p, open_conn r c -> constrained r c -> is_ok (SetPeer L AllowedPeer c p r)) /\
  (forall s proto, open_stream r s -> is_ok (SetProtocol L s proto r)) /\
  (forall s svc, open_stream r s -> is_ok (SetService L s svc r)) /\
  (forall c, is_Some (rm_conns r !! c) -> is_ok (conn_Done c r)) /\
  (forall s, is_Some (rm_streams r !! s) -> is_ok (on_heap (Done s) r)) /\
  (forall n, is_ok (getPeerScope L n r) /\ is_ok (getProtocolScope L n r) /\ is_ok (getServiceScope L n r)) /\
  (forall n limit, (is_Some (rm_proto r !! n) -> is_ok (protocol_SetLimit n limit r)) /\
     (is_Some (rm_peer r !! n) -> is_ok (peer_SetLimit n limit r))) /\
  is_ok (gc r).
Proof using HL Hcl0 MapOrderLaws0.
  intros Hm. destruct (managed_ok _ Hm) as (kd & Hok & Hcl). cbn [fst snd] in *.
  split_and!; intros.
  - by eapply wp_is_ok, wp_openConnection.
  - by eapply wp_is_ok, wp_OpenStream.
  - destruct (open_conn_lookup r held kd c Hok) as (cn & sc & Hcn & Hsc & Hd); [done|].
    match goal with H : constrained r c |- _ => destruct H as (sc' & Hs' & Hne) end.
    rewrite Hsc in Hs'. injection Hs' as <-. by eapply wp_is_ok, wp_SetPeer.
  - destruct (open_stream_lookup r held kd s Hok) as (st & sc & Hst & Hsc & Hd); [done|].
    by eapply wp_is_ok, wp_SetProtocol.
  - destruct (open_stream_lookup r held kd s Hok) as (st & sc & Hst & Hsc & Hd); [done|].
    by eapply wp_is_ok, wp_SetService.
  - match goal with H : is_Some _ |- _ => destruct H as [cn Hcn] end. by eapply wp_is_ok, wp_conn_Done.
  - match goal with H : is_Some _ |- _ => destruct H as [st Hst] end. by eapply wp_is_ok, wp_stream_Done.
  - split; [|split]; eapply wp_is_ok; [by eapply wp_getPeerScope|by eapply wp_getProtocolScope|by eapply wp_getServiceScope].
  - split; intros [x Hx].
    + apply (protocol_SetLimit_run _ _ _ _ Hx), (ok_alloc r held kd Hok).
      destruct (rg_protos _ _ (ok_reg _ _ _ Hok) _ _ Hx) as [Hk _]. by rewrite Hk.
    + apply (peer_SetLimit_run _ _ _ _ Hx), (ok_alloc r held kd Hok). by rewrite (rg_peers _ _ (ok_reg _ _ _ Hok) _ _ Hx).
  - by eapply wp_is_ok, wp_gc.
Qed.

(** C19: An open stream is accounted to the peer it is with, whose scope is open and
    registered, to the system scope, and to the transient scope exactly until
    its protocol is known; the peer's scope covers what the stream uses. *)
Theorem stream_attribution r held s st sc :
  managed (r, held) -> rm_streams r !! s = Some st -> scopes (rm_heap r) !! s = Some sc -> done sc = false ->
  st_peerScope st ∈ edges sc /\ rm_system r ∈ edges sc /\
  (rm_transient r ∈ edges sc <-> st_proto st = None) /\
  exists ps, rm_peer r !! st_peer st = Some (st_peerScope st) /\
    scopes (rm_heap r) !! st_peerScope st = Some ps /\ done ps = false /\
    forall x, 0 <= usage (rc sc) x <= usage (rc ps) x.
Proof using HL Hcl0 MapOrderLaws0.
  intros Hm Hst Hs Hd. destruct (managed_ok _ Hm) as (kd & Hok & _). cbn [fst snd] in *.
  pose proof (ok_acc _ _ _ Hok) as Hac. pose proof (rg_streams _ _ (ok_reg _ _ _ Hok) _ _ Hst) as Hk.
  destruct (ok_shape _ _ _ Hok s sc Hs) as [Hsh Hnone]. specialize (Hnone ltac:(by rewrite Hk)).
  unfold shape in Hsh. rewrite Hk in Hsh. destruct Hsh as (st' & Hst' & Hes). rewrite Hst in Hst'. injection Hst' as <-.
  specialize (Hes Hd). destruct (stream_roles r held kd Hok st _ Hes) as [Hkp _]. destruct Hes as [Hp Hes].
  destruct (rg_fixed _ _ (ok_reg _ _ _ Hok)) as (F1 & F2 & _).
  assert (st_peerScope st ∈ edges sc /\ rm_system r ∈ edges sc /\ (rm_transient r ∈ edges sc <-> st_proto st = None)) as (E1 & E2 & E3).
  { destruct (st_proto st) as [pr|], (peerProtoScope st) as [pps|], (st_svc st) as [sv|], (peerSvcScope st) as [pss|]; try done;
      [destruct Hes as ((n1 & ? & ?) & (n2 & ? & ?) & ->)|destruct Hes as ((n1 & ? & ?) & ->)|rewrite Hes];
      rewrite !elem_of_cons, !elem_of_nil; (split; [tauto|split; [tauto|]]); (split; [intros Hin|intros [=]; tauto]);
      try done; exfalso; decompose [or] Hin; congruence. }
  split; [done|split; [done|split; [done|]]].
  pose proof (ok_live _ _ _ Hok _ _ Hp) as Hl. unfold is_live in Hl.
  destruct (scopes (rm_heap r) !! st_peerScope st) as [ps|] eqn:Hps; [|done]. apply negb_true_iff in Hl.
  exists ps. split; [done|split; [done|split; [done|]]]. intros x.
  destruct (sw_within _ _ _ (ac_wf _ _ Hac s sc Hs)) as [_ Hu _ _]. specialize (Hu x).
  pose proof (leaf_usage (rm_heap r) held s sc Hac Hs Hd (ok_leaf r held kd Hok s ltac:(by rewrite Hk)) x).
  pose proof (usage_covers_edge (rm_heap r) held s sc _ ps x Hac Hs Hd E1 Hps Hl). lia.
Qed.

(** C20: The garbage collector, run in any state, returns; it closes no connection
    and no stream, and the peer of an open stream stays registered under the
    scope that accounts for the stream. *)
Theorem gc_keeps_users r held :
  managed (r, held) ->
  exists r', gc r = Ok ((), r') /\ managed (r', closed_since (rm_heap r) (rm_heap r') held) /\
    rm_conns r' = rm_conns r /\ rm_streams r' = rm_streams r /\ rm_connLimiter r' = rm_connLimiter r /\
    (forall k, is_Some (rm_conns r !! k) \/ is_Some (rm_streams r !! k) ->
       is_live (rm_heap r') k = is_live (rm_heap r) k) /\
    (forall k, is_live (rm_heap r') k = true -> is_live (rm_heap r) k = true) /\
    (forall s st, open_stream r s -> rm_streams r !! s = Some st ->
       rm_peer r' !! st_peer st = Some (st_peerScope st) /\ is_live (rm_heap r') (st_peerScope st) = true).
Proof using HL Hcl0 MapOrderLaws0.
  intros Hm. destruct (managed_ok _ Hm) as (kd & Hok & _). cbn [fst snd] in *.
  destruct (wp_inv _ _ _ (wp_gc held kd r Hok)) as ([] & r' & Hrun & Hsh).
  pose proof (sh_users _ _ _ _ Hsh) as [Hc Hst].
  assert (forall k, is_Some (rm_conns r !! k) \/ is_Some (rm_streams r !! k) ->
    is_live (rm_heap r') k = is_live (rm_heap r) k) as Hkept.
  { intros k Hk. apply (sh_kept _ _ _ _ Hsh). destruct Hk as [[x Hx]|[x Hx]];
      [left; by apply (rg_conns _ _ (ok_reg _ _ _ Hok) k x)|right; by apply (rg_streams _ _ (ok_reg _ _ _ Hok) k x)]. }
  exists r'. split; [done|]. split; [eapply reach_step; [exact Hm|by apply ms_gc]|].
  split; [done|split; [done|split; [apply Hsh|split; [done|split; [apply Hsh|]]]]].
  intros s st [Hs Hl] Hstl. rewrite <- Hst in Hstl. pose proof (sh_ok _ _ _ _ Hsh) as Hok'.
  rewrite <- Hkept in Hl by (by right). unfold is_live in Hl.
  destruct (scopes (rm_heap r') !! s) as [sc|] eqn:Hsc; [|done]. apply negb_true_iff in Hl.
  destruct (ok_shape _ _ _ Hok' s sc Hsc) as [Hshape _]. unfold shape in Hshape.
  rewrite (rg_streams _ _ (ok_reg _ _ _ Hok') _ _ Hstl) in Hshape. destruct Hshape as (st' & Hst' & Hes).
  rewrite Hstl in Hst'. injection Hst' as <-. destruct (Hes Hl) as [Hp _].
  split; [done|]. by apply (ok_live _ _ _ Hok' _ _ Hp).
Qed.

(** ** What the manager reports *)

Definition stat_of (h : heap) (s : nat) : option ScopeStat := (fun sc => stat (rc sc)) <$> scopes h !! s.

Lemma collect_stats_run {A} (scope_of : A -> nat) l h acc :
  NoDup l.*1 -> (forall n a, (n, a) ∈ l -> is_Some (scopes h !! scope_of a)) ->
  exists m, collect_stats scope_of l acc h = Ok (m, h) /\
    (forall n a, (n, a) ∈ l -> m !! n = stat_of h (scope_of a)) /\
    (forall n, n ∉ l.*1 -> m !! n = acc !! n).
Proof using Type.
  revert acc. induction l as [|[n a] l IH]; intros acc Hnd Hin; cbn [collect_stats].
  { exists acc. split; [done|split; [by intros n a ?%elem_of_nil|done]]. }
  cbn in Hnd. apply NoDup_cons in Hnd as [Hn Hnd]. destruct (Hin n a (list_elem_of_here _ _)) as [sc Hsc].
  unfold bind at 1, Stat, bind at 1, getScope, deref. rewrite Hsc. cbn [ret].
  destruct (IH (<[n := stat (rc sc)]> acc) Hnd) as (m & Hrun & H1 & H2); [by intros; eapply Hin; right|].
  exists m. split; [exact Hrun|split].
  - intros n' a' [[= -> ->]|Hl]%elem_of_cons; [|by apply H1].
    rewrite (H2 n Hn), lookup_insert_eq. unfold stat_of. by rewrite Hsc.
  - intros n' Hn'. cbn in Hn'. apply not_elem_of_cons in Hn' as [Hne Hl]. rewrite (H2 n' Hl). by rewrite lookup_insert_ne.
Qed.

Lemma collect_map {A} (scope_of : A -> nat) (m : gmap string A) h :
  (forall n a, m !! n = Some a -> is_Some (scopes h !! scope_of a)) ->
  exists res, collect_stats scope_of (map_range m) ∅ h = Ok (res, h) /\
    forall n, res !! n = m !! n ≫= fun a => stat_of h (scope_of a).
Proof using MapOrderLaws0.
  intros Hm. destruct (collect_stats_run scope_of (map_range m) h ∅) as (res & Hrun & H1 & H2).
  { apply map_range_nodup. }
  { intros n a Hl. by eapply Hm, map_range_lookup. }
  exists res. split; [exact Hrun|]. intros n. destruct (m !! n) as [a|] eqn:Ha; cbn.
  - apply H1. rewrite map_range_perm. by apply elem_of_map_to_list.
  - rewrite H2; [done|]. intros Hl. apply list_elem_of_fmap in Hl as ([n' a] & E & Hl). cbn in E. subst n.
    by rewrite (map_range_lookup m n' a Hl) in Ha.
Qed.

(** The statistics name exactly the registered services, protocols and peers,
    each with the counters of its scope. *)
Theorem manager_stat_exact r held :
  managed (r, held) ->
  exists st, manager_Stat r = Ok (st, r) /\
    (forall p, ms_Peers st !! p = rm_peer r !! p ≫= stat_of (rm_heap r)) /\
    (forall n, ms_Protocols st !! n = rm_proto r !! n ≫= fun ns => stat_of (rm_heap r) (ns_scope ns)) /\
    (forall n, ms_Services st !! n = rm_svc r !! n ≫= fun ns => stat_of (rm_heap r) (ns_scope ns)) /\
    Some (ms_System st) = stat_of (rm_heap r) (rm_system r) /\
    Some (ms_Transient st) = stat_of (rm_heap r) (rm_transient r) /\
    (forall p, is_Some (ms_Peers st !! p) <-> is_Some (rm_peer r !! p)).
Proof using HL Hcl0 MapOrderLaws0.
  intros Hm. destruct (managed_ok _ Hm) as (kd & Hok & _). cbn [fst snd] in *.
  destruct (ok_reg _ _ _ Hok) as [(F1 & F2 & _) R2 R3 R4 _ _].
  assert (forall s, kd s <> KSpan -> is_Some (scopes (rm_heap r) !! s)) as Hex by apply (ok_alloc r held kd Hok).
  destruct (collect_map id (rm_peer r) (rm_heap r)) as (ps & E1 & H1).
  { intros p k Hp. apply (Hex k). by rewrite (R2 p k Hp). }
  destruct (collect_map ns_scope (rm_proto r) (rm_heap r)) as (prs & E2 & H2).
  { intros n ns Hn. apply Hex. by rewrite (proj1 (R3 n ns Hn)). }
  destruct (collect_map ns_scope (rm_svc r) (rm_heap r)) as (ss & E3 & H3).
  { intros n ns Hn. apply Hex. by rewrite (proj1 (R4 n ns Hn)). }
  destruct (Hex (rm_transient r)) as [tr Htr]; [congruence|]. destruct (Hex (rm_system r)) as [sy Hsy]; [congruence|].
  exists (mkManagerStat (stat (rc sy)) (stat (rc tr)) ss prs ps). split.
  - assert ((r <| rm_heap := rm_heap r |>) = r) as Hr by (by destruct r).
    unfold manager_Stat, bind, gets, on_heap. rewrite E1, !Hr, E2, !Hr, E3, !Hr.
    unfold Stat, bind, getScope, deref. rewrite Htr. unfold ret. rewrite Hr, Hsy. by rewrite Hr.
  - cbn. unfold stat_of at 4 5. rewrite Htr, Hsy. split_and!; try done.
    intros p. rewrite H1. destruct (rm_peer r !! p) as [k|] eqn:Hp; cbn; [|done].
    unfold stat_of. destruct (Hex k) as [y Hy]; [by rewrite (R2 p k Hp)|]. rewrite Hy. cbn. split; by eexists.
Qed.
End histories.

(** ** A run *)

Definition demo_limiter : Limiter :=
  mkLimiter demo_limit demo_limit demo_limit demo_limit (fun _ => demo_limit) (fun _ => demo_limit)
    (fun _ => demo_limit) (fun _ => demo_limit) (fun _ => demo_limit) (fun _ => demo_limit) demo_limit.

Lemma demo_limiter_ok : RcLimits.limiter_ok demo_limiter.
Proof. split; intros; apply demo_limit_ok. Qed.

Lemma newConnLimiter_unused : unused_family (cl_v4 newConnLimiter) /\ unused_family (cl_v6 newConnLimiter).
Proof. by vm_compute. Qed.

(** The state after a method, and what the method returned. *)
Definition exec {A} (m : M resourceManager A) (r : resourceManager) : resourceManager :=
  match m r with Ok (_, r') => r' | Panic => r end.
Definition returned {A} (m : M resourceManager A) (r : resourceManager) : option A :=
  match m r with Ok (a, _) => Some a | Panic => None end.

Lemma exec_ok {A} (m : M resourceManager A) r a : returned m r = Some a -> m r = Ok (a, exec m r).
Proof. unfold returned, exec. destruct (m r) as [[b r']|]; [|done]. by intros [= ->]. Qed.

Ltac by_running :=
  match goal with |- ?m ?r = Ok (?a, _) => refine (exec_ok m r a _); vm_compute; reflexivity end.

Definition new_manager (L : Limiter) : resourceManager :=
  match NewResourceManager L newConnLimiter empty_heap with
  | Ok (r, _) => r
  | Panic => mkManager empty_heap newConnLimiter 0 0 0 0 ∅ ∅ ∅ None None 0 0 ∅ ∅
  end.

Section run.
Let L := demo_limiter.
Let no_list : string -> bool := fun _ => false.
Let no_peers : string -> string -> bool := fun _ _ => false.

(** An inbound connection of a peer, with a stream of a protocol and a service. *)
Definition run0 := new_manager L.
Definition run1 := exec (openConnection L no_list DirInbound true "/ip4/10.0.0.7" (Some demo_ip)) run0.
Definition run2 := exec (SetPeer L no_peers 4 "p") run1.
Definition run3 := exec (OpenStream L "p" DirInbound) run2.
Definition run4 := exec (SetProtocol L 6 "/x") run3.
Definition run5 := exec (SetService L 6 "svc") run4.
Definition run_held1 : holdings := opened no_holdings (inr 4%nat) (dir_conns_delta DirInbound true).
Definition run_held : holdings := opened run_held1 (inr 6%nat) (dir_streams_delta DirInbound).

Local Abbreviation step := (manager_step L (O := listed_order)).
Local Abbreviation reached := (managed L newConnLimiter (O := listed_order)).

Lemma run1_managed : reached (run1, run_held1).
Proof.
  apply (reach_step _ _ (run0, no_holdings)).
  - apply reach_init. eexists. split; [|reflexivity]. vm_compute. reflexivity.
  - refine (ms_open_conn L no_list DirInbound true _ (Some demo_ip) run0 _ (inr 4%nat) run1 _ _).
    + vm_compute. reflexivity.
    + by_running.
Qed.

Lemma run2_managed : reached (run2, run_held1).
Proof.
  apply (reach_step _ _ (run1, run_held1)); [exact run1_managed|].
  refine (ms_set_peer L no_peers 4 "p" run1 _ None run2 _ _ _).
  - split; [|vm_compute; reflexivity]. vm_compute. eexists. reflexivity.
  - eexists. split; [vm_compute; reflexivity|]. done.
  - by_running.
Qed.

Lemma run3_managed : reached (run3, run_held).
Proof.
  apply (reach_step _ _ (run2, run_held1)); [exact run2_managed|].
  refine (ms_open_stream L "p" DirInbound run2 _ (inr 6%nat) run3 _).
  by_running.
Qed.

Lemma run4_managed : reached (run4, run_held).
Proof.
  apply (reach_step _ _ (run3, run_held)); [exact run3_managed|].
  refine (ms_set_protocol L 6 "/x" run3 _ None run4 _ _).
  - split; [|vm_compute; reflexivity]. vm_compute. eexists. reflexivity.
  - by_running.
Qed.

Lemma run5_managed : reached (run5, run_held).
Proof.
  apply (reach_step _ _ (run4, run_held)); [exact run4_managed|].
  refine (ms_set_service L 6 "svc" run4 _ None run5 _ _).
  - split; [|vm_compute; reflexivity]. vm_compute. eexists. reflexivity.
  - by_running.
Qed.
End run.

Lemma manager_accounts_witness :
  exists sc, scopes (rm_heap run5) !! 0%nat = Some sc /\ usage (rc sc) RConnIn = 1 /\ usage (rc sc) RStreamIn = 1 /\
    0 <= usage (rc sc) RConnIn <= limit_of (rc_limit (rc sc)) RConnIn.
Proof.
  destruct (manager_accounts demo_limiter demo_limiter_ok newConnLimiter newConnLimiter_unused
    (O := listed_order) (MapOrderLaws0 := listed_order_laws) run5 run_held run5_managed)
    as (H & _). eexists. split; [vm_compute; reflexivity|]. split; [reflexivity|split; [reflexivity|]].
  refine (proj1 (H 0%nat _ _) RConnIn). vm_compute. reflexivity.
Defined.

Lemma manager_never_panics_witness : is_ok (gc (O := listed_order) run5).
Proof.
  exact (proj2 (proj2 (proj2 (proj2 (proj2 (proj2 (proj2 (proj2 (proj2
    (manager_never_panics demo_limiter demo_limiter_ok newConnLimiter newConnLimiter_unused
    (O := listed_order) (MapOrderLaws0 := listed_order_laws)
    run5 run_held run5_managed)))))))))).
Defined.

Lemma stream_attribution_witness :
  exists st sc, rm_streams run5 !! 6%nat = Some st /\ scopes (rm_heap run5) !! 6%nat = Some sc /\
    st_peerScope st ∈ edges sc /\ rm_system run5 ∈ edges sc.
Proof.
  assert (exists st, rm_streams run5 !! 6%nat = Some st) as [st Hst] by (vm_compute; eexists; reflexivity).
  assert (exists sc, scopes (rm_heap run5) !! 6%nat = Some sc /\ done sc = false) as (sc & Hsc & Hd)
    by (eexists; split; vm_compute; reflexivity).
  exists st, sc. split; [exact Hst|split; [exact Hsc|]].
  destruct (stream_attribution demo_limiter demo_limiter_ok newConnLimiter newConnLimiter_unused
    (O := listed_order) (MapOrderLaws0 := listed_order_laws)
    run5 run_held 6%nat st sc run5_managed Hst Hsc Hd) as (H1 & H2 & _). by split.
Defined.

Lemma gc_keeps_users_witness :
  exists r', gc (O := listed_order) run5 = Ok ((), r') /\ rm_conns r' = rm_conns run5.
Proof.
  destruct (gc_keeps_users demo_limiter demo_limiter_ok newConnLimiter newConnLimiter_unused
    (O := listed_order) (MapOrderLaws0 := listed_order_laws)
    run5 run_held run5_managed) as (r' & H1 & _ & H2 & _). exists r'. split; [exact H1|exact H2].
Defined.

Lemma manager_stat_exact_witness :
  exists st, manager_Stat (O := listed_order) run5 = Ok (st, run5) /\ is_Some (ms_Peers st !! "p").
Proof.
  destruct (manager_stat_exact demo_limiter demo_limiter_ok newConnLimiter newConnLimiter_unused
    (O := listed_order) (MapOrderLaws0 := listed_order_laws)
    run5 run_held run5_managed) as (st & H1 & _ & _ & _ & _ & _ & H2).
  exists st. split; [exact H1|]. apply H2. vm_compute. eexists. reflexivity.
Defined.

(** ** What goes wrong when a method is called where it should not be *)

(** A closed stream is given a protocol: the call succeeds, and the reference it
    takes is never dropped, so the protocol is never collected. *)
Definition closed_run := exec (SetProtocol demo_limiter 6 "/x") (exec (on_heap (Done 6)) run3).

Lemma closed_stream_keeps_protocol :
  returned (SetProtocol demo_limiter 6 "/x") (exec (on_heap (Done 6)) run3) = Some None /\
  is_live (rm_heap closed_run) 6 = false /\
  is_Some (rm_proto (exec (gc (O := listed_order)) closed_run) !! "/x") /\
  is_Some (rm_proto (exec (gc (O := listed_order)) (exec (conn_Done 4) closed_run)) !! "/x").
Proof. split_and!; vm_compute; [done|done|by eexists|by eexists]. Qed.

(** One connection may be open, but any number of allowlisted ones.  A
    connection that was let in for its address but turns out to be of another
    peer is refused by the standard scopes; when [SetPeer] is tried once more it
    succeeds, without a place in the system scope, and takes the place of the
    first connection away when it is closed. *)
Definition one_conn : Limit := mkLimit (2 ^ 27) (fun _ => 1024) 2048 (fun _ => 1) 1 256.
Definition narrow_limiter : Limiter :=
  mkLimiter one_conn demo_limit demo_limit demo_limit (fun _ => demo_limit) (fun _ => demo_limit)
    (fun _ => demo_limit) (fun _ => demo_limit) (fun _ => demo_limit) (fun _ => demo_limit) demo_limit.

Definition open_narrow (allowed : bool) (ip : Z) : M resourceManager (rcerror + nat) :=
  openConnection narrow_limiter (fun _ => allowed) DirInbound true "/ip4/10.0.0.7"
    (Some (mkAddr false (Z.shiftl 10 24 + ip) "")).
Definition set_narrow : M resourceManager (option rcerror) := SetPeer narrow_limiter (fun _ _ => false) 6 "q".

Definition narrow1 := exec (open_narrow false 1) (new_manager narrow_limiter).
Definition narrow2 := exec (open_narrow true 2) narrow1.
Definition narrow3 := exec set_narrow narrow2.
Definition narrow4 := exec set_narrow narrow3.
Definition narrow5 := exec (conn_Done 6) narrow4.
Definition narrow6 := exec (open_narrow false 3) narrow5.

Definition system_conns (r : resourceManager) : option Z :=
  (fun sc => usage (rc sc) RConnIn) <$> scopes (rm_heap r) !! rm_system r.

Lemma second_SetPeer_frees_a_place :
  returned (open_narrow false 1) (new_manager narrow_limiter) = Some (inr 4%nat) /\
  returned (open_narrow true 2) narrow1 = Some (inr 6%nat) /\
  is_Some (mjoin (returned set_narrow narrow2)) /\ returned set_narrow narrow3 = Some None /\
  system_conns narrow4 = Some 1 /\ system_conns narrow5 = Some 0 /\
  is_live (rm_heap narrow6) 4 = true /\ returned (open_narrow false 3) narrow5 = Some (inr 8%nat).
Proof. split_and!; vm_compute; try reflexivity. eexists. reflexivity. Qed.
