(* ===== verification/Allowlist.v ===== *)
(** The allowlist of the resource manager:
    src/myvendor/go-libp2p/p2p/host/resource-manager/allowlist.go, with the IP
    networks of Go's [net] package that it keeps.

    An address is the bytes of a [net.IP] (PrivateIP.v); a multiaddr is its text,
    parsed by the class [Multiaddrs], and the address of one ([manet.ToIP]) is a
    parameter. *)

From Stdlib Require Import Ascii.
From stdpp Require Import gmap strings list.
From S2P Require Import Prelude GoLib TunnelAddr PrivateIP PeerAddr.
#[local] Open Scope Z_scope.

(** ** IP networks ([net.IPNet]) *)

Record IPNet := mkIPNet { net_IP : IP; net_Mask : list Z }.
#[export] Instance IPNet_eq_dec : EqDecision IPNet.
Proof. solve_decision. Defined.

(** The bytes of a mask of [n] ones. *)
Fixpoint cidr_bytes (l : nat) (n : Z) : list Z :=
  match l with
  | O => []
  | S l => if 8 <=? n then 255 :: cidr_bytes l (n - 8) else Z.lxor 255 (Z.shiftr 255 n) :: cidr_bytes l 0
  end.

Definition CIDRMask (ones bits : Z) : list Z := cidr_bytes (Z.to_nat (bits / 8)) ones.

Definition and_bytes (a b : list Z) : list Z := zip_with Z.land a b.

(** [IP.Mask]; [None] is nil. *)
Definition IP_Mask (ip mask : list Z) : option IP :=
  let mask := if bool_decide (length mask = 16%nat /\ length ip = 4%nat /\ take 12 mask = replicate 12 255)
              then drop 12 mask else mask in
  let ip := if bool_decide (length mask = 4%nat /\ length ip = 16%nat /\ take 12 ip = v4InV6Prefix)
            then drop 12 ip else ip in
  if bool_decide (length ip = length mask) then Some (and_bytes ip mask) else None.

Definition IP_Equal (ip x : IP) : bool :=
  if bool_decide (length ip = length x) then bool_decide (ip = x)
  else if bool_decide (length ip = 4%nat /\ length x = 16%nat) then bool_decide (x = v4InV6Prefix ++ ip)
  else if bool_decide (length ip = 16%nat /\ length x = 4%nat) then bool_decide (ip = v4InV6Prefix ++ x)
  else false.

(** [networkNumberAndMask]; [None] is a pair of nils. *)
Definition networkNumberAndMask (n : IPNet) : option (IP * list Z) :=
  ip ← (match To4 (net_IP n) with
        | Some ip => Some ip
        | None => if bool_decide (length (net_IP n) = 16%nat) then Some (net_IP n) else None
        end);
  let m := net_Mask n in
  if bool_decide (length m = 4%nat) then (if bool_decide (length ip = 4%nat) then Some (ip, m) else None)
  else if bool_decide (length m = 16%nat) then Some (ip, if bool_decide (length ip = 4%nat) then drop 12 m else m)
  else None.

Definition net_Contains (n : IPNet) (ip : IP) : bool :=
  let ip := default ip (To4 ip) in
  match networkNumberAndMask n with
  | Some (nn, m) => bool_decide (length ip = length nn) && bool_decide (and_bytes nn m = and_bytes ip m)
  | None => bool_decide (ip = [])
  end.

(** [net.ParseCIDR] of the text of an address, a slash and the text of a length
    ([dtoi]); the address may not have a zone. *)
Definition dtoi (s : string) : option Z :=
  let digit c := let n := Z.of_nat (nat_of_ascii c) in if (48 <=? n) && (n <=? 57) then Some (n - 48) else None in
  match mapM digit (String.list_ascii_of_string s) with
  | Some (d :: ds) =>
      let n := foldl (fun n d => 10 * n + d) d ds in if 16777215 <=? n then None else Some n
  | _ => None
  end.

Definition is_v4_text (s : string) : bool :=
  match list_find (fun c => c = "."%char \/ c = ":"%char \/ c = "%"%char) (String.list_ascii_of_string s) with
  | Some (_, "."%char) => true
  | _ => false
  end.

Definition ParseCIDR (ip mask : string) : option IPNet :=
  addr ← ParseIP ip;
  n ← dtoi mask;
  let bits := if is_v4_text ip then 32 else 128 in
  if bits <? n then None
  else
    let m := CIDRMask n bits in
    base ← IP_Mask addr m;
    Some (mkIPNet base m).

(** ** The allowlist *)

Section allowlist.
Context `{MA : Multiaddrs} (ToIP : string -> option IP).

Record Allowlist := mkAllowlist {
  allowedNetworks : list IPNet;
  allowedPeerByNetwork : gmap string (list IPNet);
}.

Definition newAllowlist : Allowlist := mkAllowlist [] ∅.

(** What [toIPNet] has found so far: the address with its family, the length of
    the prefix and the peer; empty texts are not found. *)
Record found := mkFound { ipString : string; isIPV4 : bool; mask : string; allowedPeerStr : string }.

(** The loop over the components, until all three are found. *)
Fixpoint scan (cs : list (string * string)) (f : found) : found :=
  match cs with
  | [] => f
  | (name, value) :: cs' =>
      let f := if bool_decide (name = "ip4" \/ name = "ip6")
               then mkFound value (bool_decide (name = "ip4")) (mask f) (allowedPeerStr f) else f in
      let f := if bool_decide (name = "ipcidr")
               then mkFound (ipString f) (isIPV4 f) value (allowedPeerStr f) else f in
      let f := if bool_decide (name = "p2p")
               then mkFound (ipString f) (isIPV4 f) (mask f) value else f in
      if bool_decide (ipString f = "" \/ mask f = "" \/ allowedPeerStr f = "") then scan cs' f else f
  end.

(** [None] is an error; the peer is empty when any peer may use the network. *)
Definition toIPNet (ma : string) : option (IPNet * string) :=
  let f := scan (components ma) (mkFound "" false "" "") in
  if bool_decide (ipString f = "") then None
  else
    allowedPeer ← (if bool_decide (allowedPeerStr f = "") then Some "" else peer_Decode (allowedPeerStr f));
    if bool_decide (mask f = "") then
      ip ← ParseIP (ipString f);
      Some (mkIPNet ip (if isIPV4 f then CIDRMask 32 32 else CIDRMask 128 128), allowedPeer)
    else
      ipnet ← ParseCIDR (ipString f) (mask f);
      Some (ipnet, allowedPeer).

(** The networks an entry for the peer is kept with. *)
Definition networks_of (al : Allowlist) (p : string) : list IPNet :=
  if bool_decide (p = "") then allowedNetworks al else default [] (allowedPeerByNetwork al !! p).

Definition set_networks (al : Allowlist) (p : string) (l : list IPNet) : Allowlist :=
  if bool_decide (p = "") then mkAllowlist l (allowedPeerByNetwork al)
  else mkAllowlist (allowedNetworks al) (<[p := l]> (allowedPeerByNetwork al)).

(** [Add] and [Remove] with their error, if any, as [None]. *)
Definition allowlist_Add (ma : string) (al : Allowlist) : option Allowlist :=
  ' (ipnet, p) ← toIPNet ma;
  Some (set_networks al p (networks_of al p ++ [ipnet])).

Definition same_net (a b : IPNet) : bool :=
  IP_Equal (net_IP a) (net_IP b) && bool_decide (net_Mask a = net_Mask b).

(** The loop downwards from index [i]. *)
Fixpoint find_down (i : nat) (l : list IPNet) (ipnet : IPNet) : option nat :=
  match i with
  | O => None
  | S i =>
      match l !! i with
      | Some n => if same_net n ipnet then Some i else find_down i l ipnet
      | None => None
      end
  end.

Definition remove_net (l : list IPNet) (ipnet : IPNet) : list IPNet :=
  match find_down (length l) l ipnet with Some i => swap_remove l i | None => l end.

Definition allowlist_Remove (ma : string) (al : Allowlist) : option Allowlist :=
  ' (ipnet, p) ← toIPNet ma;
  if bool_decide (p <> "" /\ allowedPeerByNetwork al !! p = None) then Some al
  else Some (set_networks al p (remove_net (networks_of al p) ipnet)).

Definition any_contains (l : list IPNet) (ip : IP) : bool := existsb (fun n => net_Contains n ip) l.

Context `{O : MapOrder}.

Definition Allowed (al : Allowlist) (ma : string) : bool :=
  match ToIP ma with
  | None => false
  | Some ip =>
      any_contains (allowedNetworks al) ip ||
      existsb (fun e => any_contains e.2 ip) (map_range (allowedPeerByNetwork al))
  end.

Definition AllowedPeerAndMultiaddr (al : Allowlist) (peerID ma : string) : bool :=
  match ToIP ma with
  | None => false
  | Some ip =>
      any_contains (allowedNetworks al) ip ||
      match allowedPeerByNetwork al !! peerID with
      | Some expectedNetworks => any_contains expectedNetworks ip
      | None => false
      end
  end.
End allowlist.

(** ** What a network contains *)

Definition be_bytes (l : list Z) : Z := foldl (fun acc b => acc * 256 + b) 0 l.

Lemma be_bytes_acc l acc : foldl (fun acc b => acc * 256 + b) acc l = acc * 256 ^ len l + be_bytes l.
Proof.
  unfold be_bytes. revert acc. induction l as [|b l IH]; intros acc; [cbn; lia|].
  cbn [foldl length]. rewrite IH, (IH (0 * 256 + b)). rewrite Nat2Z.inj_succ, Z.pow_succ_r by lia. lia.
Qed.

Lemma be_bytes_cons b l : be_bytes (b :: l) = b * 256 ^ len l + be_bytes l.
Proof. unfold be_bytes at 1. cbn [foldl]. rewrite be_bytes_acc. lia. Qed.

Lemma be_bytes_range l : Forall is_u8 l -> 0 <= be_bytes l < 256 ^ len l.
Proof.
  induction 1 as [|b l Hb Hl IH]; [cbn; lia|]. rewrite be_bytes_cons.
  cbn [length]. rewrite Nat2Z.inj_succ, Z.pow_succ_r by lia. unfold is_u8 in Hb. nia.
Qed.

(** Within one byte, a mask keeps the leading bits. *)
Lemma masked_byte n x : 0 <= n < 8 -> is_u8 x ->
  Z.land x (Z.lxor 255 (Z.shiftr 255 n)) = x / 2 ^ (8 - n) * 2 ^ (8 - n).
Proof.
  intros Hn Hx.
  assert (forallb (fun n => forallb (fun x => Z.land x (Z.lxor 255 (Z.shiftr 255 n)) =? x / 2 ^ (8 - n) * 2 ^ (8 - n))
    (seqZ 0 256)) (seqZ 0 8) = true) as H by (vm_compute; reflexivity).
  unfold is_u8 in Hx. rewrite forallb_forall in H. specialize (H n). rewrite forallb_forall in H.
  apply Z.eqb_eq, H; apply list_elem_of_In, elem_of_seqZ; lia.
Qed.

Lemma full_byte x : is_u8 x -> Z.land x 255 = x.
Proof. intros Hx. change 255 with (Z.ones 8). rewrite Z.land_ones by lia. apply Z.mod_small, Hx. Qed.

Lemma and_zero_mask l a : Forall is_u8 a -> length a = l -> and_bytes a (cidr_bytes l 0) = replicate l 0.
Proof.
  revert l. induction a as [|x a IH]; intros [|l] Ha Hl; try done. apply Forall_cons in Ha as [Hx Ha].
  cbn [cidr_bytes]. change (8 <=? 0) with false. cbn [and_bytes zip_with replicate].
  unfold and_bytes in *. rewrite masked_byte by (done || lia). rewrite Z.div_small by exact Hx.
  f_equal. apply IH; [done|]. by injection Hl.
Qed.

(** Two addresses agree under a mask of [n] ones when their first [n] bits do. *)
Lemma and_bytes_prefix l n a b :
  Forall is_u8 a -> Forall is_u8 b -> length a = l -> length b = l -> 0 <= n <= 8 * Z.of_nat l ->
  and_bytes a (cidr_bytes l n) = and_bytes b (cidr_bytes l n) <->
  be_bytes a / 2 ^ (8 * Z.of_nat l - n) = be_bytes b / 2 ^ (8 * Z.of_nat l - n).
Proof.
  revert l n b. induction a as [|x a IH]; intros [|l] n [|y b] Ha Hb Hla Hlb Hn; try done.
  apply Forall_cons in Ha as [Hx Ha]. apply Forall_cons in Hb as [Hy Hb]. injection Hla as Hla. injection Hlb as Hlb.
  pose proof (be_bytes_range a Ha) as Ra. pose proof (be_bytes_range b Hb) as Rb.
  rewrite !be_bytes_cons, Hla, Hlb. rewrite Hla in Ra. rewrite Hlb in Rb.
  assert (256 ^ Z.of_nat l = 2 ^ (8 * Z.of_nat l)) as E by (rewrite Z.pow_mul_r by lia; done). rewrite E in Ra, Rb |- *.
  cbn [cidr_bytes]. destruct (Z.leb_spec 8 n) as [H8|H8].
  - cbn [and_bytes zip_with]. rewrite !full_byte by done. specialize (IH l (n - 8) b Ha Hb Hla Hlb ltac:(lia)).
    replace (8 * Z.of_nat (S l) - n) with (8 * Z.of_nat l - (n - 8)) by lia. set (k := 8 * Z.of_nat l - (n - 8)) in *.
    assert (2 ^ (8 * Z.of_nat l) = 2 ^ (n - 8) * 2 ^ k) as Ek by (rewrite <- Z.pow_add_r by lia; f_equal; lia).
    rewrite Ek, !Z.mul_assoc, !(Z.add_comm (_ * 2 ^ k)), !Z.div_add by lia.
    assert (0 < 2 ^ k) by lia. assert (0 < 2 ^ (n - 8)) by lia.
    assert (0 <= be_bytes a / 2 ^ k < 2 ^ (n - 8)) by (split; [apply Z.div_pos; lia|apply Z.div_lt_upper_bound; lia]).
    assert (0 <= be_bytes b / 2 ^ k < 2 ^ (n - 8)) by (split; [apply Z.div_pos; lia|apply Z.div_lt_upper_bound; lia]).
    split.
    + intros [= -> Hr]. apply IH in Hr. by rewrite Hr.
    + intros Hr. assert (x = y) as -> by (destruct (Z.lt_trichotomy x y) as [?|[?|?]]; [exfalso; nia|done|exfalso; nia]).
      f_equal. apply IH. lia.
  - cbn [and_bytes zip_with]. unfold and_bytes in *. rewrite !masked_byte by (done || lia).
    pose proof (and_zero_mask l a Ha Hla) as Za. pose proof (and_zero_mask l b Hb Hlb) as Zb. unfold and_bytes in *. rewrite Za, Zb.
    assert (2 ^ (8 * Z.of_nat (S l) - n) = 2 ^ (8 * Z.of_nat l) * 2 ^ (8 - n)) as -> by (rewrite <- Z.pow_add_r by lia; f_equal; lia).
    rewrite <- !Z.div_div, !Z.div_add_l, !(Z.div_small (be_bytes _)), !Z.add_0_r by lia.
    assert (0 < 2 ^ (8 - n)) by lia. split; [intros [= H']; nia|by intros ->].
Qed.

(** ** The answers of the list *)

Lemma To4_u8 ip : Forall is_u8 ip -> Forall is_u8 (default ip (To4 ip)).
Proof. intros Hu. unfold To4. case_decide; [done|]. case_decide; [|done]. by apply Forall_drop. Qed.

(** A network of length [k] contains exactly the addresses of its family that
    begin with its first [k] bits; an IPv4 address counts in either of its forms. *)
Theorem net_contains_prefix n nn k x :
  networkNumberAndMask n = Some (nn, cidr_bytes (length nn) k) -> 0 <= k <= 8 * len nn ->
  Forall is_u8 nn -> Forall is_u8 x -> let x4 := default x (To4 x) in
  net_Contains n x = true <->
    length x4 = length nn /\ be_bytes nn / 2 ^ (8 * len nn - k) = be_bytes x4 / 2 ^ (8 * len nn - k).
Proof.
  intros Hn Hk Hu Hx x4. unfold net_Contains. rewrite Hn. rewrite andb_true_iff, !bool_decide_eq_true.
  fold x4. split; intros [Hl Heq]; (split; [done|]);
    apply (and_bytes_prefix (length nn) k nn x4); try done; by apply To4_u8.
Qed.

Lemma IP_Equal_refl ip : IP_Equal ip ip = true.
Proof. unfold IP_Equal. by rewrite !bool_decide_eq_true_2. Qed.
Lemma same_net_refl n : same_net n n = true.
Proof. unfold same_net. by rewrite IP_Equal_refl, bool_decide_eq_true_2. Qed.

Lemma To4_mapped ip : length ip = 4%nat -> To4 (v4InV6Prefix ++ ip) = Some ip.
Proof.
  intros Hl. unfold To4. rewrite length_app, Hl. cbn [length v4InV6Prefix].
  rewrite decide_False by done. by rewrite decide_True by done.
Qed.
Lemma To4_short ip : length ip = 4%nat -> To4 ip = Some ip.
Proof. intros Hl. unfold To4. by rewrite decide_True. Qed.

(** Equal networks contain the same addresses. *)
Lemma same_net_contains a b x : same_net a b = true -> net_Contains a x = net_Contains b x.
Proof.
  unfold same_net. rewrite andb_true_iff, bool_decide_eq_true. intros [He Hm].
  assert (To4 (net_IP a) = To4 (net_IP b) /\ (length (net_IP a) = length (net_IP b) -> net_IP a = net_IP b) /\
    (length (net_IP a) <> length (net_IP b) -> is_Some (To4 (net_IP a)))) as (H4 & Hs & Hd).
  { unfold IP_Equal in He. case_bool_decide as Hl; [apply bool_decide_eq_true in He; by rewrite He|].
    case_bool_decide as Ha; [|case_bool_decide as Hb; [|done]]; apply bool_decide_eq_true in He; rewrite He in *.
    - destruct Ha as [Ha _]. rewrite To4_mapped, To4_short by done. split; [done|split; [done|by eexists]].
    - destruct Hb as [_ Hb]. rewrite To4_mapped, To4_short by done. split; [done|split; [done|by eexists]]. }
  unfold net_Contains, networkNumberAndMask. rewrite H4, Hm.
  destruct (To4 (net_IP b)) as [ip|] eqn:E; [done|].
  destruct (decide (length (net_IP a) = length (net_IP b))) as [Hl|Hl].
  - by rewrite (Hs Hl).
  - destruct (Hd Hl) as [y Hy]. congruence.
Qed.

Lemma find_down_last i l ipnet j :
  find_down i l ipnet = Some j -> (j < i)%nat /\ exists n, l !! j = Some n /\ same_net n ipnet = true.
Proof.
  induction i as [|i IH]; cbn [find_down]; [done|]. destruct (l !! i) as [n|] eqn:Hn; [|done].
  destruct (same_net n ipnet) eqn:Hs.
  - intros [= <-]. split; [lia|by exists n].
  - intros H. destruct (IH H) as [? ?]. split; [lia|done].
Qed.

Lemma find_down_none i l ipnet j n :
  (i <= length l)%nat -> find_down i l ipnet = None -> (j < i)%nat -> l !! j = Some n -> same_net n ipnet = false.
Proof.
  induction i as [|i IH]; intros Hi; cbn [find_down]; [lia|].
  destruct (lookup_lt_is_Some_2 l i) as [x Hx]; [lia|]. rewrite Hx.
  destruct (same_net x ipnet) eqn:Hs; [done|]. intros Hf Hj Hn.
  destruct (decide (j = i)) as [->|Hne]; [congruence|]. by apply (IH ltac:(lia) Hf ltac:(lia)).
Qed.

Section answers.
Context `{MA : Multiaddrs, O : MapOrder, !MapOrderLaws O} (ToIP : string -> option IP).

Definition listed (al : Allowlist) (p : string) (n : IPNet) : Prop := n ∈ networks_of al p.

Lemma networks_of_set al p l q :
  networks_of (set_networks al p l) q = if decide (q = p) then l else networks_of al q.
Proof.
  unfold networks_of, set_networks. destruct (bool_decide_reflect (p = "")) as [->|Hp]; cbn.
  - destruct (bool_decide_reflect (q = "")) as [->|Hq]; [by rewrite decide_True|by rewrite decide_False].
  - destruct (decide (q = p)) as [->|Hq].
    + by rewrite bool_decide_eq_false_2, lookup_insert_eq.
    + destruct (bool_decide_reflect (q = "")); [done|]. by rewrite lookup_insert_ne.
Qed.

Lemma any_contains_iff l ip : any_contains l ip = true <-> exists n, n ∈ l /\ net_Contains n ip = true.
Proof.
  unfold any_contains. rewrite existsb_exists. split; intros (n & H & ?); exists n; (split; [by apply list_elem_of_In|done]).
Qed.

(** No network is kept under the empty peer, so that those of peers are apart. *)
Definition allowlist_wf (al : Allowlist) : Prop := allowedPeerByNetwork al !! "" = None.

Lemma Allowed_iff al ma : allowlist_wf al ->
  Allowed ToIP al ma = true <->
  exists ip p n, ToIP ma = Some ip /\ n ∈ networks_of al p /\ net_Contains n ip = true.
Proof using MapOrderLaws0.
  intros Hwf. unfold Allowed. destruct (ToIP ma) as [ip|]; [|split; [done|intros (? & ? & ? & ? & _); done]].
  rewrite orb_true_iff, any_contains_iff, existsb_exists. split.
  - intros [(n & Hn & Hc)|([p l] & Hl & (n & Hn & Hc)%any_contains_iff)].
    + by exists ip, "", n.
    + apply list_elem_of_In in Hl. rewrite map_range_perm in Hl. apply elem_of_map_to_list in Hl.
      exists ip, p, n. split; [done|split; [|done]]. unfold networks_of.
      rewrite bool_decide_eq_false_2 by (intros ->; unfold allowlist_wf in Hwf; congruence). by rewrite Hl.
  - intros (ip' & p & n & [= <-] & Hn & Hc). unfold networks_of in Hn. case_bool_decide; [left; by exists n|right].
    destruct (allowedPeerByNetwork al !! p) as [l|] eqn:Hl; [|by apply elem_of_nil in Hn].
    exists (p, l). split; [|apply any_contains_iff; by exists n].
    apply list_elem_of_In. rewrite map_range_perm. by apply elem_of_map_to_list.
Qed.

Lemma AllowedPeer_iff al p ma : allowlist_wf al ->
  AllowedPeerAndMultiaddr ToIP al p ma = true <->
  exists ip n, ToIP ma = Some ip /\ (n ∈ networks_of al "" \/ n ∈ networks_of al p) /\ net_Contains n ip = true.
Proof using Type.
  intros Hwf. unfold AllowedPeerAndMultiaddr. destruct (ToIP ma) as [ip|]; [|split; [done|intros (? & ? & ? & _); done]].
  change (networks_of al "") with (allowedNetworks al). rewrite orb_true_iff, any_contains_iff. split.
  - intros [(n & Hn & Hc)|Hp]; [exists ip, n; naive_solver|].
    destruct (allowedPeerByNetwork al !! p) as [l|] eqn:Hl; [|done]. apply any_contains_iff in Hp as (n & Hn & Hc).
    exists ip, n. split; [done|split; [right|done]]. unfold networks_of.
    rewrite bool_decide_eq_false_2 by (intros ->; unfold allowlist_wf in Hwf; congruence). by rewrite Hl.
  - intros (ip' & n & [= <-] & [Hn|Hn] & Hc); [left; by exists n|]. unfold networks_of in Hn.
    case_bool_decide; [left; by exists n|right].
    destruct (allowedPeerByNetwork al !! p) as [l|]; [|by apply elem_of_nil in Hn]. apply any_contains_iff. by exists n.
Qed.

(** ** Adding and removing *)

Inductive allowlist_step (al : Allowlist) : Allowlist -> Prop :=
  | as_add ma al' : allowlist_Add ma al = Some al' -> allowlist_step al al'
  | as_remove ma al' : allowlist_Remove ma al = Some al' -> allowlist_step al al'.

Lemma set_networks_wf al p l : allowlist_wf al -> allowlist_wf (set_networks al p l).
Proof using Type.
  unfold allowlist_wf, set_networks. intros H. case_bool_decide; cbn; [done|]. by rewrite lookup_insert_ne.
Qed.

Lemma allowlist_step_wf al al' : allowlist_wf al -> allowlist_step al al' -> allowlist_wf al'.
Proof using Type.
  intros Hwf [ma al1 H|ma al1 H].
  - unfold allowlist_Add in H. destruct (toIPNet ma) as [[n p]|]; [|done]. injection H as <-. by apply set_networks_wf.
  - unfold allowlist_Remove in H. destruct (toIPNet ma) as [[n p]|]; [|done]. cbn in H.
    case_bool_decide; injection H as <-; [done|by apply set_networks_wf].
Qed.

Lemma allowlist_reachable_wf al : reachable (eq newAllowlist) allowlist_step al -> allowlist_wf al.
Proof using Type.
  intros Hr. apply (reachable_invariant (eq newAllowlist) allowlist_step allowlist_wf) in Hr; [done| |].
  - by intros s <-.
  - intros s s'. apply allowlist_step_wf.
Qed.

(** The allowlist in any state: a connection is let past the limits exactly when
    its address is in a network that some entry names, and keeps that place with
    a peer exactly when the network's entry is for any peer or for this one; so
    a known peer never gains what its address did not have.  Adding an address
    adds its network to the entries of its peer; removing takes one equal network
    from them, if there is one, and undoes the adding. *)
Theorem allowlist_exact al :
  reachable (eq newAllowlist) allowlist_step al ->
  (forall ma, Allowed ToIP al ma = true <->
     exists ip p n, ToIP ma = Some ip /\ n ∈ networks_of al p /\ net_Contains n ip = true) /\
  (forall p ma, AllowedPeerAndMultiaddr ToIP al p ma = true <->
     exists ip n, ToIP ma = Some ip /\ (n ∈ networks_of al "" \/ n ∈ networks_of al p) /\ net_Contains n ip = true) /\
  (forall p ma, AllowedPeerAndMultiaddr ToIP al p ma = true -> Allowed ToIP al ma = true) /\
  (forall ma n p, toIPNet ma = Some (n, p) ->
     exists al1, allowlist_Add ma al = Some al1 /\
       (forall q, networks_of al1 q = if decide (q = p) then networks_of al p ++ [n] else networks_of al q) /\
     exists al2, allowlist_Remove ma al1 = Some al2 /\ forall q, networks_of al2 q = networks_of al q) /\
  (forall ma n p, toIPNet ma = Some (n, p) ->
     exists al', allowlist_Remove ma al = Some al' /\
       (forall q, q <> p -> networks_of al' q = networks_of al q) /\
       ((exists n', same_net n' n = true /\ networks_of al p ≡ₚ n' :: networks_of al' p) \/
        (networks_of al' p = networks_of al p /\ forall n', n' ∈ networks_of al p -> same_net n' n = false))).
Proof using MapOrderLaws0.
  intros Hr. pose proof (allowlist_reachable_wf al Hr) as Hwf.
  split; [intros ma; by apply Allowed_iff|]. split; [intros p ma; by apply AllowedPeer_iff|]. split; [|split].
  - intros p ma. rewrite AllowedPeer_iff, Allowed_iff by done. intros (ip & n & H1 & [H2|H2] & H3); by eexists _, _, _.
  - intros ma n p Hma. unfold allowlist_Add. rewrite Hma. cbn. eexists. split; [reflexivity|].
    set (al1 := set_networks al p (networks_of al p ++ [n])).
    assert (forall q, networks_of al1 q = if decide (q = p) then networks_of al p ++ [n] else networks_of al q) as H1
      by (intros q; apply networks_of_set).
    split; [done|]. unfold allowlist_Remove. rewrite Hma. cbn. rewrite bool_decide_eq_false_2.
    + eexists. split; [reflexivity|]. intros q. rewrite networks_of_set. destruct (decide (q = p)) as [->|Hq].
      * rewrite H1, decide_True by done. unfold remove_net. rewrite length_app. cbn [length]. rewrite Nat.add_1_r.
        cbn [find_down]. rewrite list_lookup_middle by done. rewrite same_net_refl. unfold swap_remove.
        rewrite last_snoc, length_app. cbn [length]. replace (length (networks_of al p) + 1 - 1)%nat with (length (networks_of al p)) by lia.
        rewrite insert_app_r_alt, Nat.sub_diag by lia. cbn. by rewrite take_app_length.
      * by rewrite H1, decide_False.
    + intros [Hp Hn]. unfold al1, set_networks in Hn. rewrite bool_decide_eq_false_2 in Hn by done.
      cbn in Hn. by rewrite lookup_insert_eq in Hn.
  - intros ma n p Hma. unfold allowlist_Remove. rewrite Hma. cbn. case_bool_decide as Hb.
    + eexists. split; [reflexivity|split; [done|right]]. split; [done|]. destruct Hb as [Hp Hn].
      unfold networks_of. rewrite bool_decide_eq_false_2, Hn by done. by intros n' ?%elem_of_nil.
    + eexists. split; [reflexivity|]. split; [intros q Hq; rewrite networks_of_set; by rewrite decide_False|].
      rewrite networks_of_set, decide_True by done. unfold remove_net.
      destruct (find_down (length (networks_of al p)) (networks_of al p) n) as [i|] eqn:Hf.
      * left. destruct (find_down_last _ _ _ _ Hf) as (_ & n' & Hn' & Hs). exists n'. split; [done|].
        by apply swap_remove_perm.
      * right. split; [done|]. intros n' (j & Hj)%list_elem_of_lookup.
        eapply (find_down_none _ _ _ j n'); [|exact Hf| |exact Hj]; [lia|by apply lookup_lt_Some in Hj].
Qed.
End answers.

(** ** A list with two entries *)

(** Three multiaddrs: a network for a peer, an address in it, one outside. *)
Definition net_text : string := "/ip4/10.1.2.0/ipcidr/24/p2p/Qm".
Definition list_multiaddrs : Multiaddrs := {|
  components ma :=
    if bool_decide (ma = net_text) then [("ip4", "10.1.2.0"); ("ipcidr", "24"); ("p2p", "Qm")]
    else [("ip4", ma)];
  NewMultiaddr := Some;
  peer_Decode := Some;
  peer_String := id;
|}.

Definition demo_list : Allowlist :=
  default newAllowlist (allowlist_Add (MA := list_multiaddrs) "192.0.2.1" newAllowlist ≫=
    allowlist_Add (MA := list_multiaddrs) net_text).

Example demo_list_answers :
  let A := Allowed (O := listed_order) ParseIP demo_list in
  let P := AllowedPeerAndMultiaddr ParseIP demo_list in
  (A "10.1.2.99", P "Qm" "10.1.2.99", P "Qn" "10.1.2.99", A "10.1.3.1", P "Qn" "192.0.2.1", A "192.0.2.2", A "::ffff:192.0.2.1") =
  (true, true, false, false, true, false, true).
Proof. vm_compute. reflexivity. Qed.

Lemma allowlist_exact_witness :
  reachable (eq newAllowlist) (allowlist_step (MA := list_multiaddrs)) demo_list /\
  exists al, allowlist_Remove (MA := list_multiaddrs) net_text demo_list = Some al /\
    networks_of al "" = networks_of demo_list "".
Proof.
  assert (reachable (eq newAllowlist) (allowlist_step (MA := list_multiaddrs)) demo_list) as Hr.
  { eapply reach_step; [eapply reach_step; [by apply reach_init|]|].
    - apply (as_add _ "192.0.2.1"). vm_compute. reflexivity.
    - apply (as_add _ net_text). vm_compute. reflexivity. }
  split; [exact Hr|].
  destruct (allowlist_exact (MA := list_multiaddrs) (O := listed_order) (MapOrderLaws0 := listed_order_laws)
    ParseIP demo_list Hr) as (_ & _ & _ & _ & H).
  destruct (H net_text (mkIPNet [10; 1; 2; 0] [255; 255; 255; 0]) "Qm") as (al & H1 & H2 & _);
    [vm_compute; reflexivity|]. exists al. split; [exact H1|]. by apply H2.
Defined.
