(* ===== verification/AddrBook.v ===== *)
(** The address book of the peerstore in memory:
    src/myvendor/go-libp2p/p2p/host/peerstore/pstoremem/addr_book.go (and
    sorting.go, and [SplitAddr] of core/peer/addrinfo.go).

    A multiaddr is its bytes; taking off its last component ([ma.SplitLast]) and
    the envelopes of signed records are parameters.  The clock's time is an
    argument of each method.  A method locks the segment of its peer and is one
    step; the collector is a step per segment there and one step here, since all
    its tests are against the time it starts with.  A method gives back what it
    publishes to the subscribers; the streams of the subscribers are modelled
    after the book. *)

From Stdlib Require Import Ascii.
From stdpp Require Import gmap strings list.
From S2P Require Import Prelude GoLib.
#[local] Open Scope Z_scope.

Record expiringAddr := mkExpiring { Addr : string; TTL : Z; Expires : Z }.
#[export] Instance expiringAddr_eq_dec : EqDecision expiringAddr.
Proof. solve_decision. Defined.

Definition ExpiredBy (e : expiringAddr) (t : Z) : bool := negb (t <? Expires e).

Record PeerRecord := mkPeerRecord { PeerID : string; Seq : Z; rec_Addrs : list (option string) }.

Section book.
(** [ma.SplitLast]: what comes before the last component, if anything, and its
    protocol with its value. *)
Context (SplitLast : string -> option string * option (string * string)).
(** [Envelope.Record] ([None] is an error, [Some None] another kind of record),
    and whether the envelope's key is that of a peer. *)
Context {Envelope : Type} (Record_of : Envelope -> option (option PeerRecord))
  (MatchesPublicKey : string -> Envelope -> bool).

Record peerRecordState := mkRecordState { rs_Envelope : Envelope; rs_Seq : Z }.

#[local] Abbreviation addrMap := (gmap string expiringAddr).

Record addrSegment := mkSegment {
  addrs : gmap string addrMap;
  signedPeerRecords : gmap string peerRecordState;
}.

(** A [memoryAddrBook] is its 256 segments. *)
#[local] Abbreviation memoryAddrBook := (list addrSegment).

Definition NewAddrBook : memoryAddrBook := replicate 256 (mkSegment ∅ ∅).

(** [p[i]]: an index out of range panics. *)
Definition byte_at (p : string) (i : Z) : outcome nat :=
  if i <? 0 then Panic
  else match String.get (Z.to_nat i) p with Some c => Ok (nat_of_ascii c) | None => Panic end.

(** [addrSegments.get]. *)
Definition get_segment (p : string) : M memoryAddrBook addrSegment :=
  let n := Z.of_nat (String.length p) in
  if n =? 0 then deref (fun mab => mab !! 0%nat)
  else i <- lift (byte_at p (n - 1)) ;; deref (fun mab => mab !! i).

(** The place of the segment that was got, to which the methods write. *)
Definition segment_of (p : string) : nat :=
  match byte_at p (Z.of_nat (String.length p) - 1) with Ok i => i | Panic => 0 end.
Definition put_segment (p : string) (s : addrSegment) : M memoryAddrBook () :=
  modify (fun mab => <[segment_of p := s]> mab).

(** [None] is the nil multiaddr. *)
Definition SplitAddr (m : option string) : option string * string :=
  match m with
  | None => (None, "")
  | Some m =>
      match SplitLast m with
      | (transport, Some (name, raw)) => if bool_decide (name = "p2p") then (transport, raw) else (Some m, "")
      | (_, None) => (Some m, "")
      end
  end.

(** The address to keep for [p], without its peer; those of other peers are skipped. *)
Definition own_part (p : string) (addr : option string) : option string :=
  let '(addr, addrPid) := SplitAddr addr in
  a ← addr; if bool_decide (addrPid <> "" /\ addrPid <> p) then None else Some a.

(** One turn of the loop of [addAddrsUnlocked], with what was published so far. *)
Definition add_one (p : string) (exp ttl : Z) (st : addrMap * list string) (addr : option string) :
    addrMap * list string :=
  let '(amap, published) := st in
  match own_part p addr with
  | None => st
  | Some addr =>
      match amap !! addr with
      | None => (<[addr := mkExpiring addr ttl exp]> amap, published ++ [addr])
      | Some a =>
          let ttl' := if TTL a <? ttl then ttl else TTL a in
          let exp' := if Expires a <? exp then exp else Expires a in
          (<[addr := mkExpiring (Addr a) ttl' exp']> amap, published)
      end
  end.

Definition addAddrsUnlocked (now : Z) (s : addrSegment) (p : string) (l : list (option string)) (ttl : Z) :
    addrSegment * list string :=
  if ttl <=? 0 then (s, [])
  else
    let '(amap, published) := foldl (add_one p (now + ttl) ttl) (default ∅ (addrs s !! p), []) l in
    (mkSegment (<[p := amap]> (addrs s)) (signedPeerRecords s), published).

Definition AddAddrs (now : Z) (p : string) (l : list (option string)) (ttl : Z) : M memoryAddrBook (list string) :=
  s <- get_segment p ;;
  let '(s, published) := addAddrsUnlocked now s p l ttl in
  put_segment p s ;;
  ret published.
Definition AddAddr (now : Z) (p : string) (addr : option string) (ttl : Z) := AddAddrs now p [addr] ttl.

(** Whether the record was accepted; [None] is an error. *)
Definition ConsumePeerRecord (now : Z) (env : Envelope) (ttl : Z) :
    M memoryAddrBook (option bool * list string) :=
  match Record_of env with
  | Some (Some rec) =>
      if negb (MatchesPublicKey (PeerID rec) env) then ret (None, [])
      else
        s <- get_segment (PeerID rec) ;;
        if match signedPeerRecords s !! PeerID rec with
           | Some lastState => Seq rec <? rs_Seq lastState
           | None => false
           end
        then ret (Some false, [])
        else
          let s := mkSegment (addrs s) (<[PeerID rec := mkRecordState env (Seq rec)]> (signedPeerRecords s)) in
          let '(s, published) := addAddrsUnlocked now s (PeerID rec) (rec_Addrs rec) ttl in
          put_segment (PeerID rec) s ;;
          ret (Some true, published)
  | _ => ret (None, [])
  end.

Definition set_one (p : string) (exp ttl : Z) (st : addrMap * list string) (addr : option string) :
    addrMap * list string :=
  let '(amap, published) := st in
  match own_part p addr with
  | None => st
  | Some addr =>
      if 0 <? ttl then (<[addr := mkExpiring addr ttl exp]> amap, published ++ [addr])
      else (delete addr amap, published)
  end.

Definition SetAddrs (now : Z) (p : string) (l : list (option string)) (ttl : Z) : M memoryAddrBook (list string) :=
  s <- get_segment p ;;
  let '(amap, published) := foldl (set_one p (now + ttl) ttl) (default ∅ (addrs s !! p), []) l in
  put_segment p (mkSegment (<[p := amap]> (addrs s)) (signedPeerRecords s)) ;;
  ret published.
Definition SetAddr (now : Z) (p : string) (addr : option string) (ttl : Z) := SetAddrs now p [addr] ttl.

(** Entry by entry, in any order. *)
Definition update_one (oldTTL newTTL exp : Z) (a : expiringAddr) : option expiringAddr :=
  if oldTTL =? TTL a then
    if newTTL =? 0 then None else Some (mkExpiring (Addr a) newTTL exp)
  else Some a.

Definition UpdateAddrs (now : Z) (p : string) (oldTTL newTTL : Z) : M memoryAddrBook () :=
  s <- get_segment p ;;
  match addrs s !! p with
  | None => ret ()
  | Some amap =>
      put_segment p (mkSegment (<[p := omap (update_one oldTTL newTTL (now + newTTL)) amap]> (addrs s)) (signedPeerRecords s))
  end.

(** What is left of a peer's addresses; nothing when all have expired. *)
Definition unexpired (now : Z) (amap : addrMap) : addrMap := filter (fun e => ExpiredBy e.2 now = false) amap.
Definition gc_peer (now : Z) (amap : addrMap) : option addrMap :=
  let amap := unexpired now amap in if bool_decide (amap = ∅) then None else Some amap.

Definition gc_segment (now : Z) (s : addrSegment) : addrSegment :=
  mkSegment (omap (gc_peer now) (addrs s))
    (filter (fun e => (addrs s !! e.1 ≫= gc_peer now) = None -> addrs s !! e.1 = None) (signedPeerRecords s)).

Definition book_gc (now : Z) : M memoryAddrBook () := modify (fun mab => gc_segment now <$> mab).

Definition ClearAddrs (p : string) : M memoryAddrBook () :=
  s <- get_segment p ;;
  put_segment p (mkSegment (delete p (addrs s)) (delete p (signedPeerRecords s))).

Context `{O : MapOrder}.

Definition validAddrs (now : Z) (amap : addrMap) : list string :=
  (fun e => Addr e.2) <$> filter (fun e => ExpiredBy e.2 now = false) (map_range amap).

Definition Addrs (now : Z) (p : string) : M memoryAddrBook (list string) :=
  s <- get_segment p ;; ret (validAddrs now (default ∅ (addrs s !! p))).

Definition GetPeerRecord (now : Z) (p : string) : M memoryAddrBook (option Envelope) :=
  s <- get_segment p ;;
  if bool_decide (validAddrs now (default ∅ (addrs s !! p)) = []) then ret None
  else ret (rs_Envelope <$> signedPeerRecords s !! p).

(** The set of the peers, in any order. *)
Definition PeersWithAddrs : M memoryAddrBook (list string) :=
  mab <- get ;;
  let keys (s : addrSegment) := (filter (fun e : string * addrMap => e.2 <> ∅) (map_range (addrs s))).*1 in
  ret (map_range (foldl (fun (set : gmap string ()) p => <[p := ()]> set) ∅ (concat (keys <$> mab)))).*1.
End book.

Arguments addrSegment : clear implicits.
Arguments peerRecordState : clear implicits.

(** ** The loops *)

Section loops.
Context (SplitLast : string -> option string * option (string * string)).

Definition named (p : string) (l : list (option string)) : list string := omap (own_part SplitLast p) l.


Lemma add_loop p exp ttl l amap pub :
  (forall a e, amap !! a = Some e -> Addr e = a) ->
  let amap' := (foldl (add_one SplitLast p exp ttl) (amap, pub) l).1 in
  (forall a e, amap' !! a = Some e -> Addr e = a) /\
  forall a, Expires <$> amap' !! a =
    if bool_decide (a ∈ named p l)
    then Some (match Expires <$> amap !! a with Some old => Z.max old exp | None => exp end)
    else Expires <$> amap !! a.
Proof using Type.
  revert amap pub. induction l as [|x l IH]; intros amap pub Ha; cbn [foldl].
  { split; [done|]. intros a. by rewrite bool_decide_eq_false_2 by apply not_elem_of_nil. }
  unfold named in *. cbn [omap list_omap]. cbn [add_one]. destruct (own_part SplitLast p x) as [b|] eqn:Hb.
  - set (st := match amap !! b with None => _ | Some a => _ end).
    assert (st.1 = <[b := mkExpiring b (match amap !! b with Some e => if TTL e <? ttl then ttl else TTL e | None => ttl end)
        (match amap !! b with Some e => Z.max (Expires e) exp | None => exp end)]> amap) as Hst.
    { unfold st. destruct (amap !! b) as [e|] eqn:He; [|done]. cbn. rewrite (Ha b e He). do 2 f_equal.
      destruct (Z.ltb_spec (Expires e) exp); lia. }
    rewrite (surjective_pairing st). destruct (IH st.1 st.2) as [H1 H2].
    { rewrite Hst. intros a e. rewrite lookup_insert_Some. intros [[<- <-]|[_ He]]; [done|by apply Ha]. }
    split; [done|]. intros a. rewrite H2, Hst. destruct (decide (a = b)) as [->|Hne].
    + rewrite lookup_insert_eq. cbn. rewrite (bool_decide_eq_true_2 (b ∈ b :: _)) by apply list_elem_of_here.
      destruct (amap !! b) as [e|]; cbn; case_bool_decide; f_equal; lia.
    + rewrite lookup_insert_ne by done. erewrite (bool_decide_ext (a ∈ b :: _)); [done|].
      rewrite elem_of_cons. tauto.
  - destruct (IH amap pub Ha) as [H1 H2]. split; [done|]. intros a. by rewrite H2.
Qed.

Lemma set_loop p exp ttl l amap pub :
  (forall a e, amap !! a = Some e -> Addr e = a) ->
  let amap' := (foldl (set_one SplitLast p exp ttl) (amap, pub) l).1 in
  (forall a e, amap' !! a = Some e -> Addr e = a) /\
  forall a, Expires <$> amap' !! a =
    if bool_decide (a ∈ named p l) then (if 0 <? ttl then Some exp else None) else Expires <$> amap !! a.
Proof using Type.
  revert amap pub. induction l as [|x l IH]; intros amap pub Ha; cbn [foldl].
  { split; [done|]. intros a. by rewrite bool_decide_eq_false_2 by apply not_elem_of_nil. }
  unfold named in *. cbn [omap list_omap]. cbn [set_one]. destruct (own_part SplitLast p x) as [b|] eqn:Hb.
  - destruct (0 <? ttl) eqn:Ht.
    + destruct (IH (<[b := mkExpiring b ttl exp]> amap) (pub ++ [b])) as [H1 H2].
      { intros a e. rewrite lookup_insert_Some. intros [[<- <-]|[_ He]]; [done|by apply Ha]. }
      split; [done|]. intros a. rewrite H2. destruct (decide (a = b)) as [->|Hne].
      * rewrite lookup_insert_eq, (bool_decide_eq_true_2 (b ∈ b :: _)) by apply list_elem_of_here.
        by destruct (bool_decide _).
      * rewrite lookup_insert_ne by done. erewrite (bool_decide_ext (a ∈ b :: _)); [done|]. rewrite elem_of_cons. tauto.
    + destruct (IH (delete b amap) pub) as [H1 H2].
      { intros a e. rewrite lookup_delete_Some. intros [_ He]. by apply Ha. }
      split; [done|]. intros a. rewrite H2. destruct (decide (a = b)) as [->|Hne].
      * rewrite lookup_delete_eq, (bool_decide_eq_true_2 (b ∈ b :: _)) by apply list_elem_of_here.
        by destruct (bool_decide _).
      * rewrite lookup_delete_ne by done. erewrite (bool_decide_ext (a ∈ b :: _)); [done|]. rewrite elem_of_cons. tauto.
  - destruct (IH amap pub Ha) as [H1 H2]. split; [done|]. intros a. by rewrite H2.
Qed.
End loops.

(** ** The specification: when each address expires *)

Definition table : Type := string -> string -> option Z.

Section refinement.
Context (SplitLast : string -> option string * option (string * string)).
Context {Envelope : Type}.
#[local] Abbreviation book := (list (addrSegment Envelope)).

(** An address never comes to expire earlier by being added; setting it forgets
    when it expired. *)
Definition spec_add (now : Z) (p : string) (l : list (option string)) (ttl : Z) (T : table) : table := fun q a =>
  if bool_decide (0 < ttl /\ q = p /\ a ∈ named SplitLast p l)
  then Some (match T q a with Some old => Z.max old (now + ttl) | None => now + ttl end)
  else T q a.
Definition spec_set (now : Z) (p : string) (l : list (option string)) (ttl : Z) (T : table) : table := fun q a =>
  if bool_decide (q = p /\ a ∈ named SplitLast p l) then (if 0 <? ttl then Some (now + ttl) else None) else T q a.
Definition spec_clear (p : string) (T : table) : table := fun q a => if bool_decide (q = p) then None else T q a.

(** ** The book and the table *)

Definition entry (mab : book) (p a : string) : option expiringAddr :=
  s ← mab !! segment_of p; amap ← addrs s !! p; amap !! a.

Record book_ok (mab : book) : Prop := {
  bk_length : length mab = 256%nat;
  bk_addr : forall p a e, entry mab p a = Some e -> Addr e = a;
  bk_home : forall i s p, mab !! i = Some s -> is_Some (addrs s !! p) -> i = segment_of p;
}.

(** They agree on what has not expired by [t]. *)
Definition agree (t : Z) (mab : book) (T : table) : Prop :=
  forall p a x, t < x -> Expires <$> entry mab p a = Some x <-> T p a = Some x.

Lemma agree_later t t' mab T : t <= t' -> agree t mab T -> agree t' mab T.
Proof using Type. intros Ht H p a x Hx. apply H. lia. Qed.

Lemma segment_of_lt p : (segment_of p < 256)%nat.
Proof using Type.
  unfold segment_of, byte_at. destruct (_ <? 0); [lia|]. destruct (String.get _ p); [apply nat_ascii_bounded|lia].
Qed.

(** The last byte of a peer that is not empty. *)
Lemma byte_at_last p : p <> ""%string -> byte_at p (Z.of_nat (String.length p) - 1) = Ok (segment_of p).
Proof using Type.
  intros Hp. unfold segment_of, byte_at. destruct (Z.ltb_spec (Z.of_nat (String.length p) - 1) 0).
  { destruct p; [done|cbn in *; lia]. }
  assert (forall q i, (i < String.length q)%nat -> String.get i q <> None) as Hget.
  { induction q as [|c q IH]; intros [|i]; cbn; [lia|lia|done|]. intros ?. apply IH. lia. }
  destruct (String.get _ p) eqn:E; [done|]. exfalso. revert E. apply Hget. lia.
Qed.

Lemma get_segment_run (mab : book) p :
  length mab = 256%nat -> exists s, mab !! segment_of p = Some s /\ get_segment p mab = Ok (s, mab).
Proof using Type.
  intros Hl. destruct (lookup_lt_is_Some_2 mab (segment_of p)) as [s Hs]; [rewrite Hl; apply segment_of_lt|].
  exists s. split; [done|]. unfold get_segment. destruct (decide (p = ""%string)) as [->|Hp].
  - change (deref (fun m : book => m !! segment_of "") mab = Ok (s, mab)). unfold deref. by rewrite Hs.
  - replace (_ =? 0) with false by (destruct p; [done|cbn [String.length]; lia]).
    unfold bind, lift, deref. by rewrite byte_at_last, Hs.
Qed.

(** The entries after a segment was replaced. *)
Lemma entry_put (mab : book) p s s' q a :
  mab !! segment_of p = Some s -> (forall q, q <> p -> addrs s' !! q = addrs s !! q) ->
  entry (<[segment_of p := s']> mab) q a =
    if decide (q = p) then addrs s' !! p ≫= (fun amap => amap !! a) else entry mab q a.
Proof using Type.
  intros Hs Hother. unfold entry. destruct (decide (q = p)) as [->|Hq].
  - rewrite list_lookup_insert_eq by (by apply lookup_lt_Some in Hs). done.
  - destruct (decide (segment_of q = segment_of p)) as [E|E].
    + rewrite E, Hs, list_lookup_insert_eq by (by apply lookup_lt_Some in Hs). cbn. by rewrite Hother.
    + by rewrite list_lookup_insert_ne by congruence.
Qed.

Lemma put_ok (mab : book) p s s' :
  book_ok mab -> mab !! segment_of p = Some s -> (forall q, q <> p -> addrs s' !! q = addrs s !! q) ->
  (forall a e, (addrs s' !! p ≫= fun amap => amap !! a) = Some e -> Addr e = a) ->
  book_ok (<[segment_of p := s']> mab).
Proof using Type.
  intros [H1 H2 H3] Hs Hother Ha. split.
  - by rewrite length_insert.
  - intros q a e He. rewrite (entry_put mab p s s' q a Hs Hother) in He.
    destruct (decide (q = p)); [by apply Ha|by apply (H2 q)].
  - intros i s1 q Hi Hq. destruct (decide (i = segment_of p)) as [->|Hne].
    + rewrite list_lookup_insert_eq in Hi by (by apply lookup_lt_Some in Hs). injection Hi as <-.
      destruct (decide (q = p)) as [->|Hqp]; [done|]. rewrite Hother in Hq by done. by apply (H3 _ s).
    + rewrite list_lookup_insert_ne in Hi by done. by apply (H3 i s1).
Qed.

(** ** Each method against its specification *)

Lemma entry_addrs (mab : book) s p q :
  mab !! segment_of p = Some s -> entry mab p q = (addrs s !! p ≫= fun amap => amap !! q).
Proof using Type. intros Hs. unfold entry. by rewrite Hs. Qed.

(** A segment replaced by one with other addresses for [p]. *)
Lemma put_refines t (mab : book) T T' p s s' :
  book_ok mab -> agree t mab T -> mab !! segment_of p = Some s ->
  (forall q, q <> p -> addrs s' !! q = addrs s !! q) -> (forall q a, q <> p -> T' q a = T q a) ->
  (forall a e, (addrs s' !! p ≫= fun amap => amap !! a) = Some e -> Addr e = a) ->
  (forall a x, t < x -> Expires <$> (addrs s' !! p ≫= fun amap => amap !! a) = Some x <-> T' p a = Some x) ->
  book_ok (<[segment_of p := s']> mab) /\ agree t (<[segment_of p := s']> mab) T'.
Proof using Type.
  intros Hok Hag Hs Hother HT Ha Hp. split; [by apply (put_ok mab p s s')|].
  intros q a x Hx. rewrite (entry_put mab p s s' q a Hs Hother). destruct (decide (q = p)) as [->|Hq]; [by apply Hp|].
  rewrite HT by done. by apply Hag.
Qed.

Lemma default_map (m : option (gmap string expiringAddr)) a : default ∅ m !! a = m ≫= fun amap => amap !! a.
Proof using Type. by destruct m. Qed.

Lemma add_unlocked_refines now (mab : book) T p s sg l ttl :
  book_ok mab -> agree now mab T -> mab !! segment_of p = Some s ->
  let s0 := mkSegment (addrs s) sg in
  let s' := (addAddrsUnlocked SplitLast now s0 p l ttl).1 in
  book_ok (<[segment_of p := s']> mab) /\ agree now (<[segment_of p := s']> mab) (spec_add now p l ttl T).
Proof using Type.
  intros Hok Hag Hs s0 s'. unfold addAddrsUnlocked in s'.
  destruct (Z.leb_spec ttl 0) as [Ht|Ht].
  - apply (put_refines now mab T _ p s s'); try done.
    + intros q a Hq. unfold spec_add. by rewrite bool_decide_eq_false_2 by lia.
    + intros a e. unfold s', s0. cbn. rewrite <- (entry_addrs mab s p a Hs). apply (bk_addr _ Hok).
    + intros a x Hx. unfold s', s0. cbn. rewrite <- (entry_addrs mab s p a Hs).
      unfold spec_add. rewrite bool_decide_eq_false_2 by lia. by apply Hag.
  - destruct (add_loop SplitLast p (now + ttl) ttl l (default ∅ (addrs s !! p)) []) as [H1 H2].
    { intros a e. rewrite default_map, <- (entry_addrs mab s p a Hs). apply (bk_addr _ Hok). }
    unfold s'. cbn [addrs s0].
    destruct (foldl (add_one SplitLast p (now + ttl) ttl) (default ∅ (addrs s !! p), []) l) as [amap pub].
    cbn [fst] in *. apply (put_refines now mab T _ p s); try done; cbn [addrs].
    + intros q Hq. by rewrite lookup_insert_ne.
    + intros q a Hq. unfold spec_add. by rewrite bool_decide_eq_false_2 by tauto.
    + intros a e. rewrite lookup_insert_eq. apply H1.
    + intros a x Hx. rewrite lookup_insert_eq. cbn. rewrite H2, default_map, <- (entry_addrs mab s p a Hs).
      unfold spec_add. pose proof (Hag p a) as Hpa. case_bool_decide as Hin.
      * rewrite bool_decide_eq_true_2 by tauto.
        destruct (Expires <$> entry mab p a) as [o|] eqn:Ho, (T p a) as [o'|] eqn:Ho'; try done.
        -- destruct (Z.lt_ge_cases now o) as [Hlt|Hge].
           { pose proof (proj1 (Hpa o Hlt) eq_refl). by assert (o = o') as -> by congruence. }
           destruct (Z.lt_ge_cases now o') as [Hlt'|Hge'].
           { pose proof (proj2 (Hpa o' Hlt') eq_refl). by assert (o = o') as -> by congruence. }
           by rewrite !Z.max_r by lia.
        -- destruct (Z.lt_ge_cases now o) as [Hlt|Hge]; [by pose proof (proj1 (Hpa o Hlt) eq_refl)|].
           by rewrite Z.max_r by lia.
        -- destruct (Z.lt_ge_cases now o') as [Hlt'|Hge']; [by pose proof (proj2 (Hpa o' Hlt') eq_refl)|].
           by rewrite Z.max_r by lia.
      * rewrite bool_decide_eq_false_2 by tauto. by apply Hpa.
Qed.

Lemma AddAddrs_refines now (mab : book) T p l ttl :
  book_ok mab -> agree now mab T ->
  exists out mab', AddAddrs SplitLast now p l ttl mab = Ok (out, mab') /\ book_ok mab' /\ agree now mab' (spec_add now p l ttl T).
Proof using Type.
  intros Hok Hag. destruct (get_segment_run mab p (bk_length _ Hok)) as (s & Hs & Hget).
  pose proof (add_unlocked_refines now mab T p s (signedPeerRecords s) l ttl Hok Hag Hs) as [H1 H2].
  unfold AddAddrs, bind at 1. rewrite Hget. destruct s as [sa sg]. cbn [addrs signedPeerRecords] in *.
  destruct (addAddrsUnlocked SplitLast now (mkSegment sa sg) p l ttl) as [s' pub]. by eexists _, _.
Qed.

Lemma SetAddrs_refines now (mab : book) T p l ttl :
  book_ok mab -> agree now mab T ->
  exists out mab', SetAddrs SplitLast now p l ttl mab = Ok (out, mab') /\ book_ok mab' /\ agree now mab' (spec_set now p l ttl T).
Proof using Type.
  intros Hok Hag. destruct (get_segment_run mab p (bk_length _ Hok)) as (s & Hs & Hget).
  unfold SetAddrs, bind at 1. rewrite Hget.
  destruct (set_loop SplitLast p (now + ttl) ttl l (default ∅ (addrs s !! p)) []) as [H1 H2].
  { intros a e. rewrite default_map, <- (entry_addrs mab s p a Hs). apply (bk_addr _ Hok). }
  destruct (foldl (set_one SplitLast p (now + ttl) ttl) (default ∅ (addrs s !! p), []) l) as [amap pub]. cbn [fst] in *.
  eexists _, _. split; [reflexivity|]. apply (put_refines now mab T _ p s); try done; cbn [addrs].
  - intros q Hq. by rewrite lookup_insert_ne.
  - intros q a Hq. unfold spec_set. by rewrite bool_decide_eq_false_2 by tauto.
  - intros a e. rewrite lookup_insert_eq. apply H1.
  - intros a x Hx. rewrite lookup_insert_eq. cbn. rewrite H2, default_map, <- (entry_addrs mab s p a Hs).
    unfold spec_set. case_bool_decide; [rewrite bool_decide_eq_true_2 by tauto; done|].
    rewrite bool_decide_eq_false_2 by tauto. by apply Hag.
Qed.

Lemma ClearAddrs_refines now (mab : book) T p :
  book_ok mab -> agree now mab T ->
  exists mab', ClearAddrs p mab = Ok ((), mab') /\ book_ok mab' /\ agree now mab' (spec_clear p T).
Proof using Type.
  intros Hok Hag. destruct (get_segment_run mab p (bk_length _ Hok)) as (s & Hs & Hget).
  unfold ClearAddrs, bind at 1. rewrite Hget. eexists. split; [reflexivity|].
  apply (put_refines now mab T _ p s); try done; cbn [addrs].
  - intros q Hq. by rewrite lookup_delete_ne.
  - intros q a Hq. unfold spec_clear. by rewrite bool_decide_eq_false_2.
  - intros a e. by rewrite lookup_delete_eq.
  - intros a x Hx. rewrite lookup_delete_eq. unfold spec_clear. by rewrite bool_decide_eq_true_2.
Qed.

Lemma gc_peer_lookup now (m : option (gmap string expiringAddr)) a :
  ((m ≫= gc_peer now) ≫= fun amap => amap !! a) = (m ≫= fun amap => unexpired now amap !! a).
Proof using Type.
  destruct m as [amap|]; [|done]. cbn. unfold gc_peer. case_bool_decide as He; [|done]. cbn. by rewrite He, lookup_empty.
Qed.

Lemma gc_entry now (mab : book) p a :
  entry (gc_segment now <$> mab) p a = (e ← entry mab p a; if ExpiredBy e now then None else Some e).
Proof using Type.
  unfold entry. rewrite list_lookup_fmap. destruct (mab !! segment_of p) as [s|]; [|done]. cbn.
  rewrite lookup_omap, gc_peer_lookup. destruct (addrs s !! p) as [amap|]; [|done]. cbn. unfold unexpired.
  destruct (amap !! a) as [e|] eqn:He; cbn.
  - destruct (ExpiredBy e now) eqn:Hx.
    + apply map_lookup_filter_None_2. right. intros e' He' Hf. rewrite He in He'. injection He' as <-. cbn in Hf. congruence.
    + by apply map_lookup_filter_Some_2.
  - apply map_lookup_filter_None_2. by left.
Qed.

Lemma gc_refines now (mab : book) T :
  book_ok mab -> agree now mab T ->
  exists mab', book_gc now mab = Ok ((), mab') /\ book_ok mab' /\ agree now mab' T.
Proof using Type.
  intros Hok Hag. eexists. split; [reflexivity|]. split; [split|].
  - by rewrite length_fmap, (bk_length _ Hok).
  - intros p a e. rewrite gc_entry. destruct (entry mab p a) as [e'|] eqn:He; [|done]. cbn.
    destruct (ExpiredBy e' now); [done|]. intros [= <-]. by apply (bk_addr _ Hok p).
  - intros i s p Hi Hp. rewrite list_lookup_fmap in Hi. destruct (mab !! i) as [s0|] eqn:Hs; [|done].
    injection Hi as <-. cbn in Hp. rewrite lookup_omap in Hp. apply (bk_home _ Hok i s0); [done|].
    by destruct (addrs s0 !! p); [eexists|destruct Hp].
  - intros p a x Hx. rewrite gc_entry, <- (Hag p a x Hx). destruct (entry mab p a) as [e|]; [|done]. cbn.
    unfold ExpiredBy. destruct (Z.ltb_spec now (Expires e)); [done|]. cbn. split; [done|]. intros [= ?]. lia.
Qed.
Context (Record_of : Envelope -> option (option PeerRecord)) (MatchesPublicKey : string -> Envelope -> bool).

(** Accepting a record is adding its addresses. *)
Definition spec_consume (now : Z) (env : Envelope) (accepted : option bool) (ttl : Z) (T : table) : table :=
  match accepted, Record_of env with
  | Some true, Some (Some rec) => spec_add now (PeerID rec) (rec_Addrs rec) ttl T
  | _, _ => T
  end.

(** A record is accepted when it is one, signed by its peer, and not older than
    the one that is kept; then it is the one that is kept. *)
Lemma Consume_refines now (mab : book) T env ttl :
  book_ok mab -> agree now mab T ->
  exists acc out mab', ConsumePeerRecord SplitLast Record_of MatchesPublicKey now env ttl mab = Ok ((acc, out), mab') /\
    book_ok mab' /\ agree now mab' (spec_consume now env acc ttl T) /\
    (acc = Some true <-> exists rec s, Record_of env = Some (Some rec) /\ MatchesPublicKey (PeerID rec) env = true /\
       mab !! segment_of (PeerID rec) = Some s /\
       forall st, signedPeerRecords s !! PeerID rec = Some st -> rs_Seq st <= Seq rec).
Proof using Type.
  intros Hok Hag. unfold ConsumePeerRecord. destruct (Record_of env) as [[rec|]|] eqn:Hrec.
  2-3: eexists _, _, _; split; [reflexivity|];
    (split; [done|split; [done|]]); split; [done|]; by intros (? & ? & ? & _).
  destruct (MatchesPublicKey (PeerID rec) env) eqn:Hkey; cbn [negb].
  2: { eexists _, _, _. split; [reflexivity|]. split; [done|split; [done|]]. split; [done|].
       intros (rec' & s & [= <-] & Hk & _). congruence. }
  destruct (get_segment_run mab (PeerID rec) (bk_length _ Hok)) as (s & Hs & Hget).
  unfold bind at 1. rewrite Hget. destruct (signedPeerRecords s !! PeerID rec) as [st|] eqn:Hst.
  - destruct (Z.ltb_spec (Seq rec) (rs_Seq st)) as [Hlt|Hge].
    + eexists _, _, _. split; [reflexivity|]. split; [done|split; [done|]]. split; [done|].
      intros (rec' & s' & [= <-] & _ & Hs' & Hold). rewrite Hs in Hs'. injection Hs' as <-.
      specialize (Hold st Hst). lia.
    + match goal with |- context [mkSegment (addrs s) ?g] =>
        pose proof (add_unlocked_refines now mab T (PeerID rec) s g (rec_Addrs rec) ttl Hok Hag Hs) as [H1 H2];
        destruct (addAddrsUnlocked SplitLast now (mkSegment (addrs s) g) (PeerID rec) (rec_Addrs rec) ttl) as [s' pub] end.
      eexists _, _, _. split; [reflexivity|]. unfold spec_consume. rewrite Hrec.
      split; [exact H1|split; [exact H2|]]. split; [|done]. intros _. exists rec, s. split_and!; try done. intros st'. naive_solver.
  - match goal with |- context [mkSegment (addrs s) ?g] =>
      pose proof (add_unlocked_refines now mab T (PeerID rec) s g (rec_Addrs rec) ttl Hok Hag Hs) as [H1 H2];
      destruct (addAddrsUnlocked SplitLast now (mkSegment (addrs s) g) (PeerID rec) (rec_Addrs rec) ttl) as [s' pub] end.
    eexists _, _, _. split; [reflexivity|]. unfold spec_consume. rewrite Hrec.
    split; [exact H1|split; [exact H2|]]. split; [|done]. intros _. exists rec, s. split_and!; try done. congruence.
Qed.

(** ** Histories *)

(** Methods at times that do not go back, with the table beside the book. *)
Inductive book_step : book * table * Z -> book * table * Z -> Prop :=
  | bs_add now p l ttl mab T t out mab' :
      t <= now -> AddAddrs SplitLast now p l ttl mab = Ok (out, mab') ->
      book_step (mab, T, t) (mab', spec_add now p l ttl T, now)
  | bs_set now p l ttl mab T t out mab' :
      t <= now -> SetAddrs SplitLast now p l ttl mab = Ok (out, mab') ->
      book_step (mab, T, t) (mab', spec_set now p l ttl T, now)
  | bs_clear now p mab T t mab' :
      t <= now -> ClearAddrs p mab = Ok ((), mab') -> book_step (mab, T, t) (mab', spec_clear p T, now)
  | bs_consume now env ttl mab T t acc out mab' :
      t <= now -> ConsumePeerRecord SplitLast Record_of MatchesPublicKey now env ttl mab = Ok ((acc, out), mab') ->
      book_step (mab, T, t) (mab', spec_consume now env acc ttl T, now)
  | bs_gc now mab T t mab' :
      t <= now -> book_gc now mab = Ok ((), mab') -> book_step (mab, T, t) (mab', T, now).

Definition kept_book : book * table * Z -> Prop := reachable (eq (NewAddrBook, fun _ _ => None, 0)) book_step.

Lemma new_entry p a : entry NewAddrBook p a = None.
Proof using Type.
  unfold entry. destruct (NewAddrBook !! segment_of p) as [s|] eqn:Hs; [|done].
  by apply lookup_replicate in Hs as [-> _].
Qed.

Lemma new_book_ok : book_ok NewAddrBook.
Proof using Type.
  split; [apply length_replicate| |].
  - intros p a e. by rewrite new_entry.
  - intros i s p Hi. apply lookup_replicate in Hi as [-> _]. cbn. rewrite lookup_empty. by intros [? ?].
Qed.

Lemma book_step_ok st st' :
  book_ok st.1.1 /\ agree st.2 st.1.1 st.1.2 -> book_step st st' -> book_ok st'.1.1 /\ agree st'.2 st'.1.1 st'.1.2.
Proof using Type.
  intros [Hok Hag] Hst. destruct Hst as
    [now p l ttl mab T t out mab' Ht Hrun|now p l ttl mab T t out mab' Ht Hrun|now p mab T t mab' Ht Hrun
    |now env ttl mab T t acc out mab' Ht Hrun|now mab T t mab' Ht Hrun]; cbn [fst snd] in *;
    apply (agree_later t now) in Hag; try done.
  - destruct (AddAddrs_refines now mab T p l ttl Hok Hag) as (o & m & E & H). rewrite Hrun in E. by injection E as <- <-.
  - destruct (SetAddrs_refines now mab T p l ttl Hok Hag) as (o & m & E & H). rewrite Hrun in E. by injection E as <- <-.
  - destruct (ClearAddrs_refines now mab T p Hok Hag) as (m & E & H). rewrite Hrun in E. by injection E as <-.
  - destruct (Consume_refines now mab T env ttl Hok Hag) as (a & o & m & E & H1 & H2 & _). rewrite Hrun in E.
    by injection E as <- <- <-.
  - destruct (gc_refines now mab T Hok Hag) as (m & E & H). rewrite Hrun in E. by injection E as <-.
Qed.

Lemma kept_book_ok mab T t : kept_book (mab, T, t) -> book_ok mab /\ agree t mab T.
Proof using Type.
  intros Hr. apply (reachable_invariant (eq (NewAddrBook, fun _ _ => None, 0)) book_step
    (fun st => book_ok st.1.1 /\ agree st.2 st.1.1 st.1.2)) in Hr; [done| |].
  - intros s <-. split; [apply new_book_ok|]. intros p a x _. cbn [fst snd]. by rewrite new_entry.
  - intros s s'. apply book_step_ok.
Qed.

Context `{O : MapOrder, !MapOrderLaws O}.

(** C17: Whatever the history of additions, settings, clearings, signed records and
    collections (but for UpdateAddrs, see [update_revives]), the addresses
    given out for a peer are exactly those that the table of expiries says have
    not expired, each once: adding only ever prolongs, setting overwrites, and
    the collector cannot be noticed.  No method panics; a signed record is taken
    exactly when its key is that of its peer and no newer one is kept, one of the
    same sequence number included, and its addresses are added to the others, not
    put in their place (see [equal_sequence_taken] and [certified_only_added]). *)
Theorem addr_book_exact mab T t now :
  kept_book (mab, T, t) -> t <= now ->
  (forall p, exists l, Addrs now p mab = Ok (l, mab) /\ NoDup l /\
     forall a, a ∈ l <-> exists x, T p a = Some x /\ now < x) /\
  (forall p l ttl, is_Some (match AddAddrs SplitLast now p l ttl mab with Ok x => Some x | Panic => None end) /\
     is_Some (match SetAddrs SplitLast now p l ttl mab with Ok x => Some x | Panic => None end) /\
     is_Some (match ClearAddrs p mab with Ok x => Some x | Panic => None end)) /\
  (forall env ttl, exists acc out mab',
     ConsumePeerRecord SplitLast Record_of MatchesPublicKey now env ttl mab = Ok ((acc, out), mab') /\
     (acc = Some true <-> exists rec s, Record_of env = Some (Some rec) /\ MatchesPublicKey (PeerID rec) env = true /\
        mab !! segment_of (PeerID rec) = Some s /\
        forall st, signedPeerRecords s !! PeerID rec = Some st -> rs_Seq st <= Seq rec)).
Proof using MapOrderLaws0.
  intros Hr Ht. destruct (kept_book_ok mab T t Hr) as [Hok Hag]. apply (agree_later t now) in Hag; [|done].
  split; [|split].
  - intros p. destruct (get_segment_run mab p (bk_length _ Hok)) as (s & Hs & Hget).
    exists (validAddrs now (default ∅ (addrs s !! p))). split; [unfold Addrs, bind; by rewrite Hget|].
    set (amap := default ∅ (addrs s !! p)).
    assert (forall a, amap !! a = entry mab p a) as Hamap by (intros a; by rewrite (entry_addrs mab s p a Hs), <- default_map).
    assert (validAddrs now amap = (filter (fun e => ExpiredBy e.2 now = false) (map_range amap)).*1) as Hv.
    { unfold validAddrs. apply list_fmap_ext. intros i [a e] Hi. cbn. apply list_elem_of_lookup_2 in Hi.
      apply list_elem_of_filter in Hi as [_ Hi]. rewrite map_range_perm in Hi. apply elem_of_map_to_list in Hi.
      rewrite Hamap in Hi. by apply (bk_addr _ Hok p). }
    rewrite Hv. split.
    + apply NoDup_fmap_2_strong.
      * intros [a e] [a' e'] [_ H1]%list_elem_of_filter [_ H2]%list_elem_of_filter. rewrite map_range_perm in H1, H2.
        apply elem_of_map_to_list in H1, H2. cbn. intros <-. congruence.
      * apply NoDup_filter. rewrite map_range_perm. apply NoDup_map_to_list.
    + intros a. rewrite list_elem_of_fmap. split.
      * intros ([a' e] & -> & [Hx Hi]%list_elem_of_filter). rewrite map_range_perm in Hi. apply elem_of_map_to_list in Hi.
        cbn in *. rewrite Hamap in Hi. unfold ExpiredBy in Hx. apply negb_false_iff, Z.ltb_lt in Hx.
        exists (Expires e). split; [|done]. apply (Hag p a' _ Hx). by rewrite Hi.
      * intros (x & Hx & Hlt). apply (Hag p a x Hlt) in Hx. destruct (entry mab p a) as [e|] eqn:He; [|done].
        injection Hx as <-. exists (a, e). split; [done|]. apply list_elem_of_filter. split.
        -- cbn. unfold ExpiredBy. by apply negb_false_iff, Z.ltb_lt.
        -- rewrite map_range_perm. apply elem_of_map_to_list. by rewrite Hamap.
  - intros p l ttl. split_and!.
    + destruct (AddAddrs_refines now mab T p l ttl Hok Hag) as (o & m & -> & _). by eexists.
    + destruct (SetAddrs_refines now mab T p l ttl Hok Hag) as (o & m & -> & _). by eexists.
    + destruct (ClearAddrs_refines now mab T p Hok Hag) as (m & -> & _). by eexists.
  - intros env ttl. destruct (Consume_refines now mab T env ttl Hok Hag) as (a & o & m & E & _ & _ & H). by exists a, o, m.
Qed.
End refinement.

(** ** Small books

    The transport of an address ends before "/p2p/", its peer is what follows; an
    envelope is its record, signed by its peer. *)

Definition toy_SplitLast (m : string) : option string * option (string * string) :=
  match String.index 0 "/p2p/" m with
  | Some i => ((if Nat.eqb i 0 then None else Some (String.substring 0 i m)),
               Some ("p2p", String.substring (i + 5) (String.length m) m))
  | None => (Some m, Some ("tcp", m))
  end%string.

Definition toy_AddAddrs := AddAddrs (Envelope := PeerRecord) toy_SplitLast.
Definition toy_ConsumePeerRecord := ConsumePeerRecord toy_SplitLast (fun r => Some (Some r)) (fun _ _ => true).
Definition toy_Addrs (now : Z) (p : string) : M (list (addrSegment PeerRecord)) (list string) := Addrs (O := listed_order) now p.

Lemma toy_AddAddrs_runs now p l ttl mab :
  match AddAddrs (Envelope := PeerRecord) toy_SplitLast now p l ttl mab with
  | Ok (out, mab') => AddAddrs toy_SplitLast now p l ttl mab = Ok (out, mab')
  | Panic => True
  end.
Proof. by destruct (AddAddrs _ _ _ _ _ _) as [[? ?]|]. Qed.

Lemma addr_book_exact_witness :
  exists l, (mab ← (match toy_AddAddrs 3 "Qa" [Some "/ip4/1/p2p/Qa"; Some "/ip4/2/p2p/Qb"; None] 10 NewAddrBook with
                    | Ok x => Some x.2 | Panic => None end);
             match toy_Addrs 5 "Qa" mab with Ok x => Some x.1 | Panic => None end) = Some l /\
    forall a, a ∈ l <-> a = "/ip4/1"%string.
Proof.
  pose proof (toy_AddAddrs_runs 3 "Qa" [Some "/ip4/1/p2p/Qa"; Some "/ip4/2/p2p/Qb"; None] 10 NewAddrBook) as Hr.
  unfold toy_AddAddrs, toy_Addrs.
  destruct (AddAddrs toy_SplitLast 3 "Qa" _ 10 NewAddrBook) as [[out mab]|] eqn:He; [|vm_compute in He; discriminate].
  destruct (proj1 (@addr_book_exact toy_SplitLast PeerRecord (fun r => Some (Some r)) (fun _ _ => true)
    listed_order listed_order_laws mab _ 3 5
    ltac:(eapply reach_step; [by apply reach_init|eapply (bs_add _ _ _ 3 "Qa"%string _ 10 _ _ 0); [lia|exact He]])
    ltac:(lia)) "Qa"%string) as (l & Hl & _ & Hin).
  exists l. cbn. rewrite Hl. split; [done|]. intros a. rewrite Hin. unfold spec_add. split.
  - intros (x & Hx & _). case_bool_decide as Hd; [|done]. destruct Hd as (_ & _ & Hd). by apply list_elem_of_singleton in Hd.
  - intros ->. exists 13. split; [|lia]. by rewrite bool_decide_eq_true_2 by (split_and!; [lia|done|by apply list_elem_of_singleton]).
Defined.

(** The result of a run of methods. *)
Definition toy_result {A} (m : M (list (addrSegment PeerRecord)) A) : option A :=
  match m NewAddrBook with Ok x => Some x.1 | Panic => None end.

(** An address that has expired and is not yet collected comes back when the
    addresses of its TTL get a new one. *)
Example update_revives :
  toy_result (toy_AddAddrs 0 "Qa" [Some "/ip4/1"] 10 ;; toy_Addrs 50 "Qa") = Some [] /\
  toy_result (toy_AddAddrs 0 "Qa" [Some "/ip4/1"] 10 ;; UpdateAddrs 50 "Qa" 10 20 ;; toy_Addrs 60 "Qa") = Some ["/ip4/1"%string].
Proof. by vm_compute. Qed.

(** An expired address that is added again is published when the collector ran
    in between and not otherwise, and keeps its old TTL when that is longer, by
    which [UpdateAddrs] finds it. *)
Example expired_readded :
  toy_result (toy_AddAddrs 0 "Qa" [Some "/ip4/1"] 10 ;; toy_AddAddrs 50 "Qa" [Some "/ip4/1"] 5) = Some [] /\
  toy_result (toy_AddAddrs 0 "Qa" [Some "/ip4/1"] 10 ;; book_gc 40 ;; toy_AddAddrs 50 "Qa" [Some "/ip4/1"] 5) = Some ["/ip4/1"%string] /\
  toy_result (toy_AddAddrs 0 "Qa" [Some "/ip4/1"] 10 ;; toy_AddAddrs 50 "Qa" [Some "/ip4/1"] 5 ;;
    UpdateAddrs 51 "Qa" 5 0 ;; toy_Addrs 52 "Qa") = Some ["/ip4/1"%string] /\
  toy_result (toy_AddAddrs 0 "Qa" [Some "/ip4/1"] 10 ;; book_gc 40 ;; toy_AddAddrs 50 "Qa" [Some "/ip4/1"] 5 ;;
    UpdateAddrs 51 "Qa" 5 0 ;; toy_Addrs 52 "Qa") = Some [].
Proof. by vm_compute. Qed.

(** A record consumed with no time to live is kept although its peer has no
    address, and the collector, which goes by the addresses, never drops it: an
    older record is refused for good. *)
Example record_without_addresses :
  toy_result (toy_ConsumePeerRecord 0 (mkPeerRecord "Qa" 7 [Some "/ip4/1"]) 0 ;; book_gc 1000 ;; GetPeerRecord (O := listed_order) 1000 "Qa")
    = Some None /\
  toy_result (toy_ConsumePeerRecord 0 (mkPeerRecord "Qa" 7 [Some "/ip4/1"]) 0 ;; book_gc 1000 ;;
    toy_ConsumePeerRecord 1000 (mkPeerRecord "Qa" 6 [Some "/ip4/1"]) 9) = Some (Some false, []) /\
  toy_result (toy_ConsumePeerRecord 0 (mkPeerRecord "Qa" 7 [Some "/ip4/1"]) 9 ;; book_gc 1000 ;;
    toy_ConsumePeerRecord 1000 (mkPeerRecord "Qa" 6 [Some "/ip4/1"]) 9) = Some (Some true, ["/ip4/1"%string]).
Proof. by vm_compute. Qed.

(** A record with the sequence number of the one kept is taken, where the
    interface says that it is ignored. *)
Example equal_sequence_taken :
  toy_result (toy_ConsumePeerRecord 0 (mkPeerRecord "Qa" 7 [Some "/ip4/1"]) 9 ;;
    toy_ConsumePeerRecord 1 (mkPeerRecord "Qa" 7 [Some "/ip4/2"]) 9) = Some (Some true, ["/ip4/2"%string]).
Proof. by vm_compute. Qed.

(** A signed record replaces neither the addresses that were not signed nor those
    of an older record, and addresses that are not signed are taken after it,
    where the interface says that certified addresses displace the others. *)
Example certified_only_added :
  toy_result (toy_AddAddrs 0 "Qa" [Some "/ip4/1"] 9 ;; toy_ConsumePeerRecord 1 (mkPeerRecord "Qa" 7 [Some "/ip4/2"]) 9 ;;
    toy_ConsumePeerRecord 2 (mkPeerRecord "Qa" 8 [Some "/ip4/3"]) 9 ;; toy_AddAddrs 3 "Qa" [Some "/ip4/4"] 9 ;; l <- toy_Addrs 4 "Qa" ;;
    ret (forallb (fun a => existsb (String.eqb a) l) ["/ip4/1"; "/ip4/2"; "/ip4/3"; "/ip4/4"]%string)) = Some true.
Proof. by vm_compute. Qed.

(** ** Address streams

    A stream's goroutine chooses between sending, receiving and ending: its
    steps.  What it still has to send is [next] and [buffer]; its send channel is
    nil exactly when [next] is.  Loopback and TCP addresses are parameters. *)

Section order.
Context (IsIPLoopback isFDCostlyTransport : string -> bool).

Definition Less (a b : string) : bool :=
  let lba := IsIPLoopback a in let lbb := IsIPLoopback b in
  if lba && negb lbb then true
  else
    let fda := isFDCostlyTransport a in let fdb := isFDCostlyTransport b in
    if negb fda then fdb
    else if negb fdb then false
    else if lbb then false
    else match String.compare a b with Gt => true | _ => false end.

Context `{O : MapOrder, S : SortSlice} {Envelope : Type}.

(** Whether or not they have expired. *)
Definition initial_addrs (amap : gmap string expiringAddr) : list string := (fun e => Addr e.2) <$> map_range amap.

Definition stream_initial (p : string) : M (list (addrSegment Envelope)) (list string) :=
  s <- get_segment p ;; ret (sort_slice Less (initial_addrs (default ∅ (addrs s !! p)))).
End order.

(** ** The goroutine of a stream *)

Record stream := mkStream { sent : gset string; next : option string; buffer : list string }.

Definition stream_start (initial : list string) : stream :=
  let sent := list_to_set initial in
  match initial with
  | [] => mkStream sent None []
  | a :: l => mkStream sent (Some a) l
  end.

(** [None] when there is nothing to send. *)
Definition stream_send (st : stream) : option (string * stream) :=
  a ← next st;
  Some (a, match buffer st with
           | [] => mkStream (sent st) None []
           | b :: l => mkStream (sent st) (Some b) l
           end).

Definition stream_receive (naddr : string) (st : stream) : stream :=
  if bool_decide (naddr ∈ sent st) then st
  else
    let sent := {[naddr]} ∪ sent st in
    match next st with
    | None => mkStream sent (Some naddr) (buffer st)
    | Some n => mkStream sent (Some n) (buffer st ++ [naddr])
    end.

(** A run from the first addresses, with what was published to the stream and
    what was read from it. *)
Inductive stream_run (initial : list string) : list string -> list string -> stream -> Prop :=
  | sr_start : stream_run initial [] [] (stream_start initial)
  | sr_send got out st a st' :
      stream_run initial got out st -> stream_send st = Some (a, st') -> stream_run initial got (out ++ [a]) st'
  | sr_receive got out st a :
      stream_run initial got out st -> stream_run initial (got ++ [a]) out (stream_receive a st).

(** ** The subscriptions, by identity *)

#[local] Abbreviation AddrSubManager := (gmap string (list nat)).

Definition subs_of (mgr : AddrSubManager) (p : string) : list nat := default [] (mgr !! p).

Definition add_sub (p : string) (s : nat) (mgr : AddrSubManager) : AddrSubManager := <[p := subs_of mgr p ++ [s]]> mgr.

Definition removeSub (p : string) (s : nat) (mgr : AddrSubManager) : AddrSubManager :=
  match subs_of mgr p with
  | [v] => if Nat.eqb v s then delete p mgr else mgr
  | subs =>
      match list_find (fun v => v = s) subs with
      | Some (i, _) => <[p := swap_remove subs i]> mgr
      | None => mgr
      end
  end.

(** The streams [BroadcastAddr] sends to. *)
Definition broadcast_to (mgr : AddrSubManager) (p : string) : list nat := subs_of mgr p.

(** ** Nothing is sent twice, nothing is lost *)

(** The elements that are new when they come. *)
Fixpoint firsts (seen : gset string) (l : list string) : list string :=
  match l with
  | [] => []
  | a :: l => if bool_decide (a ∈ seen) then firsts seen l else a :: firsts ({[a]} ∪ seen) l
  end.

Definition to_send (st : stream) : list string := option_list (next st) ++ buffer st.

Lemma firsts_elem seen l a : a ∈ firsts seen l <-> a ∈ l /\ a ∉ seen.
Proof.
  revert seen. induction l as [|b l IH]; intros seen; cbn [firsts].
  - rewrite elem_of_nil. tauto.
  - case_bool_decide as Hb; rewrite ?elem_of_cons, IH, ?elem_of_union, ?elem_of_singleton.
    + split; [tauto|]. intros [[->|?] ?]; tauto.
    + destruct (decide (a = b)) as [->|]; tauto.
Qed.

Lemma firsts_NoDup seen l : NoDup (firsts seen l).
Proof.
  revert seen. induction l as [|b l IH]; intros seen; cbn [firsts]; [constructor|].
  case_bool_decide; [done|]. constructor; [|done]. rewrite firsts_elem. set_solver.
Qed.

Lemma firsts_snoc seen l a :
  firsts seen (l ++ [a]) = firsts seen l ++ (if bool_decide (a ∈ list_to_set l ∪ seen) then [] else [a]).
Proof.
  revert seen. induction l as [|b l IH]; intros seen; cbn [firsts app list_to_set foldr].
  - rewrite (bool_decide_ext (a ∈ ∅ ∪ seen) (a ∈ seen)) by set_solver. by case_bool_decide.
  - case_bool_decide as Hb; rewrite IH; [|cbn [app]; f_equal].
    + f_equal. erewrite bool_decide_ext; [reflexivity|]. set_solver.
    + f_equal. erewrite bool_decide_ext; [reflexivity|]. set_solver.
Qed.

Lemma stream_invariant initial got out st :
  stream_run initial got out st ->
  sent st = list_to_set got ∪ list_to_set initial /\ (next st = None -> buffer st = []) /\
  out ++ to_send st = initial ++ firsts (list_to_set initial) got.
Proof.
  unfold to_send. induction 1 as [|got out st a st' _ (Hs & Hn & Ho) He|got out st a _ (Hs & Hn & Ho)].
  - unfold stream_start. destruct initial as [|a l]; cbn; rewrite ?app_nil_r; split_and!; try done; set_solver.
  - unfold stream_send in He. destruct (next st) as [n|]; [|done]. injection He as <- <-.
    rewrite <- Ho. destruct (buffer st) as [|b l]; cbn [sent next buffer option_list]; by rewrite <- ?app_assoc.
  - rewrite firsts_snoc, <- Hs. unfold stream_receive. rewrite list_to_set_app_L. case_bool_decide as Ha.
    + rewrite app_nil_r. split_and!; try done. set_solver.
    + rewrite (app_assoc initial), <- Ho. destruct (next st) as [n|]; cbn [sent next buffer option_list].
      * split_and!; [set_solver|done|]. by rewrite <- !app_assoc.
      * rewrite Hn by done. split_and!; [set_solver|done|]. cbn. by rewrite app_nil_r.
Qed.

(** Whatever the interleaving, what a stream has given out and what it still has
    to give are the first addresses and then the new ones in the order they were
    published, each once; and it can go on sending until nothing is left. *)
Theorem stream_exact initial got out st :
  NoDup initial -> stream_run initial got out st ->
  out ++ to_send st = initial ++ firsts (list_to_set initial) got /\ NoDup out /\
  (forall a, a ∈ out ++ to_send st <-> a ∈ initial \/ a ∈ got) /\
  exists st', stream_run initial got (out ++ to_send st) st' /\ stream_send st' = None.
Proof.
  intros Hnd Hr. destruct (stream_invariant _ _ _ _ Hr) as (_ & _ & Ho). split; [done|].
  assert (NoDup (out ++ to_send st)) as Hall.
  { rewrite Ho. apply NoDup_app. split_and!; [done| |apply firsts_NoDup].
    intros a Ha. rewrite firsts_elem, elem_of_list_to_set. tauto. }
  split; [by apply NoDup_app in Hall as [? _]|]. split.
  - intros a. rewrite Ho, elem_of_app, firsts_elem, elem_of_list_to_set. destruct (decide (a ∈ initial)); tauto.
  - clear Ho Hall. remember (length (to_send st)) as n eqn:Hlen. revert out st Hr Hlen.
    induction n as [|n IH]; intros out st Hr Hlen; destruct (stream_invariant _ _ _ _ Hr) as (_ & Hn & _); unfold to_send in *.
    + destruct (next st) as [a|] eqn:Ha; [done|]. rewrite Hn by done. cbn. rewrite app_nil_r.
      exists st. split; [done|]. unfold stream_send. by rewrite Ha.
    + destruct (next st) as [a|] eqn:Ha; [|by rewrite Hn in Hlen]. cbn [option_list app length] in *.
      edestruct (IH (out ++ [a])) as (st' & Hst' & Hno).
      * eapply sr_send; [exact Hr|]. unfold stream_send. by rewrite Ha.
      * destruct (buffer st) as [|b l]; cbn in *; lia.
      * exists st'. split; [|done]. rewrite <- app_assoc in Hst'. by destruct (buffer st).
Qed.

(** Unsubscribing takes the subscription out, and nothing else. *)
Lemma removeSub_exact p s mgr :
  NoDup (subs_of mgr p) ->
  (forall v, v ∈ broadcast_to (removeSub p s mgr) p <-> v ∈ broadcast_to mgr p /\ v <> s) /\
  forall q, q <> p -> broadcast_to (removeSub p s mgr) q = broadcast_to mgr q.
Proof.
  intros Hnd. unfold broadcast_to, removeSub. set (subs := subs_of mgr p) in *.
  assert (forall v, v ∈ match list_find (fun v => v = s) subs with Some (i, _) => swap_remove subs i | None => subs end <->
    v ∈ subs /\ v <> s) as Hin.
  { intros v. destruct (list_find _ subs) as [[i w]|] eqn:Hf.
    - apply list_find_Some in Hf as (Hi & -> & _). pose proof (swap_remove_perm subs i s Hi) as Hp.
      rewrite Hp in Hnd. apply NoDup_cons in Hnd as [Hns _]. assert (v ∈ subs <-> v ∈ s :: swap_remove subs i) as -> by (by rewrite <- Hp).
      rewrite elem_of_cons.
      split; [|tauto]. intros Hv. split; [tauto|]. intros ->. done.
    - apply list_find_None in Hf. rewrite Forall_forall in Hf. split; [|tauto]. intros Hv. split; [done|]. by apply Hf. }
  assert (forall X : gmap string (list nat), (forall v, v ∈ subs_of X p <-> v ∈ subs /\ v <> s) ->
    (forall q, q <> p -> X !! q = mgr !! q) ->
    (forall v, v ∈ subs_of X p <-> v ∈ subs /\ v <> s) /\ (forall q, q <> p -> subs_of X q = subs_of mgr q)) as Hgoal.
  { intros X H1 H2. split; [done|]. intros q Hq. unfold subs_of. by rewrite H2. }
  assert (subs_of mgr p = subs) as Hsubs by done. clearbody subs. destruct subs as [|v0 [|v1 l]].
  - apply (Hgoal mgr); [|done]. intros v. by rewrite Hsubs.
  - destruct (Nat.eqb_spec v0 s) as [->|Hne]; apply Hgoal; try done.
    + intros v. unfold subs_of. rewrite lookup_delete_eq. cbn. rewrite elem_of_nil, list_elem_of_singleton. naive_solver.
    + intros q Hq. by rewrite lookup_delete_ne.
    + intros v. rewrite Hsubs, list_elem_of_singleton. naive_solver.
  - destruct (list_find _ (v0 :: v1 :: l)) as [[i w]|]; apply Hgoal; try done.
    + intros v. unfold subs_of. by rewrite lookup_insert_eq.
    + intros q Hq. by rewrite lookup_insert_ne.
    + intros v. by rewrite Hsubs.
Qed.

(** The witness's stream had one address at the start; two publications, one of
    them known, and one read came in between. *)
Lemma stream_exact_witness : exists st, stream_run ["a"%string] ["a"; "b"]%string ["a"%string] st /\
  ["a"%string] ++ to_send st = ["a"; "b"]%string.
Proof.
  assert (stream_run ["a"%string] ["a"; "b"]%string ["a"%string]
    (stream_receive "b" (stream_receive "a" (mkStream {["a"%string]} None [])))) as Hr.
  { apply (sr_receive _ ["a"%string]), (sr_receive _ []). apply (sr_send _ [] [] (stream_start ["a"%string])); [constructor|].
    vm_compute. done. }
  eexists. split; [exact Hr|].
  refine (eq_trans (proj1 (stream_exact _ _ _ _ _ Hr)) _); [by repeat constructor; set_solver|by vm_compute].
Defined.

(** The order is not one: a TCP address of this machine and a UDP address of
    another each come before the other. *)
Example less_both_ways :
  let lo := String.eqb "/ip4/127.0.0.1/tcp/1" in
  Less lo lo "/ip4/127.0.0.1/tcp/1" "/ip4/1.2.3.4/udp/1" = true /\
  Less lo lo "/ip4/1.2.3.4/udp/1" "/ip4/127.0.0.1/tcp/1" = true.
Proof. by vm_compute. Qed.

(** What has expired is in the first addresses of a stream, unlike what [Addrs] gives. *)
Example stream_starts_with_expired :
  toy_result (toy_AddAddrs 0 "Qa" [Some "/ip4/1"] 10 ;;
    stream_initial (O := listed_order) (S := insertion_sort) (fun _ => false) (fun _ => false) "Qa") = Some ["/ip4/1"%string] /\
  toy_result (toy_AddAddrs 0 "Qa" [Some "/ip4/1"] 10 ;; toy_Addrs 50 "Qa") = Some [].
Proof. by vm_compute. Qed.
