(* ===== verification/Swarm.v ===== *)
(** How the swarm rations its dials:
    src/myvendor/go-libp2p/p2p/net/swarm/limiter.go (with [isFdConsumingAddr] of
    swarm_dial.go) and black_hole_detector.go.

    A dial is started as a goroutine: [running] is the list of those that have not
    ended.  Each method runs under the limiter's mutex and is one step; which
    jobs are cancelled when it runs is an argument.  What a multiaddr is made of
    is a parameter. *)

From stdpp Require Import gmap strings list.
From S2P Require Import Prelude GoLib.
#[local] Open Scope Z_scope.

(** * The dial limiter *)

Record dialJob := mkDialJob { dj_addr : string; dj_peer : string; dj_ctx : nat }.
#[export] Instance dialJob_eq_dec : EqDecision dialJob.
Proof. solve_decision. Defined.

Record dialLimiter := mkDialLimiter {
  fdConsuming : Z;
  fdLimit : Z;
  waitingOnFd : list dialJob;
  activePerPeer : gmap string Z;
  perPeerLimit : Z;
  waitingOnPeerLimit : gmap string (list dialJob);
  running : list dialJob;
}.

#[export] Instance dialLimiter_eta : Eta dialLimiter := fun l => mkDialLimiter
  (fdConsuming l) (fdLimit l) (waitingOnFd l) (activePerPeer l) (perPeerLimit l) (waitingOnPeerLimit l) (running l).

Definition newDialLimiterWithParams (fdLimit perPeerLimit : Z) : dialLimiter :=
  mkDialLimiter 0 fdLimit [] ∅ perPeerLimit ∅ [].

(** What is known of a multiaddr: whether it has a component of a protocol, and
    what comes before its first p2p-circuit ([None] when nothing does). *)
Class DialAddrs := {
  has_protocol : string -> string -> bool;
  before_circuit : string -> option string;
}.

Definition isFdConsumingAddr `{DialAddrs} (addr : string) : bool :=
  match before_circuit addr with
  | None => true
  | Some first => has_protocol "tcp" first || has_protocol "unix" first
  end.

Definition shouldConsumeFd `{DialAddrs} (addr : string) : bool :=
  let isRelay := has_protocol "p2p-circuit" addr in
  negb isRelay && isFdConsumingAddr addr.

Section limiter.
Context `{DialAddrs}.

Definition go_executeDial (dj : dialJob) (dl : dialLimiter) : dialLimiter := dl <| running := running dl ++ [dj] |>.

Definition addCheckFdLimit (dj : dialJob) (dl : dialLimiter) : dialLimiter :=
  if shouldConsumeFd (dj_addr dj) then
    if fdLimit dl <=? fdConsuming dl then dl <| waitingOnFd := waitingOnFd dl ++ [dj] |>
    else go_executeDial dj (dl <| fdConsuming := fdConsuming dl + 1 |>)
  else go_executeDial dj dl.

Definition active (dl : dialLimiter) (p : string) : Z := default 0 (activePerPeer dl !! p).
Definition add_active (p : string) (d : Z) (dl : dialLimiter) : dialLimiter :=
  dl <| activePerPeer := <[p := active dl p + d]> (activePerPeer dl) |>.

Definition addCheckPeerLimit (dj : dialJob) (dl : dialLimiter) : dialLimiter :=
  if perPeerLimit dl <=? active dl (dj_peer dj) then
    let wlist := default [] (waitingOnPeerLimit dl !! dj_peer dj) in
    dl <| waitingOnPeerLimit := <[dj_peer dj := wlist ++ [dj]]> (waitingOnPeerLimit dl) |>
  else addCheckFdLimit dj (add_active (dj_peer dj) 1 dl).

Definition AddDialJob := addCheckPeerLimit.

Section cancelled.
(** Which contexts are done. *)
Context (done_ctx : nat -> bool).
Definition cancelled (dj : dialJob) : bool := done_ctx (dj_ctx dj).

(** The loop of [freePeerToken]. *)
Fixpoint next_of_peer (waitlist : list dialJob) (dl : dialLimiter) : dialLimiter :=
  match waitlist with
  | [] => dl
  | next :: waitlist =>
      let dl := dl <| waitingOnPeerLimit :=
        match waitlist with
        | [] => delete (dj_peer next) (waitingOnPeerLimit dl)
        | _ => <[dj_peer next := waitlist]> (waitingOnPeerLimit dl)
        end |> in
      if cancelled next then next_of_peer waitlist dl
      else addCheckFdLimit next (add_active (dj_peer next) 1 dl)
  end.

Definition freePeerToken (dj : dialJob) (dl : dialLimiter) : dialLimiter :=
  let dl := add_active (dj_peer dj) (-1) dl in
  let dl := if active dl (dj_peer dj) =? 0 then dl <| activePerPeer := delete (dj_peer dj) (activePerPeer dl) |> else dl in
  next_of_peer (default [] (waitingOnPeerLimit dl !! dj_peer dj)) dl.

(** The loop of [freeFDToken]; freeing a peer's token in it may add to the list. *)
Fixpoint next_on_fd (fuel : nat) (dl : dialLimiter) : outcome dialLimiter :=
  match fuel with
  | O => Panic
  | S fuel =>
      match waitingOnFd dl with
      | [] => Ok dl
      | next :: rest =>
          let dl := dl <| waitingOnFd := rest |> in
          if cancelled next then next_on_fd fuel (freePeerToken next dl)
          else Ok (go_executeDial next (dl <| fdConsuming := fdConsuming dl + 1 |>))
      end
  end.

(** How many jobs wait: every turn of the loop takes one of them. *)
Definition waiting_jobs (dl : dialLimiter) : nat :=
  length (waitingOnFd dl) + Z.to_nat (msum (fun _ l => Z.of_nat (length l)) (waitingOnPeerLimit dl)).

Definition freeFDToken (dl : dialLimiter) : outcome dialLimiter :=
  next_on_fd (S (waiting_jobs dl)) (dl <| fdConsuming := fdConsuming dl - 1 |>).

Definition finishedDial (dj : dialJob) (dl : dialLimiter) : outcome dialLimiter :=
  match (if shouldConsumeFd (dj_addr dj) then freeFDToken dl else Ok dl) with
  | Ok dl => Ok (freePeerToken dj dl)
  | Panic => Panic
  end.
End cancelled.

Definition clearAllPeerDials (p : string) (dl : dialLimiter) : dialLimiter :=
  dl <| waitingOnPeerLimit := delete p (waitingOnPeerLimit dl) |>.

(** ** Tokens *)

Definition of_peer (p : string) (l : list dialJob) : Z := Z.of_nat (length (filter (fun j => dj_peer j = p) l)).
Definition on_fd (l : list dialJob) : Z := Z.of_nat (length (filter (fun j => shouldConsumeFd (dj_addr j) = true) l)).

(** Every token is held by a job: [hand] are the jobs with a peer token that are
    neither running nor waiting for a descriptor, [slack] the descriptors about
    to be handed on. *)
Record tokens (hand : list dialJob) (slack : Z) (dl : dialLimiter) : Prop := {
  tk_fd : fdConsuming dl = on_fd (running dl);
  tk_active p : active dl p = of_peer p (running dl ++ waitingOnFd dl ++ hand);
  tk_positive p : activePerPeer dl !! p <> Some 0;
  tk_limit p : active dl p <= perPeerLimit dl;
  tk_full p l : waitingOnPeerLimit dl !! p = Some l ->
    l <> [] /\ active dl p = perPeerLimit dl /\ Forall (fun j => dj_peer j = p) l;
  tk_wait : waitingOnFd dl <> [] -> fdLimit dl <= fdConsuming dl + slack;
  tk_wait_fd : Forall (fun j => shouldConsumeFd (dj_addr j) = true) (waitingOnFd dl);
}.

Lemma of_peer_app p l l' : of_peer p (l ++ l') = of_peer p l + of_peer p l'.
Proof using Type. unfold of_peer. rewrite filter_app, length_app. lia. Qed.
Lemma of_peer_cons p j l : of_peer p (j :: l) = (if decide (dj_peer j = p) then 1 else 0) + of_peer p l.
Proof using Type. unfold of_peer. rewrite filter_cons. case_decide; cbn [length]; lia. Qed.
Lemma of_peer_nil p : of_peer p [] = 0.
Proof using Type. done. Qed.
Lemma of_peer_perm p l l' : l ≡ₚ l' -> of_peer p l = of_peer p l'.
Proof using Type. unfold of_peer. by intros ->. Qed.
Lemma on_fd_app l l' : on_fd (l ++ l') = on_fd l + on_fd l'.
Proof using Type. unfold on_fd. rewrite filter_app, length_app. lia. Qed.
Lemma on_fd_cons j l : on_fd (j :: l) = (if shouldConsumeFd (dj_addr j) then 1 else 0) + on_fd l.
Proof using Type. unfold on_fd. rewrite filter_cons. by case_decide as Hd; rewrite ?Hd; [|apply not_true_is_false in Hd; rewrite Hd]; cbn [length]; lia. Qed.
Lemma on_fd_perm l l' : l ≡ₚ l' -> on_fd l = on_fd l'.
Proof using Type. unfold on_fd. by intros ->. Qed.

Lemma active_add p q d dl : active (add_active p d dl) q = active dl q + (if decide (p = q) then d else 0).
Proof using Type.
  unfold active, add_active. cbn. destruct (decide (p = q)) as [->|Hne].
  - by rewrite lookup_insert_eq.
  - rewrite lookup_insert_ne by done. unfold active. lia.
Qed.

(** A job with its peer's token starts or waits. *)
Lemma addCheckFdLimit_tokens j hand slack dl :
  0 <= slack -> tokens (j :: hand) slack dl -> tokens hand slack (addCheckFdLimit j dl).
Proof using Type.
  intros Hs [H1 H2 H3 H4 H5 H6 H7]. unfold addCheckFdLimit, go_executeDial.
  assert (forall p, of_peer p (running dl ++ waitingOnFd dl ++ j :: hand) =
    of_peer p (running dl) + of_peer p (waitingOnFd dl) + of_peer p [j] + of_peer p hand) as Hall
    by (intros p; rewrite !of_peer_app, !of_peer_cons, of_peer_nil; lia).
  destruct (shouldConsumeFd (dj_addr j)) eqn:Hfd; [destruct (Z.leb_spec (fdLimit dl) (fdConsuming dl))|]; split; cbn; try done.
  - intros p. unfold active in *. cbn. rewrite H2, Hall, !of_peer_app. lia.
  - intros _. lia.
  - apply Forall_app. split; [done|by constructor].
  - rewrite on_fd_app, on_fd_cons, Hfd. change (on_fd []) with 0. lia.
  - intros p. unfold active in *. cbn. rewrite H2, Hall, !of_peer_app. lia.
  - intros ?%H6. lia.
  - rewrite on_fd_app, on_fd_cons, Hfd. change (on_fd []) with 0. lia.
  - intros p. unfold active in *. cbn. rewrite H2, Hall, !of_peer_app. lia.
Qed.

(** The peer's token that is free goes to the first of the jobs waiting for it
    that is not cancelled. *)
Lemma next_of_peer_tokens done_ctx p waitlist hand slack dl :
  0 <= slack -> 0 < perPeerLimit dl ->
  fdConsuming dl = on_fd (running dl) ->
  (forall q, active dl q = of_peer q (running dl ++ waitingOnFd dl ++ hand)) ->
  (forall q, activePerPeer dl !! q <> Some 0) ->
  (forall q, active dl q <= perPeerLimit dl) ->
  (forall q l, q <> p -> waitingOnPeerLimit dl !! q = Some l ->
     l <> [] /\ active dl q = perPeerLimit dl /\ Forall (fun j => dj_peer j = q) l) ->
  (waitingOnFd dl <> [] -> fdLimit dl <= fdConsuming dl + slack) ->
  Forall (fun j => shouldConsumeFd (dj_addr j) = true) (waitingOnFd dl) ->
  Forall (fun j => dj_peer j = p) waitlist ->
  waitingOnPeerLimit dl !! p = (match waitlist with [] => None | _ => Some waitlist end) ->
  (waitlist <> [] -> active dl p = perPeerLimit dl - 1) ->
  tokens hand slack (next_of_peer done_ctx waitlist dl).
Proof using Type.
  intros Hs HP. revert dl HP. induction waitlist as [|next rest IH]; intros dl HP H1 H2 H3 H4 H5 H6 H7 Hl Hw Ha; cbn [next_of_peer].
  - split; try done. intros q l Hq. destruct (decide (q = p)) as [->|]; [congruence|by apply H5].
  - apply Forall_cons in Hl as [Hn Hrest]. rewrite Hn. specialize (Ha ltac:(done)).
    set (dl1 := dl <| waitingOnPeerLimit := _ |>).
    assert (forall q l, q <> p -> waitingOnPeerLimit dl1 !! q = Some l ->
      l <> [] /\ active dl q = perPeerLimit dl /\ Forall (fun j => dj_peer j = q) l) as H5'.
    { intros q l Hq Hl. apply H5; [done|]. unfold dl1 in Hl. cbn in Hl.
      destruct rest; [by rewrite lookup_delete_ne in Hl|by rewrite lookup_insert_ne in Hl]. }
    assert (waitingOnPeerLimit dl1 !! p = match rest with [] => None | _ => Some rest end) as Hw'.
    { unfold dl1. cbn. destruct rest; [by rewrite lookup_delete_eq|by rewrite lookup_insert_eq]. }
    destruct (cancelled done_ctx next); [by apply IH|].
    apply addCheckFdLimit_tokens; [done|]. split; try done.
    + intros q. rewrite active_add. change (active dl1 q) with (active dl q). change (running (add_active p 1 dl1)) with (running dl).
      change (waitingOnFd (add_active p 1 dl1)) with (waitingOnFd dl). rewrite H2, !of_peer_app, of_peer_cons, Hn. case_decide; lia.
    + intros q. cbn. rewrite lookup_insert_Some. change (active dl1 p) with (active dl p). intros [[_ ?]|[_ ?%H3]]; [lia|done].
    + intros q. rewrite active_add. change (active dl1 q) with (active dl q). change (perPeerLimit (add_active p 1 dl1)) with (perPeerLimit dl).
      specialize (H4 q). case_decide as Hq; [subst q; lia|lia].
    + intros q l Hq. change (perPeerLimit (add_active p 1 dl1)) with (perPeerLimit dl). rewrite active_add.
      change (active dl1 q) with (active dl q). change (waitingOnPeerLimit (add_active p 1 dl1)) with (waitingOnPeerLimit dl1) in Hq.
      destruct (decide (p = q)) as [<-|Hne].
      * rewrite Hw' in Hq. destruct rest as [|r rest]; [done|]. injection Hq as <-. split_and!; [done|lia|done].
      * rewrite Z.add_0_r. apply H5'; [congruence|done].
Qed.

Lemma freePeerToken_tokens done_ctx j hand slack dl :
  0 <= slack -> 0 < perPeerLimit dl ->
  tokens (j :: hand) slack dl -> tokens hand slack (freePeerToken done_ctx j dl).
Proof using Type.
  intros Hs HP [H1 H2 H3 H4 H5 H6 H7]. unfold freePeerToken. set (p := dj_peer j).
  set (dl1 := if active (add_active p (-1) dl) p =? 0 then _ else _).
  assert (waitingOnPeerLimit dl1 = waitingOnPeerLimit dl /\ running dl1 = running dl /\ waitingOnFd dl1 = waitingOnFd dl /\
    fdConsuming dl1 = fdConsuming dl /\ fdLimit dl1 = fdLimit dl /\ perPeerLimit dl1 = perPeerLimit dl) as (E1 & E2 & E3 & E4 & E5 & E6)
    by (unfold dl1; by destruct (_ =? 0)).
  assert (forall q, active dl1 q = active dl q + (if decide (p = q) then -1 else 0)) as Hact.
  { intros q. unfold dl1. destruct (Z.eqb_spec (active (add_active p (-1) dl) p) 0) as [Hz|_]; [|apply active_add].
    destruct (decide (p = q)) as [<-|Hne].
    - unfold active at 1. cbn. rewrite lookup_delete_eq. cbn. rewrite active_add, decide_True in Hz by done. lia.
    - unfold active. cbn. rewrite lookup_delete_ne, lookup_insert_ne by done. unfold active. lia. }
  assert (forall q, activePerPeer dl1 !! q <> Some 0) as Hpos.
  { intros q. unfold dl1. destruct (Z.eqb_spec (active (add_active p (-1) dl) p) 0) as [Hz|Hz]; cbn.
    - rewrite lookup_delete_Some, lookup_insert_Some. naive_solver.
    - rewrite active_add, decide_True in Hz by done. rewrite lookup_insert_Some. intros [[_ ?]|[_ ?%H3]]; [lia|done]. }
  assert (default [] (waitingOnPeerLimit dl !! p) = [] /\ waitingOnPeerLimit dl !! p = None \/
    exists l, waitingOnPeerLimit dl !! p = Some l /\ default [] (waitingOnPeerLimit dl !! p) = l /\ l <> []) as Hw.
  { destruct (waitingOnPeerLimit dl !! p) as [l|] eqn:Hl; [right|by left]. exists l. split_and!; [done|done|]. by apply (H5 p l). }
  apply (next_of_peer_tokens done_ctx p); rewrite ?E1, ?E2, ?E3, ?E4, ?E5, ?E6; try done.
  - intros q. rewrite Hact, H2, !of_peer_app, of_peer_cons. fold p. case_decide; lia.
  - intros q. rewrite Hact. specialize (H4 q). case_decide; lia.
  - intros q l Hq. rewrite Hact, decide_False by done. rewrite Z.add_0_r. apply H5.
  - destruct Hw as [[-> _]|(l & Hl & -> & _)]; [constructor|]. by apply (H5 p l).
  - destruct Hw as [[-> ->]|(l & Hl & -> & Hne)]; [done|]. rewrite Hl. by destruct l.
  - destruct Hw as [[-> _]|(l & Hl & -> & Hne)]; [done|]. intros _. rewrite Hact, decide_True by done.
    destruct (H5 p l Hl) as (_ & -> & _). lia.
Qed.

(** ** Jobs *)

Definition known (dl : dialLimiter) (j : dialJob) : Prop :=
  j ∈ running dl \/ j ∈ waitingOnFd dl \/ exists p l, waitingOnPeerLimit dl !! p = Some l /\ j ∈ l.

Definition jobs (dl : dialLimiter) : nat := length (running dl) + waiting_jobs dl.

(** The limits stay, no job comes out of nothing and none is forgotten but for
    cancelled ones. *)
Record keeps (done_ctx : nat -> bool) (dl dl' : dialLimiter) : Prop := {
  kp_fd : fdLimit dl' = fdLimit dl;
  kp_peer : perPeerLimit dl' = perPeerLimit dl;
  kp_jobs : (jobs dl' <= jobs dl)%nat;
  kp_waiting : (waiting_jobs dl' <= waiting_jobs dl)%nat;
  kp_known j : cancelled done_ctx j = false -> known dl j -> known dl' j;
}.

Lemma keeps_trans done_ctx a b c : keeps done_ctx a b -> keeps done_ctx b c -> keeps done_ctx a c.
Proof using Type. intros [] []. split; [congruence|congruence|lia|lia|auto]. Qed.

Lemma waiting_sum_nonneg (m : gmap string (list dialJob)) : 0 <= msum (fun _ l => Z.of_nat (length l)) m.
Proof using Type. apply msum_nonneg. lia. Qed.

Lemma addCheckFdLimit_jobs j dl :
  let dl' := addCheckFdLimit j dl in
  fdLimit dl' = fdLimit dl /\ perPeerLimit dl' = perPeerLimit dl /\ jobs dl' = S (jobs dl) /\
  (waiting_jobs dl' <= S (waiting_jobs dl))%nat /\ known dl' j /\ forall i, known dl i -> known dl' i.
Proof using Type.
  unfold addCheckFdLimit, go_executeDial, jobs, waiting_jobs, known. cbn.
  destruct (shouldConsumeFd (dj_addr j)); [destruct (fdLimit dl <=? fdConsuming dl)|]; cbn; rewrite ?length_app; cbn;
    (split_and!; [done|done|lia|lia|set_solver|set_solver]).
Qed.

(** A new job is known, in addition to all the others. *)
Lemma AddDialJob_known j dl :
  known (AddDialJob j dl) j /\ (forall i, known dl i -> known (AddDialJob j dl) i).
Proof using Type.
  unfold AddDialJob, addCheckPeerLimit. set (p := dj_peer j).
  destruct (perPeerLimit dl <=? active dl p).
  - unfold known. cbn. split.
    + right. right. exists p, (default [] (waitingOnPeerLimit dl !! p) ++ [j]).
      rewrite lookup_insert_eq. split; [done|]. apply elem_of_app. right. by apply list_elem_of_singleton.
    + intros i [Hi|[Hi|(q & l & Hq & Hi)]]; [by left|by right; left|]. right. right.
      destruct (decide (p = q)) as [<-|Hne].
      * exists p, (l ++ [j]). rewrite lookup_insert_eq, Hq. split; [done|]. apply elem_of_app. by left.
      * exists q, l. by rewrite lookup_insert_ne.
  - destruct (addCheckFdLimit_jobs j (add_active p 1 dl)) as (_ & _ & _ & _ & Hj & Hk). by split.
Qed.

(** Clearing a peer's dials forgets its jobs that wait for one of its tokens, and
    touches nothing else. *)
Lemma clearAllPeerDials_known p dl i :
  known dl i <-> known (clearAllPeerDials p dl) i \/ exists l, waitingOnPeerLimit dl !! p = Some l /\ i ∈ l.
Proof using Type.
  unfold known. cbn. split.
  - intros [Hi|[Hi|(q & l & Hq & Hi)]]; [by left; left|by left; right; left|].
    destruct (decide (q = p)) as [->|Hne]; [right; by exists l|]. left. right. right. exists q, l.
    by rewrite lookup_delete_ne by done.
  - intros [[Hi|[Hi|(q & l & Hq & Hi)]]|(l & Hl & Hi)]; [by left|by right; left| |].
    + apply lookup_delete_Some in Hq as [_ Hq]. right. right. by exists q, l.
    + right. right. by exists p, l.
Qed.

(** Taking the head off a peer's list. *)
Lemma pop_waiting p next rest (m : gmap string (list dialJob)) :
  m !! p = Some (next :: rest) ->
  let m' := match rest with [] => delete p m | _ => <[p := rest]> m end in
  msum (fun _ l => Z.of_nat (length l)) m' = msum (fun _ l => Z.of_nat (length l)) m - 1 /\
  (forall q, m' !! q = if decide (q = p) then (match rest with [] => None | _ => Some rest end) else m !! q).
Proof using Type.
  intros Hm m'. split.
  - unfold m'. destruct rest as [|r rest].
    + rewrite (msum_delete _ m p [next]) by done. cbn. lia.
    + rewrite (msum_update _ m p (next :: r :: rest)) by done. cbn [length]. lia.
  - intros q. unfold m'. case_decide as Hq; [subst q|]; destruct rest.
    + by rewrite lookup_delete_eq.
    + by rewrite lookup_insert_eq.
    + by rewrite lookup_delete_ne.
    + by rewrite lookup_insert_ne.
Qed.

Lemma next_of_peer_keeps done_ctx p waitlist dl :
  Forall (fun j => dj_peer j = p) waitlist ->
  waitingOnPeerLimit dl !! p = (match waitlist with [] => None | _ => Some waitlist end) ->
  keeps done_ctx dl (next_of_peer done_ctx waitlist dl).
Proof using Type.
  revert dl. induction waitlist as [|next rest IH]; intros dl Hl Hw; cbn [next_of_peer]; [by split|].
  apply Forall_cons in Hl as [Hn Hrest]. rewrite Hn.
  destruct (pop_waiting p next rest _ Hw) as [Hsum Hlook]. set (m' := match rest with [] => delete p _ | _ => _ end) in *.
  set (dl1 := dl <| waitingOnPeerLimit := m' |>).
  pose proof (waiting_sum_nonneg m') as Hnn.
  assert (S (waiting_jobs dl1) = waiting_jobs dl) as Hwj by (unfold waiting_jobs; cbn; lia).
  assert (forall i, known dl i -> i = next \/ known dl1 i) as Hk.
  { intros i [?|[?|(q & l & Hq & Hi)]]; [right; by left|right; right; by left|].
    destruct (decide (q = p)) as [->|Hqp].
    - rewrite Hw in Hq. injection Hq as <-. apply elem_of_cons in Hi as [->|Hi]; [by left|]. right. right. right.
      exists p, rest. split; [|done]. unfold dl1. cbn. rewrite Hlook, decide_True by done. by destruct rest; [apply elem_of_nil in Hi|].
    - right. right. right. exists q, l. split; [|done]. unfold dl1. cbn. by rewrite Hlook, decide_False. }
  destruct (cancelled done_ctx next) eqn:Hc.
  - eapply keeps_trans; [|apply IH; [done|unfold dl1; cbn; by rewrite Hlook, decide_True]].
    split; try done; [unfold jobs; change (running dl1) with (running dl); lia|lia|]. intros i Hi [->|?]%Hk; [congruence|done].
  - destruct (addCheckFdLimit_jobs next (add_active p 1 dl1)) as (E1 & E2 & E3 & E4 & E5 & E6).
    split; [done|done| |change (waiting_jobs (add_active p 1 dl1)) with (waiting_jobs dl1) in E4; lia|].
    + rewrite E3. unfold jobs. change (waiting_jobs (add_active p 1 dl1)) with (waiting_jobs dl1).
      change (running (add_active p 1 dl1)) with (running dl). lia.
    + intros i _ [->|Hi]%Hk; [done|by apply E6].
Qed.

Lemma freePeerToken_keeps done_ctx j hand slack dl :
  tokens hand slack dl -> keeps done_ctx dl (freePeerToken done_ctx j dl).
Proof using Type.
  intros Ht. unfold freePeerToken. set (p := dj_peer j).
  set (dl1 := if active (add_active p (-1) dl) p =? 0 then _ else _).
  assert (waitingOnPeerLimit dl1 = waitingOnPeerLimit dl) as E1 by (unfold dl1; by destruct (_ =? 0)).
  assert (keeps done_ctx dl dl1) as Hk1 by (unfold dl1; destruct (_ =? 0); by split).
  eapply keeps_trans; [exact Hk1|]. rewrite E1.
  destruct (waitingOnPeerLimit dl !! p) as [l|] eqn:Hl; cbn [default from_option].
  - destruct (tk_full _ _ _ Ht p l Hl) as (Hne & _ & Hp). apply (next_of_peer_keeps _ p); [done|]. rewrite E1, Hl. by destruct l.
  - apply (next_of_peer_keeps _ p); [constructor|]. by rewrite E1.
Qed.

(** The loop ends within its fuel, with every token back with a job. *)
Lemma next_on_fd_ok done_ctx fuel hand dl :
  (waiting_jobs dl < fuel)%nat -> 0 < perPeerLimit dl -> tokens hand 1 dl ->
  exists dl', next_on_fd done_ctx fuel dl = Ok dl' /\ tokens hand 0 dl' /\ keeps done_ctx dl dl'.
Proof using Type.
  revert dl. induction fuel as [|fuel IH]; intros dl Hfuel HP Ht; [lia|]. cbn [next_on_fd].
  destruct (waitingOnFd dl) as [|next rest] eqn:Hw.
  { exists dl. split; [done|]. split; [|by split]. destruct Ht. by split. }
  set (dl1 := dl <| waitingOnFd := rest |>).
  destruct Ht as [H1 H2 H3 H4 H5 H6 H7]. rewrite Hw in H6, H7. specialize (H6 ltac:(done)). apply Forall_cons in H7 as [Hfd H7].
  assert (S (waiting_jobs dl1) = waiting_jobs dl) as Hwj by (unfold waiting_jobs; cbn; rewrite Hw; cbn; lia).
  assert (forall p, active dl p = of_peer p (running dl ++ rest ++ next :: hand)) as Hact.
  { intros p. rewrite H2, Hw. apply of_peer_perm. f_equiv. cbn. by rewrite <- Permutation_middle. }
  destruct (cancelled done_ctx next) eqn:Hc.
  - assert (tokens (next :: hand) 1 dl1) as Ht1 by (split; cbn; try done; intros _; lia).
    destruct (IH (freePeerToken done_ctx next dl1)) as (dl' & E & Ht' & Hk').
    + pose proof (kp_waiting _ _ _ (freePeerToken_keeps done_ctx next _ _ _ Ht1)). lia.
    + by rewrite (kp_peer _ _ _ (freePeerToken_keeps done_ctx next _ _ _ Ht1)).
    + apply freePeerToken_tokens; [lia|done|done].
    + exists dl'. split; [done|split; [done|]]. eapply keeps_trans; [|eapply keeps_trans; [apply (freePeerToken_keeps done_ctx next _ _ _ Ht1)|exact Hk']].
      split; try done; [unfold jobs; change (running dl1) with (running dl); lia|lia|]. intros i Hi [?|[Hin|?]]; [by left| |right; by right].
      rewrite Hw in Hin. apply elem_of_cons in Hin as [->|?]; [congruence|right; by left].
  - eexists. split; [reflexivity|]. split.
    + split; cbn; try done.
      * rewrite on_fd_app, on_fd_cons, Hfd. change (on_fd []) with 0. lia.
      * intros p. change (active dl p = of_peer p ((running dl ++ [next]) ++ rest ++ hand)). rewrite Hact.
        apply of_peer_perm. rewrite <- app_assoc. f_equiv. cbn. by rewrite <- Permutation_middle.
      * intros _. lia.
    + split; try done.
      * unfold jobs, waiting_jobs, go_executeDial. cbn. rewrite length_app, Hw. cbn. lia.
      * unfold waiting_jobs, go_executeDial. cbn. rewrite Hw. cbn. lia.
      * intros i _ [?|[Hin|?]]; unfold known, go_executeDial; cbn; [set_solver| |set_solver]. rewrite Hw in Hin. set_solver.
Qed.

(** ** Runs of the limiter *)

(** A dial ends; which contexts are done is left open. *)
Inductive dial_ends (may_cancel : bool) : dialLimiter -> dialLimiter -> Prop :=
  | de_end done_ctx j rest dl dl' :
      (may_cancel = false -> forall c, done_ctx c = false) ->
      running dl ≡ₚ j :: rest ->
      finishedDial done_ctx j (dl <| running := rest |>) = Ok dl' -> dial_ends may_cancel dl dl'.

Inductive dial_step (may_cancel : bool) : dialLimiter -> dialLimiter -> Prop :=
  | ds_add j dl : dial_step may_cancel dl (AddDialJob j dl)
  | ds_end dl dl' : dial_ends may_cancel dl dl' -> dial_step may_cancel dl dl'
  | ds_clear p dl : dial_step may_cancel dl (clearAllPeerDials p dl).

Definition limited (may_cancel : bool) (fdLimit perPeerLimit : Z) : dialLimiter -> Prop :=
  reachable (eq (newDialLimiterWithParams fdLimit perPeerLimit)) (dial_step may_cancel).

Lemma AddDialJob_tokens j dl : 0 < perPeerLimit dl -> tokens [] 0 dl -> tokens [] 0 (AddDialJob j dl).
Proof using Type.
  intros HP [H1 H2 H3 H4 H5 H6 H7]. unfold AddDialJob, addCheckPeerLimit. set (p := dj_peer j).
  destruct (Z.leb_spec (perPeerLimit dl) (active dl p)) as [Hle|Hlt].
  - split; cbn; try done. intros q l. change (active _ q) with (active dl q). rewrite lookup_insert_Some. intros [[<- <-]|[Hq Hl]].
    + split_and!; [by destruct (default _ _)|specialize (H4 p); lia|]. apply Forall_app. split; [|by constructor].
      destruct (waitingOnPeerLimit dl !! p) as [l|] eqn:Hl; [by apply (H5 p l)|constructor].
    + by apply H5.
  - apply addCheckFdLimit_tokens; [lia|]. split; try done.
    + intros q. rewrite active_add. change (running (add_active p 1 dl)) with (running dl).
      change (waitingOnFd (add_active p 1 dl)) with (waitingOnFd dl). rewrite H2, !of_peer_app, of_peer_cons, of_peer_nil.
      fold p. case_decide; lia.
    + intros q. cbn. rewrite lookup_insert_Some. intros [[_ Hz]|[_ ?%H3]]; [|done].
      rewrite H2 in Hz. unfold of_peer in Hz. lia.
    + intros q. rewrite active_add. change (perPeerLimit (add_active p 1 dl)) with (perPeerLimit dl). specialize (H4 q).
      case_decide as Hq; [rewrite <- Hq; lia|lia].
    + intros q l Hq. change (waitingOnPeerLimit (add_active p 1 dl)) with (waitingOnPeerLimit dl) in Hq.
      change (perPeerLimit (add_active p 1 dl)) with (perPeerLimit dl). destruct (H5 q l Hq) as (? & Ha & ?).
      split_and!; [done| |done]. rewrite active_add. case_decide as Hpq; [rewrite <- Hpq in Ha; lia|lia].
Qed.

Lemma clearAllPeerDials_tokens p dl : tokens [] 0 dl -> tokens [] 0 (clearAllPeerDials p dl).
Proof using Type.
  intros [H1 H2 H3 H4 H5 H6 H7]. split; try done. intros q l. cbn. rewrite lookup_delete_Some. intros [_ Hl]. by apply H5.
Qed.

Lemma finishedDial_ok done_ctx j rest dl :
  0 < perPeerLimit dl -> tokens [] 0 dl -> running dl ≡ₚ j :: rest ->
  exists dl', finishedDial done_ctx j (dl <| running := rest |>) = Ok dl' /\ tokens [] 0 dl' /\
    keeps done_ctx (dl <| running := rest |>) dl'.
Proof using Type.
  intros HP [H1 H2 H3 H4 H5 H6 H7] Hr. unfold finishedDial, freeFDToken.
  assert (forall p, active dl p = of_peer p (rest ++ waitingOnFd dl ++ [j])) as Hact.
  { intros p. rewrite H2, app_nil_r. apply of_peer_perm. rewrite Hr, (app_assoc rest), <- (Permutation_cons_append (rest ++ _)). done. }
  rewrite (on_fd_perm _ _ Hr), on_fd_cons in H1.
  assert (forall dl1, tokens [j] 0 dl1 -> keeps done_ctx (dl <| running := rest |>) dl1 ->
    exists dl', Ok (freePeerToken done_ctx j dl1) = Ok dl' /\ tokens [] 0 dl' /\ keeps done_ctx (dl <| running := rest |>) dl') as Hfree.
  { intros dl1 Ht Hk. eexists. split; [reflexivity|]. split.
    - apply freePeerToken_tokens; [lia|by rewrite (kp_peer _ _ _ Hk)|done].
    - eapply keeps_trans; [exact Hk|by eapply freePeerToken_keeps]. }
  destruct (shouldConsumeFd (dj_addr j)) eqn:Hfd.
  - set (dl0 := dl <| running := rest |> <| fdConsuming := fdConsuming (dl <| running := rest |>) - 1 |>).
    destruct (next_on_fd_ok done_ctx (S (waiting_jobs (dl <| running := rest |>))) [j] dl0) as (dl1 & -> & Ht1 & Hk1).
    + change (waiting_jobs dl0) with (waiting_jobs (dl <| running := rest |>)). lia.
    + done.
    + split; try done; cbn; [lia|]. intros Hne. specialize (H6 Hne). lia.
    + apply Hfree; [done|]. eapply keeps_trans; [|exact Hk1]. by split.
  - apply Hfree; [|by split]. by split.
Qed.

Lemma limited_tokens may_cancel FL PL dl :
  0 < PL -> limited may_cancel FL PL dl -> tokens [] 0 dl /\ fdLimit dl = FL /\ perPeerLimit dl = PL.
Proof using Type.
  intros HP Hr. apply (reachable_invariant _ (dial_step may_cancel)
    (fun dl => tokens [] 0 dl /\ fdLimit dl = FL /\ perPeerLimit dl = PL)) in Hr; [done| |].
  - intros s <-. split; [|done]. split; try done. intros p. change (0 <= PL). lia.
  - intros s s' (Ht & HF & HPL) Hst.
    destruct Hst as [j dl1|dl1 dl2 [done_ctx j rest dl3 dl4 _ Hrun Hfin]|p dl1].
    + split; [apply AddDialJob_tokens; [lia|done]|]. unfold AddDialJob, addCheckPeerLimit. case_match; [done|].
      destruct (addCheckFdLimit_jobs j (add_active (dj_peer j) 1 dl1)) as (-> & -> & _). done.
    + destruct (finishedDial_ok done_ctx j rest dl3) as (dl' & Hfin' & Ht' & Hk); [lia|done|done|].
      rewrite Hfin in Hfin'. injection Hfin' as <-. split; [done|]. by rewrite (kp_fd _ _ _ Hk), (kp_peer _ _ _ Hk).
    + split; [by apply clearAllPeerDials_tokens|done].
Qed.

Lemma dial_ends_jobs may_cancel dl dl' :
  0 < perPeerLimit dl -> tokens [] 0 dl -> dial_ends may_cancel dl dl' -> (jobs dl' < jobs dl)%nat /\ tokens [] 0 dl'.
Proof using Type.
  intros HP Ht Hend. destruct Hend as [done_ctx j rest dl dl' _ Hp Hfin].
  destruct (finishedDial_ok done_ctx j rest dl) as (dl2 & E & Ht2 & Hk); [done|done|done|].
  rewrite Hfin in E. injection E as <-. split; [|done]. pose proof (kp_jobs _ _ _ Hk) as Hj.
  unfold jobs at 2 in Hj. unfold jobs at 2. rewrite Hp.
  change (waiting_jobs (dl <| running := rest |>)) with (waiting_jobs dl) in Hj. cbn [length].
  change (running (dl <| running := rest |>)) with rest in Hj. lia.
Qed.

(** Something runs while something waits. *)
Lemma waits_runs dl :
  0 < fdLimit dl -> 0 < perPeerLimit dl -> tokens [] 0 dl ->
  waitingOnFd dl <> [] \/ waitingOnPeerLimit dl <> ∅ -> running dl <> [].
Proof using Type.
  intros HF HP Ht Hw He. assert (waitingOnFd dl = []) as Hfd.
  { destruct (waitingOnFd dl) eqn:E; [done|]. pose proof (tk_wait _ _ _ Ht ltac:(by rewrite E)) as Hle.
    rewrite (tk_fd _ _ _ Ht), He in Hle. change (on_fd []) with 0 in Hle. lia. }
  destruct Hw as [?|Hw]; [done|]. apply map_choose in Hw as (p & l & Hl).
  destruct (tk_full _ _ _ Ht p l Hl) as (_ & Ha & _). rewrite (tk_active _ _ _ Ht p), He, Hfd in Ha.
  change (of_peer p ([] ++ [] ++ [])) with 0 in Ha. lia.
Qed.

(** C15: In every run, whatever is cancelled and whenever: the descriptors and the
    dials per peer that are counted are exactly those of the jobs that run (or
    have their peer's token and wait for a descriptor); no peer has more dials
    than its limit; a job waits only while its limit is used up, so some dial is
    running.  A job handed to the limiter runs or waits in one of its lists, and
    all the others stay; when a dial ends the limiter returns and forgets no job
    but cancelled ones; and clearing a peer's dials forgets exactly the jobs that
    wait for a token of that peer, cancelled or not. *)
Theorem dial_limiter_exact FL PL dl :
  0 < FL -> 0 < PL -> limited true FL PL dl ->
  fdConsuming dl = on_fd (running dl) /\
  (forall p, active dl p = of_peer p (running dl ++ waitingOnFd dl) /\ of_peer p (running dl) <= PL) /\
  (waitingOnFd dl <> [] -> FL <= on_fd (running dl)) /\
  (forall p l, waitingOnPeerLimit dl !! p = Some l -> l <> [] /\ active dl p = PL) /\
  (waitingOnFd dl <> [] \/ waitingOnPeerLimit dl <> ∅ -> running dl <> []) /\
  (forall j, known (AddDialJob j dl) j /\ forall i, known dl i -> known (AddDialJob j dl) i) /\
  (forall done_ctx j rest, running dl ≡ₚ j :: rest ->
    exists dl', finishedDial done_ctx j (dl <| running := rest |>) = Ok dl' /\
      forall i, cancelled done_ctx i = false -> known (dl <| running := rest |>) i -> known dl' i) /\
  (forall p, let dl' := clearAllPeerDials p dl in
    running dl' = running dl /\ waitingOnFd dl' = waitingOnFd dl /\ waitingOnPeerLimit dl' !! p = None /\
    forall i, known dl i <-> known dl' i \/ exists l, waitingOnPeerLimit dl !! p = Some l /\ i ∈ l).
Proof using Type.
  intros HF HP Hr. destruct (limited_tokens _ _ _ _ HP Hr) as (Ht & HFL & HPL).
  split; [by apply Ht|]. split; [|split; [|split; [|split; [|split; [|split]]]]].
  - intros p. pose proof (tk_active _ _ _ Ht p) as Ha. rewrite app_nil_r in Ha. split; [done|].
    pose proof (tk_limit _ _ _ Ht p) as Hl. rewrite Ha, of_peer_app in Hl. unfold of_peer in *. lia.
  - intros Hw. rewrite <- (tk_fd _ _ _ Ht). pose proof (tk_wait _ _ _ Ht Hw). lia.
  - intros p l Hl. destruct (tk_full _ _ _ Ht p l Hl) as (? & ? & _). by rewrite <- HPL.
  - apply waits_runs; [lia|lia|done].
  - intros j. apply AddDialJob_known.
  - intros done_ctx j rest Hj. destruct (finishedDial_ok done_ctx j rest dl) as (dl' & E & _ & Hk); [lia|done|done|].
    exists dl'. split; [done|]. apply Hk.
  - intros p. cbv zeta. split_and!; [done|done|apply lookup_delete_eq|apply clearAllPeerDials_known].
Qed.

(** When dials end and no new ones are asked for, every run ends with no dial
    running and no job waiting. *)
Theorem dial_limiter_drains FL PL dl :
  0 < FL -> 0 < PL -> limited true FL PL dl ->
  inevitable (dial_ends true) (fun dl => running dl = [] /\ waitingOnFd dl = [] /\ waitingOnPeerLimit dl = ∅) dl.
Proof using Type.
  intros HF HP Hr. remember (jobs dl) as n eqn:Hn. revert dl Hr Hn.
  induction (lt_wf n) as [n _ IH]. intros dl Hr ->. destruct (limited_tokens _ _ _ _ HP Hr) as (Ht & HFL & HPL).
  destruct (running dl) as [|j rest] eqn:Hrun.
  - apply inev_now. split_and!; [done| |].
    + destruct (decide (waitingOnFd dl = [])) as [|Hne]; [done|]. exfalso. apply (waits_runs dl); [lia|lia|done|by left|done].
    + destruct (decide (waitingOnPeerLimit dl = ∅)) as [|Hne]; [done|]. exfalso. apply (waits_runs dl); [lia|lia|done|by right|done].
  - apply inev_later.
    + destruct (finishedDial_ok (fun _ => false) j rest dl) as (dl' & E & _); [lia|done|by rewrite Hrun|].
      exists dl'. eapply de_end; [done| |exact E]. by rewrite Hrun.
    + intros dl' Hend. assert (0 < perPeerLimit dl) as HP' by lia.
      destruct (dial_ends_jobs _ _ _ HP' Ht Hend) as [Hlt _]. eapply IH; [|eapply reach_step; [exact Hr|]|reflexivity].
      * exact Hlt.
      * by apply ds_end.
Qed.

Lemma addCheckFdLimit_fd j dl :
  fdConsuming dl <= fdLimit dl -> fdConsuming (addCheckFdLimit j dl) <= fdLimit (addCheckFdLimit j dl).
Proof using Type.
  intros Hf. unfold addCheckFdLimit. destruct (shouldConsumeFd _); [|done]. destruct (Z.leb_spec (fdLimit dl) (fdConsuming dl)); cbn; lia.
Qed.

Lemma freePeerToken_fd done_ctx j dl :
  fdConsuming dl <= fdLimit dl -> fdConsuming (freePeerToken done_ctx j dl) <= fdLimit (freePeerToken done_ctx j dl).
Proof using Type.
  intros Hf. unfold freePeerToken. set (dl1 := if _ =? 0 then _ else _).
  assert (fdConsuming dl1 <= fdLimit dl1) as Hf1 by (unfold dl1; by destruct (_ =? 0)). clearbody dl1. clear Hf.
  generalize (default [] (waitingOnPeerLimit dl1 !! dj_peer j)) as l. intros l. revert dl1 Hf1.
  induction l as [|next rest IH]; intros dl1 Hf1; cbn [next_of_peer]; [done|].
  destruct (cancelled done_ctx next); [by apply IH|by apply addCheckFdLimit_fd].
Qed.

(** As long as no job is cancelled there are never more descriptors in use than
    the limit. *)
Theorem dial_fd_limit FL PL dl : 0 <= FL -> 0 < PL -> limited false FL PL dl -> on_fd (running dl) <= FL.
Proof using Type.
  intros HF HP Hr. pose proof (limited_tokens _ _ _ _ HP Hr) as (Ht & HFL & _). rewrite <- (tk_fd _ _ _ Ht), <- HFL. clear Ht HFL.
  apply (reachable_invariant _ (dial_step false) (fun dl => fdConsuming dl <= fdLimit dl)) in Hr; [done| |].
  - by intros s <-.
  - intros s s' Hf Hst. destruct Hst as [j dl1|dl1 dl2 Hend|p dl1]; [| |done].
    + unfold AddDialJob, addCheckPeerLimit. case_match; [done|]. by apply addCheckFdLimit_fd.
    + destruct Hend as [done_ctx j rest dl3 dl4 Hno _ Hfin]. unfold finishedDial, freeFDToken in Hfin.
      destruct (shouldConsumeFd (dj_addr j)).
      * cbn [next_on_fd] in Hfin. cbn [waitingOnFd set_field dialLimiter_eta] in Hfin.
        destruct (waitingOnFd _) as [|next l] eqn:Hw in Hfin.
        -- injection Hfin as <-. apply freePeerToken_fd. cbn. lia.
        -- unfold cancelled in Hfin. rewrite Hno in Hfin by done. injection Hfin as <-. apply freePeerToken_fd. cbn. lia.
      * injection Hfin as <-. by apply freePeerToken_fd.
Qed.
End limiter.

(** ** A limiter of one descriptor and one dial per peer *)

Definition toy_dial_addrs : DialAddrs := {|
  has_protocol name _ := bool_decide (name = "tcp"%string);
  before_circuit a := Some a;
|}.

Definition toy_add (j : dialJob) (dl : dialLimiter) : dialLimiter := @AddDialJob toy_dial_addrs j dl.
Definition toy_dial (p : string) (c : nat) : dialJob := mkDialJob "/ip4/1/tcp/1" p c.

(** Of four jobs the first runs, the second and the fourth wait for the
    descriptor, and the third for the second one's peer. *)
Definition four_dials : dialLimiter :=
  toy_add (toy_dial "R" 4) (toy_add (toy_dial "Q" 3) (toy_add (toy_dial "Q" 2) (toy_add (toy_dial "P" 1)
    (newDialLimiterWithParams 1 1)))).

Lemma four_dials_limited mc : @limited toy_dial_addrs mc 1 1 four_dials.
Proof. do 4 (eapply reach_step; [|apply ds_add]). by apply reach_init. Qed.

(** The second job is cancelled when the first one ends: its peer's token goes to
    the third, which takes the descriptor, and the loop goes on and gives the
    descriptor to the fourth as well: two dials with a limit of one. *)
Example cancelled_dial_exceeds_fd_limit :
  match @finishedDial toy_dial_addrs (Nat.eqb 2) (toy_dial "P" 1) (four_dials <| running := [] |>) with
  | Ok dl => running dl = [toy_dial "Q" 3; toy_dial "R" 4] /\ fdConsuming dl = 2 /\ fdLimit dl = 1
  | Panic => False
  end.
Proof. by vm_compute. Qed.

Lemma dial_limiter_exact_witness :
  running four_dials = [toy_dial "P" 1] /\ exists dl', @finishedDial toy_dial_addrs (Nat.eqb 2) (toy_dial "P" 1) (four_dials <| running := [] |>) = Ok dl' /\
    known dl' (toy_dial "Q" 3).
Proof.
  split; [by vm_compute|].
  destruct (@dial_limiter_exact toy_dial_addrs 1 1 four_dials ltac:(lia) ltac:(lia) (four_dials_limited true))
    as (_ & _ & _ & _ & _ & _ & Hend & _).
  destruct (Hend (Nat.eqb 2) (toy_dial "P" 1) [] ltac:(by vm_compute)) as (dl' & E & Hk).
  exists dl'. split; [exact E|]. apply Hk; [by vm_compute|]. right. right. exists "Q"%string, [toy_dial "Q" 3].
  split; [by vm_compute|by apply list_elem_of_singleton].
Defined.

Lemma dial_limiter_drains_witness :
  @inevitable dialLimiter (@dial_ends toy_dial_addrs true)
    (fun dl => running dl = [] /\ waitingOnFd dl = [] /\ waitingOnPeerLimit dl = ∅) four_dials.
Proof. exact (@dial_limiter_drains toy_dial_addrs 1 1 four_dials ltac:(lia) ltac:(lia) (four_dials_limited true)). Defined.

Lemma dial_fd_limit_witness : @on_fd toy_dial_addrs (running four_dials) = 1 /\ @on_fd toy_dial_addrs (running four_dials) <= 1.
Proof.
  split; [by vm_compute|]. exact (@dial_fd_limit toy_dial_addrs 1 1 four_dials ltac:(lia) ltac:(lia) (four_dials_limited false)).
Defined.

(** * Black holes

    Counters are Go ints that count dials and stay far below their bounds.  The
    metrics are left out. *)

Inductive blackHoleState := blackHoleStateProbing | blackHoleStateAllowed | blackHoleStateBlocked.
#[export] Instance blackHoleState_eq_dec : EqDecision blackHoleState.
Proof. solve_decision. Defined.

Record BlackHoleSuccessCounter := mkCounter {
  bh_N : Z;
  MinSuccesses : Z;
  requests : Z;
  dialResults : list bool;
  successes : Z;
  bh_state : blackHoleState;
}.
#[export] Instance counter_eta : Eta BlackHoleSuccessCounter := fun b => mkCounter
  (bh_N b) (MinSuccesses b) (requests b) (dialResults b) (successes b) (bh_state b).

(** [&BlackHoleSuccessCounter{N: n, MinSuccesses: m}]. *)
Definition new_counter (n m : Z) : BlackHoleSuccessCounter := mkCounter n m 0 [] 0 blackHoleStateProbing.

Definition updateState (b : BlackHoleSuccessCounter) : BlackHoleSuccessCounter :=
  b <| bh_state :=
    if Z.of_nat (length (dialResults b)) <? bh_N b then blackHoleStateProbing
    else if MinSuccesses b <=? successes b then blackHoleStateAllowed
    else blackHoleStateBlocked |>.

Definition counter_reset (b : BlackHoleSuccessCounter) : BlackHoleSuccessCounter :=
  updateState (b <| successes := 0 |> <| dialResults := [] |> <| requests := 0 |>).

Definition counter_RecordResult (success : bool) (b : BlackHoleSuccessCounter) : BlackHoleSuccessCounter :=
  if bool_decide (bh_state b = blackHoleStateBlocked) && success then counter_reset b
  else
    let b := if success then b <| successes := successes b + 1 |> else b in
    let b := b <| dialResults := dialResults b ++ [success] |> in
    let b :=
      if bh_N b <? Z.of_nat (length (dialResults b)) then
        match dialResults b with
        | oldest :: rest => (if oldest then b <| successes := successes b - 1 |> else b) <| dialResults := rest |>
        | [] => b
        end
      else b in
    updateState b.

(** Taking the remainder by [N] panics when it is 0. *)
Definition HandleRequest : M BlackHoleSuccessCounter blackHoleState :=
  modify (fun b => b <| requests := requests b + 1 |>) ;;
  b <- get ;;
  if bool_decide (bh_state b = blackHoleStateAllowed) then ret blackHoleStateAllowed
  else if bool_decide (bh_state b = blackHoleStateProbing) then ret blackHoleStateProbing
  else if bh_N b =? 0 then panic
  else if Z.rem (requests b) (bh_N b) =? 0 then ret blackHoleStateProbing
  else ret blackHoleStateBlocked.

(** What is known of an address, and [ma.FilterAddrs], which asks the filter about
    each address; the filter here keeps a list. *)
Class BlackHoleAddrs := {
  IsPublicAddr : string -> bool;
  isProtocolAddr : string -> string -> bool;
  FilterAddrs_with : (string -> list string -> bool * list string) -> list string -> list string -> list string * list string;
}.

(** It asks about each address once, in order, and gives back those that pass. *)
Class BlackHoleAddrsLaws (B : BlackHoleAddrs) := {
  filter_with_nil f acc : FilterAddrs_with f [] acc = ([], acc);
  filter_with_cons f a l acc : FilterAddrs_with f (a :: l) acc =
    let '(kept, acc') := FilterAddrs_with f l (f a acc).2 in ((if (f a acc).1 then [a] else []) ++ kept, acc');
}.

Record blackHoleDetector := mkDetector {
  bhd_udp : option BlackHoleSuccessCounter;
  bhd_ipv6 : option BlackHoleSuccessCounter;
  readOnly : bool;
}.
#[export] Instance detector_eta : Eta blackHoleDetector := fun d => mkDetector (bhd_udp d) (bhd_ipv6 d) (readOnly d).

(** For a counter, if there is one. *)
Definition getFilterState (readOnly has : bool) (f : option BlackHoleSuccessCounter) :
    outcome (blackHoleState * option BlackHoleSuccessCounter) :=
  match f with
  | Some b =>
      if negb has then Ok (blackHoleStateAllowed, f)
      else if readOnly then
        Ok (if bool_decide (bh_state b <> blackHoleStateAllowed) then blackHoleStateBlocked else blackHoleStateAllowed, f)
      else match HandleRequest b with Ok (r, b') => Ok (r, Some b') | Panic => Panic end
  | None => Ok (blackHoleStateAllowed, f)
  end.

Section detector.
Context `{B : BlackHoleAddrs}.

(** The filter of [FilterAddrs], with the black-holed addresses so far. *)
Definition hole_filter (udpRes ipv6Res : blackHoleState) (a : string) (blackHoled : list string) : bool * list string :=
  if negb (IsPublicAddr a) then (true, blackHoled)
  else if bool_decide (udpRes = blackHoleStateProbing) && isProtocolAddr a "udp" then (true, blackHoled)
  else if bool_decide (ipv6Res = blackHoleStateProbing) && isProtocolAddr a "ip6" then (true, blackHoled)
  else if bool_decide (udpRes = blackHoleStateBlocked) && isProtocolAddr a "udp" then (false, blackHoled ++ [a])
  else if bool_decide (ipv6Res = blackHoleStateBlocked) && isProtocolAddr a "ip6" then (false, blackHoled ++ [a])
  else (true, blackHoled).

Definition hole_FilterAddrs (addrs : list string) : M blackHoleDetector (list string * list string) :=
  d <- get ;;
  let hasUDP := existsb (fun a => IsPublicAddr a && isProtocolAddr a "udp") addrs in
  let hasIPv6 := existsb (fun a => IsPublicAddr a && isProtocolAddr a "ip6") addrs in
  '(udpRes, udp) <- lift (getFilterState (readOnly d) hasUDP (bhd_udp d)) ;;
  '(ipv6Res, ipv6) <- lift (getFilterState (readOnly d) hasIPv6 (bhd_ipv6 d)) ;;
  modify (fun d => d <| bhd_udp := udp |> <| bhd_ipv6 := ipv6 |>) ;;
  ret (FilterAddrs_with (hole_filter udpRes ipv6Res) addrs []).

Definition record_on (has success : bool) (f : option BlackHoleSuccessCounter) : option BlackHoleSuccessCounter :=
  if has then counter_RecordResult success <$> f else f.

Definition hole_RecordResult (addr : string) (success : bool) (d : blackHoleDetector) : blackHoleDetector :=
  if readOnly d || negb (IsPublicAddr addr) then d
  else d <| bhd_udp := record_on (isProtocolAddr addr "udp") success (bhd_udp d) |>
         <| bhd_ipv6 := record_on (isProtocolAddr addr "ip6") success (bhd_ipv6 d) |>.
End detector.

(** ** What the detector decides *)

(** The results since the last success in the blocked state, at most [N]. *)
Definition successes_in (w : list bool) : Z := Z.of_nat (length (filter (fun b => b = true) w)).
Definition hole_state (N m : Z) (w : list bool) : blackHoleState :=
  if Z.of_nat (length w) <? N then blackHoleStateProbing
  else if m <=? successes_in w then blackHoleStateAllowed
  else blackHoleStateBlocked.
Definition window_record (N m : Z) (w : list bool) (success : bool) : list bool :=
  if bool_decide (hole_state N m w = blackHoleStateBlocked) && success then []
  else if N <? Z.of_nat (length (w ++ [success])) then tail (w ++ [success]) else w ++ [success].
Definition result_window (N m : Z) (results : list bool) : list bool := foldl (window_record N m) [] results.

(** Results recorded ([Some]) and requests handled ([None]), with the answers. *)
Fixpoint counter_run (evs : list (option bool)) (b : BlackHoleSuccessCounter) : outcome (list blackHoleState * BlackHoleSuccessCounter) :=
  match evs with
  | [] => Ok ([], b)
  | Some success :: evs => counter_run evs (counter_RecordResult success b)
  | None :: evs =>
      match HandleRequest b with
      | Ok (r, b) => match counter_run evs b with Ok (rs, b) => Ok (r :: rs, b) | Panic => Panic end
      | Panic => Panic
      end
  end.

(** What [info] tells of the next probe. *)
Definition nextProbeAfter (b : BlackHoleSuccessCounter) : Z :=
  if bool_decide (bh_state b = blackHoleStateBlocked) then bh_N b - Z.rem (requests b) (bh_N b) else 0.

Record counter_ok (N m : Z) (w : list bool) (b : BlackHoleSuccessCounter) : Prop := {
  ck_N : bh_N b = N;
  ck_m : MinSuccesses b = m;
  ck_results : dialResults b = w;
  ck_successes : successes b = successes_in w;
  ck_state : bh_state b = hole_state N m w;
  ck_requests : 0 <= requests b;
}.

Lemma successes_in_app w w' : successes_in (w ++ w') = successes_in w + successes_in w'.
Proof. unfold successes_in. rewrite filter_app, length_app. lia. Qed.

Lemma RecordResult_ok N m w b s :
  0 < N -> counter_ok N m w b -> counter_ok N m (window_record N m w s) (counter_RecordResult s b).
Proof.
  intros HN [H1 H2 H3 H4 H5 H6]. unfold counter_RecordResult, window_record. rewrite H5.
  assert (successes_in [s] = if s then 1 else 0) as Hs1 by by destruct s.
  destruct (bool_decide (hole_state N m w = blackHoleStateBlocked) && s).
  - split; cbn; try done. unfold hole_state. cbn. by rewrite H1, H2.
  - set (b1 := if s then b <| successes := successes b + 1 |> else b).
    assert (bh_N b1 = N /\ MinSuccesses b1 = m /\ dialResults b1 = w /\ successes b1 = successes_in (w ++ [s]) /\ 0 <= requests b1)
      as (E1 & E2 & E3 & E4 & E5).
    { rewrite successes_in_app, Hs1. unfold b1. destruct s; cbn; split_and!; try done; lia. }
    clearbody b1. cbn [bh_N dialResults set_field counter_eta]. rewrite E1, E3.
    destruct (N <? Z.of_nat (length (w ++ [s]))) eqn:Hlen.
    + destruct (w ++ [s]) as [|o rest] eqn:Hw; [by destruct w|]. cbn [tail].
      assert (successes_in (o :: rest) = (if o then 1 else 0) + successes_in rest) as Ho.
      { change (o :: rest) with ([o] ++ rest). rewrite successes_in_app. by destruct o. }
      set (b2 := if o then b1 <| dialResults := o :: rest |> <| successes := successes b1 - 1 |> else b1 <| dialResults := o :: rest |>).
      assert (bh_N b2 = N /\ MinSuccesses b2 = m /\ successes b2 = successes_in rest /\ 0 <= requests b2) as (F1 & F2 & F3 & F4)
        by (unfold b2; destruct o; cbn; split_and!; try done; lia).
      change (counter_ok N m rest (updateState (b2 <| dialResults := rest |>))).
      clearbody b2. unfold hole_state. split; cbn; rewrite ?F1, ?F2, ?F3; done.
    + unfold hole_state. split; cbn; rewrite ?E1, ?E2, ?E4, ?E3; done.
Qed.

Lemma HandleRequest_ok N m w b :
  0 < N -> counter_ok N m w b ->
  exists r b', HandleRequest b = Ok (r, b') /\ b' = b <| requests := requests b + 1 |> /\ counter_ok N m w b' /\
    r = (if bool_decide (hole_state N m w = blackHoleStateBlocked)
         then if requests b' mod N =? 0 then blackHoleStateProbing else blackHoleStateBlocked
         else hole_state N m w).
Proof.
  intros HN Hok. destruct Hok as [H1 H2 H3 H4 H5 H6]. unfold HandleRequest, modify, get, bind. cbn.
  rewrite H5, H1. rewrite Z.rem_mod_nonneg by lia. destruct (Z.eqb_spec N 0); [lia|].
  destruct (hole_state N m w) eqn:Hst; cbn; try (eexists _, _; split; [reflexivity|]; split; [done|]; split; [by split; cbn; rewrite ?Hst; try done; lia|done]).
  destruct ((requests b + 1) mod N =? 0) eqn:Hm; eexists _, _; (split; [reflexivity|]); (split; [done|]);
    (split; [by split; cbn; rewrite ?Hst; try done; lia|]); cbn; by rewrite Hm.
Qed.

(** The request that finds the counter a multiple of [N] is the next to be let
    through. *)
Lemma probes_next N m w b d :
  0 < N -> counter_ok N m w b -> hole_state N m w = blackHoleStateBlocked -> N - requests b mod N = Z.of_nat (S d) ->
  exists b', counter_run (replicate (S d) None) b = Ok (replicate d blackHoleStateBlocked ++ [blackHoleStateProbing], b').
Proof.
  intros HN. revert b. induction d as [|d IH]; intros b Hok Hst Hd;
    destruct (HandleRequest_ok N m w b HN Hok) as (r & b' & E & Hb' & Hok' & Hr);
    rewrite bool_decide_eq_true_2 in Hr by done;
    assert (requests b' = requests b + 1) as Hreq by (by rewrite Hb');
    pose proof (Z.mod_pos_bound (requests b) N HN) as Hb;
    pose proof (Z.div_mod (requests b) N ltac:(lia)) as Hdm; cbn [replicate counter_run app]; rewrite E.
  - exists b'. rewrite Hr, Hreq, (Z.div_mod (requests b) N) by lia.
    replace (N * (requests b / N) + requests b mod N + 1) with ((requests b / N + 1) * N) by lia. by rewrite Z_mod_mult.
  - assert (requests b' mod N = requests b mod N + 1) as Hmod.
    { rewrite Hreq. symmetry. apply (Z.mod_unique_pos _ _ (requests b / N)); lia. }
    destruct (IH b' Hok' Hst ltac:(lia)) as (b2 & E2). cbn [replicate counter_run] in E2. rewrite E2. exists b2.
    rewrite Hr, Hmod. destruct (Z.eqb_spec (requests b mod N + 1) 0); [lia|done].
Qed.

(** Whatever results and requests come: nothing panics; the state is that of the
    last [N] results since the last success while blocked - probing while there
    are fewer, blocked when too few of them are successes -; and while it is
    blocked one request in [N] is let through, the one announced as the next. *)
Theorem black_hole_exact N m evs :
  0 < N ->
  exists rs b, counter_run evs (new_counter N m) = Ok (rs, b) /\
    let w := result_window N m (omap id evs) in
    dialResults b = w /\ bh_state b = hole_state N m w /\ Z.of_nat (length w) <= N /\
    (bh_state b = blackHoleStateBlocked ->
       1 <= nextProbeAfter b <= N /\
       exists b', counter_run (replicate (Z.to_nat (nextProbeAfter b)) None) b =
         Ok (replicate (Z.to_nat (nextProbeAfter b - 1)) blackHoleStateBlocked ++ [blackHoleStateProbing], b')).
Proof.
  intros HN. unfold result_window.
  assert (forall w b, counter_ok N m w b -> Z.of_nat (length w) <= N -> exists rs b', counter_run evs b = Ok (rs, b') /\
    counter_ok N m (foldl (window_record N m) w (omap id evs)) b' /\
    Z.of_nat (length (foldl (window_record N m) w (omap id evs))) <= N) as Hrun.
  { induction evs as [|[s|] evs IH]; intros w b Hok Hw; cbn [counter_run omap list_omap id foldl].
    - by exists [], b.
    - apply IH; [by apply RecordResult_ok|]. unfold window_record. destruct (_ && s); [cbn; lia|].
      destruct (Z.ltb_spec N (Z.of_nat (length (w ++ [s])))); [|lia]. rewrite length_app in *. destruct w; cbn in *; rewrite ?length_app in *; cbn in *; lia.
    - destruct (HandleRequest_ok N m w b HN Hok) as (r & b1 & -> & _ & Hok1 & _).
      destruct (IH w b1 Hok1 Hw) as (rs & b' & -> & H1 & H2). by exists (r :: rs), b'. }
  destruct (Hrun [] (new_counter N m)) as (rs & b & E & Hok & Hlen).
  { split; try done. unfold hole_state. change (Z.of_nat (length [])) with 0. cbn [new_counter bh_state]. destruct (Z.ltb_spec 0 N); [done|lia]. }
  { cbn. lia. }
  exists rs, b. split; [done|]. cbn. split_and!; [by apply Hok|by apply Hok|done|].
  intros Hst. unfold nextProbeAfter. rewrite bool_decide_eq_true_2 by done. pose proof (ck_requests _ _ _ _ Hok).
  rewrite (ck_N _ _ _ _ Hok), Z.rem_mod_nonneg by lia. pose proof (Z.mod_pos_bound (requests b) N HN).
  split; [lia|]. set (n := N - requests b mod N) in *.
  destruct (probes_next N m _ b (Z.to_nat (n - 1)) HN Hok) as (b' & E'); [rewrite <- (ck_state _ _ _ _ Hok); done|lia|].
  exists b'. by replace (Z.to_nat n) with (S (Z.to_nat (n - 1))) by lia.
Qed.

(** Two failures block a counter of two; the second request after is a probe, and
    a success starts over. *)
Lemma black_hole_exact_witness :
  0 < 2 /\ exists rs b, counter_run [Some false; Some false; None] (new_counter 2 1) = Ok (rs, b) /\ bh_state b = blackHoleStateBlocked.
Proof.
  split; [lia|]. destruct (black_hole_exact 2 1 [Some false; Some false; None] ltac:(lia)) as (rs & b & E & _ & Hst & _).
  exists rs, b. split; [exact E|]. rewrite Hst. by vm_compute.
Defined.

(** A counter of none divides by zero once it is blocked. *)
Example empty_window_panics : counter_run [Some false; None] (new_counter 0 1) = Panic.
Proof. by vm_compute. Qed.

Section filtering.
Context `{B : BlackHoleAddrs, !BlackHoleAddrsLaws B}.

Definition holed (udpRes ipv6Res : blackHoleState) (a : string) : bool :=
  IsPublicAddr a &&
  (bool_decide (udpRes = blackHoleStateBlocked) && isProtocolAddr a "udp" &&
     negb (bool_decide (ipv6Res = blackHoleStateProbing) && isProtocolAddr a "ip6")
   || bool_decide (ipv6Res = blackHoleStateBlocked) && isProtocolAddr a "ip6" &&
     negb (bool_decide (udpRes = blackHoleStateProbing) && isProtocolAddr a "udp")).

Lemma hole_filter_spec u v a acc :
  hole_filter u v a acc = if holed u v a then (false, acc ++ [a]) else (true, acc).
Proof using Type.
  unfold hole_filter, holed. by destruct (IsPublicAddr a), u, v, (isProtocolAddr a "udp"), (isProtocolAddr a "ip6").
Qed.

(** The addresses are split, in order; only public addresses of a blocked kind
    that no other kind is probing are dropped; and in read-only mode nothing
    changes. *)
Theorem hole_FilterAddrs_exact addrs d :
  (forall b, bhd_udp d = Some b \/ bhd_ipv6 d = Some b -> 0 < bh_N b /\ 0 <= requests b) ->
  exists u v d',
    hole_FilterAddrs addrs d = Ok ((List.filter (fun a => negb (holed u v a)) addrs, List.filter (holed u v) addrs), d') /\
    (readOnly d = true -> d' = d) /\
    (u = blackHoleStateBlocked -> exists b, bhd_udp d = Some b /\ bh_state b <> blackHoleStateAllowed) /\
    (v = blackHoleStateBlocked -> exists b, bhd_ipv6 d = Some b /\ bh_state b <> blackHoleStateAllowed).
Proof using BlackHoleAddrsLaws0.
  intros Hpos.
  assert (forall has f, (forall b, f = Some b -> 0 < bh_N b /\ 0 <= requests b) ->
    exists r f', getFilterState (readOnly d) has f = Ok (r, f') /\ (readOnly d = true -> f' = f) /\
      (r = blackHoleStateBlocked -> exists b, f = Some b /\ bh_state b <> blackHoleStateAllowed)) as Hstate.
  { intros has [b|] Hf; cbn; [|by eexists _, _]. destruct has; cbn; [|by eexists _, _].
    destruct (readOnly d).
    - eexists _, _. split; [reflexivity|split; [done|]]. case_bool_decide; [|done]. intros _. by exists b.
    - destruct (Hf b eq_refl) as [HN Hr]. unfold HandleRequest, modify, get, bind. cbn.
      destruct (bh_state b) eqn:Hst; cbn; [by eexists _, _|by eexists _, _|].
      destruct (Z.eqb_spec (bh_N b) 0); [lia|].
      destruct (_ =? 0); eexists _, _; (split; [reflexivity|split; [done|]]); [done|]. intros _. exists b. by rewrite Hst. }
  destruct (Hstate (existsb (fun a => IsPublicAddr a && isProtocolAddr a "udp") addrs) (bhd_udp d)) as (u & f & Eu & Hu1 & Hu2);
    [intros b Hb; apply Hpos; by left|].
  destruct (Hstate (existsb (fun a => IsPublicAddr a && isProtocolAddr a "ip6") addrs) (bhd_ipv6 d)) as (v & g & Ev & Hv1 & Hv2);
    [intros b Hb; apply Hpos; by right|].
  exists u, v, (d <| bhd_udp := f |> <| bhd_ipv6 := g |>). split_and!; [|intros Hro|done|done].
  - unfold hole_FilterAddrs, get, lift, modify, ret, bind. rewrite Eu. cbn beta iota. rewrite Ev. do 2 f_equal.
    assert (forall l acc, FilterAddrs_with (hole_filter u v) l acc =
      (List.filter (fun a => negb (holed u v a)) l, acc ++ List.filter (holed u v) l)) as Hl; [|apply (Hl addrs [])].
    induction l as [|a l IH]; intros acc; [by rewrite filter_with_nil, app_nil_r|].
    rewrite filter_with_cons, hole_filter_spec. cbn [List.filter].
    destruct (holed u v a); cbn [fst snd negb app]; rewrite IH; [by rewrite <- app_assoc|done].
  - rewrite Hu1, Hv1 by done. by destruct d.
Qed.
End filtering.
