(* ===== verification/CircuitRelay.v ===== *)
(** The limited relay of circuit v2:
    src/myvendor/go-libp2p/p2p/protocol/circuitv2/relay/constraints.go,
    resources.go and relay.go.

    The methods of the constraints run under the relay's mutex and are one step.
    [handleConnect] is a state machine ([request]): it begins a span, makes its
    checks, takes the mutex to admit the circuit, shakes hands with the other
    side, starts two goroutines, the last of which cleans up, and takes the mutex
    again for that; each of these is a step of its own, and so are the parts of
    [Close].  What the handshake gives is an argument; so are the answers of the
    resource manager (a span, and memory in it), the access list, and the address
    of a peer as an IP.  The messages to the peers and the tags of the connection
    manager are left out, the statuses are not. *)

From Stdlib Require Import Sorting.Sorted.
From stdpp Require Import gmap strings list.
From S2P Require Import Prelude GoLib.
#[local] Open Scope Z_scope.

Record RelayLimit := mkRelayLimit { limit_Duration : Z; limit_Data : Z }.

Record Resources := mkResources {
  Limit : option RelayLimit;
  ReservationTTL : Z;
  MaxReservations : Z;
  MaxCircuits : Z;
  BufferSize : Z;
  MaxReservationsPerPeer : Z;
  MaxReservationsPerIP : Z;
}.

Definition DefaultLimit : RelayLimit := mkRelayLimit (2 * minute) (Z.shiftl 1 17).
Definition DefaultResources : Resources := mkResources (Some DefaultLimit) (60 * minute) 128 16 2048 4 8.

(** ** Constraints on reservations *)

Definition validity : Z := 30 * minute.

Inductive reservation_error :=
  | errTooManyReservations | errNoIP | errTooManyReservationsForPeer | errTooManyReservationsForIP.

Record constraints := mkConstraints {
  total : list Z;
  peers : gmap string (list Z);
  ips : gmap string (list Z);
}.

Definition newConstraints : constraints := mkConstraints [] ∅ ∅.

(** The loop counts the leading entries that are not after [now]. *)
Fixpoint cleanup_index (l : list Z) (now : Z) : nat :=
  match l with
  | [] => 0
  | t :: l => if now <? t then 0 else S (cleanup_index l now)
  end.
Definition cleanupList (l : list Z) (now : Z) : list Z := drop (cleanup_index l now) l.

Definition constraints_cleanup (now : Z) (c : constraints) : constraints :=
  mkConstraints (cleanupList (total c) now) ((fun l => cleanupList l now) <$> peers c) ((fun l => cleanupList l now) <$> ips c).

Definition full (max : Z) (l : list Z) : bool := max <=? Z.of_nat (length l).

(** [ip] is the text of the peer's IP address. *)
Definition AddReservation (rc : Resources) (now : Z) (p : string) (ip : option string) (c : constraints) :
    option reservation_error * constraints :=
  let c := constraints_cleanup now c in
  if full (MaxReservations rc) (total c) then (Some errTooManyReservations, c)
  else
    match ip with
    | None => (Some errNoIP, c)
    | Some ip =>
        let peerReservations := default [] (peers c !! p) in
        if full (MaxReservationsPerPeer rc) peerReservations then (Some errTooManyReservationsForPeer, c)
        else
          let ipReservations := default [] (ips c !! ip) in
          if full (MaxReservationsPerIP rc) ipReservations then (Some errTooManyReservationsForIP, c)
          else
            let expiry := now + validity in
            (None, mkConstraints (total c ++ [expiry])
                     (<[p := peerReservations ++ [expiry]]> (peers c)) (<[ip := ipReservations ++ [expiry]]> (ips c)))
    end.

(** ** The relay *)

Inductive status :=
  | OK | RESERVATION_REFUSED | RESOURCE_LIMIT_EXCEEDED | PERMISSION_DENIED | CONNECTION_FAILED
  | NO_RESERVATION | MALFORMED_MESSAGE.
#[export] Instance status_eq_dec : EqDecision status.
Proof. solve_decision. Defined.

(** [spans]: those of the relay's scope that were begun and are not done;
    [scope_done]: the scope itself is. *)
Record Relay := mkRelay {
  rc : Resources;
  r_constraints : constraints;
  rsvp : gmap string Z;
  conns : gmap string Z;
  closed : bool;
  spans : Z;
  scope_done : bool;
}.
#[export] Instance Relay_eta : Eta Relay := fun r =>
  mkRelay (rc r) (r_constraints r) (rsvp r) (conns r) (closed r) (spans r) (scope_done r).

Definition new_relay (rc : Resources) : Relay := mkRelay rc newConstraints ∅ ∅ false 0 false.

(** [isRelay]: the peer's own connection goes through a relay; [allowed]: what the
    access list says, if there is one. *)
Definition handleReserve (now : Z) (p : string) (ip : option string) (isRelay allowed written : bool) (r : Relay) : status * Relay :=
  if isRelay then (PERMISSION_DENIED, r)
  else if negb allowed then (PERMISSION_DENIED, r)
  else if closed r then (PERMISSION_DENIED, r)
  else
    let '(err, c) := match rsvp r !! p with
      | Some _ => (None, r_constraints r)
      | None => AddReservation (rc r) now p ip (r_constraints r)
      end in
    let r := r <| r_constraints := c |> in
    match err with
    | Some _ => (RESERVATION_REFUSED, r)
    | None =>
        let expire := now + ReservationTTL (rc r) in
        let r := r <| rsvp := <[p := expire]> (rsvp r) |> in
        (if written then OK else CONNECTION_FAILED, r)
    end.

Definition conns_of (r : Relay) (p : string) : Z := default 0 (conns r !! p).
Definition addConn (p : string) (r : Relay) : Relay := r <| conns := <[p := conns_of r p + 1]> (conns r) |>.
Definition rmConn (p : string) (r : Relay) : Relay :=
  let n := conns_of r p - 1 in
  if 0 <? n then r <| conns := <[p := n]> (conns r) |> else r <| conns := delete p (conns r) |>.

Definition span_Done (r : Relay) : Relay := r <| spans := spans r - 1 |>.

(** [r.scope.BeginSpan()], which the resource manager may refuse ([span]) and does
    refuse when the scope is done. *)
Definition BeginSpan (span : bool) (r : Relay) : option Relay :=
  if span && negb (scope_done r) then Some (r <| spans := spans r + 1 |>) else None.

(** Where a CONNECT request is: it has its span; its checks are made; it is
    refused, and its span is still to be given back; its circuit is admitted and
    the handshake is under way; [n] goroutines copy; it is to be cleaned up; its
    span is given back and its connections are still to be. *)
Inductive request :=
  | rq_begun (src : string)
  | rq_checked (src dest : string)
  | rq_refused (s : status)
  | rq_admitted (src dest : string)
  | rq_relaying (src dest : string) (goroutines : Z)
  | rq_cleanup (src dest : string)
  | rq_removing (src dest : string).

(** The first statement of [handleConnect]; [None] when the request is over. *)
Definition connect_begin (span : bool) (src : string) (r : Relay) : option request * Relay :=
  match BeginSpan span r with
  | None => (None, r)
  | Some r => (Some (rq_begun src), r)
  end.

(** The checks before the mutex; [dest] is [None] when the message names no peer. *)
Definition connect_checks (memory isRelay : bool) (dest : option string) (allowed : bool) (src : string) : request :=
  if negb memory then rq_refused RESOURCE_LIMIT_EXCEEDED
  else if isRelay then rq_refused PERMISSION_DENIED
  else
    match dest with
    | None => rq_refused MALFORMED_MESSAGE
    | Some dest => if negb allowed then rq_refused PERMISSION_DENIED else rq_checked src dest
    end.

(** The critical section that admits a circuit. *)
Definition connect_admit (src dest : string) (r : Relay) : request * Relay :=
  match rsvp r !! dest with
  | None => (rq_refused NO_RESERVATION, r)
  | Some _ =>
      let srcConns := conns_of r src in
      if MaxCircuits (rc r) <=? srcConns then (rq_refused RESOURCE_LIMIT_EXCEEDED, r)
      else
        let destConns := conns_of r dest in
        if MaxCircuits (rc r) <=? destConns then (rq_refused RESOURCE_LIMIT_EXCEEDED, r)
        else (rq_admitted src dest, addConn dest (addConn src r))
  end.

(** How far the handshake with the other side comes: the first step that fails. *)
Inductive handshake_result :=
  | hs_no_stream | hs_no_service | hs_no_memory | hs_not_written | hs_not_read | hs_not_status | hs_refused
  | hs_no_answer | hs_done.

Definition handshake_status (h : handshake_result) : status :=
  match h with
  | hs_no_service | hs_no_memory => RESOURCE_LIMIT_EXCEEDED
  | hs_done => OK
  | _ => CONNECTION_FAILED
  end.

(** A circuit whose handshake fails is cleaned up; otherwise its two copying
    goroutines are started. *)
Definition connect_handshake (h : handshake_result) (src dest : string) : request :=
  match h with hs_done => rq_relaying src dest 2 | _ => rq_cleanup src dest end.

(** [done], which each goroutine calls when it ends: the last one cleans up. *)
Definition connect_done (src dest : string) (goroutines : Z) : request :=
  let goroutines := goroutines - 1 in
  if goroutines =? 0 then rq_cleanup src dest else rq_relaying src dest goroutines.

(** The critical section of [cleanup], after [span.Done()]. *)
Definition connect_remove (src dest : string) (r : Relay) : Relay := rmConn dest (rmConn src r).

Definition relay_gc (now : Z) (r : Relay) : Relay :=
  r <| rsvp := filter (fun e => closed r = false /\ now <= e.2) (rsvp r) |>
    <| conns := filter (fun e => e.2 <> 0) (conns r) |>.

Definition disconnected (connected : bool) (p : string) (r : Relay) : Relay :=
  if connected then r else r <| rsvp := delete p (rsvp r) |>.

(** [Close]: the critical section, whether it goes on, then [r.scope.Done()]; its
    last part is [relay_gc]. *)
Definition relay_Close (r : Relay) : Relay * bool :=
  if closed r then (r, false) else (r <| closed := true |>, true).
Definition close_scope (r : Relay) : Relay := r <| scope_done := true |>.

(** ** What the constraints promise *)

(** The reservations granted: when, to whom, from where. *)
Definition grant : Type := Z * string * string.
Definition expiries (P : grant -> bool) (log : list grant) : list Z := (fun e => e.1.1 + validity) <$> List.filter P log.
Definition of_ip (ip : string) (e : grant) : bool := bool_decide (e.2 = ip).
Definition of_grantee (p : string) (e : grant) : bool := bool_decide (e.1.2 = p).
(** How many of the last half hour. *)
Definition recent (P : grant -> bool) (now : Z) (log : list grant) : Z :=
  Z.of_nat (length (filter (fun t => now < t) (expiries P log))).

Definition spec_reserve (rc : Resources) (now : Z) (p : string) (ip : option string) (log : list grant) : option reservation_error :=
  if MaxReservations rc <=? recent (fun _ => true) now log then Some errTooManyReservations
  else
    match ip with
    | None => Some errNoIP
    | Some ip =>
        if MaxReservationsPerPeer rc <=? recent (of_grantee p) now log then Some errTooManyReservationsForPeer
        else if MaxReservationsPerIP rc <=? recent (of_ip ip) now log then Some errTooManyReservationsForIP
        else None
    end.

(** Calls at times that do not go back, with the grants so far. *)
Inductive constraints_step (rc : Resources) : constraints * list grant * Z -> constraints * list grant * Z -> Prop :=
  | cs_granted now p ip c c' log t :
      t <= now -> AddReservation rc now p (Some ip) c = (None, c') ->
      constraints_step rc (c, log, t) (c', log ++ [(now, p, ip)], now)
  | cs_refused now p ip c c' log t e :
      t <= now -> AddReservation rc now p ip c = (Some e, c') -> constraints_step rc (c, log, t) (c', log, now).

Definition constrained (rc : Resources) : constraints * list grant * Z -> Prop :=
  reachable (eq (newConstraints, [], 0)) (constraints_step rc).

(** A list in order holds what is left of another. *)
Record tracks (t : Z) (l F : list Z) : Prop := {
  tr_sorted : StronglySorted Z.le l;
  tr_bound : Forall (fun x => x <= t + validity) l;
  tr_same now : t <= now -> filter (fun x => now < x) l = filter (fun x => now < x) F;
}.

Lemma cleanupList_filter l now : StronglySorted Z.le l -> cleanupList l now = filter (fun x => now < x) l.
Proof.
  unfold cleanupList. induction 1 as [|x l Hl IH Hx]; [done|]. cbn [cleanup_index]. rewrite filter_cons.
  destruct (Z.ltb_spec now x) as [Hlt|Hge].
  - rewrite decide_True by done. cbn. f_equal. symmetry. apply filter_everything.
    rewrite Forall_forall in Hx. intros y Hy. specialize (Hx y Hy). lia.
  - rewrite decide_False by lia. cbn. done.
Qed.

Lemma StronglySorted_filter (P : Z -> Prop) `{!forall x, Decision (P x)} l : StronglySorted Z.le l -> StronglySorted Z.le (filter P l).
Proof.
  induction 1 as [|x l _ IH Hx]; [constructor|]. rewrite filter_cons. case_decide; [|done]. constructor; [done|].
  apply Forall_forall. intros y Hy. rewrite Forall_forall in Hx. apply list_elem_of_filter in Hy as [_ Hy]. by apply Hx.
Qed.

Lemma tracks_cleanup t now l F :
  tracks t l F -> t <= now -> cleanupList l now = filter (fun x => now < x) F /\ tracks now (cleanupList l now) F.
Proof.
  intros [Hs Hb Hf] Ht. rewrite cleanupList_filter by done. split; [by apply Hf|]. split.
  - by apply StronglySorted_filter.
  - apply Forall_forall. intros x Hx. apply list_elem_of_filter in Hx as [_ Hx]. rewrite Forall_forall in Hb.
    specialize (Hb x Hx). cbn in Hb. lia.
  - intros now' Ht'. rewrite <- Hf by lia.
    apply list_filter_filter_l. intros x ?. lia.
Qed.

Lemma tracks_add t l F : tracks t l F -> tracks t (l ++ [t + validity]) (F ++ [t + validity]).
Proof.
  intros [Hs Hb Hf]. split.
  - clear Hf. induction Hs as [|x l Hl IH Hx]; cbn; [by repeat constructor|]. apply Forall_cons in Hb as [Hbx Hb]. constructor.
    + by apply IH.
    + apply Forall_app. split; [done|]. by constructor.
  - apply Forall_app. split; [done|]. constructor; [lia|constructor].
  - intros now Hnow. by rewrite !filter_app, Hf.
Qed.

Record constraints_ok (c : constraints) (log : list grant) (t : Z) : Prop := {
  cok_total : tracks t (total c) (expiries (fun _ => true) log);
  cok_peers p : tracks t (default [] (peers c !! p)) (expiries (of_grantee p) log);
  cok_ips ip : tracks t (default [] (ips c !! ip)) (expiries (of_ip ip) log);
}.

Lemma tracks_nil t : tracks t [] [].
Proof. split; [constructor|constructor|done]. Qed.

Lemma cleanup_ok c log t now :
  constraints_ok c log t -> t <= now ->
  let c' := constraints_cleanup now c in
  constraints_ok c' log now /\ Z.of_nat (length (total c')) = recent (fun _ => true) now log /\
  (forall p, Z.of_nat (length (default [] (peers c' !! p))) = recent (of_grantee p) now log) /\
  forall ip, Z.of_nat (length (default [] (ips c' !! ip))) = recent (of_ip ip) now log.
Proof.
  intros [H1 H2 H3] Ht. unfold constraints_cleanup, recent. cbn.
  assert (forall (m : gmap string (list Z)) k, default [] (((fun l => cleanupList l now) <$> m) !! k) = cleanupList (default [] (m !! k)) now)
    as Hm by (intros m k; rewrite lookup_fmap; by destruct (m !! k)).
  split_and!; [split| | |]; cbn.
  - by apply (tracks_cleanup t).
  - intros p. rewrite Hm. by apply (tracks_cleanup t).
  - intros ip. rewrite Hm. by apply (tracks_cleanup t).
  - by rewrite (proj1 (tracks_cleanup t now _ _ H1 Ht)).
  - intros p. by rewrite Hm, (proj1 (tracks_cleanup t now _ _ (H2 p) Ht)).
  - intros ip. by rewrite Hm, (proj1 (tracks_cleanup t now _ _ (H3 ip) Ht)).
Qed.

Lemma expiries_snoc P log e : expiries P (log ++ [e]) = expiries P log ++ (if P e then [e.1.1 + validity] else []).
Proof. unfold expiries. rewrite List.filter_app, fmap_app. cbn. by destruct (P e). Qed.

Lemma AddReservation_ok rc now p ip c log t :
  constraints_ok c log t -> t <= now ->
  let '(err, c') := AddReservation rc now p ip c in
  err = spec_reserve rc now p ip log /\
  constraints_ok c' (match err, ip with None, Some ip => log ++ [(now, p, ip)] | _, _ => log end) now.
Proof.
  intros Hok Ht. destruct (cleanup_ok c log t now Hok Ht) as (Hok' & Ht' & Hp & Hi).
  unfold AddReservation, spec_reserve, full. set (c1 := constraints_cleanup now c) in *. rewrite Ht'.
  destruct (MaxReservations rc <=? _); [done|]. destruct ip as [ip|]; [|done]. rewrite Hp.
  destruct (MaxReservationsPerPeer rc <=? _); [done|]. rewrite Hi. destruct (MaxReservationsPerIP rc <=? _); [done|].
  split; [done|]. destruct Hok' as [H1 H2 H3]. split; cbn.
  - rewrite expiries_snoc. by apply tracks_add.
  - intros q. rewrite expiries_snoc. unfold of_grantee at 2. cbn. destruct (decide (p = q)) as [<-|Hq].
    + rewrite lookup_insert_eq, bool_decide_eq_true_2 by done. by apply tracks_add.
    + rewrite lookup_insert_ne, bool_decide_eq_false_2 by done. by rewrite app_nil_r.
  - intros q. rewrite expiries_snoc. unfold of_ip at 2. cbn. destruct (decide (ip = q)) as [<-|Hq].
    + rewrite lookup_insert_eq, bool_decide_eq_true_2 by done. by apply tracks_add.
    + rewrite lookup_insert_ne, bool_decide_eq_false_2 by done. by rewrite app_nil_r.
Qed.

Definition history_ok (rc : Resources) (st : constraints * list grant * Z) : Prop :=
  let '(c, log, t) := st in
  constraints_ok c log t /\ recent (fun _ => true) t log <= MaxReservations rc /\
  (forall p, recent (of_grantee p) t log <= MaxReservationsPerPeer rc) /\
  (forall ip, recent (of_ip ip) t log <= MaxReservationsPerIP rc).

Lemma recent_later P t now log : t <= now -> recent P now log <= recent P t log.
Proof.
  intros Ht. unfold recent. apply inj_le, sublist_length. rewrite <- (list_filter_filter_l _ (fun x => t < x)) by (intros; lia).
  apply sublist_filter.
Qed.

Lemma recent_snoc P now log p ip :
  recent P now (log ++ [(now, p, ip)]) = recent P now log + (if P (now, p, ip) then 1 else 0).
Proof.
  unfold recent. rewrite expiries_snoc, filter_app, length_app. destruct (P _); cbn [app filter list_filter].
  - rewrite decide_True by (cbn; unfold validity, minute, second; lia). cbn. lia.
  - cbn. lia.
Qed.

Lemma constrained_ok rc st :
  0 <= MaxReservations rc -> 0 <= MaxReservationsPerPeer rc -> 0 <= MaxReservationsPerIP rc ->
  constrained rc st -> history_ok rc st.
Proof.
  intros HM HP HI. apply reachable_invariant.
  - intros s <-. split_and!; try done. split; intros; apply tracks_nil.
  - intros s s' Hok Hst. destruct Hst as [now p ip c c' log t Ht E|now p ip c c' log t e Ht E]; destruct Hok as (Hok & H1 & H2 & H3).
    + pose proof (AddReservation_ok rc now p (Some ip) c log t Hok Ht) as Ha. rewrite E in Ha. destruct Ha as [Hs Hok'].
      unfold spec_reserve in Hs. destruct (Z.leb_spec (MaxReservations rc) (recent (fun _ => true) now log)); [done|].
      destruct (Z.leb_spec (MaxReservationsPerPeer rc) (recent (of_grantee p) now log)); [done|].
      destruct (Z.leb_spec (MaxReservationsPerIP rc) (recent (of_ip ip) now log)); [done|].
      split; [done|]. setoid_rewrite recent_snoc. split_and!; [lia|intros q|intros q].
      * pose proof (recent_later (of_grantee q) t now log Ht). specialize (H2 q). unfold of_grantee at 2. cbn.
        case_bool_decide as Hq; [subst q; lia|lia].
      * pose proof (recent_later (of_ip q) t now log Ht). specialize (H3 q). unfold of_ip at 2. cbn.
        case_bool_decide as Hq; [subst q; lia|lia].
    + pose proof (AddReservation_ok rc now p ip c log t Hok Ht) as Ha. rewrite E in Ha. destruct Ha as [_ Hok'].
      split_and!; [done| |intros q|intros q].
      * pose proof (recent_later (fun _ => true) t now log Ht). lia.
      * pose proof (recent_later (of_grantee q) t now log Ht). specialize (H2 q). lia.
      * pose proof (recent_later (of_ip q) t now log Ht). specialize (H3 q). lia.
Qed.

(** Of the reservations granted in any half hour there are never more than the
    limits for all, for a peer and for an IP address; a request is refused exactly
    when it would exceed one of them or comes from no IP address, and the reason
    given is the first that holds. *)
Theorem reservations_limited rc c log t now p ip :
  0 <= MaxReservations rc -> 0 <= MaxReservationsPerPeer rc -> 0 <= MaxReservationsPerIP rc ->
  constrained rc (c, log, t) -> t <= now ->
  (AddReservation rc now p ip c).1 = spec_reserve rc now p ip log /\
  recent (fun _ => true) now log <= MaxReservations rc /\
  (forall q, recent (of_grantee q) now log <= MaxReservationsPerPeer rc) /\
  (forall i, recent (of_ip i) now log <= MaxReservationsPerIP rc).
Proof.
  intros HM HP HI Hr Ht. destruct (constrained_ok rc _ HM HP HI Hr) as (Hok & H1 & H2 & H3).
  pose proof (AddReservation_ok rc now p ip c log t Hok Ht) as Ha. destruct (AddReservation rc now p ip c) as [e c'].
  split; [by destruct Ha|]. pose proof (recent_later (fun _ => true) t now log Ht). split_and!; [lia|intros q|intros q].
  - pose proof (recent_later (of_grantee q) t now log Ht). specialize (H2 q). lia.
  - pose proof (recent_later (of_ip q) t now log Ht). specialize (H3 q). lia.
Qed.

Definition one_slot : Resources := mkResources None (60 * minute) 1 1 2048 1 1.

(** One slot: taken at time 5, asked for again at 6 and after half an hour. *)
Lemma reservations_limited_witness :
  let c := (AddReservation one_slot 5 "P" (Some "1.1.1.1"%string) newConstraints).2 in
  (AddReservation one_slot 6 "Q" (Some "2.2.2.2"%string) c).1 = Some errTooManyReservations /\
  (AddReservation one_slot (6 + validity) "Q" (Some "2.2.2.2"%string) c).1 = None.
Proof.
  intros c.
  assert (constrained one_slot (c, [(5, "P"%string, "1.1.1.1"%string)], 5)) as Hr.
  { eapply (reach_step _ _ (newConstraints, [], 0)); [by apply reach_init|].
    apply (cs_granted one_slot 5 "P" "1.1.1.1" newConstraints c [] 0); [lia|by vm_compute]. }
  split.
  - rewrite (proj1 (reservations_limited one_slot c _ 5 6 "Q" (Some "2.2.2.2"%string) ltac:(done) ltac:(done) ltac:(done) Hr ltac:(lia))).
    by vm_compute.
  - rewrite (proj1 (reservations_limited one_slot c _ 5 (6 + validity) "Q" (Some "2.2.2.2"%string) ltac:(done) ltac:(done) ltac:(done) Hr
      ltac:(unfold validity, minute, second; lia))).
    by vm_compute.
Defined.

(** ** What the relay promises *)

(** The endpoints of the circuits that are open. *)
Definition ends_at (p : string) (l : list (string * string)) : Z :=
  Z.of_nat (length (filter (fun c => c.1 = p) l)) + Z.of_nat (length (filter (fun c => c.2 = p) l)).

(** How far [Close] has come. *)
Inductive close_stage := cl_open | cl_closed | cl_scope_done | cl_ended.

(** The relay, its requests and its [Close]. *)
Record relay_run := mkRun { rr_relay : Relay; rr_requests : list request; rr_close : close_stage }.

Definition listed (q : option request) (l : list request) : list request := match q with Some q => q :: l | None => l end.

(** [self]: whether peers connect to themselves. *)
Inductive relay_step (self : bool) : relay_run -> relay_run -> Prop :=
  | rs_reserve now p ip isRelay allowed written r l cl :
      relay_step self (mkRun r l cl) (mkRun (handleReserve now p ip isRelay allowed written r).2 l cl)
  | rs_begin span src r l cl :
      relay_step self (mkRun r l cl) (mkRun (connect_begin span src r).2 (listed (connect_begin span src r).1 l) cl)
  | rs_checks memory isRelay dest allowed src r l l' cl :
      l ≡ₚ rq_begun src :: l' ->
      relay_step self (mkRun r l cl) (mkRun r (connect_checks memory isRelay dest allowed src :: l') cl)
  | rs_admit src dest r l l' cl :
      (self = false -> src <> dest) -> l ≡ₚ rq_checked src dest :: l' ->
      relay_step self (mkRun r l cl) (mkRun (connect_admit src dest r).2 ((connect_admit src dest r).1 :: l') cl)
  | rs_refused s r l l' cl :
      l ≡ₚ rq_refused s :: l' -> relay_step self (mkRun r l cl) (mkRun (span_Done r) l' cl)
  | rs_handshake h src dest r l l' cl :
      l ≡ₚ rq_admitted src dest :: l' -> relay_step self (mkRun r l cl) (mkRun r (connect_handshake h src dest :: l') cl)
  | rs_done src dest n r l l' cl :
      l ≡ₚ rq_relaying src dest n :: l' -> relay_step self (mkRun r l cl) (mkRun r (connect_done src dest n :: l') cl)
  | rs_cleanup src dest r l l' cl :
      l ≡ₚ rq_cleanup src dest :: l' -> relay_step self (mkRun r l cl) (mkRun (span_Done r) (rq_removing src dest :: l') cl)
  | rs_removing src dest r l l' cl :
      l ≡ₚ rq_removing src dest :: l' -> relay_step self (mkRun r l cl) (mkRun (connect_remove src dest r) l' cl)
  | rs_gc now r l cl : relay_step self (mkRun r l cl) (mkRun (relay_gc now r) l cl)
  | rs_disconnected connected p r l cl : relay_step self (mkRun r l cl) (mkRun (disconnected connected p r) l cl)
  | rs_Close r l cl :
      relay_step self (mkRun r l cl) (mkRun (relay_Close r).1 l (if (relay_Close r).2 then cl_closed else cl))
  | rs_scope_done r l : relay_step self (mkRun r l cl_closed) (mkRun (close_scope r) l cl_scope_done)
  | rs_close_gc now r l : relay_step self (mkRun r l cl_scope_done) (mkRun (relay_gc now r) l cl_ended).

Definition relaying (self : bool) (rc : Resources) : relay_run -> Prop :=
  reachable (eq (mkRun (new_relay rc) [] cl_open)) (relay_step self).

(** What a request has: a span, and a circuit that is counted. *)
Definition has_span (q : request) : Z := match q with rq_removing _ _ => 0 | _ => 1 end.
Definition circuit_of (q : request) : option (string * string) :=
  match q with
  | rq_admitted src dest | rq_relaying src dest _ | rq_cleanup src dest | rq_removing src dest => Some (src, dest)
  | _ => None
  end.
Definition spans_of (l : list request) : Z := foldr (fun q n => has_span q + n) 0 l.
Definition circuits (l : list request) : list (string * string) := omap circuit_of l.

(** A circuit that relays has one or two goroutines left. *)
Definition request_ok (q : request) : Prop := match q with rq_relaying _ _ n => 0 < n <= 2 | _ => True end.

Record relay_ok (self : bool) (R : Resources) (r : Relay) (l : list request) : Prop := {
  ro_rc : rc r = R;
  ro_spans : spans r = spans_of l;
  ro_conns p : conns_of r p = ends_at p (circuits l);
  ro_nonzero p : conns r !! p <> Some 0;
  ro_limit p : ends_at p (circuits l) <= MaxCircuits R + (if self then 1 else 0);
  ro_requests : Forall request_ok l;
}.

(** What [Close] has done so far. *)
Definition close_ok (cl : close_stage) (r : Relay) : Prop :=
  match cl with
  | cl_open => closed r = false
  | cl_closed => closed r = true
  | cl_scope_done => closed r = true /\ scope_done r = true
  | cl_ended => closed r = true /\ scope_done r = true /\ rsvp r = ∅
  end.

Lemma ends_at_app p l l' : ends_at p (l ++ l') = ends_at p l + ends_at p l'.
Proof. unfold ends_at. rewrite !filter_app, !length_app. lia. Qed.
Lemma ends_at_one p c : ends_at p [c] = (if decide (c.1 = p) then 1 else 0) + (if decide (c.2 = p) then 1 else 0).
Proof. unfold ends_at. cbn [filter list_filter]. by repeat case_decide. Qed.
Lemma ends_at_perm p l l' : l ≡ₚ l' -> ends_at p l = ends_at p l'.
Proof. unfold ends_at. by intros ->. Qed.
Lemma ends_at_nonneg p l : 0 <= ends_at p l.
Proof. unfold ends_at. lia. Qed.

Lemma conns_addConn p q r : conns_of (addConn p r) q = conns_of r q + (if decide (p = q) then 1 else 0).
Proof.
  unfold conns_of, addConn. cbn. destruct (decide (p = q)) as [->|Hne]; [by rewrite lookup_insert_eq|].
  rewrite lookup_insert_ne by done. unfold conns_of. lia.
Qed.

Lemma conns_rmConn p q r :
  0 < conns_of r p -> conns_of (rmConn p r) q = conns_of r q - (if decide (p = q) then 1 else 0).
Proof.
  intros Hp. unfold rmConn. destruct (Z.ltb_spec 0 (conns_of r p - 1)).
  - unfold conns_of at 1. cbn. case_decide as Hq; [subst q; by rewrite lookup_insert_eq|]. rewrite lookup_insert_ne by done. unfold conns_of. lia.
  - unfold conns_of at 1. cbn. case_decide as Hq; [subst q; rewrite lookup_delete_eq; cbn; lia|].
    rewrite lookup_delete_ne by done. unfold conns_of. lia.
Qed.

Lemma rmConn_nonzero p r : (forall q, conns r !! q <> Some 0) -> forall q, conns (rmConn p r) !! q <> Some 0.
Proof.
  intros Hn q. unfold rmConn. destruct (Z.ltb_spec 0 (conns_of r p - 1)); cbn.
  - rewrite lookup_insert_Some. intros [[_ ?]|[_ ?]]; [lia|by eapply Hn].
  - rewrite lookup_delete_Some. intros [_ ?]. by eapply Hn.
Qed.

Lemma addConn_nonzero p r : (forall q, conns r !! q <> Some 0) -> 0 <= conns_of r p -> forall q, conns (addConn p r) !! q <> Some 0.
Proof. intros Hn Hp q. cbn. rewrite lookup_insert_Some. intros [[_ ?]|[_ ?]]; [lia|by eapply Hn]. Qed.

Lemma rmConn_rest p r : rc (rmConn p r) = rc r /\ spans (rmConn p r) = spans r /\ closed (rmConn p r) = closed r /\
  rsvp (rmConn p r) = rsvp r /\ scope_done (rmConn p r) = scope_done r.
Proof. unfold rmConn. by destruct (0 <? _). Qed.

Lemma spans_of_perm l l' : l ≡ₚ l' -> spans_of l = spans_of l'.
Proof. unfold spans_of. induction 1; cbn; lia. Qed.

Lemma circuits_perm l l' : l ≡ₚ l' -> circuits l ≡ₚ circuits l'.
Proof. unfold circuits. by intros ->. Qed.

Lemma circuits_cons q l : circuits (q :: l) = match circuit_of q with Some c => c :: circuits l | None => circuits l end.
Proof. done. Qed.

Lemma relay_ok_perm self R r l l' : l ≡ₚ l' -> relay_ok self R r l -> relay_ok self R r l'.
Proof.
  intros Hl [H1 H2 H3 H4 H5 H6]. split; [done|by rewrite <- (spans_of_perm _ _ Hl)| |done| |by rewrite <- Hl].
  - intros p. by rewrite H3, (ends_at_perm p _ _ (circuits_perm _ _ Hl)).
  - intros p. by rewrite <- (ends_at_perm p _ _ (circuits_perm _ _ Hl)).
Qed.

(** A request moves on and keeps what it has. *)
Lemma request_moves self R r q q' l :
  has_span q' = has_span q -> circuit_of q' = circuit_of q -> request_ok q' ->
  relay_ok self R r (q :: l) -> relay_ok self R r (q' :: l).
Proof.
  intros Hs Hc Hq [H1 H2 H3 H4 H5 H6]. apply Forall_cons in H6 as [_ H6]. rewrite circuits_cons in *.
  split; rewrite ?circuits_cons, ?Hc; try done; [|by constructor]. cbn in *. by rewrite Hs.
Qed.

Lemma spans_of_cons q l : spans_of (q :: l) = has_span q + spans_of l.
Proof. done. Qed.

(** A request gives its span back. *)
Lemma request_span_Done self R r q q' l :
  has_span q = 1 -> (match q' with None => True | Some q1 => has_span q1 = 0 /\ request_ok q1 end) ->
  (q' ≫= circuit_of) = circuit_of q ->
  relay_ok self R r (q :: l) -> relay_ok self R (span_Done r) (listed q' l).
Proof.
  intros Hs Hq' Hc [H1 H2 H3 H4 H5 H6]. apply Forall_cons in H6 as [_ H6]. rewrite spans_of_cons, Hs in H2.
  rewrite circuits_cons, <- Hc in H3, H5.
  destruct q' as [q1|]; cbn [mbind option_bind listed] in *.
  - destruct Hq' as [Hs1 Hok]. split; try done; [rewrite spans_of_cons, Hs1; cbn [span_Done spans set_field]; lia|by constructor].
  - split; try done. cbn. lia.
Qed.

Lemma remove_relay_ok self R r l src dest :
  relay_ok self R r (rq_removing src dest :: l) -> relay_ok self R (connect_remove src dest r) l.
Proof.
  intros [H1 H2 H3 H4 H5 H6]. apply Forall_cons in H6 as [_ H6]. unfold connect_remove. rewrite circuits_cons in *. cbn [circuit_of] in *.
  assert (forall p, ends_at p ((src, dest) :: circuits l) = ends_at p [(src, dest)] + ends_at p (circuits l)) as Hends
    by (intros p; apply (ends_at_app p [(src, dest)])).
  destruct (rmConn_rest src r) as (A1 & A2 & _). destruct (rmConn_rest dest (rmConn src r)) as (B1 & B2 & _).
  pose proof (ends_at_nonneg src (circuits l)). pose proof (ends_at_nonneg dest (circuits l)).
  assert (0 < conns_of r src) as Hsrc
    by (rewrite H3, Hends, ends_at_one; cbn; rewrite decide_True by done; case_decide; lia).
  assert (0 < conns_of (rmConn src r) dest) as Hdest.
  { rewrite conns_rmConn, H3, Hends, ends_at_one by done. cbn. rewrite (decide_True (P := dest = dest)) by done. repeat case_decide; lia. }
  split.
  - by rewrite B1, A1.
  - rewrite B2, A2. exact H2.
  - intros p. rewrite conns_rmConn, conns_rmConn, H3, Hends, ends_at_one by done. cbn. lia.
  - by apply rmConn_nonzero, rmConn_nonzero.
  - intros p. specialize (H5 p). rewrite Hends, ends_at_one in H5. repeat case_decide; lia.
  - done.
Qed.

(** What the critical section of an admission does. *)
Lemma admit_cases src dest r (q := (connect_admit src dest r).1) (r' := (connect_admit src dest r).2) :
  (q = rq_admitted src dest /\ r' = addConn dest (addConn src r) /\ is_Some (rsvp r !! dest) /\
   conns_of r src < MaxCircuits (rc r) /\ conns_of r dest < MaxCircuits (rc r)) \/
  ((exists s, q = rq_refused s) /\ r' = r /\
   (rsvp r !! dest = None \/ MaxCircuits (rc r) <= conns_of r src \/ MaxCircuits (rc r) <= conns_of r dest)).
Proof.
  subst q r'. unfold connect_admit. destruct (rsvp r !! dest) eqn:Hr; [|right; eauto].
  destruct (Z.leb_spec (MaxCircuits (rc r)) (conns_of r src)); [right; eauto 10|].
  destruct (Z.leb_spec (MaxCircuits (rc r)) (conns_of r dest)); [right; eauto 10|]. left. by split_and!.
Qed.

Lemma admit_relay_ok self R r l src dest :
  (self = false -> src <> dest) -> relay_ok self R r (rq_checked src dest :: l) ->
  relay_ok self R (connect_admit src dest r).2 ((connect_admit src dest r).1 :: l).
Proof.
  intros Hself Hok. destruct (admit_cases src dest r) as [(-> & -> & _ & Hs & Hd)|((s & ->) & -> & _)];
    [|by apply (request_moves self R r (rq_checked src dest))].
  destruct Hok as [H1 H2 H3 H4 H5 H6]. apply Forall_cons in H6 as [_ H6].
  rewrite circuits_cons in *. cbn [circuit_of] in *. rewrite !H3, H1 in *.
  assert (forall p, ends_at p ((src, dest) :: circuits l) = ends_at p [(src, dest)] + ends_at p (circuits l)) as Hends
    by (intros p; apply (ends_at_app p [(src, dest)])).
  split; rewrite ?circuits_cons; cbn [circuit_of].
  - done.
  - exact H2.
  - intros p. rewrite !conns_addConn, Hends, ends_at_one, H3. cbn. lia.
  - apply addConn_nonzero; [apply addConn_nonzero; [done|]|].
    + rewrite H3. apply ends_at_nonneg.
    + rewrite conns_addConn, H3. pose proof (ends_at_nonneg dest (circuits l)). case_decide; lia.
  - intros p. rewrite Hends, ends_at_one. cbn. specialize (H5 p).
    destruct (decide (src = p)) as [Hsp|], (decide (dest = p)) as [Hdp|]; subst; [|lia|lia|lia].
    destruct self; [lia|]. by destruct (Hself eq_refl).
  - by constructor.
Qed.

Lemma reserve_rest now p ip isRelay allowed written r :
  let r' := (handleReserve now p ip isRelay allowed written r).2 in
  rc r' = rc r /\ spans r' = spans r /\ conns r' = conns r /\ closed r' = closed r /\ scope_done r' = scope_done r /\
  (closed r = true -> rsvp r' = rsvp r).
Proof.
  unfold handleReserve. destruct isRelay, allowed; try done. destruct (closed r) eqn:Hc; [done|]. cbn [negb].
  destruct (match rsvp r !! p with Some _ => _ | None => _ end) as [[e|] c]; done.
Qed.

Lemma gc_conns now r p : (forall q, conns r !! q <> Some 0) -> conns (relay_gc now r) !! p = conns r !! p.
Proof.
  intros Hn. cbn. destruct (conns r !! p) as [n|] eqn:Hp; [|apply map_lookup_filter_None_2; by left].
  apply map_lookup_filter_Some_2; [done|]. cbn. intros ->. by eapply Hn.
Qed.

Lemma relay_gc_ok self R now r l : relay_ok self R r l -> relay_ok self R (relay_gc now r) l.
Proof.
  intros [H1 H2 H3 H4 H5 H6]. split; try done.
  - intros p. unfold conns_of. rewrite gc_conns by done. apply H3.
  - intros p. by rewrite gc_conns.
Qed.

(** On a closed relay the collector leaves no reservation. *)
Lemma relay_gc_closed now r : closed r = true -> rsvp (relay_gc now r) = ∅.
Proof.
  intros Hc. cbn. apply map_eq. intros p. rewrite lookup_empty. apply map_lookup_filter_None_2. right. intros x _ [? _]. congruence.
Qed.

(** The parts of the relay that a step of a request does not touch. *)
Lemma close_ok_same cl r r' :
  closed r' = closed r -> scope_done r' = scope_done r -> rsvp r' = rsvp r -> close_ok cl r -> close_ok cl r'.
Proof. intros E1 E2 E3. unfold close_ok. by rewrite E1, E2, E3. Qed.

Lemma relay_step_ok self R st st' : relay_step self st st' ->
  relay_ok self R (rr_relay st) (rr_requests st) -> relay_ok self R (rr_relay st') (rr_requests st').
Proof.
  intros Hst Hok. destruct Hst as [now p ip b1 b2 b3 r l cl|span src r l cl|b1 b2 dest b3 src r l l' cl Hl|src dest r l l' cl Hself Hl
    |s r l l' cl Hl|h src dest r l l' cl Hl|src dest n r l l' cl Hl|src dest r l l' cl Hl|src dest r l l' cl Hl|now r l cl|cn p r l cl
    |r l cl|r l|now r l]; cbn [rr_relay rr_requests] in *; try apply (relay_ok_perm _ _ _ _ _ Hl) in Hok.
  - destruct (reserve_rest now p ip b1 b2 b3 r) as (A1 & A2 & A3 & _). destruct Hok as [H1 H2 H3 H4 H5 H6].
    split; [by rewrite A1|by rewrite A2|intros q; unfold conns_of; rewrite A3; apply H3|intros q; by rewrite A3|done|done].
  - unfold connect_begin, BeginSpan. destruct (span && _); [|done]. destruct Hok as [H1 H2 H3 H4 H5 H6].
    split; try done; [change (spans r + 1 = 1 + spans_of l); lia|by constructor].
  - apply (request_moves _ _ _ (rq_begun src)); [..|exact Hok]; unfold connect_checks; by repeat case_match.
  - by apply admit_relay_ok.
  - apply (request_span_Done self R r (rq_refused s) None); done.
  - apply (request_moves _ _ _ (rq_admitted src dest)); [..|exact Hok]; by destruct h.
  - apply (request_moves _ _ _ (rq_relaying src dest n)); [..|exact Hok]; unfold connect_done; cbn; try (by case_match).
    pose proof (proj1 (proj1 (Forall_cons _ _ _) (ro_requests _ _ _ _ Hok))) as Hn. cbn in Hn.
    destruct (Z.eqb_spec (n - 1) 0); cbn; [done|lia].
  - apply (request_span_Done self R r (rq_cleanup src dest) (Some (rq_removing src dest))); done.
  - by apply remove_relay_ok.
  - by apply relay_gc_ok.
  - unfold disconnected. destruct cn; [done|]. by destruct Hok.
  - unfold relay_Close. destruct (closed r); [done|]. by destruct Hok.
  - by destruct Hok.
  - by apply relay_gc_ok.
Qed.

Lemma relay_step_close self st st' : relay_step self st st' ->
  close_ok (rr_close st) (rr_relay st) -> close_ok (rr_close st') (rr_relay st').
Proof.
  intros Hst Hok. destruct Hst as [now p ip b1 b2 b3 r l cl|span src r l cl|b1 b2 dest b3 src r l l' cl Hl|src dest r l l' cl Hself Hl
    |s r l l' cl Hl|h src dest r l l' cl Hl|src dest n r l l' cl Hl|src dest r l l' cl Hl|src dest r l l' cl Hl|now r l cl|cn p r l cl
    |r l cl|r l|now r l]; cbn [rr_relay rr_close] in *; try done.
  - destruct (reserve_rest now p ip b1 b2 b3 r) as (_ & _ & _ & A4 & A5 & A6). unfold close_ok in *. rewrite A4, A5.
    destruct cl; try done. destruct Hok as (Hc & Hs & Hr). by rewrite A6.
  - unfold connect_begin, BeginSpan. destruct (span && _); [|done]. by apply (close_ok_same cl r).
  - destruct (admit_cases src dest r) as [(_ & -> & _)|(_ & -> & _)]; [by apply (close_ok_same cl r)|done].
  - unfold connect_remove. destruct (rmConn_rest src r) as (_ & _ & A3 & A4 & A5).
    destruct (rmConn_rest dest (rmConn src r)) as (_ & _ & B3 & B4 & B5). apply (close_ok_same cl r); congruence.
  - unfold close_ok in *. destruct cl; try done. destruct Hok as (Hc & Hs & Hr). split_and!; [done|done|by apply relay_gc_closed].
  - unfold disconnected. destruct cn; [done|]. unfold close_ok in *. destruct cl; try done. destruct Hok as (Hc & Hs & Hr).
    split_and!; [done|done|]. cbn. rewrite Hr. apply delete_empty.
  - unfold relay_Close. destruct (closed r) eqn:Hc; done.
  - destruct Hok as [Hc Hs]. split_and!; [done|done|by apply relay_gc_closed].
Qed.

Lemma relaying_ok self R st : 0 <= MaxCircuits R -> relaying self R st ->
  relay_ok self R (rr_relay st) (rr_requests st) /\ close_ok (rr_close st) (rr_relay st).
Proof.
  intros HM. apply (reachable_invariant _ _ (fun st => relay_ok self R (rr_relay st) (rr_requests st) /\ close_ok (rr_close st) (rr_relay st))).
  - intros s <-. split; [|done]. split; try done. intros p. cbn. unfold ends_at. cbn. destruct self; lia.
  - intros s s' [Hok Hcl] Hst. split; [by eapply relay_step_ok|by eapply relay_step_close].
Qed.

(** C16: In every run of the relay, whatever its requests, their goroutines, the
    collector and [Close] interleave: the spans it holds are those of its requests
    that have not given theirs back, and the connections it counts for a peer are
    the ends at that peer of circuits that are admitted and not cleaned up, so that
    with the last request both are given back, however it ends, and a circuit that relays
    has a goroutine left to clean it up; no peer has more
    than the limit, or one more when it connects to itself; a circuit is opened to
    peers with a reservation only, and refused exactly when there is none or an end
    is at its limit, leaving the counters as they were; and once [Close] has ended
    the relay has no reservations and takes no request any more. *)
Theorem relay_circuits_exact self R r l cl :
  0 <= MaxCircuits R -> relaying self R (mkRun r l cl) ->
  spans r = spans_of l /\
  (forall p, conns_of r p = ends_at p (circuits l) /\ ends_at p (circuits l) <= MaxCircuits R + (if self then 1 else 0)) /\
  (l = [] -> spans r = 0 /\ conns r = ∅) /\
  (forall src dest n, rq_relaying src dest n ∈ l -> 0 < n <= 2) /\
  (cl = cl_ended -> closed r = true /\ rsvp r = ∅ /\ forall span src, connect_begin span src r = (None, r)) /\
  forall src dest q r', connect_admit src dest r = (q, r') ->
    (q = rq_admitted src dest /\ is_Some (rsvp r !! dest) /\
       ends_at src (circuits l) < MaxCircuits R /\ ends_at dest (circuits l) < MaxCircuits R) \/
    ((exists s, q = rq_refused s) /\ r' = r /\
       (rsvp r !! dest = None \/ MaxCircuits R <= ends_at src (circuits l) \/ MaxCircuits R <= ends_at dest (circuits l))).
Proof.
  intros HM Hr. destruct (relaying_ok self R _ HM Hr) as [Hok Hcl]. cbn [rr_relay rr_requests rr_close] in *.
  split; [by apply Hok|]. split; [|split; [|split; [|split]]].
  - intros p. split; apply Hok.
  - intros ->. split; [apply (ro_spans _ _ _ _ Hok)|]. apply map_eq. intros p. rewrite lookup_empty.
    destruct (conns r !! p) as [n|] eqn:Hp; [|done]. exfalso.
    pose proof (ro_conns _ _ _ _ Hok p) as Hc. unfold conns_of in Hc. rewrite Hp in Hc. cbn in Hc. subst n.
    by eapply (ro_nonzero _ _ _ _ Hok).
  - intros src dest n Hin. pose proof (ro_requests _ _ _ _ Hok) as Hall. rewrite Forall_forall in Hall. exact (Hall _ Hin).
  - intros ->. destruct Hcl as (Hc & Hs & Hv). split_and!; [done|done|]. intros span src.
    unfold connect_begin, BeginSpan. rewrite Hs. by destruct span.
  - intros src dest q r' E. pose proof (admit_cases src dest r) as Hc. rewrite E in Hc. cbn [fst snd] in Hc.
    rewrite !(ro_conns _ _ _ _ Hok), (ro_rc _ _ _ _ Hok) in Hc.
    destruct Hc as [(? & ? & ? & ? & ?)|(? & ? & ?)]; [by left|by right].
Qed.

(** A relay with one slot and one circuit per peer, on which "P" has reserved. *)
Definition reserved_relay : Relay := (handleReserve 0 "P" (Some "1.1.1.1"%string) false true true (new_relay one_slot)).2.

(** "Q" opens a circuit to "P", which one goroutine has left. *)
Lemma relay_circuits_exact_witness :
  let r := (connect_admit "Q" "P" (connect_begin true "Q" reserved_relay).2).2 in
  conns_of r "P" = 1 /\ spans r = 1 /\ conns (connect_remove "Q" "P" (span_Done r)) = ∅.
Proof.
  intros r. set (r1 := (connect_begin true "Q" reserved_relay).2).
  assert (relaying false one_slot (mkRun r [rq_relaying "Q" "P" 1] cl_open)) as Hr.
  { eapply (reach_step _ _ (mkRun r [rq_relaying "Q" "P" 2] cl_open));
      [|exact (rs_done false "Q" "P" 2 r _ [] cl_open (Permutation_refl _))].
    eapply (reach_step _ _ (mkRun r [rq_admitted "Q" "P"] cl_open));
      [|exact (rs_handshake false hs_done "Q" "P" r _ [] cl_open (Permutation_refl _))].
    eapply (reach_step _ _ (mkRun r1 [rq_checked "Q" "P"] cl_open));
      [|exact (rs_admit false "Q" "P" r1 _ [] cl_open ltac:(done) (Permutation_refl _))].
    eapply (reach_step _ _ (mkRun r1 [rq_begun "Q"] cl_open));
      [|exact (rs_checks false true false (Some "P"%string) true "Q" r1 _ [] cl_open (Permutation_refl _))].
    eapply (reach_step _ _ (mkRun reserved_relay [] cl_open)); [|exact (rs_begin false true "Q" reserved_relay [] cl_open)].
    eapply (reach_step _ _ (mkRun (new_relay one_slot) [] cl_open)); [by apply reach_init|].
    exact (rs_reserve false 0 "P" (Some "1.1.1.1"%string) false true true (new_relay one_slot) [] cl_open). }
  assert (relaying false one_slot (mkRun (connect_remove "Q" "P" (span_Done r)) [] cl_open)) as Hr'.
  { eapply reach_step; [|exact (rs_removing false "Q" "P" (span_Done r) _ [] cl_open (Permutation_refl _))].
    eapply reach_step; [|exact (rs_cleanup false "Q" "P" r _ [] cl_open (Permutation_refl _))].
    eapply reach_step; [exact Hr|exact (rs_done false "Q" "P" 1 r _ [] cl_open (Permutation_refl _))]. }
  destruct (relay_circuits_exact false one_slot r _ cl_open ltac:(done) Hr) as (Hs & Hc & _).
  destruct (relay_circuits_exact false one_slot _ [] cl_open ltac:(done) Hr') as (_ & _ & H0 & _).
  split; [rewrite (proj1 (Hc "P"%string)); by vm_compute|]. split; [rewrite Hs; by vm_compute|by apply H0].
Defined.

(** A reservation lasts an hour and can be refreshed for ever, but counts against
    the limits for half an hour only: after that the relay grants a second one
    although it has one slot. *)
Example slots_outlive_constraints :
  let r := (handleReserve (31 * minute) "Q" (Some "2.2.2.2"%string) false true true reserved_relay).2 in
  let r' := relay_gc (32 * minute) r in
  MaxReservations (rc r') = 1 /\ rsvp r' !! "P"%string = Some (60 * minute) /\ rsvp r' !! "Q"%string = Some (91 * minute).
Proof. by vm_compute. Qed.

(** A peer that connects to itself counts twice, and the limit is tested before:
    it has two ends with a limit of one. *)
Example self_circuit_exceeds_limit :
  let r := (connect_admit "P" "P" reserved_relay).2 in
  MaxCircuits (rc r) = 1 /\ conns_of r "P" = 2.
Proof. by vm_compute. Qed.

(** A peer whose reservation has ended keeps its place in the constraints: it
    cannot come back within the half hour when the relay is full of such places. *)
Example disconnected_keeps_place :
  let r := disconnected false "P" reserved_relay in
  rsvp r = ∅ /\ (handleReserve minute "P" (Some "1.1.1.1"%string) false true true r).1 = RESERVATION_REFUSED.
Proof. by vm_compute. Qed.

(** ** Copying

    A source is the script of what its reads give: data with how the read ends
    ([None]: no error); data longer than the buffer is left for the next read.  A
    destination is the script of what its writes return, a count and whether
    there is an error; when it runs out a write takes everything. *)

Inductive read_end := EOF | ReadError.
Inductive copy_error := copy_ReadError | copy_WriteError | errInvalidWrite | ErrShortWrite.

#[local] Abbreviation source := (list (list byte * option read_end)).

Definition src_Read (k : nat) (s : source) : list byte * option read_end * source :=
  match s with
  | [] => ([], Some EOF, [])
  | (d, e) :: s => if Nat.leb (length d) k then (d, e, s) else (take k d, None, (drop k d, e) :: s)
  end.

(** [io.LimitReader]: [quota] is what may still be read, [None] without a limit. *)
Definition limit_Read (k : nat) (quota : option nat) (s : source) : list byte * option read_end * (option nat * source) :=
  match quota with
  | None => let '(d, e, s) := src_Read k s in (d, e, (None, s))
  | Some 0%nat => ([], Some EOF, (Some 0%nat, s))
  | Some n => let '(d, e, s) := src_Read (Nat.min k n) s in (d, e, (Some (n - length d)%nat, s))
  end.

(** One write: the bytes that are taken, the count and the error the loop sees,
    the rest of the script. *)
Definition dst_Write (p : list byte) (w : list (Z * bool)) : list byte * option copy_error * list (Z * bool) :=
  match w with
  | [] => (p, None, [])
  | (nw, ew) :: w =>
      if (nw <? 0) || (Z.of_nat (length p) <? nw) then ([], Some (if ew then copy_WriteError else errInvalidWrite), w)
      else (take (Z.to_nat nw) p,
            if ew then Some copy_WriteError else if nw =? Z.of_nat (length p) then None else Some ErrShortWrite, w)
  end.

Fixpoint copy_loop (fuel : nat) (BufferSize : nat) (quota : option nat) (src : source) (dst : list (Z * bool)) (written : list byte) :
    outcome (list byte * option copy_error) :=
  match fuel with
  | O => Panic
  | S fuel =>
      let '(buf, er, (quota, src)) := limit_Read BufferSize quota src in
      let '(out, ew, dst) := match buf with [] => ([], None, dst) | _ => dst_Write buf dst end in
      let written := written ++ out in
      match ew with
      | Some e => Ok (written, Some e)
      | None =>
          match er with
          | Some EOF => Ok (written, None)
          | Some ReadError => Ok (written, Some copy_ReadError)
          | None => copy_loop fuel BufferSize quota src dst written
          end
      end
  end.

Definition source_data (s : source) : list byte := concat s.*1.

(** Every turn but the last uses up bytes or a result. *)
Definition copy_turns (s : source) : nat := S (length (source_data s) + length s).

Definition copyWithBuffer (BufferSize : nat) (quota : option nat) (src : source) (dst : list (Z * bool)) :
    outcome (list byte * option copy_error) :=
  copy_loop (copy_turns src) BufferSize quota src dst [].

(** What a direction of a circuit does when its copy ends. *)
Inductive stream_end := reset_both | close_write | close_write_discard.
Definition relayLimited (BufferSize : nat) (limit : nat) (src : source) (dst : list (Z * bool)) : outcome (list byte * stream_end) :=
  match copyWithBuffer BufferSize (Some limit) src dst with
  | Ok (out, Some _) => Ok (out, reset_both)
  | Ok (out, None) => Ok (out, if Nat.eqb (length out) limit then close_write_discard else close_write)
  | Panic => Panic
  end.
Definition relayUnlimited (BufferSize : nat) (src : source) (dst : list (Z * bool)) : outcome (list byte * stream_end) :=
  match copyWithBuffer BufferSize None src dst with
  | Ok (out, Some _) => Ok (out, reset_both)
  | Ok (out, None) => Ok (out, close_write)
  | Panic => Panic
  end.

(** The data up to the first read that does not succeed. *)
Fixpoint readable (s : source) : list byte :=
  match s with
  | [] => []
  | (d, None) :: s => d ++ readable s
  | (d, Some _) :: _ => d
  end.
Definition upto (quota : option nat) (l : list byte) : list byte := match quota with Some n => take n l | None => l end.

Lemma src_Read_spec k s :
  (0 < k)%nat ->
  let '(d, e, s') := src_Read k s in
  (length d <= k)%nat /\ (e = None -> (copy_turns s' < copy_turns s)%nat) /\
  readable s = d ++ (match e with None => readable s' | Some _ => [] end).
Proof.
  intros Hk. unfold copy_turns, source_data. destruct s as [|[d e] s]; cbn; [split_and!; [lia|done|done]|].
  destruct (Nat.leb_spec (length d) k); cbn; rewrite ?length_app, ?length_take, ?length_drop.
  - split_and!; [done|intros; lia|]. destruct e; by rewrite ?app_nil_r.
  - split_and!; [lia|intros; lia|]. destruct e; by rewrite ?app_assoc, take_drop.
Qed.

Lemma limit_Read_spec k quota s :
  (0 < k)%nat ->
  let '(d, e, (quota', s')) := limit_Read k quota s in
  (e = None -> (copy_turns s' < copy_turns s)%nat) /\
  upto quota (readable s) = d ++ (match e with None => upto quota' (readable s') | Some _ => [] end).
Proof.
  intros Hk. destruct quota as [[|n]|]; cbn [limit_Read upto].
  - split; [done|]. done.
  - pose proof (src_Read_spec (k `min` S n) s ltac:(lia)) as H. destruct (src_Read _ s) as [[d e] s']. destruct H as (Hl & Ht & Hr).
    split; [done|]. cbn [upto]. rewrite Hr, take_app. rewrite (take_ge d) by lia. f_equal. destruct e; [by rewrite take_nil|done].
  - pose proof (src_Read_spec k s Hk) as H. destruct (src_Read _ s) as [[d e] s']. by destruct H as (_ & Ht & Hr).
Qed.

Lemma dst_Write_spec p w :
  let '(out, e, w') := dst_Write p w in out `prefix_of` p /\ (e = None -> out = p) /\ (w = [] -> e = None /\ w' = []).
Proof.
  destruct w as [|[nw ew] w]; cbn; [done|]. destruct (Z.ltb_spec nw 0); cbn; [split_and!; [apply prefix_nil|done|done]|].
  destruct (Z.ltb_spec (Z.of_nat (length p)) nw); cbn; [split_and!; [apply prefix_nil|done|done]|].
  split_and!; [apply prefix_take| |done]. destruct ew; [done|]. destruct (Z.eqb_spec nw (Z.of_nat (length p))); [|done].
  intros _. subst nw. by rewrite Nat2Z.id, take_ge.
Qed.

Lemma copy_loop_spec fuel k quota s w written :
  (0 < k)%nat -> (copy_turns s <= fuel)%nat ->
  exists out e, copy_loop fuel k quota s w written = Ok (written ++ out, e) /\ out `prefix_of` upto quota (readable s) /\
    (e = None -> out = upto quota (readable s)) /\
    (w = [] -> out = upto quota (readable s) /\ (e = None \/ e = Some copy_ReadError)).
Proof.
  intros Hk. revert quota s w written. induction fuel as [|fuel IH]; intros quota s w written Hf; [unfold copy_turns in Hf; lia|].
  cbn [copy_loop]. pose proof (limit_Read_spec k quota s Hk) as Hr. destruct (limit_Read k quota s) as [[d er] [quota' s']].
  destruct Hr as [Ht Hr].
  assert (let '(out, ew, w') := match d with [] => ([], None, w) | _ => dst_Write d w end in
    out `prefix_of` d /\ (ew = None -> out = d) /\ (w = [] -> ew = None /\ w' = [])) as Hw
    by (destruct d; [by split_and!|apply dst_Write_spec]).
  destruct (match d with [] => _ | _ => _ end) as [[out ew] w']. destruct Hw as (H1 & H2 & H3). rewrite Hr.
  destruct ew as [e|].
  { exists out, (Some e). split_and!; [done|by apply prefix_app_r|done|]. intros Hnil. by destruct (H3 Hnil). }
  rewrite H2 in * by done. destruct er as [[|]|].
  - exists d, None. rewrite app_nil_r. by split_and!; [| | |intros _; split; [|left]].
  - exists d, (Some copy_ReadError). rewrite app_nil_r. by split_and!; [| | |intros _; split; [|right]].
  - destruct (IH quota' s' w' (written ++ d)) as (out' & e & E & P1 & P2 & P3); [specialize (Ht eq_refl); lia|].
    exists (d ++ out'), e. rewrite E, app_assoc. split_and!; [done|by apply prefix_app|intros He; by rewrite P2|].
    intros Hnil. destruct (H3 Hnil) as [_ Hw']. destruct (P3 Hw') as [-> ?]. done.
Qed.

(** Copying ends; what reaches the other side is an unchanged prefix of what can be
    read, never more than the limit; all of it up to the limit unless a write
    fails; and the streams are reset exactly on an error. *)
Theorem relay_copy_exact BufferSize limit src dst :
  (0 < BufferSize)%nat ->
  exists out e, relayLimited BufferSize limit src dst = Ok (out, e) /\
    out `prefix_of` readable src /\ (length out <= limit)%nat /\
    (e <> reset_both -> out = take limit (readable src)) /\
    (dst = [] -> out = take limit (readable src)) /\
    (e = close_write_discard -> length out = limit).
Proof.
  intros Hk. unfold relayLimited, copyWithBuffer.
  destruct (copy_loop_spec (copy_turns src) BufferSize (Some limit) src dst [] Hk ltac:(lia)) as (out & e & -> & P1 & P2 & P3).
  cbn [app upto] in *.
  assert (out `prefix_of` readable src /\ (length out <= limit)%nat) as [Hp Hl].
  { split; [etrans; [exact P1|apply prefix_take]|]. apply prefix_length in P1. rewrite length_take in P1. lia. }
  destruct e as [e|]; eexists _, _; (split; [reflexivity|]).
  - split_and!; try done. intros Hnil. by apply P3.
  - split_and!; try done; [intros _; by apply P2|intros _; by apply P2|]. by destruct (Nat.eqb_spec (length out) limit).
Qed.

Lemma relay_copy_exact_witness :
  (0 < 2)%nat /\ exists out e, relayLimited 2 4 [([Byte.x01; Byte.x02; Byte.x03], None); ([Byte.x04; Byte.x05], Some EOF)] [] = Ok (out, e) /\
    out = [Byte.x01; Byte.x02; Byte.x03; Byte.x04].
Proof.
  split; [lia|].
  destruct (relay_copy_exact 2 4 [([Byte.x01; Byte.x02; Byte.x03], None); ([Byte.x04; Byte.x05], Some EOF)] [] ltac:(lia))
    as (out & e & E & _ & _ & _ & H & _).
  exists out, e. split; [exact E|]. rewrite H by done. by vm_compute.
Defined.
